(* ===== verification/_CoqProject ===== *)
-Q . S2P
Prelude.v
Bytes.v
Parsing.v
RaknetSequence.v
RaknetBudget.v
RaknetWire.v
RaknetPeer.v
RaknetPeerInv.v
RaknetTransfer.v
RaknetLoop.v
RaknetReliability.v
RaknetDelivery.v
VoxelModel.v
VoxelItems.v
VoxelContent.v
VoxelState.v
VoxelOverlay.v
VoxelWindow.v
VoxelClick.v
VoxelWorld.v
VoxelEvents.v
VoxelOps.v
VoxelKeeps.v
VoxelRefine.v
VoxelTx.v
VoxelInvariant.v
VoxelCommit.v
VoxelReach.v
VoxelHidden.v
VoxelTransfer.v
CoreJournal.v
ProtoPacket.v
JavaSlots.v
JavaSession.v
JavaChunks.v
JavaColumns.v
JavaPlay.v
Je5.v
Je47.v
Je340.v
Je404.v
Je775.v
JavaAdapter.v
JavaClient.v
AnvilNbt.v
AnvilChunk.v
AnvilPlayer.v
AnvilRegion.v
AnvilStorage.v
AnvilLimits.v
RevyCore.v
PluginBinary.v
PluginInventory.v
PluginShared.v
PluginProtocol.v
PluginStorage.v
PluginGameplay.v
PluginAdmin.v
PluginHostBlob.v
PluginMessages.v
PluginCall.v
PluginSdk.v
PluginFailures.v
PluginAdapter.v
PluginIsolation.v
PluginQuarantine.v
HandoffMessages.v
HandoffStream.v
HandoffArena.v
HandoffCutover.v
RaknetServer.v
RaknetRouter.v
RaknetMigration.v
