(* ===== verification/Prelude.v ===== *)
(** * RevyCraft: a verification library

    RevyCraft is a voxel-game server in Rust: a deterministic core keeps the world and the
    players, content packs and gameplay plugins supply its rules, protocol plugins translate for
    the clients, which connect over TCP or over RakNet, and a running server can hand everything
    over to a new executable.  This library models the RakNet transport, the protocol of the Java
    editions, the boundary between the host and its plugins, the voxel core, the storage of its
    world and the executable handoff, operation by operation, and proves what makes them correct.
    File and function names below are those of the sources under [src/]; [crates/] abbreviates
    [src/crates/].

    ** How the parts interact

    A datagram reaches the router of the server ([RaknetServer]), which answers the offline
    handshake itself and hands every other datagram to the task of its peer ([RaknetLoop]); that
    runs the handlers of the actor ([RaknetPeer]) on the decoded frames ([RaknetWire],
    [RaknetSequence]), and payloads in order go to the application's queue.  A checkpoint of a
    frozen peer ([RaknetTransfer]) moves it to a successor process, and the router freezes,
    seals and imports its peers together.

    The bytes of a Java client are cut into frames ([ProtoPacket]), and the adapter of its version
    ([JavaAdapter]) reads a frame as a command and writes events as frames ([JavaSession]).  Such
    an adapter is a plugin: the host finds it by its probe ([PluginQuarantine]) and calls it
    through [PluginAdapter], which writes the request as a message ([PluginMessages]), calls the
    exported function of the library ([PluginCall]), where the SDK dispatches it ([PluginSdk]),
    and reads the answer; a failure goes to the failure policy ([PluginFailures]).

    What a player asks of the game becomes a [CoreCommand] ([VoxelEvents]).  A command becomes
    operations, directly or through a transaction ([VoxelTx]) that previews them on an overlay
    ([VoxelOverlay]) of the core ([VoxelState]); [reduce_core_op] ([VoxelOps]) runs an operation by
    the handlers of [VoxelWindow], [VoxelClick] and [VoxelWorld], which are written once against
    the interface [CoreStateRead]/[CoreStateMut] and so run on the core and on an overlay alike;
    their report becomes events.  The content pack ([VoxelContent]) is reached through the class
    [ContentBehavior] ([VoxelItems]).

    A [CoreVersion] is a core with a revision; the server's store ([CoreJournal]) publishes one,
    each commit replaces it by the next ([VoxelTransfer]), and while a successor process or a
    reload is prepared a journal retains what is committed meanwhile.  The handoff itself
    ([HandoffCutover]) sends envelopes ([HandoffMessages]) over a control stream ([HandoffStream])
    and the state through a shared arena ([HandoffArena]).

    ** Files

    Shared:
    - [Prelude]: the [result] type and the state-and-error monad [M] of fallible Rust
      methods, saturating and wrapping arithmetic, generic lemmas, tactics, the hint databases;
    - [Bytes]: fixed-width integers over octets;
    - [Parsing]: what a writer and a reader over bytes promise ([parses], [ends]);
    - [RevyCore] (crates/core/revy-core/src: capabilities.rs, revision.rs, routing.rs).

    RakNet ([crates/network/revy-raknet/src]):
    - [RaknetSequence] (sequence.rs): 24-bit counters, compact histories;
    - [RaknetBudget] (budget.rs, lib.rs): budgets and errors;
    - [RaknetWire] (wire.rs): the codec of the offline handshake, datagrams, acknowledgements;
    - [RaknetPeer] (peer.rs): [PeerActor] and its handlers; [RaknetPeerInv]: the invariant
      [actor_ok] and a weakest-precondition calculus that carries it through every handler;
    - [RaknetTransfer] (peer.rs): checkpoint, validation, restoration;
    - [RaknetLoop] (peer.rs): the task, its queues and its handles as a step relation;
    - [RaknetReliability], [RaknetDelivery]: what the handlers achieve together;
    - [RaknetServer] (server.rs, [PeerControl] of peer.rs): the router with its branches as
      [router_event], the commands as [run_command], the methods of the handle as [handle_call];
      [RaknetRouter]: what every run of the server keeps; [RaknetMigration]: freezing, sealing,
      importing and resuming its peers.

    Java edition ([crates/protocol], [src/plugins/protocol]):
    - [ProtoPacket] (mc-proto-common: packet.rs, wire.rs; the read loop of session/spawn.rs):
      packets, frames, what is written is read ([writes], [reads]), reading is total ([total]);
    - [JavaSlots] (mc-proto-je-common/src/__version_support: blocks.rs, inventory, metadata.rs,
      positions.rs): identifiers, window layouts, slots and their NBT, packed positions;
    - [JavaSession] (mc-proto-je-common/src: adapter.rs, handshake.rs, login.rs, status.rs):
      what a session remembers, the class [JavaEditionProfile] a version implements, the
      dispatch of events to it;
    - [JavaChunks] (__version_support/chunks.rs): section data, palettes and packed words;
      [JavaColumns]: a client's reading of a column;
    - [JavaPlay] (what the decoding.rs and encoding.rs of the versions repeat), [Je5], [Je47],
      [Je340], [Je404], [Je775] (src/plugins/protocol/je-*: one crate each);
    - [JavaAdapter]: the five versions side by side, on any frame; [JavaClient]: the packets of
      the play phase as a client writes them, and what they mean.

    Voxel core ([crates/core], [crates/content]):
    - [VoxelModel], [VoxelItems] (revy-voxel-semantic/src/model.rs, rules.rs; inventory/util.rs);
    - [VoxelContent] (mc-content-canonical/src): the content pack, an instance of the class;
    - [VoxelState] (core/mod.rs, world.rs, state_backend.rs, inventory/state.rs): the stores,
      the interface and its instance on the core;
    - [VoxelOverlay] (state_backend.rs): its instance on an overlay, [materialize_into], and
      the class [StateRefines], which says that an overlay stands for a core;
    - [VoxelWindow] (inventory/lifecycle.rs, sync.rs), [VoxelClick] (inventory/click.rs),
      [VoxelWorld] (mutation.rs, mining.rs, tick.rs, login.rs): the handlers;
    - [VoxelEvents] (events.rs, inventory/sync.rs): commands, events, window differences;
    - [VoxelOps] (canonical.rs and the collectors and event functions around it): [CoreOp],
      [reduce_core_op], [CoreEventBuilder], batches, the scheduler's tick;
    - [VoxelTx] (transaction.rs, command.rs, revy-voxel-semantic/src/gameplay.rs): read sets,
      journals, commits, the built-in commands, logins, the effects of plugins;
    - [VoxelKeeps]: the class [StateKeeps] and what every handler keeps of a property whose
      interface operations keep it; [VoxelRefine]: every handler refines along [StateRefines];
    - [VoxelInvariant], [VoxelCommit], [VoxelReach], [VoxelHidden]: the invariant [core_ok],
      commits, the reachable cores, the players that are not seen yet;
    - [VoxelTransfer] (core/version.rs): versions, mutations and their log, snapshots, deltas.

    Server runtime ([crates/runtime/revy-server-runtime/src/runtime]):
    - [CoreJournal] (core_store.rs, core_store/journal.rs, [seal_final_core_delta] of
      executable.rs): the published version, the cutover journals, the critical sections of the
      store as a step relation, and the final delta of an upgrade in its slot of the arena.

    Plugin boundary ([crates/plugin]; the contract is mc-plugin-contract/src):
    - [PluginBinary] (plugin.rs, codec/__internal/binary.rs): the binary codec and the envelope,
      and [Codec], what a writer and a reader of one type promise;
    - [PluginInventory], [PluginShared] (codec/__internal/inventory.rs, shared.rs): the values;
    - [PluginProtocol], [PluginStorage], [PluginGameplay], [PluginAdmin] (codec/*.rs and
      codec/__internal/*_semantic.rs): requests and responses; [PluginHostBlob] (the module
      [host_blob]): what a gameplay plugin and its host exchange in a callback;
      [PluginMessages]: the five kinds behind one interface, [Messages];
    - [PluginCall] (mc-plugin-host host/generation.rs and host/support/buffers.rs,
      mc-plugin-sdk-rust macros/export.rs and buffers.rs): one call, with any library at its end;
    - [PluginSdk] (mc-plugin-sdk-rust/src: protocol.rs, storage.rs, auth.rs, __macro_support):
      the traits and the dispatch; the Java adapters are instances;
    - [PluginFailures] (mc-plugin-host host/failure.rs): failures and their policy;
    - [PluginAdapter] (host/profiles/protocol.rs): every method of the adapter of the host;
      [PluginIsolation], [PluginQuarantine] (and registry.rs): what it promises, what a failure
      leaves, how the handshake of a connection is routed.

    Executable handoff ([crates/runtime/revy-runtime-transfer/src], [apps/revy-server/src]):
    - [HandoffMessages], [HandoffStream] (lib.rs): envelopes and their validation, the stream;
    - [HandoffArena] (arena.rs): the shared memory, its atomic counter as a step relation;
    - [HandoffCutover] (executable_handoff.rs, main.rs, runtime/executable.rs): the two processes
      as a step relation.

    Storage ([crates/storage/mc-storage-je-anvil-1_7_10/src], [mc-storage-common]):
    - [AnvilNbt] (nbt.rs): tags, their writer and reader ([parses]), the fields of a compound;
    - [AnvilChunk] (chunk_nbt.rs), [AnvilPlayer] (playerdata.rs, level.rs): columns, block
      entities, players and the level as NBT;
    - [AnvilRegion] (region.rs): the sectors of a region file; flate2 is [Compression];
    - [AnvilStorage] (lib.rs and the files of the others): saving and loading over a file system
      whose calls can fail ([StorageEnv]); [AnvilLimits]: where the format fails.

    ** What the theorems show

    Core.  Refinement: an operation previewed on an overlay does and reports what it does on the
    core ([preview_refines_core]); a command whose preview does not panic commits and leaves
    exactly what was previewed ([command_commits], [login_commits]); the furnace refines a
    small state machine ([tick_furnace_refines], [furnace_finishes_cook]).  Invariant:
    [reachable_core_ok], under any interleaving of commands, ticks and plugin effects.
    Conservation of items: merging, left and right clicks, crafting.  Addressing and slots: blocks,
    columns, views, inventory slots, window differences.  Visibility: a player whose login is not
    finalized is neither addressed nor shown ([prepared_player_hidden]).
    Transfer of the core: a delta replays what the parent did ([delta_replays_history]); whatever
    interleaves with it, what a store sends a successor brings it to the published version, or is
    refused where the slot of the final delta is too small ([store_delta_catches_up]), and a reload
    loses no event ([resync_complete]); the journal stays within its budgets ([journal_bounded]); an import admits exactly the snapshots whose
    stores are linked, and every reachable core survives one ([into_version_exact],
    [snapshot_roundtrip]).
    Handoff: at most one of the two processes serves, whatever fails and whenever the child dies,
    and a child that has committed has the state at which the parent froze ([one_authority]);
    the envelopes of a conversation arrive, in order and each once ([conversation_arrives],
    [no_envelope_twice]); the validation of an envelope accepts exactly what may be imported
    ([envelope_validate_exact]); no byte of the arena has two owners, and what the child reads is
    what the parent wrote ([arena_regions_safe], [arena_carries_bytes]).
    Plugin boundary: a call of a protocol plugin through the host is a call of its method
    ([adapter_refines_plugin]); messages survive the boundary, with the values that the wire has a
    form for, and are not taken for one another ([plugin_messages_roundtrip],
    [messages_not_confused]); any bytes are decoded or refused, where the stack holds the nesting
    of their items ([plugin_decoding_settles]); a failure is contained as the policy says ([failure_quarantines]).
    RakNet: [peer_task_safe] for the task of a peer under any interleaving with its handles and
    any bytes; ordering, fragmentation, reassembly, duplicates, acknowledgements, timers
    ([ordered_delivery], [fragmentation], [reassembly_any_order]); round trips of datagrams,
    acknowledgements, histories and checkpoints.  The server stays within its budget and its peers
    healthy ([server_peers_safe]); a datagram concerns only its sender ([datagram_isolated]); an
    import takes all peers or none ([import_all_or_nothing]); what is sealed arrives at the
    successor ([sealed_server_arrives]); the type of a handle tells what the router receives, and
    whether it is frozen ([handle_tells_mode]).
    Java edition: however the bytes of a connection are cut, its frames are those that were
    sent ([frames_any_chunking]); any frame is decoded, refused or ignored without a panic, where
    the stack holds the nesting of its items ([decode_play_safe], [read_slot_total]); fourteen
    packets of a client are understood as the commands they mean, and the others are ignored
    ([client_packet_decoded]); a click names the slot the server showed under
    that number ([click_names_slot]); a client that reads a chunk column sees the blocks of the
    column ([column_as_client_sees]); what a session remembers is a function of its last
    events ([store_remembers]).
    Storage: a world that is saved is loaded as it was, up to what [stored_snapshot] says the
    format does not hold ([save_load_roundtrip]); the NBT reader ends on any bytes ([nbt_codec]).
    Errors found: a snapshot with a NaN panics a commit ([nan_panics]); an empty frame of any
    client quarantines a protocol plugin and stops the routing of every later handshake
    ([empty_frame_stops_routing]); an item that nests deep enough overflows the stack, in a frame
    of a client ([decode_play_safe]) and in a message of a plugin ([plugin_decoding_settles]); an
    effect on a window slot beyond 255 panics when it is encoded ([plugin_messages_roundtrip]); a
    parent that waited too long for [Committed] never learns the
    outcome ([reconciliation_never_succeeds]); the old news of a closed peer removes the new one
    ([stale_close_drops_new_peer]); a peer that closes during a pause fails the freeze and the
    resumption of the server ([closed_peer_blocks_paused]); a reassembled payload
    may prevent a transfer ([reassembled_payload_blocks_transfer]), a length prefix that does
    not end is never refused ([overlong_prefix_never_refused]), [PartialOrd] of counters
    is not dual at half a cycle ([partial_cmp_duality]), a chunk of 256 sectors is lost
    ([oversized_chunk_lost]), a short list in a player's file is a panic ([short_lists_panic]); the
    side conditions of [left_click_conserves], [right_click_conserves] and the consumption in
    [crafting_take_spec] say where stacks beyond the limits panic or lose an item.

    ** Conventions, bounds and fuel

    A machine integer is a [Z] in its range, with wrapping or saturation written out.  An
    [f32]/[f64] is a [spec_float] with the arithmetic of the Standard Library's SpecFloat at
    that width.  A [BTreeMap] or [HashMap] is a [gmap]; where the code iterates, the order of
    a [BTreeMap] is that of its keys and the order of a [HashMap] is a parameter
    ([hash_order]).  [Arc] is the value it holds.  In RakNet and at the plugin boundary a method
    returns a [result] whose [Panic] and [OutOfFuel] the safety theorems exclude; in the core
    [None] is a panic.  [Build] says whether arithmetic is checked for overflow, as in a debug build,
    and how many nested calls of a recursive reader the stack of a thread holds.

    Loops that are not structural take fuel: draining the hold-back queue one more than its
    size, decoding the frames of a datagram its length (every frame reads at least one byte);
    [decode_datagram_safe] and [peer_task_safe] show that it never runs out.  Reading a varint
    takes fuel for the six groups it reads at most, the elements of skipped NBT and of a vector the
    bytes that are left, reading NBT twice the bytes ([nbt_fuel]), the journal's eviction the
    commits it holds ([journal_bounded]); [decode_play_safe], [plugin_decoding_settles] and
    [nbt_codec] show that these suffice.

    Two readers recurse as deep as what they read nests, and take the stack as an argument, a level
    for a call: [skip_nbt_payload] (the NBT of an item that a client sends) has the levels of
    [Build], and [decode_item_data_value_at] (the item data of a message) those it is given, where
    [OutOfFuel] is the overflow of the stack and aborts the process.  The decoders of whole
    messages read item data by [decode_item_data_value], on a stack with a level for every byte
    that is left, as [nbt_codec] does for the NBT of the storage.

    Time, the socket and entropy are the environment [Env], about which only the documented
    behaviour is assumed.  uuid, serde_json and flate2 are [JavaEnv]; the CBOR and JSON encoders and
    the allocator are [Cbor], [Json] and [JournalEnv], prost is [Protobuf]; that a decoder reads
    back what its encoder wrote is a hypothesis where it is used ([codec_ok], [ProtobufLaws]).

    The unit of interleaving is a turn of a task, an access to an atomic, a critical section of a
    mutex or a message.  A command of the RakNet router that waits for its peers is one operation,
    during which these take turns; a call of a plugin is one operation, since the reload gate
    excludes a change of its generation.  Entity ids are [i32] and saturate; [core_step] asks that
    they are not exhausted.

    ** Not modelled

    - the fairness and the memory model of tokio, and what a cancelled read leaves of a message;
    - the packet codecs of the Bedrock edition, whose packets a third-party crate builds and reads;
    - of the plugin host: loading, activation and reload of libraries, the profiles of gameplay,
      storage, auth and admin-surface plugins, the layouts and leases of the ABI, the dispatch of
      gameplay and admin-surface plugins in the SDK, and raw pointers but for what they refer to;
    - the capacity that is reserved for a vector at the plugin boundary and in the storage, which
      a hostile length can exhaust; the stack of a thread but for the two readers named above, so
      not in the storage and not in the encoding of nested item data; entries of the directories
      of the storage that are not files;
    - of the handoff: the calls of the operating system that map and pass the arena and the native
      handles, and the contents of the artifacts and of the sessions;
    - the asynchronous server runtime but for its core store, the configuration, the
      administration, the other applications and the build tools. *)

From stdpp Require Export base numbers list gmap sets strings pretty.
From Stdlib Require Export ZArith Lia.

#[global] Open Scope Z_scope.

(** ** Scopes, notations *)

Declare Scope revy_scope.
Delimit Scope revy_scope with revy.
Notation "'len' l" := (Z.of_nat (length l)) (at level 10, l at level 9) : revy_scope.
#[global] Open Scope revy_scope.

(** ** Outcomes of fallible Rust code *)

(** [Ok]/[Err] are the two constructors of Rust's [Result]; [Panic] is an
    [expect]/index that fails, and [OutOfFuel] marks a loop that was not given
    enough fuel.  Theorems show that the last two do not occur. *)
Inductive result (E A : Type) : Type :=
| Ok (a : A)
| Err (e : E)
| Panic
| OutOfFuel.
Arguments Ok {E A} a.
Arguments Err {E A} e.
Arguments Panic {E A}.
Arguments OutOfFuel {E A}.

#[global] Instance result_ret {E} : MRet (result E) := fun A => @Ok E A.
#[global] Instance result_bind {E} : MBind (result E) := fun A B f m =>
  match m with
  | Ok a => f a
  | Err e => Err e
  | Panic => Panic
  | OutOfFuel => OutOfFuel
  end.

#[global] Instance result_eq_dec {E A} `{EqDecision E, EqDecision A} :
  EqDecision (result E A).
Proof. solve_decision. Defined.

(** A Rust method on [&mut self] that returns a [Result]: the state it leaves
    behind is kept on every outcome, errors included. *)
Definition M (E S A : Type) : Type := S -> S * result E A.

#[global] Instance M_ret {E S} : MRet (M E S) := fun A a s => (s, Ok a).
#[global] Instance M_bind {E S} : MBind (M E S) := fun A B f m s =>
  match m s with
  | (s', Ok a) => f a s'
  | (s', Err e) => (s', Err e)
  | (s', Panic) => (s', Panic)
  | (s', OutOfFuel) => (s', OutOfFuel)
  end.

Definition throw {E S A} (e : E) : M E S A := fun s => (s, Err e).
Definition panic {E S A} : M E S A := fun s => (s, Panic).
Definition out_of_fuel {E S A} : M E S A := fun s => (s, OutOfFuel).
Definition get {E S} : M E S S := fun s => (s, Ok s).
Definition modify {E S} (f : S -> S) : M E S unit := fun s => (f s, Ok tt).
Definition lift {E S A} (r : result E A) : M E S A := fun s => (s, r).

(** [for x in l { f(x)?; }] *)
Fixpoint for_each {E S A} (f : A -> M E S unit) (l : list A) : M E S unit :=
  match l with
  | [] => mret tt
  | x :: l => f x ;; for_each f l
  end.

(** ** Machine integers *)

Definition u8_max : Z := 255.
Definition u16_max : Z := 65535.
Definition u32_max : Z := 4294967295.
Definition i32_max : Z := 2147483647.
Definition i64_max : Z := 9223372036854775807.
Definition u64_max : Z := 18446744073709551615.
(** The target is 64-bit: [usize::MAX = u64::MAX]. *)
Definition usize_max : Z := u64_max.

Definition saturating_add (max a b : Z) : Z := Z.min max (a + b).
Definition saturating_sub (a b : Z) : Z := Z.max 0 (a - b).
Definition saturating_mul (max a b : Z) : Z := Z.min max (a * b).
Definition checked_add (max a b : Z) : option Z :=
  if a + b <=? max then Some (a + b) else None.
Definition wrapping_add (w a b : Z) : Z := (a + b) mod 2 ^ w.
Definition wrapping_sub (w a b : Z) : Z := (a - b) mod 2 ^ w.
(** [T::try_from(v).unwrap_or(T::MAX)] for an unsigned target. *)
Definition try_from_or_max (max v : Z) : Z := if v <=? max then v else max.
(** [a.div_ceil(b)] for unsigned operands. *)
Definition div_ceil (a b : Z) : Z := (a + b - 1) / b.

(** [slice.get(a..b)] *)
Definition slice_get {A} (l : list A) (a b : Z) : option (list A) :=
  if (a <=? b) && (b <=? len l)
  then Some (take (Z.to_nat (b - a)) (drop (Z.to_nat a) l))
  else None.

(** [slice.chunks(n)]: consecutive pieces of [n] elements, the last one shorter;
    [fuel] bounds the number of pieces ([length l] is enough). *)
Fixpoint chunks_fuel {A} (fuel : nat) (n : nat) (l : list A) : list (list A) :=
  match fuel, l with
  | O, _ | _, [] => []
  | S fuel, _ => take n l :: chunks_fuel fuel n (drop n l)
  end.
Definition chunks {A} (n : nat) (l : list A) : list (list A) := chunks_fuel (length l) n l.

Definition sum_Z (l : list Z) : Z := foldr Z.add 0 l.

(** [map.values().map(f).sum()] *)
Definition map_sum `{Countable K} {V} (f : V -> Z) (m : gmap K V) : Z :=
  sum_Z (map (fun kv => f (snd kv)) (map_to_list m)).

(** Indexed iteration, [iter().enumerate()]. *)
Definition enumerate {A} (l : list A) : list (Z * A) :=
  imap (fun i x => (Z.of_nat i, x)) l.

(** ** Hoare triples for [M] *)

(** [hoare P m Q R]: from a state in [P], [m] neither panics nor runs out of
    fuel; it returns [a] in a state of [Q a] or an error in a state of [R]. *)
Definition hoare {E S A} (P : S -> Prop) (m : M E S A)
    (Q : A -> S -> Prop) (R : E -> S -> Prop) : Prop :=
  forall s, P s ->
  match m s with
  | (s', Ok a) => Q a s'
  | (s', Err e) => R e s'
  | (_, Panic) | (_, OutOfFuel) => False
  end.

Create HintDb hoare.
Create Rewrite HintDb lengths.

Section HoareRules.
Context {E S : Type}.
Implicit Types (P : S -> Prop) (R : E -> S -> Prop).

Lemma hoare_ret {A} P R (a : A) (Q : A -> S -> Prop) :
  (forall s, P s -> Q a s) -> hoare P (mret a) Q R.
Proof. intros H s HP. apply H, HP. Qed.

Lemma hoare_throw {A} P R (e : E) (Q : A -> S -> Prop) :
  (forall s, P s -> R e s) -> hoare P (throw e) Q R.
Proof. intros H s HP. apply H, HP. Qed.

Lemma hoare_get P R (Q : S -> S -> Prop) :
  (forall s, P s -> Q s s) -> hoare P get Q R.
Proof. intros H s HP. apply H, HP. Qed.

Lemma hoare_modify P R (f : S -> S) (Q : unit -> S -> Prop) :
  (forall s, P s -> Q tt (f s)) -> hoare P (modify f) Q R.
Proof. intros H s HP. apply H, HP. Qed.

Lemma hoare_lift {A} P R (r : result E A) (Q : A -> S -> Prop) :
  (forall s, P s ->
     match r with Ok a => Q a s | Err e => R e s | Panic | OutOfFuel => False end) ->
  hoare P (lift r) Q R.
Proof. intros H s HP. specialize (H s HP). unfold lift. destruct r; done. Qed.

Lemma hoare_bind {A B} P R (m : M E S A) (f : A -> M E S B) Q Q' :
  hoare P m Q R -> (forall a, hoare (Q a) (f a) Q' R) -> hoare P (m ≫= f) Q' R.
Proof.
  intros Hm Hf s HP. specialize (Hm s HP). unfold mbind, M_bind.
  destruct (m s) as [s' [a|e| |]]; [exact (Hf a s' Hm)|done..].
Qed.

Lemma hoare_weaken {A} (P P' : S -> Prop) (m : M E S A)
    (Q Q' : A -> S -> Prop) (R R' : E -> S -> Prop) :
  hoare P m Q R -> (forall s, P' s -> P s) -> (forall a s, Q a s -> Q' a s) ->
  (forall e s, R e s -> R' e s) -> hoare P' m Q' R'.
Proof.
  intros Hm HP HQ HR s Hs. specialize (Hm s (HP s Hs)).
  destruct (m s) as [s' [a|e| |]]; auto.
Qed.

(** A pure conjunct of the precondition becomes a hypothesis. *)
Lemma hoare_pure {A} (F : Prop) P R (m : M E S A) Q :
  (F -> hoare P m Q R) -> hoare (fun s => F /\ P s) m Q R.
Proof. intros H s [HF HP]. by apply H. Qed.

Lemma hoare_pre {A} (P P' : S -> Prop) R (m : M E S A) Q :
  hoare P m Q R -> (forall s, P' s -> P s) -> hoare P' m Q R.
Proof. intros H HP s Hs. apply H, HP, Hs. Qed.

Lemma hoare_for_each {A} (P : S -> Prop) R (f : A -> M E S unit) l :
  (forall x, x ∈ l -> hoare P (f x) (fun _ => P) R) ->
  hoare P (for_each f l) (fun _ => P) R.
Proof.
  induction l as [|x l IH]; intros H; simpl.
  - by apply hoare_ret.
  - eapply hoare_bind; [apply H; set_solver|].
    intros []. apply IH. intros y Hy. apply H. set_solver.
Qed.
End HoareRules.

Lemma lor_disjoint_add a b k : 0 <= k -> 0 <= b < 2 ^ k -> Z.lor (Z.shiftl a k) b = a * 2 ^ k + b.
Proof.
  intros Hk Hb. rewrite <- Z.shiftl_mul_pow2 by done.
  rewrite <- (Z.add_lor_land (Z.shiftl a k) b).
  assert (Z.land (Z.shiftl a k) b = 0) as ->; [|lia].
  apply Z.bits_inj'. intros n Hn. rewrite Z.land_spec, Z.bits_0.
  destruct (Z.ltb_spec n k).
  - rewrite Z.shiftl_spec_low by done. done.
  - apply andb_false_iff. right. destruct (Z.eq_dec b 0) as [->|]; [apply Z.bits_0|].
    apply Z.bits_above_log2; [lia|]. apply Z.lt_le_trans with k; [|done].
    apply Z.log2_lt_pow2; lia.
Qed.

Lemma result_bind_Ok {E A B} (r : result E A) (f : A -> result E B) y :
  (r ≫= f) = Ok y -> exists x, r = Ok x /\ f x = Ok y.
Proof. destruct r; try done. intros H. by eexists. Qed.

(** Running a bind whose first command is known to succeed. *)
Lemma bind_Ok {E S A B} (m : M E S A) (f : A -> M E S B) s s' a :
  m s = (s', Ok a) -> (m ≫= f) s = f a s'.
Proof. intros H. unfold mbind, M_bind. by rewrite H. Qed.

Lemma bind_Err {E S A B} (m : M E S A) (f : A -> M E S B) s s' e :
  m s = (s', Err e) -> (m ≫= f) s = (s', Err e).
Proof. intros H. unfold mbind, M_bind. by rewrite H. Qed.

Lemma pair_snd {A B} (x : A * B) y : snd x = y -> x = (fst x, y).
Proof. destruct x; simpl; congruence. Qed.

Lemma for_each_app {E S A} (f : A -> M E S unit) l1 l2 s :
  for_each f (l1 ++ l2) s = (for_each f l1 ;; for_each f l2) s.
Proof.
  revert s. induction l1 as [|x l1 IH]; intros s; [done|]. cbn [app for_each].
  unfold mbind, M_bind in *. destruct (f x s) as [s' [[]|e| |]]; [apply IH|done..].
Qed.

(** ** Generic lemmas on lists *)

Lemma mjoin_cons {A} (x : list A) (ls : list (list A)) : mjoin (x :: ls) = x ++ mjoin ls.
Proof. done. Qed.

Lemma omap_cons_eq {A B} (f : A -> option B) x l :
  omap f (x :: l) = match f x with Some y => y :: omap f l | None => omap f l end.
Proof. done. Qed.

Lemma slice_get_middle {A} (pre x suf : list A) a b :
  a = len pre -> b = len pre + len x -> slice_get (pre ++ x ++ suf) a b = Some x.
Proof.
  intros -> ->. unfold slice_get. rewrite !length_app.
  rewrite (proj2 (Z.leb_le _ _)), (proj2 (Z.leb_le _ _)) by lia. simpl. f_equal.
  rewrite Nat2Z.id, drop_app_length.
  replace (Z.to_nat _) with (length x) by lia. apply take_app_length.
Qed.

Lemma slice_get_length {A} (l x : list A) a b :
  slice_get l a b = Some x -> 0 <= a -> len x = b - a /\ b <= len l.
Proof.
  unfold slice_get. intros H Ha. case_match eqn:E; [|done].
  apply andb_true_iff in E as [E1%Z.leb_le E2%Z.leb_le].
  injection H as <-. rewrite length_take, length_drop. lia.
Qed.

Lemma concat_chunks_fuel {A} (fuel n : nat) (l : list A) :
  (0 < n)%nat -> (length l <= fuel)%nat -> mjoin (chunks_fuel fuel n l) = l.
Proof.
  intros Hn. revert l. induction fuel as [|fuel IH]; intros [|x l] Hl; simpl in *; try done; try lia.
  destruct n as [|n]; [lia|]. simpl. f_equal.
  rewrite IH by (rewrite length_drop; lia). apply take_drop.
Qed.

Lemma concat_chunks {A} n (l : list A) : (0 < n)%nat -> mjoin (chunks n l) = l.
Proof. intros. by apply concat_chunks_fuel. Qed.

Lemma chunks_fuel_bound {A} fuel n (l : list A) :
  (0 < n)%nat -> Forall (fun c => (0 < length c <= n)%nat) (chunks_fuel fuel n l).
Proof.
  intros Hn. revert l. induction fuel as [|fuel IH]; intros [|x l]; simpl; constructor; [|apply IH].
  destruct n as [|n]; [lia|]. simpl. rewrite length_take. lia.
Qed.

Lemma chunks_bound {A} n (l : list A) :
  (0 < n)%nat -> Forall (fun c => (0 < length c <= n)%nat) (chunks n l).
Proof. apply chunks_fuel_bound. Qed.

Lemma div_ceil_step a n : 0 < n -> n < a -> div_ceil a n = 1 + div_ceil (a - n) n.
Proof.
  intros. unfold div_ceil. replace (a + n - 1) with ((a - n + n - 1) + 1 * n) by lia.
  rewrite Z.div_add by lia. lia.
Qed.

Lemma length_chunks_fuel {A} fuel (n : nat) (l : list A) :
  (0 < n)%nat -> (length l <= fuel)%nat ->
  len (chunks_fuel fuel n l) = div_ceil (len l) (Z.of_nat n).
Proof.
  intros Hn. revert l. induction fuel as [|fuel IH]; intros [|x l] Hl;
    [| simpl in Hl; lia | |].
  - unfold div_ceil. simpl. rewrite Z.div_small; lia.
  - unfold div_ceil. simpl. rewrite Z.div_small; lia.
  - cbn [chunks_fuel]. cbn [length]. rewrite Nat2Z.inj_succ, IH;
      [|rewrite length_drop; simpl in *; lia].
    rewrite length_drop. cbn [length].
    destruct (decide (S (length l) <= n)%nat) as [Hs|Hs].
    + replace (S (length l) - n)%nat with O by lia.
      unfold div_ceil. rewrite (Z.div_small (Z.of_nat 0 + _ - 1)) by lia.
      replace (Z.of_nat (S (length l)) + Z.of_nat n - 1)
        with (Z.of_nat (length l) + 1 * Z.of_nat n) by lia.
      rewrite Z.div_add, Z.div_small by lia. lia.
    + rewrite (div_ceil_step (Z.of_nat (S (length l)))) by lia.
      replace (Z.of_nat (S (length l) - n)) with (Z.of_nat (S (length l)) - Z.of_nat n) by lia. lia.
Qed.

Lemma length_chunks {A} (n : nat) (l : list A) :
  (0 < n)%nat -> len (chunks n l) = div_ceil (len l) (Z.of_nat n).
Proof. intros. by apply length_chunks_fuel. Qed.

Lemma sum_Z_app l1 l2 : sum_Z (l1 ++ l2) = sum_Z l1 + sum_Z l2.
Proof. unfold sum_Z. induction l1; simpl; lia. Qed.

#[global] Instance sum_Z_perm : Proper ((≡ₚ) ==> (=)) sum_Z.
Proof. intros l1 l2 H. induction H; unfold sum_Z in *; simpl in *; lia. Qed.

Lemma enumerate_lookup {A} (l : list A) (i : nat) :
  enumerate l !! i = (fun x => (Z.of_nat i, x)) <$> l !! i.
Proof. unfold enumerate. rewrite list_lookup_imap. by destruct (l !! i). Qed.

Lemma length_enumerate {A} (l : list A) : length (enumerate l) = length l.
Proof. apply length_imap. Qed.

(** ** Sums over maps *)

Section MapSum.
Context `{Countable K} {V : Type} (f : V -> Z).
Implicit Types m : gmap K V.

Lemma map_sum_empty : map_sum f (∅ : gmap K V) = 0.
Proof. unfold map_sum. by rewrite map_to_list_empty. Qed.

Lemma map_sum_insert_None m i x :
  m !! i = None -> map_sum f (<[i := x]> m) = f x + map_sum f m.
Proof. intros Hi. unfold map_sum. rewrite (map_to_list_insert m i x Hi). done. Qed.

Lemma map_sum_delete m i x :
  m !! i = Some x -> map_sum f (delete i m) = map_sum f m - f x.
Proof.
  intros Hi. rewrite <- (insert_delete_id m i x Hi) at 2.
  rewrite map_sum_insert_None by apply lookup_delete_eq. lia.
Qed.

Lemma map_sum_insert_Some m i x y :
  m !! i = Some y -> map_sum f (<[i := x]> m) = map_sum f m - f y + f x.
Proof.
  intros Hi. rewrite <- insert_delete_eq.
  rewrite map_sum_insert_None by apply lookup_delete_eq.
  rewrite (map_sum_delete m i y Hi). lia.
Qed.

Lemma map_sum_nonneg m : (forall x, 0 <= f x) -> 0 <= map_sum f m.
Proof.
  intros Hf. unfold map_sum. induction (map_to_list m) as [|kv l IH]; unfold sum_Z in *;
    simpl in *; [lia|]. specialize (Hf (snd kv)). lia.
Qed.

Lemma map_sum_lookup_le m i x : (forall x, 0 <= f x) -> m !! i = Some x -> f x <= map_sum f m.
Proof.
  intros Hf Hi. pose proof (map_sum_nonneg (delete i m) Hf).
  rewrite (map_sum_delete m i x Hi) in *. lia.
Qed.
End MapSum.

(** ** Tactics *)

(** Split a boolean test of the code and turn it into the fact it decides. *)
Ltac case_test :=
  match goal with
  | |- context [if ?a <=? ?b then _ else _] => destruct (Z.leb_spec a b)
  | |- context [if ?a <? ?b then _ else _] => destruct (Z.ltb_spec a b)
  | |- context [if ?a =? ?b then _ else _] => destruct (Z.eqb_spec a b)
  | |- context [if decide ?P then _ else _] => destruct (decide P)
  | H : context [if ?a <=? ?b then _ else _] |- _ => destruct (Z.leb_spec a b)
  | H : context [if ?a <? ?b then _ else _] |- _ => destruct (Z.ltb_spec a b)
  | H : context [if ?a =? ?b then _ else _] |- _ => destruct (Z.eqb_spec a b)
  | H : context [if decide ?P then _ else _] |- _ => destruct (decide P)
  end.
