(* ===== verification/Bytes.v ===== *)
(** * Bytes: octets and fixed-width integers

    The integer encodings of the Rust standard library that the wire formats
    use ([to_be_bytes], [to_le_bytes], [from_be_bytes], ...), over the bytes of
    the Standard Library, with their round trips. *)

From S2P Require Import Prelude.
From Stdlib Require Export Init.Byte.
From Stdlib Require Import Strings.Byte.

(** ** Octets *)

Definition byte_Z (b : byte) : Z := Z.of_N (Byte.to_N b).
Definition Z_byte (z : Z) : byte :=
  match Byte.of_N (Z.to_N (z mod 256)) with Some b => b | None => x00 end.

#[global] Instance byte_eq_dec : EqDecision byte := Byte.byte_eq_dec.

(** [!octet] on [u8] *)
Definition byte_not (b : byte) : byte := Z_byte (Z.lxor (byte_Z b) 255).

(** ** Fixed-width integers *)

(** [v.to_le_bytes()] for an [n]-byte unsigned integer. *)
Fixpoint to_le_bytes (n : nat) (v : Z) : list byte :=
  match n with
  | O => []
  | S n => Z_byte v :: to_le_bytes n (v / 256)
  end.

Fixpoint from_le_bytes (l : list byte) : Z :=
  match l with
  | [] => 0
  | b :: l => byte_Z b + 256 * from_le_bytes l
  end.

Definition to_be_bytes (n : nat) (v : Z) : list byte := reverse (to_le_bytes n v).
Definition from_be_bytes (l : list byte) : Z := from_le_bytes (reverse l).

(** Reinterpretation of an unsigned [n]-byte value as two's complement and back:
    [i64::to_be_bytes] writes [v mod 2^64]. *)
Definition to_signed (bits : Z) (v : Z) : Z :=
  if v <? 2 ^ (bits - 1) then v else v - 2 ^ bits.
Definition to_unsigned (bits : Z) (v : Z) : Z := v mod 2 ^ bits.

(** ** Lemmas *)

Lemma byte_Z_range b : 0 <= byte_Z b < 256.
Proof.
  unfold byte_Z. pose proof (Byte.to_N_bounded b). lia.
Qed.

Lemma byte_Z_inj b1 b2 : byte_Z b1 = byte_Z b2 -> b1 = b2.
Proof.
  unfold byte_Z. intros H%N2Z.inj.
  pose proof (Byte.of_to_N b1). pose proof (Byte.of_to_N b2). congruence.
Qed.

Lemma byte_Z_Z_byte z : byte_Z (Z_byte z) = z mod 256.
Proof.
  unfold Z_byte, byte_Z. pose proof (Z.mod_pos_bound z 256 ltac:(lia)).
  destruct (Byte.of_N (Z.to_N (z mod 256))) as [b|] eqn:E.
  - apply Byte.to_of_N in E. rewrite E. lia.
  - apply Byte.of_N_None_iff in E. lia.
Qed.

Lemma Z_byte_byte_Z b : Z_byte (byte_Z b) = b.
Proof.
  apply byte_Z_inj. rewrite byte_Z_Z_byte. apply Z.mod_small, byte_Z_range.
Qed.

Lemma Z_byte_small z : 0 <= z < 256 -> byte_Z (Z_byte z) = z.
Proof. intros. rewrite byte_Z_Z_byte. by apply Z.mod_small. Qed.

Lemma byte_not_involutive b : byte_not (byte_not b) = b.
Proof. by destruct b. Qed.

Lemma length_to_le_bytes n v : length (to_le_bytes n v) = n.
Proof. revert v. induction n; simpl; auto. Qed.

Lemma length_to_be_bytes n v : length (to_be_bytes n v) = n.
Proof. unfold to_be_bytes. by rewrite length_reverse, length_to_le_bytes. Qed.

#[export] Hint Rewrite length_to_le_bytes length_to_be_bytes : lengths.

Lemma from_to_le_bytes n v :
  from_le_bytes (to_le_bytes n v) = v mod 2 ^ (8 * Z.of_nat n).
Proof.
  revert v. induction n as [|n IH]; intros v; cbn [to_le_bytes from_le_bytes].
  - by rewrite Z.mul_0_r, Z.mod_1_r.
  - rewrite IH, byte_Z_Z_byte, Nat2Z.inj_succ, Z.mul_succ_r, Z.pow_add_r by lia.
    change (2 ^ 8) with 256. rewrite (Z.mul_comm (2 ^ _) 256).
    rewrite Z.rem_mul_r by lia. lia.
Qed.

Lemma from_to_be_bytes n v :
  from_be_bytes (to_be_bytes n v) = v mod 2 ^ (8 * Z.of_nat n).
Proof. unfold from_be_bytes, to_be_bytes. by rewrite reverse_involutive, from_to_le_bytes. Qed.

Lemma from_le_bytes_range l : 0 <= from_le_bytes l < 2 ^ (8 * len l).
Proof.
  induction l as [|b l IH]; cbn [from_le_bytes length]; [lia|].
  pose proof (byte_Z_range b).
  rewrite Nat2Z.inj_succ, Z.mul_succ_r, Z.pow_add_r by lia. change (2 ^ 8) with 256. lia.
Qed.

Lemma from_be_bytes_range l : 0 <= from_be_bytes l < 2 ^ (8 * len l).
Proof. unfold from_be_bytes. rewrite <- (length_reverse l). apply from_le_bytes_range. Qed.

Lemma to_signed_unsigned bits v :
  0 < bits -> - 2 ^ (bits - 1) <= v < 2 ^ (bits - 1) ->
  to_signed bits (to_unsigned bits v) = v.
Proof.
  intros Hb Hv. unfold to_signed, to_unsigned.
  assert (2 ^ bits = 2 * 2 ^ (bits - 1)) as Hp.
  { rewrite <- Z.pow_succ_r by lia. f_equal. lia. }
  destruct (decide (0 <= v)) as [H|H].
  - rewrite Z.mod_small by lia. by rewrite (proj2 (Z.ltb_lt _ _)) by lia.
  - assert (v mod 2 ^ bits = v + 2 ^ bits) as ->.
    { rewrite <- (Z.mod_add v 1) by lia. rewrite Z.mod_small; lia. }
    rewrite (proj2 (Z.ltb_ge _ _)) by lia. lia.
Qed.
