(* ===== verification/Parsing.v ===== *)
(** * Codecs over bytes: what writers and readers promise

    A writer is the bytes it appends, or an error; a reader is a method of [M] on the bytes that
    are left.  [parses]: what is written is read, whatever follows; [ends]: any bytes are read or
    refused, and a reader that succeeds has taken bytes.  The formats of the storage and of the
    plugin boundary instantiate both. *)

From S2P Require Import Prelude Bytes.

(** Writers in sequence: the bytes of all, or the first failure. *)
Fixpoint all_out {E} (l : list (result E (list byte))) : result E (list byte) :=
  match l with [] => Ok [] | out :: l => a ← out; b ← all_out l; Ok (a ++ b) end.

(** ** Numbers that fit *)

Definition signed_fits (bits v : Z) : bool := (- 2 ^ (bits - 1) <=? v) && (v <? 2 ^ (bits - 1)).
Definition unsigned_fits (bits v : Z) : bool := (0 <=? v) && (v <? 2 ^ bits).
Definition byte_fits (v : Z) : bool := (0 <=? v) && (v <? 256).

Lemma signed_fits_spec bits v : signed_fits bits v = true <-> - 2 ^ (bits - 1) <= v < 2 ^ (bits - 1).
Proof. unfold signed_fits. by rewrite andb_true_iff, Z.leb_le, Z.ltb_lt. Qed.
Lemma unsigned_fits_spec bits v : unsigned_fits bits v = true <-> 0 <= v < 2 ^ bits.
Proof. unfold unsigned_fits. by rewrite andb_true_iff, Z.leb_le, Z.ltb_lt. Qed.
Lemma byte_fits_spec v : byte_fits v = true <-> 0 <= v < 256.
Proof. unfold byte_fits. by rewrite andb_true_iff, Z.leb_le, Z.ltb_lt. Qed.
Lemma cast_signed_fits bits v : 0 < bits -> 0 <= v < 2 ^ bits -> signed_fits bits (to_signed bits v) = true.
Proof.
  intros Hb Hv. apply signed_fits_spec. unfold to_signed.
  assert (2 ^ bits = 2 * 2 ^ (bits - 1)) by (rewrite <- Z.pow_succ_r by lia; f_equal; lia).
  destruct (Z.ltb_spec v (2 ^ (bits - 1))); lia.
Qed.
Lemma cast_back bits v : 0 < bits -> 0 <= v < 2 ^ bits -> to_unsigned bits (to_signed bits v) = v.
Proof.
  intros Hb Hv. unfold to_signed, to_unsigned. destruct (_ <? _); [by apply Z.mod_small|].
  symmetry. apply (Z.mod_unique_pos _ _ (-1)); lia.
Qed.
Lemma forallb_Forall' {A} (f : A -> bool) l : forallb f l = true <-> Forall (fun a => f a = true) l.
Proof. by rewrite forallb_forall, List.Forall_forall. Qed.

(** ** The entries of a [BTreeMap<String, A>], in the order of the keys *)

(** [BTreeMap::insert] *)
Fixpoint compound_insert {A} (k : string) (v : A) (c : list (string * A)) : list (string * A) :=
  match c with
  | [] => [(k, v)]
  | (k', v') :: c =>
      match String.compare k k' with
      | Lt => (k, v) :: (k', v') :: c
      | Eq => (k, v) :: c
      | Gt => (k', v') :: compound_insert k v c
      end
  end.
Fixpoint keys_sorted {A} (c : list (string * A)) : bool :=
  match c with
  | [] => true
  | e :: c => forallb (fun e' => match String.compare e'.1 e.1 with Gt => true | _ => false end) c && keys_sorted c
  end.
Lemma insert_last {A} (c : list (string * A)) k v :
  forallb (fun e => match String.compare k e.1 with Gt => true | _ => false end) c = true ->
  compound_insert k v c = c ++ [(k, v)].
Proof.
  induction c as [|[k' v'] c IH]; [done|]. cbn [forallb fst compound_insert app].
  destruct (String.compare k k'); [done|done|]. intros H. by rewrite IH.
Qed.
(** Inserting in the order of the keys appends. *)
Lemma keys_sorted_last {A} (c : list (string * A)) e l :
  keys_sorted (c ++ e :: l) = true -> compound_insert e.1 e.2 c = c ++ [e].
Proof.
  intros Hs. destruct e as [k v]. apply insert_last. induction c as [|e c IH]; [done|].
  cbn [app keys_sorted forallb] in Hs |- *. rewrite forallb_app, !andb_true_iff in Hs. cbn [forallb] in Hs.
  rewrite andb_true_iff in Hs. destruct Hs as ((_ & Hk & _) & Hs). cbn [fst] in Hk. by rewrite Hk, (IH Hs).
Qed.

(** ** What is written is read *)

Section Parses.
Context {E : Type}.

(** [m] reads [bytes] as [a], whatever follows them. *)
Definition parses {A} (m : M E (list byte) A) (bytes : list byte) (a : A) : Prop :=
  forall rest, m (bytes ++ rest) = (rest, Ok a).
Lemma parses_ret {A} (a : A) : parses (mret a) [] a.
Proof. done. Qed.
Lemma parses_bind {A B} (m : M E (list byte) A) (f : A -> M E (list byte) B) b1 b2 a c :
  parses m b1 a -> parses (f a) b2 c -> parses (m ≫= f) (b1 ++ b2) c.
Proof. intros H1 H2 rest. unfold mbind, M_bind. by rewrite <- app_assoc, H1, H2. Qed.
Lemma parses_map {A B} (m : M E (list byte) A) (f : A -> B) b a : parses m b a -> parses (x ← m; mret (f x)) b (f a).
Proof. intros H. rewrite <- (app_nil_r b). eapply parses_bind; [exact H|apply parses_ret]. Qed.

(** ** Any bytes *)

(** [m] ends on [s], and takes at least [n] bytes when it succeeds. *)
Definition ends {A} (n : Z) (m : M E (list byte) A) (s : list byte) : Prop :=
  match m s with
  | (s', Ok _) => len s' + n <= len s
  | (_, Err _) => True
  | _ => False
  end.
Lemma ends_ret {A} (a : A) s : ends 0 (mret a) s.
Proof. unfold ends. cbn. lia. Qed.
Lemma ends_throw {A} n e s : ends (A := A) n (throw e) s.
Proof. done. Qed.
Lemma ends_bind {A B} n k (m : M E (list byte) A) (f : A -> M E (list byte) B) s :
  ends n m s -> (forall a s', len s' + n <= len s -> ends (k - n) (f a) s') -> ends k (m ≫= f) s.
Proof.
  unfold ends, mbind, M_bind. destruct (m s) as [s' [a|e| |]]; [|done..]. intros Hm Hf. specialize (Hf a s' Hm).
  destruct (f a s') as [s2 [b|e| |]]; [|done..]. lia.
Qed.
Lemma ends_weaken {A} n k (m : M E (list byte) A) s : k <= n -> ends n m s -> ends k m s.
Proof. unfold ends. intros Hk. destruct (m s) as [s' [a|e| |]]; [|done..]. lia. Qed.
Lemma ends_map {A B} n (m : M E (list byte) A) (f : A -> B) s : ends n m s -> ends n (a ← m; mret (f a)) s.
Proof. intros H. eapply ends_bind; [exact H|]. intros a s' _. rewrite Z.sub_diag. apply ends_ret. Qed.
End Parses.

(** What is read has as many bytes as the reader takes at least. *)
Lemma parses_length {E A} (m : M E (list byte) A) n bytes a :
  parses m bytes a -> (forall s, ends n m s) -> n <= len bytes.
Proof. intros Hp He. specialize (He bytes). unfold ends in He. specialize (Hp []). rewrite app_nil_r in Hp. rewrite Hp in He. cbn in He. lia. Qed.
