(* ===== verification/RaknetSequence.v ===== *)
(** * RakNet sequence numbers ([crates/network/revy-raknet/src/sequence.rs])

    The wrapping 24-bit counters of the protocol and the run-length history in
    which a peer checkpoint records the order of their arrival. *)

From S2P Require Import Prelude.

Definition MODULUS : Z := Z.shiftl 1 24.
Definition MASK : Z := MODULUS - 1.
Definition HALF_RANGE : Z := MODULUS / 2.

(** ** The three sequence domains *)

(** [sequence_type!] is instantiated at three names; the domain is a phantom
    index, so that values of different domains do not mix. *)
Inductive Domain : Set := Datagrams | Reliables | Orders.

Record Sequence (d : Domain) : Set := Seq {
  value : Z;
  value_ok : bool_decide (0 <= value < MODULUS)
}.
Arguments Seq {d} _ _.
Arguments value {d} _.
Arguments value_ok {d} _.

Abbreviation DatagramSequence := (Sequence Datagrams).
Abbreviation ReliableSequence := (Sequence Reliables).
Abbreviation OrderSequence := (Sequence Orders).

Lemma mask_range v : bool_decide (0 <= Z.land v MASK < MODULUS).
Proof.
  apply bool_decide_pack. change MASK with (Z.ones 24). rewrite Z.land_ones by lia.
  change MODULUS with (2 ^ 24). apply Z.mod_pos_bound. lia.
Qed.

Section Sequences.
Context {d : Domain}.

Definition new (v : Z) : Sequence d := Seq (Z.land v MASK) (mask_range v).
Definition next (s : Sequence d) : Sequence d := new (wrapping_add 32 (value s) 1).
Definition previous (s : Sequence d) : Sequence d := new (wrapping_sub 32 (value s) 1).
Definition wrapping_distance_from (s older : Sequence d) : Z :=
  Z.land (wrapping_sub 32 (value s) (value older)) MASK.
Definition is_newer_than (s other : Sequence d) : bool :=
  let distance := wrapping_distance_from s other in
  negb (distance =? 0) && (distance <? HALF_RANGE).
Definition seq_eqb (s other : Sequence d) : bool := value s =? value other.
Definition partial_cmp (s other : Sequence d) : option comparison :=
  if seq_eqb s other then Some Eq
  else if is_newer_than s other then Some Gt
  else Some Lt.
(** [Default]: the derived implementation on the inner [u32]. *)
Definition default_sequence : Sequence d := new 0.
Definition deserialize_sequence (v : Z) : result string (Sequence d) :=
  if MASK <? v then Err "24-bit sequence exceeds its wire domain"%string
  else Ok (new v).
End Sequences.

(** ** Run-length history *)

Record RunLength : Set := mkRunLength { run_count : Z }.
Definition SINGLE : RunLength := mkRunLength 1.

(** [RunLength::grow]: the updated length and the returned flag. *)
Definition grow (r : RunLength) : RunLength * bool :=
  if run_count r =? MODULUS then (r, false) else (mkRunLength (run_count r + 1), true).

Definition deserialize_run_length (count : Z) : result string RunLength :=
  if (count =? 0) || (MODULUS <? count)
  then Err "sequence run length must fit one nonempty 24-bit cycle"%string
  else Ok (mkRunLength count).

Record SequenceRun (d : Domain) : Set := mkRun { first : Sequence d; run_length : RunLength }.
Arguments mkRun {d} _ _.
Arguments first {d} _.
Arguments run_length {d} _.

Record SequenceHistory (d : Domain) : Set := mkHistory { runs : list (SequenceRun d) }.
Arguments mkHistory {d} _.
Arguments runs {d} _.

(** One iteration of the loop of [SequenceHistory::from_sequences]; the state is
    the pair of its local variables [runs] and [previous]. *)
Definition push_sequence {d} (st : list (SequenceRun d) * option (Sequence d))
    (sequence : Sequence d) : list (SequenceRun d) * option (Sequence d) :=
  let '(runs, prev) := st in
  let push := (runs ++ [mkRun sequence SINGLE], Some sequence) in
  match prev with
  | Some p =>
      if seq_eqb (next p) sequence then
        match last runs with
        | Some run =>
            match grow (run_length run) with
            | (grown, true) => (removelast runs ++ [mkRun (first run) grown], Some sequence)
            | (_, false) => push
            end
        | None => push
        end
      else push
  | None => push
  end.

Definition from_sequences {d} (sequences : list (Sequence d)) : SequenceHistory d :=
  mkHistory (fst (foldl push_sequence ([], None) sequences)).

Fixpoint try_fold_count (max : Z) (count : Z) (lengths : list Z) : option Z :=
  match lengths with
  | [] => Some count
  | l :: lengths =>
      match checked_add max count l with
      | Some count => try_fold_count max count lengths
      | None => None
      end
  end.

Definition sequence_count {d} (h : SequenceHistory d) : result string Z :=
  match try_fold_count usize_max 0 (map (fun run => run_count (run_length run)) (runs h)) with
  | Some count => Ok count
  | None => Err "sequence history count exceeds the target's count domain"%string
  end.

(** [(0..n).scan(first, ..)] *)
Fixpoint run_sequences {d} (n : nat) (s : Sequence d) : list (Sequence d) :=
  match n with
  | O => []
  | S n => s :: run_sequences n (next s)
  end.

Definition run_expand {d} (run : SequenceRun d) : list (Sequence d) :=
  run_sequences (Z.to_nat (run_count (run_length run))) (first run).

(** [SequenceHistory::sequences]: the [flat_map] over the runs. *)
Definition sequences {d} (h : SequenceHistory d) : list (Sequence d) :=
  mjoin (map run_expand (runs h)).

(** ** Instances and arithmetic of the counters *)

(** [lia] with the constants of the counters evaluated. *)
Ltac seq_lia :=
  change MODULUS with 16777216 in *; change HALF_RANGE with 8388608 in *;
  change MASK with 16777215 in *; lia.

Lemma seq_eq {d} (a b : Sequence d) : value a = value b -> a = b.
Proof.
  destruct a as [va Ha], b as [vb Hb]. simpl. intros ->. f_equal. apply proof_irrel.
Qed.

#[export] Instance sequence_eq_dec {d} : EqDecision (Sequence d).
Proof.
  intros a b. destruct (decide (value a = value b)) as [H|H].
  - left. by apply seq_eq.
  - right. intros ->. done.
Defined.

Lemma value_range {d} (s : Sequence d) : 0 <= value s < MODULUS.
Proof. exact (bool_decide_unpack _ (value_ok s)). Qed.

Lemma land_MASK v : Z.land v MASK = v mod MODULUS.
Proof. change MASK with (Z.ones 24). by rewrite Z.land_ones by lia. Qed.

Lemma value_new {d} v : value (new v : Sequence d) = v mod MODULUS.
Proof. simpl. apply land_MASK. Qed.

Lemma new_value {d} (s : Sequence d) : new (value s) = s.
Proof. apply seq_eq. rewrite value_new. apply Z.mod_small, value_range. Qed.

#[export] Instance sequence_countable {d} : Countable (Sequence d) :=
  inj_countable' value new new_value.

Lemma mod32_mod24 v : (v mod 2 ^ 32) mod MODULUS = v mod MODULUS.
Proof.
  change MODULUS with (2 ^ 24). apply Z.mod_mod_divide. exists (2 ^ 8). done.
Qed.

Lemma value_next {d} (s : Sequence d) : value (next s) = (value s + 1) mod MODULUS.
Proof. unfold next, wrapping_add. by rewrite value_new, mod32_mod24. Qed.

Lemma value_previous {d} (s : Sequence d) : value (previous s) = (value s - 1) mod MODULUS.
Proof. unfold previous, wrapping_sub. by rewrite value_new, mod32_mod24. Qed.

Lemma distance_mod {d} (a b : Sequence d) :
  wrapping_distance_from a b = (value a - value b) mod MODULUS.
Proof. unfold wrapping_distance_from, wrapping_sub. by rewrite land_MASK, mod32_mod24. Qed.

Lemma seq_eqb_spec {d} (a b : Sequence d) : Bool.reflect (a = b) (seq_eqb a b).
Proof.
  unfold seq_eqb. destruct (Z.eqb_spec (value a) (value b)) as [H|H]; constructor.
  - by apply seq_eq.
  - congruence.
Qed.

(** [s] advanced by [k] steps. *)
Definition advance {d} (s : Sequence d) (k : Z) : Sequence d := new (value s + k).

Lemma value_advance {d} (s : Sequence d) k : value (advance s k) = (value s + k) mod MODULUS.
Proof. apply value_new. Qed.

Lemma advance_0 {d} (s : Sequence d) : advance s 0 = s.
Proof. unfold advance. rewrite Z.add_0_r. apply new_value. Qed.

Lemma next_advance {d} (s : Sequence d) k : next (advance s k) = advance s (k + 1).
Proof.
  apply seq_eq. rewrite value_next, !value_advance, Z.add_mod_idemp_l by done.
  f_equal. lia.
Qed.

Lemma advance_inj {d} (s : Sequence d) i j :
  0 <= i < MODULUS -> 0 <= j < MODULUS -> advance s i = advance s j -> i = j.
Proof.
  intros Hi Hj H. apply (f_equal value) in H. rewrite !value_advance in H.
  assert ((i - j) mod MODULUS = 0) as Hz.
  { replace (i - j) with ((value s + i) - (value s + j)) by lia.
    rewrite Zminus_mod, H, Z.sub_diag. done. }
  apply Z.mod_divide in Hz as [k Hk]; [|done]. seq_lia.
Qed.

Lemma distance_advance {d} (s : Sequence d) i j :
  wrapping_distance_from (advance s i) (advance s j) = (i - j) mod MODULUS.
Proof.
  rewrite distance_mod, !value_advance, Zminus_mod_idemp_l, Zminus_mod_idemp_r.
  f_equal. lia.
Qed.

Lemma advance_newer {d} (s : Sequence d) i j :
  j < i -> i - j < HALF_RANGE -> is_newer_than (advance s i) (advance s j) = true.
Proof.
  intros. unfold is_newer_than. rewrite distance_advance.
  assert (HALF_RANGE < MODULUS) by done. rewrite Z.mod_small by lia.
  apply andb_true_iff. split; [apply negb_true_iff, Z.eqb_neq|apply Z.ltb_lt]; lia.
Qed.

Lemma next_inj {d} (a b : Sequence d) : next a = next b -> a = b.
Proof.
  intros H. rewrite <- (advance_0 a) in H |- *. rewrite <- (advance_0 b) in H.
  apply seq_eq. apply (f_equal value) in H.
  rewrite !next_advance, !value_advance in H.
  pose proof (value_range a). pose proof (value_range b).
  rewrite advance_0. assert ((value a - value b) mod MODULUS = 0) as Hz.
  { replace (value a - value b) with ((value a + (0 + 1)) - (value b + (0 + 1))) by lia.
    rewrite Zminus_mod, H, Z.sub_diag. done. }
  apply Z.mod_divide in Hz as [k Hk]; [|done]. seq_lia.
Qed.

Lemma previous_next {d} (s : Sequence d) : previous (next s) = s.
Proof.
  apply seq_eq. rewrite value_previous, value_next, Zminus_mod_idemp_l.
  replace (value s + 1 - 1) with (value s) by lia. apply Z.mod_small, value_range.
Qed.

Lemma default_value {d} : value (default_sequence : Sequence d) = 0.
Proof. done. Qed.

(** ** Order of the counters *)

(** The "newer" relation of two 24-bit counters is decided by their wrapping
    distance.  Any two counters are equal, or exactly one is newer than the other,
    or they lie exactly half a cycle apart and then neither is newer; and the
    successor of a counter is always newer than it, wraparound included. *)
Theorem newer_trichotomy {d} (a b : Sequence d) :
  is_newer_than (next a) a = true /\
  (is_newer_than a b = true -> is_newer_than b a = false) /\
  (is_newer_than a b = false -> is_newer_than b a = false ->
   a = b \/ wrapping_distance_from a b = HALF_RANGE).
Proof.
  assert (forall x y : Sequence d, is_newer_than x y = true <->
    0 < (value x - value y) mod MODULUS < HALF_RANGE) as Hnewer.
  { intros x y. unfold is_newer_than. rewrite distance_mod, andb_true_iff, negb_true_iff.
    rewrite Z.eqb_neq, Z.ltb_lt.
    pose proof (Z.mod_pos_bound (value x - value y) MODULUS ltac:(done)). lia. }
  pose proof (value_range a). pose proof (value_range b).
  repeat split.
  - rewrite <- (advance_0 a), next_advance. by apply advance_newer.
  - intros Hab%Hnewer. apply not_true_iff_false. intros Hba%Hnewer.
    Z.div_mod_to_equations. seq_lia.
  - intros Hab%not_true_iff_false Hba%not_true_iff_false.
    rewrite Hnewer in Hab, Hba. rewrite distance_mod.
    destruct (decide (value a = value b)) as [Heq|Hne]; [left; by apply seq_eq|right].
    Z.div_mod_to_equations. seq_lia.
Qed.

(** [partial_cmp] breaks the duality that [PartialOrd] asks for at half a
    cycle: there each of the two counters is [Less] than the other; at every other
    distance the two comparisons are opposite. *)
Theorem partial_cmp_duality {d} (a b : Sequence d) :
  (wrapping_distance_from a b = HALF_RANGE ->
   partial_cmp a b = Some Lt /\ partial_cmp b a = Some Lt) /\
  (wrapping_distance_from a b <> HALF_RANGE ->
   partial_cmp b a = CompOpp <$> partial_cmp a b).
Proof.
  pose proof (value_range a). pose proof (value_range b).
  unfold partial_cmp, is_newer_than, seq_eqb. rewrite !distance_mod.
  split; intros Hd.
  - assert ((value b - value a) mod MODULUS = HALF_RANGE) as Hd'.
    { Z.div_mod_to_equations. seq_lia. }
    rewrite Hd, Hd'. destruct (Z.eqb_spec (value a) (value b)) as [Heq|Hne].
    + rewrite Heq, Z.sub_diag in Hd. done.
    + destruct (Z.eqb_spec (value b) (value a)); [lia|]. done.
  - destruct (Z.eqb_spec (value a) (value b)) as [Heq|Hne].
    + rewrite Heq, Z.eqb_refl. done.
    + destruct (Z.eqb_spec (value b) (value a)); [lia|].
      destruct (Z.eqb_spec ((value a - value b) mod MODULUS) 0);
      destruct (Z.eqb_spec ((value b - value a) mod MODULUS) 0);
      destruct (Z.ltb_spec ((value a - value b) mod MODULUS) HALF_RANGE);
      destruct (Z.ltb_spec ((value b - value a) mod MODULUS) HALF_RANGE);
      simpl; try done; exfalso; Z.div_mod_to_equations; seq_lia.
Qed.

Lemma partial_cmp_duality_witness :
  let a : OrderSequence := new 0 in let b := new 8388608 in
  partial_cmp a b = Some Lt /\ partial_cmp b a = Some Lt.
Proof.
  apply (proj1 (partial_cmp_duality (new 0 : OrderSequence) (new 8388608))). by vm_compute.
Defined.

(** ** Histories *)

(** What the fold keeps: the runs expand to the sequences consumed so far, each
    run is within one cycle, and [previous] is the last of them. *)
Definition history_inv {d} (done : list (Sequence d))
    (st : list (SequenceRun d) * option (Sequence d)) : Prop :=
  mjoin (map run_expand (fst st)) = done /\ snd st = last done /\
  Forall (fun run => 1 <= run_count (run_length run) <= MODULUS) (fst st).

Lemma run_sequences_advance {d} n (s : Sequence d) :
  run_sequences n s = map (fun i => advance s (Z.of_nat i)) (seq 0 n).
Proof.
  revert s. induction n as [|n IH]; intros s; [done|].
  cbn [run_sequences seq map]. rewrite advance_0. f_equal.
  rewrite IH, <- seq_shift, map_map. apply map_ext. intros i.
  apply seq_eq. rewrite !value_advance, value_next, Z.add_mod_idemp_l by done.
  f_equal. lia.
Qed.

Lemma run_sequences_snoc {d} n (s : Sequence d) :
  run_sequences (S n) s = run_sequences n s ++ [advance s (Z.of_nat n)].
Proof. rewrite !run_sequences_advance, seq_S, map_app. done. Qed.

Lemma length_run_sequences {d} n (s : Sequence d) : length (run_sequences n s) = n.
Proof. rewrite run_sequences_advance, length_map, length_seq. done. Qed.

Lemma run_expand_grow {d} (run : SequenceRun d) (s : Sequence d) :
  1 <= run_count (run_length run) ->
  last (run_expand run) = Some s ->
  run_expand (mkRun (first run) (mkRunLength (run_count (run_length run) + 1))) =
  run_expand run ++ [next s].
Proof.
  unfold run_expand. cbn [first run_length run_count]. intros Hc.
  destruct (Z.to_nat (run_count (run_length run))) as [|n] eqn:En; [lia|].
  replace (Z.to_nat (run_count (run_length run) + 1)) with (S (S n)) by lia.
  rewrite run_sequences_snoc, last_snoc. intros [= <-].
  rewrite (run_sequences_snoc (S n)), (run_sequences_snoc n), next_advance.
  do 3 f_equal. lia.
Qed.

Lemma history_inv_step {d} done st (s : Sequence d) :
  history_inv done st -> history_inv (done ++ [s]) (push_sequence st s).
Proof.
  destruct st as [rs prev]. intros (He & Hp & Hr). cbn [fst snd] in *.
  assert (history_inv (done ++ [s]) (rs ++ [mkRun s SINGLE], Some s)) as Hpush.
  { repeat split; cbn [fst snd].
    - rewrite map_app, join_app, He. done.
    - by rewrite last_snoc.
    - apply Forall_app. split; [done|]. repeat constructor; done. }
  unfold push_sequence. destruct prev as [p|]; [|done].
  destruct (seq_eqb_spec (next p) s) as [<-|_]; [|done].
  destruct (last rs) as [run|] eqn:El; [|done].
  apply last_Some in El as [rs' ->].
  unfold grow. case_test; [done|].
  rewrite removelast_last. rewrite map_app, join_app in He.
  apply Forall_app in Hr as [Hr1 Hr2]. apply Forall_cons in Hr2 as [Hr2 _]. cbn beta in Hr2.
  cbn [map mjoin list_join] in He. rewrite app_nil_r in He.
  assert (last (run_expand run) = Some p) as Hlast.
  { rewrite <- He in Hp. unfold run_expand in Hp |- *.
    destruct (Z.to_nat (run_count (run_length run))) as [|k] eqn:En; [lia|].
    rewrite run_sequences_snoc, app_assoc, last_snoc in Hp.
    by rewrite run_sequences_snoc, last_snoc. }
  repeat split; cbn [fst snd].
  - rewrite map_app, join_app. cbn [map mjoin list_join].
    rewrite app_nil_r, (run_expand_grow _ p) by (done || lia). rewrite app_assoc, He. done.
  - by rewrite last_snoc.
  - apply Forall_app. split; [done|]. apply Forall_singleton. simpl. lia.
Qed.

Lemma history_inv_from {d} (l : list (Sequence d)) :
  history_inv l (foldl push_sequence ([], None) l).
Proof.
  induction l as [|s l IH] using rev_ind; [done|].
  rewrite foldl_app. simpl. by apply history_inv_step.
Qed.

Lemma sequences_from {d} (l : list (Sequence d)) : sequences (from_sequences l) = l.
Proof. apply history_inv_from. Qed.

Lemma length_sequences {d} (h : SequenceHistory d) :
  Forall (fun run => 0 <= run_count (run_length run)) (runs h) ->
  len (sequences h) = sum_Z (map (fun run => run_count (run_length run)) (runs h)).
Proof.
  unfold sequences. induction 1 as [|run rs Hrun _ IH]; [done|].
  cbn [map]. rewrite mjoin_cons, length_app, Nat2Z.inj_add, IH.
  unfold run_expand. rewrite length_run_sequences. unfold sum_Z. simpl. lia.
Qed.

Lemma try_fold_count_sum max count ls :
  Forall (Z.le 0) ls -> try_fold_count max count ls =
  if decide (count + sum_Z ls <= max \/ ls = []) then Some (count + sum_Z ls) else None.
Proof.
  intros Hls. revert count. induction Hls as [|l ls Hl Hls IH]; intros count.
  - simpl. unfold sum_Z. simpl. case_decide; [f_equal; lia|naive_solver].
  - assert (0 <= sum_Z ls) as Hs.
    { clear -Hls. induction Hls; unfold sum_Z in *; simpl in *; lia. }
    cbn [try_fold_count]. unfold checked_add.
    change (sum_Z (l :: ls)) with (l + sum_Z ls).
    case_test; [rewrite IH|].
    + replace (count + l + sum_Z ls) with (count + (l + sum_Z ls)) by lia.
      case_decide as H1; case_decide as H2; try done; exfalso.
      * apply H2. destruct H1 as [?| ->]; [by left|]. left. unfold sum_Z. simpl. lia.
      * apply H1. destruct H2 as [?|]; [by left|done].
    + case_decide as H2; [|done]. exfalso. destruct H2; [lia|done].
Qed.

Lemma from_sequences_runs {d} (l : list (Sequence d)) :
  Forall (fun run => 1 <= run_count (run_length run) <= MODULUS) (runs (from_sequences l)).
Proof. apply history_inv_from. Qed.

Lemma sequence_count_from {d} (l : list (Sequence d)) :
  len l <= usize_max -> sequence_count (from_sequences l) = Ok (len l).
Proof.
  intros Hl. unfold sequence_count. rewrite try_fold_count_sum.
  - rewrite <- length_sequences.
    + rewrite sequences_from, Z.add_0_l. rewrite decide_True by (left; lia). done.
    + eapply Forall_impl; [apply from_sequences_runs|]. simpl. lia.
  - apply Forall_map. eapply Forall_impl; [apply from_sequences_runs|]. simpl. lia.
Qed.

(** A checkpoint keeps the arrival order of any list of counters exactly, gaps,
    repeats, reorderings and wraparound included: [sequences] undoes
    [from_sequences].  The count it announces before any expansion is the number of
    counters it expands to, and every run passes the bounds check of deserialization. *)
Theorem history_roundtrip {d} (l : list (Sequence d)) :
  sequences (from_sequences l) = l /\
  (len l <= usize_max -> sequence_count (from_sequences l) = Ok (len l)) /\
  Forall (fun run => deserialize_run_length (run_count (run_length run)) = Ok (run_length run))
    (runs (from_sequences l)).
Proof.
  split; [apply sequences_from|]. split; [apply sequence_count_from|].
  eapply Forall_impl; [apply from_sequences_runs|]. intros [f [c]] Hc. simpl in *.
  unfold deserialize_run_length.
  destruct (Z.eqb_spec c 0); [lia|]. destruct (Z.ltb_spec MODULUS c); [lia|]. done.
Qed.

Lemma history_roundtrip_witness :
  sequence_count (from_sequences (map new [16777214; 16777215; 0; 5; 4; 8; 9])
    : SequenceHistory Datagrams) = Ok 7.
Proof.
  apply (proj1 (proj2 (history_roundtrip (d := Datagrams)
    (map new [16777214; 16777215; 0; 5; 4; 8; 9]))) ltac:(done)).
Defined.
