(* ===== verification/RaknetBudget.v ===== *)
(** * RakNet errors and resource budgets
    ([crates/network/revy-raknet/src/lib.rs], [budget.rs]) *)

From S2P Require Import Prelude.

Record BudgetExceeded : Set := mkBudgetExceeded {
  resource : string; requested : Z; limit : Z
}.

(** [Io] carries no payload: the [std::io::Error] of the socket is opaque. *)
Inductive RakNetError : Set :=
| Wire (msg : string)
| Budget (b : BudgetExceeded)
| Closed
| PeerTimeout
| RetransmitExhausted (sequence attempts : Z)
| QueueFull
| Io.

#[export] Instance BudgetExceeded_eq_dec : EqDecision BudgetExceeded.
Proof. solve_decision. Defined.
#[export] Instance RakNetError_eq_dec : EqDecision RakNetError.
Proof. solve_decision. Defined.

Record RakNetBudgets : Set := mkBudgets {
  max_peers : Z;
  peer_ingress_queue : Z;
  peer_command_queue : Z;
  application_queue : Z;
  max_datagram_bytes : Z;
  max_payload_bytes : Z;
  max_reassembly_bytes_per_peer : Z;
  max_reassembly_parts_per_peer : Z;
  max_ordered_holdback : Z;
  max_unacked_datagrams : Z
}.

Definition default_budgets : RakNetBudgets := {|
  max_peers := 4096;
  peer_ingress_queue := 256;
  peer_command_queue := 256;
  application_queue := 256;
  max_datagram_bytes := 2048;
  max_payload_bytes := 4 * 1024 * 1024;
  max_reassembly_bytes_per_peer := 8 * 1024 * 1024;
  max_reassembly_parts_per_peer := 4096;
  max_ordered_holdback := 1024;
  max_unacked_datagrams := 2048
|}.

(** [ensure_budget(..)?]: the [From] conversion into [RakNetError] included. *)
Definition ensure_budget (resource : string) (requested limit : Z) : result RakNetError unit :=
  if limit <? requested then Err (Budget (mkBudgetExceeded resource requested limit))
  else Ok tt.

Lemma ensure_budget_Ok res req lim : req <= lim -> ensure_budget res req lim = Ok tt.
Proof. intros. unfold ensure_budget. case_test; [lia|done]. Qed.

Lemma ensure_budget_inv res req lim r :
  ensure_budget res req lim = r ->
  (r = Ok tt /\ req <= lim) \/
  (r = Err (Budget (mkBudgetExceeded res req lim)) /\ lim < req).
Proof. unfold ensure_budget. intros <-. case_test; [right|left]; auto with lia. Qed.

Lemma hoare_ensure_budget {S} (P : S -> Prop) (R : RakNetError -> S -> Prop) res req lim :
  (forall b s, P s -> R (Budget b) s) ->
  hoare P (lift (ensure_budget res req lim)) (fun _ s => P s /\ req <= lim) R.
Proof.
  intros HR. apply hoare_lift. intros s HP.
  destruct (ensure_budget_inv res req lim _ eq_refl) as [[-> ?]|[-> ?]]; auto.
Qed.
