(* ===== verification/RaknetWire.v ===== *)
(** * RakNet wire format ([crates/network/revy-raknet/src/wire.rs])

    Encoders and decoders of the offline handshake, datagrams, frames and
    acknowledgements, over the cursor-based [Reader], and their round trips. *)

From S2P Require Import Prelude Bytes RaknetSequence RaknetBudget.

Definition MAGIC : list byte :=
  map Z_byte [0x00; 0xff; 0xff; 0x00; 0xfe; 0xfe; 0xfe; 0xfe;
              0xfd; 0xfd; 0xfd; 0xfd; 0x12; 0x34; 0x56; 0x78].

(** [std::net::SocketAddr]; the octets of an address are its bytes in order. *)
Inductive SocketAddr : Set :=
| V4 (ip : list byte) (port : Z)
| V6 (ip : list byte) (port flowinfo scope_id : Z).

#[export] Instance SocketAddr_eq_dec : EqDecision SocketAddr.
Proof. solve_decision. Defined.

(** ** Reader *)

Record Reader : Set := mkReader { rbytes : list byte; cursor : Z }.

Definition Read (A : Type) : Type := M RakNetError Reader A.
#[global] Typeclasses Transparent Read.

Definition reader_new (bytes : list byte) : Reader := mkReader bytes 0.
Definition is_empty (r : Reader) : bool := cursor r =? len (rbytes r).

Definition read_bytes (n : Z) : Read (list byte) := fun r =>
  match checked_add usize_max (cursor r) n with
  | None => (r, Err (Wire "raknet cursor overflowed"))
  | Some e =>
      match slice_get (rbytes r) (cursor r) e with
      | None => (r, Err (Wire "truncated raknet packet"))
      | Some bs => (mkReader (rbytes r) e, Ok bs)
      end
  end.

(** [self.bytes(1)?[0]]: indexing an empty slice would panic. *)
Definition read_u8 : Read Z :=
  bs ← read_bytes 1;
  match bs with
  | b :: _ => mret (byte_Z b)
  | [] => panic
  end.

(** [self.bytes(n)?.try_into().map_err(..)] into a fixed-size array. *)
Definition read_array (n : nat) (err : string) : Read (list byte) :=
  bs ← read_bytes (Z.of_nat n);
  if decide (length bs = n) then mret bs else throw (Wire err).

Definition read_u16_be : Read Z :=
  bs ← read_array 2 "truncated u16"; mret (from_be_bytes bs).
Definition read_u24_le : Read Z :=
  bs ← read_bytes 3;
  match bs with
  | b0 :: b1 :: b2 :: _ =>
      mret (Z.lor (Z.lor (byte_Z b0) (Z.shiftl (byte_Z b1) 8)) (Z.shiftl (byte_Z b2) 16))
  | _ => panic
  end.
Definition read_u32_be : Read Z :=
  bs ← read_array 4 "truncated u32"; mret (from_be_bytes bs).
Definition read_i64_be : Read Z :=
  bs ← read_array 8 "truncated i64"; mret (to_signed 64 (from_be_bytes bs)).

Definition read_magic : Read unit :=
  bs ← read_bytes (len MAGIC);
  if decide (bs = MAGIC) then mret tt else throw (Wire "invalid raknet offline magic").

Definition read_address : Read SocketAddr :=
  version ← read_u8;
  if version =? 4 then
    octets ← read_bytes 4;
    match octets with
    | o0 :: o1 :: o2 :: o3 :: _ =>
        port ← read_u16_be;
        mret (V4 [byte_not o0; byte_not o1; byte_not o2; byte_not o3] port)
    | _ => panic
    end
  else if version =? 6 then
    _ ← read_bytes 2;
    port ← read_u16_be;
    flowinfo ← read_u32_be;
    ip ← read_array 16 "truncated ipv6 address";
    scope_id ← read_u32_be;
    mret (V6 ip port flowinfo scope_id)
  else throw (Wire ("unsupported raknet address version " +:+ pretty version)).

(** ** Offline handshake *)

Inductive OfflineRequest : Set :=
| Ping (time : Z)
| OpenConnection1 (protocol mtu : Z)
| OpenConnection2 (mtu client_guid : Z).

Definition decode_offline_request (bytes : list byte) :
    result RakNetError (option OfflineRequest) :=
  match bytes with
  | [] => Ok None
  | b :: _ =>
      let id := byte_Z b in
      snd ((_ ← read_u8;
        if (id =? 0x01) || (id =? 0x02) then
          time ← read_i64_be;
          read_magic ;;
          _ ← read_i64_be;
          mret (Some (Ping time))
        else if id =? 0x05 then
          read_magic ;;
          protocol ← read_u8;
          mret (Some (OpenConnection1 protocol (try_from_or_max u16_max (len bytes))))
        else if id =? 0x07 then
          read_magic ;;
          _ ← read_address;
          mtu ← read_u16_be;
          client_guid ← read_i64_be;
          mret (Some (OpenConnection2 mtu client_guid))
        else mret None) (reader_new bytes))
  end.

Definition u8_bytes (v : Z) : list byte := [Z_byte v].
Definition i64_be (v : Z) : list byte := to_be_bytes 8 (to_unsigned 64 v).

Definition write_u24_le (v : Z) : list byte := take 3 (to_le_bytes 4 v).

Definition write_address (address : SocketAddr) : list byte :=
  match address with
  | V4 ip port => u8_bytes 4 ++ map byte_not ip ++ to_be_bytes 2 port
  | V6 ip port flowinfo scope_id =>
      u8_bytes 6 ++ to_le_bytes 2 23 ++ to_be_bytes 2 port ++ to_be_bytes 4 flowinfo ++
      ip ++ to_be_bytes 4 scope_id
  end.

(** [motd] is given by its UTF-8 bytes. *)
Definition encode_unconnected_pong (time server_guid : Z) (motd : list byte) :
    result RakNetError (list byte) :=
  if len motd <=? u16_max then
    Ok (u8_bytes 0x1c ++ i64_be time ++ i64_be server_guid ++ MAGIC ++
        to_be_bytes 2 (len motd) ++ motd)
  else Err (Wire "raknet pong motd exceeded u16 length").

Definition encode_open_connection_reply_1 (server_guid mtu : Z) : list byte :=
  u8_bytes 0x06 ++ MAGIC ++ i64_be server_guid ++ u8_bytes 0 ++ to_be_bytes 2 mtu.

Definition encode_incompatible_protocol (protocol server_guid : Z) : list byte :=
  u8_bytes 0x19 ++ u8_bytes protocol ++ MAGIC ++ i64_be server_guid.

Definition encode_open_connection_reply_2 (server_guid : Z) (client_addr : SocketAddr)
    (mtu : Z) : list byte :=
  u8_bytes 0x08 ++ MAGIC ++ i64_be server_guid ++ write_address client_addr ++
  to_be_bytes 2 mtu ++ u8_bytes 0.

(** ** Frames *)

Inductive Reliability : Set :=
| Unreliable
| UnreliableSequenced
| Reliable
| ReliableOrdered
| ReliableSequenced
| UnreliableWithReceipt
| ReliableWithReceipt
| ReliableOrderedWithReceipt.

#[export] Instance Reliability_eq_dec : EqDecision Reliability.
Proof. solve_decision. Defined.

Definition from_tag (tag : Z) : result RakNetError Reliability :=
  match tag with
  | 0 => Ok Unreliable
  | 1 => Ok UnreliableSequenced
  | 2 => Ok Reliable
  | 3 => Ok ReliableOrdered
  | 4 => Ok ReliableSequenced
  | 5 => Ok UnreliableWithReceipt
  | 6 => Ok ReliableWithReceipt
  | 7 => Ok ReliableOrderedWithReceipt
  | _ => Err (Wire ("invalid reliability tag " +:+ pretty tag))
  end.

(** [self as u8]: the position of the variant in the declaration. *)
Definition reliability_tag (r : Reliability) : Z :=
  match r with
  | Unreliable => 0 | UnreliableSequenced => 1 | Reliable => 2 | ReliableOrdered => 3
  | ReliableSequenced => 4 | UnreliableWithReceipt => 5 | ReliableWithReceipt => 6
  | ReliableOrderedWithReceipt => 7
  end.

Definition reliable (r : Reliability) : bool :=
  match r with
  | Reliable | ReliableOrdered | ReliableSequenced | ReliableWithReceipt
  | ReliableOrderedWithReceipt => true
  | _ => false
  end.

Definition sequenced (r : Reliability) : bool :=
  match r with UnreliableSequenced | ReliableSequenced => true | _ => false end.

Definition ordered (r : Reliability) : bool :=
  match r with
  | UnreliableSequenced | ReliableOrdered | ReliableSequenced
  | ReliableOrderedWithReceipt => true
  | _ => false
  end.

Record SplitHeader : Set := mkSplit { split_count : Z; split_id : Z; split_index : Z }.

Record Frame : Set := mkFrame {
  reliability : Reliability;
  reliable_index : option ReliableSequence;
  sequence_index : option OrderSequence;
  order_index : option OrderSequence;
  order_channel : Z;
  split : option SplitHeader;
  payload : list byte
}.

Record Datagram : Set := mkDatagram { dg_sequence : DatagramSequence; frames : list Frame }.

(** [{flags:02x}] *)
Definition hex_digit (d : Z) : string :=
  default "?"%string
    (["0"; "1"; "2"; "3"; "4"; "5"; "6"; "7"; "8"; "9"; "a"; "b"; "c"; "d"; "e"; "f"]%string
     !! Z.to_nat d).
Definition hex_02x (v : Z) : string := hex_digit (Z.shiftr v 4) +:+ hex_digit (Z.land v 15).

Definition read_if {A} (b : bool) (m : Read A) : Read (option A) :=
  if b then x ← m; mret (Some x) else mret None.

Definition read_split : Read SplitHeader :=
  count ← read_u32_be;
  id ← read_u16_be;
  index ← read_u32_be;
  mret (mkSplit count id index).

(** One iteration of the loop of [decode_datagram]. *)
Definition decode_frame (budgets : RakNetBudgets) : Read Frame :=
  frame_flags ← read_u8;
  reliability ← lift (from_tag (Z.shiftr frame_flags 5));
  bit_len ← read_u16_be;
  let byte_len := div_ceil bit_len 8 in
  lift (ensure_budget "frame payload bytes" byte_len (max_payload_bytes budgets)) ;;
  reliable_index ← read_if (reliable reliability) (v ← read_u24_le; mret (new v));
  sequence_index ← read_if (sequenced reliability) (v ← read_u24_le; mret (new v));
  order ← (if ordered reliability then
             index ← read_u24_le;
             channel ← read_u8;
             mret (Some (new index), channel)
           else mret (None, 0));
  split ← read_if (negb (Z.land frame_flags 0x10 =? 0)) read_split;
  payload ← read_bytes byte_len;
  mret (mkFrame reliability reliable_index sequence_index (fst order) (snd order) split payload).

Fixpoint decode_frames (fuel : nat) (budgets : RakNetBudgets) (acc : list Frame) :
    Read (list Frame) :=
  r ← get;
  if is_empty r then mret acc
  else match fuel with
       | O => out_of_fuel
       | S fuel =>
           frame ← decode_frame budgets;
           decode_frames fuel budgets (acc ++ [frame])
       end.

(** Every frame reads at least one byte, so [length bytes] iterations suffice. *)
Definition decode_datagram (bytes : list byte) (budgets : RakNetBudgets) :
    result RakNetError Datagram :=
  ensure_budget "datagram bytes" (len bytes) (max_datagram_bytes budgets) ;;
  snd ((flags ← read_u8;
    if (Z.land flags 0x80 =? 0) || negb (Z.land flags 0x60 =? 0)
    then throw (Wire ("invalid datagram flags 0x" +:+ hex_02x flags))
    else
      sequence ← read_u24_le;
      frames ← decode_frames (length bytes) budgets [];
      mret (mkDatagram (new sequence) frames)) (reader_new bytes)).

Definition opt_bytes {A} (f : A -> list byte) (o : option A) : list byte :=
  match o with Some a => f a | None => [] end.

Definition encode_datagram (sequence : DatagramSequence) (frame : Frame) : list byte :=
  let split_flag := match split frame with Some _ => 0x10 | None => 0 end in
  let bit_len := try_from_or_max u16_max
    (saturating_mul usize_max (len (payload frame)) 8) in
  u8_bytes 0x84 ++ write_u24_le (value sequence) ++
  u8_bytes (Z.lor (Z.land (Z.shiftl (reliability_tag (reliability frame)) 5) 255) split_flag) ++
  to_be_bytes 2 bit_len ++
  opt_bytes (fun index => write_u24_le (value index)) (reliable_index frame) ++
  opt_bytes (fun index => write_u24_le (value index)) (sequence_index frame) ++
  opt_bytes (fun index => write_u24_le (value index) ++ u8_bytes (order_channel frame))
    (order_index frame) ++
  opt_bytes (fun s => to_be_bytes 4 (split_count s) ++ to_be_bytes 2 (split_id s) ++
    to_be_bytes 4 (split_index s)) (split frame) ++
  payload frame.

(** ** Acknowledgements *)

Inductive Acknowledgement : Set :=
| Ack (ranges : list (DatagramSequence * DatagramSequence))
| Nack (ranges : list (DatagramSequence * DatagramSequence)).

Definition read_range : Read (DatagramSequence * DatagramSequence) :=
  flag ← read_u8;
  start_raw ← read_u24_le;
  let start := new start_raw in
  if negb (flag =? 0) then mret (start, start)
  else end_raw ← read_u24_le; mret (start, new end_raw).

(** [for _ in 0..count { ranges.push(..) }] *)
Fixpoint read_ranges (count : nat) : Read (list (DatagramSequence * DatagramSequence)) :=
  match count with
  | O => mret []
  | S count => range ← read_range; rest ← read_ranges count; mret (range :: rest)
  end.

Definition decode_acknowledgement (bytes : list byte) :
    result RakNetError (option Acknowledgement) :=
  match bytes with
  | [] => Ok None
  | b :: _ =>
      let id := byte_Z b in
      if (id =? 0xa0) || (id =? 0xc0) then
        snd ((_ ← read_u8;
          count ← read_u16_be;
          ranges ← read_ranges (Z.to_nat count);
          mret (Some (if id =? 0xc0 then Ack ranges else Nack ranges))) (reader_new bytes))
      else Ok None
  end.

Definition encode_ack_range (id : Z) (start end_ : DatagramSequence) : list byte :=
  u8_bytes id ++ to_be_bytes 2 1 ++
  u8_bytes (if seq_eqb start end_ then 1 else 0) ++
  write_u24_le (value start) ++
  (if seq_eqb start end_ then [] else write_u24_le (value end_)).

Definition encode_ack (sequence : DatagramSequence) : list byte :=
  encode_ack_range 0xc0 sequence sequence.
Definition encode_nack (start end_ : DatagramSequence) : list byte :=
  encode_ack_range 0xa0 start end_.

(** ** Online handshake payloads *)

Definition UNSPECIFIED : SocketAddr := V4 (replicate 4 x00) 0.

Definition encode_connection_accept (client_addr : SocketAddr)
    (request_time timestamp : Z) : list byte :=
  u8_bytes 0x10 ++ write_address client_addr ++ to_be_bytes 2 0 ++
  mjoin (replicate 10 (write_address UNSPECIFIED)) ++
  i64_be request_time ++ i64_be timestamp.

Definition encode_connected_pong (ping_time pong_time : Z) : list byte :=
  u8_bytes 0x03 ++ i64_be ping_time ++ i64_be pong_time.

Definition decode_connection_request (payload : list byte) : result RakNetError (option Z) :=
  match payload with
  | b :: _ =>
      if byte_Z b =? 0x09 then
        snd ((_ ← read_u8;
          _ ← read_i64_be;
          request_time ← read_i64_be;
          _ ← read_u8;
          mret (Some request_time)) (reader_new payload))
      else Ok None
  | [] => Ok None
  end.

Definition decode_connected_ping (payload : list byte) : result RakNetError (option Z) :=
  match payload with
  | b :: _ =>
      if byte_Z b =? 0x00 then
        snd ((_ ← read_u8; time ← read_i64_be; mret (Some time)) (reader_new payload))
      else Ok None
  | [] => Ok None
  end.

(** ** Parsing what was printed *)

(** [consumes m x v]: wherever [x] stands in a packet, [m] started at [x] returns
    [v] and leaves the cursor behind [x]. *)
Definition consumes {A} (m : Read A) (x : list byte) (v : A) : Prop :=
  forall pre suf, len (pre ++ x ++ suf) <= usize_max ->
  m (mkReader (pre ++ x ++ suf) (len pre)) =
    (mkReader (pre ++ x ++ suf) (len pre + len x), Ok v).

Create HintDb consumes.

Lemma consumes_ret {A} (v : A) : consumes (mret v) [] v.
Proof. intros pre suf _. cbn. rewrite Z.add_0_r. done. Qed.

Lemma consumes_bind {A B} (m : Read A) (f : A -> Read B) x y v w :
  consumes m x v -> consumes (f v) y w -> consumes (m ≫= f) (x ++ y) w.
Proof.
  intros Hm Hf pre suf Hlen.
  rewrite <- app_assoc in *.
  rewrite (bind_Ok _ _ _ _ _ (Hm pre (y ++ suf) Hlen)).
  specialize (Hf (pre ++ x) suf). rewrite <- app_assoc in Hf.
  rewrite !length_app, !Nat2Z.inj_add in *. rewrite Z.add_assoc. apply Hf. lia.
Qed.

(** A command that reads nothing, in front or behind. *)
Lemma consumes_bind_0 {A B} (m : Read A) (f : A -> Read B) y v w :
  consumes m [] v -> consumes (f v) y w -> consumes (m ≫= f) y w.
Proof. apply (consumes_bind m f []). Qed.

Lemma consumes_fmap {A B} (m : Read A) (f : A -> B) x v :
  consumes m x v -> consumes (a ← m; mret (f a)) x (f v).
Proof.
  intros Hm. rewrite <- (app_nil_r x). eapply consumes_bind; [exact Hm|apply consumes_ret].
Qed.

Lemma consumes_lift {A} (r : result RakNetError A) v : r = Ok v -> consumes (lift r) [] v.
Proof. intros -> pre suf _. unfold lift. rewrite Z.add_0_r. done. Qed.

Lemma consumes_eq {A} (m : Read A) x y v : consumes m x v -> x = y -> consumes m y v.
Proof. by intros H <-. Qed.

Lemma consumes_bytes (x : list byte) n : n = len x -> consumes (read_bytes n) x x.
Proof.
  intros -> pre suf Hlen. rewrite !length_app, !Nat2Z.inj_add in Hlen.
  unfold read_bytes, checked_add. cbn [cursor rbytes].
  destruct (Z.leb_spec (len pre + len x) usize_max); [|lia].
  by rewrite slice_get_middle by done.
Qed.

Lemma consumes_u8 v : 0 <= v < 256 -> consumes read_u8 (u8_bytes v) v.
Proof.
  intros Hv. unfold read_u8. rewrite <- (app_nil_r (u8_bytes v)).
  eapply consumes_bind; [by apply consumes_bytes|].
  cbn [u8_bytes]. rewrite Z_byte_small by done. apply consumes_ret.
Qed.

Lemma consumes_array n err (x : list byte) : length x = n -> consumes (read_array n err) x x.
Proof.
  intros <-. unfold read_array. rewrite <- (app_nil_r x) at 2.
  eapply consumes_bind; [by apply consumes_bytes|].
  rewrite decide_True by done. apply consumes_ret.
Qed.

Lemma consumes_u16 v : 0 <= v < 2 ^ 16 -> consumes read_u16_be (to_be_bytes 2 v) v.
Proof.
  intros Hv. rewrite <- (Z.mod_small v (2 ^ 16)) at 2 by done.
  change 16 with (8 * Z.of_nat 2). rewrite <- from_to_be_bytes.
  apply consumes_fmap, consumes_array, length_to_be_bytes.
Qed.

Lemma consumes_u32 v : 0 <= v < 2 ^ 32 -> consumes read_u32_be (to_be_bytes 4 v) v.
Proof.
  intros Hv. rewrite <- (Z.mod_small v (2 ^ 32)) at 2 by done.
  change 32 with (8 * Z.of_nat 4). rewrite <- from_to_be_bytes.
  apply consumes_fmap, consumes_array, length_to_be_bytes.
Qed.

Lemma consumes_i64 v : - 2 ^ 63 <= v < 2 ^ 63 -> consumes read_i64_be (i64_be v) v.
Proof.
  intros Hv. rewrite <- (to_signed_unsigned 64 v) at 2 by (done || lia).
  rewrite <- (Z.mod_small (to_unsigned 64 v) (2 ^ 64)) by (apply Z.mod_pos_bound; lia).
  change (2 ^ 64) with (2 ^ (8 * Z.of_nat 8)). rewrite <- from_to_be_bytes.
  apply (consumes_fmap _ (fun bs => to_signed 64 (from_be_bytes bs))).
  apply consumes_array, length_to_be_bytes.
Qed.

Lemma lor_bytes b0 b1 b2 :
  0 <= b0 < 256 -> 0 <= b1 < 256 -> 0 <= b2 < 256 ->
  Z.lor (Z.lor b0 (Z.shiftl b1 8)) (Z.shiftl b2 16) = b0 + 256 * b1 + 65536 * b2.
Proof.
  intros H0 H1 H2.
  assert (forall a b n, 0 <= n -> 0 <= a < 2 ^ n -> Z.lor a (Z.shiftl b n) = a + b * 2 ^ n) as Hlor.
  { intros a b n Hn Ha. rewrite Z.shiftl_mul_pow2 by done.
    assert (Z.land a (b * 2 ^ n) = 0) as Hz.
    2: { pose proof (Z.add_lor_land a (b * 2 ^ n)). lia. }
    apply Z.bits_inj'. intros i Hi. rewrite Z.land_spec, Z.bits_0.
    destruct (decide (i < n)) as [Hin|Hin].
    - by rewrite Z.mul_pow2_bits_low, andb_false_r.
    - rewrite Z.testbit_eqb by done. rewrite Z.div_small; [done|].
      split; [lia|]. apply Z.lt_le_trans with (2 ^ n); [lia|]. apply Z.pow_le_mono_r; lia. }
  rewrite (Hlor b0 b1 8) by lia. rewrite Hlor by lia. lia.
Qed.

Lemma write_u24_le_spec v :
  0 <= v -> write_u24_le v = [Z_byte v; Z_byte (v / 256); Z_byte (v / 65536)].
Proof.
  intros Hv. unfold write_u24_le. cbn [to_le_bytes take].
  by rewrite Z.div_div by lia.
Qed.

Lemma length_write_u24_le v : length (write_u24_le v) = 3%nat.
Proof. done. Qed.

Lemma consumes_u24 v : 0 <= v < 2 ^ 24 -> consumes read_u24_le (write_u24_le v) v.
Proof.
  intros Hv. unfold read_u24_le. rewrite <- (app_nil_r (write_u24_le v)).
  eapply consumes_bind; [by apply consumes_bytes|].
  rewrite write_u24_le_spec by lia.
  rewrite lor_bytes by apply byte_Z_range. rewrite !byte_Z_Z_byte.
  assert (v mod 256 + 256 * (v / 256 mod 256) + 65536 * (v / 65536 mod 256) = v) as ->.
  { replace (v / 65536) with (v / 256 / 256) by (by rewrite Z.div_div by lia).
    Z.div_mod_to_equations. lia. }
  apply consumes_ret.
Qed.

Lemma consumes_seq {d} (s : Sequence d) :
  consumes (v ← read_u24_le; mret (new v)) (write_u24_le (value s)) s.
Proof.
  rewrite <- (new_value s) at 2. apply (consumes_fmap _ new).
  apply consumes_u24, value_range.
Qed.

Lemma consumes_seq_bind {d B} (s : Sequence d) (f : Sequence d -> Read B) y w :
  consumes (f s) y w ->
  consumes (v ← read_u24_le; f (new v)) (write_u24_le (value s) ++ y) w.
Proof.
  intros Hf. eapply consumes_bind; [apply consumes_u24, value_range|]. by rewrite new_value.
Qed.

#[export] Hint Resolve consumes_ret consumes_u8 consumes_u16 consumes_u32 consumes_i64
  consumes_u24 consumes_seq : consumes.

Lemma consumes_magic : consumes read_magic MAGIC tt.
Proof.
  unfold read_magic. rewrite <- (app_nil_r MAGIC) at 2.
  eapply consumes_bind; [by apply consumes_bytes|].
  rewrite decide_True by done. apply consumes_ret.
Qed.

(** An address as [SocketAddr] holds it. *)
Definition address_wf (a : SocketAddr) : Prop :=
  match a with
  | V4 ip port => length ip = 4%nat /\ 0 <= port < 2 ^ 16
  | V6 ip port flowinfo scope_id =>
      length ip = 16%nat /\ 0 <= port < 2 ^ 16 /\ 0 <= flowinfo < 2 ^ 32 /\
      0 <= scope_id < 2 ^ 32
  end.

Lemma consumes_address a : address_wf a -> consumes read_address (write_address a) a.
Proof.
  intros Ha. unfold read_address. destruct a as [ip port|ip port fl sc]; simpl in Ha.
  - destruct Ha as [Hip Hport]. do 4 (destruct ip as [|? ip]; [done|]).
    destruct ip; [|done].
    eapply consumes_bind; [by apply consumes_u8|].
    eapply consumes_bind; [by apply consumes_bytes|]. cbn [map].
    apply (consumes_eq _ (to_be_bytes 2 port)); [|done].
    rewrite !byte_not_involutive. apply (consumes_fmap _ (V4 _)). auto with consumes.
  - destruct Ha as (Hip & Hport & Hfl & Hsc).
    eapply consumes_bind; [by apply consumes_u8|].
    eapply consumes_bind; [by apply consumes_bytes|].
    do 2 (eapply consumes_bind; [by auto with consumes|]).
    eapply consumes_bind; [by apply consumes_array|].
    apply (consumes_fmap _ (V6 _ _ _)). auto with consumes.
Qed.
#[export] Hint Resolve consumes_magic consumes_address consumes_bytes : consumes.

(** Running a reader that consumes a prefix of the packet. *)
Lemma run_consumes {A} (m : Read A) x suf v :
  consumes m x v -> len (x ++ suf) <= usize_max -> snd (m (reader_new (x ++ suf))) = Ok v.
Proof.
  intros Hm Hlen. pose proof (Hm [] suf Hlen) as H. cbn [app] in H.
  change (len []) with 0 in H. unfold reader_new. by rewrite H.
Qed.

(** ** Round trips *)

(** A frame as the peer builds it: the optional indices are those its reliability
    asks for, the integers fit their fields, and the bit length fits [u16]. *)
Definition split_wf (s : SplitHeader) : Prop :=
  0 <= split_count s < 2 ^ 32 /\ 0 <= split_id s < 2 ^ 16 /\ 0 <= split_index s < 2 ^ 32.

Definition frame_wf (f : Frame) : Prop :=
  bool_decide (is_Some (reliable_index f)) = reliable (reliability f) /\
  bool_decide (is_Some (sequence_index f)) = sequenced (reliability f) /\
  bool_decide (is_Some (order_index f)) = ordered (reliability f) /\
  0 <= order_channel f < 256 /\
  (ordered (reliability f) = false -> order_channel f = 0) /\
  (forall s, split f = Some s -> split_wf s) /\
  len (payload f) <= 8191.

(** The part of [encode_datagram] after the datagram header. *)
Definition frame_bytes (f : Frame) : list byte := drop 4 (encode_datagram (new 0) f).

Lemma encode_datagram_eq sq f :
  encode_datagram sq f = u8_bytes 0x84 ++ write_u24_le (value sq) ++ frame_bytes f.
Proof. done. Qed.

Lemma read_if_consumes {A} b (m : Read A) (g : A -> list byte) (o : option A) :
  bool_decide (is_Some o) = b ->
  (forall a, o = Some a -> consumes m (g a) a) ->
  consumes (read_if b m) (opt_bytes g o) o.
Proof.
  intros <- Hm. unfold read_if. destruct o as [a|]; simpl.
  - apply (consumes_fmap m Some). by apply Hm.
  - apply consumes_ret.
Qed.

Lemma frame_flags_range r b : b = 0 \/ b = 16 ->
  let v := Z.lor (Z.land (Z.shiftl (reliability_tag r) 5) 255) b in
  0 <= v < 256 /\ from_tag (Z.shiftr v 5) = Ok r /\ negb (Z.land v 0x10 =? 0) = (b =? 16).
Proof. intros [-> | ->]; destruct r; vm_compute; split; auto; split; congruence. Qed.

Lemma bit_len_wf n : 0 <= n <= 8191 ->
  try_from_or_max u16_max (saturating_mul usize_max n 8) = n * 8 /\ div_ceil (n * 8) 8 = n.
Proof.
  intros Hn. unfold try_from_or_max, saturating_mul, usize_max, u64_max, u16_max, div_ceil. split.
  - rewrite Z.min_r by lia. case_test; lia.
  - rewrite <- Z.add_sub_assoc, Z.div_add_l by lia. change ((8 - 1) / 8) with 0. lia.
Qed.

Lemma decode_frame_consumes budgets f :
  frame_wf f -> len (payload f) <= max_payload_bytes budgets ->
  consumes (decode_frame budgets) (frame_bytes f) f.
Proof.
  intros (Hri & Hsi & Hoi & Hch & Hch0 & Hsp & Hlen) Hbud.
  destruct f as [rl ri si oi ch sp pl].
  cbn [reliability reliable_index sequence_index order_index order_channel split payload] in *.
  unfold frame_bytes, encode_datagram, decode_frame.
  cbn [reliability reliable_index sequence_index order_index order_channel split payload].
  destruct (bit_len_wf (len pl)) as [-> Hdiv]; [lia|].
  set (fl := match sp with Some _ => 16 | None => 0 end).
  destruct (frame_flags_range rl fl) as (Hflr & Htag & Hbit).
  { unfold fl. destruct sp; auto. }
  rewrite write_u24_le_spec by done. cbn [u8_bytes app drop].
  eapply (consumes_bind _ _ (u8_bytes _)); [by apply consumes_u8|].
  eapply consumes_bind_0; [by apply consumes_lift|].
  eapply consumes_bind; [apply consumes_u16; lia|].
  rewrite Hdiv.
  eapply consumes_bind_0; [by apply consumes_lift, ensure_budget_Ok|].
  eapply consumes_bind; [apply read_if_consumes; [done|]; intros; apply consumes_seq|].
  eapply consumes_bind; [apply read_if_consumes; [done|]; intros; apply consumes_seq|].
  rewrite Hbit.
  eapply (consumes_bind _ _ _ _ (oi, ch)).
  { destruct oi as [o|]; cbn [opt_bytes]; rewrite <- Hoi.
    - rewrite bool_decide_true by done.
      apply (consumes_seq_bind o (fun s => c ← read_u8; mret (Some s, c))).
      apply (consumes_fmap _ (fun c => (Some o, c))). by apply consumes_u8.
    - rewrite Hch0 by done. apply consumes_ret. }
  eapply consumes_bind; [apply read_if_consumes|].
  { unfold fl. by destruct sp. }
  { intros s Hs. destruct (Hsp s Hs) as (? & ? & ?). unfold read_split.
    destruct s as [cn id ix]. cbn [split_count split_id split_index] in *.
    do 2 (eapply consumes_bind; [by auto with consumes|]).
    apply (consumes_fmap _ (mkSplit cn id)). by auto with consumes. }
  apply (consumes_fmap _ (mkFrame rl ri si oi ch sp)). by apply consumes_bytes.
Qed.

Lemma frame_bytes_length f : (3 <= length (frame_bytes f))%nat.
Proof.
  unfold frame_bytes, encode_datagram. rewrite write_u24_le_spec by done.
  cbn [u8_bytes app drop length]. rewrite !length_app, length_to_be_bytes. lia.
Qed.

Lemma decode_frames_run budgets fs : forall fuel pre acc,
  Forall (fun f => frame_wf f /\ len (payload f) <= max_payload_bytes budgets) fs ->
  len (pre ++ mjoin (map frame_bytes fs)) <= usize_max ->
  (length fs <= fuel)%nat ->
  exists r', decode_frames fuel budgets acc (mkReader (pre ++ mjoin (map frame_bytes fs)) (len pre))
    = (r', Ok (acc ++ fs)).
Proof.
  induction fs as [|f fs IH]; intros fuel pre acc Hfs Hlen Hfuel.
  - exists (mkReader pre (len pre)). change (mjoin (map frame_bytes [])) with (@nil byte).
    rewrite !app_nil_r. destruct fuel; cbn [decode_frames]; unfold get, mbind, M_bind, is_empty;
      cbn [cursor rbytes]; rewrite Z.eqb_refl; done.
  - apply Forall_cons in Hfs as [[Hf Hp] Hfs].
    destruct fuel as [|fuel]; [simpl in Hfuel; lia|].
    cbn [map] in *. rewrite mjoin_cons in *.
    assert (is_empty (mkReader (pre ++ frame_bytes f ++ mjoin (map frame_bytes fs)) (len pre))
      = false) as Hne.
    { unfold is_empty. cbn [cursor rbytes]. apply Z.eqb_neq. rewrite !length_app.
      pose proof (frame_bytes_length f). lia. }
    cbn [decode_frames]. unfold get at 1. unfold mbind at 1, M_bind at 1. rewrite Hne.
    rewrite (bind_Ok _ _ _ _ _ (decode_frame_consumes budgets f Hf Hp pre _ Hlen)).
    specialize (IH fuel (pre ++ frame_bytes f) (acc ++ [f])).
    rewrite <- !app_assoc in IH. simpl in Hfuel.
    destruct IH as [r' Hr']; [done|done|lia|].
    exists r'. etransitivity; [|exact Hr'].
    by rewrite length_app, Nat2Z.inj_add.
Qed.

(** The header of a datagram in front of any sequence of well-formed frames. *)
Lemma decode_datagram_frames budgets sq fs :
  let bytes := u8_bytes 0x84 ++ write_u24_le (value sq) ++ mjoin (map frame_bytes fs) in
  Forall (fun f => frame_wf f /\ len (payload f) <= max_payload_bytes budgets) fs ->
  len bytes <= max_datagram_bytes budgets -> max_datagram_bytes budgets <= usize_max ->
  decode_datagram bytes budgets = Ok (mkDatagram sq fs).
Proof.
  intros bytes Hfs Hlen Hmax. unfold decode_datagram.
  rewrite ensure_budget_Ok by done. cbn [mbind result_bind].
  assert (len bytes <= usize_max) as Hu by lia.
  pose proof (consumes_u8 0x84 ltac:(lia) [] (write_u24_le (value sq) ++ mjoin (map frame_bytes fs)))
    as H1. cbn [app] in H1. specialize (H1 Hu). change (len []) with 0 in H1.
  unfold reader_new. fold bytes in H1. rewrite (bind_Ok _ _ _ _ _ H1).
  change (negb _) with false at 1. change (Z.land 0x84 0x80 =? 0) with false. cbn [orb].
  pose proof (consumes_u24 (value sq) ltac:(apply value_range) (u8_bytes 0x84)
    (mjoin (map frame_bytes fs)) Hu) as H2.
  rewrite (bind_Ok _ _ _ _ _ H2).
  destruct (decode_frames_run budgets fs (length bytes) (u8_bytes 0x84 ++ write_u24_le (value sq)) [])
    as [r' Hr']; [done| |..].
  { by rewrite <- app_assoc. }
  { unfold bytes. rewrite !length_app. clear. induction fs as [|f fs IH]; simpl; [lia|].
    rewrite length_app. pose proof (frame_bytes_length f). simpl in *. lia. }
  rewrite <- app_assoc in Hr'. rewrite length_app, Nat2Z.inj_add in Hr'. fold bytes in Hr'.
  rewrite (bind_Ok _ _ _ _ _ Hr'), new_value. done.
Qed.

(** A datagram that the peer encodes decodes, under any budgets that admit its
    size, to the same sequence number and the one frame it carries: all reliability
    classes, split headers and optional indices included. *)
Theorem datagram_roundtrip budgets sq f :
  frame_wf f -> len (payload f) <= max_payload_bytes budgets ->
  len (encode_datagram sq f) <= max_datagram_bytes budgets ->
  max_datagram_bytes budgets <= usize_max ->
  decode_datagram (encode_datagram sq f) budgets = Ok (mkDatagram sq [f]).
Proof.
  intros Hf Hp Hlen Hmax. rewrite encode_datagram_eq in *.
  rewrite <- (app_nil_r (frame_bytes f)) in *.
  apply (decode_datagram_frames budgets sq [f]); auto.
Qed.

Definition sample_frame : Frame :=
  mkFrame ReliableOrdered (Some (new 9)) None (Some (new 4)) 0
    (Some (mkSplit 3 77 2)) (map Z_byte [0xfe; 1; 2; 3]).

Lemma datagram_roundtrip_witness :
  decode_datagram (encode_datagram (new 7) sample_frame) default_budgets
  = Ok (mkDatagram (new 7) [sample_frame]).
Proof.
  apply datagram_roundtrip; [|by vm_compute..].
  repeat split; try done; simpl in *; simplify_eq; done.
Defined.

(** The offset [encode_datagram] adds to a payload. *)
Lemma length_encode_datagram sq f :
  len (encode_datagram sq f) <= len (payload f) + 30.
Proof.
  unfold encode_datagram. rewrite !length_app, !length_to_be_bytes, !length_write_u24_le.
  unfold u8_bytes. cbn [length].
  destruct (reliable_index f), (sequence_index f), (order_index f), (split f);
    cbn [opt_bytes]; rewrite ?length_app, ?length_to_be_bytes, ?length_write_u24_le;
    cbn [length]; lia.
Qed.

Lemma run_consumes_all {A} (m : Read A) x v :
  consumes m x v -> len x <= usize_max -> snd (m (reader_new x)) = Ok v.
Proof. intros Hm Hx. pose proof (run_consumes m x [] v Hm) as H. rewrite app_nil_r in H. auto. Qed.

(** Acknowledgements round trip: what [encode_ack] and [encode_nack] write,
    [decode_acknowledgement] reads back as the same single range, whether or not its
    two ends coincide; and a datagram is never mistaken for an acknowledgement. *)
Theorem acknowledgement_roundtrip (a b sq : DatagramSequence) (f : Frame) :
  decode_acknowledgement (encode_ack a) = Ok (Some (Ack [(a, a)])) /\
  decode_acknowledgement (encode_nack a b) = Ok (Some (Nack [(a, b)])) /\
  decode_acknowledgement (encode_datagram sq f) = Ok None.
Proof.
  assert (forall id x y, 0 <= id < 256 ->
    consumes (_ ← read_u8; count ← read_u16_be; ranges ← read_ranges (Z.to_nat count);
      mret (Some (if id =? 0xc0 then Ack ranges else Nack ranges)))
      (encode_ack_range id x y)
      (Some (if id =? 0xc0 then Ack [(x, y)] else Nack [(x, y)]))) as Hrange.
  { intros id x y Hid. unfold encode_ack_range.
    eapply consumes_bind; [by apply consumes_u8|].
    eapply consumes_bind; [by apply consumes_u16|].
    apply (consumes_fmap _ (fun ranges => Some (if id =? 0xc0 then Ack ranges else Nack ranges))).
    apply (consumes_fmap _ (fun range => [range])). unfold read_range.
    destruct (seq_eqb_spec x y) as [<-|Hne].
    - eapply consumes_bind; [by apply consumes_u8|]. rewrite app_nil_r.
      rewrite <- (app_nil_r (write_u24_le _)).
      apply (consumes_seq_bind x (fun s => mret (s, s))), consumes_ret.
    - eapply consumes_bind; [by apply consumes_u8|].
      apply (consumes_seq_bind x (fun s => v ← read_u24_le; mret (s, new v))).
      rewrite <- (app_nil_r (write_u24_le _)).
      apply (consumes_seq_bind y (fun s => mret (x, s))), consumes_ret. }
  repeat split.
  - unfold encode_ack.
    apply (run_consumes_all _ _ _ (Hrange 0xc0 a a ltac:(lia))). unfold encode_ack_range.
    destruct (seq_eqb_spec a a); [done|congruence].
  - unfold encode_nack.
    apply (run_consumes_all _ _ _ (Hrange 0xa0 a b ltac:(lia))). unfold encode_ack_range.
    by destruct (seq_eqb_spec a b).
Qed.

(** ** Reading arbitrary packets *)

(** The reader stands at or behind [c] within a packet of [n] bytes. *)
Definition reader_at (n c : Z) (r : Reader) : Prop :=
  len (rbytes r) = n /\ 0 <= c <= cursor r /\ cursor r <= n.

(** The errors of the decoders. *)
Definition read_error (e : RakNetError) (_ : Reader) : Prop :=
  match e with Wire _ | Budget _ => True | _ => False end.

Lemma hoare_read_bytes n c k :
  0 <= k ->
  hoare (reader_at n c) (read_bytes k)
    (fun bs r => len bs = k /\ reader_at n (c + k) r) read_error.
Proof.
  intros Hk r (Hn & Hc & Hle). unfold read_bytes, checked_add.
  case_test; [|done]. destruct (slice_get _ _ _) as [bs|] eqn:Hs; [|done].
  apply slice_get_length in Hs as [Hlen Hbound]; [|lia].
  unfold reader_at. cbn [rbytes cursor]. lia.
Qed.

Lemma hoare_read_u8 n c :
  hoare (reader_at n c) read_u8 (fun v r => 0 <= v < 256 /\ reader_at n (c + 1) r)
    read_error.
Proof.
  eapply hoare_bind; [by apply hoare_read_bytes|]. intros [|b bs].
  - intros r [H _]. done.
  - apply hoare_ret. intros r [_ H]. split; [apply byte_Z_range|done].
Qed.

Lemma hoare_read_array n c k err :
  hoare (reader_at n c) (read_array k err)
    (fun bs r => length bs = k /\ reader_at n (c + Z.of_nat k) r) read_error.
Proof.
  eapply hoare_bind; [apply hoare_read_bytes; lia|]. intros bs.
  destruct (decide _).
  - apply hoare_ret. intros r [? ?]. auto.
  - by apply hoare_throw.
Qed.

Lemma hoare_read_be n c k err :
  hoare (reader_at n c) (bs ← read_array k err; mret (from_be_bytes bs))
    (fun v r => 0 <= v < 2 ^ (8 * Z.of_nat k) /\ reader_at n (c + Z.of_nat k) r)
    read_error.
Proof.
  eapply hoare_bind; [apply hoare_read_array|]. intros bs. apply hoare_ret.
  intros r [<- ?]. split; [apply from_be_bytes_range|done].
Qed.

Lemma hoare_read_u24 n c :
  hoare (reader_at n c) read_u24_le (fun _ r => reader_at n (c + 3) r) read_error.
Proof.
  eapply hoare_bind; [by apply hoare_read_bytes|].
  intros [|b0 [|b1 [|b2 bs]]]; [intros r [H _]; done..|].
  apply hoare_ret. by intros r [_ H].
Qed.

Lemma hoare_read_i64 n c :
  hoare (reader_at n c) read_i64_be (fun _ => reader_at n (c + 8)) read_error.
Proof.
  eapply hoare_bind; [apply (hoare_read_array n c 8)|].
  intros bs. apply hoare_ret. by intros r [_ Hr].
Qed.

Lemma hoare_read_if {A} n c (b : bool) (m : Read A) :
  hoare (reader_at n c) m (fun _ => reader_at n c) read_error ->
  hoare (reader_at n c) (read_if b m)
    (fun o r => bool_decide (is_Some o) = b /\ reader_at n c r) read_error.
Proof.
  intros Hm. unfold read_if. destruct b.
  - eapply hoare_bind; [exact Hm|]. intros a. apply hoare_ret. auto.
  - apply hoare_ret. auto.
Qed.

Lemma reader_at_le n c c' r : reader_at n c r -> 0 <= c' <= c -> reader_at n c' r.
Proof. unfold reader_at. lia. Qed.

Lemma hoare_read_weaken {A} n c k (m : Read A) (Q : A -> Prop) :
  0 <= c -> 0 <= k ->
  hoare (reader_at n c) m (fun a r => Q a /\ reader_at n (c + k) r) read_error ->
  hoare (reader_at n c) m (fun a r => Q a /\ reader_at n c r) read_error.
Proof.
  intros Hc Hk Hm. eapply hoare_weaken; [exact Hm|done| |done].
  intros a r [? ?]. split; [done|]. eapply reader_at_le; [done|lia].
Qed.

(** The shape every decoded frame has. *)
Definition frame_shape (budgets : RakNetBudgets) (f : Frame) : Prop :=
  bool_decide (is_Some (reliable_index f)) = reliable (reliability f) /\
  bool_decide (is_Some (sequence_index f)) = sequenced (reliability f) /\
  bool_decide (is_Some (order_index f)) = ordered (reliability f) /\
  0 <= order_channel f < 256 /\
  (forall s, split f = Some s -> split_wf s) /\
  len (payload f) <= max_payload_bytes budgets /\ len (payload f) <= 8192.

Lemma hoare_seq_at {d} n c :
  0 <= c ->
  hoare (reader_at n c) (v ← read_u24_le; mret (new v : Sequence d)) (fun _ => reader_at n c)
    read_error.
Proof.
  intros Hc. eapply hoare_bind; [apply hoare_read_u24|]. intros v. apply hoare_ret.
  intros r H. eapply reader_at_le; [done|lia].
Qed.

Lemma hoare_read_split n c :
  0 <= c ->
  hoare (reader_at n c) read_split (fun s r => split_wf s /\ reader_at n c r) read_error.
Proof.
  intros Hc. unfold read_split.
  eapply hoare_bind; [apply (hoare_read_be n c 4)|]. intros cn. apply hoare_pure. intros Hcn.
  eapply hoare_bind; [apply (hoare_read_be n _ 2)|]. intros id. apply hoare_pure. intros Hid.
  eapply hoare_bind; [apply (hoare_read_be n _ 4)|]. intros ix. apply hoare_pure. intros Hix.
  apply hoare_ret. intros r Hr. split; [done|]. eapply reader_at_le; [done|lia].
Qed.

Lemma hoare_read_order n c (b : bool) :
  0 <= c ->
  hoare (reader_at n c)
    (if b then index ← read_u24_le; channel ← read_u8; mret (Some (new index : OrderSequence), channel)
     else mret (None, 0))
    (fun o r => (bool_decide (is_Some (fst o)) = b /\ 0 <= snd o < 256) /\ reader_at n c r)
    read_error.
Proof.
  intros Hc. destruct b.
  - eapply hoare_bind; [apply hoare_read_u24|]. intros v.
    eapply hoare_bind; [apply hoare_read_u8|]. intros ch. apply hoare_pure. intros Hch.
    apply hoare_ret. intros r Hr. split; [done|]. eapply reader_at_le; [done|lia].
  - apply hoare_ret. intros r Hr. split; [done|]. exact Hr.
Qed.

Lemma from_tag_small v : 0 <= v < 256 -> exists r, from_tag (Z.shiftr v 5) = Ok r.
Proof.
  intros Hv. rewrite Z.shiftr_div_pow2 by lia.
  assert (0 <= v / 2 ^ 5 < 8) as Hd by (Z.div_mod_to_equations; lia).
  assert (v / 2 ^ 5 = 0 \/ v / 2 ^ 5 = 1 \/ v / 2 ^ 5 = 2 \/ v / 2 ^ 5 = 3 \/
    v / 2 ^ 5 = 4 \/ v / 2 ^ 5 = 5 \/ v / 2 ^ 5 = 6 \/ v / 2 ^ 5 = 7) as Hcase by lia.
  repeat destruct Hcase as [-> | Hcase]; [by eexists..|]. rewrite Hcase. by eexists.
Qed.

Lemma div_ceil_8_bound v : 0 <= v < 2 ^ 16 -> 0 <= div_ceil v 8 <= 8192.
Proof. intros. unfold div_ceil. Z.div_mod_to_equations. lia. Qed.

(** A frame parsed from the middle of a packet is longer than the payload it returns. *)
Lemma hoare_decode_frame budgets n c :
  0 <= c ->
  hoare (reader_at n c) (decode_frame budgets)
    (fun f r => frame_shape budgets f /\ reader_at n (c + 3 + len (payload f)) r)
    read_error.
Proof.
  intros Hc. unfold decode_frame.
  eapply hoare_bind; [apply hoare_read_u8|]. intros fl. apply hoare_pure. intros Hfl.
  destruct (from_tag_small fl Hfl) as [rl Hrl]. rewrite Hrl.
  eapply hoare_bind; [by apply (hoare_lift _ _ _ (fun r s => r = rl /\ reader_at n (c + 1) s))|].
  intros rl'. apply hoare_pure. intros ->.
  eapply hoare_bind; [apply (hoare_read_be n _ 2)|]. intros bl. apply hoare_pure. intros Hbl.
  apply div_ceil_8_bound in Hbl.
  eapply hoare_bind; [by apply hoare_ensure_budget|]. intros [].
  eapply hoare_pre; [|intros s [H1 H2]; exact (conj H2 H1)]. apply hoare_pure. intros Hbud.
  eapply hoare_bind; [apply hoare_read_if, hoare_seq_at; lia|]. intros ri. apply hoare_pure. intros Hri.
  eapply hoare_bind; [apply hoare_read_if, hoare_seq_at; lia|]. intros si. apply hoare_pure. intros Hsi.
  eapply hoare_bind; [apply hoare_read_order; lia|]. intros oi. apply hoare_pure. intros Hoi.
  eapply (hoare_bind _ _ _ _
    (fun sp r => (forall s, sp = Some s -> split_wf s) /\ reader_at n (c + 1 + Z.of_nat 2) r)).
  { unfold read_if. destruct (negb _).
    - eapply hoare_bind; [apply hoare_read_split; lia|]. intros s. apply hoare_ret.
      intros r [Hs Hr]. split; [by intros ? [= <-]|done].
    - apply hoare_ret. intros r Hr. split; [done|exact Hr]. }
  intros sp. apply hoare_pure. intros Hsp.
  eapply hoare_bind; [apply hoare_read_bytes; lia|]. intros pl. apply hoare_pure. intros Hpl.
  apply hoare_ret. intros r Hr. unfold frame_shape. cbn. rewrite Hpl.
  split; [intuition lia|]. eapply reader_at_le; [exact Hr|lia].
Qed.

Definition payload_bytes (fs : list Frame) : Z := sum_Z (map (fun f => len (payload f)) fs).

Lemma hoare_decode_frames budgets n fuel : forall c acc,
  0 <= c -> n <= c + 3 * Z.of_nat fuel ->
  Forall (frame_shape budgets) acc -> 4 + 3 * len acc + payload_bytes acc <= c ->
  hoare (reader_at n c) (decode_frames fuel budgets acc)
    (fun fs _ => Forall (frame_shape budgets) fs /\ 4 + 3 * len fs + payload_bytes fs <= n)
    read_error.
Proof.
  induction fuel as [|fuel IH]; intros c acc Hc Hn Hacc Hsize; cbn [decode_frames];
    (eapply hoare_bind; [by apply (hoare_get _ _ (fun r s => r = s /\ reader_at n c s))|]);
    intros r; unfold is_empty; case_test.
  - apply hoare_ret. intros r' [_ Hr]. unfold reader_at in Hr. split; [done|lia].
  - intros r' [-> Hr]. unfold reader_at in Hr. exfalso. lia.
  - apply hoare_ret. intros r' [_ Hr]. unfold reader_at in Hr. split; [done|lia].
  - eapply hoare_bind; [eapply hoare_pre; [by apply hoare_decode_frame|by intros s [_ Hs]]|]. intros f. apply hoare_pure. intros Hf.
    apply IH; [lia|lia|by apply Forall_app; auto|].
    unfold payload_bytes in *. rewrite map_app, sum_Z_app, length_app. unfold sum_Z at 2. simpl. lia.
Qed.

Lemma decode_datagram_cases bytes budgets :
  match decode_datagram bytes budgets with
  | Ok dg => len bytes <= max_datagram_bytes budgets /\
      Forall (frame_shape budgets) (frames dg) /\
      4 + 3 * len (frames dg) + payload_bytes (frames dg) <= len bytes
  | Err (Wire _) | Err (Budget _) => True
  | _ => False
  end.
Proof.
  unfold decode_datagram.
  destruct (ensure_budget_inv "datagram bytes" (len bytes) (max_datagram_bytes budgets) _ eq_refl)
    as [[-> Hlen]|[-> _]]; [|done].
  cbn [mbind result_bind].
  match goal with |- context [snd (?m (reader_new bytes))] => set (run := m) end.
  assert (hoare (reader_at (len bytes) 0) run (fun dg _ => Forall (frame_shape budgets) (frames dg) /\
    4 + 3 * len (frames dg) + payload_bytes (frames dg) <= len bytes) read_error) as Hrun.
  { unfold run. eapply hoare_bind; [apply hoare_read_u8|]. intros fl. apply hoare_pure. intros Hfl.
    destruct (_ || _); [by apply hoare_throw|].
    eapply hoare_bind; [apply hoare_read_u24|]. intros sq.
    eapply hoare_bind; [apply hoare_decode_frames; [lia|lia|done|done]|].
    intros fs. apply hoare_ret. auto. }
  specialize (Hrun (reader_new bytes)). destruct (run (reader_new bytes)) as [r' res].
  cbn [snd]. assert (reader_at (len bytes) 0 (reader_new bytes)) as Hr0.
  { unfold reader_at, reader_new. cbn [rbytes cursor]. lia. }
  specialize (Hrun Hr0). destruct res as [dg|e| |]; [auto| |done..].
  by destruct e.
Qed.

(** A decoder that looks at the first byte and then runs a reader over the whole packet. *)
Lemma run_after_id {A} (m : Z -> Read A) id x suf v :
  0 <= id < 256 -> consumes (m id) x v -> len (u8_bytes id ++ x ++ suf) <= usize_max ->
  snd ((i ← read_u8; m i) (reader_new (u8_bytes id ++ x ++ suf))) = Ok v.
Proof.
  intros Hid Hm Hlen. rewrite app_assoc in *. apply run_consumes; [|done].
  eapply consumes_bind; [by apply consumes_u8|done].
Qed.

(** The requests of the offline handshake are understood as the protocol defines
    them.  A ping keeps its time; the MTU a client probes for is the size of its
    padded packet (at most [u16::MAX]); the second request yields the MTU and GUID
    behind any valid server address, IPv4 (stored inverted) or IPv6. *)
Theorem offline_requests_decode time guid protocol mtu addr id suf :
  - 2 ^ 63 <= time < 2 ^ 63 -> - 2 ^ 63 <= guid < 2 ^ 63 ->
  0 <= protocol < 256 -> 0 <= mtu < 2 ^ 16 -> address_wf addr ->
  id = 0x01 \/ id = 0x02 -> len suf <= 2 ^ 32 ->
  decode_offline_request (u8_bytes id ++ (i64_be time ++ MAGIC ++ i64_be guid) ++ suf)
    = Ok (Some (Ping time)) /\
  decode_offline_request (u8_bytes 0x05 ++ (MAGIC ++ u8_bytes protocol) ++ suf)
    = Ok (Some (OpenConnection1 protocol (Z.min u16_max (18 + len suf)))) /\
  decode_offline_request
    (u8_bytes 0x07 ++ (MAGIC ++ write_address addr ++ to_be_bytes 2 mtu ++ i64_be guid) ++ suf)
    = Ok (Some (OpenConnection2 mtu guid)).
Proof.
  intros Htime Hguid Hproto Hmtu Haddr Hid Hsuf.
  assert (length (write_address addr) <= 29)%nat as Haddr_len.
  { destruct addr; unfold write_address, u8_bytes; simpl in Haddr;
      rewrite !length_app, ?length_map, ?length_to_be_bytes, ?length_to_le_bytes; simpl; lia. }
  unfold decode_offline_request, u8_bytes. cbn [app]. rewrite !Z_byte_small by (destruct Hid; lia).
  split; [|split].
  - apply (run_after_id (fun _ => if (id =? 1) || (id =? 2) then _ else _)).
    + destruct Hid; lia.
    + replace ((id =? 1) || (id =? 2)) with true by (destruct Hid; by subst).
      eapply consumes_bind; [by apply consumes_i64|].
      eapply consumes_bind; [apply consumes_magic|].
      eapply (consumes_fmap _ (fun _ => Some (Ping time))). by apply consumes_i64.
    + unfold i64_be. rewrite !length_app, !length_to_be_bytes. simpl. unfold usize_max, u64_max. lia.
  - replace (Z.min u16_max (18 + len suf))
      with (try_from_or_max u16_max (len (u8_bytes 5 ++ (MAGIC ++ u8_bytes protocol) ++ suf))).
    + apply (run_after_id (fun _ => _)); [lia| |].
      * eapply consumes_bind; [apply consumes_magic|].
        eapply (consumes_fmap _ (fun p => Some (OpenConnection1 p _))). by apply consumes_u8.
      * rewrite !length_app. simpl. unfold usize_max, u64_max. lia.
    + rewrite !length_app. unfold try_from_or_max. simpl length. case_test; lia.
  - apply (run_after_id (fun _ => _)); [lia| |].
    + eapply consumes_bind; [apply consumes_magic|].
      eapply consumes_bind; [by apply consumes_address|].
      eapply consumes_bind; [by apply consumes_u16|].
      apply (consumes_fmap _ (fun g => Some (OpenConnection2 mtu g))). by apply consumes_i64.
    + unfold i64_be. rewrite !length_app, !length_to_be_bytes. simpl. unfold usize_max, u64_max. lia.
Qed.

Lemma offline_requests_decode_witness :
  decode_offline_request
    (u8_bytes 0x07 ++ (MAGIC ++ write_address (V4 (map Z_byte [127; 0; 0; 1]) 19132) ++
       to_be_bytes 2 1492 ++ i64_be (-7)) ++ [])
    = Ok (Some (OpenConnection2 1492 (-7))).
Proof.
  refine (proj2 (proj2 (offline_requests_decode 0 (-7) 11 1492
    (V4 (map Z_byte [127; 0; 0; 1]) 19132) 1 [] _ _ _ _ _ _ _))); try lia; try done; by left.
Defined.

(** [decode_datagram] is total and safe on arbitrary input: for every byte
    string and budgets it returns a datagram or a wire/budget error, without panic
    and without running out of fuel.  What it returns respects the budgets, each
    frame has exactly the indices of its reliability class, and the frames together
    are no longer than the input. *)
Theorem decode_datagram_safe bytes budgets :
  match decode_datagram bytes budgets with
  | Ok dg => len bytes <= max_datagram_bytes budgets /\
      Forall (frame_shape budgets) (frames dg) /\
      4 + 3 * len (frames dg) + payload_bytes (frames dg) <= len bytes
  | Err (Wire _) | Err (Budget _) => True
  | _ => False
  end.
Proof. apply decode_datagram_cases. Qed.

(** ** Totality of the other decoders *)

Lemma decode_datagram_frame_shapes bytes budgets :
  match decode_datagram bytes budgets with
  | Ok dg => Forall (frame_shape budgets) (frames dg)
  | Err _ => True
  | _ => False
  end.
Proof.
  pose proof (decode_datagram_cases bytes budgets) as H.
  destruct (decode_datagram bytes budgets) as [dg|[]| |]; try done. by destruct H as (_ & ? & _).
Qed.

Lemma hoare_read_range n c :
  0 <= c -> hoare (reader_at n c) read_range (fun _ => reader_at n c) read_error.
Proof.
  intros Hc. unfold read_range.
  eapply hoare_bind; [apply hoare_read_u8|]. intros fl. apply hoare_pure. intros _.
  eapply hoare_bind; [apply hoare_read_u24|]. intros st.
  destruct (negb _).
  - apply hoare_ret. intros r Hr. eapply reader_at_le; [done|lia].
  - eapply hoare_bind; [apply hoare_read_u24|]. intros en. apply hoare_ret.
    intros r Hr. eapply reader_at_le; [done|lia].
Qed.

Lemma hoare_read_ranges n c count :
  0 <= c -> hoare (reader_at n c) (read_ranges count) (fun _ => reader_at n c) read_error.
Proof.
  intros Hc. induction count as [|count IH]; cbn [read_ranges]; [by apply hoare_ret|].
  eapply hoare_bind; [by apply hoare_read_range|]. intros range.
  eapply hoare_bind; [exact IH|]. intros rest. by apply hoare_ret.
Qed.

Lemma decode_acknowledgement_total bytes :
  match decode_acknowledgement bytes with Ok _ | Err _ => True | _ => False end.
Proof.
  unfold decode_acknowledgement. destruct bytes as [|b rest]; [done|].
  destruct (_ || _); [|done].
  match goal with |- context [snd (?m (reader_new ?bytes))] =>
    assert (hoare (reader_at (len bytes) 0) m (fun _ _ => True) read_error) as Hm;
    [|specialize (Hm (reader_new bytes)); destruct (m (reader_new bytes)) as [r' [?|?| |]];
      try done; apply Hm; unfold reader_at, reader_new; cbn [rbytes cursor]; lia] end.
  eapply hoare_bind; [apply hoare_read_u8|]. intros i. apply hoare_pure. intros _.
  eapply hoare_bind; [apply (hoare_read_be _ _ 2)|]. intros count. apply hoare_pure. intros _.
  eapply hoare_bind; [by apply hoare_read_ranges|]. intros ranges. by apply hoare_ret.
Qed.
