(* ===== verification/RaknetPeer.v ===== *)
(** * The RakNet peer actor ([crates/network/revy-raknet/src/peer.rs])

    The state of one peer and every handler of its task: acknowledgement, frame
    reception, reassembly, ordering, delivery, sending, retransmission, timers,
    transfer snapshot, and the task's loop as a step relation.

    Time is in nanoseconds.  A handler runs in [Act]: it may change the actor and
    the outside ([IO]) and return an error.  Everything the code asks the
    operating system for (the clocks, the result of a socket send, of handing a
    peer to the listener, the iteration order of a hash map) comes from an
    environment [Env] that is a parameter of the model. *)

From S2P Require Import Prelude Bytes RaknetSequence RaknetBudget RaknetWire.

(** ** Constants *)

Definition millis (n : Z) : Z := n * 1000000.
Definition RETRANSMIT_BASE_DELAY : Z := millis 200.
Definition RETRANSMIT_MAX_BACKOFF_SHIFT : Z := 3.
Definition PEER_TIMEOUT : Z := millis 12000.
Definition MAX_RETRANSMIT_ATTEMPTS : Z := 60.
Definition DATAGRAM_HEADER_BUDGET : Z := 64.

(** ** The environment *)

(** [clock n], [system_time n], ... answer the [n]-th question put to the outside. *)
Record Env : Type := mkEnv {
  clock : nat -> Z;
  system_time : nat -> Z;
  socket_ok : nat -> bool;
  accept_ok : nat -> bool;
  hash_order : list DatagramSequence -> list DatagramSequence;
  instant_min : Z;
  instant_max : Z
}.

Record IO : Type := mkIO {
  ticks : nat;
  sent : list (SocketAddr * list byte);
  accepted_peers : list SocketAddr
}.

(** ** Instants and durations *)

Definition duration_since (later earlier : Z) : Z := Z.max 0 (later - earlier).
Definition instant_checked_sub (env : Env) (t d : Z) : option Z :=
  if instant_min env <=? t - d then Some (t - d) else None.
Definition instant_checked_add (env : Env) (t d : Z) : option Z :=
  if t + d <=? instant_max env then Some (t + d) else None.

(** [u32::from(attempts.saturating_sub(1)).min(..)], then [1 << shift]. *)
Definition retransmit_delay (attempts : Z) : Z :=
  let shift := Z.min (saturating_sub attempts 1) RETRANSMIT_MAX_BACKOFF_SHIFT in
  RETRANSMIT_BASE_DELAY * Z.shiftl 1 shift.

(** [system_time] is the signed distance to the Unix epoch. *)
Definition epoch_millis (since_epoch : Z) : Z :=
  try_from_or_max i64_max (Z.max 0 since_epoch / 1000000).

(** ** State *)

Record PeerInbox : Type := mkInbox { queue : list (list byte); closed : bool; capacity : Z }.

Record UnackedDatagram : Type := mkUnacked { ud_bytes : list byte; sent_at : Z; attempts : Z }.

Record Reassembly : Type := mkReassembly { parts : list (option (list byte)) }.

(** The objects behind the shared [Arc]s (inbox, activity, ownership flag) are held
    in place. *)
Record PeerActor : Type := mkPeerActor {
  remote_addr : SocketAddr;
  mtu : Z;
  budgets : RakNetBudgets;
  inbox : PeerInbox;
  activity : Z;
  accepted : bool;
  router_owned : bool;
  next_datagram : DatagramSequence;
  next_reliable : ReliableSequence;
  next_ordered : OrderSequence;
  next_split_id : Z;
  last_datagram : option DatagramSequence;
  seen_datagrams : gset DatagramSequence;
  seen_datagram_order : list DatagramSequence;
  seen_reliable : gset ReliableSequence;
  seen_reliable_order : list ReliableSequence;
  ordered_expected : gmap Z OrderSequence;
  sequenced_latest : gmap Z OrderSequence;
  ordered_holdback : gmap (Z * OrderSequence) (list byte);
  reassembly : gmap Z Reassembly;
  reassembly_bytes : Z;
  reassembly_parts : Z;
  unacked : gmap DatagramSequence UnackedDatagram
}.

(** Field updates, [self.field = value]. *)
Definition set_inbox (v : PeerInbox) (a : PeerActor) : PeerActor :=
  mkPeerActor (remote_addr a) (mtu a) (budgets a) v (activity a) (accepted a)
    (router_owned a) (next_datagram a) (next_reliable a) (next_ordered a) (next_split_id
    a) (last_datagram a) (seen_datagrams a) (seen_datagram_order a) (seen_reliable a)
    (seen_reliable_order a) (ordered_expected a) (sequenced_latest a) (ordered_holdback
    a) (reassembly a) (reassembly_bytes a) (reassembly_parts a) (unacked a).
Definition set_activity (v : Z) (a : PeerActor) : PeerActor :=
  mkPeerActor (remote_addr a) (mtu a) (budgets a) (inbox a) v (accepted a) (router_owned
    a) (next_datagram a) (next_reliable a) (next_ordered a) (next_split_id a)
    (last_datagram a) (seen_datagrams a) (seen_datagram_order a) (seen_reliable a)
    (seen_reliable_order a) (ordered_expected a) (sequenced_latest a) (ordered_holdback
    a) (reassembly a) (reassembly_bytes a) (reassembly_parts a) (unacked a).
Definition set_accepted (v : bool) (a : PeerActor) : PeerActor :=
  mkPeerActor (remote_addr a) (mtu a) (budgets a) (inbox a) (activity a) v (router_owned
    a) (next_datagram a) (next_reliable a) (next_ordered a) (next_split_id a)
    (last_datagram a) (seen_datagrams a) (seen_datagram_order a) (seen_reliable a)
    (seen_reliable_order a) (ordered_expected a) (sequenced_latest a) (ordered_holdback
    a) (reassembly a) (reassembly_bytes a) (reassembly_parts a) (unacked a).
Definition set_next_datagram (v : DatagramSequence) (a : PeerActor) : PeerActor :=
  mkPeerActor (remote_addr a) (mtu a) (budgets a) (inbox a) (activity a) (accepted a)
    (router_owned a) v (next_reliable a) (next_ordered a) (next_split_id a)
    (last_datagram a) (seen_datagrams a) (seen_datagram_order a) (seen_reliable a)
    (seen_reliable_order a) (ordered_expected a) (sequenced_latest a) (ordered_holdback
    a) (reassembly a) (reassembly_bytes a) (reassembly_parts a) (unacked a).
Definition set_next_reliable (v : ReliableSequence) (a : PeerActor) : PeerActor :=
  mkPeerActor (remote_addr a) (mtu a) (budgets a) (inbox a) (activity a) (accepted a)
    (router_owned a) (next_datagram a) v (next_ordered a) (next_split_id a)
    (last_datagram a) (seen_datagrams a) (seen_datagram_order a) (seen_reliable a)
    (seen_reliable_order a) (ordered_expected a) (sequenced_latest a) (ordered_holdback
    a) (reassembly a) (reassembly_bytes a) (reassembly_parts a) (unacked a).
Definition set_next_ordered (v : OrderSequence) (a : PeerActor) : PeerActor :=
  mkPeerActor (remote_addr a) (mtu a) (budgets a) (inbox a) (activity a) (accepted a)
    (router_owned a) (next_datagram a) (next_reliable a) v (next_split_id a)
    (last_datagram a) (seen_datagrams a) (seen_datagram_order a) (seen_reliable a)
    (seen_reliable_order a) (ordered_expected a) (sequenced_latest a) (ordered_holdback
    a) (reassembly a) (reassembly_bytes a) (reassembly_parts a) (unacked a).
Definition set_next_split_id (v : Z) (a : PeerActor) : PeerActor :=
  mkPeerActor (remote_addr a) (mtu a) (budgets a) (inbox a) (activity a) (accepted a)
    (router_owned a) (next_datagram a) (next_reliable a) (next_ordered a) v
    (last_datagram a) (seen_datagrams a) (seen_datagram_order a) (seen_reliable a)
    (seen_reliable_order a) (ordered_expected a) (sequenced_latest a) (ordered_holdback
    a) (reassembly a) (reassembly_bytes a) (reassembly_parts a) (unacked a).
Definition set_last_datagram (v : option DatagramSequence) (a : PeerActor) : PeerActor :=
  mkPeerActor (remote_addr a) (mtu a) (budgets a) (inbox a) (activity a) (accepted a)
    (router_owned a) (next_datagram a) (next_reliable a) (next_ordered a) (next_split_id
    a) v (seen_datagrams a) (seen_datagram_order a) (seen_reliable a)
    (seen_reliable_order a) (ordered_expected a) (sequenced_latest a) (ordered_holdback
    a) (reassembly a) (reassembly_bytes a) (reassembly_parts a) (unacked a).
Definition set_seen_datagrams (v : gset DatagramSequence) (a : PeerActor) : PeerActor :=
  mkPeerActor (remote_addr a) (mtu a) (budgets a) (inbox a) (activity a) (accepted a)
    (router_owned a) (next_datagram a) (next_reliable a) (next_ordered a) (next_split_id
    a) (last_datagram a) v (seen_datagram_order a) (seen_reliable a)
    (seen_reliable_order a) (ordered_expected a) (sequenced_latest a) (ordered_holdback
    a) (reassembly a) (reassembly_bytes a) (reassembly_parts a) (unacked a).
Definition set_seen_datagram_order (v : list DatagramSequence) (a : PeerActor) : PeerActor :=
  mkPeerActor (remote_addr a) (mtu a) (budgets a) (inbox a) (activity a) (accepted a)
    (router_owned a) (next_datagram a) (next_reliable a) (next_ordered a) (next_split_id
    a) (last_datagram a) (seen_datagrams a) v (seen_reliable a) (seen_reliable_order a)
    (ordered_expected a) (sequenced_latest a) (ordered_holdback a) (reassembly a)
    (reassembly_bytes a) (reassembly_parts a) (unacked a).
Definition set_seen_reliable (v : gset ReliableSequence) (a : PeerActor) : PeerActor :=
  mkPeerActor (remote_addr a) (mtu a) (budgets a) (inbox a) (activity a) (accepted a)
    (router_owned a) (next_datagram a) (next_reliable a) (next_ordered a) (next_split_id
    a) (last_datagram a) (seen_datagrams a) (seen_datagram_order a) v
    (seen_reliable_order a) (ordered_expected a) (sequenced_latest a) (ordered_holdback
    a) (reassembly a) (reassembly_bytes a) (reassembly_parts a) (unacked a).
Definition set_seen_reliable_order (v : list ReliableSequence) (a : PeerActor) : PeerActor :=
  mkPeerActor (remote_addr a) (mtu a) (budgets a) (inbox a) (activity a) (accepted a)
    (router_owned a) (next_datagram a) (next_reliable a) (next_ordered a) (next_split_id
    a) (last_datagram a) (seen_datagrams a) (seen_datagram_order a) (seen_reliable a) v
    (ordered_expected a) (sequenced_latest a) (ordered_holdback a) (reassembly a)
    (reassembly_bytes a) (reassembly_parts a) (unacked a).
Definition set_ordered_expected (v : gmap Z OrderSequence) (a : PeerActor) : PeerActor :=
  mkPeerActor (remote_addr a) (mtu a) (budgets a) (inbox a) (activity a) (accepted a)
    (router_owned a) (next_datagram a) (next_reliable a) (next_ordered a) (next_split_id
    a) (last_datagram a) (seen_datagrams a) (seen_datagram_order a) (seen_reliable a)
    (seen_reliable_order a) v (sequenced_latest a) (ordered_holdback a) (reassembly a)
    (reassembly_bytes a) (reassembly_parts a) (unacked a).
Definition set_sequenced_latest (v : gmap Z OrderSequence) (a : PeerActor) : PeerActor :=
  mkPeerActor (remote_addr a) (mtu a) (budgets a) (inbox a) (activity a) (accepted a)
    (router_owned a) (next_datagram a) (next_reliable a) (next_ordered a) (next_split_id
    a) (last_datagram a) (seen_datagrams a) (seen_datagram_order a) (seen_reliable a)
    (seen_reliable_order a) (ordered_expected a) v (ordered_holdback a) (reassembly a)
    (reassembly_bytes a) (reassembly_parts a) (unacked a).
Definition set_ordered_holdback (v : gmap (Z * OrderSequence) (list byte)) (a : PeerActor) : PeerActor :=
  mkPeerActor (remote_addr a) (mtu a) (budgets a) (inbox a) (activity a) (accepted a)
    (router_owned a) (next_datagram a) (next_reliable a) (next_ordered a) (next_split_id
    a) (last_datagram a) (seen_datagrams a) (seen_datagram_order a) (seen_reliable a)
    (seen_reliable_order a) (ordered_expected a) (sequenced_latest a) v (reassembly a)
    (reassembly_bytes a) (reassembly_parts a) (unacked a).
Definition set_reassembly (v : gmap Z Reassembly) (a : PeerActor) : PeerActor :=
  mkPeerActor (remote_addr a) (mtu a) (budgets a) (inbox a) (activity a) (accepted a)
    (router_owned a) (next_datagram a) (next_reliable a) (next_ordered a) (next_split_id
    a) (last_datagram a) (seen_datagrams a) (seen_datagram_order a) (seen_reliable a)
    (seen_reliable_order a) (ordered_expected a) (sequenced_latest a) (ordered_holdback
    a) v (reassembly_bytes a) (reassembly_parts a) (unacked a).
Definition set_reassembly_bytes (v : Z) (a : PeerActor) : PeerActor :=
  mkPeerActor (remote_addr a) (mtu a) (budgets a) (inbox a) (activity a) (accepted a)
    (router_owned a) (next_datagram a) (next_reliable a) (next_ordered a) (next_split_id
    a) (last_datagram a) (seen_datagrams a) (seen_datagram_order a) (seen_reliable a)
    (seen_reliable_order a) (ordered_expected a) (sequenced_latest a) (ordered_holdback
    a) (reassembly a) v (reassembly_parts a) (unacked a).
Definition set_reassembly_parts (v : Z) (a : PeerActor) : PeerActor :=
  mkPeerActor (remote_addr a) (mtu a) (budgets a) (inbox a) (activity a) (accepted a)
    (router_owned a) (next_datagram a) (next_reliable a) (next_ordered a) (next_split_id
    a) (last_datagram a) (seen_datagrams a) (seen_datagram_order a) (seen_reliable a)
    (seen_reliable_order a) (ordered_expected a) (sequenced_latest a) (ordered_holdback
    a) (reassembly a) (reassembly_bytes a) v (unacked a).
Definition set_unacked (v : gmap DatagramSequence UnackedDatagram) (a : PeerActor) : PeerActor :=
  mkPeerActor (remote_addr a) (mtu a) (budgets a) (inbox a) (activity a) (accepted a)
    (router_owned a) (next_datagram a) (next_reliable a) (next_ordered a) (next_split_id
    a) (last_datagram a) (seen_datagrams a) (seen_datagram_order a) (seen_reliable a)
    (seen_reliable_order a) (ordered_expected a) (sequenced_latest a) (ordered_holdback
    a) (reassembly a) (reassembly_bytes a) (reassembly_parts a) v.

Record World : Type := mkWorld { actor : PeerActor; io : IO }.

Definition Act (A : Type) : Type := M RakNetError World A.
#[global] Typeclasses Transparent Act.

Definition self : Act PeerActor := fun w => (w, Ok (actor w)).
Definition update (f : PeerActor -> PeerActor) : Act unit :=
  fun w => (mkWorld (f (actor w)) (io w), Ok tt).

(** [PeerActor::new] *)
Definition actor_new (remote : SocketAddr) (mtu : Z) (budgets : RakNetBudgets)
    (inbox : PeerInbox) (activity : Z) (router_owned : bool) : PeerActor :=
  mkPeerActor remote mtu budgets inbox activity false router_owned
    default_sequence default_sequence default_sequence 0 None ∅ [] ∅ [] ∅ ∅ ∅ ∅ 0 0 ∅.

Definition in_range (sequence : DatagramSequence)
    (range : DatagramSequence * DatagramSequence) : bool :=
  wrapping_distance_from sequence (fst range) <=? wrapping_distance_from (snd range) (fst range).

Definition duplicate_window_limit (budgets : RakNetBudgets) : Z :=
  Z.max (saturating_mul usize_max (max_unacked_datagrams budgets) 2) 1.

(** ** Inbox *)

Definition inbox_new (capacity : Z) : PeerInbox := mkInbox [] false capacity.

Definition inbox_push (payload : list byte) (i : PeerInbox) : PeerInbox * result RakNetError unit :=
  match ensure_budget "application queue entries"
      (saturating_add usize_max (len (queue i)) 1) (capacity i) with
  | Ok _ => (mkInbox (queue i ++ [payload]) (closed i) (capacity i), Ok tt)
  | r => (i, r)
  end.

(** One poll of [PeerInbox::receive]: [None] is the await on [notified]. *)
Definition inbox_receive (i : PeerInbox) : PeerInbox * option (result RakNetError (list byte)) :=
  match queue i with
  | p :: q => (mkInbox q (closed i) (capacity i), Some (Ok p))
  | [] => if closed i then (i, Some (Err Closed)) else (i, None)
  end.

Definition inbox_close (i : PeerInbox) : PeerInbox := mkInbox (queue i) true (capacity i).

(** ** Activity *)

Definition activity_observe (observed_at current : Z) : Z :=
  if current <? observed_at then observed_at else current.

Definition activity_resume (env : Env) (frozen_at resumed_at observed : Z) : Z :=
  let idle_elapsed := duration_since frozen_at observed in
  default resumed_at (instant_checked_sub env resumed_at idle_elapsed).

(** ** Handlers *)

(** [while order.len() > limit { if let Some(expired) = order.pop_front() { .. } }] *)
Fixpoint trim_window {d} (limit : Z) (order : list (Sequence d)) (seen : gset (Sequence d)) :
    list (Sequence d) * gset (Sequence d) :=
  match order with
  | [] => ([], seen)
  | expired :: rest =>
      if limit <? len order then trim_window limit rest (seen ∖ {[expired]})
      else (order, seen)
  end.

Section Handlers.
Context (env : Env).

Definition ask {A} (answer : nat -> A) : Act A := fun w =>
  (mkWorld (actor w) (mkIO (S (ticks (io w))) (sent (io w)) (accepted_peers (io w))),
   Ok (answer (ticks (io w)))).

Definition now : Act Z := ask (clock env).

(** [self.socket.send_to(bytes, self.remote_addr).await?] *)
Definition send_to (bytes : list byte) : Act unit :=
  ok ← ask (socket_ok env);
  if (ok : bool) then
    modify (fun w => mkWorld (actor w)
      (mkIO (ticks (io w)) (sent (io w) ++ [(remote_addr (actor w), bytes)])
         (accepted_peers (io w))))
  else throw Io.

(** [self.accepted_tx.send(peer).await.map_err(|_| Closed)?] *)
Definition announce_peer : Act unit :=
  ok ← ask (accept_ok env);
  if (ok : bool) then
    modify (fun w => mkWorld (actor w)
      (mkIO (ticks (io w)) (sent (io w)) (accepted_peers (io w) ++ [remote_addr (actor w)])))
  else throw Closed.

Definition send_frame (frame : Frame) : Act unit :=
  a ← self;
  lift (ensure_budget "unacknowledged datagrams"
    (saturating_add usize_max (Z.of_nat (size (unacked a))) 1)
    (max_unacked_datagrams (budgets a))) ;;
  let sequence := next_datagram a in
  update (set_next_datagram (next (next_datagram a))) ;;
  let bytes := encode_datagram sequence frame in
  lift (ensure_budget "datagram bytes" (len bytes) (max_datagram_bytes (budgets a))) ;;
  send_to bytes ;;
  sent_at ← now;
  update (fun a => set_unacked (<[sequence := mkUnacked bytes sent_at 1]> (unacked a)) a).

(** One iteration of the loop over [payload.chunks(fragment_capacity).enumerate()]. *)
Definition send_fragment (order_index : OrderSequence) (split_id fragment_count : Z)
    (fragment : Z * list byte) : Act unit :=
  let '(fragment_index, chunk) := fragment in
  a ← self;
  let reliable_index := next_reliable a in
  update (set_next_reliable (next (next_reliable a))) ;;
  split ← (if 1 <? fragment_count then
             if fragment_index <=? u32_max
             then mret (Some (mkSplit fragment_count split_id fragment_index))
             else panic
           else mret None);
  send_frame (mkFrame ReliableOrdered (Some reliable_index) None (Some order_index) 0 split chunk).

Definition send_reliable_ordered (payload : list byte) : Act unit :=
  a ← self;
  let fragment_capacity := saturating_sub (mtu a) DATAGRAM_HEADER_BUDGET in
  if fragment_capacity =? 0 then throw (Wire "negotiated mtu is too small")
  else
    let order_index := next_ordered a in
    update (set_next_ordered (next (next_ordered a))) ;;
    let fragment_count := Z.max (div_ceil (len payload) fragment_capacity) 1 in
    (if fragment_count <=? u32_max then mret tt
     else throw (Wire "fragment count exceeded u32")) ;;
    let split_id := next_split_id a in
    update (set_next_split_id (wrapping_add 16 (next_split_id a) 1)) ;;
    for_each (send_fragment order_index split_id fragment_count)
      (enumerate (chunks (Z.to_nat fragment_capacity) payload)) ;;
    match payload with
    | [] =>
        a ← self;
        update (set_next_reliable (next (next_reliable a))) ;;
        send_frame (mkFrame ReliableOrdered (Some (next_reliable a)) None (Some order_index) 0
                      None payload)
    | _ => mret tt
    end.

Definition send_application (payload : list byte) : Act unit :=
  a ← self;
  if accepted a then
    lift (ensure_budget "application payload bytes" (len payload)
      (max_payload_bytes (budgets a))) ;;
    send_reliable_ordered payload
  else throw (Wire "application payload sent before online handshake completed").

Definition push_inbox (payload : list byte) : Act unit := fun w =>
  let '(i, r) := inbox_push payload (inbox (actor w)) in
  (mkWorld (set_inbox i (actor w)) (io w), r).

Definition deliver_payload (payload : list byte) : Act unit :=
  request ← lift (decode_connection_request payload);
  match request with
  | Some request_time =>
      a ← self;
      t ← ask (system_time env);
      send_reliable_ordered
        (encode_connection_accept (remote_addr a) request_time (epoch_millis t))
  | None =>
      ping ← lift (decode_connected_ping payload);
      match ping with
      | Some ping_time =>
          t ← ask (system_time env);
          send_reliable_ordered (encode_connected_pong ping_time (epoch_millis t))
      | None =>
          a ← self;
          let id := byte_Z <$> head payload in
          if bool_decide (id = Some 0x13) && negb (accepted a) then
            update (set_accepted true) ;; announce_peer
          else if bool_decide (id = Some 0x13) || bool_decide (id = Some 0x03) then mret tt
          else if bool_decide (id = Some 0x15) || bool_decide (id = Some 0x1c) then throw Closed
          else if accepted a then push_inbox payload
          else mret tt
      end
  end.

(** The [loop] of [accept_ordered]; each turn removes a held payload, so
    [S (size holdback)] turns suffice. *)
Fixpoint drain_holdback (fuel : nat) (channel : Z) : Act unit :=
  match fuel with
  | O => out_of_fuel
  | S fuel =>
      a ← self;
      match ordered_expected a !! channel with
      | None => panic
      | Some expected =>
          match ordered_holdback a !! (channel, expected) with
          | None => mret tt
          | Some payload =>
              update (fun a => set_ordered_holdback
                (delete (channel, expected) (ordered_holdback a)) a) ;;
              update (fun a => set_ordered_expected
                (<[channel := next expected]> (ordered_expected a)) a) ;;
              deliver_payload payload ;;
              drain_holdback fuel channel
          end
      end
  end.

Definition accept_ordered (channel : Z) (sequence : OrderSequence) (payload : list byte) :
    Act unit :=
  a ← self;
  let expected := default default_sequence (ordered_expected a !! channel) in
  update (set_ordered_expected (<[channel := expected]> (ordered_expected a))) ;;
  if seq_eqb sequence expected then
    update (fun a => set_ordered_expected (<[channel := next expected]> (ordered_expected a)) a) ;;
    deliver_payload payload ;;
    a ← self;
    drain_holdback (S (size (ordered_holdback a))) channel
  else if is_newer_than sequence expected then
    a ← self;
    lift (ensure_budget "ordered holdback entries"
      (saturating_add usize_max (Z.of_nat (size (ordered_holdback a))) 1)
      (max_ordered_holdback (budgets a))) ;;
    match ordered_holdback a !! (channel, sequence) with
    | Some _ => mret tt
    | None => update (fun a => set_ordered_holdback
                (<[(channel, sequence) := payload]> (ordered_holdback a)) a)
    end
  else mret tt.

Definition parts_bytes (ps : list (option (list byte))) : Z :=
  sum_Z (map (fun part => match part with Some p => len p | None => 0 end) ps).

(** [joined.extend(part.expect(..))] over the parts. *)
Fixpoint join_parts (ps : list (option (list byte))) : option (list byte) :=
  match ps with
  | [] => Some []
  | Some p :: ps => app p <$> join_parts ps
  | None :: _ => None
  end.

Definition accept_fragment (split : SplitHeader) (payload : list byte) :
    Act (option (list byte)) :=
  let count := split_count split in
  let index := split_index split in
  if (count =? 0) || (count <=? index) then throw (Wire "invalid fragment range")
  else
    a ← self;
    let known := reassembly a !! split_id split in
    lift (ensure_budget "reassembly parts per peer"
      (saturating_add usize_max (reassembly_parts a)
         (match known with Some _ => 0 | None => count end))
      (max_reassembly_parts_per_peer (budgets a))) ;;
    match known with
    | Some _ => mret tt
    | None =>
        update (fun a => set_reassembly_parts
          (saturating_add usize_max (reassembly_parts a) count) a) ;;
        update (fun a => set_reassembly
          (<[split_id split := mkReassembly (replicate (Z.to_nat count) None)]> (reassembly a)) a)
    end ;;
    let entry := default (mkReassembly (replicate (Z.to_nat count) None)) known in
    if negb (len (parts entry) =? count)
    then throw (Wire "fragment count changed within split sequence")
    else
      match parts entry !! Z.to_nat index with
      | None => panic
      | Some (Some _) => mret tt
      | Some None =>
          a ← self;
          lift (ensure_budget "reassembly bytes per peer"
            (saturating_add usize_max (reassembly_bytes a) (len payload))
            (max_reassembly_bytes_per_peer (budgets a))) ;;
          update (fun a => set_reassembly_bytes
            (saturating_add usize_max (reassembly_bytes a) (len payload)) a) ;;
          update (fun a => set_reassembly
            (<[split_id split :=
               mkReassembly (<[Z.to_nat index := Some payload]> (parts entry))]> (reassembly a)) a)
      end ;;
      a ← self;
      match reassembly a !! split_id split with
      | None => panic
      | Some completed =>
          if existsb (fun part => match part with None => true | Some _ => false end)
               (parts completed)
          then mret None
          else
            update (fun a => set_reassembly (delete (split_id split) (reassembly a)) a) ;;
            update (fun a => set_reassembly_parts
              (saturating_sub (reassembly_parts a) (len (parts completed))) a) ;;
            update (fun a => set_reassembly_bytes
              (saturating_sub (reassembly_bytes a) (parts_bytes (parts completed))) a) ;;
            match join_parts (parts completed) with
            | Some joined => mret (Some joined)
            | None => panic
            end
      end.

Definition receive_frame (frame : Frame) : Act unit :=
  a ← self;
  fresh ← match reliable_index frame with
  | Some reliable_index =>
      if decide (reliable_index ∈ seen_reliable a) then mret false
      else
        let '(order, seen) := trim_window (duplicate_window_limit (budgets a))
          (seen_reliable_order a ++ [reliable_index]) ({[reliable_index]} ∪ seen_reliable a) in
        update (fun a => set_seen_reliable seen (set_seen_reliable_order order a)) ;; mret true
  | None => mret true
  end;
  if negb fresh then mret tt
  else
    whole ← match split frame with
    | Some split => accept_fragment split (payload frame)
    | None => mret (Some (payload frame))
    end;
    match whole with
    | None => mret tt
    | Some payload =>
        if sequenced (reliability frame) then
          match sequence_index frame with
          | None => throw (Wire "sequenced frame lacked sequence index")
          | Some sequence =>
              a ← self;
              match sequenced_latest a !! order_channel frame with
              | Some latest =>
                  if negb (is_newer_than sequence latest) then mret tt
                  else
                    update (fun a => set_sequenced_latest
                      (<[order_channel frame := sequence]> (sequenced_latest a)) a) ;;
                    deliver_payload payload
              | None =>
                  update (fun a => set_sequenced_latest
                    (<[order_channel frame := sequence]> (sequenced_latest a)) a) ;;
                  deliver_payload payload
              end
          end
        else if ordered (reliability frame) then
          match order_index frame with
          | None => throw (Wire "ordered frame lacked order index")
          | Some sequence => accept_ordered (order_channel frame) sequence payload
          end
        else deliver_payload payload
    end.

Definition retransmit (sequence : DatagramSequence) : Act unit :=
  a ← self;
  match unacked a !! sequence with
  | None => mret tt
  | Some datagram =>
      if MAX_RETRANSMIT_ATTEMPTS <=? attempts datagram
      then throw (RetransmitExhausted (value sequence) (attempts datagram))
      else
        send_to (ud_bytes datagram) ;;
        t ← now;
        update (fun a => set_unacked
          (<[sequence := mkUnacked (ud_bytes datagram) t
               (saturating_add u16_max (attempts datagram) 1)]> (unacked a)) a)
  end.

Definition unacked_keys (a : PeerActor) : list DatagramSequence :=
  hash_order env (map fst (map_to_list (unacked a))).

Definition apply_acknowledgement (acknowledgement : Acknowledgement) : Act unit :=
  match acknowledgement with
  | Ack ranges =>
      update (fun a => set_unacked
        (filter (fun kv => existsb (in_range (fst kv)) ranges = false) (unacked a)) a)
  | Nack ranges =>
      a ← self;
      for_each retransmit
        (List.filter (fun sequence => existsb (in_range sequence) ranges) (unacked_keys a))
  end.

Definition receive_datagram (bytes : list byte) : Act unit :=
  t ← now;
  update (fun a => set_activity (activity_observe t (activity a)) a) ;;
  acknowledgement ← lift (decode_acknowledgement bytes);
  match acknowledgement with
  | Some acknowledgement => apply_acknowledgement acknowledgement
  | None =>
      a ← self;
      datagram ← lift (decode_datagram bytes (budgets a));
      let sequence := dg_sequence datagram in
      send_to (encode_ack sequence) ;;
      if decide (sequence ∈ seen_datagrams a) then mret tt
      else
        let '(order, seen) := trim_window (duplicate_window_limit (budgets a))
          (seen_datagram_order a ++ [sequence]) ({[sequence]} ∪ seen_datagrams a) in
        update (fun a => set_seen_datagrams seen (set_seen_datagram_order order a)) ;;
        match last_datagram a with
        | Some prev =>
            (if is_newer_than sequence prev && (1 <? wrapping_distance_from sequence prev)
             then send_to (encode_nack (next prev) (previous sequence))
             else mret tt) ;;
            (if is_newer_than sequence prev
             then update (set_last_datagram (Some sequence))
             else mret tt)
        | None => update (set_last_datagram (Some sequence))
        end ;;
        for_each receive_frame (frames datagram)
  end.

Definition on_timer : Act unit :=
  now ← now;
  a ← self;
  if PEER_TIMEOUT <=? duration_since now (activity a) then throw PeerTimeout
  else
    let due := List.filter (fun sequence =>
      match unacked a !! sequence with
      | Some datagram =>
          retransmit_delay (attempts datagram) <=? duration_since now (sent_at datagram)
      | None => false
      end) (unacked_keys a) in
    for_each retransmit due.

(** [fallback] is the [Instant::now()] of [unwrap_or_else]. *)
Definition next_timer_deadline (fallback : Z) (a : PeerActor) : Z :=
  let timeout := default fallback (instant_checked_add env (activity a) PEER_TIMEOUT) in
  let deadlines := omap (fun kv =>
    instant_checked_add env (sent_at (snd kv)) (retransmit_delay (attempts (snd kv))))
    (map_to_list (unacked a)) in
  foldr Z.min timeout deadlines.

Definition resume_timers (frozen_at resumed_at : Z) (a : PeerActor) : PeerActor :=
  set_unacked ((fun datagram =>
      let elapsed := duration_since frozen_at (sent_at datagram) in
      mkUnacked (ud_bytes datagram)
        (default resumed_at (instant_checked_sub env resumed_at elapsed))
        (attempts datagram)) <$> unacked a)
    (set_activity (activity_resume env frozen_at resumed_at (activity a)) a).
End Handlers.
