(* ===== verification/RaknetPeerInv.v ===== *)
(** * Invariants of the RakNet peer

    A weakest-precondition calculus for the handlers of [RaknetPeer], the
    well-formedness invariant of the actor's state, and its preservation by every
    handler, on success and on error. *)

From S2P Require Import Prelude Bytes RaknetSequence RaknetBudget RaknetWire RaknetPeer.

(** ** Weakest preconditions *)

(** From actor state [a], whatever the outside has seen so far, [m] neither panics
    nor runs out of fuel, and ends in [Q] on success and in [R] on error. *)
Definition wp {A} (m : Act A) (Q : A -> PeerActor -> Prop) (R : PeerActor -> Prop)
    (a : PeerActor) : Prop :=
  forall i, match m (mkWorld a i) with
            | (w, Ok x) => Q x (actor w)
            | (w, Err _) => R (actor w)
            | _ => False
            end.

(** ** The invariant *)

Definition budgets_ok (b : RakNetBudgets) : Prop :=
  0 <= application_queue b < usize_max /\
  0 <= max_payload_bytes b < usize_max /\
  0 <= max_datagram_bytes b < usize_max /\
  0 <= max_reassembly_bytes_per_peer b < usize_max /\
  0 <= max_reassembly_parts_per_peer b < usize_max /\
  0 <= max_ordered_holdback b < usize_max /\
  0 <= max_unacked_datagrams b < usize_max.

(** A duplicate window: the set and the queue hold the same counters, each once. *)
Definition window_ok {d} (limit : Z) (order : list (Sequence d)) (seen : gset (Sequence d)) :
    Prop :=
  seen = list_to_set order /\ NoDup order /\ len order <= limit.

Definition entry_parts (r : Reassembly) : Z := len (parts r).
Definition entry_bytes (r : Reassembly) : Z := parts_bytes (parts r).

(** The two counters are the sizes of what is held, within budget; an assembly has
    at least one part, and its parts are within the payload budget. *)
Definition reassembly_ok (a : PeerActor) : Prop :=
  reassembly_parts a = map_sum entry_parts (reassembly a) /\
  reassembly_bytes a = map_sum entry_bytes (reassembly a) /\
  reassembly_parts a <= max_reassembly_parts_per_peer (budgets a) /\
  reassembly_bytes a <= max_reassembly_bytes_per_peer (budgets a) /\
  map_Forall (fun _ r => parts r <> [] /\
      Forall (fun p => forall bs, p = Some bs -> len bs <= max_payload_bytes (budgets a)) (parts r))
    (reassembly a).

Definition unacked_ok (a : PeerActor) : Prop :=
  Z.of_nat (size (unacked a)) <= max_unacked_datagrams (budgets a) /\
  map_Forall (fun _ d => len (ud_bytes d) <= max_datagram_bytes (budgets a) /\
    1 <= attempts d <= MAX_RETRANSMIT_ATTEMPTS) (unacked a).

Definition inbox_ok (a : PeerActor) : Prop :=
  capacity (inbox a) = application_queue (budgets a) /\ len (queue (inbox a)) <= capacity (inbox a).

Definition holdback_ok (a : PeerActor) : Prop :=
  Z.of_nat (size (ordered_holdback a)) <= max_ordered_holdback (budgets a).

Record actor_ok (a : PeerActor) : Prop := mkOk {
  ok_budgets : budgets_ok (budgets a);
  ok_datagrams : window_ok (duplicate_window_limit (budgets a)) (seen_datagram_order a) (seen_datagrams a);
  ok_reliable : window_ok (duplicate_window_limit (budgets a)) (seen_reliable_order a) (seen_reliable a);
  ok_reassembly : reassembly_ok a;
  ok_holdback : holdback_ok a;
  ok_unacked : unacked_ok a;
  ok_inbox : inbox_ok a
}.

(** ** Rules of the calculus *)

Section Rules.
Context (env : Env).
Implicit Types (R : PeerActor -> Prop).

Lemma wp_ret {A} (x : A) Q R a : Q x a -> wp (mret x) Q R a.
Proof. intros H i. exact H. Qed.
Lemma wp_throw {A} e (Q : A -> PeerActor -> Prop) R a : R a -> wp (throw e) Q R a.
Proof. intros H i. exact H. Qed.
Lemma wp_bind {A B} (m : Act A) (f : A -> Act B) Q R a :
  wp m (fun x => wp (f x) Q R) R a -> wp (m ≫= f) Q R a.
Proof.
  intros H i. specialize (H i). unfold mbind, M_bind.
  destruct (m (mkWorld a i)) as [[a' i'] [x|e| |]]; [apply H|done..].
Qed.
Lemma wp_self Q R a : Q a a -> wp self Q R a.
Proof. intros H i. exact H. Qed.
Lemma wp_update f Q R a : Q tt (f a) -> wp (update f) Q R a.
Proof. intros H i. exact H. Qed.
Lemma wp_ask {A} (f : nat -> A) Q R a : (forall x, Q x a) -> wp (ask f) Q R a.
Proof. intros H i. apply H. Qed.
Lemma wp_now Q R a : (forall x, Q x a) -> wp (now env) Q R a.
Proof. apply wp_ask. Qed.
Lemma wp_modify_io (g : World -> World) (Q : unit -> PeerActor -> Prop) R a :
  (forall w, actor (g w) = actor w) -> Q tt a -> wp (modify g) Q R a.
Proof. intros Hg H i. cbn. by rewrite Hg. Qed.
Lemma wp_send_to bytes (Q : unit -> PeerActor -> Prop) R a :
  Q tt a -> R a -> wp (send_to env bytes) Q R a.
Proof.
  intros H1 H2. apply wp_bind, wp_ask. intros []; [by apply wp_modify_io|by apply wp_throw].
Qed.
Lemma wp_announce_peer (Q : unit -> PeerActor -> Prop) R a :
  Q tt a -> R a -> wp (announce_peer env) Q R a.
Proof.
  intros H1 H2. apply wp_bind, wp_ask. intros []; [by apply wp_modify_io|by apply wp_throw].
Qed.
Lemma wp_ensure_budget res req lim (Q : unit -> PeerActor -> Prop) R a :
  (req <= lim -> Q tt a) -> R a -> wp (lift (ensure_budget res req lim)) Q R a.
Proof.
  intros H1 H2 i. unfold lift.
  destruct (ensure_budget_inv res req lim _ eq_refl) as [[-> ?]|[-> ?]]; auto.
Qed.
Lemma wp_lift {A} (r : result RakNetError A) Q R a :
  match r with Ok x => Q x a | Err _ => R a | _ => False end -> wp (lift r) Q R a.
Proof. intros H i. unfold lift. by destruct r. Qed.
Lemma wp_mono {A} (m : Act A) (Q Q' : A -> PeerActor -> Prop) (R R' : PeerActor -> Prop) a :
  wp m Q R a -> (forall x a', Q x a' -> Q' x a') -> (forall a', R a' -> R' a') -> wp m Q' R' a.
Proof.
  intros H HQ HR i. specialize (H i). destruct (m (mkWorld a i)) as [w [x|e| |]]; auto.
Qed.
(** A loop keeps what each of its turns keeps. *)
Lemma wp_for_each {X} (I : PeerActor -> Prop) (f : X -> Act unit) l R a :
  (forall x a, x ∈ l -> I a -> wp (f x) (fun _ => I) R a) ->
  I a -> wp (for_each f l) (fun _ => I) R a.
Proof.
  revert a. induction l as [|x l IH]; intros a Hf Ha; simpl.
  - by apply wp_ret.
  - apply wp_bind. eapply wp_mono; [apply Hf; [set_solver|done]| |done].
    intros [] a' Ha'. apply IH; [|done]. intros y a'' Hy. apply Hf. set_solver.
Qed.
End Rules.

(** One symbolic step of a handler. *)
Ltac wp_step :=
  lazymatch goal with
  | |- wp (_ ≫= _) _ _ _ => apply wp_bind
  | |- wp (mret _) _ _ _ => apply wp_ret
  | |- wp (throw _) _ _ _ => apply wp_throw
  | |- wp self _ _ _ => apply wp_self
  | |- wp (update _) _ _ _ => apply wp_update
  | |- wp (now _) _ _ _ => apply wp_now; intros ?
  | |- wp (ask _) _ _ _ => apply wp_ask; intros ?
  | |- wp (send_to _ _) _ _ _ => apply wp_send_to
  | |- wp (announce_peer _) _ _ _ => apply wp_announce_peer
  | |- wp (lift (ensure_budget _ _ _)) _ _ _ => apply wp_ensure_budget; [intros ?|]
  | |- wp (if ?b then _ else _) _ _ _ => destruct b eqn:?
  | |- wp (match ?x with _ => _ end) _ _ _ => destruct x eqn:?
  | |- wp (let '(_, _) := ?x in _) _ _ _ => destruct x eqn:?
  end; cbn beta iota.
Ltac wp_steps := repeat wp_step.

(** ** Sending *)

(** What the handlers that only send and deliver leave alone: the receive side. *)
Definition recv_view (a : PeerActor) :=
  (budgets a, mtu a, remote_addr a, activity a,
   (seen_datagrams a, seen_datagram_order a, seen_reliable a, seen_reliable_order a,
    last_datagram a),
   (ordered_expected a, sequenced_latest a, ordered_holdback a),
   (reassembly a, reassembly_bytes a, reassembly_parts a)).

(** Good, with the same receive side as [a0]. *)
Definition ok_from (a0 a : PeerActor) : Prop := actor_ok a /\ recv_view a = recv_view a0.

Lemma ok_from_refl a : actor_ok a -> ok_from a a.
Proof. done. Qed.

(** Steps that touch no constrained field. *)
Ltac ok_same := match goal with
  | H : ok_from _ ?a |- ok_from _ _ => destruct H as [[? ? ? ? ? ? ?] ?]; split; [by constructor|done]
  | H : actor_ok ?a |- actor_ok _ => destruct H as [? ? ? ? ? ? ?]; by constructor
  end.

Lemma unacked_ok_insert a sq d :
  unacked_ok a -> len (ud_bytes d) <= max_datagram_bytes (budgets a) ->
  1 <= attempts d <= MAX_RETRANSMIT_ATTEMPTS ->
  (is_Some (unacked a !! sq) \/ Z.of_nat (size (unacked a)) + 1 <= max_unacked_datagrams (budgets a)) ->
  unacked_ok (set_unacked (<[sq := d]> (unacked a)) a).
Proof.
  intros [Hs Hm] Hd Hat Hroom. split; cbn.
  - rewrite map_size_insert. destruct (unacked a !! sq) as [?|] eqn:E; [cbn; lia|].
    destruct Hroom as [[? ?]|?]; [done|lia].
  - by apply map_Forall_insert_2.
Qed.

Lemma saturating_add_le max a b c : saturating_add max a b <= c -> c < max -> a + b <= c.
Proof. unfold saturating_add. lia. Qed.

Lemma wp_send_frame env a0 f a :
  ok_from a0 a -> wp (send_frame env f) (fun _ => ok_from a0) (ok_from a0) a.
Proof.
  intros Ha. unfold send_frame. wp_steps; try done; try ok_same.
  destruct Ha as [[Hb ? ? ? ? Hu ?] Hv]. split; [|done].
  constructor; try done. apply unacked_ok_insert; try done.
  right. eapply saturating_add_le; [done|]. apply Hb.
Qed.

Lemma wp_send_fragment env a0 oi sid n fr a :
  (fst fr <= u32_max \/ n <= 1) -> ok_from a0 a ->
  wp (send_fragment env oi sid n fr) (fun _ => ok_from a0) (ok_from a0) a.
Proof.
  intros Hfr Ha. destruct fr as [ix chunk]. cbn [fst] in Hfr. unfold send_fragment.
  wp_steps; try (apply wp_send_frame; ok_same).
  exfalso. destruct (Z.leb_spec ix u32_max); [done|]. destruct (Z.ltb_spec 1 n); [lia|done].
Qed.

Lemma elem_of_enumerate {A} (l : list A) i x :
  (i, x) ∈ enumerate l -> 0 <= i < len l /\ l !! Z.to_nat i = Some x.
Proof.
  intros H. apply list_elem_of_lookup in H as [k Hk]. rewrite enumerate_lookup in Hk.
  destruct (l !! k) as [y|] eqn:Ek; [|done]. injection Hk as <- <-.
  apply lookup_lt_Some in Ek as Hlt. rewrite Nat2Z.id. split; [lia|done].
Qed.

Lemma wp_send_reliable_ordered env a0 payload a :
  ok_from a0 a ->
  wp (send_reliable_ordered env payload) (fun _ => ok_from a0) (ok_from a0) a.
Proof.
  intros Ha. unfold send_reliable_ordered.
  wp_step. wp_step. wp_step; [by wp_step|].
  wp_step. wp_step. wp_step. wp_step; [|wp_step; ok_same].
  wp_step. wp_step. wp_step.
  set (cap := saturating_sub (mtu a) DATAGRAM_HEADER_BUDGET) in *.
  assert (0 < cap) as Hcap.
  { apply Z.eqb_neq in Heqb. unfold cap, saturating_sub in *. lia. }
  wp_step. eapply wp_mono; [apply (wp_for_each (ok_from a0))| |done].
  - intros [ix chunk] a' Hin Ha'. apply wp_send_fragment; [left; cbn [fst]|done].
    apply elem_of_enumerate in Hin as [Hix _].
    rewrite length_chunks, Z2Nat.id in Hix by lia. apply Z.leb_le in Heqb0. lia.
  - ok_same.
  - intros [] a' Ha'. destruct payload; wp_steps; [|done]. apply wp_send_frame. ok_same.
Qed.

Lemma wp_push_inbox a0 payload a :
  ok_from a0 a -> wp (push_inbox payload) (fun _ => ok_from a0) (ok_from a0) a.
Proof.
  intros Ha i. unfold push_inbox, inbox_push. cbn [actor].
  destruct (ensure_budget_inv "application queue entries"
    (saturating_add usize_max (len (queue (inbox a))) 1) (capacity (inbox a)) _ eq_refl)
    as [[-> Hle]|[-> _]]; cbn [actor].
  - destruct Ha as [[Hb ? ? ? ? ? [Hc Hq]] ?]. split; [|done]. constructor; try done.
    split; [done|]. cbn. rewrite length_app, Nat2Z.inj_add. simpl. rewrite Hc in *.
    eapply saturating_add_le in Hle; [lia|]. apply Hb.
  - ok_same.
Qed.

(** A decoder of an application payload cannot panic. *)
Lemma decode_payload_total payload :
  (match decode_connection_request payload with Ok _ | Err _ => True | _ => False end) /\
  (match decode_connected_ping payload with Ok _ | Err _ => True | _ => False end).
Proof.
  unfold decode_connection_request, decode_connected_ping.
  destruct payload as [|b rest]; [done|]. split; case_test; try done.
  all: match goal with |- context [snd (?m (reader_new ?bytes))] =>
    assert (hoare (reader_at (len bytes) 0) m (fun _ _ => True) read_error) as Hm;
    [|specialize (Hm (reader_new bytes)); destruct (m (reader_new bytes)) as [r' [?|?| |]];
      try done; apply Hm; unfold reader_at, reader_new; cbn [rbytes cursor]; lia] end.
  all: eapply hoare_bind; [apply hoare_read_u8|]; intros ?; apply hoare_pure; intros ?;
    (eapply hoare_bind; [apply hoare_read_i64|]); intros ?.
  - eapply hoare_bind; [apply hoare_read_i64|]. intros ?.
    eapply hoare_bind; [apply hoare_read_u8|]. intros ?. by apply hoare_ret.
  - by apply hoare_ret.
Qed.

Lemma wp_deliver_payload env a0 payload a :
  ok_from a0 a -> wp (deliver_payload env payload) (fun _ => ok_from a0) (ok_from a0) a.
Proof.
  intros Ha. unfold deliver_payload.
  destruct (decode_payload_total payload) as [H1 H2].
  wp_step. apply wp_lift. destruct (decode_connection_request payload) as [[rt|]|e| |]; try done.
  - wp_steps. by apply wp_send_reliable_ordered.
  - wp_step. apply wp_lift. destruct (decode_connected_ping payload) as [[pt|]|e| |]; try done.
    + wp_steps. by apply wp_send_reliable_ordered.
    + wp_steps; try done; try ok_same. by apply wp_push_inbox.
Qed.

(** ** Receiving *)

(** Good, under the budgets [b]. *)
Definition ok_with (b : RakNetBudgets) (a : PeerActor) : Prop := actor_ok a /\ budgets a = b.

Lemma ok_from_with b a0 a : ok_with b a0 -> ok_from a0 a -> ok_with b a.
Proof. intros [_ Hb] [Ha Hv]. split; [done|]. unfold recv_view in Hv. congruence. Qed.

Lemma wp_deliver_with env b payload a (Q : unit -> PeerActor -> Prop) :
  ok_with b a -> (forall a', ok_with b a' -> recv_view a' = recv_view a -> Q tt a') ->
  wp (deliver_payload env payload) Q (ok_with b) a.
Proof.
  intros Ha HQ. eapply wp_mono; [apply wp_deliver_payload, ok_from_refl, Ha| |].
  - intros [] a' Ha'. apply HQ; [by eapply ok_from_with|apply Ha'].
  - intros a' Ha'. by eapply ok_from_with.
Qed.

Ltac okw_same := match goal with
  | H : ok_with _ ?a |- ok_with _ _ => destruct H as [[? ? ? ? ? ? ?] ?]; split; [by constructor|done]
  end.

(** Holding back changes nothing else; removing keeps the bound. *)
Lemma ok_with_holdback b a m :
  ok_with b a -> Z.of_nat (size m) <= max_ordered_holdback b -> ok_with b (set_ordered_holdback m a).
Proof.
  intros [[? ? ? ? ? ? ?] <-] Hm. split; [|done]. by constructor.
Qed.

Lemma wp_drain env b channel fuel : forall a,
  ok_with b a -> (size (ordered_holdback a) < fuel)%nat ->
  is_Some (ordered_expected a !! channel) ->
  wp (drain_holdback env fuel channel) (fun _ => ok_with b) (ok_with b) a.
Proof.
  induction fuel as [|fuel IH]; intros a Ha Hfuel [e He]; [lia|]. cbn [drain_holdback].
  wp_step. wp_step. rewrite He. wp_step; [|by wp_step].
  rename Heqo into Hheld. wp_step. wp_step. wp_step. wp_step. wp_step.
  pose proof (map_size_delete_Some (channel, e) (ordered_holdback a) (mk_is_Some _ _ Hheld)) as Hsz.
  match goal with |- wp _ _ _ ?x => set (a1 := x) end.
  assert (ok_with b a1) as Ha1.
  { assert (ok_with b (set_ordered_holdback (delete (channel, e) (ordered_holdback a)) a)) as Hd.
    { apply ok_with_holdback; [done|]. destruct Ha as [[? ? ? ? Hh ? ?] <-].
      unfold holdback_ok in Hh. lia. }
    unfold a1. okw_same. }
  apply wp_deliver_with; [done|]. intros a' Ha' Hv.
  unfold recv_view in Hv. apply IH; [done| |].
  - assert (ordered_holdback a' = ordered_holdback a1) as -> by congruence. cbn.
    destruct (size (ordered_holdback a)) eqn:E; [|lia].
    exfalso. apply map_size_empty_inv in E. rewrite E in Hheld. by rewrite lookup_empty in Hheld.
  - assert (ordered_expected a' = ordered_expected a1) as -> by congruence. cbn.
    rewrite lookup_insert_eq. done.
Qed.

Lemma wp_accept_ordered env b channel sq payload a :
  ok_with b a ->
  wp (accept_ordered env channel sq payload) (fun _ => ok_with b) (ok_with b) a.
Proof.
  intros Ha. unfold accept_ordered.
  wp_step. wp_step. wp_step. wp_step. wp_step.
  - wp_step. wp_step. wp_step. apply wp_deliver_with; [okw_same|].
    intros a' Ha' Hv. wp_step. wp_step. apply wp_drain; [done|lia|].
    unfold recv_view in Hv. cbn in Hv.
    assert (ordered_expected a' !! channel = Some (next (default default_sequence
      (ordered_expected a !! channel)))) as ->; [|done].
    injection Hv. intros. repeat match goal with H : ordered_expected a' = _ |- _ => rewrite H end.
    by rewrite lookup_insert_eq.
  - wp_step; [|wp_step; okw_same].
    wp_step. wp_step. wp_step. wp_step; [|okw_same].
    wp_step; [wp_step; okw_same|]. wp_step.
    cbn in H |- *. apply (ok_with_holdback b (set_ordered_expected _ a)); [okw_same|].
    rewrite map_size_insert_None by done.
    destruct Ha as [[Hb ? ? ? ? ? ?] <-]. eapply saturating_add_le in H; [lia|apply Hb].
Qed.

(** ** Reassembly *)

Lemma parts_bytes_insert ps i p :
  ps !! i = Some None -> parts_bytes (<[i := Some p]> ps) = parts_bytes ps + len p.
Proof.
  revert i. induction ps as [|q ps IH]; intros [|i] Hi; simplify_eq/=;
    unfold parts_bytes, sum_Z in *; simpl in *; [lia|]. rewrite (IH _ Hi). lia.
Qed.

Lemma parts_bytes_replicate n : parts_bytes (replicate n None) = 0.
Proof. induction n; unfold parts_bytes, sum_Z in *; simpl in *; lia. Qed.

Lemma parts_bytes_nonneg ps : 0 <= parts_bytes ps.
Proof.
  induction ps as [|[p|] ps IH]; unfold parts_bytes, sum_Z in *; simpl in *; lia.
Qed.

Definition part_missing (part : option (list byte)) : bool :=
  match part with None => true | Some _ => false end.

Lemma existsb_missing ps : existsb part_missing ps = true <-> None ∈ ps.
Proof.
  rewrite existsb_exists. split.
  - intros ([p|] & Hin & Hp); [done|]. by apply list_elem_of_In.
  - intros Hin. exists None. split; [by apply list_elem_of_In|done].
Qed.

Lemma join_parts_complete ps :
  existsb part_missing ps = false -> join_parts ps = Some (mjoin (omap id ps)).
Proof.
  induction ps as [|[p|] ps IH]; intros H; simpl in *; [done| |done].
  rewrite IH by done. done.
Qed.

#[local] Arguments parts_bytes : simpl never.

(** A part as the budgets allow it. *)
Definition part_ok (b : RakNetBudgets) (p : option (list byte)) : Prop :=
  forall bs, p = Some bs -> len bs <= max_payload_bytes b.

Lemma reassembly_ok_new a id count :
  reassembly_ok a -> reassembly a !! id = None -> 0 < count ->
  reassembly_parts a + count <= max_reassembly_parts_per_peer (budgets a) ->
  max_reassembly_parts_per_peer (budgets a) < usize_max ->
  reassembly_ok (set_reassembly
    (<[id := mkReassembly (replicate (Z.to_nat count) None)]> (reassembly a))
    (set_reassembly_parts (saturating_add usize_max (reassembly_parts a) count) a)).
Proof.
  intros (Hp & Hb & Hpl & Hbl & Hm) Hid Hc Hroom Hmax. unfold reassembly_ok, saturating_add. cbn.
  rewrite Z.min_r by lia. rewrite !map_sum_insert_None by done.
  unfold entry_parts, entry_bytes. cbn [parts]. rewrite length_replicate, parts_bytes_replicate.
  split_and!; try done; fold entry_parts entry_bytes; try lia.
  apply map_Forall_insert_2; [|done]. cbn. split.
  - intros E. apply (f_equal length) in E. rewrite length_replicate in E. cbn in E. lia.
  - apply Forall_replicate. intros ? [=].
Qed.

(** Storing a part that was missing. *)
Lemma reassembly_ok_store a id r i p :
  reassembly_ok a -> reassembly a !! id = Some r -> parts r !! i = Some None ->
  part_ok (budgets a) (Some p) ->
  reassembly_bytes a + len p <= max_reassembly_bytes_per_peer (budgets a) ->
  max_reassembly_bytes_per_peer (budgets a) < usize_max ->
  reassembly_ok (set_reassembly (<[id := mkReassembly (<[i := Some p]> (parts r))]> (reassembly a))
    (set_reassembly_bytes (saturating_add usize_max (reassembly_bytes a) (len p)) a)).
Proof.
  intros (Hp & Hb & Hpl & Hbl & Hm) Hid Hi Hpart Hroom Hmax.
  destruct (Hm id r Hid) as [Hne Hall]. unfold reassembly_ok, saturating_add.
  cbn [reassembly reassembly_bytes reassembly_parts budgets set_reassembly set_reassembly_bytes].
  rewrite !(map_sum_insert_Some _ _ _ _ r) by done. rewrite Z.min_r by lia.
  unfold entry_parts at 2 3, entry_bytes at 2 3. cbn [parts].
  rewrite length_insert, parts_bytes_insert by done.
  split_and!; try lia. apply map_Forall_insert_2; [|done]. cbn [parts]. split.
  - intros E. apply (f_equal length) in E. rewrite length_insert in E.
    by apply length_zero_iff_nil in E.
  - by apply Forall_insert.
Qed.

(** Taking a complete assembly out. *)
Lemma reassembly_ok_remove a id r :
  reassembly_ok a -> reassembly a !! id = Some r ->
  reassembly_ok (set_reassembly_bytes
    (saturating_sub (reassembly_bytes a) (parts_bytes (parts r)))
    (set_reassembly_parts (saturating_sub (reassembly_parts a) (len (parts r)))
    (set_reassembly (delete id (reassembly a)) a))).
Proof.
  intros (Hp & Hb & Hpl & Hbl & Hm) Hid.
  assert (0 <= map_sum entry_parts (reassembly a) - entry_parts r) as Hp0.
  { rewrite <- (map_sum_delete entry_parts _ id) by done.
    apply map_sum_nonneg. intros ?. unfold entry_parts. lia. }
  assert (0 <= map_sum entry_bytes (reassembly a) - entry_bytes r) as Hb0.
  { rewrite <- (map_sum_delete entry_bytes _ id) by done.
    apply map_sum_nonneg. intros ?. apply parts_bytes_nonneg. }
  pose proof (parts_bytes_nonneg (parts r)) as Hnn.
  assert (0 <= entry_parts r) as Hnp by (unfold entry_parts; lia).
  fold (entry_parts r) (entry_bytes r) in *. unfold reassembly_ok, saturating_sub.
  cbn [reassembly reassembly_bytes reassembly_parts budgets
       set_reassembly set_reassembly_bytes set_reassembly_parts].
  rewrite !(map_sum_delete _ _ _ r) by done.
  split_and!; try lia. by apply map_Forall_delete.
Qed.

Lemma ok_with_reassembly b a a' :
  ok_with b a -> reassembly_ok a' ->
  (budgets a', seen_datagrams a', seen_datagram_order a', seen_reliable a', seen_reliable_order a',
   ordered_holdback a', unacked a', inbox a') =
  (budgets a, seen_datagrams a, seen_datagram_order a, seen_reliable a, seen_reliable_order a,
   ordered_holdback a, unacked a, inbox a) -> ok_with b a'.
Proof.
  intros [[H1 H2 H3 H4 H5 H6 H7] <-] Hr [= Hb Hd Hdo Hs Hso Hh Hu Hi]. split; [|done].
  constructor; unfold holdback_ok, unacked_ok, inbox_ok in *;
    rewrite ?Hb, ?Hd, ?Hdo, ?Hs, ?Hso, ?Hh, ?Hu, ?Hi; done.
Qed.

Lemma wp_accept_fragment b sp payload a :
  ok_with b a -> split_wf sp -> len payload <= max_payload_bytes b ->
  wp (accept_fragment sp payload) (fun _ => ok_with b) (ok_with b) a.
Proof.
  intros Ha (Hcn & Hid & Hix) Hpay. unfold accept_fragment.
  wp_step; [by wp_step|]. apply orb_false_iff in Heqb0 as [Hc0%Z.eqb_neq Hci%Z.leb_gt].
  wp_step. wp_step. wp_step. wp_step; [|done]. wp_step.
  set (known := reassembly a !! split_id sp) in *.
  set (entry := default _ known).
  apply wp_mono with (Q := fun _ a1 => ok_with b a1 /\ reassembly a1 !! split_id sp = Some entry)
    (R := ok_with b); [| |done].
  { unfold entry. destruct known as [r|] eqn:Ek; [by wp_step|]. wp_steps.
    split; [|by apply lookup_insert_eq].
    eapply ok_with_reassembly; [exact Ha| |done].
    destruct Ha as [[Hb ? ? Hr ? ? ?] <-]. apply (reassembly_ok_new a); try done; [lia| |apply Hb].
    eapply saturating_add_le; [done|apply Hb]. }
  intros [] a1 [Ha1 Hentry]. clear H. wp_step; [by wp_step|].
  apply negb_false_iff, Z.eqb_eq in Heqb0. clearbody entry. clear known.
  wp_step.
  apply wp_mono with (Q := fun _ a2 => ok_with b a2 /\ is_Some (reassembly a2 !! split_id sp))
    (R := ok_with b); [| |done].
  { destruct (parts entry !! Z.to_nat (split_index sp)) as [[old|]|] eqn:Hslot.
    - wp_step. split; [done|by eexists].
    - wp_step. wp_step. wp_step. wp_step; [|done].
      destruct Ha1 as [Hok <-] eqn:E; clear E.
      assert (max_reassembly_bytes_per_peer (budgets a1) < usize_max) as Hmax
        by (destruct Hok as [Hb ? ? ? ? ? ?]; apply Hb).
      apply saturating_add_le in H; [|done].
      wp_step. wp_step. wp_step. split; [|cbn; rewrite lookup_insert_eq; by eexists].
      eapply ok_with_reassembly; [exact (conj Hok eq_refl)| |done].
      apply (reassembly_ok_store a1); try done; [apply Hok|by intros ? [= <-]].
    - exfalso. apply lookup_ge_None in Hslot. lia. }
  intros [] a2 [Ha2 [r Hr]]. wp_step. wp_step. rewrite Hr.
  destruct (existsb _ _) eqn:Hmiss; [by wp_step|].
  do 6 wp_step. pose proof (join_parts_complete _ Hmiss) as ->. wp_step.
  destruct Ha2 as [Hok <-].
  eapply ok_with_reassembly; [exact (conj Hok eq_refl)| |done].
  apply (reassembly_ok_remove a2); [apply Hok|done].
Qed.

(** ** Duplicate windows *)

(** [trim_window] drops the oldest entries down to the limit, from both structures. *)
Lemma trim_window_spec {d} limit (order : list (Sequence d)) seen :
  seen = list_to_set order -> NoDup order -> 0 <= limit ->
  let n := Z.to_nat (len order - limit) in
  trim_window limit order seen = (drop n order, list_to_set (drop n order)).
Proof.
  intros Hseen Hnd Hl. revert seen Hseen.
  induction Hnd as [|x order Hx Hnd IH]; intros seen Hseen; cbn [trim_window].
  - rewrite drop_nil. by rewrite Hseen.
  - case_test.
    + replace (Z.to_nat (len (x :: order) - limit)) with (S (Z.to_nat (len order - limit)))
        by (cbn [length] in *; lia).
      cbn [drop]. apply IH. rewrite Hseen. cbn [list_to_set foldr]. set_solver.
    + replace (Z.to_nat (len (x :: order) - limit)) with O by lia. by rewrite Hseen.
Qed.

Lemma window_ok_trim {d} limit (order : list (Sequence d)) seen s order' seen' :
  window_ok limit order seen -> s ∉ seen -> 1 <= limit ->
  trim_window limit (order ++ [s]) ({[s]} ∪ seen) = (order', seen') ->
  window_ok limit order' seen'.
Proof.
  intros (Hseen & Hnd & Hlen) Hs Hl. rewrite trim_window_spec; [|..|lia].
  - intros [= <- <-]. split_and!; [done| |].
    + eapply sublist_NoDup; [|apply sublist_drop].
      apply NoDup_app. split_and!; [done|set_solver|apply NoDup_singleton].
    + rewrite length_drop. lia.
  - rewrite list_to_set_app_L. set_solver.
  - apply NoDup_app. split_and!; [done|set_solver|apply NoDup_singleton].
Qed.

Lemma duplicate_window_pos b : 1 <= duplicate_window_limit b.
Proof. unfold duplicate_window_limit. lia. Qed.

(** ** Receiving frames and datagrams *)

Lemma wp_receive_frame env b f a :
  ok_with b a -> frame_shape b f ->
  wp (receive_frame env f) (fun _ => ok_with b) (ok_with b) a.
Proof.
  intros Ha (Hri & Hsi & Hoi & Hch & Hsp & Hpl & _). unfold receive_frame.
  wp_step. wp_step. wp_step.
  apply wp_mono with (Q := fun _ => ok_with b) (R := ok_with b); [| |done].
  { destruct (reliable_index f) as [ri|]; [|by wp_step].
    wp_step; [by wp_step|]. wp_step. wp_step. wp_step. wp_step.
    destruct Ha as [[? ? Hw ? ? ? ?] Hb]. split; [|done]. constructor; try done.
    eapply window_ok_trim; [exact Hw|done|apply duplicate_window_pos|done]. }
  intros fresh a1 Ha1. wp_step; [by wp_step|]. wp_step.
  apply wp_mono with (Q := fun _ => ok_with b) (R := ok_with b); [| |done].
  { destruct (split f) as [sp|] eqn:Es; [|by wp_step].
    apply wp_accept_fragment; [done|by apply Hsp|done]. }
  intros [pl|] a2 Ha2; [|by wp_step].
  assert (forall a p, ok_with b a -> wp (deliver_payload env p) (fun _ => ok_with b) (ok_with b) a)
    as Hdel by (intros; by apply wp_deliver_with).
  wp_step.
  - wp_step; [|by wp_step]. wp_step. wp_step. wp_step; [wp_step; [by wp_step|]|];
      wp_step; wp_step; apply Hdel; okw_same.
  - wp_step; [|by apply Hdel]. wp_step; [|by wp_step]. by apply wp_accept_ordered.
Qed.

Lemma wp_retransmit env b sq a :
  ok_with b a -> wp (retransmit env sq) (fun _ => ok_with b) (ok_with b) a.
Proof.
  intros Ha. unfold retransmit. wp_steps; try done.
  destruct Ha as [[? ? ? ? ? Hu ?] Hb]. split; [|done]. constructor; try done.
  destruct (proj2 Hu _ _ Heqo) as [Hd Hat].
  apply (unacked_ok_insert a); try done; [|by left; eexists].
  cbn. unfold saturating_add, u16_max. apply Z.leb_gt in Heqb0.
  unfold MAX_RETRANSMIT_ATTEMPTS in *. lia.
Qed.

Lemma wp_apply_acknowledgement env b ack a :
  ok_with b a -> wp (apply_acknowledgement env ack) (fun _ => ok_with b) (ok_with b) a.
Proof.
  intros Ha. destruct ack as [ranges|ranges]; cbn [apply_acknowledgement].
  - wp_step. destruct Ha as [[? ? ? ? ? [Hs Hm] ?] Hb]. split; [|done]. constructor; try done.
    split; cbn.
    + pose proof (map_size_filter (fun kv => existsb (in_range kv.1) ranges = false) (unacked a)).
      lia.
    + intros sq d [Hd _]%map_lookup_filter_Some. exact (Hm _ _ Hd).
  - wp_step. wp_step. apply wp_for_each; [|done]. intros. by apply wp_retransmit.
Qed.

Lemma wp_receive_datagram env b bytes a :
  ok_with b a -> wp (receive_datagram env bytes) (fun _ => ok_with b) (ok_with b) a.
Proof.
  intros Ha. unfold receive_datagram.
  wp_step. wp_step. wp_step. wp_step.
  match goal with |- wp _ _ _ ?x => set (a1 := x) end.
  assert (ok_with b a1) as Ha1 by (unfold a1; okw_same).
  clearbody a1. clear a Ha. wp_step. apply wp_lift.
  pose proof (decode_acknowledgement_total bytes) as Hack.
  destruct (decode_acknowledgement bytes) as [[ack|]|e| |]; try done.
  { by apply wp_apply_acknowledgement. }
  wp_step. wp_step. wp_step. apply wp_lift.
  pose proof (decode_datagram_frame_shapes bytes (budgets a1)) as Hdg.
  destruct (decode_datagram bytes (budgets a1)) as [dg|e| |]; try done.
  wp_step. wp_step; [|done]. wp_step; [by wp_step|]. wp_step. wp_step. wp_step.
  assert (ok_with b (set_seen_datagrams g (set_seen_datagram_order l a1))) as Ha2.
  { destruct Ha1 as [[? Hw ? ? ? ? ?] Hb]. split; [|done]. constructor; try done.
    eapply window_ok_trim; [exact Hw|done|apply duplicate_window_pos|done]. }
  wp_step.
  apply wp_mono with (Q := fun _ => ok_with b) (R := ok_with b); [| |done].
  { destruct (last_datagram a1) as [prev|].
    - wp_step. apply wp_mono with (Q := fun _ => ok_with b) (R := ok_with b); [| |done].
      + wp_step; [wp_step; done|by wp_step].
      + intros [] a3 Ha3. wp_steps; [okw_same|done].
    - wp_step. okw_same. }
  intros [] a3 Ha3. apply wp_for_each; [|done]. intros f a4 Hf Ha4.
  apply wp_receive_frame; [done|]. destruct Ha1 as [_ <-].
  rewrite Forall_forall in Hdg. by apply Hdg.
Qed.

(** ** Timers *)

Lemma wp_on_timer env b a :
  ok_with b a -> wp (on_timer env) (fun _ => ok_with b) (ok_with b) a.
Proof.
  intros Ha. unfold on_timer. wp_steps; [done|].
  apply wp_for_each; [|done]. intros. by apply wp_retransmit.
Qed.

Lemma wp_send_application env b payload a :
  ok_with b a -> wp (send_application env payload) (fun _ => ok_with b) (ok_with b) a.
Proof.
  intros Ha. unfold send_application. wp_steps; try done.
  eapply wp_mono; [apply wp_send_reliable_ordered, ok_from_refl, Ha| |];
    intros; by eapply ok_from_with.
Qed.

Lemma ok_resume_timers env b frozen_at resumed_at a :
  ok_with b a -> ok_with b (resume_timers env frozen_at resumed_at a).
Proof.
  intros [[? ? ? ? ? [Hs Hm] ?] Hb]. split; [|done]. constructor; try done.
  split; cbn.
  - by rewrite map_size_fmap.
  - intros sq d Hd. rewrite lookup_fmap in Hd.
    destruct (unacked a !! sq) as [d'|] eqn:E; [|done]. injection Hd as <-. cbn.
    exact (Hm _ _ E).
Qed.

Lemma ok_actor_new remote mtu b inbox act ro :
  budgets_ok b -> capacity inbox = application_queue b -> len (queue inbox) <= capacity inbox ->
  actor_ok (actor_new remote mtu b inbox act ro).
Proof.
  intros Hb Hcap Hq. constructor; try done; cbn.
  - split_and!; [done|by constructor|]. pose proof (duplicate_window_pos b). cbn. lia.
  - split_and!; [done|by constructor|]. pose proof (duplicate_window_pos b). cbn. lia.
  - unfold reassembly_ok. cbn. rewrite !map_sum_empty. unfold budgets_ok in Hb.
    split_and!; try lia. apply map_Forall_empty.
  - unfold holdback_ok. cbn. rewrite map_size_empty. unfold budgets_ok in Hb. lia.
  - split; cbn; [rewrite map_size_empty; unfold budgets_ok in Hb; lia|apply map_Forall_empty].
Qed.
