(* ===== verification/RaknetTransfer.v ===== *)
(** * Transferring a RakNet peer to a successor process
    ([crates/network/revy-raknet/src/peer.rs])

    The checkpoint of a peer ([PeerActor::snapshot]), its validation against the
    receiving process's budgets ([PeerSnapshot::validate_structure]) and the actor
    rebuilt from it ([PeerActor::from_validated_snapshot]). *)

From stdpp Require Import sorting.
From S2P Require Import Prelude Bytes RaknetSequence RaknetBudget RaknetWire RaknetPeer RaknetPeerInv.

(** ** Checkpoints *)

Record UnackedDatagramSnapshot : Type := mkUnackedSnapshot {
  us_sequence : DatagramSequence;
  us_bytes : list byte;
  retransmit_remaining : Z;
  us_attempts : Z
}.

Record ReassemblySnapshot : Type := mkReassemblySnapshot {
  rs_split_id : Z;
  rs_parts : list (option (list byte))
}.

Record OrderedPayloadSnapshot : Type := mkOrderedPayloadSnapshot {
  os_channel : Z;
  os_sequence : OrderSequence;
  os_payload : list byte
}.

Module PeerSnapshot.
Record t : Type := mk {
  remote_addr : SocketAddr;
  mtu : Z;
  accepted : bool;
  next_datagram : DatagramSequence;
  next_reliable : ReliableSequence;
  next_ordered : OrderSequence;
  next_split_id : Z;
  last_datagram : option DatagramSequence;
  seen_datagram_order : SequenceHistory Datagrams;
  seen_reliable_order : SequenceHistory Reliables;
  ordered_expected : list (Z * OrderSequence);
  sequenced_latest : list (Z * OrderSequence);
  queued_payloads : list (list byte);
  unacked_datagrams : list UnackedDatagramSnapshot;
  reassembly : list ReassemblySnapshot;
  ordered_holdback : list OrderedPayloadSnapshot;
  timeout_remaining : Z
}.
End PeerSnapshot.
Abbreviation PeerSnapshot := PeerSnapshot.t.

(** [sort_by_key]: stable, by a decidable comparison of the keys. *)
Definition key_le {A} (key : A -> Z) (x y : A) : Prop := key x <= key y.
#[export] Instance key_le_dec {A} (key : A -> Z) : RelDecision (key_le key).
Proof. intros x y. unfold key_le. apply _. Defined.
Definition sort_by_key {A} (key : A -> Z) : list A -> list A := merge_sort (key_le key).

(** The lexicographic order of a [(u8, u32)] key. *)
Definition pair_le (p q : Z * Z) : Prop := fst p < fst q \/ (fst p = fst q /\ snd p <= snd q).
#[export] Instance pair_le_dec : RelDecision pair_le.
Proof. intros p q. unfold pair_le. apply _. Defined.
Definition held_key (e : OrderedPayloadSnapshot) : Z * Z := (os_channel e, value (os_sequence e)).
Definition held_le (x y : OrderedPayloadSnapshot) : Prop := pair_le (held_key x) (held_key y).
#[export] Instance held_le_dec : RelDecision held_le.
Proof. intros x y. unfold held_le. apply _. Defined.

(** [PeerActor::snapshot] *)
Definition snapshot (now : Z) (a : PeerActor) : PeerSnapshot := {|
  PeerSnapshot.remote_addr := remote_addr a;
  PeerSnapshot.mtu := mtu a;
  PeerSnapshot.accepted := accepted a;
  PeerSnapshot.next_datagram := next_datagram a;
  PeerSnapshot.next_reliable := next_reliable a;
  PeerSnapshot.next_ordered := next_ordered a;
  PeerSnapshot.next_split_id := next_split_id a;
  PeerSnapshot.last_datagram := last_datagram a;
  PeerSnapshot.seen_datagram_order := from_sequences (seen_datagram_order a);
  PeerSnapshot.seen_reliable_order := from_sequences (seen_reliable_order a);
  PeerSnapshot.ordered_expected := sort_by_key fst (map_to_list (ordered_expected a));
  PeerSnapshot.sequenced_latest := sort_by_key fst (map_to_list (sequenced_latest a));
  PeerSnapshot.queued_payloads := queue (inbox a);
  PeerSnapshot.unacked_datagrams :=
    sort_by_key (fun e => value (us_sequence e))
      (map (fun kv => mkUnackedSnapshot (fst kv) (ud_bytes (snd kv))
          (saturating_sub (retransmit_delay (attempts (snd kv)))
             (duration_since now (sent_at (snd kv))))
          (attempts (snd kv)))
        (map_to_list (unacked a)));
  PeerSnapshot.reassembly :=
    sort_by_key rs_split_id
      (map (fun kv => mkReassemblySnapshot (fst kv) (parts (snd kv))) (map_to_list (reassembly a)));
  PeerSnapshot.ordered_holdback :=
    merge_sort held_le
      (map (fun kv => mkOrderedPayloadSnapshot (fst (fst kv)) (snd (fst kv)) (snd kv))
        (map_to_list (ordered_holdback a)));
  PeerSnapshot.timeout_remaining :=
    saturating_sub PEER_TIMEOUT (duration_since now (activity a))
|}.

(** ** Validation *)

Record PeerDuplicateIndexes : Type := mkIndexes {
  ix_datagrams : gset DatagramSequence;
  ix_reliable : gset ReliableSequence
}.

Definition check_payload (budgets : RakNetBudgets) (payload : list byte) :
    result RakNetError unit :=
  ensure_budget "application payload bytes" (len payload) (max_payload_bytes budgets).

(** A [for] loop of checks, left at the first failure. *)
Fixpoint check_all {A} (check : A -> result RakNetError unit) (l : list A) :
    result RakNetError unit :=
  match l with
  | [] => Ok tt
  | x :: l => check x ;; check_all check l
  end.

Fixpoint check_unacked (budgets : RakNetBudgets) (seen : gset DatagramSequence)
    (l : list UnackedDatagramSnapshot) : result RakNetError unit :=
  match l with
  | [] => Ok tt
  | d :: l =>
      if decide (us_sequence d ∈ seen)
      then Err (Wire "transferred peer repeats an unacknowledged datagram sequence")
      else
        ensure_budget "datagram bytes" (len (us_bytes d)) (max_datagram_bytes budgets) ;;
        if (retransmit_delay (us_attempts d) <? retransmit_remaining d)
           || (us_attempts d =? 0) || (MAX_RETRANSMIT_ATTEMPTS <? us_attempts d)
        then Err (Wire "transferred peer has an invalid retransmit timer or attempt count")
        else check_unacked budgets ({[us_sequence d]} ∪ seen) l
  end.

(** [for part in split.parts.iter().flatten()]: the running byte count. *)
Fixpoint check_parts (budgets : RakNetBudgets) (bytes : Z) (ps : list (option (list byte))) :
    result RakNetError Z :=
  match ps with
  | [] => Ok bytes
  | None :: ps => check_parts budgets bytes ps
  | Some part :: ps =>
      check_payload budgets part ;;
      match checked_add usize_max bytes (len part) with
      | None => Err (Wire "fragment byte count overflow")
      | Some bytes => check_parts budgets bytes ps
      end
  end.

Fixpoint check_reassembly (budgets : RakNetBudgets) (split_ids : gset Z) (nparts bytes : Z)
    (l : list ReassemblySnapshot) : result RakNetError (Z * Z) :=
  match l with
  | [] => Ok (nparts, bytes)
  | s :: l =>
      if bool_decide (rs_split_id s ∈ split_ids) || bool_decide (rs_parts s = [])
      then Err (Wire "transferred peer has an invalid or duplicate fragment assembly")
      else
        match checked_add usize_max nparts (len (rs_parts s)) with
        | None => Err (Wire "fragment part count overflow")
        | Some nparts =>
            bytes ← check_parts budgets bytes (rs_parts s);
            check_reassembly budgets ({[rs_split_id s]} ∪ split_ids) nparts bytes l
        end
  end.

Fixpoint check_holdback (budgets : RakNetBudgets) (held : gset (Z * OrderSequence))
    (l : list OrderedPayloadSnapshot) : result RakNetError unit :=
  match l with
  | [] => Ok tt
  | h :: l =>
      if decide ((os_channel h, os_sequence h) ∈ held)
      then Err (Wire "transferred peer repeats an ordered holdback sequence")
      else
        check_payload budgets (os_payload h) ;;
        check_holdback budgets ({[(os_channel h, os_sequence h)]} ∪ held) l
  end.

Fixpoint repeats_channel (channels : gset Z) (l : list (Z * OrderSequence)) : bool :=
  match l with
  | [] => false
  | (channel, _) :: l => bool_decide (channel ∈ channels) || repeats_channel ({[channel]} ∪ channels) l
  end.

Definition validate_channel_sequences (name : string) (l : list (Z * OrderSequence)) :
    result RakNetError unit :=
  if repeats_channel ∅ l
  then Err (Wire ("transferred peer repeats a " +:+ name +:+ " channel"))
  else Ok tt.

Definition wire_result {A} (r : result string A) : result RakNetError A :=
  match r with
  | Ok a => Ok a
  | Err m => Err (Wire m)
  | Panic => Panic
  | OutOfFuel => OutOfFuel
  end.

Definition maximum_mtu (budgets : RakNetBudgets) : Z :=
  Z.max (try_from_or_max u16_max (max_datagram_bytes budgets)) 576.

(** [PeerSnapshot::validate_structure] *)
Definition validate_structure (s : PeerSnapshot) (budgets : RakNetBudgets) :
    result RakNetError PeerDuplicateIndexes :=
  if negb ((576 <=? PeerSnapshot.mtu s) && (PeerSnapshot.mtu s <=? maximum_mtu budgets))
  then Err (Wire ("transferred peer MTU " +:+ pretty (PeerSnapshot.mtu s) +:+
              " is outside 576..=" +:+ pretty (maximum_mtu budgets)))
  else
    ensure_budget "application queue entries" (len (PeerSnapshot.queued_payloads s))
      (application_queue budgets) ;;
    check_all (check_payload budgets) (PeerSnapshot.queued_payloads s) ;;
    ensure_budget "unacknowledged datagrams" (len (PeerSnapshot.unacked_datagrams s))
      (max_unacked_datagrams budgets) ;;
    check_unacked budgets ∅ (PeerSnapshot.unacked_datagrams s) ;;
    counts ← check_reassembly budgets ∅ 0 0 (PeerSnapshot.reassembly s);
    ensure_budget "reassembly parts per peer" (fst counts)
      (max_reassembly_parts_per_peer budgets) ;;
    ensure_budget "reassembly bytes per peer" (snd counts)
      (max_reassembly_bytes_per_peer budgets) ;;
    ensure_budget "ordered holdback entries" (len (PeerSnapshot.ordered_holdback s))
      (max_ordered_holdback budgets) ;;
    check_holdback budgets ∅ (PeerSnapshot.ordered_holdback s) ;;
    datagram_count ← wire_result (sequence_count (PeerSnapshot.seen_datagram_order s));
    reliable_count ← wire_result (sequence_count (PeerSnapshot.seen_reliable_order s));
    ensure_budget "datagram duplicate window" datagram_count (duplicate_window_limit budgets) ;;
    ensure_budget "reliable duplicate window" reliable_count (duplicate_window_limit budgets) ;;
    let seen_datagrams : gset DatagramSequence :=
      list_to_set (sequences (PeerSnapshot.seen_datagram_order s)) in
    if negb (Z.of_nat (size seen_datagrams) =? datagram_count)
    then Err (Wire "transferred peer repeats a datagram duplicate-window sequence")
    else
      let seen : gset ReliableSequence :=
        list_to_set (sequences (PeerSnapshot.seen_reliable_order s)) in
      if negb (Z.of_nat (size seen) =? reliable_count)
      then Err (Wire "transferred peer repeats a reliable duplicate-window sequence")
      else
        validate_channel_sequences "ordered expected" (PeerSnapshot.ordered_expected s) ;;
        validate_channel_sequences "sequenced latest" (PeerSnapshot.sequenced_latest s) ;;
        if PEER_TIMEOUT <? PeerSnapshot.timeout_remaining s
        then Err (Wire "transferred peer timeout exceeds the protocol timeout")
        else Ok (mkIndexes seen_datagrams seen).

Record ValidatedPeerSnapshot : Type := mkValidated {
  checkpoint : PeerSnapshot;
  duplicate_indexes : PeerDuplicateIndexes;
  v_budgets : RakNetBudgets
}.

Definition into_validated (s : PeerSnapshot) (budgets : RakNetBudgets) :
    result RakNetError ValidatedPeerSnapshot :=
  ix ← validate_structure s budgets; Ok (mkValidated s ix budgets).

Fixpoint collect_results {A B} (f : A -> result RakNetError B) (l : list A) :
    result RakNetError (list B) :=
  match l with
  | [] => Ok []
  | x :: l => y ← f x; ys ← collect_results f l; Ok (y :: ys)
  end.

(** [validate_peer_snapshots]: [parallelism] is [available_parallelism()] (1 when
    unknown); each chunk is one worker, joined in order. *)
Definition SNAPSHOT_VALIDATION_WORKER_LIMIT : Z := 16.

Definition worker_chunk_size (parallelism : Z) (snapshots : Z) : Z :=
  let worker_count :=
    Z.min (Z.min parallelism SNAPSHOT_VALIDATION_WORKER_LIMIT) snapshots in
  div_ceil snapshots worker_count.

Fixpoint join_workers {B} (workers : list (result RakNetError (list B))) :
    result RakNetError (list B) :=
  match workers with
  | [] => Ok []
  | w :: ws => chunk ← w; rest ← join_workers ws; Ok (chunk ++ rest)
  end.

Definition validate_peer_snapshots (parallelism : Z) (snapshots : list PeerSnapshot)
    (budgets : RakNetBudgets) : result RakNetError (list ValidatedPeerSnapshot) :=
  match snapshots with
  | [] => Ok []
  | _ =>
      let chunk_size := worker_chunk_size parallelism (len snapshots) in
      join_workers (map (collect_results (fun s => into_validated s budgets))
        (chunks (Z.to_nat chunk_size) snapshots))
  end.

(** ** Restoration *)

(** [iter.collect()] into a map: a later entry replaces an earlier one. *)
Definition collect_map `{Countable K} {V} (l : list (K * V)) : gmap K V :=
  foldl (fun m kv => <[fst kv := snd kv]> m) ∅ l.

Definition instant_back (env : Env) (t d : Z) : Z := default t (instant_checked_sub env t d).

(** [PeerActor::from_validated_snapshot] *)
Definition from_validated_snapshot (env : Env) (s : PeerSnapshot) (ix : PeerDuplicateIndexes)
    (restored_at : Z) (budgets : RakNetBudgets) (inbox : PeerInbox) (activity : Z)
    (router_owned : bool) : PeerActor :=
  mkPeerActor (PeerSnapshot.remote_addr s) (PeerSnapshot.mtu s) budgets inbox activity
    (PeerSnapshot.accepted s) router_owned
    (PeerSnapshot.next_datagram s) (PeerSnapshot.next_reliable s) (PeerSnapshot.next_ordered s)
    (PeerSnapshot.next_split_id s) (PeerSnapshot.last_datagram s)
    (ix_datagrams ix) (sequences (PeerSnapshot.seen_datagram_order s))
    (ix_reliable ix) (sequences (PeerSnapshot.seen_reliable_order s))
    (collect_map (PeerSnapshot.ordered_expected s))
    (collect_map (PeerSnapshot.sequenced_latest s))
    (collect_map (map (fun h => ((os_channel h, os_sequence h), os_payload h))
       (PeerSnapshot.ordered_holdback s)))
    (collect_map (map (fun r => (rs_split_id r, mkReassembly (rs_parts r)))
       (PeerSnapshot.reassembly s)))
    (sum_Z (map (fun r => parts_bytes (rs_parts r)) (PeerSnapshot.reassembly s)))
    (sum_Z (map (fun r => len (rs_parts r)) (PeerSnapshot.reassembly s)))
    (collect_map (map (fun d =>
       (us_sequence d,
        mkUnacked (us_bytes d)
          (instant_back env restored_at
             (saturating_sub (retransmit_delay (us_attempts d)) (retransmit_remaining d)))
          (us_attempts d))) (PeerSnapshot.unacked_datagrams s))).

(** [prepare_peer_snapshot]: the actor and whether an imported handle is created. *)
Definition prepare_peer_snapshot (env : Env) (now : Z) (v : ValidatedPeerSnapshot)
    (budgets : RakNetBudgets) : PeerActor * bool :=
  let s := checkpoint v in
  let inbox := mkInbox (PeerSnapshot.queued_payloads s) false (application_queue budgets) in
  let idle_elapsed := saturating_sub PEER_TIMEOUT (PeerSnapshot.timeout_remaining s) in
  (from_validated_snapshot env s (duplicate_indexes v) now budgets inbox
     (instant_back env now idle_elapsed) true,
   PeerSnapshot.accepted s).

(** ** Lemmas on the checks *)

Definition payload_fits (b : RakNetBudgets) (p : list byte) : Prop := len p <= max_payload_bytes b.

Lemma check_payload_iff b p : check_payload b p = Ok tt <-> payload_fits b p.
Proof.
  unfold check_payload, payload_fits, ensure_budget. case_test; split; try done; lia.
Qed.

Lemma check_all_iff {A} (check : A -> result RakNetError unit) l :
  check_all check l = Ok tt <-> Forall (fun x => check x = Ok tt) l.
Proof.
  induction l as [|x l IH]; cbn [check_all]; [done|]. rewrite Forall_cons, <- IH. split.
  - intros ([] & -> & H)%result_bind_Ok. done.
  - intros [-> H]. done.
Qed.

Lemma check_unacked_Ok b l : forall seen,
  NoDup (map us_sequence l) -> (forall d, d ∈ l -> us_sequence d ∉ seen) ->
  Forall (fun d => len (us_bytes d) <= max_datagram_bytes b /\
    retransmit_remaining d <= retransmit_delay (us_attempts d) /\
    1 <= us_attempts d <= MAX_RETRANSMIT_ATTEMPTS) l ->
  check_unacked b seen l = Ok tt.
Proof.
  induction l as [|d l IH]; intros seen Hnd Hseen Hl; cbn [check_unacked]; [done|].
  apply NoDup_cons in Hnd as [Hd Hnd]. apply Forall_cons in Hl as [(Hb & Hr & Ha) Hl].
  rewrite decide_False by (apply Hseen; set_solver).
  rewrite ensure_budget_Ok by done. cbn [mbind result_bind].
  destruct (Z.ltb_spec (retransmit_delay (us_attempts d)) (retransmit_remaining d)); [lia|].
  destruct (Z.eqb_spec (us_attempts d) 0); [lia|].
  destruct (Z.ltb_spec MAX_RETRANSMIT_ATTEMPTS (us_attempts d)); [lia|]. cbn [orb].
  apply IH; [done| |done]. intros d' Hd'.
  assert (us_sequence d' <> us_sequence d).
  { intros E. apply Hd. rewrite <- E. by apply list_elem_of_fmap_2. }
  specialize (Hseen d' ltac:(set_solver)). set_solver.
Qed.

Lemma check_parts_Ok b ps : forall bytes,
  Forall (part_ok b) ps -> 0 <= bytes -> bytes + parts_bytes ps <= usize_max ->
  check_parts b bytes ps = Ok (bytes + parts_bytes ps).
Proof.
  induction ps as [|[p|] ps IH]; intros bytes Hps H0 Hmax.
  - cbn. by rewrite Z.add_0_r.
  - apply Forall_cons in Hps as [Hp Hps].
    assert (parts_bytes (Some p :: ps) = len p + parts_bytes ps) as Heq by done.
    rewrite Heq in *. pose proof (parts_bytes_nonneg ps).
    cbn [check_parts]. rewrite (proj2 (check_payload_iff b p)) by (by apply Hp).
    cbn [mbind result_bind]. unfold checked_add. case_test; [|lia].
    rewrite IH by (done || lia). f_equal. lia.
  - apply Forall_cons in Hps as [_ Hps]. by apply IH.
Qed.

Lemma check_reassembly_Ok b l : forall ids np nb,
  NoDup (map rs_split_id l) -> (forall r, r ∈ l -> rs_split_id r ∉ ids) ->
  Forall (fun r => rs_parts r <> [] /\ Forall (part_ok b) (rs_parts r)) l ->
  0 <= np -> 0 <= nb ->
  np + sum_Z (map (fun r => len (rs_parts r)) l) <= usize_max ->
  nb + sum_Z (map (fun r => parts_bytes (rs_parts r)) l) <= usize_max ->
  check_reassembly b ids np nb l =
    Ok (np + sum_Z (map (fun r => len (rs_parts r)) l),
        nb + sum_Z (map (fun r => parts_bytes (rs_parts r)) l)).
Proof.
  assert (forall (g : ReassemblySnapshot -> Z) l, (forall r, 0 <= g r) -> 0 <= sum_Z (map g l)) as Hpos.
  { intros g l' Hg. induction l' as [|r l' IH]; unfold sum_Z in *; simpl in *; [lia|].
    specialize (Hg r). lia. }
  induction l as [|r l IH]; intros ids np nb Hnd Hids Hl H0 H0' Hnp Hnb.
  - cbn. by rewrite !Z.add_0_r.
  - apply NoDup_cons in Hnd as [Hr Hnd]. apply Forall_cons in Hl as [[Hne Hps] Hl].
    cbn [map] in *. unfold sum_Z in Hnp, Hnb |- *. cbn [foldr] in *.
    fold (sum_Z (map (fun r => len (rs_parts r)) l)) in *.
    fold (sum_Z (map (fun r => parts_bytes (rs_parts r)) l)) in *.
    pose proof (Hpos (fun r => len (rs_parts r)) l ltac:(intros; cbn; lia)).
    pose proof (Hpos (fun r => parts_bytes (rs_parts r)) l ltac:(intros; apply parts_bytes_nonneg)).
    pose proof (parts_bytes_nonneg (rs_parts r)).
    cbn [check_reassembly].
    rewrite bool_decide_eq_false_2 by (apply Hids; set_solver).
    rewrite bool_decide_eq_false_2 by done. cbn [orb].
    unfold checked_add at 1. case_test; [|lia].
    rewrite check_parts_Ok by (done || lia). cbn [mbind result_bind].
    rewrite IH; try done; try lia.
    + do 2 f_equal; lia.
    + intros r' Hr'. assert (rs_split_id r' <> rs_split_id r).
      { intros E. apply Hr. rewrite <- E. by apply list_elem_of_fmap_2. }
      specialize (Hids r' ltac:(set_solver)). set_solver.
Qed.

Lemma check_holdback_Ok b l : forall held,
  NoDup (map (fun h => (os_channel h, os_sequence h)) l) ->
  (forall h, h ∈ l -> (os_channel h, os_sequence h) ∉ held) ->
  check_holdback b held l = Ok tt <-> Forall (fun h => payload_fits b (os_payload h)) l.
Proof.
  induction l as [|h l IH]; intros held Hnd Hheld; cbn [check_holdback]; [done|].
  apply NoDup_cons in Hnd as [Hh Hnd].
  rewrite decide_False by (apply Hheld; set_solver).
  rewrite Forall_cons, <- (IH ({[(os_channel h, os_sequence h)]} ∪ held)); [|done|].
  - rewrite <- check_payload_iff. split.
    + intros ([] & -> & H)%result_bind_Ok. done.
    + intros [-> H]. done.
  - intros h' Hh'. assert ((os_channel h', os_sequence h') <> (os_channel h, os_sequence h)).
    { intros E. apply Hh. rewrite <- E.
      by apply (list_elem_of_fmap_2 (fun h => (os_channel h, os_sequence h))). }
    specialize (Hheld h' ltac:(set_solver)). set_solver.
Qed.

Lemma repeats_channel_false l : forall channels,
  NoDup (map fst l) -> (forall kv, kv ∈ l -> fst kv ∉ channels) ->
  repeats_channel channels l = false.
Proof.
  induction l as [|[c s] l IH]; intros channels Hnd Hc; cbn [repeats_channel]; [done|].
  apply NoDup_cons in Hnd as [Hcl Hnd]. apply orb_false_iff. split.
  - apply bool_decide_eq_false_2. apply (Hc (c, s)). set_solver.
  - apply IH; [done|]. intros kv Hkv. assert (fst kv <> c).
    { intros <-. apply Hcl. cbn [fst]. by apply list_elem_of_fmap_2. }
    specialize (Hc kv ltac:(set_solver)). set_solver.
Qed.

(** ** Checkpoints of a well-formed peer *)

Section SnapshotLists.
Context (t : Z) (a : PeerActor) (Ha : actor_ok a).

Let s := snapshot t a.

Lemma snapshot_unacked_perm :
  PeerSnapshot.unacked_datagrams s ≡ₚ
    map (fun kv => mkUnackedSnapshot (fst kv) (ud_bytes (snd kv))
        (saturating_sub (retransmit_delay (attempts (snd kv)))
           (duration_since t (sent_at (snd kv))))
        (attempts (snd kv))) (map_to_list (unacked a)).
Proof. apply merge_sort_Permutation. Qed.

Lemma snapshot_reassembly_perm :
  PeerSnapshot.reassembly s ≡ₚ
    map (fun kv => mkReassemblySnapshot (fst kv) (parts (snd kv))) (map_to_list (reassembly a)).
Proof. apply merge_sort_Permutation. Qed.

Lemma snapshot_holdback_perm :
  PeerSnapshot.ordered_holdback s ≡ₚ
    map (fun kv => mkOrderedPayloadSnapshot (fst (fst kv)) (snd (fst kv)) (snd kv))
      (map_to_list (ordered_holdback a)).
Proof. apply merge_sort_Permutation. Qed.

Lemma snapshot_expected_perm :
  PeerSnapshot.ordered_expected s ≡ₚ map_to_list (ordered_expected a).
Proof. apply merge_sort_Permutation. Qed.

Lemma snapshot_latest_perm :
  PeerSnapshot.sequenced_latest s ≡ₚ map_to_list (sequenced_latest a).
Proof. apply merge_sort_Permutation. Qed.

Lemma snapshot_unacked_ok : check_unacked (budgets a) ∅ (PeerSnapshot.unacked_datagrams s) = Ok tt.
Proof.
  destruct (ok_unacked a Ha) as [_ Hm].
  apply check_unacked_Ok; [|set_solver|].
  - rewrite snapshot_unacked_perm, map_map. cbn [us_sequence]. apply NoDup_fst_map_to_list.
  - rewrite snapshot_unacked_perm. apply Forall_forall. intros d Hd.
    apply list_elem_of_fmap in Hd as ([sq u] & -> & Hin). apply elem_of_map_to_list in Hin.
    destruct (Hm _ _ Hin) as [Hb Hat]. cbn. split_and!; try done; try lia.
    unfold saturating_sub, duration_since.
    assert (0 <= retransmit_delay (attempts u)); [|lia].
    unfold retransmit_delay. apply Z.mul_nonneg_nonneg; [done|].
    apply Z.shiftl_nonneg. done.
Qed.

Lemma snapshot_reassembly_sums :
  sum_Z (map (fun r => len (rs_parts r)) (PeerSnapshot.reassembly s)) = reassembly_parts a /\
  sum_Z (map (fun r => parts_bytes (rs_parts r)) (PeerSnapshot.reassembly s)) = reassembly_bytes a.
Proof.
  destruct (ok_reassembly a Ha) as (-> & -> & _).
  rewrite snapshot_reassembly_perm, !map_map. done.
Qed.

Lemma snapshot_reassembly_ok :
  check_reassembly (budgets a) ∅ 0 0 (PeerSnapshot.reassembly s) =
    Ok (reassembly_parts a, reassembly_bytes a).
Proof.
  destruct snapshot_reassembly_sums as [Hp Hb]. rewrite <- Hp, <- Hb.
  destruct (ok_reassembly a Ha) as (_ & _ & Hpl & Hbl & Hm).
  destruct (ok_budgets a Ha) as (_ & _ & _ & ? & ? & _).
  rewrite check_reassembly_Ok; try done; try (rewrite ?Hp, ?Hb; lia).
  - rewrite snapshot_reassembly_perm, map_map. cbn [rs_split_id]. apply NoDup_fst_map_to_list.
  - rewrite snapshot_reassembly_perm. apply Forall_forall. intros r Hr.
    apply list_elem_of_fmap in Hr as ([id rr] & -> & Hin). apply elem_of_map_to_list in Hin.
    exact (Hm _ _ Hin).
Qed.

Lemma snapshot_holdback_iff :
  check_holdback (budgets a) ∅ (PeerSnapshot.ordered_holdback s) = Ok tt <->
  map_Forall (fun _ p => payload_fits (budgets a) p) (ordered_holdback a).
Proof.
  rewrite check_holdback_Ok; [|rewrite snapshot_holdback_perm, map_map|set_solver].
  - rewrite snapshot_holdback_perm, map_Forall_to_list, !Forall_forall. split.
    + intros H [[c sq] p] Hin. apply (H (mkOrderedPayloadSnapshot c sq p)).
      apply list_elem_of_fmap. by exists ((c, sq), p).
    + intros H h Hh. apply list_elem_of_fmap in Hh as ([[c sq] p] & -> & Hin). exact (H _ Hin).
  - cbn [os_channel os_sequence]. erewrite map_ext; [apply NoDup_fst_map_to_list|].
    by intros [[c sq] p].
Qed.
End SnapshotLists.

Lemma window_count {d} limit (order : list (Sequence d)) seen :
  window_ok limit order seen -> limit <= usize_max ->
  sequence_count (from_sequences order) = Ok (len order) /\
  list_to_set (sequences (from_sequences order)) = seen /\
  Z.of_nat (size seen) = len order /\ len order <= limit.
Proof.
  intros (-> & Hnd & Hlen) Hmax. rewrite sequences_from. split_and!; try done.
  - apply sequence_count_from. lia.
  - by rewrite size_list_to_set.
Qed.

Lemma window_limit_max b : budgets_ok b -> duplicate_window_limit b <= usize_max.
Proof. intros Hb. unfold duplicate_window_limit, saturating_mul, usize_max, u64_max. lia. Qed.

Lemma snapshot_channels_ok name (m : gmap Z OrderSequence) l :
  l ≡ₚ map_to_list m -> validate_channel_sequences name l = Ok tt.
Proof.
  intros Hl. unfold validate_channel_sequences.
  rewrite repeats_channel_false; [done| |set_solver].
  rewrite Hl. apply NoDup_fst_map_to_list.
Qed.

(** Everything a well-formed peer's checkpoint is checked for holds by the invariant,
    except the sizes of the payloads that wait for delivery. *)
Lemma validate_snapshot t a :
  actor_ok a -> 576 <= mtu a <= maximum_mtu (budgets a) ->
  validate_structure (snapshot t a) (budgets a) =
    (check_all (check_payload (budgets a)) (queue (inbox a)) ;;
     check_holdback (budgets a) ∅ (PeerSnapshot.ordered_holdback (snapshot t a)) ;;
     Ok (mkIndexes (seen_datagrams a) (seen_reliable a))).
Proof.
  intros Ha Hmtu. unfold validate_structure.
  pose proof (window_limit_max _ (ok_budgets a Ha)) as Hwin.
  destruct (window_count _ _ _ (ok_datagrams a Ha) Hwin) as (Hdc & Hds & Hdn & Hdl).
  destruct (window_count _ _ _ (ok_reliable a Ha) Hwin) as (Hrc & Hrs & Hrn & Hrl).
  destruct (ok_inbox a Ha) as [Hcap Hq].
  destruct (ok_unacked a Ha) as [Hus _].
  destruct (ok_reassembly a Ha) as (_ & _ & Hrp & Hrb & _).
  pose proof (ok_holdback a Ha) as Hhb. unfold holdback_ok in Hhb.
  change (PeerSnapshot.mtu (snapshot t a)) with (mtu a).
  destruct (Z.leb_spec 576 (mtu a)); [|lia].
  destruct (Z.leb_spec (mtu a) (maximum_mtu (budgets a))); [|lia]. cbn [andb negb].
  rewrite (ensure_budget_Ok "application queue entries") by (rewrite <- Hcap; exact Hq). cbn [mbind result_bind].
  change (PeerSnapshot.queued_payloads (snapshot t a)) with (queue (inbox a)).
  destruct (check_all _ _) as [[]|e| |]; try done.
  rewrite (ensure_budget_Ok "unacknowledged datagrams").
  2: { rewrite snapshot_unacked_perm, length_map, length_map_to_list. done. }
  rewrite snapshot_unacked_ok by done. rewrite snapshot_reassembly_ok by done.
  cbn [mbind result_bind fst snd].
  rewrite (ensure_budget_Ok "reassembly parts per peer") by done.
  rewrite (ensure_budget_Ok "reassembly bytes per peer") by done.
  rewrite (ensure_budget_Ok "ordered holdback entries").
  2: { rewrite snapshot_holdback_perm, length_map, length_map_to_list. done. }
  destruct (check_holdback _ _ _) as [[]|e| |]; try done.
  change (PeerSnapshot.seen_datagram_order (snapshot t a)) with (from_sequences (seen_datagram_order a)).
  change (PeerSnapshot.seen_reliable_order (snapshot t a)) with (from_sequences (seen_reliable_order a)).
  rewrite Hdc, Hrc. cbn [wire_result].
  cbn [mbind result_bind]. rewrite !ensure_budget_Ok by done. cbn [mbind result_bind]. rewrite Hds, Hrs, Hdn, Hrn, !Z.eqb_refl. cbn [negb].
  rewrite (snapshot_channels_ok _ _ _ (snapshot_expected_perm t a)).
  rewrite (snapshot_channels_ok _ _ _ (snapshot_latest_perm t a)).
  change (PeerSnapshot.timeout_remaining (snapshot t a))
    with (saturating_sub PEER_TIMEOUT (duration_since t (activity a))).
  destruct (Z.ltb_spec PEER_TIMEOUT (saturating_sub PEER_TIMEOUT (duration_since t (activity a))))
    as [Hlt|]; [|done].
  exfalso. unfold saturating_sub, duration_since, PEER_TIMEOUT, millis in Hlt. lia.
Qed.

(** ** Restoring lemmas *)

Lemma retransmit_delay_range n : millis 200 <= retransmit_delay n <= millis 1600.
Proof.
  unfold retransmit_delay, saturating_sub, RETRANSMIT_MAX_BACKOFF_SHIFT, RETRANSMIT_BASE_DELAY.
  set (s := Z.min _ _). assert (s = 0 \/ s = 1 \/ s = 2 \/ s = 3) as Hs by lia.
  clearbody s. repeat destruct Hs as [->|Hs]; [..|subst]; vm_compute; split; discriminate.
Qed.

(** Collecting the entries of a map, in any order, gives the map back. *)
Lemma collect_map_perm `{Countable K} {V} (l : list (K * V)) (m : gmap K V) :
  l ≡ₚ map_to_list m -> collect_map l = m.
Proof.
  intros Hl. unfold collect_map.
  assert (foldl (fun (m : gmap K V) kv => <[kv.1 := kv.2]> m) ∅ l = list_to_map (reverse l)) as ->.
  { clear. assert (forall acc : gmap K V, foldl (fun m kv => <[kv.1 := kv.2]> m) acc l =
      foldr (fun kv m => <[kv.1 := kv.2]> m) acc (reverse l)) as Hl; [|apply Hl].
    induction l as [|kv l IH]; intros acc; [done|].
    rewrite reverse_cons, foldr_snoc. apply IH. }
  rewrite <- (list_to_map_to_list m). symmetry. apply list_to_map_proper.
  - apply NoDup_fst_map_to_list.
  - by rewrite reverse_Permutation, Hl.
Qed.

(** What a checkpoint keeps of a timer is what is left of it. *)
Lemma instant_back_remaining env now elapsed :
  0 <= elapsed <= PEER_TIMEOUT -> instant_min env <= now - PEER_TIMEOUT ->
  duration_since now (instant_back env now elapsed) = elapsed.
Proof.
  intros He Hmin. unfold instant_back, instant_checked_sub, duration_since.
  destruct (Z.leb_spec (instant_min env) (now - elapsed)); cbn; lia.
Qed.

(** The transmission record the successor gives to a datagram checkpointed at [t]. *)
Definition restored_datagram (env : Env) (t restored_at : Z) (d : UnackedDatagram) :
    UnackedDatagram :=
  let delay := retransmit_delay (attempts d) in
  let remaining := saturating_sub delay (duration_since t (sent_at d)) in
  mkUnacked (ud_bytes d) (instant_back env restored_at (saturating_sub delay remaining))
    (attempts d).

Lemma restored_datagram_remaining env t restored_at d :
  instant_min env <= restored_at - PEER_TIMEOUT ->
  let d' := restored_datagram env t restored_at d in
  saturating_sub (retransmit_delay (attempts d')) (duration_since restored_at (sent_at d')) =
  saturating_sub (retransmit_delay (attempts d)) (duration_since t (sent_at d)).
Proof.
  intros Hmin. cbn. pose proof (retransmit_delay_range (attempts d)) as Hd.
  assert (millis 1600 < PEER_TIMEOUT) as Hpt by done.
  assert (0 < millis 200) as H0 by done.
  rewrite instant_back_remaining; [|unfold saturating_sub, duration_since in *; lia|done].
  unfold saturating_sub, duration_since. lia.
Qed.

Section Restore.
Context (env : Env) (t restored_at : Z) (a : PeerActor) (Ha : actor_ok a).

Lemma restored_unacked :
  collect_map (map (fun d =>
     (us_sequence d,
      mkUnacked (us_bytes d)
        (instant_back env restored_at
           (saturating_sub (retransmit_delay (us_attempts d)) (retransmit_remaining d)))
        (us_attempts d))) (PeerSnapshot.unacked_datagrams (snapshot t a)))
  = restored_datagram env t restored_at <$> unacked a.
Proof.
  apply collect_map_perm. rewrite snapshot_unacked_perm, map_to_list_fmap, map_map. done.
Qed.

Lemma restored_holdback :
  collect_map (map (fun h => ((os_channel h, os_sequence h), os_payload h))
     (PeerSnapshot.ordered_holdback (snapshot t a))) = ordered_holdback a.
Proof.
  apply collect_map_perm. rewrite snapshot_holdback_perm, map_map.
  erewrite map_ext; [by rewrite map_id|]. by intros [[c sq] p].
Qed.

Lemma restored_reassembly :
  collect_map (map (fun r => (rs_split_id r, mkReassembly (rs_parts r)))
     (PeerSnapshot.reassembly (snapshot t a))) = reassembly a.
Proof.
  apply collect_map_perm. rewrite snapshot_reassembly_perm, map_map.
  erewrite map_ext; [by rewrite map_id|]. by intros [id [ps]].
Qed.

(** The whole actor: everything but the two kinds of timer is what was checkpointed. *)
Lemma from_snapshot_eq inbox act ro :
  from_validated_snapshot env (snapshot t a) (mkIndexes (seen_datagrams a) (seen_reliable a))
    restored_at (budgets a) inbox act ro =
  mkPeerActor (remote_addr a) (mtu a) (budgets a) inbox act (accepted a) ro (next_datagram a)
    (next_reliable a) (next_ordered a) (next_split_id a) (last_datagram a) (seen_datagrams a)
    (seen_datagram_order a) (seen_reliable a) (seen_reliable_order a) (ordered_expected a)
    (sequenced_latest a) (ordered_holdback a) (reassembly a) (reassembly_bytes a)
    (reassembly_parts a) (restored_datagram env t restored_at <$> unacked a).
Proof.
  unfold from_validated_snapshot.
  rewrite restored_unacked, restored_holdback, restored_reassembly.
  rewrite (collect_map_perm _ _ (snapshot_expected_perm t a)).
  rewrite (collect_map_perm _ _ (snapshot_latest_perm t a)).
  destruct (snapshot_reassembly_sums t a Ha) as [-> ->].
  cbn [PeerSnapshot.seen_datagram_order PeerSnapshot.seen_reliable_order snapshot].
  by rewrite !sequences_from.
Qed.
End Restore.

(** ** Batches *)

Lemma collect_results_app {A B} (f : A -> result RakNetError B) l1 l2 :
  collect_results f (l1 ++ l2) =
    (r1 ← collect_results f l1; r2 ← collect_results f l2; Ok (r1 ++ r2)).
Proof.
  induction l1 as [|x l1 IH]; cbn [app collect_results].
  - cbn. by destruct (collect_results f l2).
  - destruct (f x); cbn; try done. rewrite IH.
    destruct (collect_results f l1); cbn; try done. by destruct (collect_results f l2).
Qed.

Lemma join_workers_collect {A B} (f : A -> result RakNetError B) ls :
  join_workers (map (collect_results f) ls) = collect_results f (mjoin ls).
Proof.
  induction ls as [|l ls IH]; [done|]. rewrite mjoin_cons, collect_results_app.
  cbn [map join_workers]. by rewrite IH.
Qed.

Lemma worker_chunk_size_pos p n : 0 < p -> 0 < n -> 0 < worker_chunk_size p n.
Proof.
  intros. unfold worker_chunk_size, div_ceil, SNAPSHOT_VALIDATION_WORKER_LIMIT.
  apply Z.div_str_pos. lia.
Qed.

(** ** What validation guarantees *)

Lemma ensure_budget_Ok_inv res req lim u : ensure_budget res req lim = Ok u -> req <= lim.
Proof. intros H. by destruct (ensure_budget_inv res req lim _ H) as [[_ ?]|[? _]]. Qed.

Lemma check_unacked_inv b l : forall seen,
  Forall (fun d => 0 <= us_attempts d) l -> check_unacked b seen l = Ok tt ->
  NoDup (map us_sequence l) /\ (forall d, d ∈ l -> us_sequence d ∉ seen) /\
  Forall (fun d => len (us_bytes d) <= max_datagram_bytes b /\
    1 <= us_attempts d <= MAX_RETRANSMIT_ATTEMPTS) l.
Proof.
  induction l as [|d l IH]; intros seen Hty; cbn [check_unacked].
  - intros _. split_and!; [constructor|set_solver|constructor].
  - apply Forall_cons in Hty as [Hd0 Hty]. case_test; [done|]. intros ([] & Hb%ensure_budget_Ok_inv & H)%result_bind_Ok.
    destruct (_ || _) eqn:E; [done|].
    apply orb_false_iff in E as [[_ E1%Z.eqb_neq]%orb_false_iff E2%Z.ltb_ge].
    apply IH in H as (Hnd & Hs & Hf); [|done]. split_and!.
    + cbn. constructor; [|done]. intros (d' & Hd' & Hin)%list_elem_of_fmap.
      specialize (Hs d' Hin). set_solver.
    + intros d' [->|Hin]%elem_of_cons; [done|]. specialize (Hs d' Hin). set_solver.
    + constructor; [lia|done].
Qed.

Lemma check_parts_inv b ps : forall bytes n,
  check_parts b bytes ps = Ok n -> Forall (part_ok b) ps /\ n = bytes + parts_bytes ps.
Proof.
  induction ps as [|[p|] ps IH]; intros bytes n; cbn [check_parts].
  - intros [= <-]. split; [constructor|]. cbn. lia.
  - intros ([] & Hp%check_payload_iff & H)%result_bind_Ok. unfold checked_add in H.
    case_test; [|done]. apply IH in H as [Hf ->]. split.
    + constructor; [|done]. by intros ? [= <-].
    + change (parts_bytes (Some p :: ps)) with (len p + parts_bytes ps). lia.
  - intros [Hf ->]%IH. split; [|done]. constructor; [|done]. by intros ? [=].
Qed.

Lemma check_reassembly_inv b l : forall ids np nb np' nb',
  check_reassembly b ids np nb l = Ok (np', nb') ->
  NoDup (map rs_split_id l) /\ (forall r, r ∈ l -> rs_split_id r ∉ ids) /\
  Forall (fun r => rs_parts r <> [] /\ Forall (part_ok b) (rs_parts r)) l /\
  np' = np + sum_Z (map (fun r => len (rs_parts r)) l) /\
  nb' = nb + sum_Z (map (fun r => parts_bytes (rs_parts r)) l).
Proof.
  induction l as [|r l IH]; intros ids np nb np' nb'; cbn [check_reassembly].
  - intros [= <- <-]. cbn. split_and!; [constructor|set_solver|constructor|lia|lia].
  - destruct (_ || _) eqn:E; [done|].
    apply orb_false_iff in E as [E1%bool_decide_eq_false E2%bool_decide_eq_false].
    unfold checked_add. case_test; [|done].
    intros (n & [Hp ->]%check_parts_inv & H0)%result_bind_Ok.
    apply IH in H0 as (Hnd & Hs & Hf & -> & ->).
    change (sum_Z (map ?f (r :: l))) with (f r + sum_Z (map f l)). split_and!.
    + cbn. constructor; [|done]. intros (d' & Hd' & Hin)%list_elem_of_fmap.
      specialize (Hs d' Hin). set_solver.
    + intros d' [->|Hin]%elem_of_cons; [done|]. specialize (Hs d' Hin). set_solver.
    + by constructor.
    + cbn. lia.
    + cbn. lia.
Qed.

Lemma check_holdback_inv b l : forall held,
  check_holdback b held l = Ok tt ->
  NoDup (map (fun h => (os_channel h, os_sequence h)) l) /\
  (forall h, h ∈ l -> (os_channel h, os_sequence h) ∉ held).
Proof.
  induction l as [|h l IH]; intros held; cbn [check_holdback].
  - intros _. split; [constructor|set_solver].
  - case_test; [done|]. intros ([] & _ & [Hnd Hs]%IH)%result_bind_Ok. split.
    + cbn. constructor; [|done]. intros (h' & Hh' & Hin)%list_elem_of_fmap.
      apply (Hs h' Hin), elem_of_union_l, elem_of_singleton. done.
    + intros h' [->|Hin]%elem_of_cons; [done|]. intros Hh'.
      by apply (Hs h' Hin), elem_of_union_r.
Qed.

(** A collected list with distinct keys is the map of its entries. *)
Lemma map_to_list_collect `{Countable K} {V} (l : list (K * V)) :
  NoDup l.*1 -> map_to_list (collect_map l) ≡ₚ l.
Proof.
  intros Hl. rewrite <- (map_to_list_to_map (M := gmap K) l Hl) at 2.
  rewrite <- (collect_map_perm l (list_to_map l)); [done|].
  by rewrite map_to_list_to_map.
Qed.

Lemma collect_map_size `{Countable K} {V} (l : list (K * V)) :
  NoDup l.*1 -> size (collect_map l) = length l.
Proof. intros Hl. by rewrite <- length_map_to_list, map_to_list_collect. Qed.

Lemma collect_map_Forall `{Countable K} {V} (P : K -> V -> Prop) (l : list (K * V)) :
  NoDup l.*1 -> Forall (fun kv => P (fst kv) (snd kv)) l -> map_Forall P (collect_map l).
Proof.
  intros Hl HP. apply map_Forall_to_list. rewrite map_to_list_collect by done.
  eapply Forall_impl; [exact HP|]. by intros [k v].
Qed.

Lemma collect_map_sum `{Countable K} {V} (f : V -> Z) (l : list (K * V)) :
  NoDup l.*1 -> map_sum f (collect_map l) = sum_Z (map (fun kv => f (snd kv)) l).
Proof. intros Hl. unfold map_sum. by rewrite map_to_list_collect. Qed.

Lemma size_list_to_set_cons `{Countable A} (x : A) l :
  size (list_to_set (x :: l) : gset A) =
    ((if decide (x ∈ l) then 0 else 1) + size (list_to_set l : gset A))%nat.
Proof.
  cbn [list_to_set foldr]. case_decide.
  - cbn [Nat.add]. f_equal.
    by apply subseteq_union_1_L, singleton_subseteq_l, elem_of_list_to_set.
  - rewrite size_union; [by rewrite size_singleton|].
    by apply disjoint_singleton_l; rewrite elem_of_list_to_set.
Qed.

Lemma size_list_to_set_le `{Countable A} (l : list A) : (size (list_to_set l : gset A) <= length l)%nat.
Proof.
  induction l as [|x l IH]; [by cbn; rewrite size_empty|].
  rewrite size_list_to_set_cons. cbn [length]. case_decide; lia.
Qed.

Lemma NoDup_list_to_set_size `{Countable A} (l : list A) :
  size (list_to_set l : gset A) = length l -> NoDup l.
Proof.
  induction l as [|x l IH]; [constructor|]. rewrite size_list_to_set_cons. cbn [length].
  pose proof (size_list_to_set_le l). case_decide; [lia|]. intros ?. constructor; [done|].
  apply IH. lia.
Qed.

Lemma sequence_count_inv {d} (h : SequenceHistory d) n :
  Forall (fun run => 0 <= run_count (run_length run)) (runs h) ->
  sequence_count h = Ok n -> n = len (sequences h).
Proof.
  intros Hr. rewrite length_sequences by done. unfold sequence_count.
  rewrite try_fold_count_sum by by apply Forall_map. case_decide; [|done]. intros [= <-]. lia.
Qed.

Lemma window_ok_history {d} limit (h : SequenceHistory d) n (seen : gset (Sequence d)) :
  n = len (sequences h) -> n <= limit ->
  seen = list_to_set (sequences h) -> Z.of_nat (size seen) = n ->
  window_ok limit (sequences h) seen.
Proof.
  intros -> Hn -> Hsize. split_and!; [done| |lia].
  apply NoDup_list_to_set_size. lia.
Qed.

(** What the types of a checkpoint guarantee: a [u16] attempt count and runs of a
    positive length. *)
Definition runs_typed {d} (h : SequenceHistory d) : Prop :=
  Forall (fun run => 0 <= run_count (run_length run)) (runs h).
Definition snapshot_typed (s : PeerSnapshot) : Prop :=
  Forall (fun d => 0 <= us_attempts d) (PeerSnapshot.unacked_datagrams s) /\
  runs_typed (PeerSnapshot.seen_datagram_order s) /\
  runs_typed (PeerSnapshot.seen_reliable_order s).

Lemma wire_result_Ok_inv {A} (r : result string A) x : wire_result r = Ok x -> r = Ok x.
Proof. by destruct r; intros [= ->]. Qed.

Lemma validate_structure_inv s b ix :
  snapshot_typed s -> validate_structure s b = Ok ix ->
  (len (PeerSnapshot.queued_payloads s) <= application_queue b) /\
  (len (PeerSnapshot.unacked_datagrams s) <= max_unacked_datagrams b /\
   check_unacked b ∅ (PeerSnapshot.unacked_datagrams s) = Ok tt) /\
  (exists np nb, check_reassembly b ∅ 0 0 (PeerSnapshot.reassembly s) = Ok (np, nb) /\
     np <= max_reassembly_parts_per_peer b /\ nb <= max_reassembly_bytes_per_peer b) /\
  (len (PeerSnapshot.ordered_holdback s) <= max_ordered_holdback b /\
   check_holdback b ∅ (PeerSnapshot.ordered_holdback s) = Ok tt) /\
  window_ok (duplicate_window_limit b) (sequences (PeerSnapshot.seen_datagram_order s)) (ix_datagrams ix) /\
  window_ok (duplicate_window_limit b) (sequences (PeerSnapshot.seen_reliable_order s)) (ix_reliable ix).
Proof.
  intros (_ & Hdt & Hrt) H. unfold validate_structure in H.
  destruct (negb _) in H; [done|].
  apply result_bind_Ok in H as ([] & Hq%ensure_budget_Ok_inv & H).
  apply result_bind_Ok in H as ([] & _ & H).
  apply result_bind_Ok in H as ([] & Hu%ensure_budget_Ok_inv & H).
  apply result_bind_Ok in H as ([] & Hcu & H).
  apply result_bind_Ok in H as ([np nb] & Hcr & H).
  apply result_bind_Ok in H as ([] & Hnp%ensure_budget_Ok_inv & H).
  apply result_bind_Ok in H as ([] & Hnb%ensure_budget_Ok_inv & H).
  apply result_bind_Ok in H as ([] & Hh%ensure_budget_Ok_inv & H).
  apply result_bind_Ok in H as ([] & Hch & H).
  apply result_bind_Ok in H as (dn & Hdn%wire_result_Ok_inv%(sequence_count_inv _ _ Hdt) & H).
  apply result_bind_Ok in H as (rn & Hrn%wire_result_Ok_inv%(sequence_count_inv _ _ Hrt) & H).
  apply result_bind_Ok in H as ([] & Hdl%ensure_budget_Ok_inv & H).
  apply result_bind_Ok in H as ([] & Hrl%ensure_budget_Ok_inv & H).
  destruct (Z.eqb_spec (Z.of_nat (size (list_to_set (sequences
    (PeerSnapshot.seen_datagram_order s)) : gset DatagramSequence))) dn) as [Hds|]; [|done].
  destruct (Z.eqb_spec (Z.of_nat (size (list_to_set (sequences
    (PeerSnapshot.seen_reliable_order s)) : gset ReliableSequence))) rn) as [Hrs|]; [|done].
  apply result_bind_Ok in H as ([] & _ & H). apply result_bind_Ok in H as ([] & _ & H).
  case_test; [done|]. injection H as <-.
  split_and!; try done.
  - by exists np, nb.
  - by apply (window_ok_history _ _ dn).
  - by apply (window_ok_history _ _ rn).
Qed.

(** The maps rebuilt from an admitted checkpoint. *)
Section Admission.
Context (s : PeerSnapshot) (b : RakNetBudgets) (Hty : snapshot_typed s).

Lemma admitted_unacked (stamp : UnackedDatagramSnapshot -> Z) :
  len (PeerSnapshot.unacked_datagrams s) <= max_unacked_datagrams b ->
  check_unacked b ∅ (PeerSnapshot.unacked_datagrams s) = Ok tt ->
  let m := collect_map (map (fun d => (us_sequence d, mkUnacked (us_bytes d) (stamp d) (us_attempts d)))
    (PeerSnapshot.unacked_datagrams s)) in
  Z.of_nat (size m) <= max_unacked_datagrams b /\
  map_Forall (fun _ d => len (ud_bytes d) <= max_datagram_bytes b /\
    1 <= attempts d <= MAX_RETRANSMIT_ATTEMPTS) m.
Proof.
  intros Hlen (Hnd & _ & Hf)%check_unacked_inv; [|apply Hty]. cbn zeta.
  assert (NoDup (map (fun d => (us_sequence d, mkUnacked (us_bytes d) (stamp d) (us_attempts d)))
    (PeerSnapshot.unacked_datagrams s)).*1) as Hnd' by (rewrite <- list_fmap_compose; exact Hnd).
  rewrite collect_map_size, length_map by done. split; [done|].
  apply collect_map_Forall; [done|]. by apply Forall_map.
Qed.

Lemma admitted_reassembly np nb :
  check_reassembly b ∅ 0 0 (PeerSnapshot.reassembly s) = Ok (np, nb) ->
  let m := collect_map (map (fun r => (rs_split_id r, mkReassembly (rs_parts r)))
    (PeerSnapshot.reassembly s)) in
  np = map_sum entry_parts m /\ nb = map_sum entry_bytes m /\
  map_Forall (fun _ r => parts r <> [] /\ Forall (part_ok b) (parts r)) m.
Proof.
  intros (Hnd & _ & Hf & -> & ->)%check_reassembly_inv. cbn zeta.
  assert (NoDup (map (fun r => (rs_split_id r, mkReassembly (rs_parts r)))
    (PeerSnapshot.reassembly s)).*1) as Hnd' by (rewrite <- list_fmap_compose; exact Hnd).
  rewrite !collect_map_sum, !map_map by done. split_and!; [done|done|].
  apply collect_map_Forall; [done|]. by apply Forall_map.
Qed.

Lemma admitted_holdback :
  check_holdback b ∅ (PeerSnapshot.ordered_holdback s) = Ok tt ->
  size (collect_map (map (fun h => ((os_channel h, os_sequence h), os_payload h))
    (PeerSnapshot.ordered_holdback s))) = length (PeerSnapshot.ordered_holdback s).
Proof.
  intros [Hnd _]%check_holdback_inv.
  rewrite collect_map_size, length_map; [done|]. rewrite <- list_fmap_compose. exact Hnd.
Qed.
End Admission.

(** Whatever checkpoint is admitted, the actor made from it is well formed. *)
Lemma restored_actor_ok env now s b v :
  budgets_ok b -> snapshot_typed s -> into_validated s b = Ok v ->
  actor_ok (fst (prepare_peer_snapshot env now v b)) /\
  budgets (fst (prepare_peer_snapshot env now v b)) = b.
Proof.
  intros Hb Hty (ix & Hv & [= <-])%result_bind_Ok. split; [|done].
  apply validate_structure_inv in Hv
    as (Hq & [Hul Hu] & (np & nb & Hr & Hnp & Hnb) & [Hhl Hh] & Hwd & Hwr); [|done].
  unfold prepare_peer_snapshot, from_validated_snapshot. cbn [fst checkpoint duplicate_indexes].
  destruct (admitted_reassembly s b np nb Hr) as (Hsp & Hsb & Hrf).
  assert (sum_Z (map (fun r => len (rs_parts r)) (PeerSnapshot.reassembly s)) = np /\
          sum_Z (map (fun r => parts_bytes (rs_parts r)) (PeerSnapshot.reassembly s)) = nb)
    as [Hs1 Hs2] by (apply check_reassembly_inv in Hr as (_ & _ & _ & -> & ->); lia).
  constructor; cbn [budgets seen_datagram_order seen_datagrams seen_reliable_order seen_reliable];
    try done.
  - unfold reassembly_ok. cbn. rewrite Hs1, Hs2. split_and!; try done; lia.
  - unfold holdback_ok. cbn. by rewrite admitted_holdback with (b := b).
  - exact (admitted_unacked s b Hty _ Hul Hu).
Qed.

(** ** Properties *)

(** A live peer's checkpoint passes its own budgets exactly when every payload
    that waits for delivery (queued for the application or held back for order) is
    within the payload budget; it is then indexed by the peer's own duplicate
    windows.  Every other check is implied by the peer's invariant. *)
Theorem snapshot_admission t a :
  actor_ok a -> 576 <= mtu a <= maximum_mtu (budgets a) ->
  into_validated (snapshot t a) (budgets a) =
    Ok (mkValidated (snapshot t a) (mkIndexes (seen_datagrams a) (seen_reliable a)) (budgets a))
  <-> Forall (payload_fits (budgets a)) (queue (inbox a)) /\
      map_Forall (fun _ p => payload_fits (budgets a) p) (ordered_holdback a).
Proof.
  intros Ha Hmtu. unfold into_validated. rewrite validate_snapshot by done.
  rewrite <- (snapshot_holdback_iff t a Ha).
  assert (check_all (check_payload (budgets a)) (queue (inbox a)) = Ok tt <->
    Forall (payload_fits (budgets a)) (queue (inbox a))) as Hq.
  { rewrite check_all_iff. apply Forall_iff. intros p. apply check_payload_iff. }
  rewrite <- Hq. split.
  - intros H. destruct (check_all _ _) as [[]|?| |]; [|discriminate H..].
    split; [done|]. destruct (check_holdback _ _ _) as [[]|?| |]; [done|discriminate H..].
  - intros [-> ->]. done.
Qed.

(** A peer with a payload queued and a datagram in flight. *)
Definition sample_env : Env :=
  mkEnv (fun n => millis (Z.of_nat n)) (fun _ => 0) (fun _ => true) (fun _ => true) id
    (- millis 1000000) (millis 1000000000).

Definition sample_peer : PeerActor :=
  set_unacked {[new 0 := mkUnacked [Z_byte 0x84] (millis 5) 2]}
    (actor_new (V4 (map Z_byte [10; 0; 0; 1]) 19132) 1400 default_budgets
       (mkInbox [[Z_byte 1; Z_byte 2]] false 256) (millis 3) true).

Lemma sample_peer_ok : actor_ok sample_peer.
Proof.
  assert (actor_ok (actor_new (V4 (map Z_byte [10; 0; 0; 1]) 19132) 1400 default_budgets
       (mkInbox [[Z_byte 1; Z_byte 2]] false 256) (millis 3) true)) as H
    by (apply ok_actor_new; [unfold budgets_ok; vm_compute; intuition discriminate|done|done]).
  destruct H as [? ? ? ? ? Hu ?]. constructor; try done.
  apply unacked_ok_insert; [done|vm_compute; discriminate|vm_compute; intuition discriminate|].
  right. vm_compute. discriminate.
Qed.

Lemma snapshot_admission_witness :
  into_validated (snapshot (millis 9) sample_peer) default_budgets =
    Ok (mkValidated (snapshot (millis 9) sample_peer) (mkIndexes ∅ ∅) default_budgets).
Proof.
  apply (snapshot_admission (millis 9) sample_peer); [exact sample_peer_ok|vm_compute; intuition discriminate|].
  split; [|apply map_Forall_empty]. constructor; [vm_compute; discriminate|constructor].
Defined.

(** Handing a peer over loses nothing.  Importing its checkpoint at any later
    instant gives an actor that satisfies the invariant, is the original in every
    field but the two kinds of timer, and whose own checkpoint, taken at that
    instant, is the one it was made from: idle and retransmission timers stood still
    in between. *)
Theorem restore_roundtrip env t restored_at a :
  actor_ok a -> closed (inbox a) = false -> router_owned a = true ->
  instant_min env <= restored_at - PEER_TIMEOUT ->
  let v := mkValidated (snapshot t a) (mkIndexes (seen_datagrams a) (seen_reliable a)) (budgets a) in
  let '(a', imported) := prepare_peer_snapshot env restored_at v (budgets a) in
  imported = accepted a /\ actor_ok a' /\
  a' = set_activity (activity a') (set_unacked (restored_datagram env t restored_at <$> unacked a) a) /\
  snapshot restored_at a' = snapshot t a.
Proof.
  intros Ha Hopen Hro Hmin. unfold prepare_peer_snapshot. cbn [checkpoint duplicate_indexes].
  rewrite from_snapshot_eq by done. pose proof Ha as [Hb Hd Hr [Hp Hrest] Hh [Hs Hm] [Hcap Hq]].
  rewrite <- Hcap.
  change (PeerSnapshot.queued_payloads (snapshot t a)) with (queue (inbox a)).
  replace (mkInbox (queue (inbox a)) false (capacity (inbox a))) with (inbox a)
    by (rewrite <- Hopen; by destruct (inbox a)).
  split_and!; [done| | |].
  - constructor; try done. split; cbn; [by rewrite map_size_fmap|].
    intros sq d Hsq. rewrite lookup_fmap in Hsq. apply fmap_Some in Hsq as (d' & Hd' & ->).
    exact (Hm _ _ Hd').
  - unfold set_activity, set_unacked. cbn. by rewrite Hro.
  - unfold snapshot. cbn. rewrite map_to_list_fmap, map_map. f_equal.
    + f_equal. apply map_ext. intros [sq d]. cbn [fst snd prod_map].
      f_equal. by apply (restored_datagram_remaining env t restored_at d).
    + rewrite instant_back_remaining; [|unfold saturating_sub, duration_since, PEER_TIMEOUT, millis; lia|done].
      unfold saturating_sub, duration_since, PEER_TIMEOUT, millis. lia.
Qed.

Lemma restore_roundtrip_witness :
  let v := mkValidated (snapshot (millis 9) sample_peer) (mkIndexes ∅ ∅) default_budgets in
  snapshot (millis 70) (fst (prepare_peer_snapshot sample_env (millis 70) v default_budgets))
    = snapshot (millis 9) sample_peer.
Proof.
  pose proof (restore_roundtrip sample_env (millis 9) (millis 70) sample_peer sample_peer_ok
    eq_refl eq_refl ltac:(vm_compute; discriminate)) as H.
  apply H.
Defined.

(** Batch validation is deterministic: whatever parallelism the machine reports,
    the chunks handed to the workers and joined in order give exactly the result of
    validating the checkpoints one after the other, first error included. *)
Theorem validate_batch_sequential parallelism snapshots budgets :
  0 < parallelism ->
  validate_peer_snapshots parallelism snapshots budgets =
    collect_results (fun s => into_validated s budgets) snapshots.
Proof.
  intros Hp. unfold validate_peer_snapshots. destruct snapshots as [|s l]; [done|].
  rewrite join_workers_collect, concat_chunks; [done|].
  pose proof (worker_chunk_size_pos parallelism (len (s :: l)) Hp ltac:(cbn; lia)). lia.
Qed.

Lemma validate_batch_sequential_witness :
  validate_peer_snapshots 4 (replicate 5 (snapshot (millis 9) sample_peer)) default_budgets =
    collect_results (fun s => into_validated s default_budgets)
      (replicate 5 (snapshot (millis 9) sample_peer)).
Proof. apply validate_batch_sequential. lia. Defined.

(** A peer that reads 8-byte payloads and may assemble 64 bytes. *)
Definition small_budgets : RakNetBudgets := mkBudgets 4 4 4 4 2048 8 64 8 4 16.

Definition split_frame (index : Z) (chunk : list Z) : Frame :=
  mkFrame ReliableOrdered (Some (new index)) None (Some (new 0)) 0
    (Some (mkSplit 2 7 index)) (map Z_byte chunk).

(** A finding.  The payload budget is checked per fragment and never on the
    assembled payload, but the checkpoint's validation checks it on what is queued: a
    well-formed peer that received two admissible fragments holds a payload that its
    own budgets refuse, so that the peer cannot be transferred. *)
Theorem reassembled_payload_blocks_transfer :
  let peer := set_accepted true (actor_new (V4 (map Z_byte [10; 0; 0; 1]) 19132) 1400
    small_budgets (inbox_new 4) 0 true) in
  let run := for_each (receive_datagram sample_env)
    [encode_datagram (new 0) (split_frame 0 [1; 2; 3; 4; 5]);
     encode_datagram (new 1) (split_frame 1 [6; 7; 8; 9; 10])]
    (mkWorld peer (mkIO 0 [] [])) in
  actor_ok peer /\ snd run = Ok tt /\
  queue (inbox (actor (fst run))) = [map Z_byte [1; 2; 3; 4; 5; 6; 7; 8; 9; 10]] /\
  into_validated (snapshot 0 (actor (fst run))) small_budgets =
    Err (Budget (mkBudgetExceeded "application payload bytes" 10 8)).
Proof.
  split; [|vm_compute; done].
  assert (actor_ok (actor_new (V4 (map Z_byte [10; 0; 0; 1]) 19132) 1400
    small_budgets (inbox_new 4) 0 true)) as [? ? ? ? ? ? ?]
    by (apply ok_actor_new; [unfold budgets_ok; vm_compute; intuition discriminate|done|done]).
  by constructor.
Qed.
