(* ===== verification/RaknetLoop.v ===== *)
(** * The task of a RakNet peer ([crates/network/revy-raknet/src/peer.rs])

    The loop that owns one peer ([PeerActor::run_with_state], [apply_command]), the
    two bounded channels that feed it, the handles outside it ([PeerControl],
    [RakNetPeer]) and the ways it starts ([spawn_peer], [PreparedPeerSpawn::spawn]).
    One iteration of the loop is the function [turn]; the handles of other tasks act
    between turns, so that a run is a sequence of [step]s. *)

From S2P Require Import Prelude Bytes RaknetSequence RaknetBudget RaknetWire RaknetPeer RaknetPeerInv RaknetTransfer.

(** ** State *)

(** [reply] names the one-shot channel that waits for the answer. *)
Inductive PeerCommand : Type :=
| Send (payload : list byte) (reply : Z)
| Freeze (reply : Z)
| SealTransfer (reply : Z)
| Resume
| Transfer (reply : Z).

Inductive Reply : Type :=
| SendReply (r : result RakNetError unit)
| Done
| Sealed (s : PeerSnapshot).

Inductive PeerExecution : Type := Running | Frozen (since : Z).

(** [Crashed]: a handler panicked. *)
Inductive Status : Type := Alive | Finished | Crashed.
#[export] Instance Status_eq_dec : EqDecision Status.
Proof. solve_decision. Defined.

Record Task : Type := mkTask {
  world : World;
  execution : PeerExecution;
  deferred : list PeerCommand;
  commands : list PeerCommand;
  commands_closed : bool;
  ingress : list (list byte);
  ingress_closed : bool;
  replies : list (Z * Reply);
  status : Status
}.

Definition peer (t : Task) : PeerActor := actor (world t).

Definition set_world (w : World) (t : Task) : Task :=
  mkTask w (execution t) (deferred t) (commands t) (commands_closed t) (ingress t)
    (ingress_closed t) (replies t) (status t).
Definition set_execution (e : PeerExecution) (t : Task) : Task :=
  mkTask (world t) e (deferred t) (commands t) (commands_closed t) (ingress t)
    (ingress_closed t) (replies t) (status t).
Definition set_deferred (d : list PeerCommand) (t : Task) : Task :=
  mkTask (world t) (execution t) d (commands t) (commands_closed t) (ingress t)
    (ingress_closed t) (replies t) (status t).
Definition set_commands (c : list PeerCommand) (t : Task) : Task :=
  mkTask (world t) (execution t) (deferred t) c (commands_closed t) (ingress t)
    (ingress_closed t) (replies t) (status t).
Definition set_ingress (i : list (list byte)) (t : Task) : Task :=
  mkTask (world t) (execution t) (deferred t) (commands t) (commands_closed t) i
    (ingress_closed t) (replies t) (status t).
Definition set_status (s : Status) (t : Task) : Task :=
  mkTask (world t) (execution t) (deferred t) (commands t) (commands_closed t) (ingress t)
    (ingress_closed t) (replies t) s.
Definition close_channels (t : Task) : Task :=
  mkTask (world t) (execution t) (deferred t) (commands t) true (ingress t) true (replies t)
    (status t).
(** [let _ = reply_tx.send(..)] *)
Definition reply_to (id : Z) (r : Reply) (t : Task) : Task :=
  mkTask (world t) (execution t) (deferred t) (commands t) (commands_closed t) (ingress t)
    (ingress_closed t) (replies t ++ [(id, r)]) (status t).
Definition map_peer (f : PeerActor -> PeerActor) (t : Task) : Task :=
  set_world (mkWorld (f (peer t)) (io (world t))) t.

(** Leaving the loop: [self.inbox.close()]. *)
Definition stop (t : Task) : Task :=
  set_status Finished (map_peer (fun a => set_inbox (inbox_close (inbox a)) a) t).

Section Loop.
Context (env : Env).

(** [Instant::now()] *)
Definition read_clock (t : Task) : Z * Task :=
  let n := ticks (io (world t)) in
  (clock env n,
   set_world (mkWorld (peer t) (mkIO (S n) (sent (io (world t))) (accepted_peers (io (world t))))) t).

(** [if let Err(error) = handler.await { break; }] *)
Definition run_handler (handler : Act unit) (t : Task) : Task :=
  let '(w, r) := handler (world t) in
  let t := set_world w t in
  match r with
  | Ok _ => t
  | Err _ => stop t
  | Panic | OutOfFuel => set_status Crashed t
  end.

(** [apply_command], and the [break] when it returns [true]. *)
Definition apply_command (command : PeerCommand) (t : Task) : Task :=
  match command with
  | Send payload id =>
      let '(w, r) := send_application env payload (world t) in
      let t := set_world w t in
      match r with
      | Ok _ => reply_to id (SendReply r) t
      | Err _ => stop (reply_to id (SendReply r) t)
      | Panic | OutOfFuel => set_status Crashed t
      end
  | Freeze id =>
      let '(since, t) := read_clock t in
      reply_to id Done (set_execution (Frozen since) t)
  | SealTransfer id =>
      let '(at_, t) := read_clock t in
      reply_to id (Sealed (snapshot at_ (peer t))) t
  | Resume => t
  | Transfer id => stop (reply_to id Done t)
  end.

(** The commands of the frozen branch of the loop. *)
Definition frozen_command (since : Z) (command : PeerCommand) (t : Task) : Task :=
  match command with
  | Freeze id => reply_to id Done t
  | SealTransfer id => reply_to id (Sealed (snapshot since (peer t))) t
  | Resume =>
      let '(resumed_at, t) := read_clock t in
      set_execution Running (map_peer (resume_timers env since resumed_at) t)
  | Transfer id => stop (reply_to id Done t)
  | Send payload id =>
      if len (deferred t) <? peer_command_queue (budgets (peer t))
      then set_deferred (deferred t ++ [command]) t
      else reply_to id (SendReply (Err QueueFull)) t
  end.

(** The timer branch: it fires when the deadline is reached. *)
Definition poll_timer (t : Task) : Task :=
  let fallback := clock env (ticks (io (world t))) in
  let deadline := next_timer_deadline env fallback (peer t) in
  let '(now, t) := read_clock t in
  if deadline <=? now then run_handler (on_timer env) t else t.

(** One iteration; a task that has to wait is left as it is. *)
Definition turn (t : Task) : Task :=
  match status t with
  | Finished | Crashed => t
  | Alive =>
      match execution t with
      | Frozen since =>
          match commands t with
          | [] => if commands_closed t then stop t else t
          | command :: rest => frozen_command since command (set_commands rest t)
          end
      | Running =>
          match deferred t with
          | command :: rest => apply_command command (set_deferred rest t)
          | [] =>
              match commands t with
              | command :: rest => apply_command command (set_commands rest t)
              | [] =>
                  if commands_closed t then stop t
                  else
                    match ingress t with
                    | bytes :: rest => run_handler (receive_datagram env bytes) (set_ingress rest t)
                    | [] => if ingress_closed t then stop t else poll_timer t
                    end
              end
          end
      end
  end.

(** ** The handles *)

(** [PeerControl::deliver] *)
Definition deliver (bytes : list byte) (t : Task) : Task * result RakNetError unit :=
  if bool_decide (status t <> Alive) || ingress_closed t then (t, Err Closed)
  else if len (ingress t) <? peer_ingress_queue (budgets (peer t)) then
    let '(at_, t) := read_clock (set_ingress (ingress t ++ [bytes]) t) in
    (map_peer (fun a => set_activity (activity_observe at_ (activity a)) a) t, Ok tt)
  else (t, Err QueueFull).

(** [command_tx.try_send(command)]; the awaited [send] of the other handles is the
    same once there is room. *)
Definition try_send (command : PeerCommand) (t : Task) : Task * result RakNetError unit :=
  if bool_decide (status t <> Alive) || commands_closed t then (t, Err Closed)
  else if len (commands t) <? peer_command_queue (budgets (peer t))
  then (set_commands (commands t ++ [command]) t, Ok tt)
  else (t, Err QueueFull).

(** [resume_control] *)
Definition resume_control : Task -> Task * result RakNetError unit := try_send Resume.

(** One poll of [recv_raw]. *)
Definition recv_raw (t : Task) : Task * option (result RakNetError (list byte)) :=
  let '(i, r) := inbox_receive (inbox (peer t)) in
  (map_peer (set_inbox i) t, r).

(** [claim_session_authority] *)
Definition claim_session_authority (t : Task) : Task :=
  map_peer (fun a => mkPeerActor (remote_addr a) (mtu a) (budgets a) (inbox a) (activity a)
    (accepted a) false (next_datagram a) (next_reliable a) (next_ordered a) (next_split_id a)
    (last_datagram a) (seen_datagrams a) (seen_datagram_order a) (seen_reliable a)
    (seen_reliable_order a) (ordered_expected a) (sequenced_latest a) (ordered_holdback a)
    (reassembly a) (reassembly_bytes a) (reassembly_parts a) (unacked a)) t.

(** ** Starting *)

Definition start (a : PeerActor) (i : IO) (e : PeerExecution) : Task :=
  mkTask (mkWorld a i) e [] [] false [] false [] Alive.

(** [mpsc::channel(capacity)], for the ingress and for the commands, panics on a capacity of zero and
    on one beyond [Semaphore::MAX_PERMITS]. *)
Definition channel_fits (capacity : Z) : bool := (0 <? capacity) && (capacity <=? Z.shiftr usize_max 3).
Definition open_channels (budgets : RakNetBudgets) : result RakNetError unit :=
  if channel_fits (peer_ingress_queue budgets) && channel_fits (peer_command_queue budgets) then Ok tt else Panic.
(** The task of [spawn_peer] at instant [created], and [spawn_peer]. *)
Definition start_new (remote : SocketAddr) (mtu : Z) (budgets : RakNetBudgets) (created : Z)
    (i : IO) : Task :=
  start (actor_new remote mtu budgets (inbox_new (application_queue budgets)) created true) i Running.
Definition spawn_peer (remote : SocketAddr) (mtu : Z) (budgets : RakNetBudgets) (created : Z)
    (i : IO) : result RakNetError Task :=
  _ ← open_channels budgets; Ok (start_new remote mtu budgets created i).

(** [prepare_peer_snapshot] at instant [now], then [PreparedPeerSpawn::spawn]. *)
Definition start_imported (now : Z) (v : ValidatedPeerSnapshot) (budgets : RakNetBudgets)
    (i : IO) : Task :=
  start (fst (prepare_peer_snapshot env now v budgets)) i (Frozen now).
Definition spawn_imported (now : Z) (v : ValidatedPeerSnapshot) (budgets : RakNetBudgets)
    (i : IO) : result RakNetError Task :=
  _ ← open_channels budgets; Ok (start_imported now v budgets i).

(** ** Runs *)

Inductive step : Task -> Task -> Prop :=
| step_turn t : step t (turn t)
| step_deliver bytes t : step t (fst (deliver bytes t))
| step_command command t : step t (fst (try_send command t))
| step_receive t : step t (fst (recv_raw t))
| step_claim t : step t (claim_session_authority t)
| step_close t : step t (close_channels t).

Definition run_turns (n : nat) (t : Task) : Task := Nat.iter n turn t.
End Loop.

(** ** The invariant *)

Definition is_send (c : PeerCommand) : bool := match c with Send _ _ => true | _ => false end.

Record task_ok (b : RakNetBudgets) (t : Task) : Prop := mkTaskOk {
  tk_peer : ok_with b (peer t);
  tk_status : status t <> Crashed;
  tk_sends : Forall (fun c => is_send c = true) (deferred t);
  tk_deferred : len (deferred t) <= peer_command_queue b;
  tk_commands : len (commands t) <= peer_command_queue b;
  tk_ingress : len (ingress t) <= peer_ingress_queue b
}.

(** Changing the inbox within its capacity, or the activity, keeps a peer good. *)
Lemma ok_with_set_inbox b a i :
  ok_with b a -> capacity i = capacity (inbox a) -> len (queue i) <= len (queue (inbox a)) ->
  ok_with b (set_inbox i a).
Proof.
  intros [[? ? ? ? ? ? [Hc Hq]] Hb] Hi Hl. split; [|done]. constructor; try done.
  split; cbn; [by rewrite Hi|lia].
Qed.

Lemma ok_with_set_activity b a v : ok_with b a -> ok_with b (set_activity v a).
Proof. intros [[? ? ? ? ? ? ?] Hb]. split; [by constructor|done]. Qed.

Lemma ok_with_inbox_close b a : ok_with b a -> ok_with b (set_inbox (inbox_close (inbox a)) a).
Proof. intros Ha. by apply ok_with_set_inbox. Qed.

Lemma task_ok_world b w t : task_ok b t -> ok_with b (actor w) -> task_ok b (set_world w t).
Proof. intros [? ? ? ? ? ?] Hw. by constructor. Qed.

Lemma task_ok_stop b t : task_ok b t -> task_ok b (stop t).
Proof. intros [Hp ? ? ? ? ?]. constructor; try done. by apply ok_with_inbox_close. Qed.

Lemma task_ok_reply b id r t : task_ok b t -> task_ok b (reply_to id r t).
Proof. intros [? ? ? ? ? ?]. by constructor. Qed.

Lemma task_ok_execution b e t : task_ok b t -> task_ok b (set_execution e t).
Proof. intros [? ? ? ? ? ?]. by constructor. Qed.

Lemma task_ok_clock b env t : task_ok b t -> task_ok b (snd (read_clock env t)).
Proof. intros H. apply task_ok_world; [done|]. apply H. Qed.

#[export] Hint Resolve task_ok_stop task_ok_reply task_ok_execution task_ok_clock : hoare.

Lemma task_ok_handler b handler t :
  wp handler (fun _ => ok_with b) (ok_with b) (peer t) -> task_ok b t ->
  task_ok b (run_handler handler t).
Proof.
  intros Hw Ht. unfold run_handler. specialize (Hw (io (world t))).
  replace (mkWorld (peer t) (io (world t))) with (world t) in Hw
    by (unfold peer; by destruct (world t)).
  destruct (handler (world t)) as [w [x|e| |]]; try done.
  - by apply task_ok_world.
  - by apply task_ok_stop, task_ok_world.
Qed.

Section Steps.
Context (env : Env) (b : RakNetBudgets).

Lemma task_ok_apply_command c t : task_ok b t -> task_ok b (apply_command env c t).
Proof.
  intros Ht. destruct c as [payload id|id|id| |id]; cbn [apply_command]; auto with hoare.
  - pose proof (wp_send_application env b payload (peer t) (tk_peer b t Ht) (io (world t))) as Hw.
    replace (mkWorld (peer t) (io (world t))) with (world t) in Hw
      by (unfold peer; by destruct (world t)).
    destruct (send_application env payload (world t)) as [w [x|e| |]]; try done;
      auto using task_ok_world with hoare.
  - by apply task_ok_reply, task_ok_execution, (task_ok_clock b env).
  - by apply task_ok_reply, (task_ok_clock b env).
Qed.

Lemma task_ok_frozen_command since c t : task_ok b t -> task_ok b (frozen_command env since c t).
Proof.
  intros Ht. destruct c as [payload id|id|id| |id]; cbn [frozen_command]; auto with hoare.
  - case_test; [|by apply task_ok_reply]. destruct Ht as [[Hp Hb] ? ? ? ? ?]. rewrite Hb in *.
    constructor; try done; cbn.
    + apply Forall_app_2; [done|]. by repeat constructor.
    + rewrite length_app. cbn. lia.
  - apply task_ok_execution, task_ok_world; [by apply (task_ok_clock b env)|].
    apply ok_resume_timers. apply Ht.
Qed.

Lemma task_ok_pop_deferred c rest t :
  deferred t = c :: rest -> task_ok b t -> task_ok b (set_deferred rest t).
Proof.
  intros Hd [? ? Hs Hl ? ?]. rewrite Hd in *. constructor; try done; cbn.
  - by apply Forall_cons in Hs as [_ ?].
  - cbn in Hl. lia.
Qed.

Lemma task_ok_pop_commands c rest t :
  commands t = c :: rest -> task_ok b t -> task_ok b (set_commands rest t).
Proof. intros Hd [? ? ? ? Hl ?]. rewrite Hd in *. constructor; try done. cbn in *. lia. Qed.

Lemma task_ok_pop_ingress c rest t :
  ingress t = c :: rest -> task_ok b t -> task_ok b (set_ingress rest t).
Proof. intros Hd [? ? ? ? ? Hl]. rewrite Hd in *. constructor; try done. cbn in *. lia. Qed.

Lemma task_ok_poll_timer t : task_ok b t -> task_ok b (poll_timer env t).
Proof.
  intros Ht. unfold poll_timer.
  pose proof (task_ok_clock b env t Ht) as Hc. unfold read_clock in *. cbn [snd] in Hc.
  case_test; [|done]. apply task_ok_handler; [|done]. apply wp_on_timer, Ht.
Qed.

Lemma task_ok_turn t : task_ok b t -> task_ok b (turn env t).
Proof.
  intros Ht. unfold turn. destruct (status t); try done. destruct (execution t) as [|since].
  - destruct (deferred t) as [|c rest] eqn:Ed;
      [|by apply task_ok_apply_command, (task_ok_pop_deferred c)].
    destruct (commands t) as [|c rest] eqn:Ec;
      [|by apply task_ok_apply_command, (task_ok_pop_commands c)].
    destruct (commands_closed t); [by apply task_ok_stop|].
    destruct (ingress t) as [|bytes rest] eqn:Ei.
    + destruct (ingress_closed t); [by apply task_ok_stop|by apply task_ok_poll_timer].
    + apply task_ok_handler; [apply wp_receive_datagram, Ht|by apply (task_ok_pop_ingress bytes)].
  - destruct (commands t) as [|c rest] eqn:Ec.
    + destruct (commands_closed t); [by apply task_ok_stop|done].
    + by apply task_ok_frozen_command, (task_ok_pop_commands c).
Qed.

Lemma task_ok_deliver bytes t : task_ok b t -> task_ok b (fst (deliver env bytes t)).
Proof.
  intros Ht. unfold deliver. destruct (_ || _); [done|]. case_test; [|done].
  destruct Ht as [[Hp Hb] ? ? ? ? ?]. rewrite Hb in *. constructor; try done.
  - by apply ok_with_set_activity.
  - cbn. rewrite length_app. cbn. lia.
Qed.

Lemma task_ok_try_send c t : task_ok b t -> task_ok b (fst (try_send c t)).
Proof.
  intros Ht. unfold try_send. destruct (_ || _); [done|]. case_test; [|done].
  destruct Ht as [[Hp Hb] ? ? ? ? ?]. rewrite Hb in *. constructor; try done.
  cbn. rewrite length_app. cbn. lia.
Qed.

Lemma inbox_receive_shrinks i :
  capacity (fst (inbox_receive i)) = capacity i /\
  len (queue (fst (inbox_receive i))) <= len (queue i).
Proof.
  unfold inbox_receive. destruct (queue i) as [|p q] eqn:Eq; [destruct (closed i)|];
    cbn; rewrite ?Eq; cbn; lia.
Qed.

Lemma task_ok_recv t : task_ok b t -> task_ok b (fst (recv_raw t)).
Proof.
  intros Ht. unfold recv_raw. destruct (inbox_receive_shrinks (inbox (peer t))) as [Hc Hl].
  destruct (inbox_receive (inbox (peer t))) as [i r].
  apply task_ok_world; [done|]. apply ok_with_set_inbox; [apply Ht|done..].
Qed.

Lemma task_ok_step t t' : step env t t' -> task_ok b t -> task_ok b t'.
Proof.
  destruct 1; auto using task_ok_turn, task_ok_deliver, task_ok_try_send, task_ok_recv.
  - intros [[[] ?] ? ? ? ? ?]. by constructor.
  - intros [? ? ? ? ? ?]. by constructor.
Qed.

Lemma task_ok_start a i e :
  ok_with b a -> 0 <= peer_command_queue b -> 0 <= peer_ingress_queue b -> task_ok b (start a i e).
Proof. intros. by constructor. Qed.

Lemma task_ok_reachable t t' : rtc (step env) t t' -> task_ok b t -> task_ok b t'.
Proof. induction 1; eauto using task_ok_step. Qed.
End Steps.

(** ** Deferred commands *)

(** The commands of a batch of sends, and their answers. *)
Definition send_commands (sends : list (list byte * Z)) : list PeerCommand :=
  map (fun s => Send (fst s) (snd s)) sends.
Definition send_replies (sends : list (list byte * Z)) : list (Z * Reply) :=
  map (fun s => (snd s, SendReply (Ok tt))) sends.

Lemma run_turns_S env n t : run_turns env (S n) t = run_turns env n (turn env t).
Proof. unfold run_turns. induction n as [|n IH]; [done|]. cbn in *. by rewrite IH. Qed.

Lemma run_turns_add env n m t : run_turns env (n + m) t = run_turns env m (run_turns env n t).
Proof.
  revert t. induction n as [|n IH]; intros t; [done|].
  change (S n + m)%nat with (S (n + m)). by rewrite !run_turns_S, IH.
Qed.

(** A frozen task queues the sends it receives and touches nothing else. *)
Lemma frozen_queues env since w cs ic ig rs sends : forall d rest,
  (len d + len sends <= peer_command_queue (budgets (actor w))) ->
  run_turns env (length sends)
    (mkTask w (Frozen since) d (send_commands sends ++ rest) cs ig ic rs Alive) =
  mkTask w (Frozen since) (d ++ send_commands sends) rest cs ig ic rs Alive.
Proof.
  induction sends as [|[p id] sends IH]; intros d rest Hlen.
  - cbn. by rewrite app_nil_r.
  - cbn [length]. rewrite run_turns_S. unfold turn. cbn. unfold peer. cbn.
    destruct (Z.ltb_spec (len d) (peer_command_queue (budgets (actor w)))); [|cbn in Hlen; lia].
    unfold set_deferred, set_commands. cbn. fold (send_commands sends).
    rewrite IH; [by rewrite <- app_assoc|]. rewrite length_app. cbn in *. lia.
Qed.

(** A running task works its deferred sends off in order. *)
Lemma deferred_run env cm cs ic ig sends : forall w w' rs d,
  for_each (fun s => send_application env (fst s)) sends w = (w', Ok tt) ->
  run_turns env (length sends)
    (mkTask w Running (send_commands sends ++ d) cm cs ig ic rs Alive) =
  mkTask w' Running d cm cs ig ic (rs ++ send_replies sends) Alive.
Proof.
  induction sends as [|[p id] sends IH]; intros w w' rs d; cbn [for_each].
  - intros [= ->]. cbn. by rewrite app_nil_r.
  - unfold mbind at 1, M_bind at 1. cbn [fst].
    destruct (send_application env p w) as [w1 [[]|e| |]] eqn:E; intros H; try done.
    cbn [length]. rewrite run_turns_S. unfold turn. cbn.
    unfold set_deferred. cbn. rewrite E.
    unfold reply_to, set_world. cbn. fold (send_commands sends).
    rewrite (IH w1 w' _ _ H). by rewrite <- app_assoc.
Qed.

(** ** Properties *)

Lemma open_channels_Ok b : open_channels b = Ok tt -> 0 < peer_ingress_queue b /\ 0 < peer_command_queue b.
Proof.
  unfold open_channels, channel_fits. destruct (Z.ltb_spec 0 (peer_ingress_queue b)), (Z.ltb_spec 0 (peer_command_queue b)); try done.
  by rewrite andb_false_r.
Qed.
Lemma spawned_Ok b (t t0 : Task) : (_ ← open_channels b; Ok t) = Ok t0 -> 0 <= peer_ingress_queue b /\ 0 <= peer_command_queue b /\ t = t0.
Proof.
  destruct (open_channels b) as [[]|e| |] eqn:E; try done. apply open_channels_Ok in E. intros [= <-]. split_and!; [lia|lia|done].
Qed.
Lemma spawn_peer_Ok remote mtu b created i t0 : spawn_peer remote mtu b created i = Ok t0 ->
  0 <= peer_ingress_queue b /\ 0 <= peer_command_queue b /\ start_new remote mtu b created i = t0.
Proof. apply spawned_Ok. Qed.
Lemma spawn_imported_Ok env now v b i t0 : spawn_imported env now v b i = Ok t0 ->
  0 <= peer_ingress_queue b /\ 0 <= peer_command_queue b /\ start_imported env now v b i = t0.
Proof. apply spawned_Ok. Qed.

(** C25: no run of a peer's task crashes.  Started for a new connection or from any
    checkpoint its budgets admit, under every interleaving of its own turns with
    the handles and whatever bytes arrive, the peer keeps its invariant, no handler
    panics or exhausts its fuel, and the deferred, command and ingress queues stay
    within their budgets.  (A peer whose queues have no room cannot be started.) *)
Theorem peer_task_safe env b i t0 t :
  budgets_ok b ->
  (exists remote mtu created, spawn_peer remote mtu b created i = Ok t0) \/
  (exists s v now, snapshot_typed s /\ into_validated s b = Ok v /\ spawn_imported env now v b i = Ok t0) ->
  rtc (step env) t0 t -> task_ok b t.
Proof.
  intros Hb Hstart Hrun. eapply task_ok_reachable; [exact Hrun|].
  destruct Hstart as [(remote & mtu & created & (Hi & Hc & <-)%spawn_peer_Ok)|(s & v & now & Hty & Hv & (Hi & Hc & <-)%spawn_imported_Ok)].
  - apply task_ok_start; [|done..]. split; [|done]. apply ok_actor_new; try done.
    unfold budgets_ok in Hb. cbn. lia.
  - apply task_ok_start; [|done..]. by apply (restored_actor_ok env now s b v).
Qed.

(** While a peer is frozen, a turn that does not resume it changes neither the
    peer nor the outside: it sends nothing, reads no clock and consumes no datagram.
    A sealed checkpoint is the peer's state at the instant of the freeze, a second
    freeze keeps that instant, and a send beyond the deferral budget is answered
    [QueueFull] without being kept. *)
Theorem frozen_turn_inert env t since command rest :
  status t = Alive -> execution t = Frozen since -> commands t = command :: rest ->
  let t' := turn env t in
  match command with
  | Resume => execution t' = Running
  | Transfer id => status t' = Finished /\ io (world t') = io (world t)
  | Freeze id => t' = reply_to id Done (set_commands rest t)
  | SealTransfer id => t' = reply_to id (Sealed (snapshot since (peer t))) (set_commands rest t)
  | Send payload id =>
      world t' = world t /\
      (len (deferred t) < peer_command_queue (budgets (peer t)) ->
         deferred t' = deferred t ++ [command] /\ replies t' = replies t) /\
      (peer_command_queue (budgets (peer t)) <= len (deferred t) ->
         deferred t' = deferred t /\ replies t' = replies t ++ [(id, SendReply (Err QueueFull))])
  end.
Proof.
  intros Hs He Hc. unfold turn. rewrite Hs, He, Hc.
  destruct command as [payload id|id|id| |id]; cbn; try done.
  unfold peer in *. cbn. case_test; cbn; split_and!; try done; lia.
Qed.

(** Sends submitted to a frozen peer are neither lost nor reordered.  Resuming it
    rebases its timers and then performs exactly these sends, in the order of
    submission and before any command submitted later, as if they had been made on
    the resumed peer; each is answered. *)
Theorem frozen_sends_after_resume env since w w' sends rest cs ig ic rs :
  len sends <= peer_command_queue (budgets (actor w)) ->
  let resumed := map_peer (resume_timers env since (clock env (ticks (io w))))
    (snd (read_clock env (start (actor w) (io w) Running))) in
  for_each (fun s => send_application env (fst s)) sends (world resumed) = (w', Ok tt) ->
  run_turns env (length sends + (1 + length sends))
    (mkTask w (Frozen since) [] (send_commands sends ++ Resume :: rest) cs ig ic rs Alive) =
  mkTask w' Running [] rest cs ig ic (rs ++ send_replies sends) Alive.
Proof.
  intros Hlen resumed Hsend.
  rewrite run_turns_add, (frozen_queues env since w cs ic ig rs sends [] (Resume :: rest) Hlen).
  rewrite run_turns_add, <- (deferred_run env rest cs ic ig sends _ w' rs [] Hsend).
  f_equal. cbn [app]. by rewrite app_nil_r.
Qed.

(** ** The properties at concrete inputs *)

Definition connected_peer : PeerActor := set_accepted true sample_peer.
Definition quiet : IO := mkIO 0 [] [].

Lemma peer_task_safe_witness :
  task_ok default_budgets (turn sample_env (fst (deliver sample_env [Z_byte 0x84]
    (start_new (V4 (map Z_byte [10; 0; 0; 1]) 19132) 1400 default_budgets 0 quiet)))).
Proof.
  eapply (peer_task_safe sample_env default_budgets quiet).
  - unfold budgets_ok. vm_compute. intuition discriminate.
  - left. do 3 eexists. reflexivity.
  - eapply rtc_l; [apply (step_deliver _ [Z_byte 0x84])|]. apply rtc_once, step_turn.
Defined.

Lemma frozen_turn_inert_witness :
  turn sample_env (mkTask (mkWorld connected_peer quiet) (Frozen 5) [] [SealTransfer 3] false
    [] false [] Alive)
  = mkTask (mkWorld connected_peer quiet) (Frozen 5) [] [] false [] false
      [(3, Sealed (snapshot 5 connected_peer))] Alive.
Proof.
  exact (frozen_turn_inert sample_env (mkTask (mkWorld connected_peer quiet) (Frozen 5) []
    [SealTransfer 3] false [] false [] Alive) 5 (SealTransfer 3) [] eq_refl eq_refl eq_refl).
Defined.

Lemma frozen_sends_after_resume_witness :
  exists w', run_turns sample_env 5
    (mkTask (mkWorld connected_peer quiet) (Frozen 5) []
      (send_commands [([Z_byte 1], 7); ([Z_byte 2], 8)] ++ Resume :: [Freeze 9]) false [] false [] Alive)
  = mkTask w' Running [] [Freeze 9] false [] false [(7, SendReply (Ok tt)); (8, SendReply (Ok tt))] Alive.
Proof.
  eexists. eapply (frozen_sends_after_resume sample_env 5 (mkWorld connected_peer quiet) _
    [([Z_byte 1], 7); ([Z_byte 2], 8)]).
  - vm_compute. discriminate.
  - apply pair_snd. vm_compute. reflexivity.
Defined.
