(* ===== verification/RaknetReliability.v ===== *)
(** * Reliability of the RakNet peer: acknowledgements, retransmission, timers

    What [RaknetPeer.apply_acknowledgement], [retransmit], [on_timer],
    [next_timer_deadline] and [resume_timers] do to the datagrams in flight. *)

From S2P Require Import Prelude Bytes RaknetSequence RaknetBudget RaknetWire RaknetPeer RaknetPeerInv RaknetTransfer.

(** ** Ranges *)

(** A range holds the counters met on the way from its start to its end. *)
Lemma in_range_iff (sq a b : DatagramSequence) :
  in_range sq (a, b) = true <->
  exists k, 0 <= k <= wrapping_distance_from b a /\ sq = advance a k.
Proof.
  unfold in_range. cbn [fst snd]. rewrite Z.leb_le. split.
  - intros H. exists (wrapping_distance_from sq a).
    assert (0 <= wrapping_distance_from sq a < MODULUS) as Hd
      by (rewrite distance_mod; apply Z.mod_pos_bound; done).
    split; [lia|]. apply seq_eq. rewrite value_advance, distance_mod.
    rewrite Zplus_mod_idemp_r. pose proof (value_range sq).
    replace (value a + (value sq - value a)) with (value sq) by lia.
    by rewrite Z.mod_small.
  - intros (k & Hk & ->).
    assert (wrapping_distance_from b a < MODULUS) as Hd
      by (rewrite distance_mod; apply Z.mod_pos_bound; done).
    pose proof (distance_advance a k 0) as Ha. rewrite advance_0 in Ha.
    rewrite Ha, Z.mod_small; lia.
Qed.

(** ** Sending datagrams again *)

Definition resent (a : PeerActor) (l : list DatagramSequence)
    (u : gmap DatagramSequence UnackedDatagram) : Prop :=
  forall sq,
    (sq ∉ l -> u !! sq = unacked a !! sq) /\
    (sq ∈ l -> exists d t, unacked a !! sq = Some d /\ attempts d < MAX_RETRANSMIT_ATTEMPTS /\
       u !! sq = Some (mkUnacked (ud_bytes d) t (attempts d + 1))).

(** The datagrams that [l] names, as they go to the socket. *)
Definition copies (a : PeerActor) (l : list DatagramSequence) : list (SocketAddr * list byte) :=
  omap (fun sq => (fun d => (remote_addr a, ud_bytes d)) <$> unacked a !! sq) l.

Lemma copies_cons a sq l :
  copies a (sq :: l) = match unacked a !! sq with
                       | Some d => (remote_addr a, ud_bytes d) :: copies a l
                       | None => copies a l
                       end.
Proof. unfold copies. simpl. by destruct (unacked a !! sq). Qed.

Lemma copies_ext a a' l :
  remote_addr a = remote_addr a' ->
  (forall sq, sq ∈ l -> unacked a !! sq = unacked a' !! sq) -> copies a l = copies a' l.
Proof.
  intros Hr Hl. induction l as [|sq l IH]; [done|]. rewrite !copies_cons.
  rewrite Hr, (Hl sq) by set_solver. rewrite IH; [done|]. intros sq' Hin. apply Hl. set_solver.
Qed.

Section Resend.
Context (env : Env).

Lemma retransmit_Ok sq a i w d :
  unacked a !! sq = Some d -> 1 <= attempts d -> retransmit env sq (mkWorld a i) = (w, Ok tt) ->
  attempts d < MAX_RETRANSMIT_ATTEMPTS /\
  exists t n, w = mkWorld
    (set_unacked (<[sq := mkUnacked (ud_bytes d) t (attempts d + 1)]> (unacked a)) a)
    (mkIO n (sent i ++ [(remote_addr a, ud_bytes d)]) (accepted_peers i)).
Proof.
  intros Hd Hat. unfold retransmit. cbn. unfold mbind, M_bind. cbn. rewrite Hd.
  case_test; [done|]. cbn. unfold send_to, ask, mbind, M_bind. cbn.
  destruct (socket_ok env (ticks i)); cbn; [|intros H'; discriminate H'].
  intros [= <-]. split; [done|].
  assert (saturating_add u16_max (attempts d) 1 = attempts d + 1) as ->
    by (unfold saturating_add, u16_max, MAX_RETRANSMIT_ATTEMPTS in *; lia).
  by do 2 eexists.
Qed.

Lemma retransmit_all l : forall a i w,
  NoDup l -> (forall sq, sq ∈ l -> exists d, unacked a !! sq = Some d /\ 1 <= attempts d) ->
  for_each (retransmit env) l (mkWorld a i) = (w, Ok tt) ->
  exists u n, w = mkWorld (set_unacked u a)
    (mkIO n (sent i ++ copies a l) (accepted_peers i)) /\ resent a l u.
Proof.
  induction l as [|sq l IH]; intros a i w Hnd Hl; cbn [for_each].
  - intros [= <-]. exists (unacked a), (ticks i). cbn. rewrite app_nil_r.
    destruct a, i. split; [done|]. intros sq. split; [done|]. by intros ?%not_elem_of_nil.
  - apply NoDup_cons in Hnd as [Hsq Hnd].
    destruct (Hl sq ltac:(set_solver)) as (d & Hd & Hat).
    unfold mbind, M_bind. destruct (retransmit env sq (mkWorld a i)) as [w1 [[]|e| |]] eqn:E;
      intros H; try done.
    apply (retransmit_Ok sq a i w1 d) in E as (Hlt & t & n & ->); [|done|done].
    assert (forall sq', sq' ∈ l -> sq' <> sq) as Hne by (intros ? ? ->; done).
    apply IH in H as (u & n' & -> & Hu); [|done|].
    + exists u, n'. split.
      * rewrite copies_cons, Hd. cbn. rewrite <- app_assoc. cbn [app].
        rewrite (copies_ext (set_unacked
          (<[sq := mkUnacked (ud_bytes d) t (attempts d + 1)]> (unacked a)) a) a); [done|done|].
        intros sq' Hin. cbn. by rewrite lookup_insert_ne by (intros <-; by apply (Hne sq)).
      * intros sq'. destruct (Hu sq') as [Hout Hin]. cbn in Hout, Hin. split.
        -- intros [Hn1 Hn2]%not_elem_of_cons. rewrite Hout by done. by rewrite lookup_insert_ne.
        -- intros [->|Hin']%elem_of_cons.
           ++ exists d, t. split_and!; [done..|]. rewrite Hout by done. by rewrite lookup_insert_eq.
           ++ destruct (Hin Hin') as (d' & t' & Hd' & ? & ?). exists d', t'.
              rewrite lookup_insert_ne in Hd' by (by intros <-; apply (Hne sq)). done.
    + intros sq' Hin. cbn. rewrite lookup_insert_ne by (intros <-; by apply (Hne sq)).
      apply Hl. set_solver.
Qed.

(** One exhausted datagram in the list and the loop cannot succeed. *)
Lemma retransmit_all_exhausted l a i w :
  NoDup l -> (forall sq, sq ∈ l -> exists d, unacked a !! sq = Some d /\ 1 <= attempts d) ->
  for_each (retransmit env) l (mkWorld a i) = (w, Ok tt) ->
  forall sq d, sq ∈ l -> unacked a !! sq = Some d -> attempts d < MAX_RETRANSMIT_ATTEMPTS.
Proof.
  intros Hnd Hl H sq d Hsq Hd. apply retransmit_all in H as (u & n & -> & Hu); [|done..].
  destruct (Hu sq) as [_ (d' & t & Hd' & ? & _)]; [done|]. by simplify_eq.
Qed.

Lemma unacked_keys_spec a :
  (forall l, hash_order env l ≡ₚ l) ->
  NoDup (unacked_keys env a) /\ (forall sq, sq ∈ unacked_keys env a <-> is_Some (unacked a !! sq)).
Proof.
  intros Hp. unfold unacked_keys. rewrite Hp. split; [apply NoDup_fst_map_to_list|].
  intros sq. rewrite Hp. rewrite list_elem_of_fmap. split.
  - intros ([sq' d] & -> & Hin%elem_of_map_to_list). by exists d.
  - intros [d Hd]. exists (sq, d). by rewrite elem_of_map_to_list.
Qed.
End Resend.

Lemma filter_In_bool {A} (f : A -> bool) l x : x ∈ List.filter f l <-> x ∈ l /\ f x = true.
Proof. rewrite !list_elem_of_In. apply filter_In. Qed.

Lemma NoDup_filter_bool {A} (f : A -> bool) l : NoDup l -> NoDup (List.filter f l).
Proof. rewrite !NoDup_ListNoDup. apply List.NoDup_filter. Qed.

(** ** Deadlines *)

Lemma foldr_min_le t l x : foldr Z.min t l <= x <-> t <= x \/ exists y, y ∈ l /\ y <= x.
Proof.
  induction l as [|y l IH]; cbn [foldr].
  - split; [by left|]. intros [?|(y & Hy & _)]; [done|]. by apply not_elem_of_nil in Hy.
  - rewrite Z.min_le_iff, IH. split.
    + intros [?|[?|(z & Hz & ?)]]; [right; exists y|by left|right; exists z]; (split; [set_solver|done]).
    + intros [?|(z & [->|Hz]%elem_of_cons & ?)]; [by right; left|by left|].
      right; right. by exists z.
Qed.

Lemma foldr_min_shift t l k : foldr Z.min (t + k) (map (fun x => x + k) l) = foldr Z.min t l + k.
Proof. induction l as [|y l IH]; cbn [foldr map]; [done|]. rewrite IH. lia. Qed.

Lemma omap_all {A B} (f : A -> option B) (g : A -> B) l :
  (forall x, x ∈ l -> f x = Some (g x)) -> omap f l = map g l.
Proof.
  induction l as [|x l IH]; intros H; [done|]. cbn [omap list_omap map].
  rewrite (H x) by set_solver. rewrite IH; [done|]. intros y Hy. apply H. set_solver.
Qed.

(** The instants a peer holds are representable and not after [t]. *)
Definition instants_ok (env : Env) (a : PeerActor) (t : Z) : Prop :=
  instant_min env <= activity a <= t /\
  map_Forall (fun _ d => instant_min env <= sent_at d <= t) (unacked a).

(** The deadline while nothing overflows: idle timeout and retransmissions. *)
Lemma next_timer_deadline_eq env fallback a t :
  instants_ok env a t -> t + PEER_TIMEOUT <= instant_max env ->
  next_timer_deadline env fallback a =
    foldr Z.min (activity a + PEER_TIMEOUT)
      (map (fun kv => sent_at (snd kv) + retransmit_delay (attempts (snd kv)))
         (map_to_list (unacked a))).
Proof.
  intros [Ha Hu] Ht. unfold next_timer_deadline, instant_checked_add.
  destruct (Z.leb_spec (activity a + PEER_TIMEOUT) (instant_max env)); [|lia]. cbn [default].
  f_equal. apply (omap_all _ (fun kv => sent_at (snd kv) + retransmit_delay (attempts (snd kv)))).
  intros [sq d] Hin%elem_of_map_to_list. specialize (Hu _ _ Hin). cbn [snd] in *.
  pose proof (retransmit_delay_range (attempts d)).
  assert (millis 1600 < PEER_TIMEOUT) as Hpt by done. case_test; [done|lia].
Qed.

(** Resuming moves every origin by the time spent frozen. *)
Lemma resume_timers_eq env frozen_at resumed_at a :
  instants_ok env a frozen_at -> frozen_at <= resumed_at ->
  resume_timers env frozen_at resumed_at a =
    set_unacked ((fun d => mkUnacked (ud_bytes d) (sent_at d + (resumed_at - frozen_at)) (attempts d))
                   <$> unacked a)
      (set_activity (activity a + (resumed_at - frozen_at)) a).
Proof.
  intros [Ha Hu] Hle. unfold resume_timers, activity_resume, instant_checked_sub, duration_since.
  rewrite Z.max_r by lia.
  destruct (Z.leb_spec (instant_min env) (resumed_at - (frozen_at - activity a))); [|lia].
  cbn [default]. replace (resumed_at - (frozen_at - activity a))
    with (activity a + (resumed_at - frozen_at)) by lia. f_equal.
  apply map_fmap_ext. intros sq d Hd. specialize (Hu _ _ Hd). cbn in Hu.
  rewrite Z.max_r by lia.
  destruct (Z.leb_spec (instant_min env) (resumed_at - (frozen_at - sent_at d))); [|lia].
  cbn. f_equal. lia.
Qed.

(** ** Properties *)

(** An acknowledgement takes exactly the datagrams in its ranges out of flight and
    nothing else changes; a negative acknowledgement sends exactly the datagrams in
    its ranges that are still in flight again, each once and byte for byte, counts the
    attempt and leaves every other datagram alone. *)
Theorem acknowledgement_effect env a i w ranges :
  (forall l, hash_order env l ≡ₚ l) -> actor_ok a ->
  (exists u, apply_acknowledgement env (Ack ranges) (mkWorld a i) = (mkWorld (set_unacked u a) i, Ok tt) /\
     forall sq, u !! sq = if existsb (in_range sq) ranges then None else unacked a !! sq) /\
  (apply_acknowledgement env (Nack ranges) (mkWorld a i) = (w, Ok tt) ->
   exists u n l, w = mkWorld (set_unacked u a) (mkIO n (sent i ++ copies a l) (accepted_peers i)) /\
     NoDup l /\
     (forall sq, sq ∈ l <-> is_Some (unacked a !! sq) /\ existsb (in_range sq) ranges = true) /\
     resent a l u).
Proof.
  intros Hperm Ha. split.
  - eexists. split; [done|]. intros sq.
    apply option_eq. intros d. rewrite map_lookup_filter_Some. cbn [fst].
    destruct (existsb (in_range sq) ranges); naive_solver.
  - set (l := List.filter (fun sq => existsb (in_range sq) ranges) (unacked_keys env a)).
    change (for_each (retransmit env) l (mkWorld a i) = (w, Ok tt) -> exists u n l,
      w = mkWorld (set_unacked u a) (mkIO n (sent i ++ copies a l) (accepted_peers i)) /\
      NoDup l /\
      (forall sq, sq ∈ l <-> is_Some (unacked a !! sq) /\ existsb (in_range sq) ranges = true) /\
      resent a l u).
    destruct (unacked_keys_spec env a Hperm) as [Hnd Hkeys]. intros H.
    assert (forall sq, sq ∈ l <-> is_Some (unacked a !! sq) /\ existsb (in_range sq) ranges = true)
      as Hl by (intros sq; unfold l; by rewrite filter_In_bool, Hkeys).
    destruct (retransmit_all env l a i w) as (u & n & -> & Hu); [by apply NoDup_filter_bool| |done|].
    + intros sq [[d Hd] _]%Hl. exists d. split; [done|].
      destruct (ok_unacked a Ha) as [_ Hm]. by destruct (Hm _ _ Hd) as [_ [? _]].
    + exists u, n, l. split_and!; [done|by apply NoDup_filter_bool|done|done].
Qed.

(** A timer tick does exactly what is due.  An idle peer is given up and nothing
    else happens; otherwise a tick that succeeds sends every datagram whose delay has
    elapsed once more, byte for byte, counts the attempt, and leaves the others alone.
    A datagram sent 60 times that falls due makes the tick fail. *)
Theorem timer_retransmits_due env a i w :
  (forall l, hash_order env l ≡ₚ l) -> actor_ok a ->
  let now := clock env (ticks i) in
  let due d := retransmit_delay (attempts d) <= duration_since now (sent_at d) in
  let i' := mkIO (S (ticks i)) (sent i) (accepted_peers i) in
  (PEER_TIMEOUT <= duration_since now (activity a) ->
   on_timer env (mkWorld a i) = (mkWorld a i', Err PeerTimeout)) /\
  (duration_since now (activity a) < PEER_TIMEOUT ->
   on_timer env (mkWorld a i) = (w, Ok tt) ->
   exists u n l, w = mkWorld (set_unacked u a) (mkIO n (sent i ++ copies a l) (accepted_peers i)) /\
     NoDup l /\
     (forall sq, sq ∈ l <-> exists d, unacked a !! sq = Some d /\ due d) /\
     resent a l u).
Proof.
  intros Hperm Ha now due i'. unfold on_timer, RaknetPeer.now, ask, mbind, M_bind.
  cbn [fst snd actor io self ticks]. fold now. split; intros Hidle.
  - case_test; [done|lia].
  - case_test; [lia|]. set (l := List.filter _ _). fold i'.
    destruct (unacked_keys_spec env a Hperm) as [Hnd Hkeys].
    assert (forall sq, sq ∈ l <-> exists d, unacked a !! sq = Some d /\ due d) as Hl.
    { intros sq. unfold l. rewrite filter_In_bool, Hkeys. unfold due.
      destruct (unacked a !! sq) as [d|]; [rewrite Z.leb_le|]; naive_solver. }
    intros Hrun. destruct (retransmit_all env l a i' w) as (u & n & -> & Hu);
      [by apply NoDup_filter_bool| |done|].
    + intros sq (d & Hd & _)%Hl. exists d. split; [done|].
      destruct (ok_unacked a Ha) as [_ Hm]. by destruct (Hm _ _ Hd) as [_ [? _]].
    + exists u, n, l. split_and!; [done|by apply NoDup_filter_bool|done|done].
Qed.

(** The deadline the task sleeps until is exact: it has passed if and only if the
    next tick finds something to do, an idle peer to give up or a datagram to send
    again. *)
Theorem timer_deadline_exact env fallback now a :
  instants_ok env a now -> now + PEER_TIMEOUT <= instant_max env ->
  next_timer_deadline env fallback a <= now <->
    PEER_TIMEOUT <= duration_since now (activity a) \/
    exists sq d, unacked a !! sq = Some d /\
      retransmit_delay (attempts d) <= duration_since now (sent_at d).
Proof.
  intros Hok Hmax. rewrite (next_timer_deadline_eq _ _ _ now) by done.
  rewrite foldr_min_le. destruct Hok as [Ha Hu]. unfold duration_since.
  assert (forall P P' Q Q', (P <-> P') -> (Q <-> Q') -> (P \/ Q <-> P' \/ Q')) as Hor by tauto.
  apply Hor; clear Hor.
  - lia.
  - split.
    + intros (y & ([sq d] & -> & Hin)%list_elem_of_fmap & Hy). apply elem_of_map_to_list in Hin.
      exists sq, d. cbn in Hy. split; [done|]. specialize (Hu _ _ Hin). cbn in Hu. lia.
    + intros (sq & d & Hd & Hy). specialize (Hu _ _ Hd). cbn in Hu.
      exists (sent_at d + retransmit_delay (attempts d)). split; [|lia].
      apply list_elem_of_fmap. exists (sq, d). by rewrite elem_of_map_to_list.
Qed.

(** Frozen time consumes no protocol timer.  Resuming moves the idle timer and
    every retransmission timer by exactly the time spent frozen, and so the next
    deadline, leaving attempts, bytes and everything else alone. *)
Theorem resume_shifts_timers env fallback fallback' frozen_at resumed_at a :
  instants_ok env a frozen_at -> frozen_at <= resumed_at ->
  resumed_at + PEER_TIMEOUT <= instant_max env ->
  let a' := resume_timers env frozen_at resumed_at a in
  let pause := resumed_at - frozen_at in
  next_timer_deadline env fallback' a' = next_timer_deadline env fallback a + pause /\
  a' = set_unacked ((fun d => mkUnacked (ud_bytes d) (sent_at d + pause) (attempts d)) <$> unacked a)
         (set_activity (activity a + pause) a).
Proof.
  intros Hok Hle Hmax a' pause. unfold a'. rewrite resume_timers_eq by done. split; [|done].
  rewrite (next_timer_deadline_eq _ _ a frozen_at) by (done || lia).
  rewrite (next_timer_deadline_eq _ _ _ resumed_at); [|destruct Hok as [Ha Hu]; split|done].
  - cbn. rewrite map_to_list_fmap, map_map. cbn. fold pause.
    rewrite <- foldr_min_shift, map_map. f_equal; [lia|]. apply map_ext. intros [sq d]. cbn. lia.
  - cbn. lia.
  - cbn. apply map_Forall_fmap. intros sq d Hd. specialize (Hu _ _ Hd). cbn in *. lia.
Qed.

(** ** The properties at concrete inputs *)

Definition at_tick (n : nat) : IO := mkIO n [] [].

Lemma acknowledgement_effect_witness :
  exists u, apply_acknowledgement sample_env (Ack [(new 0, new 3)]) (mkWorld sample_peer (at_tick 9)) =
    (mkWorld (set_unacked u sample_peer) (at_tick 9), Ok tt) /\ u !! (new 0) = None.
Proof.
  destruct (acknowledgement_effect sample_env sample_peer (at_tick 9)
    (mkWorld sample_peer (at_tick 9)) [(new 0, new 3)] (fun l => Permutation_refl l) sample_peer_ok)
    as [(u & Hu & Hl) _].
  exists u. split; [exact Hu|]. rewrite Hl. reflexivity.
Defined.

Lemma timer_retransmits_due_witness :
  on_timer sample_env (mkWorld sample_peer (at_tick 12003)) =
    (mkWorld sample_peer (at_tick 12004), Err PeerTimeout).
Proof.
  apply (timer_retransmits_due sample_env sample_peer (at_tick 12003)
    (mkWorld sample_peer (at_tick 0)) (fun l => Permutation_refl l) sample_peer_ok).
  vm_compute. discriminate.
Defined.

Lemma sample_instants t : millis 5 <= t -> instants_ok sample_env sample_peer t.
Proof.
  intros Ht. split; [unfold millis in *; cbn; unfold millis; lia|].
  apply map_Forall_singleton. unfold millis in *. cbn. unfold millis. lia.
Qed.

Lemma timer_deadline_exact_witness :
  next_timer_deadline sample_env 0 sample_peer <= millis 405.
Proof.
  apply (timer_deadline_exact sample_env 0 (millis 405) sample_peer).
  - apply sample_instants. vm_compute. discriminate.
  - vm_compute. discriminate.
  - right. exists (new 0), (mkUnacked [Z_byte 0x84] (millis 5) 2).
    split; [apply lookup_insert_eq|vm_compute; discriminate].
Defined.

Lemma resume_shifts_timers_witness :
  next_timer_deadline sample_env 0 (resume_timers sample_env (millis 6) (millis 1000) sample_peer) =
  next_timer_deadline sample_env 0 sample_peer + millis 994.
Proof.
  apply (resume_shifts_timers sample_env 0 0 (millis 6) (millis 1000) sample_peer).
  - apply sample_instants. vm_compute. discriminate.
  - vm_compute. discriminate.
  - vm_compute. discriminate.
Defined.
