(* ===== verification/RaknetDelivery.v ===== *)
(** * Delivery by the RakNet peer: order, fragments, duplicates

    What the receive path ([RaknetPeer.accept_ordered], [accept_fragment],
    [receive_frame], [receive_datagram]) hands to the application, and what the send
    path ([send_reliable_ordered]) puts on the wire for it. *)

From S2P Require Import Prelude Bytes RaknetSequence RaknetBudget RaknetWire RaknetPeer RaknetPeerInv RaknetTransfer.

(** ** Application payloads *)

(** The first byte is not one of the protocol's own messages. *)
Definition app_payload (p : list byte) : Prop :=
  forall id, byte_Z <$> head p = Some id -> id ∉ [0x00; 0x03; 0x09; 0x13; 0x15; 0x1c].

Definition push (p : list byte) (a : PeerActor) : PeerActor :=
  set_inbox (mkInbox (queue (inbox a) ++ [p]) (closed (inbox a)) (capacity (inbox a))) a.

Lemma deliver_app env p a i :
  app_payload p -> accepted a = true -> len (queue (inbox a)) < capacity (inbox a) ->
  capacity (inbox a) <= usize_max ->
  deliver_payload env p (mkWorld a i) = (mkWorld (push p a) i, Ok tt).
Proof.
  intros Hp Ha Hroom Hcap. unfold deliver_payload.
  assert (decode_connection_request p = Ok None /\ decode_connected_ping p = Ok None) as [-> ->].
  { unfold decode_connection_request, decode_connected_ping. destruct p as [|b p]; [done|].
    specialize (Hp (byte_Z b) eq_refl). split; case_test; try done; set_solver. }
  unfold mbind, M_bind. cbn.
  assert (push_inbox p (mkWorld a i) = (mkWorld (push p a) i, Ok tt)) as Hpush.
  { unfold push_inbox, inbox_push. cbn [actor io].
    rewrite ensure_budget_Ok by (unfold saturating_add; lia). done. }
  destruct p as [|b p]; cbn [head fmap option_fmap option_map].
  - rewrite !bool_decide_eq_false_2 by done. cbn. by rewrite Ha, Hpush.
  - specialize (Hp (byte_Z b) eq_refl).
    rewrite !bool_decide_eq_false_2 by (intros [= E]; rewrite E in Hp; set_solver).
    cbn. by rewrite Ha, Hpush.
Qed.

(** ** Ordered payloads *)

Section Ordered.
(** Payload [p k] carries the [k]-th order index of channel [c], counted from [s0];
    [N] of them are in play, and [q0] is what the application has not read yet. *)
Context (env : Env) (c : Z) (s0 : OrderSequence) (p : nat -> list byte) (N : nat)
  (q0 : list (list byte)).

Definition at_index (k : nat) : OrderSequence := advance s0 (Z.of_nat k).

(** Having received the indices [R], the peer has delivered those below [n] in order
    and holds the others back. *)
Record ordered_inv (R : list nat) (n : nat) (a : PeerActor) : Prop := mkOrdered {
  oi_accepted : accepted a = true;
  oi_room : len q0 + Z.of_nat N <= capacity (inbox a) /\ capacity (inbox a) <= usize_max;
  oi_budget : Z.of_nat N <= max_ordered_holdback (budgets a);
  oi_expected : default default_sequence (ordered_expected a !! c) = at_index n;
  oi_prefix : (n <= N)%nat /\ forall k, (k < n)%nat -> k ∈ R;
  oi_queue : queue (inbox a) = q0 ++ map p (seq 0 n);
  oi_held : forall k, (k < N)%nat -> ordered_holdback a !! (c, at_index k) =
      if decide (k ∈ R /\ (n <= k)%nat) then Some (p k) else None;
  oi_keys : forall key v, ordered_holdback a !! key = Some v ->
      exists k, (k < N)%nat /\ key = (c, at_index k)
}.

Context (HN : Z.of_nat N <= HALF_RANGE) (Hp : forall k, (k < N)%nat -> app_payload (p k)).

Lemma at_index_inj j k : (j <= N)%nat -> (k <= N)%nat -> at_index j = at_index k -> j = k.
Proof.
  intros Hj Hk H. assert (HALF_RANGE < MODULUS) by done.
  apply advance_inj in H; lia.
Qed.

Lemma next_at_index k : next (at_index k) = at_index (S k).
Proof. unfold at_index. rewrite next_advance. f_equal. lia. Qed.

(** Delivering the expected payload. *)
Lemma ordered_inv_deliver R n a a1 i :
  ordered_inv R n a -> (n < N)%nat ->
  ordered_expected a1 = <[c := at_index (S n)]> (ordered_expected a) ->
  (forall key, ordered_holdback a1 !! key =
     if decide (key = (c, at_index n)) then None else ordered_holdback a !! key) ->
  accepted a1 = accepted a -> inbox a1 = inbox a -> budgets a1 = budgets a ->
  deliver_payload env (p n) (mkWorld a1 i) = (mkWorld (push (p n) a1) i, Ok tt) /\
  ordered_inv (n :: R) (S n) (push (p n) a1).
Proof.
  intros [Hacc Hroom Hbud Hexp [Hn Hpre] Hq Hheld Hkeys] HnN He Hh Ha Hi Hb.
  assert (length (queue (inbox a)) = length q0 + n)%nat as Hlen
    by (rewrite Hq, length_app, length_map, length_seq; lia).
  split.
  - apply deliver_app; [by apply Hp|congruence|rewrite Hi; lia|rewrite Hi; lia].
  - constructor; cbn; rewrite ?Ha, ?Hi, ?Hb, ?He; try done.
    + by rewrite lookup_insert_eq.
    + split; [lia|]. intros k Hk. destruct (decide (k = n)) as [->|]; [left|]. right. apply Hpre. lia.
    + change (p 0%nat :: map p (seq 1 n)) with (map p (seq 0 (S n))).
      rewrite Hq, <- app_assoc, seq_S, map_app. done.
    + intros k Hk. rewrite Hh. case_decide as Hkn.
      * apply (f_equal snd) in Hkn. apply at_index_inj in Hkn as ->; [|lia..].
        rewrite decide_False by lia. done.
      * rewrite Hheld by done. assert (k <> n) by congruence.
        apply decide_ext. rewrite elem_of_cons. intuition lia.
    + intros key v. rewrite Hh. case_decide; [done|]. apply Hkeys.
Qed.

(** The invariant only mentions these fields. *)
Lemma ordered_inv_ext R R' n a a' :
  ordered_inv R n a -> (forall k, k ∈ R <-> k ∈ R') ->
  accepted a' = accepted a -> inbox a' = inbox a -> budgets a' = budgets a ->
  default default_sequence (ordered_expected a' !! c) = at_index n ->
  ordered_holdback a' = ordered_holdback a -> ordered_inv R' n a'.
Proof.
  intros [Hacc Hroom Hbud Hexp [Hn Hpre] Hq Hheld Hkeys] HR Ha Hi Hb He Hh.
  constructor; rewrite ?Ha, ?Hi, ?Hb, ?Hh; try done.
  - split; [done|]. intros k Hk. by apply HR, Hpre.
  - intros k Hk. rewrite Hheld by done. apply decide_ext. by rewrite HR.
Qed.

Lemma held_at_end R n a :
  ordered_inv R n a -> (forall k, k ∈ R -> (k < N)%nat) -> n ∉ R ->
  ordered_holdback a !! (c, at_index n) = None.
Proof.
  intros Hinv HR Hn. destruct (ordered_holdback a !! (c, at_index n)) eqn:E; [|done].
  destruct (oi_keys _ _ _ Hinv _ _ E) as (k & Hk & Heq%(f_equal snd)).
  destruct (oi_prefix _ _ _ Hinv) as [HnN _].
  apply at_index_inj in Heq as <-; [|lia..].
  rewrite (oi_held _ _ _ Hinv) in E by done. case_decide; [tauto|done].
Qed.

Lemma drain_delivers R fuel : (forall k, k ∈ R -> (k < N)%nat) -> forall n a i,
  ordered_inv R n a -> is_Some (ordered_expected a !! c) ->
  (size (ordered_holdback a) < fuel)%nat ->
  exists a' n', drain_holdback env fuel c (mkWorld a i) = (mkWorld a' i, Ok tt) /\
    ordered_inv R n' a' /\ n' ∉ R.
Proof.
  intros HR. induction fuel as [|fuel IH]; intros n a i Hinv [e He] Hsize; [lia|].
  assert (e = at_index n) as -> by (pose proof (oi_expected _ _ _ Hinv) as H; by rewrite He in H).
  cbn [drain_holdback]. unfold mbind, M_bind. cbn [self actor]. rewrite He.
  destruct (decide (n ∈ R)) as [Hn|Hn].
  - pose proof (HR n Hn) as HnN.
    assert (ordered_holdback a !! (c, at_index n) = Some (p n)) as Hheld.
    { rewrite (oi_held _ _ _ Hinv) by done. by rewrite decide_True by (split; [done|lia]). }
    rewrite Hheld. cbn [update actor io].
    set (a1 := set_ordered_expected _ _).
    destruct (ordered_inv_deliver R n a a1 i) as [Hdel Hinv']; try done.
    { unfold a1. cbn. by rewrite next_at_index. }
    { intros key. unfold a1. cbn. case_decide; [subst; apply lookup_delete_eq|].
      by rewrite lookup_delete_ne by congruence. }
    rewrite Hdel. apply (IH (S n)); [| |].
    + eapply ordered_inv_ext; [exact Hinv'| |done..|by rewrite (oi_expected _ _ _ Hinv')|done].
      intros k. rewrite elem_of_cons. split; [by intros [->|]|by right].
    + unfold a1. cbn. rewrite lookup_insert_eq. by eexists.
    + unfold a1. cbn. pose proof (map_size_delete_Some (c, at_index n) _ (mk_is_Some _ _ Hheld)).
      destruct (size (ordered_holdback a)) eqn:E; [|lia].
      apply map_size_empty_inv in E. rewrite E in Hheld. by rewrite lookup_empty in Hheld.
  - rewrite (held_at_end R n a Hinv HR Hn). by exists a, n.
Qed.

Lemma held_room R n a :
  ordered_inv R n a -> (n < N)%nat -> n ∉ R -> (forall k, k ∈ R -> (k < N)%nat) ->
  (size (ordered_holdback a) + 1 <= N)%nat.
Proof.
  intros Hinv HnN Hn HR. pose proof (held_at_end R n a Hinv HR Hn) as Hfree.
  set (m := <[(c, at_index n) := []]> (ordered_holdback a)).
  assert (size m = S (size (ordered_holdback a))) as Hm by (by apply map_size_insert_None).
  assert (size m <= size (list_to_set (map (fun k => (c, at_index k)) (seq 0 N)) :
    gset (Z * OrderSequence)))%nat as Hle.
  { rewrite <- size_dom. apply subseteq_size. intros key [v Hv]%elem_of_dom.
    apply elem_of_list_to_set, list_elem_of_fmap. unfold m in Hv.
    apply lookup_insert_Some in Hv as [[<- _]|[_ Hv]].
    - exists n. split; [done|]. apply elem_of_seq. lia.
    - destruct (oi_keys _ _ _ Hinv _ _ Hv) as (k & Hk & ->). exists k.
      split; [done|]. apply elem_of_seq. lia. }
  pose proof (size_list_to_set_le (map (fun k => (c, at_index k)) (seq 0 N))) as Hs.
  rewrite length_map, length_seq in Hs. lia.
Qed.

(** Holding a payload back. *)
Lemma ordered_inv_hold R n k a a1 :
  ordered_inv R n a -> (forall j, j ∈ R -> (j < N)%nat) -> (n < k < N)%nat ->
  accepted a1 = accepted a -> inbox a1 = inbox a -> budgets a1 = budgets a ->
  default default_sequence (ordered_expected a1 !! c) = at_index n ->
  ordered_holdback a1 = <[(c, at_index k) := p k]> (ordered_holdback a) ->
  ordered_inv (k :: R) n a1.
Proof.
  intros [Hacc Hroom Hbud Hexp [Hn Hpre] Hq Hheld Hkeys] HR Hk Ha Hi Hb He Hh.
  constructor; rewrite ?Ha, ?Hi, ?Hb, ?Hh; try done.
  - split; [done|]. intros j Hj. right. by apply Hpre.
  - intros j Hj. destruct (decide (j = k)) as [->|Hne].
    + rewrite lookup_insert_eq, decide_True; [done|]. split; [left|lia].
    + rewrite lookup_insert_ne, Hheld; [|done|intros E%(f_equal snd)%at_index_inj; lia].
      apply decide_ext. rewrite elem_of_cons. tauto.
  - intros key v [[<- _]|[_ Hv]]%lookup_insert_Some; [exists k; split; [lia|done]|].
    by apply (Hkeys _ v).
Qed.

Lemma index_cmp k n :
  (k <= N)%nat -> (n <= N)%nat ->
  seq_eqb (at_index k) (at_index n) = (k =? n)%nat /\
  ((k < N)%nat -> is_newer_than (at_index k) (at_index n) = (n <? k)%nat).
Proof.
  intros Hk Hn. split.
  - destruct (seq_eqb_spec (at_index k) (at_index n)) as [E|E].
    + apply at_index_inj in E as ->; [|lia..]. by rewrite Nat.eqb_refl.
    + symmetry. apply Nat.eqb_neq. by intros ->.
  - intros Hk'. assert (HALF_RANGE + HALF_RANGE = MODULUS) as HM by done.
    unfold is_newer_than, at_index. rewrite distance_advance.
    destruct (Nat.ltb_spec n k) as [Hlt|Hge].
    + rewrite Z.mod_small by lia. apply andb_true_iff.
      split; [apply negb_true_iff, Z.eqb_neq|apply Z.ltb_lt]; lia.
    + destruct (decide (k = n)) as [->|].
      * rewrite Z.sub_diag. done.
      * replace (Z.of_nat k - Z.of_nat n) with ((Z.of_nat k - Z.of_nat n + MODULUS) + (-1) * MODULUS) by lia.
        rewrite Z.mod_add, Z.mod_small by lia.
        apply andb_false_iff. right. apply Z.ltb_ge. lia.
Qed.

(** One arrival, in any order, duplicates included. *)
Lemma accept_ordered_step R n k a i :
  ordered_inv R n a -> n ∉ R -> (forall j, j ∈ R -> (j < N)%nat) -> (k < N)%nat ->
  max_ordered_holdback (budgets a) <= usize_max ->
  exists a' n', accept_ordered env c (at_index k) (p k) (mkWorld a i) = (mkWorld a' i, Ok tt) /\
    ordered_inv (k :: R) n' a' /\ n' ∉ k :: R.
Proof.
  intros Hinv HnR HR Hk Hmax. unfold accept_ordered. cbn [mbind M_bind self actor].
  unfold mbind, M_bind. cbn [self actor update io].
  rewrite (oi_expected _ _ _ Hinv). destruct (oi_prefix _ _ _ Hinv) as [HnN Hpre].
  destruct (index_cmp k n ltac:(lia) ltac:(lia)) as [-> Hnewer].
  set (a0 := set_ordered_expected (<[c := at_index n]> (ordered_expected a)) a).
  destruct (Nat.eqb_spec k n) as [->|Hne].
  - set (a1 := set_ordered_expected (<[c := next (at_index n)]> (ordered_expected a0)) a0).
    destruct (ordered_inv_deliver R n a a1 i) as [Hdel Hinv']; try done.
    { unfold a1, a0. cbn. by rewrite insert_insert_eq, next_at_index. }
    { intros key. unfold a1, a0. cbn. case_decide; [subst|done]. by apply (held_at_end R). }
    cbn [update actor io]. fold a1. rewrite Hdel.
    apply (drain_delivers (n :: R)) with (n := S n); [|exact Hinv'| |apply Nat.lt_succ_diag_r].
    + intros j [->|?]%elem_of_cons; auto.
    + unfold a1, a0. cbn. rewrite lookup_insert_eq. by eexists.
  - destruct (Nat.ltb_spec n k) as [Hlt|Hge].
    + rewrite Hnewer by lia.
      destruct (Nat.ltb_spec n k); [|lia]. unfold lift.
      pose proof (held_room R n a Hinv ltac:(lia) HnR HR) as Hroom.
      rewrite ensure_budget_Ok; [|unfold saturating_add; cbn;
        pose proof (oi_budget _ _ _ Hinv); lia].
      unfold a0. cbn [ordered_holdback set_ordered_expected].
      rewrite (oi_held _ _ _ Hinv) by done. case_decide as Hk'.
      * destruct Hk' as [Hk' _]. exists a0, n.
        split; [done|]. split; [|by intros [->|?]%elem_of_cons].
        eapply ordered_inv_ext; [exact Hinv| |done..| |done].
        -- intros j. rewrite elem_of_cons. split; [by right|by intros [->|]].
        -- unfold a0. cbn. by rewrite lookup_insert_eq.
      * eexists _, n. split; [done|]. split; [|by intros [->|?]%elem_of_cons].
        apply (ordered_inv_hold R n k a); try done. cbn. by rewrite lookup_insert_eq.
    + rewrite Hnewer by done. destruct (Nat.ltb_spec n k); [lia|].
      exists a0, n. split; [done|]. split; [|by intros [->|?]%elem_of_cons].
      eapply ordered_inv_ext; [exact Hinv| |done..| |done].
      * intros j. rewrite elem_of_cons. split; [by right|intros [->|]; [apply Hpre; lia|done]].
      * unfold a0. cbn. by rewrite lookup_insert_eq.
Qed.
End Ordered.

Lemma accept_ordered_all env c s0 p N q0 ks : forall R n a i,
  Z.of_nat N <= HALF_RANGE -> (forall k, (k < N)%nat -> app_payload (p k)) ->
  (forall k, k ∈ ks -> (k < N)%nat) -> (forall k, k ∈ R -> (k < N)%nat) ->
  ordered_inv c s0 p N q0 R n a -> n ∉ R -> budgets_ok (budgets a) -> actor_ok a ->
  exists a' n' R', for_each (fun k => accept_ordered env c (at_index s0 k) (p k)) ks (mkWorld a i) =
      (mkWorld a' i, Ok tt) /\
    ordered_inv c s0 p N q0 R' n' a' /\ n' ∉ R' /\ (forall k, k ∈ R' <-> k ∈ R \/ k ∈ ks).
Proof.
  induction ks as [|k ks IH]; intros R n a i HN Hp Hks HR Hinv Hn Hb Ha; cbn [for_each].
  - exists a, n, R. split_and!; try done. intros k. rewrite elem_of_nil. tauto.
  - destruct (accept_ordered_step env c s0 p N q0 HN Hp R n k a i) as (a1 & n1 & Hrun & Hinv1 & Hn1);
      [done..|apply Hks; set_solver|unfold budgets_ok in Hb; lia|].
    unfold mbind, M_bind. rewrite Hrun.
    assert (ok_with (budgets a) a1) as [Ha1 Hb1].
    { pose proof (wp_accept_ordered env (budgets a) c (at_index s0 k) (p k) a (conj Ha eq_refl) i) as Hw.
      by rewrite Hrun in Hw. }
    destruct (IH (k :: R) n1 a1 i) as (a' & n' & R' & Hrun' & Hinv' & Hn' & HR'); try done.
    + intros j Hj. apply Hks. set_solver.
    + intros j [->|Hj]%elem_of_cons; [apply Hks; set_solver|auto].
    + by rewrite Hb1.
    + exists a', n', R'. split_and!; try done. intros j. rewrite HR'. set_solver.
Qed.

(** ** Properties: order *)

(** C26: ordered payloads are delivered in order, each exactly once, whatever the
    network does.  When the payloads of up to half a cycle of order indices arrive in
    any order, late, early or several times, the application's queue grows by exactly
    the longest run of consecutive payloads received so far: nothing past a gap,
    nothing twice, nothing lost once the gap is filled, and no arrival is an error
    while the queues have room. *)
Theorem ordered_delivery env c p N ks a i :
  actor_ok a -> accepted a = true -> ordered_holdback a = ∅ ->
  Z.of_nat N <= HALF_RANGE -> Z.of_nat N <= max_ordered_holdback (budgets a) ->
  len (queue (inbox a)) + Z.of_nat N <= capacity (inbox a) ->
  (forall k, (k < N)%nat -> app_payload (p k)) -> (forall k, k ∈ ks -> (k < N)%nat) ->
  let s0 := default default_sequence (ordered_expected a !! c) in
  exists a' n,
    for_each (fun k => accept_ordered env c (at_index s0 k) (p k)) ks (mkWorld a i) =
      (mkWorld a' i, Ok tt) /\
    (forall k, (k < n)%nat -> k ∈ ks) /\ n ∉ ks /\
    queue (inbox a') = queue (inbox a) ++ map p (seq 0 n).
Proof.
  intros Ha Hacc Hh HN Hbud Hroom Hp Hks s0.
  destruct (accept_ordered_all env c s0 p N (queue (inbox a)) ks [] 0 a i)
    as (a' & n & R & Hrun & Hinv & Hn & HR); try done.
  - by intros k ?%not_elem_of_nil.
  - destruct (ok_inbox a Ha) as [Hcap _]. pose proof (ok_budgets a Ha) as Hb.
    constructor; try done.
    + split; [done|]. unfold budgets_ok in Hb. lia.
    + unfold at_index. by rewrite advance_0.
    + split; [lia|]. intros k Hk. lia.
    + cbn. by rewrite app_nil_r.
    + intros k Hk. rewrite Hh, lookup_empty. rewrite decide_False; [done|].
      intros [H _]. by apply not_elem_of_nil in H.
    + intros key v. by rewrite Hh, lookup_empty.
  - apply not_elem_of_nil.
  - apply Ha.
  - exists a', n. split_and!; [done| | |].
    + intros k Hk. destruct (oi_prefix _ _ _ _ _ _ _ _ Hinv) as [_ Hpre].
      specialize (Hpre k Hk). rewrite HR, elem_of_nil in Hpre. tauto.
    + rewrite HR in Hn. tauto.
    + apply (oi_queue _ _ _ _ _ _ _ _ Hinv).
Qed.

(** Four payloads that arrive as 2, 0, 2, 3: the first is delivered, the others wait. *)
Lemma ordered_delivery_witness :
  let a := set_accepted true sample_peer in
  exists a' n, for_each (fun k => accept_ordered sample_env 0 (at_index default_sequence k)
      [Z_byte 0x50; Z_byte (Z.of_nat k)]) [2; 0; 2; 3]%nat (mkWorld a (mkIO 0 [] []))
    = (mkWorld a' (mkIO 0 [] []), Ok tt) /\
    (forall k, (k < n)%nat -> k ∈ [2; 0; 2; 3]%nat) /\ n ∉ [2; 0; 2; 3]%nat /\
    queue (inbox a') = queue (inbox a) ++ map (fun k => [Z_byte 0x50; Z_byte (Z.of_nat k)]) (seq 0 n).
Proof.
  apply (ordered_delivery sample_env 0 (fun k => [Z_byte 0x50; Z_byte (Z.of_nat k)]) 4
    [2; 0; 2; 3]%nat (set_accepted true sample_peer) (mkIO 0 [] [])).
  - destruct sample_peer_ok. by constructor.
  - reflexivity.
  - reflexivity.
  - vm_compute. discriminate.
  - vm_compute. discriminate.
  - vm_compute. discriminate.
  - intros k _ id [= <-]. apply (bool_decide_unpack _). vm_compute. exact I.
  - intros k H. repeat (apply elem_of_cons in H as [->|H]; [lia|]). by apply not_elem_of_nil in H.
Defined.

(** ** Fragments *)

(** Running a handler on each element, keeping the results. *)
Fixpoint feed {A B} (f : A -> Act B) (l : list A) : Act (list B) :=
  match l with
  | [] => mret []
  | x :: l => y ← f x; ys ← feed f l; mret (y :: ys)
  end.

Lemma parts_bytes_imap_le f (qs : list (list byte)) :
  (forall j q, f j q = None \/ f j q = Some q) ->
  parts_bytes (imap f qs) <= parts_bytes (map Some qs).
Proof.
  revert f. induction qs as [|q qs IH]; intros f Hf; [done|]. rewrite imap_cons.
  specialize (IH (f ∘ S) ltac:(intros; apply Hf)). unfold parts_bytes, sum_Z in *. cbn in *.
  destruct (Hf 0%nat q) as [-> | ->]; lia.
Qed.

Lemma join_parts_all (qs : list (list byte)) : join_parts (map Some qs) = Some (mjoin qs).
Proof. induction qs as [|q qs IH]; [done|]. cbn. by rewrite IH. Qed.

Lemma saturating_sub_add x y : 0 <= x -> saturating_sub (x + y) y = x.
Proof. unfold saturating_sub. lia. Qed.

Section Fragments.
(** The fragments [ps] of one payload, under the split id [id], at peer [a]. *)
Context (id : Z) (ps : list (list byte)) (a : PeerActor) (i : IO).

Definition fragment_header (j : nat) : SplitHeader := mkSplit (len ps) id (Z.of_nat j).
Definition arrive (j : nat) : Act (option (list byte)) :=
  accept_fragment (fragment_header j) (ps !!! j).

(** The slots when the fragments [J] have arrived, and the peer that holds them. *)
Definition slots (J : list nat) : list (option (list byte)) :=
  imap (fun j part => if decide (j ∈ J) then Some part else None) ps.
Definition assembling (J : list nat) : PeerActor :=
  set_reassembly (<[id := mkReassembly (slots J)]> (reassembly a))
    (set_reassembly_bytes (reassembly_bytes a + parts_bytes (slots J))
    (set_reassembly_parts (reassembly_parts a + len ps) a)).

Context (Hfree : reassembly a !! id = None) (Hne : ps <> [])
  (Hp0 : 0 <= reassembly_parts a) (Hb0 : 0 <= reassembly_bytes a)
  (Hparts : reassembly_parts a + len ps <= max_reassembly_parts_per_peer (budgets a))
  (Hbytes : reassembly_bytes a + len (mjoin ps) <= max_reassembly_bytes_per_peer (budgets a))
  (Hmax : max_reassembly_parts_per_peer (budgets a) <= usize_max /\
          max_reassembly_bytes_per_peer (budgets a) <= usize_max).

Lemma length_slots J : length (slots J) = length ps.
Proof. apply length_imap. Qed.

Lemma slots_lookup J j : slots J !! j = (fun part => if decide (j ∈ J) then Some part else None) <$> ps !! j.
Proof. unfold slots. rewrite list_lookup_imap. by destruct (ps !! j). Qed.

Lemma slots_nil : slots [] = replicate (length ps) None.
Proof.
  apply list_eq. intros j. rewrite slots_lookup.
  destruct (ps !! j) as [part|] eqn:E; cbn.
  - rewrite decide_False by apply not_elem_of_nil. symmetry. apply lookup_replicate_2.
    by apply lookup_lt_Some in E.
  - symmetry. apply lookup_replicate_None. by apply lookup_ge_None in E.
Qed.

Lemma slots_cons J j part :
  ps !! j = Some part -> <[j := Some part]> (slots J) = slots (j :: J).
Proof.
  intros Hj. apply list_eq. intros k. rewrite slots_lookup.
  destruct (decide (k = j)) as [->|Hk].
  - rewrite list_lookup_insert_eq by (rewrite length_slots; by apply lookup_lt_Some in Hj).
    rewrite Hj. cbn. by rewrite decide_True by left.
  - rewrite list_lookup_insert_ne, slots_lookup by done. destruct (ps !! k); cbn; [|done].
    f_equal. apply decide_ext. rewrite elem_of_cons. tauto.
Qed.

Lemma slots_full J : (forall j, (j < length ps)%nat -> j ∈ J) -> slots J = map Some ps.
Proof.
  intros HJ. apply list_eq. intros j. rewrite slots_lookup, list_lookup_fmap.
  destruct (ps !! j) eqn:E; cbn; [|done].
  rewrite decide_True; [done|]. apply HJ. by apply lookup_lt_Some in E.
Qed.

Lemma slots_missing J j : (j < length ps)%nat -> j ∉ J -> existsb part_missing (slots J) = true.
Proof.
  intros Hj HJ. apply existsb_missing, list_elem_of_lookup. exists j. rewrite slots_lookup.
  destruct (lookup_lt_is_Some_2 ps j Hj) as [part ->]. cbn. by rewrite decide_False.
Qed.

Lemma parts_bytes_all (qs : list (list byte)) : parts_bytes (map Some qs) = len (mjoin qs).
Proof.
  induction qs as [|q qs IH]; [done|]. rewrite mjoin_cons, length_app.
  change (parts_bytes (map Some (q :: qs))) with (len q + parts_bytes (map Some qs)). lia.
Qed.

Lemma parts_bytes_slots_le J : parts_bytes (slots J) <= len (mjoin ps).
Proof.
  rewrite <- parts_bytes_all. apply parts_bytes_imap_le. intros j q. case_decide; auto.
Qed.

Lemma assembling_nil :
  set_reassembly (<[id := mkReassembly (replicate (length ps) None)]> (reassembly a))
    (set_reassembly_parts (reassembly_parts a + len ps) a) = assembling [].
Proof.
  unfold assembling. rewrite slots_nil, parts_bytes_replicate, Z.add_0_r. by destruct a.
Qed.

Lemma assembling_slots J : reassembly (assembling J) !! id = Some (mkReassembly (slots J)).
Proof. apply lookup_insert_eq. Qed.
Lemma assembling_parts J : reassembly_parts (assembling J) = reassembly_parts a + len ps.
Proof. done. Qed.
Lemma assembling_bytes J : reassembly_bytes (assembling J) = reassembly_bytes a + parts_bytes (slots J).
Proof. done. Qed.

(** The first fragment opens the assembly, and then is treated like the others. *)
Lemma arrive_first j :
  (j < length ps)%nat -> arrive j (mkWorld a i) = arrive j (mkWorld (assembling []) i).
Proof.
  intros Hj. unfold arrive, accept_fragment, fragment_header.
  cbn [split_count split_index split_id].
  assert ((len ps =? 0) || (len ps <=? Z.of_nat j) = false) as ->
    by (apply orb_false_iff; split; [apply Z.eqb_neq|apply Z.leb_gt]; lia).
  unfold mbind, M_bind. cbn [self actor lift].
  rewrite Hfree, assembling_slots, assembling_parts.
  change (budgets (assembling [])) with (budgets a). unfold lift.
  rewrite !ensure_budget_Ok by (unfold saturating_add; lia).
  cbn [update actor io default]. rewrite Nat2Z.id.
  replace (saturating_add usize_max (reassembly_parts a) (len ps)) with (reassembly_parts a + len ps)
    by (unfold saturating_add; lia).
  cbn [reassembly set_reassembly_parts].
  rewrite assembling_nil, slots_nil. done.
Qed.

Lemma slots_complete J : existsb part_missing (slots J) = false -> slots J = map Some ps.
Proof.
  intros H. apply slots_full. intros j Hj. destruct (decide (j ∈ J)) as [|HJ]; [done|].
  by rewrite (slots_missing J j Hj HJ) in H.
Qed.

(** Storing a part moves from one set of arrived fragments to the next. *)
Lemma assembling_cons J j :
  (j < length ps)%nat -> j ∉ J ->
  set_reassembly (<[id := mkReassembly (<[j := Some (ps !!! j)]> (slots J))]> (reassembly (assembling J)))
    (set_reassembly_bytes (reassembly_bytes (assembling J) + len (ps !!! j)) (assembling J))
  = assembling (j :: J).
Proof.
  intros Hj HJ. assert (ps !! j = Some (ps !!! j)) as Hpart by by apply list_lookup_lookup_total_lt.
  rewrite (slots_cons J j _ Hpart). unfold assembling. cbn.
  rewrite insert_insert_eq, <- (slots_cons J j _ Hpart), parts_bytes_insert.
  - rewrite Z.add_assoc. reflexivity.
  - rewrite slots_lookup, Hpart. cbn. by rewrite decide_False.
Qed.

(** Taking the complete assembly out restores the peer. *)
Lemma assembling_done J :
  slots J = map Some ps ->
  set_reassembly_bytes (saturating_sub (reassembly_bytes (assembling J)) (parts_bytes (slots J)))
    (set_reassembly_parts (saturating_sub (reassembly_parts (assembling J)) (len (slots J)))
      (set_reassembly (delete id (reassembly (assembling J))) (assembling J))) = a.
Proof.
  intros HJ. rewrite length_slots, assembling_bytes, assembling_parts.
  rewrite !saturating_sub_add by done. unfold assembling. cbn.
  rewrite delete_insert_id by done. clear. by destruct a.
Qed.

Lemma arrive_next J j :
  (j < length ps)%nat -> j ∉ J ->
  arrive j (mkWorld (assembling J) i) =
    if existsb part_missing (slots (j :: J)) then (mkWorld (assembling (j :: J)) i, Ok None)
    else (mkWorld a i, Ok (Some (mjoin ps))).
Proof.
  intros Hj HJ. assert (ps !! j = Some (ps !!! j)) as Hpart by by apply list_lookup_lookup_total_lt.
  assert (slots J !! j = Some None) as Hslot
    by (rewrite slots_lookup, Hpart; cbn; by rewrite decide_False).
  pose proof (parts_bytes_slots_le (j :: J)) as Hle.
  rewrite <- (slots_cons J j _ Hpart), parts_bytes_insert in Hle by done.
  pose proof (parts_bytes_nonneg (slots J)) as Hnn.
  unfold arrive, accept_fragment, fragment_header. cbn [split_count split_index split_id].
  assert ((len ps =? 0) || (len ps <=? Z.of_nat j) = false) as ->
    by (apply orb_false_iff; split; [apply Z.eqb_neq|apply Z.leb_gt]; lia).
  unfold mbind, M_bind. cbn [self actor].
  rewrite assembling_slots, assembling_parts.
  change (budgets (assembling J)) with (budgets a). unfold lift.
  rewrite ensure_budget_Ok by (unfold saturating_add; lia).
  cbn [mret M_ret default from_option Datatypes.id parts]. rewrite length_slots, Z.eqb_refl. cbn [negb].
  rewrite Nat2Z.id, Hslot. cbn [actor].
  change (budgets (assembling J)) with (budgets a). rewrite assembling_bytes.
  rewrite ensure_budget_Ok by (unfold saturating_add; lia). cbn [update actor io].
  replace (saturating_add usize_max (reassembly_bytes (assembling J)) (len (ps !!! j)))
    with (reassembly_bytes (assembling J) + len (ps !!! j))
    by (rewrite assembling_bytes; unfold saturating_add; lia).
  change (reassembly (set_reassembly_bytes ?v ?x)) with (reassembly x).
  rewrite assembling_cons by done. rewrite assembling_slots. cbn [parts].
  change (existsb _ (slots (j :: J))) with (existsb part_missing (slots (j :: J))).
  destruct (existsb part_missing (slots (j :: J))) eqn:Hmiss; [done|].
  apply slots_complete in Hmiss. cbn [update actor io].
  change (reassembly_parts (set_reassembly ?v ?x)) with (reassembly_parts x).
  change (reassembly_bytes (set_reassembly_parts ?u (set_reassembly ?v ?x))) with (reassembly_bytes x).
  rewrite assembling_done by done. rewrite Hmiss.
  by rewrite join_parts_all.
Qed.

Lemma arrive_all js : forall J,
  js <> [] -> NoDup js -> (forall j, j ∈ js -> (j < length ps)%nat /\ j ∉ J) ->
  (forall j, (j < length ps)%nat -> j ∈ J \/ j ∈ js) ->
  feed arrive js (mkWorld (assembling J) i) =
    (mkWorld a i, Ok (replicate (length js - 1) None ++ [Some (mjoin ps)])).
Proof.
  induction js as [|j js IH]; intros J Hjs Hnd Hin Hall; [done|].
  apply NoDup_cons in Hnd as [Hj Hnd]. destruct (Hin j ltac:(left)) as [Hlt HjJ].
  cbn [feed]. unfold mbind at 1, M_bind at 1. rewrite arrive_next by done.
  destruct js as [|j' js].
  - rewrite slots_full.
    + assert (existsb part_missing (map Some ps) = false) as -> by (clear; by induction ps).
      done.
    + intros k Hk. destruct (Hall k Hk) as [?|?%list_elem_of_singleton]; [by right|subst; left].
  - rewrite (slots_missing _ j'); [|apply Hin; set_solver|].
    2: { intros [->|H]%elem_of_cons; [apply Hj; left|]. by apply (Hin j' ltac:(set_solver)). }
    unfold mbind, M_bind. rewrite IH; [cbn; by rewrite ?Nat.sub_0_r|done|done| |].
    + intros k Hk. destruct (Hin k ltac:(by right)) as [? ?]. split; [done|].
      intros [->|?]%elem_of_cons; done.
    + intros k Hk. destruct (Hall k Hk) as [?|[->|?]%elem_of_cons]; [left; by right|left; left|by right].
Qed.
End Fragments.

(** ** Properties: fragments *)

(** C28: fragments that arrive in any order are put together in the order of their
    indices.  Every arrival but the last yields nothing, the last one yields exactly
    the payload that was split, and the peer is then as it was before the first:
    nothing of the assembly, and none of the budget it took, is left behind. *)
Theorem reassembly_any_order id ps a i js :
  actor_ok a -> reassembly a !! id = None -> ps <> [] ->
  reassembly_parts a + len ps <= max_reassembly_parts_per_peer (budgets a) ->
  reassembly_bytes a + len (mjoin ps) <= max_reassembly_bytes_per_peer (budgets a) ->
  js ≡ₚ seq 0 (length ps) ->
  feed (arrive id ps) js (mkWorld a i) =
    (mkWorld a i, Ok (replicate (length ps - 1) None ++ [Some (mjoin ps)])).
Proof.
  intros Ha Hfree Hne Hparts Hbytes Hjs.
  destruct (ok_budgets a Ha) as (_ & _ & _ & Hb1 & Hb2 & _).
  destruct (ok_reassembly a Ha) as (Hp & Hb & _).
  assert (0 <= reassembly_parts a) as Hp0
    by (rewrite Hp; apply map_sum_nonneg; intros ?; unfold entry_parts; lia).
  assert (0 <= reassembly_bytes a) as Hb0
    by (rewrite Hb; apply map_sum_nonneg; intros ?; apply parts_bytes_nonneg).
  assert (length js = length ps) as Hlen by (by rewrite Hjs, length_seq).
  assert (forall j, j ∈ js <-> (j < length ps)%nat) as Hin
    by (intros j; rewrite Hjs, elem_of_seq; lia).
  destruct js as [|j js]; [destruct ps; done|]. rewrite <- Hlen.
  transitivity (feed (arrive id ps) (j :: js) (mkWorld (assembling id ps a []) i)).
  - cbn [feed]. unfold mbind at 1 3, M_bind at 1 3.
    rewrite arrive_first; try done; try lia. apply Hin; left.
  - apply arrive_all; try done; try lia.
    + rewrite Hjs. apply NoDup_seq.
    + intros k Hk. split; [by apply Hin|apply not_elem_of_nil].
    + intros k Hk. right. by apply Hin.
Qed.

Lemma reassembly_any_order_witness :
  let ps := [[Z_byte 1; Z_byte 2]; [Z_byte 3; Z_byte 4]; [Z_byte 5]] in
  feed (arrive 7 ps) [2; 0; 1]%nat (mkWorld sample_peer (mkIO 0 [] [])) =
    (mkWorld sample_peer (mkIO 0 [] []), Ok [None; None; Some (map Z_byte [1; 2; 3; 4; 5])]).
Proof.
  apply (reassembly_any_order 7 [[Z_byte 1; Z_byte 2]; [Z_byte 3; Z_byte 4]; [Z_byte 5]]).
  - exact sample_peer_ok.
  - reflexivity.
  - discriminate.
  - vm_compute. discriminate.
  - vm_compute. discriminate.
  - cbn. etransitivity; [apply perm_swap|]. apply perm_skip, perm_swap.
Defined.

(** ** Sending *)

(** The frame of the [j]-th fragment of [n] that carries order index [oi]. *)
Definition fragment_frame (a : PeerActor) (n : nat) (j : nat) (chunk : list byte) : Frame :=
  mkFrame ReliableOrdered (Some (advance (next_reliable a) (Z.of_nat j))) None
    (Some (next_ordered a)) 0
    (if 1 <? Z.of_nat n then Some (mkSplit (Z.of_nat n) (next_split_id a) (Z.of_nat j)) else None)
    chunk.
Definition fragment_datagram (a : PeerActor) (n : nat) (j : nat) (chunk : list byte) : list byte :=
  encode_datagram (advance (next_datagram a) (Z.of_nat j)) (fragment_frame a n j chunk).

(** The pieces of a payload: an empty payload is one empty piece. *)
Definition pieces (cap : Z) (payload : list byte) : list (list byte) :=
  match payload with [] => [[]] | _ => chunks (Z.to_nat cap) payload end.

(** [a'] is [a] after [k] fragments, its order index and split id being [o] and [s]:
    only the counters and the datagrams in flight have changed. *)
Definition sent_fragments (o : OrderSequence) (s : Z) (k : nat) (a a' : PeerActor) : Prop :=
  next_datagram a' = advance (next_datagram a) (Z.of_nat k) /\
  next_reliable a' = advance (next_reliable a) (Z.of_nat k) /\
  next_ordered a' = o /\ next_split_id a' = s /\
  inbox a' = inbox a /\ accepted a' = accepted a /\ recv_view a' = recv_view a.

Lemma send_frame_Ok env f a i w :
  send_frame env f (mkWorld a i) = (w, Ok tt) ->
  exists u n, w = mkWorld (set_unacked u (set_next_datagram (next (next_datagram a)) a))
    (mkIO n (sent i ++ [(remote_addr a, encode_datagram (next_datagram a) f)]) (accepted_peers i)) /\
    len (encode_datagram (next_datagram a) f) <= max_datagram_bytes (budgets a) /\
    exists t, u = <[next_datagram a := mkUnacked (encode_datagram (next_datagram a) f) t 1]> (unacked a).
Proof.
  unfold send_frame, send_to, RaknetPeer.now, ask, mbind, M_bind, lift. cbn [self actor].
  destruct (ensure_budget "unacknowledged datagrams" _ _) as [[]|e| |]; try discriminate.
  cbn [update actor io]. change (budgets (set_next_datagram ?v ?x)) with (budgets x).
  destruct (ensure_budget "datagram bytes" _ _) as [[]|e| |] eqn:Eb; try discriminate.
  apply ensure_budget_Ok_inv in Eb.
  destruct (socket_ok env (ticks i)); cbn; try discriminate.
  intros [= <-]. do 2 eexists. split; [reflexivity|]. split; [done|]. by eexists.
Qed.

Lemma send_fragment_Ok env o s a0 n k chunk a i w :
  sent_fragments o s k a0 a -> (n = 1%nat \/ 0 <= Z.of_nat k <= u32_max) ->
  send_fragment env (next_ordered a0) (next_split_id a0) (Z.of_nat n) (Z.of_nat k, chunk)
    (mkWorld a i) = (w, Ok tt) ->
  sent_fragments o s (S k) a0 (actor w) /\
  sent (io w) = sent i ++ [(remote_addr a0, fragment_datagram a0 n k chunk)] /\
  len (fragment_datagram a0 n k chunk) <= max_datagram_bytes (budgets a0).
Proof.
  intros (Hd & Hr & Ho & Hs & Hin & Hac & Hv) Hk. unfold send_fragment.
  assert (budgets a = budgets a0 /\ remote_addr a = remote_addr a0) as [Hb Ha].
  { unfold recv_view in Hv. split; congruence. }
  set (a1 := set_next_reliable (next (next_reliable a)) a).
  assert (send_frame env (fragment_frame a0 n k chunk) (mkWorld a1 i) = (w, Ok tt) ->
    sent_fragments o s (S k) a0 (actor w) /\
    sent (io w) = sent i ++ [(remote_addr a0, fragment_datagram a0 n k chunk)] /\
    len (fragment_datagram a0 n k chunk) <= max_datagram_bytes (budgets a0)) as Hsend.
  { intros (u & m & -> & Hlen & _)%send_frame_Ok. 
    assert (next_datagram a1 = advance (next_datagram a0) (Z.of_nat k)) as Hd1 by exact Hd.
    assert (budgets a1 = budgets a0) as Hb1 by exact Hb.
    assert (remote_addr a1 = remote_addr a0) as Ha1 by exact Ha.
    rewrite Hd1, Hb1 in Hlen. rewrite Hd1, Ha1. split; [|done].
    unfold sent_fragments, a1. cbn [actor next_datagram next_reliable set_unacked set_next_datagram
      set_next_reliable]. rewrite Hr, !next_advance, Nat2Z.inj_succ. by split_and!. }
  unfold mbind, M_bind. cbn [self actor update io]. fold a1. intros H. apply Hsend. rewrite <- H.
  unfold fragment_frame. rewrite Hr. destruct (Z.ltb_spec 1 (Z.of_nat n)); [|done].
  destruct (Z.leb_spec (Z.of_nat k) u32_max); [done|]. exfalso. destruct Hk; lia.
Qed.

Lemma send_fragments_Ok env o s a0 n chunks0 : forall k a i w,
  sent_fragments o s k a0 a -> (n = 1%nat \/ Z.of_nat (k + length chunks0) <= u32_max) ->
  for_each (send_fragment env (next_ordered a0) (next_split_id a0) (Z.of_nat n))
    (imap (fun j c => (Z.of_nat (k + j), c)) chunks0) (mkWorld a i) = (w, Ok tt) ->
  sent_fragments o s (k + length chunks0) a0 (actor w) /\
  sent (io w) = sent i ++
    imap (fun j c => (remote_addr a0, fragment_datagram a0 n (k + j) c)) chunks0 /\
  Forall (fun d => len (snd d) <= max_datagram_bytes (budgets a0))
    (imap (fun j c => (remote_addr a0, fragment_datagram a0 n (k + j) c)) chunks0).
Proof.
  induction chunks0 as [|c cs IH]; intros k a i w Hk Hn; cbn [imap for_each].
  - intros [= <-]. cbn. rewrite app_nil_r, Nat.add_0_r. split_and!; [done|done|constructor].
  - rewrite Nat.add_0_r. unfold mbind at 1, M_bind at 1.
    destruct (send_fragment _ _ _ _ _ _) as [[a1 i1] [[]|e| |]] eqn:E; intros H; try done.
    apply (send_fragment_Ok env o s) in E as (Hk1 & Hs1 & Hl1); [|done|cbn [length] in Hn; lia].
    cbn [actor io] in *.
    rewrite (imap_ext _ (fun j c => (Z.of_nat (S k + j), c))) in H
      by (intros; cbn; by rewrite Nat.add_succ_r).
    apply IH in H as (Hk2 & Hs2 & Hl2); [|done|cbn [length] in Hn; lia].
    rewrite (imap_ext _ (fun j c => (remote_addr a0, fragment_datagram a0 n (S k + j) c)))
      by (intros; cbn; by rewrite Nat.add_succ_r).
    cbn [length]. rewrite Nat.add_succ_r. split_and!; [done| |by constructor].
    by rewrite Hs2, Hs1, <- app_assoc.
Qed.

Lemma imap_bound {A B} (f : nat -> A -> B) (P : B -> Prop) l :
  (forall j x, l !! j = Some x -> P (f j x)) -> Forall P (imap f l).
Proof.
  intros H. apply Forall_lookup. intros j y Hy. rewrite list_lookup_imap in Hy.
  destruct (l !! j) as [x|] eqn:E; [|done]. injection Hy as <-. by apply H.
Qed.

Lemma pieces_spec cap payload :
  0 < cap ->
  mjoin (pieces cap payload) = payload /\ Forall (fun c => len c <= cap) (pieces cap payload) /\
  len (pieces cap payload) = Z.max (div_ceil (len payload) cap) 1.
Proof.
  intros Hcap. unfold pieces. destruct payload as [|x payload].
  - split_and!; [done|repeat constructor; cbn; lia|]. unfold div_ceil. cbn [length].
    rewrite Z.div_small by lia. done.
  - split_and!.
    + apply concat_chunks. lia.
    + eapply Forall_impl; [apply chunks_bound; lia|]. cbn. lia.
    + rewrite length_chunks, Z2Nat.id by lia.
      assert (1 <= div_ceil (len (x :: payload)) cap); [|lia].
      unfold div_ceil. apply Z.div_le_lower_bound; [lia|]. cbn [length]. lia.
Qed.

(** What a fragment's datagram decodes to at the other end. *)
Lemma decode_fragment b a n j chunk :
  0 <= next_split_id a < 2 ^ 16 -> Z.of_nat n < 2 ^ 32 -> (j < n)%nat ->
  len chunk <= 8191 -> len chunk <= max_payload_bytes b ->
  len (fragment_datagram a n j chunk) <= max_datagram_bytes b <= usize_max ->
  decode_datagram (fragment_datagram a n j chunk) b =
    Ok (mkDatagram (advance (next_datagram a) (Z.of_nat j)) [fragment_frame a n j chunk]).
Proof.
  intros Hid Hn Hj Hc Hpay [Hlen Hmax]. unfold fragment_datagram in *.
  rewrite encode_datagram_eq in *. rewrite <- (app_nil_r (frame_bytes _)) in *.
  apply (decode_datagram_frames b _ [fragment_frame a n j chunk]); [|done|done].
  constructor; [|constructor]. split; [|done]. unfold frame_wf, fragment_frame. cbn.
  split_and!; try done. intros s. case_test; [|done]. intros [= <-]. unfold split_wf. cbn. lia.
Qed.

(** A successful send: how many pieces, the counters it leaves, what it sent. *)
Lemma sending_pieces env payload a i w :
  DATAGRAM_HEADER_BUDGET < mtu a ->
  send_reliable_ordered env payload (mkWorld a i) = (w, Ok tt) ->
  let ps := pieces (mtu a - DATAGRAM_HEADER_BUDGET) payload in
  let datagrams := imap (fun j c => (remote_addr a, fragment_datagram a (length ps) j c)) ps in
  len ps <= u32_max /\
  sent_fragments (next (next_ordered a)) (wrapping_add 16 (next_split_id a) 1) (length ps) a (actor w) /\
  sent (io w) = sent i ++ datagrams /\
  Forall (fun d => len (snd d) <= max_datagram_bytes (budgets a)) datagrams.
Proof.
  intros Hmtu Hrun ps datagrams. set (cap := mtu a - DATAGRAM_HEADER_BUDGET) in *.
  assert (0 < cap) as Hcap by (unfold cap; lia).
  assert (saturating_sub (mtu a) DATAGRAM_HEADER_BUDGET = cap) as Hsat
    by (unfold saturating_sub, cap; lia).
  destruct (pieces_spec cap payload Hcap) as (_ & _ & Hcount). fold ps in Hcount.
  set (a1 := set_next_split_id (wrapping_add 16 (next_split_id a) 1)
    (set_next_ordered (next (next_ordered a)) a)).
  assert (sent_fragments (next (next_ordered a)) (wrapping_add 16 (next_split_id a) 1) 0 a a1) as H0
    by (unfold sent_fragments; rewrite !advance_0; by split_and!).
  unfold send_reliable_ordered, mbind, M_bind in Hrun. cbn [self actor io update] in Hrun.
  rewrite Hsat in Hrun. destruct (Z.eqb_spec cap 0); [lia|].
  cbn [self actor io update] in Hrun. rewrite <- Hcount in Hrun.
  destruct (Z.leb_spec (len ps) u32_max) as [Hn|]; [|discriminate Hrun].
  split; [done|]. cbn [mret M_ret self actor io update] in Hrun.
  destruct payload as [|x payload].
  - change (send_fragment env (next_ordered a) (next_split_id a) (Z.of_nat 1) (Z.of_nat 0, [])
      (mkWorld a1 i) = (w, Ok tt)) in Hrun.
    apply (send_fragment_Ok env _ _ a 1 0 [] a1 i w H0) in Hrun as (? & ? & ?); [|by left].
    split_and!; try done. by constructor.
  - destruct (for_each _ _ _) as [w' [[]|e| |]] eqn:E in Hrun; try discriminate Hrun.
    injection Hrun as ->.
    apply (send_fragments_Ok env _ _ a (length ps) ps 0 a1 i w H0) in E; [done|].
    right. exact Hn.
Qed.

(** C27: sending a payload puts exactly its pieces on the wire, in order.  A
    successful send emits one datagram per piece of at most the MTU less the header
    budget: their payloads concatenated are the payload sent, they carry one order
    index, consecutive datagram and reliable indices and the split header that the
    receiver reassembles by; each fits the MTU and the datagram budget, and decodes
    at the other end to the frame that was meant. *)
Theorem fragmentation env payload a i w b :
  DATAGRAM_HEADER_BUDGET < mtu a <= DATAGRAM_HEADER_BUDGET + 8191 ->
  0 <= next_split_id a < 2 ^ 16 ->
  mtu a <= max_payload_bytes b -> mtu a <= max_datagram_bytes b <= usize_max ->
  send_reliable_ordered env payload (mkWorld a i) = (w, Ok tt) ->
  let ps := pieces (mtu a - DATAGRAM_HEADER_BUDGET) payload in
  let datagrams := imap (fun j c => fragment_datagram a (length ps) j c) ps in
  sent (io w) = sent i ++ map (fun d => (remote_addr a, d)) datagrams /\
  mjoin ps = payload /\
  Forall (fun d => len d <= mtu a /\ len d <= max_datagram_bytes (budgets a)) datagrams /\
  (forall j c, ps !! j = Some c ->
     decode_datagram (fragment_datagram a (length ps) j c) b =
       Ok (mkDatagram (advance (next_datagram a) (Z.of_nat j)) [fragment_frame a (length ps) j c])) /\
  next_ordered (actor w) = next (next_ordered a) /\
  next_datagram (actor w) = advance (next_datagram a) (len ps) /\
  next_reliable (actor w) = advance (next_reliable a) (len ps) /\
  next_split_id (actor w) = (next_split_id a + 1) mod 2 ^ 16.
Proof.
  intros [Hmtu Hmtu'] Hid Hpay Hdg Hrun ps datagrams.
  set (cap := mtu a - DATAGRAM_HEADER_BUDGET) in *. assert (0 < cap) as Hcap by (unfold cap; lia).
  destruct (pieces_spec cap payload Hcap) as (Hjoin & Hbound & Hcount). fold ps in Hjoin, Hbound, Hcount.
  apply (sending_pieces env payload a i w Hmtu) in Hrun as (Hn & Hsf & Hsent & Hfit).
  fold cap ps in Hn, Hsf, Hsent, Hfit. destruct Hsf as (Hd & Hr & Ho & Hs & _).
  assert (forall j c, ps !! j = Some c -> len (fragment_datagram a (length ps) j c) <= mtu a) as Hlen.
  { intros j c Hc. apply (Forall_lookup_1 _ _ _ _ Hbound) in Hc. unfold fragment_datagram.
    etransitivity; [apply length_encode_datagram|]. cbn. unfold cap, DATAGRAM_HEADER_BUDGET in *. lia. }
  split_and!; try done.
  - rewrite Hsent. f_equal. unfold datagrams. symmetry. apply fmap_imap.
  - apply imap_bound. intros j c Hc. split; [by apply Hlen|].
    apply (Forall_lookup_1 _ _ j (remote_addr a, fragment_datagram a (length ps) j c)) in Hfit; [done|].
    by rewrite list_lookup_imap, Hc.
  - intros j c Hc. specialize (Hlen j c Hc). apply lookup_lt_Some in Hc as Hj.
    apply (Forall_lookup_1 _ _ _ _ Hbound) in Hc.
    apply decode_fragment; try done; unfold cap, u32_max, DATAGRAM_HEADER_BUDGET in *; lia.
Qed.

(** A peer of a small MTU: 8 bytes are two pieces. *)
Definition narrow_peer : PeerActor :=
  actor_new (V4 (map Z_byte [10; 0; 0; 1]) 19132) 70 default_budgets (inbox_new 256) 0 true.

Lemma fragmentation_witness :
  let payload := map Z_byte [1; 2; 3; 4; 5; 6; 7; 8] in
  let ps := [map Z_byte [1; 2; 3; 4; 5; 6]; map Z_byte [7; 8]] in
  exists w, send_reliable_ordered sample_env payload (mkWorld narrow_peer (mkIO 0 [] [])) = (w, Ok tt) /\
    sent (io w) = [(remote_addr narrow_peer, fragment_datagram narrow_peer 2 0 (map Z_byte [1; 2; 3; 4; 5; 6]));
                   (remote_addr narrow_peer, fragment_datagram narrow_peer 2 1 (map Z_byte [7; 8]))] /\
    mjoin ps = payload.
Proof.
  exists (fst (send_reliable_ordered sample_env (map Z_byte [1; 2; 3; 4; 5; 6; 7; 8])
    (mkWorld narrow_peer (mkIO 0 [] [])))).
  assert (send_reliable_ordered sample_env (map Z_byte [1; 2; 3; 4; 5; 6; 7; 8])
    (mkWorld narrow_peer (mkIO 0 [] [])) = (fst (send_reliable_ordered sample_env
    (map Z_byte [1; 2; 3; 4; 5; 6; 7; 8]) (mkWorld narrow_peer (mkIO 0 [] []))), Ok tt)) as Hrun
    by (apply pair_snd; vm_compute; reflexivity).
  split; [exact Hrun|].
  destruct (fragmentation sample_env (map Z_byte [1; 2; 3; 4; 5; 6; 7; 8]) narrow_peer
    (mkIO 0 [] []) _ default_budgets ltac:(vm_compute; split; [reflexivity|discriminate])
    ltac:(vm_compute; split; [discriminate|reflexivity]) ltac:(vm_compute; discriminate)
    ltac:(vm_compute; split; discriminate) Hrun) as (Hsent & Hjoin & _).
  split; [exact Hsent|exact Hjoin].
Defined.

(** ** Properties: duplicates *)

(** Duplicates are acknowledged and dropped.  A datagram whose number is in the
    duplicate window is answered with its acknowledgement and counts as activity, and
    changes nothing else: none of its frames is looked at.  A frame whose reliable
    index is in the window is dropped without effect, in whatever datagram it comes. *)
Theorem duplicates_dropped env a i bytes dg :
  decode_acknowledgement bytes = Ok None -> decode_datagram bytes (budgets a) = Ok dg ->
  socket_ok env (S (ticks i)) = true ->
  (dg_sequence dg ∈ seen_datagrams a ->
   receive_datagram env bytes (mkWorld a i) =
     (mkWorld (set_activity (activity_observe (clock env (ticks i)) (activity a)) a)
        (mkIO (S (S (ticks i))) (sent i ++ [(remote_addr a, encode_ack (dg_sequence dg))])
           (accepted_peers i)), Ok tt)) /\
  (forall f index, reliable_index f = Some index -> index ∈ seen_reliable a ->
     receive_frame env f (mkWorld a i) = (mkWorld a i, Ok tt)).
Proof.
  intros Hack Hdg Hok. split.
  - intros Hseen. unfold receive_datagram, RaknetPeer.now, send_to, ask, mbind, M_bind, lift.
    cbn [actor io update self ticks]. rewrite Hack.
    cbn [actor io self]. change (budgets (set_activity ?v ?x)) with (budgets x). rewrite Hdg.
    cbn [actor io ticks]. rewrite Hok. cbn [modify actor io ticks sent accepted_peers].
    change (seen_datagrams (set_activity ?v ?x)) with (seen_datagrams x).
    by rewrite decide_True.
  - intros f index Hf Hseen. unfold receive_frame, mbind, M_bind. cbn [self actor].
    rewrite Hf. by rewrite decide_True.
Qed.

Lemma duplicates_dropped_witness :
  let a := set_seen_datagrams {[new 7]} narrow_peer in
  let i := mkIO 0 [] [] in
  receive_datagram sample_env (encode_datagram (new 7) sample_frame) (mkWorld a i) =
    (mkWorld (set_activity 0 a) (mkIO 2 [(remote_addr a, encode_ack (new 7))] []), Ok tt).
Proof.
  refine (proj1 (duplicates_dropped sample_env (set_seen_datagrams {[new 7]} narrow_peer)
    (mkIO 0 [] []) (encode_datagram (new 7) sample_frame) (mkDatagram (new 7) [sample_frame]) _ _ _) _).
  - vm_compute. reflexivity.
  - vm_compute. reflexivity.
  - reflexivity.
  - change (new 7 ∈ ({[new 7]} : gset DatagramSequence)). by apply elem_of_singleton.
Defined.
