(* ===== verification/VoxelModel.v ===== *)
(** * The data model of the voxel world
    ([crates/core/revy-voxel-semantic/src/model.rs])

    Blocks and their addresses, chunk columns and their sections, items, inventories
    and the slots of a window.  [BTreeMap] is [gmap]; where the code iterates over one
    its order is that of the keys and is written out.  Integers keep their width: [i32]
    additions wrap (release arithmetic), [u8] and [u16] values are [Z] in range.  An
    [f64] is a [spec_float] of the Standard Library.  [option] is a panic where a
    definition says so. *)

From Stdlib Require Import Ascii Floats.SpecFloat.
From S2P Require Import Prelude.

(** ** Integers *)

Definition wrap_i32 (z : Z) : Z := (z + 2 ^ 31) mod 2 ^ 32 - 2 ^ 31.
Definition in_i32 (z : Z) : Prop := - 2 ^ 31 <= z < 2 ^ 31.

Lemma wrap_i32_id z : in_i32 z -> wrap_i32 z = z.
Proof. unfold wrap_i32, in_i32. intros H. rewrite Z.mod_small; lia. Qed.

(** ** Blocks *)

Definition CHUNK_WIDTH : Z := 16.
Definition SECTION_HEIGHT : Z := 16.

Record BlockState : Type := mkBlockState { bs_key : string; properties : gmap string string }.
Definition block_state_new (key : string) : BlockState := mkBlockState key ∅.
#[export] Instance BlockState_eq_dec : EqDecision BlockState.
Proof. solve_decision. Defined.

Inductive BlockFace : Set := Bottom | Top | North | South | West | East.

Definition from_protocol_byte (v : Z) : option BlockFace :=
  match v with
  | 0 => Some Bottom
  | 1 => Some Top
  | 2 => Some North
  | 3 => Some South
  | 4 => Some West
  | 5 => Some East
  | _ => None
  end.

Definition face_offset (f : BlockFace) : Z * Z * Z :=
  match f with
  | Bottom => (0, -1, 0)
  | Top => (0, 1, 0)
  | North => (0, 0, -1)
  | South => (0, 0, 1)
  | West => (-1, 0, 0)
  | East => (1, 0, 0)
  end.

Record BlockPos : Set := mkBlockPos { bx : Z; by_ : Z; bz : Z }.
#[export] Instance BlockPos_eq_dec : EqDecision BlockPos.
Proof. solve_decision. Defined.
#[export] Instance BlockPos_countable : Countable BlockPos.
Proof.
  apply (inj_countable' (fun p => (bx p, by_ p, bz p)) (fun t => mkBlockPos t.1.1 t.1.2 t.2)).
  by intros [].
Defined.

Record ChunkPos : Set := mkChunkPos { cx : Z; cz : Z }.
#[export] Instance ChunkPos_eq_dec : EqDecision ChunkPos.
Proof. solve_decision. Defined.
#[export] Instance ChunkPos_countable : Countable ChunkPos.
Proof.
  apply (inj_countable' (fun p => (cx p, cz p)) (fun t => mkChunkPos t.1 t.2)). by intros [].
Defined.

(** [div_euclid] and [rem_euclid] by a positive width are [Z.div] and [Z.modulo]. *)
Definition block_chunk_pos (p : BlockPos) : ChunkPos :=
  mkChunkPos (bx p / CHUNK_WIDTH) (bz p / CHUNK_WIDTH).

Definition block_offset (p : BlockPos) (f : BlockFace) : BlockPos :=
  let '(dx, dy, dz) := face_offset f in
  mkBlockPos (wrap_i32 (bx p + dx)) (wrap_i32 (by_ p + dy)) (wrap_i32 (bz p + dz)).

(** ** Positions *)

Record Vec3 : Set := mkVec3 { vx : spec_float; vy : spec_float; vz : spec_float }.

#[export] Instance spec_float_eq_dec : EqDecision spec_float.
Proof. intros x y. unfold Decision. decide equality; solve [apply Bool.bool_dec|apply Pos.eq_dec|apply Z.eq_dec]. Defined.
#[export] Instance Vec3_eq_dec : EqDecision Vec3.
Proof. solve_decision. Defined.

(** [f64::floor] followed by [ToPrimitive::to_i32]: [None] for NaN, the infinities and
    what [i32] cannot hold. *)
Definition floor_Z (v : spec_float) : option Z :=
  match v with
  | S754_zero _ => Some 0
  | S754_finite s m e =>
      let z := if s then Z.neg m else Z.pos m in
      Some (if 0 <=? e then z * 2 ^ e else z / 2 ^ (- e))
  | S754_infinity _ | S754_nan => None
  end.
Definition to_i32 (z : Z) : option Z :=
  if (- 2 ^ 31 <=? z) && (z <? 2 ^ 31) then Some z else None.

(** [floor_to_i32]: [None] is the failing [expect]. *)
Definition floor_to_i32 (v : spec_float) : option Z := floor_Z v ≫= to_i32.

Definition from_world_position (x z : spec_float) : option ChunkPos :=
  block_x ← floor_to_i32 x;
  block_z ← floor_to_i32 z;
  Some (mkChunkPos (block_x / CHUNK_WIDTH) (block_z / CHUNK_WIDTH)).

Definition vec3_chunk_pos (v : Vec3) : option ChunkPos := from_world_position (vx v) (vz v).

(** ** The text form of a chunk position *)

(** [format!("{},{}", x, z)] *)
Definition serialize_chunk_pos (p : ChunkPos) : string :=
  pretty (cx p) +:+ "," +:+ pretty (cz p).

Definition is_digit (a : ascii) : option Z :=
  let n := Z.of_nat (nat_of_ascii a) in
  if (48 <=? n) && (n <=? 57) then Some (n - 48) else None.

Fixpoint parse_digits (acc : Z) (s : string) : option Z :=
  match s with
  | EmptyString => Some acc
  | String a s => d ← is_digit a; parse_digits (acc * 10 + d) s
  end.

(** [str::parse::<i32>]: an optional sign, at least one digit, in range. *)
Definition parse_i32 (s : string) : option Z :=
  match s with
  | EmptyString => None
  | String a rest =>
      let '(negative, digits) :=
        if Ascii.eqb a "-" then (true, rest)
        else if Ascii.eqb a "+" then (false, rest) else (false, s) in
      match digits with
      | EmptyString => None
      | _ => n ← parse_digits 0 digits; to_i32 (if (negative : bool) then - n else n)
      end
  end.

Fixpoint split_once (sep : ascii) (s : string) : option (string * string) :=
  match s with
  | EmptyString => None
  | String a rest =>
      if Ascii.eqb a sep then Some (EmptyString, rest)
      else '(l, r) ← split_once sep rest; Some (String a l, r)
  end.

Definition deserialize_chunk_pos (s : string) : option ChunkPos :=
  '(x, z) ← split_once "," s;
  x ← parse_i32 x;
  z ← parse_i32 z;
  Some (mkChunkPos x z).

(** ** Sections and columns *)

Definition section_index (x y z : Z) : Z := Z.lor (Z.lor (Z.shiftl y 8) (Z.shiftl z 4)) x.
Definition index_from_raw (raw : Z) : Z := Z.land raw 0x0fff.
Definition index_expand (i : Z) : Z * Z * Z :=
  (Z.land i 0x0f, Z.land (Z.shiftr i 8) 0x0f, Z.land (Z.shiftr i 4) 0x0f).
Definition expand_block_index (index : Z) : Z * Z * Z := index_expand (index_from_raw index).
Definition section_local_y (y : Z) : Z := y mod SECTION_HEIGHT.

Record ChunkSection : Type := mkSection { sec_y : Z; blocks : gmap Z BlockState }.
Definition section_new (y : Z) : ChunkSection := mkSection y ∅.
Definition section_get_block (s : ChunkSection) (x y z : Z) : option BlockState :=
  blocks s !! section_index x y z.
Definition section_set_block (x y z : Z) (state : option BlockState) (s : ChunkSection) :
    ChunkSection :=
  mkSection (sec_y s)
    match state with
    | Some b => <[section_index x y z := b]> (blocks s)
    | None => delete (section_index x y z) (blocks s)
    end.
Definition section_is_empty (s : ChunkSection) : bool := bool_decide (blocks s = ∅).

Record ChunkColumn : Type := mkColumn {
  col_pos : ChunkPos; sections : gmap Z ChunkSection; biomes : list Z
}.
#[export] Instance ChunkSection_eq_dec : EqDecision ChunkSection.
Proof. solve_decision. Defined.
#[export] Instance ChunkColumn_eq_dec : EqDecision ChunkColumn.
Proof. solve_decision. Defined.

Definition column_new (pos : ChunkPos) : ChunkColumn := mkColumn pos ∅ (replicate 256 1).
Definition set_sections (s : gmap Z ChunkSection) (c : ChunkColumn) : ChunkColumn :=
  mkColumn (col_pos c) s (biomes c).

Definition column_get_block (c : ChunkColumn) (x y z : Z) : option BlockState :=
  section ← sections c !! (y / SECTION_HEIGHT);
  section_get_block section x (section_local_y y) z.

Definition column_set_block (x y z : Z) (state : option BlockState) (c : ChunkColumn) : ChunkColumn :=
  let section_y := y / SECTION_HEIGHT in
  let local_y := section_local_y y in
  match state with
  | Some state =>
      let section := default (section_new section_y) (sections c !! section_y) in
      let section := section_set_block x local_y z (Some state) section in
      if section_is_empty section
      then set_sections (delete section_y (sections c)) c
      else set_sections (<[section_y := section]> (sections c)) c
  | None =>
      match sections c !! section_y with
      | None => c
      | Some section =>
          let section := section_set_block x local_y z None section in
          if section_is_empty section
          then set_sections (delete section_y (sections c)) c
          else set_sections (<[section_y := section]> (sections c)) c
      end
  end.

(** ** Views *)

(** [-radius..=radius] *)
Definition span (radius : Z) : list Z :=
  map (fun k => Z.of_nat k - radius) (seq 0 (Z.to_nat (2 * radius + 1))).

Definition required_chunks (center : ChunkPos) (view_distance : Z) : gset ChunkPos :=
  list_to_set (dz ← span view_distance; dx ← span view_distance;
    [mkChunkPos (wrap_i32 (cx center + dx)) (wrap_i32 (cz center + dz))]).

(** ** Addresses *)

Lemma section_index_eq x y z :
  0 <= x < 16 -> 0 <= z < 16 -> section_index x y z = y * 256 + z * 16 + x.
Proof.
  intros Hx Hz. unfold section_index.
  rewrite (lor_disjoint_add y (Z.shiftl z 4) 8); [|lia|rewrite Z.shiftl_mul_pow2; lia].
  rewrite Z.shiftl_mul_pow2 by lia.
  replace (y * 2 ^ 8 + z * 2 ^ 4) with (Z.shiftl (y * 16 + z) 4)
    by (rewrite Z.shiftl_mul_pow2; lia).
  rewrite (lor_disjoint_add _ x 4) by lia. lia.
Qed.

Lemma section_index_inj x y z x' y' z' :
  0 <= x < 16 -> 0 <= z < 16 -> 0 <= x' < 16 -> 0 <= z' < 16 ->
  section_index x y z = section_index x' y' z' -> x = x' /\ y = y' /\ z = z'.
Proof. intros. rewrite !section_index_eq in * by done. lia. Qed.

Lemma land_15 v : Z.land v 0x0f = v mod 16.
Proof. change 0x0f with (Z.ones 4). by rewrite Z.land_ones. Qed.

Lemma land_4095 v : Z.land v 0x0fff = v mod 4096.
Proof. change 0x0fff with (Z.ones 12). by rewrite Z.land_ones. Qed.

Lemma div_mod_digits i :
  i mod 16 + 16 * ((i / 16) mod 16) + 256 * ((i / 256) mod 16) = i mod 4096.
Proof.
  pose proof (Z.mod_pos_bound i 16). pose proof (Z.mod_pos_bound (i / 16) 16).
  pose proof (Z.mod_pos_bound (i / 256) 16).
  assert (i / 256 = i / 16 / 16) as E1 by (rewrite Z.div_div; done).
  assert (i / 4096 = i / 256 / 16) as E2 by (rewrite Z.div_div; done).
  pose proof (Z.div_mod i 16). pose proof (Z.div_mod (i / 16) 16).
  pose proof (Z.div_mod (i / 256) 16). pose proof (Z.div_mod i 4096). lia.
Qed.

Lemma section_digits x y z : 0 <= x < 16 -> 0 <= y < 16 -> 0 <= z < 16 ->
  let i := (y * 256 + z * 16 + x) mod 4096 in
  (i mod 16, (i / 256) mod 16, (i / 16) mod 16) = (x, y, z).
Proof.
  intros Hx Hy Hz. cbn zeta. rewrite (Z.mod_small _ 4096) by lia.
  assert (y * 256 + z * 16 + x = x + (y * 16 + z) * 16) as E by lia.
  assert ((y * 256 + z * 16 + x) / 256 = y) as -> by
    (symmetry; apply (Z.div_unique _ _ _ (z * 16 + x)); lia).
  rewrite E, Z.mod_add, Z.div_add, (Z.div_small x 16), (Z.mod_small x 16), (Z.mod_small y 16) by lia.
  replace (0 + (y * 16 + z)) with (z + y * 16) by lia.
  by rewrite Z.mod_add, (Z.mod_small z 16) by lia.
Qed.

Lemma section_local_y_range y : 0 <= section_local_y y < 16.
Proof. unfold section_local_y, SECTION_HEIGHT. apply Z.mod_pos_bound. lia. Qed.

(** The local coordinates of a position in its chunk. *)
Definition local_x (p : BlockPos) : Z := bx p mod CHUNK_WIDTH.
Definition local_z (p : BlockPos) : Z := bz p mod CHUNK_WIDTH.

Lemma local_range p : 0 <= local_x p < 16 /\ 0 <= local_z p < 16.
Proof. unfold local_x, local_z, CHUNK_WIDTH. split; apply Z.mod_pos_bound; lia. Qed.

(** A position is determined by its chunk, its section and its index there. *)
Lemma address_inj p q :
  block_chunk_pos p = block_chunk_pos q -> by_ p / SECTION_HEIGHT = by_ q / SECTION_HEIGHT ->
  section_index (local_x p) (section_local_y (by_ p)) (local_z p) =
    section_index (local_x q) (section_local_y (by_ q)) (local_z q) -> p = q.
Proof.
  intros Hc Hy Hi. pose proof (local_range p). pose proof (local_range q).
  apply section_index_inj in Hi as (Hx & Hly & Hz); [|tauto..].
  unfold block_chunk_pos, local_x, local_z, section_local_y, CHUNK_WIDTH, SECTION_HEIGHT in *.
  injection Hc as Hcx Hcz. destruct p as [x y z], q as [x' y' z']. cbn [bx by_ bz] in *.
  pose proof (Z.div_mod x 16). pose proof (Z.div_mod x' 16). pose proof (Z.div_mod y 16).
  pose proof (Z.div_mod y' 16). pose proof (Z.div_mod z 16). pose proof (Z.div_mod z' 16).
  f_equal; lia.
Qed.

(** ** Columns *)

(** Every section is stored under its own height and holds at least one block. *)
Definition column_ok (c : ChunkColumn) : Prop :=
  map_Forall (fun y s => sec_y s = y /\ blocks s <> ∅) (sections c).

Lemma section_get_set x y z x' y' z' st s :
  0 <= x < 16 -> 0 <= z < 16 -> 0 <= x' < 16 -> 0 <= z' < 16 ->
  section_get_block (section_set_block x y z st s) x' y' z' =
    if decide ((x', y', z') = (x, y, z)) then st else section_get_block s x' y' z'.
Proof.
  intros Hx Hz Hx' Hz'. unfold section_get_block, section_set_block. cbn [blocks].
  case_decide as E.
  - injection E as -> -> ->. destruct st; [apply lookup_insert_eq|apply lookup_delete_eq].
  - assert (section_index x y z <> section_index x' y' z') as Hne.
    { intros (-> & -> & ->)%section_index_inj; done. }
    destruct st; [by rewrite lookup_insert_ne|by rewrite lookup_delete_ne].
Qed.

Lemma column_set_sections x y z st c :
  sections (column_set_block x y z st c) =
    let section := section_set_block x (section_local_y y) z st
      (default (section_new (y / SECTION_HEIGHT)) (sections c !! (y / SECTION_HEIGHT))) in
    if section_is_empty section then delete (y / SECTION_HEIGHT) (sections c)
    else <[y / SECTION_HEIGHT := section]> (sections c).
Proof.
  unfold column_set_block. destruct st as [st|].
  - cbn zeta. by destruct (section_is_empty _).
  - destruct (sections c !! (y / SECTION_HEIGHT)) as [s|] eqn:E; cbn [default].
    + cbn zeta. change (default ?d (Some s)) with s. by destruct (section_is_empty _).
    + cbn zeta. change (default ?d None) with d.
      assert (section_is_empty (section_set_block x (section_local_y y) z None
        (section_new (y / SECTION_HEIGHT))) = true) as ->.
      { apply bool_decide_eq_true. apply delete_empty. }
      by rewrite delete_id.
Qed.

Lemma section_empty_get s x y z : section_is_empty s = true -> section_get_block s x y z = None.
Proof.
  intros H%bool_decide_eq_true. unfold section_get_block. by rewrite H, lookup_empty.
Qed.

Lemma column_get_set x y z x' y' z' st c :
  0 <= x < 16 -> 0 <= z < 16 -> 0 <= x' < 16 -> 0 <= z' < 16 ->
  column_get_block (column_set_block x y z st c) x' y' z' =
    if decide ((x', y', z') = (x, y, z)) then st else column_get_block c x' y' z'.
Proof.
  intros Hx Hz Hx' Hz'. unfold column_get_block. rewrite column_set_sections. cbn zeta.
  set (s0 := default _ _). set (s := section_set_block _ _ _ _ s0).
  assert (section_get_block s x' (section_local_y y') z' =
    if decide ((x', section_local_y y', z') = (x, section_local_y y, z)) then st
    else section_get_block s0 x' (section_local_y y') z') as Hs by (by apply section_get_set).
  assert (y' / SECTION_HEIGHT = y / SECTION_HEIGHT ->
    (x', section_local_y y', z') = (x, section_local_y y, z) <-> (x', y', z') = (x, y, z)) as Hxyz.
  { intros Hd. split; [|by intros [= -> -> ->]]. intros [= -> Hl ->].
    unfold section_local_y, SECTION_HEIGHT in *.
    pose proof (Z.div_mod y 16). pose proof (Z.div_mod y' 16). repeat f_equal. lia. }
  destruct (decide (y' / SECTION_HEIGHT = y / SECTION_HEIGHT)) as [Hd|Hd].
  - rewrite Hd. specialize (Hxyz Hd).
    assert ((if section_is_empty s then delete (y / SECTION_HEIGHT) (sections c)
      else <[y / SECTION_HEIGHT := s]> (sections c)) !! (y / SECTION_HEIGHT) ≫=
      (fun section => section_get_block section x' (section_local_y y') z') =
      section_get_block s x' (section_local_y y') z') as ->.
    { destruct (section_is_empty s) eqn:E.
      - rewrite lookup_delete_eq. cbn. by rewrite section_empty_get.
      - by rewrite lookup_insert_eq. }
    rewrite Hs. case_decide as H1; case_decide as H2;
      [done|by apply Hxyz in H1|by apply Hxyz in H2|].
    unfold s0. destruct (sections c !! (y / SECTION_HEIGHT)); [done|]. apply lookup_empty.
  - assert ((x', y', z') <> (x, y, z)) as Hne by congruence. rewrite decide_False by done.
    destruct (section_is_empty s); [by rewrite lookup_delete_ne|by rewrite lookup_insert_ne].
Qed.

Lemma column_ok_set x y z st c : column_ok c -> column_ok (column_set_block x y z st c).
Proof.
  intros Hc. unfold column_ok. rewrite column_set_sections. cbn zeta.
  destruct (section_is_empty _) eqn:E; [by apply map_Forall_delete|].
  apply map_Forall_insert_2; [|done]. apply bool_decide_eq_false in E. split; [|done].
  cbn [section_set_block sec_y]. destruct (sections c !! (y / SECTION_HEIGHT)) as [s|] eqn:Es; [|done].
  cbn. by destruct (Hc _ _ Es).
Qed.

Lemma column_set_pos x y z st c : col_pos (column_set_block x y z st c) = col_pos c.
Proof. unfold column_set_block. repeat case_match; done. Qed.

(** ** Decimal text *)

#[local] Arguments Ascii.eqb : simpl never.

Lemma is_digit_char x : (x < 10)%N -> is_digit (pretty_N_char x) = Some (Z.of_N x).
Proof.
  intros Hx. assert (x = 0 \/ x = 1 \/ x = 2 \/ x = 3 \/ x = 4 \/ x = 5 \/ x = 6 \/ x = 7 \/
    x = 8 \/ x = 9)%N as Hc by lia.
  repeat destruct Hc as [->|Hc]; try done. by subst.
Qed.

Fixpoint all_digits (s : string) : bool :=
  match s with
  | EmptyString => true
  | String a s => bool_decide (is_Some (is_digit a)) && all_digits s
  end.

Lemma parse_pretty_go x : forall s, parse_digits 0 (pretty_N_go x s) = parse_digits (Z.of_N x) s.
Proof.
  induction (N.lt_wf_0 x) as [x _ IH]; intros s.
  destruct (decide (x = 0)%N) as [->|Hx]; [by rewrite pretty_N_go_0|].
  rewrite pretty_N_go_step by lia. rewrite IH by (apply N.div_lt; lia).
  cbn [parse_digits]. rewrite is_digit_char by (apply N.mod_lt; lia). cbn. f_equal.
  rewrite N2Z.inj_div, N2Z.inj_mod. pose proof (Z.div_mod (Z.of_N x) 10). lia.
Qed.

Lemma all_digits_go x : forall s, all_digits s = true -> all_digits (pretty_N_go x s) = true.
Proof.
  induction (N.lt_wf_0 x) as [x _ IH]; intros s Hs.
  destruct (decide (x = 0)%N) as [->|Hx]; [by rewrite pretty_N_go_0|].
  rewrite pretty_N_go_step by lia. apply IH; [apply N.div_lt; lia|].
  cbn [all_digits]. rewrite is_digit_char by (apply N.mod_lt; lia). by rewrite Hs.
Qed.

Lemma pretty_pos_digits p :
  exists a s, pretty_N_go (N.pos p) "" = String a s /\ all_digits (String a s) = true.
Proof.
  pose proof (all_digits_go (N.pos p) "" eq_refl) as Hd.
  destruct (pretty_N_go (N.pos p) "") as [|a s] eqn:E; [|by exists a, s].
  pose proof (parse_pretty_go (N.pos p) "") as H. rewrite E in H. discriminate H.
Qed.

Lemma digit_not c a :
  is_digit c = None -> bool_decide (is_Some (is_digit a)) = true -> Ascii.eqb a c = false.
Proof.
  intros Hc Ha%bool_decide_eq_true. apply Ascii.eqb_neq. intros ->. rewrite Hc in Ha.
  by destruct Ha.
Qed.

Lemma parse_i32_pretty z : parse_i32 (pretty z) = to_i32 z.
Proof.
  destruct z as [|p|p]; [done| |].
  - change (pretty (Z.pos p)) with (pretty_N_go (N.pos p) "").
    destruct (pretty_pos_digits p) as (a & s & E & Hd). pose proof (parse_pretty_go (N.pos p) "") as H.
    rewrite E in *. cbn [all_digits] in Hd. apply andb_true_iff in Hd as [Ha _].
    cbn [parse_i32]. rewrite (digit_not "-" a), (digit_not "+" a) by done. by rewrite H.
  - change (pretty (Z.neg p)) with (String "-" (pretty_N_go (N.pos p) "")).
    destruct (pretty_pos_digits p) as (a & s & E & Hd). pose proof (parse_pretty_go (N.pos p) "") as H.
    cbn [parse_i32]. rewrite Ascii.eqb_refl. rewrite E in *. by rewrite H.
Qed.

Lemma split_once_digits s r : all_digits s = true -> split_once "," (s +:+ String "," r) = Some (s, r).
Proof.
  induction s as [|a s IH]; intros Hd; [done|]. cbn [all_digits] in Hd.
  apply andb_true_iff in Hd as [Ha Hs].
  change (String a s +:+ ?t) with (String a (s +:+ t)). cbn [split_once].
  rewrite (digit_not "," a) by done. by rewrite IH.
Qed.

Lemma split_once_pretty (z : Z) r : split_once "," (pretty z +:+ String "," r) = Some (pretty z, r).
Proof.
  destruct z as [|p|p]; [done| |].
  - apply split_once_digits. by apply (all_digits_go (N.pos p)).
  - change (pretty (Z.neg p)) with (String "-" (pretty_N_go (N.pos p) "")).
    change (String "-" ?s +:+ ?t) with (String "-" (s +:+ t)). cbn [split_once].
    change (Ascii.eqb "-" ",") with false. cbn iota.
    rewrite split_once_digits; [done|]. by apply all_digits_go.
Qed.

(** ** Views *)

Lemma elem_of_span r k : 0 <= r -> k ∈ span r <-> - r <= k <= r.
Proof.
  intros Hr. unfold span. rewrite list_elem_of_fmap. split.
  - intros (n & -> & Hn%elem_of_seq). lia.
  - intros Hk. exists (Z.to_nat (k + r)). rewrite elem_of_seq. lia.
Qed.

Lemma NoDup_span r : NoDup (span r).
Proof. apply NoDup_fmap_2; [intros ? ?; lia|apply NoDup_seq]. Qed.

Definition view_list (center : ChunkPos) (r : Z) : list ChunkPos :=
  dz ← span r; dx ← span r; [mkChunkPos (wrap_i32 (cx center + dx)) (wrap_i32 (cz center + dz))].

(** The view does not reach the end of the coordinate range. *)
Definition view_fits (center : ChunkPos) (r : Z) : Prop :=
  0 <= r /\ - 2 ^ 31 <= cx center - r /\ cx center + r < 2 ^ 31 /\
  - 2 ^ 31 <= cz center - r /\ cz center + r < 2 ^ 31.

Lemma elem_of_view_list center r p :
  view_fits center r ->
  p ∈ view_list center r <-> - r <= cx p - cx center <= r /\ - r <= cz p - cz center <= r.
Proof.
  intros (Hr & ? & ? & ? & ?). unfold view_list. rewrite list_elem_of_bind. split.
  - intros (dz & (dx & Hp%list_elem_of_singleton & Hdx)%list_elem_of_bind & Hdz).
    rewrite elem_of_span in Hdx, Hdz by done. subst p. cbn.
    rewrite !wrap_i32_id by (unfold in_i32; lia). lia.
  - intros [Hx Hz]. exists (cz p - cz center). split; [|by apply elem_of_span].
    apply list_elem_of_bind. exists (cx p - cx center). split; [|by apply elem_of_span].
    apply list_elem_of_singleton. destruct p as [x z]. cbn in *.
    rewrite !wrap_i32_id by (unfold in_i32; lia). f_equal; lia.
Qed.

Lemma NoDup_view_list center r : view_fits center r -> NoDup (view_list center r).
Proof.
  intros (Hr & ? & ? & ? & ?). apply NoDup_bind; [|intros dz Hdz; apply NoDup_bind|apply NoDup_span].
  - intros z1 z2 p Hz1 Hz2 (x1 & ->%list_elem_of_singleton & Hx1)%list_elem_of_bind
      (x2 & Hp%list_elem_of_singleton & Hx2)%list_elem_of_bind.
    rewrite elem_of_span in * by done. injection Hp as _ Hp.
    rewrite !wrap_i32_id in Hp by (unfold in_i32; lia). lia.
  - intros x1 x2 p Hx1 Hx2 ->%list_elem_of_singleton Hp%list_elem_of_singleton.
    rewrite elem_of_span in * by done. injection Hp as Hp.
    rewrite !wrap_i32_id in Hp by (unfold in_i32; lia). lia.
  - intros dx _. apply NoDup_singleton.
  - apply NoDup_span.
Qed.

Lemma length_view_list center r : 0 <= r -> length (view_list center r) = Z.to_nat ((2 * r + 1) * (2 * r + 1)).
Proof.
  intros Hr. unfold view_list.
  assert (forall {A B} (f : A -> list B) l n, (forall x, length (f x) = n) ->
    length (l ≫= f) = (length l * n)%nat) as Hlen.
  { intros A B f l n Hf. induction l as [|x l IH]; [done|].
    rewrite bind_cons, length_app, Hf, IH. done. }
  rewrite (Hlen _ _ _ _ (length (span r))).
  - unfold span. rewrite length_map, length_seq. lia.
  - intros dz. rewrite (Hlen _ _ _ _ 1%nat) by done. lia.
Qed.

(** ** The properties of the data model *)

(** A block position is exactly its address: two positions are equal if and only if
    they have the same chunk, the same section and the same index in it; the index is
    below 4096 and [expand_block_index] recovers the local coordinates from it; and every
    raw index is the address of what it expands to. *)
Theorem block_addressing p q i :
  let address p := (block_chunk_pos p, by_ p / SECTION_HEIGHT,
    section_index (local_x p) (section_local_y (by_ p)) (local_z p)) in
  (address p = address q <-> p = q) /\
  0 <= (address p).2 < 4096 /\
  expand_block_index (address p).2 = (local_x p, section_local_y (by_ p), local_z p) /\
  (let '(x, y, z) := expand_block_index i in section_index x y z = index_from_raw i).
Proof.
  cbn zeta beta. cbn [snd]. pose proof (local_range p) as [Hx Hz].
  pose proof (section_local_y_range (by_ p)) as Hy. split_and!.
  - split; [|by intros ->]. intros [= Hcx Hcz Hs Hi]. apply address_inj; [|done..].
    unfold block_chunk_pos. by f_equal.
  - rewrite section_index_eq by done. lia.
  - rewrite section_index_eq by done. lia.
  - rewrite section_index_eq by done. unfold expand_block_index, index_expand, index_from_raw.
    rewrite !land_15, land_4095, !Z.shiftr_div_pow2 by lia.
    change (2 ^ 8) with 256. change (2 ^ 4) with 16. rewrite section_digits by done. done.
  - unfold expand_block_index, index_expand, index_from_raw. cbn iota beta.
    rewrite !land_15, !Z.shiftr_div_pow2, section_index_eq by (try apply Z.mod_pos_bound; lia).
    rewrite land_4095. change (2 ^ 8) with 256. change (2 ^ 4) with 16.
    pose proof (div_mod_digits (i mod 4096)). rewrite Z.mod_mod in * by lia. lia.
Qed.

(** Setting a block of a column changes that block and no other, keeps the position
    of the column, and keeps the representation minimal: every stored section is stored
    under its own height and holds at least one block, so a section disappears with its
    last block. *)
Theorem column_set_block_spec x y z st c :
  0 <= x < 16 -> 0 <= z < 16 -> column_ok c ->
  let c' := column_set_block x y z st c in
  column_get_block c' x y z = st /\
  (forall x' y' z', 0 <= x' < 16 -> 0 <= z' < 16 -> (x', y', z') <> (x, y, z) ->
     column_get_block c' x' y' z' = column_get_block c x' y' z') /\
  column_ok c' /\ col_pos c' = col_pos c /\ biomes c' = biomes c.
Proof.
  intros Hx Hz Hc. cbn zeta. split_and!.
  - rewrite column_get_set by done. by rewrite decide_True.
  - intros x' y' z' Hx' Hz' Hne. rewrite column_get_set by done. by rewrite decide_False.
  - by apply column_ok_set.
  - apply column_set_pos.
  - unfold column_set_block. repeat case_match; done.
Qed.

Definition sample_stone : BlockState := block_state_new "minecraft:stone".

Lemma column_set_block_spec_witness :
  let c := column_set_block 3 (-1) 5 (Some sample_stone) (column_new (mkChunkPos 0 0)) in
  column_get_block c 3 (-1) 5 = Some sample_stone /\
  sections (column_set_block 3 (-1) 5 None c) = ∅ /\ column_ok c.
Proof.
  split; [vm_compute; reflexivity|]. split; [vm_compute; reflexivity|].
  refine (proj1 (proj2 (proj2
    (column_set_block_spec 3 (-1) 5 (Some sample_stone) (column_new (mkChunkPos 0 0)) _ _ _))));
    [lia|lia|apply map_Forall_empty].
Defined.

(** The text form of a chunk position reads back as that position, for every pair of
    32-bit coordinates, and what reads back is always in range. *)
Theorem chunk_pos_text_roundtrip p :
  in_i32 (cx p) -> in_i32 (cz p) -> deserialize_chunk_pos (serialize_chunk_pos p) = Some p.
Proof.
  intros Hx Hz. unfold deserialize_chunk_pos, serialize_chunk_pos.
  change ("," +:+ pretty (cz p)) with (String "," (pretty (cz p))).
  rewrite split_once_pretty. cbn. rewrite !parse_i32_pretty. unfold to_i32, in_i32 in *.
  rewrite !(proj2 (Z.leb_le _ _)), !(proj2 (Z.ltb_lt _ _)) by tauto. cbn. by destruct p.
Qed.

Lemma chunk_pos_text_roundtrip_witness :
  serialize_chunk_pos (mkChunkPos (-12) 7) = "-12,7" /\
  deserialize_chunk_pos "-12,7" = Some (mkChunkPos (-12) 7).
Proof.
  split; [vm_compute; reflexivity|].
  change "-12,7" with (serialize_chunk_pos (mkChunkPos (-12) 7)).
  apply chunk_pos_text_roundtrip; unfold in_i32; cbn; lia.
Defined.

(** Away from the ends of the coordinate range, the chunks a view requires are
    exactly the square of side [2r+1] around its centre, the centre among them, and
    there are [(2r+1)^2] of them. *)
Theorem required_chunks_square center r :
  view_fits center r ->
  (forall p, p ∈ required_chunks center r <->
     - r <= cx p - cx center <= r /\ - r <= cz p - cz center <= r) /\
  center ∈ required_chunks center r /\
  Z.of_nat (size (required_chunks center r)) = (2 * r + 1) * (2 * r + 1).
Proof.
  intros Hf. change (required_chunks center r) with (list_to_set (view_list center r) : gset ChunkPos).
  assert (0 <= r) as Hr by apply Hf. split_and!.
  - intros p. rewrite elem_of_list_to_set. by apply elem_of_view_list.
  - rewrite elem_of_list_to_set. apply elem_of_view_list; [done|]. lia.
  - rewrite size_list_to_set by (by apply NoDup_view_list). rewrite length_view_list by done. lia.
Qed.

Lemma required_chunks_square_witness :
  view_fits (mkChunkPos (-3) 4) 2 /\ size (required_chunks (mkChunkPos (-3) 4) 2) = 25%nat.
Proof.
  assert (view_fits (mkChunkPos (-3) 4) 2) as H by (unfold view_fits; cbn; lia).
  split; [done|]. pose proof (proj2 (proj2 (required_chunks_square _ _ H))). lia.
Defined.
