(* ===== verification/VoxelItems.v ===== *)
(** * Items, inventories and the content interface
    ([crates/core/revy-voxel-semantic/src/model.rs], [.../rules.rs],
    [crates/core/revy-voxel-core/src/core/inventory/util.rs])

    Item stacks and their data, the player inventory and the slots that address it, the
    contents of a window, containers and block entities, and [ContentBehavior], the trait
    through which the core asks a content pack for its rules.  The trait is a type class:
    the core calls it through a trait object and relies on nothing else of it.  A [u8]
    or [u16] is a [Z] in range; [option] around a result is a failing index or [expect]
    where the comment says so, otherwise Rust's own [Option]. *)

From stdpp Require Import sorting.
From S2P Require Import Prelude VoxelModel.

(** ** Item data *)

(** The entries of a [BTreeMap] inside a value, in key order. *)
Inductive ItemDataValue : Set :=
| DataByte (v : Z)
| DataShort (v : Z)
| DataInt (v : Z)
| DataLong (v : Z)
| DataFloat (bits : Z)
| DataDouble (bits : Z)
| DataByteArray (v : list Z)
| DataString (v : string)
| DataList (v : list ItemDataValue)
| DataCompound (entries : list (string * ItemDataValue))
| DataIntArray (v : list Z)
| DataLongArray (v : list Z).

#[export] Instance ItemDataValue_eq_dec : EqDecision ItemDataValue.
Proof.
  refine (fix go (v w : ItemDataValue) {struct v} : Decision (v = w) :=
    let _ : EqDecision ItemDataValue := @go in
    match v, w with
    | DataByte a, DataByte b => cast_if (decide (a = b))
    | DataShort a, DataShort b => cast_if (decide (a = b))
    | DataInt a, DataInt b => cast_if (decide (a = b))
    | DataLong a, DataLong b => cast_if (decide (a = b))
    | DataFloat a, DataFloat b => cast_if (decide (a = b))
    | DataDouble a, DataDouble b => cast_if (decide (a = b))
    | DataByteArray a, DataByteArray b => cast_if (decide (a = b))
    | DataString a, DataString b => cast_if (decide (a = b))
    | DataList a, DataList b => cast_if (decide (a = b))
    | DataCompound a, DataCompound b => cast_if (decide (a = b))
    | DataIntArray a, DataIntArray b => cast_if (decide (a = b))
    | DataLongArray a, DataLongArray b => cast_if (decide (a = b))
    | _, _ => right _
    end); match goal with r := _ |- _ => clear r end; clear go; abstract congruence.
Defined.

(** [ItemDataMap], a transparent wrapper of the [BTreeMap]. *)
Definition ItemDataMap : Type := gmap string ItemDataValue.

Record ItemStack : Type := mkItemStack {
  item_key : string; count : Z; damage : Z; components : ItemDataMap; extra : ItemDataMap
}.
#[export] Instance ItemStack_eq_dec : EqDecision ItemStack.
Proof. solve_decision. Defined.

Definition item_stack_new (key : string) (n dmg : Z) : ItemStack := mkItemStack key n dmg ∅ ∅.
Definition item_stack_unsupported (n dmg : Z) : ItemStack :=
  item_stack_new "minecraft:unsupported" n dmg.
Definition is_legacy_compatible (s : ItemStack) : bool :=
  bool_decide (components s = ∅) && bool_decide (extra s = ∅).
Definition has_modern_payload (s : ItemStack) : bool := negb (is_legacy_compatible s).
Definition with_count (n : Z) (s : ItemStack) : ItemStack :=
  mkItemStack (item_key s) n (damage s) (components s) (extra s).

(** ** Inventories and slots *)

Definition PLAYER_INVENTORY_SLOT_COUNT : Z := 45.
Definition AUXILIARY_SLOT_COUNT : Z := 9.
Definition MAIN_INVENTORY_SLOT_COUNT : Z := 27.
Definition HOTBAR_START_SLOT : Z := 36.
Definition HOTBAR_SLOT_COUNT : Z := 9.

Inductive InventorySlot : Set :=
| WindowLocal (index : Z)
| MainInventory (index : Z)
| Hotbar (index : Z)
| Offhand.
#[export] Instance InventorySlot_eq_dec : EqDecision InventorySlot.
Proof. solve_decision. Defined.

Definition crafting_result_slot : InventorySlot := WindowLocal 0.
Definition crafting_input_slot (index : Z) : option InventorySlot :=
  if index <? 4 then Some (WindowLocal (index + 1)) else None.

Definition legacy_window_index (s : InventorySlot) : option Z :=
  match s with
  | WindowLocal i => if i <? AUXILIARY_SLOT_COUNT then Some i else None
  | MainInventory i =>
      if i <? MAIN_INVENTORY_SLOT_COUNT then Some (AUXILIARY_SLOT_COUNT + i) else None
  | Hotbar i => if i <? HOTBAR_SLOT_COUNT then Some (HOTBAR_START_SLOT + i) else None
  | Offhand => None
  end.

Definition is_storage_slot (s : InventorySlot) : bool :=
  match s with MainInventory _ | Hotbar _ | Offhand => true | WindowLocal _ => false end.
Definition container_index (s : InventorySlot) : option Z :=
  match s with WindowLocal i => if i <=? u8_max then Some i else None | _ => None end.
Definition is_crafting_result (s : InventorySlot) : bool :=
  match s with WindowLocal 0 => true | _ => false end.
Definition crafting_input_index (s : InventorySlot) : option Z :=
  match s with
  | WindowLocal i => if (1 <=? i) && (i <=? 4) then Some (i - 1) else None
  | _ => None
  end.
Definition is_reserved_auxiliary (s : InventorySlot) : bool :=
  match s with WindowLocal i => (5 <=? i) && (i <=? 8) | _ => false end.

Record PlayerInventory : Type := mkInventory {
  slots : list (option ItemStack); offhand : option ItemStack
}.
#[export] Instance PlayerInventory_eq_dec : EqDecision PlayerInventory.
Proof. solve_decision. Defined.

Definition new_empty : PlayerInventory :=
  mkInventory (replicate (Z.to_nat PLAYER_INVENTORY_SLOT_COUNT) None) None.

Definition inv_get (inv : PlayerInventory) (slot : Z) : option ItemStack :=
  s ← slots inv !! Z.to_nat slot; s.

(** [None]: the index into [slots] is out of range and panics. *)
Definition inv_set (slot : Z) (stack : option ItemStack) (inv : PlayerInventory) :
    option (bool * PlayerInventory) :=
  if PLAYER_INVENTORY_SLOT_COUNT <=? slot then Some (false, inv)
  else if slot <? len (slots inv)
    then Some (true, mkInventory (<[Z.to_nat slot := stack]> (slots inv)) (offhand inv))
    else None.

Definition selected_hotbar_stack (inv : PlayerInventory) (selected : Z) : option ItemStack :=
  if HOTBAR_SLOT_COUNT <=? selected then None else inv_get inv (HOTBAR_START_SLOT + selected).

Definition get_slot (inv : PlayerInventory) (slot : InventorySlot) : option ItemStack :=
  match slot with
  | Offhand => offhand inv
  | _ => legacy ← legacy_window_index slot; inv_get inv legacy
  end.

(** [None] is the panic of [inv_set]. *)
Definition set_slot (slot : InventorySlot) (stack : option ItemStack) (inv : PlayerInventory) :
    option (bool * PlayerInventory) :=
  match slot with
  | Offhand => Some (true, mkInventory (slots inv) stack)
  | _ =>
      match legacy_window_index slot with
      | Some legacy => inv_set legacy stack inv
      | None => Some (false, inv)
      end
  end.

(** [get_slot_mut(slot)] and the use [f] of the reference it returns; [None] when it
    returns none. *)
Definition with_slot_mut {A} (slot : InventorySlot)
    (f : option ItemStack -> A * option ItemStack) (inv : PlayerInventory) :
    option (A * PlayerInventory) :=
  match slot with
  | Offhand => let '(a, s) := f (offhand inv) in Some (a, mkInventory (slots inv) s)
  | _ =>
      legacy ← legacy_window_index slot;
      stack ← slots inv !! Z.to_nat legacy;
      let '(a, s) := f stack in
      Some (a, mkInventory (<[Z.to_nat legacy := s]> (slots inv)) (offhand inv))
  end.

Inductive InteractionHand : Set := HandMain | HandOffhand.
Definition selected_stack (inv : PlayerInventory) (selected : Z) (hand : InteractionHand) :
    option ItemStack :=
  match hand with
  | HandMain => selected_hotbar_stack inv selected
  | HandOffhand => offhand inv
  end.

Definition crafting_result (inv : PlayerInventory) : option ItemStack :=
  get_slot inv crafting_result_slot.
Definition set_crafting_result (stack : option ItemStack) (inv : PlayerInventory) :
    option (bool * PlayerInventory) := set_slot crafting_result_slot stack inv.
Definition crafting_input (inv : PlayerInventory) (index : Z) : option ItemStack :=
  slot ← crafting_input_slot index; get_slot inv slot.
Definition set_crafting_input (index : Z) (stack : option ItemStack) (inv : PlayerInventory) :
    option (bool * PlayerInventory) :=
  match crafting_input_slot index with
  | Some slot => set_slot slot stack inv
  | None => Some (false, inv)
  end.

(** [(from..to)] as unsigned integers. *)
Definition range_Z (from to : Z) : list Z :=
  map (fun k => from + Z.of_nat k) (seq 0 (Z.to_nat (to - from))).

Record InventoryWindowContents : Type := mkContents {
  wc_inventory : PlayerInventory; wc_local : list (option ItemStack)
}.
#[export] Instance InventoryWindowContents_eq_dec : EqDecision InventoryWindowContents.
Proof. solve_decision. Defined.

Definition contents_player (inv : PlayerInventory) : InventoryWindowContents :=
  mkContents inv (map (fun i => get_slot inv (WindowLocal i)) (range_Z 0 AUXILIARY_SLOT_COUNT)).
Definition with_local_slots (inv : PlayerInventory) (local : list (option ItemStack)) :
    InventoryWindowContents := mkContents inv local.
Definition contents_get_slot (c : InventoryWindowContents) (slot : InventorySlot) :
    option ItemStack :=
  match slot with
  | WindowLocal i => s ← wc_local c !! Z.to_nat i; s
  | _ => get_slot (wc_inventory c) slot
  end.

Inductive InventoryClickButton : Set := LeftButton | RightButton.
Inductive InventoryClickTarget : Set :=
| TargetSlot (slot : InventorySlot) | TargetOutside | TargetUnsupported.
Inductive InventoryClickValidation : Type :=
| StrictSlotEcho (clicked_item : option ItemStack) | Authoritative.
Record InventoryTransactionContext : Set := mkTransaction { tr_window_id : Z; action_number : Z }.

Record DroppedItemSnapshot : Type := mkDropped {
  di_item : ItemStack; di_position : Vec3; di_velocity : Vec3
}.

(** ** Containers and block entities ([rules.rs]) *)

Inductive DimensionId : Set := Overworld.
Record WorldMeta : Type := mkWorldMeta {
  wm_level_name : string; wm_seed : Z; wm_spawn : BlockPos; wm_dimension : DimensionId;
  age : Z; time : Z; level_type : string; wm_game_mode : Z; wm_difficulty : Z;
  wm_max_players : Z
}.

Inductive ToolClass : Set := Pickaxe | Shovel | Axe.
Record MiningToolSpec : Set := mkToolSpec { tool_class : ToolClass; tier : Z }.
#[export] Instance MiningToolSpec_eq_dec : EqDecision MiningToolSpec.
Proof. unfold EqDecision, Decision. decide equality; [apply Z.eq_dec|decide equality]. Defined.

Inductive ContainerSlotRole : Set := Generic | OutputOnly | Unavailable.
Record ContainerSpec : Type := mkSpec {
  local_slot_count : Z; slot_roles : gmap Z ContainerSlotRole
}.
Definition slot_role (spec : ContainerSpec) (index : Z) : ContainerSlotRole :=
  default Generic (slot_roles spec !! index).

Inductive ContainerBinding : Type :=
| Virtual
| BoundBlock (position : BlockPos) (block_entity_kind : string).

Record OpenContainerState : Type := mkContainer {
  oc_kind : string; binding : ContainerBinding;
  local_slots : list (option ItemStack); oc_properties : gmap string Z
}.
Record ContainerBlockEntityState : Type := mkBlockEntity {
  be_kind : string; be_slots : list (option ItemStack); be_properties : gmap string Z
}.
#[export] Instance ContainerBinding_eq_dec : EqDecision ContainerBinding.
Proof. solve_decision. Defined.
#[export] Instance OpenContainerState_eq_dec : EqDecision OpenContainerState.
Proof. solve_decision. Defined.
#[export] Instance ContainerBlockEntityState_eq_dec : EqDecision ContainerBlockEntityState.
Proof. solve_decision. Defined.

Inductive BlockEntityState : Type := BEContainer (c : ContainerBlockEntityState).
#[export] Instance BlockEntityState_eq_dec : EqDecision BlockEntityState.
Proof. solve_decision. Defined.
Definition container_state (e : BlockEntityState) : option ContainerBlockEntityState :=
  match e with BEContainer c => Some c end.
Definition has_inventory_contents (e : BlockEntityState) : bool :=
  match e with BEContainer c => existsb (fun s => bool_decide (is_Some s)) (be_slots c) end.

Definition set_local_slots (l : list (option ItemStack)) (c : OpenContainerState) :
    OpenContainerState := mkContainer (oc_kind c) (binding c) l (oc_properties c).
Definition set_oc_properties (m : gmap string Z) (c : OpenContainerState) : OpenContainerState :=
  mkContainer (oc_kind c) (binding c) (local_slots c) m.

Definition world_position (c : OpenContainerState) : option BlockPos :=
  match binding c with Virtual => None | BoundBlock p _ => Some p end.
Definition block_entity_kind (c : OpenContainerState) : option string :=
  match binding c with Virtual => None | BoundBlock _ k => Some k end.
Definition block_entity_state (c : OpenContainerState) : option ContainerBlockEntityState :=
  k ← block_entity_kind c; Some (mkBlockEntity k (local_slots c) (oc_properties c)).
(** [local_slot_mut(index)] and the use [f] of the reference. *)
Definition with_local_slot_mut {A} (index : Z) (f : option ItemStack -> A * option ItemStack)
    (c : OpenContainerState) : option (A * OpenContainerState) :=
  stack ← local_slots c !! Z.to_nat index;
  let '(a, s) := f stack in
  Some (a, set_local_slots (<[Z.to_nat index := s]> (local_slots c)) c).

(** The entries of a [BTreeMap<String, _>] in its order, that of the keys' bytes. *)
Definition key_order {A} (a b : string * A) : Prop := String.leb a.1 b.1 = true.
#[export] Instance key_order_dec {A} : RelDecision (@key_order A).
Proof. intros a b. unfold key_order. apply _. Defined.
Definition property_entries (c : OpenContainerState) : list (string * Z) :=
  merge_sort key_order (map_to_list (oc_properties c)).

(** [trait ContentBehavior].  A method that takes a [&mut] argument returns it; those
    that change slots by index can panic. *)
Class ContentBehavior : Type := mkContentBehavior {
  generate_chunk : WorldMeta -> ChunkPos -> ChunkColumn;
  player_container_kind : string;
  container_spec : string -> option ContainerSpec;
  container_title : string -> string;
  container_kind_for_block : BlockState -> option string;
  default_block_entity_for_block : BlockState -> option ContainerBlockEntityState;
  default_block_entity_for_kind : string -> option ContainerBlockEntityState;
  block_entity_kind_for_container : string -> option string;
  container_kind_for_block_entity : ContainerBlockEntityState -> option string;
  is_air_block : BlockState -> bool;
  is_unbreakable_block : BlockState -> bool;
  placeable_block_state_from_item_key : string -> option BlockState;
  is_supported_inventory_item : string -> bool;
  starter_inventory : PlayerInventory;
  tool_spec_for_item : option ItemStack -> option MiningToolSpec;
  survival_mining_duration_ms : BlockState -> option MiningToolSpec -> option Z;
  survival_drop_for_block : BlockState -> option ItemStack;
  normalize_container : OpenContainerState -> option OpenContainerState;
  normalize_player_inventory : PlayerInventory -> option PlayerInventory;
  try_take_output : string -> list (option ItemStack) -> option ItemStack ->
    InventoryClickButton -> option (bool * list (option ItemStack) * option ItemStack);
  tick_container : OpenContainerState -> option OpenContainerState
}.

(** ** Stacks ([inventory/util.rs]) *)

Definition MAX_STACK_SIZE : Z := 64.

Definition decrement_cursor (cursor : option ItemStack) : option ItemStack :=
  match cursor with
  | None => None
  | Some stack =>
      let n := saturating_sub (count stack) 1 in
      if n =? 0 then None else Some (with_count n stack)
  end.

Definition stack_keys_match (l r : ItemStack) : bool :=
  bool_decide (item_key l = item_key r) && (damage l =? damage r) &&
  bool_decide (components l = components r) && bool_decide (extra l = extra r).

Definition persistent_slot_order : list InventorySlot :=
  map Hotbar (range_Z 0 9) ++ map MainInventory (range_Z 0 27) ++ [Offhand].

(** The first loop: the stack is poured into the matching slots that are not full.
    [true]: nothing is left and the function returns. *)
Fixpoint merge_matching (order : list InventorySlot) (inv : PlayerInventory) (stack : ItemStack) :
    option (bool * PlayerInventory * ItemStack) :=
  match order with
  | [] => Some (false, inv, stack)
  | slot :: order =>
      match get_slot inv slot with
      | None => merge_matching order inv stack
      | Some existing =>
          if negb (stack_keys_match existing stack) || (MAX_STACK_SIZE <=? count existing)
          then merge_matching order inv stack
          else
            let available := saturating_sub MAX_STACK_SIZE (count existing) in
            let moved := Z.min available (count stack) in
            let next := with_count (saturating_add u8_max (count existing) moved) existing in
            '(_, inv) ← set_slot slot (Some next) inv;
            let stack := with_count (saturating_sub (count stack) moved) stack in
            if count stack =? 0 then Some (true, inv, stack) else merge_matching order inv stack
      end
  end.

(** The second loop: what is left goes into the first empty slot. *)
Fixpoint merge_empty (order : list InventorySlot) (inv : PlayerInventory) (stack : ItemStack) :
    option (PlayerInventory * option ItemStack) :=
  match order with
  | [] => Some (inv, Some stack)
  | slot :: order =>
      match get_slot inv slot with
      | Some _ => merge_empty order inv stack
      | None => '(_, inv) ← set_slot slot (Some stack) inv; Some (inv, None)
      end
  end.

Definition merge_stack_into_player_inventory (inv : PlayerInventory) (stack : ItemStack) :
    option (PlayerInventory * option ItemStack) :=
  '(returned, inv, stack) ← merge_matching persistent_slot_order inv stack;
  if (returned : bool) then Some (inv, None)
  else merge_empty persistent_slot_order inv stack.

(** ** Slot laws *)

(** An inventory as the core makes them; a loaded one can be shorter. *)
Definition inventory_ok (inv : PlayerInventory) : Prop := len (slots inv) = PLAYER_INVENTORY_SLOT_COUNT.

Lemma inventory_ok_new : inventory_ok new_empty.
Proof. done. Qed.

(** The index of a slot in [slots]; the slots a click can name have non-negative
    indices, [u8] and [u16] in the source. *)
Definition slot_wf (s : InventorySlot) : Prop :=
  match s with WindowLocal i | MainInventory i | Hotbar i => 0 <= i | Offhand => True end.

#[export] Instance slot_wf_dec s : Decision (slot_wf s).
Proof. destruct s; cbn; apply _. Defined.

Lemma legacy_range s i :
  slot_wf s -> legacy_window_index s = Some i -> 0 <= i < PLAYER_INVENTORY_SLOT_COUNT.
Proof.
  unfold PLAYER_INVENTORY_SLOT_COUNT.
  destruct s; cbn; unfold AUXILIARY_SLOT_COUNT, MAIN_INVENTORY_SLOT_COUNT, HOTBAR_SLOT_COUNT,
    HOTBAR_START_SLOT; intros Hw H; repeat case_test; try discriminate; injection H as <-; lia.
Qed.

Lemma legacy_inj s t i :
  slot_wf s -> slot_wf t -> legacy_window_index s = Some i -> legacy_window_index t = Some i -> s = t.
Proof.
  destruct s, t; cbn; unfold AUXILIARY_SLOT_COUNT, MAIN_INVENTORY_SLOT_COUNT, HOTBAR_SLOT_COUNT,
    HOTBAR_START_SLOT; intros Hs Ht H1 H2; repeat case_test; try discriminate;
    injection H1 as <-; injection H2 as H2; first [f_equal; lia | lia].
Qed.

(** The slots of an inventory that exist. *)
Definition addressable (s : InventorySlot) : bool :=
  match s with Offhand => true | _ => bool_decide (is_Some (legacy_window_index s)) end.

Lemma addressable_legacy s :
  addressable s = true -> s = Offhand \/ exists i, legacy_window_index s = Some i.
Proof. destruct s; cbn [addressable]; [intros H%bool_decide_eq_true; right; apply H..|by left]. Qed.

Lemma get_slot_legacy inv s i :
  legacy_window_index s = Some i -> get_slot inv s = inv_get inv i.
Proof. destruct s; cbn [get_slot]; intros H; [by rewrite H..|done]. Qed.

Lemma set_slot_legacy inv s i o :
  legacy_window_index s = Some i -> set_slot s o inv = inv_set i o inv.
Proof. destruct s; cbn [set_slot]; intros H; [by rewrite H..|done]. Qed.

Lemma inv_set_ok inv i o :
  inventory_ok inv -> 0 <= i < PLAYER_INVENTORY_SLOT_COUNT ->
  inv_set i o inv = Some (true, mkInventory (<[Z.to_nat i := o]> (slots inv)) (offhand inv)).
Proof.
  unfold inventory_ok. intros Hi Hr. unfold inv_set.
  by rewrite (proj2 (Z.leb_gt _ _)), Hi, (proj2 (Z.ltb_lt _ _)) by lia.
Qed.

Lemma set_slot_ok inv s o :
  inventory_ok inv -> slot_wf s ->
  exists inv', set_slot s o inv = Some (addressable s, inv') /\ inventory_ok inv' /\
    (addressable s = false -> inv' = inv) /\
    (addressable s = true -> get_slot inv' s = o) /\
    forall t, slot_wf t -> t <> s -> get_slot inv' t = get_slot inv t.
Proof.
  intros Hi Hw. destruct (addressable s) eqn:Ha; cycle 1.
  - exists inv. destruct s; try discriminate Ha; cbn [addressable] in Ha;
      apply bool_decide_eq_false in Ha; rewrite <- eq_None_not_Some in Ha; cbn [set_slot];
      rewrite Ha; split_and!; done.
  - destruct (addressable_legacy s Ha) as [->|[i Hl]].
    + eexists. split; [reflexivity|]. split_and!; [done|done|done|].
      intros [i|i|i|] _ Ht; try done.
    + pose proof (legacy_range _ _ Hw Hl) as Hr. rewrite (set_slot_legacy _ _ _ _ Hl).
      rewrite inv_set_ok by done. eexists. split; [reflexivity|]. split_and!.
      * unfold inventory_ok in *. cbn [slots]. by rewrite length_insert.
      * done.
      * intros _. rewrite (get_slot_legacy _ _ _ Hl). unfold inv_get. cbn [slots].
        unfold inventory_ok in Hi. rewrite list_lookup_insert_eq by lia. done.
      * intros t Hwt Hne. destruct (decide (t = Offhand)) as [->|Hno]; [done|].
        destruct (legacy_window_index t) as [j|] eqn:Hj.
        -- rewrite !(get_slot_legacy _ _ _ Hj). unfold inv_get. cbn [slots].
           pose proof (legacy_range _ _ Hwt Hj).
           rewrite list_lookup_insert_ne; [done|]. intros Heq. apply Hne.
           apply (legacy_inj t s i); [done..| |done]. rewrite Hj. f_equal. lia.
        -- destruct t; try done; cbn [get_slot]; by rewrite Hj.
Qed.

(** ** Counting items *)

(** What is the same for two stacks that merge. *)
Definition kind_of (s : ItemStack) : ItemStack := with_count 0 s.
(** How many items of kind [k] a slot holds. *)
Definition amount (k : ItemStack) (o : option ItemStack) : Z :=
  match o with Some s => if decide (kind_of s = k) then count s else 0 | None => 0 end.
Definition slots_total (k : ItemStack) (l : list (option ItemStack)) : Z :=
  sum_Z (map (amount k) l).
Definition inventory_total (k : ItemStack) (inv : PlayerInventory) : Z :=
  slots_total k (slots inv) + amount k (offhand inv).

Lemma stack_keys_match_kind l r : stack_keys_match l r = true <-> kind_of l = kind_of r.
Proof.
  unfold stack_keys_match, kind_of, with_count. rewrite !andb_true_iff, !bool_decide_eq_true, Z.eqb_eq.
  split; [intros [[[-> ->] ->] ->]; done|by intros [= -> -> -> ->]].
Qed.

Lemma kind_with_count n s : kind_of (with_count n s) = kind_of s.
Proof. done. Qed.

Lemma amount_with_count k n s :
  amount k (Some (with_count n s)) = if decide (kind_of s = k) then n else 0.
Proof. done. Qed.

Lemma sum_Z_insert (l : list Z) i x y :
  l !! i = Some x -> sum_Z (<[i := y]> l) = sum_Z l - x + y.
Proof.
  revert i. induction l as [|z l IH]; intros [|i] H; try done; cbn in H.
  - injection H as ->. unfold sum_Z. cbn. lia.
  - specialize (IH i H). change (<[S i:=y]> (z :: l)) with (z :: <[i:=y]> l).
    unfold sum_Z in *. cbn [foldr]. lia.
Qed.

Lemma slots_total_insert k l i o o' :
  l !! i = Some o -> slots_total k (<[i := o']> l) = slots_total k l - amount k o + amount k o'.
Proof.
  intros H. unfold slots_total. change (map ?f ?l) with (f <$> l).
  rewrite list_fmap_insert. apply sum_Z_insert. by rewrite list_lookup_fmap, H.
Qed.

Lemma set_slot_total k inv s o inv' :
  inventory_ok inv -> slot_wf s -> set_slot s o inv = Some (true, inv') ->
  inventory_total k inv' = inventory_total k inv - amount k (get_slot inv s) + amount k o.
Proof.
  intros Hi Hw Hs. destruct (set_slot_ok inv s o Hi Hw) as (inv2 & E & _).
  rewrite Hs in E. injection E as E <-.
  destruct (addressable_legacy s (eq_sym E)) as [->|[i Hl]].
  - cbn in Hs. injection Hs as <-. unfold inventory_total. cbn [slots offhand get_slot]. lia.
  - pose proof (legacy_range _ _ Hw Hl) as Hr. rewrite (set_slot_legacy _ _ _ _ Hl) in Hs.
    rewrite inv_set_ok in Hs by done. injection Hs as <-.
    rewrite (get_slot_legacy _ _ _ Hl). unfold inventory_total, inv_get. cbn [slots offhand].
    unfold inventory_ok in Hi.
    destruct (lookup_lt_is_Some_2 (slots inv) (Z.to_nat i)) as [x Hx]; [lia|].
    rewrite (slots_total_insert k _ _ x) by done. rewrite Hx. cbn. lia.
Qed.

Lemma persistent_slot_wf s : s ∈ persistent_slot_order -> slot_wf s /\ addressable s = true.
Proof.
  assert (forallb (fun s => addressable s && match s with
    WindowLocal i | MainInventory i | Hotbar i => 0 <=? i | Offhand => true end)
    persistent_slot_order = true) as H by (vm_compute; reflexivity).
  intros Hs. rewrite forallb_forall in H. specialize (H s).
  apply andb_true_iff in H as [Ha Hw]; [|by apply list_elem_of_In].
  split; [|done]. destruct s; [by apply Z.leb_le..|done].
Qed.

Lemma persistent_slot_NoDup : NoDup persistent_slot_order.
Proof. apply (bool_decide_eq_true_1 (NoDup persistent_slot_order)). vm_compute. reflexivity. Qed.

(** What a slot may hold after the first loop. *)
Definition merge_done (stack : ItemStack) (o : option ItemStack) : Prop :=
  match o with
  | None => True
  | Some e => stack_keys_match e stack = true -> MAX_STACK_SIZE <= count e
  end.

Lemma merge_done_kind stack stack' o :
  kind_of stack = kind_of stack' -> merge_done stack o -> merge_done stack' o.
Proof.
  intros Hk. destruct o as [e|]; [|done]. cbn. rewrite !stack_keys_match_kind. by rewrite Hk.
Qed.

Lemma merge_matching_spec order : forall inv stack,
  inventory_ok inv -> 0 <= count stack -> NoDup order -> order ⊆ persistent_slot_order ->
  exists returned inv' stack', merge_matching order inv stack = Some (returned, inv', stack') /\
    inventory_ok inv' /\ kind_of stack' = kind_of stack /\ 0 <= count stack' /\
    (returned = true -> count stack' = 0) /\
    (forall k, inventory_total k inv' + amount k (Some stack') =
       inventory_total k inv + amount k (Some stack)) /\
    (forall s, slot_wf s -> s ∉ order -> get_slot inv' s = get_slot inv s) /\
    (returned = false -> Forall (fun s => merge_done stack (get_slot inv' s)) order).
Proof.
  induction order as [|s order IH]; intros inv stack Hi Hc Hnd Hsub.
  { exists false, inv, stack. split_and!; done. }
  apply NoDup_cons in Hnd as [Hs Hnd].
  assert (slot_wf s /\ addressable s = true) as [Hw Ha] by (apply persistent_slot_wf; set_solver).
  assert (order ⊆ persistent_slot_order) as Hsub' by set_solver.
  assert (forall inv2 : PlayerInventory, merge_done stack (get_slot inv s) ->
    inv2 = inv -> exists returned inv' stack',
      merge_matching order inv2 stack = Some (returned, inv', stack') /\
    inventory_ok inv' /\ kind_of stack' = kind_of stack /\ 0 <= count stack' /\
    (returned = true -> count stack' = 0) /\
    (forall k, inventory_total k inv' + amount k (Some stack') =
       inventory_total k inv + amount k (Some stack)) /\
    (forall t, slot_wf t -> t ∉ s :: order -> get_slot inv' t = get_slot inv t) /\
    (returned = false -> Forall (fun t => merge_done stack (get_slot inv' t)) (s :: order)))
    as Hskip.
  { intros _ Hd ->. destruct (IH inv stack Hi Hc Hnd Hsub') as
      (r & inv' & st & E & Hi' & Hk & Hc' & Hr & Ht & Hf & Hl).
    exists r, inv', st. split_and!; try done.
    - intros t Hwt Hnt. apply Hf; [done|set_solver].
    - intros Hr'. constructor; [|by apply Hl]. by rewrite Hf. }
  cbn [merge_matching]. destruct (get_slot inv s) as [e|] eqn:Hg; [|by apply Hskip].
  destruct (stack_keys_match e stack) eqn:Hm; cbn [negb orb]; cycle 1.
  { apply Hskip; [|done]. cbn [merge_done]. rewrite Hm. intros [=]. }
  destruct (Z.leb_spec MAX_STACK_SIZE (count e)) as [Hfull|Hfull]; [by apply Hskip; [intros _|]|].
  clear Hskip. apply stack_keys_match_kind in Hm. cbn zeta.
  set (moved := Z.min (saturating_sub MAX_STACK_SIZE (count e)) (count stack)).
  assert (moved = Z.min (64 - count e) (count stack)) as Hmv.
  { unfold moved, saturating_sub, MAX_STACK_SIZE in *. lia. }
  assert (saturating_add u8_max (count e) moved = count e + moved) as ->.
  { unfold saturating_add, u8_max, MAX_STACK_SIZE in *. lia. }
  assert (saturating_sub (count stack) moved = count stack - moved) as ->.
  { unfold saturating_sub. lia. }
  destruct (set_slot_ok inv s (Some (with_count (count e + moved) e)) Hi Hw) as
    (inv1 & E1 & Hi1 & _ & Hg1 & Hf1). rewrite Ha in E1. rewrite E1. cbn [mbind option_bind].
  assert (forall k, inventory_total k inv1 + amount k (Some (with_count (count stack - moved) stack))
    = inventory_total k inv + amount k (Some stack)) as Ht1.
  { intros k. rewrite (set_slot_total k _ _ _ _ Hi Hw E1), Hg, !amount_with_count. cbn [amount].
    rewrite <- Hm. case_decide; lia. }
  change (count (with_count (count stack - moved) stack)) with (count stack - moved).
  destruct (Z.eqb_spec (count stack - moved) 0) as [Hz|Hz].
  - exists true, inv1, (with_count (count stack - moved) stack). split_and!; try done.
    + cbn. lia.
    + intros t Hwt Ht. apply Hf1; [done|set_solver].
  - destruct (IH inv1 (with_count (count stack - moved) stack) Hi1) as
      (r & inv' & st & E & Hi' & Hk & Hc' & Hr & Ht & Hf & Hl); [cbn; lia|done|done|].
    exists r, inv', st. split_and!; try done.
    + intros k. rewrite Ht. apply Ht1.
    + intros t Hwt Hnt. rewrite Hf by (done || set_solver). apply Hf1; [done|set_solver].
    + intros Hr'. constructor; [|by apply Hl]. rewrite Hf by done. rewrite Hg1 by done. cbn.
      intros _. unfold MAX_STACK_SIZE in *. lia.
Qed.

Lemma merge_empty_spec order : forall inv stack,
  inventory_ok inv -> order ⊆ persistent_slot_order ->
  exists inv' left, merge_empty order inv stack = Some (inv', left) /\ inventory_ok inv' /\
    (forall k, inventory_total k inv' + amount k left =
       inventory_total k inv + amount k (Some stack)) /\
    (forall s, slot_wf s -> s ∉ order -> get_slot inv' s = get_slot inv s) /\
    (is_Some left -> inv' = inv /\ left = Some stack /\
       Forall (fun s => is_Some (get_slot inv s)) order).
Proof.
  induction order as [|s order IH]; intros inv stack Hi Hsub.
  { exists inv, (Some stack). split_and!; done. }
  assert (slot_wf s /\ addressable s = true) as [Hw Ha] by (apply persistent_slot_wf; set_solver).
  cbn [merge_empty]. destruct (get_slot inv s) as [e|] eqn:Hg.
  - destruct (IH inv stack Hi) as (inv' & l & E & Hi' & Ht & Hf & Hl); [set_solver|].
    exists inv', l. split_and!; try done.
    + intros t Hwt Hnt. apply Hf; [done|set_solver].
    + intros (Hinv & Hle & Hall)%Hl. split_and!; try done. constructor; [|done]. by rewrite Hg.
  - destruct (set_slot_ok inv s (Some stack) Hi Hw) as (inv1 & E1 & Hi1 & _ & Hg1 & Hf1).
    rewrite Ha in E1. rewrite E1. exists inv1, None. split_and!; try done.
    + intros k. rewrite (set_slot_total k _ _ _ _ Hi Hw E1), Hg. cbn [amount]. lia.
    + intros t Hwt Hnt. apply Hf1; [done|set_solver].
Qed.

(** Merging a stack into a player's inventory never loses or creates an item: for
    every kind of item, what the inventory holds afterwards and what is left over add up
    to what there was.  The merge does not panic, it leaves the crafting and armour slots
    alone, and when it does return a leftover then no slot it may use is empty and every
    one that matches is full. *)
Theorem merge_stack_conserves inv stack :
  inventory_ok inv -> 0 <= count stack ->
  exists inv' left, merge_stack_into_player_inventory inv stack = Some (inv', left) /\
    inventory_ok inv' /\
    (forall k, inventory_total k inv' + amount k left =
       inventory_total k inv + amount k (Some stack)) /\
    (forall i, 0 <= i -> get_slot inv' (WindowLocal i) = get_slot inv (WindowLocal i)) /\
    (is_Some left -> forall s, s ∈ persistent_slot_order ->
       exists e, get_slot inv' s = Some e /\
         (stack_keys_match e stack = true -> MAX_STACK_SIZE <= count e)).
Proof.
  intros Hi Hc. unfold merge_stack_into_player_inventory.
  destruct (merge_matching_spec persistent_slot_order inv stack Hi Hc persistent_slot_NoDup) as
    (r & inv1 & st & -> & Hi1 & Hk & Hc1 & Hr & Ht1 & Hf1 & Hl1); [done|].
  assert (forall i, WindowLocal i ∉ persistent_slot_order) as Hwl.
  { intros i [Hx|[Hx|Hx]%elem_of_app]%elem_of_app;
      [apply list_elem_of_fmap in Hx as (? & [=] & _)..|by apply list_elem_of_singleton in Hx]. }
  cbn [mbind option_bind]. destruct r.
  - exists inv1, None. split_and!; try done.
    + intros k. rewrite <- Ht1. cbn [amount]. rewrite Hr by done. case_decide; done.
    + intros i Hi0. apply Hf1; [done|apply Hwl].
  - destruct (merge_empty_spec persistent_slot_order inv1 st Hi1) as
      (inv2 & l & E & Hi2 & Ht2 & Hf2 & Hl2); [done|].
    exists inv2, l. split_and!; try done.
    + intros k. by rewrite Ht2.
    + intros i Hi0. rewrite Hf2 by (done || apply Hwl). apply Hf1; [done|apply Hwl].
    + intros (-> & -> & Hall)%Hl2 s Hs. rewrite Forall_forall in Hall.
      destruct (Hall s Hs) as [e He]. exists e. split; [done|].
      specialize (Hl1 eq_refl). rewrite Forall_forall in Hl1. specialize (Hl1 s Hs).
      rewrite He in Hl1. exact Hl1.
Qed.

Definition sample_item (n : Z) : ItemStack := item_stack_new "minecraft:stone" n 0.
Definition sample_inventory : PlayerInventory :=
  mkInventory (<[36%nat := Some (sample_item 60)]> (slots new_empty)) None.

Lemma merge_stack_conserves_witness :
  merge_stack_into_player_inventory sample_inventory (sample_item 10) =
    Some (mkInventory (<[37%nat := Some (sample_item 6)]>
      (<[36%nat := Some (sample_item 64)]> (slots new_empty))) None, None) /\
  exists inv' left,
    merge_stack_into_player_inventory sample_inventory (sample_item 10) = Some (inv', left) /\
    inventory_total (sample_item 0) inv' + amount (sample_item 0) left = 70.
Proof.
  split; [vm_compute; reflexivity|].
  destruct (merge_stack_conserves sample_inventory (sample_item 10)) as
    (inv' & left & E & _ & Ht & _); [vm_compute; reflexivity|vm_compute; discriminate|].
  exists inv', left. split; [exact E|]. rewrite (Ht (sample_item 0)). vm_compute. reflexivity.
Defined.

(** Slots are independent cells.  On a full-size inventory, setting a slot that
    exists never panics and changes that slot alone; setting one that does not exist
    returns [false] and changes nothing; reading what a window shows of a player's own
    slots is reading the inventory. *)
Theorem set_slot_spec inv s o :
  inventory_ok inv -> slot_wf s ->
  exists inv', set_slot s o inv = Some (addressable s, inv') /\ inventory_ok inv' /\
    (addressable s = true -> get_slot inv' s = o) /\
    (addressable s = false -> inv' = inv /\ get_slot inv s = None) /\
    (forall t, slot_wf t -> t <> s -> get_slot inv' t = get_slot inv t) /\
    (forall t, slot_wf t -> contents_get_slot (contents_player inv') t = get_slot inv' t).
Proof.
  intros Hi Hw. destruct (set_slot_ok inv s o Hi Hw) as (inv' & E & Hi' & Hn & Hg & Hf).
  exists inv'. split_and!; try done.
  - intros Ha. split; [by apply Hn|]. destruct s; try discriminate Ha; cbn [addressable] in Ha;
      apply bool_decide_eq_false in Ha; rewrite <- eq_None_not_Some in Ha; cbn [get_slot];
      by rewrite Ha.
  - intros [i| | |] Hwt; try done. cbn [contents_get_slot contents_player wc_local].
    change (map ?f ?l) with (f <$> l). rewrite list_lookup_fmap.
    cbn in Hwt. unfold range_Z, AUXILIARY_SLOT_COUNT. change (map ?f ?l) with (f <$> l).
    rewrite list_lookup_fmap. destruct (Z.ltb_spec i 9) as [Hl|Hl].
    + rewrite lookup_seq_lt by lia. cbn [fmap option_fmap option_map mbind option_bind].
      replace (0 + Z.of_nat (0 + Z.to_nat i)) with i by lia. done.
    + rewrite lookup_seq_ge by lia. cbn. unfold AUXILIARY_SLOT_COUNT.
      by rewrite (proj2 (Z.ltb_ge i 9)) by lia.
Qed.

Lemma set_slot_spec_witness :
  set_slot (Hotbar 0) (Some (sample_item 1)) new_empty =
    Some (true, mkInventory (<[36%nat := Some (sample_item 1)]> (slots new_empty)) None) /\
  exists inv', set_slot (WindowLocal 9) (Some (sample_item 1)) new_empty = Some (false, inv') /\
    inv' = new_empty.
Proof.
  split; [vm_compute; reflexivity|].
  destruct (set_slot_spec new_empty (WindowLocal 9) (Some (sample_item 1))) as
    (inv' & E & _ & _ & Hn & _); [vm_compute; reflexivity|vm_compute; discriminate|].
  exists inv'. split; [exact E|]. apply Hn. vm_compute. reflexivity.
Defined.
