(* ===== verification/VoxelContent.v ===== *)
(** * The canonical content pack
    ([crates/content/mc-content-canonical/src/gameplay.rs], [.../catalog.rs], [.../lib.rs])

    The [ContentBehavior] the server ships: the flat world, the container kinds and the
    roles of their slots, the crafting recipes, the furnace, what may be placed, dropped
    or held.  Slots are lists indexed as the code indexes them; [None] is a failing index.
    Properties are the [i16] values of a furnace. *)

From Stdlib Require Import Floats.SpecFloat.
From S2P Require Import Prelude VoxelModel VoxelItems.

Module catalog.
Definition AIR := "minecraft:air".
Definition STONE := "minecraft:stone".
Definition DIRT := "minecraft:dirt".
Definition GRASS_BLOCK := "minecraft:grass_block".
Definition COBBLESTONE := "minecraft:cobblestone".
Definition OAK_PLANKS := "minecraft:oak_planks".
Definition BEDROCK := "minecraft:bedrock".
Definition SAND := "minecraft:sand".
Definition SANDSTONE := "minecraft:sandstone".
Definition GLASS := "minecraft:glass".
Definition BRICKS := "minecraft:bricks".
Definition OAK_LOG := "minecraft:oak_log".
Definition STICK := "minecraft:stick".
Definition CRAFTING_TABLE := "minecraft:crafting_table".
Definition CHEST := "minecraft:chest".
Definition FURNACE := "minecraft:furnace".
End catalog.

Module ids.
Definition PLAYER := "canonical:player".
Definition CRAFTING_TABLE := "canonical:crafting_table".
Definition CHEST_27 := "canonical:chest_27".
Definition FURNACE := "canonical:furnace".
Definition CHEST_BLOCK_ENTITY := "canonical:chest".
Definition FURNACE_BLOCK_ENTITY := "canonical:furnace".
Definition FURNACE_BURN_LEFT := "canonical:furnace.burn_left".
Definition FURNACE_BURN_MAX := "canonical:furnace.burn_max".
Definition FURNACE_COOK_PROGRESS := "canonical:furnace.cook_progress".
Definition FURNACE_COOK_TOTAL := "canonical:furnace.cook_total".
End ids.

Definition PLAYER_LOCAL_SLOT_COUNT : Z := 9.
Definition FURNACE_COOK_TOTAL_TICKS : Z := 200.
Definition i16_max : Z := 32767.

(** A [match] on a string key: the value of the first row with that key. *)
Fixpoint by_key {A} (key : string) (rows : list (string * A)) : option A :=
  match rows with
  | [] => None
  | (k, a) :: rows => if bool_decide (key = k) then Some a else by_key key rows
  end.

(** ** The tables *)

Fixpoint fill_slots (slot : Z) (keys : list string) (inv : PlayerInventory) : option PlayerInventory :=
  match keys with
  | [] => Some inv
  | key :: keys =>
      '(_, inv) ← inv_set slot (Some (item_stack_new key 64 0)) inv; fill_slots (slot + 1) keys inv
  end.
(** The inventory is new, so no index fails. *)
Definition creative_starter_inventory : PlayerInventory :=
  default new_empty (fill_slots 36
    [catalog.STONE; catalog.DIRT; catalog.GRASS_BLOCK; catalog.COBBLESTONE; catalog.OAK_PLANKS;
     catalog.SAND; catalog.SANDSTONE; catalog.GLASS; catalog.BRICKS] new_empty).

Definition item_supported_for_inventory (key : string) : bool :=
  bool_decide (key ∈
    [catalog.STONE; catalog.DIRT; catalog.GRASS_BLOCK; catalog.COBBLESTONE; catalog.OAK_PLANKS;
     catalog.SAND; catalog.SANDSTONE; catalog.GLASS; catalog.BRICKS; catalog.OAK_LOG; catalog.STICK;
     catalog.CRAFTING_TABLE; catalog.CHEST; catalog.FURNACE]).

Definition canonical_placeable (key : string) : option BlockState :=
  k ← by_key key
    [(catalog.STONE, catalog.STONE); (catalog.DIRT, catalog.DIRT);
     (catalog.GRASS_BLOCK, catalog.GRASS_BLOCK); (catalog.COBBLESTONE, catalog.COBBLESTONE);
     (catalog.OAK_PLANKS, catalog.OAK_PLANKS); (catalog.SAND, catalog.SAND);
     (catalog.SANDSTONE, catalog.SANDSTONE); (catalog.GLASS, catalog.GLASS);
     (catalog.BRICKS, catalog.BRICKS); (catalog.CRAFTING_TABLE, catalog.CRAFTING_TABLE);
     (catalog.CHEST, catalog.CHEST); (catalog.FURNACE, catalog.FURNACE)];
  Some (block_state_new k).

Definition default_layers (x z : Z) (c : ChunkColumn) : ChunkColumn :=
  foldl (fun c l => column_set_block x l.1 z (Some (block_state_new l.2)) c) c
    [(0, catalog.BEDROCK); (1, catalog.STONE); (2, catalog.DIRT); (3, catalog.GRASS_BLOCK)].
Definition default_chunk (p : ChunkPos) : ChunkColumn :=
  foldl (fun c z => foldl (fun c x => default_layers x z c) c (range_Z 0 16)) (column_new p)
    (range_Z 0 16).

Definition furnace_default_properties : gmap string Z :=
  list_to_map [(ids.FURNACE_BURN_LEFT, 0); (ids.FURNACE_BURN_MAX, 0);
    (ids.FURNACE_COOK_PROGRESS, 0); (ids.FURNACE_COOK_TOTAL, FURNACE_COOK_TOTAL_TICKS)].

Definition canonical_block_entity_for_kind (kind : string) : option ContainerBlockEntityState :=
  if bool_decide (kind = ids.CHEST_BLOCK_ENTITY)
  then Some (mkBlockEntity kind (replicate 27 None) ∅)
  else if bool_decide (kind = ids.FURNACE_BLOCK_ENTITY)
  then Some (mkBlockEntity kind (replicate 3 None) furnace_default_properties)
  else None.

Definition canonical_block_entity_for_block (b : BlockState) : option ContainerBlockEntityState :=
  kind ← by_key (bs_key b)
    [(catalog.CHEST, ids.CHEST_BLOCK_ENTITY); (catalog.FURNACE, ids.FURNACE_BLOCK_ENTITY)];
  canonical_block_entity_for_kind kind.

Definition canonical_container_spec (kind : string) : option ContainerSpec :=
  by_key kind
    [(ids.PLAYER, mkSpec PLAYER_LOCAL_SLOT_COUNT
       (list_to_map [(0, OutputOnly); (5, Unavailable); (6, Unavailable); (7, Unavailable);
          (8, Unavailable)]));
     (ids.CRAFTING_TABLE, mkSpec 10 (list_to_map [(0, OutputOnly)]));
     (ids.CHEST_27, mkSpec 27 ∅);
     (ids.FURNACE, mkSpec 3 (list_to_map [(2, OutputOnly)]))].

Definition canonical_container_title (kind : string) : string :=
  default kind (by_key kind
    [(ids.PLAYER, "Player"); (ids.CRAFTING_TABLE, "Crafting"); (ids.CHEST_27, "Chest");
     (ids.FURNACE, "Furnace")]).

Definition canonical_kind_for_block (b : BlockState) : option string :=
  by_key (bs_key b)
    [(catalog.CRAFTING_TABLE, ids.CRAFTING_TABLE); (catalog.CHEST, ids.CHEST_27);
     (catalog.FURNACE, ids.FURNACE)].
Definition canonical_entity_kind_for_container (kind : string) : option string :=
  by_key kind
    [(ids.CHEST_27, ids.CHEST_BLOCK_ENTITY); (ids.FURNACE, ids.FURNACE_BLOCK_ENTITY)].
Definition canonical_kind_for_block_entity (e : ContainerBlockEntityState) : option string :=
  by_key (be_kind e)
    [(ids.CHEST_BLOCK_ENTITY, ids.CHEST_27); (ids.FURNACE_BLOCK_ENTITY, ids.FURNACE)].

(** [f32] arithmetic. *)
Definition f32 (m e : Z) : spec_float := binary_normalize 24 128 m e false.
(** [v.ceil() as u64] *)
Definition ceil_as_u64 (v : spec_float) : Z :=
  match v with
  | S754_finite false m e =>
      Z.min u64_max (if 0 <=? e then Z.pos m * 2 ^ e else - (- Z.pos m / 2 ^ (- e)))
  | S754_infinity false => u64_max
  | _ => 0
  end.

(** The hardness of the blocks, as [f32] literals. *)
Definition canonical_hardness (key : string) : option spec_float :=
  by_key key
    [(catalog.STONE, f32 3 (-1)); (catalog.GRASS_BLOCK, f32 0x99999a (-24));
     (catalog.DIRT, f32 1 (-1)); (catalog.COBBLESTONE, f32 2 0); (catalog.OAK_PLANKS, f32 2 0);
     (catalog.SAND, f32 1 (-1)); (catalog.SANDSTONE, f32 0xcccccd (-24));
     (catalog.GLASS, f32 0x99999a (-25)); (catalog.BRICKS, f32 2 0);
     (catalog.CRAFTING_TABLE, f32 5 (-1)); (catalog.CHEST, f32 5 (-1)); (catalog.FURNACE, f32 7 (-1))].
Definition canonical_mining_duration_ms (b : BlockState) : option Z :=
  hardness ← canonical_hardness (bs_key b);
  let ticks := ceil_as_u64 (SFmul 24 128 hardness (f32 30 0)) in
  Some (Z.max ticks 1 * 50).

Definition canonical_drop (b : BlockState) : option ItemStack :=
  key ← by_key (bs_key b)
    [(catalog.STONE, catalog.COBBLESTONE); (catalog.GRASS_BLOCK, catalog.DIRT);
     (catalog.DIRT, catalog.DIRT); (catalog.COBBLESTONE, catalog.COBBLESTONE);
     (catalog.OAK_PLANKS, catalog.OAK_PLANKS); (catalog.SAND, catalog.SAND);
     (catalog.SANDSTONE, catalog.SANDSTONE); (catalog.BRICKS, catalog.BRICKS);
     (catalog.CRAFTING_TABLE, catalog.CRAFTING_TABLE); (catalog.CHEST, catalog.CHEST);
     (catalog.FURNACE, catalog.FURNACE)];
  Some (item_stack_new key 1 0).

(** ** Crafting *)

(** A pattern, its width and height, what it makes and how many. *)
Definition recipe : Type := list (option string) * nat * nat * string * Z.
Definition recipes : list recipe :=
  let plank := Some catalog.OAK_PLANKS in
  let cobble := Some catalog.COBBLESTONE in
  let sand := Some catalog.SAND in
  [([Some catalog.OAK_LOG], 1%nat, 1%nat, catalog.OAK_PLANKS, 4);
   ([plank; plank], 1%nat, 2%nat, catalog.STICK, 4);
   ([sand; sand; sand; sand], 2%nat, 2%nat, catalog.SANDSTONE, 1);
   ([plank; plank; plank; plank], 2%nat, 2%nat, catalog.CRAFTING_TABLE, 1);
   ([plank; plank; plank; plank; None; plank; plank; plank; plank], 3%nat, 3%nat, catalog.CHEST, 1);
   ([cobble; cobble; cobble; cobble; None; cobble; cobble; cobble; cobble], 3%nat, 3%nat,
    catalog.FURNACE, 1)].

Definition occupied_cells (inputs : list (option ItemStack)) : list (nat * ItemStack) :=
  omap (fun c => s ← c.2; Some (c.1, s)) (imap pair inputs).

Definition minimum (l : list nat) : nat := foldr Nat.min (hd 0%nat l) l.
Definition maximum (l : list nat) : nat := foldr Nat.max 0%nat l.

(** [pattern.iter().zip(cells).all(..)] *)
Fixpoint pattern_matches (pattern cells : list (option string)) : bool :=
  match pattern, cells with
  | p :: pattern, c :: cells => bool_decide (p = c) && pattern_matches pattern cells
  | _, _ => true
  end.

(** The cells of the bounding box of what is occupied, with their original indices. *)
Definition normalized_cells (occupied : list (nat * ItemStack)) (width : nat) :
    nat * nat * list (option string) * list (option nat) :=
  let xs := map (fun c => c.1 mod width)%nat occupied in
  let ys := map (fun c => c.1 / width)%nat occupied in
  let min_x := minimum xs in
  let min_y := minimum ys in
  let w := (maximum xs - min_x + 1)%nat in
  let h := (maximum ys - min_y + 1)%nat in
  let place {A} (f : nat * ItemStack -> A) : list (option A) :=
    foldl (fun l c => <[((c.1 / width - min_y) * w + (c.1 mod width - min_x))%nat := Some (f c)]> l)
      (replicate (w * h) None) occupied in
  (w, h, place (fun c => item_key c.2), place fst).

Definition current_crafting_recipe (inputs : list (option ItemStack)) (width : nat) :
    option (ItemStack * list nat) :=
  let occupied := occupied_cells inputs in
  match occupied with
  | [] => None
  | _ =>
      let '(w, h, cells, original_indices) := normalized_cells occupied width in
      '(_, _, _, key, n) ← find (fun r : recipe => let '(pattern, pw, ph, _, _) := r in
        Nat.eqb pw w && Nat.eqb ph h && pattern_matches pattern cells) recipes;
      Some (item_stack_new key n 0, omap id original_indices)
  end.

(** [local_slots[0] = ..], which panics on no slots. *)
Definition recompute_crafting_result (local : list (option ItemStack)) (width : nat) :
    option (list (option ItemStack)) :=
  match local with
  | [] => None
  | _ :: rest =>
      let inputs := take (if Nat.eqb width 2 then 4 else 9)%nat rest in
      Some ((fst <$> current_crafting_recipe inputs width) :: rest)
  end.

(** What a taken output does to the cursor; [None]: it cannot be taken. *)
Definition take_to_cursor (output : ItemStack) (n : Z) (cursor : option ItemStack) :
    option (option ItemStack) :=
  match cursor with
  | None => Some (Some (with_count n output))
  | Some existing =>
      if bool_decide (item_key existing = item_key output) && (count existing + n <=? 64)
      then Some (Some (with_count (saturating_add u8_max (count existing) n) existing))
      else None
  end.

(** [if let Some(Some(stack)) = slots.get_mut(i) { count -= 1; empty it at zero }] *)
Definition consume_one (local : list (option ItemStack)) (i : nat) : list (option ItemStack) :=
  match local !! i with
  | Some (Some stack) =>
      let n := saturating_sub (count stack) 1 in
      <[i := if n =? 0 then None else Some (with_count n stack)]> local
  | _ => local
  end.

Definition take_crafting_result (local : list (option ItemStack)) (input_start input_count width : nat)
    (cursor : option ItemStack) (button : InventoryClickButton) :
    option (bool * list (option ItemStack) * option ItemStack) :=
  let inputs := take input_count (drop input_start local) in
  match current_crafting_recipe inputs width with
  | None => local ← recompute_crafting_result local width; Some (false, local, cursor)
  | Some (output, consume) =>
      let take_count := match button with LeftButton => count output | RightButton => 1 end in
      match take_to_cursor output take_count cursor with
      | None => Some (false, local, cursor)
      | Some cursor =>
          local ← recompute_crafting_result
            (foldl (fun l i => consume_one l (input_start + i)) local consume) width;
          Some (true, local, cursor)
      end
  end.

Definition take_output_slot (local : list (option ItemStack)) (cursor : option ItemStack)
    (output_index : nat) (button : InventoryClickButton) :
    bool * list (option ItemStack) * option ItemStack :=
  match (s ← local !! output_index; s) with
  | None => (false, local, cursor)
  | Some output =>
      let take_count := match button with LeftButton => count output | RightButton => 1 end in
      if take_count =? 0 then (false, local, cursor)
      else
        match take_to_cursor output take_count cursor with
        | None => (false, local, cursor)
        | Some cursor =>
            let n := saturating_sub (count output) take_count in
            (true, <[output_index := if n =? 0 then None else Some (with_count n output)]> local, cursor)
        end
  end.

(** [recompute_crafting_result_for_player] *)
Fixpoint store_from (index : Z) (local : list (option ItemStack)) (inv : PlayerInventory) :
    option PlayerInventory :=
  match local with
  | [] => Some inv
  | stack :: local => '(_, inv) ← set_slot (WindowLocal index) stack inv; store_from (index + 1) local inv
  end.
Definition recompute_crafting_result_for_player (inv : PlayerInventory) : option PlayerInventory :=
  local ← recompute_crafting_result
    (map (fun i => get_slot inv (WindowLocal i)) (range_Z 0 PLAYER_LOCAL_SLOT_COUNT)) 2;
  store_from 0 local inv.

(** ** The furnace *)

Definition property (m : gmap string Z) (key : string) : Z := default 0 (m !! key).

Definition furnace_available_output (local : list (option ItemStack)) : option ItemStack :=
  input ← (s ← local !! 0%nat; s);
  output ← (if bool_decide (item_key input = catalog.SAND) && (0 <? count input)
            then Some (item_stack_new catalog.GLASS 1 0)
            else if bool_decide (item_key input = catalog.COBBLESTONE) && (0 <? count input)
            then Some (item_stack_new catalog.STONE 1 0) else None);
  match (s ← local !! 2%nat; s) with
  | None => Some output
  | Some existing =>
      if bool_decide (item_key existing = item_key output) && (count existing <? 64)
      then Some output else None
  end.

Definition furnace_fuel_burn_time (fuel : option ItemStack) : option Z :=
  fuel ← fuel;
  if count fuel =? 0 then None
  else by_key (item_key fuel)
    [(catalog.STICK, 100); (catalog.OAK_PLANKS, 300); (catalog.OAK_LOG, 300)].

Definition normalize_furnace (c : OpenContainerState) : OpenContainerState :=
  let m := <[ids.FURNACE_COOK_TOTAL := FURNACE_COOK_TOTAL_TICKS]> (oc_properties c) in
  let m := if property m ids.FURNACE_BURN_LEFT =? 0 then <[ids.FURNACE_BURN_MAX := 0]> m else m in
  let m := match furnace_available_output (local_slots c) with
           | None => <[ids.FURNACE_COOK_PROGRESS := 0]> m
           | Some _ => m
           end in
  set_oc_properties m c.

(** The end of a cook: one input less, one output more. *)
Definition finish_cook (output : ItemStack) (local : list (option ItemStack)) :
    list (option ItemStack) :=
  let local := consume_one local 0 in
  match local !! 2%nat with
  | Some (Some existing) =>
      if bool_decide (item_key existing = item_key output)
      then <[2%nat := Some (with_count (saturating_add u8_max (count existing) (count output)) existing)]> local
      else <[2%nat := Some output]> local
  | Some None => <[2%nat := Some output]> local
  | None => local
  end.

(** Burning: one tick of what is left. *)
Definition furnace_burn (m : gmap string Z) : gmap string Z :=
  let burn_left := property m ids.FURNACE_BURN_LEFT in
  if 0 <? burn_left then <[ids.FURNACE_BURN_LEFT := burn_left - 1]> m else m.

(** Lighting: new fuel when the fire is out and there is something to cook. *)
Definition furnace_light (m : gmap string Z) (local : list (option ItemStack)) :
    gmap string Z * list (option ItemStack) :=
  if property m ids.FURNACE_BURN_LEFT =? 0 then
    match furnace_available_output local, furnace_fuel_burn_time (s ← local !! 1%nat; s) with
    | Some _, Some t =>
        (<[ids.FURNACE_BURN_MAX := t]> (<[ids.FURNACE_BURN_LEFT := t]> m), consume_one local 1)
    | _, _ => (m, local)
    end
  else (m, local).

(** Cooking, while the fire burns. *)
Definition furnace_cook (cook_total : Z) (m : gmap string Z) (local : list (option ItemStack)) :
    gmap string Z * list (option ItemStack) :=
  if 0 <? property m ids.FURNACE_BURN_LEFT then
    match furnace_available_output local with
    | Some output =>
        let progress := saturating_add i16_max (property m ids.FURNACE_COOK_PROGRESS) 1 in
        if cook_total <=? progress
        then (<[ids.FURNACE_COOK_PROGRESS := 0]> m, finish_cook output local)
        else (<[ids.FURNACE_COOK_PROGRESS := progress]> m, local)
    | None => (<[ids.FURNACE_COOK_PROGRESS := 0]> m, local)
    end
  else (<[ids.FURNACE_BURN_MAX := 0]> (<[ids.FURNACE_COOK_PROGRESS := 0]> m), local).

Definition tick_furnace (c : OpenContainerState) : OpenContainerState :=
  let c := normalize_furnace c in
  let cook_total :=
    default FURNACE_COOK_TOTAL_TICKS (oc_properties c !! ids.FURNACE_COOK_TOTAL) in
  let '(m, local) := furnace_light (furnace_burn (oc_properties c)) (local_slots c) in
  let '(m, local) := furnace_cook cook_total m local in
  set_local_slots local (set_oc_properties m c).

(** ** The content pack *)

Definition canonical_normalize_container (c : OpenContainerState) : option OpenContainerState :=
  if bool_decide (oc_kind c = ids.CRAFTING_TABLE)
  then local ← recompute_crafting_result (local_slots c) 3; Some (set_local_slots local c)
  else if bool_decide (oc_kind c = ids.FURNACE) then Some (normalize_furnace c)
  else Some c.

Definition canonical_try_take_output (kind : string) (local : list (option ItemStack))
    (cursor : option ItemStack) (button : InventoryClickButton) :
    option (bool * list (option ItemStack) * option ItemStack) :=
  if bool_decide (kind = ids.PLAYER) then take_crafting_result local 1 4 2 cursor button
  else if bool_decide (kind = ids.CRAFTING_TABLE) then take_crafting_result local 1 9 3 cursor button
  else if bool_decide (kind = ids.FURNACE) then Some (take_output_slot local cursor 2 button)
  else Some (false, local, cursor).

Definition canonical_tick_container (c : OpenContainerState) : option OpenContainerState :=
  Some (if bool_decide (oc_kind c = ids.FURNACE) then tick_furnace c else c).

#[export] Instance CanonicalContent : ContentBehavior := {
  generate_chunk _ p := default_chunk p;
  player_container_kind := ids.PLAYER;
  container_spec := canonical_container_spec;
  container_title := canonical_container_title;
  container_kind_for_block := canonical_kind_for_block;
  default_block_entity_for_block := canonical_block_entity_for_block;
  default_block_entity_for_kind := canonical_block_entity_for_kind;
  block_entity_kind_for_container := canonical_entity_kind_for_container;
  container_kind_for_block_entity := canonical_kind_for_block_entity;
  is_air_block b := bool_decide (bs_key b = catalog.AIR);
  is_unbreakable_block b := bool_decide (bs_key b = catalog.BEDROCK);
  placeable_block_state_from_item_key := canonical_placeable;
  is_supported_inventory_item := item_supported_for_inventory;
  starter_inventory := creative_starter_inventory;
  tool_spec_for_item _ := None;
  survival_mining_duration_ms b _ := canonical_mining_duration_ms b;
  survival_drop_for_block := canonical_drop;
  normalize_container := canonical_normalize_container;
  normalize_player_inventory := recompute_crafting_result_for_player;
  try_take_output := canonical_try_take_output;
  tick_container := canonical_tick_container
}.

(** ** The furnace as a small state machine *)

(** What matters of a furnace: what is left of the fire, how far the cook is, the slots. *)
Record Furnace : Type := mkFurnace {
  fire : Z; progress : Z; f_slots : list (option ItemStack)
}.
Definition furnace_view (c : OpenContainerState) : Furnace :=
  mkFurnace (property (oc_properties c) ids.FURNACE_BURN_LEFT)
    (property (oc_properties c) ids.FURNACE_COOK_PROGRESS) (local_slots c).

(** One tick: the fire burns down; if it is out and there is both something to cook and
    fuel, a piece of fuel is lit; while it burns the cook advances, and at the last tick
    one input becomes one output.  A cook that cannot go on starts over. *)
Definition furnace_step (f : Furnace) : Furnace :=
  let available := furnace_available_output (f_slots f) in
  let burning := if 0 <? fire f then fire f - 1 else fire f in
  let '(burning, slots) :=
    match available, furnace_fuel_burn_time (s ← f_slots f !! 1%nat; s) with
    | Some _, Some t => if burning =? 0 then (t, consume_one (f_slots f) 1) else (burning, f_slots f)
    | _, _ => (burning, f_slots f)
    end in
  match available with
  | Some output =>
      if 0 <? burning then
        if FURNACE_COOK_TOTAL_TICKS <=? progress f + 1
        then mkFurnace burning 0 (finish_cook output slots)
        else mkFurnace burning (progress f + 1) slots
      else mkFurnace burning 0 slots
  | None => mkFurnace burning 0 slots
  end.

Lemma property_insert m k v k' :
  property (<[k := v]> m) k' = if String.eqb k k' then v else property m k'.
Proof.
  unfold property. destruct (String.eqb_spec k k') as [->|Hne].
  - by rewrite lookup_insert_eq.
  - by rewrite lookup_insert_ne.
Qed.

(** Reads of the four properties through writes of them. *)
Ltac props :=
  rewrite ?property_insert;
  repeat match goal with
  | |- context [String.eqb ?a ?b] =>
      let r := eval vm_compute in (String.eqb a b) in change (String.eqb a b) with r
  end; cbn iota.

Lemma consume_one_ne l i j : i <> j -> consume_one l i !! j = l !! j.
Proof. intros H. unfold consume_one. repeat case_match; try done; by apply list_lookup_insert_ne. Qed.

(** Lighting takes from slot 1, which the recipe does not look at. *)
Lemma available_consume_fuel l :
  furnace_available_output (consume_one l 1) = furnace_available_output l.
Proof. unfold furnace_available_output. by rewrite !consume_one_ne by done. Qed.

Lemma normalize_burn c : property (oc_properties (normalize_furnace c)) ids.FURNACE_BURN_LEFT =
  property (oc_properties c) ids.FURNACE_BURN_LEFT.
Proof. unfold normalize_furnace. cbn [oc_properties set_oc_properties]. repeat case_match; by props. Qed.

Lemma normalize_progress c :
  property (oc_properties (normalize_furnace c)) ids.FURNACE_COOK_PROGRESS =
    match furnace_available_output (local_slots c) with
    | Some _ => property (oc_properties c) ids.FURNACE_COOK_PROGRESS | None => 0 end.
Proof. unfold normalize_furnace. cbn [oc_properties set_oc_properties]. repeat case_match; by props. Qed.

Lemma normalize_total c :
  oc_properties (normalize_furnace c) !! ids.FURNACE_COOK_TOTAL = Some FURNACE_COOK_TOTAL_TICKS.
Proof.
  unfold normalize_furnace. cbn [oc_properties set_oc_properties].
  repeat case_match; rewrite ?lookup_insert_ne by discriminate; apply lookup_insert_eq.
Qed.

Lemma burn_burn m : property (furnace_burn m) ids.FURNACE_BURN_LEFT =
  if 0 <? property m ids.FURNACE_BURN_LEFT then property m ids.FURNACE_BURN_LEFT - 1
  else property m ids.FURNACE_BURN_LEFT.
Proof. unfold furnace_burn. case_match; [by props|done]. Qed.

Lemma burn_progress m :
  property (furnace_burn m) ids.FURNACE_COOK_PROGRESS = property m ids.FURNACE_COOK_PROGRESS.
Proof. unfold furnace_burn. case_match; [by props|done]. Qed.

(** One tick: a step of the state machine, which also leaves [cook_total] at 200 and
    changes neither the kind nor the binding. *)
Lemma tick_furnace_view c :
  property (oc_properties c) ids.FURNACE_COOK_PROGRESS < FURNACE_COOK_TOTAL_TICKS ->
  furnace_view (tick_furnace c) = furnace_step (furnace_view c) /\
  oc_properties (tick_furnace c) !! ids.FURNACE_COOK_TOTAL = Some FURNACE_COOK_TOTAL_TICKS /\
  oc_kind (tick_furnace c) = oc_kind c /\ binding (tick_furnace c) = binding c.
Proof.
  intros Hp. unfold tick_furnace. cbn zeta. rewrite normalize_total.
  change (default ?d (Some FURNACE_COOK_TOTAL_TICKS)) with FURNACE_COOK_TOTAL_TICKS.
  change (local_slots (normalize_furnace c)) with (local_slots c).
  pose proof (normalize_burn c) as Hb. pose proof (normalize_progress c) as Hpr.
  pose proof (normalize_total c) as Ht.
  set (m := oc_properties (normalize_furnace c)) in *. clearbody m.
  pose proof (burn_burn m) as Hbb. pose proof (burn_progress m) as Hbp.
  assert (furnace_burn m !! ids.FURNACE_COOK_TOTAL = Some FURNACE_COOK_TOTAL_TICKS) as Htt.
  { unfold furnace_burn. case_match; [rewrite lookup_insert_ne by discriminate|]; done. }
  set (m' := furnace_burn m) in *. clearbody m'. rewrite Hb in Hbb. rewrite Hpr in Hbp.
  unfold furnace_view, furnace_step. cbn [fire progress f_slots].
  set (bl := property (oc_properties c) ids.FURNACE_BURN_LEFT) in *.
  set (p := property (oc_properties c) ids.FURNACE_COOK_PROGRESS) in *.
  set (b1 := if 0 <? bl then bl - 1 else bl) in *.
  unfold furnace_light. rewrite Hbb.
  assert (saturating_add i16_max p 1 = p + 1) as Hsat.
  { unfold saturating_add, i16_max, FURNACE_COOK_TOTAL_TICKS in *. lia. }
  destruct (furnace_fuel_burn_time (s ← local_slots c !! 1%nat; s)) as [t|] eqn:Hf;
    destruct (furnace_available_output (local_slots c)) as [o|] eqn:Ho;
    destruct (b1 =? 0) eqn:Hz;
    cbn iota; unfold furnace_cook; props; rewrite ?available_consume_fuel, ?Ho, ?Hbb, ?Hbp, ?Hsat;
    repeat case_match; simplify_eq; cbn [oc_properties set_oc_properties set_local_slots
      local_slots oc_kind binding]; props; rewrite ?Hbb, ?Hbp, ?Hsat;
    rewrite ?lookup_insert_ne by discriminate; done.
Qed.

Lemma furnace_step_progress f :
  progress f < FURNACE_COOK_TOTAL_TICKS -> progress (furnace_step f) < FURNACE_COOK_TOTAL_TICKS.
Proof.
  intros H. unfold furnace_step. cbn zeta.
  repeat (case_match; cbn [progress]); try done; unfold FURNACE_COOK_TOTAL_TICKS in *;
    try lia; case_match; cbn [progress]; lia.
Qed.

Lemma tick_furnace_iter c n :
  property (oc_properties c) ids.FURNACE_COOK_PROGRESS < FURNACE_COOK_TOTAL_TICKS ->
  furnace_view (Nat.iter n tick_furnace c) = Nat.iter n furnace_step (furnace_view c).
Proof.
  intros Hp. induction n as [|n IHv]; [done|]. cbn [Nat.iter nat_rect].
  fold (Nat.iter n tick_furnace c) (Nat.iter n furnace_step (furnace_view c)).
  edestruct (tick_furnace_view (Nat.iter n tick_furnace c)) as (-> & _); [|by rewrite IHv].
  change (progress (furnace_view (Nat.iter n tick_furnace c)) < FURNACE_COOK_TOTAL_TICKS).
  rewrite IHv. clear -Hp. induction n; [done|]. by apply furnace_step_progress.
Qed.

Lemma tick_furnace_kept c n :
  oc_kind (Nat.iter n tick_furnace c) = oc_kind c /\
  binding (Nat.iter n tick_furnace c) = binding c.
Proof.
  induction n as [|n [IHk IHb]]; [done|]. cbn [Nat.iter nat_rect].
  fold (Nat.iter n tick_furnace c). rewrite <-IHk, <-IHb.
  unfold tick_furnace. cbn zeta. by repeat case_match.
Qed.

(** The furnace of the content pack, which keeps its state in a map of named [i16]
    properties, refines the state machine [furnace_step] on the fire, the progress and the
    slots: from every container whose progress is below the end of a cook, whatever else
    its map holds, any number of ticks of the one shows the same as that many steps of the
    other, and the container keeps its kind and binding. *)
Theorem tick_furnace_refines c n :
  property (oc_properties c) ids.FURNACE_COOK_PROGRESS < FURNACE_COOK_TOTAL_TICKS ->
  furnace_view (Nat.iter n tick_furnace c) = Nat.iter n furnace_step (furnace_view c) /\
  oc_kind (Nat.iter n tick_furnace c) = oc_kind c /\
  binding (Nat.iter n tick_furnace c) = binding c.
Proof. intros Hp. split; [by apply tick_furnace_iter|apply tick_furnace_kept]. Qed.

(** A furnace with 70 ticks of fire left, one tick before the end of a cook. *)
Definition sample_furnace : OpenContainerState :=
  mkContainer ids.FURNACE Virtual
    [Some (item_stack_new catalog.SAND 2 0); Some (item_stack_new catalog.STICK 3 0); None]
    (list_to_map [(ids.FURNACE_BURN_LEFT, 70); (ids.FURNACE_COOK_PROGRESS, 199)]).

Lemma tick_furnace_refines_witness :
  furnace_view (Nat.iter 3 tick_furnace sample_furnace) =
    Nat.iter 3 furnace_step (furnace_view sample_furnace) /\
  f_slots (furnace_view (Nat.iter 3 tick_furnace sample_furnace)) =
    [Some (item_stack_new catalog.SAND 1 0); Some (item_stack_new catalog.STICK 3 0);
     Some (item_stack_new catalog.GLASS 1 0)].
Proof.
  split; [|vm_compute; reflexivity].
  refine (proj1 (tick_furnace_refines sample_furnace 3 _)). vm_compute; reflexivity.
Defined.

(** While the fire lasts and there is something to cook, a tick is progress. *)
Lemma furnace_step_cooking b p l o :
  furnace_available_output l = Some o -> 1 < b -> p < FURNACE_COOK_TOTAL_TICKS - 1 ->
  furnace_step (mkFurnace b p l) = mkFurnace (b - 1) (p + 1) l.
Proof.
  intros Ho Hb Hp. unfold furnace_step. cbn zeta. cbn [fire progress f_slots]. rewrite Ho.
  rewrite (proj2 (Z.ltb_lt 0 b)) by lia. rewrite (proj2 (Z.eqb_neq (b - 1) 0)) by lia.
  rewrite (proj2 (Z.leb_gt _ (p + 1))) by lia.
  destruct (furnace_fuel_burn_time _); rewrite (proj2 (Z.ltb_lt 0 (b - 1))) by lia; done.
Qed.

Lemma furnace_step_last b p l o :
  furnace_available_output l = Some o -> 1 < b -> p = FURNACE_COOK_TOTAL_TICKS - 1 ->
  furnace_step (mkFurnace b p l) = mkFurnace (b - 1) 0 (finish_cook o l).
Proof.
  intros Ho Hb ->. unfold furnace_step. cbn zeta. cbn [fire progress f_slots]. rewrite Ho.
  rewrite (proj2 (Z.ltb_lt 0 b)) by lia. rewrite (proj2 (Z.eqb_neq (b - 1) 0)) by lia.
  destruct (furnace_fuel_burn_time _); rewrite (proj2 (Z.ltb_lt 0 (b - 1))) by lia; done.
Qed.

Lemma furnace_cooks_view n b p l o :
  furnace_available_output l = Some o -> Z.of_nat (S n) < b ->
  p + Z.of_nat (S n) = FURNACE_COOK_TOTAL_TICKS ->
  Nat.iter (S n) furnace_step (mkFurnace b p l) =
    mkFurnace (b - Z.of_nat (S n)) 0 (finish_cook o l).
Proof.
  intros Ho. revert b p. induction n as [|n IH]; intros b p Hb Hp.
  - apply furnace_step_last; [done|lia|lia].
  - rewrite Nat.iter_succ_r, (furnace_step_cooking b p l o) by (done || lia).
    rewrite IH by lia. f_equal; lia.
Qed.

(** A lit furnace finishes what it cooks: with something to cook, a progress of [p]
    ticks and more than [200 - p] ticks of fire left, after exactly [200 - p] ticks one
    input has become one output, the progress is back at zero and the fire is
    [200 - p] ticks shorter. *)
Theorem furnace_finishes_cook c o n :
  furnace_available_output (local_slots c) = Some o ->
  property (oc_properties c) ids.FURNACE_COOK_PROGRESS + Z.of_nat (S n) = FURNACE_COOK_TOTAL_TICKS ->
  Z.of_nat (S n) < property (oc_properties c) ids.FURNACE_BURN_LEFT ->
  furnace_view (Nat.iter (S n) tick_furnace c) =
    mkFurnace (property (oc_properties c) ids.FURNACE_BURN_LEFT - Z.of_nat (S n)) 0
      (finish_cook o (local_slots c)).
Proof.
  intros Ho Hp Hb. rewrite tick_furnace_iter by lia. by eapply furnace_cooks_view.
Qed.

Lemma furnace_finishes_cook_witness :
  furnace_view (Nat.iter 1 tick_furnace sample_furnace) =
    mkFurnace 69 0 (finish_cook (item_stack_new catalog.GLASS 1 0) (local_slots sample_furnace)).
Proof.
  refine (furnace_finishes_cook sample_furnace (item_stack_new catalog.GLASS 1 0) 0 _ _ _);
    vm_compute; reflexivity.
Defined.

(** ** What a craft consumes *)

(** The occupied cells of a grid, as the bits of its pattern. *)
Fixpoint grid_patterns (n : nat) : list (list bool) :=
  match n with
  | O => [[]]
  | S n => let l := grid_patterns n in map (cons true) l ++ map (cons false) l
  end.
Lemma grid_patterns_complete l : l ∈ grid_patterns (length l).
Proof.
  induction l as [|[] l IH]; cbn [length grid_patterns]; [set_solver| |];
    apply elem_of_app; [left|right]; by apply list_elem_of_fmap_2.
Qed.
Definition positions (l : list bool) : list nat :=
  omap (fun c : nat * bool => if c.2 then Some c.1 else None) (imap pair l).

(** The cells a placed index comes back from, over the indices alone. *)
Definition placed_indices (occ : list nat) (width : nat) : list (option nat) :=
  let min_x := minimum (map (fun c => c mod width)%nat occ) in
  let min_y := minimum (map (fun c => c / width)%nat occ) in
  let w := (maximum (map (fun c => c mod width)%nat occ) - min_x + 1)%nat in
  let h := (maximum (map (fun c => c / width)%nat occ) - min_y + 1)%nat in
  foldl (fun l c => <[((c / width - min_y) * w + (c mod width - min_x))%nat := Some c]> l)
    (replicate (w * h) None) occ.
Definition places_all (width n : nat) : bool :=
  forallb (fun l => bool_decide (omap id (placed_indices (positions l) width) = positions l /\
    NoDup (positions l)))
    (grid_patterns n).
Lemma places_all_2 : places_all 2 4 = true.
Proof. vm_compute. reflexivity. Qed.
Lemma places_all_3 : places_all 3 9 = true.
Proof. vm_compute. reflexivity. Qed.

Lemma placed_indices_positions l width n :
  places_all width n = true -> length l = n ->
  omap id (placed_indices (positions l) width) = positions l /\ NoDup (positions l).
Proof.
  intros H Hl. unfold places_all in H. rewrite forallb_forall in H.
  apply (bool_decide_unpack _), Is_true_true_2, H, list_elem_of_In. subst n.
  apply grid_patterns_complete.
Qed.

Lemma occupied_positions inputs :
  map fst (occupied_cells inputs) = positions (map (fun s => bool_decide (is_Some s)) inputs).
Proof.
  unfold occupied_cells, positions.
  assert (forall f g : nat -> nat, (forall i, f i = g i) ->
    map fst (omap (fun c : nat * option ItemStack => s ← c.2; Some (c.1, s))
      (imap (fun i s => (f i, s)) inputs)) =
    omap (fun c : nat * bool => if c.2 then Some c.1 else None)
      (imap (fun i b => (g i, b)) (map (fun s => bool_decide (is_Some s)) inputs))) as Hgen.
  { induction inputs as [|s inputs IH]; intros f g Hfg; [done|]. cbn [map].
    rewrite !imap_cons, !omap_cons_eq. destruct s as [s|]; cbn [snd mbind option_bind].
    - cbn [map fst]. f_equal; [apply Hfg|]. refine (IH (f ∘ S) (g ∘ S) _). intros; apply Hfg.
    - refine (IH (f ∘ S) (g ∘ S) _). intros; apply Hfg. }
  by apply Hgen.
Qed.

Lemma normalized_cells_indices occ width :
  snd (normalized_cells occ width) = placed_indices (map fst occ) width.
Proof.
  unfold normalized_cells, placed_indices. cbn [snd]. rewrite !map_map. cbn zeta.
  set (w := (_ + 1)%nat). generalize (replicate (w * (maximum (map (fun c => c.1 / width) occ) -
    minimum (map (fun c => c.1 / width) occ) + 1))%nat (@None nat)).
  generalize (minimum (map (fun c : nat * ItemStack => c.1 / width) occ))%nat as my.
  generalize (minimum (map (fun c : nat * ItemStack => c.1 mod width) occ))%nat as mx.
  clearbody w. induction occ as [|c occ IH]; intros mx my l; [done|]. cbn [map foldl]. apply IH.
Qed.

(** What one craft leaves of an input cell. *)
Definition take_one (s : option ItemStack) : option ItemStack :=
  stack ← s;
  let n := saturating_sub (count stack) 1 in
  if n =? 0 then None else Some (with_count n stack).

Lemma lookup_consume_one l i j :
  consume_one l i !! j = if Nat.eqb i j then take_one <$> l !! j else l !! j.
Proof.
  destruct (Nat.eqb_spec i j) as [<-|Hne]; [|by apply consume_one_ne].
  unfold consume_one. destruct (l !! i) as [[s|]|] eqn:E; [|by rewrite E|by rewrite E].
  cbn zeta. rewrite list_lookup_insert_eq by (by eapply lookup_lt_Some). done.
Qed.

Lemma lookup_consume_all start (idx : list nat) l j :
  NoDup idx ->
  foldl (fun l i => consume_one l (start + i)) l idx !! j =
    if bool_decide (j ∈ map (Nat.add start) idx) then take_one <$> l !! j else l !! j.
Proof.
  revert l. induction idx as [|i idx IH]; intros l Hnd; cbn [foldl map].
  - by rewrite bool_decide_false by apply not_elem_of_nil.
  - apply NoDup_cons in Hnd as [Hi Hnd]. rewrite IH by done. rewrite lookup_consume_one.
    destruct (Nat.eqb_spec (start + i) j) as [<-|Hne].
    + rewrite (bool_decide_true (_ ∈ _ :: _)) by apply list_elem_of_here.
      rewrite bool_decide_false; [done|]. intros (k & Hk & Hin)%list_elem_of_fmap.
      by assert (k = i) as -> by lia.
    + erewrite (bool_decide_ext (_ ∈ _ :: _)); [done|]. rewrite elem_of_cons. naive_solver.
Qed.

Lemma elem_of_positions l i : i ∈ positions l <-> l !! i = Some true.
Proof.
  unfold positions. rewrite list_elem_of_omap. split.
  - intros ([k b] & Hin & Hb). apply list_elem_of_lookup_1 in Hin as [j Hj].
    rewrite list_lookup_imap in Hj. apply fmap_Some in Hj as (b' & Hb' & [= -> ->]).
    cbn in Hb. by destruct b'; simplify_eq.
  - intros H. exists (i, true). split; [|done]. apply (list_elem_of_lookup_2 _ i).
    by rewrite list_lookup_imap, H.
Qed.

(** The cells a recipe consumes are exactly the occupied ones. *)
Lemma crafting_recipe_consumes inputs width n output consume :
  places_all width n = true -> length inputs = n ->
  current_crafting_recipe inputs width = Some (output, consume) ->
  NoDup consume /\ forall i, i ∈ consume <-> exists s, inputs !! i = Some (Some s).
Proof.
  intros Hall Hlen H. unfold current_crafting_recipe in H. cbn zeta in H.
  assert (consume = positions (map (fun s => bool_decide (is_Some s)) inputs) /\
    NoDup consume) as [-> Hnd].
  { pose proof (placed_indices_positions _ width n Hall
      (eq_trans (length_map (fun s => bool_decide (is_Some s)) inputs) Hlen)) as [Hp Hnd].
    rewrite <-occupied_positions in *. rewrite <-normalized_cells_indices in Hp.
    destruct (occupied_cells inputs) as [|c occ] eqn:E; [discriminate H|].
    rewrite <-E in *. destruct (normalized_cells (occupied_cells inputs) width) as [[[w h] cells] idx].
    cbn [snd] in Hp. destruct (find _ recipes) as [[[[[? ?] ?] key] k]|]; [|discriminate H].
    injection H as <- <-. by rewrite Hp. }
  split; [done|]. intros i. rewrite elem_of_positions, list_lookup_fmap.
  destruct (inputs !! i) as [[s|]|]; cbn; [naive_solver..|].
  split; [done|]. intros (s & [=]).
Qed.

Lemma recompute_tail local width l i :
  recompute_crafting_result local width = Some l -> (1 <= i)%nat -> l !! i = local !! i.
Proof.
  destruct local as [|s rest]; [discriminate|]. intros [= <-] Hi. by destruct i; [lia|].
Qed.
Lemma recompute_head local width l :
  In width [2; 3]%nat -> recompute_crafting_result local width = Some l ->
  l !! 0%nat = Some (fst <$> current_crafting_recipe (take (width * width) (drop 1 l)) width).
Proof.
  intros Hw. destruct local as [|s rest]; [discriminate|]. intros [= <-].
  by destruct Hw as [<-|[<-|[]]].
Qed.

(** Taking the result of a craft, in the 2x2 grid of the player and in the 3x3 grid of
    the crafting table: when the click is accepted the grid holds a recipe, the cursor
    gains the whole output (left button) or a single item (right button), every cell of
    the grid gives up one item whichever the button, the other slots are untouched, and
    the result slot shows what the rest now makes; otherwise neither the inputs nor the
    cursor change. *)
Theorem crafting_take_spec local width cursor button taken local' cursor' :
  In width [2; 3]%nat -> (width * width < length local)%nat ->
  take_crafting_result local 1 (width * width) width cursor button = Some (taken, local', cursor') ->
  if taken then
    exists output consume,
      current_crafting_recipe (take (width * width) (drop 1 local)) width = Some (output, consume) /\
      take_to_cursor output (match button with LeftButton => count output | RightButton => 1 end)
        cursor = Some cursor' /\
      local' !! 0%nat =
        Some (fst <$> current_crafting_recipe (take (width * width) (drop 1 local')) width) /\
      forall i, (1 <= i)%nat ->
        local' !! i = if Nat.leb i (width * width) then take_one <$> local !! i else local !! i
  else cursor' = cursor /\ forall i, (1 <= i)%nat -> local' !! i = local !! i.
Proof.
  intros Hw Hlen H. unfold take_crafting_result in H.
  set (inputs := take (width * width) (drop 1 local)) in *.
  assert (places_all width (width * width) = true) as Hall.
  { destruct Hw as [<-|[<-|[]]]; [apply places_all_2|apply places_all_3]. }
  assert (length inputs = (width * width)%nat) as Hin.
  { unfold inputs. rewrite length_take, length_drop. lia. }
  destruct (current_crafting_recipe inputs width) as [[output consume]|] eqn:Hr.
  - cbn zeta in H. destruct (take_to_cursor _ _ _) as [c|] eqn:Hc; [|by simplify_eq].
    destruct (recompute_crafting_result _ width) as [l|] eqn:Hl; [|discriminate H].
    cbn in H. simplify_eq. exists output, consume. split_and!; [done|done|..].
    + by eapply recompute_head.
    + intros i Hi. apply recompute_tail with (i := i) in Hl; [|done]. rewrite Hl.
      destruct (crafting_recipe_consumes _ _ _ _ _ Hall Hin Hr) as [Hnd Hmem].
      rewrite lookup_consume_all by done.
      case_bool_decide as Hi'.
      * apply list_elem_of_fmap in Hi' as (j & -> & Hj). apply Hmem in Hj as [s Hs].
        apply lookup_lt_Some in Hs. rewrite (proj2 (Nat.leb_le _ _)) by lia. done.
      * destruct (Nat.leb_spec i (width * width)); [|done].
        destruct (local !! i) as [[s|]|] eqn:Hs; [|done|done]. destruct Hi'.
        apply list_elem_of_fmap. exists (i - 1)%nat. split; [lia|]. apply Hmem. exists s.
        unfold inputs. rewrite lookup_take_lt by lia. rewrite lookup_drop, <-Hs. f_equal. lia.
  - destruct (recompute_crafting_result _ width) as [l|] eqn:Hl; [|discriminate H].
    cbn in H. simplify_eq. split; [done|]. intros i Hi. by eapply recompute_tail.
Qed.

(** Two planks over each other make four sticks. *)
Definition sample_grid : list (option ItemStack) :=
  [Some (item_stack_new catalog.STICK 4 0); None; Some (item_stack_new catalog.OAK_PLANKS 3 0);
   None; Some (item_stack_new catalog.OAK_PLANKS 1 0); None; None; None; None].
Lemma crafting_take_spec_witness :
  exists local', take_crafting_result sample_grid 1 4 2 None RightButton =
      Some (true, local', Some (item_stack_new catalog.STICK 1 0)) /\
    local' !! 4%nat = take_one <$> sample_grid !! 4%nat /\ local' !! 4%nat = Some None.
Proof.
  eexists. split; [vm_compute; reflexivity|]. split; [|reflexivity].
  edestruct (crafting_take_spec sample_grid 2 None RightButton true) as (o & c & _ & _ & _ & H).
  - by left.
  - vm_compute; lia.
  - vm_compute; reflexivity.
  - apply (H 4%nat). lia.
Defined.
