(* ===== verification/VoxelState.v ===== *)
(** * The state of the voxel core and the interface to it
    ([crates/core/revy-voxel-core/src/core/mod.rs], [.../world.rs], [.../state_backend.rs])

    The stores of [ServerCore], and the traits [CoreStateRead] and [CoreStateMut] through
    which every handler reads and changes them, as type classes; the instance here is
    [BaseState], the one that changes the core in place.  A method that returns a
    [&mut] reference takes the use of the reference as a function.  The copy-on-write
    [Arc] of [VersionComponent] is the value it holds.  A [BTreeMap] is a [gmap]; its
    keys come in increasing order. *)

From Stdlib Require Import Floats.SpecFloat.
From stdpp Require Import sorting.
From S2P Require Import Prelude VoxelModel VoxelItems.

(** ** Handlers *)

(** A handler on a state [S]: [None] is a panic. *)
Definition V (S A : Type) : Type := S -> option (A * S).
#[export] Instance V_ret {S} : MRet (V S) := fun A a s => Some (a, s).
#[export] Instance V_bind {S} : MBind (V S) := fun A B f m s => '(a, s') ← m s; f a s'.
#[export] Instance V_fmap {S} : FMap (V S) := fun A B f m => a ← m; mret (f a).
Definition vpanic {S A} : V S A := fun _ => None.
Definition asks {S A} (g : S -> A) : V S A := fun s => Some (g s, s).
Definition puts {S} (g : S -> S) : V S unit := fun s => Some (tt, g s).
(** A value that may panic. *)
Definition vlift {S A} (o : option A) : V S A := fun s => a ← o; Some (a, s).
(** [let x = m?;] in a function that returns an [Option]. *)
Definition try_bind {S A B} (m : V S (option A)) (k : A -> V S (option B)) : V S (option B) :=
  m ≫= fun o => match o with Some a => k a | None => mret None end.
Notation "x ←? m ; k" := (try_bind m (fun x => k))
  (at level 20, m at level 100, k at level 200, only parsing) : stdpp_scope.
Notation "' p ←? m ; k" := (try_bind m (fun x => let p := x in k))
  (at level 20, p pattern, m at level 100, k at level 200, only parsing) : stdpp_scope.
(** [for x in l { ... }] *)
Fixpoint vfor_each {S A} (f : A -> V S unit) (l : list A) : V S unit :=
  match l with
  | [] => mret tt
  | x :: l => f x ;; vfor_each f l
  end.
(** [l.into_iter().map(f).collect()] *)
Fixpoint vmap {S A B} (f : A -> V S B) (l : list A) : V S (list B) :=
  match l with
  | [] => mret []
  | x :: l => y ← f x; ys ← vmap f l; mret (y :: ys)
  end.

(** ** Floating point, IEEE binary64 *)

Definition f64_of_Z (z : Z) : spec_float := binary_normalize 53 1024 z 0 false.
(** [m * 2^e] *)
Definition f64 (m e : Z) : spec_float := binary_normalize 53 1024 m e false.
Definition f64_add := SFadd 53 1024.
Definition f64_sub := SFsub 53 1024.
Definition f64_mul := SFmul 53 1024.
Definition f64_div := SFdiv 53 1024.
Definition f64_lt (x y : spec_float) : bool := SFltb x y.
Definition f64_le (x y : spec_float) : bool := SFleb x y.

(** ** The stores *)

Definition PlayerId : Type := Z.
Definition EntityId : Type := Z.

Record CoreConfig : Type := mkConfig {
  c_level_name : string;
  c_seed : Z;
  c_max_players : Z;
  c_view_distance : Z;
  c_game_mode : Z;
  c_difficulty : Z;
  c_spawn : BlockPos
}.

Record ClientView : Type := mkView {
  center : ChunkPos; view_distance : Z; loaded_chunks : gset ChunkPos
}.
Record ChunkDelta : Type := mkChunkDelta { added : list ChunkPos; removed : list ChunkPos }.

(** The order of [ChunkPos], derived: [x] first, then [z]. *)
Definition chunk_order (a b : ChunkPos) : Prop := cx a < cx b \/ (cx a = cx b /\ cz a <= cz b).
#[export] Instance chunk_order_dec : RelDecision chunk_order.
Proof. intros a b. unfold chunk_order. apply _. Defined.
Definition sorted_chunks (s : gset ChunkPos) : list ChunkPos := merge_sort chunk_order (elements s).
Definition sorted_ids (s : gset Z) : list Z := merge_sort Z.le (elements s).

Definition client_view_new (c : ChunkPos) (d : Z) : ClientView := mkView c d (required_chunks c d).
Definition retarget (c : ChunkPos) (d : Z) (v : ClientView) : ChunkDelta * ClientView :=
  let next_loaded := required_chunks c d in
  (mkChunkDelta (sorted_chunks (next_loaded ∖ loaded_chunks v))
     (sorted_chunks (loaded_chunks v ∖ next_loaded)),
   mkView c d next_loaded).

Record OpenInventoryWindow : Type := mkWindow { window_id : Z; container : OpenContainerState }.
Definition set_container (c : OpenContainerState) (w : OpenInventoryWindow) : OpenInventoryWindow :=
  mkWindow (window_id w) c.
Definition window_contents_of (w : OpenInventoryWindow) (inv : PlayerInventory) :
    InventoryWindowContents := with_local_slots inv (local_slots (container w)).
Definition window_properties (w : OpenInventoryWindow) : list (string * Z) :=
  property_entries (container w).
Definition window_world_position (w : OpenInventoryWindow) : option BlockPos :=
  world_position (container w).
Definition world_block_entity (w : OpenInventoryWindow) :
    option (BlockPos * ContainerBlockEntityState) :=
  p ← window_world_position w; e ← block_entity_state (container w); Some (p, e).

Record PlayerSnapshot : Type := mkSnapshot {
  p_id : PlayerId;
  username : string;
  position : Vec3;
  yaw : spec_float;
  pitch : spec_float;
  on_ground : bool;
  dimension : DimensionId;
  health : spec_float;
  food : Z;
  food_saturation : spec_float;
  inventory : PlayerInventory;
  selected_hotbar_slot : Z
}.
Definition set_inventory (v : PlayerInventory) (r : PlayerSnapshot) : PlayerSnapshot :=
  mkSnapshot (p_id r) (username r) (position r) (yaw r) (pitch r) (on_ground r) (dimension
    r) (health r) (food r) (food_saturation r) v (selected_hotbar_slot r).

Record WorldContainerViewers : Type := mkViewers { wv_kind : string; viewers : gmap PlayerId Z }.
Inductive EntityKind : Set := KindPlayer | KindDroppedItem.
Record PlayerIdentity : Type := mkIdentity { pi_player_id : PlayerId; pi_username : string }.
Record PlayerTransform : Type := mkTransform {
  t_position : Vec3;
  t_yaw : spec_float;
  t_pitch : spec_float;
  t_on_ground : bool;
  t_dimension : DimensionId
}.
Definition set_t_position (v : Vec3) (r : PlayerTransform) : PlayerTransform :=
  mkTransform v (t_yaw r) (t_pitch r) (t_on_ground r) (t_dimension r).
Definition set_t_yaw (v : spec_float) (r : PlayerTransform) : PlayerTransform :=
  mkTransform (t_position r) v (t_pitch r) (t_on_ground r) (t_dimension r).
Definition set_t_pitch (v : spec_float) (r : PlayerTransform) : PlayerTransform :=
  mkTransform (t_position r) (t_yaw r) v (t_on_ground r) (t_dimension r).
Definition set_t_on_ground (v : bool) (r : PlayerTransform) : PlayerTransform :=
  mkTransform (t_position r) (t_yaw r) (t_pitch r) v (t_dimension r).
Definition set_t_dimension (v : DimensionId) (r : PlayerTransform) : PlayerTransform :=
  mkTransform (t_position r) (t_yaw r) (t_pitch r) (t_on_ground r) v.
Record PlayerVitals : Type := mkVitals {
  v_health : spec_float; v_food : Z; v_food_saturation : spec_float
}.
Record ActiveMiningState : Type := mkMining {
  m_position : BlockPos;
  started_at_ms : Z;
  m_duration_ms : Z;
  last_stage : option Z;
  tool_context : option MiningToolSpec
}.
Definition set_last_stage (v : option Z) (r : ActiveMiningState) : ActiveMiningState :=
  mkMining (m_position r) (started_at_ms r) (m_duration_ms r) v (tool_context r).
Record DroppedItemState : Type := mkDroppedState {
  d_snapshot : DroppedItemSnapshot;
  last_updated_at_ms : Z;
  pickup_allowed_at_ms : Z;
  despawn_at_ms : Z
}.
Definition set_d_snapshot (v : DroppedItemSnapshot) (r : DroppedItemState) : DroppedItemState :=
  mkDroppedState v (last_updated_at_ms r) (pickup_allowed_at_ms r) (despawn_at_ms r).
Definition set_last_updated_at_ms (v : Z) (r : DroppedItemState) : DroppedItemState :=
  mkDroppedState (d_snapshot r) v (pickup_allowed_at_ms r) (despawn_at_ms r).
Record PlayerSessionState : Type := mkSession {
  ss_entity_id : EntityId;
  cursor : option ItemStack;
  active_container : option OpenInventoryWindow;
  next_non_player_window_id : Z;
  view : ClientView;
  pending_keep_alive_id : option Z;
  last_keep_alive_sent_at : option Z;
  next_keep_alive_at : Z
}.
Definition set_cursor (v : option ItemStack) (r : PlayerSessionState) : PlayerSessionState :=
  mkSession (ss_entity_id r) v (active_container r) (next_non_player_window_id r) (view r)
    (pending_keep_alive_id r) (last_keep_alive_sent_at r) (next_keep_alive_at r).
Definition set_active_container (v : option OpenInventoryWindow) (r : PlayerSessionState) : PlayerSessionState :=
  mkSession (ss_entity_id r) (cursor r) v (next_non_player_window_id r) (view r)
    (pending_keep_alive_id r) (last_keep_alive_sent_at r) (next_keep_alive_at r).
Definition set_next_non_player_window_id (v : Z) (r : PlayerSessionState) : PlayerSessionState :=
  mkSession (ss_entity_id r) (cursor r) (active_container r) v (view r)
    (pending_keep_alive_id r) (last_keep_alive_sent_at r) (next_keep_alive_at r).
Definition set_view (v : ClientView) (r : PlayerSessionState) : PlayerSessionState :=
  mkSession (ss_entity_id r) (cursor r) (active_container r) (next_non_player_window_id r) v
    (pending_keep_alive_id r) (last_keep_alive_sent_at r) (next_keep_alive_at r).
Definition set_pending_keep_alive_id (v : option Z) (r : PlayerSessionState) : PlayerSessionState :=
  mkSession (ss_entity_id r) (cursor r) (active_container r) (next_non_player_window_id r)
    (view r) v (last_keep_alive_sent_at r) (next_keep_alive_at r).
Definition set_last_keep_alive_sent_at (v : option Z) (r : PlayerSessionState) : PlayerSessionState :=
  mkSession (ss_entity_id r) (cursor r) (active_container r) (next_non_player_window_id r)
    (view r) (pending_keep_alive_id r) v (next_keep_alive_at r).
Definition set_next_keep_alive_at (v : Z) (r : PlayerSessionState) : PlayerSessionState :=
  mkSession (ss_entity_id r) (cursor r) (active_container r) (next_non_player_window_id r)
    (view r) (pending_keep_alive_id r) (last_keep_alive_sent_at r) v.

Record WorldStore : Type := mkWorldStore {
  w_config : CoreConfig;
  w_meta : WorldMeta;
  w_chunks : gmap ChunkPos ChunkColumn;
  w_block_entities : gmap BlockPos BlockEntityState;
  w_container_viewers : gmap BlockPos WorldContainerViewers;
  w_saved_players : gmap PlayerId PlayerSnapshot
}.
Definition set_w_config (v : CoreConfig) (r : WorldStore) : WorldStore :=
  mkWorldStore v (w_meta r) (w_chunks r) (w_block_entities r) (w_container_viewers r)
    (w_saved_players r).
Definition set_w_meta (v : WorldMeta) (r : WorldStore) : WorldStore :=
  mkWorldStore (w_config r) v (w_chunks r) (w_block_entities r) (w_container_viewers r)
    (w_saved_players r).
Definition set_w_chunks (v : gmap ChunkPos ChunkColumn) (r : WorldStore) : WorldStore :=
  mkWorldStore (w_config r) (w_meta r) v (w_block_entities r) (w_container_viewers r)
    (w_saved_players r).
Definition set_w_block_entities (v : gmap BlockPos BlockEntityState) (r : WorldStore) : WorldStore :=
  mkWorldStore (w_config r) (w_meta r) (w_chunks r) v (w_container_viewers r)
    (w_saved_players r).
Definition set_w_container_viewers (v : gmap BlockPos WorldContainerViewers) (r : WorldStore) : WorldStore :=
  mkWorldStore (w_config r) (w_meta r) (w_chunks r) (w_block_entities r) v (w_saved_players
    r).
Definition set_w_saved_players (v : gmap PlayerId PlayerSnapshot) (r : WorldStore) : WorldStore :=
  mkWorldStore (w_config r) (w_meta r) (w_chunks r) (w_block_entities r)
    (w_container_viewers r) v.

Record EntityStore : Type := mkEntityStore {
  e_kinds : gmap EntityId EntityKind;
  e_players : gmap PlayerId EntityId;
  e_identity : gmap EntityId PlayerIdentity;
  e_transform : gmap EntityId PlayerTransform;
  e_vitals : gmap EntityId PlayerVitals;
  e_inventory : gmap EntityId PlayerInventory;
  e_hotbar : gmap EntityId Z;
  e_mining : gmap EntityId ActiveMiningState;
  e_dropped : gmap EntityId DroppedItemState;
  e_next_id : Z
}.
Definition set_e_kinds (v : gmap EntityId EntityKind) (r : EntityStore) : EntityStore :=
  mkEntityStore v (e_players r) (e_identity r) (e_transform r) (e_vitals r) (e_inventory r)
    (e_hotbar r) (e_mining r) (e_dropped r) (e_next_id r).
Definition set_e_players (v : gmap PlayerId EntityId) (r : EntityStore) : EntityStore :=
  mkEntityStore (e_kinds r) v (e_identity r) (e_transform r) (e_vitals r) (e_inventory r)
    (e_hotbar r) (e_mining r) (e_dropped r) (e_next_id r).
Definition set_e_identity (v : gmap EntityId PlayerIdentity) (r : EntityStore) : EntityStore :=
  mkEntityStore (e_kinds r) (e_players r) v (e_transform r) (e_vitals r) (e_inventory r)
    (e_hotbar r) (e_mining r) (e_dropped r) (e_next_id r).
Definition set_e_transform (v : gmap EntityId PlayerTransform) (r : EntityStore) : EntityStore :=
  mkEntityStore (e_kinds r) (e_players r) (e_identity r) v (e_vitals r) (e_inventory r)
    (e_hotbar r) (e_mining r) (e_dropped r) (e_next_id r).
Definition set_e_vitals (v : gmap EntityId PlayerVitals) (r : EntityStore) : EntityStore :=
  mkEntityStore (e_kinds r) (e_players r) (e_identity r) (e_transform r) v (e_inventory r)
    (e_hotbar r) (e_mining r) (e_dropped r) (e_next_id r).
Definition set_e_inventory (v : gmap EntityId PlayerInventory) (r : EntityStore) : EntityStore :=
  mkEntityStore (e_kinds r) (e_players r) (e_identity r) (e_transform r) (e_vitals r) v
    (e_hotbar r) (e_mining r) (e_dropped r) (e_next_id r).
Definition set_e_hotbar (v : gmap EntityId Z) (r : EntityStore) : EntityStore :=
  mkEntityStore (e_kinds r) (e_players r) (e_identity r) (e_transform r) (e_vitals r)
    (e_inventory r) v (e_mining r) (e_dropped r) (e_next_id r).
Definition set_e_mining (v : gmap EntityId ActiveMiningState) (r : EntityStore) : EntityStore :=
  mkEntityStore (e_kinds r) (e_players r) (e_identity r) (e_transform r) (e_vitals r)
    (e_inventory r) (e_hotbar r) v (e_dropped r) (e_next_id r).
Definition set_e_dropped (v : gmap EntityId DroppedItemState) (r : EntityStore) : EntityStore :=
  mkEntityStore (e_kinds r) (e_players r) (e_identity r) (e_transform r) (e_vitals r)
    (e_inventory r) (e_hotbar r) (e_mining r) v (e_next_id r).
Definition set_e_next_id (v : Z) (r : EntityStore) : EntityStore :=
  mkEntityStore (e_kinds r) (e_players r) (e_identity r) (e_transform r) (e_vitals r)
    (e_inventory r) (e_hotbar r) (e_mining r) (e_dropped r) v.

Record SessionStore : Type := mkSessionStore {
  s_sessions : gmap PlayerId PlayerSessionState;
  s_next_keep_alive_id : Z;
  s_interval_ms : Z;
  s_timeout_ms : Z
}.
Definition set_s_sessions (v : gmap PlayerId PlayerSessionState) (r : SessionStore) : SessionStore :=
  mkSessionStore v (s_next_keep_alive_id r) (s_interval_ms r) (s_timeout_ms r).
Definition set_s_next_keep_alive_id (v : Z) (r : SessionStore) : SessionStore :=
  mkSessionStore (s_sessions r) v (s_interval_ms r) (s_timeout_ms r).

Record ServerCore : Type := mkCore {
  world : WorldStore;
  entities : EntityStore;
  sessions : SessionStore
}.

Definition upd_world (f : WorldStore -> WorldStore) (c : ServerCore) : ServerCore :=
  mkCore (f (world c)) (entities c) (sessions c).
Definition upd_entities (f : EntityStore -> EntityStore) (c : ServerCore) : ServerCore :=
  mkCore (world c) (f (entities c)) (sessions c).
Definition upd_sessions (f : SessionStore -> SessionStore) (c : ServerCore) : ServerCore :=
  mkCore (world c) (entities c) (f (sessions c)).

(** [insert]/[remove] of an optional value. *)
Definition put `{Countable K} {A} (k : K) (o : option A) (m : gmap K A) : gmap K A :=
  match o with Some a => <[k := a]> m | None => delete k m end.

Definition DEFAULT_KEEPALIVE_INTERVAL_MS : Z := 10000.
Definition DEFAULT_KEEPALIVE_TIMEOUT_MS : Z := 30000.

Definition core_new (config : CoreConfig) : ServerCore :=
  mkCore
    (mkWorldStore config
      (mkWorldMeta (c_level_name config) (c_seed config) (c_spawn config) Overworld 0 6000
        "FLAT" (c_game_mode config) (c_difficulty config) (c_max_players config)) ∅ ∅ ∅ ∅)
    (mkEntityStore ∅ ∅ ∅ ∅ ∅ ∅ ∅ ∅ ∅ 1)
    (mkSessionStore ∅ 1 DEFAULT_KEEPALIVE_INTERVAL_MS DEFAULT_KEEPALIVE_TIMEOUT_MS).

Record WorldSnapshot : Type := mkWorldSnapshot {
  snap_meta : WorldMeta; snap_chunks : gmap ChunkPos ChunkColumn;
  snap_block_entities : gmap BlockPos BlockEntityState; snap_players : gmap PlayerId PlayerSnapshot
}.
Definition from_snapshot (config : CoreConfig) (s : WorldSnapshot) : ServerCore :=
  upd_world (fun w => set_w_saved_players (snap_players s) (set_w_block_entities
    (snap_block_entities s) (set_w_chunks (snap_chunks s) (set_w_meta (snap_meta s) w))))
    (core_new config).

Definition set_max_players (n : Z) (c : ServerCore) : ServerCore :=
  upd_world (fun w =>
    let g := w_config w in
    let m := w_meta w in
    set_w_meta (mkWorldMeta (wm_level_name m) (wm_seed m) (wm_spawn m) (wm_dimension m) (age m)
      (time m) (level_type m) (wm_game_mode m) (wm_difficulty m) n)
    (set_w_config (mkConfig (c_level_name g) (c_seed g) n (c_view_distance g) (c_game_mode g)
      (c_difficulty g) (c_spawn g)) w)) c.

Definition reconfigure (config : CoreConfig) (c : ServerCore) : ServerCore :=
  upd_world (fun w =>
    let m := w_meta w in
    set_w_config config
      (set_w_meta (mkWorldMeta (c_level_name config) (wm_seed m) (wm_spawn m) (wm_dimension m)
        (age m) (time m) (level_type m) (c_game_mode config) (c_difficulty config)
        (c_max_players config)) w)) c.

(** ** The interface *)

Class CoreStateRead (S : Type) : Type := {
  config : S -> CoreConfig;
  world_meta : S -> WorldMeta;
  block_state : BlockPos -> S -> option BlockState;
  block_entity : BlockPos -> S -> option BlockEntityState;
  saved_player : PlayerId -> S -> option PlayerSnapshot;
  player_entity_id : PlayerId -> S -> option EntityId;
  player_session : PlayerId -> S -> option PlayerSessionState;
  player_identity_by_entity : EntityId -> S -> option PlayerIdentity;
  player_transform_by_entity : EntityId -> S -> option PlayerTransform;
  player_vitals_by_entity : EntityId -> S -> option PlayerVitals;
  player_inventory_by_entity : EntityId -> S -> option PlayerInventory;
  player_selected_hotbar_by_entity : EntityId -> S -> option Z;
  player_active_mining_by_entity : EntityId -> S -> option ActiveMiningState;
  dropped_item_by_entity : EntityId -> S -> option DroppedItemState;
  player_ids : S -> list PlayerId;
  player_entity_ids : S -> gset EntityId;
  dropped_item_ids : S -> list EntityId;
  container_viewers : BlockPos -> S -> option WorldContainerViewers;
  keepalive_interval_ms : S -> Z
}.

(** The mutable references: [f] is what the caller does with the reference; it may panic. *)
Class CoreStateMut (S : Type) `{CoreStateRead S} : Type := {
  ensure_chunk : ChunkPos -> V S ChunkColumn;
  set_block_state : BlockPos -> option BlockState -> V S unit;
  set_block_entity : BlockPos -> option BlockEntityState -> V S unit;
  player_session_mut : forall {A}, PlayerId ->
    (PlayerSessionState -> option (A * PlayerSessionState)) -> V S (option A);
  player_session_inventory_mut : forall {A}, PlayerId ->
    (PlayerSessionState -> PlayerInventory ->
       option (A * (PlayerSessionState * PlayerInventory))) -> V S (option A);
  player_transform_mut : forall {A}, EntityId ->
    (PlayerTransform -> option (A * PlayerTransform)) -> V S (option A);
  player_inventory_mut : forall {A}, EntityId ->
    (PlayerInventory -> option (A * PlayerInventory)) -> V S (option A);
  player_selected_hotbar_mut : forall {A}, EntityId -> (Z -> option (A * Z)) -> V S (option A);
  player_active_mining_mut : forall {A}, EntityId ->
    (ActiveMiningState -> option (A * ActiveMiningState)) -> V S (option A);
  remove_player_active_mining : EntityId -> V S (option ActiveMiningState);
  set_player_active_mining : EntityId -> option ActiveMiningState -> V S unit;
  allocate_entity_id : V S EntityId;
  allocate_keep_alive_id : V S Z;
  set_entity_kind : EntityId -> option EntityKind -> V S unit;
  set_dropped_item : EntityId -> option DroppedItemState -> V S unit;
  take_dropped_item : EntityId -> V S (option DroppedItemState);
  set_saved_player : PlayerId -> option PlayerSnapshot -> V S unit;
  set_container_viewers : BlockPos -> option WorldContainerViewers -> V S unit;
  spawn_online_player : PlayerSnapshot -> Z -> option EntityId -> V S EntityId;
  remove_online_player : PlayerId -> V S (option PlayerSessionState)
}.

(** The provided methods of [CoreStateRead]. *)
Section Provided.
Context {S : Type} `{CoreStateRead S}.

Definition compose_player_snapshot_by_entity (e : EntityId) (s : S) : option PlayerSnapshot :=
  identity ← player_identity_by_entity e s;
  transform ← player_transform_by_entity e s;
  vitals ← player_vitals_by_entity e s;
  inventory ← player_inventory_by_entity e s;
  selected ← player_selected_hotbar_by_entity e s;
  Some (mkSnapshot (pi_player_id identity) (pi_username identity) (t_position transform)
    (t_yaw transform) (t_pitch transform) (t_on_ground transform) (t_dimension transform)
    (v_health vitals) (v_food vitals) (v_food_saturation vitals) inventory selected).

Definition compose_player_snapshot (p : PlayerId) (s : S) : option PlayerSnapshot :=
  e ← player_entity_id p s; compose_player_snapshot_by_entity e s.
Definition player_inventory (p : PlayerId) (s : S) : option PlayerInventory :=
  e ← player_entity_id p s; player_inventory_by_entity e s.
Definition player_selected_hotbar (p : PlayerId) (s : S) : option Z :=
  e ← player_entity_id p s; player_selected_hotbar_by_entity e s.
Definition player_transform (p : PlayerId) (s : S) : option PlayerTransform :=
  e ← player_entity_id p s; player_transform_by_entity e s.
Definition player_active_mining (p : PlayerId) (s : S) : option ActiveMiningState :=
  e ← player_entity_id p s; player_active_mining_by_entity e s.
Definition online_player_count (s : S) : Z := len (player_ids s).

Definition distance_squared_to_block_center (position : Vec3) (block : BlockPos) : spec_float :=
  let dx := f64_sub (vx position) (f64_add (f64_of_Z (bx block)) (f64 1 (-1))) in
  let dy := f64_sub (f64_add (vy position) (f64 0x19eb851eb851ec (-52)))
    (f64_add (f64_of_Z (by_ block)) (f64 1 (-1))) in
  let dz := f64_sub (vz position) (f64_add (f64_of_Z (bz block)) (f64 1 (-1))) in
  f64_add (f64_add (f64_mul dx dx) (f64_mul dy dy)) (f64_mul dz dz).

(** [PLAYER_WIDTH] = 0.6, [PLAYER_HEIGHT] = 1.8, [BLOCK_EDIT_REACH] = 6.0. *)
Definition PLAYER_WIDTH : spec_float := f64 0x13333333333333 (-53).
Definition PLAYER_HEIGHT : spec_float := f64 0x1ccccccccccccd (-52).
Definition BLOCK_EDIT_REACH : spec_float := f64_of_Z 6.

Definition block_intersects_player (block : BlockPos) (player : PlayerTransform) : bool :=
  let half_width := f64_div PLAYER_WIDTH (f64_of_Z 2) in
  let p := t_position player in
  let one := f64_of_Z 1 in
  f64_lt (f64_sub (vx p) half_width) (f64_add (f64_of_Z (bx block)) one) &&
  f64_lt (f64_of_Z (bx block)) (f64_add (vx p) half_width) &&
  f64_lt (vy p) (f64_add (f64_of_Z (by_ block)) one) &&
  f64_lt (f64_of_Z (by_ block)) (f64_add (vy p) PLAYER_HEIGHT) &&
  f64_lt (f64_sub (vz p) half_width) (f64_add (f64_of_Z (bz block)) one) &&
  f64_lt (f64_of_Z (bz block)) (f64_add (vz p) half_width).

(** [a > b] on NaN is false, so the reach test lets a NaN distance through. *)
Definition can_edit_block_for_snapshot (actor : PlayerSnapshot) (p : BlockPos) (s : S) : bool :=
  if negb ((0 <=? by_ p) && (by_ p <=? 255)) then false
  else if f64_lt (f64_mul BLOCK_EDIT_REACH BLOCK_EDIT_REACH)
    (distance_squared_to_block_center (position actor) p) then false
  else negb (existsb (fun e =>
    match player_transform_by_entity e s with
    | Some t => block_intersects_player p t
    | None => false
    end) (elements (player_entity_ids s))).
End Provided.

(** ** The core in place *)

Definition i32_saturating_inc (n : Z) : Z := Z.min i32_max (n + 1).

(** A reference into a place that may be absent. *)
Definition with_ref {S T A} (find : S -> option T) (store : T -> S -> S)
    (f : T -> option (A * T)) : V S (option A) :=
  fun s =>
    match find s with
    | None => Some (None, s)
    | Some t => '(a, t) ← f t; Some (Some a, store t s)
    end.

Section Base.
Context {CB : ContentBehavior}.

(** The chunk, or the one the content pack generates. *)
Definition chunk_or_generate (p : ChunkPos) (c : ServerCore) : ChunkColumn :=
  default (generate_chunk (w_meta (world c)) p) (w_chunks (world c) !! p).

Definition block_at (p : BlockPos) (c : ServerCore) : option BlockState :=
  match w_chunks (world c) !! block_chunk_pos p with
  | None => column_get_block (generate_chunk (w_meta (world c)) (block_chunk_pos p))
              (local_x p) (by_ p) (local_z p)
  | Some chunk => column_get_block chunk (local_x p) (by_ p) (local_z p)
  end.

Definition base_ensure_chunk (p : ChunkPos) : V ServerCore ChunkColumn := fun c =>
  let c :=
    match w_chunks (world c) !! p with
    | Some _ => c
    | None => upd_world (fun w =>
        set_w_chunks (<[p := generate_chunk (w_meta w) p]> (w_chunks w)) w) c
    end in
  chunk ← w_chunks (world c) !! p; Some (chunk, c).

Definition set_block_at (p : BlockPos) (state : option BlockState) : V ServerCore unit := fun c =>
  let chunk_pos := block_chunk_pos p in
  let c :=
    match w_chunks (world c) !! chunk_pos with
    | Some _ => c
    | None => upd_world (fun w =>
        set_w_chunks (<[chunk_pos := generate_chunk (w_meta w) chunk_pos]> (w_chunks w)) w) c
    end in
  chunk ← w_chunks (world c) !! chunk_pos;
  Some (tt, upd_world (fun w => set_w_chunks
    (<[chunk_pos := column_set_block (local_x p) (by_ p) (local_z p) state chunk]> (w_chunks w)) w) c).

Definition block_entity_at (p : BlockPos) (c : ServerCore) : option BlockEntityState :=
  w_block_entities (world c) !! p.

Definition base_allocate_entity_id : V ServerCore EntityId := fun c =>
  let e := e_next_id (entities c) in
  Some (e, upd_entities (set_e_next_id (i32_saturating_inc e)) c).

Definition base_remove_online_player (p : PlayerId) : V ServerCore (option PlayerSessionState) :=
  fun c =>
    match s_sessions (sessions c) !! p with
    | None => Some (None, c)
    | Some session =>
        let e := ss_entity_id session in
        Some (Some session,
          upd_entities (fun t =>
            set_e_mining (delete e (e_mining t)) (set_e_hotbar (delete e (e_hotbar t))
            (set_e_inventory (delete e (e_inventory t)) (set_e_vitals (delete e (e_vitals t))
            (set_e_transform (delete e (e_transform t)) (set_e_identity (delete e (e_identity t))
            (set_e_kinds (delete e (e_kinds t)) (set_e_players (delete p (e_players t)) t))))))))
          (upd_sessions (fun t => set_s_sessions (delete p (s_sessions t)) t) c))
    end.

(** What both states store for a player that comes online. *)
Definition snapshot_transform (p : PlayerSnapshot) : PlayerTransform :=
  mkTransform (position p) (yaw p) (pitch p) (on_ground p) (dimension p).
Definition snapshot_vitals (p : PlayerSnapshot) : PlayerVitals :=
  mkVitals (health p) (food p) (food_saturation p).
Definition fresh_session (e : EntityId) (v : ClientView) (now_ms interval_ms : Z) :
    PlayerSessionState :=
  mkSession e None None 1 v None None (saturating_add u64_max now_ms interval_ms).

Definition base_reserve_entity_id (e : EntityId) (c : ServerCore) : ServerCore :=
  if e_next_id (entities c) <=? e then upd_entities (set_e_next_id (i32_saturating_inc e)) c else c.

Definition base_spawn_online_player (player : PlayerSnapshot) (now_ms : Z)
    (expected : option EntityId) : V ServerCore EntityId :=
  e ← match expected with Some e => mret e | None => base_allocate_entity_id end;
  puts (base_reserve_entity_id e) ;;
  chunk ← vlift (vec3_chunk_pos (position player));
  c ← asks id;
  let v := client_view_new chunk (c_view_distance (w_config (world c))) in
  puts (upd_entities (fun t =>
    set_e_mining (delete e (e_mining t))
    (set_e_hotbar (<[e := selected_hotbar_slot player]> (e_hotbar t))
    (set_e_inventory (<[e := inventory player]> (e_inventory t))
    (set_e_vitals (<[e := snapshot_vitals player]> (e_vitals t))
    (set_e_transform (<[e := snapshot_transform player]> (e_transform t))
    (set_e_identity (<[e := mkIdentity (p_id player) (username player)]> (e_identity t))
    (set_e_players (<[p_id player := e]> (e_players t))
    (set_e_kinds (<[e := KindPlayer]> (e_kinds t)) t))))))))) ;;
  puts (upd_sessions (fun t =>
    set_s_sessions (<[p_id player := fresh_session e v now_ms (s_interval_ms t)]> (s_sessions t)) t)) ;;
  mret e.

#[export] Instance BaseRead : CoreStateRead ServerCore := {
  config c := w_config (world c);
  world_meta c := w_meta (world c);
  block_state := block_at;
  block_entity := block_entity_at;
  saved_player p c := w_saved_players (world c) !! p;
  player_entity_id p c := e_players (entities c) !! p;
  player_session p c := s_sessions (sessions c) !! p;
  player_identity_by_entity e c := e_identity (entities c) !! e;
  player_transform_by_entity e c := e_transform (entities c) !! e;
  player_vitals_by_entity e c := e_vitals (entities c) !! e;
  player_inventory_by_entity e c := e_inventory (entities c) !! e;
  player_selected_hotbar_by_entity e c := e_hotbar (entities c) !! e;
  player_active_mining_by_entity e c := e_mining (entities c) !! e;
  dropped_item_by_entity e c := e_dropped (entities c) !! e;
  player_ids c := sorted_ids (dom (s_sessions (sessions c)));
  player_entity_ids c := list_to_set (map snd (map_to_list (e_players (entities c))));
  dropped_item_ids c := sorted_ids (dom (e_dropped (entities c)));
  container_viewers p c := w_container_viewers (world c) !! p;
  keepalive_interval_ms c := s_interval_ms (sessions c)
}.

#[export] Instance BaseMut : CoreStateMut ServerCore := {
  ensure_chunk := base_ensure_chunk;
  set_block_state := set_block_at;
  set_block_entity p e :=
    puts (upd_world (fun w => set_w_block_entities (put p e (w_block_entities w)) w));
  player_session_mut A p := with_ref (player_session p)
    (fun v => upd_sessions (fun t => set_s_sessions (<[p := v]> (s_sessions t)) t));
  player_session_inventory_mut A p f := fun c =>
    match player_entity_id p c with
    | None => Some (None, c)
    | Some e =>
        match player_session p c, player_inventory_by_entity e c with
        | Some session, Some inventory =>
            '(a, (session, inventory)) ← f session inventory;
            Some (Some a,
              upd_entities (fun t => set_e_inventory (<[e := inventory]> (e_inventory t)) t)
              (upd_sessions (fun t => set_s_sessions (<[p := session]> (s_sessions t)) t) c))
        | _, _ => Some (None, c)
        end
    end;
  player_transform_mut A e := with_ref (player_transform_by_entity e)
    (fun v => upd_entities (fun t => set_e_transform (<[e := v]> (e_transform t)) t));
  player_inventory_mut A e := with_ref (player_inventory_by_entity e)
    (fun v => upd_entities (fun t => set_e_inventory (<[e := v]> (e_inventory t)) t));
  player_selected_hotbar_mut A e := with_ref (player_selected_hotbar_by_entity e)
    (fun v => upd_entities (fun t => set_e_hotbar (<[e := v]> (e_hotbar t)) t));
  player_active_mining_mut A e := with_ref (player_active_mining_by_entity e)
    (fun v => upd_entities (fun t => set_e_mining (<[e := v]> (e_mining t)) t));
  remove_player_active_mining e := fun c =>
    Some (e_mining (entities c) !! e,
      upd_entities (fun t => set_e_mining (delete e (e_mining t)) t) c);
  set_player_active_mining e m :=
    puts (upd_entities (fun t => set_e_mining (put e m (e_mining t)) t));
  allocate_entity_id := base_allocate_entity_id;
  allocate_keep_alive_id := fun c =>
    let k := s_next_keep_alive_id (sessions c) in
    Some (k, upd_sessions (set_s_next_keep_alive_id (i32_saturating_inc k)) c);
  set_entity_kind e k :=
    puts (upd_entities (fun t => set_e_kinds (put e k (e_kinds t)) t));
  set_dropped_item e d :=
    puts (upd_entities (fun t => set_e_dropped (put e d (e_dropped t)) t));
  take_dropped_item e := fun c =>
    Some (e_dropped (entities c) !! e,
      upd_entities (fun t => set_e_dropped (delete e (e_dropped t)) t) c);
  set_saved_player p o :=
    puts (upd_world (fun w => set_w_saved_players (put p o (w_saved_players w)) w));
  set_container_viewers p o :=
    puts (upd_world (fun w => set_w_container_viewers (put p o (w_container_viewers w)) w));
  spawn_online_player := base_spawn_online_player;
  remove_online_player := base_remove_online_player
}.
End Base.
