(* ===== verification/VoxelOverlay.v ===== *)
(** * The overlay of a transaction and its refinement of the core
    ([crates/core/revy-voxel-core/src/core/state_backend.rs],
    [crates/core/revy-core/src/overlay.rs])

    A transaction does not change the core: it works on an [OverlayState], the core as it
    was and a [TxOverlay] of what the transaction has changed, an absent entry of which
    means "as in the core" and a [None] entry "removed".  [materialize_into] writes the
    overlay back.  [StateRefines] is the interface that a handler's refinement theorem
    needs: each method does, up to an abstraction of the state, what the same method of
    the other instance does.  The overlay refines the core through [materialize_into],
    whatever the overlay holds. *)

From stdpp Require Import sorting.
From S2P Require Import Prelude VoxelModel VoxelItems VoxelState.

(** ** Optional entries ([overlay.rs]) *)

Definition apply_optional_entry `{Countable K} {A} (m : gmap K A) (k : K) (o : option A) :
    gmap K A :=
  match o with Some a => <[k := a]> m | None => delete k m end.
Definition apply_optional_entries `{Countable K} {A} (m : gmap K A) (es : gmap K (option A)) :
    gmap K A :=
  foldl (fun m e => apply_optional_entry m e.1 e.2) m (map_to_list es).

(** ** The overlay *)

Record TxOverlay : Type := mkOverlay {
  o_chunks : gmap ChunkPos ChunkColumn;
  o_block_entities : gmap BlockPos (option BlockEntityState);
  o_container_viewers : gmap BlockPos (option WorldContainerViewers);
  o_saved_players : gmap PlayerId (option PlayerSnapshot);
  o_players : gmap PlayerId (option EntityId);
  o_kinds : gmap EntityId (option EntityKind);
  o_identity : gmap EntityId (option PlayerIdentity);
  o_transform : gmap EntityId (option PlayerTransform);
  o_vitals : gmap EntityId (option PlayerVitals);
  o_inventory : gmap EntityId (option PlayerInventory);
  o_hotbar : gmap EntityId (option Z);
  o_mining : gmap EntityId (option ActiveMiningState);
  o_dropped : gmap EntityId (option DroppedItemState);
  o_sessions : gmap PlayerId (option PlayerSessionState);
  o_next_entity_id : option Z;
  o_next_keep_alive_id : option Z
}.
Definition set_o_chunks (v : gmap ChunkPos ChunkColumn) (r : TxOverlay) : TxOverlay :=
  mkOverlay v (o_block_entities r) (o_container_viewers r) (o_saved_players r) (o_players r)
    (o_kinds r) (o_identity r) (o_transform r) (o_vitals r) (o_inventory r) (o_hotbar r)
    (o_mining r) (o_dropped r) (o_sessions r) (o_next_entity_id r) (o_next_keep_alive_id r).
Definition set_o_block_entities (v : gmap BlockPos (option BlockEntityState)) (r : TxOverlay) : TxOverlay :=
  mkOverlay (o_chunks r) v (o_container_viewers r) (o_saved_players r) (o_players r)
    (o_kinds r) (o_identity r) (o_transform r) (o_vitals r) (o_inventory r) (o_hotbar r)
    (o_mining r) (o_dropped r) (o_sessions r) (o_next_entity_id r) (o_next_keep_alive_id r).
Definition set_o_container_viewers (v : gmap BlockPos (option WorldContainerViewers)) (r : TxOverlay) : TxOverlay :=
  mkOverlay (o_chunks r) (o_block_entities r) v (o_saved_players r) (o_players r) (o_kinds
    r) (o_identity r) (o_transform r) (o_vitals r) (o_inventory r) (o_hotbar r) (o_mining r)
    (o_dropped r) (o_sessions r) (o_next_entity_id r) (o_next_keep_alive_id r).
Definition set_o_saved_players (v : gmap PlayerId (option PlayerSnapshot)) (r : TxOverlay) : TxOverlay :=
  mkOverlay (o_chunks r) (o_block_entities r) (o_container_viewers r) v (o_players r)
    (o_kinds r) (o_identity r) (o_transform r) (o_vitals r) (o_inventory r) (o_hotbar r)
    (o_mining r) (o_dropped r) (o_sessions r) (o_next_entity_id r) (o_next_keep_alive_id r).
Definition set_o_players (v : gmap PlayerId (option EntityId)) (r : TxOverlay) : TxOverlay :=
  mkOverlay (o_chunks r) (o_block_entities r) (o_container_viewers r) (o_saved_players r) v
    (o_kinds r) (o_identity r) (o_transform r) (o_vitals r) (o_inventory r) (o_hotbar r)
    (o_mining r) (o_dropped r) (o_sessions r) (o_next_entity_id r) (o_next_keep_alive_id r).
Definition set_o_kinds (v : gmap EntityId (option EntityKind)) (r : TxOverlay) : TxOverlay :=
  mkOverlay (o_chunks r) (o_block_entities r) (o_container_viewers r) (o_saved_players r)
    (o_players r) v (o_identity r) (o_transform r) (o_vitals r) (o_inventory r) (o_hotbar r)
    (o_mining r) (o_dropped r) (o_sessions r) (o_next_entity_id r) (o_next_keep_alive_id r).
Definition set_o_identity (v : gmap EntityId (option PlayerIdentity)) (r : TxOverlay) : TxOverlay :=
  mkOverlay (o_chunks r) (o_block_entities r) (o_container_viewers r) (o_saved_players r)
    (o_players r) (o_kinds r) v (o_transform r) (o_vitals r) (o_inventory r) (o_hotbar r)
    (o_mining r) (o_dropped r) (o_sessions r) (o_next_entity_id r) (o_next_keep_alive_id r).
Definition set_o_transform (v : gmap EntityId (option PlayerTransform)) (r : TxOverlay) : TxOverlay :=
  mkOverlay (o_chunks r) (o_block_entities r) (o_container_viewers r) (o_saved_players r)
    (o_players r) (o_kinds r) (o_identity r) v (o_vitals r) (o_inventory r) (o_hotbar r)
    (o_mining r) (o_dropped r) (o_sessions r) (o_next_entity_id r) (o_next_keep_alive_id r).
Definition set_o_vitals (v : gmap EntityId (option PlayerVitals)) (r : TxOverlay) : TxOverlay :=
  mkOverlay (o_chunks r) (o_block_entities r) (o_container_viewers r) (o_saved_players r)
    (o_players r) (o_kinds r) (o_identity r) (o_transform r) v (o_inventory r) (o_hotbar r)
    (o_mining r) (o_dropped r) (o_sessions r) (o_next_entity_id r) (o_next_keep_alive_id r).
Definition set_o_inventory (v : gmap EntityId (option PlayerInventory)) (r : TxOverlay) : TxOverlay :=
  mkOverlay (o_chunks r) (o_block_entities r) (o_container_viewers r) (o_saved_players r)
    (o_players r) (o_kinds r) (o_identity r) (o_transform r) (o_vitals r) v (o_hotbar r)
    (o_mining r) (o_dropped r) (o_sessions r) (o_next_entity_id r) (o_next_keep_alive_id r).
Definition set_o_hotbar (v : gmap EntityId (option Z)) (r : TxOverlay) : TxOverlay :=
  mkOverlay (o_chunks r) (o_block_entities r) (o_container_viewers r) (o_saved_players r)
    (o_players r) (o_kinds r) (o_identity r) (o_transform r) (o_vitals r) (o_inventory r) v
    (o_mining r) (o_dropped r) (o_sessions r) (o_next_entity_id r) (o_next_keep_alive_id r).
Definition set_o_mining (v : gmap EntityId (option ActiveMiningState)) (r : TxOverlay) : TxOverlay :=
  mkOverlay (o_chunks r) (o_block_entities r) (o_container_viewers r) (o_saved_players r)
    (o_players r) (o_kinds r) (o_identity r) (o_transform r) (o_vitals r) (o_inventory r)
    (o_hotbar r) v (o_dropped r) (o_sessions r) (o_next_entity_id r) (o_next_keep_alive_id
    r).
Definition set_o_dropped (v : gmap EntityId (option DroppedItemState)) (r : TxOverlay) : TxOverlay :=
  mkOverlay (o_chunks r) (o_block_entities r) (o_container_viewers r) (o_saved_players r)
    (o_players r) (o_kinds r) (o_identity r) (o_transform r) (o_vitals r) (o_inventory r)
    (o_hotbar r) (o_mining r) v (o_sessions r) (o_next_entity_id r) (o_next_keep_alive_id r).
Definition set_o_sessions (v : gmap PlayerId (option PlayerSessionState)) (r : TxOverlay) : TxOverlay :=
  mkOverlay (o_chunks r) (o_block_entities r) (o_container_viewers r) (o_saved_players r)
    (o_players r) (o_kinds r) (o_identity r) (o_transform r) (o_vitals r) (o_inventory r)
    (o_hotbar r) (o_mining r) (o_dropped r) v (o_next_entity_id r) (o_next_keep_alive_id r).
Definition set_o_next_entity_id (v : option Z) (r : TxOverlay) : TxOverlay :=
  mkOverlay (o_chunks r) (o_block_entities r) (o_container_viewers r) (o_saved_players r)
    (o_players r) (o_kinds r) (o_identity r) (o_transform r) (o_vitals r) (o_inventory r)
    (o_hotbar r) (o_mining r) (o_dropped r) (o_sessions r) v (o_next_keep_alive_id r).
Definition set_o_next_keep_alive_id (v : option Z) (r : TxOverlay) : TxOverlay :=
  mkOverlay (o_chunks r) (o_block_entities r) (o_container_viewers r) (o_saved_players r)
    (o_players r) (o_kinds r) (o_identity r) (o_transform r) (o_vitals r) (o_inventory r)
    (o_hotbar r) (o_mining r) (o_dropped r) (o_sessions r) (o_next_entity_id r) v.

Definition overlay_default : TxOverlay := mkOverlay ∅ ∅ ∅ ∅ ∅ ∅ ∅ ∅ ∅ ∅ ∅ ∅ ∅ ∅ None None.

Record OverlayState : Type := mkOverlayState { base : ServerCore; overlay : TxOverlay }.
Definition upd_overlay (f : TxOverlay -> TxOverlay) (s : OverlayState) : OverlayState :=
  mkOverlayState (base s) (f (overlay s)).

(** [if let Some(entry) = overlay.get(&k) { return entry.clone(); } base] *)
Definition entry_or `{Countable K} {A} (es : gmap K (option A)) (k : K) (b : option A) : option A :=
  match es !! k with Some entry => entry | None => b end.

(** The keys of a component: the core's, then each entry in turn. *)
Definition overlay_ids {A B} (m : gmap Z A) (es : gmap Z (option B)) : gset Z :=
  foldl (fun ids e => match e.2 with Some _ => {[e.1]} ∪ ids | None => ids ∖ {[e.1]} end)
    (dom m) (map_to_list es).

(** The entity ids of the players: the core's, then each entry in key order. *)
Definition overlay_entity_ids (m : gmap PlayerId EntityId) (es : gmap PlayerId (option EntityId)) :
    gset EntityId :=
  foldl (fun ids p =>
    match es !! p with
    | Some (Some e) => {[e]} ∪ ids
    | Some None => match m !! p with Some e => ids ∖ {[e]} | None => ids end
    | None => ids
    end) (list_to_set (map snd (map_to_list m))) (sorted_ids (dom es)).

(** A reference into an overlay entry, copied from the core when it is not there yet. *)
Definition overlay_ref `{Countable K} {T A} (entries : TxOverlay -> gmap K (option T))
    (store : gmap K (option T) -> TxOverlay -> TxOverlay) (k : K)
    (find : OverlayState -> option T) (f : T -> option (A * T)) : V OverlayState (option A) :=
  fun s =>
    match entries (overlay s) !! k with
    | None =>
        match find s with
        | None => Some (None, s)
        | Some t => '(a, t) ← f t; Some (Some a, upd_overlay (fun o => store (<[k := Some t]> (entries o)) o) s)
        end
    | Some (Some t) =>
        '(a, t) ← f t; Some (Some a, upd_overlay (fun o => store (<[k := Some t]> (entries o)) o) s)
    | Some None => Some (None, s)
    end.

Section Overlay.
Context {CB : ContentBehavior}.

#[export] Instance OverlayRead : CoreStateRead OverlayState := {
  config s := w_config (world (base s));
  world_meta s := w_meta (world (base s));
  block_state p s :=
    match o_chunks (overlay s) !! block_chunk_pos p with
    | Some chunk => column_get_block chunk (local_x p) (by_ p) (local_z p)
    | None => block_at p (base s)
    end;
  block_entity p s := entry_or (o_block_entities (overlay s)) p (block_entity_at p (base s));
  saved_player p s := entry_or (o_saved_players (overlay s)) p (saved_player p (base s));
  player_entity_id p s := entry_or (o_players (overlay s)) p (player_entity_id p (base s));
  player_session p s := entry_or (o_sessions (overlay s)) p (player_session p (base s));
  player_identity_by_entity e s :=
    entry_or (o_identity (overlay s)) e (player_identity_by_entity e (base s));
  player_transform_by_entity e s :=
    entry_or (o_transform (overlay s)) e (player_transform_by_entity e (base s));
  player_vitals_by_entity e s :=
    entry_or (o_vitals (overlay s)) e (player_vitals_by_entity e (base s));
  player_inventory_by_entity e s :=
    entry_or (o_inventory (overlay s)) e (player_inventory_by_entity e (base s));
  player_selected_hotbar_by_entity e s :=
    entry_or (o_hotbar (overlay s)) e (player_selected_hotbar_by_entity e (base s));
  player_active_mining_by_entity e s :=
    entry_or (o_mining (overlay s)) e (player_active_mining_by_entity e (base s));
  dropped_item_by_entity e s :=
    entry_or (o_dropped (overlay s)) e (dropped_item_by_entity e (base s));
  player_ids s :=
    sorted_ids (overlay_ids (s_sessions (sessions (base s))) (o_sessions (overlay s)));
  player_entity_ids s := overlay_entity_ids (e_players (entities (base s))) (o_players (overlay s));
  dropped_item_ids s :=
    sorted_ids (overlay_ids (e_dropped (entities (base s))) (o_dropped (overlay s)));
  container_viewers p s :=
    entry_or (o_container_viewers (overlay s)) p (container_viewers p (base s));
  keepalive_interval_ms s := s_interval_ms (sessions (base s))
}.

Definition overlay_ensure_chunk (p : ChunkPos) : V OverlayState ChunkColumn := fun s =>
  match o_chunks (overlay s) !! p with
  | Some chunk => Some (chunk, s)
  | None =>
      let chunk := chunk_or_generate p (base s) in
      Some (chunk, upd_overlay (fun o => set_o_chunks (<[p := chunk]> (o_chunks o)) o) s)
  end.

Definition overlay_set_block_state (p : BlockPos) (block : option BlockState) : V OverlayState unit :=
  let chunk_pos := block_chunk_pos p in
  overlay_ensure_chunk chunk_pos ;;
  ((fun s =>
    chunk ← o_chunks (overlay s) !! chunk_pos;
    Some (tt, upd_overlay (fun o => set_o_chunks
      (<[chunk_pos := column_set_block (local_x p) (by_ p) (local_z p) block chunk]> (o_chunks o)) o) s))
   : V OverlayState unit).

(** The session's and the inventory's entry are both copied before either is used. *)
Definition overlay_session_inventory_mut {A} (p : PlayerId)
    (f : PlayerSessionState -> PlayerInventory ->
       option (A * (PlayerSessionState * PlayerInventory))) : V OverlayState (option A) := fun s =>
  match player_entity_id p s with
  | None => Some (None, s)
  | Some e =>
      match
        match o_sessions (overlay s) !! p with
        | Some _ => Some s
        | None =>
            session ← player_session p (base s);
            Some (upd_overlay (fun o => set_o_sessions (<[p := Some session]> (o_sessions o)) o) s)
        end
      with
      | None => Some (None, s)
      | Some s =>
          match
            match o_inventory (overlay s) !! e with
            | Some _ => Some s
            | None =>
                inventory ← player_inventory_by_entity e s;
                Some (upd_overlay (fun o => set_o_inventory (<[e := Some inventory]> (o_inventory o)) o) s)
            end
          with
          | None => Some (None, s)
          | Some s =>
              match o_sessions (overlay s) !! p, o_inventory (overlay s) !! e with
              | Some (Some session), Some (Some inventory) =>
                  '(a, (session, inventory)) ← f session inventory;
                  Some (Some a, upd_overlay (fun o =>
                    set_o_inventory (<[e := Some inventory]> (o_inventory o))
                    (set_o_sessions (<[p := Some session]> (o_sessions o)) o)) s)
              | _, _ => Some (None, s)
              end
          end
      end
  end.

Definition overlay_allocate_entity_id : V OverlayState EntityId := fun s =>
  let next := default (e_next_id (entities (base s))) (o_next_entity_id (overlay s)) in
  Some (next, upd_overlay (set_o_next_entity_id (Some (i32_saturating_inc next))) s).

Definition overlay_reserve_entity_id (e : EntityId) (s : OverlayState) : OverlayState :=
  match o_next_entity_id (overlay s) with
  | Some next => upd_overlay (set_o_next_entity_id (Some (Z.max next (i32_saturating_inc e)))) s
  | None =>
      if e_next_id (entities (base s)) <=? e
      then upd_overlay (set_o_next_entity_id (Some (i32_saturating_inc e))) s else s
  end.

Definition overlay_spawn_online_player (player : PlayerSnapshot) (now_ms : Z)
    (expected : option EntityId) : V OverlayState EntityId :=
  e ← match expected with Some e => mret e | None => overlay_allocate_entity_id end;
  puts (overlay_reserve_entity_id e) ;;
  chunk ← vlift (vec3_chunk_pos (position player));
  s ← asks id;
  let v := client_view_new chunk (c_view_distance (w_config (world (base s)))) in
  puts (upd_overlay (fun o =>
    set_o_mining (<[e := None]> (o_mining o))
    (set_o_hotbar (<[e := Some (selected_hotbar_slot player)]> (o_hotbar o))
    (set_o_inventory (<[e := Some (inventory player)]> (o_inventory o))
    (set_o_vitals (<[e := Some (snapshot_vitals player)]> (o_vitals o))
    (set_o_transform (<[e := Some (snapshot_transform player)]> (o_transform o))
    (set_o_identity (<[e := Some (mkIdentity (p_id player) (username player))]> (o_identity o))
    (set_o_players (<[p_id player := Some e]> (o_players o))
    (set_o_kinds (<[e := Some KindPlayer]> (o_kinds o)) o))))))))) ;;
  puts (fun s => upd_overlay (fun o => set_o_sessions
    (<[p_id player := Some (fresh_session e v now_ms (s_interval_ms (sessions (base s))))]>
      (o_sessions o)) o) s) ;;
  mret e.

Definition overlay_remove_online_player (p : PlayerId) : V OverlayState (option PlayerSessionState) :=
  fun s =>
    match player_session p s with
    | None => Some (None, s)
    | Some session =>
        let e := ss_entity_id session in
        Some (Some session, upd_overlay (fun o =>
          set_o_mining (<[e := None]> (o_mining o)) (set_o_hotbar (<[e := None]> (o_hotbar o))
          (set_o_inventory (<[e := None]> (o_inventory o)) (set_o_vitals (<[e := None]> (o_vitals o))
          (set_o_transform (<[e := None]> (o_transform o)) (set_o_identity (<[e := None]> (o_identity o))
          (set_o_kinds (<[e := None]> (o_kinds o)) (set_o_players (<[p := None]> (o_players o))
          (set_o_sessions (<[p := None]> (o_sessions o)) o))))))))) s)
    end.

#[export] Instance OverlayMut : CoreStateMut OverlayState := {
  ensure_chunk := overlay_ensure_chunk;
  set_block_state := overlay_set_block_state;
  set_block_entity p e :=
    puts (upd_overlay (fun o => set_o_block_entities (<[p := e]> (o_block_entities o)) o));
  player_session_mut A p :=
    overlay_ref o_sessions set_o_sessions p (fun s => player_session p (base s));
  player_session_inventory_mut A := overlay_session_inventory_mut;
  player_transform_mut A e :=
    overlay_ref o_transform set_o_transform e (fun s => player_transform_by_entity e (base s));
  player_inventory_mut A e :=
    overlay_ref o_inventory set_o_inventory e (fun s => player_inventory_by_entity e (base s));
  player_selected_hotbar_mut A e :=
    overlay_ref o_hotbar set_o_hotbar e (fun s => player_selected_hotbar_by_entity e (base s));
  player_active_mining_mut A e :=
    overlay_ref o_mining set_o_mining e (fun s => player_active_mining_by_entity e (base s));
  remove_player_active_mining e := fun s =>
    match player_active_mining_by_entity e s with
    | None => Some (None, s)
    | Some current =>
        Some (Some current, upd_overlay (fun o => set_o_mining (<[e := None]> (o_mining o)) o) s)
    end;
  set_player_active_mining e m :=
    puts (upd_overlay (fun o => set_o_mining (<[e := m]> (o_mining o)) o));
  allocate_entity_id := overlay_allocate_entity_id;
  allocate_keep_alive_id := fun s =>
    let next := default (s_next_keep_alive_id (sessions (base s))) (o_next_keep_alive_id (overlay s)) in
    Some (next, upd_overlay (set_o_next_keep_alive_id (Some (i32_saturating_inc next))) s);
  set_entity_kind e k := puts (upd_overlay (fun o => set_o_kinds (<[e := k]> (o_kinds o)) o));
  set_dropped_item e d := puts (upd_overlay (fun o => set_o_dropped (<[e := d]> (o_dropped o)) o));
  take_dropped_item e := fun s =>
    match dropped_item_by_entity e s with
    | None => Some (None, s)
    | Some item =>
        Some (Some item, upd_overlay (fun o => set_o_dropped (<[e := None]> (o_dropped o)) o) s)
    end;
  set_saved_player p x :=
    puts (upd_overlay (fun o => set_o_saved_players (<[p := x]> (o_saved_players o)) o));
  set_container_viewers p v :=
    puts (upd_overlay (fun o => set_o_container_viewers (<[p := v]> (o_container_viewers o)) o));
  spawn_online_player := overlay_spawn_online_player;
  remove_online_player := overlay_remove_online_player
}.
End Overlay.

(** ** Writing an overlay back *)

(** The prepared players that were not finalized are skipped, and so are their entities. *)
Definition skipped_players (prepared : gmap PlayerId EntityId) (finalized : gset PlayerId) :
    gset PlayerId := dom prepared ∖ finalized.
Definition skipped_entities (prepared : gmap PlayerId EntityId) (finalized : gset PlayerId) :
    gset EntityId :=
  list_to_set (map snd (filter (fun pe => pe.1 ∉ finalized) (map_to_list prepared))).

Definition unless_skipped {A} (skipped : gset Z) (es : gmap Z A) : gmap Z A :=
  filter (fun e => e.1 ∉ skipped) es.

Definition materialize_into (o : TxOverlay) (c : ServerCore) (prepared : gmap PlayerId EntityId)
    (finalized : gset PlayerId) : ServerCore :=
  let players := skipped_players prepared finalized in
  let ents := skipped_entities prepared finalized in
  let w := world c in
  let t := entities c in
  let s := sessions c in
  mkCore
    (mkWorldStore (w_config w) (w_meta w)
      (foldl (fun m e => <[e.1 := e.2]> m) (w_chunks w) (map_to_list (o_chunks o)))
      (apply_optional_entries (w_block_entities w) (o_block_entities o))
      (apply_optional_entries (w_container_viewers w) (o_container_viewers o))
      (apply_optional_entries (w_saved_players w) (o_saved_players o)))
    (mkEntityStore
      (apply_optional_entries (e_kinds t) (unless_skipped ents (o_kinds o)))
      (apply_optional_entries (e_players t) (unless_skipped players (o_players o)))
      (apply_optional_entries (e_identity t) (unless_skipped ents (o_identity o)))
      (apply_optional_entries (e_transform t) (unless_skipped ents (o_transform o)))
      (apply_optional_entries (e_vitals t) (unless_skipped ents (o_vitals o)))
      (apply_optional_entries (e_inventory t) (unless_skipped ents (o_inventory o)))
      (apply_optional_entries (e_hotbar t) (unless_skipped ents (o_hotbar o)))
      (apply_optional_entries (e_mining t) (unless_skipped ents (o_mining o)))
      (apply_optional_entries (e_dropped t) (o_dropped o))
      (default (e_next_id t) (o_next_entity_id o)))
    (mkSessionStore
      (apply_optional_entries (s_sessions s) (unless_skipped players (o_sessions o)))
      (default (s_next_keep_alive_id s) (o_next_keep_alive_id o))
      (s_interval_ms s) (s_timeout_ms s)).

(** The core a transaction stands for, with every player it prepared finalized. *)
Definition materialized (s : OverlayState) : ServerCore := materialize_into (overlay s) (base s) ∅ ∅.

(** ** Refinement *)

(** [m2] on the abstract state does what [m1] does on the concrete one. *)
Definition sim {S T A} (abs : S -> T) (m1 : V S A) (m2 : V T A) : Prop :=
  forall s, m2 (abs s) = (fun r => (r.1, abs r.2)) <$> m1 s.

(** An expected entity id is an [i32]. *)
Definition expected_ok (e : option EntityId) : Prop :=
  match e with Some e => e <= i32_max | None => True end.

(** Everything but [player_entity_ids]. *)
Class StateRefines (S T : Type) `{CoreStateMut S} `{CoreStateMut T} (abs : S -> T) : Prop := {
  rf_config s : config (abs s) = config s;
  rf_world_meta s : world_meta (abs s) = world_meta s;
  rf_block_state p s : block_state p (abs s) = block_state p s;
  rf_block_entity p s : block_entity p (abs s) = block_entity p s;
  rf_saved_player p s : saved_player p (abs s) = saved_player p s;
  rf_player_entity_id p s : player_entity_id p (abs s) = player_entity_id p s;
  rf_player_session p s : player_session p (abs s) = player_session p s;
  rf_identity e s : player_identity_by_entity e (abs s) = player_identity_by_entity e s;
  rf_transform e s : player_transform_by_entity e (abs s) = player_transform_by_entity e s;
  rf_vitals e s : player_vitals_by_entity e (abs s) = player_vitals_by_entity e s;
  rf_inventory e s : player_inventory_by_entity e (abs s) = player_inventory_by_entity e s;
  rf_hotbar e s :
    player_selected_hotbar_by_entity e (abs s) = player_selected_hotbar_by_entity e s;
  rf_mining e s :
    player_active_mining_by_entity e (abs s) = player_active_mining_by_entity e s;
  rf_dropped e s : dropped_item_by_entity e (abs s) = dropped_item_by_entity e s;
  rf_player_ids s : player_ids (abs s) = player_ids s;
  rf_dropped_ids s : dropped_item_ids (abs s) = dropped_item_ids s;
  rf_viewers p s : container_viewers p (abs s) = container_viewers p s;
  rf_interval s : keepalive_interval_ms (abs s) = keepalive_interval_ms s;
  rf_ensure_chunk p : sim abs (ensure_chunk p) (ensure_chunk p);
  rf_set_block_state p b : sim abs (set_block_state p b) (set_block_state p b);
  rf_set_block_entity p b : sim abs (set_block_entity p b) (set_block_entity p b);
  rf_session_mut {A} p (f : PlayerSessionState -> option (A * PlayerSessionState)) :
    sim abs (player_session_mut p f) (player_session_mut p f);
  rf_session_inventory_mut {A} p (f : PlayerSessionState -> PlayerInventory ->
      option (A * (PlayerSessionState * PlayerInventory))) :
    sim abs (player_session_inventory_mut p f) (player_session_inventory_mut p f);
  rf_transform_mut {A} e (f : PlayerTransform -> option (A * PlayerTransform)) :
    sim abs (player_transform_mut e f) (player_transform_mut e f);
  rf_inventory_mut {A} e (f : PlayerInventory -> option (A * PlayerInventory)) :
    sim abs (player_inventory_mut e f) (player_inventory_mut e f);
  rf_hotbar_mut {A} e (f : Z -> option (A * Z)) :
    sim abs (player_selected_hotbar_mut e f) (player_selected_hotbar_mut e f);
  rf_mining_mut {A} e (f : ActiveMiningState -> option (A * ActiveMiningState)) :
    sim abs (player_active_mining_mut e f) (player_active_mining_mut e f);
  rf_remove_mining e : sim abs (remove_player_active_mining e) (remove_player_active_mining e);
  rf_set_mining e m : sim abs (set_player_active_mining e m) (set_player_active_mining e m);
  rf_allocate_entity_id : sim abs allocate_entity_id allocate_entity_id;
  rf_allocate_keep_alive_id : sim abs allocate_keep_alive_id allocate_keep_alive_id;
  rf_set_kind e k : sim abs (set_entity_kind e k) (set_entity_kind e k);
  rf_set_dropped e d : sim abs (set_dropped_item e d) (set_dropped_item e d);
  rf_take_dropped e : sim abs (take_dropped_item e) (take_dropped_item e);
  rf_set_saved p x : sim abs (set_saved_player p x) (set_saved_player p x);
  rf_set_viewers p v : sim abs (set_container_viewers p v) (set_container_viewers p v);
  rf_spawn p now e : expected_ok e ->
    sim abs (spawn_online_player p now e) (spawn_online_player p now e);
  rf_remove p : sim abs (remove_online_player p) (remove_online_player p)
}.

Section SimRules.
Context {S T : Type} {abs : S -> T}.

Lemma sim_ret {A} (a : A) : sim abs (mret a) (mret a).
Proof. done. Qed.

Lemma sim_bind {A B} (m1 : V S A) (m2 : V T A) (f1 : A -> V S B) (f2 : A -> V T B) :
  sim abs m1 m2 -> (forall a, sim abs (f1 a) (f2 a)) -> sim abs (m1 ≫= f1) (m2 ≫= f2).
Proof.
  intros Hm Hf s. unfold mbind, V_bind. rewrite Hm. destruct (m1 s) as [[a s']|]; [|done].
  apply Hf.
Qed.

Lemma sim_try_bind {A B} (m1 : V S (option A)) (m2 : V T (option A))
    (f1 : A -> V S (option B)) (f2 : A -> V T (option B)) :
  sim abs m1 m2 -> (forall a, sim abs (f1 a) (f2 a)) -> sim abs (try_bind m1 f1) (try_bind m2 f2).
Proof. intros Hm Hf. apply sim_bind; [done|]. intros [a|]; [apply Hf|apply sim_ret]. Qed.

Lemma sim_asks {A} (g1 : S -> A) (g2 : T -> A) :
  (forall s, g2 (abs s) = g1 s) -> sim abs (asks g1) (asks g2).
Proof. intros H s. unfold asks. by rewrite H. Qed.

Lemma sim_puts (g1 : S -> S) (g2 : T -> T) :
  (forall s, g2 (abs s) = abs (g1 s)) -> sim abs (puts g1) (puts g2).
Proof. intros H s. unfold puts. by rewrite H. Qed.

Lemma sim_vlift {A} (o : option A) : sim abs (vlift o) (vlift o).
Proof. intros s. by destruct o. Qed.

Lemma sim_vfor_each {A} (f1 : A -> V S unit) (f2 : A -> V T unit) l :
  (forall a, sim abs (f1 a) (f2 a)) -> sim abs (vfor_each f1 l) (vfor_each f2 l).
Proof.
  intros Hf. induction l as [|a l IH]; [apply sim_ret|]. apply sim_bind; [apply Hf|done].
Qed.

Lemma sim_vmap {A B} (f1 : A -> V S B) (f2 : A -> V T B) l :
  (forall a, sim abs (f1 a) (f2 a)) -> sim abs (vmap f1 l) (vmap f2 l).
Proof.
  intros Hf. induction l as [|a l IH]; [apply sim_ret|].
  apply sim_bind; [apply Hf|]. intros b. apply sim_bind; [done|]. intros bs. apply sim_ret.
Qed.
End SimRules.

Create HintDb sim.
#[export] Hint Resolve sim_ret sim_vlift : sim.

(** ** Lookups of a materialized overlay *)

Lemma foldl_put_lookup `{Countable K} {A} (l : list (K * option A)) : forall (m : gmap K A) k,
  NoDup l.*1 ->
  foldl (fun m e => apply_optional_entry m e.1 e.2) m l !! k =
    match (list_to_map l : gmap K (option A)) !! k with Some o => o | None => m !! k end.
Proof.
  induction l as [|[k0 o] l IH]; intros m k Hnd; [done|]. cbn [foldl fst snd].
  apply NoDup_cons in Hnd as [Hn Hnd]. rewrite IH by done.
  destruct (decide (k = k0)) as [->|Hne].
  - rewrite list_to_map_cons, lookup_insert_eq.
    rewrite not_elem_of_list_to_map_1 by done. unfold apply_optional_entry.
    destruct o; [apply lookup_insert_eq|apply lookup_delete_eq].
  - rewrite list_to_map_cons, lookup_insert_ne by done.
    destruct ((list_to_map l : gmap K (option A)) !! k); [done|]. unfold apply_optional_entry.
    destruct o; [by apply lookup_insert_ne|by apply lookup_delete_ne].
Qed.

Lemma lookup_apply_optional `{Countable K} {A} (m : gmap K A) es k :
  apply_optional_entries m es !! k = entry_or es k (m !! k).
Proof.
  unfold apply_optional_entries. rewrite foldl_put_lookup by apply NoDup_fst_map_to_list.
  by rewrite list_to_map_to_list.
Qed.

Lemma apply_optional_insert `{Countable K} {A} (m : gmap K A) es k o :
  apply_optional_entries m (<[k := o]> es) = put k o (apply_optional_entries m es).
Proof.
  apply map_eq. intros k'. rewrite lookup_apply_optional. unfold entry_or, put.
  destruct (decide (k = k')) as [->|Hne].
  - rewrite lookup_insert_eq. destruct o; [by rewrite lookup_insert_eq|by rewrite lookup_delete_eq].
  - rewrite lookup_insert_ne by done.
    destruct o; [rewrite lookup_insert_ne by done|rewrite lookup_delete_ne by done];
      by rewrite lookup_apply_optional.
Qed.

Lemma put_same `{Countable K} {A} (m : gmap K A) k o : m !! k = o -> put k o m = m.
Proof. intros <-. unfold put. destruct (m !! k) eqn:E; [by apply insert_id|by apply delete_id]. Qed.

Lemma foldl_insert_lookup `{Countable K} {A} (l : list (K * A)) : forall (m : gmap K A) k,
  NoDup l.*1 ->
  foldl (fun m e => <[e.1 := e.2]> m) m l !! k =
    match (list_to_map l : gmap K A) !! k with Some a => Some a | None => m !! k end.
Proof.
  induction l as [|[k0 a] l IH]; intros m k Hnd; [done|]. cbn [foldl fst snd].
  apply NoDup_cons in Hnd as [Hn Hnd]. rewrite IH by done.
  destruct (decide (k = k0)) as [->|Hne].
  - rewrite list_to_map_cons, not_elem_of_list_to_map_1 by done. by rewrite !lookup_insert_eq.
  - by rewrite list_to_map_cons, !lookup_insert_ne by done.
Qed.

Definition chunks_of (s : OverlayState) : gmap ChunkPos ChunkColumn :=
  foldl (fun m e => <[e.1 := e.2]> m) (w_chunks (world (base s))) (map_to_list (o_chunks (overlay s))).

Lemma lookup_chunks (m es : gmap ChunkPos ChunkColumn) p :
  foldl (fun m e => <[e.1 := e.2]> m) m (map_to_list es) !! p =
    match es !! p with Some c => Some c | None => m !! p end.
Proof.
  rewrite foldl_insert_lookup by apply NoDup_fst_map_to_list. by rewrite list_to_map_to_list.
Qed.

Lemma chunks_insert (m es : gmap ChunkPos ChunkColumn) p c :
  foldl (fun m e => <[e.1 := e.2]> m) m (map_to_list (<[p := c]> es)) =
    <[p := c]> (foldl (fun m e => <[e.1 := e.2]> m) m (map_to_list es)).
Proof.
  apply map_eq. intros q. rewrite lookup_chunks. destruct (decide (p = q)) as [->|Hne].
  - by rewrite !lookup_insert_eq.
  - by rewrite !lookup_insert_ne, lookup_chunks by done.
Qed.

Lemma foldl_ids_elem {B} (l : list (Z * option B)) : forall (ids : gset Z) k,
  NoDup l.*1 ->
  k ∈ foldl (fun ids e => match e.2 with Some _ => {[e.1]} ∪ ids | None => ids ∖ {[e.1]} end) ids l
  <-> match (list_to_map l : gmap Z (option B)) !! k with
      | Some o => is_Some o | None => k ∈ ids end.
Proof.
  induction l as [|[k0 o] l IH]; intros ids k Hnd; [done|]. cbn [foldl fst snd].
  apply NoDup_cons in Hnd as [Hn Hnd]. rewrite IH by done.
  destruct (decide (k = k0)) as [->|Hne].
  - rewrite list_to_map_cons, lookup_insert_eq, not_elem_of_list_to_map_1 by done.
    destruct o; [split; [by eexists|set_solver]|split; [set_solver|by intros [? ?]]].
  - rewrite list_to_map_cons, lookup_insert_ne by done.
    destruct ((list_to_map l : gmap Z (option B)) !! k); [done|]. destruct o; set_solver.
Qed.

Lemma overlay_ids_dom {A} (m : gmap Z A) (es : gmap Z (option A)) :
  overlay_ids m es = dom (apply_optional_entries m es).
Proof.
  apply set_eq. intros k. unfold overlay_ids.
  rewrite foldl_ids_elem by apply NoDup_fst_map_to_list. rewrite list_to_map_to_list.
  rewrite (elem_of_dom (apply_optional_entries m es)), lookup_apply_optional. unfold entry_or.
  destruct (es !! k); [done|]. apply elem_of_dom.
Qed.

Lemma unless_skipped_empty {A} (es : gmap Z A) : unless_skipped ∅ es = es.
Proof. apply map_filter_id. intros. set_solver. Qed.

Lemma materialized_unfold s : materialized s =
  mkCore
    (mkWorldStore (w_config (world (base s))) (w_meta (world (base s))) (chunks_of s)
      (apply_optional_entries (w_block_entities (world (base s))) (o_block_entities (overlay s)))
      (apply_optional_entries (w_container_viewers (world (base s)))
        (o_container_viewers (overlay s)))
      (apply_optional_entries (w_saved_players (world (base s))) (o_saved_players (overlay s))))
    (mkEntityStore
      (apply_optional_entries (e_kinds (entities (base s))) (o_kinds (overlay s)))
      (apply_optional_entries (e_players (entities (base s))) (o_players (overlay s)))
      (apply_optional_entries (e_identity (entities (base s))) (o_identity (overlay s)))
      (apply_optional_entries (e_transform (entities (base s))) (o_transform (overlay s)))
      (apply_optional_entries (e_vitals (entities (base s))) (o_vitals (overlay s)))
      (apply_optional_entries (e_inventory (entities (base s))) (o_inventory (overlay s)))
      (apply_optional_entries (e_hotbar (entities (base s))) (o_hotbar (overlay s)))
      (apply_optional_entries (e_mining (entities (base s))) (o_mining (overlay s)))
      (apply_optional_entries (e_dropped (entities (base s))) (o_dropped (overlay s)))
      (default (e_next_id (entities (base s))) (o_next_entity_id (overlay s))))
    (mkSessionStore
      (apply_optional_entries (s_sessions (sessions (base s))) (o_sessions (overlay s)))
      (default (s_next_keep_alive_id (sessions (base s))) (o_next_keep_alive_id (overlay s)))
      (s_interval_ms (sessions (base s))) (s_timeout_ms (sessions (base s)))).
Proof.
  unfold materialized, materialize_into, skipped_players, skipped_entities.
  rewrite dom_empty_L, map_to_list_empty. change (list_to_set (map snd (filter _ []))) with (∅ : gset Z).
  replace (∅ ∖ ∅ : gset PlayerId) with (∅ : gset PlayerId) by set_solver. by rewrite !unless_skipped_empty.
Qed.

Lemma chunks_of_insert s p c o :
  o_chunks o = o_chunks (overlay s) ->
  chunks_of (mkOverlayState (base s) (set_o_chunks (<[p := c]> (o_chunks o)) o)) =
    <[p := c]> (chunks_of s).
Proof. intros ->. unfold chunks_of. apply chunks_insert. Qed.

Lemma lookup_chunks_of s p :
  chunks_of s !! p = match o_chunks (overlay s) !! p with
    | Some c => Some c | None => w_chunks (world (base s)) !! p end.
Proof. apply lookup_chunks. Qed.

(** Looking up what a reference finds. *)
Lemma entry_or_cases `{Countable K} {A} (es : gmap K (option A)) k b :
  match es !! k with
  | Some (Some a) => entry_or es k b = Some a
  | Some None => entry_or es k b = None
  | None => entry_or es k b = b
  end.
Proof. unfold entry_or. by destruct (es !! k) as [[]|]. Qed.

(** Both sides of a write, unfolded to the fields. *)
Ltac mat := rewrite ?materialized_unfold;
  cbn -[apply_optional_entries chunks_of i32_saturating_inc sorted_ids];
  rewrite ?lookup_apply_optional, ?apply_optional_insert.

Section RefineOverlay.
Context {CB : ContentBehavior}.

(** A reference of the overlay is a reference of the materialized core. *)
Lemma sim_overlay_ref `{Countable K} {T A} entries store (k : K) find
    (find' : ServerCore -> option T) store' (f : T -> option (A * T)) :
  (forall s, find' (materialized s) = entry_or (entries (overlay s)) k (find s)) ->
  (forall s t, materialized (upd_overlay (fun o => store (<[k := Some t]> (entries o)) o) s) =
     store' t (materialized s)) ->
  sim materialized (overlay_ref entries store k find f) (with_ref find' store' f).
Proof.
  intros Hf Hs s. unfold with_ref, overlay_ref. rewrite Hf. unfold entry_or.
  destruct (entries (overlay s) !! k) as [[t|]|]; [|done|destruct (find s) as [t|]; [|done]];
    (destruct (f t) as [[a t']|]; [|done]); cbn; by rewrite Hs.
Qed.

Lemma mat_chunks s : w_chunks (world (materialized s)) = chunks_of s.
Proof. by rewrite materialized_unfold. Qed.

Lemma mat_meta s : w_meta (world (materialized s)) = w_meta (world (base s)).
Proof. by rewrite materialized_unfold. Qed.

(** Writing a chunk to the overlay is writing it to the core. *)
Lemma mat_set_chunk s p c :
  materialized (upd_overlay (fun o => set_o_chunks (<[p := c]> (o_chunks o)) o) s) =
    upd_world (fun w => set_w_chunks (<[p := c]> (w_chunks w)) w) (materialized s).
Proof.
  rewrite !materialized_unfold. unfold upd_overlay, upd_world.
  cbn -[apply_optional_entries chunks_of]. by rewrite chunks_of_insert.
Qed.

Lemma mat_same_chunk s p c :
  chunks_of s !! p = Some c ->
  upd_world (fun w => set_w_chunks (<[p := c]> (w_chunks w)) w) (materialized s) = materialized s.
Proof.
  intros Hc. rewrite !materialized_unfold. unfold upd_world.
  cbn -[apply_optional_entries chunks_of]. by rewrite insert_id.
Qed.

Lemma sim_ensure_chunk p : sim materialized (overlay_ensure_chunk p) (base_ensure_chunk p).
Proof.
  intros s. unfold overlay_ensure_chunk, base_ensure_chunk. rewrite mat_chunks, lookup_chunks_of.
  destruct (o_chunks (overlay s) !! p) as [c|] eqn:E.
  - rewrite mat_chunks, lookup_chunks_of, E. done.
  - unfold chunk_or_generate. destruct (w_chunks (world (base s)) !! p) as [c|] eqn:Eb.
    + rewrite mat_chunks, lookup_chunks_of, E, Eb. cbn [mbind option_bind fmap option_fmap option_map fst snd].
      change (default ?d (Some c)) with c. rewrite mat_set_chunk, mat_same_chunk; [done|].
      by rewrite lookup_chunks_of, E.
    + cbn [upd_world world set_w_chunks w_chunks]. rewrite mat_meta, lookup_insert_eq.
      cbn [mbind option_bind fmap option_fmap option_map fst snd]. change (default ?d None) with d.
      rewrite mat_set_chunk. unfold upd_world. by rewrite mat_meta.
Qed.

Lemma sim_set_block_state p b :
  sim materialized (overlay_set_block_state p b) (set_block_at p b).
Proof.
  intros s. pose proof (sim_ensure_chunk (block_chunk_pos p) s) as He.
  unfold overlay_set_block_state, set_block_at. cbn zeta.
  unfold base_ensure_chunk in He. cbn zeta in He.
  unfold mbind, V_bind. destruct (overlay_ensure_chunk (block_chunk_pos p) s) as [[c s1]|] eqn:E1.
  - cbn [option_bind fmap option_fmap option_map fst snd] in *.
    set (c1 := match w_chunks (world (materialized s)) !! block_chunk_pos p with
      | Some _ => _ | None => _ end) in *.
    destruct (w_chunks (world c1) !! block_chunk_pos p) as [c'|] eqn:Ec; [|done].
    cbn [option_bind] in He. injection He as -> Hc1. cbn [option_bind].
    assert (o_chunks (overlay s1) !! block_chunk_pos p = Some c) as Ho.
    { unfold overlay_ensure_chunk in E1.
      destruct (o_chunks (overlay s) !! block_chunk_pos p) as [c2|] eqn:E2.
      - by injection E1 as <- <-.
      - injection E1 as <- <-. cbn. apply lookup_insert_eq. }
    cbn [mbind option_bind]. rewrite Ho. cbn [option_bind fmap option_fmap option_map fst snd]. rewrite Hc1.
    by rewrite <- mat_set_chunk.
  - unfold overlay_ensure_chunk in E1. by destruct (o_chunks (overlay s) !! block_chunk_pos p).
Qed.

(** The sessions, inventories and other components of the materialized core. *)
Lemma mat_players p s : player_entity_id p (materialized s) = player_entity_id p s.
Proof. rewrite materialized_unfold. apply lookup_apply_optional. Qed.
Lemma mat_session p s : player_session p (materialized s) = player_session p s.
Proof. rewrite materialized_unfold. apply lookup_apply_optional. Qed.
Lemma mat_inventory e s :
  player_inventory_by_entity e (materialized s) = player_inventory_by_entity e s.
Proof. rewrite materialized_unfold. apply lookup_apply_optional. Qed.

Lemma mat_set_session p v s :
  materialized (upd_overlay (fun o => set_o_sessions (<[p := v]> (o_sessions o)) o) s) =
    upd_sessions (fun t => set_s_sessions (put p v (s_sessions t)) t) (materialized s).
Proof.
  rewrite !materialized_unfold. unfold upd_overlay, upd_sessions.
  cbn -[apply_optional_entries chunks_of]. by rewrite apply_optional_insert.
Qed.

Lemma mat_set_inventory e v s :
  materialized (upd_overlay (fun o => set_o_inventory (<[e := v]> (o_inventory o)) o) s) =
    upd_entities (fun t => set_e_inventory (put e v (e_inventory t)) t) (materialized s).
Proof.
  rewrite !materialized_unfold. unfold upd_overlay, upd_entities.
  cbn -[apply_optional_entries chunks_of]. by rewrite apply_optional_insert.
Qed.

(** Copying an entry from the core changes nothing. *)
Lemma mat_copy_session p v s :
  player_session p s = Some v ->
  materialized (upd_overlay (fun o => set_o_sessions (<[p := Some v]> (o_sessions o)) o) s) =
    materialized s.
Proof.
  intros Hv. rewrite mat_set_session. unfold upd_sessions, set_s_sessions. rewrite put_same.
  - by destruct (materialized s) as [? ? []].
  - by rewrite <- Hv, <- mat_session.
Qed.

Lemma mat_copy_inventory e v s :
  player_inventory_by_entity e s = Some v ->
  materialized (upd_overlay (fun o => set_o_inventory (<[e := Some v]> (o_inventory o)) o) s) =
    materialized s.
Proof.
  intros Hv. rewrite mat_set_inventory. unfold upd_entities, set_e_inventory. rewrite put_same.
  - by destruct (materialized s) as [? [] ?].
  - by rewrite <- Hv, <- mat_inventory.
Qed.

(** The part of [player_session_inventory_mut] after the copies. *)
Lemma sim_session_inventory_use {A} p e session inventory s0 s1
    (f : PlayerSessionState -> PlayerInventory ->
       option (A * (PlayerSessionState * PlayerInventory))) :
  materialized s1 = materialized s0 ->
  ('(a, (session, inventory)) ← f session inventory;
   Some (Some a,
     upd_entities (fun t => set_e_inventory (<[e := inventory]> (e_inventory t)) t)
     (upd_sessions (fun t => set_s_sessions (<[p := session]> (s_sessions t)) t) (materialized s0)))) =
  (fun r => (r.1, materialized r.2)) <$>
    ('(a, (session, inventory)) ← f session inventory;
     Some (Some a, upd_overlay (fun o =>
       set_o_inventory (<[e := Some inventory]> (o_inventory o))
       (set_o_sessions (<[p := Some session]> (o_sessions o)) o)) s1)).
Proof.
  intros Hm. destruct (f session inventory) as [[a [v i]]|]; [|done]. cbn. rewrite <- Hm.
  do 2 f_equal. rewrite !materialized_unfold. unfold upd_overlay, upd_entities, upd_sessions.
  cbn -[apply_optional_entries chunks_of]. by rewrite !apply_optional_insert.
Qed.

Lemma sim_session_inventory_mut {A} p (f : PlayerSessionState -> PlayerInventory ->
    option (A * (PlayerSessionState * PlayerInventory))) :
  sim materialized (player_session_inventory_mut p f) (player_session_inventory_mut p f).
Proof.
  intros s. cbn [player_session_inventory_mut BaseMut OverlayMut].
  unfold overlay_session_inventory_mut. rewrite mat_players.
  destruct (player_entity_id p s) as [e|]; [|done]. rewrite mat_session, mat_inventory.
  pose proof (mat_copy_session p) as Hcs. pose proof (mat_copy_inventory e) as Hci.
  assert (player_session p s = entry_or (o_sessions (overlay s)) p (player_session p (base s)))
    as Hs by done.
  assert (forall s', player_inventory_by_entity e s' =
    entry_or (o_inventory (overlay s')) e (player_inventory_by_entity e (base s'))) as Hi by done.
  unfold entry_or in Hs, Hi. rewrite Hi.
  assert (forall s1, materialized s1 = materialized s ->
    o_inventory (overlay s1) = o_inventory (overlay s) -> base s1 = base s ->
    forall session, player_session p s = Some session ->
    o_sessions (overlay s1) !! p = Some (Some session) ->
    match player_inventory_by_entity e s with
    | Some inventory =>
        '(a, (session, inventory)) ← f session inventory;
        Some (Some a,
          upd_entities (fun t => set_e_inventory (<[e := inventory]> (e_inventory t)) t)
          (upd_sessions (fun t => set_s_sessions (<[p := session]> (s_sessions t)) t) (materialized s)))
    | None => Some (None, materialized s)
    end = (fun r => (r.1, materialized r.2)) <$>
      match
        match o_inventory (overlay s1) !! e with
        | Some _ => Some s1
        | None =>
            inventory ← player_inventory_by_entity e s1;
            Some (upd_overlay (fun o => set_o_inventory (<[e := Some inventory]> (o_inventory o)) o) s1)
        end
      with
      | None => Some (None, s1)
      | Some s2 =>
          match o_sessions (overlay s2) !! p, o_inventory (overlay s2) !! e with
          | Some (Some session), Some (Some inventory) =>
              '(a, (session, inventory)) ← f session inventory;
              Some (Some a, upd_overlay (fun o =>
                set_o_inventory (<[e := Some inventory]> (o_inventory o))
                (set_o_sessions (<[p := Some session]> (o_sessions o)) o)) s2)
          | _, _ => Some (None, s2)
          end
      end) as Huse.
  { intros s1 Hm Ho Hb session Hps Hos. rewrite !Hi, Ho, Hb.
    destruct (o_inventory (overlay s) !! e) as [[inventory|]|] eqn:Ei.
    - rewrite Hos, Ho, Ei. by apply sim_session_inventory_use.
    - rewrite Hos, Ho, Ei. cbn. by rewrite Hm.
    - destruct (player_inventory_by_entity e (base s)) as [inventory|] eqn:Eb;
        cbn [mbind option_bind]; [|cbn; by rewrite Hm].
      cbn [upd_overlay overlay set_o_inventory o_sessions o_inventory]. rewrite Hos, lookup_insert_eq.
      apply sim_session_inventory_use. rewrite <- Hm. apply (Hci inventory s1).
      by rewrite Hi, Ho, Ei, Hb. }
  rewrite Hi in Huse.
  destruct (o_sessions (overlay s) !! p) as [[session|]|] eqn:Es.
  - rewrite Hs. by apply Huse.
  - rewrite Hs. destruct (o_inventory (overlay s) !! e) as [[inventory|]|] eqn:Ei.
    + rewrite Es. done.
    + rewrite Es. done.
    + destruct (player_inventory_by_entity e s) as [inventory|] eqn:Eb; cbn [mbind option_bind];
        [|done].
      cbn [upd_overlay overlay set_o_inventory o_sessions]. rewrite Es.
      cbn -[materialized]. do 2 f_equal. symmetry. by apply (Hci inventory s).
  - rewrite Hs. destruct (player_session p (base s)) as [session|] eqn:Eb; cbn [mbind option_bind]; [|done].
    apply Huse; [by apply (Hcs session s); rewrite Hs|done|done|done|].
    cbn. apply lookup_insert_eq.
Qed.

Lemma sim_allocate_entity_id : sim materialized overlay_allocate_entity_id base_allocate_entity_id.
Proof.
  intros s. unfold base_allocate_entity_id, overlay_allocate_entity_id.
  cbn [fmap option_fmap option_map fst snd]. by rewrite !materialized_unfold.
Qed.

Lemma mat_set_next_id n s :
  materialized (upd_overlay (set_o_next_entity_id (Some n)) s) =
    upd_entities (set_e_next_id n) (materialized s).
Proof. by rewrite !materialized_unfold. Qed.

Definition next_entity_id (s : OverlayState) : Z :=
  default (e_next_id (entities (base s))) (o_next_entity_id (overlay s)).

Lemma mat_next_id s : e_next_id (entities (materialized s)) = next_entity_id s.
Proof. by rewrite materialized_unfold. Qed.

Lemma set_next_id_same c : upd_entities (set_e_next_id (e_next_id (entities c))) c = c.
Proof. by destruct c as [? [] ?]. Qed.

(** The condition fails only for an id that is not an [i32]. *)
Lemma mat_reserve e s :
  (next_entity_id s <= e -> next_entity_id s <= i32_saturating_inc e) ->
  base_reserve_entity_id e (materialized s) = materialized (overlay_reserve_entity_id e s).
Proof.
  intros Hn. unfold base_reserve_entity_id, overlay_reserve_entity_id. rewrite mat_next_id.
  unfold next_entity_id in *. destruct (o_next_entity_id (overlay s)) as [n|] eqn:En.
  - change (default ?d (Some n)) with n in *. rewrite mat_set_next_id. case_test.
    + rewrite Z.max_r by auto. done.
    + rewrite Z.max_l by (unfold i32_saturating_inc; lia).
      rewrite <- (set_next_id_same (materialized s)) at 1. rewrite mat_next_id.
      unfold next_entity_id. by rewrite En.
  - change (default ?d None) with d in *. case_test; [|done]. by rewrite mat_set_next_id.
Qed.

(** The part of [spawn_online_player] after the entity id is chosen. *)
Lemma sim_spawn_rest player now_ms e : sim materialized
  (chunk ← vlift (vec3_chunk_pos (position player));
   s ← asks id;
   puts (upd_overlay (fun o =>
    set_o_mining (<[e := None]> (o_mining o))
    (set_o_hotbar (<[e := Some (selected_hotbar_slot player)]> (o_hotbar o))
    (set_o_inventory (<[e := Some (inventory player)]> (o_inventory o))
    (set_o_vitals (<[e := Some (snapshot_vitals player)]> (o_vitals o))
    (set_o_transform (<[e := Some (snapshot_transform player)]> (o_transform o))
    (set_o_identity (<[e := Some (mkIdentity (p_id player) (username player))]> (o_identity o))
    (set_o_players (<[p_id player := Some e]> (o_players o))
    (set_o_kinds (<[e := Some KindPlayer]> (o_kinds o)) o))))))))) ;;
   puts (fun s' => upd_overlay (fun o => set_o_sessions
    (<[p_id player := Some (fresh_session e
      (client_view_new chunk (c_view_distance (w_config (world (base s))))) now_ms
      (s_interval_ms (sessions (base s'))))]> (o_sessions o)) o) s') ;;
   mret e)
  (chunk ← vlift (vec3_chunk_pos (position player));
   c ← asks id;
   puts (upd_entities (fun t =>
    set_e_mining (delete e (e_mining t))
    (set_e_hotbar (<[e := selected_hotbar_slot player]> (e_hotbar t))
    (set_e_inventory (<[e := inventory player]> (e_inventory t))
    (set_e_vitals (<[e := snapshot_vitals player]> (e_vitals t))
    (set_e_transform (<[e := snapshot_transform player]> (e_transform t))
    (set_e_identity (<[e := mkIdentity (p_id player) (username player)]> (e_identity t))
    (set_e_players (<[p_id player := e]> (e_players t))
    (set_e_kinds (<[e := KindPlayer]> (e_kinds t)) t))))))))) ;;
   puts (upd_sessions (fun t => set_s_sessions (<[p_id player := fresh_session e
      (client_view_new chunk (c_view_distance (w_config (world c)))) now_ms (s_interval_ms t)]>
      (s_sessions t)) t)) ;;
   mret e).
Proof.
  apply sim_bind; [apply sim_vlift|]. intros chunk s. unfold mbind, V_bind, asks, puts, mret, V_ret.
  cbn [mbind option_bind id fmap option_fmap option_map fst snd]. do 2 f_equal.
  rewrite !materialized_unfold. unfold upd_overlay, upd_entities, upd_sessions.
  cbn -[apply_optional_entries chunks_of client_view_new]. by rewrite !apply_optional_insert.
Qed.

Lemma sim_spawn player now_ms e : expected_ok e ->
  sim materialized (overlay_spawn_online_player player now_ms e)
    (base_spawn_online_player player now_ms e).
Proof.
  intros He s. destruct e as [e|].
  - unfold overlay_spawn_online_player, base_spawn_online_player.
    unfold mbind at 1 3, V_bind at 1 3. cbn [mret V_ret option_bind mbind].
    unfold mbind at 1 3, V_bind at 1 3. unfold puts at 1 3.
    cbn [option_bind mbind].
    rewrite mat_reserve by (cbn in He; unfold i32_saturating_inc; lia). apply sim_spawn_rest.
  - unfold overlay_spawn_online_player, base_spawn_online_player.
    unfold mbind at 1 3, V_bind at 1 3. rewrite sim_allocate_entity_id.
    unfold overlay_allocate_entity_id. cbn [fmap option_fmap option_map fst snd mbind option_bind].
    unfold mbind at 1 3, V_bind at 1 3. unfold puts at 1 3. cbn [option_bind mbind].
    rewrite mat_reserve by (cbn; lia). apply sim_spawn_rest.
Qed.

Lemma sim_remove p :
  sim materialized (overlay_remove_online_player p) (base_remove_online_player p).
Proof.
  intros s. unfold overlay_remove_online_player, base_remove_online_player.
  change (s_sessions (sessions (materialized s)) !! p) with (player_session p (materialized s)).
  rewrite mat_session. destruct (player_session p s) as [v|]; [|done].
  cbn [fmap option_fmap option_map fst snd]. do 2 f_equal.
  rewrite !materialized_unfold. unfold upd_overlay, upd_entities, upd_sessions.
  cbn -[apply_optional_entries chunks_of]. by rewrite !apply_optional_insert.
Qed.

(** A write of one entry. *)
Ltac sim_write :=
  apply sim_puts; intros ?; rewrite !materialized_unfold;
  unfold upd_overlay, upd_world, upd_entities, upd_sessions;
  cbn -[apply_optional_entries chunks_of]; by rewrite apply_optional_insert.

Lemma mat_block_state p s : block_state p (materialized s) = block_state p s.
Proof.
  cbn [block_state BaseRead OverlayRead]. unfold block_at.
  rewrite mat_chunks, lookup_chunks_of, mat_meta.
  by destruct (o_chunks (overlay s) !! block_chunk_pos p).
Qed.

Lemma mat_mining e s :
  player_active_mining_by_entity e (materialized s) = player_active_mining_by_entity e s.
Proof. rewrite materialized_unfold. apply lookup_apply_optional. Qed.
Lemma mat_dropped e s : dropped_item_by_entity e (materialized s) = dropped_item_by_entity e s.
Proof. rewrite materialized_unfold. apply lookup_apply_optional. Qed.

Lemma sim_remove_mining e :
  sim materialized (remove_player_active_mining e) (remove_player_active_mining e).
Proof.
  intros s. cbn [remove_player_active_mining BaseMut OverlayMut].
  change (e_mining (entities (materialized s)) !! e)
    with (player_active_mining_by_entity e (materialized s)).
  rewrite mat_mining. destruct (player_active_mining_by_entity e s) as [m|] eqn:E.
  - cbn [fmap option_fmap option_map fst snd]. do 2 f_equal. rewrite !materialized_unfold.
    unfold upd_overlay, upd_entities. cbn -[apply_optional_entries chunks_of].
    by rewrite apply_optional_insert.
  - cbn [fmap option_fmap option_map fst snd]. do 2 f_equal.
    assert (e_mining (entities (materialized s)) !! e = None) as Hn by (by rewrite <- E, <- mat_mining).
    unfold upd_entities, set_e_mining. rewrite delete_id by done. by destruct (materialized s) as [? [] ?].
Qed.

Lemma sim_take_dropped e : sim materialized (take_dropped_item e) (take_dropped_item e).
Proof.
  intros s. cbn [take_dropped_item BaseMut OverlayMut].
  change (e_dropped (entities (materialized s)) !! e) with (dropped_item_by_entity e (materialized s)).
  rewrite mat_dropped. destruct (dropped_item_by_entity e s) as [m|] eqn:E.
  - cbn [fmap option_fmap option_map fst snd]. do 2 f_equal. rewrite !materialized_unfold.
    unfold upd_overlay, upd_entities. cbn -[apply_optional_entries chunks_of].
    by rewrite apply_optional_insert.
  - cbn [fmap option_fmap option_map fst snd]. do 2 f_equal.
    assert (e_dropped (entities (materialized s)) !! e = None) as Hn by (by rewrite <- E, <- mat_dropped).
    unfold upd_entities, set_e_dropped. rewrite delete_id by done. by destruct (materialized s) as [? [] ?].
Qed.

(** A reference into a component of the entities. *)
Ltac sim_reference :=
  apply sim_overlay_ref;
  [intros ?; rewrite materialized_unfold; apply lookup_apply_optional
  |intros ? ?; rewrite !materialized_unfold;
   unfold upd_overlay, upd_entities, upd_sessions; cbn -[apply_optional_entries chunks_of];
   by rewrite apply_optional_insert].

#[export] Instance overlay_refines : StateRefines OverlayState ServerCore materialized.
Proof.
  split; try (intros; rewrite materialized_unfold; first [done|apply lookup_apply_optional]).
  - apply mat_block_state.
  - intros s. cbn [player_ids BaseRead OverlayRead]. rewrite overlay_ids_dom. by rewrite materialized_unfold.
  - intros s. cbn [dropped_item_ids BaseRead OverlayRead]. rewrite overlay_ids_dom.
    by rewrite materialized_unfold.
  - apply sim_ensure_chunk.
  - apply sim_set_block_state.
  - intros p b. sim_write.
  - intros A p f. sim_reference.
  - apply @sim_session_inventory_mut.
  - intros A e f. sim_reference.
  - intros A e f. sim_reference.
  - intros A e f. sim_reference.
  - intros A e f. sim_reference.
  - apply sim_remove_mining.
  - intros e m. sim_write.
  - apply sim_allocate_entity_id.
  - intros s. cbn [allocate_keep_alive_id BaseMut OverlayMut fmap option_fmap option_map fst snd].
    by rewrite !materialized_unfold.
  - intros e k. sim_write.
  - intros e d. sim_write.
  - apply sim_take_dropped.
  - intros p x. sim_write.
  - intros p v. sim_write.
  - apply sim_spawn.
  - apply sim_remove.
Qed.

End RefineOverlay.
