(* ===== verification/VoxelWindow.v ===== *)
(** * Windows, containers and dropped items
    ([crates/core/revy-voxel-core/src/core/inventory/lifecycle.rs], [.../sync.rs])

    The life of a container window: opening it over a block or on its own, keeping its
    viewers in step, writing it back, closing it and folding what it held into the
    player's inventory; and the life of a dropped item: falling, being picked up,
    disappearing.  Every handler is written against [CoreStateMut], so that it runs on the
    core and on a transaction's overlay. *)

From Stdlib Require Import Floats.SpecFloat.
From S2P Require Import Prelude VoxelModel VoxelItems VoxelState.

(** ** What the handlers report *)

Record CloseContainerDelta : Type := mkClose {
  cd_player_id : PlayerId; cd_window_id : Z; cd_contents : option InventoryWindowContents
}.
Record OpenContainerDelta : Type := mkOpen {
  od_closed : list CloseContainerDelta; od_player_id : PlayerId; od_window_id : Z;
  od_container : string; od_title : string; od_contents : InventoryWindowContents;
  od_properties : list (string * Z)
}.
Record WindowDiffDelta : Type := mkWindowDiff {
  wd_player_id : PlayerId; wd_window_id : Z; wd_container : string;
  before_contents : InventoryWindowContents; after_contents : InventoryWindowContents;
  before_properties : list (string * Z); after_properties : list (string * Z)
}.
Record WorldContainerSyncDelta : Type := mkSync { window_diffs : list WindowDiffDelta }.
Definition sync_default : WorldContainerSyncDelta := mkSync [].
Record EntityDespawnDelta : Type := mkDespawn { entity_ids : list EntityId }.
Record DroppedItemTickDelta : Type := mkTickDelta {
  inventory_delta : option WindowDiffDelta; despawn : option EntityDespawnDelta
}.

(** ** Pure parts *)

Section Pure.
Context {CB : ContentBehavior}.

Definition default_container_contents (kind : string) (local_slot_count : Z) :
    list (option ItemStack) * gmap string Z :=
  let fallback := (replicate (Z.to_nat local_slot_count) None, ∅) in
  match block_entity_kind_for_container kind with
  | None => fallback
  | Some k =>
      match default_block_entity_for_kind k with
      | Some e => (be_slots e, be_properties e)
      | None => fallback
      end
  end.

Definition build_virtual_container_state (kind : string) : option OpenContainerState :=
  spec ← container_spec kind;
  let '(slots, properties) := default_container_contents kind (local_slot_count spec) in
  Some (mkContainer kind Virtual slots properties).

(** The loop over the slots of the closed window; [None]: the index does not fit [u16], or
    the merge panics. *)
Fixpoint fold_slots (spec : option ContainerSpec) (index : Z) (slots : list (option ItemStack))
    (inv : PlayerInventory) : option PlayerInventory :=
  match slots with
  | [] => Some inv
  | None :: slots => fold_slots spec (index + 1) slots inv
  | Some stack :: slots =>
      skip ← match spec with
             | None => Some false
             | Some spec =>
                 if u16_max <? index then None
                 else Some (match slot_role spec index with OutputOnly => true | _ => false end &&
                   (index =? 0))
             end;
      if (skip : bool) then fold_slots spec (index + 1) slots inv
      else '(inv, _) ← merge_stack_into_player_inventory inv stack;
           fold_slots spec (index + 1) slots inv
  end.

Definition fold_active_container_items_into_player (inv : PlayerInventory)
    (window : OpenInventoryWindow) : option PlayerInventory :=
  match binding (container window) with
  | BoundBlock _ _ => Some inv
  | Virtual =>
      fold_slots (container_spec (oc_kind (container window))) 0 (local_slots (container window)) inv
  end.

Definition close_active_container_window (session : PlayerSessionState) (inv : PlayerInventory) :
    option (option OpenInventoryWindow * (PlayerSessionState * PlayerInventory)) :=
  match active_container session with
  | None => Some (None, (session, inv))
  | Some window =>
      inv ← fold_active_container_items_into_player inv window;
      Some (Some window, (set_active_container None session, inv))
  end.

(** The slots of a player's own window are emptied into [overflow]. *)
Fixpoint drain_local_slots (indices : list Z) (inv : PlayerInventory) :
    option (PlayerInventory * list ItemStack) :=
  match indices with
  | [] => Some (inv, [])
  | i :: indices =>
      let stack := get_slot inv (WindowLocal i) in
      '(_, inv) ← set_slot (WindowLocal i) None inv;
      '(inv, overflow) ← drain_local_slots indices inv;
      Some (inv, option_list stack ++ overflow)
  end.

Fixpoint merge_all (stacks : list ItemStack) (inv : PlayerInventory) : option PlayerInventory :=
  match stacks with
  | [] => Some inv
  | stack :: stacks =>
      '(inv, _) ← merge_stack_into_player_inventory inv stack; merge_all stacks inv
  end.

Definition persist_live_player_state (snapshot : PlayerSnapshot) (cursor : option ItemStack)
    (active : option OpenInventoryWindow) : option PlayerSnapshot :=
  inv ← match active with
        | Some window => fold_active_container_items_into_player (inventory snapshot) window
        | None => Some (inventory snapshot)
        end;
  inv ← match container_spec player_container_kind with
        | Some spec =>
            '(inv, overflow) ← drain_local_slots (range_Z 0 (local_slot_count spec)) inv;
            merge_all (overflow ++ option_list cursor) inv
        | None => Some inv
        end;
  inv ← normalize_player_inventory inv;
  Some (set_inventory inv snapshot).

(** *** Which window a player looks at ([sync.rs]) *)

Definition active_window_container (session : PlayerSessionState) (id : Z) : option string :=
  if id =? 0 then Some player_container_kind
  else
    window ← active_container session;
    if window_id window =? id then Some (oc_kind (container window)) else None.

Definition window_contents (session : PlayerSessionState) (inv : PlayerInventory) (kind : string) :
    InventoryWindowContents :=
  if bool_decide (kind = player_container_kind) then contents_player inv
  else
    match active_container session with
    | Some window =>
        if bool_decide (oc_kind (container window) = kind) then window_contents_of window inv
        else with_local_slots inv []
    | None => with_local_slots inv []
    end.

Definition resolve_inventory_target (t : InventoryClickTarget) : option InventorySlot :=
  match t with TargetSlot s => Some s | TargetOutside | TargetUnsupported => None end.

Definition visible_slots (kind : string) : list InventorySlot :=
  match container_spec kind with
  | Some spec => map WindowLocal (range_Z 0 (local_slot_count spec))
  | None => []
  end ++ map MainInventory (range_Z 0 27) ++ map Hotbar (range_Z 0 9) ++
  if bool_decide (kind = player_container_kind) then [Offhand] else [].
End Pure.

(** ** Windows *)

Section Windows.
Context {CB : ContentBehavior} {S : Type} `{CoreStateMut S}.

Definition allocate_non_player_window_id (p : PlayerId) : V S (option Z) :=
  player_session_mut p (fun session =>
    let id := Z.max (next_non_player_window_id session) 1 in
    Some (id, set_next_non_player_window_id (if id =? u8_max then 1 else id + 1) session)).

Definition writeback_world_container_state (window : OpenInventoryWindow) : V S unit :=
  match world_block_entity window with
  | None => mret tt
  | Some (position, entity) =>
      block ← asks (block_state position);
      match block with
      | None => mret tt
      | Some block =>
          if bool_decide (container_kind_for_block block = Some (oc_kind (container window)))
          then set_block_entity position (Some (BEContainer entity)) else mret tt
      end
  end.

Definition register_world_container_viewer_state (position : BlockPos) (p : PlayerId) (id : Z)
    (kind : string) : V S unit :=
  entry ← asks (container_viewers position);
  let entry := default (mkViewers kind ∅) entry in
  set_container_viewers position (Some (mkViewers (wv_kind entry) (<[p := id]> (viewers entry)))).

Definition unregister_world_container_viewer_at_state (position : BlockPos) (p : PlayerId) :
    V S unit :=
  entry ← asks (container_viewers position);
  match entry with
  | None => mret tt
  | Some entry =>
      let left := delete p (viewers entry) in
      if bool_decide (left = ∅) then set_container_viewers position None
      else set_container_viewers position (Some (mkViewers (wv_kind entry) left))
  end.

Definition unregister_world_container_viewer_state (window : OpenInventoryWindow) (p : PlayerId) :
    V S unit :=
  match window_world_position window with
  | Some position => unregister_world_container_viewer_at_state position p
  | None => mret tt
  end.

Definition close_player_active_container_state (p : PlayerId) (include_player_contents : bool) :
    V S (option CloseContainerDelta) :=
  closed ←? player_session_inventory_mut p close_active_container_window;
  window ←? mret closed;
  inv ← asks (player_inventory p);
  let contents := if include_player_contents
    then Some (contents_player (default new_empty inv)) else None in
  writeback_world_container_state window ;;
  unregister_world_container_viewer_state window p ;;
  mret (Some (mkClose p (window_id window) contents)).

Definition close_inventory_window_state (p : PlayerId) (id : Z) : V S (option CloseContainerDelta) :=
  if id =? 0 then mret None
  else
    window ←? asks (fun s => session ← player_session p s; active_container session);
    if window_id window =? id then close_player_active_container_state p true else mret None.

Definition open_non_player_window_state (p : PlayerId) (window : OpenInventoryWindow)
    (title : string) : V S (option OpenContainerDelta) :=
  _ ←? asks (player_session p);
  c ← vlift (normalize_container (container window));
  let window := set_container c window in
  closed ← close_player_active_container_state p false;
  e ←? asks (player_entity_id p);
  inv ←? asks (player_inventory_by_entity e);
  _ ←? player_session_mut p (fun session => Some (tt, set_active_container (Some window) session));
  match window_world_position window with
  | Some position =>
      register_world_container_viewer_state position p (window_id window) (oc_kind (container window))
  | None => mret tt
  end ;;
  mret (Some (mkOpen (option_list closed) p (window_id window) (oc_kind (container window)) title
    (window_contents_of window inv) (window_properties window))).

Definition build_world_container_state (position : BlockPos) (kind : string) :
    V S (option OpenContainerState) :=
  match container_spec kind with
  | None => mret None
  | Some spec =>
      match block_entity_kind_for_container kind with
      | None =>
          mret (Some (mkContainer kind Virtual
            (replicate (Z.to_nat (local_slot_count spec)) None) ∅))
      | Some entity_kind =>
          existing ← asks (block_entity position);
          let existing :=
            c ← (e ← existing; container_state e);
            if bool_decide (be_kind c = entity_kind) then Some c else None in
          let entity := match existing with
            | Some c => Some c
            | None => default_block_entity_for_kind entity_kind
            end in
          match entity with
          | None => mret None
          | Some c =>
              set_block_entity position (Some (BEContainer c)) ;;
              mret (Some (mkContainer kind (BoundBlock position entity_kind) (be_slots c)
                (be_properties c)))
          end
      end
  end.

Definition open_virtual_container_state (p : PlayerId) (kind : string) :
    V S (option OpenContainerDelta) :=
  id ←? allocate_non_player_window_id p;
  c ←? mret (build_virtual_container_state kind);
  c ← vlift (normalize_container c);
  open_non_player_window_state p (mkWindow id c) (container_title (oc_kind c)).

Definition open_world_container_state (p : PlayerId) (position : BlockPos) :
    V S (option OpenContainerDelta) :=
  block ←? asks (block_state position);
  kind ←? mret (container_kind_for_block block);
  id ←? allocate_non_player_window_id p;
  c ←? build_world_container_state position kind;
  c ← vlift (normalize_container c);
  open_non_player_window_state p (mkWindow id c) (container_title (oc_kind c)).

Definition persisted_online_player_snapshot_state (p : PlayerId) : V S (option PlayerSnapshot) :=
  snapshot ←? asks (compose_player_snapshot p);
  session ←? asks (player_session p);
  persisted ← vlift (persist_live_player_state snapshot (cursor session) (active_container session));
  mret (Some persisted).

(** *** Keeping the viewers of a block in step *)

Inductive ViewerSync : Type := SyncActor | SyncStale | SyncDone (d : WindowDiffDelta).

Definition shows (position : BlockPos) (kind : string) (w : OpenInventoryWindow) : bool :=
  bool_decide (window_world_position w = Some position) &&
  bool_decide (oc_kind (container w) = kind).

Definition sync_viewer (position : BlockPos) (actor : PlayerId) (source : OpenContainerState)
    (viewer : PlayerId) : V S ViewerSync :=
  if viewer =? actor then mret SyncActor
  else
    inv ← asks (player_inventory viewer);
    session ← asks (player_session viewer);
    match inv, session with
    | Some inv, Some session =>
        match active_container session with
        | Some before =>
            if negb (shows position (oc_kind source) before) then mret SyncStale
            else
              r ← player_session_mut viewer (fun session =>
                match active_container session with
                | None => Some (None, session)
                | Some w =>
                    if negb (shows position (oc_kind source) w) then Some (None, session)
                    else
                      let w := set_container (set_oc_properties (oc_properties source)
                        (set_local_slots (local_slots source) (container w))) w in
                      Some (Some w, set_active_container (Some w) session)
                end);
              match r with
              | Some (Some w) =>
                  mret (SyncDone (mkWindowDiff viewer (window_id w) (oc_kind source)
                    (window_contents_of before inv) (window_contents_of w inv)
                    (window_properties before) (window_properties w)))
              | _ => mret SyncStale
              end
        | None => mret SyncStale
        end
    | _, _ => mret SyncStale
    end.

Definition sync_world_container_viewers_state (position : BlockPos) (actor : PlayerId) :
    V S WorldContainerSyncDelta :=
  source ← asks (fun s => session ← player_session actor s; active_container session);
  match source with
  | None => mret sync_default
  | Some window =>
      if negb (bool_decide (window_world_position window = Some position)) then mret sync_default
      else
        writeback_world_container_state window ;;
        entry ← asks (container_viewers position);
        match entry with
        | None => mret sync_default
        | Some entry =>
            let ids := sorted_ids (dom (viewers entry)) in
            results ← vmap (sync_viewer position actor (container window)) ids;
            let results := zip ids results in
            let stale := omap (fun r => match r.2 with SyncStale => Some r.1 | _ => None end) results in
            vfor_each (unregister_world_container_viewer_at_state position) stale ;;
            mret (mkSync (omap (fun r => match r.2 with SyncDone d => Some d | _ => None end) results))
        end
  end.

Definition tick_active_container_state (p : PlayerId) : V S (option WindowDiffDelta) :=
  session ←? asks (player_session p);
  before ←? mret (active_container session);
  inv ←? asks (player_inventory p);
  ticked ←? player_session_inventory_mut p (fun session inv =>
    match active_container session with
    | None => Some (None, (session, inv))
    | Some w =>
        c ← tick_container (container w);
        let w := set_container c w in
        Some (Some (window_contents_of w inv, window_properties w),
          (set_active_container (Some w) session, inv))
    end);
  '(contents, properties) ←? mret ticked;
  window ← asks (fun s => session ← player_session p s; active_container session);
  match window with
  | Some w =>
      if bool_decide (is_Some (window_world_position w)) then writeback_world_container_state w
      else mret tt
  | None => mret tt
  end ;;
  if bool_decide (window_contents_of before inv = contents) &&
     bool_decide (window_properties before = properties) then mret None
  else
    match window_world_position before with
    | Some position => sync_world_container_viewers_state position p ;; mret tt
    | None => mret tt
    end ;;
    mret (Some (mkWindowDiff p (window_id before) (oc_kind (container before))
      (window_contents_of before inv) contents (window_properties before) properties)).

Definition close_world_container_viewers_state (position : BlockPos) :
    V S (list CloseContainerDelta) :=
  entry ← asks (container_viewers position);
  let ids := match entry with Some e => sorted_ids (dom (viewers e)) | None => [] end in
  closed ← vmap (fun viewer => close_player_active_container_state viewer true) ids;
  set_container_viewers position None ;;
  mret (omap id closed).

Definition close_world_container_if_invalid_state (position : BlockPos) (block : option BlockState) :
    V S (list CloseContainerDelta) :=
  let current_kind := b ← block; container_kind_for_block b in
  let expected := k ← current_kind; block_entity_kind_for_container k in
  entity ← asks (block_entity position);
  match (e ← entity; container_state e) with
  | Some c =>
      if negb (bool_decide (Some (be_kind c) = expected)) then set_block_entity position None
      else mret tt
  | None => mret tt
  end ;;
  entry ← asks (container_viewers position);
  match entry with
  | None => mret []
  | Some entry =>
      if bool_decide (current_kind = Some (wv_kind entry)) then mret []
      else close_world_container_viewers_state position
  end.
End Windows.

(** ** Dropped items *)

(** [1.5 * 1.5], [0.04], [0.98], [0.25]. *)
Definition DROPPED_ITEM_PICKUP_RADIUS_SQUARED : spec_float := f64 9 (-2).
Definition DROPPED_ITEM_PHYSICS_STEP_MS : Z := 50.
Definition DROPPED_ITEM_GRAVITY_PER_STEP : spec_float := f64 0x147ae147ae147b (-57).
Definition DROPPED_ITEM_DRAG : spec_float := f64 0x1f5c28f5c28f5c (-53).
Definition DROPPED_ITEM_REST_HEIGHT : spec_float := f64 1 (-2).

(** [v.floor() as i32]: saturating, NaN is 0. *)
Definition floor_as_i32 (v : spec_float) : Z :=
  match v with
  | S754_nan => 0
  | S754_infinity s => if s then - 2 ^ 31 else i32_max
  | _ => Z.max (- 2 ^ 31) (Z.min i32_max (default 0 (floor_Z v)))
  end.

Definition distance_squared (l r : Vec3) : spec_float :=
  let dx := f64_sub (vx l) (vx r) in
  let dy := f64_sub (vy l) (vy r) in
  let dz := f64_sub (vz l) (vz r) in
  f64_add (f64_add (f64_mul dx dx) (f64_mul dy dy)) (f64_mul dz dz).

Section Dropped.
Context {CB : ContentBehavior} {S : Type} `{CoreStateMut S}.

(** The loop from [block_y] down to 0. *)
Fixpoint rest_y_below (n : nat) (block_x block_z : Z) (s : S) : option spec_float :=
  let block_y := Z.of_nat n in
  let solid :=
    match block_state (mkBlockPos block_x block_y block_z) s with
    | None => false
    | Some block => negb (is_air_block block)
    end in
  if solid then Some (f64_add (f64_add (f64_of_Z block_y) (f64_of_Z 1)) DROPPED_ITEM_REST_HEIGHT)
  else match n with O => None | Datatypes.S n => rest_y_below n block_x block_z s end.

Definition dropped_item_rest_y (x y z : spec_float) (s : S) : option spec_float :=
  rest_y_below (Z.to_nat (Z.max 0 (Z.min 255 (floor_as_i32 y)))) (floor_as_i32 x) (floor_as_i32 z) s.

Definition with_y (y : spec_float) (v : Vec3) : Vec3 := mkVec3 (vx v) y (vz v).

Definition advance_dropped_item_step (s : S) (item : DroppedItemSnapshot) : DroppedItemSnapshot :=
  let p := di_position item in
  let v := di_velocity item in
  let next_velocity_y := f64_mul (f64_sub (vy v) DROPPED_ITEM_GRAVITY_PER_STEP) DROPPED_ITEM_DRAG in
  let next_y := f64_add (vy p) next_velocity_y in
  let falls := mkDropped (di_item item) (with_y next_y p) (with_y next_velocity_y v) in
  match dropped_item_rest_y (vx p) next_y (vz p) s with
  | Some rest_y =>
      if f64_le next_y rest_y
      then mkDropped (di_item item) (with_y rest_y p) (with_y (f64_of_Z 0) v) else falls
  | None => falls
  end.

Definition advance_dropped_item_entity (now_ms : Z) (s : S) (item : DroppedItemState) :
    DroppedItemState :=
  let elapsed_ms := saturating_sub now_ms (last_updated_at_ms item) in
  let step_count := elapsed_ms / DROPPED_ITEM_PHYSICS_STEP_MS in
  if step_count =? 0 then item
  else
    set_last_updated_at_ms (saturating_add u64_max (last_updated_at_ms item)
      (saturating_mul u64_max step_count DROPPED_ITEM_PHYSICS_STEP_MS))
    (set_d_snapshot
      (Nat.iter (Z.to_nat step_count) (advance_dropped_item_step s) (d_snapshot item)) item).

Definition closer (p : PlayerId) (position : Vec3) (s : S) (best : option (PlayerId * spec_float)) :
    option (PlayerId * spec_float) :=
  match player_transform p s with
  | None => best
  | Some t =>
      let d := distance_squared (t_position t) position in
      if f64_lt DROPPED_ITEM_PICKUP_RADIUS_SQUARED d then best
      else match best with
           | Some (_, b) => if f64_le b d then best else Some (p, d)
           | None => Some (p, d)
           end
  end.
Definition nearest_pickup_player_in (position : Vec3) (s : S) : option PlayerId :=
  fst <$> foldl (fun best p => closer p position s best) None (player_ids s).

(** What the player sees: the open window, or its own. *)
Definition seen_contents (session : PlayerSessionState) (inv : PlayerInventory) :
    InventoryWindowContents :=
  match active_container session with
  | Some w => window_contents_of w inv
  | None => contents_player inv
  end.

Definition merge_stack_into_online_player_inventory_state (p : PlayerId) (stack : ItemStack) :
    V S (option WindowDiffDelta * option ItemStack) :=
  session ← asks (player_session p);
  inv ← asks (player_inventory p);
  e ← asks (player_entity_id p);
  match session, inv, e with
  | Some before_session, Some before_inv, Some e =>
      merged ← player_inventory_mut e (fun inv =>
        '(inv, leftover) ← merge_stack_into_player_inventory inv stack; Some (leftover, inv));
      match merged with
      | None => mret (None, Some stack)
      | Some leftover =>
          session ← asks (player_session p);
          inv ← asks (player_inventory p);
          match session, inv with
          | Some after_session, Some after_inv =>
              let '(id, kind) := match active_container before_session with
                | Some w => (window_id w, oc_kind (container w))
                | None => (0, player_container_kind)
                end in
              mret (Some (mkWindowDiff p id kind (seen_contents before_session before_inv)
                (seen_contents after_session after_inv) [] []), leftover)
          | _, _ => mret (None, leftover)
          end
      end
  | _, _, _ => mret (None, Some stack)
  end.

Definition with_item (stack : ItemStack) (item : DroppedItemState) : DroppedItemState :=
  set_d_snapshot (mkDropped stack (di_position (d_snapshot item)) (di_velocity (d_snapshot item))) item.

Definition tick_dropped_item_state (e : EntityId) (now_ms : Z) : V S DroppedItemTickDelta :=
  taken ← take_dropped_item e;
  match taken with
  | None => mret (mkTickDelta None None)
  | Some item =>
      item ← asks (fun s => advance_dropped_item_entity now_ms s item);
      if despawn_at_ms item <=? now_ms then
        set_entity_kind e None ;; mret (mkTickDelta None (Some (mkDespawn [e])))
      else if now_ms <? pickup_allowed_at_ms item then
        set_dropped_item e (Some item) ;; mret (mkTickDelta None None)
      else
        player ← asks (nearest_pickup_player_in (di_position (d_snapshot item)));
        match player with
        | None => set_dropped_item e (Some item) ;; mret (mkTickDelta None None)
        | Some p =>
            '(delta, leftover) ← merge_stack_into_online_player_inventory_state p (di_item (d_snapshot item));
            match leftover with
            | Some stack =>
                set_dropped_item e (Some (with_item stack item)) ;; mret (mkTickDelta delta None)
            | None =>
                set_entity_kind e None ;; mret (mkTickDelta delta (Some (mkDespawn [e])))
            end
        end
  end.
End Dropped.
