(* ===== verification/VoxelClick.v ===== *)
(** * Clicks in a window
    ([crates/core/revy-voxel-core/src/core/inventory/click.rs])

    What a left or right click does to the cursor and a slot, which slot of which window a
    click reaches, and the handler [apply_inventory_click_state] that checks the window,
    applies the click, compares it with what the client saw and brings the other viewers
    of a container in step.  [None] is a panic: an [expect] on a stack count that does not
    fit [u8], or a slot of an inventory shorter than it should be. *)

From S2P Require Import Prelude VoxelModel VoxelItems VoxelState VoxelWindow.

(** ** A cursor and a slot *)

Definition apply_outside_click (cursor : option ItemStack) (button : InventoryClickButton) :
    bool * option ItemStack :=
  match button with
  | LeftButton => (true, None)
  | RightButton => (true, decrement_cursor cursor)
  end.

(** [u8::try_from(v)], which panics on failure. *)
Definition expect_u8 (v : Z) : option Z := if v <=? u8_max then Some v else None.

(** The new cursor and the new slot. *)
Definition apply_left_click_slot_value (cursor slot_stack : option ItemStack) :
    option (bool * option ItemStack * option ItemStack) :=
  match cursor, slot_stack with
  | None, None => Some (true, None, None)
  | None, Some _ => Some (true, slot_stack, None)
  | Some _, None => Some (true, None, cursor)
  | Some c, Some e =>
      if stack_keys_match c e then
        let total := count c + count e in
        let placed := Z.min total MAX_STACK_SIZE in
        let remainder := saturating_sub total placed in
        placed ← expect_u8 placed;
        if remainder =? 0 then Some (true, None, Some (with_count placed e))
        else
          remainder ← expect_u8 remainder;
          Some (true, Some (with_count remainder c), Some (with_count placed e))
      else Some (true, slot_stack, cursor)
  end.

Definition apply_right_click_slot_value (cursor slot_stack : option ItemStack) :
    bool * option ItemStack * option ItemStack :=
  match cursor, slot_stack with
  | None, None => (true, None, None)
  | None, Some e =>
      let cursor_count := saturating_add u8_max (count e) 1 / 2 in
      let slot_count := count e / 2 in
      (true, Some (with_count cursor_count e),
       if slot_count =? 0 then None else Some (with_count slot_count e))
  | Some c, None => (true, decrement_cursor cursor, Some (with_count 1 c))
  | Some c, Some e =>
      if stack_keys_match c e && (count e <? MAX_STACK_SIZE)
      then (true, decrement_cursor cursor, Some (with_count (saturating_add u8_max (count e) 1) e))
      else (false, cursor, slot_stack)
  end.

Definition click_slot_value (button : InventoryClickButton) (cursor slot_stack : option ItemStack) :
    option (bool * option ItemStack * option ItemStack) :=
  match button with
  | LeftButton => apply_left_click_slot_value cursor slot_stack
  | RightButton => Some (apply_right_click_slot_value cursor slot_stack)
  end.

(** ** A slot of a window *)

Section Click.
Context {CB : ContentBehavior}.

Definition collect_player_local_slots (inv : PlayerInventory) (n : Z) : list (option ItemStack) :=
  map (fun i => get_slot inv (WindowLocal i)) (range_Z 0 n).

(** [None]: the index of a slot does not fit [u16], or the inventory is too short. *)
Fixpoint store_slots_from (index : Z) (local : list (option ItemStack)) (inv : PlayerInventory) :
    option PlayerInventory :=
  match local with
  | [] => Some inv
  | stack :: local =>
      if u16_max <? index then None
      else '(_, inv) ← set_slot (WindowLocal index) stack inv; store_slots_from (index + 1) local inv
  end.
Definition store_player_local_slots (inv : PlayerInventory) (local : list (option ItemStack)) :
    option PlayerInventory := store_slots_from 0 local inv.

(** [get_slot_mut(slot)] and the click on the reference; no reference is a click that is
    not applied. *)
Definition click_inventory_slot (button : InventoryClickButton) (slot : InventorySlot)
    (inv : PlayerInventory) (cursor : option ItemStack) :
    option (bool * PlayerInventory * option ItemStack) :=
  match with_slot_mut slot (fun stack => (stack, stack)) inv with
  | None => Some (false, inv, cursor)
  | Some (stack, _) =>
      '(applied, cursor, stack) ← click_slot_value button cursor stack;
      '(_, inv) ← with_slot_mut slot (fun _ => (tt, stack)) inv;
      Some (applied, inv, cursor)
  end.

Definition apply_player_window_click (inv : PlayerInventory) (cursor : option ItemStack)
    (slot : option InventorySlot) (button : InventoryClickButton) :
    option (bool * PlayerInventory * option ItemStack) :=
  match slot, container_spec player_container_kind with
  | None, _ | _, None => Some (false, inv, cursor)
  | Some slot, Some spec =>
      match slot with
      | WindowLocal index =>
          if index <? local_slot_count spec then
            match slot_role spec index with
            | Unavailable => Some (false, inv, cursor)
            | OutputOnly =>
                '(applied, local, cursor) ← try_take_output player_container_kind
                  (collect_player_local_slots inv (local_slot_count spec)) cursor button;
                if (applied : bool)
                then inv ← store_player_local_slots inv local;
                     inv ← normalize_player_inventory inv;
                     Some (true, inv, cursor)
                else Some (false, inv, cursor)
            | Generic =>
                '(applied, inv, cursor) ← click_inventory_slot button slot inv cursor;
                inv ← (if (applied : bool) then normalize_player_inventory inv else Some inv);
                Some (applied, inv, cursor)
            end
          else Some (false, inv, cursor)
      | MainInventory _ | Hotbar _ | Offhand => click_inventory_slot button slot inv cursor
      end
  end.

(** The new session carries the new cursor and the new window. *)
Definition apply_active_container_click (session : PlayerSessionState) (inv : PlayerInventory)
    (id : Z) (slot : option InventorySlot) (target : InventoryClickTarget)
    (button : InventoryClickButton) : option (bool * (PlayerSessionState * PlayerInventory)) :=
  let refused := Some (false, (session, inv)) in
  match target with
  | TargetOutside =>
      let '(applied, c) := apply_outside_click (cursor session) button in
      Some (applied, (set_cursor c session, inv))
  | _ =>
      match slot, active_container session with
      | None, _ | _, None => refused
      | Some slot, Some window =>
          if negb (window_id window =? id) then refused
          else
            let state := container window in
            let kind := oc_kind state in
            match container_spec kind with
            | None => refused
            | Some spec =>
                match slot with
                | WindowLocal index =>
                    if index <? local_slot_count spec then
                      match slot_role spec index with
                      | Unavailable => refused
                      | OutputOnly =>
                          '(applied, local, c) ←
                            try_take_output kind (local_slots state) (cursor session) button;
                          let state := set_local_slots local state in
                          state ← (if (applied : bool) then normalize_container state else Some state);
                          Some (applied, (set_cursor c
                            (set_active_container (Some (set_container state window)) session), inv))
                      | Generic =>
                          match local_slots state !! Z.to_nat index with
                          | None => refused
                          | Some stack =>
                              '(applied, c, stack) ← click_slot_value button (cursor session) stack;
                              let state := set_local_slots
                                (<[Z.to_nat index := stack]> (local_slots state)) state in
                              state ←
                                (if (applied : bool) then normalize_container state else Some state);
                              Some (applied, (set_cursor c
                                (set_active_container (Some (set_container state window)) session), inv))
                          end
                      end
                    else refused
                | MainInventory _ | Hotbar _ | Offhand =>
                    '(applied, inv, c) ← click_inventory_slot button slot inv (cursor session);
                    Some (applied, (set_cursor c session, inv))
                end
            end
      end
  end.

(** ** The handler *)

Record InventoryClickDelta : Type := mkClick {
  ic_player_id : PlayerId; ic_transaction : InventoryTransactionContext; accepted : bool;
  should_resync_on_reject : bool; ic_container : string; ic_window_id : Z;
  resolved_slot : option InventorySlot;
  ic_before_contents : InventoryWindowContents; ic_after_contents : InventoryWindowContents;
  ic_before_properties : list (string * Z); ic_after_properties : list (string * Z);
  before_cursor : option ItemStack; after_cursor : option ItemStack;
  selected_hotbar_before : Z; selected_hotbar_after : Z; world_sync : WorldContainerSyncDelta
}.

(** The active window, when the click names it. *)
Definition clicked_window (session : PlayerSessionState) (id : Z) : option OpenInventoryWindow :=
  w ← active_container session; if window_id w =? id then Some w else None.
Definition clicked_properties (session : PlayerSessionState) (id : Z) : list (string * Z) :=
  match clicked_window session id with Some w => window_properties w | None => [] end.

(** The use of the two references, and what the window shows afterwards. *)
Definition click_session_inventory (id : Z) (kind : string) (target : InventoryClickTarget)
    (button : InventoryClickButton) (session : PlayerSessionState) (inv : PlayerInventory) :
    option ((bool * InventoryWindowContents * list (string * Z) * option ItemStack) *
      (PlayerSessionState * PlayerInventory)) :=
  let slot := resolve_inventory_target target in
  '(applied, (session, inv)) ←
    (if id =? 0 then
       match target with
       | TargetOutside =>
           let '(applied, c) := apply_outside_click (cursor session) button in
           Some (applied, (set_cursor c session, inv))
       | _ =>
           '(applied, inv, c) ← apply_player_window_click inv (cursor session) slot button;
           Some (applied, (set_cursor c session, inv))
       end
     else apply_active_container_click session inv id slot target button);
  Some ((applied, window_contents session inv kind, clicked_properties session id, cursor session),
        (session, inv)).

Definition click_accepted (validation : InventoryClickValidation) (applied : bool)
    (slot : option InventorySlot) (after : InventoryWindowContents) : bool :=
  match validation with
  | Authoritative => applied
  | StrictSlotEcho clicked_item =>
      applied && bool_decide (is_Some slot) &&
      bool_decide (clicked_item = (s ← slot; contents_get_slot after s))
  end.

Definition apply_inventory_click_state {S : Type} `{CoreStateMut S} (p : PlayerId)
    (transaction : InventoryTransactionContext) (target : InventoryClickTarget)
    (button : InventoryClickButton) (validation : InventoryClickValidation) :
    V S (option InventoryClickDelta) :=
  let id := tr_window_id transaction in
  before_session ←? asks (player_session p);
  before_snapshot ←? asks (compose_player_snapshot p);
  before_inventory ←? asks (player_inventory p);
  match active_window_container before_session id with
  | None =>
      let contents := contents_player before_inventory in
      mret (Some (mkClick p transaction false false player_container_kind id None contents contents
        [] [] (cursor before_session) (cursor before_session)
        (selected_hotbar_slot before_snapshot) (selected_hotbar_slot before_snapshot) sync_default))
  | Some kind =>
      let slot := resolve_inventory_target target in
      '(applied, after, properties, after_cursor) ←?
        player_session_inventory_mut p (click_session_inventory id kind target button);
      let accepted := click_accepted validation applied slot after in
      selected ← asks (player_selected_hotbar p);
      let position := w ← clicked_window before_session id; window_world_position w in
      sync ← match accepted, position with
             | true, Some position => sync_world_container_viewers_state position p
             | _, _ => mret sync_default
             end;
      mret (Some (mkClick p transaction accepted true kind id slot
        (window_contents before_session before_inventory kind) after
        (clicked_properties before_session id) properties
        (cursor before_session) after_cursor
        (selected_hotbar_slot before_snapshot) (default 0 selected) sync))
  end.
End Click.

(** ** Clicks conserve items *)

(** A stack as the game makes them. *)
Definition stack_ok (o : option ItemStack) : Prop :=
  match o with Some s => 1 <= count s <= MAX_STACK_SIZE | None => True end.

Lemma decrement_amount k s :
  1 <= count s -> amount k (decrement_cursor (Some s)) =
    amount k (Some s) - (if decide (kind_of s = k) then 1 else 0).
Proof.
  intros Hs. unfold decrement_cursor. replace (saturating_sub (count s) 1) with (count s - 1)
    by (unfold saturating_sub; lia).
  case_test; cbn [amount]; [case_decide; lia|]. rewrite kind_with_count. case_decide; cbn; lia.
Qed.

Lemma decrement_ok s : stack_ok (Some s) -> stack_ok (decrement_cursor (Some s)).
Proof.
  cbn [stack_ok]. intros Hs. unfold decrement_cursor. case_test; [done|]. cbn.
  unfold saturating_sub in *. lia.
Qed.

(** What a left click does to any cursor and any slot whose counts are [u8] values:
    it panics exactly when the two stacks merge and more than a [u8] would be left on the
    cursor; otherwise it applies, and for every kind of item the cursor and the slot hold
    together what they held before. *)
Theorem left_click_conserves cursor slot :
  (forall s, cursor = Some s -> 0 <= count s <= u8_max) ->
  (forall s, slot = Some s -> 0 <= count s <= u8_max) ->
  match apply_left_click_slot_value cursor slot with
  | None => exists c e, cursor = Some c /\ slot = Some e /\ stack_keys_match c e = true /\
      MAX_STACK_SIZE + u8_max < count c + count e
  | Some (applied, cursor', slot') =>
      applied = true /\
      (forall k, amount k cursor' + amount k slot' = amount k cursor + amount k slot) /\
      (forall c e, cursor = Some c -> slot = Some e -> stack_keys_match c e = true ->
         slot' = Some (with_count (Z.min (count c + count e) MAX_STACK_SIZE) e))
  end.
Proof.
  intros Hc Hs. destruct cursor as [c|], slot as [e|]; cbn [apply_left_click_slot_value];
    try (split_and!; [done|intros k; cbn [amount]; lia|by intros]).
  specialize (Hc c eq_refl). specialize (Hs e eq_refl).
  destruct (stack_keys_match c e) eqn:Hm; cycle 1.
  { split_and!; [done|intros k; lia|]. intros ? ? [= <-] [= <-]. congruence. }
  assert (kind_of c = kind_of e) as Hk by (by apply stack_keys_match_kind).
  unfold expect_u8, saturating_sub. unfold u8_max, MAX_STACK_SIZE in *.
  rewrite (proj2 (Z.leb_le (Z.min _ _) _)) by lia. cbn [mbind option_bind].
  set (r := Z.max 0 _). destruct (Z.eqb_spec r 0); [|destruct (Z.leb_spec r 255)];
    cbn [mbind option_bind].
  - split_and!; [done| |].
    + intros k. rewrite amount_with_count. cbn [amount]. rewrite Hk. case_decide; lia.
    + by intros ? ? [= <-] [= <-] _.
  - split_and!; [done| |].
    + intros k. rewrite !amount_with_count. cbn [amount]. rewrite Hk. case_decide; lia.
    + by intros ? ? [= <-] [= <-] _.
  - exists c, e. split_and!; try done. lia.
Qed.

Lemma left_click_conserves_witness :
  apply_left_click_slot_value (Some (sample_item 10)) (Some (sample_item 60)) =
    Some (true, Some (sample_item 6), Some (sample_item 64)) /\
  apply_left_click_slot_value (Some (sample_item 255)) (Some (sample_item 65)) = None /\
  (forall k, amount k (Some (sample_item 6)) + amount k (Some (sample_item 64)) =
     amount k (Some (sample_item 10)) + amount k (Some (sample_item 60))).
Proof.
  split; [vm_compute; reflexivity|]. split; [vm_compute; reflexivity|].
  refine (proj1 (proj2 (left_click_conserves (Some (sample_item 10)) (Some (sample_item 60)) _ _)));
    intros s [= <-]; vm_compute; split; discriminate.
Defined.

(** What a right click does: it takes the larger half of a slot, or puts one item
    down, or refuses and changes nothing.  It never panics, and for stacks of at least
    one item and fewer than 255 the cursor and the slot hold together what they held
    before.  (Of 255 items 127 are taken and 127 stay: the saturating addition loses
    one.) *)
Theorem right_click_conserves cursor slot :
  (forall s, cursor = Some s -> 1 <= count s <= u8_max) ->
  (forall s, slot = Some s -> 1 <= count s < u8_max) ->
  let '(applied, cursor', slot') := apply_right_click_slot_value cursor slot in
  (forall k, amount k cursor' + amount k slot' = amount k cursor + amount k slot) /\
  (applied = false <-> exists c e, cursor = Some c /\ slot = Some e /\
     (stack_keys_match c e = false \/ MAX_STACK_SIZE <= count e)) /\
  (applied = false -> cursor' = cursor /\ slot' = slot) /\
  (forall e, cursor = None -> slot = Some e ->
     cursor' = Some (with_count ((count e + 1) / 2) e)).
Proof.
  intros Hc Hs. destruct cursor as [c|], slot as [e|]; cbn [apply_right_click_slot_value].
  - specialize (Hc c eq_refl). specialize (Hs e eq_refl).
    destruct (stack_keys_match c e) eqn:Hm; cbn [andb].
    + assert (kind_of c = kind_of e) as Hk by (by apply stack_keys_match_kind).
      destruct (Z.ltb_spec (count e) MAX_STACK_SIZE).
      * split_and!; try done.
        -- intros k. rewrite decrement_amount, amount_with_count by lia. cbn [amount].
           unfold saturating_add, u8_max in *. rewrite Hk. case_decide; lia.
        -- split; [done|]. intros (? & ? & [= <-] & [= <-] & [Hf|Hf]); [congruence|lia].
      * split_and!; try done. split; [|done]. intros _. exists c, e. by split_and!; try right.
    + split_and!; try done. split; [|done]. intros _. exists c, e. by split_and!; try left.
  - specialize (Hc c eq_refl). split_and!; try done.
    + intros k. rewrite decrement_amount, amount_with_count by lia. cbn [amount]. lia.
    + split; [done|]. by intros (? & ? & _ & [=] & _).
  - specialize (Hs e eq_refl).
    assert (saturating_add u8_max (count e) 1 = count e + 1) as ->.
    { unfold saturating_add, u8_max in *. lia. }
    assert ((count e + 1) / 2 + count e / 2 = count e) as Hh.
    { pose proof (Z.div_mod (count e) 2). pose proof (Z.mod_pos_bound (count e) 2).
      pose proof (Z.div_mod (count e + 1) 2). pose proof (Z.mod_pos_bound (count e + 1) 2). lia. }
    split_and!; try done.
    + intros k. case_test; rewrite ?amount_with_count; cbn [amount]; case_decide; lia.
    + split; [done|]. by intros (? & ? & [=] & _).
    + by intros ? _ [= <-].
  - split_and!; try done. split; [done|]. by intros (? & ? & [=] & _).
Qed.

Lemma right_click_conserves_witness :
  apply_right_click_slot_value None (Some (sample_item 7)) =
    (true, Some (sample_item 4), Some (sample_item 3)) /\
  apply_right_click_slot_value None (Some (sample_item 255)) =
    (true, Some (sample_item 127), Some (sample_item 127)) /\
  (forall k, amount k (Some (sample_item 4)) + amount k (Some (sample_item 3)) =
     0 + amount k (Some (sample_item 7))).
Proof.
  split; [vm_compute; reflexivity|]. split; [vm_compute; reflexivity|].
  refine (proj1 (right_click_conserves None (Some (sample_item 7)) _ _));
    [intros s [=]|intros s [= <-]; vm_compute; split; [discriminate|reflexivity]].
Defined.
