(* ===== verification/VoxelWorld.v ===== *)
(** * Blocks, mining, movement, logins and keep-alives
    ([crates/core/revy-voxel-core/src/core/mutation.rs], [.../mining.rs], [.../tick.rs],
    [.../login.rs], [initial_visible_chunks] of [.../state_backend.rs])

    The handlers that change a block, start, advance and complete the mining of one, move
    a player and say who sees it move, let a player in and out, and keep the connection
    alive.  As everywhere a handler is written against [CoreStateMut]; [None] of [V] is a
    panic, which here is the [expect] on a coordinate that [i32] cannot hold. *)

From Stdlib Require Import Floats.SpecFloat.
From S2P Require Import Prelude VoxelModel VoxelItems VoxelState VoxelWindow.

(** ** What the handlers report *)

Record MiningProgressDelta : Type := mkProgress {
  breaker_entity_id : EntityId; mp_position : BlockPos; mp_stage : option Z; mp_duration_ms : Z
}.
Record ClearMiningDelta : Type := mkClear { cm_progress : MiningProgressDelta }.
Record BeginMiningDelta : Type := mkBegin {
  bm_cleared : option ClearMiningDelta; bm_progress : MiningProgressDelta
}.
Record BlockDelta : Type := mkBlockDelta {
  bd_position : BlockPos; cleared_mining : list ClearMiningDelta;
  closed_containers : list CloseContainerDelta
}.
Record DroppedItemSpawnDelta : Type := mkSpawn { ds_entity_id : EntityId; ds_item : DroppedItemSnapshot }.
Inductive CompleteMiningDelta : Type :=
| MiningCleared (d : ClearMiningDelta)
| MiningCompleted (block : BlockDelta) (spawned_item : option DroppedItemSpawnDelta).
Record PlayerPoseDelta : Type := mkPose {
  pp_player_id : PlayerId; pp_entity_id : EntityId; pp_player : PlayerSnapshot;
  pp_chunks : list ChunkColumn;
  moved_for_viewers : list PlayerId; spawned_for_viewers : list PlayerId;
  despawned_for_viewers : list PlayerId;
  observed_players_entered : list (EntityId * PlayerSnapshot);
  observed_items_entered : list (EntityId * DroppedItemSnapshot);
  observed_entities_left : list EntityId
}.
Record SelectedHotbarDelta : Type := mkHotbar { sh_player_id : PlayerId; sh_slot : Z }.
Record InventorySlotDelta : Type := mkSlotDelta {
  is_player_id : PlayerId; is_slot : InventorySlot; is_stack : option ItemStack;
  is_crafting_result_change : option (option ItemStack)
}.
Record ViewUpdateDelta : Type := mkViewUpdate { vu_player_id : PlayerId; vu_chunks : list ChunkColumn }.
Record LoginFinalizeDelta : Type := mkLoginFinalize {
  lf_connection_id : Z; lf_player_id : PlayerId; lf_entity_id : EntityId; lf_player : PlayerSnapshot;
  visible_chunks : list ChunkColumn; existing_players : list (EntityId * PlayerSnapshot);
  lf_dropped_items : list (EntityId * DroppedItemSnapshot); new_player_viewers : list PlayerId
}.
Record KeepAliveDelta : Type := mkKeepAlive { ka_player_id : PlayerId; keep_alive_id : Z }.
Record AcknowledgeKeepAliveDelta : Type := mkAck { ack_accepted : bool }.
Record DisconnectDelta : Type := mkDisconnect {
  dc_player_id : PlayerId; dc_entity_id : EntityId; dc_cleared_mining : option ClearMiningDelta
}.

Section World.
Context {CB : ContentBehavior} {S : Type} `{CoreStateMut S}.

(** ** Mining ([mining.rs]) *)

Definition state_clear_active_mining (p : PlayerId) : V S (option ClearMiningDelta) :=
  e ←? asks (player_entity_id p);
  m ←? remove_player_active_mining e;
  mret (Some (mkClear (mkProgress e (m_position m) None (m_duration_ms m)))).

Definition mines_at (position : BlockPos) (s : S) (p : PlayerId) : bool :=
  match player_active_mining p s with
  | Some m => bool_decide (m_position m = position)
  | None => false
  end.

Definition state_clear_active_mining_at (position : BlockPos) : V S (list ClearMiningDelta) :=
  ids ← asks (fun s => filter (fun p => mines_at position s p = true) (player_ids s));
  cleared ← vmap state_clear_active_mining ids;
  mret (omap id cleared).

Definition state_begin_mining (p : PlayerId) (position : BlockPos) (duration_ms now_ms : Z) :
    V S (option BeginMiningDelta) :=
  e ←? asks (player_entity_id p);
  active ← asks (player_active_mining_by_entity e);
  if match active with Some m => bool_decide (m_position m = position) | None => false end
  then mret None
  else
    cleared ← state_clear_active_mining p;
    inv ← asks (player_inventory p);
    selected ← asks (player_selected_hotbar p);
    match inv, selected with
    | Some inv, Some selected =>
        let tool := tool_spec_for_item (selected_hotbar_stack inv selected) in
        set_player_active_mining e (Some (mkMining position now_ms duration_ms (Some 0) tool)) ;;
        mret (Some (mkBegin cleared (mkProgress e position (Some 0) duration_ms)))
    | _, _ => mret ((fun c => mkBegin (Some c) (cm_progress c)) <$> cleared)
    end.

Definition state_advance_mining_stage (p : PlayerId) (e : EntityId) (position : BlockPos)
    (stage duration_ms : Z) : V S (option MiningProgressDelta) :=
  current ← asks (player_entity_id p);
  advanced ←? player_active_mining_mut e (fun m =>
    if negb (bool_decide (current = Some e)) || negb (bool_decide (m_position m = position)) ||
       bool_decide (Some stage = last_stage m)
    then Some (false, m) else Some (true, set_last_stage (Some stage) m));
  mret (if (advanced : bool) then Some (mkProgress e position (Some stage) duration_ms) else None).

(** ** Blocks, inventory slots, poses ([mutation.rs]) *)

Definition DROPPED_ITEM_PICKUP_DELAY_MS : Z := 500.
Definition DROPPED_ITEM_DESPAWN_MS : Z := 5 * 60 * 1000.

Definition state_set_block (position : BlockPos) (block : option BlockState) : V S BlockDelta :=
  cleared ← state_clear_active_mining_at position;
  set_block_state position block ;;
  closed ← close_world_container_if_invalid_state position block;
  match block with
  | Some block =>
      match default_block_entity_for_block block with
      | Some entity => set_block_entity position (Some (BEContainer entity))
      | None => mret tt
      end
  | None => set_block_entity position None
  end ;;
  mret (mkBlockDelta position cleared closed).

Definition state_spawn_dropped_item (position : Vec3) (item : ItemStack) (now_ms : Z) :
    V S (option DroppedItemSpawnDelta) :=
  e ← allocate_entity_id;
  let snapshot := mkDropped item position (mkVec3 (f64_of_Z 0) (f64_of_Z 0) (f64_of_Z 0)) in
  set_entity_kind e (Some KindDroppedItem) ;;
  set_dropped_item e (Some (mkDroppedState snapshot now_ms
    (saturating_add u64_max now_ms DROPPED_ITEM_PICKUP_DELAY_MS)
    (saturating_add u64_max now_ms DROPPED_ITEM_DESPAWN_MS))) ;;
  mret (Some (mkSpawn e snapshot)).

Definition state_selected_hotbar_slot (p : PlayerId) (slot : Z) : V S (option SelectedHotbarDelta) :=
  e ←? asks (player_entity_id p);
  stored ←? player_selected_hotbar_mut e (fun selected =>
    if HOTBAR_SLOT_COUNT <=? slot then Some (false, selected) else Some (true, slot));
  mret (if (stored : bool) then Some (mkHotbar p slot) else None).

Definition state_inventory_slot (p : PlayerId) (slot : InventorySlot) (stack : option ItemStack) :
    V S (option InventorySlotDelta) :=
  e ←? asks (player_entity_id p);
  '(before_result, after_result) ←? player_inventory_mut e (fun inv =>
    '(_, inv') ← set_slot slot stack inv;
    inv' ← normalize_player_inventory inv';
    Some ((crafting_result inv, crafting_result inv'), inv'));
  mret (Some (mkSlotDelta p slot stack
    (if negb (bool_decide (before_result = after_result)) && negb (is_crafting_result slot)
     then Some after_result else None))).

(** How a thing at one chunk and then another changed in a view. *)
Inductive Visibility : Set := Stayed | Entered | Departed | Unseen.
Definition visibility (saw sees : bool) : Visibility :=
  match saw, sees with
  | true, true => Stayed
  | false, true => Entered
  | true, false => Departed
  | false, false => Unseen
  end.
Definition sees_chunk (v : ClientView) (c : ChunkPos) : bool := bool_decide (c ∈ loaded_chunks v).

(** One other player: what it sees of the one that moved, and the other way around. *)
Record Observation : Type := mkObservation {
  ob_id : PlayerId; ob_viewer : Visibility; ob_seen : Visibility; ob_entity : EntityId;
  ob_player : PlayerSnapshot
}.
Definition observe_other (before after : Vec3) (previous_view current_view : ClientView) (s : S)
    (other : PlayerId) : option (option Observation) :=
  match player_session other s, compose_player_snapshot other s with
  | Some session, Some player =>
      before ← vec3_chunk_pos before;
      after ← vec3_chunk_pos after;
      c ← vec3_chunk_pos (position player);
      Some (Some (mkObservation other
        (visibility (sees_chunk (view session) before) (sees_chunk (view session) after))
        (visibility (sees_chunk previous_view c) (sees_chunk current_view c))
        (ss_entity_id session) player))
  | _, _ => Some None
  end.
Definition observe_item (previous_view current_view : ClientView) (s : S) (e : EntityId) :
    option (option (EntityId * Visibility * DroppedItemSnapshot)) :=
  match dropped_item_by_entity e s with
  | None => Some None
  | Some item =>
      c ← vec3_chunk_pos (di_position (d_snapshot item));
      Some (Some (e, visibility (sees_chunk previous_view c) (sees_chunk current_view c),
        d_snapshot item))
  end.

Definition viewers_with (v : Visibility -> bool) (l : list Observation) : list PlayerId :=
  omap (fun o => if v (ob_viewer o) then Some (ob_id o) else None) l.

Definition update_transform (new_position : option Vec3) (new_yaw new_pitch : option spec_float)
    (new_on_ground : bool) (t : PlayerTransform) : PlayerTransform :=
  mkTransform (default (t_position t) new_position) (default (t_yaw t) new_yaw)
    (default (t_pitch t) new_pitch) new_on_ground (t_dimension t).

Definition state_player_pose (p : PlayerId) (new_position : option Vec3)
    (new_yaw new_pitch : option spec_float) (new_on_ground : bool) : V S (option PlayerPoseDelta) :=
  e ←? asks (player_entity_id p);
  previous_player ←? asks (compose_player_snapshot p);
  previous_session ←? asks (player_session p);
  let previous_view := view previous_session in
  current_chunk ←? player_transform_mut e (fun t =>
    let t := update_transform new_position new_yaw new_pitch new_on_ground t in
    c ← vec3_chunk_pos (t_position t); Some (c, t));
  '(added_chunks, current_view) ←? player_session_mut p (fun session =>
    let '(delta, v) := retarget current_chunk (view_distance (view session)) (view session) in
    Some ((added delta, v), set_view v session));
  snapshot ←? asks (compose_player_snapshot p);
  others ← asks (fun s => mapM (observe_other (position previous_player) (position snapshot)
    previous_view current_view s) (filter (fun o => o <> p) (player_ids s)));
  others ← vlift others;
  let others := omap id others in
  items ← asks (fun s =>
    mapM (observe_item previous_view current_view s) (dropped_item_ids s));
  items ← vlift items;
  let items := omap id items in
  chunks ← vmap ensure_chunk added_chunks;
  mret (Some (mkPose p e snapshot chunks
    (viewers_with (fun v => match v with Stayed => true | _ => false end) others)
    (viewers_with (fun v => match v with Entered => true | _ => false end) others)
    (viewers_with (fun v => match v with Departed => true | _ => false end) others)
    (omap (fun o => match ob_seen o with Entered => Some (ob_entity o, ob_player o) | _ => None end)
      others)
    (omap (fun i => match i.1.2 with Entered => Some (i.1.1, i.2) | _ => None end) items)
    (omap (fun o => match ob_seen o with Departed => Some (ob_entity o) | _ => None end) others ++
     omap (fun i => match i.1.2 with Departed => Some i.1.1 | _ => None end) items))).

(** ** Completing a mining *)

Definition state_complete_survival_mining (p : PlayerId) (position : BlockPos) (now_ms : Z) :
    V S (option CompleteMiningDelta) :=
  player ←? asks (compose_player_snapshot p);
  m ←? asks (player_active_mining p);
  if negb (bool_decide (m_position m = position)) then mret None
  else
    current ← asks (block_state position);
    can_edit ← asks (can_edit_block_for_snapshot player position);
    entity ← asks (block_entity position);
    match current with
    | Some block =>
        if negb can_edit || is_air_block block || is_unbreakable_block block ||
           match entity with Some e => has_inventory_contents e | None => false end
        then cleared ← state_clear_active_mining p; mret (MiningCleared <$> cleared)
        else
          delta ← state_set_block position None;
          spawned ← match survival_drop_for_block block with
            | Some item =>
                state_spawn_dropped_item
                  (mkVec3 (f64_add (f64_of_Z (bx position)) (f64 1 (-1)))
                     (f64_add (f64_of_Z (by_ position)) (f64 1 (-1)))
                     (f64_add (f64_of_Z (bz position)) (f64 1 (-1)))) item now_ms
            | None => mret None
            end;
          mret (Some (MiningCompleted delta spawned))
    | None => cleared ← state_clear_active_mining p; mret (MiningCleared <$> cleared)
    end.

(** ** Logins ([login.rs]) *)

Definition initial_visible_chunks (center : ChunkPos) (distance : Z) : V S (list ChunkColumn) :=
  vmap ensure_chunk (sorted_chunks (required_chunks center distance)).

Definition state_update_client_settings (p : PlayerId) (distance : Z) : V S (option ViewUpdateDelta) :=
  limit ← asks config;
  let capped := Z.max (Z.min distance (c_view_distance limit)) 1 in
  player ←? asks (compose_player_snapshot p);
  delta ←? player_session_mut p (fun session =>
    c ← vec3_chunk_pos (position player);
    let '(delta, v) := retarget c capped (view session) in
    Some (delta, set_view v session));
  chunks ← vmap ensure_chunk (added delta);
  mret (Some (mkViewUpdate p chunks)).

(** Another player at a login: whether the new player sees it, and it the new player. *)
Definition observe_login (v : ClientView) (player : PlayerSnapshot) (s : S) (other : PlayerId) :
    option (option (PlayerId * EntityId * PlayerSnapshot * bool * bool)) :=
  match player_session other s, compose_player_snapshot other s with
  | Some session, Some snapshot =>
      theirs ← vec3_chunk_pos (position snapshot);
      mine ← vec3_chunk_pos (position player);
      Some (Some (other, ss_entity_id session, snapshot, sees_chunk v theirs,
        sees_chunk (view session) mine))
  | _, _ => Some None
  end.
Definition observe_login_item (v : ClientView) (s : S) (e : EntityId) :
    option (option (EntityId * DroppedItemSnapshot)) :=
  match dropped_item_by_entity e s with
  | None => Some None
  | Some item =>
      c ← vec3_chunk_pos (di_position (d_snapshot item));
      Some (if sees_chunk v c then Some (e, d_snapshot item) else None)
  end.

Definition finalize_login_delta (connection_id : Z) (p : PlayerId) : V S (option LoginFinalizeDelta) :=
  player ←? asks (compose_player_snapshot p);
  session ←? asks (player_session p);
  let v := view session in
  center ← vlift (vec3_chunk_pos (position player));
  chunks ← initial_visible_chunks center (view_distance v);
  others ← asks (fun s =>
    mapM (observe_login v player s) (filter (fun o => o <> p) (player_ids s)));
  others ← vlift others;
  let others := omap id others in
  items ← asks (fun s => mapM (observe_login_item v s) (dropped_item_ids s));
  items ← vlift items;
  mret (Some (mkLoginFinalize connection_id p (ss_entity_id session) player chunks
    (omap (fun o => let '(_, e, snapshot, seen, _) := o in
       if (seen : bool) then Some (e, snapshot) else None) others)
    (omap id items)
    (omap (fun o => let '(other, _, _, _, sees) := o in
       if (sees : bool) then Some other else None) others))).

(** ** Keep-alives and disconnects ([tick.rs]) *)

Definition accept_keep_alive_state (p : PlayerId) (k : Z) : V S AcknowledgeKeepAliveDelta :=
  session ← asks (player_session p);
  let accepted :=
    match session with Some v => bool_decide (pending_keep_alive_id v = Some k) | None => false end in
  (if (accepted : bool) then
     player_session_mut p (fun v =>
       Some (tt, set_last_keep_alive_sent_at None (set_pending_keep_alive_id None v))) ;; mret tt
   else mret tt) ;;
  mret (mkAck accepted).

Definition schedule_keep_alive_state (p : PlayerId) (now_ms : Z) : V S (option KeepAliveDelta) :=
  _ ←? asks (player_session p);
  k ← allocate_keep_alive_id;
  interval ← asks keepalive_interval_ms;
  _ ←? player_session_mut p (fun v =>
    Some (tt, set_next_keep_alive_at (saturating_add u64_max now_ms interval)
      (set_last_keep_alive_sent_at (Some now_ms) (set_pending_keep_alive_id (Some k) v))));
  mret (Some (mkKeepAlive p k)).

Definition disconnect_player_state (p : PlayerId) : V S (option DisconnectDelta) :=
  cleared ← state_clear_active_mining p;
  persisted ←? persisted_online_player_snapshot_state p;
  session ←? remove_online_player p;
  match active_container session with
  | Some window =>
      writeback_world_container_state window ;; unregister_world_container_viewer_state window p
  | None => mret tt
  end ;;
  set_saved_player p (Some persisted) ;;
  mret (Some (mkDisconnect p (ss_entity_id session) cleared)).
End World.

(** [default_player] *)
Definition default_player (p : PlayerId) (name : string) (spawn : BlockPos) (inv : PlayerInventory) :
    PlayerSnapshot :=
  mkSnapshot p name
    (mkVec3 (f64_add (f64_of_Z (bx spawn)) (f64 1 (-1))) (f64_of_Z (by_ spawn))
       (f64_add (f64_of_Z (bz spawn)) (f64 1 (-1))))
    (f64_of_Z 0) (f64_of_Z 0) true Overworld (f64_of_Z 20) 20 (f64_of_Z 5) inv 0.
