(* ===== verification/VoxelEvents.v ===== *)
(** * Commands and events
    ([crates/core/revy-voxel-semantic/src/events.rs], [crates/core/revy-core/src/event.rs],
    the event functions of [crates/core/revy-voxel-core/src/core/inventory/sync.rs])

    What the outside asks of the core and what the core tells the outside, and the events
    that describe the difference of two states of a window. *)

From Stdlib Require Import Floats.SpecFloat.
From S2P Require Import Prelude VoxelModel VoxelItems VoxelContent VoxelState VoxelWindow.

Definition ConnectionId : Type := Z.

(** ** Commands *)

Inductive GameplayCommand : Type :=
| MoveIntent (player_id : PlayerId) (position : option Vec3) (yaw pitch : option spec_float)
    (on_ground : bool)
| SetHeldSlot (player_id : PlayerId) (slot : Z)
| CreativeInventorySet (player_id : PlayerId) (slot : InventorySlot) (stack : option ItemStack)
| DigBlock (player_id : PlayerId) (position : BlockPos) (status : Z) (face : option BlockFace)
| PlaceBlock (player_id : PlayerId) (hand : InteractionHand) (position : BlockPos)
    (face : option BlockFace) (held_item : option ItemStack)
| UseBlock (player_id : PlayerId) (hand : InteractionHand) (position : BlockPos)
    (face : option BlockFace) (held_item : option ItemStack).

Definition gameplay_player_id (c : GameplayCommand) : PlayerId :=
  match c with
  | MoveIntent p _ _ _ _ | SetHeldSlot p _ | CreativeInventorySet p _ _ | DigBlock p _ _ _
  | PlaceBlock p _ _ _ _ | UseBlock p _ _ _ _ => p
  end.

Inductive CoreCommand : Type :=
| LoginStart (connection_id : ConnectionId) (name : string) (player_id : PlayerId)
| UpdateClientView (player_id : PlayerId) (view_distance : Z)
| Gameplay (command : GameplayCommand)
| KeepAliveResponse (player_id : PlayerId) (keep_alive_id : Z)
| CommandInventoryClick (player_id : PlayerId) (transaction : InventoryTransactionContext)
    (target : InventoryClickTarget) (button : InventoryClickButton)
    (validation : InventoryClickValidation)
| CommandCloseContainer (player_id : PlayerId) (window_id : Z)
| CommandDisconnect (player_id : PlayerId).

Definition command_player_id (c : CoreCommand) : PlayerId :=
  match c with
  | LoginStart _ _ p | UpdateClientView p _ | KeepAliveResponse p _
  | CommandInventoryClick p _ _ _ _ | CommandCloseContainer p _ | CommandDisconnect p => p
  | Gameplay c => gameplay_player_id c
  end.

(** ** Events *)

Inductive EventTarget : Type :=
| ToConnection (connection_id : ConnectionId)
| ToPlayer (player_id : PlayerId)
| EveryoneExcept (player_id : PlayerId).
#[export] Instance EventTarget_eq_dec : EqDecision EventTarget.
Proof. solve_decision. Defined.

Inductive CoreEvent : Type :=
| LoginAccepted (player_id : PlayerId) (entity_id : EntityId) (player : PlayerSnapshot)
| PlayBootstrap (player : PlayerSnapshot) (entity_id : EntityId) (meta : WorldMeta)
    (view_distance : Z)
| ChunkBatch (chunks : list ChunkColumn)
| EntitySpawned (entity_id : EntityId) (player : PlayerSnapshot)
| EntityMoved (entity_id : EntityId) (player : PlayerSnapshot)
| DroppedItemSpawned (entity_id : EntityId) (item : DroppedItemSnapshot)
| BlockBreakingProgress (breaker_entity_id : EntityId) (position : BlockPos) (stage : option Z)
    (duration_ms : Z)
| EntityDespawned (entity_ids : list EntityId)
| InventoryContents (window_id : Z) (container : string) (contents : InventoryWindowContents)
| ContainerOpened (window_id : Z) (container : string) (title : string)
| ContainerClosed (window_id : Z)
| ContainerPropertyChanged (window_id : Z) (property : string) (value : Z)
| InventorySlotChanged (window_id : Z) (container : string) (slot : InventorySlot)
    (stack : option ItemStack)
| InventoryTransactionProcessed (transaction : InventoryTransactionContext) (accepted : bool)
| CursorChanged (stack : option ItemStack)
| SelectedHotbarSlotChanged (slot : Z)
| BlockChanged (position : BlockPos) (block : option BlockState)
| KeepAliveRequested (keep_alive_id : Z)
| DisconnectEvent (reason : string).

Record TargetedEvent : Type := mkEvent { target : EventTarget; event : CoreEvent }.

(** ** The difference of two windows ([sync.rs]) *)

Section Diff.
Context {CB : ContentBehavior}.

Definition slot_diff (id : Z) (kind : string) (p : PlayerId) (before after : InventoryWindowContents)
    (slot : InventorySlot) : option TargetedEvent :=
  let before_stack := contents_get_slot before slot in
  let after_stack := contents_get_slot after slot in
  if bool_decide (before_stack = after_stack) then None
  else Some (mkEvent (ToPlayer p) (InventorySlotChanged id kind slot after_stack)).
Definition inventory_diff_events (id : Z) (kind : string) (p : PlayerId)
    (before after : InventoryWindowContents) : list TargetedEvent :=
  omap (slot_diff id kind p before after) (visible_slots kind).

Definition property_events (id : Z) (p : PlayerId) (entries : list (string * Z)) :
    list TargetedEvent :=
  map (fun e => mkEvent (ToPlayer p) (ContainerPropertyChanged id e.1 e.2)) entries.

Definition find_property (property : string) (entries : list (string * Z)) : option Z :=
  snd <$> find (fun e => bool_decide (e.1 = property)) entries.
Definition property_diff_events (id : Z) (p : PlayerId) (before after : list (string * Z)) :
    list TargetedEvent :=
  omap (fun e =>
    if bool_decide (find_property e.1 before = Some e.2) then None
    else Some (mkEvent (ToPlayer p) (ContainerPropertyChanged id e.1 e.2))) after.

Definition window_resync_events (p : PlayerId) (id : Z) (kind : string)
    (contents : InventoryWindowContents) (selected : Z) (cursor : option ItemStack)
    (slot : option InventorySlot) : list TargetedEvent :=
  [mkEvent (ToPlayer p) (InventoryContents id kind contents)] ++
  match slot with
  | Some slot =>
      [mkEvent (ToPlayer p) (InventorySlotChanged id kind slot (contents_get_slot contents slot))]
  | None => []
  end ++
  (if bool_decide (kind = player_container_kind)
   then [mkEvent (ToPlayer p) (SelectedHotbarSlotChanged selected)] else []) ++
  [mkEvent (ToPlayer p) (CursorChanged cursor)].
End Diff.

(** ** What a client makes of the events *)

(** A client's copy of a window: a slot changed to what the last event for it said. *)
Definition client_slots : Type := InventorySlot -> option ItemStack.
Definition client_apply (c : client_slots) (e : TargetedEvent) : client_slots :=
  match event e with
  | InventorySlotChanged _ _ slot stack => fun s => if decide (s = slot) then stack else c s
  | _ => c
  end.

Lemma client_apply_slot_diff {CB : ContentBehavior} id kind p before after slots : forall c s,
  foldl client_apply c (omap (slot_diff id kind p before after) slots) s =
    if decide (s ∈ slots /\ contents_get_slot before s <> contents_get_slot after s)
    then contents_get_slot after s else c s.
Proof.
  induction slots as [|t slots IH]; intros c s.
  { rewrite decide_False; [done|]. intros [Hs _]. by apply not_elem_of_nil in Hs. }
  rewrite omap_cons_eq. unfold slot_diff at 1. case_bool_decide as Hd.
  - rewrite IH.
    apply decide_ext. rewrite elem_of_cons. split; [tauto|]. intros [[->|Hs] Hne]; [done|tauto].
  - cbn [foldl]. rewrite IH. cbn.
    destruct (decide (s = t)) as [->|Hne].
    + rewrite (decide_True (P := t ∈ t :: slots /\ _)); [by case_decide|]. split; [left|done].
    + apply decide_ext. rewrite elem_of_cons. tauto.
Qed.

(** The difference events of a window are exactly enough: a client that held the
    contents before and applies them holds, in every slot the window shows, the contents
    afterwards; a slot the window does not show is not touched; and when nothing visible
    changed there are no events. *)
Theorem diff_events_complete {CB : ContentBehavior} id kind p before after c :
  (forall s, s ∈ visible_slots kind -> c s = contents_get_slot before s) ->
  let c' := foldl client_apply c (inventory_diff_events id kind p before after) in
  (forall s, s ∈ visible_slots kind -> c' s = contents_get_slot after s) /\
  (forall s, s ∉ visible_slots kind -> c' s = c s) /\
  ((forall s, s ∈ visible_slots kind -> contents_get_slot before s = contents_get_slot after s) ->
   inventory_diff_events id kind p before after = []).
Proof.
  unfold inventory_diff_events. intros Hc. cbn zeta. split_and!.
  - intros s Hs. rewrite client_apply_slot_diff. case_decide as Hd; [done|]. rewrite Hc by done.
    destruct (decide (contents_get_slot before s = contents_get_slot after s)); [done|tauto].
  - intros s Hs. rewrite client_apply_slot_diff. by rewrite decide_False by tauto.
  - intros Hall. induction (visible_slots kind) as [|t slots IH]; [done|].
    rewrite omap_cons_eq. unfold slot_diff at 1. rewrite bool_decide_true by (apply Hall; left).
    apply IH; intros s Hs; [apply Hc|apply Hall]; by right.
Qed.

(** A slot of the main inventory gained a stack. *)
Definition sample_before : InventoryWindowContents := contents_player new_empty.
Definition sample_after : InventoryWindowContents :=
  contents_player (default new_empty
    (snd <$> set_slot (MainInventory 3) (Some (item_stack_new catalog.STONE 5 0)) new_empty)).

Lemma diff_events_complete_witness :
  inventory_diff_events 0 ids.PLAYER 7 sample_before sample_after =
    [mkEvent (ToPlayer 7) (InventorySlotChanged 0 ids.PLAYER (MainInventory 3)
      (Some (item_stack_new catalog.STONE 5 0)))] /\
  foldl client_apply (contents_get_slot sample_before)
    (inventory_diff_events 0 ids.PLAYER 7 sample_before sample_after) (MainInventory 3) =
    contents_get_slot sample_after (MainInventory 3).
Proof.
  split; [vm_compute; reflexivity|].
  refine (proj1 (diff_events_complete 0 ids.PLAYER 7 sample_before sample_after
    (contents_get_slot sample_before) _) (MainInventory 3) _).
  - intros s _. reflexivity.
  - apply (bool_decide_unpack _). vm_compute. exact I.
Defined.
