(* ===== verification/VoxelOps.v ===== *)
(** * Operations, their effects and the events they cause
    ([crates/core/revy-voxel-core/src/core/canonical.rs], the collectors of [.../mining.rs]
    and [.../tick.rs], the event functions of [.../mod.rs], [.../mutation.rs], [.../login.rs])

    Every change of the core is a [CoreOp]; [reduce_core_op] runs one on any state and
    reports what it did, and [CoreEventBuilder] turns the report into events, leaving out
    whatever would show a player that is not yet in the game.  [None] is a panic. *)

From Stdlib Require Import Floats.SpecFloat.
From S2P Require Import Prelude VoxelModel VoxelItems VoxelState VoxelOverlay VoxelWindow VoxelClick VoxelWorld VoxelEvents.

Inductive CoreOp : Type :=
| PrepareLogin (player_id : PlayerId) (player : PlayerSnapshot) (expected_entity_id : EntityId)
| FinalizeLogin (connection_id : ConnectionId) (player_id : PlayerId)
| SetPlayerPose (player_id : PlayerId) (position : option Vec3) (yaw pitch : option spec_float)
    (on_ground : bool)
| SetSelectedHotbarSlot (player_id : PlayerId) (slot : Z)
| SetInventorySlot (player_id : PlayerId) (slot : InventorySlot) (stack : option ItemStack)
| SetViewDistance (player_id : PlayerId) (view_distance : Z)
| InventoryClick (player_id : PlayerId) (transaction : InventoryTransactionContext)
    (target : InventoryClickTarget) (button : InventoryClickButton)
    (validation : InventoryClickValidation)
| OpenContainerAt (player_id : PlayerId) (position : BlockPos)
| OpenVirtualContainer (player_id : PlayerId) (kind : string)
| CloseContainer (player_id : PlayerId) (window_id : Z) (include_player_contents : bool)
| ClearMining (player_id : PlayerId)
| BeginMining (player_id : PlayerId) (position : BlockPos) (duration_ms : Z)
| AdvanceMiningStage (player_id : PlayerId) (entity_id : EntityId) (position : BlockPos)
    (stage duration_ms : Z)
| CompleteMining (player_id : PlayerId) (position : BlockPos)
| TickActiveContainer (player_id : PlayerId)
| TickDroppedItem (entity_id : EntityId)
| RequestKeepAlive (player_id : PlayerId)
| AcknowledgeKeepAlive (player_id : PlayerId) (keep_alive_id : Z)
| SetBlock (position : BlockPos) (block : option BlockState)
| SpawnDroppedItem (expected_entity_id : option EntityId) (position : Vec3) (item : ItemStack)
| DisconnectPlayer (player_id : PlayerId)
| EmitEvent (event : TargetedEvent).

Inductive AppliedCoreOp : Type :=
| AppliedPrepareLogin (player_id : PlayerId) (entity_id : EntityId)
| AppliedFinalizeLogin (player_id : PlayerId) (delta : option LoginFinalizeDelta)
| AppliedPlayerPose (delta : option PlayerPoseDelta)
| AppliedSelectedHotbarSlot (delta : option SelectedHotbarDelta)
| AppliedInventorySlot (delta : option InventorySlotDelta)
| AppliedViewDistance (delta : option ViewUpdateDelta)
| AppliedInventoryClick (delta : option InventoryClickDelta)
| AppliedOpenContainer (delta : option OpenContainerDelta)
| AppliedCloseContainer (delta : option CloseContainerDelta)
| AppliedClearMining (delta : option ClearMiningDelta)
| AppliedBeginMining (delta : option BeginMiningDelta)
| AppliedAdvanceMiningStage (delta : option MiningProgressDelta)
| AppliedCompleteMining (delta : option CompleteMiningDelta)
| AppliedWindowDiff (delta : option WindowDiffDelta)
| AppliedDroppedItemTick (delta : DroppedItemTickDelta)
| AppliedSetBlock (delta : BlockDelta)
| AppliedSpawnDroppedItem (delta : option DroppedItemSpawnDelta)
| AppliedKeepAliveRequested (delta : option KeepAliveDelta)
| AppliedAcknowledgeKeepAlive (delta : AcknowledgeKeepAliveDelta)
| AppliedDisconnectPlayer (delta : option DisconnectDelta)
| AppliedEmitEvent (event : TargetedEvent).

(** ** One operation *)

Section Reduce.
Context {CB : ContentBehavior} {S : Type} `{CoreStateMut S}.

Definition close_container_op (p : PlayerId) (id : Z) (include_player_contents : bool) :
    V S (option CloseContainerDelta) :=
  if id =? 0 then close_player_active_container_state p include_player_contents
  else if include_player_contents then close_inventory_window_state p id
  else
    active ← asks (fun s => session ← player_session p s; window_id <$> active_container session);
    if bool_decide (active = Some id) then close_player_active_container_state p false
    else mret None.

Definition reduce_core_op (now_ms : Z) (materialized_players : gset PlayerId) (op : CoreOp) :
    V S AppliedCoreOp :=
  match op with
  | PrepareLogin p player expected =>
      (if bool_decide (p ∈ materialized_players)
       then _ ← spawn_online_player player now_ms (Some expected); mret tt else mret tt) ;;
      mret (AppliedPrepareLogin p expected)
  | FinalizeLogin connection p =>
      AppliedFinalizeLogin p <$> finalize_login_delta connection p
  | SetPlayerPose p position yaw pitch on_ground =>
      AppliedPlayerPose <$> state_player_pose p position yaw pitch on_ground
  | SetSelectedHotbarSlot p slot => AppliedSelectedHotbarSlot <$> state_selected_hotbar_slot p slot
  | SetInventorySlot p slot stack => AppliedInventorySlot <$> state_inventory_slot p slot stack
  | SetViewDistance p distance => AppliedViewDistance <$> state_update_client_settings p distance
  | InventoryClick p transaction target button validation =>
      AppliedInventoryClick <$> apply_inventory_click_state p transaction target button validation
  | OpenContainerAt p position => AppliedOpenContainer <$> open_world_container_state p position
  | OpenVirtualContainer p kind => AppliedOpenContainer <$> open_virtual_container_state p kind
  | CloseContainer p id contents => AppliedCloseContainer <$> close_container_op p id contents
  | ClearMining p => AppliedClearMining <$> state_clear_active_mining p
  | BeginMining p position duration =>
      AppliedBeginMining <$> state_begin_mining p position duration now_ms
  | AdvanceMiningStage p e position stage duration =>
      AppliedAdvanceMiningStage <$> state_advance_mining_stage p e position stage duration
  | CompleteMining p position =>
      AppliedCompleteMining <$> state_complete_survival_mining p position now_ms
  | TickActiveContainer p => AppliedWindowDiff <$> tick_active_container_state p
  | TickDroppedItem e => AppliedDroppedItemTick <$> tick_dropped_item_state e now_ms
  | SetBlock position block => AppliedSetBlock <$> state_set_block position block
  | SpawnDroppedItem _ position item =>
      AppliedSpawnDroppedItem <$> state_spawn_dropped_item position item now_ms
  | RequestKeepAlive p => AppliedKeepAliveRequested <$> schedule_keep_alive_state p now_ms
  | AcknowledgeKeepAlive p k => AppliedAcknowledgeKeepAlive <$> accept_keep_alive_state p k
  | DisconnectPlayer p => AppliedDisconnectPlayer <$> disconnect_player_state p
  | EmitEvent event => mret (AppliedEmitEvent event)
  end.

(** ** What a tick has to do ([mining.rs], [tick.rs]) *)

Definition mining_op (now_ms : Z) (s : S) (e : EntityId) : option CoreOp :=
  m ← player_active_mining_by_entity e s;
  p ← pi_player_id <$> player_identity_by_entity e s;
  let elapsed := saturating_sub now_ms (started_at_ms m) in
  if m_duration_ms m <=? elapsed then Some (CompleteMining p (m_position m))
  else
    let stage := (saturating_mul u64_max elapsed 10 / m_duration_ms m) mod 256 in
    if bool_decide (Some stage = last_stage m) then None
    else Some (AdvanceMiningStage p e (m_position m) (Z.min stage 9) (m_duration_ms m)).
Definition collect_active_mining_ops (now_ms : Z) (s : S) : list CoreOp :=
  omap (mining_op now_ms s) (sorted_ids (player_entity_ids s)).

Definition keepalive_op (now_ms timeout_ms : Z) (s : S) (p : PlayerId) : option CoreOp :=
  session ← player_session p s;
  if match last_keep_alive_sent_at session with
     | Some sent_at => timeout_ms <? saturating_sub now_ms sent_at
     | None => false
     end
  then Some (DisconnectPlayer p)
  else if bool_decide (pending_keep_alive_id session = None) && (next_keep_alive_at session <=? now_ms)
  then Some (RequestKeepAlive p) else None.
Definition collect_keepalive_ops (now_ms timeout_ms : Z) (s : S) : list CoreOp :=
  omap (keepalive_op now_ms timeout_ms s) (player_ids s).

Definition container_op (s : S) (p : PlayerId) : option CoreOp :=
  session ← player_session p s;
  if bool_decide (is_Some (active_container session)) then Some (TickActiveContainer p) else None.

Definition scheduler_tick (now_ms timeout_ms : Z) (s : S) : list CoreOp :=
  omap (container_op s) (player_ids s) ++ map TickDroppedItem (dropped_item_ids s) ++
  collect_active_mining_ops now_ms s ++ collect_keepalive_ops now_ms timeout_ms s.
End Reduce.

(** ** Events *)

Record CoreEventBuilder : Type := mkBuilder {
  hidden_players : gset PlayerId; hidden_player_entities : gmap PlayerId EntityId
}.
Definition builder_new (hidden : gset PlayerId) : CoreEventBuilder := mkBuilder hidden ∅.

Definition to_player (p : PlayerId) (e : CoreEvent) : TargetedEvent := mkEvent (ToPlayer p) e.
Definition to_connection (c : ConnectionId) (e : CoreEvent) : TargetedEvent := mkEvent (ToConnection c) e.

Section Events.
Context {CB : ContentBehavior}.

(** The sessions that have the chunk of [position] loaded, in the order of their ids. *)
Definition online_ids (core : ServerCore) : list PlayerId :=
  sorted_ids (dom (s_sessions (sessions core))).
Definition watches (position : BlockPos) (core : ServerCore) (p : PlayerId) : bool :=
  match s_sessions (sessions core) !! p with
  | Some session => sees_chunk (view session) (block_chunk_pos position)
  | None => false
  end.
Definition watchers (position : BlockPos) (core : ServerCore) : list PlayerId :=
  filter (fun p => watches position core p = true) (online_ids core).

Definition block_change_events (core : ServerCore) (position : BlockPos) : list TargetedEvent :=
  let block := block_at position core in
  map (fun p => to_player p (BlockChanged position block)) (watchers position core).
Definition dropped_item_spawn_events (core : ServerCore) (e : EntityId) (item : DroppedItemSnapshot) :
    list TargetedEvent :=
  map (fun p => to_player p (DroppedItemSpawned e item)) (online_ids core).
Definition block_break_progress_events (core : ServerCore) (breaker : EntityId) (position : BlockPos)
    (stage : option Z) (duration_ms : Z) : list TargetedEvent :=
  map (fun p => to_player p (BlockBreakingProgress breaker position stage duration_ms))
    (watchers position core).

Definition login_initial_events (core : ServerCore) (c : ConnectionId) (p : PlayerId) (e : EntityId)
    (player : PlayerSnapshot) (chunks : list ChunkColumn) : list TargetedEvent :=
  [to_connection c (LoginAccepted p e player);
   to_connection c (PlayBootstrap player e (w_meta (world core))
     (c_view_distance (w_config (world core))));
   to_connection c (ChunkBatch chunks);
   to_connection c (InventoryContents 0 player_container_kind (contents_player (inventory player)));
   to_connection c (SelectedHotbarSlotChanged (selected_hotbar_slot player))].
Definition existing_player_spawn_events (c : ConnectionId) (players : list (EntityId * PlayerSnapshot)) :
    list TargetedEvent :=
  map (fun e => to_connection c (EntitySpawned e.1 e.2)) players.

Definition build_finalize_login (core : ServerCore) (d : LoginFinalizeDelta) : list TargetedEvent :=
  let c := lf_connection_id d in
  login_initial_events core c (lf_player_id d) (lf_entity_id d) (lf_player d) (visible_chunks d) ++
  existing_player_spawn_events c (existing_players d) ++
  map (fun i => to_connection c (DroppedItemSpawned i.1 i.2)) (lf_dropped_items d) ++
  map (fun viewer => to_player viewer (EntitySpawned (lf_entity_id d) (lf_player d)))
    (new_player_viewers d).

Definition build_player_pose (d : PlayerPoseDelta) : list TargetedEvent :=
  let p := pp_player_id d in
  let e := pp_entity_id d in
  map (fun chunk => to_player p (ChunkBatch [chunk])) (pp_chunks d) ++
  map (fun v => to_player v (EntityMoved e (pp_player d))) (moved_for_viewers d) ++
  map (fun v => to_player v (EntitySpawned e (pp_player d))) (spawned_for_viewers d) ++
  map (fun v => to_player v (EntityDespawned [e])) (despawned_for_viewers d) ++
  map (fun o => to_player p (EntitySpawned o.1 o.2)) (observed_players_entered d) ++
  map (fun i => to_player p (DroppedItemSpawned i.1 i.2)) (observed_items_entered d) ++
  match observed_entities_left d with
  | [] => []
  | es => [to_player p (EntityDespawned es)]
  end.

Definition build_selected_hotbar (d : SelectedHotbarDelta) : list TargetedEvent :=
  [to_player (sh_player_id d) (SelectedHotbarSlotChanged (sh_slot d))].

Definition build_inventory_slot (d : InventorySlotDelta) : list TargetedEvent :=
  let changed slot stack :=
    to_player (is_player_id d) (InventorySlotChanged 0 player_container_kind slot stack) in
  changed (is_slot d) (is_stack d) ::
  match is_crafting_result_change d with
  | Some result => [changed crafting_result_slot result]
  | None => []
  end.

Definition build_view_update (d : ViewUpdateDelta) : list TargetedEvent :=
  map (fun chunk => to_player (vu_player_id d) (ChunkBatch [chunk])) (vu_chunks d).

Definition build_window_diff (d : WindowDiffDelta) : list TargetedEvent :=
  inventory_diff_events (wd_window_id d) (wd_container d) (wd_player_id d) (before_contents d)
    (after_contents d) ++
  property_diff_events (wd_window_id d) (wd_player_id d) (before_properties d) (after_properties d).

Definition build_inventory_click (d : InventoryClickDelta) : list TargetedEvent :=
  let p := ic_player_id d in
  let id := ic_window_id d in
  let processed := to_player p (InventoryTransactionProcessed (ic_transaction d) (accepted d)) in
  let properties := property_diff_events id p (ic_before_properties d) (ic_after_properties d) in
  if negb (accepted d) then
    if negb (should_resync_on_reject d) then [processed]
    else
      [processed] ++
      window_resync_events p id (ic_container d) (ic_after_contents d) (selected_hotbar_after d)
        (after_cursor d) (resolved_slot d) ++
      properties
  else
    [processed] ++
    inventory_diff_events id (ic_container d) p (ic_before_contents d) (ic_after_contents d) ++
    properties ++
    (if bool_decide (before_cursor d = after_cursor d) then []
     else [to_player p (CursorChanged (after_cursor d))]) ++
    (if bool_decide (ic_container d = player_container_kind) &&
        negb (selected_hotbar_before d =? selected_hotbar_after d)
     then [to_player p (SelectedHotbarSlotChanged (selected_hotbar_after d))] else []) ++
    mjoin (map build_window_diff (window_diffs (world_sync d))).

Definition build_close_container (d : CloseContainerDelta) : list TargetedEvent :=
  to_player (cd_player_id d) (ContainerClosed (cd_window_id d)) ::
  match cd_contents d with
  | Some contents => [to_player (cd_player_id d) (InventoryContents 0 player_container_kind contents)]
  | None => []
  end.

Definition build_open_container (d : OpenContainerDelta) : list TargetedEvent :=
  let p := od_player_id d in
  let id := od_window_id d in
  mjoin (map build_close_container (od_closed d)) ++
  [to_player p (ContainerOpened id (od_container d) (od_title d));
   to_player p (InventoryContents id (od_container d) (od_contents d))] ++
  property_events id p (od_properties d).

Definition build_mining_progress (core : ServerCore) (d : MiningProgressDelta) : list TargetedEvent :=
  block_break_progress_events core (breaker_entity_id d) (mp_position d) (mp_stage d) (mp_duration_ms d).
Definition build_clear_mining (core : ServerCore) (d : ClearMiningDelta) : list TargetedEvent :=
  build_mining_progress core (cm_progress d).
Definition build_begin_mining (core : ServerCore) (d : BeginMiningDelta) : list TargetedEvent :=
  mjoin (map (build_clear_mining core) (option_list (bm_cleared d))) ++
  build_mining_progress core (bm_progress d).

Definition build_set_block (core : ServerCore) (d : BlockDelta) : list TargetedEvent :=
  mjoin (map (build_clear_mining core) (cleared_mining d)) ++
  mjoin (map build_close_container (closed_containers d)) ++
  block_change_events core (bd_position d).
Definition build_dropped_item_spawn (core : ServerCore) (d : DroppedItemSpawnDelta) :
    list TargetedEvent := dropped_item_spawn_events core (ds_entity_id d) (ds_item d).
Definition build_complete_mining (core : ServerCore) (d : CompleteMiningDelta) : list TargetedEvent :=
  match d with
  | MiningCleared d => build_clear_mining core d
  | MiningCompleted block item =>
      build_set_block core block ++
      mjoin (map (build_dropped_item_spawn core) (option_list item))
  end.

Definition build_entity_despawn (core : ServerCore) (d : EntityDespawnDelta) : list TargetedEvent :=
  map (fun p => to_player p (EntityDespawned (entity_ids d))) (online_ids core).
Definition build_dropped_item_tick (core : ServerCore) (d : DroppedItemTickDelta) : list TargetedEvent :=
  mjoin (map build_window_diff (option_list (inventory_delta d))) ++
  mjoin (map (build_entity_despawn core) (option_list (despawn d))).

Definition build_keep_alive (d : KeepAliveDelta) : list TargetedEvent :=
  [to_player (ka_player_id d) (KeepAliveRequested (keep_alive_id d))].
Definition build_disconnect (core : ServerCore) (d : DisconnectDelta) : list TargetedEvent :=
  mjoin (map (build_clear_mining core) (option_list (dc_cleared_mining d))) ++
  [mkEvent (EveryoneExcept (dc_player_id d)) (EntityDespawned [dc_entity_id d])].

(** *** Hidden players *)

Definition sanitize_hidden_event (hidden : gset PlayerId) (hidden_entities : gset EntityId)
    (e : TargetedEvent) : option TargetedEvent :=
  let sanitized :=
    match event e with
    | EntityMoved id _ | EntitySpawned id _ | BlockBreakingProgress id _ _ _ =>
        if bool_decide (id ∈ hidden_entities) then None else Some e
    | EntityDespawned ids =>
        match filter (fun id => id ∉ hidden_entities) ids with
        | [] => None
        | ids => Some (mkEvent (target e) (EntityDespawned ids))
        end
    | _ => Some e
    end in
  match target e with
  | ToPlayer p | EveryoneExcept p => if bool_decide (p ∈ hidden) then None else sanitized
  | ToConnection _ => sanitized
  end.

Definition hidden_entities (b : CoreEventBuilder) (core : ServerCore) : gset EntityId :=
  list_to_set (map snd (map_to_list (hidden_player_entities b))) ∪
  list_to_set (omap (fun p => e_players (entities core) !! p) (elements (hidden_players b))).

Definition filter_hidden_events (b : CoreEventBuilder) (core : ServerCore)
    (events : list TargetedEvent) : list TargetedEvent :=
  omap (sanitize_hidden_event (hidden_players b) (hidden_entities b core)) events.

Definition build_option {A} (f : A -> list TargetedEvent) (d : option A) : list TargetedEvent :=
  match d with Some d => f d | None => [] end.

Definition build (core : ServerCore) (applied : AppliedCoreOp) (b : CoreEventBuilder) :
    list TargetedEvent * CoreEventBuilder :=
  let b :=
    match applied with
    | AppliedPrepareLogin p e =>
        mkBuilder ({[p]} ∪ hidden_players b) (<[p := e]> (hidden_player_entities b))
    | AppliedFinalizeLogin p _ =>
        mkBuilder (hidden_players b ∖ {[p]}) (delete p (hidden_player_entities b))
    | _ => b
    end in
  let events :=
    match applied with
    | AppliedPrepareLogin _ _ => []
    | AppliedFinalizeLogin _ d => build_option (build_finalize_login core) d
    | AppliedPlayerPose d => build_option build_player_pose d
    | AppliedSelectedHotbarSlot d => build_option build_selected_hotbar d
    | AppliedInventorySlot d => build_option build_inventory_slot d
    | AppliedViewDistance d => build_option build_view_update d
    | AppliedInventoryClick d => build_option build_inventory_click d
    | AppliedOpenContainer d => build_option build_open_container d
    | AppliedCloseContainer d => build_option build_close_container d
    | AppliedClearMining d => build_option (build_clear_mining core) d
    | AppliedBeginMining d => build_option (build_begin_mining core) d
    | AppliedAdvanceMiningStage d => build_option (build_mining_progress core) d
    | AppliedCompleteMining d => build_option (build_complete_mining core) d
    | AppliedWindowDiff d => build_option build_window_diff d
    | AppliedDroppedItemTick d => build_dropped_item_tick core d
    | AppliedSetBlock d => build_set_block core d
    | AppliedSpawnDroppedItem d => build_option (build_dropped_item_spawn core) d
    | AppliedKeepAliveRequested d => build_option build_keep_alive d
    | AppliedAcknowledgeKeepAlive _ => []
    | AppliedDisconnectPlayer d => build_option (build_disconnect core) d
    | AppliedEmitEvent e => [e]
    end in
  (filter_hidden_events b core events, b).

(** ** A batch of operations *)

Definition finalized_players (ops : list CoreOp) : gset PlayerId :=
  list_to_set (omap (fun op => match op with FinalizeLogin _ p => Some p | _ => None end) ops).

Fixpoint run_core_ops (now_ms : Z) (finalized : gset PlayerId) (b : CoreEventBuilder)
    (ops : list CoreOp) : V ServerCore (list TargetedEvent) :=
  match ops with
  | [] => mret []
  | op :: ops =>
      applied ← reduce_core_op now_ms finalized op;
      core ← asks id;
      let '(events, b) := build core applied b in
      rest ← run_core_ops now_ms finalized b ops;
      mret (events ++ rest)
  end.

Definition apply_core_ops (ops : list CoreOp) (now_ms : Z) (hidden : gset PlayerId) :
    V ServerCore (list TargetedEvent) :=
  run_core_ops now_ms (finalized_players ops) (builder_new hidden) ops.

(** [ServerCore::tick] *)
Definition core_tick (now_ms : Z) : V ServerCore (list TargetedEvent) :=
  ops ← asks (fun c => scheduler_tick now_ms (s_timeout_ms (sessions c)) c);
  apply_core_ops ops now_ms ∅.

(** ** Events that no operation causes *)

Definition reject_connection (c : ConnectionId) (reason : string) : list TargetedEvent :=
  [to_connection c (DisconnectEvent reason)].

Definition place_inventory_correction (p : PlayerId) (hand : InteractionHand) (player : PlayerSnapshot)
    (container : string) : list TargetedEvent :=
  let slot := match hand with
    | HandMain => Hotbar (selected_hotbar_slot player)
    | HandOffhand => Offhand
    end in
  [to_player p (InventorySlotChanged 0 container slot (get_slot (inventory player) slot));
   to_player p (SelectedHotbarSlotChanged (selected_hotbar_slot player))].

(** *** [session_resync_events] ([mod.rs]) *)

Definition sees_position (session : PlayerSessionState) (position : Vec3) : option bool :=
  c ← vec3_chunk_pos position; Some (sees_chunk (view session) c).

Definition resync_player (core : ServerCore) (p : PlayerId) (session : PlayerSessionState)
    (other : PlayerId) : option (option TargetedEvent) :=
  match e_players (entities core) !! other with
  | None => Some None
  | Some e =>
      if (other =? p) || (e =? ss_entity_id session) then Some None
      else
        match compose_player_snapshot_by_entity e core with
        | None => Some None
        | Some player =>
            seen ← sees_position session (position player);
            Some (if (seen : bool) then Some (to_player p (EntitySpawned e player)) else None)
        end
  end.
Definition resync_item (core : ServerCore) (p : PlayerId) (session : PlayerSessionState)
    (e : EntityId) : option (option TargetedEvent) :=
  match e_dropped (entities core) !! e with
  | None => Some None
  | Some item =>
      seen ← sees_position session (di_position (d_snapshot item));
      Some (if (seen : bool) then Some (to_player p (DroppedItemSpawned e (d_snapshot item))) else None)
  end.
Definition resync_mining (core : ServerCore) (p : PlayerId) (session : PlayerSessionState)
    (e : EntityId) : option TargetedEvent :=
  m ← e_mining (entities core) !! e;
  if sees_chunk (view session) (block_chunk_pos (m_position m))
  then Some (to_player p (BlockBreakingProgress e (m_position m) (last_stage m) (m_duration_ms m)))
  else None.
Definition resync_window (p : PlayerId) (session : PlayerSessionState) (inv : PlayerInventory) :
    list TargetedEvent :=
  match active_container session with
  | Some w =>
      to_player p (InventoryContents (window_id w) (oc_kind (container w)) (window_contents_of w inv)) ::
      map (fun e => to_player p (ContainerPropertyChanged (window_id w) e.1 e.2)) (window_properties w)
  | None => [to_player p (InventoryContents 0 player_container_kind (contents_player inv))]
  end.

Definition session_resync_events (core : ServerCore) (p : PlayerId) : option (list TargetedEvent) :=
  match
    session ← s_sessions (sessions core) !! p;
    player ← compose_player_snapshot_by_entity (ss_entity_id session) core;
    inv ← e_inventory (entities core) !! ss_entity_id session;
    selected ← e_hotbar (entities core) !! ss_entity_id session;
    Some (session, player, inv, selected)
  with
  | None => Some []
  | Some (session, player, inv, selected) =>
      players ← mapM (resync_player core p session)
        (sorted_ids (dom (e_players (entities core))));
      items ← mapM (resync_item core p session) (sorted_ids (dom (e_dropped (entities core))));
      Some (
        [to_player p (PlayBootstrap player (ss_entity_id session) (w_meta (world core))
           (c_view_distance (w_config (world core))));
         to_player p (ChunkBatch (omap (fun c => w_chunks (world core) !! c)
           (sorted_chunks (loaded_chunks (view session)))))] ++
        omap id players ++ omap id items ++
        omap (resync_mining core p session) (sorted_ids (dom (e_mining (entities core)))) ++
        resync_window p session inv ++
        [to_player p (SelectedHotbarSlotChanged selected); to_player p (CursorChanged (cursor session))])
  end.

(** ** [ServerCore::snapshot] and the other reads ([mod.rs]) *)

Definition core_snapshot (core : ServerCore) : option WorldSnapshot :=
  players ← foldl (fun players p =>
    players ← players;
    '(persisted, _) ← persisted_online_player_snapshot_state p core;
    Some (match persisted with Some snapshot => <[p := snapshot]> players | None => players end))
    (Some (w_saved_players (world core))) (online_ids core);
  Some (mkWorldSnapshot (w_meta (world core)) (w_chunks (world core))
    (w_block_entities (world core)) players).

Definition player_summary (core : ServerCore) : Z * Z :=
  (len (online_ids core), c_max_players (w_config (world core))).

Definition can_edit_block (p : PlayerId) (position : BlockPos) (core : ServerCore) : bool :=
  match compose_player_snapshot p core with
  | Some player => can_edit_block_for_snapshot player position core
  | None => false
  end.
End Events.
