(* ===== verification/VoxelKeeps.v ===== *)
(** * What the handlers keep

    A handler that only goes through the interface keeps every property of the state that
    the operations of the interface keep: [StateKeeps] states that of a property for the
    operations that are harmless to it whatever their arguments, and the lemmas here carry
    it to the handlers.  Operations that create or remove entities are left to the users
    of the class. *)

From Stdlib Require Import Floats.SpecFloat.
From S2P Require Import Prelude VoxelModel VoxelItems VoxelState VoxelWindow VoxelClick VoxelWorld VoxelEvents VoxelOps.

Definition keeps {S A} (I : S -> Prop) (m : V S A) : Prop :=
  forall s a s', m s = Some (a, s') -> I s -> I s'.

Section Rules.
Context {S : Type} {I : S -> Prop}.

Lemma keeps_ret {A} (a : A) : keeps I (mret a).
Proof. by intros s b s' [= -> ->]. Qed.
Lemma keeps_bind {A B} (m : V S A) (f : A -> V S B) :
  keeps I m -> (forall a, keeps I (f a)) -> keeps I (m ≫= f).
Proof.
  intros Hm Hf s b s' H Hs. unfold mbind, V_bind in H.
  destruct (m s) as [[a s1]|] eqn:E; [|discriminate H]. cbn in H. eapply Hf; eauto.
Qed.
Lemma keeps_try_bind {A B} (m : V S (option A)) (f : A -> V S (option B)) :
  keeps I m -> (forall a, keeps I (f a)) -> keeps I (try_bind m f).
Proof. intros Hm Hf. apply keeps_bind; [done|]. intros [a|]; [apply Hf|apply keeps_ret]. Qed.
Lemma keeps_asks {A} (g : S -> A) : keeps I (asks g).
Proof. by intros s b s' [= <- <-]. Qed.
Lemma keeps_puts (g : S -> S) : (forall s, I s -> I (g s)) -> keeps I (puts g).
Proof. intros Hg s b s' [= <- <-]. apply Hg. Qed.
Lemma keeps_vlift {A} (o : option A) : keeps I (vlift o).
Proof. intros s b s'. unfold vlift. destruct o; [|discriminate]. by intros [= <- <-]. Qed.
Lemma keeps_vfor_each {A} (f : A -> V S unit) l : (forall a, keeps I (f a)) -> keeps I (vfor_each f l).
Proof. intros Hf. induction l as [|a l IH]; [apply keeps_ret|]. apply keeps_bind; [apply Hf|done]. Qed.
Lemma keeps_vmap {A B} (f : A -> V S B) l : (forall a, keeps I (f a)) -> keeps I (vmap f l).
Proof.
  intros Hf. induction l as [|a l IH]; [apply keeps_ret|]. apply keeps_bind; [apply Hf|]. intros b.
  apply keeps_bind; [done|]. intros bs. apply keeps_ret.
Qed.
End Rules.

(** The use of a session that leaves the entity alone. *)
Definition same_entity {A} (f : PlayerSessionState -> option (A * PlayerSessionState)) : Prop :=
  forall v a v', f v = Some (a, v') -> ss_entity_id v' = ss_entity_id v.
Definition same_entity2 {A} (f : PlayerSessionState -> PlayerInventory ->
    option (A * (PlayerSessionState * PlayerInventory))) : Prop :=
  forall v i a v' i', f v i = Some (a, (v', i')) -> ss_entity_id v' = ss_entity_id v.

Class StateKeeps (S : Type) `{CoreStateMut S} (I : S -> Prop) : Prop := {
  sk_ensure_chunk p : keeps I (ensure_chunk p);
  sk_set_block_state p b : keeps I (set_block_state p b);
  sk_set_block_entity p b : keeps I (set_block_entity p b);
  sk_session_mut {A} p (f : PlayerSessionState -> option (A * PlayerSessionState)) :
    same_entity f -> keeps I (player_session_mut p f);
  sk_session_inventory_mut {A} p (f : PlayerSessionState -> PlayerInventory ->
      option (A * (PlayerSessionState * PlayerInventory))) :
    same_entity2 f -> keeps I (player_session_inventory_mut p f);
  sk_transform_mut {A} e (f : PlayerTransform -> option (A * PlayerTransform)) :
    keeps I (player_transform_mut e f);
  sk_inventory_mut {A} e (f : PlayerInventory -> option (A * PlayerInventory)) :
    keeps I (player_inventory_mut e f);
  sk_hotbar_mut {A} e (f : Z -> option (A * Z)) : keeps I (player_selected_hotbar_mut e f);
  sk_mining_mut {A} e (f : ActiveMiningState -> option (A * ActiveMiningState)) :
    keeps I (player_active_mining_mut e f);
  sk_remove_mining e : keeps I (remove_player_active_mining e);
  sk_set_mining e m : keeps I (set_player_active_mining e m);
  sk_allocate_keep_alive_id : keeps I allocate_keep_alive_id;
  sk_set_viewers p v : keeps I (set_container_viewers p v)
}.

Create HintDb keeps.

Lemma bind_Some_intro {A B} (o : option A) (f : A -> option B) b :
  o ≫= f = Some b -> exists a, o = Some a /\ f a = Some b.
Proof. destruct o as [a|]; [eauto|discriminate]. Qed.

(** The uses of a session in the handlers. *)
Ltac session_use :=
  intros;
  repeat match goal with
  | H : _ ≫= _ = Some _ |- _ => apply bind_Some_intro in H as (? & ? & H)
  | H : context [match ?x with _ => _ end] |- _ => destruct x eqn:?
  end;
  simplify_eq; try done.

Lemma same_entity_close {CB : ContentBehavior} : same_entity2 close_active_container_window.
Proof. unfold same_entity2, close_active_container_window. session_use. Qed.

Lemma same_entity_click {CB : ContentBehavior} id kind target button :
  same_entity2 (click_session_inventory id kind target button).
Proof.
  intros v i a v' i' H. unfold click_session_inventory in H. cbn zeta in H.
  apply bind_Some_intro in H as ([applied [w j]] & Hc & H). simplify_eq.
  revert Hc. unfold apply_active_container_click. intros Hc. session_use.
Qed.

Ltac keeps_step :=
  lazymatch goal with
  | |- forall _, _ => intros ?
  | |- keeps _ (mbind _ _) => apply keeps_bind
  | |- keeps _ (fmap _ _) => apply keeps_bind
  | |- keeps _ (try_bind _ _) => apply keeps_try_bind
  | |- keeps _ (mret _) => apply keeps_ret
  | |- keeps _ (vlift _) => apply keeps_vlift
  | |- keeps _ (asks _) => apply keeps_asks
  | |- keeps _ (vmap _ _) => apply keeps_vmap
  | |- keeps _ (vfor_each _ _) => apply keeps_vfor_each
  | |- keeps _ (match ?x with _ => _ end) => destruct x
  | |- keeps _ _ =>
      first
        [ apply sk_ensure_chunk | apply sk_set_block_state | apply sk_set_block_entity
        | apply sk_session_mut; unfold same_entity; solve [session_use]
        | apply sk_session_inventory_mut;
          first [apply same_entity_close|apply same_entity_click
                |unfold same_entity2; solve [session_use]]
        | apply sk_transform_mut | apply sk_inventory_mut | apply sk_hotbar_mut
        | apply sk_mining_mut | apply sk_remove_mining | apply sk_set_mining
        | apply sk_allocate_keep_alive_id | apply sk_set_viewers
        | solve [auto with keeps]
        | solve [eauto with keeps typeclass_instances] ]
  end.
Ltac keeps_auto := repeat (cbv zeta; keeps_step).

Section Handlers.
Context {CB : ContentBehavior} {S : Type} `{MS : CoreStateMut S} {I : S -> Prop} `{SK : !StateKeeps S I}.

Lemma keeps_writeback w : keeps I (writeback_world_container_state w).
Proof. unfold writeback_world_container_state. keeps_auto. Qed.
Lemma keeps_register position p id kind :
  keeps I (register_world_container_viewer_state position p id kind).
Proof. unfold register_world_container_viewer_state. keeps_auto. Qed.
Lemma keeps_unregister_at position p :
  keeps I (unregister_world_container_viewer_at_state position p).
Proof. unfold unregister_world_container_viewer_at_state. keeps_auto. Qed.
Hint Resolve keeps_writeback keeps_register keeps_unregister_at : keeps.
Lemma keeps_unregister w p : keeps I (unregister_world_container_viewer_state w p).
Proof. unfold unregister_world_container_viewer_state. keeps_auto. Qed.
Hint Resolve keeps_unregister : keeps.
Lemma keeps_close_active p b : keeps I (close_player_active_container_state p b).
Proof. unfold close_player_active_container_state. keeps_auto. Qed.
Hint Resolve keeps_close_active : keeps.
Lemma keeps_close_window p id : keeps I (close_inventory_window_state p id).
Proof. unfold close_inventory_window_state. keeps_auto. Qed.
Lemma keeps_open_window p w title : keeps I (open_non_player_window_state p w title).
Proof. unfold open_non_player_window_state. keeps_auto. Qed.
Lemma keeps_build_world position kind : keeps I (build_world_container_state position kind).
Proof. unfold build_world_container_state. keeps_auto. Qed.
Hint Resolve keeps_close_window keeps_open_window keeps_build_world : keeps.
Lemma keeps_open_virtual p kind : keeps I (open_virtual_container_state p kind).
Proof. unfold open_virtual_container_state, allocate_non_player_window_id. keeps_auto. Qed.
Lemma keeps_open_world p position : keeps I (open_world_container_state p position).
Proof. unfold open_world_container_state, allocate_non_player_window_id. keeps_auto. Qed.
Lemma keeps_persisted p : keeps I (persisted_online_player_snapshot_state p).
Proof. unfold persisted_online_player_snapshot_state. keeps_auto. Qed.
Lemma keeps_sync_viewer position actor source viewer :
  keeps I (sync_viewer position actor source viewer).
Proof. unfold sync_viewer. keeps_auto. Qed.
Hint Resolve keeps_sync_viewer : keeps.
Lemma keeps_sync position actor : keeps I (sync_world_container_viewers_state position actor).
Proof. unfold sync_world_container_viewers_state. keeps_auto. Qed.
Hint Resolve keeps_sync : keeps.
Lemma keeps_tick_container p : keeps I (tick_active_container_state p).
Proof. unfold tick_active_container_state. keeps_auto. Qed.
Lemma keeps_close_viewers position : keeps I (close_world_container_viewers_state position).
Proof. unfold close_world_container_viewers_state. keeps_auto. Qed.
Hint Resolve keeps_close_viewers : keeps.
Lemma keeps_close_invalid position block :
  keeps I (close_world_container_if_invalid_state position block).
Proof. unfold close_world_container_if_invalid_state. keeps_auto. Qed.
Hint Resolve keeps_close_invalid : keeps.
Lemma keeps_merge_stack p stack : keeps I (merge_stack_into_online_player_inventory_state p stack).
Proof. unfold merge_stack_into_online_player_inventory_state. keeps_auto. Qed.
Lemma keeps_click p t g b v : keeps I (apply_inventory_click_state p t g b v).
Proof. unfold apply_inventory_click_state. keeps_auto. Qed.
Lemma keeps_clear_mining p : keeps I (state_clear_active_mining p).
Proof. unfold state_clear_active_mining. keeps_auto. Qed.
Hint Resolve keeps_clear_mining : keeps.
Lemma keeps_clear_mining_at position : keeps I (state_clear_active_mining_at position).
Proof. unfold state_clear_active_mining_at. keeps_auto. Qed.
Hint Resolve keeps_clear_mining_at : keeps.
Lemma keeps_begin_mining p position d now : keeps I (state_begin_mining p position d now).
Proof. unfold state_begin_mining. keeps_auto. Qed.
Lemma keeps_advance_mining p e position stage d :
  keeps I (state_advance_mining_stage p e position stage d).
Proof. unfold state_advance_mining_stage. keeps_auto. Qed.
Lemma keeps_set_block position block : keeps I (state_set_block position block).
Proof. unfold state_set_block. keeps_auto. Qed.
Lemma keeps_hotbar p slot : keeps I (state_selected_hotbar_slot p slot).
Proof. unfold state_selected_hotbar_slot. keeps_auto. Qed.
Lemma keeps_slot p slot stack : keeps I (state_inventory_slot p slot stack).
Proof. unfold state_inventory_slot. keeps_auto. Qed.
Lemma keeps_pose p v y t g : keeps I (state_player_pose p v y t g).
Proof. unfold state_player_pose. keeps_auto. Qed.
Lemma keeps_settings p d : keeps I (state_update_client_settings p d).
Proof. unfold state_update_client_settings. keeps_auto. Qed.
Lemma keeps_finalize c p : keeps I (finalize_login_delta c p).
Proof. unfold finalize_login_delta, initial_visible_chunks. keeps_auto. Qed.
Lemma keeps_accept p k : keeps I (accept_keep_alive_state p k).
Proof. unfold accept_keep_alive_state. keeps_auto. Qed.
Lemma keeps_schedule p now : keeps I (schedule_keep_alive_state p now).
Proof. unfold schedule_keep_alive_state. keeps_auto. Qed.
End Handlers.

#[export] Hint Resolve keeps_writeback keeps_unregister keeps_close_active keeps_close_window
  keeps_open_virtual keeps_open_world keeps_persisted keeps_tick_container keeps_merge_stack
  keeps_click keeps_clear_mining keeps_begin_mining keeps_advance_mining keeps_set_block
  keeps_hotbar keeps_slot keeps_pose keeps_settings keeps_finalize keeps_accept keeps_schedule : keeps.

(** The operations that neither create nor remove an entity. *)
Definition op_harmless (op : CoreOp) : bool :=
  match op with
  | PrepareLogin _ _ _ | CompleteMining _ _ | TickDroppedItem _ | SpawnDroppedItem _ _ _
  | DisconnectPlayer _ => false
  | _ => true
  end.

Lemma keeps_reduce {CB : ContentBehavior} {St : Type} `{MS : CoreStateMut St} {I : St -> Prop}
    `{SK : !StateKeeps St I} now finalized op :
  op_harmless op = true -> keeps I (reduce_core_op now finalized op).
Proof.
  intros Hop. destruct op; try discriminate Hop; cbn [reduce_core_op]; unfold close_container_op;
    keeps_auto.
Qed.
