(* ===== verification/VoxelRefine.v ===== *)
(** * What runs on an overlay runs on the core

    Every handler of [VoxelWindow], [VoxelClick] and [VoxelWorld], and with them
    [reduce_core_op], does on a state what it does on the state it stands for, for any
    pair of states related by [StateRefines]; so an operation previewed on a transaction's
    overlay has the effect and the report it has on the core. *)

From Stdlib Require Import Floats.SpecFloat.
From S2P Require Import Prelude VoxelModel VoxelItems VoxelContent VoxelState VoxelOverlay VoxelWindow VoxelClick VoxelWorld VoxelEvents VoxelOps.

Lemma filter_bool_ext {A} (f g : A -> bool) (l : list A) :
  (forall x, f x = g x) -> filter (fun x => f x = true) l = filter (fun x => g x = true) l.
Proof. intros H. apply list_filter_iff. intros x. by rewrite H. Qed.

Lemma existsb_pointwise {A} (f g : A -> bool) l : (forall x, f x = g x) -> existsb f l = existsb g l.
Proof. intros H. induction l as [|x l IH]; [done|]. cbn. by rewrite H, IH. Qed.

Section Refine.
Context {CB : ContentBehavior} {S T : Type} `{MS : CoreStateMut S} `{MT : CoreStateMut T} {abs : S -> T}.
Context `{RF : !StateRefines S T abs}.

(** ** Reads *)

Lemma rf_compose_by_entity e s :
  compose_player_snapshot_by_entity e (abs s) = compose_player_snapshot_by_entity e s.
Proof.
  unfold compose_player_snapshot_by_entity.
  by rewrite rf_identity, rf_transform, rf_vitals, rf_inventory, rf_hotbar.
Qed.
Lemma rf_compose p s : compose_player_snapshot p (abs s) = compose_player_snapshot p s.
Proof.
  unfold compose_player_snapshot. rewrite rf_player_entity_id.
  destruct (player_entity_id p s); [apply rf_compose_by_entity|done].
Qed.
Lemma rf_player_inventory p s : player_inventory p (abs s) = player_inventory p s.
Proof.
  unfold player_inventory. rewrite rf_player_entity_id.
  destruct (player_entity_id p s); [apply rf_inventory|done].
Qed.
Lemma rf_selected_hotbar p s : player_selected_hotbar p (abs s) = player_selected_hotbar p s.
Proof.
  unfold player_selected_hotbar. rewrite rf_player_entity_id.
  destruct (player_entity_id p s); [apply rf_hotbar|done].
Qed.
Lemma rf_player_transform p s : player_transform p (abs s) = player_transform p s.
Proof.
  unfold player_transform. rewrite rf_player_entity_id.
  destruct (player_entity_id p s); [apply rf_transform|done].
Qed.
Lemma rf_active_mining p s : player_active_mining p (abs s) = player_active_mining p s.
Proof.
  unfold player_active_mining. rewrite rf_player_entity_id.
  destruct (player_entity_id p s); [apply rf_mining|done].
Qed.

Lemma rf_mines_at position p s : mines_at position (abs s) p = mines_at position s p.
Proof. unfold mines_at. by rewrite rf_active_mining. Qed.
Lemma rf_observe_other b a v w p s :
  observe_other b a v w (abs s) p = observe_other b a v w s p.
Proof. unfold observe_other. by rewrite rf_player_session, rf_compose. Qed.
Lemma rf_observe_item v w e s : observe_item v w (abs s) e = observe_item v w s e.
Proof. unfold observe_item. by rewrite rf_dropped. Qed.
Lemma rf_observe_login v player p s :
  observe_login v player (abs s) p = observe_login v player s p.
Proof. unfold observe_login. by rewrite rf_player_session, rf_compose. Qed.
Lemma rf_observe_login_item v e s : observe_login_item v (abs s) e = observe_login_item v s e.
Proof. unfold observe_login_item. by rewrite rf_dropped. Qed.

(** *** Dropped items *)

Lemma rf_rest_y n x z s : rest_y_below n x z (abs s) = rest_y_below n x z s.
Proof. induction n as [|n IH]; cbn [rest_y_below]; rewrite rf_block_state; by rewrite ?IH. Qed.
Lemma rf_advance_step s item :
  advance_dropped_item_step (abs s) item = advance_dropped_item_step s item.
Proof. unfold advance_dropped_item_step, dropped_item_rest_y. by rewrite rf_rest_y. Qed.
Lemma rf_advance_entity now s item :
  advance_dropped_item_entity now (abs s) item = advance_dropped_item_entity now s item.
Proof.
  unfold advance_dropped_item_entity. cbn zeta. case_match; [done|]. do 2 f_equal.
  generalize (d_snapshot item). induction (Z.to_nat _) as [|n IH]; intros i; [done|].
  cbn [Nat.iter nat_rect]. unfold Nat.iter in IH. by rewrite IH, rf_advance_step.
Qed.
Lemma rf_nearest position s :
  nearest_pickup_player_in position (abs s) = nearest_pickup_player_in position s.
Proof.
  unfold nearest_pickup_player_in. rewrite rf_player_ids. f_equal. generalize (@None (PlayerId * spec_float)).
  induction (player_ids s) as [|p l IH]; intros b; [done|]. cbn [foldl].
  unfold closer at 2 4. rewrite rf_player_transform. apply IH.
Qed.

(** ** Handlers *)

(** A read of the abstract state is the read of the concrete one. *)
Ltac sim_read :=
  rewrite ?rf_config, ?rf_world_meta, ?rf_block_state, ?rf_block_entity, ?rf_saved_player,
    ?rf_player_entity_id, ?rf_player_session, ?rf_identity, ?rf_transform, ?rf_vitals,
    ?rf_inventory, ?rf_hotbar, ?rf_mining, ?rf_dropped, ?rf_player_ids, ?rf_dropped_ids,
    ?rf_viewers, ?rf_interval, ?rf_compose_by_entity, ?rf_compose, ?rf_player_inventory,
    ?rf_selected_hotbar, ?rf_player_transform, ?rf_active_mining, ?rf_advance_entity, ?rf_nearest;
  first
    [ done
    | apply mapM_ext; intros ?;
      first [apply rf_observe_other|apply rf_observe_item|apply rf_observe_login
            |apply rf_observe_login_item]
    | apply filter_bool_ext; intros ?; apply rf_mines_at ].

(** One step of a refinement proof: a rule for the head of the handler, a law of the
    interface, or a lemma of the hint database. *)
Ltac sim_step :=
  lazymatch goal with
  | |- forall _, _ => intros ?
  | |- sim _ (mbind _ _) _ => apply sim_bind
  | |- sim _ (fmap _ _) _ => apply sim_bind
  | |- sim _ (try_bind _ _) _ => apply sim_try_bind
  | |- sim _ (mret _) _ => apply sim_ret
  | |- sim _ (vlift _) _ => apply sim_vlift
  | |- sim _ (asks _) _ => apply sim_asks; intros ?; sim_read
  | |- sim _ (vmap _ _) _ => apply sim_vmap
  | |- sim _ (vfor_each _ _) _ => apply sim_vfor_each
  | |- sim _ (match ?x with _ => _ end) _ => destruct x
  | |- sim _ _ _ =>
      first
        [ apply rf_ensure_chunk | apply rf_set_block_state | apply rf_set_block_entity
        | apply rf_session_mut | apply rf_session_inventory_mut | apply rf_transform_mut
        | apply rf_inventory_mut | apply rf_hotbar_mut | apply rf_mining_mut
        | apply rf_remove_mining | apply rf_set_mining | apply rf_allocate_entity_id
        | apply rf_allocate_keep_alive_id | apply rf_set_kind | apply rf_set_dropped
        | apply rf_take_dropped | apply rf_set_saved | apply rf_set_viewers | apply rf_remove
        | solve [auto with sim] ]
  end.
Ltac sim_auto := repeat (cbv zeta; sim_step).

Lemma sim_writeback w : sim abs (writeback_world_container_state w) (writeback_world_container_state w).
Proof. unfold writeback_world_container_state. sim_auto. Qed.
Lemma sim_register position p id kind :
  sim abs (register_world_container_viewer_state position p id kind)
    (register_world_container_viewer_state position p id kind).
Proof. unfold register_world_container_viewer_state. sim_auto. Qed.
Lemma sim_unregister_at position p :
  sim abs (unregister_world_container_viewer_at_state position p)
    (unregister_world_container_viewer_at_state position p).
Proof. unfold unregister_world_container_viewer_at_state. sim_auto. Qed.
Hint Resolve sim_writeback sim_register sim_unregister_at : sim.
Lemma sim_unregister w p : sim abs (unregister_world_container_viewer_state w p)
  (unregister_world_container_viewer_state w p).
Proof. unfold unregister_world_container_viewer_state. sim_auto. Qed.
Hint Resolve sim_unregister : sim.
Lemma sim_close_active p b :
  sim abs (close_player_active_container_state p b) (close_player_active_container_state p b).
Proof. unfold close_player_active_container_state. sim_auto. Qed.
Hint Resolve sim_close_active : sim.
Lemma sim_close_window p id :
  sim abs (close_inventory_window_state p id) (close_inventory_window_state p id).
Proof. unfold close_inventory_window_state. sim_auto. Qed.
Lemma sim_open_window p w title :
  sim abs (open_non_player_window_state p w title) (open_non_player_window_state p w title).
Proof. unfold open_non_player_window_state. sim_auto. Qed.
Lemma sim_build_world position kind :
  sim abs (build_world_container_state position kind) (build_world_container_state position kind).
Proof. unfold build_world_container_state. sim_auto. Qed.
Hint Resolve sim_close_window sim_open_window sim_build_world : sim.
Lemma sim_open_virtual p kind :
  sim abs (open_virtual_container_state p kind) (open_virtual_container_state p kind).
Proof. unfold open_virtual_container_state, allocate_non_player_window_id. sim_auto. Qed.
Lemma sim_open_world p position :
  sim abs (open_world_container_state p position) (open_world_container_state p position).
Proof. unfold open_world_container_state, allocate_non_player_window_id. sim_auto. Qed.
Lemma sim_persisted p : sim abs (persisted_online_player_snapshot_state p)
  (persisted_online_player_snapshot_state p).
Proof. unfold persisted_online_player_snapshot_state. sim_auto. Qed.
Lemma sim_sync_viewer position actor source viewer :
  sim abs (sync_viewer position actor source viewer) (sync_viewer position actor source viewer).
Proof. unfold sync_viewer. sim_auto. Qed.
Hint Resolve sim_persisted sim_sync_viewer : sim.
Lemma sim_sync position actor : sim abs (sync_world_container_viewers_state position actor)
  (sync_world_container_viewers_state position actor).
Proof. unfold sync_world_container_viewers_state. sim_auto. Qed.
Hint Resolve sim_sync : sim.
Lemma sim_tick_container p :
  sim abs (tick_active_container_state p) (tick_active_container_state p).
Proof. unfold tick_active_container_state. sim_auto. Qed.
Lemma sim_close_viewers position :
  sim abs (close_world_container_viewers_state position) (close_world_container_viewers_state position).
Proof. unfold close_world_container_viewers_state. sim_auto. Qed.
Hint Resolve sim_close_viewers : sim.
Lemma sim_close_invalid position block :
  sim abs (close_world_container_if_invalid_state position block)
    (close_world_container_if_invalid_state position block).
Proof. unfold close_world_container_if_invalid_state. sim_auto. Qed.
Hint Resolve sim_close_invalid : sim.
Lemma sim_merge_stack p stack :
  sim abs (merge_stack_into_online_player_inventory_state p stack)
    (merge_stack_into_online_player_inventory_state p stack).
Proof. unfold merge_stack_into_online_player_inventory_state. sim_auto. Qed.
Hint Resolve sim_merge_stack : sim.
Lemma sim_tick_item e now :
  sim abs (tick_dropped_item_state e now) (tick_dropped_item_state e now).
Proof. unfold tick_dropped_item_state. sim_auto. Qed.
Lemma sim_click p t g b v :
  sim abs (apply_inventory_click_state p t g b v) (apply_inventory_click_state p t g b v).
Proof. unfold apply_inventory_click_state. sim_auto. Qed.
Lemma sim_clear_mining p :
  sim abs (state_clear_active_mining p) (state_clear_active_mining p).
Proof. unfold state_clear_active_mining. sim_auto. Qed.
Hint Resolve sim_clear_mining : sim.
Lemma sim_clear_mining_at position :
  sim abs (state_clear_active_mining_at position) (state_clear_active_mining_at position).
Proof. unfold state_clear_active_mining_at. sim_auto. Qed.
Hint Resolve sim_clear_mining_at : sim.
Lemma sim_begin_mining p position d now :
  sim abs (state_begin_mining p position d now) (state_begin_mining p position d now).
Proof. unfold state_begin_mining. sim_auto. Qed.
Lemma sim_advance_mining p e position stage d :
  sim abs (state_advance_mining_stage p e position stage d)
    (state_advance_mining_stage p e position stage d).
Proof. unfold state_advance_mining_stage. sim_auto. Qed.
Lemma sim_set_block position block :
  sim abs (state_set_block position block) (state_set_block position block).
Proof. unfold state_set_block. sim_auto. Qed.
Lemma sim_spawn_item position item now :
  sim abs (state_spawn_dropped_item position item now) (state_spawn_dropped_item position item now).
Proof. unfold state_spawn_dropped_item. sim_auto. Qed.
Lemma sim_hotbar p slot :
  sim abs (state_selected_hotbar_slot p slot) (state_selected_hotbar_slot p slot).
Proof. unfold state_selected_hotbar_slot. sim_auto. Qed.
Lemma sim_slot p slot stack :
  sim abs (state_inventory_slot p slot stack) (state_inventory_slot p slot stack).
Proof. unfold state_inventory_slot. sim_auto. Qed.
Lemma sim_pose p v y t g : sim abs (state_player_pose p v y t g) (state_player_pose p v y t g).
Proof. unfold state_player_pose. sim_auto. Qed.
Lemma sim_settings p d :
  sim abs (state_update_client_settings p d) (state_update_client_settings p d).
Proof. unfold state_update_client_settings. sim_auto. Qed.
Lemma sim_finalize c p : sim abs (finalize_login_delta c p) (finalize_login_delta c p).
Proof. unfold finalize_login_delta, initial_visible_chunks. sim_auto. Qed.
Lemma sim_accept p k : sim abs (accept_keep_alive_state p k) (accept_keep_alive_state p k).
Proof. unfold accept_keep_alive_state. sim_auto. Qed.
Lemma sim_schedule p now : sim abs (schedule_keep_alive_state p now) (schedule_keep_alive_state p now).
Proof. unfold schedule_keep_alive_state. sim_auto. Qed.
Lemma sim_disconnect p : sim abs (disconnect_player_state p) (disconnect_player_state p).
Proof. unfold disconnect_player_state. sim_auto. Qed.

(** ** Completing a mining

    The only handler that asks for the entity ids of all the players, which an overlay may
    list with a stale one; it refines where the two agree. *)

Lemma rf_can_edit actor position s :
  player_entity_ids (abs s) = player_entity_ids s ->
  can_edit_block_for_snapshot actor position (abs s) = can_edit_block_for_snapshot actor position s.
Proof.
  intros Hids. unfold can_edit_block_for_snapshot. rewrite Hids.
  rewrite (existsb_pointwise _ (fun e => match player_transform_by_entity e s with
    | Some t => block_intersects_player position t | None => false end)); [done|].
  intros e. by rewrite rf_transform.
Qed.

(** Refinement at one state. *)
Definition sim_at {A} (s : S) (m1 : V S A) (m2 : V T A) : Prop :=
  m2 (abs s) = (fun r => (r.1, abs r.2)) <$> m1 s.
Lemma sim_at_asks {A B} s (g1 : S -> A) (g2 : T -> A) (f1 : A -> V S B) (f2 : A -> V T B) :
  g2 (abs s) = g1 s -> sim_at s (f1 (g1 s)) (f2 (g1 s)) ->
  sim_at s (asks g1 ≫= f1) (asks g2 ≫= f2).
Proof. unfold sim_at. intros Hg Hf. unfold mbind, V_bind, asks. cbn. by rewrite Hg. Qed.
Lemma sim_at_try {A B} s (g1 : S -> option A) (g2 : T -> option A)
    (f1 : A -> V S (option B)) (f2 : A -> V T (option B)) :
  g2 (abs s) = g1 s -> (forall a, sim_at s (f1 a) (f2 a)) ->
  sim_at s (try_bind (asks g1) f1) (try_bind (asks g2) f2).
Proof. intros Hg Hf. apply sim_at_asks; [done|]. by destruct (g1 s). Qed.

Hint Resolve sim_set_block sim_spawn_item : sim.
Lemma rf_complete_mining p position now s :
  player_entity_ids (abs s) = player_entity_ids s ->
  sim_at s (state_complete_survival_mining p position now)
    (state_complete_survival_mining p position now).
Proof.
  intros Hids. unfold state_complete_survival_mining.
  apply sim_at_try; [apply rf_compose|]. intros player.
  apply sim_at_try; [apply rf_active_mining|]. intros m.
  case_match; [done|].
  apply sim_at_asks; [apply rf_block_state|].
  apply sim_at_asks; [by apply rf_can_edit|].
  apply sim_at_asks; [apply rf_block_entity|].
  generalize (can_edit_block_for_snapshot player position s), (block_entity position s),
    (block_state position s). intros can_edit entity current.
  match goal with |- sim_at ?s ?m1 ?m2 => enough (sim abs m1 m2) as Hsim by apply Hsim end.
  sim_auto.
Qed.

(** ** Every operation *)

Definition op_expected_ok (op : CoreOp) : Prop :=
  match op with PrepareLogin _ _ e => expected_ok (Some e) | _ => True end.
Definition is_complete_mining (op : CoreOp) : bool :=
  match op with CompleteMining _ _ => true | _ => false end.

Hint Resolve sim_persisted sim_tick_container sim_tick_item sim_click sim_begin_mining
  sim_advance_mining sim_hotbar sim_slot sim_pose sim_settings sim_finalize sim_accept
  sim_schedule sim_disconnect sim_open_virtual sim_open_world : sim.

Lemma sim_reduce now finalized op :
  op_expected_ok op -> is_complete_mining op = false ->
  sim abs (reduce_core_op now finalized op) (reduce_core_op now finalized op).
Proof.
  intros Hok Hop.
  destruct op; cbn [reduce_core_op]; try discriminate Hop; unfold close_container_op; sim_auto.
  by apply rf_spawn.
Qed.
End Refine.

(** C1: Previewing is executing: whatever operation runs on a transaction's overlay, in
    whatever state the overlay is, it panics exactly when it would panic on the core the
    overlay stands for, reports the same, and leaves an overlay that stands for the core
    the operation leaves.  Completing a mining, which no transaction does, needs in
    addition that the overlay lists the entity ids of the players without a stale one. *)
Theorem preview_refines_core {CB : ContentBehavior} now finalized op (s : OverlayState) :
  op_expected_ok op ->
  (is_complete_mining op = true -> player_entity_ids (materialized s) = player_entity_ids s) ->
  reduce_core_op now finalized op (materialized s) =
    (fun r => (r.1, materialized r.2)) <$> reduce_core_op now finalized op s.
Proof.
  intros Hok Hids. destruct (is_complete_mining op) eqn:E; [|by apply sim_reduce].
  destruct op; try discriminate E. cbn [reduce_core_op].
  pose proof (rf_complete_mining player_id position now s (Hids eq_refl)) as Hsim.
  unfold sim_at in Hsim. unfold fmap at 1 3, V_fmap, mbind, V_bind.
  rewrite Hsim. by destruct (state_complete_survival_mining player_id position now s) as [[? ?]|].
Qed.

Definition sample_config : CoreConfig := mkConfig "world" 1 20 1 0 1 (mkBlockPos 0 4 0).
Definition sample_player : PlayerSnapshot :=
  default_player 7 "alex" (mkBlockPos 0 4 0) creative_starter_inventory.
Definition sample_login : CoreOp := PrepareLogin 7 sample_player 1.

Lemma preview_refines_core_witness :
  reduce_core_op 50 {[7]} sample_login (materialized (mkOverlayState (core_new sample_config) overlay_default)) =
    (fun r => (r.1, materialized r.2)) <$>
      reduce_core_op 50 {[7]} sample_login (mkOverlayState (core_new sample_config) overlay_default) /\
  (ss_entity_id <$> ('(_, s) ← reduce_core_op 50 {[7]} sample_login
    (mkOverlayState (core_new sample_config) overlay_default); player_session 7 s)) = Some 1.
Proof.
  split; [|vm_compute; reflexivity].
  refine (preview_refines_core 50 {[7]} sample_login _ _ _).
  - cbn. unfold i32_max. lia.
  - intros [=].
Defined.
