(* ===== verification/VoxelTx.v ===== *)
(** * Transactions and commands
    ([crates/core/revy-voxel-core/src/core/transaction.rs], [.../command.rs],
    [crates/core/revy-voxel-semantic/src/gameplay.rs])

    A gameplay transaction previews its operations on an overlay, records what it read of
    the core, and keeps a journal of the operations; committing checks that the core still
    has what was read and replays the journal on it.  The built-in commands, the effects of
    a gameplay plugin and the logins all go this way.  [None] is a panic; committing to an
    exclusively borrowed core panics on a conflict. *)

From Stdlib Require Import Floats.SpecFloat.
From S2P Require Import Prelude VoxelModel VoxelItems VoxelState VoxelOverlay VoxelWindow VoxelClick VoxelWorld VoxelEvents VoxelOps.

#[export] Instance DimensionId_eq_dec : EqDecision DimensionId.
Proof. solve_decision. Defined.
#[export] Instance WorldMeta_eq_dec : EqDecision WorldMeta.
Proof. solve_decision. Defined.

(** ** Equality of player snapshots

    [PartialEq] of a struct with floating-point fields: IEEE equality there, so that a
    snapshot with a NaN is not equal to itself. *)

Definition vec3_eqb (a b : Vec3) : bool :=
  SFeqb (vx a) (vx b) && SFeqb (vy a) (vy b) && SFeqb (vz a) (vz b).
Definition snapshot_eqb (a b : PlayerSnapshot) : bool :=
  (p_id a =? p_id b) && String.eqb (username a) (username b) && vec3_eqb (position a) (position b) &&
  SFeqb (yaw a) (yaw b) && SFeqb (pitch a) (pitch b) && Bool.eqb (on_ground a) (on_ground b) &&
  bool_decide (dimension a = dimension b) && SFeqb (health a) (health b) && (food a =? food b) &&
  SFeqb (food_saturation a) (food_saturation b) && bool_decide (inventory a = inventory b) &&
  (selected_hotbar_slot a =? selected_hotbar_slot b).
Definition option_eqb {A} (eqb : A -> A -> bool) (a b : option A) : bool :=
  match a, b with
  | Some a, Some b => eqb a b
  | None, None => true
  | _, _ => false
  end.

(** ** What a transaction has read *)

Record GameplayReadSet : Type := mkReads {
  r_world_meta : option WorldMeta;
  r_player_snapshots : gmap PlayerId (option PlayerSnapshot);
  r_block_states : gmap BlockPos (option BlockState);
  r_block_entities : gmap BlockPos (option BlockEntityState);
  r_can_edit_block : gmap (PlayerId * BlockPos) bool;
  r_online_player_count : option Z;
  r_saved_players : gmap PlayerId (option PlayerSnapshot);
  r_player_entity_ids : gmap PlayerId (option EntityId);
  r_next_entity_id : option Z
}.
Definition no_reads : GameplayReadSet := mkReads None ∅ ∅ ∅ ∅ None ∅ ∅ None.

(** [for (k, v) in map { if current(k) != v { return false; } }] *)
Definition all_entries `{Countable K} {A} (ok : K -> A -> bool) (m : gmap K A) : bool :=
  forallb (fun e => ok e.1 e.2) (map_to_list m).
Definition if_read {A} (ok : A -> bool) (o : option A) : bool :=
  match o with Some a => ok a | None => true end.

Definition may_edit {CB : ContentBehavior} {S : Type} `{CoreStateRead S} (p : PlayerId) (b : BlockPos)
    (s : S) : bool :=
  match compose_player_snapshot p s with
  | Some player => can_edit_block_for_snapshot player b s
  | None => false
  end.

Section Transaction.
Context {CB : ContentBehavior}.

Definition reads_match (r : GameplayReadSet) (core : ServerCore) : bool :=
  if_read (fun m => bool_decide (world_meta core = m)) (r_world_meta r) &&
  all_entries (fun p o => option_eqb snapshot_eqb (compose_player_snapshot p core) o)
    (r_player_snapshots r) &&
  all_entries (fun b o => bool_decide (block_state b core = o)) (r_block_states r) &&
  all_entries (fun b o => bool_decide (block_entity b core = o)) (r_block_entities r) &&
  all_entries (fun k allowed => Bool.eqb (may_edit k.1 k.2 core) allowed) (r_can_edit_block r) &&
  if_read (fun n => online_player_count core =? n) (r_online_player_count r) &&
  all_entries (fun p o => option_eqb snapshot_eqb (saved_player p core) o) (r_saved_players r) &&
  all_entries (fun p o => bool_decide (player_entity_id p core = o)) (r_player_entity_ids r) &&
  if_read (fun n => e_next_id (entities core) =? n) (r_next_entity_id r).

Record GameplayJournal : Type := mkJournal {
  j_now_ms : Z; j_ops : list CoreOp; j_read_set : GameplayReadSet
}.
Definition empty_journal (now_ms : Z) : GameplayJournal := mkJournal now_ms [] no_reads.

Inductive GameplayApplyResult : Type := Applied (events : list TargetedEvent) | Conflict.

(** [live_base] is the exclusively borrowed core, which stays as it was; [state] is the
    snapshot and the overlay. *)
Record GameplayTransaction : Type := mkTx {
  live_base : option ServerCore;
  state : OverlayState;
  now_ms : Z;
  prepared_players : gmap PlayerId EntityId;
  tx_finalized_players : gset PlayerId;
  journal : list CoreOp;
  read_set : GameplayReadSet
}.
Definition tx_new (base : ServerCore) (now_ms : Z) : GameplayTransaction :=
  mkTx (Some base) (mkOverlayState base overlay_default) now_ms ∅ ∅ [] no_reads.
Definition tx_detached (snapshot : ServerCore) (now_ms : Z) : GameplayTransaction :=
  mkTx None (mkOverlayState snapshot overlay_default) now_ms ∅ ∅ [] no_reads.

Definition set_state (s : OverlayState) (tx : GameplayTransaction) : GameplayTransaction :=
  mkTx (live_base tx) s (now_ms tx) (prepared_players tx) (tx_finalized_players tx) (journal tx)
    (read_set tx).
Definition set_reads (r : GameplayReadSet) (tx : GameplayTransaction) : GameplayTransaction :=
  mkTx (live_base tx) (state tx) (now_ms tx) (prepared_players tx) (tx_finalized_players tx)
    (journal tx) r.
Definition push_op (op : CoreOp) (tx : GameplayTransaction) : GameplayTransaction :=
  mkTx (live_base tx) (state tx) (now_ms tx) (prepared_players tx) (tx_finalized_players tx)
    (journal tx ++ [op]) (read_set tx).
Definition add_prepared (p : PlayerId) (e : EntityId) (tx : GameplayTransaction) : GameplayTransaction :=
  mkTx (live_base tx) (state tx) (now_ms tx) (<[p := e]> (prepared_players tx))
    (tx_finalized_players tx) (journal tx) (read_set tx).
Definition add_finalized (p : PlayerId) (tx : GameplayTransaction) : GameplayTransaction :=
  mkTx (live_base tx) (state tx) (now_ms tx) (prepared_players tx)
    ({[p]} ∪ tx_finalized_players tx) (journal tx) (read_set tx).

(** ** What the overlay touches *)

Definition in_map `{Countable K} {A} (k : K) (m : gmap K A) : bool := bool_decide (is_Some (m !! k)).

Definition overlay_touches_block (b : BlockPos) (tx : GameplayTransaction) : bool :=
  in_map (block_chunk_pos b) (o_chunks (overlay (state tx))).
Definition overlay_touches_block_entity (b : BlockPos) (tx : GameplayTransaction) : bool :=
  in_map b (o_block_entities (overlay (state tx))) || overlay_touches_block b tx.
Definition overlay_touches_player (p : PlayerId) (tx : GameplayTransaction) : bool :=
  let o := overlay (state tx) in
  if in_map p (o_saved_players o) || in_map p (o_players o) || in_map p (o_sessions o) then true
  else
    let e := match mjoin (o_players o !! p) with
             | Some e => Some e
             | None => player_entity_id p (base (state tx))
             end in
    match e with
    | None => false
    | Some e =>
        in_map e (o_identity o) || in_map e (o_transform o) || in_map e (o_vitals o) ||
        in_map e (o_inventory o) || in_map e (o_hotbar o) || in_map e (o_mining o)
    end.
Definition overlay_may_affect_can_edit_block (p : PlayerId) (b : BlockPos) (tx : GameplayTransaction) :
    bool :=
  let o := overlay (state tx) in
  overlay_touches_player p tx || overlay_touches_block b tx ||
  negb (bool_decide (o_transform o = ∅)) || negb (bool_decide (o_players o = ∅)) ||
  negb (bool_decide (o_kinds o = ∅)).

(** ** Reading *)

(** [entry(k).or_insert(v)], [get_or_insert(v)] *)
Definition or_insert `{Countable K} {A} (k : K) (a : A) (m : gmap K A) : gmap K A :=
  match m !! k with Some _ => m | None => <[k := a]> m end.
Definition get_or_insert {A} (a : A) (o : option A) : option A :=
  match o with Some _ => o | None => Some a end.

Definition note (f : GameplayReadSet -> GameplayReadSet) : V GameplayTransaction unit :=
  puts (fun tx => set_reads (f (read_set tx)) tx).
Definition note_world_meta (m : WorldMeta) (r : GameplayReadSet) : GameplayReadSet :=
  mkReads (get_or_insert m (r_world_meta r)) (r_player_snapshots r) (r_block_states r)
    (r_block_entities r) (r_can_edit_block r) (r_online_player_count r) (r_saved_players r)
    (r_player_entity_ids r) (r_next_entity_id r).
Definition note_player (p : PlayerId) (o : option PlayerSnapshot) (r : GameplayReadSet) :
    GameplayReadSet :=
  mkReads (r_world_meta r) (or_insert p o (r_player_snapshots r)) (r_block_states r)
    (r_block_entities r) (r_can_edit_block r) (r_online_player_count r) (r_saved_players r)
    (r_player_entity_ids r) (r_next_entity_id r).
Definition note_block (b : BlockPos) (o : option BlockState) (r : GameplayReadSet) : GameplayReadSet :=
  mkReads (r_world_meta r) (r_player_snapshots r) (or_insert b o (r_block_states r))
    (r_block_entities r) (r_can_edit_block r) (r_online_player_count r) (r_saved_players r)
    (r_player_entity_ids r) (r_next_entity_id r).
Definition note_block_entity (b : BlockPos) (o : option BlockEntityState) (r : GameplayReadSet) :
    GameplayReadSet :=
  mkReads (r_world_meta r) (r_player_snapshots r) (r_block_states r)
    (or_insert b o (r_block_entities r)) (r_can_edit_block r) (r_online_player_count r)
    (r_saved_players r) (r_player_entity_ids r) (r_next_entity_id r).
Definition note_can_edit (p : PlayerId) (b : BlockPos) (allowed : bool) (r : GameplayReadSet) :
    GameplayReadSet :=
  mkReads (r_world_meta r) (r_player_snapshots r) (r_block_states r) (r_block_entities r)
    (or_insert (p, b) allowed (r_can_edit_block r)) (r_online_player_count r) (r_saved_players r)
    (r_player_entity_ids r) (r_next_entity_id r).
Definition note_online_count (n : Z) (r : GameplayReadSet) : GameplayReadSet :=
  mkReads (r_world_meta r) (r_player_snapshots r) (r_block_states r) (r_block_entities r)
    (r_can_edit_block r) (get_or_insert n (r_online_player_count r)) (r_saved_players r)
    (r_player_entity_ids r) (r_next_entity_id r).
Definition note_saved (p : PlayerId) (o : option PlayerSnapshot) (r : GameplayReadSet) :
    GameplayReadSet :=
  mkReads (r_world_meta r) (r_player_snapshots r) (r_block_states r) (r_block_entities r)
    (r_can_edit_block r) (r_online_player_count r) (or_insert p o (r_saved_players r))
    (r_player_entity_ids r) (r_next_entity_id r).
Definition note_entity_id (p : PlayerId) (o : option EntityId) (r : GameplayReadSet) : GameplayReadSet :=
  mkReads (r_world_meta r) (r_player_snapshots r) (r_block_states r) (r_block_entities r)
    (r_can_edit_block r) (r_online_player_count r) (r_saved_players r)
    (or_insert p o (r_player_entity_ids r)) (r_next_entity_id r).
Definition note_next_entity (n : Z) (r : GameplayReadSet) : GameplayReadSet :=
  mkReads (r_world_meta r) (r_player_snapshots r) (r_block_states r) (r_block_entities r)
    (r_can_edit_block r) (r_online_player_count r) (r_saved_players r)
    (r_player_entity_ids r) (get_or_insert n (r_next_entity_id r)).

Definition viewing {A} (g : OverlayState -> A) : V GameplayTransaction A := asks (fun tx => g (state tx)).
(** [if !touched { record }] *)
Definition note_unless (touched : GameplayTransaction -> bool) (f : GameplayReadSet -> GameplayReadSet) :
    V GameplayTransaction unit :=
  t ← asks touched; if (t : bool) then mret tt else note f.

Definition tx_world_meta : V GameplayTransaction WorldMeta :=
  m ← viewing world_meta; note (note_world_meta m) ;; mret m.
Definition tx_player_snapshot (p : PlayerId) : V GameplayTransaction (option PlayerSnapshot) :=
  o ← viewing (compose_player_snapshot p);
  note_unless (overlay_touches_player p) (note_player p o) ;; mret o.
Definition tx_block_state (b : BlockPos) : V GameplayTransaction (option BlockState) :=
  o ← viewing (block_state b); note_unless (overlay_touches_block b) (note_block b o) ;; mret o.
Definition tx_block_entity (b : BlockPos) : V GameplayTransaction (option BlockEntityState) :=
  o ← viewing (block_entity b);
  note_unless (overlay_touches_block_entity b) (note_block_entity b o) ;; mret o.
Definition tx_can_edit_block (p : PlayerId) (b : BlockPos) : V GameplayTransaction bool :=
  allowed ← viewing (may_edit p b);
  note_unless (overlay_may_affect_can_edit_block p b) (note_can_edit p b allowed) ;; mret allowed.

(** ** Writing *)

Definition preview (op : CoreOp) (materialized_players : gset PlayerId) : V GameplayTransaction unit :=
  fun tx =>
    '(_, s) ← reduce_core_op (now_ms tx) materialized_players op (state tx);
    Some (tt, set_state s tx).
Definition push_previewed_op (op : CoreOp) : V GameplayTransaction unit :=
  players ← asks (fun tx => dom (prepared_players tx));
  preview op players ;; puts (push_op op).

Definition tx_set_player_pose p v y t g := push_previewed_op (SetPlayerPose p v y t g).
Definition tx_set_selected_hotbar_slot p slot := push_previewed_op (SetSelectedHotbarSlot p slot).
Definition tx_set_inventory_slot p slot stack := push_previewed_op (SetInventorySlot p slot stack).
Definition tx_clear_mining p := push_previewed_op (ClearMining p).
Definition tx_begin_mining p b d := push_previewed_op (BeginMining p b d).
Definition tx_open_container_at p b := push_previewed_op (OpenContainerAt p b).
Definition tx_open_virtual_container p kind := push_previewed_op (OpenVirtualContainer p kind).
Definition tx_set_block b block := push_previewed_op (SetBlock b block).
Definition tx_spawn_dropped_item v item := push_previewed_op (SpawnDroppedItem None v item).
Definition tx_emit_event (t : EventTarget) (e : CoreEvent) := push_previewed_op (EmitEvent (mkEvent t e)).

(** ** Logins *)

(** [Some events]: the login is rejected. *)
Definition begin_login (c : ConnectionId) (name : string) (p : PlayerId) :
    V GameplayTransaction (option (list TargetedEvent)) :=
  if bool_decide (name = EmptyString) || (16 <? Z.of_nat (String.length name))
  then mret (Some (reject_connection c "Invalid username"))
  else
    count ← viewing online_player_count;
    note (note_online_count count) ;;
    config ← viewing config;
    if c_max_players config <=? count then mret (Some (reject_connection c "Server is full"))
    else
      existing ← viewing (player_entity_id p);
      note (note_entity_id p existing) ;;
      if bool_decide (is_Some existing)
      then mret (Some (reject_connection c "Player is already online"))
      else
        saved ← viewing (saved_player p);
        note (note_saved p saved) ;;
        let player := default (default_player p name (c_spawn config) starter_inventory) saved in
        inv ← vlift (normalize_player_inventory (inventory player));
        let player := mkSnapshot (p_id player) name (position player) (yaw player) (pitch player)
          (on_ground player) (dimension player) (health player) (food player)
          (food_saturation player) inv (selected_hotbar_slot player) in
        next ← viewing next_entity_id;
        note (note_next_entity next) ;;
        e ← ((fun tx => '(e, s) ← allocate_entity_id (state tx); Some (e, set_state s tx))
             : V GameplayTransaction EntityId);
        players ← asks (fun tx => {[p]} ∪ dom (prepared_players tx));
        let op := PrepareLogin p player e in
        preview op players ;;
        puts (add_prepared p e) ;;
        puts (push_op op) ;;
        mret None.

Definition finalize_login (c : ConnectionId) (p : PlayerId) : V GameplayTransaction (string + unit) :=
  player ← viewing (compose_player_snapshot p);
  session ← viewing (player_session p);
  match player, session with
  | None, _ => mret (inl "cannot finalize login for missing player")
  | _, None => mret (inl "cannot finalize login for missing player session")
  | Some _, Some _ =>
      puts (add_finalized p) ;; push_previewed_op (FinalizeLogin c p) ;; mret (inr tt)
  end.

(** ** Committing *)

Definition into_journal (tx : GameplayTransaction) : GameplayJournal :=
  mkJournal (now_ms tx) (journal tx) (read_set tx).

Definition validate_and_apply_gameplay_journal (j : GameplayJournal) : V ServerCore GameplayApplyResult :=
  ok ← asks (reads_match (j_read_set j));
  if (ok : bool) then Applied <$> apply_core_ops (j_ops j) (j_now_ms j) ∅ else mret Conflict.

(** The events and the core; a conflict, or a detached transaction, panics. *)
Definition commit (tx : GameplayTransaction) : option (list TargetedEvent * ServerCore) :=
  core ← live_base tx;
  '(r, core) ← validate_and_apply_gameplay_journal (into_journal tx) core;
  match r with Applied events => Some (events, core) | Conflict => None end.

(** ** The built-in commands *)

Definition reject_inventory_slot_events (p : PlayerId) (slot : InventorySlot) (player : PlayerSnapshot) :
    V GameplayTransaction unit :=
  tx_emit_event (ToPlayer p)
    (InventorySlotChanged 0 player_container_kind slot (get_slot (inventory player) slot)) ;;
  tx_emit_event (ToPlayer p) (SelectedHotbarSlotChanged (selected_hotbar_slot player)).

Definition place_rejection (p : PlayerId) (hand : InteractionHand) (b : BlockPos)
    (player : PlayerSnapshot) : V GameplayTransaction unit :=
  block ← tx_block_state b;
  tx_emit_event (ToPlayer p) (BlockChanged b block) ;;
  vfor_each (fun e => tx_emit_event (target e) (event e))
    (place_inventory_correction p hand player player_container_kind).

Definition held_inventory_slot (selected : Z) (hand : InteractionHand) : InventorySlot :=
  match hand with HandMain => Hotbar selected | HandOffhand => Offhand end.
Definition consumed_stack (stack : ItemStack) : option ItemStack :=
  let n := saturating_sub (count stack) 1 in if 0 <? n then Some (with_count n stack) else None.

Definition set_held_slot (p : PlayerId) (slot : Z) : V GameplayTransaction unit :=
  player ← tx_player_snapshot p;
  match player with
  | None => mret tt
  | Some player =>
      if negb ((0 <=? slot) && (slot <=? u8_max)) || (HOTBAR_SLOT_COUNT <=? slot)
      then tx_emit_event (ToPlayer p) (SelectedHotbarSlotChanged (selected_hotbar_slot player))
      else tx_clear_mining p ;; tx_set_selected_hotbar_slot p slot
  end.

Definition creative_inventory_set (p : PlayerId) (slot : InventorySlot) (stack : option ItemStack) :
    V GameplayTransaction unit :=
  player ← tx_player_snapshot p;
  match player with
  | None => mret tt
  | Some player =>
      meta ← tx_world_meta;
      if negb (wm_game_mode meta =? 1) || negb (is_storage_slot slot) ||
         match stack with
         | Some stack =>
             negb (is_supported_inventory_item (item_key stack)) || (count stack =? 0) ||
             (64 <? count stack)
         | None => false
         end
      then reject_inventory_slot_events p slot player
      else tx_set_inventory_slot p slot stack
  end.

Definition is_empty_block (o : option BlockState) : bool :=
  match o with Some block => is_air_block block | None => true end.

Definition dig_block (p : PlayerId) (b : BlockPos) (status : Z) : V GameplayTransaction unit :=
  if negb ((0 <=? status) && (status <=? 2)) then mret tt
  else
    player ← tx_player_snapshot p;
    match player with
    | None => mret tt
    | Some player =>
        if status =? 1 then tx_clear_mining p
        else
          current ← tx_block_state b;
          protected ←
            (if bool_decide (is_Some (block ← current; container_kind_for_block block))
             then e ← tx_block_entity b;
                  mret (match e with Some e => has_inventory_contents e | None => false end)
             else mret false);
          can_edit ← tx_can_edit_block p b;
          if negb can_edit || is_empty_block current ||
             match current with Some block => is_unbreakable_block block | None => false end ||
             protected
          then tx_clear_mining p ;; tx_emit_event (ToPlayer p) (BlockChanged b current)
          else
            meta ← tx_world_meta;
            if wm_game_mode meta =? 1 then tx_clear_mining p ;; tx_set_block b None
            else
              current ← vlift current;
              tx_begin_mining p b (default 50 (survival_mining_duration_ms current
                (tool_spec_for_item
                  (selected_hotbar_stack (inventory player) (selected_hotbar_slot player)))))
    end.

Definition place_block (p : PlayerId) (hand : InteractionHand) (b : BlockPos) (face : option BlockFace)
    (held_item : option ItemStack) : V GameplayTransaction unit :=
  match face with
  | None => mret tt
  | Some face =>
      player ← tx_player_snapshot p;
      match player with
      | None => mret tt
      | Some player =>
          let place_pos := block_offset b face in
          match selected_stack (inventory player) (selected_hotbar_slot player) hand with
          | None => place_rejection p hand place_pos player
          | Some stack =>
              if match held_item with Some held => negb (bool_decide (held = stack)) | None => false end
              then place_rejection p hand place_pos player
              else
                match placeable_block_state_from_item_key (item_key stack) with
                | None => place_rejection p hand place_pos player
                | Some block =>
                    target_block ← tx_block_state b;
                    occupied ← tx_block_state place_pos;
                    can_edit ← tx_can_edit_block p place_pos;
                    if negb can_edit || is_empty_block target_block || negb (is_empty_block occupied)
                    then place_rejection p hand place_pos player
                    else
                      tx_clear_mining p ;;
                      tx_set_block place_pos (Some block) ;;
                      meta ← tx_world_meta;
                      if negb (wm_game_mode meta =? 1)
                      then tx_set_inventory_slot p
                        (held_inventory_slot (selected_hotbar_slot player) hand) (consumed_stack stack)
                      else mret tt
                end
          end
      end
  end.

Definition use_block (p : PlayerId) (hand : InteractionHand) (b : BlockPos) (face : option BlockFace)
    (held_item : option ItemStack) : V GameplayTransaction unit :=
  target_block ← tx_block_state b;
  if bool_decide (is_Some (block ← target_block; container_kind_for_block block)) then
    can_edit ← tx_can_edit_block p b;
    if negb can_edit then tx_emit_event (ToPlayer p) (BlockChanged b target_block)
    else tx_clear_mining p ;; tx_open_container_at p b
  else place_block p hand b face held_item.

Definition run_gameplay_command (command : GameplayCommand) : V GameplayTransaction unit :=
  match command with
  | MoveIntent p v y t g => tx_set_player_pose p v y t g
  | SetHeldSlot p slot => set_held_slot p slot
  | CreativeInventorySet p slot stack => creative_inventory_set p slot stack
  | DigBlock p b status _ => dig_block p b status
  | PlaceBlock p hand b face held => place_block p hand b face held
  | UseBlock p hand b face held => use_block p hand b face held
  end.

(** [ServerCore::apply_builtin_gameplay_command] *)
Definition apply_builtin_gameplay_command (command : GameplayCommand) (now : Z) :
    V ServerCore (list TargetedEvent) :=
  fun core => '(_, tx) ← run_gameplay_command command (tx_new core now); commit tx.

(** ** [ServerCore::apply_command] *)

Definition login_start (c : ConnectionId) (name : string) (p : PlayerId) (now : Z) :
    V ServerCore (list TargetedEvent) := fun core =>
  '(rejection, tx) ← begin_login c name p (tx_new core now);
  match rejection with
  | Some events => Some (events, core)
  | None =>
      '(finalized, tx) ← finalize_login c p tx;
      match finalized with inl _ => None | inr _ => commit tx end
  end.

Definition apply_command (command : CoreCommand) (now : Z) : V ServerCore (list TargetedEvent) :=
  match command with
  | LoginStart c name p => login_start c name p now
  | UpdateClientView p distance => apply_core_ops [SetViewDistance p distance] now ∅
  | CommandInventoryClick p transaction target button validation =>
      apply_core_ops [InventoryClick p transaction target button validation] now ∅
  | CommandCloseContainer p id => apply_core_ops [CloseContainer p id true] now ∅
  | Gameplay command => apply_builtin_gameplay_command command now
  | KeepAliveResponse p k => apply_core_ops [AcknowledgeKeepAlive p k] now ∅
  | CommandDisconnect p => apply_core_ops [DisconnectPlayer p] now ∅
  end.

(** ** The effects of a gameplay plugin *)

Inductive GameplayEffect : Type :=
| EffectPlayerPose (p : PlayerId) (position : option Vec3) (yaw pitch : option spec_float) (g : bool)
| EffectSelectedHotbarSlot (p : PlayerId) (slot : Z)
| EffectInventorySlot (p : PlayerId) (slot : InventorySlot) (stack : option ItemStack)
| EffectClearMining (p : PlayerId)
| EffectBeginMining (p : PlayerId) (b : BlockPos) (duration_ms : Z)
| EffectOpenContainerAt (p : PlayerId) (b : BlockPos)
| EffectOpenVirtualContainer (p : PlayerId) (kind : string)
| EffectSetBlock (b : BlockPos) (block : option BlockState)
| EffectSpawnDroppedItem (position : Vec3) (item : ItemStack)
| EffectEmitEvent (e : TargetedEvent).

Definition core_op_from_effect (e : GameplayEffect) : CoreOp :=
  match e with
  | EffectPlayerPose p v y t g => SetPlayerPose p v y t g
  | EffectSelectedHotbarSlot p slot => SetSelectedHotbarSlot p slot
  | EffectInventorySlot p slot stack => SetInventorySlot p slot stack
  | EffectClearMining p => ClearMining p
  | EffectBeginMining p b d => BeginMining p b d
  | EffectOpenContainerAt p b => OpenContainerAt p b
  | EffectOpenVirtualContainer p kind => OpenVirtualContainer p kind
  | EffectSetBlock b block => SetBlock b block
  | EffectSpawnDroppedItem v item => SpawnDroppedItem None v item
  | EffectEmitEvent e => EmitEvent e
  end.

Definition apply_effect_to_transaction (e : GameplayEffect) : V GameplayTransaction unit :=
  match e with
  | EffectPlayerPose p v y t g => tx_set_player_pose p v y t g
  | EffectSelectedHotbarSlot p slot => tx_set_selected_hotbar_slot p slot
  | EffectInventorySlot p slot stack => tx_set_inventory_slot p slot stack
  | EffectClearMining p => tx_clear_mining p
  | EffectBeginMining p b d => tx_begin_mining p b d
  | EffectOpenContainerAt p b => tx_open_container_at p b
  | EffectOpenVirtualContainer p kind => tx_open_virtual_container p kind
  | EffectSetBlock b block => tx_set_block b block
  | EffectSpawnDroppedItem v item => tx_spawn_dropped_item v item
  | EffectEmitEvent e => tx_emit_event (target e) (event e)
  end.

(** The reads of a plugin, which the host recorded. *)
Record SemanticReadSet : Type := mkSemanticReads {
  sr_world_meta : option WorldMeta;
  sr_player_snapshots : gmap PlayerId (option PlayerSnapshot);
  sr_block_states : gmap BlockPos (option BlockState);
  sr_block_entities : gmap BlockPos (option BlockEntityState);
  sr_can_edit_block : gmap (PlayerId * BlockPos) bool
}.
Record GameplayEffectBatch : Type := mkBatch {
  b_now_ms : Z; b_reads : SemanticReadSet; b_effects : list GameplayEffect
}.
Definition empty_batch (now : Z) : GameplayEffectBatch :=
  mkBatch now (mkSemanticReads None ∅ ∅ ∅ ∅) [].

Definition semantic_reads_match {S : Type} `{CoreStateRead S} (r : SemanticReadSet) (s : S) : bool :=
  if_read (fun m => bool_decide (world_meta s = m)) (sr_world_meta r) &&
  all_entries (fun p o => option_eqb snapshot_eqb (compose_player_snapshot p s) o)
    (sr_player_snapshots r) &&
  all_entries (fun b o => bool_decide (block_state b s = o)) (sr_block_states r) &&
  all_entries (fun b o => bool_decide (block_entity b s = o)) (sr_block_entities r) &&
  all_entries (fun k allowed => Bool.eqb (may_edit k.1 k.2 s) allowed) (sr_can_edit_block r).

Definition apply_committed_gameplay_effects (now : Z) (effects : list GameplayEffect) :
    V ServerCore (list TargetedEvent) :=
  apply_core_ops (map core_op_from_effect effects) now ∅.
Definition validate_and_apply_gameplay_effects (batch : GameplayEffectBatch) :
    V ServerCore GameplayApplyResult :=
  ok ← asks (semantic_reads_match (b_reads batch));
  if (ok : bool)
  then Applied <$> apply_committed_gameplay_effects (b_now_ms batch) (b_effects batch)
  else mret Conflict.

(** [GameplayLoginPreview::new]: [inl]: rejected. *)
Definition login_preview_new (snapshot : ServerCore) (c : ConnectionId) (name : string) (p : PlayerId)
    (now : Z) : option (list TargetedEvent + GameplayTransaction) :=
  '(rejection, tx) ← begin_login c name p (tx_detached snapshot now);
  Some (match rejection with Some events => inl events | None => inr tx end).

Definition finish_login_effects (preview : GameplayTransaction) (c : ConnectionId) (p : PlayerId)
    (effects : list GameplayEffect) : V ServerCore GameplayApplyResult := fun core =>
  '(_, tx) ← vfor_each apply_effect_to_transaction effects preview;
  '(finalized, tx) ← finalize_login c p tx;
  match finalized with
  | inl _ => Some (Conflict, core)
  | inr _ => validate_and_apply_gameplay_journal (into_journal tx) core
  end.

Definition validate_and_apply_login_effects (c : ConnectionId) (name : string) (p : PlayerId)
    (batch : GameplayEffectBatch) : V ServerCore GameplayApplyResult := fun core =>
  preview ← login_preview_new core c name p (b_now_ms batch);
  match preview with
  | inl _ => Some (Conflict, core)
  | inr tx =>
      if semantic_reads_match (b_reads batch) (state tx)
      then finish_login_effects tx c p (b_effects batch) core
      else Some (Conflict, core)
  end.

Definition apply_committed_login_effects (c : ConnectionId) (name : string) (p : PlayerId) (now : Z)
    (effects : list GameplayEffect) : V ServerCore GameplayApplyResult := fun core =>
  preview ← login_preview_new core c name p now;
  match preview with
  | inl _ => Some (Conflict, core)
  | inr tx => finish_login_effects tx c p effects core
  end.
End Transaction.
