(* ===== verification/VoxelInvariant.v ===== *)
(** * The invariant of the voxel core

    [core_ok] ties the stores of [ServerCore] together: a player has a session exactly
    when it has an entity, the entity has every component a player has and names the
    player, no component is left without its entity, a dropped item is not a player, the
    ids in use lie below the next one, and a saved player is saved under its own id.  The
    empty core has it and every operation keeps it, as long as entity ids are not
    exhausted. *)

From S2P Require Import Prelude VoxelModel VoxelItems VoxelContent VoxelState VoxelOverlay VoxelWindow VoxelClick VoxelWorld VoxelEvents VoxelOps VoxelKeeps.

Record core_ok (c : ServerCore) : Prop := mkCoreOk {
  ck_session p v : s_sessions (sessions c) !! p = Some v ->
    e_players (entities c) !! p = Some (ss_entity_id v);
  ck_player p e : e_players (entities c) !! p = Some e ->
    is_Some (s_sessions (sessions c) !! p) /\ e_kinds (entities c) !! e = Some KindPlayer /\
    exists name, e_identity (entities c) !! e = Some (mkIdentity p name);
  ck_identity e i : e_identity (entities c) !! e = Some i ->
    e_players (entities c) !! pi_player_id i = Some e;
  ck_transform e : is_Some (e_transform (entities c) !! e) <-> is_Some (e_identity (entities c) !! e);
  ck_vitals e : is_Some (e_vitals (entities c) !! e) <-> is_Some (e_identity (entities c) !! e);
  ck_inventory e : is_Some (e_inventory (entities c) !! e) <-> is_Some (e_identity (entities c) !! e);
  ck_hotbar e : is_Some (e_hotbar (entities c) !! e) <-> is_Some (e_identity (entities c) !! e);
  ck_dropped e : is_Some (e_dropped (entities c) !! e) -> e_kinds (entities c) !! e = Some KindDroppedItem;
  ck_kinds e : is_Some (e_kinds (entities c) !! e) -> e < e_next_id (entities c);
  ck_saved p o : w_saved_players (world c) !! p = Some o -> p_id o = p
}.

Lemma core_ok_new config : core_ok (core_new config).
Proof. constructor; cbn; intros *; rewrite ?lookup_empty; try done; by intros [? [=]]. Qed.

Section Invariant.
Context {CB : ContentBehavior}.

(** A player that is online can be composed, and is itself. *)
Lemma core_ok_compose c p e :
  core_ok c -> e_players (entities c) !! p = Some e ->
  exists s, compose_player_snapshot_by_entity e c = Some s /\ p_id s = p.
Proof.
  intros Hc He. destruct (ck_player c Hc p e He) as (_ & _ & name & Hi).
  assert (is_Some (e_identity (entities c) !! e)) as Hid by eauto.
  destruct (proj2 (ck_transform c Hc e) Hid) as [t Ht], (proj2 (ck_vitals c Hc e) Hid) as [v Hv],
    (proj2 (ck_inventory c Hc e) Hid) as [i Hinv], (proj2 (ck_hotbar c Hc e) Hid) as [h Hh].
  unfold compose_player_snapshot_by_entity. cbn [BaseRead player_identity_by_entity
    player_transform_by_entity player_vitals_by_entity player_inventory_by_entity
    player_selected_hotbar_by_entity].
  rewrite Hi, Ht, Hv, Hinv, Hh. by eexists.
Qed.

(** ** Harmless writes

    [R] is whatever is known of the kinds, the next id and the dropped items, which only
    the creation and the removal of an entity change. *)

Definition ok_and (R : gmap EntityId EntityKind -> Z -> gmap EntityId DroppedItemState -> Prop)
    (c : ServerCore) : Prop :=
  core_ok c /\ R (e_kinds (entities c)) (e_next_id (entities c)) (e_dropped (entities c)).

Lemma ok_and_world R c f :
  (forall w, w_saved_players (f w) = w_saved_players w) -> ok_and R c -> ok_and R (upd_world f c).
Proof.
  intros Hf [[] HR]. split; [|done]. constructor; try done. cbn. intros p o. rewrite Hf. auto.
Qed.

Lemma ok_and_session R c p v v' :
  s_sessions (sessions c) !! p = Some v -> ss_entity_id v' = ss_entity_id v -> ok_and R c ->
  ok_and R (upd_sessions (fun t => set_s_sessions (<[p := v']> (s_sessions t)) t) c).
Proof.
  intros Hv Hid [[H1 H2 ? ? ? ? ? ? ? ?] HR]. split; [|done]. constructor; try done; cbn.
  - intros q w. destruct (decide (q = p)) as [->|Hne].
    + rewrite lookup_insert_eq. intros [= <-]. rewrite Hid. by apply H1.
    + rewrite lookup_insert_ne by done. apply H1.
  - intros q e Hq. destruct (H2 q e Hq) as (Hs & Hk & Hn). split_and!; [|done|done].
    apply lookup_insert_is_Some'. auto.
Qed.

Lemma ok_and_keep_alive R c k : ok_and R c -> ok_and R (upd_sessions (set_s_next_keep_alive_id k) c).
Proof. intros [[] HR]. by split; [constructor|]. Qed.

(** Writing an existing entry of a component keeps its domain. *)
Lemma is_Some_overwrite `{Countable K} {A} (m : gmap K A) k a a' j :
  m !! k = Some a -> is_Some (<[k := a']> m !! j) <-> is_Some (m !! j).
Proof.
  intros Hk. rewrite lookup_insert_is_Some'. split; [|auto]. intros [->|?]; [eauto|done].
Qed.

Ltac component H := intros Hold [[] HR]; split; [|exact HR]; constructor; try done; cbn; intros ?;
  rewrite (is_Some_overwrite _ _ _ _ _ Hold); apply H.

Lemma ok_and_transform R c e t t' : e_transform (entities c) !! e = Some t -> ok_and R c ->
  ok_and R (upd_entities (fun s => set_e_transform (<[e := t']> (e_transform s)) s) c).
Proof. component ck_transform0. Qed.
Lemma ok_and_inventory R c e t t' : e_inventory (entities c) !! e = Some t -> ok_and R c ->
  ok_and R (upd_entities (fun s => set_e_inventory (<[e := t']> (e_inventory s)) s) c).
Proof. component ck_inventory0. Qed.
Lemma ok_and_hotbar R c e t t' : e_hotbar (entities c) !! e = Some t -> ok_and R c ->
  ok_and R (upd_entities (fun s => set_e_hotbar (<[e := t']> (e_hotbar s)) s) c).
Proof. component ck_hotbar0. Qed.
Lemma ok_and_mining R c f : ok_and R c -> ok_and R (upd_entities (fun s => set_e_mining (f s) s) c).
Proof. intros [[] HR]. by split; [constructor|]. Qed.

(** A reference, used or not. *)
Lemma keeps_with_ref {S T A} (J : S -> Prop) (find : S -> option T) store (f : T -> option (A * T)) :
  (forall s t a t', find s = Some t -> f t = Some (a, t') -> J s -> J (store t' s)) ->
  keeps J (with_ref find store f).
Proof.
  intros Hst s a s' H Hs. unfold with_ref in H. destruct (find s) as [t|] eqn:E; [|by simplify_eq].
  apply bind_Some_intro in H as ([x t'] & Hf & H). simplify_eq. by eapply Hst.
Qed.

#[export] Instance ok_and_keeps R : StateKeeps ServerCore (ok_and R).
Proof.
  split; cbn [BaseMut ensure_chunk set_block_state set_block_entity player_session_mut
    player_session_inventory_mut player_transform_mut player_inventory_mut
    player_selected_hotbar_mut player_active_mining_mut remove_player_active_mining
    set_player_active_mining allocate_keep_alive_id set_container_viewers].
  - intros p s a s' H Hs. unfold base_ensure_chunk in H.
    apply bind_Some_intro in H as (chunk & _ & H). simplify_eq. case_match; [done|].
    by apply ok_and_world.
  - intros p b s a s' H Hs. unfold set_block_at in H. cbn zeta in H.
    apply bind_Some_intro in H as (chunk & _ & H). simplify_eq. apply ok_and_world; [done|].
    case_match; [done|]. by apply ok_and_world.
  - intros p b. apply keeps_puts. intros s. by apply ok_and_world.
  - intros A p f Hf. apply keeps_with_ref. intros s v a v' Hv Hfv. eapply ok_and_session; [done|].
    by eapply Hf.
  - intros A p f Hf s a s' H Hs. cbn [player_entity_id player_session player_inventory_by_entity BaseRead] in H.
    destruct (e_players (entities s) !! p) as [e|]; [|by simplify_eq].
    destruct (s_sessions (sessions s) !! p) as [v|] eqn:Hv; [|by simplify_eq].
    destruct (e_inventory (entities s) !! e) as [i|] eqn:Hi; [|by simplify_eq].
    apply bind_Some_intro in H as ([x [v' i']] & Hfv & H). simplify_eq.
    eapply ok_and_inventory; [exact Hi|]. eapply ok_and_session; [exact Hv| |done]. by eapply Hf.
  - intros A e f. apply keeps_with_ref. intros s t a t' Ht _. by eapply ok_and_transform.
  - intros A e f. apply keeps_with_ref. intros s t a t' Ht _. by eapply ok_and_inventory.
  - intros A e f. apply keeps_with_ref. intros s t a t' Ht _. by eapply ok_and_hotbar.
  - intros A e f. apply keeps_with_ref. intros s t a t' Ht _. apply ok_and_mining.
  - intros e s a s' [= <- <-]. apply ok_and_mining.
  - intros e m. apply keeps_puts. intros s. apply ok_and_mining.
  - intros s a s' [= <- <-]. apply ok_and_keep_alive.
  - intros p v. apply keeps_puts. intros s. by apply ok_and_world.
Qed.

(** ** Taking a run apart *)

Lemma V_bind_inv {S A B} (m : V S A) (f : A -> V S B) s b s' :
  (m ≫= f) s = Some (b, s') -> exists a s1, m s = Some (a, s1) /\ f a s1 = Some (b, s').
Proof. intros H. apply bind_Some_intro in H as ([a s1] & Hm & H). eauto. Qed.
Lemma try_bind_inv {S A B} (m : V S (option A)) (f : A -> V S (option B)) s b s' :
  try_bind m f s = Some (b, s') ->
  exists o s1, m s = Some (o, s1) /\
    match o with Some a => f a s1 = Some (b, s') | None => b = None /\ s' = s1 end.
Proof.
  intros H. apply V_bind_inv in H as ([a|] & s1 & Hm & H); do 2 eexists; (split; [exact Hm|]); [done|].
  by injection H as <- <-.
Qed.
Lemma fmap_inv {S A B} (g : A -> B) (m : V S A) s b s' :
  (g <$> m) s = Some (b, s') -> exists a, m s = Some (a, s') /\ b = g a.
Proof. intros H. apply V_bind_inv in H as (a & s1 & Hm & [= <- <-]). eauto. Qed.

(** ** Players leave *)

Lemma core_ok_remove p c o c' :
  core_ok c -> base_remove_online_player p c = Some (o, c') ->
  core_ok c' /\ e_next_id (entities c') = e_next_id (entities c) /\
  e_dropped (entities c') = e_dropped (entities c).
Proof.
  intros Hc H. unfold base_remove_online_player in H.
  destruct (s_sessions (sessions c) !! p) as [v|] eqn:Hv; [|by simplify_eq].
  injection H as <- <-. split; [|done]. pose proof (ck_session c Hc p v Hv) as Hp.
  set (e := ss_entity_id v) in *.
  assert (forall q e', e_players (entities c) !! q = Some e' -> q <> p -> e' <> e) as Hother.
  { intros q e' Hq Hne ->. destruct (ck_player c Hc q e Hq) as (_ & _ & n1 & H1).
    destruct (ck_player c Hc p e Hp) as (_ & _ & n2 & H2). rewrite H1 in H2. by injection H2 as ->. }
  constructor; cbn [upd_entities upd_sessions entities sessions world set_e_mining set_e_hotbar
    set_e_inventory set_e_vitals set_e_transform set_e_identity set_e_kinds set_e_players
    set_s_sessions s_sessions e_players e_kinds e_identity e_transform e_vitals e_inventory e_hotbar
    e_dropped e_next_id].
  - intros q w. rewrite !lookup_delete_Some. intros [Hne Hw]. split; [done|].
    by apply (ck_session c Hc).
  - intros q e'. rewrite lookup_delete_Some. intros [Hne Hq].
    destruct (ck_player c Hc q e' Hq) as (Hs & Hk & Hn).
    rewrite !lookup_delete_ne by (done || (symmetry; naive_solver)). done.
  - intros e' i. rewrite lookup_delete_Some. intros [Hne Hi].
    pose proof (ck_identity c Hc e' i Hi) as Hpi. rewrite lookup_delete_ne; [done|].
    intros ->. rewrite Hp in Hpi. by injection Hpi.
  - intros e'. destruct (decide (e = e')) as [->|]; [by rewrite !lookup_delete_eq|].
    rewrite !lookup_delete_ne by done. apply (ck_transform c Hc).
  - intros e'. destruct (decide (e = e')) as [->|]; [by rewrite !lookup_delete_eq|].
    rewrite !lookup_delete_ne by done. apply (ck_vitals c Hc).
  - intros e'. destruct (decide (e = e')) as [->|]; [by rewrite !lookup_delete_eq|].
    rewrite !lookup_delete_ne by done. apply (ck_inventory c Hc).
  - intros e'. destruct (decide (e = e')) as [->|]; [by rewrite !lookup_delete_eq|].
    rewrite !lookup_delete_ne by done. apply (ck_hotbar c Hc).
  - intros e' Hd. pose proof (ck_dropped c Hc e' Hd) as Hk. rewrite lookup_delete_ne; [done|].
    intros ->. destruct (ck_player c Hc p e' Hp) as (_ & Hk' & _). by rewrite Hk in Hk'.
  - intros e' [k Hk]. rewrite lookup_delete_Some in Hk. destruct Hk as [_ Hk].
    apply (ck_kinds c Hc). eauto.
  - apply (ck_saved c Hc).
Qed.

Lemma core_ok_saved c p o :
  core_ok c -> p_id o = p ->
  core_ok (upd_world (fun w => set_w_saved_players (put p (Some o) (w_saved_players w)) w) c).
Proof.
  intros [] Ho. constructor; try done. cbn. intros q r.
  destruct (decide (p = q)) as [->|]; [rewrite lookup_insert_eq; by intros [= <-]|].
  rewrite lookup_insert_ne by done. auto.
Qed.

Lemma persisted_id c p o c' :
  core_ok c -> persisted_online_player_snapshot_state p c = Some (Some o, c') -> p_id o = p.
Proof.
  intros Hc H. unfold persisted_online_player_snapshot_state in H.
  apply try_bind_inv in H as (s & c1 & [= <- <-] & H).
  destruct (compose_player_snapshot p c) as [s|] eqn:Hs; [|by destruct H].
  apply try_bind_inv in H as (v & c2 & [= <- <-] & H).
  destruct (s_sessions (sessions c) !! p) as [v|]; [|by destruct H].
  apply V_bind_inv in H as (o' & c3 & Hl & [= <- <-]).
  unfold vlift in Hl. apply bind_Some_intro in Hl as (o2 & Hl & [= <- <-]).
  assert (p_id s = p) as <-.
  { unfold compose_player_snapshot in Hs. apply bind_Some_intro in Hs as (e & He & Hs).
    destruct (core_ok_compose c p e Hc He) as (s' & Hs' & <-). rewrite Hs in Hs'.
    by injection Hs' as ->. }
  unfold persist_live_player_state in Hl. apply bind_Some_intro in Hl as (i1 & _ & Hl).
  apply bind_Some_intro in Hl as (i2 & _ & Hl). apply bind_Some_intro in Hl as (i3 & _ & Hl).
  by injection Hl as <-.
Qed.

(** What an operation that creates no entity leaves: [core_ok] and the ids. *)
Definition ok_next (n : Z) : ServerCore -> Prop := ok_and (fun _ n' _ => n' = n).
#[export] Instance ok_next_keeps n : StateKeeps ServerCore (ok_next n).
Proof. apply ok_and_keeps. Qed.

Lemma keeps_disconnect n p : keeps (ok_next n) (disconnect_player_state p).
Proof.
  intros c d c' H Hc. unfold disconnect_player_state in H.
  apply V_bind_inv in H as (cleared & c1 & H1 & H).
  pose proof (keeps_clear_mining (I := ok_next n) p _ _ _ H1 Hc) as Hc1. clear H1. rename Hc1 into H1.
  apply try_bind_inv in H as (persisted & c2 & H2 & H).
  pose proof (keeps_persisted (I := ok_next n) p _ _ _ H2 H1) as Hc2.
  destruct persisted as [persisted|]; [|by destruct H as [_ ->]].
  pose proof (persisted_id c1 p persisted c2 (proj1 H1) H2) as Hid.
  apply try_bind_inv in H as (session & c3 & H3 & H).
  destruct Hc2 as [Hc2 Hn].
  destruct (core_ok_remove p c2 session c3 Hc2 H3) as (Hc3 & Hn3 & _).
  assert (ok_next n c3) as Hok3 by (split; [done|lia]).
  destruct session as [session|]; [|by destruct H as [_ ->]].
  apply V_bind_inv in H as (u & c4 & H4 & H). apply V_bind_inv in H as (u' & c5 & H5 & [= <- <-]).
  assert (ok_next n c4) as [Hc4 Hn4].
  { destruct (active_container session) as [w|]; [|by injection H4 as <- <-].
    apply V_bind_inv in H4 as (u1 & c6 & H6 & H7).
    eapply (keeps_unregister (I := ok_next n)); [exact H7|].
    by eapply (keeps_writeback (I := ok_next n)). }
  cbn in H5. injection H5 as <- <-. split; [by apply core_ok_saved|done].
Qed.

(** ** Players come *)

(** No entity has the id yet, and the player is not online. *)
Definition fresh_player (c : ServerCore) (player : PlayerSnapshot) (e : EntityId) : Prop :=
  e_players (entities c) !! p_id player = None /\ e_kinds (entities c) !! e = None /\ e < i32_max.

Lemma fresh_no_identity c e : core_ok c -> e_kinds (entities c) !! e = None ->
  e_identity (entities c) !! e = None /\ forall p, e_players (entities c) !! p <> Some e.
Proof.
  intros Hc Hk. assert (forall p, e_players (entities c) !! p <> Some e) as Hp.
  { intros p Hp. destruct (ck_player c Hc p e Hp) as (_ & Hk' & _). by rewrite Hk in Hk'. }
  split; [|done]. destruct (e_identity (entities c) !! e) as [i|] eqn:Hi; [|done].
  by destruct (Hp _ (ck_identity c Hc e i Hi)).
Qed.

Lemma core_ok_next c n : core_ok c -> e_next_id (entities c) <= n -> core_ok (upd_entities (set_e_next_id n) c).
Proof.
  intros [] Hn. constructor; try done. cbn. intros e He. specialize (ck_kinds0 e He). lia.
Qed.

Definition new_player (player : PlayerSnapshot) (e : EntityId) (v : PlayerSessionState)
    (c : ServerCore) : ServerCore :=
  upd_sessions (fun t => set_s_sessions (<[p_id player := v]> (s_sessions t)) t)
  (upd_entities (fun t =>
    set_e_mining (delete e (e_mining t))
    (set_e_hotbar (<[e := selected_hotbar_slot player]> (e_hotbar t))
    (set_e_inventory (<[e := inventory player]> (e_inventory t))
    (set_e_vitals (<[e := snapshot_vitals player]> (e_vitals t))
    (set_e_transform (<[e := snapshot_transform player]> (e_transform t))
    (set_e_identity (<[e := mkIdentity (p_id player) (username player)]> (e_identity t))
    (set_e_players (<[p_id player := e]> (e_players t))
    (set_e_kinds (<[e := KindPlayer]> (e_kinds t)) t)))))))) c).

Lemma core_ok_new_player player e v c :
  core_ok c -> e_players (entities c) !! p_id player = None -> e_kinds (entities c) !! e = None ->
  e < e_next_id (entities c) -> ss_entity_id v = e -> core_ok (new_player player e v c).
Proof.
  intros Hc Hp Hk Hn Hv. destruct (fresh_no_identity c e Hc Hk) as [Hid Hno].
  constructor; cbn [new_player upd_entities upd_sessions entities sessions world set_e_mining set_e_hotbar
    set_e_inventory set_e_vitals set_e_transform set_e_identity set_e_kinds set_e_players
    set_s_sessions s_sessions e_players e_kinds e_identity e_transform e_vitals e_inventory e_hotbar
    e_dropped e_next_id].
  - intros q w. destruct (decide (q = p_id player)) as [->|Hne].
    + rewrite !lookup_insert_eq. by intros [= <-]; rewrite Hv.
    + rewrite !lookup_insert_ne by done. apply (ck_session c Hc).
  - intros q e'. destruct (decide (q = p_id player)) as [->|Hne].
    + rewrite !lookup_insert_eq. intros [= <-]. rewrite !lookup_insert_eq. eauto.
    + rewrite !(lookup_insert_ne _ (p_id player)) by done. intros Hq.
      assert (e' <> e) as Hee by (intros ->; by apply (Hno q)).
      rewrite !lookup_insert_ne by done. by apply (ck_player c Hc).
  - intros e' i. destruct (decide (e' = e)) as [->|Hne].
    + rewrite lookup_insert_eq. intros [= <-]. apply lookup_insert_eq.
    + rewrite lookup_insert_ne by done. intros Hi. pose proof (ck_identity c Hc e' i Hi) as Hpi.
      rewrite lookup_insert_ne; [done|]. intros Heq. by rewrite <- Heq, Hp in Hpi.
  - intros e'. rewrite !lookup_insert_is_Some'. by rewrite (ck_transform c Hc).
  - intros e'. rewrite !lookup_insert_is_Some'. by rewrite (ck_vitals c Hc).
  - intros e'. rewrite !lookup_insert_is_Some'. by rewrite (ck_inventory c Hc).
  - intros e'. rewrite !lookup_insert_is_Some'. by rewrite (ck_hotbar c Hc).
  - intros e' Hd. pose proof (ck_dropped c Hc e' Hd) as Hkd. rewrite lookup_insert_ne; [done|].
    intros <-. by pose proof (eq_trans (eq_sym Hk) Hkd).
  - intros e'. rewrite lookup_insert_is_Some'. intros [<-|Hke]; [done|]. by apply (ck_kinds c Hc).
  - apply (ck_saved c Hc).
Qed.

Lemma core_ok_spawn player now e c e' c' :
  core_ok c -> fresh_player c player e ->
  base_spawn_online_player player now (Some e) c = Some (e', c') ->
  core_ok c' /\ e_next_id (entities c') = Z.max (e_next_id (entities c)) (e + 1).
Proof.
  intros Hc (Hp & Hk & He) H. unfold base_spawn_online_player in H.
  apply V_bind_inv in H as (e1 & c1 & [= <- <-] & H).
  apply V_bind_inv in H as (u & c2 & [= <- <-] & H).
  apply V_bind_inv in H as (chunk & c3 & Hl & H). unfold vlift in Hl.
  apply bind_Some_intro in Hl as (chunk' & _ & [= -> <-]).
  apply V_bind_inv in H as (c4 & c5 & [= <- <-] & H).
  apply V_bind_inv in H as (u1 & c6 & [= <- <-] & H).
  apply V_bind_inv in H as (u2 & c7 & [= <- <-] & [= <- <-]).
  set (c1 := base_reserve_entity_id e c).
  assert (core_ok c1 /\ e_next_id (entities c1) = Z.max (e_next_id (entities c)) (e + 1) /\
    e_players (entities c1) = e_players (entities c) /\ e_kinds (entities c1) = e_kinds (entities c))
    as (Hc1 & Hn1 & Hp1 & Hk1).
  { unfold c1, base_reserve_entity_id, i32_saturating_inc. case_test.
    - split_and!; try done; [apply core_ok_next; [done|lia]|cbn; lia].
    - split_and!; try done. lia. }
  split; [|exact Hn1].
  apply (core_ok_new_player player e _ c1); [done|by rewrite Hp1|by rewrite Hk1|lia|done].
Qed.

(** ** Dropped items *)

Lemma core_ok_spawn_item position item now c d c' :
  core_ok c -> e_next_id (entities c) < i32_max ->
  state_spawn_dropped_item position item now c = Some (d, c') ->
  core_ok c' /\ e_next_id (entities c') = e_next_id (entities c) + 1.
Proof.
  intros Hc Hn H. unfold state_spawn_dropped_item in H.
  apply V_bind_inv in H as (e & c1 & [= <- <-] & H). cbn zeta in H.
  apply V_bind_inv in H as (u & c2 & [= <- <-] & H).
  apply V_bind_inv in H as (u1 & c3 & [= <- <-] & [= <- <-]).
  set (e := e_next_id (entities c)). set (n := i32_saturating_inc e).
  assert (n = e + 1) as Hn1 by (unfold n, i32_saturating_inc; lia).
  assert (e_kinds (entities c) !! e = None) as Hk.
  { destruct (e_kinds (entities c) !! e) eqn:E; [|done].
    assert (e < e) by (by apply (ck_kinds c Hc); eauto). lia. }
  destruct (fresh_no_identity c e Hc Hk) as [Hid Hno].
  split; [|exact Hn1].
  pose proof (core_ok_next c n Hc ltac:(lia)) as Hc1. destruct Hc1.
  constructor; try done; cbn.
  - intros p e' Hp. assert (e <> e') by (intros <-; by apply (Hno p)).
    rewrite lookup_insert_ne by done. by apply ck_player0.
  - intros e'. rewrite lookup_insert_is_Some'. intros Hd.
    destruct (decide (e = e')) as [<-|Hne]; [by rewrite lookup_insert_eq|].
    rewrite lookup_insert_ne by done. apply ck_dropped0. by destruct Hd.
  - intros e'. rewrite lookup_insert_is_Some'. intros [<-|Hke]; [lia|]. by apply ck_kinds0.
Qed.

(** Taking an item off, while its kind stays: what [tick_dropped_item_state] works on. *)
Definition in_flight (n : Z) (e : EntityId) : ServerCore -> Prop :=
  ok_and (fun kinds n' dropped => n' = n /\ kinds !! e = Some KindDroppedItem /\ dropped !! e = None).
#[export] Instance in_flight_keeps n e : StateKeeps ServerCore (in_flight n e).
Proof. apply ok_and_keeps. Qed.

Lemma in_flight_put n e item c :
  in_flight n e c -> ok_next n (upd_entities (fun t => set_e_dropped (<[e := item]> (e_dropped t)) t) c).
Proof.
  intros [[] (Hn & Hk & Hd)]. split; [|done]. constructor; try done. cbn. intros e'.
  rewrite lookup_insert_is_Some'. intros [<-|?]; auto.
Qed.
Lemma in_flight_drop n e c :
  in_flight n e c -> ok_next n (upd_entities (fun t => set_e_kinds (delete e (e_kinds t)) t) c).
Proof.
  intros [Hc (Hn & Hk & Hd)]. split; [|done].
  assert (forall p, e_players (entities c) !! p <> Some e) as Hno.
  { intros p Hp. destruct (ck_player c Hc p e Hp) as (_ & Hk' & _). by rewrite Hk in Hk'. }
  destruct Hc. constructor; try done; cbn.
  - intros p e' Hp. rewrite lookup_delete_ne by (intros <-; by apply (Hno p)). by apply ck_player0.
  - intros e' He'. rewrite lookup_delete_ne; [by apply ck_dropped0|]. intros <-.
    rewrite Hd in He'. by destruct He'.
  - intros e' [k Hke]. apply lookup_delete_Some in Hke as [_ Hke]. apply ck_kinds0. eauto.
Qed.

Lemma keeps_tick_item n e now : keeps (ok_next n) (tick_dropped_item_state e now).
Proof.
  intros c d c' H Hc. unfold tick_dropped_item_state in H.
  apply V_bind_inv in H as (taken & c1 & [= <- <-] & H).
  destruct (e_dropped (entities c) !! e) as [item|] eqn:He.
  2:{ injection H as _ <-. destruct Hc as [[] Hn]. split; [|done].
      constructor; try done. cbn. intros e' [k Hk]. apply lookup_delete_Some in Hk as [_ Hk]. eauto. }
  assert (in_flight n e (upd_entities (fun t => set_e_dropped (delete e (e_dropped t)) t) c)) as Hf.
  { destruct Hc as [[] Hn]. split; [constructor; try done|].
    - cbn. intros e' [k Hk]. apply lookup_delete_Some in Hk as [_ Hk]. eauto.
    - cbn. split_and!; [done|by apply ck_dropped0; eauto|apply lookup_delete_eq]. }
  revert H Hf. generalize (upd_entities (fun t => set_e_dropped (delete e (e_dropped t)) t) c).
  clear c Hc He. intros c H Hf.
  apply V_bind_inv in H as (item' & c1 & [= <- <-] & H).
  revert H. generalize (advance_dropped_item_entity now c item). clear item. intros item H.
  case_match.
  { apply V_bind_inv in H as (u & c2 & [= <- <-] & [= <- <-]). by apply in_flight_drop. }
  case_match.
  { apply V_bind_inv in H as (u & c2 & [= <- <-] & [= <- <-]). by apply in_flight_put. }
  apply V_bind_inv in H as (player & c2 & [= <- <-] & H).
  destruct (nearest_pickup_player_in _ c) as [p|].
  2:{ apply V_bind_inv in H as (u & c2 & [= <- <-] & [= <- <-]). by apply in_flight_put. }
  apply V_bind_inv in H as ([delta leftover] & c2 & Hm & H).
  pose proof (keeps_merge_stack (I := in_flight n e) _ _ _ _ _ Hm Hf) as Hf2.
  destruct leftover as [stack|]; apply V_bind_inv in H as (u & c3 & [= <- <-] & [= <- <-]).
  - by apply in_flight_put.
  - by apply in_flight_drop.
Qed.

Lemma core_ok_complete_mining p position now c d c' :
  core_ok c -> e_next_id (entities c) < i32_max ->
  state_complete_survival_mining p position now c = Some (d, c') ->
  core_ok c' /\ e_next_id (entities c) <= e_next_id (entities c') <= e_next_id (entities c) + 1.
Proof.
  intros Hc Hn H. set (n := e_next_id (entities c)) in *.
  assert (ok_next n c) as Hok by done.
  assert (forall c, ok_next n c -> core_ok c /\ n <= e_next_id (entities c) <= n + 1) as Hdone
    by (intros ? [? ->]; split; [done|lia]).
  unfold state_complete_survival_mining in H.
  apply try_bind_inv in H as (player & c1 & [= <- <-] & H).
  destruct (compose_player_snapshot p c) as [player|]; [|destruct H as [_ ->]; by apply Hdone].
  apply try_bind_inv in H as (m & c1 & [= <- <-] & H).
  destruct (player_active_mining p c) as [m|]; [|destruct H as [_ ->]; by apply Hdone].
  case_match; [injection H as _ <-; by apply Hdone|].
  apply V_bind_inv in H as (current & c1 & [= <- <-] & H).
  apply V_bind_inv in H as (can_edit & c1 & [= <- <-] & H).
  apply V_bind_inv in H as (entity & c1 & [= <- <-] & H).
  assert (forall A (f : option ClearMiningDelta -> A) d c',
    (cleared ← state_clear_active_mining p; mret (f cleared)) c = Some (d, c') -> ok_next n c') as Hclear.
  { intros A f d' c1 H1. apply V_bind_inv in H1 as (x & c2 & H1 & [= _ <-]).
    by eapply (keeps_clear_mining (I := ok_next n)). }
  destruct (block_at position c) as [block|]; [|apply Hdone; by eapply Hclear].
  case_match; [apply Hdone; by eapply Hclear|].
  apply V_bind_inv in H as (delta & c1 & Hset & H).
  pose proof (keeps_set_block (I := ok_next n) _ _ _ _ _ Hset Hok) as [Hc1 Hn1].
  apply V_bind_inv in H as (spawned & c2 & Hsp & [= _ <-]).
  destruct (survival_drop_for_block block) as [item|]; [|injection Hsp as _ <-; by apply Hdone].
  apply core_ok_spawn_item in Hsp as [Hc2 Hn2]; [|done|by rewrite Hn1].
  split; [done|]. rewrite Hn2, Hn1. lia.
Qed.

(** ** Every operation, and a batch of them *)

Definition login_fresh (finalized : gset PlayerId) (op : CoreOp) (c : ServerCore) : Prop :=
  match op with
  | PrepareLogin p player e => p ∈ finalized -> fresh_player c player e
  | _ => True
  end.

Lemma core_ok_reduce now finalized op c r c' :
  core_ok c -> e_next_id (entities c) < i32_max -> login_fresh finalized op c ->
  reduce_core_op now finalized op c = Some (r, c') ->
  core_ok c' /\ e_next_id (entities c) <= e_next_id (entities c') <= i32_max /\
  (match op with PrepareLogin _ _ _ => True
   | _ => e_next_id (entities c') <= e_next_id (entities c) + 1 end).
Proof.
  intros Hc Hn Hlog H. set (n := e_next_id (entities c)) in *.
  assert (ok_next n c) as Hok by done.
  assert (forall A (m : V ServerCore A) (f : A -> AppliedCoreOp), keeps (ok_next n) m ->
    (f <$> m) c = Some (r, c') -> core_ok c' /\ n <= e_next_id (entities c') <= i32_max /\
      e_next_id (entities c') <= n + 1) as Hkeep.
  { intros A m f Hm Hr. apply fmap_inv in Hr as (a & Hr & _).
    destruct (Hm _ _ _ Hr Hok) as [Hc' ->]. split; [done|lia]. }
  destruct (op_harmless op) eqn:Hop.
  { pose proof (keeps_reduce (I := ok_next n) now finalized op Hop _ _ _ H Hok) as [Hc' Hn'].
    split; [done|]. rewrite Hn'. split; [lia|]. destruct op; try done; lia. }
  destruct op; try discriminate Hop; cbn [reduce_core_op] in H.
  - apply V_bind_inv in H as (u & c1 & H1 & [= _ <-]). case_bool_decide as Hp.
    + apply V_bind_inv in H1 as (e' & c2 & H1 & [= _ <-]).
      pose proof (Hlog Hp) as Hf. apply core_ok_spawn in H1 as [Hc2 Hn2]; [|done|done].
      split; [done|]. destruct Hf as (_ & _ & He). rewrite Hn2. lia.
    + injection H1 as _ <-. split; [done|]. lia.
  - apply fmap_inv in H as (a & H & _).
    apply core_ok_complete_mining in H as [Hc' Hn']; [|done|done]. split; [done|]. lia.
  - eapply Hkeep; [|exact H]. apply keeps_tick_item.
  - apply fmap_inv in H as (a & H & _).
    apply core_ok_spawn_item in H as [Hc' Hn']; [|done|done]. split; [done|]. lia.
  - eapply Hkeep; [|exact H]. apply keeps_disconnect.
Qed.

Definition is_prepare (op : CoreOp) : bool := match op with PrepareLogin _ _ _ => true | _ => false end.

Lemma run_cons now P op ops b c events c' :
  run_core_ops now P b (op :: ops) c = Some (events, c') ->
  exists r c1 ev b1 rest, reduce_core_op now P op c = Some (r, c1) /\ build c1 r b = (ev, b1) /\
    run_core_ops now P b1 ops c1 = Some (rest, c') /\ events = ev ++ rest.
Proof.
  intros H. cbn [run_core_ops] in H. apply V_bind_inv in H as (r & c1 & Hop & H).
  apply V_bind_inv in H as (core & c2 & [= <- <-] & H). destruct (build c1 r b) as [ev b1] eqn:Hb.
  apply V_bind_inv in H as (rest & c3 & H & [= <- <-]). by exists r, c1, ev, b1, rest.
Qed.

(** A batch without logins. *)
Lemma core_ok_run now finalized ops : forall b c events c',
  core_ok c -> e_next_id (entities c) + len ops <= i32_max -> Forall (fun op => is_prepare op = false) ops ->
  run_core_ops now finalized b ops c = Some (events, c') ->
  core_ok c' /\ e_next_id (entities c') <= e_next_id (entities c) + len ops.
Proof.
  induction ops as [|op ops IH]; intros b c events c' Hc Hn Hops H.
  - injection H as _ <-. split; [done|]. cbn. lia.
  - apply Forall_cons in Hops as [Hop Hops].
    apply run_cons in H as (r & c1 & ev & b' & rest & H1 & _ & H2 & _).
    cbn [length] in Hn. rewrite Nat2Z.inj_succ in Hn.
    apply core_ok_reduce in H1 as (Hc1 & Hn1 & Hle); [|done|lia|by destruct op].
    assert (e_next_id (entities c1) <= e_next_id (entities c) + 1) by (by destruct op).
    apply IH in H2 as [Hc2 Hn2]; [|done|lia|done]. split; [done|]. cbn [length]. lia.
Qed.

Lemma core_ok_apply_ops ops now hidden c events c' :
  core_ok c -> e_next_id (entities c) + len ops <= i32_max ->
  Forall (fun op => is_prepare op = false) ops ->
  apply_core_ops ops now hidden c = Some (events, c') -> core_ok c'.
Proof. intros Hc Hn Hops H. by eapply core_ok_run. Qed.

Lemma scheduler_no_login now timeout (c : ServerCore) :
  Forall (fun op => is_prepare op = false) (scheduler_tick now timeout c).
Proof.
  unfold scheduler_tick, collect_active_mining_ops, collect_keepalive_ops.
  repeat apply Forall_app_2; try (apply Forall_fmap; by apply Forall_true);
    apply Forall_forall; intros op Hop; apply list_elem_of_omap in Hop as (x & _ & Hx).
  - unfold container_op in Hx. apply bind_Some_intro in Hx as (v & _ & Hx). by case_match; simplify_eq.
  - unfold mining_op in Hx. apply bind_Some_intro in Hx as (m & _ & Hx).
    apply bind_Some_intro in Hx as (q & _ & Hx). by repeat case_match; simplify_eq.
  - unfold keepalive_op in Hx. apply bind_Some_intro in Hx as (v & _ & Hx).
    by repeat case_match; simplify_eq.
Qed.

Lemma core_ok_tick now c events c' :
  core_ok c -> e_next_id (entities c) + len (scheduler_tick now (s_timeout_ms (sessions c)) c) <= i32_max ->
  core_tick now c = Some (events, c') -> core_ok c'.
Proof.
  intros Hc Hn H. apply V_bind_inv in H as (ops & c1 & [= <- <-] & H).
  eapply core_ok_apply_ops; [exact Hc|exact Hn|apply scheduler_no_login|exact H].
Qed.
End Invariant.
