(* ===== verification/VoxelCommit.v ===== *)
(** * Committing a transaction

    What a transaction previewed on its overlay is what the core holds once its journal has
    been replayed, and what it recorded of the core is still there, since nobody else can
    change the core meanwhile; so a built-in command and a login never conflict when they
    commit, unless a player's snapshot holds a NaN. *)

From Stdlib Require Import Floats.SpecFloat.
From S2P Require Import Prelude VoxelModel VoxelItems VoxelContent VoxelState VoxelOverlay VoxelWindow VoxelClick VoxelWorld VoxelEvents VoxelOps VoxelKeeps VoxelRefine VoxelTx VoxelInvariant.

Section Commit.
Context {CB : ContentBehavior}.

(** ** The snapshot under the overlay stays *)

Definition based (c : ServerCore) (s : OverlayState) : Prop := base s = c.

Lemma keeps_overlay_ref `{Countable K} {T A} c entries store (k : K) find (f : T -> option (A * T)) :
  keeps (based c) (overlay_ref entries store k find f).
Proof.
  intros s a s' Hr Hs. unfold overlay_ref in Hr.
  destruct (entries (overlay s) !! k) as [[t|]|].
  - apply bind_Some_intro in Hr as ([x t'] & _ & Hr). by simplify_eq.
  - by simplify_eq.
  - destruct (find s); [|by simplify_eq]. apply bind_Some_intro in Hr as ([x t'] & _ & Hr).
    by simplify_eq.
Qed.
Lemma keeps_ensure_based c p : keeps (based c) (overlay_ensure_chunk p).
Proof. intros s a s' H Hs. unfold overlay_ensure_chunk in H. case_match; by simplify_eq. Qed.

#[export] Instance based_keeps c : StateKeeps OverlayState (based c).
Proof.
  split; cbn [OverlayMut ensure_chunk set_block_state set_block_entity player_session_mut
    player_session_inventory_mut player_transform_mut player_inventory_mut
    player_selected_hotbar_mut player_active_mining_mut remove_player_active_mining
    set_player_active_mining allocate_keep_alive_id set_container_viewers].
  - apply keeps_ensure_based.
  - intros p b. apply keeps_bind; [apply keeps_ensure_based|]. intros _ s a s' H Hs.
    apply bind_Some_intro in H as (chunk & _ & H). by simplify_eq.
  - intros p b. by apply keeps_puts.
  - intros A p f _. apply keeps_overlay_ref.
  - intros A p f _ s a s' H Hs. unfold overlay_session_inventory_mut in H.
    repeat (case_match; simplify_eq; try done);
      repeat match goal with
      | H : _ ≫= _ = Some _ |- _ => apply bind_Some_intro in H as (? & ? & H)
      end; repeat (case_match; simplify_eq; try done);
      repeat match goal with H : Some _ = Some ?s |- _ => is_var s; injection H; intros <-; clear H end;
      done.
  - intros A e f. apply keeps_overlay_ref.
  - intros A e f. apply keeps_overlay_ref.
  - intros A e f. apply keeps_overlay_ref.
  - intros A e f. apply keeps_overlay_ref.
  - intros e s a s' H Hs. by repeat (case_match; simplify_eq).
  - intros e m. by apply keeps_puts.
  - intros s a s' [= <- <-] Hs. done.
  - intros p v. by apply keeps_puts.
Qed.

Lemma keeps_based_kind c e k : keeps (based c) (set_entity_kind e k).
Proof. by apply keeps_puts. Qed.
Lemma keeps_based_dropped c e d : keeps (based c) (set_dropped_item e d).
Proof. by apply keeps_puts. Qed.
Lemma keeps_based_saved c p o : keeps (based c) (set_saved_player p o).
Proof. by apply keeps_puts. Qed.
Lemma keeps_based_take c e : keeps (based c) (take_dropped_item e).
Proof. intros s a s' H Hs. cbn in H. by repeat (case_match; simplify_eq). Qed.
Lemma keeps_based_allocate c : keeps (based c) overlay_allocate_entity_id.
Proof. by intros s a s' [= <- <-]. Qed.
Lemma keeps_based_remove c p : keeps (based c) (remove_online_player p).
Proof. intros s a s' H Hs. cbn in H. unfold overlay_remove_online_player in H. by repeat (case_match; simplify_eq). Qed.
Lemma keeps_based_reserve c e : keeps (based c) (puts (overlay_reserve_entity_id e)).
Proof. apply keeps_puts. intros s Hs. unfold overlay_reserve_entity_id. by repeat case_match. Qed.
Hint Resolve keeps_based_kind keeps_based_dropped keeps_based_saved keeps_based_take
  keeps_based_allocate keeps_based_remove keeps_based_reserve : keeps.
Lemma keeps_based_spawn c player now e : keeps (based c) (spawn_online_player player now e).
Proof.
  cbn [spawn_online_player OverlayMut]. unfold overlay_spawn_online_player. keeps_auto;
    by apply keeps_puts.
Qed.
Hint Resolve keeps_based_spawn : keeps.

Lemma keeps_based_reduce c now finalized op : keeps (based c) (reduce_core_op now finalized op).
Proof.
  destruct (op_harmless op) eqn:Hop; [by apply keeps_reduce|].
  destruct op; try discriminate Hop; cbn [reduce_core_op];
    unfold state_complete_survival_mining, tick_dropped_item_state, state_spawn_dropped_item,
      disconnect_player_state; keeps_auto.
Qed.

(** ** The journal replays to the preview *)

Definition replay (now : Z) (players : gset PlayerId) (ops : list CoreOp) : V ServerCore unit :=
  vfor_each (fun op => reduce_core_op now players op ;; mret tt) ops.

Lemma replay_app now players ops1 ops2 c c1 c2 :
  replay now players ops1 c = Some (tt, c1) -> replay now players ops2 c1 = Some (tt, c2) ->
  replay now players (ops1 ++ ops2) c = Some (tt, c2).
Proof.
  revert c. induction ops1 as [|op ops1 IH]; intros c H1 H2; [by injection H1 as <-|].
  cbn [app replay vfor_each] in *. apply V_bind_inv in H1 as ([] & c3 & H1 & H3).
  unfold mbind, V_bind at 1. unfold mbind, V_bind in H1.
  fold (replay now players ops1) in H3. fold (replay now players (ops1 ++ ops2)).
  unfold mbind, V_bind. rewrite H1. cbn. by apply IH.
Qed.

(** The events of a batch do not change what it does to the core. *)
Lemma run_replay now players ops : forall b c c',
  replay now players ops c = Some (tt, c') ->
  exists events, run_core_ops now players b ops c = Some (events, c').
Proof.
  induction ops as [|op ops IH]; intros b c c' H.
  - injection H as <-. by eexists.
  - cbn [replay vfor_each] in H. apply V_bind_inv in H as ([] & c1 & H1 & H).
    apply V_bind_inv in H1 as (applied & c2 & H1 & [= <-]). cbn [run_core_ops].
    unfold mbind at 1, V_bind at 1. rewrite H1. cbn [option_bind mbind].
    unfold mbind at 1, V_bind at 1. unfold asks at 1. cbn [option_bind mbind id].
    destruct (build c2 applied b) as [events b']. apply (IH b') in H as [rest H].
    unfold mbind, V_bind. rewrite H. cbn. by eexists.
Qed.

(** Which players a batch lets in matters to the preparation of a login only. *)
Lemma reduce_players `{CoreStateMut St} now P P' op (s : St) :
  (match op with PrepareLogin p _ _ => p ∈ P /\ p ∈ P' | _ => True end) ->
  reduce_core_op now P op s = reduce_core_op now P' op s.
Proof.
  destruct op; try done. intros [H1 H2]. cbn [reduce_core_op]. by rewrite !bool_decide_true.
Qed.

Definition op_previewed (op : CoreOp) : Prop :=
  op_expected_ok op /\ is_complete_mining op = false.

Record tx_ok (c : ServerCore) (now : Z) (tx : GameplayTransaction) : Prop := mkTxOk {
  to_base : base (state tx) = c;
  to_now : VoxelTx.now_ms tx = now;
  to_replay P : dom (prepared_players tx) ⊆ P ->
    replay now P (journal tx) c = Some (tt, materialized (state tx));
  to_finalized : finalized_players (journal tx) = tx_finalized_players tx
}.

Lemma materialized_default c : materialized (mkOverlayState c overlay_default) = c.
Proof.
  rewrite materialized_unfold. unfold overlay_default, unless_skipped, apply_optional_entries, chunks_of.
  cbn. by destruct c as [[] [] []].
Qed.

Lemma tx_ok_new c now live : tx_ok c now (mkTx live (mkOverlayState c overlay_default) now ∅ ∅ [] no_reads).
Proof. constructor; try done. intros P _. cbn. by rewrite materialized_default. Qed.

(** A preview is a step of the replay. *)
Lemma preview_replays now P op s r s' :
  op_previewed op -> reduce_core_op now P op s = Some (r, s') ->
  replay now P [op] (materialized s) = Some (tt, materialized s').
Proof.
  intros [Hok Hop] H. cbn [replay vfor_each]. unfold mbind at 1 2, V_bind at 1 2.
  pose proof (sim_reduce (abs := materialized) now P op Hok Hop s) as Hsim. rewrite Hsim, H. done.
Qed.

(** What pushing an operation does to the other fields. *)
Lemma push_fields op tx u tx' : push_previewed_op op tx = Some (u, tx') ->
  journal tx' = journal tx ++ [op] /\ read_set tx' = read_set tx /\ live_base tx' = live_base tx /\
  prepared_players tx' = prepared_players tx /\ tx_finalized_players tx' = tx_finalized_players tx /\
  VoxelTx.now_ms tx' = VoxelTx.now_ms tx.
Proof.
  intros H. apply V_bind_inv in H as (players & tx1 & [= <- <-] & H).
  apply V_bind_inv in H as (u1 & tx2 & H & [= <- <-]). unfold preview in H.
  by apply bind_Some_intro in H as ([r s] & H & [= <- <-]).
Qed.
Lemma effect_push e : apply_effect_to_transaction e = push_previewed_op (core_op_from_effect e).
Proof. by destruct e as [| | | | | | | | |[]]. Qed.

(** Pushing an operation other than a login. *)
Lemma push_spec c now op tx u tx' :
  op_previewed op -> is_prepare op = false -> base (state tx) = c -> VoxelTx.now_ms tx = now ->
  (forall P, dom (prepared_players tx) ⊆ P ->
    replay now P (journal tx) c = Some (tt, materialized (state tx))) ->
  push_previewed_op op tx = Some (u, tx') ->
  base (state tx') = c /\ VoxelTx.now_ms tx' = now /\
  forall P, dom (prepared_players tx) ⊆ P ->
    replay now P (journal tx') c = Some (tt, materialized (state tx')).
Proof.
  intros Hop Hprep Hb Hn Hr H. unfold push_previewed_op in H.
  apply V_bind_inv in H as (players & tx1 & [= <- <-] & H).
  apply V_bind_inv in H as (u1 & tx2 & H & [= <- <-]). unfold preview in H.
  apply bind_Some_intro in H as ([r s] & H & [= <- <-]). rewrite Hn in H.
  cbn [push_op set_state state journal prepared_players tx_finalized_players VoxelTx.now_ms].
  split_and!; [by eapply keeps_based_reduce|done|].
  intros P HP. eapply replay_app; [by apply Hr|].
  rewrite (reduce_players now _ P) in H by (by destruct op). by eapply preview_replays.
Qed.

Lemma keeps_push c now op :
  op_previewed op -> is_prepare op = false -> (forall q p, op <> FinalizeLogin q p) ->
  keeps (tx_ok c now) (push_previewed_op op).
Proof.
  intros Hop Hprep Hfin tx u tx' H [Hb Hn Hr Hf].
  pose proof (push_fields _ _ _ _ H) as (Hj & _ & _ & Hp & Hf' & _).
  apply (push_spec c now) in H as (Hb' & Hn' & Hr'); [|done..].
  constructor; [done|done|by rewrite Hp|]. rewrite Hj, Hf', <- Hf.
  unfold finalized_players. rewrite omap_app. cbn.
  destruct op; try (by rewrite app_nil_r). by destruct (Hfin connection_id player_id).
Qed.

(** The effects of a plugin. *)
Lemma keeps_tx_effect c now e : keeps (tx_ok c now) (apply_effect_to_transaction e).
Proof. destruct e; by apply keeps_push. Qed.

(** ** What was read is still there *)

Record reads_ok (c : ServerCore) (r : GameplayReadSet) : Prop := mkReadsOk {
  ro_meta m : r_world_meta r = Some m -> world_meta c = m;
  ro_player p o : r_player_snapshots r !! p = Some o -> compose_player_snapshot p c = o;
  ro_block b o : r_block_states r !! b = Some o -> block_state b c = o;
  ro_entity b o : r_block_entities r !! b = Some o -> block_entity b c = o;
  ro_edit p b o : r_can_edit_block r !! (p, b) = Some o -> may_edit p b c = o;
  ro_count n : r_online_player_count r = Some n -> online_player_count c = n;
  ro_saved p o : r_saved_players r !! p = Some o -> saved_player p c = o;
  ro_ids p o : r_player_entity_ids r !! p = Some o -> player_entity_id p c = o;
  ro_next n : r_next_entity_id r = Some n -> e_next_id (entities c) = n
}.
Lemma reads_ok_none c : reads_ok c no_reads.
Proof. by constructor; cbn; intros *; rewrite ?lookup_empty. Qed.

Lemma or_insert_Some `{Countable K} {A} (k : K) (a : A) m k' b :
  or_insert k a m !! k' = Some b -> m !! k' = Some b \/ (k' = k /\ b = a).
Proof.
  unfold or_insert. case_match; [auto|]. rewrite lookup_insert_Some. naive_solver.
Qed.
Lemma get_or_insert_Some {A} (a : A) o b : get_or_insert a o = Some b -> o = Some b \/ b = a.
Proof. destruct o; cbn; naive_solver. Qed.

Ltac noted :=
  intros []; constructor;
  cbn [r_world_meta r_player_snapshots r_block_states r_block_entities r_can_edit_block
    r_online_player_count r_saved_players r_player_entity_ids r_next_entity_id note_world_meta
    note_player note_block note_block_entity note_can_edit note_online_count note_saved
    note_entity_id note_next_entity]; try done; intros *; intros Hnoted;
  first [apply or_insert_Some in Hnoted as [?| [? ->]]|apply get_or_insert_Some in Hnoted as [?| ->]];
  simplify_eq; eauto.

Lemma reads_ok_meta c r : reads_ok c r -> reads_ok c (note_world_meta (world_meta c) r).
Proof. noted. Qed.
Lemma reads_ok_player c r p : reads_ok c r -> reads_ok c (note_player p (compose_player_snapshot p c) r).
Proof. noted. Qed.
Lemma reads_ok_block c r b : reads_ok c r -> reads_ok c (note_block b (block_state b c) r).
Proof. noted. Qed.
Lemma reads_ok_entity c r b : reads_ok c r -> reads_ok c (note_block_entity b (block_entity b c) r).
Proof. noted. Qed.
Lemma reads_ok_edit c r p b : reads_ok c r -> reads_ok c (note_can_edit p b (may_edit p b c) r).
Proof. noted. Qed.
Lemma reads_ok_count c r : reads_ok c r -> reads_ok c (note_online_count (online_player_count c) r).
Proof. noted. Qed.
Lemma reads_ok_saved c r p : reads_ok c r -> reads_ok c (note_saved p (saved_player p c) r).
Proof. noted. Qed.
Lemma reads_ok_ids c r p : reads_ok c r -> reads_ok c (note_entity_id p (player_entity_id p c) r).
Proof. noted. Qed.
Lemma reads_ok_next c r : reads_ok c r -> reads_ok c (note_next_entity (e_next_id (entities c)) r).
Proof. noted. Qed.

(** *** What the overlay does not touch *)

Lemma in_map_false `{Countable K} {A} (k : K) (m : gmap K A) : in_map k m = false -> m !! k = None.
Proof. intros Hin. apply bool_decide_eq_false in Hin. by apply eq_None_not_Some. Qed.

Lemma untouched_entry `{Countable K} {A} (k : K) (es : gmap K (option A)) b :
  in_map k es = false -> entry_or es k b = b.
Proof. intros Hk. unfold entry_or. by rewrite in_map_false. Qed.

Lemma untouched_player p tx : overlay_touches_player p tx = false ->
  compose_player_snapshot p (state tx) = compose_player_snapshot p (base (state tx)).
Proof.
  unfold overlay_touches_player. cbv zeta. intros H.
  destruct (in_map p (o_saved_players _) || in_map p (o_players _) || in_map p (o_sessions _)) eqn:E;
    [discriminate H|].
  apply orb_false_iff in E as [E Es]. apply orb_false_iff in E as [E Ep].
  pose proof (in_map_false _ _ Ep) as Hp. rewrite Hp in H. cbn [mjoin option_join] in H.
  unfold compose_player_snapshot. cbn [player_entity_id OverlayRead].
  rewrite (untouched_entry p _ _ Ep).
  destruct (player_entity_id p (base (state tx))) as [e|]; [|done].
  apply orb_false_iff in H as [H H6]. apply orb_false_iff in H as [H H5].
  apply orb_false_iff in H as [H H4]. apply orb_false_iff in H as [H H3].
  apply orb_false_iff in H as [H1 H2]. cbn [option_bind mbind].
  unfold compose_player_snapshot_by_entity.
  cbn [player_identity_by_entity player_transform_by_entity player_vitals_by_entity
    player_inventory_by_entity player_selected_hotbar_by_entity OverlayRead].
  by rewrite !untouched_entry.
Qed.

Lemma untouched_block b tx : overlay_touches_block b tx = false ->
  block_state b (state tx) = block_state b (base (state tx)).
Proof.
  intros H. apply in_map_false in H. cbn [block_state OverlayRead BaseRead]. by rewrite H.
Qed.
Lemma untouched_block_entity b tx : overlay_touches_block_entity b tx = false ->
  block_entity b (state tx) = block_entity b (base (state tx)).
Proof.
  intros H. apply orb_false_iff in H as [H _]. cbn [block_entity OverlayRead BaseRead].
  by apply untouched_entry.
Qed.
Lemma untouched_edit p b tx : overlay_may_affect_can_edit_block p b tx = false ->
  may_edit p b (state tx) = may_edit p b (base (state tx)).
Proof.
  unfold overlay_may_affect_can_edit_block. cbv zeta. intros H.
  apply orb_false_iff in H as [H Hk]. apply orb_false_iff in H as [H Hp].
  apply orb_false_iff in H as [H Ht]. apply orb_false_iff in H as [H _].
  apply negb_false_iff, bool_decide_eq_true in Hp, Ht.
  unfold may_edit. rewrite untouched_player by done. case_match; [|done].
  unfold can_edit_block_for_snapshot. repeat case_match; try done. f_equal.
  cbn [player_entity_ids player_transform_by_entity OverlayRead BaseRead].
  rewrite Hp, Ht. unfold overlay_entity_ids. rewrite dom_empty_L.
  apply existsb_pointwise. intros e. unfold entry_or. by rewrite lookup_empty.
Qed.

(** What holds of the transaction of a built-in command at any time. *)
Definition tx_valid (c : ServerCore) (now : Z) (tx : GameplayTransaction) : Prop :=
  tx_ok c now tx /\ reads_ok c (read_set tx) /\ live_base tx = Some c /\
  prepared_players tx = ∅ /\ Forall (fun op => op_harmless op = true) (journal tx).

Lemma tx_valid_new c now : tx_valid c now (tx_new c now).
Proof. split_and!; [apply tx_ok_new|apply reads_ok_none|done..]. Qed.

(** A read that is recorded when the overlay does not touch it. *)
Lemma keeps_read {A} c now (g : OverlayState -> A) touched (f : A -> GameplayReadSet -> GameplayReadSet) :
  (forall tx, tx_valid c now tx -> touched tx = false -> reads_ok c (f (g (state tx)) (read_set tx))) ->
  keeps (tx_valid c now) (o ← viewing g; note_unless touched (f o) ;; mret o).
Proof.
  intros Hf tx o tx' H Hv. apply V_bind_inv in H as (o' & tx1 & [= <- <-] & H).
  apply V_bind_inv in H as (u & tx2 & H & [= <- <-]). unfold note_unless in H.
  apply V_bind_inv in H as (t & tx3 & [= <- <-] & H).
  destruct (touched tx) eqn:Et; [injection H as _ <-; done|]. injection H as _ <-.
  pose proof (Hf tx Hv Et) as Hr. destruct Hv as ([] & _ & Hl & Hp & Hj).
  split_and!; [by constructor|done..].
Qed.

Lemma keeps_valid_player c now p : keeps (tx_valid c now) (tx_player_snapshot p).
Proof.
  apply keeps_read. intros tx (Hok & Hr & _) Ht. rewrite untouched_player by done.
  rewrite (to_base _ _ _ Hok). by apply reads_ok_player.
Qed.
Lemma keeps_valid_block c now b : keeps (tx_valid c now) (tx_block_state b).
Proof.
  apply keeps_read. intros tx (Hok & Hr & _) Ht. rewrite untouched_block by done.
  rewrite (to_base _ _ _ Hok). by apply reads_ok_block.
Qed.
Lemma keeps_valid_entity c now b : keeps (tx_valid c now) (tx_block_entity b).
Proof.
  apply keeps_read. intros tx (Hok & Hr & _) Ht. rewrite untouched_block_entity by done.
  rewrite (to_base _ _ _ Hok). by apply reads_ok_entity.
Qed.
Lemma keeps_valid_edit c now p b : keeps (tx_valid c now) (tx_can_edit_block p b).
Proof.
  apply keeps_read. intros tx (Hok & Hr & _) Ht. rewrite untouched_edit by done.
  rewrite (to_base _ _ _ Hok). by apply reads_ok_edit.
Qed.
Lemma keeps_valid_meta c now : keeps (tx_valid c now) tx_world_meta.
Proof.
  intros tx m tx' H (Hok & Hr & Hl). apply V_bind_inv in H as (m' & tx1 & [= <- <-] & H).
  apply V_bind_inv in H as (u & tx2 & [= <- <-] & [= <- <-]). split; [by destruct Hok|]. split; [|done].
  cbn [read_set set_reads]. change (w_meta (world (base (state tx)))) with (world_meta (base (state tx))).
  rewrite (to_base _ _ _ Hok). by apply reads_ok_meta.
Qed.
Hint Resolve keeps_valid_player keeps_valid_block keeps_valid_entity keeps_valid_edit
  keeps_valid_meta : keeps.

Definition effect_harmless (e : GameplayEffect) : bool := op_harmless (core_op_from_effect e).

Lemma keeps_valid_effect c now e :
  effect_harmless e = true -> keeps (tx_valid c now) (apply_effect_to_transaction e).
Proof.
  intros He tx u tx' H (Hok & Hr & Hl & Hp & Hj). split; [by eapply keeps_tx_effect|].
  rewrite effect_push in H. apply push_fields in H as (Hj' & Hr' & Hl' & Hp' & _).
  rewrite Hj', Hr', Hl', Hp'. split_and!; [done..|]. apply Forall_app. split; [done|].
  by apply Forall_singleton.
Qed.

Ltac push := first
  [ apply (keeps_valid_effect _ _ (EffectPlayerPose _ _ _ _ _))
  | apply (keeps_valid_effect _ _ (EffectSelectedHotbarSlot _ _))
  | apply (keeps_valid_effect _ _ (EffectInventorySlot _ _ _))
  | apply (keeps_valid_effect _ _ (EffectClearMining _))
  | apply (keeps_valid_effect _ _ (EffectBeginMining _ _ _))
  | apply (keeps_valid_effect _ _ (EffectOpenContainerAt _ _))
  | apply (keeps_valid_effect _ _ (EffectSetBlock _ _))
  | apply (keeps_valid_effect _ _ (EffectEmitEvent (mkEvent _ _))) ]; reflexivity.
Hint Extern 1 (keeps (tx_valid _ _) (tx_set_player_pose _ _ _ _ _)) => push : keeps.
Hint Extern 1 (keeps (tx_valid _ _) (tx_set_selected_hotbar_slot _ _)) => push : keeps.
Hint Extern 1 (keeps (tx_valid _ _) (tx_set_inventory_slot _ _ _)) => push : keeps.
Hint Extern 1 (keeps (tx_valid _ _) (tx_clear_mining _)) => push : keeps.
Hint Extern 1 (keeps (tx_valid _ _) (tx_begin_mining _ _ _)) => push : keeps.
Hint Extern 1 (keeps (tx_valid _ _) (tx_open_container_at _ _)) => push : keeps.
Hint Extern 1 (keeps (tx_valid _ _) (tx_set_block _ _)) => push : keeps.
Hint Extern 1 (keeps (tx_valid _ _) (tx_emit_event _ _)) => push : keeps.

Lemma keeps_rejection c now p hand b player : keeps (tx_valid c now) (place_rejection p hand b player).
Proof. unfold place_rejection. keeps_auto. Qed.
Lemma keeps_place c now p hand b face held : keeps (tx_valid c now) (place_block p hand b face held).
Proof. pose proof keeps_rejection. unfold place_block. keeps_auto. Qed.
Lemma keeps_dig c now p b status : keeps (tx_valid c now) (dig_block p b status).
Proof. unfold dig_block. keeps_auto. Qed.

Lemma keeps_command c now command : keeps (tx_valid c now) (run_gameplay_command command).
Proof.
  destruct command; cbn [run_gameplay_command].
  - auto with keeps.
  - unfold set_held_slot. keeps_auto.
  - unfold creative_inventory_set, reject_inventory_slot_events. keeps_auto.
  - apply keeps_dig.
  - apply keeps_place.
  - pose proof keeps_place. unfold use_block. keeps_auto.
Qed.

(** ** Nothing that was read has changed *)

Definition not_nan (x : spec_float) : bool := match x with S754_nan => false | _ => true end.
Definition vec3_not_nan (v : Vec3) : bool := not_nan (vx v) && not_nan (vy v) && not_nan (vz v).
Definition snapshot_not_nan (s : PlayerSnapshot) : bool :=
  vec3_not_nan (position s) && not_nan (yaw s) && not_nan (pitch s) && not_nan (health s) &&
  not_nan (food_saturation s).

Lemma SFeqb_refl x : not_nan x = true -> SFeqb x x = true.
Proof.
  destruct x as [[]|[]| |[] m e]; try done; intros _; unfold SFeqb; cbn;
    by rewrite Z.compare_refl, Pos.compare_refl.
Qed.
Lemma snapshot_eqb_refl s : snapshot_not_nan s = true -> snapshot_eqb s s = true.
Proof.
  unfold snapshot_not_nan, vec3_not_nan, snapshot_eqb, vec3_eqb. rewrite !andb_true_iff.
  intros (((([[? ?] ?] & ?) & ?) & ?) & ?).
  rewrite !SFeqb_refl, !Z.eqb_refl, String.eqb_refl, eqb_reflx, !bool_decide_true by done. done.
Qed.

(** The players whose snapshots the core can be asked for. *)
Definition nan_free (c : ServerCore) : Prop :=
  (forall p s, compose_player_snapshot p c = Some s -> snapshot_not_nan s = true) /\
  (forall p s, saved_player p c = Some s -> snapshot_not_nan s = true).

Lemma option_eqb_refl o : (forall s, o = Some s -> snapshot_not_nan s = true) ->
  option_eqb snapshot_eqb o o = true.
Proof. destruct o as [s|]; [|done]. intros H. by apply snapshot_eqb_refl, H. Qed.

Lemma all_entries_true `{Countable K} {A} (ok : K -> A -> bool) (m : gmap K A) :
  (forall k a, m !! k = Some a -> ok k a = true) -> all_entries ok m = true.
Proof.
  intros Hok. apply forallb_forall. intros [k a] Hin.
  apply Hok. by apply elem_of_map_to_list, list_elem_of_In.
Qed.
Lemma if_read_true {A} (ok : A -> bool) o : (forall a, o = Some a -> ok a = true) -> if_read ok o = true.
Proof. destruct o; cbn; auto. Qed.

Lemma reads_match_self c r : nan_free c -> reads_ok c r -> reads_match r c = true.
Proof.
  intros [Hn Hs] Hr. unfold reads_match. rewrite !andb_true_iff. split_and!;
    first [apply if_read_true; intros a Ha|apply all_entries_true; intros k a Ha].
  - by apply bool_decide_eq_true, (ro_meta c r Hr).
  - rewrite <- (ro_player c r Hr k a Ha). by apply option_eqb_refl, Hn.
  - by apply bool_decide_eq_true, (ro_block c r Hr).
  - by apply bool_decide_eq_true, (ro_entity c r Hr).
  - destruct k as [p b]. rewrite <- (ro_edit c r Hr p b a Ha). apply eqb_reflx.
  - by apply Z.eqb_eq, (ro_count c r Hr).
  - rewrite <- (ro_saved c r Hr k a Ha). by apply option_eqb_refl, Hs.
  - by apply bool_decide_eq_true, (ro_ids c r Hr).
  - by apply Z.eqb_eq, (ro_next c r Hr).
Qed.

(** The journal of a transaction that read nothing else is applied, and brings the core to
    what was previewed. *)
Lemma commit_ok c now tx :
  nan_free c -> tx_ok c now tx -> reads_ok c (read_set tx) -> live_base tx = Some c ->
  dom (prepared_players tx) ⊆ tx_finalized_players tx ->
  exists events, commit tx = Some (events, materialized (state tx)).
Proof.
  intros Hn Hok Hr Hl Hp. unfold commit. rewrite Hl. cbn [option_bind mbind].
  unfold validate_and_apply_gameplay_journal, into_journal. cbn [j_read_set j_ops j_now_ms].
  unfold mbind, V_bind, asks at 1. cbn [option_bind mbind]. rewrite reads_match_self by done.
  rewrite (to_now _ _ _ Hok). unfold apply_core_ops.
  destruct (run_replay now (finalized_players (journal tx)) (journal tx) (builder_new ∅) c
    (materialized (state tx))) as [events He].
  { apply (to_replay _ _ _ Hok). by rewrite (to_finalized _ _ _ Hok). }
  exists events. unfold fmap, V_fmap. unfold mbind, V_bind. rewrite He. done.
Qed.
End Commit.
