(* ===== verification/VoxelReach.v ===== *)
(** * Logins, and the cores the server can reach

    A login that begins on the exclusively borrowed core is finalized and commits; the
    built-in commands, the logins and the ticks keep the invariant of the core. *)

From Stdlib Require Import Floats.SpecFloat.
From S2P Require Import Prelude VoxelModel VoxelItems VoxelContent VoxelState VoxelOverlay VoxelWindow VoxelClick VoxelWorld VoxelEvents VoxelOps VoxelKeeps VoxelRefine VoxelTx VoxelInvariant VoxelCommit.

Section Reach.
Context {CB : ContentBehavior}.

(** ** Beginning a login *)

(** The transaction allocates the id on its overlay before the operation, which reserves
    it on the core. *)
Lemma spawn_reserved player now c :
  let e := e_next_id (entities c) in
  base_spawn_online_player player now (Some e) (upd_entities (set_e_next_id (i32_saturating_inc e)) c) =
  base_spawn_online_player player now (Some e) c.
Proof.
  cbv zeta. set (e := e_next_id (entities c)).
  assert (base_reserve_entity_id e (upd_entities (set_e_next_id (i32_saturating_inc e)) c) =
    base_reserve_entity_id e c) as Hr.
  { unfold base_reserve_entity_id.
    change (e_next_id (entities (upd_entities ?f c))) with (i32_saturating_inc e).
    change (e_next_id (entities c)) with e. rewrite Z.leb_refl. case_match; [|done].
    by destruct c as [? [] ?]. }
  unfold base_spawn_online_player. lazy beta iota zeta delta [mbind V_bind puts option_bind mret V_ret].
  by rewrite Hr.
Qed.

Lemma prepare_reserved now P p player c :
  let e := e_next_id (entities c) in
  reduce_core_op now P (PrepareLogin p player e)
    (upd_entities (set_e_next_id (i32_saturating_inc e)) c) =
  reduce_core_op now P (PrepareLogin p player e) c \/ p ∉ P.
Proof.
  cbv zeta. destruct (decide (p ∈ P)) as [HpP|]; [left|by right]. cbn [reduce_core_op].
  rewrite bool_decide_true by done. unfold mbind, V_bind.
  cbn [spawn_online_player BaseMut]. by rewrite spawn_reserved.
Qed.

Lemma replay_one now P op c c' :
  reduce_core_op now P op c = reduce_core_op now P op c' -> replay now P [op] c = replay now P [op] c'.
Proof. intros H. unfold replay, vfor_each, mbind, V_bind. by rewrite H. Qed.

Definition tx_start (live : option ServerCore) (c : ServerCore) (now : Z) : GameplayTransaction :=
  mkTx live (mkOverlayState c overlay_default) now ∅ ∅ [] no_reads.

Lemma begin_login_ok q name p live c now tx :
  core_ok c -> e_next_id (entities c) <= i32_max ->
  begin_login q name p (tx_start live c now) = Some (None, tx) ->
  let e := e_next_id (entities c) in
  tx_ok c now tx /\ reads_ok c (read_set tx) /\ live_base tx = live /\
  prepared_players tx = {[p := e]} /\ e_players (entities c) !! p = None /\
  exists player, p_id player = p /\ journal tx = [PrepareLogin p player e].
Proof.
  intros Hc Hn H. cbv zeta. set (e := e_next_id (entities c)). unfold begin_login in H.
  case_match; [discriminate H|].
  apply V_bind_inv in H as (n & t1 & [= <- <-] & H). apply V_bind_inv in H as (u1 & t2 & [= <- <-] & H).
  apply V_bind_inv in H as (cfg & t3 & [= <- <-] & H). case_match; [discriminate H|].
  apply V_bind_inv in H as (ex & t4 & [= <- <-] & H). apply V_bind_inv in H as (u2 & t5 & [= <- <-] & H).
  case_bool_decide as Hex; [discriminate H|].
  apply V_bind_inv in H as (saved & t6 & [= <- <-] & H).
  apply V_bind_inv in H as (u3 & t7 & [= <- <-] & H). cbv zeta in H.
  apply V_bind_inv in H as (inv & t8 & Hl & H). unfold vlift in Hl.
  apply bind_Some_intro in Hl as (inv' & _ & [= -> <-]).
  apply V_bind_inv in H as (next & t9 & [= <- <-] & H).
  apply V_bind_inv in H as (u4 & t10 & [= <- <-] & H).
  apply V_bind_inv in H as (e' & t11 & [= <- <-] & H).
  apply V_bind_inv in H as (players & t12 & [= <- <-] & H).
  match type of H with context [PrepareLogin p ?pl _] => set (player := pl) in H end.
  apply V_bind_inv in H as (u5 & t13 & Hp & H).
  apply V_bind_inv in H as (u6 & t14 & [= <- <-] & H).
  apply V_bind_inv in H as (u7 & t15 & [= <- <-] & [= <-]).
  assert (p_id player = p) as Hid.
  { unfold player, entry_or. cbn [p_id]. rewrite lookup_empty. cbn [default].
    destruct (w_saved_players (world c) !! p) as [o|] eqn:Ho; [|done]. by apply (ck_saved c Hc). }
  assert (e_players (entities c) !! p = None) as Hnew.
  { unfold entry_or in Hex. rewrite lookup_empty in Hex. by apply eq_None_not_Some. }
  clearbody player. unfold preview in Hp.
  apply bind_Some_intro in Hp as ([r s] & Hp & [= <- <-]).
  cbn [tx_start set_state set_reads state VoxelTx.now_ms] in Hp.
  split_and!; [| |done|done|done|by exists player].
  - constructor; cbn [push_op add_prepared set_state state journal prepared_players VoxelTx.now_ms].
    + by eapply keeps_based_reduce.
    + done.
    + intros P HP. assert (p ∈ P) as HpP by (apply HP; set_solver).
      rewrite (reduce_players now _ P) in Hp by set_solver.
      apply preview_replays in Hp; [|split; [exact Hn|done]].
      rewrite mat_set_next_id, materialized_default in Hp. rewrite <- Hp.
      apply replay_one. by destruct (prepare_reserved now P p player c).
    + done.
  - apply reads_ok_next, reads_ok_saved, reads_ok_ids.
    replace (online_player_count (mkOverlayState c overlay_default)) with (online_player_count c).
    + apply reads_ok_count, reads_ok_none.
    + unfold online_player_count. rewrite <- (rf_player_ids (abs := materialized)).
      by rewrite materialized_default.
Qed.

(** ** Finalizing it *)

Lemma spawn_online player now e c e' c' :
  base_spawn_online_player player now (Some e) c = Some (e', c') ->
  e_players (entities c') !! p_id player = Some e.
Proof.
  intros H. unfold base_spawn_online_player in H.
  apply V_bind_inv in H as (e1 & c1 & [= <- <-] & H).
  apply V_bind_inv in H as (u & c2 & [= <- <-] & H).
  apply V_bind_inv in H as (chunk & c3 & Hl & H). unfold vlift in Hl.
  apply bind_Some_intro in Hl as (chunk' & _ & [= -> <-]).
  apply V_bind_inv in H as (c4 & c5 & [= <- <-] & H).
  apply V_bind_inv in H as (u1 & c6 & [= <- <-] & H).
  apply V_bind_inv in H as (u2 & c7 & [= <- <-] & [= <- <-]). apply lookup_insert_eq.
Qed.

(** Who is online is not changed by a harmless operation. *)
Definition online (players : gmap PlayerId EntityId) (c : ServerCore) : Prop :=
  e_players (entities c) = players.
#[export] Instance online_keeps m : StateKeeps ServerCore (online m).
Proof.
  split; cbn [BaseMut ensure_chunk set_block_state set_block_entity player_session_mut
    player_session_inventory_mut player_transform_mut player_inventory_mut
    player_selected_hotbar_mut player_active_mining_mut remove_player_active_mining
    set_player_active_mining allocate_keep_alive_id set_container_viewers].
  - intros p s a s' H Hs. unfold base_ensure_chunk in H.
    apply bind_Some_intro in H as (chunk & _ & H). by simplify_eq; case_match.
  - intros p b s a s' H Hs. unfold set_block_at in H. cbn zeta in H.
    apply bind_Some_intro in H as (chunk & _ & H). by simplify_eq; case_match.
  - intros p b. by apply keeps_puts.
  - intros A p f _. by apply keeps_with_ref.
  - intros A p f _ s a s' H Hs. cbn [player_entity_id player_session player_inventory_by_entity BaseRead] in H.
    destruct (e_players (entities s) !! p); [|by simplify_eq].
    destruct (s_sessions (sessions s) !! p); [|by simplify_eq].
    destruct (e_inventory (entities s) !! _); [|by simplify_eq].
    apply bind_Some_intro in H as ([x [v' i']] & _ & H). by simplify_eq.
  - intros A e f. by apply keeps_with_ref.
  - intros A e f. by apply keeps_with_ref.
  - intros A e f. by apply keeps_with_ref.
  - intros A e f. by apply keeps_with_ref.
  - by intros e s a s' [= <- <-].
  - intros e m'. by apply keeps_puts.
  - by intros s a s' [= <- <-].
  - intros p v. by apply keeps_puts.
Qed.

(** A batch of harmless operations keeps the invariant. *)
Lemma keeps_replay (I : ServerCore -> Prop) `{!StateKeeps ServerCore I} now P ops :
  Forall (fun op => op_harmless op = true) ops -> keeps I (replay now P ops).
Proof.
  intros Hops. unfold replay. induction Hops as [|op ops Hop Hops IH]; cbn [vfor_each];
    [apply keeps_ret|].
  apply keeps_bind; [apply keeps_bind; [by apply keeps_reduce|intros; apply keeps_ret]|by intros].
Qed.

Lemma replay_app_inv now P ops1 ops2 : forall c c1 c2,
  replay now P ops1 c = Some (tt, c1) -> replay now P (ops1 ++ ops2) c = Some (tt, c2) ->
  replay now P ops2 c1 = Some (tt, c2).
Proof.
  induction ops1 as [|op ops1 IH]; intros c c1 c2 H1 H2; [by injection H1 as <-|].
  cbn [app replay vfor_each] in *. apply V_bind_inv in H1 as ([] & c3 & H1 & H3).
  apply V_bind_inv in H2 as ([] & c4 & H2 & H4). rewrite H1 in H2. injection H2 as <-.
  by eapply IH.
Qed.

(** The player of a login in progress is on the overlay, with its session. *)
Lemma prepared_online now p player c c' :
  core_ok c -> e_next_id (entities c) < i32_max -> p_id player = p -> e_players (entities c) !! p = None ->
  replay now {[p]} [PrepareLogin p player (e_next_id (entities c))] c = Some (tt, c') ->
  core_ok c' /\ e_players (entities c') !! p = Some (e_next_id (entities c)) /\
  e_next_id (entities c') = e_next_id (entities c) + 1.
Proof.
  intros Hc Hn Hid Hnew H. set (e := e_next_id (entities c)) in *. unfold replay, vfor_each in H.
  apply V_bind_inv in H as (u & c1 & H & [= <-]). apply V_bind_inv in H as (r & c2 & H & [= <- <-]).
  cbn [reduce_core_op] in H. rewrite bool_decide_true in H by set_solver.
  apply V_bind_inv in H as (u1 & c3 & H & [= <- <-]).
  apply V_bind_inv in H as (e' & c4 & H & [= <- <-]).
  assert (fresh_player c player e) as Hf.
  { split_and!; [by rewrite Hid| |done]. destruct (e_kinds (entities c) !! e) eqn:E; [|done].
    assert (e < e) by (apply (ck_kinds c Hc); eauto). lia. }
  pose proof (spawn_online _ _ _ _ _ _ H) as Hp. rewrite Hid in Hp.
  destruct (core_ok_spawn _ _ _ _ _ _ Hc Hf H) as [Hc' Hn']. split_and!; [done|done|].
  rewrite Hn'. unfold e in *. lia.
Qed.

Lemma finalize_login_ok q name p c now tx r tx' :
  core_ok c -> e_next_id (entities c) < i32_max ->
  begin_login q name p (tx_new c now) = Some (None, tx) -> finalize_login q p tx = Some (r, tx') ->
  r = inr tt /\ tx_ok c now tx' /\ reads_ok c (read_set tx') /\ live_base tx' = Some c /\
  dom (prepared_players tx') ⊆ tx_finalized_players tx' /\
  ok_next (e_next_id (entities c) + 1) (materialized (state tx')) /\
  player_entity_id p (materialized (state tx')) = Some (e_next_id (entities c)).
Proof.
  intros Hc Hn H Hf. apply (begin_login_ok _ _ _ (Some c)) in H as (Hok & Hr & Hl & Hp & Hnew & player & Hid & Hj); [|done|lia].
  pose proof (to_replay _ _ _ Hok {[p]}) as Hrep. rewrite Hp, Hj in Hrep.
  destruct (prepared_online now p player c (materialized (state tx))) as (Hm & Hpm & Hnm);
    [done..|by apply Hrep; set_solver|].
  destruct (core_ok_compose _ _ _ Hm Hpm) as (s & Hs & _).
  destruct (ck_player _ Hm _ _ Hpm) as ([v Hv] & _).
  unfold finalize_login, viewing in Hf. apply V_bind_inv in Hf as (o & t1 & [= <- <-] & Hf).
  apply V_bind_inv in Hf as (w & t2 & [= <- <-] & Hf).
  assert (compose_player_snapshot p (state tx) = Some s) as Hcs.
  { rewrite <- (rf_compose (abs := materialized)). apply bind_Some. by eexists. }
  assert (player_session p (state tx) = Some v) as Hcv.
  { by rewrite <- (rf_player_session (abs := materialized)). }
  rewrite Hcs in Hf. cbv beta iota in Hf.
  match type of Hf with
  | context [entry_or ?es p ?b] => change (entry_or es p b) with (player_session p (state tx)) in Hf
  end.
  rewrite Hcv in Hf.
  apply V_bind_inv in Hf as (u & t3 & [= <- <-] & Hf).
  apply V_bind_inv in Hf as (u1 & t4 & Hf & [= <- <-]).
  pose proof (push_fields _ _ _ _ Hf) as (Hj' & Hrd & Hl' & Hp' & Hf' & _).
  apply (push_spec c now) in Hf as (Hb' & Hn' & Hr'); [|done|done|apply Hok|apply Hok|apply Hok].
  cbn [add_finalized journal read_set live_base prepared_players tx_finalized_players] in *.
  assert (tx_finalized_players tx = ∅) as Hf0.
  { rewrite <- (to_finalized _ _ _ Hok), Hj. done. }
  assert (replay now {[p]} [FinalizeLogin q p] (materialized (state tx)) =
    Some (tt, materialized (state t4))) as Hfin.
  { eapply replay_app_inv; [|rewrite Hj' in Hr'; apply Hr'; rewrite Hp; set_solver].
    apply (to_replay _ _ _ Hok). rewrite Hp. set_solver. }
  assert (Forall (fun op => op_harmless op = true) [FinalizeLogin q p]) as Hh by (by constructor).
  split_and!; [done| |by rewrite Hrd|by rewrite Hl'|rewrite Hp', Hf', Hp; set_solver| |].
  - constructor; [done|done|by rewrite Hp'|]. rewrite Hj', Hj, Hf', Hf0. unfold finalized_players. cbn.
    set_solver.
  - by eapply (keeps_replay (ok_next _) now {[p]} _ Hh); [exact Hfin|split].
  - pose proof (keeps_replay (online (e_players (entities (materialized (state tx))))) now {[p]} _ Hh
      _ _ _ Hfin eq_refl) as Hon. exact (eq_trans (f_equal (lookup p) Hon) Hpm).
Qed.

(** ** Committing changes the core as the journal says *)

Lemma commit_runs tx events c' : commit tx = Some (events, c') ->
  exists c, live_base tx = Some c /\ apply_core_ops (journal tx) (VoxelTx.now_ms tx) ∅ c = Some (events, c').
Proof.
  unfold commit. intros H. apply bind_Some_intro in H as (c & Hc & H). exists c. split; [done|].
  apply bind_Some_intro in H as ([r c1] & Hv & H).
  unfold validate_and_apply_gameplay_journal in Hv.
  apply V_bind_inv in Hv as (ok & c2 & [= <- <-] & Hv). destruct (reads_match _ c).
  - apply fmap_inv in Hv as (ev & Hv & ->). by injection H as <- <-.
  - injection Hv as <- <-. discriminate H.
Qed.

Lemma keeps_run n now P ops b :
  Forall (fun op => op_harmless op = true) ops -> keeps (ok_next n) (run_core_ops now P b ops).
Proof.
  intros Hops. revert b. induction Hops as [|op ops Hop Hops IH]; intros b c events c' H Hc;
    [by injection H as _ <-|].
  apply run_cons in H as (r & c1 & ev & b1 & rest & Hr & _ & H & _). eapply IH; [exact H|].
  by eapply (keeps_reduce (I := ok_next n)).
Qed.

Lemma core_ok_harmless ops now hidden c events c' :
  Forall (fun op => op_harmless op = true) ops -> core_ok c ->
  apply_core_ops ops now hidden c = Some (events, c') -> core_ok c'.
Proof.
  intros Hops Hc H. pose proof (keeps_run (e_next_id (entities c)) _ _ _ _ Hops _ _ _ H) as Hk.
  apply Hk. by split.
Qed.

(** The journal of a login: the preparation, operations that let nobody in, the finalization. *)
Lemma core_ok_login now P p player ops hidden c events c' :
  core_ok c -> p_id player = p -> e_players (entities c) !! p = None ->
  e_next_id (entities c) + 1 + len ops <= i32_max -> Forall (fun op => is_prepare op = false) ops ->
  run_core_ops now P hidden (PrepareLogin p player (e_next_id (entities c)) :: ops) c = Some (events, c') ->
  core_ok c'.
Proof.
  intros Hc Hid Hnew Hn Hops H. apply run_cons in H as (r & c1 & ev & b1 & rest & Hr & _ & H & _).
  set (e := e_next_id (entities c)) in *.
  assert (core_ok c1 /\ e_next_id (entities c1) <= e + 1) as [Hc1 Hn1].
  { cbn [reduce_core_op] in Hr. apply V_bind_inv in Hr as (u & c2 & Hs & [= _ <-]).
    case_bool_decide; [|injection Hs as _ <-; split; [done|lia]].
    apply V_bind_inv in Hs as (e' & c3 & Hs & [= _ <-]).
    apply core_ok_spawn in Hs as [Hc1 ->]; [split; [done|lia]|done|].
    split_and!; [by rewrite Hid| |lia]. destruct (e_kinds (entities c) !! e) eqn:E; [|done].
    assert (e < e) by (apply (ck_kinds c Hc); eauto). lia. }
  eapply core_ok_run; [exact Hc1| |exact Hops|exact H]. lia.
Qed.

(** ** The reachable cores

    A step is a command, a tick, or the committed effects of a plugin; entity ids are not
    exhausted. *)
Inductive core_step : ServerCore -> ServerCore -> Prop :=
| step_command command now c events c' :
    apply_command command now c = Some (events, c') -> e_next_id (entities c) + 2 <= i32_max ->
    core_step c c'
| step_tick now c events c' :
    core_tick now c = Some (events, c') ->
    e_next_id (entities c) + len (scheduler_tick now (s_timeout_ms (sessions c)) c) <= i32_max ->
    core_step c c'
| step_effects batch c r c' :
    validate_and_apply_gameplay_effects batch c = Some (r, c') ->
    e_next_id (entities c) + len (b_effects batch) <= i32_max -> core_step c c'
| step_login q name p batch c r c' :
    validate_and_apply_login_effects q name p batch c = Some (r, c') ->
    e_next_id (entities c) + len (b_effects batch) + 2 <= i32_max -> core_step c c'.

Lemma effects_no_login effects :
  Forall (fun op => is_prepare op = false) (map core_op_from_effect effects).
Proof. apply Forall_fmap, Forall_true. by intros []. Qed.

(** The journal of a login whose preview a plugin extended. *)
Lemma login_journal q name p c now live tx effects u tx1 r tx2 :
  core_ok c -> e_next_id (entities c) <= i32_max ->
  begin_login q name p (tx_start live c now) = Some (None, tx) ->
  vfor_each apply_effect_to_transaction effects tx = Some (u, tx1) ->
  finalize_login q p tx1 = Some (inr r, tx2) ->
  VoxelTx.now_ms tx2 = now /\ live_base tx2 = live /\ e_players (entities c) !! p = None /\
  exists player, p_id player = p /\ journal tx2 =
    PrepareLogin p player (e_next_id (entities c)) ::
      map core_op_from_effect effects ++ [FinalizeLogin q p].
Proof.
  intros Hc Hn H He Hf.
  apply begin_login_ok in H as (Hok & _ & Hl & _ & Hnew & player & Hid & Hj); [|done..].
  assert (journal tx1 = journal tx ++ map core_op_from_effect effects /\ live_base tx1 = live_base tx /\
    VoxelTx.now_ms tx1 = VoxelTx.now_ms tx) as (Hj1 & Hl1 & Hn1).
  { clear -He. revert tx He. induction effects as [|e effects IH]; intros tx He.
    - injection He as _ <-. by rewrite app_nil_r.
    - cbn [vfor_each] in He. apply V_bind_inv in He as (u1 & t1 & H1 & He). rewrite effect_push in H1.
      apply push_fields in H1 as (Hj1 & _ & Hl1 & _ & _ & Hn1). apply IH in He as (-> & -> & ->).
      rewrite Hj1, <- app_assoc. done. }
  unfold finalize_login, viewing in Hf. apply V_bind_inv in Hf as (o & t1 & [= <- <-] & Hf).
  apply V_bind_inv in Hf as (w & t2 & [= <- <-] & Hf).
  destruct (compose_player_snapshot p (state tx1)); [|discriminate Hf]. cbv beta iota in Hf.
  match type of Hf with context [entry_or ?es p ?b] => destruct (entry_or es p b); [|discriminate Hf] end.
  apply V_bind_inv in Hf as (u1 & t3 & [= <- <-] & Hf).
  apply V_bind_inv in Hf as (u2 & t4 & Hf & [= _ <-]). apply push_fields in Hf as (Hj2 & _ & Hl2 & _ & _ & Hn2).
  cbn [add_finalized journal live_base VoxelTx.now_ms] in *.
  rewrite Hn2, Hn1, Hl2, Hl1, Hl. split_and!; [apply Hok|done|done|]. exists player.
  by rewrite Hj2, Hj1, Hj.
Qed.

(** A login's journal, once finalized, is applied to the core it was begun on. *)
Lemma core_ok_login_journal q name p c now live tx effects u tx1 r tx2 events c' :
  core_ok c -> e_next_id (entities c) + len effects + 2 <= i32_max ->
  begin_login q name p (tx_start live c now) = Some (None, tx) ->
  vfor_each apply_effect_to_transaction effects tx = Some (u, tx1) ->
  finalize_login q p tx1 = Some (inr r, tx2) ->
  apply_core_ops (journal tx2) now ∅ c = Some (events, c') -> core_ok c'.
Proof.
  intros Hc Hn H He Hf Ha.
  destruct (login_journal _ _ _ _ _ _ _ _ _ _ _ _ Hc ltac:(lia) H He Hf)
    as (_ & _ & Hnew & player & Hid & Hj).
  rewrite Hj in Ha. eapply core_ok_login; [exact Hc|exact Hid|exact Hnew| | |exact Ha].
  - rewrite length_app, length_map. cbn [length]. lia.
  - apply Forall_app. split; [apply effects_no_login|by constructor].
Qed.

Lemma core_ok_command command now c events c' :
  core_ok c -> e_next_id (entities c) + 2 <= i32_max ->
  apply_command command now c = Some (events, c') -> core_ok c'.
Proof.
  intros Hc Hn H. destruct command; cbn [apply_command] in H;
    try (by eapply core_ok_harmless; [|exact Hc|exact H]; repeat constructor).
  - unfold login_start in H. apply bind_Some_intro in H as ([[ev|] tx] & Hb & H); [by simplify_eq|].
    apply bind_Some_intro in H as ([[|u] tx1] & Hf & H); [discriminate H|].
    destruct (login_journal _ _ _ _ _ _ _ [] tt _ _ _ Hc ltac:(lia) Hb eq_refl Hf)
      as (Hnow & Hl & _).
    apply commit_runs in H as (c1 & Hl1 & H). rewrite Hl in Hl1. injection Hl1 as <-.
    rewrite Hnow in H.
    by eapply (core_ok_login_journal _ _ _ _ _ _ _ [] tt); [exact Hc|cbn; lia|exact Hb|reflexivity|exact Hf|exact H].
  - unfold apply_builtin_gameplay_command in H. apply bind_Some_intro in H as ([u tx] & Hr & H).
    destruct (keeps_command c now _ _ _ _ Hr (tx_valid_new c now)) as (Hok & _ & Hl & _ & Hj).
    apply commit_runs in H as (c1 & Hl1 & H). rewrite Hl in Hl1. injection Hl1 as <-.
    by eapply core_ok_harmless; [| |exact H].
  - eapply core_ok_apply_ops; [exact Hc| | |exact H]; [cbn; lia|by repeat constructor].
Qed.

Lemma core_ok_login_effects q name p batch c r c' :
  core_ok c -> e_next_id (entities c) + len (b_effects batch) + 2 <= i32_max ->
  validate_and_apply_login_effects q name p batch c = Some (r, c') -> core_ok c'.
Proof.
  intros Hc Hn H. unfold validate_and_apply_login_effects, login_preview_new in H.
  apply bind_Some_intro in H as (preview & Hp & H).
  apply bind_Some_intro in Hp as ([[ev|] tx] & Hb & [= <-]); [by simplify_eq|].
  destruct (semantic_reads_match _ _); [|by simplify_eq]. unfold finish_login_effects in H.
  apply bind_Some_intro in H as ([u tx1] & He & H).
  apply bind_Some_intro in H as ([[|u'] tx2] & Hf & H); [by simplify_eq|].
  destruct (login_journal _ _ _ _ _ None _ _ _ _ _ _ Hc ltac:(lia) Hb He Hf) as (Hnow & _).
  unfold validate_and_apply_gameplay_journal, into_journal in H.
  apply V_bind_inv in H as (ok & c2 & [= <- <-] & H). destruct (reads_match _ c); [|by injection H as _ <-].
  apply fmap_inv in H as (ev & H & _). cbn [j_ops j_now_ms] in H. rewrite Hnow in H.
  by eapply (core_ok_login_journal _ _ _ _ _ None);
    [exact Hc|exact Hn|exact Hb|exact He|exact Hf|exact H].
Qed.

Lemma core_ok_effects batch c r c' :
  core_ok c -> e_next_id (entities c) + len (b_effects batch) <= i32_max ->
  validate_and_apply_gameplay_effects batch c = Some (r, c') -> core_ok c'.
Proof.
  intros Hc Hn H. apply V_bind_inv in H as (ok & c1 & [= <- <-] & H).
  destruct (semantic_reads_match _ c); [|by injection H as _ <-].
  apply fmap_inv in H as (ev & H & _). eapply core_ok_apply_ops; [exact Hc| | |exact H].
  - by rewrite length_map.
  - apply effects_no_login.
Qed.

(** C2: the invariant [core_ok] holds of every core the server reaches: from an empty core, by
    commands (logins included), ticks, the committed effects of a plugin and the logins it
    extended, in any order, whether they are applied, rejected or in conflict. *)
Theorem reachable_core_ok config c : rtc core_step (core_new config) c -> core_ok c.
Proof.
  generalize (core_ok_new config). generalize (core_new config). intros c0 H0 Hsteps.
  induction Hsteps as [|c0 c1 c2 [] _ IH]; [done|..]; apply IH.
  - by eapply core_ok_command.
  - by eapply core_ok_tick.
  - by eapply core_ok_effects.
  - by eapply core_ok_login_effects.
Qed.

(** C35: a built-in command never conflicts on the core it borrows: unless a snapshot it could
    read holds a NaN, whenever its preview does not panic it commits, and the core is then
    exactly what was previewed. *)
Theorem command_commits command now c tx :
  nan_free c -> run_gameplay_command command (tx_new c now) = Some (tt, tx) ->
  exists events, apply_builtin_gameplay_command command now c = Some (events, materialized (state tx)).
Proof.
  intros Hn H. destruct (keeps_command c now _ _ _ _ H (tx_valid_new c now)) as (Hok & Hr & Hl & Hp & _).
  destruct (commit_ok c now tx) as [events He]; [done..|rewrite Hp; set_solver|].
  exists events. unfold apply_builtin_gameplay_command. by rewrite H.
Qed.


(** ** A NaN

    Rust's [PartialEq] of the snapshots is the IEEE one, so that the read of a player whose
    pose holds a NaN never matches. *)

Lemma snapshot_eqb_nan s : snapshot_not_nan s = false -> snapshot_eqb s s = false.
Proof.
  intros Hs. apply not_true_iff_false. intros Heq. apply not_true_iff_false in Hs. apply Hs.
  revert Heq. unfold snapshot_eqb, snapshot_not_nan, vec3_eqb, vec3_not_nan. rewrite !andb_true_iff.
  assert (forall x, SFeqb x x = true -> not_nan x = true) by (by intros []). naive_solver.
Qed.

Lemma all_entries_false `{Countable K} {A} (ok : K -> A -> bool) (m : gmap K A) k a :
  m !! k = Some a -> ok k a = false -> all_entries ok m = false.
Proof.
  intros Hk Hok. apply not_true_iff_false. unfold all_entries. rewrite forallb_forall. intros Hall.
  specialize (Hall (k, a)). cbn [fst snd] in Hall. rewrite Hok in Hall. discriminate Hall.
  by apply list_elem_of_In, elem_of_map_to_list.
Qed.

Lemma all_entries_elim `{Countable K} {A} (ok : K -> A -> bool) (m : gmap K A) k a :
  all_entries ok m = true -> m !! k = Some a -> ok k a = true.
Proof.
  intros Hall Hk. destruct (ok k a) eqn:E; [done|]. by rewrite (all_entries_false _ _ _ _ Hk E) in Hall.
Qed.

Lemma nan_free_check c :
  all_entries (fun p _ => match compose_player_snapshot p c with
                          | Some s => snapshot_not_nan s | None => true end)
    (e_players (entities c)) = true ->
  all_entries (fun _ => snapshot_not_nan) (w_saved_players (world c)) = true -> nan_free c.
Proof.
  intros Hp Hs. split.
  - intros p s Hc. pose proof Hc as Hc'. apply bind_Some in Hc' as (e & He & _).
    pose proof (all_entries_elim _ _ p e Hp He) as Hok. cbv beta in Hok. by rewrite Hc in Hok.
  - intros p s Hc. by apply (all_entries_elim _ _ p s Hs).
Qed.

Lemma reads_match_nan c r p s :
  compose_player_snapshot p c = Some s -> snapshot_not_nan s = false ->
  r_player_snapshots r !! p = Some (Some s) -> reads_match r c = false.
Proof.
  intros Hs Hnan Hr. unfold reads_match.
  rewrite (all_entries_false _ (r_player_snapshots r) p (Some s)); [by rewrite andb_false_r|done|].
  rewrite Hs. by apply snapshot_eqb_nan.
Qed.

Lemma in_map_empty `{Countable K} {A} (k : K) : in_map k (∅ : gmap K A) = false.
Proof. apply bool_decide_eq_false. rewrite lookup_empty. by intros []. Qed.

(** The first read of a transaction is recorded. *)
Lemma fresh_read c p now o tx :
  tx_player_snapshot p (tx_new c now) = Some (o, tx) ->
  o = compose_player_snapshot p c /\ r_player_snapshots (read_set tx) = {[p := o]}.
Proof.
  intros H. apply V_bind_inv in H as (o' & tx1 & [= <- <-] & H).
  assert (compose_player_snapshot p (mkOverlayState c overlay_default) = compose_player_snapshot p c) as Ho.
  { rewrite <- (rf_compose (abs := materialized)). by rewrite materialized_default. }
  rewrite Ho in H. apply V_bind_inv in H as (u & tx2 & H & [= <- <-]). unfold note_unless in H.
  apply V_bind_inv in H as (t & tx3 & [= <- <-] & H).
  assert (overlay_touches_player p (tx_new c now) = false) as Ht.
  { unfold overlay_touches_player. cbn [tx_new state overlay overlay_default o_saved_players o_players
      o_sessions o_identity o_transform o_vitals o_inventory o_hotbar o_mining].
    rewrite !in_map_empty. by repeat case_match; rewrite ?in_map_empty. }
  rewrite Ht in H. by injection H as _ <-.
Qed.

(** C38: a player whose position, rotation or health holds a NaN, which a movement can set,
    panics the server: selecting a hotbar slot reads its snapshot, which then is not equal to
    itself, and the commit takes that for a conflict. *)
Theorem nan_panics c p s slot now :
  compose_player_snapshot p c = Some s -> snapshot_not_nan s = false ->
  apply_builtin_gameplay_command (SetHeldSlot p slot) now c = None.
Proof.
  intros Hs Hnan. unfold apply_builtin_gameplay_command.
  destruct (run_gameplay_command _ _) as [[u tx]|] eqn:H; [|done]. cbn [option_bind mbind].
  destruct (commit tx) as [[events c']|] eqn:Hc; [exfalso|done].
  destruct (keeps_command c now _ _ _ _ H (tx_valid_new c now)) as (_ & _ & Hl & _).
  assert (r_player_snapshots (read_set tx) !! p = Some (Some s)) as Hr.
  { cbn [run_gameplay_command] in H. unfold set_held_slot in H.
    apply V_bind_inv in H as (o & tx1 & Ho & H).
    apply fresh_read in Ho as [Ho Hr1]. rewrite Hs in Ho. subst o.
    assert (forall op tx u tx', push_previewed_op op tx = Some (u, tx') ->
      r_player_snapshots (read_set tx') = r_player_snapshots (read_set tx)) as Hpush.
    { intros op t u' t' Hp. apply push_fields in Hp as (_ & -> & _). done. }
    case_match.
    - apply Hpush in H. rewrite H, Hr1. apply lookup_singleton_eq.
    - apply V_bind_inv in H as (u1 & tx2 & H1 & H). apply Hpush in H1, H. rewrite H, H1, Hr1.
      apply lookup_singleton_eq. }
  unfold commit in Hc. rewrite Hl in Hc. cbn [option_bind mbind] in Hc.
  unfold validate_and_apply_gameplay_journal in Hc. unfold mbind at 2, V_bind, asks in Hc.
  cbn [option_bind mbind into_journal j_read_set] in Hc. rewrite (reads_match_nan c _ p s) in Hc by done.
  discriminate Hc.
Qed.
End Reach.

(** ** A player logs in, selects a slot and turns *)

Definition core_after (command : CoreCommand) (now : Z) (c : ServerCore) : ServerCore :=
  match apply_command command now c with Some (_, c') => c' | None => c end.
Definition sample_online : ServerCore :=
  core_after (LoginStart 9 "alex" 7) 0 (core_new sample_config).
Definition sample_slot : CoreCommand := Gameplay (SetHeldSlot 7 3).
Definition sample_turned : ServerCore :=
  core_after (Gameplay (MoveIntent 7 None (Some S754_nan) None true)) 50 sample_online.
Definition tx_after {A} (m : V GameplayTransaction A) (tx : GameplayTransaction) : GameplayTransaction :=
  match m tx with Some (_, tx') => tx' | None => tx end.

Lemma tx_after_eq {A} (m : V GameplayTransaction A) a tx (is_a : A -> bool) :
  (forall a', is_a a' = true -> a' = a) ->
  match m tx with Some (a', _) => is_a a' | None => false end = true -> m tx = Some (a, tx_after m tx).
Proof.
  intros Ha. unfold tx_after. destruct (m tx) as [[a' tx']|]; [|done]. by intros ->%Ha.
Qed.

Lemma core_after_step command now c :
  e_next_id (entities c) + 2 <=? i32_max = true ->
  match apply_command command now c with Some _ => true | None => false end = true ->
  core_step c (core_after command now c).
Proof.
  intros Hn%Z.leb_le H. destruct (apply_command command now c) as [[events c']|] eqn:H1; [|done]. apply (step_command command now c events); [|done].
  unfold core_after. by rewrite H1.
Qed.
Lemma sample_reachable :
  rtc core_step (core_new sample_config) (core_after sample_slot 50 sample_online).
Proof.
  apply (rtc_l _ _ sample_online); [|apply rtc_once]; apply core_after_step; vm_compute; reflexivity.
Qed.

Lemma reachable_core_ok_witness :
  core_ok (core_after sample_slot 50 sample_online) /\
  e_hotbar (entities (core_after sample_slot 50 sample_online)) !! 1 = Some 3.
Proof.
  split; [|vm_compute; reflexivity]. apply (reachable_core_ok sample_config). apply sample_reachable.
Defined.

Lemma sample_nan_free : nan_free sample_online.
Proof. apply nan_free_check; vm_compute; reflexivity. Qed.

Lemma command_commits_witness :
  exists events, apply_builtin_gameplay_command (SetHeldSlot 7 3) 50 sample_online =
    Some (events, materialized (state (tx_after (run_gameplay_command (SetHeldSlot 7 3))
      (tx_new sample_online 50)))).
Proof.
  apply (command_commits (SetHeldSlot 7 3) 50 sample_online).
  - exact sample_nan_free.
  - apply (tx_after_eq _ _ _ (fun _ => true)); [by intros []|]. vm_compute. reflexivity.
Defined.

Definition sample_begun : GameplayTransaction :=
  tx_after (begin_login 9 "alex" 7) (tx_new (core_new sample_config) 0).
Definition sample_finalized : GameplayTransaction := tx_after (finalize_login 9 7) sample_begun.


Lemma nan_panics_witness :
  rtc core_step (core_new sample_config) sample_turned /\
  apply_builtin_gameplay_command (SetHeldSlot 7 3) 60 sample_turned = None.
Proof.
  split.
  - apply (rtc_l _ _ sample_online); [|apply rtc_once]; apply core_after_step; vm_compute; reflexivity.
  - apply (nan_panics sample_turned 7 (default sample_player (compose_player_snapshot 7 sample_turned)) 3 60);
      vm_compute; reflexivity.
Defined.
