(* ===== verification/VoxelHidden.v ===== *)
(** * Players whose login is in progress are not seen

    [CoreEventBuilder] filters the events of a batch: while a login is prepared and not yet
    finalized, nothing is sent to its player and no event names its entity. *)

From Stdlib Require Import Floats.SpecFloat.
From S2P Require Import Prelude VoxelModel VoxelItems VoxelContent VoxelState VoxelOverlay VoxelWindow VoxelClick VoxelWorld VoxelEvents VoxelOps VoxelKeeps VoxelRefine VoxelTx VoxelInvariant VoxelCommit VoxelReach.

(** The player an event is addressed to, or is kept from. *)
Definition addressed (t : EventTarget) : option PlayerId :=
  match t with ToPlayer p | EveryoneExcept p => Some p | ToConnection _ => None end.
(** The entities of players that an event names. *)
Definition named_entities (e : CoreEvent) : list EntityId :=
  match e with
  | EntityMoved id _ | EntitySpawned id _ | BlockBreakingProgress id _ _ _ => [id]
  | EntityDespawned ids => ids
  | _ => []
  end.
Definition unseen (p : PlayerId) (e : EntityId) (ev : TargetedEvent) : Prop :=
  addressed (target ev) <> Some p /\ e ∉ named_entities (event ev).

Section Hidden.
Context {CB : ContentBehavior}.

Lemma sanitize_unseen hidden entities p e ev ev' :
  p ∈ hidden -> e ∈ entities -> sanitize_hidden_event hidden entities ev = Some ev' -> unseen p e ev'.
Proof.
  intros Hp He H. unfold sanitize_hidden_event in H. cbv zeta in H.
  match type of H with
  | match _ with ToPlayer _ => if _ then None else ?x | _ => _ end = _ =>
      assert (x = Some ev' /\ addressed (target ev) <> Some p) as [Hs Ha]
  end.
  { destruct (target ev); [by split|..]; case_bool_decide; try done; (split; [done|]);
      intros [= ->]; done. }
  clear H. destruct (event ev) eqn:Hev;
    try (injection Hs as <-; split; [done|]; rewrite Hev; cbn; set_solver);
    try (case_bool_decide; [done|]; injection Hs as <-; split; [done|]; rewrite Hev; cbn; set_solver).
  destruct (filter _ entity_ids) as [|id ids] eqn:Hf; [done|]. injection Hs as <-. split; [done|].
  cbn [event named_entities]. rewrite <- Hf. intros Hin. apply list_elem_of_filter in Hin as [Hin _]. done.
Qed.

Definition hides (p : PlayerId) (e : EntityId) (b : CoreEventBuilder) : Prop :=
  p ∈ hidden_players b /\ hidden_player_entities b !! p = Some e.

(** The login an operation is about. *)
Definition op_login (op : CoreOp) : option PlayerId :=
  match op with PrepareLogin p _ _ | FinalizeLogin _ p => Some p | _ => None end.

Lemma build_unseen core applied b events b' p e :
  hides p e b' -> build core applied b = (events, b') -> Forall (unseen p e) events.
Proof.
  intros [Hp He] [= <- <-]. apply Forall_forall. intros ev Hin. unfold filter_hidden_events in Hin.
  apply list_elem_of_omap in Hin as (ev0 & _ & Hs). eapply sanitize_unseen; [exact Hp| |exact Hs].
  unfold hidden_entities. apply elem_of_union. left. apply elem_of_list_to_set, list_elem_of_fmap. exists (p, e). split; [done|].
  by apply (elem_of_map_to_list _ p e).
Qed.

Lemma build_hides core applied b p e :
  (forall q e', applied = AppliedPrepareLogin q e' -> q <> p) ->
  (forall q d, applied = AppliedFinalizeLogin q d -> q <> p) ->
  hides p e b -> hides p e (build core applied b).2.
Proof.
  intros Hprep Hfin [Hp He]. unfold build. cbn [snd].
  destruct applied as [q e'|q d| | | | | | | | | | | | | | | | | | | ]; try done.
  - pose proof (Hprep q e' eq_refl). split; cbn; [set_solver|by rewrite lookup_insert_ne].
  - pose proof (Hfin q d eq_refl). split; cbn; [set_solver|by rewrite lookup_delete_ne].
Qed.

(** What was applied is what the operation says. *)
Lemma reduce_login now P op (c : ServerCore) r c' p :
  op_login op <> Some p -> reduce_core_op now P op c = Some (r, c') ->
  (forall q e, r = AppliedPrepareLogin q e -> q <> p) /\
  (forall q d, r = AppliedFinalizeLogin q d -> q <> p).
Proof.
  intros Hop H. destruct op; cbn [reduce_core_op] in H;
    first [apply fmap_inv in H as (d & _ & ->) | apply V_bind_inv in H as (u & c1 & _ & [= <- _])
          | injection H as <- _ | idtac];
    split; intros; simplify_eq; try done; cbn in Hop; congruence.
Qed.

Lemma run_unseen now P p e ops : forall b c events c',
  hides p e b -> Forall (fun op => op_login op <> Some p) ops ->
  run_core_ops now P b ops c = Some (events, c') -> Forall (unseen p e) events.
Proof.
  induction ops as [|op ops IH]; intros b c events c' Hb Hops H; [by injection H as <- _|].
  apply Forall_cons in Hops as [Hop Hops].
  apply run_cons in H as (r & c1 & ev & b' & rest & Hr & Hbuild & H & ->).
  apply (reduce_login _ _ _ _ _ _ p) in Hr as [H1 H2]; [|done].
  assert (hides p e b') as Hb' by (pose proof (build_hides c1 r b p e H1 H2 Hb) as Hh; by rewrite Hbuild in Hh).
  apply Forall_app. split; [by eapply build_unseen|by eapply IH].
Qed.

(** From the moment its login is prepared until it is finalized, a player is not seen:
    whatever other operations the batch holds, no event of it is addressed to the player (or
    kept from it alone), and none moves, spawns or despawns its entity or shows it digging. *)
Theorem prepared_player_hidden now P b p player e ops c events c' :
  Forall (fun op => op_login op <> Some p) ops ->
  run_core_ops now P b (PrepareLogin p player e :: ops) c = Some (events, c') ->
  Forall (unseen p e) events.
Proof.
  intros Hops H. apply run_cons in H as (r & c1 & ev & b' & rest & Hr & Hbuild & H & ->).
  cbn [reduce_core_op] in Hr. apply V_bind_inv in Hr as (u & c2 & _ & [= <- <-]).
  assert (hides p e b') as Hb'.
  { injection Hbuild as _ <-. split; cbn; [set_solver|apply lookup_insert_eq]. }
  apply Forall_app. split; [by eapply build_unseen|by eapply run_unseen].
Qed.
End Hidden.

(** The second player of a server logs in, walks and starts to dig; the first one moves. *)
Definition sample_guest_ops : list CoreOp :=
  [PrepareLogin 8 (default_player 8 "steve" (mkBlockPos 0 4 0) creative_starter_inventory) 2;
   SetPlayerPose 8 None (Some (S754_zero false)) None true; BeginMining 8 (mkBlockPos 0 3 0) 50;
   SetPlayerPose 7 None (Some (S754_zero false)) None true; SetBlock (mkBlockPos 1 3 0) None].
Definition sample_guest_run : option (list TargetedEvent * ServerCore) :=
  run_core_ops 50 {[8]} (builder_new ∅) sample_guest_ops sample_online.
Definition sample_guest_events : list TargetedEvent := default [] (fst <$> sample_guest_run).

Lemma prepared_player_hidden_witness :
  Forall (unseen 8 2) sample_guest_events /\ length sample_guest_events = 1%nat.
Proof.
  split; [|vm_compute; reflexivity].
  assert (exists c', sample_guest_run = Some (sample_guest_events, c')) as [c' H].
  { assert (match sample_guest_run with Some _ => true | None => false end = true) as Hs
      by (vm_compute; reflexivity).
    unfold sample_guest_events. destruct sample_guest_run as [[ev c']|]; [by exists c'|done]. }
  unfold sample_guest_run, sample_guest_ops in H. revert H. generalize sample_guest_events.
  generalize sample_online. intros c events H. eapply prepared_player_hidden; [|exact H].
  by repeat constructor.
Defined.
