(* ===== verification/VoxelTransfer.v ===== *)
(** * Versions of the core and their transfer to another process
    ([crates/core/revy-voxel-core/src/core/version.rs])

    A [CoreVersion] is a published core with its revision; [CoreMutation] changes a copy of
    one and logs what it did, and the log, as a [CoreTransferCommit], is what a successor
    process replays.  The successor first imports a complete snapshot of a version and then
    applies deltas, sequences of encoded commits.  The CBOR codec (ciborium) and the
    allocator are not part of the program: they are [Cbor] and [alloc] here. *)

From stdpp Require Import sorting.
From Stdlib Require Import Floats.SpecFloat.
From S2P Require Import Prelude Bytes VoxelModel VoxelItems VoxelContent VoxelState VoxelOverlay VoxelWindow VoxelClick VoxelWorld VoxelEvents VoxelOps VoxelKeeps VoxelRefine VoxelTx VoxelInvariant VoxelCommit VoxelReach.

Definition CORE_TRANSFER_FORMAT_MAJOR : Z := 2.
Definition MAX_CORE_TRANSFER_BYTES : Z := 512 * 1024 * 1024.
Definition CORE_DELTA_MAGIC : list byte := map Z_byte [82; 86; 67; 68; 67; 79; 82; 69].
Definition CORE_DELTA_HEADER_BYTES : Z := len CORE_DELTA_MAGIC + 2 + 8 * 2 + 4.
Definition MAX_COMMITS : Z := 131072.

(** ** Revisions and versions *)

Definition CoreRevision : Type := Z.
Definition revision_initial : CoreRevision := 0.
Definition revision_next (r : CoreRevision) : CoreRevision := saturating_add u64_max r 1.

Record CoreVersion : Type := mkVersion { revision : CoreRevision; core_state : ServerCore }.
Definition version_initial (c : ServerCore) : CoreVersion := mkVersion revision_initial c.

(** ** Errors

    [InvalidState] carries what its message is formatted from. *)

Inductive InvalidReason : Type :=
| MagicInvalid | HeaderTruncated | FrameTruncated
| BaseMismatch (base imported : CoreRevision)
| NotAdjacent (base next revision : CoreRevision)
| EndedAt (revision declared : CoreRevision)
| LoginConflicted
| NonPlayerEntity (p : PlayerId) (e : EntityId)
| NoMatchingIdentity (p : PlayerId) (e : EntityId)
| MissingComponent (e : EntityId)
| NoLiveSession (p : PlayerId)
| IdentityNotIndexed (e : EntityId)
| SessionNotIndexed (p : PlayerId)
| NoDroppedKind (e : EntityId)
| NextIdOccupied
| RetentionNotActive
| BaseExceedsActive (base active : CoreRevision).

Inductive CoreTransferError : Type :=
| Codec (message : string)
| TransferBudgetExceeded (actual limit : Z)
| TransferAllocation (requested : Z)
| Output (message : string)
| TrailingBytes (remaining : Z)
| UnsupportedFormat (major : Z)
| InvalidState (reason : InvalidReason).

(** ** The codec

    [into_chunks v]: what [ciborium::ser::into_writer] writes, write by write, and the error
    it ends with, if the value cannot be serialized; a failing writer ends it early.
    [from_reader]: [ciborium::de::from_reader] on a slice, which it leaves at the rest. *)
Class Cbor (T : Type) : Type := {
  into_chunks : T -> list (list byte) * option string;
  from_reader : list byte -> string + (T * list byte)
}.

Inductive TransferWriteFailure : Type := WriteBudget (actual : Z) | WriteAllocation (requested : Z).
Record BoundedTransferWriter : Type := mkWriter {
  tw_bytes : list byte; tw_limit : Z; tw_failure : option TransferWriteFailure
}.
Definition writer_new (limit : Z) : BoundedTransferWriter := mkWriter [] limit None.
Definition writer_fail (f : TransferWriteFailure) (w : BoundedTransferWriter) : BoundedTransferWriter :=
  mkWriter (tw_bytes w) (tw_limit w) (Some f).

Section Codec.
(** Whether so many bytes can be reserved. *)
Context (alloc : Z -> bool).

(** [Write::write]: [false] is an error. *)
Definition transfer_write (data : list byte) (w : BoundedTransferWriter) : bool * BoundedTransferWriter :=
  let actual := len (tw_bytes w) + len data in
  if usize_max <? actual then (false, writer_fail (WriteBudget usize_max) w)
  else if tw_limit w <? actual then (false, writer_fail (WriteBudget actual) w)
  else if negb (alloc actual) then (false, writer_fail (WriteAllocation actual) w)
  else (true, mkWriter (tw_bytes w ++ data) (tw_limit w) (tw_failure w)).
(** [Write::write_all] calls it for what there is to write. *)
Fixpoint write_chunks (chunks : list (list byte)) (w : BoundedTransferWriter) :
    bool * BoundedTransferWriter :=
  match chunks with
  | [] => (true, w)
  | [] :: chunks => write_chunks chunks w
  | data :: chunks =>
      let '(ok, w) := transfer_write data w in if ok then write_chunks chunks w else (false, w)
  end.

Definition encode_transfer `{Cbor T} (v : T) (byte_limit : Z) : result CoreTransferError (list byte) :=
  let '(chunks, error) := into_chunks v in
  let '(ok, w) := write_chunks chunks (writer_new byte_limit) in
  match ok, error with
  | true, None => Ok (tw_bytes w)
  | _, _ =>
      match tw_failure w with
      | Some (WriteBudget actual) => Err (TransferBudgetExceeded actual byte_limit)
      | Some (WriteAllocation requested) => Err (TransferAllocation requested)
      | None => Err (Codec (default EmptyString error))
      end
  end.

Definition decode_transfer `{Cbor T} (bytes : list byte) : result CoreTransferError T :=
  if MAX_CORE_TRANSFER_BYTES <? len bytes
  then Err (TransferBudgetExceeded (len bytes) MAX_CORE_TRANSFER_BYTES)
  else match from_reader bytes with
       | inl message => Err (Codec message)
       | inr (v, []) => Ok v
       | inr (_, rest) => Err (TrailingBytes (len rest))
       end.

(** ** Reading a delta *)

Definition DeltaRead : Type -> Type := M CoreTransferError (list byte).
Definition delta_reader_new (bytes : list byte) : result CoreTransferError (list byte) :=
  if MAX_CORE_TRANSFER_BYTES <? len bytes
  then Err (TransferBudgetExceeded (len bytes) MAX_CORE_TRANSFER_BYTES)
  else if len bytes <? CORE_DELTA_HEADER_BYTES then Err (InvalidState HeaderTruncated)
  else Ok bytes.
Definition delta_read_bytes (n : Z) : DeltaRead (list byte) := fun remaining =>
  if len remaining <? n then (remaining, Err (InvalidState FrameTruncated))
  else (drop (Z.to_nat n) remaining, Ok (take (Z.to_nat n) remaining)).
Definition delta_read_le (n : nat) : DeltaRead Z :=
  bytes ← delta_read_bytes (Z.of_nat n); mret (from_le_bytes bytes).
Definition delta_finish : DeltaRead unit := fun remaining =>
  match remaining with
  | [] => (remaining, Ok tt)
  | _ => (remaining, Err (TrailingBytes (len remaining)))
  end.
End Codec.

(** ** Mutations and commits *)

Inductive CoreTransferMutation : Type :=
| MutCommand (command : CoreCommand) (now_ms : Z)
| MutBuiltinGameplayCommand (command : GameplayCommand) (now_ms : Z)
| MutBuiltinTick (now_ms : Z)
| MutGameplayEffects (now_ms : Z) (effects : list GameplayEffect)
| MutLoginEffects (connection_id : ConnectionId) (name : string) (player_id : PlayerId) (now_ms : Z)
    (effects : list GameplayEffect)
| MutSetMaxPlayers (max_players : Z)
| MutReconfigure (config : CoreConfig).

Record CoreTransferCommit : Type := mkCommit {
  ct_base_revision : CoreRevision;
  ct_next_revision : CoreRevision;
  ct_requires_persistence : bool;
  ct_mutations : list CoreTransferMutation
}.
Record EncodedCoreTransferCommit : Type := mkEncoded {
  ec_base_revision : CoreRevision;
  ec_next_revision : CoreRevision;
  ec_requires_persistence : bool;
  ec_bytes : list byte
}.
Definition encoded_len (c : EncodedCoreTransferCommit) : Z := len (ec_bytes c).

Definition commit_encode (alloc : Z -> bool) `{Cbor CoreTransferCommit} (c : CoreTransferCommit)
    (byte_limit : Z) : result CoreTransferError EncodedCoreTransferCommit :=
  bytes ← encode_transfer alloc c (Z.min byte_limit MAX_CORE_TRANSFER_BYTES);
  mret (mkEncoded (ct_base_revision c) (ct_next_revision c) (ct_requires_persistence c) bytes).

(** ** Sealing a delta *)

Record CoreTransferDelta : Type := mkDelta {
  delta_base_revision : CoreRevision; delta_final_revision : CoreRevision; delta_bytes : list byte
}.
Record DeltaDescriptor : Type := mkDescriptor {
  dd_base_revision : CoreRevision; dd_final_revision : CoreRevision; dd_encoded_len : Z
}.

Fixpoint validate_commits (commits : list EncodedCoreTransferCommit) (expected : CoreRevision)
    (length count : Z) : result CoreTransferError (CoreRevision * Z) :=
  match commits with
  | [] => Ok (expected, length)
  | c :: commits =>
      if usize_max <? count + 1 then Err (TransferBudgetExceeded usize_max MAX_COMMITS)
      else if MAX_COMMITS <? count + 1 then Err (TransferBudgetExceeded (count + 1) MAX_COMMITS)
      else if negb ((ec_base_revision c =? expected) && (ec_next_revision c =? revision_next expected))
      then Err (InvalidState (NotAdjacent (ec_base_revision c) (ec_next_revision c) expected))
      else if usize_max <? length + 4 + encoded_len c
      then Err (TransferBudgetExceeded usize_max MAX_CORE_TRANSFER_BYTES)
      else validate_commits commits (ec_next_revision c) (length + 4 + encoded_len c) (count + 1)
  end.
Definition validate_preencoded (base : CoreRevision) (commits : list EncodedCoreTransferCommit) :
    result CoreTransferError DeltaDescriptor :=
  '(final, length) ← validate_commits commits base CORE_DELTA_HEADER_BYTES 0;
  if MAX_CORE_TRANSFER_BYTES <? length
  then Err (TransferBudgetExceeded length MAX_CORE_TRANSFER_BYTES)
  else Ok (mkDescriptor base final length).

(** The destination: [write_all] of any [Write]; [inl]: its error. *)
Definition WriteAll (W : Type) : Type := list byte -> W -> string + W.

Fixpoint write_all_list {W} (write_all : WriteAll W) (l : list (list byte)) (w : W) :
    result CoreTransferError W :=
  match l with
  | [] => Ok w
  | bytes :: l =>
      match write_all bytes w with
      | inl message => Err (Output message)
      | inr w => write_all_list write_all l w
      end
  end.
Fixpoint write_frames {W} (write_all : WriteAll W) (commits : list EncodedCoreTransferCommit) (w : W) :
    result CoreTransferError W :=
  match commits with
  | [] => Ok w
  | c :: commits =>
      if u32_max <? encoded_len c then Err (TransferBudgetExceeded (encoded_len c) u32_max)
      else
        w ← write_all_list write_all [to_le_bytes 4 (encoded_len c); ec_bytes c] w;
        write_frames write_all commits w
  end.
Definition write_preencoded {W} (write_all : WriteAll W) (d : DeltaDescriptor)
    (commits : list EncodedCoreTransferCommit) (w : W) : result CoreTransferError W :=
  if u32_max <? len commits then Err (TransferBudgetExceeded (len commits) MAX_COMMITS)
  else
    w ← write_all_list write_all
      [CORE_DELTA_MAGIC; to_le_bytes 2 CORE_TRANSFER_FORMAT_MAJOR;
       to_le_bytes 8 (dd_base_revision d); to_le_bytes 8 (dd_final_revision d);
       to_le_bytes 4 (len commits)] w;
    write_frames write_all commits w.

Definition seal_preencoded_into {W} (write_all : WriteAll W) (base : CoreRevision)
    (commits : list EncodedCoreTransferCommit) (w : W) : result CoreTransferError (DeltaDescriptor * W) :=
  d ← validate_preencoded base commits;
  w ← write_preencoded write_all d commits w;
  mret (d, w).

(** A [Vec] takes every write. *)
Definition vec_write_all : WriteAll (list byte) := fun bytes w => inr (w ++ bytes).
(** A reservation of the transfer arena takes what fits its capacity; nothing is no write. *)
Definition overflow_message (capacity : Z) : string :=
  "transfer arena reservation received more than its " +:+ pretty capacity +:+ " byte capacity".
Definition slot_write_all (capacity : Z) : WriteAll (list byte) := fun bytes w =>
  if capacity - len w <? len bytes then inl (overflow_message capacity) else inr (w ++ bytes).
Definition seal_preencoded (alloc : Z -> bool) (base : CoreRevision)
    (commits : list EncodedCoreTransferCommit) : result CoreTransferError CoreTransferDelta :=
  d ← validate_preencoded base commits;
  if negb (alloc (dd_encoded_len d)) then Err (TransferAllocation (dd_encoded_len d))
  else
    bytes ← write_preencoded vec_write_all d commits [];
    mret (mkDelta base (dd_final_revision d) bytes).

(** [collect] of results in order: the first error. *)
Fixpoint collect_ok {E A B} (f : A -> result E B) (l : list A) : result E (list B) :=
  match l with
  | [] => Ok []
  | x :: l => y ← f x; ys ← collect_ok f l; mret (y :: ys)
  end.
Definition delta_prepare (alloc : Z -> bool) `{Cbor CoreTransferCommit} (base : CoreRevision)
    (commits : list CoreTransferCommit) : result CoreTransferError CoreTransferDelta :=
  encoded ← collect_ok (fun c => commit_encode alloc c MAX_CORE_TRANSFER_BYTES) commits;
  seal_preencoded alloc base encoded.

(** ** Replaying a delta *)

Section Replay.
Context {CB : ContentBehavior}.

(** A handler that panics takes the caller with it. *)
Definition or_panic {A} (o : option (A * ServerCore)) : result CoreTransferError ServerCore :=
  match o with Some (_, c) => Ok c | None => Panic end.

Definition mutation_apply (m : CoreTransferMutation) (c : ServerCore) :
    result CoreTransferError ServerCore :=
  match m with
  | MutCommand command now => or_panic (apply_command command now c)
  | MutBuiltinGameplayCommand command now =>
      or_panic (apply_builtin_gameplay_command command now c)
  | MutBuiltinTick now => or_panic (core_tick now c)
  | MutGameplayEffects now effects =>
      or_panic (apply_committed_gameplay_effects now effects c)
  | MutLoginEffects q name p now effects =>
      match apply_committed_login_effects q name p now effects c with
      | Some (Applied _, c) => Ok c
      | Some (Conflict, _) => Err (InvalidState LoginConflicted)
      | None => Panic
      end
  | MutSetMaxPlayers n => Ok (set_max_players n c)
  | MutReconfigure config => Ok (reconfigure config c)
  end.
Fixpoint apply_mutations (ms : list CoreTransferMutation) (c : ServerCore) :
    result CoreTransferError ServerCore :=
  match ms with
  | [] => Ok c
  | m :: ms => c ← mutation_apply m c; apply_mutations ms c
  end.

Context `{Cbor CoreTransferCommit}.

Fixpoint apply_delta_commits (n : nat) (r : CoreRevision) (c : ServerCore) :
    DeltaRead (CoreRevision * ServerCore) :=
  match n with
  | O => mret (r, c)
  | S n =>
      frame_len ← delta_read_le 4;
      frame ← delta_read_bytes frame_len;
      commit ← lift (decode_transfer frame);
      if negb ((ct_base_revision commit =? r) && (ct_next_revision commit =? revision_next r))
      then throw (InvalidState (NotAdjacent (ct_base_revision commit) (ct_next_revision commit) r))
      else
        c ← lift (apply_mutations (ct_mutations commit) c);
        apply_delta_commits n (ct_next_revision commit) c
  end.

Definition apply_process_transfer_delta (v : CoreVersion) (bytes : list byte) :
    result CoreTransferError CoreVersion :=
  reader ← delta_reader_new bytes;
  snd ((magic ← delta_read_bytes 8;
    if negb (bool_decide (magic = CORE_DELTA_MAGIC)) then throw (InvalidState MagicInvalid)
    else
      major ← delta_read_le 2;
      if negb (major =? CORE_TRANSFER_FORMAT_MAJOR) then throw (UnsupportedFormat major)
      else
        base ← delta_read_le 8;
        final ← delta_read_le 8;
        count ← delta_read_le 4;
        if MAX_COMMITS <? count then throw (TransferBudgetExceeded count MAX_COMMITS)
        else if negb (base =? revision v) then throw (InvalidState (BaseMismatch base (revision v)))
        else
          '(r, c) ← apply_delta_commits (Z.to_nat count) (revision v) (core_state v);
          delta_finish ;;
          if negb (r =? final) then throw (InvalidState (EndedAt r final))
          else mret (mkVersion r c)) reader).
End Replay.

(** ** The complete snapshot of a version *)

#[export] Instance EntityKind_eq_dec : EqDecision EntityKind.
Proof. solve_decision. Defined.

Record CoreTransferWorldV1 : Type := mkTransferWorld {
  tv_config : CoreConfig;
  tv_world_meta : WorldMeta;
  tv_chunks : gmap ChunkPos ChunkColumn;
  tv_block_entities : gmap BlockPos BlockEntityState;
  tv_container_viewers : gmap BlockPos WorldContainerViewers;
  tv_saved_players : gmap PlayerId PlayerSnapshot
}.
Record CoreTransferEntitiesV1 : Type := mkTransferEntities {
  tv_entity_kinds : gmap EntityId EntityKind;
  tv_players_by_player_id : gmap PlayerId EntityId;
  tv_player_identity : gmap EntityId PlayerIdentity;
  tv_player_transform : gmap EntityId PlayerTransform;
  tv_player_vitals : gmap EntityId PlayerVitals;
  tv_player_inventory : gmap EntityId PlayerInventory;
  tv_player_selected_hotbar : gmap EntityId Z;
  tv_player_active_mining : gmap EntityId ActiveMiningState;
  tv_dropped_items : gmap EntityId DroppedItemState;
  tv_next_entity_id : Z
}.
Record CoreTransferSessionsV1 : Type := mkTransferSessions {
  tv_player_sessions : gmap PlayerId PlayerSessionState;
  tv_next_keep_alive_id : Z;
  tv_keepalive_interval_ms : Z;
  tv_keepalive_timeout_ms : Z
}.
Record CoreTransferSnapshotV1 : Type := mkTransferSnapshot {
  tv_format_major : Z;
  tv_revision : CoreRevision;
  tv_world : CoreTransferWorldV1;
  tv_entities : CoreTransferEntitiesV1;
  tv_sessions : CoreTransferSessionsV1
}.

Definition from_version (v : CoreVersion) : CoreTransferSnapshotV1 :=
  let w := world (core_state v) in
  let e := entities (core_state v) in
  let s := sessions (core_state v) in
  mkTransferSnapshot CORE_TRANSFER_FORMAT_MAJOR (revision v)
    (mkTransferWorld (w_config w) (w_meta w) (w_chunks w) (w_block_entities w)
      (w_container_viewers w) (w_saved_players w))
    (mkTransferEntities (e_kinds e) (e_players e) (e_identity e) (e_transform e) (e_vitals e)
      (e_inventory e) (e_hotbar e) (e_mining e) (e_dropped e) (e_next_id e))
    (mkTransferSessions (s_sessions s) (s_next_keep_alive_id s) (s_interval_ms s) (s_timeout_ms s)).

(** The loops of [validate], each over its map in the order of the keys. *)
Fixpoint all_ok {A} (f : A -> result CoreTransferError unit) (l : list A) :
    result CoreTransferError unit :=
  match l with [] => Ok tt | x :: l => f x ;; all_ok f l end.
Definition ensure (ok : bool) (reason : InvalidReason) : result CoreTransferError unit :=
  if ok then Ok tt else Err (InvalidState reason).
Definition has_key {A} (e : EntityId) (m : gmap EntityId A) : bool := bool_decide (is_Some (m !! e)).

Definition validate_player (s : CoreTransferSnapshotV1) (p : PlayerId) : result CoreTransferError unit :=
  let t := tv_entities s in
  match tv_players_by_player_id t !! p with
  | None => Ok tt
  | Some e =>
      ensure (bool_decide (tv_entity_kinds t !! e = Some KindPlayer)) (NonPlayerEntity p e) ;;
      ensure (bool_decide (pi_player_id <$> tv_player_identity t !! e = Some p))
        (NoMatchingIdentity p e) ;;
      ensure (has_key e (tv_player_transform t) && has_key e (tv_player_vitals t) &&
              has_key e (tv_player_inventory t) && has_key e (tv_player_selected_hotbar t))
        (MissingComponent e) ;;
      ensure (bool_decide (ss_entity_id <$> tv_player_sessions (tv_sessions s) !! p = Some e))
        (NoLiveSession p)
  end.
Definition validate_identity (s : CoreTransferSnapshotV1) (e : EntityId) : result CoreTransferError unit :=
  match tv_player_identity (tv_entities s) !! e with
  | None => Ok tt
  | Some i =>
      ensure (bool_decide (tv_players_by_player_id (tv_entities s) !! pi_player_id i = Some e))
        (IdentityNotIndexed e)
  end.
Definition validate_session (s : CoreTransferSnapshotV1) (p : PlayerId) : result CoreTransferError unit :=
  match tv_player_sessions (tv_sessions s) !! p with
  | None => Ok tt
  | Some v =>
      ensure (bool_decide (tv_players_by_player_id (tv_entities s) !! p = Some (ss_entity_id v)))
        (SessionNotIndexed p)
  end.
Definition validate_dropped (s : CoreTransferSnapshotV1) (e : EntityId) : result CoreTransferError unit :=
  ensure (bool_decide (tv_entity_kinds (tv_entities s) !! e = Some KindDroppedItem)) (NoDroppedKind e).

Definition validate (s : CoreTransferSnapshotV1) : result CoreTransferError unit :=
  let t := tv_entities s in
  all_ok (validate_player s) (sorted_ids (dom (tv_players_by_player_id t))) ;;
  all_ok (validate_identity s) (sorted_ids (dom (tv_player_identity t))) ;;
  all_ok (validate_session s) (sorted_ids (dom (tv_player_sessions (tv_sessions s)))) ;;
  all_ok (validate_dropped s) (sorted_ids (dom (tv_dropped_items t))) ;;
  ensure (negb (has_key (tv_next_entity_id t) (tv_entity_kinds t))) NextIdOccupied.

Definition into_version (s : CoreTransferSnapshotV1) : result CoreTransferError CoreVersion :=
  if negb (tv_format_major s =? CORE_TRANSFER_FORMAT_MAJOR)
  then Err (UnsupportedFormat (tv_format_major s))
  else
    validate s ;;
    let w := tv_world s in
    let e := tv_entities s in
    let v := tv_sessions s in
    mret (mkVersion (tv_revision s) (mkCore
      (mkWorldStore (tv_config w) (tv_world_meta w) (tv_chunks w) (tv_block_entities w)
        (tv_container_viewers w) (tv_saved_players w))
      (mkEntityStore (tv_entity_kinds e) (tv_players_by_player_id e) (tv_player_identity e)
        (tv_player_transform e) (tv_player_vitals e) (tv_player_inventory e)
        (tv_player_selected_hotbar e) (tv_player_active_mining e) (tv_dropped_items e)
        (tv_next_entity_id e))
      (mkSessionStore (tv_player_sessions v) (tv_next_keep_alive_id v)
        (tv_keepalive_interval_ms v) (tv_keepalive_timeout_ms v)))).

Record CoreTransferSnapshot : Type := mkSnapshotBytes { sb_revision : CoreRevision; sb_bytes : list byte }.

Definition prepare_process_transfer (alloc : Z -> bool) `{Cbor CoreTransferSnapshotV1} (v : CoreVersion) :
    result CoreTransferError CoreTransferSnapshot :=
  bytes ← encode_transfer alloc (from_version v) MAX_CORE_TRANSFER_BYTES;
  mret (mkSnapshotBytes (revision v) bytes).
Definition import_process_transfer `{Cbor CoreTransferSnapshotV1} (bytes : list byte) :
    result CoreTransferError CoreVersion :=
  s ← decode_transfer bytes; into_version s.

(** ** Changing a version *)

Record CoreMutation : Type := mkMutation {
  cm_base_revision : CoreRevision;
  cm_state : ServerCore;
  cm_transfer_mutations : list CoreTransferMutation
}.
Definition mutation_from_version (v : CoreVersion) : CoreMutation :=
  mkMutation (revision v) (core_state v) [].

Section Mutation.
Context {CB : ContentBehavior}.

Definition on_core {A} (m : V ServerCore A) : V CoreMutation A := fun cm =>
  '(a, c) ← m (cm_state cm);
  Some (a, mkMutation (cm_base_revision cm) c (cm_transfer_mutations cm)).
Definition log_mutation (m : CoreTransferMutation) : V CoreMutation unit :=
  puts (fun cm => mkMutation (cm_base_revision cm) (cm_state cm) (cm_transfer_mutations cm ++ [m])).

Definition mut_apply_command (command : CoreCommand) (now : Z) : V CoreMutation (list TargetedEvent) :=
  events ← on_core (apply_command command now); log_mutation (MutCommand command now) ;; mret events.
Definition mut_apply_builtin_gameplay_command (command : GameplayCommand) (now : Z) :
    V CoreMutation (list TargetedEvent) :=
  events ← on_core (apply_builtin_gameplay_command command now);
  log_mutation (MutBuiltinGameplayCommand command now) ;; mret events.
Definition mut_tick (now : Z) : V CoreMutation (list TargetedEvent) :=
  events ← on_core (core_tick now); log_mutation (MutBuiltinTick now) ;; mret events.
Definition mut_gameplay_effects (batch : GameplayEffectBatch) : V CoreMutation GameplayApplyResult :=
  r ← on_core (validate_and_apply_gameplay_effects batch);
  match r, b_effects batch with
  | Applied _, _ :: _ =>
      log_mutation (MutGameplayEffects (b_now_ms batch) (b_effects batch)) ;; mret r
  | _, _ => mret r
  end.
Definition mut_login_effects (q : ConnectionId) (name : string) (p : PlayerId)
    (batch : GameplayEffectBatch) : V CoreMutation GameplayApplyResult :=
  r ← on_core (validate_and_apply_login_effects q name p batch);
  match r with
  | Applied _ =>
      log_mutation (MutLoginEffects q name p (b_now_ms batch) (b_effects batch)) ;; mret r
  | Conflict => mret r
  end.
Definition mut_set_max_players (n : Z) : V CoreMutation unit :=
  puts (fun cm => mkMutation (cm_base_revision cm) (set_max_players n (cm_state cm))
    (cm_transfer_mutations cm)) ;; log_mutation (MutSetMaxPlayers n).
Definition mut_reconfigure (config : CoreConfig) : V CoreMutation unit :=
  puts (fun cm => mkMutation (cm_base_revision cm) (reconfigure config (cm_state cm))
    (cm_transfer_mutations cm)) ;; log_mutation (MutReconfigure config).
End Mutation.

Record PreparedCoreCommit : Type := mkPrepared {
  pc_base_revision : CoreRevision;
  pc_next_version : CoreVersion;
  pc_events : list TargetedEvent;
  pc_requires_persistence : bool;
  pc_transfer_mutations : list CoreTransferMutation
}.
Definition prepare (cm : CoreMutation) (events : list TargetedEvent) (persistence : bool) :
    PreparedCoreCommit :=
  let next := match cm_transfer_mutations cm with
              | [] => cm_base_revision cm
              | _ => revision_next (cm_base_revision cm)
              end in
  mkPrepared (cm_base_revision cm) (mkVersion next (cm_state cm)) events persistence
    (cm_transfer_mutations cm).
Definition into_parts (p : PreparedCoreCommit) :
    CoreVersion * list TargetedEvent * bool * CoreTransferCommit :=
  (pc_next_version p, pc_events p, pc_requires_persistence p,
   mkCommit (pc_base_revision p) (revision (pc_next_version p)) (pc_requires_persistence p)
     (pc_transfer_mutations p)).

(** ** What an import admits *)

(** The links between the stores that [validate] asks for. *)
Record transfer_ok (c : ServerCore) : Prop := mkTransferOk {
  tk_player p e : e_players (entities c) !! p = Some e ->
    e_kinds (entities c) !! e = Some KindPlayer /\
    pi_player_id <$> e_identity (entities c) !! e = Some p /\
    (is_Some (e_transform (entities c) !! e) /\ is_Some (e_vitals (entities c) !! e) /\
     is_Some (e_inventory (entities c) !! e) /\ is_Some (e_hotbar (entities c) !! e)) /\
    ss_entity_id <$> s_sessions (sessions c) !! p = Some e;
  tk_identity e i : e_identity (entities c) !! e = Some i ->
    e_players (entities c) !! pi_player_id i = Some e;
  tk_session p v : s_sessions (sessions c) !! p = Some v ->
    e_players (entities c) !! p = Some (ss_entity_id v);
  tk_dropped e : is_Some (e_dropped (entities c) !! e) -> e_kinds (entities c) !! e = Some KindDroppedItem;
  tk_next : e_kinds (entities c) !! e_next_id (entities c) = None
}.

Lemma core_ok_transfer c : core_ok c -> transfer_ok c.
Proof.
  intros Hc. constructor.
  - intros p e He. destruct (ck_player c Hc p e He) as ([v Hv] & Hk & name & Hi).
    assert (is_Some (e_identity (entities c) !! e)) as Hs by eauto.
    split_and!; [done|by rewrite Hi|by apply (ck_transform c Hc)|by apply (ck_vitals c Hc)
      |by apply (ck_inventory c Hc)|by apply (ck_hotbar c Hc)|].
    pose proof (ck_session c Hc p v Hv) as Hp. rewrite He in Hp. injection Hp as ->. by rewrite Hv.
  - apply (ck_identity c Hc).
  - apply (ck_session c Hc).
  - apply (ck_dropped c Hc).
  - destruct (e_kinds (entities c) !! e_next_id (entities c)) eqn:E; [|done].
    assert (e_next_id (entities c) < e_next_id (entities c)) by (apply (ck_kinds c Hc); eauto). lia.
Qed.

Lemma result_bind_ok {E A B} (m : result E A) (f : A -> result E B) b :
  m ≫= f = Ok b <-> exists a, m = Ok a /\ f a = Ok b.
Proof. destruct m; cbn; split; [eauto|naive_solver|..]; intros; naive_solver. Qed.
Lemma ensure_ok ok reason : ensure ok reason = Ok tt <-> ok = true.
Proof. by destruct ok. Qed.
Lemma then_ok {E B} (m : result E unit) (k : result E B) b : (m ;; k) = Ok b <-> m = Ok tt /\ k = Ok b.
Proof. rewrite result_bind_ok. split; [intros ([] & ? & ?); done|intros [? ?]; by exists tt]. Qed.
Lemma all_ok_spec {A} (f : A -> result CoreTransferError unit) l :
  all_ok f l = Ok tt <-> forall x, x ∈ l -> f x = Ok tt.
Proof.
  induction l as [|x l IH]; cbn [all_ok]; [by split; [intros _ x Hx; set_solver|]|].
  rewrite then_ok, IH. set_solver.
Qed.

Lemma elem_of_sorted_ids {A} (m : gmap Z A) k : k ∈ sorted_ids (dom m) <-> is_Some (m !! k).
Proof.
  unfold sorted_ids. rewrite (merge_sort_Permutation Z.le (elements (dom m))), elem_of_elements.
  apply elem_of_dom.
Qed.
Lemma has_key_true {A} e (m : gmap EntityId A) : has_key e m = true <-> is_Some (m !! e).
Proof. apply bool_decide_eq_true. Qed.

Section Validate.
Context (v : CoreVersion).
Let c := core_state v.

Lemma validate_player_ok p e : e_players (entities c) !! p = Some e ->
  validate_player (from_version v) p = Ok tt <->
  e_kinds (entities c) !! e = Some KindPlayer /\
  pi_player_id <$> e_identity (entities c) !! e = Some p /\
  (is_Some (e_transform (entities c) !! e) /\ is_Some (e_vitals (entities c) !! e) /\
   is_Some (e_inventory (entities c) !! e) /\ is_Some (e_hotbar (entities c) !! e)) /\
  ss_entity_id <$> s_sessions (sessions c) !! p = Some e.
Proof.
  intros He. unfold validate_player. cbn [from_version tv_entities tv_sessions tv_players_by_player_id
    tv_player_identity tv_player_sessions tv_entity_kinds tv_player_transform tv_player_vitals
    tv_player_inventory tv_player_selected_hotbar].
  unfold c in He. rewrite He, !then_ok, !ensure_ok, !andb_true_iff, !has_key_true, !bool_decide_eq_true.
  unfold c. tauto.
Qed.
Lemma validate_identity_ok e i : e_identity (entities c) !! e = Some i ->
  validate_identity (from_version v) e = Ok tt <-> e_players (entities c) !! pi_player_id i = Some e.
Proof.
  intros He. unfold validate_identity. cbn. unfold c in He. rewrite He, ensure_ok. apply bool_decide_eq_true.
Qed.
Lemma validate_session_ok p w : s_sessions (sessions c) !! p = Some w ->
  validate_session (from_version v) p = Ok tt <-> e_players (entities c) !! p = Some (ss_entity_id w).
Proof.
  intros He. unfold validate_session. cbn. unfold c in He. rewrite He, ensure_ok. apply bool_decide_eq_true.
Qed.

Lemma validate_ok : validate (from_version v) = Ok tt <-> transfer_ok c.
Proof.
  unfold validate. rewrite !then_ok, !all_ok_spec, ensure_ok, negb_true_iff.
  cbn [from_version tv_entities tv_sessions tv_players_by_player_id tv_player_identity
    tv_player_sessions tv_dropped_items tv_next_entity_id tv_entity_kinds].
  setoid_rewrite elem_of_sorted_ids. fold c.
  assert (has_key (e_next_id (entities c)) (e_kinds (entities c)) = false <->
    e_kinds (entities c) !! e_next_id (entities c) = None) as ->
    by (rewrite <- not_true_iff_false, has_key_true; symmetry; apply eq_None_not_Some).
  split.
  - intros (Hp & Hi & Hs & Hd & Hn). constructor; [..|exact Hn].
    + intros p e He. apply validate_player_ok; [done|]. apply Hp. eauto.
    + intros e i He. apply validate_identity_ok; [done|]. apply Hi. eauto.
    + intros p w Hw. apply validate_session_ok; [done|]. apply Hs. eauto.
    + intros e He. apply Hd in He. by apply ensure_ok, bool_decide_eq_true in He.
  - intros [Hp Hi Hs Hd Hn]. split_and!; [..|exact Hn].
    + intros p [e He]. apply (validate_player_ok p e He). by apply Hp.
    + intros e [i He]. apply (validate_identity_ok e i He). by apply Hi.
    + intros p [w Hw]. apply (validate_session_ok p w Hw). by apply Hs.
    + intros e He. apply ensure_ok, bool_decide_eq_true. by apply Hd.
Qed.
End Validate.

Lemma from_version_into s v : from_version v = s -> 
  into_version s = (validate s ;; Ok v).
Proof. intros <-. by destruct v as [r [[] [] []]]. Qed.

(** C37: the import of a snapshot admits exactly the versions whose stores are linked: it
    succeeds with a version if and only if the snapshot has the supported format, is that
    version's snapshot, field by field, and every player has its entity of the right kind, its
    identity, its components and its session, every identity and session its player, every
    dropped item its kind, and the next entity id is unused. *)
Theorem into_version_exact s v :
  into_version s = Ok v <->
  tv_format_major s = CORE_TRANSFER_FORMAT_MAJOR /\ from_version v = s /\ transfer_ok (core_state v).
Proof.
  split.
  - intros H. assert (tv_format_major s = CORE_TRANSFER_FORMAT_MAJOR /\ from_version v = s) as [Hf Hs].
    { unfold into_version in H. destruct (negb _) eqn:Ef; [done|].
      apply negb_false_iff, Z.eqb_eq in Ef. split; [done|].
      apply then_ok in H as [_ [= <-]]. destruct s as [? ? [] [] []]. cbn in Ef. by subst. }
    split_and!; [done|done|]. rewrite (from_version_into s v Hs) in H.
    apply then_ok in H as [H _]. rewrite <- Hs in H. by apply validate_ok.
  - intros (_ & Hs & Hok). rewrite (from_version_into s v Hs). apply then_ok. split; [|done].
    rewrite <- Hs. by apply validate_ok.
Qed.

(** ** Round trips

    The codec reads back what it wrote, whatever follows. *)
Definition codec_ok `{Cbor T} (v : T) : Prop :=
  exists chunks, into_chunks v = (chunks, None) /\
    forall rest, from_reader (mjoin chunks ++ rest) = inr (v, rest).

Lemma write_chunks_ok alloc chunks : forall w w',
  write_chunks alloc chunks w = (true, w') ->
  tw_bytes w' = tw_bytes w ++ mjoin chunks /\ tw_limit w' = tw_limit w /\
  (len (tw_bytes w) <= tw_limit w -> len (tw_bytes w') <= tw_limit w).
Proof.
  induction chunks as [|data chunks IH]; intros w w' H.
  - injection H as <-. cbn. by rewrite app_nil_r.
  - cbn [write_chunks] in H. destruct data as [|b data]; [by apply IH in H|].
    set (d := b :: data) in *. destruct (transfer_write alloc d w) as [ok w1] eqn:E.
    destruct ok; [|done]. unfold transfer_write in E. cbv zeta in E.
    repeat (case_match; [by injection E|]). injection E as <-. apply IH in H as (Hb & Hl & Hlim).
    cbn [tw_bytes tw_limit] in *. rewrite mjoin_cons, app_assoc. split_and!; [done|done|].
    intros _. apply Hlim. rewrite length_app, Nat2Z.inj_add. by apply Z.ltb_ge.
Qed.

Lemma encode_len alloc `{Cbor T} (v : T) limit bytes :
  0 <= limit -> encode_transfer alloc v limit = Ok bytes -> len bytes <= limit.
Proof.
  intros Hl He. unfold encode_transfer in He. destruct (into_chunks v) as [chunks error].
  destruct (write_chunks _ _ _) as [ok w] eqn:Ew.
  destruct ok; [|by destruct (tw_failure w) as [[]|]].
  destruct error; [by destruct (tw_failure w) as [[]|]|]. injection He as <-.
  apply write_chunks_ok in Ew as (_ & _ & Hlim). by apply Hlim.
Qed.

Lemma encode_decode alloc `{Cbor T} (v : T) limit bytes :
  codec_ok v -> 0 <= limit <= MAX_CORE_TRANSFER_BYTES -> encode_transfer alloc v limit = Ok bytes ->
  len bytes <= limit /\ decode_transfer bytes = Ok v.
Proof.
  intros (chunks & Hc & Hr) Hl He. unfold encode_transfer in He. rewrite Hc in He.
  destruct (write_chunks _ _ _) as [ok w] eqn:Ew. destruct ok.
  2:{ by destruct (tw_failure w) as [[]|]. }
  injection He as <-. apply write_chunks_ok in Ew as (Hb & _ & Hlim). cbn in Hb, Hlim.
  assert (len (tw_bytes w) <= limit) as Hlen by (apply Hlim; lia). split; [done|].
  unfold decode_transfer. rewrite (proj2 (Z.ltb_ge _ _)) by lia.
  rewrite Hb, <- (app_nil_r (mjoin chunks)), Hr. done.
Qed.

(** Handing a whole core over loses nothing: the snapshot of a version whose core satisfies
    the invariant of the reachable cores passes the import's validation, and what is imported
    is that version: every store, every session and timer, and the revision. *)
Theorem snapshot_roundtrip alloc `{Cbor CoreTransferSnapshotV1} v s :
  core_ok (core_state v) -> codec_ok (from_version v) -> prepare_process_transfer alloc v = Ok s ->
  sb_revision s = revision v /\ import_process_transfer (sb_bytes s) = Ok v.
Proof.
  intros Hc Hcodec Hp. unfold prepare_process_transfer in Hp.
  apply result_bind_ok in Hp as (bytes & He & [= <-]). split; [done|].
  apply encode_decode in He as [_ Hd]; [|done|unfold MAX_CORE_TRANSFER_BYTES; lia].
  unfold import_process_transfer. cbn [sb_bytes]. rewrite Hd. cbn [mbind result_bind].
  rewrite (from_version_into _ v eq_refl). apply then_ok. split; [|done].
  by apply validate_ok, core_ok_transfer.
Qed.

(** *** Deltas *)

Lemma write_all_list_vec l : forall w, write_all_list vec_write_all l w = Ok (w ++ mjoin l).
Proof.
  induction l as [|x l IH]; intros w; cbn [write_all_list]; [by rewrite app_nil_r|].
  unfold vec_write_all at 1. by rewrite IH, mjoin_cons, app_assoc.
Qed.
Definition frame (c : EncodedCoreTransferCommit) : list byte := to_le_bytes 4 (encoded_len c) ++ ec_bytes c.
Definition delta_header (d : DeltaDescriptor) (count : Z) : list byte :=
  CORE_DELTA_MAGIC ++ to_le_bytes 2 CORE_TRANSFER_FORMAT_MAJOR ++ to_le_bytes 8 (dd_base_revision d) ++
  to_le_bytes 8 (dd_final_revision d) ++ to_le_bytes 4 count.

Lemma write_frames_vec commits : forall w,
  Forall (fun c => encoded_len c <= u32_max) commits ->
  write_frames vec_write_all commits w = Ok (w ++ mjoin (map frame commits)).
Proof.
  induction commits as [|c commits IH]; intros w Hf; cbn [write_frames map]; [by rewrite app_nil_r|].
  apply Forall_cons in Hf as [Hc Hf]. rewrite (proj2 (Z.ltb_ge _ _) Hc), write_all_list_vec.
  cbn [mbind result_bind]. rewrite IH by done. f_equal. rewrite mjoin_cons. unfold frame.
  cbn [mjoin list_join]. rewrite app_nil_r. by rewrite <- !app_assoc.
Qed.

(** The commits lead from one revision to the other, one step each. *)
Fixpoint adjacent (r : CoreRevision) (commits : list EncodedCoreTransferCommit) (final : CoreRevision) :
    Prop :=
  match commits with
  | [] => r = final
  | c :: commits =>
      ec_base_revision c = r /\ ec_next_revision c = revision_next r /\
      adjacent (ec_next_revision c) commits final
  end.
Definition frames_len (commits : list EncodedCoreTransferCommit) : Z :=
  sum_Z (map (fun c => 4 + encoded_len c) commits).

Lemma encoded_len_nonneg c : 0 <= encoded_len c.
Proof. unfold encoded_len. lia. Qed.
Lemma frames_len_nonneg l : 0 <= frames_len l.
Proof.
  unfold frames_len. induction l as [|c l IH]; cbn; [lia|]. pose proof (encoded_len_nonneg c).
  unfold sum_Z in IH. lia.
Qed.

Lemma validate_commits_ok commits : forall expected length count final length',
  validate_commits commits expected length count = Ok (final, length') -> count <= MAX_COMMITS ->
  adjacent expected commits final /\ length' = length + frames_len commits /\
  count + len commits <= MAX_COMMITS.
Proof.
  induction commits as [|c commits IH]; intros expected length count final length' H Hc.
  - injection H as <- <-. cbn. split_and!; [done|lia|lia].
  - cbn [validate_commits] in H. do 2 (case_test; [discriminate H|]).
    destruct (negb _) eqn:Ea; [discriminate H|]. case_test; [discriminate H|].
    apply negb_false_iff, andb_true_iff in Ea as [Eb%Z.eqb_eq En%Z.eqb_eq].
    apply IH in H as (Hadj & Hlen & Hcount); [|lia]. cbn [adjacent Datatypes.length].
    unfold frames_len in *. cbn [map sum_Z foldr]. unfold sum_Z in Hlen.
    split_and!; [done|done|done|lia|lia].
Qed.

Lemma adjacent_range r commits final : 0 <= r <= u64_max -> adjacent r commits final -> r <= final <= u64_max.
Proof.
  revert r. induction commits as [|c commits IH]; intros r Hr; cbn; [intros ->; lia|].
  intros (_ & Hn & Ha). apply IH in Ha; rewrite Hn in *; unfold revision_next, saturating_add in *; lia.
Qed.

(** What sealing writes, and how much. *)
Lemma validate_preencoded_ok base commits d :
  validate_preencoded base commits = Ok d ->
  d = mkDescriptor base (dd_final_revision d) (CORE_DELTA_HEADER_BYTES + frames_len commits) /\
  adjacent base commits (dd_final_revision d) /\ len commits <= MAX_COMMITS /\
  CORE_DELTA_HEADER_BYTES + frames_len commits <= MAX_CORE_TRANSFER_BYTES.
Proof.
  unfold validate_preencoded. intros H. apply result_bind_ok in H as ([final length] & Hv & H).
  case_test; [done|]. injection H as <-. apply validate_commits_ok in Hv as (Ha & -> & Hc); [|done].
  cbn [dd_final_revision]. split_and!; [done|done|lia|lia].
Qed.
Lemma frame_lens l : frames_len l <= MAX_CORE_TRANSFER_BYTES -> Forall (fun c => encoded_len c <= u32_max) l.
Proof.
  induction l as [|c l IH]; intros Hl; constructor; unfold frames_len in *; cbn in Hl.
  - pose proof (frames_len_nonneg l). unfold frames_len, sum_Z in *. unfold MAX_CORE_TRANSFER_BYTES, u32_max in *.
    lia.
  - apply IH. pose proof (encoded_len_nonneg c). unfold sum_Z. lia.
Qed.
Lemma length_frames l : len (mjoin (map frame l)) = frames_len l.
Proof.
  induction l as [|c l IH]; [done|]. cbn [map]. rewrite mjoin_cons, length_app, Nat2Z.inj_add, IH.
  unfold frame, frames_len. cbn [map sum_Z foldr]. rewrite length_app, length_to_le_bytes.
  unfold encoded_len, sum_Z. lia.
Qed.

Lemma seal_vec base commits d w :
  seal_preencoded_into vec_write_all base commits w = Ok d ->
  d.2 = w ++ delta_header d.1 (len commits) ++ mjoin (map frame commits) /\
  validate_preencoded base commits = Ok d.1.
Proof.
  intros H. apply result_bind_ok in H as (dd & Hv & H). apply result_bind_ok in H as (bytes & Hw & [= <-]).
  split; [|done]. cbn [fst snd]. pose proof (validate_preencoded_ok _ _ _ Hv) as (_ & _ & Hc & Hl).
  unfold write_preencoded in Hw. case_test; [done|]. rewrite write_all_list_vec in Hw.
  cbn [mbind result_bind] in Hw. rewrite write_frames_vec in Hw.
  - injection Hw as <-. unfold delta_header. rewrite <- !app_assoc. reflexivity.
  - apply frame_lens. unfold CORE_DELTA_HEADER_BYTES in Hl. cbn in Hl. lia.
Qed.
(** Sealing adjacent commits within the limits succeeds. *)
Lemma validate_commits_complete commits : forall r final length count,
  adjacent r commits final -> 0 <= count -> count + len commits <= MAX_COMMITS ->
  length + frames_len commits <= usize_max ->
  validate_commits commits r length count = Ok (final, length + frames_len commits).
Proof.
  induction commits as [|c commits IH]; intros r final length count Ha Hc Hn Hl.
  - cbn in *. subst. by rewrite Z.add_0_r.
  - destruct Ha as (Hb & Hx & Ha). cbn [validate_commits]. cbn [Datatypes.length] in Hn.
    assert (frames_len (c :: commits) = 4 + encoded_len c + frames_len commits) as Hf by done.
    pose proof (frames_len_nonneg commits). rewrite Hf in Hl |- *.
    assert (MAX_COMMITS <= usize_max) by done.
    rewrite !(proj2 (Z.ltb_ge _ _)) by lia. rewrite Hb, Hx, !Z.eqb_refl. cbn [andb negb].
    rewrite (IH _ final) by (rewrite <- ?Hx; done || lia). do 2 f_equal. lia.
Qed.
Lemma seal_vec_complete base commits final :
  adjacent base commits final -> len commits <= MAX_COMMITS ->
  CORE_DELTA_HEADER_BYTES + frames_len commits <= MAX_CORE_TRANSFER_BYTES ->
  exists bytes, seal_preencoded_into vec_write_all base commits [] =
    Ok (mkDescriptor base final (CORE_DELTA_HEADER_BYTES + frames_len commits), bytes) /\
    len bytes = CORE_DELTA_HEADER_BYTES + frames_len commits.
Proof.
  intros Ha Hn Hl. set (d := mkDescriptor base final (CORE_DELTA_HEADER_BYTES + frames_len commits)).
  assert (MAX_CORE_TRANSFER_BYTES <= usize_max) by done.
  assert (seal_preencoded_into vec_write_all base commits [] =
    Ok (d, delta_header d (len commits) ++ mjoin (map frame commits))) as Hs.
  { unfold seal_preencoded_into, validate_preencoded.
    rewrite (validate_commits_complete _ _ final) by (done || lia). cbn [mbind result_bind].
    rewrite (proj2 (Z.ltb_ge _ _) Hl). cbn [mbind result_bind]. unfold write_preencoded.
    assert (MAX_COMMITS <= u32_max) by done. rewrite (proj2 (Z.ltb_ge _ _)) by lia.
    rewrite write_all_list_vec. cbn [mbind result_bind].
    rewrite write_frames_vec by (apply frame_lens; unfold CORE_DELTA_HEADER_BYTES in Hl; cbn in Hl; lia).
    cbn [mbind result_bind]. unfold delta_header. rewrite <- !app_assoc. reflexivity. }
  eexists. split; [exact Hs|]. rewrite length_app, Nat2Z.inj_add, length_frames. done.
Qed.
(** A slot takes what a [Vec] takes, up to its capacity. *)
Lemma write_all_list_slot capacity l : forall w, len w <= capacity ->
  write_all_list (slot_write_all capacity) l w =
    (if capacity <? len (w ++ mjoin l) then Err (Output (overflow_message capacity)) else Ok (w ++ mjoin l)).
Proof.
  induction l as [|bytes l IH]; intros w Hw; cbn [write_all_list].
  - cbn. rewrite app_nil_r. by rewrite (proj2 (Z.ltb_ge _ _)) by lia.
  - unfold slot_write_all at 1. rewrite mjoin_cons, app_assoc. destruct (Z.ltb_spec (capacity - len w) (len bytes)).
    + rewrite (proj2 (Z.ltb_lt _ _)); [done|]. rewrite !length_app. lia.
    + apply IH. rewrite length_app. lia.
Qed.
Lemma write_frames_slot capacity commits : forall w, len w <= capacity ->
  Forall (fun c => encoded_len c <= u32_max) commits ->
  write_frames (slot_write_all capacity) commits w =
    (if capacity <? len (w ++ mjoin (map frame commits)) then Err (Output (overflow_message capacity))
     else Ok (w ++ mjoin (map frame commits))).
Proof.
  induction commits as [|c commits IH]; intros w Hw Hf; cbn [write_frames map].
  - cbn. rewrite app_nil_r. by rewrite (proj2 (Z.ltb_ge _ _)) by lia.
  - apply Forall_cons in Hf as [Hc Hf]. rewrite (proj2 (Z.ltb_ge _ _) Hc), write_all_list_slot by done.
    assert (mjoin [to_le_bytes 4 (encoded_len c); ec_bytes c] = frame c) as -> by (unfold frame; cbn; by rewrite app_nil_r).
    rewrite mjoin_cons, app_assoc. destruct (Z.ltb_spec capacity (len (w ++ frame c))).
    + rewrite (proj2 (Z.ltb_lt _ _)); [done|]. rewrite length_app. lia.
    + cbn [mbind result_bind]. apply IH; [lia|done].
Qed.
Lemma seal_slot_complete capacity base commits final :
  0 <= capacity -> adjacent base commits final -> len commits <= MAX_COMMITS ->
  CORE_DELTA_HEADER_BYTES + frames_len commits <= MAX_CORE_TRANSFER_BYTES ->
  seal_preencoded_into (slot_write_all capacity) base commits [] =
    (if capacity <? CORE_DELTA_HEADER_BYTES + frames_len commits then Err (Output (overflow_message capacity))
     else seal_preencoded_into vec_write_all base commits []).
Proof.
  intros H0 Ha Hn Hl. destruct (seal_vec_complete base commits final Ha Hn Hl) as (bytes & Hs & Hlen).
  pose proof (seal_vec _ _ _ _ Hs) as [Hb Hv]. cbn [fst snd app] in Hb, Hv. rewrite Hs. unfold seal_preencoded_into.
  rewrite Hv. cbn [mbind result_bind]. unfold write_preencoded. assert (MAX_COMMITS <= u32_max) by done.
  rewrite (proj2 (Z.ltb_ge _ _)) by lia. rewrite write_all_list_slot by done.
  set (d := mkDescriptor _ _ _) in *. rewrite <- Hlen, Hb.
  assert (delta_header d (len commits) = [] ++ mjoin [CORE_DELTA_MAGIC; to_le_bytes 2 CORE_TRANSFER_FORMAT_MAJOR;
      to_le_bytes 8 (dd_base_revision d); to_le_bytes 8 (dd_final_revision d); to_le_bytes 4 (len commits)]) as <-
    by (unfold delta_header; rewrite <- ?app_assoc; reflexivity).
  destruct (Z.ltb_spec capacity (len (delta_header d (len commits)))).
  - rewrite (proj2 (Z.ltb_lt _ _)); [done|]. rewrite length_app. lia.
  - cbn [mbind result_bind]. rewrite write_frames_slot by (lia || apply frame_lens; unfold CORE_DELTA_HEADER_BYTES in Hl; cbn in Hl; lia).
    by destruct (capacity <? _).
Qed.
Lemma seal_preencoded_vec alloc base commits d :
  seal_preencoded alloc base commits = Ok d ->
  exists dd, seal_preencoded_into vec_write_all base commits [] = Ok (dd, delta_bytes d) /\
    delta_base_revision d = base /\ delta_final_revision d = dd_final_revision dd.
Proof.
  intros H. apply result_bind_ok in H as (dd & Hv & H). case_match; [done|].
  apply result_bind_ok in H as (bytes & Hw & [= <-]). exists dd. unfold seal_preencoded_into.
  rewrite Hv. cbn [mbind result_bind]. rewrite Hw. by split_and!.
Qed.

(** *** Reading it back *)

Lemma delta_read_app x rest : delta_read_bytes (len x) (x ++ rest) = (rest, Ok x).
Proof.
  unfold delta_read_bytes. rewrite length_app, Nat2Z.inj_add.
  rewrite (proj2 (Z.ltb_ge _ _)) by lia. rewrite Nat2Z.id, drop_app_length, take_app_length. done.
Qed.
Lemma delta_read_le_app n v rest : 0 <= v < 2 ^ (8 * Z.of_nat n) ->
  delta_read_le n (to_le_bytes n v ++ rest) = (rest, Ok v).
Proof.
  intros Hv. unfold delta_read_le. unfold mbind, M_bind.
  rewrite <- (length_to_le_bytes n v) at 1. rewrite delta_read_app. cbn. rewrite from_to_le_bytes.
  by rewrite Z.mod_small.
Qed.

(** ** What the parent did and what the child replays *)

Section Delta.
Context {CB : ContentBehavior} {CC : Cbor CoreTransferCommit}.

(** What the owner of a [CoreMutation] may ask of it. *)
Inductive MutationCall : Type :=
| CallCommand (command : CoreCommand) (now : Z)
| CallBuiltin (command : GameplayCommand) (now : Z)
| CallTick (now : Z)
| CallEffects (batch : GameplayEffectBatch)
| CallLogin (q : ConnectionId) (name : string) (p : PlayerId) (batch : GameplayEffectBatch)
| CallMaxPlayers (n : Z)
| CallReconfigure (config : CoreConfig).

Definition result_events (r : GameplayApplyResult) : list TargetedEvent :=
  match r with Applied events => events | Conflict => [] end.
Definition run_call (call : MutationCall) : V CoreMutation (list TargetedEvent) :=
  match call with
  | CallCommand command now => mut_apply_command command now
  | CallBuiltin command now => mut_apply_builtin_gameplay_command command now
  | CallTick now => mut_tick now
  | CallEffects batch => result_events <$> mut_gameplay_effects batch
  | CallLogin q name p batch => result_events <$> mut_login_effects q name p batch
  | CallMaxPlayers n => mut_set_max_players n ;; mret []
  | CallReconfigure config => mut_reconfigure config ;; mret []
  end.
Fixpoint run_calls (calls : list MutationCall) : V CoreMutation (list TargetedEvent) :=
  match calls with
  | [] => mret []
  | call :: calls => events ← run_call call; rest ← run_calls calls; mret (events ++ rest)
  end.

(** One commit: the calls and whether it requires persistence. *)
Definition parent_commit (v : CoreVersion) (calls : list MutationCall * bool) :
    option (CoreVersion * CoreTransferCommit) :=
  '(events, cm) ← run_calls calls.1 (mutation_from_version v);
  let '(next, _, _, commit) := into_parts (prepare cm events calls.2) in
  Some (next, commit).
Fixpoint parent_history (v : CoreVersion) (css : list (list MutationCall * bool)) :
    option (CoreVersion * list CoreTransferCommit) :=
  match css with
  | [] => Some (v, [])
  | calls :: css =>
      '(v1, commit) ← parent_commit v calls;
      '(vn, commits) ← parent_history v1 css;
      Some (vn, commit :: commits)
  end.

(** *** The log of a mutation replays to its state *)

Lemma apply_mutations_app ms1 ms2 c c1 c2 :
  apply_mutations ms1 c = Ok c1 -> apply_mutations ms2 c1 = Ok c2 -> apply_mutations (ms1 ++ ms2) c = Ok c2.
Proof.
  revert c. induction ms1 as [|m ms1 IH]; intros c H1 H2; [by injection H1 as ->|].
  cbn [app apply_mutations] in *. apply result_bind_ok in H1 as (c3 & H1 & H3).
  rewrite H1. cbn [mbind result_bind]. by apply IH.
Qed.

(** A call changes the state as what it logs says, and logs nothing only if it changes nothing. *)
Definition logged (cm cm' : CoreMutation) : Prop :=
  cm_base_revision cm' = cm_base_revision cm /\
  exists ms, cm_transfer_mutations cm' = cm_transfer_mutations cm ++ ms /\
    apply_mutations ms (cm_state cm) = Ok (cm_state cm').

Lemma logged_refl cm : logged cm cm.
Proof. split; [done|]. exists []. by rewrite app_nil_r. Qed.
Lemma logged_trans cm1 cm2 cm3 : logged cm1 cm2 -> logged cm2 cm3 -> logged cm1 cm3.
Proof.
  intros [Hb1 (ms1 & Hl1 & Ha1)] [Hb2 (ms2 & Hl2 & Ha2)]. split; [by rewrite Hb2|].
  exists (ms1 ++ ms2). rewrite Hl2, Hl1, app_assoc. split; [done|]. by eapply apply_mutations_app.
Qed.
Lemma logged_one cm m c :
  mutation_apply m (cm_state cm) = Ok c ->
  logged cm (mkMutation (cm_base_revision cm) c (cm_transfer_mutations cm ++ [m])).
Proof.
  intros H. split; [done|]. exists [m]. split; [done|]. cbn [apply_mutations]. by rewrite H.
Qed.

Lemma on_core_log {A} (m : V ServerCore A) (mu : CoreTransferMutation) cm a cm' :
  (forall c', m (cm_state cm) = Some (a, c') -> mutation_apply mu (cm_state cm) = Ok c') ->
  (x ← on_core m; log_mutation mu ;; mret x) cm = Some (a, cm') -> logged cm cm'.
Proof.
  intros Hm H. apply V_bind_inv in H as (x & cm1 & H1 & H). unfold on_core in H1.
  apply bind_Some_intro in H1 as ([a' c'] & H1 & [= <- <-]).
  apply V_bind_inv in H as (u & cm2 & [= <- <-] & [= <- <-]). by apply logged_one, Hm.
Qed.

(** The checks of a login's reads decide only whether it is applied. *)
Lemma login_effects_committed q name p batch c events c' :
  validate_and_apply_login_effects q name p batch c = Some (Applied events, c') ->
  apply_committed_login_effects q name p (b_now_ms batch) (b_effects batch) c = Some (Applied events, c').
Proof.
  unfold validate_and_apply_login_effects, apply_committed_login_effects. intros H.
  apply bind_Some_intro in H as (preview & Hp & H). rewrite Hp. cbn [option_bind mbind].
  destruct preview as [ev|tx]; [done|]. by case_match.
Qed.
Lemma login_effects_conflict q name p batch c c' :
  validate_and_apply_login_effects q name p batch c = Some (Conflict, c') -> c' = c.
Proof.
  unfold validate_and_apply_login_effects, finish_login_effects. intros H.
  apply bind_Some_intro in H as (preview & _ & H).
  destruct preview as [ev|tx]; [by injection H|]. case_match; [|by injection H].
  apply bind_Some_intro in H as ([u tx1] & _ & H). apply bind_Some_intro in H as ([[|] tx2] & _ & H);
    [by injection H|].
  unfold validate_and_apply_gameplay_journal in H. apply V_bind_inv in H as (ok & c2 & [= <- <-] & H).
  destruct (reads_match _ c); [|by injection H].
  by apply fmap_inv in H as (a & _ & [=]).
Qed.

Lemma run_call_logged call cm events cm' : run_call call cm = Some (events, cm') -> logged cm cm'.
Proof.
  destruct call; cbn [run_call]; intros H.
  - eapply on_core_log; [|exact H]. intros c' Hc. cbn [mutation_apply]. by rewrite Hc.
  - eapply on_core_log; [|exact H]. intros c' Hc. cbn [mutation_apply]. by rewrite Hc.
  - eapply on_core_log; [|exact H]. intros c' Hc. cbn [mutation_apply]. by rewrite Hc.
  - apply fmap_inv in H as (r & H & _). apply V_bind_inv in H as (r' & cm1 & H1 & H).
    unfold on_core in H1. apply bind_Some_intro in H1 as ([r2 c'] & H1 & [= <- <-]).
    apply V_bind_inv in H1 as (ok & c1 & [= <- <-] & H1).
    destruct (semantic_reads_match _ (cm_state cm)).
    + apply fmap_inv in H1 as (ev & H1 & ->). destruct (b_effects batch) as [|ef effects] eqn:Ee.
      * injection H as _ <-. injection H1 as _ <-. destruct cm. apply logged_refl.
      * rewrite <- Ee in *. clear Ee. apply V_bind_inv in H as (u & cm2 & [= <- <-] & [= <- <-]).
        apply logged_one. cbn [mutation_apply]. by rewrite H1.
    + injection H1 as <- <-. injection H as _ <-. destruct cm. apply logged_refl.
  - apply fmap_inv in H as (r & H & _). apply V_bind_inv in H as (r' & cm1 & H1 & H).
    unfold on_core in H1. apply bind_Some_intro in H1 as ([r2 c'] & H1 & [= <- <-]).
    destruct r2 as [ev|].
    + apply V_bind_inv in H as (u & cm2 & [= <- <-] & [= <- <-]). apply logged_one.
      cbn [mutation_apply]. by rewrite (login_effects_committed _ _ _ _ _ _ _ H1).
    + apply login_effects_conflict in H1 as ->. injection H as _ <-. destruct cm. apply logged_refl.
  - apply V_bind_inv in H as (u & cm1 & H & [= _ <-]).
    apply V_bind_inv in H as (u1 & cm2 & [= <- <-] & [= <- <-]). by apply logged_one.
  - apply V_bind_inv in H as (u & cm1 & H & [= _ <-]).
    apply V_bind_inv in H as (u1 & cm2 & [= <- <-] & [= <- <-]). by apply logged_one.
Qed.
Lemma run_calls_logged calls : forall cm events cm',
  run_calls calls cm = Some (events, cm') -> logged cm cm'.
Proof.
  induction calls as [|call calls IH]; intros cm events cm' H; [injection H as _ <-; apply logged_refl|].
  cbn [run_calls] in H. apply V_bind_inv in H as (ev & cm1 & H1 & H).
  apply V_bind_inv in H as (rest & cm2 & H2 & [= _ <-]).
  eapply logged_trans; [by eapply run_call_logged|by eapply IH].
Qed.

(** A commit that logged something is one revision further and replays to its version; one
    that logged nothing is the version it began from. *)
Lemma parent_commit_ok v calls v1 commit :
  parent_commit v calls = Some (v1, commit) ->
  ct_base_revision commit = revision v /\ ct_next_revision commit = revision v1 /\
  apply_mutations (ct_mutations commit) (core_state v) = Ok (core_state v1) /\
  (ct_mutations commit <> [] -> revision v1 = revision_next (revision v)) /\
  (ct_mutations commit = [] -> v1 = v).
Proof.
  intros H. apply bind_Some_intro in H as ([events cm] & H & [= <- <-]).
  apply run_calls_logged in H as [Hb (ms & Hl & Ha)]. cbn in Hb, Hl, Ha.
  cbn [prepare pc_next_version pc_base_revision pc_transfer_mutations ct_base_revision ct_next_revision
    ct_mutations revision core_state]. rewrite Hl, Hb. split_and!; [done|done|done|by destruct ms|].
  intros ->. injection Ha as <-. by destruct v.
Qed.

Definition retained (commits : list CoreTransferCommit) : list CoreTransferCommit :=
  List.filter (fun c => match ct_mutations c with [] => false | _ => true end) commits.

(** *** Replaying the encoded commits *)

Definition encodes (c : CoreTransferCommit) (e : EncodedCoreTransferCommit) : Prop :=
  ec_base_revision e = ct_base_revision c /\ ec_next_revision e = ct_next_revision c /\
  decode_transfer (ec_bytes e) = Ok c /\ encoded_len e <= MAX_CORE_TRANSFER_BYTES.

Lemma commit_encodes alloc c limit e :
  codec_ok c -> 0 <= limit -> commit_encode alloc c limit = Ok e ->
  encodes c e /\ encoded_len e <= limit.
Proof.
  intros Hc Hl H. apply result_bind_ok in H as (bytes & He & [= <-]).
  apply encode_decode in He as [Hlen Hd]; [|done|unfold MAX_CORE_TRANSFER_BYTES; lia].
  unfold encodes, encoded_len. cbn [ec_base_revision ec_next_revision ec_bytes]. by split_and!; [..|lia|lia].
Qed.

(** The commits lead from one version to the other. *)
Inductive chain : CoreVersion -> list CoreTransferCommit -> CoreVersion -> Prop :=
| chain_nil v : chain v [] v
| chain_cons v c v1 commits vn :
    ct_base_revision c = revision v -> ct_next_revision c = revision_next (revision v) ->
    revision v1 = revision_next (revision v) ->
    apply_mutations (ct_mutations c) (core_state v) = Ok (core_state v1) ->
    chain v1 commits vn -> chain v (c :: commits) vn.

Lemma parent_chain css : forall v vn commits,
  parent_history v css = Some (vn, commits) -> chain v (retained commits) vn.
Proof.
  induction css as [|calls css IH]; intros v vn commits H; [injection H as <- <-; constructor|].
  cbn [parent_history] in H. apply bind_Some_intro in H as ([v1 c] & Hc & H).
  apply bind_Some_intro in H as ([vn' commits'] & H & [= <- <-]). apply IH in H.
  apply parent_commit_ok in Hc as (Hb & Hn & Ha & Hsome & Hnone). unfold retained. cbn [List.filter].
  destruct (ct_mutations c) eqn:E; [by rewrite <- (Hnone eq_refl)|].
  specialize (Hsome ltac:(done)). econstructor; [done|by rewrite Hn|done|by rewrite E|done].
Qed.

Lemma apply_delta_chain v commits vn es rest :
  chain v commits vn -> Forall2 encodes commits es ->
  apply_delta_commits (length es) (revision v) (core_state v) (mjoin (map frame es) ++ rest) =
    (rest, Ok (revision vn, core_state vn)).
Proof.
  intros Hc. revert es. induction Hc as [v|v c v1 commits vn Hb Hn Hr Ha Hc IH]; intros es Hes.
  - by inversion Hes.
  - inversion Hes as [|c' e commits' es' (Heb & Hen & Hd & Hl) Hes' Heq]; subst.
    cbn [length apply_delta_commits map]. rewrite mjoin_cons. unfold frame at 1. rewrite <- !app_assoc.
    unfold mbind, M_bind. rewrite delta_read_le_app
      by (pose proof (encoded_len_nonneg e); unfold MAX_CORE_TRANSFER_BYTES in Hl; lia).
    unfold encoded_len at 1. rewrite delta_read_app. unfold lift at 1. rewrite Hd.
    rewrite Hb, Hn, !Z.eqb_refl. cbn [andb negb]. unfold lift at 1. rewrite Ha.
    rewrite <- Hr. by apply IH.
Qed.

(** A sealed sequence of encodings of a chain brings the imported version to its end. *)
Lemma apply_sealed_delta v commits vn es d :
  0 <= revision v <= u64_max -> chain v commits vn -> Forall2 encodes commits es ->
  seal_preencoded_into vec_write_all (revision v) es [] = Ok d ->
  apply_process_transfer_delta v d.2 = Ok vn /\ dd_final_revision d.1 = revision vn.
Proof.
  intros Hr Hc Hes Hs. apply seal_vec in Hs as [Hb Hv]. apply validate_preencoded_ok in Hv as (Hd & Ha & Hn & Hl).
  assert (dd_final_revision d.1 = revision vn) as Hfin.
  { clear -Hc Hes Ha. revert es Hes Ha. induction Hc as [v|v c v1 commits vn Hb Hn Hr Hm Hc IH]; intros es Hes Ha.
    - inversion Hes; subst. done.
    - inversion Hes as [|c' e commits' es' (Heb & Hen & _) Hes' Heq]; subst.
      destruct Ha as (_ & He & Ha). eapply IH; [exact Hes'|]. by rewrite Hr, <- He. }
  split; [|done]. unfold apply_process_transfer_delta. rewrite Hb. cbn [app].
  assert (dd_base_revision d.1 = revision v) as Hbase by (by rewrite Hd).
  pose proof (adjacent_range _ _ _ Hr Ha) as Hfr.
  assert (len (delta_header d.1 (len es)) = CORE_DELTA_HEADER_BYTES) as Hh by done.
  set (body := mjoin (map frame es)).
  assert (len (delta_header d.1 (len es) ++ body) = CORE_DELTA_HEADER_BYTES + frames_len es) as Hlen
    by (rewrite length_app, Nat2Z.inj_add, Hh; unfold body; by rewrite length_frames).
  unfold delta_reader_new. pose proof (frames_len_nonneg es).
  rewrite Hlen, !(proj2 (Z.ltb_ge _ _)) by lia. cbn [mbind result_bind].
  unfold delta_header. rewrite <- !app_assoc. unfold mbind, M_bind.
  change 8 with (len CORE_DELTA_MAGIC) at 1. rewrite delta_read_app.
  rewrite bool_decide_true by done. cbn [negb].
  rewrite delta_read_le_app by (unfold CORE_TRANSFER_FORMAT_MAJOR; cbn; lia). rewrite Z.eqb_refl. cbn [negb].
  rewrite delta_read_le_app by (rewrite Hbase; unfold u64_max in Hr; cbn; lia).
  rewrite delta_read_le_app by (unfold u64_max in Hfr; cbn; lia).
  rewrite delta_read_le_app by (unfold MAX_COMMITS in Hn; cbn; lia).
  rewrite (proj2 (Z.ltb_ge _ _) Hn), Hbase, Z.eqb_refl. cbn [negb]. rewrite Nat2Z.id.
  rewrite <- (app_nil_r body). unfold body. rewrite (apply_delta_chain _ _ _ _ _ Hc Hes).
  cbn. rewrite Hfin, Z.eqb_refl. cbn. by destruct vn.
Qed.

Lemma collect_encodes alloc commits es :
  Forall codec_ok commits -> collect_ok (fun c => commit_encode alloc c MAX_CORE_TRANSFER_BYTES) commits = Ok es ->
  Forall2 encodes commits es.
Proof.
  intros Hc. revert es. induction Hc as [|c commits Hc Hcs IH]; intros es H; [by injection H as <-|].
  cbn [collect_ok] in H. apply result_bind_ok in H as (e & He & H).
  apply result_bind_ok in H as (es' & Hes & [= <-]). constructor; [|by apply IH].
  by apply commit_encodes in He as [He _]; [|done|].
Qed.

(** C4: a successor process replays exactly what its parent did.  Whatever the parent asked of
    its versions, commit after commit (commands, ticks, plugin effects applied or in conflict,
    logins, reconfigurations), the delta sealed from the commits that logged something brings
    the version it began with to the version the parent ended with, revision included, without
    asking a plugin again. *)
Theorem delta_replays_history alloc v css vn commits d :
  0 <= revision v <= u64_max -> parent_history v css = Some (vn, commits) ->
  Forall codec_ok (retained commits) -> delta_prepare alloc (revision v) (retained commits) = Ok d ->
  apply_process_transfer_delta v (delta_bytes d) = Ok vn /\
  delta_base_revision d = revision v /\ delta_final_revision d = revision vn.
Proof.
  intros Hr Hh Hc Hd. apply result_bind_ok in Hd as (es & Hes & Hs). apply collect_encodes in Hes; [|done].
  apply seal_preencoded_vec in Hs as (dd & Hs & Hb & Hf).
  destruct (apply_sealed_delta v (retained commits) vn es (dd, delta_bytes d)) as [Ha Hfin];
    [done|by eapply parent_chain|done|done|]. split_and!; [done|done|by rewrite Hf].
Qed.
End Delta.

(** ** A session that is handed over *)

Definition sample_version : CoreVersion := version_initial sample_online.
Definition sample_calls : list (list MutationCall * bool) :=
  [([CallCommand sample_slot 50], true); ([CallEffects (empty_batch 60)], false);
   ([CallTick 100; CallMaxPlayers 5], false)].
Definition sample_history : CoreVersion * list CoreTransferCommit :=
  default (sample_version, []) (parent_history sample_version sample_calls).

(** A codec for them: a commit by its base revision, and the one snapshot. *)
Definition commit_table : Cbor CoreTransferCommit := {|
  into_chunks c := ([[Z_byte (ct_base_revision c)]], None);
  from_reader bytes :=
    match bytes with
    | b :: rest =>
        match retained sample_history.2 !! Z.to_nat (byte_Z b) with
        | Some c => inr (c, rest)
        | None => inl EmptyString
        end
    | [] => inl EmptyString
    end
|}.
Definition snapshot_table : Cbor CoreTransferSnapshotV1 := {|
  into_chunks _ := ([[Z_byte 7]; [Z_byte 8]], None);
  from_reader bytes :=
    match bytes with _ :: _ :: rest => inr (from_version sample_version, rest) | _ => inl EmptyString end
|}.

Lemma sample_history_eq : parent_history sample_version sample_calls = Some sample_history.
Proof.
  assert (match parent_history sample_version sample_calls with Some _ => true | None => false end = true) as H
    by (vm_compute; reflexivity).
  unfold sample_history. by destruct (parent_history sample_version sample_calls).
Qed.
Definition sample_delta : CoreTransferDelta :=
  match @delta_prepare (fun _ => true) commit_table 0 (retained sample_history.2) with
  | Ok d => d
  | _ => mkDelta 0 0 []
  end.

Lemma delta_replays_history_witness :
  @apply_process_transfer_delta CanonicalContent commit_table sample_version (delta_bytes sample_delta) =
    Ok sample_history.1 /\ delta_final_revision sample_delta = 2.
Proof.
  assert (retained sample_history.2 =
    [mkCommit 0 1 true [MutCommand sample_slot 50];
     mkCommit 1 2 false [MutBuiltinTick 100; MutSetMaxPlayers 5]]) as Hret by (vm_compute; reflexivity).
  split; [|unfold sample_delta; rewrite Hret; vm_compute; reflexivity].
  refine (proj1 (delta_replays_history (CC := commit_table) (fun _ => true) sample_version sample_calls
    _ sample_history.2 sample_delta _ _ _ _)).
  - change (0 <= 0 <= u64_max). unfold u64_max. lia.
  - rewrite sample_history_eq. by destruct sample_history.
  - rewrite Hret. repeat constructor; eexists; (split; [reflexivity|]); intros rest; cbn [mjoin list_join app from_reader commit_table];
      rewrite Hret; reflexivity.
  - unfold sample_delta. rewrite Hret. vm_compute. reflexivity.
Defined.

Lemma sample_online_ok : core_ok sample_online.
Proof.
  unfold sample_online, core_after. destruct (apply_command _ _ _) as [[events c]|] eqn:E;
    [|apply core_ok_new].
  eapply core_ok_command; [apply core_ok_new| |exact E]. cbn. unfold i32_max. lia.
Qed.

Lemma snapshot_roundtrip_witness :
  sb_revision (mkSnapshotBytes 0 [Z_byte 7; Z_byte 8]) = 0 /\
  @import_process_transfer snapshot_table [Z_byte 7; Z_byte 8] = Ok sample_version.
Proof.
  refine (snapshot_roundtrip (H := snapshot_table) (fun _ => true) sample_version
    (mkSnapshotBytes 0 [Z_byte 7; Z_byte 8]) sample_online_ok _ _).
  - by exists [[Z_byte 7]; [Z_byte 8]].
  - reflexivity.
Defined.
