(* ===== verification/CoreJournal.v ===== *)
(** * The published core and its cutover journal
    ([crates/runtime/revy-server-runtime/src/runtime/core_store.rs],
    [.../core_store/journal.rs], [seal_final_core_delta] of [.../executable.rs])

    [CoreStore] publishes one [CoreVersion] and serializes its writers.  While a cutover is
    prepared it also keeps a journal: for a reload in the same process the events since the
    candidate's snapshot, for a successor process the encoded commits since its snapshot,
    within budgets.  An operation here is one critical section of the state's mutex, so that
    every interleaving of the tasks is a sequence of operations; what a plugin answered
    between two of them is an argument.  Storage and the plugin host are outside. *)

From stdpp Require Import sorting.
From Stdlib Require Import Floats.SpecFloat.
From S2P Require Import Prelude Bytes VoxelModel VoxelItems VoxelContent VoxelState VoxelOverlay VoxelWindow VoxelClick VoxelWorld VoxelEvents VoxelOps VoxelKeeps VoxelRefine VoxelTx VoxelInvariant VoxelCommit VoxelReach VoxelTransfer.

Definition RESYNC_EVENT_LIMIT : Z := 65536.
Definition RESYNC_BYTE_LIMIT : Z := 32 * 1024 * 1024.
Definition PROCESS_ENTRY_BYTE_LIMIT : Z := 2 * 1024 * 1024.
Definition PROCESS_BYTE_LIMIT : Z := 64 * 1024 * 1024.
Definition CORE_PROCESS_DELTA_FRAMING_BYTES : Z := MAX_COMMITS * 4 + 8 + 2 + 8 * 2 + 4.
Definition CORE_PROCESS_PRESTAGE_BYTES : Z := PROCESS_BYTE_LIMIT + CORE_PROCESS_DELTA_FRAMING_BYTES.

(** The errors of the runtime that arise here. *)
Inductive RuntimeError : Type :=
| CutoverEventEncoding (message : string)
| RtAllocation (resource : string) (requested : Z)
| Config (message : string)
| RtCoreTransfer (e : CoreTransferError)
| CutoverOutpaced (resource : string) (staged_revision earliest_revision : CoreRevision).

(** An event whose payload is shared: the value it holds. *)
Record SharedCoreEvent : Type := mkShared { sh_target : EventTarget; sh_event : CoreEvent }.
Definition shared_from (e : TargetedEvent) : SharedCoreEvent := mkShared (target e) (event e).

(** ** The journal *)

Record ResyncJournal : Type := mkResync {
  rj_base_revision : CoreRevision;
  rj_events : list SharedCoreEvent;
  rj_event_bytes : Z;
  rj_outcome : result RuntimeError unit
}.
Record ProcessJournal : Type := mkProcess {
  pj_floor : CoreRevision;
  pj_commits : list EncodedCoreTransferCommit;
  pj_bytes : Z;
  pj_failure : option CoreTransferError
}.
Inductive CoreJournal : Type :=
| Inactive
| Resync (j : ResyncJournal)
| Process (j : ProcessJournal)
| StoppedResync (events : list SharedCoreEvent)
| StoppedProcess (commits : list EncodedCoreTransferCommit).

Definition journal_resync (base : CoreRevision) : CoreJournal := Resync (mkResync base [] 0 (Ok tt)).
Definition journal_process (base : CoreRevision) : CoreJournal := Process (mkProcess base [] 0 None).

(** What the journal relies on: the allocator, and [serde_json::to_writer], the writes it makes
    for an event and the error it ends with. *)
Class JournalEnv : Type := {
  alloc : Z -> bool;
  json_chunks : CoreEvent -> list (list byte) * option string;
  shared_event_size : Z;
  encoded_commit_size : Z;
  commit_codec :: Cbor CoreTransferCommit
}.

Section Journal.
Context {CB : ContentBehavior} {env : JournalEnv}.

(** [EncodedEventSize], a writer that only counts. *)
Definition encoded_event_size (size : Z) (chunks : list (list byte)) : Z :=
  foldl (fun size chunk => saturating_add usize_max size (len chunk)) size chunks.
Fixpoint events_size (outpaced : RuntimeError) (events : list SharedCoreEvent) (size : Z) :
    result RuntimeError Z :=
  match events with
  | [] => Ok size
  | e :: events =>
      let '(chunks, error) := json_chunks (sh_event e) in
      let size := encoded_event_size size chunks in
      match error with
      | Some message => Err (CutoverEventEncoding message)
      | None =>
          if RESYNC_BYTE_LIMIT <? size then Err outpaced else events_size outpaced events size
      end
  end.
Definition resync_retain (revision : CoreRevision) (events : list SharedCoreEvent) :
    M RuntimeError ResyncJournal unit :=
  match events with
  | [] => mret tt
  | _ =>
      j ← get;
      let outpaced := CutoverOutpaced "core resync events" (rj_base_revision j) revision in
      if RESYNC_EVENT_LIMIT <? len (rj_events j) then panic
      else if RESYNC_EVENT_LIMIT - len (rj_events j) <? len events then throw outpaced
      else
        size ← lift (events_size outpaced events (rj_event_bytes j));
        if negb (alloc (len events))
        then throw (RtAllocation "core resync events"
               ((len (rj_events j) + len events) * shared_event_size))
        else modify (fun j =>
               mkResync (rj_base_revision j) (rj_events j ++ events) size (rj_outcome j))
  end.

(** The [while] loop of [ProcessJournal::retain]; a [pop_front] of nothing changes nothing. *)
Fixpoint evict (fuel : nat) (bytes : Z) : M CoreTransferError ProcessJournal unit :=
  j ← get;
  let full := len (pj_commits j) =? MAX_COMMITS in
  if negb full && (PROCESS_BYTE_LIMIT <? pj_bytes j) then panic
  else if full || (PROCESS_BYTE_LIMIT - pj_bytes j <? bytes) then
    match fuel with
    | O => out_of_fuel
    | S fuel =>
        match pj_commits j with
        | [] => evict fuel bytes
        | expired :: commits =>
            if pj_bytes j <? encoded_len expired then panic
            else
              modify (fun j => mkProcess (ec_next_revision expired) commits
                (pj_bytes j - encoded_len expired) (pj_failure j)) ;;
              evict fuel bytes
        end
    end
  else mret tt.

Definition process_retain (transfer : CoreTransferCommit) : M CoreTransferError ProcessJournal unit :=
  match commit_encode alloc transfer PROCESS_ENTRY_BYTE_LIMIT with
  | Err (TransferBudgetExceeded _ _) =>
      modify (fun j => mkProcess (ct_next_revision transfer) [] 0 (pj_failure j))
  | Ok e =>
      j ← get;
      evict (length (pj_commits j)) (encoded_len e) ;;
      j ← get;
      if negb (alloc 1)
      then throw (TransferAllocation ((len (pj_commits j) + 1) * encoded_commit_size))
      else modify (fun j => mkProcess (pj_floor j) (pj_commits j ++ [e]) (pj_bytes j + encoded_len e)
             (pj_failure j))
  | Err error => throw error
  | Panic => panic
  | OutOfFuel => out_of_fuel
  end.

(** [CoreJournal::record]; it returns nothing, but may panic. *)
Definition record (revision : CoreRevision) (events : list SharedCoreEvent)
    (transfer : CoreTransferCommit) (journal : CoreJournal) : result RuntimeError CoreJournal :=
  match journal with
  | Resync j =>
      match rj_outcome j with
      | Ok _ =>
          match resync_retain revision events j with
          | (j, Ok _) => Ok (Resync (mkResync (rj_base_revision j) (rj_events j) (rj_event_bytes j) (Ok tt)))
          | (j, Err e) =>
              Ok (Resync (mkResync (rj_base_revision j) (rj_events j) (rj_event_bytes j) (Err e)))
          | (_, Panic) => Panic
          | (_, OutOfFuel) => OutOfFuel
          end
      | _ => Ok journal
      end
  | Process j =>
      match pj_failure j with
      | None =>
          match process_retain transfer j with
          | (j, Ok _) => Ok (Process j)
          | (j, Err e) =>
              Ok (Process (mkProcess (pj_floor j) (pj_commits j) (pj_bytes j) (Some e)))
          | (_, Panic) => Panic
          | (_, OutOfFuel) => OutOfFuel
          end
      | Some _ => Ok journal
      end
  | Inactive => Ok Inactive
  | StoppedResync _ | StoppedProcess _ => Ok Inactive
  end.

Definition seal_resync (revision : CoreRevision) : M RuntimeError CoreJournal (list SharedCoreEvent) :=
  fun journal =>
    match journal with
    | Resync j =>
        if negb (revision =? rj_base_revision j)
        then (StoppedResync (rj_events j),
              Err (Config ("resync base revision " +:+ pretty revision +:+
                " does not match candidate revision " +:+ pretty (rj_base_revision j))))
        else match rj_outcome j with
             | Ok _ => (Inactive, Ok (rj_events j))
             | Err e => (StoppedResync (rj_events j), Err e)
             | Panic => (journal, Panic)
             | OutOfFuel => (journal, OutOfFuel)
             end
    | _ => (journal, Err (Config "core resync retention is not active"))
    end.

Inductive ProcessDeltaSeal : Type :=
| SealReady (descriptor : DeltaDescriptor) | SealOutpaced (earliest_revision : CoreRevision).

Definition write_process_delta {W} (write_all : WriteAll W) (revision : CoreRevision)
    (journal : CoreJournal) (w : W) : result CoreTransferError (ProcessDeltaSeal * W) :=
  match journal with
  | Process j =>
      match pj_failure j with
      | Some e => Err e
      | None =>
          if revision <? pj_floor j then Ok (SealOutpaced (pj_floor j), w)
          else
            '(d, w) ← seal_preencoded_into write_all revision
              (List.filter (fun c => revision <? ec_next_revision c) (pj_commits j)) w;
            mret (SealReady d, w)
      end
  | _ => Err (InvalidState RetentionNotActive)
  end.

Definition journal_stop (journal : CoreJournal) : CoreJournal :=
  match journal with
  | Resync j => StoppedResync (rj_events j)
  | Process j => StoppedProcess (pj_commits j)
  | _ => journal
  end.

(** ** The store *)

(** [active] behind its lock, and what the mutex guards. *)
Record CoreStore : Type := mkStore {
  active : CoreVersion;
  persisted_revision : CoreRevision;
  latest_dirty_revision : option CoreRevision;
  journal : CoreJournal
}.
Definition set_journal (j : CoreJournal) (s : CoreStore) : CoreStore :=
  mkStore (active s) (persisted_revision s) (latest_dirty_revision s) j.

Definition store_new (core : ServerCore) : CoreStore :=
  let active := version_initial core in mkStore active (revision active) None Inactive.
Definition from_handoff (v : CoreVersion) (persisted : CoreRevision) (dirty : option CoreRevision) :
    CoreStore := mkStore v persisted dirty Inactive.

Record CoreProcessPrecopy : Type := mkPrecopy {
  pre_version : CoreVersion;
  pre_persisted_revision : CoreRevision;
  pre_latest_dirty_revision : option CoreRevision
}.
Definition precopy_of (s : CoreStore) : CoreProcessPrecopy :=
  mkPrecopy (active s) (persisted_revision s) (latest_dirty_revision s).

(** A section of the mutex: [None] is a panic, [inl] an error. *)
Definition Locked (A : Type) : Type := CoreStore -> result RuntimeError (A * CoreStore).

Definition process_precopy : Locked CoreProcessPrecopy := fun s =>
  Ok (precopy_of s, set_journal (journal_process (revision (active s))) s).

(** [CoreCandidatePlan::materialize]; the base revision is [None] in a candidate's own config. *)
Definition materialize_candidate (config : option CoreConfig) (p : CoreProcessPrecopy) :
    result RuntimeError CoreStore :=
  match config with
  | Some config =>
      match mut_reconfigure config (mutation_from_version (pre_version p)) with
      | Some (_, cm) =>
          let '(next, _, _, _) := into_parts (prepare cm [] true) in
          Ok (from_handoff next (pre_persisted_revision p) (Some (revision next)))
      | None => Panic
      end
  | None =>
      Ok (from_handoff (pre_version p) (pre_persisted_revision p) (pre_latest_dirty_revision p))
  end.
Definition plan_candidate (config : option CoreConfig) : Locked (CoreRevision * CoreStore) := fun s =>
  candidate ← materialize_candidate config (precopy_of s);
  Ok ((revision (active s), candidate), set_journal (journal_resync (revision (active s))) s).

Definition seal_delta_since (r : CoreRevision) :
    CoreStore -> CoreStore * result RuntimeError (CoreProcessPrecopy * list SharedCoreEvent) := fun s =>
  let '(j, sealed) := seal_resync r (journal s) in
  (set_journal j s, events ← sealed; Ok (precopy_of s, events)).

Inductive CoreProcessDeltaSeal : Type :=
| DeltaReady (descriptor : DeltaDescriptor) (persisted : CoreRevision) (dirty : option CoreRevision)
| DeltaOutpaced (requested_revision earliest_revision : CoreRevision).

Definition write_process_delta_since {W} (write_all : WriteAll W) (r : CoreRevision) (w : W)
    (s : CoreStore) : result CoreTransferError (CoreProcessDeltaSeal * W) :=
  if revision (active s) <? r then Err (InvalidState (BaseExceedsActive r (revision (active s))))
  else
    '(seal, w) ← write_process_delta write_all r (journal s) w;
    match seal with
    | SealReady d => Ok (DeltaReady d (persisted_revision s) (latest_dirty_revision s), w)
    | SealOutpaced earliest => Ok (DeltaOutpaced r earliest, w)
    end.

(** [seal_final_core_delta] of a staged upgrade: into the slot of the arena that was reserved for it,
    which is spent unless the delta is outpaced; what was written is the region of the delta. *)
Definition CORE_PROCESS_DELTA_SLOT_BYTES : Z := 8 * 1024 * 1024 + CORE_PROCESS_DELTA_FRAMING_BYTES.
Definition seal_final_core_delta (staged_epoch active_epoch : Z) (slot : bool) (base : CoreRevision) (s : CoreStore) :
    bool * result RuntimeError (CoreProcessDeltaSeal * list byte) :=
  if negb (active_epoch =? staged_epoch)
  then (slot, Err (Config ("executable upgrade staged epoch " +:+ pretty staged_epoch +:+
    " but active epoch is now " +:+ pretty active_epoch)))
  else if negb slot
  then (slot, Err (Config "executable final core delta was already sealed or invalidated"))
  else
    match write_process_delta_since (slot_write_all CORE_PROCESS_DELTA_SLOT_BYTES) base [] s with
    | Ok (DeltaReady d persisted dirty, bytes) => (false, Ok (DeltaReady d persisted dirty, bytes))
    | Ok (DeltaOutpaced requested earliest, bytes) => (true, Ok (DeltaOutpaced requested earliest, bytes))
    | Err e => (false, Err (RtCoreTransfer e))
    | Panic => (false, Panic)
    | OutOfFuel => (false, OutOfFuel)
    end.

Definition end_precopy (s : CoreStore) : CoreStore := set_journal (journal_stop (journal s)) s.

(** [CoreStore::commit_locked] *)
Definition commit_locked (p : PreparedCoreCommit) : Locked (list SharedCoreEvent) := fun s =>
  let active_revision := revision (active s) in
  if negb (active_revision =? pc_base_revision p)
  then Err (Config ("stale core commit: expected revision " +:+ pretty (pc_base_revision p) +:+
    ", active revision " +:+ pretty active_revision))
  else
    let '(next, events, requires_persistence, transfer) := into_parts p in
    let events := map shared_from events in
    let dirty := if (requires_persistence : bool) then Some (revision next)
                 else latest_dirty_revision s in
    j ← (if active_revision <? revision next then record (revision next) events transfer (journal s)
         else Ok (journal s));
    Ok (events, mkStore next (persisted_revision s) dirty j).

(** A panic of a handler, in the runtime. *)
Definition or_die {A S} (o : option (A * S)) : result RuntimeError (A * S) :=
  match o with Some r => Ok r | None => Panic end.

Inductive CoreCommandOutcome : Type :=
| Events (events : list SharedCoreEvent)
| StaleGameplayCommand (p : PlayerId)
| StaleLogin (q : ConnectionId).

Definition requires_persistence (command : CoreCommand) : bool :=
  match command with
  | LoginStart _ _ _ | Gameplay _ | CommandInventoryClick _ _ _ _ _ | CommandCloseContainer _ _
  | CommandDisconnect _ => true
  | _ => false
  end.

(** The commands that no plugin sees; the two others with what the plugin prepared from a
    version that may since have been replaced. *)
Definition commit_command (command : CoreCommand) (now : Z) : Locked CoreCommandOutcome := fun s =>
  '(events, cm) ← or_die (mut_apply_command command now (mutation_from_version (active s)));
  '(events, s) ← commit_locked (prepare cm events (requires_persistence command)) s;
  Ok (Events events, s).
Definition commit_login (q : ConnectionId) (name : string) (p : PlayerId) (batch : GameplayEffectBatch) :
    Locked CoreCommandOutcome := fun s =>
  '(r, cm) ← or_die (mut_login_effects q name p batch (mutation_from_version (active s)));
  match r with
  | Applied events =>
      '(events, s) ← commit_locked (prepare cm events true) s; Ok (Events events, s)
  | Conflict => Ok (StaleLogin q, s)
  end.
Definition commit_gameplay (p : PlayerId) (batch : GameplayEffectBatch) : Locked CoreCommandOutcome :=
  fun s =>
    '(r, cm) ← or_die (mut_gameplay_effects batch (mutation_from_version (active s)));
    match r with
    | Applied events =>
        '(events, s) ← commit_locked (prepare cm events true) s; Ok (Events events, s)
    | Conflict => Ok (StaleGameplayCommand p, s)
    end.
(** A gameplay command of another player's session is refused; a login is previewed on the
    published version first. *)
Definition apply_gameplay_command (p : PlayerId) (command : GameplayCommand)
    (batch : GameplayEffectBatch) : Locked CoreCommandOutcome :=
  if negb (gameplay_player_id command =? p) then fun s => Ok (StaleGameplayCommand p, s)
  else commit_gameplay p batch.
Definition preview_login (q : ConnectionId) (name : string) (p : PlayerId) (now : Z) (s : CoreStore) :
    option (list TargetedEvent + GameplayTransaction) :=
  login_preview_new (core_state (active s)) q name p now.
Definition apply_builtin_tick (now : Z) : Locked (list SharedCoreEvent) := fun s =>
  '(events, cm) ← or_die (mut_tick now (mutation_from_version (active s)));
  commit_locked (prepare cm events false) s.

Record PreparedGameplayTick : Type := mkTick {
  pt_player_id : PlayerId; pt_source_revision : CoreRevision; pt_batch : GameplayEffectBatch
}.
Record StaleGameplayTick : Type := mkStale {
  st_player_id : PlayerId; st_source_revision : CoreRevision; st_active_revision : CoreRevision
}.
Fixpoint run_ticks (active_revision : CoreRevision) (ticks : list PreparedGameplayTick) :
    V CoreMutation (list TargetedEvent * list StaleGameplayTick) :=
  match ticks with
  | [] => mret ([], [])
  | t :: ticks =>
      r ← mut_gameplay_effects (pt_batch t);
      '(events, stale) ← run_ticks active_revision ticks;
      mret (match r with
            | Applied tick_events => (tick_events ++ events, stale)
            | Conflict =>
                (events, mkStale (pt_player_id t) (pt_source_revision t) active_revision :: stale)
            end)
  end.
Definition commit_gameplay_ticks (ticks : list PreparedGameplayTick) :
    Locked (list SharedCoreEvent * list StaleGameplayTick) := fun s =>
  match ticks with
  | [] => Ok (([], []), s)
  | _ =>
      '((events, stale), cm) ←
        or_die (run_ticks (revision (active s)) ticks (mutation_from_version (active s)));
      '(events, s) ← commit_locked (prepare cm events false) s;
      Ok ((events, stale), s)
  end.

Definition dirty (s : CoreStore) : bool :=
  match latest_dirty_revision s with Some r => persisted_revision s <? r | None => false end.
(** [maybe_save]: the version that is saved outside the lock, and what follows its success. *)
Definition begin_save (s : CoreStore) : option CoreVersion := if dirty s then Some (active s) else None.
Definition finish_save (saved : CoreRevision) (s : CoreStore) : CoreStore :=
  if persisted_revision s <? saved
  then mkStore (active s) saved (latest_dirty_revision s) (journal s) else s.

(** ** The journal stays within its budgets *)

Definition commits_len (commits : list EncodedCoreTransferCommit) : Z := sum_Z (map encoded_len commits).
Record process_ok (j : ProcessJournal) : Prop := mkProcessOk {
  po_bytes : pj_bytes j = commits_len (pj_commits j);
  po_limit : pj_bytes j <= PROCESS_BYTE_LIMIT;
  po_count : len (pj_commits j) <= MAX_COMMITS
}.

Lemma process_ok_new r failure : process_ok (mkProcess r [] 0 failure).
Proof. by constructor. Qed.
Lemma commits_len_app l1 l2 : commits_len (l1 ++ l2) = commits_len l1 + commits_len l2.
Proof. unfold commits_len. by rewrite map_app, sum_Z_app. Qed.
Lemma commits_len_nonneg l : 0 <= commits_len l.
Proof.
  induction l as [|e l IH]; [done|]. unfold commits_len in *. cbn. pose proof (encoded_len_nonneg e).
  unfold sum_Z in IH. lia.
Qed.

(** Where the retained commits begin once [popped] are gone. *)
Definition floor_after (popped : list EncodedCoreTransferCommit) (floor : CoreRevision) : CoreRevision :=
  match last popped with Some e => ec_next_revision e | None => floor end.

Lemma evict_ok n : 0 <= n <= PROCESS_BYTE_LIMIT -> forall fuel j,
  process_ok j -> (length (pj_commits j) <= fuel)%nat ->
  exists popped j', evict fuel n j = (j', Ok tt) /\ process_ok j' /\
    pj_commits j = popped ++ pj_commits j' /\ pj_floor j' = floor_after popped (pj_floor j) /\
    pj_failure j' = pj_failure j /\ pj_bytes j' + n <= PROCESS_BYTE_LIMIT /\
    len (pj_commits j') < MAX_COMMITS.
Proof.
  intros Hn. induction fuel as [|fuel IH]; intros j [Hb Hl Hc] Hf.
  - destruct (pj_commits j) as [|e l] eqn:Ej; [|cbn in Hf; lia]. exists [], j. cbn [evict].
    unfold mbind, M_bind, get. rewrite Ej. cbn [length Z.of_nat].
    assert (pj_bytes j = 0) as Hz by done. rewrite Hz.
    rewrite (proj2 (Z.ltb_ge PROCESS_BYTE_LIMIT 0)), (proj2 (Z.ltb_ge _ n)) by lia.
    split_and!; [done|by constructor; rewrite ?Ej|done|done|done|lia|unfold MAX_COMMITS; lia].
  - cbn [evict]. unfold mbind, M_bind, get.
    rewrite (proj2 (Z.ltb_ge PROCESS_BYTE_LIMIT _)), andb_false_r by lia.
    destruct (_ || _) eqn:Econd.
    2:{ apply orb_false_iff in Econd as [E1%Z.eqb_neq E2%Z.ltb_ge]. exists [], j.
        split_and!; [done|by constructor|done|done|done|lia|lia]. }
    destruct (pj_commits j) as [|e l] eqn:Ej.
    + exfalso. assert (pj_bytes j = 0) as Hz by done. rewrite Hz in Econd. cbn in Econd.
      apply Z.ltb_lt in Econd. lia.
    + unfold commits_len in Hb. cbn in Hb. pose proof (commits_len_nonneg l) as Hnn.
      unfold commits_len, sum_Z in Hnn. pose proof (encoded_len_nonneg e).
      rewrite (proj2 (Z.ltb_ge _ _)) by lia. unfold modify.
      destruct (IH (mkProcess (ec_next_revision e) l (pj_bytes j - encoded_len e) (pj_failure j)))
        as (popped & j' & He & Hok & Hcs & Hfl & Hfail & Hfit & Hlen).
      * constructor; cbn [pj_bytes pj_commits]; [unfold commits_len, sum_Z; lia|lia|cbn in Hc; lia].
      * cbn in *. lia.
      * exists (e :: popped), j'. split_and!; [exact He|done|cbn in Hcs |- *; by rewrite Hcs| |done|done|done].
        rewrite Hfl. unfold floor_after. cbn [pj_floor]. rewrite last_cons. by destruct (last popped).
Qed.

Lemma commit_encode_len c limit e : commit_encode alloc c limit = Ok e -> 0 <= limit -> encoded_len e <= limit.
Proof.
  intros H Hl. apply result_bind_ok in H as (bytes & He & [= <-]). apply encode_len in He.
  - unfold encoded_len. cbn [ec_bytes]. lia.
  - apply Z.min_glb; [done|]. by unfold MAX_CORE_TRANSFER_BYTES.
Qed.
Lemma commit_encode_total c limit :
  commit_encode alloc c limit <> Panic /\ commit_encode alloc c limit <> OutOfFuel.
Proof.
  unfold commit_encode, encode_transfer. destruct (into_chunks c), (write_chunks _ _ _) as [ok w].
  destruct ok, (tw_failure w) as [[]|]; try (split; discriminate); destruct o; split; discriminate.
Qed.

(** What [process_retain] does to a journal within its budgets. *)
Lemma process_retain_ok c j :
  process_ok j ->
  exists j' r, process_retain c j = (j', r) /\ r <> Panic /\ r <> OutOfFuel /\ process_ok j' /\
    pj_failure j' = pj_failure j /\
    (r = Ok tt ->
      (pj_floor j' = ct_next_revision c /\ pj_commits j' = []) \/
      exists e popped rest, commit_encode alloc c PROCESS_ENTRY_BYTE_LIMIT = Ok e /\
        pj_commits j = popped ++ rest /\ pj_commits j' = rest ++ [e] /\
        pj_floor j' = floor_after popped (pj_floor j)).
Proof.
  intros Hj. unfold process_retain. destruct (commit_encode_total c PROCESS_ENTRY_BYTE_LIMIT) as [Hp Hf].
  destruct (commit_encode alloc c PROCESS_ENTRY_BYTE_LIMIT) as [e|error| |] eqn:E; try done.
  - apply commit_encode_len in E as Hlen; [|done].
    destruct (evict_ok (encoded_len e)) with (fuel := length (pj_commits j)) (j := j)
      as (popped & j' & He & Hok & Hcs & Hfl & Hfail & Hfit & Hcount); [|done|lia|].
    { pose proof (encoded_len_nonneg e). unfold PROCESS_ENTRY_BYTE_LIMIT, PROCESS_BYTE_LIMIT in *. lia. }
    unfold mbind, M_bind, get. rewrite He. destruct (alloc 1); cbn [negb].
    + eexists _, (Ok tt). split_and!; [done|done|done| |done|].
      * destruct Hok. constructor; cbn [pj_bytes pj_commits].
        -- rewrite commits_len_app. unfold commits_len at 2. cbn. lia.
        -- lia.
        -- rewrite length_app. cbn. lia.
      * intros _. right. exists e, popped, (pj_commits j'). by split_and!.
    + unfold throw. eexists _, _. split_and!; [reflexivity|done|done|done|done|done].
  - destruct error;
      try (exists j; eexists; split_and!; [reflexivity|done|done|done|done|discriminate]).
    eexists _, (Ok tt). split_and!; [reflexivity|done|done|apply process_ok_new|done|]. intros _. by left.
Qed.

(** The journal of a process cutover stays within its budgets and never holds a writer up:
    whatever commits are recorded, recording one neither panics nor fails to terminate (the
    loop that evicts old commits ends), the byte count it keeps is the sum of what it retains,
    and it retains at most [PROCESS_BYTE_LIMIT] bytes in at most [MAX_COMMITS] commits. *)
Theorem journal_bounded base (records : list (CoreRevision * list SharedCoreEvent * CoreTransferCommit)) :
  exists j, foldl (fun j r => j ← j; record r.1.1 r.1.2 r.2 j) (Ok (journal_process base)) records =
      Ok (Process j) /\
    pj_bytes j = commits_len (pj_commits j) /\ pj_bytes j <= PROCESS_BYTE_LIMIT /\
    len (pj_commits j) <= MAX_COMMITS.
Proof.
  assert (forall j, process_ok j ->
    exists j', foldl (fun j r => j ← j; record r.1.1 r.1.2 r.2 j) (Ok (Process j)) records =
      Ok (Process j') /\ process_ok j') as H.
  { induction records as [|[[r events] c] records IH]; intros j Hj; [by exists j|].
    cbn [foldl fst snd mbind result_bind record]. destruct (pj_failure j); [by apply IH|].
    destruct (process_retain_ok c j Hj) as (j' & res & -> & Hp & Hf & Hok & _).
    destruct res; [by apply IH| |done|done]. apply IH. by destruct Hok. }
  destruct (H _ (process_ok_new base None)) as (j & Hj & []). by exists j.
Qed.

(** ** Runs of the store

    A step is one critical section; it publishes the commits of [calls], made on the active
    version, and emits [events]. *)

Definition commits_of (calls : list MutationCall) (persistence : bool) (s : CoreStore) :
    list CoreTransferCommit :=
  match parent_commit (active s) (calls, persistence) with
  | Some (_, c) => retained [c]
  | None => []
  end.
Definition outcome_events (o : CoreCommandOutcome) : list SharedCoreEvent :=
  match o with Events events => events | _ => [] end.

Inductive store_step : CoreStore -> list CoreTransferCommit -> list SharedCoreEvent -> CoreStore -> Prop :=
| step_core_command command now s o s' :
    commit_command command now s = Ok (o, s') ->
    store_step s (commits_of [CallCommand command now] (requires_persistence command) s)
      (outcome_events o) s'
| step_core_login q name p batch s o s' :
    commit_login q name p batch s = Ok (o, s') ->
    store_step s (commits_of [CallLogin q name p batch] true s) (outcome_events o) s'
| step_core_gameplay p batch s o s' :
    commit_gameplay p batch s = Ok (o, s') ->
    store_step s (commits_of [CallEffects batch] true s) (outcome_events o) s'
| step_core_tick now s events s' :
    apply_builtin_tick now s = Ok (events, s') ->
    store_step s (commits_of [CallTick now] false s) events s'
| step_core_ticks ticks s events stale s' :
    commit_gameplay_ticks ticks s = Ok ((events, stale), s') ->
    store_step s (commits_of (map (fun t => CallEffects (pt_batch t)) ticks) false s) events s'
| step_core_saved saved s : store_step s [] [] (finish_save saved s).

Inductive store_run : CoreStore -> list CoreTransferCommit -> list SharedCoreEvent -> CoreStore -> Prop :=
| run_here s : store_run s [] [] s
| run_step s c1 e1 s1 c2 e2 s2 :
    store_run s c1 e1 s1 -> store_step s1 c2 e2 s2 -> store_run s (c1 ++ c2) (e1 ++ e2) s2.

(** Calls that log nothing emit nothing. *)
Lemma run_call_quiet call cm events cm' :
  run_call call cm = Some (events, cm') ->
  cm_transfer_mutations cm' = cm_transfer_mutations cm -> events = [].
Proof.
  assert (forall (l : list CoreTransferMutation) m, l ++ [m] = l -> False) as Hgrow
    by (intros l m E%(f_equal length); rewrite length_app in E; cbn in E; lia).
  destruct call; cbn [run_call]; intros H Hl.
  1-3: apply V_bind_inv in H as (ev & cm1 & H1 & H); unfold on_core in H1;
    apply bind_Some_intro in H1 as ([r2 c'] & _ & [= <- <-]);
    apply V_bind_inv in H as (u & cm2 & [= <- <-] & [= <- <-]); by apply Hgrow in Hl.
  - apply fmap_inv in H as (r & H & ->). apply V_bind_inv in H as (r' & cm1 & H1 & H).
    unfold on_core in H1. apply bind_Some_intro in H1 as ([r2 c'] & H1 & [= <- <-]).
    apply V_bind_inv in H1 as (ok & c1 & [= <- <-] & H1).
    destruct (semantic_reads_match _ (cm_state cm)); [|injection H1 as <- <-; by injection H as <- _].
    apply fmap_inv in H1 as (ev & H1 & ->). destruct (b_effects batch) as [|ef effects].
    + injection H as <- _. by injection H1 as <- _.
    + apply V_bind_inv in H as (u & cm2 & [= <- <-] & [= <- <-]). by apply Hgrow in Hl.
  - apply fmap_inv in H as (r & H & ->). apply V_bind_inv in H as (r' & cm1 & H1 & H).
    unfold on_core in H1. apply bind_Some_intro in H1 as ([r2 c'] & _ & [= <- <-]).
    destruct r2 as [ev|]; [|by injection H as <- _].
    apply V_bind_inv in H as (u & cm2 & [= <- <-] & [= <- <-]). by apply Hgrow in Hl.
  - by apply V_bind_inv in H as (u & cm1 & _ & [= <- _]).
  - by apply V_bind_inv in H as (u & cm1 & _ & [= <- _]).
Qed.
Lemma run_calls_quiet calls : forall cm events cm',
  run_calls calls cm = Some (events, cm') ->
  cm_transfer_mutations cm' = cm_transfer_mutations cm -> events = [].
Proof.
  induction calls as [|call calls IH]; intros cm events cm' H Hl; [by injection H as <- _|].
  cbn [run_calls] in H. apply V_bind_inv in H as (ev & cm1 & H1 & H).
  apply V_bind_inv in H as (rest & cm2 & H2 & [= <- <-]).
  pose proof (run_call_logged _ _ _ _ H1) as [_ (l1 & E1 & _)].
  pose proof (run_calls_logged _ _ _ _ H2) as [_ (l2 & E2 & _)].
  assert (l1 ++ l2 = []) as [-> ->]%app_eq_nil.
  { apply (app_inv_head (cm_transfer_mutations cm)). by rewrite app_assoc, <- E1, <- E2, app_nil_r. }
  rewrite app_nil_r in E1, E2. by rewrite (run_call_quiet _ _ _ _ H1 E1), (IH _ _ _ H2 E2).
Qed.

(** What publishing does: a version that logged something is recorded, one that did not is
    the active one. *)
Definition published (s : CoreStore) (commits : list CoreTransferCommit) (events : list SharedCoreEvent)
    (s' : CoreStore) : Prop :=
  (commits = [] /\ events = [] /\ active s' = active s /\ journal s' = journal s) \/
  exists c, commits = [c] /\ chain (active s) [c] (active s') /\
    record (revision (active s')) events c (journal s) = Ok (journal s').

Lemma commit_locked_published calls persistence s events cm ev s' :
  run_calls calls (mutation_from_version (active s)) = Some (events, cm) ->
  revision (active s) < u64_max ->
  commit_locked (prepare cm events persistence) s = Ok (ev, s') ->
  ev = map shared_from events /\ published s (commits_of calls persistence s) ev s'.
Proof.
  intros Hrun Hlt H. unfold commit_locked in H. case_match; [done|].
  assert (parent_commit (active s) (calls, persistence) =
    Some (pc_next_version (prepare cm events persistence), (into_parts (prepare cm events persistence)).2)) as Hp.
  { unfold parent_commit. cbn [fst snd]. rewrite Hrun. done. }
  pose proof (parent_commit_ok _ _ _ _ Hp) as (Hb & Hn & Ha & Hsome & Hnone).
  unfold commits_of. rewrite Hp.
  apply result_bind_ok in H as (j & Hj & [= <- <-]). split; [done|].
  set (c := (into_parts (prepare cm events persistence)).2) in *.
  set (next := pc_next_version (prepare cm events persistence)) in *.
  unfold retained. cbn [List.filter]. destruct (ct_mutations c) as [|m ms] eqn:Ec.
  - left. split; [done|]. split; [by rewrite (run_calls_quiet _ _ _ _ Hrun Ec)|].
    pose proof (Hnone eq_refl) as Heq. cbn [active journal].
    change (mkVersion _ (cm_state cm)) with next. rewrite Heq in Hj |- *.
    rewrite Z.ltb_irrefl in Hj. by injection Hj as ->.
  - right. exists c. split; [done|]. specialize (Hsome ltac:(done)).
    repeat match goal with |- context [active (mkStore ?a ?b ?d ?j)] =>
      change (active (mkStore a b d j)) with next end.
    assert (revision (active s) < revision next) as Hgt
      by (rewrite Hsome; unfold revision_next, saturating_add; lia).
    rewrite (proj2 (Z.ltb_lt _ _)) in Hj by exact Hgt. split; [|exact Hj].
    econstructor; [exact Hb|by rewrite Hn|exact Hsome|by rewrite Ec|constructor].
Qed.

Lemma or_die_ok {A S} (o : option (A * S)) r : or_die o = Ok r <-> o = Some r.
Proof. destruct o; cbn; split; intros [=]; by subst. Qed.

(** Calls that log nothing publish nothing. *)
Lemma commits_of_unlogged calls persistence s events cm :
  run_calls calls (mutation_from_version (active s)) = Some (events, cm) ->
  cm_transfer_mutations cm = [] -> commits_of calls persistence s = [].
Proof.
  intros H Hl. unfold commits_of, parent_commit. cbn [fst snd]. rewrite H. cbn [option_bind mbind].
  unfold into_parts, prepare, retained. cbn [List.filter ct_mutations pc_transfer_mutations]. by rewrite Hl.
Qed.
Lemma run_calls_one call cm events cm' :
  run_call call cm = Some (events, cm') -> run_calls [call] cm = Some (events, cm').
Proof.
  intros H. cbn [run_calls]. unfold mbind, V_bind. rewrite H. cbn. by rewrite app_nil_r.
Qed.
Lemma effects_conflict batch v cm :
  mut_gameplay_effects batch (mutation_from_version v) = Some (Conflict, cm) -> cm_transfer_mutations cm = [].
Proof.
  intros H. apply V_bind_inv in H as (r & cm1 & H1 & H). unfold on_core in H1.
  apply bind_Some_intro in H1 as ([a c] & _ & [= <- <-]). destruct a as [ev|].
  - destruct (b_effects batch); [done|]. by apply V_bind_inv in H as (u & cm2 & _ & [=]).
  - by injection H as <-.
Qed.
Lemma login_conflict q name p batch v cm :
  mut_login_effects q name p batch (mutation_from_version v) = Some (Conflict, cm) ->
  cm_transfer_mutations cm = [].
Proof.
  intros H. apply V_bind_inv in H as (r & cm1 & H1 & H). unfold on_core in H1.
  apply bind_Some_intro in H1 as ([a c] & _ & [= <- <-]). destruct a as [ev|].
  - by apply V_bind_inv in H as (u & cm2 & _ & [=]).
  - by injection H as <-.
Qed.
Lemma run_ticks_calls r ticks : forall cm events stale cm',
  run_ticks r ticks cm = Some ((events, stale), cm') ->
  run_calls (map (fun t => CallEffects (pt_batch t)) ticks) cm = Some (events, cm').
Proof.
  induction ticks as [|t ticks IH]; intros cm events stale cm' H; [by injection H as <- _ <-|].
  cbn [run_ticks] in H. apply V_bind_inv in H as (a & cm1 & H1 & H).
  apply V_bind_inv in H as ([events' stale'] & cm2 & H2 & H). apply IH in H2.
  assert (run_call (CallEffects (pt_batch t)) cm = Some (result_events a, cm1)) as Hc.
  { cbn [run_call]. unfold fmap, V_fmap, mbind, V_bind. by rewrite H1. }
  cbn [map run_calls]. unfold mbind, V_bind. rewrite Hc. cbn. rewrite H2. cbn.
  destruct a; by injection H as <- _ <-.
Qed.

Lemma store_step_published s commits events s' :
  store_step s commits events s' -> revision (active s) < u64_max -> published s commits events s'.
Proof.
  destruct 1 as [command now s o s' H|q name p batch s o s' H|p batch s o s' H|now s events s' H
    |ticks s events stale s' H|saved s]; intros Hlt.
  - apply result_bind_ok in H as ([ev cm] & Hm%or_die_ok & H).
    apply result_bind_ok in H as ([events s1] & H & [= <- <-]).
    eapply commit_locked_published in H as [_ H]; [exact H| |done]. by apply run_calls_one.
  - apply result_bind_ok in H as ([r cm] & Hm%or_die_ok & H). destruct r as [ev|].
    + apply result_bind_ok in H as ([events s1] & H & [= <- <-]).
      eapply commit_locked_published in H as [_ H]; [exact H| |done].
      apply run_calls_one. cbn [run_call]. unfold fmap, V_fmap, mbind, V_bind. by rewrite Hm.
    + injection H as <- <-. left. split_and!; [|done..].
      eapply commits_of_unlogged; [|by eapply login_conflict].
      apply run_calls_one. cbn [run_call]. unfold fmap, V_fmap, mbind, V_bind. by rewrite Hm.
  - apply result_bind_ok in H as ([r cm] & Hm%or_die_ok & H). destruct r as [ev|].
    + apply result_bind_ok in H as ([events s1] & H & [= <- <-]).
      eapply commit_locked_published in H as [_ H]; [exact H| |done].
      apply run_calls_one. cbn [run_call]. unfold fmap, V_fmap, mbind, V_bind. by rewrite Hm.
    + injection H as <- <-. left. split_and!; [|done..].
      eapply commits_of_unlogged; [|by eapply effects_conflict].
      apply run_calls_one. cbn [run_call]. unfold fmap, V_fmap, mbind, V_bind. by rewrite Hm.
  - apply result_bind_ok in H as ([ev cm] & Hm%or_die_ok & H).
    eapply commit_locked_published in H as [_ H]; [exact H| |done]. by apply run_calls_one.
  - unfold commit_gameplay_ticks in H. destruct ticks as [|t ticks].
    + injection H as <- <- <-. left. split_and!; [|done..].
      by eapply commits_of_unlogged.
    + apply result_bind_ok in H as ([[ev stale'] cm] & Hm%or_die_ok & H).
      apply result_bind_ok in H as ([events' s1] & H & [= <- <- <-]).
      eapply commit_locked_published in H as [_ H]; [exact H| |done]. by eapply run_ticks_calls.
  - left. unfold finish_save. by case_match.
Qed.
(** Runs of the store are chains of commits, as long as the revision does not saturate. *)
Lemma chain_app v1 l1 v2 l2 v3 : chain v1 l1 v2 -> chain v2 l2 v3 -> chain v1 (l1 ++ l2) v3.
Proof. induction 1; [done|]. intros H'. cbn. econstructor; by eauto. Qed.
Lemma published_chain s commits events s' :
  published s commits events s' -> revision (active s) + len commits <= u64_max ->
  chain (active s) commits (active s') /\ revision (active s') = revision (active s) + len commits.
Proof.
  intros [(-> & _ & -> & _)|(c & -> & Hc & _)] Hlt; cbn [length] in *.
  - split; [constructor|lia].
  - split; [done|]. inversion Hc as [|? ? v1 ? ? _ _ Hr _ Hnil]; subst. inversion Hnil; subst.
    rewrite Hr. unfold revision_next, saturating_add. lia.
Qed.
Lemma store_run_chain s commits events s' :
  store_run s commits events s' -> revision (active s) + len commits < u64_max ->
  chain (active s) commits (active s') /\ revision (active s') = revision (active s) + len commits.
Proof.
  induction 1 as [s|s c1 e1 s1 c2 e2 s2 Hrun IH Hs]; intros Hlt; [split; [constructor|cbn; lia]|].
  rewrite length_app, Nat2Z.inj_add in Hlt |- *. destruct (IH ltac:(lia)) as [Hc1 Hr1].
  apply store_step_published in Hs; [|lia]. apply published_chain in Hs as [Hc2 Hr2]; [|lia].
  split; [by eapply chain_app|lia].
Qed.

(** An invariant of the runs of the store: it holds at first and every publication keeps it. *)
Lemma store_run_inv (P : list CoreTransferCommit -> list SharedCoreEvent -> CoreStore -> Prop) s :
  P [] [] s ->
  (forall cs es s1 s2 cs2 es2, P cs es s1 -> published s1 cs2 es2 s2 ->
    revision (active s1) = revision (active s) + len cs ->
    revision (active s2) = revision (active s) + len (cs ++ cs2) -> P (cs ++ cs2) (es ++ es2) s2) ->
  forall commits events s', store_run s commits events s' ->
    revision (active s) + len commits < u64_max -> P commits events s'.
Proof.
  intros H0 Hp commits events s'. induction 1 as [s|s c1 e1 s1 c2 e2 s2 Hrun IH Hs]; intros Hlt; [done|].
  assert (revision (active s) + len c1 < u64_max) as Hlt1 by (rewrite length_app in Hlt; lia).
  pose proof (store_run_chain _ _ _ _ Hrun Hlt1) as [_ Hr1].
  pose proof (store_run_chain _ _ _ _ (run_step _ _ _ _ _ _ _ Hrun Hs) Hlt) as [_ Hr2].
  eapply Hp; [by apply IH| |done|done]. apply store_step_published; [done|lia].
Qed.

(** ** The delta of a process cutover *)

(** The journal at a version: it retains nothing beyond it. *)
Definition upto (r : CoreRevision) (j : ProcessJournal) : Prop :=
  pj_floor j <= r /\ Forall (fun e => ec_next_revision e <= r) (pj_commits j).
(** The journal since version [r], at which [commits] were published: what it retains after [r]
    are their encodings, all of them unless the journal begins after [r]. *)
Definition covers (r : CoreRevision) (commits : list CoreTransferCommit) (j : ProcessJournal) : Prop :=
  exists pre post, pj_commits j = pre ++ post /\
    Forall (fun e => ec_next_revision e <= r) pre /\ Forall (fun e => r < ec_next_revision e) post /\
    ((pj_floor j <= r /\ Forall2 encodes commits post) \/ (r < pj_floor j /\ pre = [])).

Lemma floor_after_upto r popped floor :
  floor <= r -> Forall (fun e => ec_next_revision e <= r) popped -> floor_after popped floor <= r.
Proof.
  intros Hf Hp. unfold floor_after. destruct (last popped) as [e|] eqn:E; [|done].
  apply last_Some in E as [l ->]. apply Forall_app in Hp as [_ Hp]. by rewrite Forall_singleton in Hp.
Qed.
Lemma floor_after_beyond r popped floor :
  popped <> [] -> Forall (fun e => r < ec_next_revision e) popped -> r < floor_after popped floor.
Proof.
  intros Hne Hp. unfold floor_after. destruct (last popped) as [e|] eqn:E.
  - apply last_Some in E as [l ->]. apply Forall_app in Hp as [_ Hp]. by rewrite Forall_singleton in Hp.
  - by apply last_None in E.
Qed.
Lemma upto_covers r j : upto r j -> covers r [] j.
Proof. intros [Hf Hc]. exists (pj_commits j), []. rewrite app_nil_r. by split_and!; [..|left]. Qed.

(** Evicting the oldest commits keeps what the journal covers. *)
Lemma covers_popped r commits popped j j' :
  covers r commits j -> pj_commits j = popped ++ pj_commits j' ->
  pj_floor j' = floor_after popped (pj_floor j) -> covers r commits j'.
Proof.
  intros (pre & post & Hj & Hpre & Hpost & Hcov) Hpop Hfl. rewrite Hpop in Hj.
  symmetry in Hj. apply app_eq_inv in Hj as [(k & -> & Hk)|(k & -> & Hk)].
  - exists k, post. apply Forall_app in Hpre as [Hp1 Hp2]. split_and!; [done..|].
    destruct Hcov as [[Hf Henc]|[Hf Hnil]].
    + left. split; [|done]. rewrite Hfl. by apply floor_after_upto.
    + apply app_eq_nil in Hnil as [-> ->]. right. rewrite Hfl. done.
  - exists [], (pj_commits j'). rewrite Hk in Hpost. apply Forall_app in Hpost as [Hp1 Hp2].
    split_and!; [done..|constructor|done|]. destruct k as [|e k].
    + rewrite app_nil_r in Hfl. destruct Hcov as [[Hf Henc]|[Hf ->]]; [left|right].
      * rewrite Hfl. split; [by apply floor_after_upto|]. by rewrite Hk in Henc.
      * rewrite Hfl. done.
    + right. split; [|done]. rewrite Hfl. destruct Hcov as [[Hf _]|[Hf ->]].
      * unfold floor_after. rewrite last_app, last_cons.
        pose proof (floor_after_beyond r (e :: k) 0 ltac:(done) Hp1) as Hb. unfold floor_after in Hb.
        rewrite last_cons in Hb. by destruct (last k).
      * by apply floor_after_beyond.
Qed.
Lemma covers_push r commits c e j failure :
  covers r commits j -> encodes c e -> r < ec_next_revision e ->
  covers r (commits ++ [c])
    (mkProcess (pj_floor j) (pj_commits j ++ [e]) (pj_bytes j + encoded_len e) failure).
Proof.
  intros (pre & post & Hj & Hpre & Hpost & Hcov) He Hr. exists pre, (post ++ [e]).
  cbn [pj_commits pj_floor]. rewrite Hj, <- app_assoc.
  split_and!; [done..|by apply Forall_app; split; [|constructor]|].
  destruct Hcov as [[Hf Henc]|Hf]; [left|by right]. split; [done|]. apply Forall2_app; [done|by constructor].
Qed.
(** What recording a commit does to the journal of a process cutover. *)
Lemma record_process r events c j k :
  process_ok j -> record r events c (Process j) = Ok k ->
  exists j', k = Process j' /\ process_ok j' /\
    (pj_failure j' = None -> pj_failure j = None /\
      ((pj_floor j' = ct_next_revision c /\ pj_commits j' = []) \/
       exists e popped rest, commit_encode alloc c PROCESS_ENTRY_BYTE_LIMIT = Ok e /\
         pj_commits j = popped ++ rest /\ pj_commits j' = rest ++ [e] /\
         pj_floor j' = floor_after popped (pj_floor j))).
Proof.
  intros Hj H. cbn [record] in H. destruct (pj_failure j) eqn:Ef.
  - injection H as <-. exists j. split_and!; [done|done|]. by rewrite Ef.
  - destruct (process_retain_ok c j Hj) as (j' & res & Hr & Hp & Hf & Hok & Hfail & Hres).
    rewrite Hr in H. destruct res as [u|error| |]; [|..|done|done]; injection H as <-.
    + exists j'. split_and!; [done|done|]. intros _. split; [done|]. apply Hres. by destruct u.
    + eexists. split_and!; [reflexivity|by destruct Hok|done].
Qed.

Lemma upto_record r r' events c j k :
  record r' events c (Process j) = Ok k -> process_ok j -> ct_next_revision c = r' -> r <= r' ->
  (pj_failure j = None -> upto r j) ->
  exists j', k = Process j' /\ process_ok j' /\ (pj_failure j' = None -> upto r' j').
Proof.
  intros H Hj Hc Hr Hup. apply record_process in H as (j' & -> & Hok & Hcase); [|done].
  exists j'. split_and!; [done|done|]. intros Hf. destruct (Hcase Hf) as [Hf0 Hj']. destruct (Hup Hf0) as [Hfl Hcs].
  destruct Hj' as [[E1 E2]|(e & popped & rest & He & E1 & E2 & E3)]; split; rewrite ?E1, ?E2, ?E3.
  - lia.
  - constructor.
  - apply floor_after_upto; [lia|]. rewrite E1 in Hcs. apply Forall_app in Hcs as [Hcs _].
    eapply Forall_impl; [exact Hcs|]. cbn. lia.
  - rewrite E1 in Hcs. apply Forall_app in Hcs as [_ Hcs]. apply Forall_app. split.
    + eapply Forall_impl; [exact Hcs|]. cbn. lia.
    + rewrite Forall_singleton. apply result_bind_ok in He as (bytes & _ & [= <-]). cbn. lia.
Qed.
Lemma covers_record r r' commits events c j k :
  record r' events c (Process j) = Ok k -> process_ok j -> ct_next_revision c = r' -> r < r' ->
  codec_ok c -> (pj_failure j = None -> covers r commits j) ->
  exists j', k = Process j' /\ process_ok j' /\ (pj_failure j' = None -> covers r (commits ++ [c]) j').
Proof.
  intros H Hj Hc Hr Hcodec Hcov. apply record_process in H as (j' & -> & Hok & Hcase); [|done].
  exists j'. split_and!; [done|done|]. intros Hf. destruct (Hcase Hf) as [Hf0 Hj']. specialize (Hcov Hf0).
  destruct Hj' as [[E1 E2]|(e & popped & rest & He & E1 & E2 & E3)].
  - exists [], []. rewrite E1, E2. split_and!; [done|constructor|constructor|]. right. split; [lia|done].
  - apply commit_encodes in He as [He _]; [|done|done].
    assert (covers r commits (mkProcess (pj_floor j') rest 0 None)) as Hpop
      by (by eapply covers_popped).
    eapply (covers_push _ _ _ _ _ None) in Hpop; [|exact He|destruct He as (_ & -> & _); lia].
    destruct Hpop as (pre & post & Hp). exists pre, post. cbn [pj_commits pj_floor] in Hp. by rewrite E2.
Qed.

(** A store that retains for a successor process. *)
Definition retains (P : ProcessJournal -> Prop) (s : CoreStore) : Prop :=
  exists j, journal s = Process j /\ process_ok j /\ (pj_failure j = None -> P j).

Lemma precopy_retains s p s' :
  process_precopy s = Ok (p, s') ->
  p = precopy_of s /\ active s' = active s /\ retains (upto (revision (active s'))) s'.
Proof.
  intros [= <- <-]. split_and!; [done|done|]. eexists. split_and!; [reflexivity|apply process_ok_new|].
  split; [cbn; lia|constructor].
Qed.
Lemma run_upto s commits events s' :
  store_run s commits events s' -> revision (active s) + len commits < u64_max ->
  retains (upto (revision (active s))) s -> retains (upto (revision (active s'))) s'.
Proof.
  intros Hrun Hlt H0. revert commits events s' Hrun Hlt.
  apply (store_run_inv (fun _ _ s' => retains (upto (revision (active s'))) s')); [done|].
  intros cs es s1 s2 cs2 es2 (j & Hj & Hok & Hup) [(-> & _ & Ha & Hjn)|(c & -> & Hc & Hrec)] Hr1 Hr2.
  - exists j. by rewrite Ha, Hjn.
  - rewrite Hj in Hrec. rewrite length_app in Hr2. cbn in Hr2.
    eapply upto_record in Hrec; [exact Hrec|done| |instantiate (1 := revision (active s1)); lia|done].
    inversion Hc as [|? ? v1 ? ? _ Hn Hr _ Hnil]; subst. inversion Hnil; subst. congruence.
Qed.
Lemma run_covers s commits events s' :
  store_run s commits events s' -> revision (active s) + len commits < u64_max ->
  retains (upto (revision (active s))) s -> Forall codec_ok commits ->
  retains (covers (revision (active s)) commits) s'.
Proof.
  intros Hrun Hlt H0. revert commits events s' Hrun Hlt.
  apply (store_run_inv (fun commits _ s' =>
    Forall codec_ok commits -> retains (covers (revision (active s)) commits) s')).
  - intros _. destruct H0 as (j & Hj & Hok & Hup). exists j. split_and!; [done|done|]. intros Hf.
    apply upto_covers. by apply Hup.
  - intros cs es s1 s2 cs2 es2 IH [(-> & _ & Ha & Hjn)|(c & -> & Hc & Hrec)] Hr1 Hr2 Hcodec.
    + rewrite app_nil_r in *. destruct (IH Hcodec) as (j & Hj & Hok & Hcov). exists j. by rewrite Hjn.
    + apply Forall_app in Hcodec as [Hcs Hcc]. rewrite Forall_singleton in Hcc.
      destruct (IH Hcs) as (j & Hj & Hok & Hcov). rewrite Hj in Hrec. rewrite length_app in Hr2. cbn in Hr2.
      eapply covers_record in Hrec; [exact Hrec|done| |lia|done|done].
      inversion Hc as [|? ? v1 ? ? _ Hn Hr _ Hnil]; subst. inversion Hnil; subst. congruence.
Qed.
Lemma filter_split {A} (f : A -> bool) pre post :
  Forall (fun x => f x = false) pre -> Forall (fun x => f x = true) post ->
  List.filter f (pre ++ post) = post.
Proof.
  intros Hpre Hpost. induction Hpre as [|x l Hx _ IH]; cbn; [|by rewrite Hx].
  induction Hpost as [|x l Hx _ IH]; cbn; [done|]. by rewrite Hx, IH.
Qed.
Lemma chain_adjacent v commits vn es :
  chain v commits vn -> Forall2 encodes commits es -> adjacent (revision v) es (revision vn).
Proof.
  intros Hc. revert es. induction Hc as [v|v c v1 commits vn Hb Hn Hr Ha Hc IH]; intros es Hes.
  - by inversion Hes.
  - inversion Hes as [|c' e commits' es' (Heb & Hen & _) Hes' Heq]; subst. cbn [adjacent].
    rewrite Heb, Hen, Hb, Hn, <- Hr. split_and!; [done|done|by apply IH].
Qed.
Lemma frames_len_commits l : frames_len l = 4 * len l + commits_len l.
Proof.
  unfold frames_len, commits_len. induction l as [|e l IH]; [done|]. cbn in *. unfold sum_Z in IH. lia.
Qed.
Lemma prestage_within_transfer : CORE_PROCESS_PRESTAGE_BYTES <= MAX_CORE_TRANSFER_BYTES.
Proof. done. Qed.

(** The delta sealed from a journal that covers a run. *)
Lemma covered_delta_applies v commits vn j :
  0 <= revision v <= u64_max -> chain v commits vn -> process_ok j -> pj_failure j = None ->
  covers (revision v) commits j -> pj_floor j <= revision v ->
  exists d bytes, write_process_delta vec_write_all (revision v) (Process j) [] = Ok (SealReady d, bytes) /\
    apply_process_transfer_delta v bytes = Ok vn /\ dd_final_revision d = revision vn /\
    len bytes = dd_encoded_len d /\ dd_encoded_len d <= CORE_PROCESS_PRESTAGE_BYTES /\
    forall capacity, 0 <= capacity -> write_process_delta (slot_write_all capacity) (revision v) (Process j) [] =
      (if capacity <? len bytes then Err (Output (overflow_message capacity)) else Ok (SealReady d, bytes)).
Proof.
  intros Hr Hc [Hb Hl Hn] Hf (pre & post & Hj & Hpre & Hpost & [[_ Henc]|[Hlt _]]) Hfl; [|lia].
  assert (List.filter (fun c => revision v <? ec_next_revision c) (pj_commits j) = post) as Hfilter.
  { rewrite Hj. apply filter_split; (eapply Forall_impl; [eassumption|]); cbn; intros e; lia. }
  rewrite Hj in Hb, Hn. rewrite length_app in Hn. rewrite commits_len_app in Hb.
  pose proof (commits_len_nonneg pre). pose proof (frames_len_commits post) as Hfr.
  assert (CORE_DELTA_HEADER_BYTES + frames_len post <= CORE_PROCESS_PRESTAGE_BYTES) as Hbudget.
  { unfold CORE_PROCESS_PRESTAGE_BYTES, CORE_PROCESS_DELTA_FRAMING_BYTES.
    assert (CORE_DELTA_HEADER_BYTES = 8 + 2 + 8 * 2 + 4) as -> by done. lia. }
  pose proof prestage_within_transfer.
  destruct (seal_vec_complete (revision v) post (revision vn)) as (bytes & Hs & Hlen);
    [by eapply chain_adjacent|lia|lia|].
  pose proof (apply_sealed_delta v commits vn post _ Hr Hc Henc Hs) as [Happly Hfin].
  do 2 eexists. split; [|split; [exact Happly|split; [exact Hfin|split; [exact Hlen|split; [exact Hbudget|]]]]].
  - cbn [write_process_delta]. rewrite Hf, (proj2 (Z.ltb_ge _ _) Hfl), Hfilter, Hs. reflexivity.
  - intros capacity Hcap. cbn [write_process_delta]. rewrite Hf, (proj2 (Z.ltb_ge _ _) Hfl), Hfilter.
    rewrite (seal_slot_complete capacity (revision v) post (revision vn) Hcap) by (by eapply chain_adjacent || lia).
    rewrite Hs. cbn [fst snd]. rewrite Hlen. by destruct (capacity <? _).
Qed.

(** C3: what a successor process is sent brings it to the published version: whatever commits,
    ticks, logins and saves interleave from the moment retention starts, a successor that took
    its snapshot at any point of that run and applies the delta sealed at its end holds exactly
    the version then published, and the delta fits the space that is reserved while the core
    still runs.  Otherwise the sealing says why: the journal no longer reaches back to the
    snapshot, or it had failed.  The final delta of a frozen core is the same delta, in a slot of
    the arena that is smaller: where it does not fit, sealing fails with an output error and
    nothing is handed over; it never panics, nor drops a commit. *)
Theorem store_delta_catches_up s p s0 cs1 ev1 sm cs2 ev2 sn :
  process_precopy s = Ok (p, s0) -> store_run s0 cs1 ev1 sm -> store_run sm cs2 ev2 sn ->
  Forall codec_ok cs2 ->
  0 <= revision (pre_version p) -> revision (pre_version p) + len (cs1 ++ cs2) < u64_max ->
  let sealed := write_process_delta_since vec_write_all (revision (active sm)) [] sn in
  match sealed with
  | Ok (DeltaReady d persisted dirty, bytes) =>
      apply_process_transfer_delta (active sm) bytes = Ok (active sn) /\
      dd_final_revision d = revision (active sn) /\
      len bytes = dd_encoded_len d /\ dd_encoded_len d <= CORE_PROCESS_PRESTAGE_BYTES /\
      persisted = persisted_revision sn /\ dirty = latest_dirty_revision sn
  | Ok (DeltaOutpaced requested earliest, bytes) =>
      requested = revision (active sm) /\ requested < earliest /\ bytes = []
  | Err e => exists j, journal sn = Process j /\ pj_failure j = Some e
  | Panic | OutOfFuel => False
  end /\
  forall epoch, seal_final_core_delta epoch epoch true (revision (active sm)) sn =
    match sealed with
    | Ok (DeltaReady d persisted dirty, bytes) =>
        (false, if CORE_PROCESS_DELTA_SLOT_BYTES <? len bytes
                then Err (RtCoreTransfer (Output (overflow_message CORE_PROCESS_DELTA_SLOT_BYTES)))
                else Ok (DeltaReady d persisted dirty, bytes))
    | Ok (DeltaOutpaced requested earliest, bytes) => (true, Ok (DeltaOutpaced requested earliest, bytes))
    | Err e => (false, Err (RtCoreTransfer e))
    | Panic => (false, Panic)
    | OutOfFuel => (false, OutOfFuel)
    end.
Proof.
  intros (-> & Ha & Hup)%precopy_retains Hr1 Hr2 Hcodec H0 Hlt. cbn [pre_version precopy_of] in H0, Hlt.
  rewrite <- Ha in H0, Hlt. rewrite length_app in Hlt.
  pose proof (store_run_chain _ _ _ _ Hr1 ltac:(lia)) as [_ Hm].
  pose proof (store_run_chain _ _ _ _ Hr2 ltac:(lia)) as [Hc Hn].
  apply (run_upto _ _ _ _ Hr1 ltac:(lia)) in Hup.
  destruct (run_covers _ _ _ _ Hr2 ltac:(lia) Hup Hcodec) as (j & Hj & Hok & Hcov).
  unfold seal_final_core_delta, write_process_delta_since. rewrite (proj2 (Z.ltb_ge _ _)) by lia. rewrite Hj.
  destruct (pj_failure j) as [e|] eqn:Hf.
  { cbn. rewrite Hf. cbn. split; [by exists j|]. intros epoch. by rewrite Z.eqb_refl. }
  destruct (decide (pj_floor j <= revision (active sm))) as [Hle|Hgt].
  - destruct (covered_delta_applies (active sm) cs2 (active sn) j ltac:(lia) Hc Hok Hf (Hcov eq_refl) Hle)
      as (d & bytes & -> & Happly & Hfin & Hlen & Hb & Hslot). cbn [mbind result_bind].
    split; [done|]. intros epoch. rewrite Z.eqb_refl, Hslot by done. by destruct (_ <? len bytes).
  - cbn [write_process_delta]. rewrite Hf, (proj2 (Z.ltb_lt _ _)) by lia. cbn.
    split; [split_and!; [done|lia|done]|]. intros epoch. by rewrite Z.eqb_refl.
Qed.

(** ** The events of a reload in the same process *)

(** The journal after [events]: all of them, within the limit, or what it held when an error
    ended the retention. *)
Record resync_ok (base : CoreRevision) (events : list SharedCoreEvent) (j : ResyncJournal) : Prop :=
  mkResyncOk {
  ro_base : rj_base_revision j = base;
  ro_count : len (rj_events j) <= RESYNC_EVENT_LIMIT;
  ro_outcome : match rj_outcome j with
               | Ok _ => rj_events j = events
               | Err (Config _) => False
               | Err _ => rj_events j `prefix_of` events
               | Panic | OutOfFuel => False
               end
}.
Lemma events_size_total outpaced events : forall size,
  match events_size outpaced events size with
  | Ok _ | Err (CutoverEventEncoding _) => True
  | Err e => e = outpaced
  | Panic | OutOfFuel => False
  end.
Proof.
  induction events as [|e events IH]; intros size; [done|]. cbn [events_size].
  destruct (json_chunks (sh_event e)) as [chunks [message|]]; [done|].
  destruct (_ <? _); [by destruct outpaced|apply IH].
Qed.
(** One recording: it appends the events, or ends the retention. *)
Lemma resync_retain_ok r events j :
  len (rj_events j) <= RESYNC_EVENT_LIMIT ->
  exists j' res, resync_retain r events j = (j', res) /\ rj_base_revision j' = rj_base_revision j /\
    len (rj_events j') <= RESYNC_EVENT_LIMIT /\
    match res with
    | Ok _ => rj_events j' = rj_events j ++ events
    | Err (Config _) => False
    | Err _ => rj_events j' = rj_events j
    | Panic | OutOfFuel => False
    end.
Proof.
  intros Hl. destruct events as [|e events].
  { exists j, (Ok tt). by rewrite app_nil_r. }
  unfold resync_retain. unfold mbind, M_bind, get. rewrite (proj2 (Z.ltb_ge _ _)) by lia.
  case_match eqn:El; [by eexists _, _|]. apply Z.ltb_ge in El.
  pose proof (events_size_total (CutoverOutpaced "core resync events" (rj_base_revision j) r) (e :: events)
    (rj_event_bytes j)) as Ht. unfold lift.
  destruct (events_size _ _ _) as [size|error| |]; [|destruct error; try done; by eexists _, _|done|done].
  destruct (alloc _); cbn [negb]; [|by eexists _, _].
  eexists _, _. split_and!; [reflexivity|done| |done]. cbn [rj_events]. rewrite length_app. lia.
Qed.
Lemma resync_record base r events new c j k :
  record r new c (Resync j) = Ok k -> resync_ok base events j ->
  exists j', k = Resync j' /\ resync_ok base (events ++ new) j'.
Proof.
  intros H [Hb Hn Ho]. cbn [record] in H. destruct (rj_outcome j) as [u|error| |] eqn:Eo; [|..|done|done].
  - destruct (resync_retain_ok r new j Hn) as (j' & res & Hr & Hb' & Hn' & Hres). rewrite Hr in H.
    destruct res as [u'|error| |]; [|..|done|done]; injection H as <-; eexists; (split; [reflexivity|]).
    + constructor; cbn; [congruence|done|by rewrite Hres, Ho].
    + constructor; cbn; [congruence|done|].
      destruct error; try done; rewrite Hres, Ho; by apply prefix_app_r.
  - injection H as <-. exists j. split; [done|]. constructor; [done|done|]. rewrite Eo.
    destruct error; try done; by apply prefix_app_r.
Qed.

(** C5: a reload in the same process loses no event: whatever commits, ticks, logins and saves
    interleave from the moment the candidate is planned, sealing its delta ends the retention
    and yields the version then published and exactly the events emitted since, in their order;
    or an error of the retention (the limits, the encoding, the allocator) and the journal
    stops with a prefix of them.  It never panics, and never fails because of the revision. *)
Theorem resync_complete config s base candidate s1 commits events sn :
  plan_candidate config s = Ok ((base, candidate), s1) -> store_run s1 commits events sn ->
  revision (active s) + len commits < u64_max ->
  let '(sealed, r) := seal_delta_since base sn in
  match r with
  | Ok (precopy, retained) =>
      precopy = precopy_of sn /\ retained = events /\ journal sealed = Inactive /\
      len events <= RESYNC_EVENT_LIMIT
  | Err (Config _) => False
  | Err _ => exists retained, journal sealed = StoppedResync retained /\ retained `prefix_of` events
  | Panic | OutOfFuel => False
  end.
Proof.
  intros H Hrun Hlt. apply result_bind_ok in H as (c & _ & [= <- _ <-]).
  assert (exists j, journal sn = Resync j /\ resync_ok (revision (active s)) events j) as (j & Hj & [Hb Hn Ho]).
  { revert commits events sn Hrun Hlt. apply (store_run_inv (fun _ events sn =>
      exists j, journal sn = Resync j /\ resync_ok (revision (active s)) events j)
      (set_journal (journal_resync (revision (active s))) s)).
    - eexists. split; [reflexivity|]. by constructor.
    - intros cs es s2 s3 cs2 es2 (j & Hj & Hok) [(_ & -> & _ & Hjn)|(c' & _ & _ & Hrec)] _ _.
      + exists j. by rewrite Hjn, app_nil_r.
      + rewrite Hj in Hrec. by eapply resync_record in Hrec. }
  unfold seal_delta_since. rewrite Hj. cbn [seal_resync]. rewrite Hb, Z.eqb_refl. cbn [negb].
  destruct (rj_outcome j) as [u|error| |]; [|..|done|done].
  - cbn. rewrite <- Ho. by split_and!.
  - destruct error; try done; by exists (rj_events j).
Qed.
End Journal.

(** ** A cutover of the sample session *)

(** A codec for the one commit it sends, and an allocator that never refuses. *)
Definition sample_codec : Cbor CoreTransferCommit := {|
  into_chunks c := ([[Z_byte (ct_base_revision c)]], None);
  from_reader bytes :=
    match bytes with
    | _ :: rest => inr (mkCommit 1 2 false [MutBuiltinTick 100], rest)
    | [] => inl EmptyString
    end
|}.
#[local] Instance sample_env : JournalEnv := {|
  alloc _ := true;
  json_chunks _ := ([[Z_byte 1]], None);
  shared_event_size := 64;
  encoded_commit_size := 40;
  commit_codec := sample_codec
|}.
#[local] Existing Instance CanonicalContent.

Definition state_after {A} (r : result RuntimeError (A * CoreStore)) (s : CoreStore) : CoreStore :=
  match r with Ok (_, s) => s | _ => s end.
Definition answer_of {A} (r : result RuntimeError (A * CoreStore)) (a : A) : A :=
  match r with Ok (a, _) => a | _ => a end.
Definition is_ok {E A} (r : result E A) : bool := match r with Ok _ => true | _ => false end.
Lemma is_ok_eq {A} (r : result RuntimeError (A * CoreStore)) a s :
  is_ok r = true -> r = Ok (answer_of r a, state_after r s).
Proof. by destruct r as [[]| | |]. Qed.

Definition retained_store : CoreStore := set_journal (journal_process 0) (store_new sample_online).
Definition moved : CoreStore := state_after (commit_command sample_slot 50 retained_store) retained_store.
Definition ticked : CoreStore := state_after (apply_builtin_tick 100 moved) moved.
Definition moved_commits : list CoreTransferCommit :=
  commits_of [CallCommand sample_slot 50] (requires_persistence sample_slot) retained_store.
Definition ticked_commits : list CoreTransferCommit := commits_of [CallTick 100] false moved.

Lemma moved_ok : is_ok (commit_command sample_slot 50 retained_store) = true.
Proof. vm_compute. reflexivity. Qed.
Lemma ticked_ok : is_ok (apply_builtin_tick 100 moved) = true.
Proof. vm_compute. reflexivity. Qed.
Lemma run_one s commits events s' : store_step s commits events s' -> store_run s commits events s'.
Proof. intros H. exact (run_step s [] [] s _ _ _ (run_here s) H). Qed.
Lemma command_run command now s :
  is_ok (commit_command command now s) = true ->
  store_run s (commits_of [CallCommand command now] (requires_persistence command) s)
    (outcome_events (answer_of (commit_command command now s) (Events [])))
    (state_after (commit_command command now s) s).
Proof. intros H. eapply run_one, step_core_command, is_ok_eq, H. Qed.
Lemma tick_run now s :
  is_ok (apply_builtin_tick now s) = true ->
  store_run s (commits_of [CallTick now] false s) (answer_of (apply_builtin_tick now s) [])
    (state_after (apply_builtin_tick now s) s).
Proof. intros H. eapply run_one, step_core_tick, is_ok_eq, H. Qed.
Lemma ticked_commits_eq : ticked_commits = [mkCommit 1 2 false [MutBuiltinTick 100]].
Proof. vm_compute. reflexivity. Qed.
Lemma moved_commits_eq : moved_commits = [mkCommit 0 1 true [MutCommand sample_slot 50]].
Proof. vm_compute. reflexivity. Qed.

Lemma store_delta_catches_up_witness :
  exists d bytes, write_process_delta_since vec_write_all (revision (active moved)) [] ticked =
      Ok (DeltaReady d 0 (Some 1), bytes) /\
    apply_process_transfer_delta (active moved) bytes = Ok (active ticked) /\
    dd_final_revision d = 2 /\ len bytes = 35.
Proof.
  pose proof (store_delta_catches_up (store_new sample_online) (precopy_of (store_new sample_online))
    retained_store moved_commits _ moved ticked_commits _ ticked eq_refl
    (command_run _ _ _ moved_ok) (tick_run _ _ ticked_ok)) as H.
  assert (exists d bytes, write_process_delta_since vec_write_all (revision (active moved)) [] ticked =
    Ok (DeltaReady d 0 (Some 1), bytes) /\ dd_final_revision d = 2 /\ len bytes = 35) as (d & bytes & E & Ed & El)
    by (do 2 eexists; split; [vm_compute; reflexivity|by split]).
  exists d, bytes. rewrite E in H. split; [exact E|]. split; [|split; [exact Ed|exact El]]. clear E Ed El.
  refine (proj1 (proj1 (H _ _ _))).
  - rewrite ticked_commits_eq. constructor; [|constructor]. eexists. by split.
  - change (0 <= 0). lia.
  - rewrite ticked_commits_eq, moved_commits_eq. change (0 + 2 < u64_max). unfold u64_max. lia.
Defined.

Definition planned : CoreStore := state_after (plan_candidate None (store_new sample_online)) retained_store.
Definition planned_ticked : CoreStore := state_after (apply_builtin_tick 100 planned) planned.
Definition planned_commits : list CoreTransferCommit := commits_of [CallTick 100] false planned.
Lemma planned_ticked_ok : is_ok (apply_builtin_tick 100 planned) = true.
Proof. vm_compute. reflexivity. Qed.
Lemma planned_commits_eq : planned_commits = [mkCommit 0 1 false [MutBuiltinTick 100]].
Proof. vm_compute. reflexivity. Qed.

Lemma resync_complete_witness :
  exists precopy events, (seal_delta_since 0 planned_ticked).2 = Ok (precopy, events) /\
    events = answer_of (apply_builtin_tick 100 planned) [] /\
    journal (seal_delta_since 0 planned_ticked).1 = Inactive.
Proof.
  pose proof (resync_complete None (store_new sample_online) 0 (store_new sample_online) planned
    planned_commits (answer_of (apply_builtin_tick 100 planned) []) planned_ticked eq_refl) as H.
  specialize (H (tick_run _ _ planned_ticked_ok)).
  assert (revision (active (store_new sample_online)) + len planned_commits < u64_max) as Hl
    by (rewrite planned_commits_eq; change (0 + 1 < u64_max); unfold u64_max; lia).
  specialize (H Hl).
  assert (is_ok (seal_delta_since 0 planned_ticked).2 = true) as Hok by (vm_compute; reflexivity).
  destruct (seal_delta_since 0 planned_ticked) as [sealed r]. cbn [fst snd] in *.
  destruct r as [[precopy events]|e| |]; [|discriminate Hok..]. exists precopy, events.
  destruct H as (_ & He & Hj & _). exact (conj eq_refl (conj He Hj)).
Defined.
