(* ===== verification/ProtoPacket.v ===== *)
(** * Packets and frames of the Java edition
    ([crates/protocol/mc-proto-common/src]: packet.rs, wire.rs, errors.rs)

    [PacketWriter] and [PacketReader] with the primitives of the protocol, the two wire codecs,
    and the loop in which a session takes frames out of what it has read
    ([crates/runtime/revy-server-runtime/src/runtime/session/spawn.rs]).  A Rust [str] is a
    [string] whose characters are its UTF-8 octets. *)

From Stdlib Require Import Floats.SpecFloat.
From Stdlib Require Import Strings.Byte.
From S2P Require Import Prelude Bytes.

Inductive ProtocolError : Type :=
| UnexpectedEof
| InvalidVarInt
| InvalidUtf8
| StringTooLong (bytes : Z)
| InvalidPacket (message : string)
| UnsupportedPacket (packet_id : Z)
| ProtocolPlugin (message : string).
#[export] Instance ProtocolError_eq_dec : EqDecision ProtocolError.
Proof. solve_decision. Defined.

(** Whether the build checks arithmetic: a shift by the width of its operand or more then
    panics, and takes the amount modulo the width otherwise.  And how many nested calls of a
    recursive reader the stack of its threads holds: one more aborts the process. *)
Class Build : Set := mkBuild { overflow_checks : bool; stack_levels : nat }.

(** ** Numbers on the wire *)

(** The bits of a float of [mw] mantissa bits and [ew] exponent bits; the payload of a NaN is
    not part of its value, and written as the quiet one. *)
Definition float_to_bits (mw ew : Z) (v : spec_float) : Z :=
  let sign (s : bool) := if s then Z.shiftl 1 (mw + ew) else 0 in
  let top := 2 ^ ew - 1 in
  let emin := 2 - 2 ^ (ew - 1) - mw in
  match v with
  | S754_zero s => sign s
  | S754_infinity s => sign s + Z.shiftl top mw
  | S754_nan => Z.shiftl top mw + 2 ^ (mw - 1)
  | S754_finite s m e =>
      if Z.pos m <? 2 ^ mw then sign s + Z.pos m
      else sign s + Z.shiftl (e - emin + 1) mw + (Z.pos m - 2 ^ mw)
  end.
Definition float_of_bits (mw ew : Z) (bits : Z) : spec_float :=
  let s := Z.testbit bits (mw + ew) in
  let top := 2 ^ ew - 1 in
  let emin := 2 - 2 ^ (ew - 1) - mw in
  let exponent := Z.land (Z.shiftr bits mw) top in
  let mantissa := Z.land bits (2 ^ mw - 1) in
  if exponent =? 0 then
    match mantissa with
    | Z.pos m => S754_finite s m emin
    | _ => S754_zero s
    end
  else if exponent =? top then
    if mantissa =? 0 then S754_infinity s else S754_nan
  else
    match mantissa + 2 ^ mw with
    | Z.pos m => S754_finite s m (emin + exponent - 1)
    | _ => S754_nan
    end.
Definition f32_to_bits := float_to_bits 23 8.
Definition f32_of_bits := float_of_bits 23 8.
Definition f64_to_bits := float_to_bits 52 11.
Definition f64_of_bits := float_of_bits 52 11.

(** [v << n] on [u32] *)
Definition shl_u32 `{Build} (v n : Z) : option Z :=
  if n <? 32 then Some (Z.shiftl v n mod 2 ^ 32)
  else if overflow_checks then None
  else Some (Z.shiftl v (n mod 32) mod 2 ^ 32).

(** ** UTF-8 *)

Definition in_range (lo hi : Z) (b : byte) : bool := (lo <=? byte_Z b) && (byte_Z b <=? hi).
Definition continuation : byte -> bool := in_range 0x80 0xbf.
(** [std::str::from_utf8(bytes)] and the number of its [chars]. *)
Fixpoint utf8_chars (bytes : list byte) : option Z :=
  match bytes with
  | [] => Some 0
  | b0 :: l =>
      if in_range 0 0x7f b0 then Z.succ <$> utf8_chars l
      else match l with
      | b1 :: l =>
          if in_range 0xc2 0xdf b0 && continuation b1 then Z.succ <$> utf8_chars l
          else match l with
          | b2 :: l =>
              if (in_range 0xe0 0xe0 b0 && in_range 0xa0 0xbf b1
                  || in_range 0xe1 0xec b0 && continuation b1
                  || in_range 0xed 0xed b0 && in_range 0x80 0x9f b1
                  || in_range 0xee 0xef b0 && continuation b1) && continuation b2
              then Z.succ <$> utf8_chars l
              else match l with
              | b3 :: l =>
                  if (in_range 0xf0 0xf0 b0 && in_range 0x90 0xbf b1
                      || in_range 0xf1 0xf3 b0 && continuation b1
                      || in_range 0xf4 0xf4 b0 && in_range 0x80 0x8f b1)
                     && continuation b2 && continuation b3
                  then Z.succ <$> utf8_chars l
                  else None
              | [] => None
              end
          | [] => None
          end
      | [] => None
      end
  end.

Definition string_bytes (s : string) : list byte := String.list_byte_of_string s.
Definition bytes_string (l : list byte) : string := String.string_of_list_byte l.

(** ** Writing *)

Definition PacketWriter : Type := list byte.
Definition Write (A : Type) : Type := M ProtocolError PacketWriter A.
#[global] Typeclasses Transparent Write.
(** [into_inner] of a new writer. *)
Definition written (m : Write unit) : result ProtocolError (list byte) :=
  match m [] with
  | (bytes, Ok _) => Ok bytes
  | (_, Err e) => Err e
  | (_, Panic) => Panic
  | (_, OutOfFuel) => OutOfFuel
  end.

Definition write_bytes (bytes : list byte) : Write unit := modify (fun buffer => buffer ++ bytes).
Definition write_u8 (v : Z) : Write unit := write_bytes [Z_byte v].
Definition write_i8 (v : Z) : Write unit := write_bytes [Z_byte (to_unsigned 8 v)].
Definition write_bool (v : bool) : Write unit := write_u8 (if v then 1 else 0).
Definition write_i16 (v : Z) : Write unit := write_bytes (to_be_bytes 2 (to_unsigned 16 v)).
Definition write_u16 (v : Z) : Write unit := write_bytes (to_be_bytes 2 v).
Definition write_i32 (v : Z) : Write unit := write_bytes (to_be_bytes 4 (to_unsigned 32 v)).
Definition write_i64 (v : Z) : Write unit := write_bytes (to_be_bytes 8 (to_unsigned 64 v)).
Definition write_f32 (v : spec_float) : Write unit := write_bytes (to_be_bytes 4 (f32_to_bits v)).
Definition write_f64 (v : spec_float) : Write unit := write_bytes (to_be_bytes 8 (f64_to_bits v)).

Fixpoint write_varint_loop (fuel : nat) (v : Z) : Write unit :=
  match fuel with
  | O => out_of_fuel
  | S fuel =>
      if Z.land v (Z.lnot 0x7f) =? 0 then
        if v <=? u8_max then write_u8 v else panic
      else write_u8 (Z.lor (Z.land v 0x7f) 0x80) ;; write_varint_loop fuel (Z.shiftr v 7)
  end.
Definition write_varint (v : Z) : Write unit := write_varint_loop 5 (to_unsigned 32 v).

Definition write_string (v : string) : Write unit :=
  let bytes := string_bytes v in
  if i32_max <? len bytes then throw (StringTooLong (len bytes))
  else write_varint (len bytes) ;; write_bytes bytes.

(** ** Reading *)

Record PacketReader : Type := mkReader { payload : list byte; cursor : Z }.
Definition Read (A : Type) : Type := M ProtocolError PacketReader A.
#[global] Typeclasses Transparent Read.
Definition reader_new (bytes : list byte) : PacketReader := mkReader bytes 0.

Definition read_u8 : Read Z := fun r =>
  match payload r !! Z.to_nat (cursor r) with
  | Some b => (mkReader (payload r) (cursor r + 1), Ok (byte_Z b))
  | None => (r, Err UnexpectedEof)
  end.
Definition read_bytes (n : Z) : Read (list byte) := fun r =>
  let e := saturating_add usize_max (cursor r) n in
  match slice_get (payload r) (cursor r) e with
  | Some bytes => (mkReader (payload r) e, Ok bytes)
  | None => (r, Err UnexpectedEof)
  end.
Definition is_exhausted (r : PacketReader) : bool := cursor r =? len (payload r).

Definition read_i8 : Read Z := b ← read_u8; mret (to_signed 8 b).
Definition read_bool : Read bool := b ← read_u8; mret (negb (b =? 0)).
(** [read_exact::<N>]: [copy_from_slice] of as many bytes as it asked for. *)
Definition read_exact (n : Z) : Read (list byte) :=
  bytes ← read_bytes n; if len bytes =? n then mret bytes else panic.
Definition read_i16 : Read Z := l ← read_exact 2; mret (to_signed 16 (from_be_bytes l)).
Definition read_u16 : Read Z := l ← read_exact 2; mret (from_be_bytes l).
Definition read_i32 : Read Z := l ← read_exact 4; mret (to_signed 32 (from_be_bytes l)).
Definition read_i64 : Read Z := l ← read_exact 8; mret (to_signed 64 (from_be_bytes l)).
Definition read_f32 : Read spec_float := l ← read_exact 4; mret (f32_of_bits (from_be_bytes l)).
Definition read_f64 : Read spec_float := l ← read_exact 8; mret (f64_of_bits (from_be_bytes l)).

Section Packet.
Context `{Build}.

(** The loop reads at most six bytes. *)
Fixpoint read_varint_loop (fuel : nat) (num_read res : Z) : Read Z :=
  match fuel with
  | O => out_of_fuel
  | S fuel =>
      b ← read_u8;
      match shl_u32 (Z.land b 0x7f) (7 * num_read) with
      | None => panic
      | Some v =>
          let res := Z.lor res v in
          let num_read := num_read + 1 in
          if 5 <? num_read then throw InvalidVarInt
          else if Z.land b 0x80 =? 0 then mret (to_signed 32 res)
          else read_varint_loop fuel num_read res
      end
  end.
Definition read_varint : Read Z := read_varint_loop 6 0 0.

Definition read_string (max_len : Z) : Read string :=
  length ← read_varint;
  if length <? 0 then throw (InvalidPacket "negative string length")
  else if saturating_mul usize_max max_len 4 <? length then throw (StringTooLong length)
  else
    bytes ← read_bytes length;
    match utf8_chars bytes with
    | None => throw InvalidUtf8
    | Some chars =>
        if max_len <? chars then throw (StringTooLong (len bytes)) else mret (bytes_string bytes)
    end.

(** [peek_varint]: [None] when the buffer ends early, and when the varint is too long. *)
Fixpoint peek_varint_loop (buffer : list byte) (num_read res : Z) :
    result ProtocolError (option (Z * Z)) :=
  match buffer with
  | [] => Ok None
  | b :: buffer =>
      match shl_u32 (Z.land (byte_Z b) 0x7f) (7 * num_read) with
      | None => Panic
      | Some v =>
          let res := Z.lor res v in
          let num_read := num_read + 1 in
          if 5 <? num_read then Ok None
          else if Z.land (byte_Z b) 0x80 =? 0 then Ok (Some (to_signed 32 res, num_read))
          else peek_varint_loop buffer num_read res
      end
  end.
Definition peek_varint (buffer : list byte) : result ProtocolError (option (Z * Z)) :=
  peek_varint_loop buffer 0 0.

(** ** Frames *)

(** A buffer is a [BytesMut]; [split_to] takes a prefix off it. *)
Record WireCodec : Type := mkCodec {
  encode_frame : list byte -> result ProtocolError (list byte);
  try_decode_frame : M ProtocolError (list byte) (option (list byte))
}.

Definition minecraft_encode_frame (bytes : list byte) : result ProtocolError (list byte) :=
  if i32_max <? len bytes then Err (InvalidPacket "frame too large")
  else written (write_varint (len bytes) ;; write_bytes bytes).
Definition minecraft_try_decode_frame : M ProtocolError (list byte) (option (list byte)) := fun buffer =>
  match peek_varint buffer with
  | Ok None => (buffer, Ok None)
  | Ok (Some (length, header_len)) =>
      if length <? 0 then (buffer, Err (InvalidPacket "negative frame length"))
      else if len buffer <? header_len + length then (buffer, Ok None)
      else
        let frame := take (Z.to_nat (header_len + length)) buffer in
        (drop (Z.to_nat (header_len + length)) buffer, Ok (Some (drop (Z.to_nat header_len) frame)))
  | Err e => (buffer, Err e)
  | Panic => (buffer, Panic)
  | OutOfFuel => (buffer, OutOfFuel)
  end.
Definition MinecraftWireCodec : WireCodec := mkCodec minecraft_encode_frame minecraft_try_decode_frame.

Definition raw_try_decode_frame : M ProtocolError (list byte) (option (list byte)) := fun buffer =>
  match buffer with
  | [] => (buffer, Ok None)
  | _ => ([], Ok (Some buffer))
  end.
Definition RawPacketStreamWireCodec : WireCodec := mkCodec Ok raw_try_decode_frame.

(** ** The read loop of a session

    [process_read_buffer]: takes frames while there are any, by the codec the session has when
    it takes it, and hands each to [handle], which answers whether to close.  [Session] is what
    the session holds besides its buffer. *)
Section ReadLoop.
Context {E Session : Type} (of_protocol : ProtocolError -> E).
Context (codec : Session -> result E WireCodec) (handle : list byte -> M E Session bool).

Fixpoint process_read_buffer (fuel : nat) : M E (Session * list byte) bool := fun '(session, buffer) =>
  match fuel with
  | O => ((session, buffer), OutOfFuel)
  | S fuel =>
      match codec session with
      | Ok current =>
          match try_decode_frame current buffer with
          | (buffer, Ok None) => ((session, buffer), Ok false)
          | (buffer, Ok (Some frame)) =>
              match handle frame session with
              | (session, Ok true) => ((session, buffer), Ok true)
              | (session, Ok false) => process_read_buffer fuel (session, buffer)
              | (session, Err e) => ((session, buffer), Err e)
              | (session, Panic) => ((session, buffer), Panic)
              | (session, OutOfFuel) => ((session, buffer), OutOfFuel)
              end
          | (buffer, Err e) => ((session, buffer), Err (of_protocol e))
          | (buffer, Panic) => ((session, buffer), Panic)
          | (buffer, OutOfFuel) => ((session, buffer), OutOfFuel)
          end
      | Err e => ((session, buffer), Err e)
      | Panic => ((session, buffer), Panic)
      | OutOfFuel => ((session, buffer), OutOfFuel)
      end
  end.
(** [read_into] appended [bytes] to the buffer. *)
Definition receive (bytes : list byte) : M E (Session * list byte) bool := fun '(session, buffer) =>
  let buffer := buffer ++ bytes in
  match buffer with
  | [] => ((session, buffer), Ok false)
  | _ => process_read_buffer (S (length buffer)) (session, buffer)
  end.
End ReadLoop.
End Packet.

(** ** What is written is read *)

Definition writes (m : Write unit) (bytes : list byte) : Prop := forall w, m w = (w ++ bytes, Ok tt).
(** From any position, [m] reads [bytes] there as [a], whatever follows. *)
Definition reads {A} (m : Read A) (bytes : list byte) (a : A) : Prop :=
  forall pre rest, len (pre ++ bytes ++ rest) <= usize_max ->
  m (mkReader (pre ++ bytes ++ rest) (len pre)) =
    (mkReader (pre ++ bytes ++ rest) (len (pre ++ bytes)), Ok a).

Create HintDb wire.

Lemma writes_bytes bytes : writes (write_bytes bytes) bytes.
Proof. done. Qed.
Lemma writes_then m1 m2 b1 b2 : writes m1 b1 -> writes m2 b2 -> writes (m1 ;; m2) (b1 ++ b2).
Proof. intros H1 H2 w. unfold mbind, M_bind. by rewrite H1, H2, app_assoc. Qed.
Lemma writes_written m bytes : writes m bytes -> written m = Ok bytes.
Proof. intros H. unfold written. by rewrite H. Qed.

Lemma reads_ret {A} (a : A) : reads (mret a) [] a.
Proof. intros pre rest _. by rewrite app_nil_r. Qed.
Lemma reads_bind {A B} (m : Read A) (f : A -> Read B) b1 b2 a c :
  reads m b1 a -> reads (f a) b2 c -> reads (m ≫= f) (b1 ++ b2) c.
Proof.
  intros H1 H2 pre rest Hl. unfold mbind, M_bind. rewrite <- (app_assoc b1) in Hl |- *.
  rewrite H1 by done. rewrite !(app_assoc pre b1). rewrite !(app_assoc pre b1) in Hl. rewrite H2 by done.
  by rewrite <- !app_assoc.
Qed.
Lemma reads_bind_ret {A B} (m : Read A) (f : A -> B) b a :
  reads m b a -> reads (x ← m; mret (f x)) b (f a).
Proof. intros H. rewrite <- (app_nil_r b). eapply reads_bind; [exact H|apply reads_ret]. Qed.
Lemma reads_read {A} (m : Read A) bytes a rest :
  reads m bytes a -> len (bytes ++ rest) <= usize_max ->
  m (reader_new (bytes ++ rest)) = (mkReader (bytes ++ rest) (len bytes), Ok a).
Proof. intros H Hl. exact (H [] rest Hl). Qed.

Lemma reads_u8 b : reads read_u8 [b] (byte_Z b).
Proof.
  intros pre rest _. unfold read_u8. cbn [cursor payload]. change ([b] ++ rest) with (b :: rest). rewrite Nat2Z.id, list_lookup_middle by done.
  rewrite length_app. cbn [length]. do 2 f_equal. lia.
Qed.
Lemma reads_bytes bytes : reads (read_bytes (len bytes)) bytes bytes.
Proof.
  intros pre rest Hl. unfold read_bytes. cbn [cursor payload]. rewrite !length_app in *.
  assert (saturating_add usize_max (len pre) (len bytes) = Z.of_nat (length pre + length bytes)) as ->
    by (unfold saturating_add; lia).
  unfold slice_get. rewrite !length_app.
  rewrite (proj2 (Z.leb_le _ _)), (proj2 (Z.leb_le _ _)) by lia. cbn [andb].
  rewrite Nat2Z.id, drop_app_length. replace (Z.to_nat _) with (length bytes) by lia.
  by rewrite take_app_length.
Qed.
Lemma reads_exact bytes : reads (read_exact (len bytes)) bytes bytes.
Proof.
  unfold read_exact. rewrite <- (app_nil_r bytes) at 2. eapply reads_bind; [apply reads_bytes|].
  rewrite Z.eqb_refl. apply reads_ret.
Qed.
Lemma reads_be n v : 0 <= v < 2 ^ (8 * Z.of_nat n) ->
  reads (l ← read_exact (Z.of_nat n); mret (from_be_bytes l)) (to_be_bytes n v) v.
Proof.
  intros Hv. pose proof (reads_bind_ret _ from_be_bytes _ _ (reads_exact (to_be_bytes n v))) as H.
  rewrite length_to_be_bytes in H. by rewrite from_to_be_bytes, Z.mod_small in H by done.
Qed.
Lemma reads_be_signed n v : (0 < n)%nat ->
  - 2 ^ (8 * Z.of_nat n - 1) <= v < 2 ^ (8 * Z.of_nat n - 1) ->
  reads (l ← read_exact (Z.of_nat n); mret (to_signed (8 * Z.of_nat n) (from_be_bytes l)))
    (to_be_bytes n (to_unsigned (8 * Z.of_nat n) v)) v.
Proof.
  intros Hn Hv. pose proof (reads_bind_ret _ (fun l => to_signed (8 * Z.of_nat n) (from_be_bytes l)) _ _
    (reads_exact (to_be_bytes n (to_unsigned (8 * Z.of_nat n) v)))) as H.
  rewrite length_to_be_bytes in H. cbv beta in H.
  assert (from_be_bytes (to_be_bytes n (to_unsigned (8 * Z.of_nat n) v)) = to_unsigned (8 * Z.of_nat n) v) as E
    by (rewrite from_to_be_bytes; unfold to_unsigned; by rewrite Z.mod_mod by lia).
  by rewrite E, to_signed_unsigned in H by (done || lia).
Qed.

(** *** Integers and floats *)

Ltac wire_range := unfold i32_max, i64_max, u16_max, u8_max in *; cbn; lia.

Lemma writes_u8 v : writes (write_u8 v) [Z_byte v].
Proof. done. Qed.
Lemma writes_i8 v : writes (write_i8 v) [Z_byte (to_unsigned 8 v)].
Proof. done. Qed.
Lemma writes_bool v : writes (write_bool v) [Z_byte (if v then 1 else 0)].
Proof. done. Qed.
Lemma writes_i16 v : writes (write_i16 v) (to_be_bytes 2 (to_unsigned 16 v)).
Proof. done. Qed.
Lemma writes_u16 v : writes (write_u16 v) (to_be_bytes 2 v).
Proof. done. Qed.
Lemma writes_i32 v : writes (write_i32 v) (to_be_bytes 4 (to_unsigned 32 v)).
Proof. done. Qed.
Lemma writes_i64 v : writes (write_i64 v) (to_be_bytes 8 (to_unsigned 64 v)).
Proof. done. Qed.
Lemma writes_f32 v : writes (write_f32 v) (to_be_bytes 4 (f32_to_bits v)).
Proof. done. Qed.
Lemma writes_f64 v : writes (write_f64 v) (to_be_bytes 8 (f64_to_bits v)).
Proof. done. Qed.

Lemma reads_u8_of v : 0 <= v < 256 -> reads read_u8 [Z_byte v] v.
Proof. intros Hv. pose proof (reads_u8 (Z_byte v)) as H. by rewrite Z_byte_small in H. Qed.
Lemma reads_i8_of v : -128 <= v < 128 -> reads read_i8 [Z_byte (to_unsigned 8 v)] v.
Proof.
  intros Hv. assert (0 <= to_unsigned 8 v < 256) as Hr by (apply (Z.mod_pos_bound v 256); lia).
  pose proof (reads_bind_ret read_u8 (to_signed 8) _ _ (reads_u8_of _ Hr)) as H.
  by rewrite to_signed_unsigned in H by lia.
Qed.
Lemma reads_bool_of (v : bool) : reads read_bool [Z_byte (if v then 1 else 0)] v.
Proof.
  assert (0 <= (if v then 1 else 0) < 256) as Hr by (destruct v; lia).
  pose proof (reads_bind_ret read_u8 (fun b : Z => negb (b =? 0)) _ _ (reads_u8_of _ Hr)) as H. by destruct v.
Qed.
Lemma reads_i16_of v : -32768 <= v < 32768 -> reads read_i16 (to_be_bytes 2 (to_unsigned 16 v)) v.
Proof. intros. apply (reads_be_signed 2); [lia|]. cbn. lia. Qed.
Lemma reads_u16_of v : 0 <= v <= u16_max -> reads read_u16 (to_be_bytes 2 v) v.
Proof. intros. apply (reads_be 2). cbn. wire_range. Qed.
Lemma reads_i32_of v : - i32_max - 1 <= v <= i32_max -> reads read_i32 (to_be_bytes 4 (to_unsigned 32 v)) v.
Proof. intros. apply (reads_be_signed 4); [lia|]. wire_range. Qed.
Lemma reads_i64_of v : - i64_max - 1 <= v <= i64_max -> reads read_i64 (to_be_bytes 8 (to_unsigned 64 v)) v.
Proof. intros. apply (reads_be_signed 8); [lia|]. wire_range. Qed.
#[export] Hint Resolve writes_bytes writes_then writes_u8 writes_i8 writes_bool writes_i16 writes_u16
  writes_i32 writes_i64 writes_f32 writes_f64 : wire.
#[export] Hint Resolve reads_ret reads_bytes reads_u8_of reads_i8_of reads_bool_of reads_i16_of reads_u16_of
  reads_i32_of reads_i64_of : wire.

(** A float goes through its bits: sign, exponent and mantissa are fields of one number. *)
Lemma float_fields mw ew (s : bool) ex mant :
  0 <= mw -> 0 <= ew -> 0 <= ex < 2 ^ ew -> 0 <= mant < 2 ^ mw ->
  let bits := (if s then Z.shiftl 1 (mw + ew) else 0) + Z.shiftl ex mw + mant in
  Z.testbit bits (mw + ew) = s /\ Z.land (Z.shiftr bits mw) (2 ^ ew - 1) = ex /\
  Z.land bits (2 ^ mw - 1) = mant /\ 0 <= bits < 2 ^ (mw + ew + 1).
Proof.
  intros Hmw Hew Hex Hm bits. subst bits. rewrite !Z.shiftl_mul_pow2 by lia. rewrite Z.mul_1_l.
  assert (forall n, 2 ^ n - 1 = Z.ones n) as Hones by (intros n; rewrite Z.ones_equiv; lia).
  rewrite !Hones, !Z.land_ones, Z.shiftr_div_pow2 by lia.
  assert (2 ^ (mw + ew) = 2 ^ mw * 2 ^ ew) as Hpow by (apply Z.pow_add_r; lia).
  assert (0 < 2 ^ mw) by lia. assert (0 < 2 ^ ew) by lia.
  assert (2 ^ (mw + ew + 1) = 2 * 2 ^ (mw + ew)) as -> by (rewrite Z.pow_add_r by lia; lia).
  assert (0 <= ex * 2 ^ mw + mant < 2 ^ (mw + ew)) as Hlow by (rewrite Hpow; nia).
  set (hi := if s then 2 ^ (mw + ew) else 0).
  assert (hi = (if s then 1 else 0) * 2 ^ (mw + ew)) as Hhi by (unfold hi; destruct s; lia).
  assert (((if s then 1 else 0) * 2 ^ (mw + ew) + ex * 2 ^ mw + mant) / 2 ^ (mw + ew) = if s then 1 else 0) as Hd.
  { rewrite <- Z.add_assoc, Z.add_comm, Z.div_add, Z.div_small by lia. lia. }
  rewrite Hhi. split_and!.
  - apply Z.b2z_inj. rewrite Z.testbit_spec' by lia. rewrite Hd. by destruct s.
  - rewrite Hpow, Z.mul_assoc.
    replace ((if s then 1 else 0) * 2 ^ mw * 2 ^ ew + ex * 2 ^ mw + mant)
      with (mant + (ex + (if s then 1 else 0) * 2 ^ ew) * 2 ^ mw) by lia.
    rewrite Z.div_add, (Z.div_small mant), Z.add_0_l by lia. rewrite Z.mod_add by lia. by apply Z.mod_small.
  - rewrite Hpow.
    replace ((if s then 1 else 0) * (2 ^ mw * 2 ^ ew) + ex * 2 ^ mw + mant)
      with (mant + (ex + (if s then 1 else 0) * 2 ^ ew) * 2 ^ mw) by lia.
    rewrite Z.mod_add by lia. by apply Z.mod_small.
  - destruct s; lia.
  - destruct s; lia.
Qed.

Lemma digits2_bounds m : 2 ^ (Z.pos (digits2_pos m) - 1) <= Z.pos m < 2 ^ Z.pos (digits2_pos m).
Proof.
  induction m as [m IH|m IH|]; cbn [digits2_pos]; [| |done];
    rewrite Pos2Z.inj_succ, Z.sub_1_r, Z.pred_succ; rewrite Z.pow_succ_r by lia;
    (replace (2 ^ Z.pos (digits2_pos m)) with (2 * 2 ^ (Z.pos (digits2_pos m) - 1)) in *
      by (rewrite <- Z.pow_succ_r by lia; f_equal; lia)); lia.
Qed.

Lemma float_bits_roundtrip mw ew v :
  1 < mw -> 1 < ew -> valid_binary (mw + 1) (2 ^ (ew - 1)) v = true ->
  float_of_bits mw ew (float_to_bits mw ew v) = v /\
  0 <= float_to_bits mw ew v < 2 ^ (mw + ew + 1).
Proof.
  intros Hmw Hew Hv.
  assert (2 ^ ew = 2 * 2 ^ (ew - 1)) as Hew2 by (rewrite <- Z.pow_succ_r by lia; f_equal; lia).
  assert (2 <= 2 ^ (ew - 1)) by (change 2 with (2 ^ 1) at 1; apply Z.pow_le_mono_r; lia).
  assert (0 < 2 ^ mw) by lia. assert (2 ^ (mw - 1) < 2 ^ mw) by (apply Z.pow_lt_mono_r; lia).
  assert (0 < 2 ^ (mw - 1)) by lia.
  destruct v as [s|s| |s m e]; cbn [float_to_bits].
  - pose proof (float_fields mw ew s 0 0 ltac:(lia) ltac:(lia) ltac:(lia) ltac:(lia)) as (F1 & F2 & F3 & F4).
    rewrite Z.shiftl_0_l, !Z.add_0_r in *. unfold float_of_bits. rewrite F1, F2, F3. cbn. done.
  - pose proof (float_fields mw ew s (2 ^ ew - 1) 0 ltac:(lia) ltac:(lia) ltac:(lia) ltac:(lia))
      as (F1 & F2 & F3 & F4).
    rewrite !Z.add_0_r in *. unfold float_of_bits. rewrite F1, F2, F3.
    rewrite (proj2 (Z.eqb_neq _ 0)), !Z.eqb_refl by lia. done.
  - pose proof (float_fields mw ew false (2 ^ ew - 1) (2 ^ (mw - 1)) ltac:(lia) ltac:(lia) ltac:(lia) ltac:(lia))
      as (F1 & F2 & F3 & F4).
    rewrite Z.add_0_l in *. unfold float_of_bits. rewrite F1, F2, F3.
    rewrite (proj2 (Z.eqb_neq _ 0)), Z.eqb_refl, (proj2 (Z.eqb_neq _ 0)) by lia. done.
  - cbn [valid_binary] in Hv. apply andb_true_iff in Hv as [Hcan He].
    apply Z.leb_le in He. apply Z.eqb_eq in Hcan. pose proof (digits2_bounds m) as Hd.
    unfold fexp, SpecFloat.emin in Hcan. set (emin := 2 - 2 ^ (ew - 1) - mw).
    replace (3 - 2 ^ (ew - 1) - (mw + 1)) with emin in Hcan by (unfold emin; lia).
    destruct (Z.ltb_spec (Z.pos m) (2 ^ mw)) as [Hlt|Hge].
    + assert (Z.pos (digits2_pos m) - 1 < mw) as Hdig
        by (apply (Z.pow_lt_mono_r_iff 2); lia).
      assert (e = emin) as -> by lia.
      pose proof (float_fields mw ew s 0 (Z.pos m) ltac:(lia) ltac:(lia) ltac:(lia) ltac:(lia)) as (F1 & F2 & F3 & F4).
      rewrite Z.shiftl_0_l, Z.add_0_r in *. unfold float_of_bits. rewrite F1, F2, F3. done.
    + assert (mw < Z.pos (digits2_pos m)) as Hdig
        by (apply (Z.pow_lt_mono_r_iff 2); lia).
      assert (Z.pos (digits2_pos m) = mw + 1) as Heq by lia. rewrite Heq in Hd.
      rewrite Z.pow_add_r in Hd by lia. change (2 ^ 1) with 2 in Hd.
      pose proof (float_fields mw ew s (e - emin + 1) (Z.pos m - 2 ^ mw) ltac:(lia) ltac:(lia)
        ltac:(unfold emin in *; lia) ltac:(lia)) as (F1 & F2 & F3 & F4).
      unfold float_of_bits. rewrite F1, F2, F3. fold emin.
      rewrite (proj2 (Z.eqb_neq _ 0)), (proj2 (Z.eqb_neq _ (2 ^ ew - 1))) by (unfold emin in *; lia).
      rewrite Z.sub_add. split; [f_equal; lia|exact F4].
Qed.
Lemma reads_f32_of v : valid_binary 24 128 v = true -> reads read_f32 (to_be_bytes 4 (f32_to_bits v)) v.
Proof.
  intros Hv. destruct (float_bits_roundtrip 23 8 v) as [E Hr]; [lia|lia|done|].
  pose proof (reads_bind_ret (read_exact 4) (fun l => f32_of_bits (from_be_bytes l)) _ _
    (reads_exact (to_be_bytes 4 (f32_to_bits v)))) as H.
  cbv beta in H. rewrite from_to_be_bytes, Z.mod_small in H by exact Hr. change (f32_of_bits (f32_to_bits v) = v) in E.
  by rewrite E in H.
Qed.
Lemma reads_f64_of v : valid_binary 53 1024 v = true -> reads read_f64 (to_be_bytes 8 (f64_to_bits v)) v.
Proof.
  intros Hv. destruct (float_bits_roundtrip 52 11 v) as [E Hr]; [lia|lia|done|].
  pose proof (reads_bind_ret (read_exact 8) (fun l => f64_of_bits (from_be_bytes l)) _ _
    (reads_exact (to_be_bytes 8 (f64_to_bits v)))) as H.
  cbv beta in H. rewrite from_to_be_bytes, Z.mod_small in H by exact Hr. change (f64_of_bits (f64_to_bits v) = v) in E.
  by rewrite E in H.
Qed.
#[export] Hint Resolve reads_f32_of reads_f64_of : wire.

(** *** Variable-length integers *)

(** The groups of seven bits of an unsigned integer, the least significant first. *)
Fixpoint varint_bytes (n : nat) (u : Z) : list byte :=
  match n with
  | O => []
  | S n => if u <? 128 then [Z_byte u] else Z_byte (u mod 128 + 128) :: varint_bytes n (u / 128)
  end.

Lemma land_low7 u : Z.land u 0x7f = u mod 128.
Proof. change 0x7f with (Z.ones 7). by rewrite Z.land_ones. Qed.
Lemma land_high u : 0 <= u -> (Z.land u (Z.lnot 0x7f) =? 0) = (u <? 128).
Proof.
  intros Hu. change (Z.lnot 0x7f) with (Z.lnot (Z.ones 7)).
  rewrite <- Z.ldiff_land, Z.ldiff_ones_r, Z.shiftl_mul_pow2, Z.shiftr_div_pow2 by lia.
  change (2 ^ 7) with 128. destruct (Z.ltb_spec u 128).
  - by rewrite Z.div_small by lia.
  - apply Z.eqb_neq. pose proof (Z.div_le_lower_bound u 128 1). lia.
Qed.
Lemma lor_bit7 u : 0 <= u < 128 -> Z.lor u 0x80 = u + 128.
Proof.
  intros Hu. pose proof (lor_disjoint_add 1 u 7 ltac:(lia) ltac:(lia)) as H.
  change (Z.shiftl 1 7) with 0x80 in H. rewrite Z.lor_comm, H. lia.
Qed.

Lemma write_varint_loop_ok n : forall u, 0 <= u < 2 ^ (7 * Z.of_nat n) -> (0 < n)%nat ->
  writes (write_varint_loop n u) (varint_bytes n u).
Proof.
  induction n as [|n IH]; intros u Hu Hn; [lia|]. cbn [write_varint_loop varint_bytes].
  rewrite land_high by lia. destruct (Z.ltb_spec u 128) as [Hlt|Hge].
  - rewrite (proj2 (Z.leb_le _ _)) by (unfold u8_max; lia). apply writes_u8.
  - rewrite land_low7, lor_bit7 by (apply Z.mod_pos_bound; lia). rewrite Z.shiftr_div_pow2 by lia.
    change (2 ^ 7) with 128. apply (writes_then _ _ [_]); [apply writes_u8|].
    rewrite Nat2Z.inj_succ, Z.mul_succ_r, Z.pow_add_r in Hu by lia. change (2 ^ 7) with 128 in Hu.
    destruct n as [|n]; [cbn in Hu; lia|].
    apply IH; [|lia]. split; [apply Z.div_pos; lia|]. apply Z.div_lt_upper_bound; lia.
Qed.
Lemma writes_varint v : writes (write_varint v) (varint_bytes 5 (to_unsigned 32 v)).
Proof.
  apply write_varint_loop_ok; [|lia]. unfold to_unsigned. pose proof (Z.mod_pos_bound v (2 ^ 32)). cbn. lia.
Qed.
#[export] Hint Resolve writes_varint : wire.

Section PacketLemmas.
Context `{Build}.

(** One group of the loop: below the 32 bits the shift loses nothing. *)
Lemma varint_group i x acc :
  0 <= i <= 4 -> 0 <= x < 128 -> 0 <= acc < 2 ^ (7 * i) -> x * 2 ^ (7 * i) < 2 ^ 32 ->
  shl_u32 x (7 * i) = Some (x * 2 ^ (7 * i)) /\ Z.lor acc (x * 2 ^ (7 * i)) = acc + x * 2 ^ (7 * i).
Proof.
  intros Hi Hx Ha Hlt. unfold shl_u32. rewrite (proj2 (Z.ltb_lt _ _)), Z.shiftl_mul_pow2 by lia.
  assert (0 < 2 ^ (7 * i)) by lia. split; [f_equal; apply Z.mod_small; nia|].
  rewrite <- Z.shiftl_mul_pow2, Z.lor_comm, lor_disjoint_add by lia. rewrite Z.shiftl_mul_pow2; lia.
Qed.
Lemma varint_last u : 0 <= u < 128 ->
  byte_Z (Z_byte u) = u /\ Z.land u 0x7f = u /\ (Z.land u 0x80 =? 0) = true.
Proof.
  intros Hu. rewrite Z_byte_small, land_low7, Z.mod_small by lia. split_and!; [done|done|].
  apply Z.eqb_eq, Z.bits_inj'. intros n Hn. rewrite Z.land_spec, Z.bits_0.
  change 0x80 with (2 ^ 7). rewrite Z.pow2_bits_eqb by lia. destruct (Z.eqb_spec 7 n) as [<-|]; [|by rewrite andb_false_r].
  rewrite andb_true_r. destruct (Z.eq_dec u 0) as [->|]; [apply Z.bits_0|].
  apply Z.bits_above_log2; [lia|]. apply Z.log2_lt_pow2; lia.
Qed.
Lemma varint_more u :
  byte_Z (Z_byte (u mod 128 + 128)) = u mod 128 + 128 /\
  Z.land (u mod 128 + 128) 0x7f = u mod 128 /\ (Z.land (u mod 128 + 128) 0x80 =? 0) = false.
Proof.
  pose proof (Z.mod_pos_bound u 128 ltac:(lia)) as Hm. rewrite Z_byte_small by lia. split; [done|]. split.
  - rewrite land_low7. rewrite <- Z.add_mod_idemp_r by lia. by rewrite Z_mod_same_full, Z.add_0_r, Z.mod_mod by lia.
  - apply Z.eqb_neq. rewrite <- lor_bit7, Z.land_lor_distr_l by lia. intros E%Z.lor_eq_0_iff. by destruct E.
Qed.
Lemma reads_varint_loop n : forall k i acc u, (n <= k)%nat -> (0 < n)%nat -> i + Z.of_nat n <= 5 -> 0 <= i ->
  0 <= acc < 2 ^ (7 * i) -> 0 <= u < 2 ^ (7 * Z.of_nat n) -> u * 2 ^ (7 * i) < 2 ^ 32 ->
  reads (read_varint_loop k i acc) (varint_bytes n u) (to_signed 32 (acc + u * 2 ^ (7 * i))).
Proof.
  induction n as [|n IH]; intros k i acc u Hk Hn Hin Hi Ha Hu Hlt; [lia|].
  destruct k as [|k]; [lia|]. cbn [varint_bytes read_varint_loop].
  assert (0 < 2 ^ (7 * i)) as Hpow by lia. destruct (Z.ltb_spec u 128) as [H1|H1].
  - destruct (varint_last u ltac:(lia)) as (E1 & E2 & E3). apply (reads_bind _ _ [_] []  (byte_Z (Z_byte u))); [apply reads_u8|].
    rewrite E1, E2. destruct (varint_group i u acc ltac:(lia) ltac:(lia) Ha Hlt) as [-> ->].
    rewrite (proj2 (Z.ltb_ge _ _)), E3 by lia. apply reads_ret.
  - destruct (varint_more u) as (E1 & E2 & E3). pose proof (Z.mod_pos_bound u 128 ltac:(lia)) as Hm.
    pose proof (Z.div_mod u 128 ltac:(lia)) as Hdm. pose proof (Z.div_pos u 128 ltac:(lia) ltac:(lia)) as Hdp.
    apply (reads_bind _ _ [_] _ (byte_Z (Z_byte (u mod 128 + 128)))); [apply reads_u8|]. rewrite E1, E2.
    destruct (varint_group i (u mod 128) acc ltac:(lia) ltac:(lia) Ha ltac:(nia)) as [-> ->].
    rewrite Nat2Z.inj_succ in *. rewrite Z.mul_succ_r, Z.pow_add_r in Hu by lia. change (2 ^ 7) with 128 in Hu.
    destruct n as [|n]; [cbn in Hu; lia|].
    assert (2 ^ (7 * (i + 1)) = 128 * 2 ^ (7 * i)) as Hstep
      by (rewrite Z.mul_add_distr_l, Z.pow_add_r by lia; change (2 ^ (7 * 1)) with 128; lia).
    rewrite (proj2 (Z.ltb_ge _ _)), E3 by lia.
    replace (acc + u * 2 ^ (7 * i)) with ((acc + u mod 128 * 2 ^ (7 * i)) + u / 128 * 2 ^ (7 * (i + 1)))
      by (rewrite Hstep; rewrite Hdm at 3; lia).
    apply IH; [lia|lia|lia|lia|rewrite Hstep; nia| |rewrite Hstep; nia].
    split; [lia|]. apply Z.div_lt_upper_bound; lia.
Qed.
Lemma reads_varint v : - i32_max - 1 <= v <= i32_max ->
  reads read_varint (varint_bytes 5 (to_unsigned 32 v)) v.
Proof.
  intros Hv. assert (0 <= to_unsigned 32 v < 2 ^ 32) as Hu by (apply Z.mod_pos_bound; lia).
  pose proof (reads_varint_loop 5 6 0 0 (to_unsigned 32 v)) as Hr. change (2 ^ (7 * 0)) with 1 in Hr.
  rewrite Z.mul_1_r, !Z.add_0_l in Hr.
  rewrite to_signed_unsigned in Hr by (unfold i32_max in Hv; lia). apply Hr; (lia || cbn; lia).
Qed.
(** *** Strings *)

Lemma bytes_string_bytes s : bytes_string (string_bytes s) = s.
Proof. apply String.string_of_list_byte_of_string. Qed.
Definition string_ok (max_len : Z) (s : string) : Prop :=
  len (string_bytes s) <= i32_max /\ exists chars, utf8_chars (string_bytes s) = Some chars /\ chars <= max_len.
Definition string_field (s : string) : list byte :=
  varint_bytes 5 (to_unsigned 32 (len (string_bytes s))) ++ string_bytes s.

Lemma utf8_chars_bytes n : forall l chars, (length l <= n)%nat -> utf8_chars l = Some chars ->
  0 <= chars /\ len l <= chars * 4.
Proof.
  induction n as [|n IH]; intros l chars Hn Hl; (destruct l as [|b0 l]; [injection Hl as <-; cbn; lia|]);
    cbn [length] in Hn; [lia|]. cbn [utf8_chars] in Hl. case_match.
  { apply fmap_Some in Hl as (c & Hl & ->). apply IH in Hl; cbn [length]; lia. }
  destruct l as [|b1 l]; [done|]. cbn [length] in Hn. case_match.
  { apply fmap_Some in Hl as (c & Hl & ->). apply IH in Hl; cbn [length]; lia. }
  destruct l as [|b2 l]; [done|]. cbn [length] in Hn. case_match.
  { apply fmap_Some in Hl as (c & Hl & ->). apply IH in Hl; cbn [length]; lia. }
  destruct l as [|b3 l]; [done|]. cbn [length] in Hn. case_match; [|done].
  apply fmap_Some in Hl as (c & Hl & ->). apply IH in Hl; cbn [length]; lia.
Qed.
Lemma writes_string s : len (string_bytes s) <= i32_max -> writes (write_string s) (string_field s).
Proof.
  intros Hl. unfold write_string. rewrite (proj2 (Z.ltb_ge _ _) Hl).
  apply writes_then; [apply writes_varint|apply writes_bytes].
Qed.
Lemma reads_string max_len s : string_ok max_len s -> reads (read_string max_len) (string_field s) s.
Proof.
  intros (Hl & chars & Hc & Hm). unfold read_string.
  destruct (utf8_chars_bytes _ _ _ (le_n _) Hc) as [H0 H4].
  eapply reads_bind; [apply reads_varint; lia|]. rewrite (proj2 (Z.ltb_ge _ _)) by lia.
  rewrite (proj2 (Z.ltb_ge _ _)).
  2:{ unfold saturating_mul. assert (i32_max <= usize_max) by done. lia. }
  rewrite <- (app_nil_r (string_bytes s)) at 2. eapply reads_bind; [apply reads_bytes|]. rewrite Hc.
  rewrite (proj2 (Z.ltb_ge _ _)) by lia. rewrite bytes_string_bytes. apply reads_ret.
Qed.

(** *** Packets *)

(** A field of a packet, with the value it has. *)
Inductive Field : Type :=
| FieldU8 (v : Z) | FieldI8 (v : Z) | FieldBool (v : bool) | FieldI16 (v : Z) | FieldU16 (v : Z)
| FieldI32 (v : Z) | FieldI64 (v : Z) | FieldF32 (v : spec_float) | FieldF64 (v : spec_float)
| FieldVarint (v : Z) | FieldString (max_len : Z) (v : string) | FieldBytes (v : list byte).
Definition field_ok (f : Field) : Prop :=
  match f with
  | FieldU8 v => 0 <= v < 256
  | FieldI8 v => -128 <= v < 128
  | FieldI16 v => -32768 <= v < 32768
  | FieldU16 v => 0 <= v <= u16_max
  | FieldI32 v | FieldVarint v => - i32_max - 1 <= v <= i32_max
  | FieldI64 v => - i64_max - 1 <= v <= i64_max
  | FieldF32 v => valid_binary 24 128 v = true
  | FieldF64 v => valid_binary 53 1024 v = true
  | FieldString max_len v => string_ok max_len v
  | FieldBool _ | FieldBytes _ => True
  end.
Definition write_field (f : Field) : Write unit :=
  match f with
  | FieldU8 v => write_u8 v
  | FieldI8 v => write_i8 v
  | FieldBool v => write_bool v
  | FieldI16 v => write_i16 v
  | FieldU16 v => write_u16 v
  | FieldI32 v => write_i32 v
  | FieldI64 v => write_i64 v
  | FieldF32 v => write_f32 v
  | FieldF64 v => write_f64 v
  | FieldVarint v => write_varint v
  | FieldString _ v => write_string v
  | FieldBytes v => write_bytes v
  end.
(** Reading a field of the same kind. *)
Definition read_field (f : Field) : Read Field :=
  match f with
  | FieldU8 _ => v ← read_u8; mret (FieldU8 v)
  | FieldI8 _ => v ← read_i8; mret (FieldI8 v)
  | FieldBool _ => v ← read_bool; mret (FieldBool v)
  | FieldI16 _ => v ← read_i16; mret (FieldI16 v)
  | FieldU16 _ => v ← read_u16; mret (FieldU16 v)
  | FieldI32 _ => v ← read_i32; mret (FieldI32 v)
  | FieldI64 _ => v ← read_i64; mret (FieldI64 v)
  | FieldF32 _ => v ← read_f32; mret (FieldF32 v)
  | FieldF64 _ => v ← read_f64; mret (FieldF64 v)
  | FieldVarint _ => v ← read_varint; mret (FieldVarint v)
  | FieldString max_len _ => v ← read_string max_len; mret (FieldString max_len v)
  | FieldBytes v => v ← read_bytes (len v); mret (FieldBytes v)
  end.
Fixpoint read_fields (fs : list Field) : Read (list Field) :=
  match fs with
  | [] => mret []
  | f :: fs => v ← read_field f; vs ← read_fields fs; mret (v :: vs)
  end.
Definition field_bytes (f : Field) : list byte :=
  match f with
  | FieldU8 v => [Z_byte v]
  | FieldI8 v => [Z_byte (to_unsigned 8 v)]
  | FieldBool v => [Z_byte (if v then 1 else 0)]
  | FieldI16 v => to_be_bytes 2 (to_unsigned 16 v)
  | FieldU16 v => to_be_bytes 2 v
  | FieldI32 v => to_be_bytes 4 (to_unsigned 32 v)
  | FieldI64 v => to_be_bytes 8 (to_unsigned 64 v)
  | FieldF32 v => to_be_bytes 4 (f32_to_bits v)
  | FieldF64 v => to_be_bytes 8 (f64_to_bits v)
  | FieldVarint v => varint_bytes 5 (to_unsigned 32 v)
  | FieldString _ v => string_field v
  | FieldBytes v => v
  end.

Lemma field_codec f : field_ok f -> writes (write_field f) (field_bytes f) /\ reads (read_field f) (field_bytes f) f.
Proof.
  intros Hf. destruct f; cbn [field_ok write_field read_field field_bytes] in *;
    (split; [try (apply writes_string, Hf); auto with wire|]);
    match goal with |- reads (_ ≫= (fun v => mret (?c v))) _ _ => apply (reads_bind_ret _ c) end;
    try (apply reads_string, Hf); auto using reads_varint with wire.
Qed.
Lemma fields_codec fs : Forall field_ok fs ->
  writes (for_each write_field fs) (mjoin (map field_bytes fs)) /\
  reads (read_fields fs) (mjoin (map field_bytes fs)) fs.
Proof.
  induction 1 as [|f fs Hf _ [IHw IHr]]; [split; [intros w; by rewrite app_nil_r|apply reads_ret]|].
  destruct (field_codec f Hf) as [Hw Hr]. cbn [for_each read_fields map]. rewrite mjoin_cons.
  split; [by apply writes_then|]. eapply reads_bind; [exact Hr|]. by apply (reads_bind_ret _ (cons f)).
Qed.

(** A packet written field by field is read back as it was: the integers of every width,
    the floats (bit by bit but for the payload of a NaN), variable-length integers and UTF-8
    strings, in any order; the reader then stands at the end of what was written. *)
Theorem packet_roundtrip fs rest :
  Forall field_ok fs ->
  exists bytes, written (for_each write_field fs) = Ok bytes /\
    (len (bytes ++ rest) <= usize_max ->
     read_fields fs (reader_new (bytes ++ rest)) = (mkReader (bytes ++ rest) (len bytes), Ok fs)).
Proof.
  intros Hf. destruct (fields_codec fs Hf) as [Hw Hr]. eexists. split; [by apply writes_written|].
  by apply reads_read.
Qed.
(** *** Frames *)

(** What [peek_varint] sees is what [read_varint] reads. *)
Lemma peek_varint_loop_ok n : forall i acc u rest, (0 < n)%nat -> i + Z.of_nat n <= 5 -> 0 <= i ->
  0 <= acc < 2 ^ (7 * i) -> 0 <= u < 2 ^ (7 * Z.of_nat n) -> u * 2 ^ (7 * i) < 2 ^ 32 ->
  peek_varint_loop (varint_bytes n u ++ rest) i acc =
    Ok (Some (to_signed 32 (acc + u * 2 ^ (7 * i)), i + len (varint_bytes n u))).
Proof.
  induction n as [|n IH]; intros i acc u rest Hn Hin Hi Ha Hu Hlt; [lia|]. cbn [varint_bytes].
  assert (0 < 2 ^ (7 * i)) as Hpow by lia. destruct (Z.ltb_spec u 128) as [H1|H1].
  - destruct (varint_last u ltac:(lia)) as (E1 & E2 & E3). cbn [app peek_varint_loop]. rewrite E1, E2.
    destruct (varint_group i u acc ltac:(lia) ltac:(lia) Ha Hlt) as [-> ->].
    by rewrite (proj2 (Z.ltb_ge _ _)), E3 by lia.
  - destruct (varint_more u) as (E1 & E2 & E3). pose proof (Z.mod_pos_bound u 128 ltac:(lia)) as Hm.
    pose proof (Z.div_mod u 128 ltac:(lia)) as Hdm. pose proof (Z.div_pos u 128 ltac:(lia) ltac:(lia)) as Hdp.
    cbn [app peek_varint_loop]. rewrite E1, E2.
    destruct (varint_group i (u mod 128) acc ltac:(lia) ltac:(lia) Ha ltac:(nia)) as [-> ->].
    rewrite Nat2Z.inj_succ in *. rewrite Z.mul_succ_r, Z.pow_add_r in Hu by lia. change (2 ^ 7) with 128 in Hu.
    destruct n as [|n]; [cbn in Hu; lia|].
    assert (2 ^ (7 * (i + 1)) = 128 * 2 ^ (7 * i)) as Hstep
      by (rewrite Z.mul_add_distr_l, Z.pow_add_r by lia; change (2 ^ (7 * 1)) with 128; lia).
    rewrite (proj2 (Z.ltb_ge _ _)), E3 by lia.
    rewrite IH; [|lia|lia|lia|rewrite Hstep; nia|split; [lia|apply Z.div_lt_upper_bound; lia]|rewrite Hstep; nia].
    replace (acc + u * 2 ^ (7 * i)) with ((acc + u mod 128 * 2 ^ (7 * i)) + u / 128 * 2 ^ (7 * (i + 1)))
      by (rewrite Hstep; rewrite Hdm at 3; lia).
    do 3 f_equal. cbn [length]. lia.
Qed.
(** ... and of a part of it nothing. *)
Lemma peek_varint_loop_part n : forall i acc u part more, i + Z.of_nat n <= 5 -> 0 <= i ->
  varint_bytes n u = part ++ more -> more <> [] -> peek_varint_loop part i acc = Ok None.
Proof.
  induction n as [|n IH]; intros i acc u part more Hin Hi Hv Hm; cbn [varint_bytes] in Hv.
  - by destruct part, more.
  - destruct part as [|b part]; [done|]. cbn [peek_varint_loop]. unfold shl_u32.
    rewrite (proj2 (Z.ltb_lt _ _)), (proj2 (Z.ltb_ge _ _)) by lia. destruct (u <? 128).
    + injection Hv as _ Hv. by destruct part, more.
    + injection Hv as <- Hv. destruct (varint_more u) as (-> & _ & ->). eapply IH; [lia|lia|exact Hv|exact Hm].
Qed.

Definition frame_bytes (p : list byte) : list byte := varint_bytes 5 (len p) ++ p.
Lemma wire_frame_length p : (0 < length (frame_bytes p))%nat.
Proof. unfold frame_bytes. rewrite length_app. cbn [varint_bytes]. case_match; cbn [length]; lia. Qed.
Lemma encode_frame_ok p bytes :
  encode_frame MinecraftWireCodec p = Ok bytes -> bytes = frame_bytes p /\ len p <= i32_max.
Proof.
  cbn [encode_frame MinecraftWireCodec]. unfold minecraft_encode_frame.
  destruct (Z.ltb_spec i32_max (len p)) as [?|Hl]; [done|].
  rewrite (writes_written _ _ (writes_then _ _ _ _ (writes_varint (len p)) (writes_bytes p))).
  intros [= <-]. split; [|done]. unfold frame_bytes, to_unsigned. by rewrite Z.mod_small by (unfold i32_max in Hl; lia).
Qed.
Lemma peek_prefix (p rest : list byte) : len p <= i32_max ->
  peek_varint (varint_bytes 5 (len p) ++ rest) = Ok (Some (len p, len (varint_bytes 5 (len p)))).
Proof.
  intros Hl. unfold i32_max in Hl. unfold peek_varint. rewrite peek_varint_loop_ok by (cbn; lia).
  change (2 ^ (7 * 0)) with 1. rewrite Z.mul_1_r, !Z.add_0_l. do 3 f_equal. unfold to_signed.
  by rewrite (proj2 (Z.ltb_lt _ _)) by lia.
Qed.
Lemma decode_whole_frame p rest : len p <= i32_max ->
  minecraft_try_decode_frame (frame_bytes p ++ rest) = (rest, Ok (Some p)).
Proof.
  intros Hl. unfold minecraft_try_decode_frame. unfold frame_bytes at 1 2. rewrite <- app_assoc, peek_prefix, app_assoc by done.
  change (varint_bytes 5 (len p) ++ p) with (frame_bytes p).
  rewrite (proj2 (Z.ltb_ge _ _)) by lia.
  assert (len (varint_bytes 5 (len p)) + len p = len (frame_bytes p)) as ->
    by (unfold frame_bytes; rewrite length_app; lia).
  rewrite (proj2 (Z.ltb_ge _ _)) by (rewrite length_app; lia).
  rewrite !Nat2Z.id, drop_app_length, take_app_length. unfold frame_bytes. by rewrite drop_app_length.
Qed.
Lemma decode_part_frame p part more : len p <= i32_max -> frame_bytes p = part ++ more -> more <> [] ->
  minecraft_try_decode_frame part = (part, Ok None).
Proof.
  intros Hl Hp Hm. unfold minecraft_try_decode_frame. symmetry in Hp.
  apply app_eq_inv in Hp as [(k & -> & Hk)|(k & Hk & Hmore)].
  - rewrite peek_prefix by done.
    rewrite (proj2 (Z.ltb_ge _ _)), (proj2 (Z.ltb_lt _ _)); [done| |lia].
    rewrite !length_app, Hk, length_app. destruct more; [done|]. cbn [length]. lia.
  - destruct (decide (k = [])) as [->|Hne].
    + rewrite app_nil_r in Hk. rewrite app_nil_l in Hmore.
      pose proof (peek_prefix p [] Hl) as E.
      rewrite app_nil_r, Hk in E. rewrite E.
      rewrite (proj2 (Z.ltb_ge _ _)), (proj2 (Z.ltb_lt _ _)); [done| |lia].
      subst more. destruct p; [done|]. cbn [length]. lia.
    + assert (peek_varint part = Ok None) as ->; [|done].
      apply (peek_varint_loop_part 5 0 0 (len p) part k); [lia|lia|done|done].
Qed.
(** ** A stream of frames *)

Section Stream.
Context {E Session : Type} (of_protocol : ProtocolError -> E).
Context (codec : Session -> result E WireCodec) (handle : list byte -> M E Session bool).

(** The reads of a connection, one after the other, until one of them closes the session. *)
Fixpoint receive_all (reads : list (list byte)) : M E (Session * list byte) bool :=
  match reads with
  | [] => mret false
  | bytes :: reads =>
      closed ← receive of_protocol codec handle bytes;
      if (closed : bool) then mret true else receive_all reads
  end.

Context (run : list byte -> Session -> Session).
Context (Hcodec : forall s, codec s = Ok MinecraftWireCodec).
Context (Hhandle : forall p s, handle p s = (run p s, Ok false)).
Notation stream ps := (mjoin (map frame_bytes ps)).

(** A buffer that begins the frames of [ps]: the loop handles those it holds whole, in order,
    and leaves less than a frame. *)
Lemma process_frames fuel : forall ps s buffer more, Forall (fun p => len p <= i32_max) ps ->
  buffer ++ more = stream ps -> (length buffer < fuel)%nat ->
  exists done_ rest buffer', ps = done_ ++ rest /\
    process_read_buffer of_protocol codec handle fuel (s, buffer) =
      ((foldl (fun s p => run p s) s done_, buffer'), Ok false) /\
    buffer' ++ more = stream rest /\
    match rest with [] => buffer' = [] | p :: _ => (length buffer' < length (frame_bytes p))%nat end.
Proof.
  induction fuel as [|fuel IH]; intros ps s buffer more Hps Hb Hf; [lia|].
  cbn [process_read_buffer]. rewrite Hcodec. cbn [try_decode_frame MinecraftWireCodec].
  destruct ps as [|p ps].
  - apply app_eq_nil in Hb as [-> ->]. exists [], [], []. by cbn.
  - apply Forall_cons in Hps as [Hp Hps]. cbn [map] in Hb. rewrite mjoin_cons in Hb.
    destruct (Nat.lt_ge_cases (length buffer) (length (frame_bytes p))) as [Hlt|Hge].
    + apply app_eq_inv in Hb as [(k & -> & Hk)|(k & Hk & Hmore)];
        [rewrite length_app in Hlt; lia|].
      rewrite (decode_part_frame p buffer k); [|done|done|intros ->; rewrite Hk, app_nil_r in Hlt; lia].
      exists [], (p :: ps), buffer. split_and!; [done|done| |done].
      cbn [map]. rewrite mjoin_cons, Hk, <- app_assoc. by rewrite Hmore.
    + apply app_eq_inv in Hb as [(k & -> & Hk)|(k & Hk & Hmore)].
      2:{ rewrite Hk, length_app in Hge. destruct k; [|cbn in Hge; lia].
          rewrite app_nil_r in Hk. subst buffer. rewrite <- (app_nil_r (frame_bytes p)), decode_whole_frame by done.
          rewrite Hhandle. pose proof (wire_frame_length p).
          destruct (IH ps (run p s) [] more) as (d & r & b & -> & E1 & E2 & E3); [done|done|cbn; lia|].
          exists (p :: d), r, b. split_and!; [done|exact E1|done|done]. }
      rewrite decode_whole_frame by done. rewrite Hhandle.
      destruct (IH ps (run p s) k more) as (d & r & b & -> & E1 & E2 & E3); [done|done| |].
      { rewrite length_app in Hf. pose proof (wire_frame_length p). lia. }
      exists (p :: d), r, b. split_and!; [done|exact E1|done|done].
Qed.

Lemma receive_frames ps s buffer bytes more : Forall (fun p => len p <= i32_max) ps ->
  buffer ++ bytes ++ more = stream ps ->
  exists done_ rest buffer', ps = done_ ++ rest /\
    receive of_protocol codec handle bytes (s, buffer) =
      ((foldl (fun s p => run p s) s done_, buffer'), Ok false) /\
    buffer' ++ more = stream rest /\
    match rest with [] => buffer' = [] | p :: _ => (length buffer' < length (frame_bytes p))%nat end.
Proof.
  intros Hps Hb. rewrite app_assoc in Hb.
  destruct (process_frames (S (length (buffer ++ bytes))) ps s (buffer ++ bytes) more Hps Hb ltac:(lia))
    as (d & r & b & H1 & H2 & H3 & H4).
  exists d, r, b. split_and!; [done| |done|done]. cbn [receive].
  destruct (buffer ++ bytes) eqn:Eb; [|exact H2]. cbn [process_read_buffer length] in H2. rewrite Hcodec in H2.
  cbn in H2. exact H2.
Qed.
Lemma receive_all_frames reads : forall ps s buffer, Forall (fun p => len p <= i32_max) ps ->
  buffer ++ mjoin reads = stream ps ->
  match ps with [] => buffer = [] | p :: _ => (length buffer < length (frame_bytes p))%nat end ->
  receive_all reads (s, buffer) = ((foldl (fun s p => run p s) s ps, []), Ok false).
Proof.
  induction reads as [|bytes reads IH]; intros ps s buffer Hps Hb Hlt.
  - cbn in Hb. rewrite app_nil_r in Hb. destruct ps as [|p ps]; [by subst|].
    cbn [map] in Hb. rewrite mjoin_cons in Hb. rewrite Hb, length_app in Hlt. lia.
  - rewrite mjoin_cons in Hb. destruct (receive_frames ps s buffer bytes _ Hps Hb) as (d & r & b & -> & H1 & H2 & H3).
    cbn [receive_all]. unfold mbind, M_bind. rewrite H1. apply Forall_app in Hps as [_ Hr].
    rewrite foldl_app. by apply IH.
Qed.

(** C39: a Java connection delivers every packet once and in order, however TCP cuts the stream:
    the concatenation of the frames of any payloads, received in reads of any sizes, makes the
    session handle exactly those payloads; every read ends, none fails, and no byte is left. *)
Theorem frames_any_chunking ps frames reads s :
  Forall2 (fun p bytes => encode_frame MinecraftWireCodec p = Ok bytes) ps frames ->
  mjoin reads = mjoin frames ->
  receive_all reads (s, []) = ((foldl (fun s p => run p s) s ps, []), Ok false).
Proof.
  intros Hf Hr. assert (frames = map frame_bytes ps /\ Forall (fun p => len p <= i32_max) ps) as [-> Hl].
  { clear Hr. induction Hf as [|p bytes ps frames Hp _ [-> IH]]; [done|].
    apply encode_frame_ok in Hp as [-> Hp]. split; [done|by constructor]. }
  apply receive_all_frames; [done|exact Hr|]. destruct ps; [done|]. apply wire_frame_length.
Qed.
End Stream.

Lemma more_bit c : 128 <= byte_Z c -> (Z.land (byte_Z c) 0x80 =? 0) = false.
Proof.
  intros Hc. pose proof (byte_Z_range c). apply Z.eqb_neq. intros E.
  replace (byte_Z c) with (byte_Z c - 128 + 128) in E by lia. rewrite <- lor_bit7, Z.land_lor_distr_l in E by lia.
  by apply Z.lor_eq_0_iff in E as [_ E].
Qed.
Lemma peek_overlong b rest prefix : forall i acc, Forall (fun b => 128 <= byte_Z b) prefix ->
  0 <= i -> i + len prefix = 5 ->
  peek_varint_loop (prefix ++ b :: rest) i acc = if overflow_checks then Panic else Ok None.
Proof.
  induction prefix as [|c prefix IH]; intros i acc Hp Hi Hl; cbn [app peek_varint_loop length] in *; unfold shl_u32.
  - assert (i = 5) as -> by lia. change (7 * 5 <? 32) with false. cbn iota. by destruct overflow_checks.
  - apply Forall_cons in Hp as [Hc%more_bit Hp].
    rewrite (proj2 (Z.ltb_lt _ _)), (proj2 (Z.ltb_ge _ _)), Hc by lia. by apply IH; [|lia|lia].
Qed.
Lemma read_overlong b rest prefix : forall k pre i acc, Forall (fun b => 128 <= byte_Z b) prefix ->
  0 <= i -> i + len prefix = 5 -> (length prefix < k)%nat ->
  (read_varint_loop k i acc (mkReader (pre ++ prefix ++ b :: rest) (len pre))).2 =
    if overflow_checks then Panic else Err InvalidVarInt.
Proof.
  induction prefix as [|c prefix IH]; intros k pre i acc Hp Hi Hl Hk; (destruct k as [|k]; [lia|]);
    cbn [read_varint_loop length] in *; unfold mbind, M_bind, read_u8; cbn [payload cursor];
    rewrite Nat2Z.id; cbn [app]; rewrite list_lookup_middle by done; unfold shl_u32.
  - assert (i = 5) as -> by lia. change (7 * 5 <? 32) with false. cbn iota. by destruct overflow_checks.
  - apply Forall_cons in Hp as [Hc%more_bit Hp].
    rewrite (proj2 (Z.ltb_lt _ _)), (proj2 (Z.ltb_ge _ _)), Hc by lia.
    rewrite (cons_middle c pre), app_assoc. replace (len pre + 1) with (len (pre ++ [c])) by (rewrite length_app; cbn; lia).
    apply IH; [done|lia|lia|lia].
Qed.

(** A frame whose length prefix is longer than five bytes is never refused.  The reader of a
    packet calls such an integer invalid, but the frame decoder takes it for one that is not
    complete yet: it answers that it needs more bytes, whatever follows, so that the session
    buffers its input for ever; where the build checks arithmetic both panic on the shift. *)
Theorem overlong_prefix_never_refused prefix b rest :
  length prefix = 5%nat -> Forall (fun b => 128 <= byte_Z b) prefix ->
  (minecraft_try_decode_frame (prefix ++ b :: rest)).2 = (if overflow_checks then Panic else Ok None) /\
  (read_varint (reader_new (prefix ++ b :: rest))).2 = (if overflow_checks then Panic else Err InvalidVarInt).
Proof.
  intros Hl Hp. split.
  - unfold minecraft_try_decode_frame, peek_varint. rewrite peek_overlong by (done || lia).
    by destruct overflow_checks.
  - apply (read_overlong _ _ _ 6 []); (done || lia).
Qed.
(** ** Reading is total

    A reader of a slice, which is at most [isize::MAX] long, and no longer than the stack is high:
    what a reader recurses for takes a byte.  [step_ok n m r]: from [r], [m] neither panics nor
    overflows the stack nor runs out of fuel, stays inside the slice, and reads at least [n]
    bytes when it succeeds. *)
Definition reader_ok (r : PacketReader) : Prop :=
  0 <= cursor r <= len (payload r) /\ len (payload r) <= i64_max /\ len (payload r) <= Z.of_nat stack_levels.
Definition remaining (r : PacketReader) : Z := len (payload r) - cursor r.
Definition step_ok {A} (n : Z) (m : Read A) (r : PacketReader) : Prop :=
  match m r with
  | (r', Ok _) => payload r' = payload r /\ cursor r + n <= cursor r' <= len (payload r)
  | (r', Err _) => payload r' = payload r /\ cursor r <= cursor r' <= len (payload r)
  | (_, Panic) | (_, OutOfFuel) => False
  end.
Definition total {A} (n : Z) (m : Read A) : Prop := forall r, reader_ok r -> step_ok n m r.

Lemma step_ret {A} (a : A) r : reader_ok r -> step_ok 0 (mret a) r.
Proof. intros [Hr _]. cbn. split; [done|lia]. Qed.
Lemma step_throw {A} n e r : reader_ok r -> step_ok (A := A) n (throw e) r.
Proof. intros [Hr _]. cbn. split; [done|lia]. Qed.
Lemma step_bind {A B} n k l (m : Read A) (f : A -> Read B) r :
  0 <= n -> l <= n + k -> step_ok n m r ->
  (forall a r', reader_ok r' -> payload r' = payload r -> cursor r + n <= cursor r' -> step_ok k (f a) r') ->
  reader_ok r -> step_ok l (m ≫= f) r.
Proof.
  intros Hn Hl Hm Hf [Hr Hp]. unfold step_ok, mbind, M_bind in *. destruct (m r) as [r' [a|e| |]]; [|exact Hm|done|done].
  destruct Hm as [Ep Hc]. specialize (Hf a r'). unfold reader_ok in Hf. rewrite Ep in Hf.
  specialize (Hf ltac:(lia) eq_refl ltac:(lia)). destruct (f a r') as [r2 [b|e| |]]; (done || (split; [apply Hf|lia])).
Qed.
Lemma total_bind {A B} n k l (m : Read A) (f : A -> Read B) :
  0 <= n -> l <= n + k -> total n m -> (forall a, total k (f a)) -> total l (m ≫= f).
Proof. intros Hn Hl Hm Hf r Hr. eapply step_bind; [exact Hn|exact Hl|by apply Hm| |done]. intros; by apply Hf. Qed.
Lemma total_ret {A} (a : A) : total 0 (mret a).
Proof. intros r Hr. by apply step_ret. Qed.
Lemma total_throw {A} n e : total (A := A) n (throw e).
Proof. intros r Hr. by apply step_throw. Qed.
Lemma total_map {A B} n (m : Read A) (f : A -> B) : 0 <= n -> total n m -> total n (x ← m; mret (f x)).
Proof. intros Hn Hm. eapply total_bind; [exact Hn| |exact Hm|intros; apply total_ret]. lia. Qed.
Lemma step_weaken {A} n k (m : Read A) r : k <= n -> step_ok n m r -> step_ok k m r.
Proof.
  intros Hk Hm. unfold step_ok in *. destruct (m r) as [r' [a|e| |]]; try done. destruct Hm. split; [done|lia].
Qed.
Lemma total_weaken {A} n k (m : Read A) : k <= n -> total n m -> total k m.
Proof. intros Hk Hm r Hr. by apply (step_weaken n), Hm. Qed.

Lemma total_u8 : total 1 read_u8.
Proof.
  intros r [Hr Hp]. unfold step_ok, read_u8. destruct (payload r !! _) as [b|] eqn:E; [|split; [done|lia]].
  apply lookup_lt_Some in E. cbn. split; [done|lia].
Qed.
Lemma total_bytes n : 0 <= n -> total n (read_bytes n).
Proof.
  intros Hn r [Hr Hp]. assert (i64_max < usize_max) by done. unfold step_ok, read_bytes, slice_get, saturating_add.
  destruct (Z.leb_spec (Z.min usize_max (cursor r + n)) (len (payload r))); rewrite ?andb_false_r;
    [|split; [done|lia]].
  rewrite (proj2 (Z.leb_le _ _)) by lia. cbn. split; [done|lia].
Qed.
Lemma total_some_bytes n : total 0 (read_bytes n).
Proof.
  destruct (Z.leb_spec 0 n); [apply (total_weaken n); [done|by apply total_bytes]|].
  intros r [Hr Hp]. unfold step_ok, read_bytes, slice_get, saturating_add.
  rewrite (proj2 (Z.leb_gt (cursor r) _)) by lia. cbn. split; [done|lia].
Qed.
Lemma total_exact n : 0 <= n -> total n (read_exact n).
Proof.
  intros Hn r Hr. pose proof (total_bytes n Hn r Hr) as Hb. unfold step_ok, read_exact, mbind, M_bind in *.
  unfold read_bytes in *. destruct (slice_get _ _ _) as [bytes|] eqn:E; [|done].
  assert (len bytes = n) as ->; [|by rewrite Z.eqb_refl].
  destruct Hr as [Hr Hp]. assert (i64_max < usize_max) by done. unfold slice_get, saturating_add in E.
  destruct (_ && _) eqn:Ec; [|done]. injection E as <-. apply andb_true_iff in Ec as [E1%Z.leb_le E2%Z.leb_le].
  rewrite length_take, length_drop. lia.
Qed.
Lemma total_i8 : total 1 read_i8.
Proof. apply total_map; [lia|apply total_u8]. Qed.
Lemma total_bool : total 1 read_bool.
Proof. apply (total_map _ read_u8 (fun b => negb (b =? 0))); [lia|apply total_u8]. Qed.
Lemma total_i16 : total 2 read_i16.
Proof. apply (total_map _ (read_exact 2)); [lia|by apply total_exact]. Qed.
Lemma total_u16 : total 2 read_u16.
Proof. apply (total_map _ (read_exact 2)); [lia|by apply total_exact]. Qed.
Lemma total_i32 : total 4 read_i32.
Proof. apply (total_map _ (read_exact 4)); [lia|by apply total_exact]. Qed.
Lemma total_i64 : total 8 read_i64.
Proof. apply (total_map _ (read_exact 8)); [lia|by apply total_exact]. Qed.
Lemma total_f32 : total 4 read_f32.
Proof. apply (total_map _ (read_exact 4)); [lia|by apply total_exact]. Qed.
Lemma total_f64 : total 8 read_f64.
Proof. apply (total_map _ (read_exact 8)); [lia|by apply total_exact]. Qed.

(** Where arithmetic wraps, a varint of any length is refused or read. *)
Lemma total_varint_loop : overflow_checks = false -> forall k i acc, 0 <= i -> 6 <= i + Z.of_nat k -> (0 < k)%nat ->
  total 1 (read_varint_loop k i acc).
Proof.
  intros Hb. induction k as [|k IH]; intros i acc Hi Hk Hpos; [lia|]. cbn [read_varint_loop].
  apply (total_bind 1 0); [lia|lia|apply total_u8|]. intros b.
  assert (exists v, shl_u32 (Z.land b 0x7f) (7 * i) = Some v) as [v ->]
    by (unfold shl_u32; rewrite Hb; case_match; by eexists).
  destruct (Z.ltb_spec 5 (i + 1)); [apply total_throw|]. case_match; [apply total_ret|].
  apply (total_weaken 1); [lia|]. apply IH; lia.
Qed.
Lemma total_varint : overflow_checks = false -> total 1 read_varint.
Proof. intros Hb. apply total_varint_loop; (done || lia). Qed.
Lemma total_string max_len : overflow_checks = false -> total 1 (read_string max_len).
Proof.
  intros Hb. apply (total_bind 1 0); [lia|lia|by apply total_varint|]. intros n.
  destruct (Z.ltb_spec n 0); [apply total_throw|]. case_match; [apply total_throw|].
  apply (total_bind 0 0); [lia|lia|apply (total_weaken n); [lia|by apply total_bytes]|]. intros bytes.
  destruct (utf8_chars bytes); [|apply total_throw]. case_match; [apply total_throw|apply total_ret].
Qed.
End PacketLemmas.
#[export] Hint Resolve reads_varint : wire.
Create HintDb total.
#[export] Hint Resolve total_some_bytes total_u8 total_i8 total_bool total_i16 total_u16 total_i32 total_i64 total_f32 total_f64
  total_varint total_string total_ret total_throw : total.

(** ** On concrete input *)

Definition sample_fields : list Field :=
  [FieldVarint 300; FieldString 16 "steve"; FieldI16 (-999); FieldF64 (f64_of_bits 0x4029000000000000);
   FieldBool true; FieldI32 (-1)].
Lemma packet_roundtrip_witness :
  exists bytes, written (for_each write_field sample_fields) = Ok bytes /\
    (len (bytes ++ [x07]) <= usize_max ->
     @read_fields (mkBuild true 0) sample_fields (reader_new (bytes ++ [x07])) =
       (mkReader (bytes ++ [x07]) (len bytes), Ok sample_fields)).
Proof.
  apply (@packet_roundtrip (mkBuild true 0)).
  repeat constructor; unfold field_ok, i32_max; try lia; try (vm_compute; reflexivity).
  - vm_compute. discriminate.
  - exists 5. split; [vm_compute; reflexivity|lia].
Defined.

(** Two packets, the second of two hundred bytes, received in three reads. *)
Definition sample_packets : list (list byte) := [[x01; x02; x03]; replicate 200 x2a].
Definition sample_stream : list byte := mjoin (map frame_bytes sample_packets).
Definition sample_reads : list (list byte) :=
  [take 2 sample_stream; take 3 (drop 2 sample_stream); drop 5 sample_stream].
Lemma frames_any_chunking_witness :
  @receive_all ProtocolError (list (list byte)) id (fun _ => Ok (@MinecraftWireCodec (mkBuild true 0)))
    (fun p s => (s ++ [p], Ok false)) sample_reads ([], []) = ((sample_packets, []), Ok false).
Proof.
  refine (@frames_any_chunking (mkBuild true 0) ProtocolError (list (list byte)) id (fun _ => Ok MinecraftWireCodec)
    (fun p s => (s ++ [p], Ok false)) (fun p s => s ++ [p]) (fun _ => eq_refl) (fun _ _ => eq_refl)
    sample_packets (map frame_bytes sample_packets) sample_reads [] _ _).
  - repeat constructor.
  - vm_compute. reflexivity.
Defined.

Lemma overlong_prefix_never_refused_witness :
  (@minecraft_try_decode_frame (mkBuild false 0) (replicate 5 xff ++ [x01; x00])).2 = Ok None /\
  (@read_varint (mkBuild false 0) (reader_new (replicate 5 xff ++ [x01; x00]))).2 = Err InvalidVarInt.
Proof.
  apply (@overlong_prefix_never_refused (mkBuild false 0)); [reflexivity|]. repeat constructor; vm_compute; discriminate.
Defined.
