(* ===== verification/JavaSlots.v ===== *)
(** * Slots, items and positions of the Java editions
    ([crates/protocol/mc-proto-je-common/src/__version_support]: inventory, blocks.rs,
    positions.rs, metadata.rs)

    How a window numbers its slots, how a stack of items is written and read in the four slot
    encodings (with the NBT that is skipped, by a recursion that takes a level of the stack for
    each level of nesting), the numeric ids of blocks and items, packed block positions and the
    fixed-point numbers of entity packets.  An outer [None] is a panic. *)

From Stdlib Require Import Floats.SpecFloat.
From S2P Require Import Prelude Bytes VoxelModel VoxelItems VoxelContent VoxelState ProtoPacket.

(** ** Identifiers ([blocks.rs]) *)

Definition legacy_block (state : BlockState) : Z * Z :=
  default (0, 0) (by_key (bs_key state)
    [(catalog.STONE, (1, 0)); (catalog.GRASS_BLOCK, (2, 0)); (catalog.DIRT, (3, 0));
     (catalog.COBBLESTONE, (4, 0)); (catalog.OAK_PLANKS, (5, 0)); (catalog.BEDROCK, (7, 0));
     (catalog.SAND, (12, 0)); (catalog.GLASS, (20, 0)); (catalog.SANDSTONE, (24, 0));
     (catalog.BRICKS, (45, 0)); (catalog.CRAFTING_TABLE, (58, 0)); (catalog.CHEST, (54, 0));
     (catalog.FURNACE, (61, 0))]).
Definition legacy_block_state_id (state : BlockState) : Z :=
  let '(block_id, metadata) := legacy_block state in Z.lor (Z.shiftl block_id 4) metadata.
Definition flattened_block_state_id_1_13_2 (state : BlockState) : Z :=
  default 0 (by_key (bs_key state)
    [(catalog.STONE, 1); (catalog.GRASS_BLOCK, 8); (catalog.DIRT, 10); (catalog.COBBLESTONE, 14);
     (catalog.OAK_PLANKS, 15); (catalog.BEDROCK, 33); (catalog.SAND, 66); (catalog.GLASS, 230);
     (catalog.SANDSTONE, 245); (catalog.BRICKS, 1125); (catalog.CHEST, 1729);
     (catalog.CRAFTING_TABLE, 3051); (catalog.FURNACE, 3068)]).
Definition semantic_block (block_id metadata : Z) : BlockState :=
  block_state_new
    match block_id with
    | 1 => catalog.STONE
    | 2 => catalog.GRASS_BLOCK
    | 3 => catalog.DIRT
    | 4 => catalog.COBBLESTONE
    | 5 => if metadata =? 0 then catalog.OAK_PLANKS else catalog.AIR
    | 7 => catalog.BEDROCK
    | 12 => if metadata =? 0 then catalog.SAND else catalog.AIR
    | 20 => catalog.GLASS
    | 24 => if metadata =? 0 then catalog.SANDSTONE else catalog.AIR
    | 45 => catalog.BRICKS
    | 58 => catalog.CRAFTING_TABLE
    | 54 => catalog.CHEST
    | 61 => catalog.FURNACE
    | _ => catalog.AIR
    end.
Definition semantic_flattened_block_1_13_2 (state_id : Z) : BlockState :=
  block_state_new
    (if state_id =? 1 then catalog.STONE
     else if (state_id =? 8) || (state_id =? 9) then catalog.GRASS_BLOCK
     else if state_id =? 10 then catalog.DIRT
     else if state_id =? 14 then catalog.COBBLESTONE
     else if state_id =? 15 then catalog.OAK_PLANKS
     else if state_id =? 33 then catalog.BEDROCK
     else if state_id =? 66 then catalog.SAND
     else if state_id =? 230 then catalog.GLASS
     else if state_id =? 245 then catalog.SANDSTONE
     else if state_id =? 1125 then catalog.BRICKS
     else if (1729 <=? state_id) && (state_id <=? 1752) then catalog.CHEST
     else if state_id =? 3051 then catalog.CRAFTING_TABLE
     else if (3068 <=? state_id) && (state_id <=? 3075) then catalog.FURNACE
     else catalog.AIR).

Definition legacy_item_ids : list (string * Z) :=
  [(catalog.STONE, 1); (catalog.GRASS_BLOCK, 2); (catalog.DIRT, 3); (catalog.COBBLESTONE, 4);
   (catalog.OAK_PLANKS, 5); (catalog.OAK_LOG, 17); (catalog.SAND, 12); (catalog.GLASS, 20);
   (catalog.SANDSTONE, 24); (catalog.BRICKS, 45); (catalog.CRAFTING_TABLE, 58);
   (catalog.CHEST, 54); (catalog.FURNACE, 61); (catalog.STICK, 280)].
Definition legacy_item (stack : ItemStack) : option (Z * Z) :=
  if negb (is_legacy_compatible stack) then None
  else (fun item_id => (item_id, damage stack)) <$> by_key (item_key stack) legacy_item_ids.
Definition flattened_item_ids : list (string * Z) :=
  [(catalog.STONE, 1); (catalog.GRASS_BLOCK, 8); (catalog.DIRT, 9); (catalog.COBBLESTONE, 12);
   (catalog.OAK_PLANKS, 13); (catalog.OAK_LOG, 32); (catalog.BEDROCK, 25); (catalog.SAND, 26);
   (catalog.GLASS, 64); (catalog.SANDSTONE, 68); (catalog.BRICKS, 135); (catalog.CHEST, 149);
   (catalog.CRAFTING_TABLE, 152); (catalog.FURNACE, 154); (catalog.STICK, 497)].
Definition flattened_item_id_1_13_2 (stack : ItemStack) : option Z :=
  if negb (is_legacy_compatible stack) then None else by_key (item_key stack) flattened_item_ids.
Definition semantic_item (item_id dmg n : Z) : ItemStack :=
  let plain (key : string) := if dmg =? 0 then Some key else None in
  match
    match item_id with
    | 1 => Some catalog.STONE
    | 2 => Some catalog.GRASS_BLOCK
    | 3 => Some catalog.DIRT
    | 4 => Some catalog.COBBLESTONE
    | 5 => plain catalog.OAK_PLANKS
    | 17 => plain catalog.OAK_LOG
    | 12 => plain catalog.SAND
    | 20 => Some catalog.GLASS
    | 24 => plain catalog.SANDSTONE
    | 45 => Some catalog.BRICKS
    | 58 => plain catalog.CRAFTING_TABLE
    | 54 => plain catalog.CHEST
    | 61 => plain catalog.FURNACE
    | 280 => plain catalog.STICK
    | _ => None
    end
  with
  | Some key => item_stack_new key n dmg
  | None => item_stack_unsupported n dmg
  end.
Definition semantic_flattened_item_1_13_2 (item_id n : Z) : ItemStack :=
  match
    match item_id with
    | 1 => Some catalog.STONE
    | 8 => Some catalog.GRASS_BLOCK
    | 9 => Some catalog.DIRT
    | 12 => Some catalog.COBBLESTONE
    | 13 => Some catalog.OAK_PLANKS
    | 32 => Some catalog.OAK_LOG
    | 25 => Some catalog.BEDROCK
    | 26 => Some catalog.SAND
    | 64 => Some catalog.GLASS
    | 68 => Some catalog.SANDSTONE
    | 135 => Some catalog.BRICKS
    | 149 => Some catalog.CHEST
    | 152 => Some catalog.CRAFTING_TABLE
    | 154 => Some catalog.FURNACE
    | 497 => Some catalog.STICK
    | _ => None
    end
  with
  | Some key => item_stack_new key n 0
  | None =>
      item_stack_unsupported n (if (0 <=? item_id) && (item_id <=? u16_max) then item_id else u16_max)
  end.

(** ** Window layouts ([inventory/layout.rs]) *)

Definition CURSOR_WINDOW_ID : Z := -1.
Definition CURSOR_SLOT_ID : Z := -1.

Inductive PlayerInventoryLayout : Set := Legacy | ModernWithOffhand.
Inductive SlotNbtEncoding : Set := LengthPrefixedBlob | RootTag.
Inductive SlotEncoding : Set := LegacySlot (nbt : SlotNbtEncoding) | PresentVarInt (nbt : SlotNbtEncoding).
Record InventoryProtocolSpec : Set := mkInventorySpec { spec_slot : SlotEncoding; spec_layout : PlayerInventoryLayout }.
Definition JE_1_7_10_INVENTORY_SPEC := mkInventorySpec (LegacySlot LengthPrefixedBlob) Legacy.
Definition JE_1_8_X_INVENTORY_SPEC := mkInventorySpec (LegacySlot RootTag) Legacy.
Definition JE_1_12_2_INVENTORY_SPEC := mkInventorySpec (LegacySlot RootTag) ModernWithOffhand.
Definition JE_1_13_2_INVENTORY_SPEC := mkInventorySpec (PresentVarInt RootTag) ModernWithOffhand.

Record ContainerDescriptor : Type := mkDescriptor {
  d_window_type : string; d_unique_slot_count : Z; d_local_slot_count : Z;
  main_inventory_start : Z; hotbar_start : Z
}.
Definition container_descriptor (container : string) : option ContainerDescriptor :=
  by_key container
    [(ids.PLAYER, mkDescriptor "minecraft:container" 10 9 9 36);
     (ids.CRAFTING_TABLE, mkDescriptor "minecraft:crafting_table" 0 10 10 37);
     (ids.CHEST_27, mkDescriptor "minecraft:chest" 27 27 27 54);
     (ids.FURNACE, mkDescriptor "minecraft:furnace" 3 3 3 30)].
Definition player_window_id (_container : string) : Z := 0.
Definition signed_window_id (window_id : Z) : Z := to_signed 8 window_id.
Definition is_player_container (container : string) : bool := bool_decide (container = ids.PLAYER).
Definition unique_slot_count (container : string) : option Z :=
  d_unique_slot_count <$> container_descriptor container.
Definition window_type (container : string) : option string :=
  d_window_type <$> container_descriptor container.

Definition legacy_player_window_index (slot : InventorySlot) : option Z :=
  match slot with
  | WindowLocal index => if index <? 9 then Some index else None
  | MainInventory index => if index <? 27 then Some (9 + index) else None
  | Hotbar index => if index <? 9 then Some (36 + index) else None
  | Offhand => None
  end.
Definition legacy_player_inventory_slot (index : Z) : option InventorySlot :=
  if index <? 9 then Some (WindowLocal index)
  else if index <? 36 then Some (MainInventory (index - 9))
  else if index <? 45 then Some (Hotbar (index - 36))
  else None.

Definition protocol_slot (container : string) (layout : PlayerInventoryLayout) (slot : InventorySlot) :
    option (option Z) :=
  if is_player_container container then
    Some match layout, slot with
         | ModernWithOffhand, Offhand => Some 45
         | _, _ => legacy_player_window_index slot
         end
  else
    d ← container_descriptor container;
    Some match slot with
         | WindowLocal index => if index <? d_local_slot_count d then Some index else None
         | MainInventory index => if index <? 27 then Some (index + main_inventory_start d) else None
         | Hotbar index => if index <? 9 then Some (index + hotbar_start d) else None
         | Offhand => None
         end.
(** [u8::try_from(raw)] in its two uses: absent, or expected to succeed. *)
Definition u8_of (raw : Z) : option Z := if (0 <=? raw) && (raw <=? u8_max) then Some raw else None.
Definition inventory_slot (container : string) (layout : PlayerInventoryLayout) (raw_slot : Z) :
    option (option InventorySlot) :=
  if is_player_container container then
    Some match layout with
         | ModernWithOffhand =>
             if raw_slot =? 45 then Some Offhand else u8_of raw_slot ≫= legacy_player_inventory_slot
         | Legacy => u8_of raw_slot ≫= legacy_player_inventory_slot
         end
  else
    d ← container_descriptor container;
    if (0 <=? raw_slot) && (raw_slot <? d_local_slot_count d) then Some (Some (WindowLocal raw_slot))
    else if (main_inventory_start d <=? raw_slot) && (raw_slot <? hotbar_start d)
    then i ← u8_of (raw_slot - main_inventory_start d); Some (Some (MainInventory i))
    else if (hotbar_start d <=? raw_slot) && (raw_slot <? hotbar_start d + 9)
    then i ← u8_of (raw_slot - hotbar_start d); Some (Some (Hotbar i))
    else Some None.

(** [window_items.rs]; the length of the local slots is only checked in debug builds. *)
Definition window_items `{Build} (container : string) (layout : PlayerInventoryLayout)
    (contents : InventoryWindowContents) : option (list (option ItemStack)) :=
  let inventory := wc_inventory contents in
  if is_player_container container then
    Some match layout with
         | Legacy => slots inventory
         | ModernWithOffhand => slots inventory ++ [offhand inventory]
         end
  else
    d ← container_descriptor container;
    if overflow_checks && negb (len (wc_local contents) =? d_local_slot_count d) then None
    else Some (wc_local contents ++ map (fun i => get_slot inventory (MainInventory i)) (range_Z 0 27) ++
           map (fun i => get_slot inventory (Hotbar i)) (range_Z 0 9)).

(** ** Stacks ([inventory/slot_codec.rs]) *)

Definition write_empty_slot_nbt (nbt : SlotNbtEncoding) : Write unit :=
  match nbt with LengthPrefixedBlob => write_i16 (-1) | RootTag => write_u8 0 end.
Definition write_slot (stack : option ItemStack) (encoding : SlotEncoding) : Write unit :=
  match encoding with
  | LegacySlot nbt =>
      match stack with
      | None => write_i16 (-1)
      | Some stack =>
          match legacy_item stack with
          | None => throw (InvalidPacket "unsupported inventory item")
          | Some (item_id, dmg) =>
              write_i16 item_id ;; write_u8 (count stack) ;; write_i16 (to_signed 16 dmg) ;;
              write_empty_slot_nbt nbt
          end
      end
  | PresentVarInt nbt =>
      match stack with
      | None => write_bool false
      | Some stack =>
          match flattened_item_id_1_13_2 stack with
          | None => throw (InvalidPacket "unsupported inventory item")
          | Some item_id =>
              write_bool true ;; write_varint item_id ;; write_u8 (count stack) ;;
              write_empty_slot_nbt nbt
          end
      end
  end.

Definition skip_nbt_name : Read unit := length ← read_u16; _ ← read_bytes length; mret tt.
Definition read_nbt_length : Read Z :=
  n ← read_i32; if n <? 0 then throw (InvalidPacket "negative slot nbt length") else mret n.
Definition skip_nbt_array (element_width : Z) : Read unit :=
  n ← read_nbt_length;
  if usize_max <? n * element_width then throw (InvalidPacket "slot nbt array too large")
  else _ ← read_bytes (n * element_width); mret tt.

(** The elements of a list and the entries of a compound, for what a reader does with a child.
    What succeeds for one takes a byte, so that the bytes that are left bound the loops. *)
Fixpoint skip_elements_loop (fuel : nat) (child : Read unit) (n : Z) : Read unit :=
  if n <=? 0 then mret tt
  else match fuel with
       | O => out_of_fuel
       | S fuel => child ;; skip_elements_loop fuel child (n - 1)
       end.
Definition skip_elements (child : Read unit) (n : Z) : Read unit := fun r =>
  skip_elements_loop (S (length (payload r))) child n r.
Fixpoint skip_entries_loop (fuel : nat) (child : Z -> Read unit) : Read unit :=
  match fuel with
  | O => out_of_fuel
  | S fuel =>
      child_type ← read_u8;
      if child_type =? 0 then mret tt
      else skip_nbt_name ;; child child_type ;; skip_entries_loop fuel child
  end.
Definition skip_entries (child : Z -> Read unit) : Read unit := fun r =>
  skip_entries_loop (S (length (payload r))) child r.
(** The payload of a tag.  A list and a compound recurse for what is in them, one call of the
    [stack] for a level; [OutOfFuel] is the overflow of the stack. *)
Fixpoint skip_nbt_payload (stack : nat) (tag_type : Z) {struct stack} : Read unit :=
  match stack with
  | O => out_of_fuel
  | S stack =>
      match tag_type with
      | 1 => _ ← read_u8; mret tt
      | 2 => _ ← read_i16; mret tt
      | 3 => _ ← read_i32; mret tt
      | 4 => _ ← read_i64; mret tt
      | 5 => _ ← read_f32; mret tt
      | 6 => _ ← read_f64; mret tt
      | 7 => skip_nbt_array 1
      | 8 => skip_nbt_name
      | 9 => child_type ← read_u8; n ← read_nbt_length; skip_elements (skip_nbt_payload stack child_type) n
      | 10 => skip_entries (skip_nbt_payload stack)
      | 11 => skip_nbt_array 4
      | 12 => skip_nbt_array 8
      | _ => throw (InvalidPacket "invalid slot nbt tag type")
      end
  end.
Definition skip_slot_nbt_root `{Build} : Read unit :=
  tag_type ← read_u8;
  if tag_type =? 0 then mret tt
  else skip_nbt_name ;; skip_nbt_payload stack_levels tag_type.
Definition skip_slot_nbt_blob : Read unit :=
  length ← read_i16; if length <? 0 then mret tt else _ ← read_bytes length; mret tt.
Definition skip_slot_nbt `{Build} (nbt : SlotNbtEncoding) : Read unit :=
  match nbt with LengthPrefixedBlob => skip_slot_nbt_blob | RootTag => skip_slot_nbt_root end.
Definition read_slot `{Build} (encoding : SlotEncoding) : Read (option ItemStack) :=
  match encoding with
  | LegacySlot nbt =>
      item_id ← read_i16;
      if item_id <? 0 then mret None
      else
        n ← read_u8; dmg ← read_i16; skip_slot_nbt nbt ;;
        mret (Some (semantic_item item_id (to_unsigned 16 dmg) n))
  | PresentVarInt nbt =>
      present ← read_bool;
      if negb (present : bool) then mret None
      else
        item_id ← read_varint; n ← read_u8; skip_slot_nbt nbt ;;
        mret (Some (semantic_flattened_item_1_13_2 item_id n))
  end.

(** ** Metadata ([metadata.rs]) *)

Definition write_empty_metadata_1_8 : Write unit := write_u8 0x7f.
Definition write_item_stack_metadata_1_8 (index : Z) (stack : ItemStack) (slot : SlotEncoding) : Write unit :=
  write_u8 (Z.lor (Z.shiftl 5 5) (Z.land index 0x1f)) ;; write_slot (Some stack) slot ;;
  write_empty_metadata_1_8.
Definition write_empty_metadata_1_12 : Write unit := write_u8 0xff.
Definition write_item_stack_metadata_1_12 (index : Z) (stack : ItemStack) (slot : SlotEncoding) : Write unit :=
  write_u8 index ;; write_varint 5 ;; write_slot (Some stack) slot ;; write_empty_metadata_1_12.
Definition write_item_stack_metadata_1_13 (index : Z) (stack : ItemStack) (slot : SlotEncoding) : Write unit :=
  write_u8 index ;; write_u8 6 ;; write_slot (Some stack) slot ;; write_empty_metadata_1_12.

(** ** Positions ([positions.rs]) *)

Definition pack_block_position (p : BlockPos) : Z :=
  to_signed 64 (Z.lor (Z.lor (Z.shiftl (Z.land (bx p) 0x3ffffff) 38) (Z.shiftl (Z.land (by_ p) 0xfff) 26))
    (Z.land (bz p) 0x3ffffff) mod 2 ^ 64).
(** [(value << shift) >> shift] on [i64]. *)
Definition sign_extend (v bits : Z) : Z :=
  let shift := saturating_sub 64 bits in Z.shiftr (to_signed 64 (Z.shiftl v shift mod 2 ^ 64)) shift.
Definition unpack_block_position (packed : Z) : option BlockPos :=
  x ← to_i32 (sign_extend (Z.land (Z.shiftr packed 38) 0x3ffffff) 26);
  y ← to_i32 (sign_extend (Z.land (Z.shiftr packed 26) 0xfff) 12);
  z ← to_i32 (sign_extend (Z.land packed 0x3ffffff) 26);
  Some (mkBlockPos x y z).

(** [value.round()] of a finite float, half away from zero, as an integer. *)
Definition round_Z (v : spec_float) : option Z :=
  match v with
  | S754_zero _ => Some 0
  | S754_finite s m e =>
      let magnitude :=
        if 0 <=? e then Z.pos m * 2 ^ e else (Z.pos m + 2 ^ (- e - 1)) / 2 ^ (- e) in
      Some (if (s : bool) then - magnitude else magnitude)
  | S754_infinity _ | S754_nan => None
  end.
(** [to_i32] of the rounded value. *)
Definition rounded_to_i32 (v : spec_float) : option Z := round_Z v ≫= to_i32.
Definition to_fixed_point (v : spec_float) : option Z := rounded_to_i32 (f64_mul v (f64_of_Z 32)).

(** [value % n] of an [f32] by an integer: exact, with the sign of the dividend. *)
Definition f32_rem (v : spec_float) (n : Z) : spec_float :=
  match v with
  | S754_finite s m e =>
      if 0 <=? e then binary_normalize 24 128 (cond_Zopp s (Z.pos m * 2 ^ e mod n)) 0 s
      else binary_normalize 24 128 (cond_Zopp s (Z.pos m mod (n * 2 ^ (- e)))) e s
  | S754_zero _ => v
  | S754_infinity _ | S754_nan => S754_nan
  end.
Definition f32_of_Z (z : Z) : spec_float := binary_normalize 24 128 z 0 false.
Definition f32_rem_euclid (v : spec_float) (n : Z) : spec_float :=
  let r := f32_rem v n in if SFltb r (S754_zero false) then SFadd 24 128 r (f32_of_Z n) else r.
Definition to_angle_byte (v : spec_float) : option Z :=
  let wrapped := f32_rem_euclid v 360 in
  scaled ← rounded_to_i32 (SFdiv 24 128 (SFmul 24 128 wrapped (f32_of_Z 256)) (f32_of_Z 360));
  Some (to_signed 8 (scaled mod 256)).

(** ** Windows *)

(** Decides every comparison of the goal and the hypotheses. *)
Ltac compare_all :=
  repeat (match goal with
    | |- context [?a <=? ?b] => destruct (Z.leb_spec a b)
    | |- context [?a <? ?b] => destruct (Z.ltb_spec a b)
    | |- context [?a =? ?b] => destruct (Z.eqb_spec a b)
    | H : context [?a <=? ?b] |- _ => destruct (Z.leb_spec a b)
    | H : context [?a <? ?b] |- _ => destruct (Z.ltb_spec a b)
    | H : context [?a =? ?b] |- _ => destruct (Z.eqb_spec a b)
    end; cbn [andb orb negb mbind option_bind] in *; try discriminate; try lia).

(** The kinds of container that have a layout. *)
Lemma descriptor_cases container d : container_descriptor container = Some d ->
  (container = ids.PLAYER /\ d = mkDescriptor "minecraft:container" 10 9 9 36) \/
  (is_player_container container = false /\ d_local_slot_count d = main_inventory_start d /\
   main_inventory_start d + 27 = hotbar_start d /\ 0 <= d_local_slot_count d <= 27 /\
   (container = ids.CRAFTING_TABLE \/ container = ids.CHEST_27 \/ container = ids.FURNACE)).
Proof.
  unfold container_descriptor. cbn [by_key]. intros H. repeat case_bool_decide; simplify_eq; auto;
    right; cbn; split_and!; auto; lia.
Qed.

Lemma slot_number_codec container layout d slot raw :
  container_descriptor container = Some d -> slot_wf slot ->
  protocol_slot container layout slot = Some (Some raw) <->
  inventory_slot container layout raw = Some (Some slot).
Proof.
  intros Hd Hs. destruct (descriptor_cases _ _ Hd) as [[-> ->]|(Hp & E1 & E2 & E3 & _)].
  - unfold protocol_slot, inventory_slot. change (is_player_container ids.PLAYER) with true. cbn iota.
    unfold u8_of, u8_max, legacy_player_inventory_slot.
    destruct layout, slot as [i|i|i|]; cbn [slot_wf legacy_player_window_index] in *;
      split; intros H; compare_all; simplify_eq/=; try done; try (do 3 f_equal; lia); try (do 2 f_equal; lia).
  - unfold protocol_slot, inventory_slot. rewrite Hp, Hd. cbn [mbind option_bind]. unfold u8_of, u8_max.
    destruct slot as [i|i|i|]; cbn [slot_wf] in *;
      split; intros H; compare_all; simplify_eq/=; try done; try (do 3 f_equal; lia); try (do 2 f_equal; lia).
Qed.

(** The contents of a window as the core builds them. *)
Definition contents_ok (container : string) (contents : InventoryWindowContents) : Prop :=
  inventory_ok (wc_inventory contents) /\
  if is_player_container container then contents = contents_player (wc_inventory contents)
  else forall d, container_descriptor container = Some d ->
    len (wc_local contents) = d_local_slot_count d.

Lemma lookup_map_range {A} (f : Z -> A) from to i : from <= i < to ->
  map f (range_Z from to) !! Z.to_nat (i - from) = Some (f i).
Proof.
  intros Hi. unfold range_Z. rewrite map_map, list_lookup_fmap, lookup_seq_lt by lia. cbn.
  do 2 f_equal. lia.
Qed.
Lemma lookup_app_at {A} (l1 l2 : list A) i j : i = len l1 + j -> 0 <= j ->
  (l1 ++ l2) !! Z.to_nat i = l2 !! Z.to_nat j.
Proof. intros -> Hj. rewrite lookup_app_r by lia. f_equal. lia. Qed.
Lemma length_map_range {A} (f : Z -> A) from to : from <= to -> len (map f (range_Z from to)) = to - from.
Proof. intros H. unfold range_Z. rewrite !length_map, length_seq. lia. Qed.
Lemma inventory_lookup inv slot raw : inventory_ok inv -> slot_wf slot ->
  legacy_window_index slot = Some raw -> slots inv !! Z.to_nat raw = Some (get_slot inv slot).
Proof.
  intros Hi Hw Hr. pose proof (legacy_range _ _ Hw Hr) as Hrange. rewrite (get_slot_legacy inv slot raw) by done.
  unfold inv_get. destruct (lookup_lt_is_Some_2 (slots inv) (Z.to_nat raw)) as [s Hs];
    [unfold inventory_ok in Hi; lia|]. by rewrite Hs.
Qed.

Lemma player_window_items layout inv items slot raw : inventory_ok inv -> slot_wf slot ->
  items = match layout with Legacy => slots inv | ModernWithOffhand => slots inv ++ [offhand inv] end ->
  match layout, slot with
  | ModernWithOffhand, Offhand => Some 45
  | _, _ => legacy_player_window_index slot
  end = Some raw ->
  items !! Z.to_nat raw = Some (contents_get_slot (contents_player inv) slot).
Proof.
  intros Hi Hw -> Hp. assert (legacy_player_window_index slot = legacy_window_index slot) as Hleg by (by destruct slot).
  rewrite Hleg in Hp. destruct (decide (slot = Offhand)) as [->|Hne].
  - destruct layout; [done|]. injection Hp as <-. unfold inventory_ok, PLAYER_INVENTORY_SLOT_COUNT in Hi.
    rewrite (lookup_app_at _ _ 45 0) by lia. done.
  - assert (legacy_window_index slot = Some raw) as Hl by (destruct layout, slot; congruence).
    assert (contents_get_slot (contents_player inv) slot = get_slot inv slot) as ->.
    { destruct slot as [j|j|j|]; try done. cbn in Hl, Hw. case_test; [|done].
      cbn [contents_get_slot contents_player wc_local].
      pose proof (lookup_map_range (fun k => get_slot inv (WindowLocal k)) 0 AUXILIARY_SLOT_COUNT j ltac:(lia)) as E.
      rewrite Z.sub_0_r in E. by rewrite E. }
    destruct layout; [by apply inventory_lookup|]. apply lookup_app_l_Some. by apply inventory_lookup.
Qed.
Lemma container_window_items d inv local slot raw :
  len local = d_local_slot_count d -> d_local_slot_count d = main_inventory_start d ->
  main_inventory_start d + 27 = hotbar_start d -> slot_wf slot ->
  match slot with
  | WindowLocal index => if index <? d_local_slot_count d then Some index else None
  | MainInventory index => if index <? 27 then Some (index + main_inventory_start d) else None
  | Hotbar index => if index <? 9 then Some (index + hotbar_start d) else None
  | Offhand => None
  end = Some raw ->
  (local ++ map (fun i => get_slot inv (MainInventory i)) (range_Z 0 27) ++
    map (fun i => get_slot inv (Hotbar i)) (range_Z 0 9)) !! Z.to_nat raw =
  Some (contents_get_slot (mkContents inv local) slot).
Proof.
  intros Hl E1 E2 Hw Hp.
  pose proof (length_map_range (fun i => get_slot inv (MainInventory i)) 0 27 ltac:(lia)) as Hlen.
  destruct slot as [j|j|j|]; cbn [slot_wf contents_get_slot wc_local wc_inventory] in *; [| | |done];
    (case_test; [|done]); injection Hp as <-.
  - destruct (lookup_lt_is_Some_2 local (Z.to_nat j)) as [s Hs]; [lia|]. rewrite Hs.
    by apply lookup_app_l_Some.
  - rewrite (lookup_app_at _ _ _ j) by lia. apply lookup_app_l_Some.
    pose proof (lookup_map_range (fun i => get_slot inv (MainInventory i)) 0 27 j ltac:(lia)) as E.
    by rewrite Z.sub_0_r in E.
  - rewrite (lookup_app_at _ _ _ (27 + j)), (lookup_app_at _ _ _ j) by lia.
    pose proof (lookup_map_range (fun i => get_slot inv (Hotbar i)) 0 9 j ltac:(lia)) as E.
    by rewrite Z.sub_0_r in E.
Qed.

(** A window that is sent whole shows every slot under its number: at the number that
    [protocol_slot] gives a slot, the list of the window's items holds what the slot holds. *)
Theorem window_items_indexed `{Build} container layout contents items slot raw :
  contents_ok container contents -> slot_wf slot ->
  window_items container layout contents = Some items ->
  protocol_slot container layout slot = Some (Some raw) ->
  items !! Z.to_nat raw = Some (contents_get_slot contents slot).
Proof.
  intros [Hi Hc] Hw Hitems Hp. unfold window_items, protocol_slot in *.
  destruct (is_player_container container) eqn:Hplayer.
  - rewrite Hc. injection Hp as Hp. injection Hitems as <-. by eapply player_window_items.
  - apply bind_Some in Hitems as (d & Hd & Hitems). apply bind_Some in Hp as (d' & Hd' & Hp).
    replace d' with d in * by congruence. specialize (Hc d Hd). destruct (overflow_checks && _); [done|].
    injection Hitems as <-. injection Hp as Hp. destruct contents as [inv local].
    destruct (descriptor_cases _ _ Hd) as [[-> ->]|(_ & E1 & E2 & _)]; [done|].
    by eapply container_window_items.
Qed.

(** ** Stacks *)

Section Stacks.
Context `{Build}.

Lemma legacy_item_semantic stack item_id dmg :
  legacy_item stack = Some (item_id, dmg) -> damage stack = 0 ->
  0 <= item_id < 32768 /\ dmg = 0 /\ semantic_item item_id 0 (count stack) = stack.
Proof.
  unfold legacy_item, is_legacy_compatible. intros Hi Hd. destruct stack as [key n d comps ex].
  cbn [damage item_key count components extra] in *. subst d.
  destruct (bool_decide (comps = ∅)) eqn:E1, (bool_decide (ex = ∅)) eqn:E2; try discriminate Hi.
  apply bool_decide_eq_true in E1 as ->. apply bool_decide_eq_true in E2 as ->. cbn [negb andb] in Hi.
  apply fmap_Some in Hi as (i & Hi & [= -> ->]). unfold legacy_item_ids in Hi. cbn [by_key] in Hi.
  repeat case_bool_decide; simplify_eq; (split_and!; [lia|lia|reflexivity|reflexivity]).
Qed.
Lemma flattened_item_semantic stack item_id :
  flattened_item_id_1_13_2 stack = Some item_id -> damage stack = 0 ->
  - i32_max - 1 <= item_id <= i32_max /\ semantic_flattened_item_1_13_2 item_id (count stack) = stack.
Proof.
  unfold flattened_item_id_1_13_2, is_legacy_compatible. intros Hi Hd. destruct stack as [key n d comps ex].
  cbn [damage item_key count components extra] in *. subst d.
  destruct (bool_decide (comps = ∅)) eqn:E1, (bool_decide (ex = ∅)) eqn:E2; try discriminate Hi.
  apply bool_decide_eq_true in E1 as ->. apply bool_decide_eq_true in E2 as ->. cbn [negb andb] in Hi.
  unfold flattened_item_ids in Hi. cbn [by_key] in Hi. unfold i32_max.
  repeat case_bool_decide; simplify_eq; (split_and!; [lia|lia|reflexivity]).
Qed.

Definition empty_nbt_bytes (nbt : SlotNbtEncoding) : list byte :=
  match nbt with LengthPrefixedBlob => to_be_bytes 2 (to_unsigned 16 (-1)) | RootTag => [Z_byte 0] end.
Lemma empty_nbt_codec nbt :
  writes (write_empty_slot_nbt nbt) (empty_nbt_bytes nbt) /\ reads (skip_slot_nbt nbt) (empty_nbt_bytes nbt) tt.
Proof.
  destruct nbt; cbn [write_empty_slot_nbt empty_nbt_bytes skip_slot_nbt]; (split; [auto with wire|]).
  - unfold skip_slot_nbt_blob. rewrite <- (app_nil_r (to_be_bytes _ _)).
    eapply reads_bind; [apply reads_i16_of; lia|]. apply reads_ret.
  - unfold skip_slot_nbt_root. apply (reads_bind _ _ [_] [] 0); [apply reads_u8_of; lia|]. apply reads_ret.
Qed.

Lemma Ok_inj {E A} (a b : A) : @Ok E A a = Ok b -> a = b.
Proof. congruence. Qed.
(** A stack, in bytes. *)
Lemma slot_codec encoding stack bytes :
  written (write_slot stack encoding) = Ok bytes ->
  (forall s, stack = Some s -> 0 <= count s < 256 /\ damage s = 0) ->
  reads (read_slot encoding) bytes stack.
Proof.
  intros Hw Hs. destruct encoding as [nbt|nbt]; cbn [write_slot read_slot] in *;
    destruct (empty_nbt_codec nbt) as [Wn Rn]; destruct stack as [s|].
  - destruct (Hs s eq_refl) as [Hn Hd]. destruct (legacy_item s) as [[item_id dmg]|] eqn:Ei; [|done].
    destruct (legacy_item_semantic _ _ _ Ei Hd) as (Hid & -> & Hsem).
    rewrite (writes_written _ _ (writes_then _ _ _ _ (writes_i16 _) (writes_then _ _ _ _ (writes_u8 _)
      (writes_then _ _ _ _ (writes_i16 _) Wn)))) in Hw. apply Ok_inj in Hw as <-.
    eapply reads_bind; [apply reads_i16_of; lia|]. rewrite (proj2 (Z.ltb_ge _ _)) by lia.
    eapply reads_bind; [apply reads_u8_of; lia|]. eapply reads_bind; [apply reads_i16_of; done|].
    rewrite <- (app_nil_r (empty_nbt_bytes nbt)). eapply reads_bind; [exact Rn|].
    change (to_unsigned 16 (to_signed 16 0)) with 0. rewrite Hsem. apply reads_ret.
  - rewrite (writes_written _ _ (writes_i16 _)) in Hw. apply Ok_inj in Hw as <-.
    rewrite <- (app_nil_r (to_be_bytes _ _)). eapply reads_bind; [apply reads_i16_of; lia|]. apply reads_ret.
  - destruct (Hs s eq_refl) as [Hn Hd]. destruct (flattened_item_id_1_13_2 s) as [item_id|] eqn:Ei; [|done].
    destruct (flattened_item_semantic _ _ Ei Hd) as (Hid & Hsem).
    rewrite (writes_written _ _ (writes_then _ _ _ _ (writes_bool _) (writes_then _ _ _ _ (writes_varint _)
      (writes_then _ _ _ _ (writes_u8 _) Wn)))) in Hw. apply Ok_inj in Hw as <-.
    apply (reads_bind _ _ [_] _ true); [apply (reads_bool_of true)|]. cbn [negb].
    eapply reads_bind; [by apply reads_varint|]. eapply reads_bind; [apply reads_u8_of; lia|].
    rewrite <- (app_nil_r (empty_nbt_bytes nbt)). eapply reads_bind; [exact Rn|]. rewrite Hsem. apply reads_ret.
  - rewrite (writes_written _ _ (writes_bool _)) in Hw. apply Ok_inj in Hw as <-.
    apply (reads_bind _ _ [_] [] false); [apply (reads_bool_of false)|]. apply reads_ret.
Qed.

(** A stack that can be written is read back, in each of the four encodings: an empty slot,
    and every undamaged stack whose item has an identifier; what follows is left to be read. *)
Theorem slot_roundtrip encoding stack bytes rest :
  written (write_slot stack encoding) = Ok bytes ->
  (forall s, stack = Some s -> 0 <= count s < 256 /\ damage s = 0) ->
  len (bytes ++ rest) <= usize_max ->
  read_slot encoding (reader_new (bytes ++ rest)) = (mkReader (bytes ++ rest) (len bytes), Ok stack).
Proof. intros Hw Hs. apply reads_read. by apply slot_codec. Qed.

(** *** The NBT that is skipped *)

Lemma total_nbt_name : total 2 skip_nbt_name.
Proof.
  unfold skip_nbt_name. apply (total_bind 2 0); [lia|lia|apply total_u16|]. intros n.
  apply (total_map 0 (read_bytes n) (fun _ => tt)); [lia|apply total_some_bytes].
Qed.
Lemma total_nbt_length : total 4 read_nbt_length.
Proof.
  unfold read_nbt_length. apply (total_bind 4 0); [lia|lia|apply total_i32|]. intros n.
  case_match; auto with total.
Qed.
Lemma total_nbt_array w : total 4 (skip_nbt_array w).
Proof.
  unfold skip_nbt_array. apply (total_bind 4 0); [lia|lia|apply total_nbt_length|]. intros n.
  case_match; [auto with total|]. apply (total_map 0 (read_bytes _) (fun _ => tt)); [lia|apply total_some_bytes].
Qed.

(** What is read leaves less to read. *)
Lemma remaining_less r r' n : payload r' = payload r -> cursor r + n <= cursor r' -> remaining r' <= remaining r - n.
Proof. intros E Hc. unfold remaining. rewrite E. lia. Qed.
Lemma remaining_length r : reader_ok r -> remaining r < Z.of_nat (S (length (payload r))).
Proof. intros [Hr _]. unfold remaining. lia. Qed.
Lemma skip_elements_ok child bound :
  (forall r, reader_ok r -> remaining r <= bound -> step_ok 1 child r) ->
  forall n r, reader_ok r -> remaining r <= bound -> step_ok 0 (skip_elements child n) r.
Proof.
  intros Hchild n r Hr Hb. unfold step_ok, skip_elements. pose proof (remaining_length r Hr) as Hf.
  revert Hf. generalize (S (length (payload r))). intros fuel. change (remaining r < Z.of_nat fuel -> step_ok 0 (skip_elements_loop fuel child n) r).
  revert n r Hr Hb. induction fuel as [|fuel IH]; intros n r Hr Hb Hf; cbn [skip_elements_loop]; (case_match; [by apply step_ret|]).
  { destruct Hr as [Hr _]. unfold remaining in Hf. lia. }
  eapply (step_bind 1 0); [lia|lia|by apply Hchild| |done]. intros _ r1 Hr1 E1 Hc1.
  pose proof (remaining_less _ _ _ E1 Hc1). apply IH; [done|lia|lia].
Qed.
Lemma skip_entries_ok child bound :
  (forall tag r, reader_ok r -> remaining r <= bound -> step_ok 1 (child tag) r) ->
  forall r, reader_ok r -> remaining r <= bound + 3 -> step_ok 1 (skip_entries child) r.
Proof.
  intros Hchild r Hr Hb. unfold step_ok, skip_entries. pose proof (remaining_length r Hr) as Hf.
  revert Hf. generalize (S (length (payload r))). intros fuel. change (remaining r < Z.of_nat fuel -> step_ok 1 (skip_entries_loop fuel child) r).
  revert r Hr Hb. induction fuel as [|fuel IH]; intros r Hr Hb Hf; cbn [skip_entries_loop].
  { destruct Hr as [Hr _]. unfold remaining in Hf. lia. }
  eapply (step_bind 1 0); [lia|lia|by apply total_u8| |done]. intros tag r1 Hr1 E1 Hc1.
  pose proof (remaining_less _ _ _ E1 Hc1). case_match; [by apply step_ret|].
  eapply (step_bind 2 0); [lia|lia|by apply total_nbt_name| |done]. intros _ r2 Hr2 E2 Hc2.
  pose proof (remaining_less _ _ _ E2 Hc2).
  eapply (step_bind 1 0); [lia|lia|apply Hchild; [done|lia]| |done]. intros _ r3 Hr3 E3 Hc3.
  pose proof (remaining_less _ _ _ E3 Hc3). apply (step_weaken 1); [lia|]. apply IH; [done|lia|lia].
Qed.
(** Every level takes a byte: a stack that is higher than what is left is not overflowed. *)
Lemma skip_nbt_ok stack : forall tag r, reader_ok r -> remaining r < Z.of_nat stack ->
  step_ok 1 (skip_nbt_payload stack tag) r.
Proof.
  induction stack as [|stack IH]; intros tag r Hr Hs; [destruct Hr as [Hr _]; unfold remaining in Hs; lia|].
  assert (forall A n (m : Read A), 1 <= n -> total n m -> step_ok 1 (_ ← m; mret tt) r) as Hread
    by (intros A n m Hn Hm; apply (total_weaken n); [done|by apply (total_map n m (fun _ => tt)); [lia|]|done]).
  assert (step_ok 1 (throw (InvalidPacket "invalid slot nbt tag type") : Read unit) r) as Hinvalid
    by (by apply step_throw).
  assert (forall tag r', reader_ok r' -> remaining r' <= remaining r - 1 -> step_ok 1 (skip_nbt_payload stack tag) r') as Hchild
    by (intros; apply IH; [done|lia]).
  cbn [skip_nbt_payload]. destruct tag as [|tag|tag]; [exact Hinvalid| |exact Hinvalid].
  do 4 (try (destruct tag as [tag|tag|]; try exact Hinvalid)).
  all: try (eapply Hread; [|eauto with total]; lia).
  all: try (apply (total_weaken 4); [lia|apply total_nbt_array|done]).
  - eapply (step_bind 1 0); [lia|lia|by apply total_u8| |done]. intros child r1 Hr1 E1 Hc1.
    eapply (step_bind 4 0); [lia|lia|by apply total_nbt_length| |done]. intros n r2 Hr2 E2 Hc2.
    pose proof (remaining_less _ _ _ E1 Hc1). pose proof (remaining_less _ _ _ E2 Hc2).
    apply (skip_elements_ok _ (remaining r - 1)); [auto|done|lia].
  - apply (skip_entries_ok _ (remaining r - 1)); [auto|done|lia].
  - apply (total_weaken 2); [lia|apply total_nbt_name|done].
Qed.
Lemma total_slot_nbt nbt : total 0 (skip_slot_nbt nbt).
Proof.
  destruct nbt; cbn [skip_slot_nbt].
  - apply (total_bind 2 0); [lia|lia|apply total_i16|]. intros n. case_match; [apply total_ret|].
    apply (total_map 0 (read_bytes n) (fun _ => tt)); [lia|apply total_some_bytes].
  - intros r Hr. unfold skip_slot_nbt_root. eapply (step_bind 1 0); [lia|lia|by apply total_u8| |done].
    intros tag r1 Hr1 E1 Hc1. case_match; [by apply step_ret|].
    eapply (step_bind 2 0); [lia|lia|by apply total_nbt_name| |done]. intros _ r2 Hr2 E2 Hc2.
    apply (step_weaken 1); [lia|]. apply skip_nbt_ok; [done|]. pose proof (remaining_less _ _ _ E1 Hc1).
    pose proof (remaining_less _ _ _ E2 Hc2). destruct Hr as (Hr & _ & Hs). unfold remaining in *. lia.
Qed.
Lemma total_slot encoding : overflow_checks = false -> total 0 (read_slot encoding).
Proof.
  intros Hb. destruct encoding as [nbt|nbt]; cbn [read_slot].
  - apply (total_bind 2 0); [lia|lia|apply total_i16|]. intros item_id. case_match; [apply total_ret|].
    apply (total_bind 1 0); [lia|lia|apply total_u8|]. intros n.
    apply (total_bind 2 0); [lia|lia|apply total_i16|]. intros dmg.
    apply (total_bind 0 0); [lia|lia|apply total_slot_nbt|]. intros _. apply total_ret.
  - apply (total_bind 1 0); [lia|lia|apply total_bool|]. intros present. case_match; [apply total_ret|].
    apply (total_bind 1 0); [lia|lia|by apply total_varint|]. intros item_id.
    apply (total_bind 1 0); [lia|lia|apply total_u8|]. intros n.
    apply (total_bind 0 0); [lia|lia|apply total_slot_nbt|]. intros _. apply total_ret.
Qed.

(** Whatever a client sends as a stack is read or refused: where arithmetic wraps and the thread's
    stack has a level for every byte, reading a slot from any bytes ends, with a stack or an
    error and never a panic, without touching the bytes or leaving them. *)
Theorem read_slot_total encoding bytes :
  overflow_checks = false -> len bytes <= i64_max -> len bytes <= Z.of_nat stack_levels ->
  exists r out, read_slot encoding (reader_new bytes) = (r, out) /\
    payload r = bytes /\ 0 <= cursor r <= len bytes /\
    ((exists stack, out = Ok stack) \/ exists e, out = Err e).
Proof.
  intros Hb Hl Hs0. assert (reader_ok (reader_new bytes)) as Hr by (unfold reader_ok, reader_new; cbn; lia).
  pose proof (total_slot encoding Hb _ Hr) as Hs. unfold step_ok, reader_new in *.
  destruct (read_slot encoding _) as [r [a|e| |]]; try done; cbn [payload cursor] in Hs;
    eexists r, _; (split_and!; [done|apply Hs|lia|lia|eauto]).
Qed.

(** *** Deeper than the stack *)

(** A reader that overflows the stack at [bytes], wherever they are in the input. *)
Definition overflows {A} (m : Read A) (bytes : list byte) : Prop :=
  forall pre rest, len (pre ++ bytes ++ rest) <= usize_max -> (m (mkReader (pre ++ bytes ++ rest) (len pre))).2 = OutOfFuel.
Lemma overflows_bind {A B} (m : Read A) (f : A -> Read B) bytes : overflows m bytes -> overflows (m ≫= f) bytes.
Proof.
  intros Hm pre rest Hl. specialize (Hm pre rest Hl). unfold mbind, M_bind. destruct (m _) as [r out]. cbn in Hm. by subst out.
Qed.
Lemma overflows_after {A B} (m : Read A) (f : A -> Read B) b1 a b2 :
  reads m b1 a -> overflows (f a) b2 -> overflows (m ≫= f) (b1 ++ b2).
Proof.
  intros Hm Hf pre rest Hl. unfold mbind, M_bind. rewrite <- (app_assoc b1) in Hl |- *. rewrite Hm by done.
  rewrite !(app_assoc pre b1). rewrite !(app_assoc pre b1) in Hl. by apply Hf.
Qed.
Lemma overflows_reader {A} (m : Read A) bytes : overflows m bytes -> len bytes <= usize_max -> (m (reader_new bytes)).2 = OutOfFuel.
Proof. intros Hm Hl. specialize (Hm [] []). rewrite app_nil_r in Hm. by apply Hm. Qed.

(** A compound in a compound in a compound: three bytes for each. *)
Definition nested_compounds (levels : nat) : list byte := mjoin (replicate levels [Z_byte 10; Z_byte 0; Z_byte 0]).
Lemma nested_compounds_length levels : len (nested_compounds levels) = 3 * Z.of_nat levels.
Proof. unfold nested_compounds. induction levels as [|levels IH]; [done|]. cbn [replicate]. rewrite mjoin_cons, length_app. cbn [length]. lia. Qed.
Lemma empty_nbt_name : reads skip_nbt_name [Z_byte 0; Z_byte 0] tt.
Proof.
  unfold skip_nbt_name. apply (reads_bind _ _ [Z_byte 0; Z_byte 0] [] 0); [apply (reads_u16_of 0); done|].
  apply (reads_bind_ret (read_bytes 0) (fun _ => tt) [] []). apply (reads_bytes []).
Qed.
Lemma nested_compounds_overflow levels : overflows (skip_nbt_payload levels 10) (nested_compounds levels).
Proof.
  induction levels as [|levels IH]; [by intros pre rest _|]. cbn [skip_nbt_payload].
  assert (forall fuel, overflows (skip_entries_loop (S fuel) (skip_nbt_payload levels)) (nested_compounds (S levels))) as Hloop.
  { intros fuel. cbn [skip_entries_loop]. apply (overflows_after _ _ [Z_byte 10] 10); [by apply reads_u8_of|].
    apply (overflows_after _ _ [Z_byte 0; Z_byte 0] tt); [apply empty_nbt_name|]. by apply overflows_bind. }
  intros pre rest Hl. exact (Hloop _ pre rest Hl).
Qed.
(** The stack of items whose tag nests so deep, in either encoding with a root tag. *)
Definition nested_slot (encoding : SlotEncoding) (levels : nat) : list byte :=
  match encoding with
  | LegacySlot _ => map Z_byte [0; 1; 1; 0; 0]
  | PresentVarInt _ => map Z_byte [1; 1; 1]
  end ++ map Z_byte [10; 0; 0] ++ nested_compounds levels.
Lemma nested_slot_overflows encoding :
  (encoding = LegacySlot RootTag \/ encoding = PresentVarInt RootTag) ->
  overflows (read_slot encoding) (nested_slot encoding stack_levels).
Proof.
  assert (overflows skip_slot_nbt_root (map Z_byte [10; 0; 0] ++ nested_compounds stack_levels)) as Hroot.
  { apply (overflows_after _ _ [Z_byte 10] 10 ([Z_byte 0; Z_byte 0] ++ _)); [by apply reads_u8_of|].
    apply (overflows_after _ _ [Z_byte 0; Z_byte 0] tt); [apply empty_nbt_name|apply nested_compounds_overflow]. }
  intros [-> | ->]; cbn [read_slot nested_slot skip_slot_nbt].
  - apply (overflows_after _ _ [Z_byte 0; Z_byte 1] 1 ([Z_byte 1] ++ [Z_byte 0; Z_byte 0] ++ _)); [by apply (reads_i16_of 1)|].
    apply (overflows_after _ _ [Z_byte 1] 1); [by apply reads_u8_of|].
    apply (overflows_after _ _ [Z_byte 0; Z_byte 0] 0); [by apply (reads_i16_of 0)|]. by apply overflows_bind.
  - apply (overflows_after _ _ [Z_byte 1] true ([Z_byte 1] ++ [Z_byte 1] ++ _)); [apply (reads_bool_of true)|].
    apply (overflows_after _ _ [Z_byte 1] 1); [by apply (reads_varint 1)|].
    apply (overflows_after _ _ [Z_byte 1] 1); [by apply reads_u8_of|]. by apply overflows_bind.
Qed.
Lemma nested_slot_length encoding levels : len (nested_slot encoding levels) <= 3 * Z.of_nat levels + 8.
Proof. unfold nested_slot. rewrite !length_app, Nat2Z.inj_add, Nat2Z.inj_add, nested_compounds_length. destruct encoding; cbn; lia. Qed.
End Stacks.

(** ** Positions *)

Lemma pack_fields x y z : 0 <= x < 2 ^ 26 -> 0 <= y < 2 ^ 12 -> 0 <= z < 2 ^ 26 ->
  Z.lor (Z.lor (Z.shiftl x 38) (Z.shiftl y 26)) z = x * 2 ^ 38 + y * 2 ^ 26 + z.
Proof.
  intros Hx Hy Hz.
  replace (Z.shiftl x 38) with (Z.shiftl (Z.shiftl x 12) 26) by (by rewrite Z.shiftl_shiftl).
  rewrite <- Z.shiftl_lor, (lor_disjoint_add x y 12), (lor_disjoint_add _ z 26) by lia. lia.
Qed.
Lemma unpack_fields x y z : 0 <= x < 2 ^ 26 -> 0 <= y < 2 ^ 12 -> 0 <= z < 2 ^ 26 ->
  let u := x * 2 ^ 38 + y * 2 ^ 26 + z in
  u / 2 ^ 38 mod 2 ^ 26 = x /\ u / 2 ^ 26 mod 2 ^ 12 = y /\ u / 2 ^ 0 mod 2 ^ 26 = z.
Proof.
  intros Hx Hy Hz u. replace (2 ^ 38) with (2 ^ 12 * 2 ^ 26) in * by done. change (2 ^ 0) with 1.
  rewrite Z.div_1_r. split_and!.
  - replace u with (x * (2 ^ 12 * 2 ^ 26) + (y * 2 ^ 26 + z)) by (unfold u; lia).
    rewrite Z.div_add_l, (Z.div_small (_ + _)), Z.add_0_r by lia. by apply Z.mod_small.
  - replace u with ((y + x * 2 ^ 12) * 2 ^ 26 + z) by (unfold u; lia).
    rewrite Z.div_add_l, (Z.div_small z), Z.add_0_r, Z.mod_add by lia. by apply Z.mod_small.
  - replace u with (z + (y + x * 2 ^ 12) * 2 ^ 26) by (unfold u; lia).
    rewrite Z.mod_add by lia. by apply Z.mod_small.
Qed.
(** A field of [bits] bits at the top of the word, extended. *)
Lemma sign_extend_field v bits : 0 < bits < 64 -> - 2 ^ (bits - 1) <= v < 2 ^ (bits - 1) ->
  sign_extend (v mod 2 ^ bits) bits = v.
Proof.
  intros Hb Hv. unfold sign_extend, saturating_sub. rewrite Z.max_r by lia.
  assert (0 < 2 ^ (64 - bits)) by lia. assert (0 < 2 ^ bits) by lia.
  assert (2 ^ bits * 2 ^ (64 - bits) = 2 ^ 64) as E1 by (rewrite <- Z.pow_add_r by lia; f_equal; lia).
  assert (2 ^ bits = 2 * 2 ^ (bits - 1)) as E2 by (rewrite <- Z.pow_succ_r by lia; f_equal; lia).
  rewrite Z.shiftl_mul_pow2 by lia. rewrite <- E1 at 1. rewrite Z.mul_mod_distr_r, Z.mod_mod by lia.
  replace (to_signed 64 (v mod 2 ^ bits * 2 ^ (64 - bits))) with (v * 2 ^ (64 - bits)).
  - by rewrite Z.shiftr_div_pow2, Z.div_mul by lia.
  - replace (v mod 2 ^ bits * 2 ^ (64 - bits)) with (to_unsigned 64 (v * 2 ^ (64 - bits))).
    + rewrite to_signed_unsigned; [done|lia|].
      assert (2 ^ 63 = 2 ^ (bits - 1) * 2 ^ (64 - bits)) as E3 by (rewrite <- Z.pow_add_r by lia; f_equal; lia).
      change (64 - 1) with 63. rewrite E3. nia.
    + unfold to_unsigned. rewrite <- E1. by rewrite Z.mul_mod_distr_r by lia.
Qed.
Lemma signed_field u k bits : 0 <= k -> 0 <= bits -> k + bits <= 64 ->
  Z.land (Z.shiftr (to_signed 64 (u mod 2 ^ 64)) k) (Z.ones bits) = (u / 2 ^ k) mod 2 ^ bits.
Proof.
  intros Hk Hb Hkb. rewrite Z.land_ones, Z.shiftr_div_pow2 by lia.
  apply Z.bits_inj'. intros n Hn. rewrite <- (Z.land_ones _ bits), <- (Z.land_ones (u / _) bits) by lia.
  rewrite !Z.land_spec.
  rewrite Z.testbit_ones_nonneg by lia. destruct (Z.ltb_spec n bits); [|by rewrite !andb_false_r].
  rewrite !andb_true_r. rewrite !Z.div_pow2_bits by lia. unfold to_signed.
  assert (forall v, Z.testbit (v mod 2 ^ 64 - 2 ^ 64) (n + k) = Z.testbit v (n + k)) as Hlow.
  { intros v. rewrite <- (Z.mod_pow2_bits_low (v mod 2 ^ 64 - 2 ^ 64) 64) by lia.
    replace (v mod 2 ^ 64 - 2 ^ 64) with (v mod 2 ^ 64 + (-1) * 2 ^ 64) by lia.
    rewrite Z.mod_add, Z.mod_mod, Z.mod_pow2_bits_low by lia. done. }
  destruct (_ <? _); [by rewrite Z.mod_pow2_bits_low by lia|apply Hlow].
Qed.
Lemma in_i32 v : - 2 ^ 31 <= v < 2 ^ 31 -> to_i32 v = Some v.
Proof. intros H. unfold to_i32. by rewrite (proj2 (Z.leb_le _ _)), (proj2 (Z.ltb_lt _ _)) by lia. Qed.

(** A block position that the packed form has room for is unpacked as it was packed; the
    room is twenty-six bits for [x] and [z] and twelve for [y], signed. *)
Theorem positions_roundtrip p :
  - 2 ^ 25 <= bx p < 2 ^ 25 -> - 2 ^ 11 <= by_ p < 2 ^ 11 -> - 2 ^ 25 <= bz p < 2 ^ 25 ->
  unpack_block_position (pack_block_position p) = Some p.
Proof.
  destruct p as [x y z]. cbn [bx by_ bz]. intros Hx Hy Hz. unfold pack_block_position. cbn [bx by_ bz].
  change 0x3ffffff with (Z.ones 26). change 0xfff with (Z.ones 12). rewrite !Z.land_ones by lia.
  pose proof (Z.mod_pos_bound x (2 ^ 26) ltac:(lia)). pose proof (Z.mod_pos_bound y (2 ^ 12) ltac:(lia)).
  pose proof (Z.mod_pos_bound z (2 ^ 26) ltac:(lia)). rewrite pack_fields by lia.
  unfold unpack_block_position. change 0x3ffffff with (Z.ones 26). change 0xfff with (Z.ones 12).
  rewrite !signed_field by lia.
  rewrite <- (Z.shiftr_0_r (to_signed _ _)), signed_field by lia.
  destruct (unpack_fields (x mod 2 ^ 26) (y mod 2 ^ 12) (z mod 2 ^ 26)) as (-> & -> & ->); [lia..|].
  rewrite !sign_extend_field, !in_i32 by lia. done.
Qed.

(** ** On concrete input *)

Definition three_bricks : ItemStack := item_stack_new catalog.BRICKS 3 0.
Definition sample_inventory : PlayerInventory :=
  mkInventory (<[44%nat := Some three_bricks]> (replicate 45 None)) None.
Definition sample_items : list (option ItemStack) :=
  replicate 3 None ++ replicate 35 None ++ [Some three_bricks].
Lemma window_items_indexed_witness :
  @window_items (mkBuild true 8) ids.FURNACE Legacy (mkContents sample_inventory (replicate 3 None)) = Some sample_items /\
  sample_items !! Z.to_nat 38 = Some (Some three_bricks).
Proof.
  split; [vm_compute; reflexivity|].
  apply (@window_items_indexed (mkBuild true 8) ids.FURNACE Legacy (mkContents sample_inventory (replicate 3 None)) sample_items (Hotbar 8) 38).
  - split; [reflexivity|]. intros d Hd. injection Hd as <-. reflexivity.
  - cbn. lia.
  - vm_compute. reflexivity.
  - reflexivity.
Defined.

(** Three bricks as 1.13.2 has them. *)
Definition bricks_bytes : list byte := map Z_byte [1; 135; 1; 3; 0].
Lemma slot_roundtrip_witness :
  written (write_slot (Some three_bricks) (PresentVarInt RootTag)) = Ok bricks_bytes /\
  @read_slot (mkBuild true 8) (PresentVarInt RootTag) (reader_new (bricks_bytes ++ [Z_byte 7])) =
    (mkReader (bricks_bytes ++ [Z_byte 7]) 5, Ok (Some three_bricks)).
Proof.
  split; [vm_compute; reflexivity|].
  apply (@slot_roundtrip (mkBuild true 8) (PresentVarInt RootTag) (Some three_bricks) bricks_bytes).
  - vm_compute. reflexivity.
  - intros s Hs. injection Hs as <-. cbn. lia.
  - vm_compute. discriminate.
Defined.

(** A compound that holds a list of compounds, cut short. *)
Definition nested_nbt : list byte := map Z_byte [0; 1; 5; 0; 0; 10; 0; 0; 9; 0; 1; 97; 10; 0; 0; 0; 2; 0; 1].
Lemma read_slot_total_witness :
  exists r out, @read_slot (mkBuild false 19) (LegacySlot RootTag) (reader_new nested_nbt) = (r, out) /\
    payload r = nested_nbt /\ 0 <= cursor r <= len nested_nbt /\
    ((exists stack, out = Ok stack) \/ exists e, out = Err e).
Proof. apply (@read_slot_total (mkBuild false 19)); [reflexivity|vm_compute; discriminate..]. Defined.

Lemma positions_roundtrip_witness :
  pack_block_position (mkBlockPos (-5) (-64) 33554431) = -5 * 2 ^ 38 + (-64 mod 2 ^ 12) * 2 ^ 26 + 33554431 /\
  unpack_block_position (pack_block_position (mkBlockPos (-5) (-64) 33554431)) = Some (mkBlockPos (-5) (-64) 33554431).
Proof. split; [vm_compute; reflexivity|apply positions_roundtrip; cbn [bx by_ bz]; lia]. Defined.
