(* ===== verification/JavaSession.v ===== *)
(** * Sessions of the Java edition
    ([crates/protocol/mc-proto-je-common/src]: adapter.rs, handshake.rs, login.rs, status.rs,
    lib.rs, __version_support/players.rs; [crates/protocol/mc-proto-common/src/types.rs])

    What the adapter remembers of each connection, the packets before the play phase, and the
    adapter that serves the edition by the profile of a version.  A profile is an instance of
    the class [JavaEditionProfile]; the profiles are those of [Je5], [Je47], [Je340] and
    [Je404].  The mutex of the session store serializes its methods, none of which panics
    while it is held, so that each is one step on the map it protects. *)

From Stdlib Require Import Floats.SpecFloat.
From S2P Require Import Prelude Bytes VoxelModel VoxelItems VoxelContent VoxelState VoxelEvents ProtoPacket JavaSlots.

(** ** Vocabulary ([types.rs], [events.rs]) *)

Inductive ConnectionPhase : Set := PhaseHandshaking | PhaseStatus | PhaseLogin | PhasePlay.
Inductive HandshakeNextState : Set := NextStatus | NextLogin.
Inductive TransportKind : Set := Tcp | Udp.
Inductive WireFormatKind : Set := MinecraftFramed | RawPacketStream.
Inductive Edition : Set := EditionJe | EditionBe.
Record ProtocolDescriptor : Type := mkProtocol {
  adapter_id : string; transport : TransportKind; wire_format : WireFormatKind;
  pd_edition : Edition; version_name : string; pd_protocol_number : Z
}.
Record HandshakeIntent : Type := mkIntent {
  hi_edition : Edition; hi_protocol_number : Z; server_host : string; server_port : Z;
  next_state : HandshakeNextState
}.
Inductive StatusRequest : Type := StatusQuery | StatusPing (payload : Z).
Inductive LoginRequest : Type :=
| LoginStartRequest (username : string)
| EncryptionResponse (shared_secret_encrypted verify_token_encrypted : list byte)
| BedrockNetworkSettingsRequest (protocol_number : Z)
| BedrockLogin (protocol_number : Z) (display_name : string) (chain_jwts : list string) (client_data_jwt : string).
Record ServerListStatus : Type := mkStatus {
  st_version : ProtocolDescriptor; players_online : Z; st_max_players : Z; description : string
}.
Record ProtocolSessionSnapshot : Type := mkSessionSnapshot {
  connection_id : ConnectionId; phase : ConnectionPhase; ps_player_id : option PlayerId;
  ps_entity_id : option EntityId
}.

Inductive SessionCommand : Type :=
| ClientStatus (player_id : PlayerId) (action_id : Z)
| InventoryTransactionAck (player_id : PlayerId) (transaction : InventoryTransactionContext)
    (accepted : bool).
Inductive RuntimeCommand : Type := RuntimeCore (c : CoreCommand) | RuntimeSession (c : SessionCommand).
Definition session_command_player_id (c : SessionCommand) : PlayerId :=
  match c with ClientStatus p _ | InventoryTransactionAck p _ _ => p end.
Definition runtime_command_player_id (c : RuntimeCommand) : PlayerId :=
  match c with
  | RuntimeCore c => command_player_id c
  | RuntimeSession c => session_command_player_id c
  end.
#[export] Instance InventoryTransactionContext_eq_dec : EqDecision InventoryTransactionContext.
Proof. solve_decision. Defined.

(** ** The session store *)

Record JavaTrackedWindow : Type := mkTracked { jw_window_id : Z; jw_container : string }.
Record JavaProtocolSessionState : Type := mkJavaSession {
  active_window : option JavaTrackedWindow;
  pending_rejected_transaction : option InventoryTransactionContext
}.
Definition session_state_default : JavaProtocolSessionState := mkJavaSession None None.
Notation JavaProtocolSessionStore := (gmap ConnectionId JavaProtocolSessionState).

(** What the libraries answer: [uuid], [serde_json] and [flate2]. *)
Class JavaEnv : Type := {
  uuid_hyphenated : PlayerId -> string;
  uuid_as_bytes : PlayerId -> list byte;
  uuid_new_v3 : list byte -> list byte;
  json_text_component : string -> string;
  json_status : ServerListStatus -> string;
  json_session_to_vec : JavaProtocolSessionState -> result string (list byte);
  json_session_from_slice : list byte -> result string JavaProtocolSessionState;
  zlib : list byte -> option (list byte)
}.

Definition java_player_container_kind : string := ids.PLAYER.
(** [protocol_block] *)
Definition protocol_block (block : option BlockState) : BlockState :=
  default (block_state_new catalog.AIR) block.

Definition with_session (c : ConnectionId) (f : JavaProtocolSessionState -> JavaProtocolSessionState)
    (store : JavaProtocolSessionStore) : JavaProtocolSessionStore :=
  <[c := f (default session_state_default (store !! c))]> store.
Definition resolve_container (store : JavaProtocolSessionStore) (session : ProtocolSessionSnapshot)
    (window_id : Z) : option string :=
  if window_id =? 0 then Some java_player_container_kind
  else
    state ← store !! connection_id session;
    window ← active_window state;
    if jw_window_id window =? window_id then Some (jw_container window) else None.
Definition should_gate_click (store : JavaProtocolSessionStore) (session : ProtocolSessionSnapshot)
    (transaction : InventoryTransactionContext) : bool :=
  match store !! connection_id session ≫= pending_rejected_transaction with
  | Some pending => tr_window_id pending =? tr_window_id transaction
  | None => false
  end.
Definition ack_state (transaction : InventoryTransactionContext) (state : JavaProtocolSessionState) :
    JavaProtocolSessionState :=
  if bool_decide (pending_rejected_transaction state = Some transaction)
  then mkJavaSession (active_window state) None else state.
Definition observe_transaction_ack (session : ProtocolSessionSnapshot)
    (transaction : InventoryTransactionContext) (accepted : bool) (store : JavaProtocolSessionStore) :
    JavaProtocolSessionStore :=
  if accepted then store else with_session (connection_id session) (ack_state transaction) store.
Definition observe_state (event : CoreEvent) (state : JavaProtocolSessionState) : JavaProtocolSessionState :=
  match event with
  | PlayBootstrap _ _ _ _ => session_state_default
  | ContainerOpened window_id container _ =>
      if bool_decide (container = java_player_container_kind) then state
      else mkJavaSession (Some (mkTracked window_id container)) (pending_rejected_transaction state)
  | ContainerClosed window_id =>
      mkJavaSession
        match active_window state with
        | Some window => if jw_window_id window =? window_id then None else Some window
        | None => None
        end
        match pending_rejected_transaction state with
        | Some transaction => if tr_window_id transaction =? window_id then None else Some transaction
        | None => None
        end
  | InventoryTransactionProcessed transaction false => mkJavaSession (active_window state) (Some transaction)
  | _ => state
  end.
Definition store_observe_event (session : ProtocolSessionSnapshot) (event : CoreEvent)
    (store : JavaProtocolSessionStore) : JavaProtocolSessionStore :=
  with_session (connection_id session) (observe_state event) store.
Definition remove_session (session : ProtocolSessionSnapshot) (store : JavaProtocolSessionStore) :
    JavaProtocolSessionStore := delete (connection_id session) store.

Definition plugin_error {A} (r : result string A) : result ProtocolError A :=
  match r with
  | Ok a => Ok a
  | Err e => Err (ProtocolPlugin e)
  | Panic => Panic
  | OutOfFuel => OutOfFuel
  end.
Definition store_export_session_state `{JavaEnv} (store : JavaProtocolSessionStore)
    (session : ProtocolSessionSnapshot) : result ProtocolError (list byte) :=
  plugin_error (json_session_to_vec (default session_state_default (store !! connection_id session))).
Definition store_import_session_state `{JavaEnv} (session : ProtocolSessionSnapshot) (blob : list byte) :
    M ProtocolError JavaProtocolSessionStore unit := fun store =>
  match plugin_error (json_session_from_slice blob) with
  | Ok state => (<[connection_id session := state]> store, Ok tt)
  | Err e => (store, Err e)
  | Panic => (store, Panic)
  | OutOfFuel => (store, OutOfFuel)
  end.

(** ** Packets before the play phase *)

(** [PacketReader::new(frame)], read to the end of [m]. *)
Definition read_frame {A} (m : Read A) (frame : list byte) : result ProtocolError A := (m (reader_new frame)).2.

Section Frames.
Context `{Build} `{JavaEnv}.

Definition PACKET_HANDSHAKE : Z := 0.
Definition decode_handshake_frame (frame : list byte) : result ProtocolError (option HandshakeIntent) :=
  read_frame (
    packet_id ← read_varint;
    if negb (packet_id =? PACKET_HANDSHAKE) then mret None
    else
      protocol_number ← read_varint;
      host ← read_string 255;
      port ← read_u16;
      next ← read_varint;
      match next with
      | 1 => mret (Some (mkIntent EditionJe protocol_number host port NextStatus))
      | 2 => mret (Some (mkIntent EditionJe protocol_number host port NextLogin))
      | _ => throw (InvalidPacket "unsupported handshake next state")
      end) frame.

Definition write_login_byte_array (bytes : list byte) : Write unit :=
  if i32_max <? len bytes then throw (InvalidPacket "login byte array too large")
  else write_varint (len bytes) ;; write_bytes bytes.
Definition read_login_byte_array : Read (list byte) :=
  n ← read_varint;
  if n <? 0 then throw (InvalidPacket "negative login byte array length") else read_bytes n.
Definition encode_login_success_packet (player : PlayerSnapshot) : result ProtocolError (list byte) :=
  written (write_varint 0x02 ;; write_string (uuid_hyphenated (p_id player)) ;; write_string (username player)).

Definition encode_status_response_packet (status : ServerListStatus) : result ProtocolError (list byte) :=
  written (write_varint 0x00 ;; write_string (json_status status)).
Definition encode_status_pong_packet (payload : Z) : result ProtocolError (list byte) :=
  written (write_varint 0x01 ;; write_i64 payload).
Definition format_text_component (text : string) : string := json_text_component text.
Definition join_game_player_limit (max_players : Z) : Z := try_from_or_max u8_max max_players.
Definition encode_player_info_add (packet_id : Z) (player : PlayerSnapshot) : result ProtocolError (list byte) :=
  written (
    write_varint packet_id ;; write_varint 0 ;; write_varint 1 ;; write_bytes (uuid_as_bytes (p_id player)) ;;
    write_string (username player) ;; write_varint 0 ;; write_varint 0 ;; write_varint 0 ;; write_bool false).

Definition decode_status (frame : list byte) : result ProtocolError StatusRequest :=
  read_frame (
    packet_id ← read_varint;
    match packet_id with
    | 0 => mret StatusQuery
    | 1 => payload ← read_i64; mret (StatusPing payload)
    | _ => throw (UnsupportedPacket packet_id)
    end) frame.
Definition decode_login (frame : list byte) : result ProtocolError LoginRequest :=
  read_frame (
    packet_id ← read_varint;
    match packet_id with
    | 0 => name ← read_string 16; mret (LoginStartRequest name)
    | 1 =>
        secret ← read_login_byte_array;
        token ← read_login_byte_array;
        mret (EncryptionResponse secret token)
    | _ => throw (UnsupportedPacket packet_id)
    end) frame.
Definition encode_encryption_request (server_id : string) (public_key_der verify_token : list byte) :
    result ProtocolError (list byte) :=
  written (
    write_varint 0x01 ;; write_string server_id ;; write_login_byte_array public_key_der ;;
    write_login_byte_array verify_token).
Definition encode_network_settings (_compression_threshold : Z) : result ProtocolError (list byte) :=
  Err (InvalidPacket "java edition adapters do not support bedrock network settings").
End Frames.

(** ** Profiles and the adapter *)

(** The trait [JavaEditionProfile].  The state of a profile is its session store; a method that
    encodes takes it as it is, a method that observes or decodes answers the one it leaves. *)
Class JavaEditionProfile : Type := {
  profile_adapter_id : string;
  profile_descriptor : ProtocolDescriptor;
  play_disconnect_packet_id : Z;
  format_disconnect_reason : string -> string;
  profile_play_bootstrap : EntityId -> WorldMeta -> PlayerSnapshot -> result ProtocolError (list (list byte));
  profile_chunk_batch : list ChunkColumn -> result ProtocolError (list (list byte));
  profile_entity_spawn : EntityId -> PlayerSnapshot -> result ProtocolError (list (list byte));
  profile_entity_moved : EntityId -> PlayerSnapshot -> result ProtocolError (list (list byte));
  profile_dropped_item_spawn : EntityId -> DroppedItemSnapshot -> result ProtocolError (list (list byte));
  profile_entity_despawn : list EntityId -> result ProtocolError (list byte);
  profile_container_opened : Z -> string -> string -> result ProtocolError (list byte);
  profile_container_closed : Z -> result ProtocolError (list byte);
  profile_inventory_contents : Z -> string -> InventoryWindowContents -> result ProtocolError (list byte);
  profile_container_property_changed : Z -> string -> Z -> result ProtocolError (list byte);
  profile_inventory_slot_changed :
    Z -> string -> InventorySlot -> option ItemStack -> result ProtocolError (option (list byte));
  profile_transaction_processed : InventoryTransactionContext -> bool -> result ProtocolError (list byte);
  profile_cursor_changed : option ItemStack -> result ProtocolError (list byte);
  profile_selected_hotbar_slot_changed : Z -> result ProtocolError (list byte);
  profile_block_changed : BlockPos -> BlockState -> result ProtocolError (list byte);
  profile_block_breaking_progress : EntityId -> BlockPos -> option Z -> result ProtocolError (list byte);
  profile_keep_alive_requested : Z -> result ProtocolError (list byte);
  profile_decode_play : ProtocolSessionSnapshot -> JavaProtocolSessionStore -> list byte ->
    result ProtocolError (option RuntimeCommand * JavaProtocolSessionStore)
}.

Section Adapter.
Context `{Build} `{JavaEnv} {P : JavaEditionProfile}.

Definition encode_disconnect (phase : ConnectionPhase) (reason : string) : result ProtocolError (list byte) :=
  packet_id ← match phase with
    | PhaseLogin => Ok 0x00
    | PhasePlay => Ok play_disconnect_packet_id
    | _ => Err (InvalidPacket "disconnect only valid in login/play")
    end;
  written (write_varint packet_id ;; write_string (format_disconnect_reason reason)).

(** [Ok(vec![frame?])] *)
Definition one (frame : result ProtocolError (list byte)) : result ProtocolError (list (list byte)) :=
  f ← frame; Ok [f].
Definition event_frames (event : CoreEvent) : result ProtocolError (list (list byte)) :=
  match event with
  | PlayBootstrap player entity_id meta _ => profile_play_bootstrap entity_id meta player
  | ChunkBatch chunks => profile_chunk_batch chunks
  | EntitySpawned entity_id player => profile_entity_spawn entity_id player
  | EntityMoved entity_id player => profile_entity_moved entity_id player
  | DroppedItemSpawned entity_id item => profile_dropped_item_spawn entity_id item
  | EntityDespawned entity_ids => one (profile_entity_despawn entity_ids)
  | InventoryContents window_id container contents => one (profile_inventory_contents window_id container contents)
  | ContainerOpened window_id container title => one (profile_container_opened window_id container title)
  | ContainerClosed window_id => one (profile_container_closed window_id)
  | ContainerPropertyChanged window_id property value => one (profile_container_property_changed window_id property value)
  | InventorySlotChanged window_id container slot stack =>
      frame ← profile_inventory_slot_changed window_id container slot stack; Ok (option_list frame)
  | InventoryTransactionProcessed transaction accepted => one (profile_transaction_processed transaction accepted)
  | CursorChanged stack => one (profile_cursor_changed stack)
  | SelectedHotbarSlotChanged slot => one (profile_selected_hotbar_slot_changed slot)
  | BlockChanged position block => one (profile_block_changed position (protocol_block block))
  | BlockBreakingProgress breaker position stage _ => one (profile_block_breaking_progress breaker position stage)
  | KeepAliveRequested keep_alive_id => one (profile_keep_alive_requested keep_alive_id)
  | LoginAccepted _ _ _ | DisconnectEvent _ => Err (InvalidPacket "session event cannot be encoded as play sync")
  end.
Definition encode_play_event (event : CoreEvent) (session : ProtocolSessionSnapshot) :
    M ProtocolError JavaProtocolSessionStore (list (list byte)) :=
  frames ← lift (event_frames event);
  modify (store_observe_event session event) ;;
  mret frames.
End Adapter.

(** ** What the store remembers *)

(** A value that actions set and clear: it is what the last action that set it set, if nothing
    since has set or cleared it. *)
Section LastWrite.
Context {Act X : Type} (sets : Act -> option X) (clears : X -> Act -> bool).

Definition last_write_step (current : option X) (a : Act) : option X :=
  match sets a with
  | Some x => Some x
  | None => match current with
            | Some x => if clears x a then None else Some x
            | None => None
            end
  end.
Definition undisturbed (x : X) (a : Act) : Prop := sets a = None /\ clears x a = false.

Lemma last_write history x :
  foldl last_write_step None history = Some x <->
  exists pre a post, history = pre ++ a :: post /\ sets a = Some x /\ Forall (undisturbed x) post.
Proof.
  induction history as [|a history IH] using rev_ind.
  { split; [done|]. intros (pre & a & post & E & _). by destruct pre. }
  rewrite foldl_snoc. unfold last_write_step at 1. split.
  - destruct (sets a) as [y|] eqn:Hs.
    + intros [= ->]. exists history, a, []. by rewrite Forall_nil.
    + destruct (foldl _ _ history) as [y|]; [|done]. destruct (clears y a) eqn:Hc; [done|].
      intros [= ->]. destruct (proj1 IH eq_refl) as (pre & b & post & -> & Hb & Hpost).
      exists pre, b, (post ++ [a]). rewrite <- app_assoc, Forall_app, Forall_singleton. done.
  - intros (pre & b & post & E & Hb & Hpost). destruct post as [|p post _] using rev_ind.
    + apply app_inj_tail in E as [<- ->]. by rewrite Hb.
    + rewrite app_comm_cons, app_assoc in E. apply app_inj_tail in E as [-> ->].
      rewrite Forall_app, Forall_singleton in Hpost. destruct Hpost as [Hpost [Hs Hc]].
      rewrite (proj2 IH), Hs, Hc; [done|]. by exists pre, b, post.
Qed.
End LastWrite.

(** What can happen to the store, but for a hand-over. *)
Inductive StoreAction : Type :=
| ActObserve (session : ProtocolSessionSnapshot) (event : CoreEvent)
| ActAck (session : ProtocolSessionSnapshot) (transaction : InventoryTransactionContext) (accepted : bool)
| ActRemove (session : ProtocolSessionSnapshot).
Definition act (store : JavaProtocolSessionStore) (a : StoreAction) : JavaProtocolSessionStore :=
  match a with
  | ActObserve session event => store_observe_event session event store
  | ActAck session transaction accepted => observe_transaction_ack session transaction accepted store
  | ActRemove session => remove_session session store
  end.
Definition action_connection (a : StoreAction) : ConnectionId :=
  match a with ActObserve s _ | ActAck s _ _ | ActRemove s => connection_id s end.

(** A rejection, and what settles it. *)
Definition rejects (c : ConnectionId) (a : StoreAction) : option InventoryTransactionContext :=
  match a with
  | ActObserve s (InventoryTransactionProcessed transaction false) =>
      if connection_id s =? c then Some transaction else None
  | _ => None
  end.
Definition settles (c : ConnectionId) (pending : InventoryTransactionContext) (a : StoreAction) : bool :=
  (action_connection a =? c) &&
  match a with
  | ActObserve _ (PlayBootstrap _ _ _ _) | ActRemove _ => true
  | ActObserve _ (ContainerClosed window_id) => tr_window_id pending =? window_id
  | ActAck _ transaction accepted => negb accepted && bool_decide (pending = transaction)
  | _ => false
  end.
(** A window of a container, and what closes it. *)
Definition opens (c : ConnectionId) (a : StoreAction) : option JavaTrackedWindow :=
  match a with
  | ActObserve s (ContainerOpened window_id container _) =>
      if (connection_id s =? c) && negb (bool_decide (container = java_player_container_kind))
      then Some (mkTracked window_id container) else None
  | _ => None
  end.
Definition closes (c : ConnectionId) (window : JavaTrackedWindow) (a : StoreAction) : bool :=
  (action_connection a =? c) &&
  match a with
  | ActObserve _ (PlayBootstrap _ _ _ _) | ActRemove _ => true
  | ActObserve _ (ContainerClosed window_id) => jw_window_id window =? window_id
  | _ => false
  end.

Lemma lookup_with_session {A} (proj : JavaProtocolSessionState -> option A) (c : ConnectionId) f
    (store : JavaProtocolSessionStore) (c' : ConnectionId) :
  proj session_state_default = None ->
  (with_session c f store !! c' ≫= proj) =
    if c =? c' then proj (f (default session_state_default (store !! c))) else store !! c' ≫= proj.
Proof.
  intros Hp. unfold with_session. destruct (Z.eqb_spec c c') as [->|Hne]; [by rewrite lookup_insert_eq|].
  by rewrite lookup_insert_ne by done.
Qed.
Lemma default_proj {A} (proj : JavaProtocolSessionState -> option A) (o : option JavaProtocolSessionState) :
  proj session_state_default = None -> proj (default session_state_default o) = o ≫= proj.
Proof. by destruct o. Qed.
(** A handler of events, case by case. *)
Ltac event_cases e := destruct e as [| | | | | | | | | | | | |? []| | | | |].
Lemma pending_step (store : JavaProtocolSessionStore) a (c : ConnectionId) :
  (act store a !! c ≫= pending_rejected_transaction) =
    last_write_step (rejects c) (settles c) (store !! c ≫= pending_rejected_transaction) a.
Proof.
  unfold last_write_step. destruct a as [s e|s t ok|s]; unfold rejects, settles, action_connection; cbn [act].
  - unfold store_observe_event. rewrite lookup_with_session by done.
    destruct (Z.eqb_spec (connection_id s) c) as [<-|]; cbn [andb];
      [|event_cases e;
 by destruct (store !! c ≫= pending_rejected_transaction)].
    event_cases e; cbn [observe_state pending_rejected_transaction session_state_default];
      try case_bool_decide; cbn [pending_rejected_transaction]; rewrite ?default_proj by done;
      by destruct (store !! connection_id s ≫= pending_rejected_transaction).
  - unfold observe_transaction_ack. destruct ok; cbn [negb andb].
    + rewrite andb_false_r. by destruct (store !! c ≫= _).
    + rewrite lookup_with_session by done. destruct (Z.eqb_spec (connection_id s) c) as [<-|]; [|by destruct (store !! c ≫= _)].
      unfold ack_state. rewrite default_proj by done. cbn [andb].
      destruct (store !! connection_id s ≫= pending_rejected_transaction) as [p|] eqn:E.
      * destruct (decide (p = t)) as [->|Hne]; [by rewrite !bool_decide_true by done|].
        rewrite !bool_decide_false by congruence. by rewrite default_proj.
      * rewrite bool_decide_false by done. by rewrite default_proj.
  - unfold remove_session. destruct (Z.eqb_spec (connection_id s) c) as [<-|].
    + rewrite lookup_delete_eq. by destruct (store !! connection_id s ≫= _).
    + rewrite lookup_delete_ne by done. by destruct (store !! c ≫= _).
Qed.
Lemma window_step (store : JavaProtocolSessionStore) a (c : ConnectionId) :
  (act store a !! c ≫= active_window) =
    last_write_step (opens c) (closes c) (store !! c ≫= active_window) a.
Proof.
  unfold last_write_step. destruct a as [s e|s t ok|s]; unfold opens, closes, action_connection; cbn [act].
  - unfold store_observe_event. rewrite lookup_with_session by done.
    destruct (Z.eqb_spec (connection_id s) c) as [<-|]; cbn [andb];
      [|event_cases e; by destruct (store !! c ≫= active_window)].
    event_cases e; cbn [observe_state active_window session_state_default];
      try case_bool_decide; cbn [active_window negb]; rewrite ?default_proj by done;
      by destruct (store !! connection_id s ≫= active_window).
  - rewrite andb_false_r. assert ((observe_transaction_ack s t ok store !! c ≫= active_window) = store !! c ≫= active_window) as ->
      by (unfold observe_transaction_ack; destruct ok; [done|]; rewrite lookup_with_session by done;
        destruct (Z.eqb_spec (connection_id s) c) as [<-|]; [|done]; rewrite <- default_proj by done;
        unfold ack_state; by case_bool_decide).
    by destruct (store !! c ≫= _).
  - unfold remove_session. destruct (Z.eqb_spec (connection_id s) c) as [<-|].
    + rewrite lookup_delete_eq. by destruct (store !! connection_id s ≫= _).
    + rewrite lookup_delete_ne by done. by destruct (store !! c ≫= _).
Qed.
Lemma fold_actions {X} (proj : JavaProtocolSessionState -> option X) sets clears (c : ConnectionId) :
  (forall store a, (act store a !! c ≫= proj) = last_write_step sets clears (store !! c ≫= proj) a) ->
  forall history, (foldl act ∅ history !! c ≫= proj) = foldl (last_write_step sets clears) None history.
Proof.
  intros Hstep history. induction history as [|a history IH] using rev_ind; [done|].
  by rewrite !foldl_snoc, Hstep, IH.
Qed.

(** C33: what the adapter makes of a click depends on the history of its connection, whatever
    happens on others.  A click is held back exactly if the last transaction that was rejected
    is of its window and was neither acknowledged as rejected nor followed by the end of the
    window, a new login or the end of the session; and the window it names stands for the
    player's inventory (window 0), or for the container last opened, if its number is that
    and nothing has closed it since. *)
Theorem store_remembers history session transaction window_id container :
  let c := connection_id session in
  let store := foldl act ∅ history in
  (should_gate_click store session transaction = true <->
    exists pending pre a post, history = pre ++ a :: post /\ rejects c a = Some pending /\
      Forall (undisturbed (rejects c) (settles c) pending) post /\
      tr_window_id pending = tr_window_id transaction) /\
  (resolve_container store session window_id = Some container <->
    (window_id = 0 /\ container = ids.PLAYER) \/
    (window_id <> 0 /\ exists pre a post, history = pre ++ a :: post /\
      opens c a = Some (mkTracked window_id container) /\
      Forall (undisturbed (opens c) (closes c) (mkTracked window_id container)) post)).
Proof.
  intros c store. pose proof (fold_actions _ _ _ c (fun st a => pending_step st a c) history) as Hp.
  pose proof (fold_actions _ _ _ c (fun st a => window_step st a c) history) as Hw. fold store in Hp, Hw. split.
  - unfold should_gate_click. fold c. rewrite Hp. split.
    + destruct (foldl _ None history) as [pending|] eqn:E; [|done]. intros Ht%Z.eqb_eq.
      apply last_write in E as (pre & a & post & E1 & E2 & E3). by exists pending, pre, a, post.
    + intros (pending & pre & a & post & E1 & E2 & E3 & Ht).
      rewrite (proj2 (last_write _ _ history pending)); [by apply Z.eqb_eq|by exists pre, a, post].
  - unfold resolve_container. fold c. destruct (Z.eqb_spec window_id 0) as [->|Hne].
    { split; [intros [= <-]; by left|]. intros [[_ ->]|[? _]]; done. }
    split.
    + intros H. right. split; [done|]. apply last_write. rewrite <- Hw.
      destruct (store !! c) as [state|]; [|done]. cbn in H |- *. destruct (active_window state) as [w|]; [|done].
      cbn in H. destruct (Z.eqb_spec (jw_window_id w) window_id) as [<-|]; [|done]. injection H as <-. by destruct w.
    + intros [[? _]|[_ H]]; [done|]. apply last_write in H. rewrite <- Hw in H.
      destruct (store !! c) as [state|]; [|done]. cbn in H |- *. rewrite H. cbn. by rewrite Z.eqb_refl.
Qed.
