(* ===== verification/JavaChunks.v ===== *)
(** * Chunk columns of the Java editions
    ([crates/protocol/mc-proto-je-common/src/__version_support/chunks.rs])

    The bytes in which a chunk column is sent: one byte and a nibble per block in 1.7, two bytes
    in 1.8, a palette with indices packed into 64-bit words since 1.12; and a client's reading
    of them.  [Panic] is an [expect] or an index that fails. *)

From stdpp Require Import sorting.
From S2P Require Import Prelude Bytes VoxelModel VoxelItems VoxelContent VoxelState ProtoPacket JavaSlots.

Definition Bytes : Type := result ProtocolError (list byte).
Definition expect_ok {A} (o : option A) : result ProtocolError A :=
  match o with Some a => Ok a | None => Panic end.

(** ** The loops *)

(** [chunk.sections], a [BTreeMap]; what is empty or outside the sixteen sections is skipped. *)
Definition ordered_sections (chunk : ChunkColumn) : list (Z * ChunkSection) :=
  omap (fun y => pair y <$> sections chunk !! y) (sorted_ids (dom (sections chunk))).
Definition section_sent (y : Z) (section : ChunkSection) : bool :=
  (0 <=? y) && (y <? 16) && negb (section_is_empty section).
Fixpoint sections_loop (section_data : ChunkSection -> Bytes) (l : list (Z * ChunkSection)) (bit_map : Z)
    (bytes : list byte) : result ProtocolError (Z * list byte) :=
  match l with
  | [] => Ok (bit_map, bytes)
  | (y, section) :: l =>
      if negb (section_sent y section) then sections_loop section_data l bit_map bytes
      else
        data ← section_data section;
        sections_loop section_data l (Z.lor bit_map (Z.shiftl 1 y)) (bytes ++ data)
  end.
Definition build_chunk_data (section_data : ChunkSection -> Bytes) (chunk : ChunkColumn) (include_biomes : bool) :
    result ProtocolError (Z * list byte) :=
  '(bit_map, bytes) ← sections_loop section_data (ordered_sections chunk) 0 [];
  Ok (bit_map, bytes ++ if include_biomes then map Z_byte (biomes chunk) else []).

(** [for (index, state) in section.iter_blocks() { states[index] = id(state) }] *)
Definition store_state {E S} (id : BlockState -> result E S) (states : result E (list S))
    (entry : Z * BlockState) : result E (list S) :=
  states ← states;
  v ← id entry.2;
  if entry.1 <? len states then Ok (<[Z.to_nat entry.1 := v]> states) else Panic.
Definition iter_blocks (section : ChunkSection) : list (Z * BlockState) :=
  omap (fun i => pair i <$> blocks section !! i) (sorted_ids (dom (blocks section))).
Definition dense_states {E S} (id : BlockState -> result E S) (zero : S) (section : ChunkSection) :
    result E (list S) :=
  foldl (store_state id) (Ok (replicate 4096 zero)) (iter_blocks section).

Definition light_bytes : list byte := replicate 2048 (Z_byte 0) ++ replicate 2048 (Z_byte 0xff).

(** ** 1.8: two bytes a block *)

Definition u16_ok (v : Z) : result ProtocolError Z := if (0 <=? v) && (v <=? u16_max) then Ok v else Panic.
Definition section_data_1_8 (section : ChunkSection) : Bytes :=
  states ← dense_states (fun state => u16_ok (legacy_block_state_id state)) 0 section;
  Ok (mjoin (map (to_le_bytes 2) states) ++ light_bytes).
Definition build_chunk_data_1_8 := build_chunk_data section_data_1_8.

(** ** 1.7: a byte and a nibble a block *)

Definition get_nibble (source : list Z) (index : Z) : option Z :=
  b ← source !! Z.to_nat (index / 2);
  Some (if index mod 2 =? 0 then Z.land b 0x0f else Z.land (Z.shiftr b 4) 0x0f).
Definition set_nibble (index value : Z) (target : list Z) : option (list Z) :=
  b ← target !! Z.to_nat (index / 2);
  Some (<[Z.to_nat (index / 2) :=
    if index mod 2 =? 0 then Z.lor (Z.land b 0xf0) (Z.land value 0x0f)
    else Z.lor (Z.land b 0x0f) (Z.shiftl (Z.land value 0x0f) 4)]> target).
Definition u8_ok (v : Z) : result ProtocolError Z := if (0 <=? v) && (v <=? u8_max) then Ok v else Panic.
Definition store_legacy (acc : result ProtocolError (list Z * list Z)) (entry : Z * BlockState) :
    result ProtocolError (list Z * list Z) :=
  '(block_ids, metadata) ← acc;
  let '(block_id, block_meta) := legacy_block entry.2 in
  id ← u8_ok block_id;
  block_ids ← (if entry.1 <? len block_ids then Ok (<[Z.to_nat entry.1 := id]> block_ids) else Panic);
  metadata ← expect_ok (set_nibble entry.1 block_meta metadata);
  Ok (block_ids, metadata).
Definition section_data_1_7 (section : ChunkSection) : Bytes :=
  '(block_ids, metadata) ← foldl store_legacy (Ok (replicate 4096 0, replicate 2048 0)) (iter_blocks section);
  Ok (map Z_byte block_ids ++ map Z_byte metadata ++ light_bytes).
Definition build_chunk_data_1_7 := build_chunk_data section_data_1_7.

(** ** 1.12 and 1.13: a palette and packed indices *)

(** [palette_lookup] maps a state to its index in [palette]. *)
Fixpoint index_palette (states : list Z) (palette : list Z) (palette_lookup : gmap Z Z) : list Z * list Z :=
  match states with
  | [] => (palette, [])
  | state_id :: states =>
      match palette_lookup !! state_id with
      | Some i => let '(palette, indices) := index_palette states palette palette_lookup in (palette, i :: indices)
      | None =>
          let next_index := len palette in
          let '(palette, indices) :=
            index_palette states (palette ++ [state_id]) (<[state_id := next_index]> palette_lookup) in
          (palette, next_index :: indices)
      end
  end.
(** [ceil(log2(palette_len))], which [f32] computes without error up to 255. *)
Definition bits_per_block (palette_len : Z) : Z := Z.max 4 (Z.log2_up (Z.max 1 palette_len)).

(** [data_array[..] |= value << bit_offset], with what spills over in the next word. *)
Definition pack_value (bits : Z) (data_array : result ProtocolError (list Z)) (entry : Z * Z) :
    result ProtocolError (list Z) :=
  data_array ← data_array;
  let '(index, value) := entry in
  let start_bit := index * bits in
  let long_index := start_bit / 64 in
  let bit_offset := start_bit mod 64 in
  word ← expect_ok (data_array !! Z.to_nat long_index);
  let data_array := <[Z.to_nat long_index := Z.lor word (Z.shiftl value bit_offset mod 2 ^ 64)]> data_array in
  if 64 <? bit_offset + bits then
    let spill := bit_offset + bits - 64 in
    next ← expect_ok (data_array !! Z.to_nat (long_index + 1));
    Ok (<[Z.to_nat (long_index + 1) := Z.lor next (Z.shiftr value (bits - spill))]> data_array)
  else Ok data_array.
Definition pack_compacted_u64s (values : list Z) (bits : Z) : result ProtocolError (list Z) :=
  let data_array_len := div_ceil (len values * bits) 64 in
  foldl (pack_value bits) (Ok (replicate (Z.to_nat data_array_len) 0)) (enumerate values).

(** A negative value would never end the loop; the callers have none. *)
Fixpoint write_varint_to_vec (fuel : nat) (v : Z) : Bytes :=
  match fuel with
  | O => OutOfFuel
  | S fuel =>
      let b := Z.land v 0x7f in
      let v := Z.shiftr v 7 in
      if v =? 0 then Ok [Z_byte b]
      else rest ← write_varint_to_vec fuel v; Ok (Z_byte (Z.lor b 0x80) :: rest)
  end.
Definition varint_vec : Z -> Bytes := write_varint_to_vec 5.
Fixpoint varint_list (l : list Z) : Bytes :=
  match l with
  | [] => Ok []
  | v :: l => b ← varint_vec v; rest ← varint_list l; Ok (b ++ rest)
  end.
Definition longs_bytes (data_array : list Z) : list byte := mjoin (map (to_be_bytes 8) data_array).

Definition section_data_1_12 (section : ChunkSection) : Bytes :=
  block_states ← dense_states (fun state => Ok (legacy_block_state_id state)) 0 section;
  let '(palette, packed_indices) := index_palette block_states [0] {[0 := 0]} in
  palette_len ← u8_ok (len palette);
  let bits := bits_per_block palette_len in
  data_array ← pack_compacted_u64s packed_indices bits;
  palette_count ← varint_vec (len palette);
  palette_bytes ← varint_list palette;
  data_count ← varint_vec (len data_array);
  Ok ([Z_byte bits] ++ palette_count ++ palette_bytes ++ data_count ++ longs_bytes data_array ++ light_bytes).
Definition build_chunk_data_1_12 := build_chunk_data section_data_1_12.

Definition DIRECT_PALETTE_BITS_PER_BLOCK_1_13 : Z := 14.
Definition section_data_1_13_2 (section : ChunkSection) : Bytes :=
  block_states ← dense_states (fun state => Ok (flattened_block_state_id_1_13_2 state)) 0 section;
  let '(palette, packed_states) := index_palette block_states [0] {[0 := 0]} in
  palette_len ← u8_ok (len palette);
  let local_bits := bits_per_block palette_len in
  let use_direct_palette := 8 <? local_bits in
  let bits := if use_direct_palette then DIRECT_PALETTE_BITS_PER_BLOCK_1_13 else local_bits in
  data_array ← pack_compacted_u64s (if use_direct_palette then block_states else packed_states) bits;
  palette_part ← (if use_direct_palette then Ok []
    else palette_count ← varint_vec (len palette); palette_bytes ← varint_list palette;
         Ok (palette_count ++ palette_bytes));
  data_count ← varint_vec (len data_array);
  Ok ([Z_byte bits] ++ palette_part ++ data_count ++ longs_bytes data_array ++ light_bytes).
Definition build_chunk_data_1_13_2 := build_chunk_data section_data_1_13_2.

(** ** Dense states *)

Lemma elem_of_section_ids i (s : gset Z) : i ∈ sorted_ids s <-> i ∈ s.
Proof. unfold sorted_ids. rewrite merge_sort_Permutation. apply elem_of_elements. Qed.
Lemma elem_of_iter_blocks section i b : (i, b) ∈ iter_blocks section <-> blocks section !! i = Some b.
Proof.
  unfold iter_blocks. rewrite list_elem_of_omap. split.
  - intros (j & _ & Hj). destruct (blocks section !! j) as [b'|] eqn:E; [|done]. cbn in Hj. congruence.
  - intros Hb. exists i. rewrite Hb. split; [|done]. apply elem_of_section_ids, elem_of_dom. by eexists.
Qed.

(** Every block of a section has an index of its own below 4096. *)
Definition section_in_range (section : ChunkSection) : Prop :=
  map_Forall (fun i _ => 0 <= i < 4096) (blocks section).

Section Dense.
Context {Er S : Type} (id : BlockState -> result Er S) (f : BlockState -> S).

(** The last entry of an index is what it holds. *)
Definition written_at (g : Z -> S) (l : list (Z * BlockState)) : Z -> S :=
  foldl (fun g e => fun z => if decide (z = e.1) then f e.2 else g z) g l.
Lemma written_at_some g l j b : (j, b) ∈ l -> (forall b', (j, b') ∈ l -> b' = b) -> written_at g l j = f b.
Proof.
  induction l as [|[i b'] l IH] using rev_ind; [by intros ?%not_elem_of_nil|].
  intros Hin Hone. unfold written_at. rewrite foldl_snoc. cbn. case_decide as E.
  - subst i. f_equal. apply Hone. set_solver.
  - apply IH; [|intros; apply Hone; set_solver]. apply elem_of_app in Hin as [|Hin]; [done|].
    apply list_elem_of_singleton in Hin. congruence.
Qed.
Lemma written_at_none g l j : (forall b, (j, b) ∉ l) -> written_at g l j = g j.
Proof.
  induction l as [|[i b'] l IH] using rev_ind; [done|]. intros Hin. unfold written_at. rewrite foldl_snoc. cbn.
  case_decide as E; [subst; destruct (Hin b'); set_solver|]. apply IH. intros b Hb. apply (Hin b). set_solver.
Qed.
Lemma store_states_ok l : forall s g, length s = 4096%nat -> (forall j, 0 <= j < 4096 -> s !! Z.to_nat j = Some (g j)) ->
  (forall i b, (i, b) ∈ l -> 0 <= i < 4096 /\ id b = Ok (f b)) ->
  exists s', foldl (store_state id) (Ok s) l = Ok s' /\ length s' = 4096%nat /\
    forall j, 0 <= j < 4096 -> s' !! Z.to_nat j = Some (written_at g l j).
Proof.
  induction l as [|[i b] l IH] using rev_ind; intros s g Hs Hg Hl; [by exists s|].
  destruct (IH s g Hs Hg) as (s' & Es & Hlen & Hs'); [intros; apply Hl, elem_of_app; by left|].
  destruct (Hl i b) as [Hi Hb]; [apply elem_of_app; right; by apply list_elem_of_singleton|].
  unfold written_at. rewrite !foldl_snoc, Es. cbn [store_state mbind result_bind snd fst]. rewrite Hb.
  cbn [mbind result_bind]. rewrite (proj2 (Z.ltb_lt _ _)) by lia. eexists. split; [done|].
  split; [by rewrite length_insert|]. intros j Hj. cbn. case_decide as Ej.
  - subst j. apply list_lookup_insert_eq. lia.
  - rewrite list_lookup_insert_ne by lia. by apply Hs'.
Qed.
Definition dense (zero : S) (section : ChunkSection) : list S :=
  map (fun j => default zero (f <$> blocks section !! j)) (range_Z 0 4096).
Lemma dense_states_ok zero section :
  section_in_range section -> (forall i b, blocks section !! i = Some b -> id b = Ok (f b)) ->
  dense_states id zero section = Ok (dense zero section).
Proof.
  intros Hr Hid. unfold dense_states.
  destruct (store_states_ok (iter_blocks section) (replicate 4096 zero) (fun _ => zero)) as (s' & Es & Hlen & Hs').
  - by rewrite length_replicate.
  - intros j Hj. apply lookup_replicate_2. lia.
  - intros i b Hb%elem_of_iter_blocks. split; [apply (Hr _ _ Hb)|by eapply Hid].
  - rewrite Es. f_equal. apply list_eq. intros k. unfold dense. destruct (decide (k < 4096)%nat) as [Hk|Hk].
    + pose proof (Hs' (Z.of_nat k) ltac:(lia)) as Hv. rewrite Nat2Z.id in Hv. rewrite Hv. symmetry.
      pose proof (lookup_map_range (fun j => default zero (f <$> blocks section !! j)) 0 4096 (Z.of_nat k) ltac:(lia)) as Hd.
      rewrite Z.sub_0_r, Nat2Z.id in Hd. rewrite Hd. f_equal.
      destruct (blocks section !! Z.of_nat k) as [b|] eqn:Eb; cbn [fmap option_fmap option_map default].
      * symmetry. apply written_at_some; [by apply elem_of_iter_blocks|]. intros b' Hb'%elem_of_iter_blocks. congruence.
      * symmetry. apply written_at_none. intros b Hb%elem_of_iter_blocks. congruence.
    + rewrite !lookup_ge_None_2; [done| |lia]. pose proof (length_map_range (fun j => default zero (f <$> blocks section !! j)) 0 4096 ltac:(lia)).
      lia.
Qed.
Lemma length_dense zero section : length (dense zero section) = 4096%nat.
Proof.
  pose proof (length_map_range (fun j => default zero (f <$> blocks section !! j)) 0 4096 ltac:(lia)) as Hl.
  unfold dense. lia.
Qed.
End Dense.

(** ** Packed words *)

(** Words as one number, the first one lowest; and a list of values of [bits] bits likewise. *)
Definition digits (bits : Z) (l : list Z) : Z := foldr (fun w acc => w + 2 ^ bits * acc) 0 l.
Definition unpack (bits : Z) (words : list Z) (i : Z) : Z := digits 64 words / 2 ^ (i * bits) mod 2 ^ bits.

Lemma digits_nonneg bits l : 0 <= bits -> Forall (fun w => 0 <= w) l -> 0 <= digits bits l.
Proof. intros Hb. induction 1; cbn; [done|]. assert (0 < 2 ^ bits) by lia. fold (digits bits l). nia. Qed.
Lemma digits_bound bits l : 0 <= bits -> Forall (fun w => 0 <= w < 2 ^ bits) l ->
  0 <= digits bits l < 2 ^ (bits * len l).
Proof.
  intros Hb. induction 1 as [|w l Hw Hl IH]; [cbn; rewrite Z.mul_0_r; lia|]. cbn [digits foldr length].
  fold (digits bits l). rewrite Nat2Z.inj_succ, Z.mul_succ_r, Z.pow_add_r by lia. nia.
Qed.
Lemma digits_snoc bits l v : 0 <= bits -> digits bits (l ++ [v]) = digits bits l + v * 2 ^ (bits * len l).
Proof.
  intros Hb. induction l as [|w l IH]; cbn [digits foldr app length].
  - replace (bits * Z.of_nat 0) with 0 by lia. lia.
  - fold (digits bits (l ++ [v])) (digits bits l). rewrite IH, Nat2Z.inj_succ, Z.mul_succ_r, Z.pow_add_r by lia. lia.
Qed.
Lemma digits_insert bits l : forall i w x, 0 <= bits -> l !! i = Some w ->
  digits bits (<[i := x]> l) = digits bits l + (x - w) * 2 ^ (bits * Z.of_nat i).
Proof.
  induction l as [|y l IH]; intros i w x Hb Hi; [done|]. destruct i as [|i].
  - injection Hi as ->. change (<[0%nat := x]> (w :: l)) with (x :: l). cbn [digits foldr].
    replace (bits * Z.of_nat 0) with 0 by lia. lia.
  - change (<[S i := x]> (y :: l)) with (y :: <[i := x]> l). cbn in Hi. cbn [digits foldr].
    fold (digits bits (<[i := x]> l)). fold (digits bits l). rewrite (IH i w) by done.
    rewrite Nat2Z.inj_succ, Z.mul_succ_r, Z.pow_add_r by lia. lia.
Qed.
Lemma digits_word bits l : forall i w, 0 <= bits -> Forall (fun w => 0 <= w) l -> l !! i = Some w ->
  w * 2 ^ (bits * Z.of_nat i) <= digits bits l.
Proof.
  induction l as [|y l IH]; intros i w Hb Hl Hi; [done|]. apply Forall_cons in Hl as [Hy Hl].
  pose proof (digits_nonneg bits l Hb Hl). assert (0 < 2 ^ bits) by lia. destruct i as [|i]; cbn in Hi |- *; fold (digits bits l).
  - injection Hi as ->. replace (bits * Z.of_nat 0) with 0 by lia. nia.
  - specialize (IH i w Hb Hl Hi). rewrite Nat2Z.inj_succ, Z.mul_succ_r, Z.pow_add_r by lia. nia.
Qed.
Lemma digits_nth bits l : forall i v, 0 < bits -> Forall (fun w => 0 <= w < 2 ^ bits) l -> l !! i = Some v ->
  digits bits l / 2 ^ (Z.of_nat i * bits) mod 2 ^ bits = v.
Proof.
  induction l as [|y l IH]; intros i v Hb Hl Hi; [done|]. apply Forall_cons in Hl as [Hy Hl].
  destruct i as [|i]; cbn [digits foldr]; fold (digits bits l).
  - injection Hi as ->. replace (Z.of_nat 0 * bits) with 0 by lia. rewrite Z.pow_0_r, Z.div_1_r. rewrite (Z.mul_comm (2 ^ bits)), Z.mod_add by lia.
    by apply Z.mod_small.
  - cbn in Hi. replace (2 ^ (Z.of_nat (S i) * bits)) with (2 ^ bits * 2 ^ (Z.of_nat i * bits))
      by (rewrite <- Z.pow_add_r by lia; f_equal; lia).
    rewrite <- Z.div_div by lia. replace (y + 2 ^ bits * digits bits l) with (digits bits l * 2 ^ bits + y) by lia.
    rewrite Z.div_add_l, (Z.div_small y), Z.add_0_r by lia. by apply IH.
Qed.

(** What is packed so far, in words that are all in range. *)
Definition packed (bits : Z) (values words : list Z) (size : nat) : Prop :=
  length words = size /\ Forall (fun w => 0 <= w < 2 ^ 64) words /\ digits 64 words = digits bits values.

(** A value shifted into a word that is free from bit [off] on, and what it leaves for the next. *)
Lemma pow_split off : 0 <= off < 64 -> 2 ^ 64 = 2 ^ (64 - off) * 2 ^ off.
Proof. intros. rewrite <- Z.pow_add_r by lia. f_equal. lia. Qed.
Lemma or_shifted off w v : 0 <= off < 64 -> 0 <= w < 2 ^ off -> 0 <= v ->
  Z.lor w (Z.shiftl v off mod 2 ^ 64) = w + v * 2 ^ off mod 2 ^ 64 /\ 0 <= w + v * 2 ^ off mod 2 ^ 64 < 2 ^ 64.
Proof.
  intros Ho Hw Hv. rewrite Z.shiftl_mul_pow2, (pow_split off) by lia.
  assert (0 < 2 ^ off) as Hp by (apply Z.pow_pos_nonneg; lia).
  assert (0 < 2 ^ (64 - off)) as Hq by (apply Z.pow_pos_nonneg; lia).
  rewrite Z.mul_mod_distr_r by (apply Z.neq_sym, Z.lt_neq; assumption).
  pose proof (Z.mod_pos_bound v _ Hq) as Hm. generalize dependent (v mod 2 ^ (64 - off)). intros m Hm. split.
  - rewrite <- Z.shiftl_mul_pow2, Z.lor_comm, lor_disjoint_add, Z.shiftl_mul_pow2 by lia. apply Z.add_comm.
  - generalize dependent (2 ^ off). generalize dependent (2 ^ (64 - off)). intros. nia.
Qed.
Lemma spilled off v : 0 <= off < 64 -> v * 2 ^ off = v * 2 ^ off mod 2 ^ 64 + 2 ^ 64 * (v / 2 ^ (64 - off)).
Proof.
  intros Ho. assert (0 < 2 ^ off) as Hp by (apply Z.pow_pos_nonneg; lia).
  assert (0 < 2 ^ (64 - off)) as Hq by (apply Z.pow_pos_nonneg; lia).
  assert (v * 2 ^ off / 2 ^ 64 = v / 2 ^ (64 - off)) as <-
    by (rewrite (pow_split off) by done; apply Z.div_mul_cancel_r; apply Z.neq_sym, Z.lt_neq; assumption).
  rewrite (Z.div_mod (v * 2 ^ off) (2 ^ 64)) at 1 by done.
  apply Z.add_comm.
Qed.

(** The words in which nothing is packed from bit [64 * i + off] on. *)
Lemma free_word words i off w :
  0 <= i -> 0 <= off < 64 -> Forall (fun w => 0 <= w < 2 ^ 64) words ->
  digits 64 words < 2 ^ (64 * i + off) -> words !! Z.to_nat i = Some w ->
  0 <= w < 2 ^ off /\ forall w', words !! Z.to_nat (i + 1) = Some w' -> w' = 0.
Proof.
  intros Hi Ho Hw Hbig Ew.
  assert (Forall (fun w => 0 <= w) words) as Hw0 by (eapply Forall_impl; [exact Hw|]; cbn; lia).
  pose proof (digits_word 64 words _ w ltac:(lia) Hw0 Ew) as Hword. rewrite Z2Nat.id in Hword by lia.
  rewrite Z.pow_add_r in Hbig by lia. assert (0 < 2 ^ (64 * i)) as Hp by (apply Z.pow_pos_nonneg; lia).
  rewrite Forall_lookup in Hw0. split.
  - split; [by eapply Hw0|]. generalize dependent (2 ^ off). generalize dependent (2 ^ (64 * i)). intros. nia.
  - intros w' Ew'. rewrite <- Forall_lookup in Hw0.
    pose proof (digits_word 64 words _ w' ltac:(lia) Hw0 Ew') as Hnext. rewrite Z2Nat.id in Hnext by lia.
    replace (64 * (i + 1)) with (64 * i + 64) in Hnext by lia. rewrite Z.pow_add_r in Hnext by lia.
    rewrite Forall_lookup in Hw0. specialize (Hw0 _ _ Ew').
    assert (2 ^ off < 2 ^ 64) as Hs by (apply Z.pow_lt_mono_r; lia).
    pose proof (proj1 (Z.mul_lt_mono_pos_l _ _ _ Hp) Hs) as Hm. assert (0 < 2 ^ (64 * i) * 2 ^ 64) by lia.
    generalize dependent (2 ^ (64 * i) * 2 ^ off). generalize dependent (2 ^ (64 * i) * 2 ^ 64). intros.
    destruct (decide (w' = 0)); [done|]. nia.
Qed.

Lemma packed_bound bits values words size : 0 < bits -> Forall (fun w => 0 <= w < 2 ^ bits) values ->
  packed bits values words size -> digits 64 words < 2 ^ (len values * bits).
Proof.
  intros Hb Hvs (_ & _ & ->). rewrite Z.mul_comm. apply digits_bound; [lia|done].
Qed.
Lemma pack_value_ok bits values words size v :
  0 < bits <= 64 -> Forall (fun w => 0 <= w < 2 ^ bits) values -> 0 <= v < 2 ^ bits ->
  (len values + 1) * bits <= 64 * Z.of_nat size -> packed bits values words size ->
  exists words', pack_value bits (Ok words) (len values, v) = Ok words' /\ packed bits (values ++ [v]) words' size.
Proof.
  intros Hb Hvs Hv Hsize Hp. pose proof (packed_bound bits values words size ltac:(lia) Hvs Hp) as Hbig.
  destruct Hp as (Hlen & Hw & Hd). unfold pack_value. cbn [mbind result_bind]. set (start := len values * bits) in *.
  pose proof (Z.mod_pos_bound start 64 ltac:(lia)) as Ho. pose proof (Z.div_mod start 64 ltac:(lia)) as Hdm.
  assert (0 <= start / 64) as Hi0 by (apply Z.div_pos; lia).
  rewrite Z.mul_add_distr_r, Z.mul_1_l in Hsize. fold start in Hsize.
  set (i := start / 64) in *. set (off := start mod 64) in *. rewrite Hdm in Hbig.
  destruct (lookup_lt_is_Some_2 words (Z.to_nat i)) as [w Ew]; [lia|]. rewrite Ew. cbn [expect_ok mbind result_bind].
  destruct (free_word words i off w) as [Hwo Hnext]; [done..|].
  destruct (or_shifted off w v) as [-> Hx]; [lia..|]. set (x := v * 2 ^ off mod 2 ^ 64) in *.
  pose proof (spilled off v Ho) as Hsp. fold x in Hsp.
  assert (v * 2 ^ (bits * len values) = v * 2 ^ off * 2 ^ (64 * i)) as Hval.
  { rewrite (Z.mul_comm bits). fold start. rewrite Hdm, Z.pow_add_r by lia. ring. }
  pose proof (digits_insert 64 words (Z.to_nat i) w (w + x) ltac:(lia) Ew) as Hins. rewrite Z2Nat.id in Hins by lia.
  assert (Forall (fun w => 0 <= w < 2 ^ 64) (<[Z.to_nat i := w + x]> words)) as Hw' by by apply Forall_insert.
  destruct (Z.ltb_spec 64 (off + bits)) as [Hc|Hc].
  - destruct (lookup_lt_is_Some_2 words (Z.to_nat (i + 1))) as [w' Ew']; [lia|].
    rewrite list_lookup_insert_ne, Ew' by lia. cbn [expect_ok mbind result_bind]. rewrite (Hnext _ Ew').
    replace (bits - (off + bits - 64)) with (64 - off) by lia. rewrite Z.lor_0_l, Z.shiftr_div_pow2 by lia.
    eexists. split; [done|]. split; [by rewrite !length_insert|].
    assert (0 < 2 ^ (64 - off)) as Hq by (apply Z.pow_pos_nonneg; lia).
    assert (0 <= v / 2 ^ (64 - off) < 2 ^ 64) as Hr.
    { split; [apply Z.div_pos; lia|]. apply Z.div_lt_upper_bound; [done|].
      assert (2 ^ bits <= 2 ^ 64) by (apply Z.pow_le_mono_r; lia). nia. }
    split; [by apply Forall_insert|]. rewrite digits_snoc, Hval by lia.
    rewrite (digits_insert 64 _ _ w') by (lia || by rewrite list_lookup_insert_ne by lia).
    rewrite Hins, Hd, (Hnext _ Ew'), Z2Nat.id by lia. rewrite Z.mul_add_distr_l, Z.pow_add_r, Hsp by lia. rewrite Z.mul_1_r. ring.
  - eexists. split; [done|]. split; [by rewrite length_insert|]. split; [done|].
    rewrite digits_snoc, Hval, Hins, Hd by lia. f_equal. f_equal.
    rewrite Hsp, (Z.div_small v), Z.mul_0_r by (split; [lia|]; eapply Z.lt_le_trans; [apply Hv|]; apply Z.pow_le_mono_r; lia).
    lia.
Qed.
Lemma enumerate_snoc {A} (l : list A) a : enumerate (l ++ [a]) = enumerate l ++ [(len l, a)].
Proof. unfold enumerate. rewrite imap_app. cbn. by rewrite Nat.add_0_r. Qed.
Lemma pack_values_ok bits size values :
  0 < bits <= 64 -> Forall (fun w => 0 <= w < 2 ^ bits) values -> len values * bits <= 64 * Z.of_nat size ->
  exists words, foldl (pack_value bits) (Ok (replicate size 0)) (enumerate values) = Ok words /\
    packed bits values words size.
Proof.
  intros Hb. induction values as [|v values IH] using rev_ind; intros Hvs Hsize.
  - exists (replicate size 0). split; [done|]. split; [apply length_replicate|]. split; [by apply Forall_replicate|].
    cbn [digits foldr]. induction size as [|size IHs]; [done|]. cbn [replicate digits foldr]. fold (digits 64 (replicate size 0)).
    rewrite IHs by (cbn; lia). lia.
  - apply Forall_app in Hvs as [Hvs Hv]. apply (proj1 (Forall_singleton _ _)) in Hv. rewrite length_app in Hsize. cbn [length] in Hsize.
    destruct (IH Hvs) as (words & E & Hp); [nia|]. rewrite enumerate_snoc, foldl_snoc, E.
    apply pack_value_ok; [exact Hb|exact Hvs|exact Hv|lia|exact Hp].
Qed.
(** The packed words are exactly as many as the values need, and each value is read back from them. *)
Lemma pack_compacted_ok bits values :
  0 < bits <= 64 -> Forall (fun w => 0 <= w < 2 ^ bits) values ->
  exists words, pack_compacted_u64s values bits = Ok words /\ len words = div_ceil (len values * bits) 64 /\
    Forall (fun w => 0 <= w < 2 ^ 64) words /\ forall i v, values !! i = Some v -> unpack bits words (Z.of_nat i) = v.
Proof.
  intros Hb Hvs. unfold pack_compacted_u64s.
  destruct (pack_values_ok bits (Z.to_nat (div_ceil (len values * bits) 64)) values Hb Hvs) as (words & E & Hl & Hw & Hd).
  - unfold div_ceil. pose proof (Z.div_mod (len values * bits + 64 - 1) 64 ltac:(lia)) as Hdm.
    pose proof (Z.mod_pos_bound (len values * bits + 64 - 1) 64 ltac:(lia)) as Hm.
    rewrite Z2Nat.id by (apply Z.div_pos; nia). lia.
  - rewrite E. exists words. split; [done|]. split.
    { rewrite Hl, Z2Nat.id; [done|]. unfold div_ceil. apply Z.div_pos; nia. }
    split; [done|]. intros i v Hv. unfold unpack. rewrite Hd. apply digits_nth; [lia|done|done].
Qed.
