(* ===== verification/JavaColumns.v ===== *)
(** * Chunk columns as a client reads them

    The reading of a chunk section and of a whole column in the layout of 1.12 and 1.13: which
    sections follow is a bit mask, each is a palette and a packed index per block, and two light
    arrays.  What [JavaChunks] writes is read back as the blocks of the column. *)

From stdpp Require Import sorting.
From S2P Require Import Prelude Bytes VoxelModel VoxelItems VoxelContent VoxelState ProtoPacket JavaSlots JavaChunks.

(** ** The palette *)

(** [palette_lookup] is the index of every entry of [palette]. *)
Definition indexed (palette : list Z) (palette_lookup : gmap Z Z) : Prop :=
  forall s i, palette_lookup !! s = Some i <-> 0 <= i /\ palette !! Z.to_nat i = Some s.

Lemma indexed_snoc palette palette_lookup s :
  indexed palette palette_lookup -> palette_lookup !! s = None ->
  indexed (palette ++ [s]) (<[s := len palette]> palette_lookup).
Proof.
  intros Hi Hs s' i. destruct (decide (s' = s)) as [->|Hne].
  - rewrite lookup_insert_eq. split.
    + intros [= <-]. rewrite Nat2Z.id, list_lookup_middle by done. split; [lia|done].
    + intros [Hi0 Hl]. apply lookup_app_Some in Hl as [Hl|[Hle Hl]].
      * assert (palette_lookup !! s = Some i) by (by apply Hi). congruence.
      * f_equal. apply list_lookup_singleton_Some in Hl as [Hl _]. lia.
  - rewrite lookup_insert_ne by done. rewrite (Hi s' i). apply and_iff_compat_l. rewrite lookup_app_Some. split; [by left|].
    intros [|[_ Hl]]; [done|]. apply list_lookup_singleton_Some in Hl as [_ ?]. congruence.
Qed.

Lemma index_palette_ok states : forall palette palette_lookup,
  NoDup palette -> indexed palette palette_lookup ->
  exists more indices, index_palette states palette palette_lookup = (palette ++ more, indices) /\
    NoDup (palette ++ more) /\ (forall s, s ∈ more -> s ∈ states) /\
    Forall2 (fun s i => 0 <= i /\ (palette ++ more) !! Z.to_nat i = Some s) states indices.
Proof.
  induction states as [|s states IH]; intros palette palette_lookup Hnd Hi; cbn [index_palette].
  { exists [], []. rewrite app_nil_r. repeat split; [done|by intros ? ?%not_elem_of_nil|constructor]. }
  destruct (palette_lookup !! s) as [i|] eqn:Es.
  - destruct (IH palette palette_lookup Hnd Hi) as (more & indices & -> & Hnd' & Hin & Hf).
    exists more, (i :: indices). split; [done|]. split; [done|]. split; [intros; constructor; auto|].
    constructor; [|done]. apply Hi in Es as [Hi0 Hl]. split; [done|]. by apply lookup_app_l_Some.
  - destruct (IH (palette ++ [s]) (<[s := len palette]> palette_lookup)) as (more & indices & -> & Hnd' & Hin & Hf).
    { apply NoDup_app. split; [done|]. split; [|apply NoDup_singleton]. intros s' Hs' ->%list_elem_of_singleton.
      apply list_elem_of_lookup in Hs' as [k Hk]. assert (palette_lookup !! s = Some (Z.of_nat k)); [|congruence].
      apply Hi. rewrite Nat2Z.id. split; [lia|done]. }
    { by apply indexed_snoc. }
    rewrite <- app_assoc in Hnd', Hf |- *. exists ([s] ++ more), (len palette :: indices). split; [done|]. split; [done|]. split.
    + intros s'. cbn [app]. rewrite !elem_of_cons. naive_solver.
    + constructor; [|done]. split; [lia|]. rewrite Nat2Z.id. by apply list_lookup_middle.
Qed.

(** ** A section *)

Lemma varint_vec_ok v : 0 <= v <= i32_max -> varint_vec v = Ok (varint_bytes 5 (to_unsigned 32 v)).
Proof.
  intros Hv. unfold to_unsigned. rewrite Z.mod_small by (unfold i32_max in Hv; lia). unfold varint_vec.
  assert (0 <= v < 2 ^ (7 * Z.of_nat 5)) as Hr by (unfold i32_max in Hv; cbn; lia). clear Hv. revert v Hr.
  assert (0 < 5)%nat as Hn by lia. revert Hn. generalize 5%nat. intros n. induction n as [|n IH]; intros Hn v Hv; [lia|].
  cbn [write_varint_to_vec varint_bytes]. rewrite land_low7, Z.shiftr_div_pow2 by lia. change (2 ^ 7) with 128.
  destruct (Z.ltb_spec v 128) as [Hlt|Hge].
  - rewrite Z.div_small, Z.mod_small by lia. done.
  - pose proof (Z.div_le_lower_bound v 128 1). rewrite (proj2 (Z.eqb_neq _ _)) by lia.
    rewrite lor_bit7 by (apply Z.mod_pos_bound; lia).
    rewrite Nat2Z.inj_succ, Z.mul_succ_r, Z.pow_add_r in Hv by lia. change (2 ^ 7) with 128 in Hv.
    destruct n as [|n]; [cbn in Hv; lia|]. rewrite IH; [done|lia|].
    split; [apply Z.div_pos; lia|]. apply Z.div_lt_upper_bound; lia.
Qed.

Fixpoint read_many {A} (m : Read A) (n : nat) : Read (list A) :=
  match n with
  | O => mret []
  | S n => a ← m; l ← read_many m n; mret (a :: l)
  end.
Lemma reads_many {A} (m : Read A) (enc : A -> list byte) l :
  Forall (fun a => reads m (enc a) a) l -> reads (read_many m (length l)) (mjoin (map enc l)) l.
Proof.
  induction 1 as [|a l Ha Hl IH]; [apply reads_ret|]. cbn [length read_many map mjoin list_join].
  eapply reads_bind; [exact Ha|]. by apply (reads_bind_ret _ (cons a)).
Qed.

Section Read.
Context `{Build}.
Definition read_u64 : Read Z := l ← read_exact 8; mret (from_be_bytes l).
(** A client's reading of a section: the state of each of its blocks. *)
Definition read_section : Read (list Z) :=
  bits ← read_u8;
  palette ← (if bits <=? 8 then n ← read_varint; read_many read_varint (Z.to_nat n) else mret []);
  n ← read_varint;
  words ← read_many read_u64 (Z.to_nat n);
  _light ← read_bytes 4096;
  mret (map (fun i => let v := unpack bits words i in
                      if bits <=? 8 then default 0 (palette !! Z.to_nat v) else v) (range_Z 0 4096)).

Lemma varint_list_ok l : Forall (fun v => 0 <= v <= i32_max) l ->
  exists bytes, varint_list l = Ok bytes /\ reads (read_many read_varint (length l)) bytes l.
Proof.
  intros Hl. exists (mjoin (map (fun v => varint_bytes 5 (to_unsigned 32 v)) l)). split.
  - induction Hl as [|v l Hv Hl IH]; [done|]. cbn [varint_list map mjoin list_join]. by rewrite varint_vec_ok, IH.
  - apply reads_many. eapply Forall_impl; [exact Hl|]. intros v Hv. apply reads_varint. unfold i32_max in *. lia.
Qed.
Lemma longs_ok words : Forall (fun w => 0 <= w < 2 ^ 64) words ->
  reads (read_many read_u64 (length words)) (longs_bytes words) words.
Proof.
  intros Hw. apply reads_many. eapply Forall_impl; [exact Hw|]. intros w Hr. by apply (reads_be 8).
Qed.

(** A section's bytes: [bits] a block, the palette, the words and the light. *)
Definition section_bytes (palette : list Z) (palette_bytes : list byte) (words : list Z) : list byte :=
  [Z_byte 4] ++ varint_bytes 5 (to_unsigned 32 (len palette)) ++ palette_bytes ++
  varint_bytes 5 (to_unsigned 32 (len words)) ++ longs_bytes words ++ light_bytes.

Lemma read_section_ok palette palette_bytes words states :
  len palette <= 16 -> reads (read_many read_varint (length palette)) palette_bytes palette ->
  len words = 256 -> Forall (fun w => 0 <= w < 2 ^ 64) words ->
  states = map (fun i => default 0 (palette !! Z.to_nat (unpack 4 words i))) (range_Z 0 4096) ->
  reads read_section (section_bytes palette palette_bytes words) states.
Proof.
  intros Hp Hpb Hl Hw ->. unfold read_section, section_bytes.
  eapply reads_bind; [apply reads_u8|]. change (byte_Z (Z_byte 4)) with 4. cbn [Z.leb Z.compare Pos.compare Pos.compare_cont].
  rewrite app_assoc. eapply reads_bind.
  { eapply reads_bind; [apply reads_varint; unfold i32_max; lia|]. rewrite Nat2Z.id. exact Hpb. }
  eapply reads_bind; [apply reads_varint; unfold i32_max; lia|]. rewrite Nat2Z.id.
  eapply reads_bind; [by apply longs_ok|].
  rewrite <- (app_nil_r light_bytes). eapply reads_bind; [exact (reads_bytes light_bytes)|apply reads_ret].
Qed.
End Read.

(** *** The states a mapping may give *)

Lemma bits_small n : 0 <= n <= 16 -> bits_per_block n = 4.
Proof. intros Hn. unfold bits_per_block. assert (Z.log2_up (Z.max 1 n) <= Z.log2_up 16) by (apply Z.log2_up_le_mono; lia). change (Z.log2_up 16) with 4 in *. lia. Qed.

Section States.
Context (ids : list Z) (ids_few : len ids <= 16) (ids_range : Forall (fun v => 0 <= v <= i32_max) ids) (ids_air : 0 ∈ ids).

Lemma palette_facts palette : NoDup palette -> (forall s, s ∈ palette -> s ∈ ids) ->
  len palette <= 16 /\ Forall (fun v => 0 <= v <= i32_max) palette.
Proof.
  intros Hnd Hin. split.
  - pose proof (NoDup_incl_length (l := palette) (l' := ids) ltac:(by apply NoDup_ListNoDup)) as Hl.
    unfold incl in Hl. setoid_rewrite <- list_elem_of_In in Hl. specialize (Hl Hin). lia.
  - rewrite Forall_forall in ids_range |- *. auto.
Qed.

Lemma paletted_ok `{Build} states : length states = 4096%nat -> (forall s, s ∈ states -> s ∈ ids) ->
  exists palette indices words palette_bytes,
    index_palette states [0] {[0 := 0]} = (palette, indices) /\ len palette <= 16 /\
    pack_compacted_u64s indices 4 = Ok words /\ len words = 256 /\ varint_list palette = Ok palette_bytes /\
    reads read_section (section_bytes palette palette_bytes words) states.
Proof.
  intros Hlen Hin. destruct (index_palette_ok states [0] {[0 := 0]}) as (more & indices & Ep & Hnd & Hmore & Hf).
  { apply NoDup_singleton. }
  { intros s i. rewrite lookup_singleton_Some, list_lookup_singleton_Some. lia. }
  set (palette := [0] ++ more) in *. destruct (palette_facts palette Hnd) as [Hp Hr].
  { intros s [->%list_elem_of_singleton|Hs]%elem_of_app; auto. }
  assert (Forall (fun i => 0 <= i < 2 ^ 4) indices) as Hi.
  { apply Forall_lookup. intros k i Hk. destruct (Forall2_lookup_r _ _ _ _ _ Hf Hk) as (s & _ & Hi0 & Hl).
    apply lookup_lt_Some in Hl. lia. }
  pose proof (Forall2_length _ _ _ Hf) as Hil. rewrite Hlen in Hil.
  destruct (pack_compacted_ok 4 indices ltac:(lia) Hi) as (words & Ew & Hwl & Hwr & Hu).
  rewrite <- Hil in Hwl. change (div_ceil (Z.of_nat 4096 * 4) 64) with 256 in Hwl.
  destruct (varint_list_ok palette Hr) as (pb & Epb & Hpb).
  exists palette, indices, words, pb. do 5 (split; [done|]). apply read_section_ok; [done..|].
  apply list_eq. intros k. destruct (decide (k < 4096)%nat) as [Hk|Hk].
  - pose proof (lookup_map_range (fun i => default 0 (palette !! Z.to_nat (unpack 4 words i))) 0 4096 (Z.of_nat k) ltac:(lia)) as Hd.
    rewrite Z.sub_0_r, Nat2Z.id in Hd. rewrite Hd. destruct (lookup_lt_is_Some_2 states k) as [s Es]; [lia|]. rewrite Es.
    destruct (Forall2_lookup_l _ _ _ _ _ Hf Es) as (i & Ek & _ & Hl). by rewrite (Hu k i Ek), Hl.
  - rewrite !lookup_ge_None_2; [done| |lia].
    pose proof (length_map_range (fun i => default 0 (palette !! Z.to_nat (unpack 4 words i))) 0 4096 ltac:(lia)). lia.
Qed.
End States.

(** ** A column *)

(** The sections a column sends, [P y], and their states, read in the order of the mask's bits. *)
Definition sent_at (chunk : ChunkColumn) (y : Z) : bool :=
  match sections chunk !! y with Some section => section_sent y section | None => false end.
Definition mask_of (ys : list Z) (mask : Z) : Z := foldl (fun mask y => Z.lor mask (Z.shiftl 1 y)) mask ys.

Lemma mask_of_bit ys : forall mask y, 0 <= y -> Forall (fun y => 0 <= y) ys ->
  Z.testbit (mask_of ys mask) y = bool_decide (y ∈ ys) || Z.testbit mask y.
Proof.
  induction ys as [|k ys IH]; intros mask y Hy Hys; [done|]. apply Forall_cons in Hys as [Hk Hys].
  cbn [mask_of foldl]. fold (mask_of ys (Z.lor mask (Z.shiftl 1 k))). rewrite IH by done.
  rewrite Z.lor_spec, Z.shiftl_spec by done. replace (Z.testbit 1 (y - k)) with (bool_decide (y = k)).
  - rewrite (bool_decide_ext _ _ (elem_of_cons ys y k)), bool_decide_or.
    by destruct (bool_decide (y = k)), (bool_decide (y ∈ ys)), (Z.testbit mask y).
  - case_bool_decide as E; [subst; by rewrite Z.sub_diag|]. symmetry. destruct (Z.ltb_spec (y - k) 0).
    + by apply Z.testbit_neg_r.
    + change 1 with (2 ^ 0). apply Z.pow2_bits_false. lia.
Qed.
Lemma mask_of_range ys mask n : 0 <= n -> Forall (fun y => 0 <= y < n) ys -> 0 <= mask < 2 ^ n -> 0 <= mask_of ys mask < 2 ^ n.
Proof.
  intros Hn. revert mask. induction ys as [|k ys IH]; intros mask Hys Hm; [done|]. apply Forall_cons in Hys as [Hk Hys].
  apply IH; [done|]. rewrite Z.shiftl_mul_pow2, Z.mul_1_l by lia.
  assert (2 ^ k < 2 ^ n) by (apply Z.pow_lt_mono_r; lia). split; [apply Z.lor_nonneg; lia|].
  assert (0 < 2 ^ k) by lia. destruct (decide (Z.lor mask (2 ^ k) = 0)) as [->|Hne]; [lia|].
  assert (0 <= Z.lor mask (2 ^ k)) by (apply Z.lor_nonneg; lia). apply Z.log2_lt_pow2; [lia|].
  rewrite Z.log2_lor by lia. rewrite Z.log2_pow2 by lia. destruct (decide (mask = 0)) as [->|]; [cbn; lia|].
  assert (Z.log2 mask < n) by (apply Z.log2_lt_pow2; lia). lia.
Qed.

Section Column.
Context (chunk : ChunkColumn).
Definition sent (ys : list Z) : list Z := filter (fun y => Is_true (sent_at chunk y)) ys.

Lemma sections_loop_ok (section_data : ChunkSection -> Bytes) (D : Z -> list byte) ys : forall mask bytes,
  (forall y section, sections chunk !! y = Some section -> section_sent y section = true -> section_data section = Ok (D y)) ->
  sections_loop section_data (omap (fun y => pair y <$> sections chunk !! y) ys) mask bytes =
    Ok (mask_of (sent ys) mask, bytes ++ mjoin (map D (sent ys))).
Proof.
  intros mask bytes Hd. revert mask bytes. induction ys as [|y ys IH]; intros mask bytes; cbn [omap list_omap]; [by rewrite app_nil_r|].
  unfold sent in *. rewrite filter_cons. destruct (decide (sent_at chunk y)) as [Ht|Ht]; unfold sent_at in Ht;
    destruct (sections chunk !! y) as [section|] eqn:Es; try done; cbn [fmap option_fmap option_map sections_loop].
  - destruct (section_sent y section) eqn:Et; [|done]. rewrite (Hd _ _ Es Et). cbn [negb mbind result_bind].
    rewrite IH. cbn [map mjoin list_join mask_of foldl]. by rewrite app_assoc.
  - destruct (section_sent y section); [by destruct Ht|]. apply IH.
Qed.
(** The mask's bits from 0 to 15 are the sections sent, in the order in which they are. *)
Lemma range_sorted from to : StronglySorted Z.le (range_Z from to).
Proof.
  unfold range_Z. generalize (Z.to_nat (to - from)). intros n. generalize 0%nat. induction n as [|n IH]; intros k; [constructor|].
  cbn [seq map]. constructor; [apply IH|]. apply Forall_forall. intros z Hz. apply list_elem_of_fmap in Hz as (j & -> & Hj).
  apply elem_of_seq in Hj. lia.
Qed.
Lemma NoDup_range from to : NoDup (range_Z from to).
Proof. unfold range_Z. apply NoDup_fmap_2; [intros ?? ?; lia|apply NoDup_seq]. Qed.
Lemma elem_of_range from to i : i ∈ range_Z from to <-> from <= i < to.
Proof.
  unfold range_Z. rewrite list_elem_of_fmap. setoid_rewrite elem_of_seq. split; [intros (j & -> & Hj); lia|].
  intros Hi. exists (Z.to_nat (i - from)). lia.
Qed.
Lemma sorted_sent l : StronglySorted Z.le l -> StronglySorted Z.le (sent l).
Proof.
  unfold sent. induction 1 as [|y l Hl IH Hy]; [constructor|]. rewrite filter_cons. case_decide; [|done].
  constructor; [done|]. rewrite Forall_forall in Hy |- *. intros z Hz%list_elem_of_filter. apply Hy, Hz.
Qed.
Lemma sent_spec y : sent_at chunk y = true <->
  exists section, sections chunk !! y = Some section /\ 0 <= y < 16 /\ section_is_empty section = false.
Proof.
  unfold sent_at, section_sent. destruct (sections chunk !! y) as [section|]; [|naive_solver].
  rewrite !andb_true_iff, negb_true_iff, Z.leb_le, Z.ltb_lt. naive_solver.
Qed.
Lemma sent_ids : sent (sorted_ids (dom (sections chunk))) = sent (range_Z 0 16).
Proof.
  apply (StronglySorted_unique Z.le).
  - apply sorted_sent, StronglySorted_merge_sort; apply _.
  - apply sorted_sent, range_sorted.
  - apply NoDup_Permutation.
    + apply NoDup_filter. unfold sorted_ids. rewrite merge_sort_Permutation. apply NoDup_elements.
    + apply NoDup_filter, NoDup_range.
    + intros y. unfold sent. rewrite !list_elem_of_filter, elem_of_section_ids, elem_of_range, Is_true_true, sent_spec, elem_of_dom.
      naive_solver.
Qed.

(** A client reads a section for each bit of the mask. *)
Fixpoint read_sections `{Build} (ys : list Z) (mask : Z) : Read (list (Z * list Z)) :=
  match ys with
  | [] => mret []
  | y :: ys =>
      if Z.testbit mask y then
        states ← read_section; rest ← read_sections ys mask; mret ((y, states) :: rest)
      else read_sections ys mask
  end.
Lemma read_sections_ok `{Build} (f : BlockState -> Z) (D : Z -> list byte) ys mask : Forall (fun y => Z.testbit mask y = sent_at chunk y) ys ->
  (forall y section, sections chunk !! y = Some section -> section_sent y section = true ->
    reads read_section (D y) (dense f 0 section)) ->
  reads (read_sections ys mask) (mjoin (map D (sent ys)))
    (omap (fun y => pair y <$> (dense f 0 <$> sections chunk !! y)) (sent ys)).
Proof.
  intros Hm Hd. induction Hm as [|y ys Hy Hys IH]; [apply reads_ret|]. unfold sent in *. cbn [read_sections]. rewrite filter_cons, Hy.
  destruct (decide (sent_at chunk y)) as [Ht|Ht].
  - apply Is_true_true in Ht as Et. rewrite Et. apply sent_spec in Et as (section & Es & Hr & He). cbn [map mjoin list_join omap list_omap].
    rewrite Es. cbn [fmap option_fmap option_map]. eapply reads_bind; [eapply Hd; [exact Es|]|].
    + unfold section_sent. rewrite He. lia.
    + by apply (reads_bind_ret _ (cons (y, dense f 0 section))).
  - destruct (sent_at chunk y); [by destruct Ht|]. done.
Qed.
End Column.

Definition read_chunk `{Build} (mask : Z) (include_biomes : bool) : Read (list (Z * list Z) * list byte) :=
  column ← read_sections (range_Z 0 16) mask;
  biomes ← (if include_biomes then read_bytes 256 else mret []);
  mret (column, biomes).
(** The state a client shows at a block; what is in no section is air. *)
Definition client_block (column : list (Z * list Z)) (x y z : Z) : Z :=
  match List.find (fun entry => entry.1 =? y / 16) column with
  | Some (_, states) => default 0 (states !! Z.to_nat (section_index x (y mod 16) z))
  | None => 0
  end.

Section Version.
Context `{Build} (section_data : ChunkSection -> Bytes) (f : BlockState -> Z).
Context (section_ok : forall section, section_in_range section ->
  exists bytes, section_data section = Ok bytes /\ reads read_section bytes (dense f 0 section)).

Lemma find_section (g : Z -> option (list Z)) y : forall ys, NoDup ys ->
  List.find (fun entry : Z * list Z => entry.1 =? y) (omap (fun y => pair y <$> g y) ys) =
    if decide (y ∈ ys) then pair y <$> g y else None.
Proof.
  induction ys as [|k ys IH]; intros Hnd; [done|]. apply NoDup_cons in Hnd as [Hk Hnd]. cbn [omap list_omap].
  specialize (IH Hnd). destruct (decide (k = y)) as [->|Hne].
  - rewrite (decide_True (P := y ∈ y :: ys)) by constructor. destruct (g y) as [states|]; cbn [fmap option_fmap option_map List.find fst].
    + by rewrite Z.eqb_refl.
    + by rewrite IH, decide_False.
  - rewrite (decide_ext (y ∈ k :: ys) (y ∈ ys)) by (rewrite elem_of_cons; naive_solver).
    destruct (g k) as [states|]; cbn [fmap option_fmap option_map List.find fst]; [|exact IH].
    by rewrite (proj2 (Z.eqb_neq _ _)) by done.
Qed.
Definition column_states (chunk : ChunkColumn) : list (Z * list Z) :=
  omap (fun y => pair y <$> (dense f 0 <$> sections chunk !! y)) (sent chunk (range_Z 0 16)).
Lemma column_block chunk x y z : 0 <= x < 16 -> 0 <= z < 16 -> 0 <= y < 256 ->
  client_block (column_states chunk) x y z = default 0 (f <$> column_get_block chunk x y z).
Proof.
  intros Hx Hz Hy. unfold client_block, column_states, column_get_block, SECTION_HEIGHT, section_local_y.
  pose proof (Z.mod_pos_bound y 16 ltac:(lia)) as Hm. pose proof (Z.div_mod y 16 ltac:(lia)) as Hdm.
  rewrite (find_section (fun y => dense f 0 <$> sections chunk !! y)) by (apply NoDup_filter, NoDup_range).
  case_decide as Hs.
  - apply list_elem_of_filter in Hs as [Ht%Is_true_true _]. apply sent_spec in Ht as (section & -> & _).
    cbn [fmap option_fmap option_map mbind option_bind]. unfold dense, section_get_block, SECTION_HEIGHT.
    rewrite section_index_eq by lia.
    pose proof (lookup_map_range (fun j => default 0 (f <$> blocks section !! j)) 0 4096 (y mod 16 * 256 + z * 16 + x) ltac:(lia)) as Hd.
    rewrite Z.sub_0_r in Hd. by rewrite Hd.
  - destruct (sections chunk !! (y / 16)) as [section|] eqn:Es; cbn [mbind option_bind]; [|done].
    rewrite section_empty_get; [done|]. apply not_false_iff_true. intros He. apply Hs, list_elem_of_filter.
    split; [|apply elem_of_range; lia]. apply Is_true_true, sent_spec. exists section. split; [done|]. split; [lia|done].
Qed.

Lemma column_read chunk include_biomes :
  map_Forall (fun _ => section_in_range) (sections chunk) -> len (biomes chunk) = 256 ->
  exists mask bytes column,
    build_chunk_data section_data chunk include_biomes = Ok (mask, bytes) /\ 0 <= mask < 2 ^ 16 /\
    reads (read_chunk mask include_biomes) bytes (column, if include_biomes then map Z_byte (biomes chunk) else []) /\
    forall x y z, 0 <= x < 16 -> 0 <= z < 16 -> 0 <= y < 256 ->
      client_block column x y z = default 0 (f <$> column_get_block chunk x y z).
Proof.
  intros Hr Hb.
  set (D := fun y => match sections chunk !! y with
    | Some section => match section_data section with Ok bytes => bytes | _ => [] end | None => [] end).
  assert (forall y section, sections chunk !! y = Some section ->
    section_data section = Ok (D y) /\ reads read_section (D y) (dense f 0 section)) as HD.
  { intros y section Es. unfold D. rewrite Es. by destruct (section_ok section (Hr _ _ Es)) as (bytes & -> & ?). }
  set (ys := sent chunk (range_Z 0 16)). exists (mask_of ys 0), (mjoin (map D ys) ++ if include_biomes then map Z_byte (biomes chunk) else []), (column_states chunk).
  assert (Forall (fun y => 0 <= y < 16) ys) as Hys.
  { apply Forall_forall. intros y Hy. apply list_elem_of_filter in Hy as [_ Hy]. by apply elem_of_range. }
  split; [|split; [apply mask_of_range; [lia|done|lia]|split; [|intros; by apply column_block]]].
  - unfold build_chunk_data, ordered_sections. rewrite (sections_loop_ok chunk section_data D), sent_ids; [done|].
    intros y section Es _. by apply HD.
  - unfold read_chunk. eapply reads_bind.
    + apply read_sections_ok; [|intros y section Es _; by apply HD].
      apply Forall_forall. intros y Hy%elem_of_range. rewrite mask_of_bit; [|lia|eapply Forall_impl; [exact Hys|]; cbn; lia].
      rewrite Z.bits_0, orb_false_r. unfold ys, sent. destruct (sent_at chunk y) eqn:Et; [apply bool_decide_true|apply bool_decide_false].
      * apply list_elem_of_filter. rewrite Et, elem_of_range. done.
      * rewrite list_elem_of_filter, Et. by intros [[] _].
    + apply (reads_bind_ret _ (pair _)). destruct include_biomes; [|apply reads_ret].
      pose proof (reads_bytes (map Z_byte (biomes chunk))) as Hbb. rewrite length_map, Hb in Hbb. exact Hbb.
Qed.
End Version.

(** ** The two versions *)

Definition legacy_state_ids : list Z := [0; 16; 32; 48; 64; 80; 112; 192; 320; 384; 720; 928; 864; 976].
Definition flattened_state_ids : list Z := [0; 1; 8; 10; 14; 15; 33; 66; 230; 245; 1125; 1729; 3051; 3068].

Ltac in_list := repeat (apply elem_of_cons; ((left; reflexivity) || right)).
Lemma legacy_state_known state : legacy_block_state_id state ∈ legacy_state_ids.
Proof. unfold legacy_block_state_id, legacy_block, by_key. repeat case_bool_decide; cbn; in_list. Qed.
Lemma flattened_state_known state : flattened_block_state_id_1_13_2 state ∈ flattened_state_ids.
Proof. unfold flattened_block_state_id_1_13_2, by_key. repeat case_bool_decide; cbn; in_list. Qed.

Lemma elem_of_dense (f : BlockState -> Z) (ids : list Z) section : 0 ∈ ids -> (forall state, f state ∈ ids) ->
  forall s, s ∈ dense f 0 section -> s ∈ ids.
Proof.
  intros H0 Hf s Hs. unfold dense in Hs. apply list_elem_of_fmap in Hs as (j & -> & _).
  destruct (blocks section !! j); [apply Hf|done].
Qed.

Lemma section_1_12_ok `{Build} section : section_in_range section ->
  exists bytes, section_data_1_12 section = Ok bytes /\ reads read_section bytes (dense legacy_block_state_id 0 section).
Proof.
  intros Hr. unfold section_data_1_12. rewrite (dense_states_ok _ legacy_block_state_id) by done. cbn [mbind result_bind].
  destruct (paletted_ok legacy_state_ids ltac:(cbn; lia) ltac:(unfold i32_max; repeat constructor; lia) ltac:(in_list)
    (dense legacy_block_state_id 0 section)) as (palette & indices & words & pb & -> & Hp & Ew & Hl & -> & Hread).
  { apply length_dense. }
  { apply elem_of_dense; [in_list|apply legacy_state_known]. }
  unfold u8_ok. rewrite (proj2 (andb_true_iff _ _)) by (unfold u8_max; lia). cbn [mbind result_bind].
  rewrite bits_small, Ew by lia. cbn [mbind result_bind]. rewrite !varint_vec_ok by (unfold i32_max; lia).
  by eexists.
Qed.
Lemma section_1_13_2_ok `{Build} section : section_in_range section ->
  exists bytes, section_data_1_13_2 section = Ok bytes /\
    reads read_section bytes (dense flattened_block_state_id_1_13_2 0 section).
Proof.
  intros Hr. unfold section_data_1_13_2. rewrite (dense_states_ok _ flattened_block_state_id_1_13_2) by done. cbn [mbind result_bind].
  destruct (paletted_ok flattened_state_ids ltac:(cbn; lia) ltac:(unfold i32_max; repeat constructor; lia) ltac:(in_list)
    (dense flattened_block_state_id_1_13_2 0 section)) as (palette & indices & words & pb & -> & Hp & Ew & Hl & -> & Hread).
  { apply length_dense. }
  { apply elem_of_dense; [in_list|apply flattened_state_known]. }
  unfold u8_ok. rewrite (proj2 (andb_true_iff _ _)) by (unfold u8_max; lia). cbn [mbind result_bind].
  rewrite bits_small by lia. cbn [Z.ltb Z.compare Pos.compare Pos.compare_cont]. rewrite Ew. cbn [mbind result_bind].
  rewrite !varint_vec_ok by (unfold i32_max; lia). cbn [mbind result_bind]. eexists. split; [done|].
  unfold section_bytes in Hread. by rewrite <- app_assoc.
Qed.

Definition column_versions :
    list ((ChunkColumn -> bool -> result ProtocolError (Z * list byte)) * (BlockState -> Z)) :=
  [(build_chunk_data_1_12, legacy_block_state_id); (build_chunk_data_1_13_2, flattened_block_state_id_1_13_2)].


(** ** Witness *)

#[local] Instance section_in_range_dec section : Decision (section_in_range section).
Proof. unfold section_in_range. apply _. Defined.
Definition sample_blocks (y : Z) : gmap Z BlockState :=
  list_to_map (map (fun i => (i, block_state_new (if i mod 3 =? 0 then catalog.STONE else catalog.GLASS))) (range_Z 0 40)).
Definition sample_column : ChunkColumn :=
  mkColumn (mkChunkPos 1 2) {[0 := mkSection 0 (sample_blocks 0); 3 := mkSection 3 {[4095 := block_state_new catalog.CHEST]};
    -1 := mkSection (-1) (sample_blocks 1)]} (replicate 256 1).
