(* ===== verification/JavaPlay.v ===== *)
(** * The play phase of the Java editions: what the versions share
    ([src/plugins/protocol/je-5], [je-47], [je-340], [je-404])

    Each version is a crate of its own with the same functions, which differ in packet numbers,
    in the form of slots and in some fields.  Here is what they have in common; [Je5], [Je47],
    [Je340] and [Je404] are the crates.  A decoder works in the monad of [PacketReader]; one that
    changes the session store answers the store it leaves.  An encoder answers [Panic] where an
    [expect] fails. *)

From Stdlib Require Import Floats.SpecFloat.
From S2P Require Import Prelude Bytes VoxelModel VoxelItems VoxelContent VoxelState VoxelEvents ProtoPacket JavaSlots JavaSession JavaChunks.

(** [expect]: [None] is a panic. *)
Definition expect {S A} (o : option A) : M ProtocolError S A :=
  match o with Some a => mret a | None => panic end.
(** [T::try_from(v).map_err(..)?] for a target with the bounds [lo] and [hi]. *)
Definition try_from {S} (lo hi : Z) (message : string) (v : Z) : M ProtocolError S Z :=
  if (lo <=? v) && (v <=? hi) then mret v else throw (InvalidPacket message).
Definition i8_range : Z * Z := (-128, 127).

(** ** Decoding *)

Section Decoding.
Context `{Build} (spec : InventoryProtocolSpec).
Implicit Types (store : JavaProtocolSessionStore) (session : ProtocolSessionSnapshot).

Definition runtime_gameplay (command : GameplayCommand) : RuntimeCommand := RuntimeCore (Gameplay command).
Definition i8_to_u8 (v : Z) : Z := if v <? 0 then 0 else v.
Definition move_intent (player_id : PlayerId) (position : option Vec3) (yaw pitch : option spec_float)
    (on_ground : bool) : RuntimeCommand := runtime_gameplay (MoveIntent player_id position yaw pitch on_ground).

Definition read_flying (player_id : PlayerId) : Read RuntimeCommand :=
  on_ground ← read_bool; mret (move_intent player_id None None None on_ground).
Definition read_look (player_id : PlayerId) : Read RuntimeCommand :=
  yaw ← read_f32; pitch ← read_f32; on_ground ← read_bool;
  mret (move_intent player_id None (Some yaw) (Some pitch) on_ground).
(** [stance]: whether the version sends a second height. *)
Definition read_stance (stance : bool) : Read unit := if stance then _ ← read_f64; mret tt else mret tt.
Definition read_position (stance : bool) (player_id : PlayerId) : Read RuntimeCommand :=
  x ← read_f64; read_stance stance ;; y ← read_f64; z ← read_f64; on_ground ← read_bool;
  mret (move_intent player_id (Some (mkVec3 x y z)) None None on_ground).
Definition read_position_look (stance : bool) (player_id : PlayerId) : Read RuntimeCommand :=
  x ← read_f64; read_stance stance ;; y ← read_f64; z ← read_f64; yaw ← read_f32; pitch ← read_f32;
  on_ground ← read_bool;
  mret (move_intent player_id (Some (mkVec3 x y z)) (Some yaw) (Some pitch) on_ground).
Definition read_held_slot (player_id : PlayerId) : Read RuntimeCommand :=
  slot ← read_i16; mret (runtime_gameplay (SetHeldSlot player_id slot)).
Definition read_close_container (player_id : PlayerId) : Read RuntimeCommand :=
  window_id ← read_u8; mret (RuntimeCore (CommandCloseContainer player_id window_id)).
Definition read_packed_position : Read BlockPos :=
  packed ← read_i64; expect (unpack_block_position packed).
(** The digging packet since 1.8. *)
Definition read_digging (player_id : PlayerId) : Read RuntimeCommand :=
  raw_status ← read_varint; status ← try_from 0 u8_max "dig status out of range" raw_status;
  position ← read_packed_position;
  raw_face ← read_i8;
  mret (runtime_gameplay (DigBlock player_id position status (from_protocol_byte (to_unsigned 8 raw_face)))).
Definition read_client_command (player_id : PlayerId) : Read RuntimeCommand :=
  raw ← read_varint; action_id ← try_from (-128) 127 "client command out of range" raw;
  mret (RuntimeSession (ClientStatus player_id action_id)).

Definition read_creative_slot (player_id : PlayerId) : Read (option RuntimeCommand) :=
  slot ← read_i16; stack ← read_slot (spec_slot spec);
  target ← expect (inventory_slot java_player_container_kind (spec_layout spec) slot);
  mret ((fun slot => runtime_gameplay (CreativeInventorySet player_id slot stack)) <$> target).

Definition decode_interaction_hand (hand : Z) : Read InteractionHand :=
  match hand with
  | 0 => mret HandMain
  | 1 => mret HandOffhand
  | _ => throw (InvalidPacket "invalid interaction hand")
  end.

(** The target of a click: [resolve_container(..).and_then(inventory_slot).map_or(Unsupported)]. *)
Definition click_target store session (window_id raw_slot raw_button mode : Z) : Read InventoryClickTarget :=
  if negb (mode =? 0) || negb ((raw_button =? 0) || (raw_button =? 1)) then mret TargetUnsupported
  else if raw_slot =? -999 then mret TargetOutside
  else
    match resolve_container store session window_id with
    | None => mret TargetUnsupported
    | Some container =>
        slot ← expect (inventory_slot container (spec_layout spec) raw_slot);
        mret match slot with Some slot => TargetSlot slot | None => TargetUnsupported end
    end.
Definition read_click_window (read_mode : Read Z) store session (player_id : PlayerId) : Read (option RuntimeCommand) :=
  window_id ← read_u8; raw_slot ← read_i16; raw_button ← read_i8; action_number ← read_i16;
  mode ← read_mode; clicked_item ← read_slot (spec_slot spec);
  let button := if raw_button =? 1 then RightButton else LeftButton in
  target ← click_target store session window_id raw_slot raw_button mode;
  let transaction := mkTransaction window_id action_number in
  if should_gate_click store session transaction then mret None
  else mret (Some (RuntimeCore
    (CommandInventoryClick player_id transaction target button (StrictSlotEcho clicked_item)))).
Definition read_confirm_transaction store session (player_id : PlayerId) :
    Read (RuntimeCommand * JavaProtocolSessionStore) :=
  window_id ← read_u8; action_number ← read_i16; accepted ← read_bool;
  let transaction := mkTransaction window_id action_number in
  mret (RuntimeSession (InventoryTransactionAck player_id transaction accepted),
        observe_transaction_ack session transaction accepted store).

(** [let player_id = session.player_id.ok_or(..)?], and the packet number. *)
Definition decode_play_with session (frame : list byte)
    (body : PlayerId -> Z -> Read (option RuntimeCommand * JavaProtocolSessionStore)) :
    result ProtocolError (option RuntimeCommand * JavaProtocolSessionStore) :=
  match ps_player_id session with
  | None => Err (InvalidPacket "play session is missing player id")
  | Some player_id => read_frame (packet_id ← read_varint; body player_id packet_id) frame
  end.
(** [Ok(Some(command?))] and [Ok(command?)]: the store is as it was. *)
Definition some_command store (m : Read RuntimeCommand) : Read (option RuntimeCommand * JavaProtocolSessionStore) :=
  command ← m; mret (Some command, store).
Definition any_command store (m : Read (option RuntimeCommand)) : Read (option RuntimeCommand * JavaProtocolSessionStore) :=
  command ← m; mret (command, store).
Definition ack_command (m : Read (RuntimeCommand * JavaProtocolSessionStore)) :
    Read (option RuntimeCommand * JavaProtocolSessionStore) :=
  '(command, store) ← m; mret (Some command, store).
End Decoding.

(** ** Encoding *)

(** [container_property_id] *)
Definition container_property_id (property : string) : option Z :=
  by_key property
    [("canonical:furnace.burn_left", 0); ("canonical:furnace.burn_max", 1);
     ("canonical:furnace.cook_progress", 2); ("canonical:furnace.cook_total", 3)].

Definition ascii_lowercase_byte (b : byte) : byte :=
  if (65 <=? byte_Z b) && (byte_Z b <=? 90) then Z_byte (byte_Z b + 32) else b.
Definition to_ascii_lowercase (s : string) : string := bytes_string (map ascii_lowercase_byte (string_bytes s)).

(** [0.05_f32], [0.1_f32] *)
Definition flying_speed : spec_float := f32_of_bits 0x3d4ccccd.
Definition walking_speed : spec_float := f32_of_bits 0x3dcccccd.

Section Encoding.
Context `{Build} `{JavaEnv} (spec : InventoryProtocolSpec).

(** An [expect] on a value that is then written. *)
Definition write_expected {A} (write : A -> Write unit) (o : option A) : Write unit := v ← expect o; write v.
Definition write_fixed_point (v : spec_float) : Write unit := write_expected write_i32 (to_fixed_point v).
Definition write_angle (v : spec_float) : Write unit := write_expected write_i8 (to_angle_byte v).
Definition write_fixed_vec (v : Vec3) : Write unit :=
  write_fixed_point (vx v) ;; write_fixed_point (vy v) ;; write_fixed_point (vz v).
Definition write_vec (v : Vec3) : Write unit := write_f64 (vx v) ;; write_f64 (vy v) ;; write_f64 (vz v).
(** [i32::try_from(n).map_err(..)?], then written as a varint. *)
Definition write_count (message : string) (n : Z) : Write unit :=
  v ← try_from (- i32_max - 1) i32_max message n; write_varint v.

Definition dimension_number (d : DimensionId) : Z := match d with Overworld => 0 end.
Definition time_update (id age time : Z) : Bytes := written (write_varint id ;; write_i64 age ;; write_i64 time).
Definition held_item_change (id slot : Z) : Bytes :=
  written (write_varint id ;; write_expected write_i8 (if slot <=? 127 then Some slot else None)).
Definition player_abilities (id : Z) (creative_mode : bool) : Bytes :=
  written (write_varint id ;; write_u8 (if creative_mode then 0x0d else 0x00) ;;
    write_f32 flying_speed ;; write_f32 walking_speed).
Definition set_slot_packet (id window_id slot : Z) (stack : option ItemStack) : Bytes :=
  written (write_varint id ;; write_i8 window_id ;; write_i16 slot ;; write_slot stack (spec_slot spec)).
Definition close_window (id window_id : Z) : Bytes := written (write_varint id ;; write_u8 window_id).
Definition confirm_transaction (id window_id action_number : Z) (accepted : bool) : Bytes :=
  written (write_varint id ;; write_u8 window_id ;; write_i16 action_number ;; write_bool accepted).
Definition window_property (id window_id property_id value : Z) : Bytes :=
  written (write_varint id ;; write_u8 window_id ;; write_i16 property_id ;; write_i16 value).
(** [stage.map_or(-1, |stage| i8::try_from(stage).unwrap_or(9))] *)
Definition stage_number (stage : option Z) : Z :=
  match stage with Some s => if s <=? 127 then s else 9 | None => -1 end.
Definition window_type_bytes (container : string) : Write unit := write_expected write_string (window_type container).

(** *** Since 1.8 *)

Definition join_game (id : Z) (write_dimension : Z -> Write unit) (entity_id : EntityId) (meta : WorldMeta)
    (player : PlayerSnapshot) : Bytes :=
  written (write_varint id ;; write_i32 entity_id ;; write_u8 (wm_game_mode meta) ;;
    write_dimension (dimension_number (dimension player)) ;; write_u8 (wm_difficulty meta) ;;
    write_u8 (join_game_player_limit (wm_max_players meta)) ;;
    write_string (to_ascii_lowercase (level_type meta)) ;; write_bool false).
Definition spawn_position (id : Z) (spawn : BlockPos) : Bytes :=
  written (write_varint id ;; write_i64 (pack_block_position spawn)).
Definition update_health (id : Z) (player : PlayerSnapshot) : Bytes :=
  written (write_varint id ;; write_f32 (health player) ;; write_varint (food player) ;;
    write_f32 (food_saturation player)).
Definition entity_head_rotation (id : Z) (entity_id : EntityId) (yaw : spec_float) : Bytes :=
  written (write_varint id ;; write_varint entity_id ;; write_angle yaw).
Definition dropped_item_metadata (id : Z) (write_metadata : Z -> ItemStack -> SlotEncoding -> Write unit) (index : Z)
    (entity_id : EntityId) (item : DroppedItemSnapshot) : Bytes :=
  written (write_varint id ;; write_varint entity_id ;; write_metadata index (di_item item) (spec_slot spec)).
Definition destroy_entities (id : Z) (entity_ids : list EntityId) : Bytes :=
  written (write_varint id ;; write_count "too many entities to destroy in one packet" (len entity_ids) ;;
    for_each write_varint entity_ids).
Definition block_change (id : Z) (state_id : BlockState -> Z) (position : BlockPos) (block : BlockState) : Bytes :=
  written (write_varint id ;; write_i64 (pack_block_position position) ;; write_varint (state_id block)).
Definition block_break_animation (id : Z) (entity_id : EntityId) (position : BlockPos) (stage : option Z) : Bytes :=
  written (write_varint id ;; write_varint entity_id ;; write_i64 (pack_block_position position) ;;
    write_i8 (stage_number stage)).
(** [modern]: without the flag at the end. *)
Definition open_window (id : Z) (modern : bool) (window_id : Z) (container title : string) : Bytes :=
  written (write_varint id ;; write_u8 window_id ;; window_type_bytes container ;;
    write_string (format_text_component title) ;; write_expected write_u8 (unique_slot_count container) ;;
    if modern then mret tt else write_bool true).
Definition window_items_packet (id window_id : Z) (container : string) (contents : InventoryWindowContents) : Bytes :=
  written (
    items ← expect (window_items container (spec_layout spec) contents);
    write_varint id ;; write_u8 window_id ;;
    (count ← try_from (-32768) 32767 "too many inventory slots" (len items); write_i16 count) ;;
    for_each (fun item => write_slot item (spec_slot spec)) items).

(** *** Since 1.12 *)

Definition position_and_look_1_12 (id : Z) (player : PlayerSnapshot) : Bytes :=
  written (write_varint id ;; write_vec (position player) ;; write_f32 (yaw player) ;; write_f32 (pitch player) ;;
    write_i8 0 ;; write_varint 0).
Definition keep_alive_1_12 (id keep_alive_id : Z) : Bytes := written (write_varint id ;; write_i64 keep_alive_id).
Definition named_entity_spawn_1_12 (id : Z) (entity_id : EntityId) (player : PlayerSnapshot) : Bytes :=
  written (write_varint id ;; write_varint entity_id ;; write_bytes (uuid_as_bytes (p_id player)) ;;
    write_vec (position player) ;; write_angle (yaw player) ;; write_angle (pitch player) ;;
    write_empty_metadata_1_12).
Definition entity_teleport_1_12 (id : Z) (entity_id : EntityId) (player : PlayerSnapshot) : Bytes :=
  written (write_varint id ;; write_varint entity_id ;; write_vec (position player) ;; write_angle (yaw player) ;;
    write_angle (pitch player) ;; write_bool (on_ground player)).
Definition dropped_item_uuid (entity_id : EntityId) : list byte :=
  uuid_new_v3 (to_be_bytes 4 (to_unsigned 32 entity_id)).
Definition dropped_item_spawn_1_12 (id : Z) (entity_id : EntityId) (item : DroppedItemSnapshot) : Bytes :=
  written (write_varint id ;; write_varint entity_id ;; write_bytes (dropped_item_uuid entity_id) ;; write_u8 2 ;;
    write_vec (di_position item) ;; write_i8 0 ;; write_i8 0 ;; write_i32 1 ;; write_i16 0 ;; write_i16 0 ;;
    write_i16 0).
Definition chunk_1_12 (id : Z) (build : ChunkColumn -> bool -> result ProtocolError (Z * list byte))
    (chunk : ChunkColumn) : Bytes :=
  '(bit_map, chunk_data) ← build chunk true;
  written (write_varint id ;; write_i32 (cx (col_pos chunk)) ;; write_i32 (cz (col_pos chunk)) ;; write_bool true ;;
    write_varint bit_map ;; write_count "chunk payload too large" (len chunk_data) ;; write_bytes chunk_data ;;
    write_varint 0).

(** *** The profiles *)

(** [chunks.iter().map(encode_chunk).collect()] *)
Fixpoint each_chunk (encode : ChunkColumn -> Bytes) (chunks : list ChunkColumn) :
    result ProtocolError (list (list byte)) :=
  match chunks with
  | [] => Ok []
  | chunk :: chunks => frame ← encode chunk; frames ← each_chunk encode chunks; Ok (frame :: frames)
  end.
(** [Ok(vec![a?, b?, ..])] *)
Fixpoint all_frames (frames : list Bytes) : result ProtocolError (list (list byte)) :=
  match frames with
  | [] => Ok []
  | frame :: frames => f ← frame; rest ← all_frames frames; Ok (f :: rest)
  end.
Definition property_changed (encode : Z -> Z -> Z -> Bytes) (window_id : Z) (property : string) (value : Z) : Bytes :=
  match container_property_id property with
  | None => Ok []
  | Some property_id => encode window_id property_id value
  end.
Definition slot_changed (encode : Z -> Z -> option ItemStack -> Bytes) (window_id : Z) (container : string)
    (slot : InventorySlot) (stack : option ItemStack) : result ProtocolError (option (list byte)) :=
  raw ← expect_ok (protocol_slot container (spec_layout spec) slot);
  match raw with
  | None => Ok None
  | Some raw => frame ← encode (signed_window_id window_id) raw stack; Ok (Some frame)
  end.
End Encoding.

(** ** Reading is total *)

Lemma total_then `{Build} {A B} n (m : Read A) (f : A -> Read B) :
  0 <= n -> total n m -> (forall a, total 0 (f a)) -> total 0 (m ≫= f).
Proof. intros Hn Hm Hf. eapply total_bind; [exact Hn| |exact Hm|exact Hf]. lia. Qed.
(** Reads one field after another. *)
Ltac read_fields_total :=
  repeat first
    [ apply total_ret | apply total_throw
    | apply (total_weaken 1); [lia|apply total_throw]
    | eapply total_then; [|solve [eauto with total]|intros ?]; [lia|]
    | apply (total_then 0); [lia| |intros ?]
    | case_match ].

Lemma sign_extend_range v bits : 0 < bits < 64 ->
  - 2 ^ (bits - 1) <= sign_extend (Z.land v (Z.ones bits)) bits < 2 ^ (bits - 1).
Proof.
  intros Hb. rewrite Z.land_ones by lia. pose proof (Z.mod_pos_bound v (2 ^ bits) ltac:(lia)) as Hm.
  set (u := v mod 2 ^ bits) in *. assert (2 ^ bits = 2 * 2 ^ (bits - 1)) as E by (rewrite <- Z.pow_succ_r by lia; f_equal; lia).
  assert (to_signed bits u mod 2 ^ bits = u) as Eu.
  { unfold to_signed. destruct (_ <? _); [by apply Z.mod_small|].
    replace (u - 2 ^ bits) with (u + (-1) * 2 ^ bits) by lia. rewrite Z.mod_add by lia. by apply Z.mod_small. }
  assert (- 2 ^ (bits - 1) <= to_signed bits u < 2 ^ (bits - 1)) as Hr
    by (unfold to_signed; destruct (Z.ltb_spec u (2 ^ (bits - 1))); lia).
  rewrite <- Eu, sign_extend_field by (done || lia). exact Hr.
Qed.
Lemma unpack_some packed : exists p, unpack_block_position packed = Some p.
Proof.
  unfold unpack_block_position. change 0x3ffffff with (Z.ones 26). change 0xfff with (Z.ones 12).
  pose proof (sign_extend_range (Z.shiftr packed 38) 26 ltac:(lia)). pose proof (sign_extend_range packed 26 ltac:(lia)).
  pose proof (sign_extend_range (Z.shiftr packed 26) 12 ltac:(lia)).
  rewrite !in_i32 by lia. by eexists.
Qed.

Section Total.
Context `{Build} (wrapping : overflow_checks = false).

Lemma total_expect {A} (o : option A) : is_Some o -> total 0 (expect o).
Proof. intros [a ->]. apply total_ret. Qed.
Lemma total_try_from lo hi message v : total 0 (try_from lo hi message v).
Proof. unfold try_from. case_match; [apply total_ret|apply total_throw]. Qed.
Lemma total_packed_position : total 0 read_packed_position.
Proof.
  unfold read_packed_position. eapply total_then; [|apply total_i64|]; [lia|]. intros packed.
  apply total_expect. destruct (unpack_some packed) as [p ->]. by eexists.
Qed.
Lemma total_hand hand : total 0 (decode_interaction_hand hand).
Proof. unfold decode_interaction_hand. repeat case_match; (apply total_ret || apply total_throw). Qed.
Lemma total_stance stance : total 0 (read_stance stance).
Proof. destruct stance; cbn; read_fields_total. Qed.
Lemma total_mode_i8 : total 0 read_i8.
Proof. apply (total_weaken 1); [lia|apply total_i8]. Qed.
Lemma total_mode_varint : total 0 read_varint.
Proof. apply (total_weaken 1); [lia|by apply total_varint]. Qed.

Lemma total_flying p : total 0 (read_flying p).
Proof. unfold read_flying. read_fields_total. Qed.
Lemma total_look p : total 0 (read_look p).
Proof. unfold read_look. read_fields_total. Qed.
Lemma total_position stance p : total 0 (read_position stance p).
Proof. pose proof total_stance. unfold read_position. read_fields_total. Qed.
Lemma total_position_look stance p : total 0 (read_position_look stance p).
Proof. pose proof total_stance. unfold read_position_look. read_fields_total. Qed.
Lemma total_held_slot p : total 0 (read_held_slot p).
Proof. unfold read_held_slot. read_fields_total. Qed.
Lemma total_close_container p : total 0 (read_close_container p).
Proof. unfold read_close_container. read_fields_total. Qed.
Lemma total_digging p : total 0 (read_digging p).
Proof. pose proof total_packed_position. pose proof @total_try_from. unfold read_digging. read_fields_total. Qed.
Lemma total_client_command p : total 0 (read_client_command p).
Proof. pose proof @total_try_from. unfold read_client_command. read_fields_total. Qed.
Lemma total_confirm_transaction store session p : total 0 (read_confirm_transaction store session p).
Proof. unfold read_confirm_transaction. read_fields_total. Qed.
Lemma total_creative_slot spec p : total 0 (read_creative_slot spec p).
Proof.
  unfold read_creative_slot. eapply total_then; [|apply total_i16|]; [lia|]. intros slot.
  eapply total_then; [|apply total_slot, wrapping|]; [lia|]. intros stack.
  apply (total_then 0); [lia| |intros ?; apply total_ret]. apply total_expect.
  unfold inventory_slot. change (is_player_container java_player_container_kind) with true. by eexists.
Qed.

(** A click is total where every container the store tracks has a layout. *)
Lemma total_click_target spec store session window_id raw_slot raw_button mode :
  (forall container raw, resolve_container store session window_id = Some container ->
    is_Some (inventory_slot container (spec_layout spec) raw)) ->
  total 0 (click_target spec store session window_id raw_slot raw_button mode).
Proof.
  intros Hk. unfold click_target. case_match; [apply total_ret|]. case_match; [apply total_ret|].
  destruct (resolve_container store session window_id) as [container|] eqn:E; [|apply total_ret].
  apply (total_then 0); [lia| |intros ?; apply total_ret]. by apply total_expect, Hk.
Qed.
Lemma total_click_window spec read_mode store session p :
  total 0 read_mode ->
  (forall window_id container raw, resolve_container store session window_id = Some container ->
    is_Some (inventory_slot container (spec_layout spec) raw)) ->
  total 0 (read_click_window spec read_mode store session p).
Proof.
  intros Hm Hk. unfold read_click_window. eapply total_then; [|apply total_u8|]; [lia|]. intros window_id.
  eapply total_then; [|apply total_i16|]; [lia|]. intros raw_slot.
  eapply total_then; [|apply total_i8|]; [lia|]. intros raw_button.
  eapply total_then; [|apply total_i16|]; [lia|]. intros action.
  eapply total_then; [|exact Hm|]; [lia|]. intros mode.
  eapply total_then; [|apply total_slot, wrapping|]; [lia|]. intros clicked.
  eapply total_then; [|apply total_click_target; by intros; eapply Hk|]; [lia|]. intros target.
  case_match; apply total_ret.
Qed.
End Total.
#[export] Hint Resolve total_try_from total_packed_position total_hand total_stance total_slot total_flying total_look total_position
  total_position_look total_held_slot total_close_container total_digging total_client_command
  total_confirm_transaction total_creative_slot total_mode_i8 total_mode_varint total_click_window : total.

(** What a reader may answer. *)
Definition answers {A} (P : A -> Prop) (m : Read A) : Prop := forall r r' a, m r = (r', Ok a) -> P a.
Lemma answers_ret {A} (P : A -> Prop) a : P a -> answers P (mret a).
Proof. intros Ha r r' a' [= _ <-]. exact Ha. Qed.
Lemma answers_bind {A B} (P : B -> Prop) (m : Read A) (f : A -> Read B) :
  (forall a, answers P (f a)) -> answers P (m ≫= f).
Proof. intros Hf r r' b. unfold mbind, M_bind. destruct (m r) as [r1 [a|e| |]]; try done. apply Hf. Qed.
Lemma answers_from {A B} (Q : A -> Prop) (P : B -> Prop) (m : Read A) (f : A -> Read B) :
  answers Q m -> (forall a, Q a -> answers P (f a)) -> answers P (m ≫= f).
Proof.
  intros Hm Hf r r' b. unfold mbind, M_bind. destruct (m r) as [r1 [a|e| |]] eqn:E; try done.
  apply Hf. by eapply Hm.
Qed.

(** A decoder leaves the store as it is, or acknowledges a transaction. *)
Definition store_step (store : JavaProtocolSessionStore) (session : ProtocolSessionSnapshot)
    (answer : option RuntimeCommand * JavaProtocolSessionStore) : Prop :=
  answer.2 = store \/ exists transaction accepted, answer.2 = act store (ActAck session transaction accepted).
Lemma some_command_store store session m : answers (store_step store session) (some_command store m).
Proof. apply answers_bind. intros c. apply answers_ret. by left. Qed.
Lemma any_command_store store session m : answers (store_step store session) (any_command store m).
Proof. apply answers_bind. intros c. apply answers_ret. by left. Qed.
Lemma confirm_store store session p :
  answers (store_step store session) (ack_command (read_confirm_transaction store session p)).
Proof.
  unfold ack_command. eapply (answers_from (fun a => store_step store session (None, a.2))).
  - unfold read_confirm_transaction. do 3 (apply answers_bind; intros ?). apply answers_ret. right. by eexists _, _.
  - intros [c s] Hs. by apply answers_ret.
Qed.

Lemma read_frame_total `{Build} {A} (m : Read A) frame :
  total 0 m -> len frame <= i64_max -> len frame <= Z.of_nat stack_levels ->
  match read_frame m frame with Ok _ | Err _ => True | Panic | OutOfFuel => False end.
Proof.
  intros Hm Hl Hs. assert (reader_ok (reader_new frame)) as Hr by (unfold reader_ok, reader_new; cbn; lia).
  specialize (Hm _ Hr). unfold step_ok, read_frame in *. destruct (m (reader_new frame)) as [r [a|e| |]]; done.
Qed.
(** A decoder whose body is total and leaves a good store. *)
Lemma decode_play_with_ok `{Build} (P : JavaProtocolSessionStore -> Prop) store session frame body :
  overflow_checks = false -> len frame <= i64_max -> len frame <= Z.of_nat stack_levels ->
  (forall p id, total 0 (body p id)) -> (forall p id, answers (store_step store session) (body p id)) ->
  P store -> (forall t ok, P (act store (ActAck session t ok))) ->
  match decode_play_with session frame body with
  | Ok (_, store') => P store'
  | Err _ => True
  | Panic | OutOfFuel => False
  end.
Proof.
  intros Hb Hl Hs Ht Ha HP HP'. unfold decode_play_with. destruct (ps_player_id session) as [p|]; [|done].
  pose proof (read_frame_total (id ← read_varint; body p id) frame) as Hr.
  assert (answers (store_step store session) (id ← read_varint; body p id)) as Hans by (apply answers_bind; intros; apply Ha).
  specialize (Hans (reader_new frame)). unfold read_frame in *.
  destruct ((id ← read_varint; body p id) (reader_new frame)) as [r out]. cbn [snd] in *.
  assert (total 0 (id ← read_varint; body p id)) as Htot by (eapply total_then; [|by apply total_varint|done]; lia).
  specialize (Hr Htot Hl Hs). destruct out as [[c s]|e| |]; try done.
  change (P s). destruct (Hans _ _ eq_refl) as [E|(t & ok & E)]; cbn [snd] in E; rewrite E; auto.
Qed.
