(* ===== verification/Je5.v ===== *)
(** * Java edition 1.7.10
    ([src/plugins/protocol/je-5/mc-proto-je-5/src]: lib.rs, decoding.rs, encoding.rs)

    The oldest version: positions are written out, entity positions are fixed-point numbers, a
    batch of chunks is compressed. *)

From Stdlib Require Import Floats.SpecFloat.
From S2P Require Import Prelude Bytes VoxelModel VoxelItems VoxelContent VoxelState VoxelEvents ProtoPacket JavaSlots JavaSession JavaChunks JavaPlay.

Definition PROTOCOL_VERSION_1_7_10 : Z := 5.
Definition VERSION_NAME_1_7_10 : string := "1.7.10".
Definition JE_5_ADAPTER_ID : string := "je-5".
Definition INVENTORY_SPEC : InventoryProtocolSpec := JE_1_7_10_INVENTORY_SPEC.

(** ** Packet numbers *)

Definition PACKET_CB_KEEP_ALIVE : Z := 0x00.
Definition PACKET_CB_JOIN_GAME : Z := 0x01.
Definition PACKET_CB_TIME_UPDATE : Z := 0x03.
Definition PACKET_CB_SPAWN_POSITION : Z := 0x05.
Definition PACKET_CB_UPDATE_HEALTH : Z := 0x06.
Definition PACKET_CB_PLAYER_POSITION_AND_LOOK : Z := 0x08.
Definition PACKET_CB_HELD_ITEM_CHANGE : Z := 0x09.
Definition PACKET_CB_NAMED_ENTITY_SPAWN : Z := 0x0c.
Definition PACKET_CB_SPAWN_OBJECT : Z := 0x0e.
Definition PACKET_CB_DESTROY_ENTITIES : Z := 0x13.
Definition PACKET_CB_ENTITY_TELEPORT : Z := 0x18.
Definition PACKET_CB_ENTITY_HEAD_ROTATION : Z := 0x19.
Definition PACKET_CB_ENTITY_METADATA : Z := 0x1c.
Definition PACKET_CB_MAP_CHUNK : Z := 0x21.
Definition PACKET_CB_BLOCK_CHANGE : Z := 0x23.
Definition PACKET_CB_BLOCK_BREAK_ANIMATION : Z := 0x25.
Definition PACKET_CB_MAP_CHUNK_BULK : Z := 0x26.
Definition PACKET_CB_OPEN_WINDOW : Z := 0x2d.
Definition PACKET_CB_CLOSE_WINDOW : Z := 0x2e.
Definition PACKET_CB_SET_SLOT : Z := 0x2f.
Definition PACKET_CB_WINDOW_ITEMS : Z := 0x30.
Definition PACKET_CB_WINDOW_PROPERTY : Z := 0x31.
Definition PACKET_CB_TRANSACTION : Z := 0x32.
Definition PACKET_CB_PLAYER_ABILITIES : Z := 0x39.
Definition PACKET_CB_PLAY_DISCONNECT : Z := 0x40.
Definition PACKET_SB_KEEP_ALIVE : Z := 0x00.
Definition PACKET_SB_FLYING : Z := 0x03.
Definition PACKET_SB_POSITION : Z := 0x04.
Definition PACKET_SB_LOOK : Z := 0x05.
Definition PACKET_SB_POSITION_LOOK : Z := 0x06.
Definition PACKET_SB_PLAYER_DIGGING : Z := 0x07.
Definition PACKET_SB_PLAYER_BLOCK_PLACEMENT : Z := 0x08.
Definition PACKET_SB_HELD_ITEM_CHANGE : Z := 0x09.
Definition PACKET_SB_CLOSE_WINDOW : Z := 0x0d.
Definition PACKET_SB_CLICK_WINDOW : Z := 0x0e.
Definition PACKET_SB_CONFIRM_TRANSACTION : Z := 0x0f.
Definition PACKET_SB_CREATIVE_INVENTORY_ACTION : Z := 0x10.
Definition PACKET_SB_SETTINGS : Z := 0x15.
Definition PACKET_SB_CLIENT_COMMAND : Z := 0x16.

(** ** Decoding ([decoding.rs]) *)

Section Decoding.
Context `{Build}.
Implicit Types (store : JavaProtocolSessionStore) (session : ProtocolSessionSnapshot).

Definition decode_position_packet : PlayerId -> Read RuntimeCommand := read_position true.
Definition decode_position_look_packet : PlayerId -> Read RuntimeCommand := read_position_look true.
(** [BlockPos::new(read_i32()?, i32::from(read_u8()?), read_i32()?)] *)
Definition read_block_position : Read BlockPos :=
  x ← read_i32; y ← read_u8; z ← read_i32; mret (mkBlockPos x y z).
Definition decode_digging_packet (player_id : PlayerId) : Read RuntimeCommand :=
  status ← read_u8; position ← read_block_position; face ← read_u8;
  mret (runtime_gameplay (DigBlock player_id position status (from_protocol_byte face))).
Definition decode_place_block_packet (player_id : PlayerId) : Read (option RuntimeCommand) :=
  position ← read_block_position; direction ← read_u8; held_item ← read_slot (spec_slot INVENTORY_SPEC);
  _ ← read_u8; _ ← read_u8; _ ← read_u8;
  if (bx position =? -1) && (bz position =? -1) && (by_ position =? 255) && (direction =? 255) then mret None
  else mret (Some (runtime_gameplay
    (UseBlock player_id HandMain position (from_protocol_byte direction) held_item))).
Definition decode_client_settings_packet (player_id : PlayerId) : Read RuntimeCommand :=
  _ ← read_string 16; raw_distance ← read_i8; _ ← read_i8; _ ← read_bool; _ ← read_u8; _ ← read_bool;
  mret (RuntimeCore (UpdateClientView player_id (Z.max (i8_to_u8 raw_distance) 1))).
Definition decode_click_window_packet store session (player_id : PlayerId) : Read (option RuntimeCommand) :=
  read_click_window INVENTORY_SPEC read_i8 store session player_id.
Definition decode_confirm_transaction_packet store session (player_id : PlayerId) :
    Read (RuntimeCommand * JavaProtocolSessionStore) := read_confirm_transaction store session player_id.

Definition decode_body store session (player_id : PlayerId) (packet_id : Z) :
    Read (option RuntimeCommand * JavaProtocolSessionStore) :=
  if packet_id =? PACKET_SB_KEEP_ALIVE then
    some_command store (id ← read_i32; mret (RuntimeCore (KeepAliveResponse player_id id)))
  else if packet_id =? PACKET_SB_FLYING then some_command store (read_flying player_id)
  else if packet_id =? PACKET_SB_POSITION then some_command store (decode_position_packet player_id)
  else if packet_id =? PACKET_SB_LOOK then some_command store (read_look player_id)
  else if packet_id =? PACKET_SB_POSITION_LOOK then some_command store (decode_position_look_packet player_id)
  else if packet_id =? PACKET_SB_PLAYER_DIGGING then some_command store (decode_digging_packet player_id)
  else if packet_id =? PACKET_SB_PLAYER_BLOCK_PLACEMENT then any_command store (decode_place_block_packet player_id)
  else if packet_id =? PACKET_SB_HELD_ITEM_CHANGE then some_command store (read_held_slot player_id)
  else if packet_id =? PACKET_SB_CONFIRM_TRANSACTION then
    ack_command (decode_confirm_transaction_packet store session player_id)
  else if packet_id =? PACKET_SB_CLOSE_WINDOW then some_command store (read_close_container player_id)
  else if packet_id =? PACKET_SB_CLICK_WINDOW then
    any_command store (decode_click_window_packet store session player_id)
  else if packet_id =? PACKET_SB_CREATIVE_INVENTORY_ACTION then
    any_command store (read_creative_slot INVENTORY_SPEC player_id)
  else if packet_id =? PACKET_SB_SETTINGS then some_command store (decode_client_settings_packet player_id)
  else if packet_id =? PACKET_SB_CLIENT_COMMAND then
    some_command store (action_id ← read_i8; mret (RuntimeSession (ClientStatus player_id action_id)))
  else mret (None, store).
Definition decode_play_packet session store (frame : list byte) :
    result ProtocolError (option RuntimeCommand * JavaProtocolSessionStore) :=
  decode_play_with session frame (decode_body store session).
End Decoding.

(** ** Encoding ([encoding.rs]) *)

Section Encoding.
Context `{Build} `{JavaEnv}.

(** The error of [write_string], which writes nothing then, is dropped. *)
Definition try_write_string (s : string) : Write unit := fun w =>
  match write_string s w with
  | (w', Err _) => (w', Ok tt)
  | r => r
  end.
Definition encode_join_game (entity_id : EntityId) (meta : WorldMeta) (player : PlayerSnapshot) : Bytes :=
  written (write_varint PACKET_CB_JOIN_GAME ;; write_i32 entity_id ;; write_u8 (wm_game_mode meta) ;;
    write_i8 (dimension_number (dimension player)) ;; write_u8 (wm_difficulty meta) ;;
    write_u8 (join_game_player_limit (wm_max_players meta)) ;;
    try_write_string (to_ascii_lowercase (level_type meta))).
Definition encode_spawn_position (spawn : BlockPos) : Bytes :=
  written (write_varint PACKET_CB_SPAWN_POSITION ;; write_i32 (bx spawn) ;; write_i32 (by_ spawn) ;;
    write_i32 (bz spawn)).
Definition encode_time_update (age time : Z) : Bytes := time_update PACKET_CB_TIME_UPDATE age time.
Definition encode_update_health (player : PlayerSnapshot) : Bytes :=
  written (write_varint PACKET_CB_UPDATE_HEALTH ;; write_f32 (health player) ;; write_i16 (food player) ;;
    write_f32 (food_saturation player)).
Definition encode_position_and_look (player : PlayerSnapshot) : Bytes :=
  written (write_varint PACKET_CB_PLAYER_POSITION_AND_LOOK ;; write_vec (position player) ;;
    write_f32 (yaw player) ;; write_f32 (pitch player) ;; write_bool (on_ground player)).
Definition encode_held_item_change (slot : Z) : Bytes := held_item_change PACKET_CB_HELD_ITEM_CHANGE slot.
Definition encode_player_abilities (creative_mode : bool) : Bytes :=
  player_abilities PACKET_CB_PLAYER_ABILITIES creative_mode.
Definition encode_keep_alive (keep_alive_id : Z) : Bytes :=
  written (write_varint PACKET_CB_KEEP_ALIVE ;; write_i32 keep_alive_id).
Definition encode_named_entity_spawn (entity_id : EntityId) (player : PlayerSnapshot) : Bytes :=
  written (write_varint PACKET_CB_NAMED_ENTITY_SPAWN ;; write_varint entity_id ;;
    write_string (uuid_hyphenated (p_id player)) ;; write_string (username player) ;; write_varint 0 ;;
    write_fixed_vec (position player) ;; write_angle (yaw player) ;; write_angle (pitch player) ;;
    write_i16 0 ;; write_empty_metadata_1_8).
Definition encode_entity_teleport (entity_id : EntityId) (player : PlayerSnapshot) : Bytes :=
  written (write_varint PACKET_CB_ENTITY_TELEPORT ;; write_i32 entity_id ;; write_fixed_vec (position player) ;;
    write_angle (yaw player) ;; write_angle (pitch player)).
Definition encode_entity_head_rotation (entity_id : EntityId) (yaw : spec_float) : Bytes :=
  written (write_varint PACKET_CB_ENTITY_HEAD_ROTATION ;; write_i32 entity_id ;; write_angle yaw).
Definition encode_dropped_item_spawn (entity_id : EntityId) (item : DroppedItemSnapshot) : Bytes :=
  written (write_varint PACKET_CB_SPAWN_OBJECT ;; write_i32 entity_id ;; write_u8 2 ;;
    write_fixed_vec (di_position item) ;; write_i8 0 ;; write_i8 0 ;; write_i32 1 ;; write_i16 0 ;; write_i16 0 ;;
    write_i16 0).
Definition encode_dropped_item_metadata (entity_id : EntityId) (item : DroppedItemSnapshot) : Bytes :=
  written (write_varint PACKET_CB_ENTITY_METADATA ;; write_i32 entity_id ;;
    write_item_stack_metadata_1_8 10 (di_item item) (spec_slot INVENTORY_SPEC)).
Definition encode_destroy_entities (entity_ids : list EntityId) : Bytes :=
  written (count ← try_from (-128) 127 "too many entities to destroy in one packet" (len entity_ids);
    write_varint PACKET_CB_DESTROY_ENTITIES ;; write_i8 count ;; for_each write_i32 entity_ids).
Definition encode_block_change (position : BlockPos) (block : BlockState) : Bytes :=
  let '(block_id, metadata) := legacy_block block in
  written (write_varint PACKET_CB_BLOCK_CHANGE ;; write_i32 (bx position) ;;
    write_expected write_u8 (u8_of (by_ position)) ;; write_i32 (bz position) ;; write_varint block_id ;;
    write_u8 metadata).
Definition encode_block_break_animation (entity_id : EntityId) (position : BlockPos) (stage : option Z) : Bytes :=
  written (write_varint PACKET_CB_BLOCK_BREAK_ANIMATION ;; write_i32 entity_id ;; write_i32 (bx position) ;;
    write_i32 (by_ position) ;; write_i32 (bz position) ;; write_i8 (stage_number stage)).
Definition encode_set_slot (window_id slot : Z) (stack : option ItemStack) : Bytes :=
  set_slot_packet INVENTORY_SPEC PACKET_CB_SET_SLOT window_id slot stack.
Definition encode_open_window (window_id : Z) (container title : string) : Bytes :=
  written (write_varint PACKET_CB_OPEN_WINDOW ;; write_u8 window_id ;; window_type_bytes container ;;
    write_string title ;; write_expected write_u8 (unique_slot_count container) ;; write_bool true).
Definition encode_close_window (window_id : Z) : Bytes := close_window PACKET_CB_CLOSE_WINDOW window_id.
Definition encode_confirm_transaction (window_id action_number : Z) (accepted : bool) : Bytes :=
  confirm_transaction PACKET_CB_TRANSACTION window_id action_number accepted.
Definition encode_window_property (window_id property_id value : Z) : Bytes :=
  window_property PACKET_CB_WINDOW_PROPERTY window_id property_id value.
Definition encode_window_items (window_id : Z) (container : string) (contents : InventoryWindowContents) : Bytes :=
  written (
    items ← expect (window_items container (spec_layout INVENTORY_SPEC) contents);
    slot_count ← try_from (-32768) 32767 "too many inventory slots" (len items);
    write_varint PACKET_CB_WINDOW_ITEMS ;; write_i8 (signed_window_id window_id) ;; write_i16 slot_count ;;
    for_each (fun slot => write_slot slot (spec_slot INVENTORY_SPEC)) items).

Definition zlib_compress (data : list byte) : Bytes :=
  match zlib data with Some l => Ok l | None => Err (InvalidPacket "failed to compress payload") end.
Definition encode_chunk (chunk : ChunkColumn) : Bytes :=
  '(bit_map, chunk_data) ← build_chunk_data_1_7 chunk true;
  compressed ← zlib_compress chunk_data;
  written (write_varint PACKET_CB_MAP_CHUNK ;; write_i32 (cx (col_pos chunk)) ;; write_i32 (cz (col_pos chunk)) ;;
    write_bool true ;; write_u16 bit_map ;; write_u16 0 ;;
    (n ← try_from (- i32_max - 1) i32_max "compressed chunk too large" (len compressed); write_i32 n) ;;
    write_bytes compressed).
(** The data of the chunks one after another, and what is written of each after it. *)
Fixpoint bulk_data (chunks : list ChunkColumn) : result ProtocolError (list byte * list (Z * Z * Z)) :=
  match chunks with
  | [] => Ok ([], [])
  | chunk :: chunks =>
      '(bit_map, chunk_data) ← build_chunk_data_1_7 chunk true;
      '(uncompressed, meta) ← bulk_data chunks;
      Ok (chunk_data ++ uncompressed, (cx (col_pos chunk), cz (col_pos chunk), bit_map) :: meta)
  end.
Definition write_bulk_meta (m : Z * Z * Z) : Write unit :=
  let '(x, z, bit_map) := m in write_i32 x ;; write_i32 z ;; write_u16 bit_map ;; write_u16 0.
Definition encode_chunk_bulk (chunks : list ChunkColumn) : Bytes :=
  '(uncompressed, meta) ← bulk_data chunks;
  compressed ← zlib_compress uncompressed;
  written (
    chunk_count ← try_from (-32768) 32767 "too many chunks in bulk packet" (len chunks);
    write_varint PACKET_CB_MAP_CHUNK_BULK ;; write_i16 chunk_count ;;
    (n ← try_from (- i32_max - 1) i32_max "bulk chunk payload too large" (len compressed); write_i32 n) ;;
    write_bool true ;; write_bytes compressed ;; for_each write_bulk_meta meta).

(** ** The profile ([lib.rs]) *)

Definition encode_play_bootstrap (entity_id : EntityId) (meta : WorldMeta) (player : PlayerSnapshot) :
    result ProtocolError (list (list byte)) :=
  all_frames [encode_join_game entity_id meta player; encode_spawn_position (wm_spawn meta);
    encode_time_update (age meta) (time meta); encode_update_health player;
    encode_player_abilities (wm_game_mode meta =? 1); encode_position_and_look player].
Definition encode_chunk_batch (chunks : list ChunkColumn) : result ProtocolError (list (list byte)) :=
  match chunks with
  | [] => Ok []
  | [chunk] => all_frames [encode_chunk chunk]
  | _ => all_frames [encode_chunk_bulk chunks]
  end.
Definition encode_entity_spawn (entity_id : EntityId) (player : PlayerSnapshot) :
    result ProtocolError (list (list byte)) :=
  all_frames [encode_named_entity_spawn entity_id player; encode_entity_head_rotation entity_id (yaw player)].
Definition encode_entity_moved (entity_id : EntityId) (player : PlayerSnapshot) :
    result ProtocolError (list (list byte)) :=
  all_frames [encode_entity_teleport entity_id player; encode_entity_head_rotation entity_id (yaw player)].
Definition encode_dropped_item (entity_id : EntityId) (item : DroppedItemSnapshot) :
    result ProtocolError (list (list byte)) :=
  all_frames [encode_dropped_item_spawn entity_id item; encode_dropped_item_metadata entity_id item].
Definition encode_container_property_changed (window_id : Z) (property : string) (value : Z) : Bytes :=
  property_changed encode_window_property window_id property value.
Definition encode_inventory_slot_changed (window_id : Z) (container : string) (slot : InventorySlot)
    (stack : option ItemStack) : result ProtocolError (option (list byte)) :=
  slot_changed INVENTORY_SPEC encode_set_slot window_id container slot stack.

#[export] Instance profile : JavaEditionProfile := {
  profile_adapter_id := JE_5_ADAPTER_ID;
  profile_descriptor := mkProtocol JE_5_ADAPTER_ID Tcp MinecraftFramed EditionJe VERSION_NAME_1_7_10 PROTOCOL_VERSION_1_7_10;
  play_disconnect_packet_id := PACKET_CB_PLAY_DISCONNECT;
  format_disconnect_reason := fun reason => reason;
  profile_play_bootstrap := encode_play_bootstrap;
  profile_chunk_batch := encode_chunk_batch;
  profile_entity_spawn := encode_entity_spawn;
  profile_entity_moved := encode_entity_moved;
  profile_dropped_item_spawn := encode_dropped_item;
  profile_entity_despawn := encode_destroy_entities;
  profile_container_opened := encode_open_window;
  profile_container_closed := encode_close_window;
  profile_inventory_contents := encode_window_items;
  profile_container_property_changed := encode_container_property_changed;
  profile_inventory_slot_changed := encode_inventory_slot_changed;
  profile_transaction_processed := fun t => encode_confirm_transaction (tr_window_id t) (action_number t);
  profile_cursor_changed := encode_set_slot CURSOR_WINDOW_ID CURSOR_SLOT_ID;
  profile_selected_hotbar_slot_changed := encode_held_item_change;
  profile_block_changed := encode_block_change;
  profile_block_breaking_progress := encode_block_break_animation;
  profile_keep_alive_requested := encode_keep_alive;
  profile_decode_play := decode_play_packet
}.
End Encoding.
