(* ===== verification/Je404.v ===== *)
(** * Java edition 1.13.2
    ([src/plugins/protocol/je-404/mc-proto-je-404/src]: lib.rs, decoding.rs, encoding.rs)

    Block and item identifiers are flattened.  The crate je-775 compiles the same decoding.rs and
    encoding.rs under another version name and number. *)

From Stdlib Require Import Floats.SpecFloat.
From S2P Require Import Prelude Bytes VoxelModel VoxelItems VoxelContent VoxelState VoxelEvents ProtoPacket JavaSlots JavaSession JavaChunks JavaPlay.

Definition PROTOCOL_VERSION_1_13_2 : Z := 404.
Definition VERSION_NAME_1_13_2 : string := "1.13.2".
Definition JE_404_ADAPTER_ID : string := "je-404".
Definition INVENTORY_SPEC : InventoryProtocolSpec := JE_1_13_2_INVENTORY_SPEC.

(** ** Packet numbers *)

Definition PACKET_CB_NAMED_ENTITY_SPAWN : Z := 0x05.
Definition PACKET_CB_SPAWN_OBJECT : Z := 0x00.
Definition PACKET_CB_BLOCK_BREAK_ANIMATION : Z := 0x08.
Definition PACKET_CB_BLOCK_CHANGE : Z := 0x0b.
Definition PACKET_CB_TRANSACTION : Z := 0x12.
Definition PACKET_CB_CLOSE_WINDOW : Z := 0x13.
Definition PACKET_CB_OPEN_WINDOW : Z := 0x14.
Definition PACKET_CB_WINDOW_ITEMS : Z := 0x15.
Definition PACKET_CB_WINDOW_PROPERTY : Z := 0x16.
Definition PACKET_CB_SET_SLOT : Z := 0x17.
Definition PACKET_CB_PLAY_DISCONNECT : Z := 0x1b.
Definition PACKET_CB_KEEP_ALIVE : Z := 0x21.
Definition PACKET_CB_MAP_CHUNK : Z := 0x22.
Definition PACKET_CB_JOIN_GAME : Z := 0x25.
Definition PACKET_CB_PLAYER_ABILITIES : Z := 0x2e.
Definition PACKET_CB_PLAYER_INFO : Z := 0x30.
Definition PACKET_CB_PLAYER_POSITION_AND_LOOK : Z := 0x32.
Definition PACKET_CB_DESTROY_ENTITIES : Z := 0x35.
Definition PACKET_CB_ENTITY_HEAD_ROTATION : Z := 0x39.
Definition PACKET_CB_HELD_ITEM_CHANGE : Z := 0x3d.
Definition PACKET_CB_ENTITY_METADATA : Z := 0x3f.
Definition PACKET_CB_UPDATE_HEALTH : Z := 0x44.
Definition PACKET_CB_SPAWN_POSITION : Z := 0x49.
Definition PACKET_CB_TIME_UPDATE : Z := 0x4a.
Definition PACKET_CB_ENTITY_TELEPORT : Z := 0x50.
Definition PACKET_SB_KEEP_ALIVE : Z := 0x0e.
Definition PACKET_SB_FLYING : Z := 0x0f.
Definition PACKET_SB_POSITION : Z := 0x10.
Definition PACKET_SB_POSITION_LOOK : Z := 0x11.
Definition PACKET_SB_LOOK : Z := 0x12.
Definition PACKET_SB_PLAYER_DIGGING : Z := 0x18.
Definition PACKET_SB_HELD_ITEM_CHANGE : Z := 0x21.
Definition PACKET_SB_CREATIVE_INVENTORY_ACTION : Z := 0x24.
Definition PACKET_SB_PLAYER_BLOCK_PLACEMENT : Z := 0x29.
Definition PACKET_SB_USE_ITEM : Z := 0x2a.
Definition PACKET_SB_CLIENT_COMMAND : Z := 0x03.
Definition PACKET_SB_SETTINGS : Z := 0x04.
Definition PACKET_SB_CONFIRM_TRANSACTION : Z := 0x06.
Definition PACKET_SB_CLOSE_WINDOW : Z := 0x09.
Definition PACKET_SB_CLICK_WINDOW : Z := 0x08.

(** ** Decoding ([decoding.rs]) *)

Section Decoding.
Context `{Build}.
Implicit Types (store : JavaProtocolSessionStore) (session : ProtocolSessionSnapshot).

Definition decode_position_packet : PlayerId -> Read RuntimeCommand := read_position false.
Definition decode_position_look_packet : PlayerId -> Read RuntimeCommand := read_position_look false.
Definition decode_digging_packet : PlayerId -> Read RuntimeCommand := read_digging.
Definition decode_place_block_packet (player_id : PlayerId) : Read (option RuntimeCommand) :=
  position ← read_packed_position;
  raw_face ← read_varint; face ← try_from 0 u8_max "face out of range" raw_face;
  raw_hand ← read_varint; hand ← decode_interaction_hand raw_hand;
  _ ← read_f32; _ ← read_f32; _ ← read_f32; _ ← read_bool;
  mret (Some (runtime_gameplay (UseBlock player_id hand position (from_protocol_byte face) None))).
Definition decode_client_settings_packet (player_id : PlayerId) : Read RuntimeCommand :=
  _ ← read_string 16; raw_distance ← read_i8; _ ← read_varint; _ ← read_bool; _ ← read_u8; _ ← read_varint;
  mret (RuntimeCore (UpdateClientView player_id (Z.max (i8_to_u8 raw_distance) 1))).
Definition decode_click_window_packet store session (player_id : PlayerId) : Read (option RuntimeCommand) :=
  read_click_window INVENTORY_SPEC read_varint store session player_id.
Definition decode_confirm_transaction_packet store session (player_id : PlayerId) :
    Read (RuntimeCommand * JavaProtocolSessionStore) := read_confirm_transaction store session player_id.

Definition decode_body store session (player_id : PlayerId) (packet_id : Z) :
    Read (option RuntimeCommand * JavaProtocolSessionStore) :=
  if packet_id =? PACKET_SB_KEEP_ALIVE then
    some_command store (raw ← read_i64; id ← try_from (- i32_max - 1) i32_max "keepalive id out of range" raw;
      mret (RuntimeCore (KeepAliveResponse player_id id)))
  else if packet_id =? PACKET_SB_FLYING then some_command store (read_flying player_id)
  else if packet_id =? PACKET_SB_POSITION then some_command store (decode_position_packet player_id)
  else if packet_id =? PACKET_SB_LOOK then some_command store (read_look player_id)
  else if packet_id =? PACKET_SB_POSITION_LOOK then some_command store (decode_position_look_packet player_id)
  else if packet_id =? PACKET_SB_PLAYER_DIGGING then some_command store (decode_digging_packet player_id)
  else if packet_id =? PACKET_SB_HELD_ITEM_CHANGE then some_command store (read_held_slot player_id)
  else if packet_id =? PACKET_SB_CONFIRM_TRANSACTION then
    ack_command (decode_confirm_transaction_packet store session player_id)
  else if packet_id =? PACKET_SB_CLOSE_WINDOW then some_command store (read_close_container player_id)
  else if packet_id =? PACKET_SB_CLICK_WINDOW then
    any_command store (decode_click_window_packet store session player_id)
  else if packet_id =? PACKET_SB_CREATIVE_INVENTORY_ACTION then
    any_command store (read_creative_slot INVENTORY_SPEC player_id)
  else if packet_id =? PACKET_SB_PLAYER_BLOCK_PLACEMENT then any_command store (decode_place_block_packet player_id)
  else if packet_id =? PACKET_SB_USE_ITEM then
    any_command store (raw_hand ← read_varint; _ ← decode_interaction_hand raw_hand; mret None)
  else if packet_id =? PACKET_SB_SETTINGS then some_command store (decode_client_settings_packet player_id)
  else if packet_id =? PACKET_SB_CLIENT_COMMAND then some_command store (read_client_command player_id)
  else mret (None, store).
Definition decode_play_packet session store (frame : list byte) :
    result ProtocolError (option RuntimeCommand * JavaProtocolSessionStore) :=
  decode_play_with session frame (decode_body store session).
End Decoding.

(** ** Encoding ([encoding.rs]) *)

Section Encoding.
Context `{Build} `{JavaEnv}.

Definition encode_join_game (entity_id : EntityId) (meta : WorldMeta) (player : PlayerSnapshot) : Bytes :=
  join_game PACKET_CB_JOIN_GAME write_i32 entity_id meta player.
Definition encode_spawn_position (spawn : BlockPos) : Bytes := spawn_position PACKET_CB_SPAWN_POSITION spawn.
Definition encode_time_update (age time : Z) : Bytes := time_update PACKET_CB_TIME_UPDATE age time.
Definition encode_update_health (player : PlayerSnapshot) : Bytes := update_health PACKET_CB_UPDATE_HEALTH player.
Definition encode_position_and_look (player : PlayerSnapshot) : Bytes :=
  position_and_look_1_12 PACKET_CB_PLAYER_POSITION_AND_LOOK player.
Definition encode_held_item_change (slot : Z) : Bytes := held_item_change PACKET_CB_HELD_ITEM_CHANGE slot.
Definition encode_player_abilities (creative_mode : bool) : Bytes :=
  player_abilities PACKET_CB_PLAYER_ABILITIES creative_mode.
Definition encode_keep_alive (keep_alive_id : Z) : Bytes := keep_alive_1_12 PACKET_CB_KEEP_ALIVE keep_alive_id.
Definition encode_player_info_add (player : PlayerSnapshot) : Bytes :=
  JavaSession.encode_player_info_add PACKET_CB_PLAYER_INFO player.
Definition encode_named_entity_spawn (entity_id : EntityId) (player : PlayerSnapshot) : Bytes :=
  named_entity_spawn_1_12 PACKET_CB_NAMED_ENTITY_SPAWN entity_id player.
Definition encode_entity_teleport (entity_id : EntityId) (player : PlayerSnapshot) : Bytes :=
  entity_teleport_1_12 PACKET_CB_ENTITY_TELEPORT entity_id player.
Definition encode_entity_head_rotation (entity_id : EntityId) (yaw : spec_float) : Bytes :=
  entity_head_rotation PACKET_CB_ENTITY_HEAD_ROTATION entity_id yaw.
Definition encode_dropped_item_spawn (entity_id : EntityId) (item : DroppedItemSnapshot) : Bytes :=
  dropped_item_spawn_1_12 PACKET_CB_SPAWN_OBJECT entity_id item.
Definition encode_dropped_item_metadata (entity_id : EntityId) (item : DroppedItemSnapshot) : Bytes :=
  dropped_item_metadata INVENTORY_SPEC PACKET_CB_ENTITY_METADATA write_item_stack_metadata_1_13 6 entity_id item.
Definition encode_destroy_entities (entity_ids : list EntityId) : Bytes :=
  destroy_entities PACKET_CB_DESTROY_ENTITIES entity_ids.
Definition encode_block_change (position : BlockPos) (block : BlockState) : Bytes :=
  block_change PACKET_CB_BLOCK_CHANGE flattened_block_state_id_1_13_2 position block.
Definition encode_block_break_animation (entity_id : EntityId) (position : BlockPos) (stage : option Z) : Bytes :=
  block_break_animation PACKET_CB_BLOCK_BREAK_ANIMATION entity_id position stage.
Definition encode_set_slot (window_id slot : Z) (stack : option ItemStack) : Bytes :=
  set_slot_packet INVENTORY_SPEC PACKET_CB_SET_SLOT window_id slot stack.
Definition encode_open_window (window_id : Z) (container title : string) : Bytes :=
  open_window PACKET_CB_OPEN_WINDOW true window_id container title.
Definition encode_close_window (window_id : Z) : Bytes := close_window PACKET_CB_CLOSE_WINDOW window_id.
Definition encode_confirm_transaction (window_id action_number : Z) (accepted : bool) : Bytes :=
  confirm_transaction PACKET_CB_TRANSACTION window_id action_number accepted.
Definition encode_window_property (window_id property_id value : Z) : Bytes :=
  window_property PACKET_CB_WINDOW_PROPERTY window_id property_id value.
Definition encode_window_items (window_id : Z) (container : string) (contents : InventoryWindowContents) : Bytes :=
  window_items_packet INVENTORY_SPEC PACKET_CB_WINDOW_ITEMS window_id container contents.
Definition encode_chunk (chunk : ChunkColumn) : Bytes :=
  chunk_1_12 PACKET_CB_MAP_CHUNK build_chunk_data_1_13_2 chunk.

(** ** The profile ([lib.rs]) *)

Definition encode_play_bootstrap (entity_id : EntityId) (meta : WorldMeta) (player : PlayerSnapshot) :
    result ProtocolError (list (list byte)) :=
  all_frames [encode_join_game entity_id meta player; encode_spawn_position (wm_spawn meta);
    encode_time_update (age meta) (time meta); encode_update_health player;
    encode_player_abilities (wm_game_mode meta =? 1); encode_position_and_look player].
Definition encode_chunk_batch (chunks : list ChunkColumn) : result ProtocolError (list (list byte)) :=
  each_chunk encode_chunk chunks.
Definition encode_entity_spawn (entity_id : EntityId) (player : PlayerSnapshot) :
    result ProtocolError (list (list byte)) :=
  all_frames [encode_player_info_add player; encode_named_entity_spawn entity_id player;
    encode_entity_head_rotation entity_id (yaw player)].
Definition encode_entity_moved (entity_id : EntityId) (player : PlayerSnapshot) :
    result ProtocolError (list (list byte)) :=
  all_frames [encode_entity_teleport entity_id player; encode_entity_head_rotation entity_id (yaw player)].
Definition encode_dropped_item (entity_id : EntityId) (item : DroppedItemSnapshot) :
    result ProtocolError (list (list byte)) :=
  all_frames [encode_dropped_item_spawn entity_id item; encode_dropped_item_metadata entity_id item].
Definition encode_container_property_changed (window_id : Z) (property : string) (value : Z) : Bytes :=
  property_changed encode_window_property window_id property value.
Definition encode_inventory_slot_changed (window_id : Z) (container : string) (slot : InventorySlot)
    (stack : option ItemStack) : result ProtocolError (option (list byte)) :=
  slot_changed INVENTORY_SPEC encode_set_slot window_id container slot stack.

#[export] Instance profile : JavaEditionProfile := {
  profile_adapter_id := JE_404_ADAPTER_ID;
  profile_descriptor := mkProtocol JE_404_ADAPTER_ID Tcp MinecraftFramed EditionJe VERSION_NAME_1_13_2 PROTOCOL_VERSION_1_13_2;
  play_disconnect_packet_id := PACKET_CB_PLAY_DISCONNECT;
  format_disconnect_reason := format_text_component;
  profile_play_bootstrap := encode_play_bootstrap;
  profile_chunk_batch := encode_chunk_batch;
  profile_entity_spawn := encode_entity_spawn;
  profile_entity_moved := encode_entity_moved;
  profile_dropped_item_spawn := encode_dropped_item;
  profile_entity_despawn := encode_destroy_entities;
  profile_container_opened := encode_open_window;
  profile_container_closed := encode_close_window;
  profile_inventory_contents := encode_window_items;
  profile_container_property_changed := encode_container_property_changed;
  profile_inventory_slot_changed := encode_inventory_slot_changed;
  profile_transaction_processed := fun t => encode_confirm_transaction (tr_window_id t) (action_number t);
  profile_cursor_changed := encode_set_slot CURSOR_WINDOW_ID CURSOR_SLOT_ID;
  profile_selected_hotbar_slot_changed := encode_held_item_change;
  profile_block_changed := encode_block_change;
  profile_block_breaking_progress := encode_block_break_animation;
  profile_keep_alive_requested := encode_keep_alive;
  profile_decode_play := decode_play_packet
}.
End Encoding.
