(* ===== verification/Je775.v ===== *)
(** * Java edition 26.1
    ([src/plugins/protocol/je-775/mc-proto-je-775/src/lib.rs])

    The crate compiles the decoding.rs and encoding.rs of je-404 with constants of its own, which
    are those of je-404 but for the name and the number of the version. *)

From S2P Require Import Prelude ProtoPacket JavaSlots JavaSession JavaPlay Je404.

Definition PROTOCOL_VERSION_26_1 : Z := 775.
Definition VERSION_NAME_26_1 : string := "26.1".
Definition JE_775_ADAPTER_ID : string := "je-775".

Section Profile.
Context `{Build} `{JavaEnv}.

#[export] Instance profile : JavaEditionProfile := {
  profile_adapter_id := JE_775_ADAPTER_ID;
  profile_descriptor := mkProtocol JE_775_ADAPTER_ID Tcp MinecraftFramed EditionJe VERSION_NAME_26_1 PROTOCOL_VERSION_26_1;
  play_disconnect_packet_id := PACKET_CB_PLAY_DISCONNECT;
  format_disconnect_reason := format_text_component;
  profile_play_bootstrap := encode_play_bootstrap;
  profile_chunk_batch := encode_chunk_batch;
  profile_entity_spawn := encode_entity_spawn;
  profile_entity_moved := encode_entity_moved;
  profile_dropped_item_spawn := encode_dropped_item;
  profile_entity_despawn := encode_destroy_entities;
  profile_container_opened := encode_open_window;
  profile_container_closed := encode_close_window;
  profile_inventory_contents := encode_window_items;
  profile_container_property_changed := encode_container_property_changed;
  profile_inventory_slot_changed := encode_inventory_slot_changed;
  profile_transaction_processed := fun t => encode_confirm_transaction (VoxelItems.tr_window_id t) (VoxelItems.action_number t);
  profile_cursor_changed := encode_set_slot CURSOR_WINDOW_ID CURSOR_SLOT_ID;
  profile_selected_hotbar_slot_changed := encode_held_item_change;
  profile_block_changed := encode_block_change;
  profile_block_breaking_progress := encode_block_break_animation;
  profile_keep_alive_requested := encode_keep_alive;
  profile_decode_play := decode_play_packet
}.
End Profile.
