(* ===== verification/JavaAdapter.v ===== *)
(** * The Java edition as a whole
    ([crates/protocol/mc-proto-je-common/src], [src/plugins/protocol])

    The five versions side by side: what any of them makes of any frame, what it makes of the
    packets of its protocol, and how what it sends and what it understands agree. *)

From Stdlib Require Import Floats.SpecFloat.
From S2P Require Import Prelude Bytes VoxelModel VoxelItems VoxelContent VoxelState VoxelEvents ProtoPacket JavaSlots JavaSession JavaChunks JavaPlay.
From S2P Require Je5 Je47 Je340 Je404 Je775.

Inductive JavaVersion : Set := V5 | V47 | V340 | V404 | V775.
Definition java_profile `{Build} `{JavaEnv} (v : JavaVersion) : JavaEditionProfile :=
  match v with
  | V5 => Je5.profile
  | V47 => Je47.profile
  | V340 => Je340.profile
  | V404 => Je404.profile
  | V775 => Je775.profile
  end.
Definition decode_play `{Build} `{JavaEnv} (v : JavaVersion) : ProtocolSessionSnapshot ->
    JavaProtocolSessionStore -> list byte -> result ProtocolError (option RuntimeCommand * JavaProtocolSessionStore) :=
  @profile_decode_play (java_profile v).

(** ** Any frame *)

(** Every window the store tracks is of a container that has a layout. *)
Definition state_known (state : JavaProtocolSessionState) : Prop :=
  match active_window state with
  | Some window => is_Some (container_descriptor (jw_container window))
  | None => True
  end.
Definition store_known (store : JavaProtocolSessionStore) : Prop := map_Forall (fun _ => state_known) store.
Definition event_known (event : CoreEvent) : Prop :=
  match event with ContainerOpened _ container _ => is_Some (container_descriptor container) | _ => True end.

Lemma default_known (o : option JavaProtocolSessionState) :
  (forall state, o = Some state -> state_known state) -> state_known (default session_state_default o).
Proof. destruct o; [by intros H; apply H|done]. Qed.
Lemma with_session_known c f store :
  store_known store -> (forall state, state_known state -> state_known (f state)) ->
  store_known (with_session c f store).
Proof.
  intros Hs Hf. apply map_Forall_insert_2; [|done]. apply Hf, default_known. intros state. apply Hs.
Qed.
Lemma act_known store a :
  store_known store -> (forall s e, a = ActObserve s e -> event_known e) -> store_known (act store a).
Proof.
  intros Hs He. destruct a as [s e|s t ok|s]; cbn [act].
  - specialize (He s e eq_refl). apply with_session_known; [done|]. intros state Hstate.
    event_cases e; try exact Hstate; cbn [observe_state]; try done.
    + case_bool_decide; [exact Hstate|exact He].
    + unfold state_known in *. cbn [active_window] in *. destruct (active_window state) as [j|]; [|done]. by destruct (jw_window_id j =? window_id).
  - unfold observe_transaction_ack. destruct ok; [done|]. apply with_session_known; [done|]. intros state Hstate.
    unfold ack_state. by case_bool_decide.
  - by apply map_Forall_delete.
Qed.
Lemma resolved_known store session window_id container :
  store_known store -> resolve_container store session window_id = Some container ->
  is_Some (container_descriptor container).
Proof.
  intros Hs. unfold resolve_container. case_match; [intros [= <-]; by eexists|].
  destruct (store !! connection_id session) as [state|] eqn:E; [|done]. specialize (Hs _ _ E). cbn.
  unfold state_known in Hs. destruct (active_window state); [|done]. cbn. case_match; [|done]. by intros [= <-].
Qed.
Lemma inventory_slot_known container layout raw :
  is_Some (container_descriptor container) -> exists slot, inventory_slot container layout raw = Some slot.
Proof.
  intros [d Hd]. unfold inventory_slot. destruct (is_player_container container); [by eexists|].
  rewrite Hd. cbn [mbind option_bind]. destruct (descriptor_cases _ _ Hd) as [[-> ->]|(_ & E1 & E2 & E3 & _)].
  all: unfold u8_of, u8_max; repeat (case_match; try by eexists); simplify_eq/=; compare_all.
Qed.

Section AnyFrame.
Context `{Build} `{JavaEnv} (wrapping : overflow_checks = false).

(** The branches of a decoder, each a command that leaves the store, or an acknowledgement. *)
Ltac decoder_branches tac := repeat (case_match; [tac|]); tac.
Ltac branch_total :=
  first
    [ apply total_ret
    | eapply total_then; [|solve [eauto with total]|intros ?; apply total_ret]; lia
    | unfold some_command, any_command, ack_command; read_fields_total ].
Ltac branch_store :=
  first
    [ apply some_command_store | apply any_command_store | apply confirm_store
    | apply answers_ret; by left ].

Lemma click_known store session (spec : InventoryProtocolSpec) : store_known store ->
  forall window_id container raw, resolve_container store session window_id = Some container ->
    is_Some (inventory_slot container (spec_layout spec) raw).
Proof.
  intros Hs window_id container raw Hr. destruct (inventory_slot_known container (spec_layout spec) raw) as [slot E];
    [by eapply resolved_known|by eexists].
Qed.

Lemma total_body_5 store session p id : store_known store -> total 0 (Je5.decode_body store session p id).
Proof.
  intros Hs. pose proof (click_known _ session Je5.INVENTORY_SPEC Hs). unfold Je5.decode_body.
  decoder_branches ltac:(unfold
    Je5.decode_position_packet, Je5.decode_position_look_packet, Je5.decode_digging_packet,
    Je5.decode_place_block_packet, Je5.decode_click_window_packet, Je5.decode_confirm_transaction_packet,
    Je5.decode_client_settings_packet, Je5.read_block_position; branch_total).
Qed.
Lemma store_body_5 store session p id :
  answers (store_step store session) (Je5.decode_body store session p id).
Proof.
  unfold Je5.decode_body, Je5.decode_confirm_transaction_packet. decoder_branches branch_store.
Qed.
Lemma total_body_47 store session p id : store_known store -> total 0 (Je47.decode_body store session p id).
Proof.
  intros Hs. pose proof (click_known _ session Je47.INVENTORY_SPEC Hs). unfold Je47.decode_body.
  decoder_branches ltac:(unfold
    Je47.decode_position_packet, Je47.decode_position_look_packet, Je47.decode_digging_packet,
    Je47.decode_place_block_packet, Je47.decode_click_window_packet, Je47.decode_confirm_transaction_packet,
    Je47.decode_client_settings_packet; branch_total).
Qed.
Lemma store_body_47 store session p id :
  answers (store_step store session) (Je47.decode_body store session p id).
Proof.
  unfold Je47.decode_body, Je47.decode_confirm_transaction_packet. decoder_branches branch_store.
Qed.
Lemma total_body_340 store session p id : store_known store -> total 0 (Je340.decode_body store session p id).
Proof.
  intros Hs. pose proof (click_known _ session Je340.INVENTORY_SPEC Hs). unfold Je340.decode_body.
  decoder_branches ltac:(unfold
    Je340.decode_position_packet, Je340.decode_position_look_packet, Je340.decode_digging_packet,
    Je340.decode_place_block_packet, Je340.decode_click_window_packet, Je340.decode_confirm_transaction_packet,
    Je340.decode_client_settings_packet; branch_total).
Qed.
Lemma store_body_340 store session p id :
  answers (store_step store session) (Je340.decode_body store session p id).
Proof.
  unfold Je340.decode_body, Je340.decode_confirm_transaction_packet. decoder_branches branch_store.
Qed.
Lemma total_body_404 store session p id : store_known store -> total 0 (Je404.decode_body store session p id).
Proof.
  intros Hs. pose proof (click_known _ session Je404.INVENTORY_SPEC Hs). unfold Je404.decode_body.
  decoder_branches ltac:(unfold
    Je404.decode_position_packet, Je404.decode_position_look_packet, Je404.decode_digging_packet,
    Je404.decode_place_block_packet, Je404.decode_click_window_packet, Je404.decode_confirm_transaction_packet,
    Je404.decode_client_settings_packet; branch_total).
Qed.
Lemma store_body_404 store session p id :
  answers (store_step store session) (Je404.decode_body store session p id).
Proof.
  unfold Je404.decode_body, Je404.decode_confirm_transaction_packet. decoder_branches branch_store.
Qed.

(** The packet that sets a slot of the creative inventory, with a stack whose tag nests [levels]
    compounds. *)
Definition creative_packet_id (v : JavaVersion) : Z :=
  match v with
  | V5 => Je5.PACKET_SB_CREATIVE_INVENTORY_ACTION
  | V47 => Je47.PACKET_SB_CREATIVE_INVENTORY_ACTION
  | V340 => Je340.PACKET_SB_CREATIVE_INVENTORY_ACTION
  | V404 | V775 => Je404.PACKET_SB_CREATIVE_INVENTORY_ACTION
  end.
Definition creative_encoding (v : JavaVersion) : SlotEncoding :=
  spec_slot match v with
            | V5 => Je5.INVENTORY_SPEC
            | V47 => Je47.INVENTORY_SPEC
            | V340 => Je340.INVENTORY_SPEC
            | V404 | V775 => Je404.INVENTORY_SPEC
            end.
Definition nested_frame (v : JavaVersion) (levels : nat) : list byte :=
  [Z_byte (creative_packet_id v)] ++ [Z_byte 0; Z_byte 5] ++ nested_slot (creative_encoding v) levels.
Lemma nested_frame_length v levels : len (nested_frame v levels) <= 3 * Z.of_nat levels + 11.
Proof. unfold nested_frame. pose proof (nested_slot_length (creative_encoding v) levels). rewrite !length_app. cbn [length]. lia. Qed.
Lemma creative_slot_overflows (spec : InventoryProtocolSpec) p :
  spec_slot spec = LegacySlot RootTag \/ spec_slot spec = PresentVarInt RootTag ->
  overflows (read_creative_slot spec p) ([Z_byte 0; Z_byte 5] ++ nested_slot (spec_slot spec) stack_levels).
Proof.
  intros Hs. apply (overflows_after _ _ [Z_byte 0; Z_byte 5] 5); [by apply (reads_i16_of 5)|].
  by apply overflows_bind, nested_slot_overflows.
Qed.
Lemma nested_frame_overflows v session store :
  v <> V5 -> is_Some (ps_player_id session) -> 3 * Z.of_nat stack_levels + 11 <= usize_max ->
  decode_play v session store (nested_frame v stack_levels) = OutOfFuel.
Proof.
  intros Hv [p Hp] Hl. pose proof (nested_frame_length v stack_levels) as Hlen.
  assert (forall body, overflows (body p (creative_packet_id v)) ([Z_byte 0; Z_byte 5] ++ nested_slot (creative_encoding v) stack_levels) ->
    decode_play_with session (nested_frame v stack_levels) body = OutOfFuel) as Hbody.
  { intros body Hb. unfold decode_play_with. rewrite Hp. unfold read_frame.
    apply (overflows_reader (id ← read_varint; body p id)); [|lia].
    apply (overflows_after _ _ [Z_byte (creative_packet_id v)] (creative_packet_id v)); [|exact Hb].
    destruct v; [done|..]; (lazymatch goal with |- reads _ _ ?n => exact (reads_varint n ltac:(done)) end). }
  destruct v; [done|..]; apply Hbody; apply overflows_bind; apply creative_slot_overflows; auto.
Qed.

(** C32: no bytes that a client sends make a decoder panic.  Whatever the version, the session and
    the frame, where arithmetic wraps, the windows the store tracks are of containers with a
    layout, and the stack of the thread has a level for every byte of the frame, decoding
    answers a command, nothing or an error, and the store still tracks only such windows.  The
    stack is needed: but for 1.7.10, a frame of three bytes a level, the packet of a creative slot
    with an item whose tag nests compounds, overflows a stack of any height, which aborts the
    process where the other faults of a frame are errors. *)
Theorem decode_play_safe v session store :
  (forall frame, store_known store -> len frame <= i64_max -> len frame <= Z.of_nat stack_levels ->
    match decode_play v session store frame with
    | Ok (_, store') => store_known store'
    | Err _ => True
    | Panic | OutOfFuel => False
    end) /\
  (v <> V5 -> is_Some (ps_player_id session) -> 3 * Z.of_nat stack_levels + 11 <= usize_max ->
    exists frame, len frame <= 3 * Z.of_nat stack_levels + 11 /\ decode_play v session store frame = OutOfFuel).
Proof.
  split.
  - intros frame Hs Hl Hstack. assert (forall t ok, store_known (act store (ActAck session t ok))) as Ha by (intros; by apply act_known).
    destruct v; eapply decode_play_with_ok; eauto using total_body_5, total_body_47, total_body_340, total_body_404,
      store_body_5, store_body_47, store_body_340, store_body_404.
  - intros Hv Hp Hl. exists (nested_frame v stack_levels). split; [apply nested_frame_length|by apply nested_frame_overflows].
Qed.
End AnyFrame.

(** ** Witness *)

Definition sample_env : JavaEnv := {|
  uuid_hyphenated := fun _ => "00000000-0000-0000-0000-000000000001";
  uuid_as_bytes := fun _ => replicate 16 Byte.x00;
  uuid_new_v3 := fun _ => replicate 16 Byte.x00;
  json_text_component := fun s => s;
  json_status := fun _ => "{}";
  json_session_to_vec := fun _ => Ok [];
  json_session_from_slice := fun _ => Ok session_state_default;
  zlib := Some
|}.
Definition sample_session : ProtocolSessionSnapshot := mkSessionSnapshot 4 PhasePlay (Some 7) None.
Definition sample_store : JavaProtocolSessionStore :=
  {[4 := mkJavaSession (Some (mkTracked 3 ids.CHEST_27)) None]}.
Lemma sample_store_known : store_known sample_store.
Proof. apply map_Forall_singleton. by eexists. Qed.
(** A click with a stack the form of 1.8 cannot hold to its end; and 203 bytes against a stack of
    64 levels. *)
Lemma decode_play_safe_witness :
  let B : Build := mkBuild false 64 in let E := sample_env in
  match decode_play V47 sample_session sample_store
    [Byte.x0e; Byte.x03; Byte.x00; Byte.x05; Byte.x00; Byte.x00; Byte.x01; Byte.x00; Byte.x00; Byte.x01] with
  | Ok (_, store') => store_known store'
  | Err _ => True
  | Panic | OutOfFuel => False
  end /\
  exists frame, len frame <= 203 /\ decode_play V340 sample_session sample_store frame = OutOfFuel.
Proof.
  intros B E. assert (overflow_checks = false) as Hb by reflexivity. split.
  - apply (proj1 (decode_play_safe Hb V47 sample_session sample_store)); [apply sample_store_known|vm_compute; discriminate..].
  - apply (proj2 (decode_play_safe Hb V340 sample_session sample_store)); [discriminate|by eexists|vm_compute; discriminate].
Defined.
