(* ===== verification/JavaClient.v ===== *)
(** * What a Java client sends and is understood to mean
    ([src/plugins/protocol/je-*/mc-proto-je-*/src]: decoding.rs, encoding.rs)

    The packets of the play phase as a client writes them, field by field in the form of its
    version, and the command that each of them is.  The decoders of [Je5], [Je47], [Je340] and
    [Je404] implement this reading. *)

From Stdlib Require Import Floats.SpecFloat.
From S2P Require Import Prelude Bytes VoxelModel VoxelItems VoxelContent VoxelState VoxelEvents ProtoPacket JavaSlots JavaSession JavaChunks JavaPlay.
From S2P Require Je5 Je47 Je340 Je404 Je775.
From S2P Require Import JavaAdapter.

Inductive ClientPacket : Type :=
| CKeepAlive (id : Z)
| CFlying (ground : bool)
| CPosition (at_ : Vec3) (stance : spec_float) (ground : bool)
| CLook (yaw pitch : spec_float) (ground : bool)
| CPositionLook (at_ : Vec3) (stance yaw pitch : spec_float) (ground : bool)
| CDig (status : Z) (at_ : BlockPos) (face : Z)
| CUse (hand : InteractionHand) (at_ : BlockPos) (face : Z) (held : option ItemStack)
| CHeldSlot (slot : Z)
| CClick (window_id raw button action mode : Z) (item : option ItemStack)
| CAck (window_id action : Z) (accepted : bool)
| CClose (window_id : Z)
| CCreative (raw : Z) (item : option ItemStack)
| CSettings (locale : string) (distance chat : Z) (colors : bool) (parts hand : Z)
| CCommand (action : Z).

Definition version_spec (v : JavaVersion) : InventoryProtocolSpec :=
  match v with
  | V5 => JE_1_7_10_INVENTORY_SPEC
  | V47 => JE_1_8_X_INVENTORY_SPEC
  | V340 => JE_1_12_2_INVENTORY_SPEC
  | V404 | V775 => JE_1_13_2_INVENTORY_SPEC
  end.
Definition serverbound_id (v : JavaVersion) (c : ClientPacket) : Z :=
  let pick old v340 v404 := match v with V5 | V47 => old | V340 => v340 | V404 | V775 => v404 end in
  match c with
  | CKeepAlive _ => pick 0x00 0x0b 0x0e
  | CFlying _ => pick 0x03 0x0c 0x0f
  | CPosition _ _ _ => pick 0x04 0x0d 0x10
  | CLook _ _ _ => pick 0x05 0x0f 0x12
  | CPositionLook _ _ _ _ _ => pick 0x06 0x0e 0x11
  | CDig _ _ _ => pick 0x07 0x14 0x18
  | CUse _ _ _ _ => pick 0x08 0x1f 0x29
  | CHeldSlot _ => pick 0x09 0x1a 0x21
  | CClick _ _ _ _ _ _ => pick 0x0e 0x07 0x08
  | CAck _ _ _ => pick 0x0f 0x05 0x06
  | CClose _ => pick 0x0d 0x08 0x09
  | CCreative _ _ => pick 0x10 0x1b 0x24
  | CSettings _ _ _ _ _ _ => pick 0x15 0x04 0x04
  | CCommand _ => pick 0x16 0x03 0x03
  end.

(** ** The form of a packet *)

Inductive Part : Type := PartField (f : Field) | PartSlot (s : option ItemStack).
Definition float_zero : spec_float := S754_zero false.
Definition hand_number (h : InteractionHand) : Z := match h with HandMain => 0 | HandOffhand => 1 end.
Definition height (v : JavaVersion) (stance : spec_float) : list Part :=
  match v with V5 => [PartField (FieldF64 stance)] | _ => [] end.
Definition vec_parts (v : JavaVersion) (p : Vec3) (stance : spec_float) : list Part :=
  [PartField (FieldF64 (vx p))] ++ height v stance ++ [PartField (FieldF64 (vy p)); PartField (FieldF64 (vz p))].
Definition client_parts (v : JavaVersion) (c : ClientPacket) : list Part :=
  let fields := map PartField in
  match c with
  | CKeepAlive id =>
      fields [match v with V5 => FieldI32 id | V47 => FieldVarint id | _ => FieldI64 id end]
  | CFlying g => fields [FieldBool g]
  | CPosition p stance g => vec_parts v p stance ++ fields [FieldBool g]
  | CLook yaw pitch g => fields [FieldF32 yaw; FieldF32 pitch; FieldBool g]
  | CPositionLook p stance yaw pitch g => vec_parts v p stance ++ fields [FieldF32 yaw; FieldF32 pitch; FieldBool g]
  | CDig status p face =>
      match v with
      | V5 => fields [FieldU8 status; FieldI32 (bx p); FieldU8 (by_ p); FieldI32 (bz p); FieldU8 face]
      | _ => fields [FieldVarint status; FieldI64 (pack_block_position p); FieldI8 face]
      end
  | CUse hand p face held =>
      match v with
      | V5 => fields [FieldI32 (bx p); FieldU8 (by_ p); FieldI32 (bz p); FieldU8 face] ++ [PartSlot held] ++
          fields [FieldU8 8; FieldU8 8; FieldU8 8]
      | V47 => fields [FieldI64 (pack_block_position p); FieldI8 face] ++ [PartSlot held] ++
          fields [FieldI8 8; FieldI8 8; FieldI8 8]
      | _ => fields ([FieldI64 (pack_block_position p); FieldVarint face; FieldVarint (hand_number hand);
          FieldF32 float_zero; FieldF32 float_zero; FieldF32 float_zero] ++
          match v with V340 => [] | _ => [FieldBool false] end)
      end
  | CHeldSlot slot => fields [FieldI16 slot]
  | CClick window_id raw button action mode item =>
      fields [FieldU8 window_id; FieldI16 raw; FieldI8 button; FieldI16 action;
        match v with V5 | V47 => FieldI8 mode | _ => FieldVarint mode end] ++ [PartSlot item]
  | CAck window_id action accepted => fields [FieldU8 window_id; FieldI16 action; FieldBool accepted]
  | CClose window_id => fields [FieldU8 window_id]
  | CCreative raw item => fields [FieldI16 raw] ++ [PartSlot item]
  | CSettings locale distance chat colors parts hand =>
      fields ([FieldString 16 locale; FieldI8 distance;
        match v with V5 | V47 => FieldI8 chat | _ => FieldVarint chat end; FieldBool colors; FieldU8 parts] ++
        match v with V5 => [FieldBool true] | V47 => [] | _ => [FieldVarint hand] end)
  | CCommand action => fields [match v with V5 => FieldI8 action | _ => FieldVarint action end]
  end.
Definition slot_bytes (v : JavaVersion) (s : option ItemStack) : list byte :=
  match written (write_slot s (spec_slot (version_spec v))) with Ok bytes => bytes | _ => [] end.
Definition part_bytes (v : JavaVersion) (p : Part) : list byte :=
  match p with PartField f => field_bytes f | PartSlot s => slot_bytes v s end.
Definition client_bytes (v : JavaVersion) (c : ClientPacket) : list byte :=
  mjoin (map (part_bytes v) (PartField (FieldVarint (serverbound_id v c)) :: client_parts v c)).

(** What the form has room for: fields in range, stacks that have an identifier and no damage. *)
Definition part_ok (v : JavaVersion) (p : Part) : Prop :=
  match p with
  | PartField f => field_ok f
  | PartSlot s => written (write_slot s (spec_slot (version_spec v))) = Ok (slot_bytes v s) /\
      forall stack, s = Some stack -> 0 <= count stack < 256 /\ damage stack = 0
  end.
Definition position_fits (v : JavaVersion) (p : BlockPos) : Prop :=
  match v with
  | V5 => True
  | _ => - 2 ^ 25 <= bx p < 2 ^ 25 /\ - 2 ^ 11 <= by_ p < 2 ^ 11 /\ - 2 ^ 25 <= bz p < 2 ^ 25
  end.
Definition client_ok (v : JavaVersion) (c : ClientPacket) : Prop :=
  Forall (part_ok v) (client_parts v c) /\
  match c with
  | CKeepAlive id => - i32_max - 1 <= id <= i32_max
  | CDig status p face => 0 <= status < 256 /\ 0 <= face < 128 /\ position_fits v p
  | CUse _ p face _ => 0 <= face < 128 /\ position_fits v p
  | CCommand action => -128 <= action < 128
  | _ => True
  end.

(** ** The meaning of a packet *)

Section Meaning.
Context (v : JavaVersion) (session : ProtocolSessionSnapshot) (store : JavaProtocolSessionStore) (p : PlayerId).

Definition layout : PlayerInventoryLayout := spec_layout (version_spec v).
Definition clicked_slot (container : string) (raw : Z) : InventoryClickTarget :=
  match inventory_slot container layout raw with Some (Some slot) => TargetSlot slot | _ => TargetUnsupported end.
(** Only plain clicks with the two buttons are understood. *)
Definition clicked (window_id raw button mode : Z) : InventoryClickTarget :=
  if (mode =? 0) && ((button =? 0) || (button =? 1)) then
    if raw =? -999 then TargetOutside
    else match resolve_container store session window_id with
         | Some container => clicked_slot container raw
         | None => TargetUnsupported
         end
  else TargetUnsupported.
Definition meaning (c : ClientPacket) : option RuntimeCommand :=
  let game c := Some (RuntimeCore (Gameplay c)) in
  match c with
  | CKeepAlive id => Some (RuntimeCore (KeepAliveResponse p id))
  | CFlying g => game (MoveIntent p None None None g)
  | CPosition at_ _ g => game (MoveIntent p (Some at_) None None g)
  | CLook yaw pitch g => game (MoveIntent p None (Some yaw) (Some pitch) g)
  | CPositionLook at_ _ yaw pitch g => game (MoveIntent p (Some at_) (Some yaw) (Some pitch) g)
  | CDig status at_ face => game (DigBlock p at_ status (from_protocol_byte face))
  | CUse hand at_ face held =>
      match v with
      | V5 | V47 => game (UseBlock p HandMain at_ (from_protocol_byte face) held)
      | _ => game (UseBlock p hand at_ (from_protocol_byte face) None)
      end
  | CHeldSlot slot => game (SetHeldSlot p slot)
  | CClick window_id raw button action mode item =>
      if should_gate_click store session (mkTransaction window_id action) then None
      else Some (RuntimeCore (CommandInventoryClick p (mkTransaction window_id action)
        (clicked window_id raw button mode) (if button =? 1 then RightButton else LeftButton) (StrictSlotEcho item)))
  | CAck window_id action accepted =>
      Some (RuntimeSession (InventoryTransactionAck p (mkTransaction window_id action) accepted))
  | CClose window_id => Some (RuntimeCore (CommandCloseContainer p window_id))
  | CCreative raw item =>
      match inventory_slot ids.PLAYER layout raw with
      | Some (Some slot) => game (CreativeInventorySet p slot item)
      | _ => None
      end
  | CSettings _ distance _ _ _ _ => Some (RuntimeCore (UpdateClientView p (Z.max distance 1)))
  | CCommand action => Some (RuntimeSession (ClientStatus p action))
  end.
Definition meaning_store (c : ClientPacket) : JavaProtocolSessionStore :=
  match c with
  | CAck window_id action accepted => act store (ActAck session (mkTransaction window_id action) accepted)
  | _ => store
  end.
End Meaning.

(** ** The decoders implement it *)

Section Decode.
Context `{Build} `{JavaEnv}.

Lemma reads_slot v s : part_ok v (PartSlot s) ->
  reads (read_slot (spec_slot (version_spec v))) (slot_bytes v s) s.
Proof. intros [Hw Hs]. by apply slot_codec. Qed.
Lemma reads_expect {A} (o : option A) a : o = Some a -> reads (expect o) [] a.
Proof. intros ->. apply reads_ret. Qed.
Lemma reads_try_from lo hi message z : lo <= z <= hi -> reads (try_from lo hi message z) [] z.
Proof. intros Hz. unfold try_from. rewrite !(proj2 (Z.leb_le _ _)) by lia. apply reads_ret. Qed.
Lemma reads_bind_nil {A B} (m : Read A) (f : A -> Read B) b a c :
  reads m [] a -> reads (f a) b c -> reads (m ≫= f) b c.
Proof. apply (reads_bind m f [] b). Qed.
Lemma reads_packed p : position_fits V47 p -> - i64_max - 1 <= pack_block_position p <= i64_max ->
  reads read_packed_position (field_bytes (FieldI64 (pack_block_position p))) p.
Proof.
  intros Hp Hf. unfold read_packed_position. rewrite <- (app_nil_r (field_bytes _)).
  eapply reads_bind; [apply reads_i64_of, Hf|]. apply reads_expect.
  apply positions_roundtrip; apply Hp.
Qed.
Lemma reads_assoc {A B C} (m : Read A) (f : A -> Read B) (g : B -> Read C) b c :
  reads (x ← m; f x ≫= g) b c -> reads ((m ≫= f) ≫= g) b c.
Proof.
  intros Hr pre rest Hl. specialize (Hr pre rest Hl). revert Hr. unfold mbind, M_bind.
  by destruct (m _) as [r [a|e| |]].
Qed.
Lemma reads_ret_bind {A B} (a : A) (f : A -> Read B) b c : reads (f a) b c -> reads (mret a ≫= f) b c.
Proof. done. Qed.
Lemma reads_ret_eq {A} (a b : A) : a = b -> reads (mret a) [] b.
Proof. intros ->. apply reads_ret. Qed.

Lemma reads_click_target v store session window_id raw button mode : store_known store ->
  reads (click_target (version_spec v) store session window_id raw button mode) []
    (clicked v session store window_id raw button mode).
Proof.
  intros Hs. unfold click_target, clicked, clicked_slot, layout.
  destruct (mode =? 0), ((button =? 0) || (button =? 1)); cbn [negb orb andb]; try apply reads_ret.
  case_match; [apply reads_ret|]. destruct (resolve_container store session window_id) as [container|] eqn:E; [|apply reads_ret].
  destruct (inventory_slot_known container (spec_layout (version_spec v)) raw) as [slot Hslot]; [by eapply resolved_known|].
  rewrite Hslot. eapply reads_bind_nil; [by apply reads_expect|]. destruct slot; apply reads_ret.
Qed.
Lemma player_slot_known v raw : exists slot, inventory_slot ids.PLAYER (layout v) raw = Some slot.
Proof. unfold inventory_slot. change (is_player_container ids.PLAYER) with true. by eexists. Qed.
Lemma view_distance_max d : Z.max (i8_to_u8 d) 1 = Z.max d 1.
Proof. unfold i8_to_u8. destruct (Z.ltb_spec d 0); lia. Qed.
Lemma to_unsigned_face face : 0 <= face < 128 -> to_unsigned 8 face = face.
Proof. intros Hf. apply Z.mod_small. lia. Qed.

(** Reads a packet part by part. *)
Ltac read_leaf :=
  lazymatch goal with
  | |- reads read_u8 _ _ => apply reads_u8_of
  | |- reads read_i8 _ _ => apply reads_i8_of
  | |- reads read_bool [Z_byte 0] _ => exact (reads_bool_of false)
  | |- reads read_bool [Z_byte 1] _ => exact (reads_bool_of true)
  | |- reads read_bool _ _ => apply reads_bool_of
  | |- reads read_i16 _ _ => apply reads_i16_of
  | |- reads read_i32 _ _ => apply reads_i32_of
  | |- reads read_i64 _ _ => apply reads_i64_of
  | |- reads read_f32 _ _ => apply reads_f32_of
  | |- reads read_f64 _ _ => apply reads_f64_of
  | |- reads read_varint _ _ => apply reads_varint
  | |- reads (read_string _) _ _ => apply reads_string
  | |- reads (read_slot _) (slot_bytes ?v _) _ => apply (reads_slot v)
  | |- reads read_packed_position (to_be_bytes 8 (to_unsigned 64 (pack_block_position ?p))) _ =>
      apply (reads_packed p)
  end; assumption.
Ltac read_part :=
  lazymatch goal with
  | |- reads (mret _ ≫= _) _ _ => apply reads_ret_bind
  | |- reads ((_ ≫= _) ≫= _) _ _ => apply reads_assoc
  | |- reads (try_from _ _ _ _ ≫= _) _ _ =>
      eapply reads_bind_nil; [apply reads_try_from; unfold u8_max, i32_max in *; lia|]
  | |- reads (decode_interaction_hand (hand_number ?h) ≫= _) _ _ =>
      eapply reads_bind_nil; [by instantiate (1 := h); destruct h; apply reads_ret|]
  | |- reads (click_target _ _ _ _ _ _ _ ≫= _) _ _ =>
      eapply reads_bind_nil; [first [by apply (reads_click_target V5) | by apply (reads_click_target V47)
        | by apply (reads_click_target V340) | by apply (reads_click_target V404)]|]
  | |- reads ((if should_gate_click ?store ?session ?t then _ else _) ≫= _) _ _ =>
      let E := fresh "Hgate" in destruct (should_gate_click store session t) eqn:E
  | Hf : 0 <= ?face < 128 |- reads ((if _ && (?face =? ?special) then _ else _) ≫= _) _ _ =>
      replace (face =? special) with false by (symmetry; apply Z.eqb_neq; lia); rewrite andb_false_r
  | Hf : 0 <= ?face < 128 |- context [if ?face <? 0 then _ else _] =>
      replace (face <? 0) with false by (symmetry; apply Z.ltb_ge; lia)
  | |- reads (_ ≫= _) (_ ++ _) _ => eapply reads_bind; [read_leaf|]
  end.
Ltac read_parts := repeat read_part.
(** The answer is the meaning. *)
Ltac read_answer :=
  apply reads_ret_eq; cbv [meaning meaning_store runtime_gameplay act];
  rewrite ?view_distance_max, ?to_unsigned_face by assumption;
  try match goal with E : should_gate_click _ _ _ = _ |- _ => rewrite E end;
  try match goal with E : should_gate_click _ _ _ = _ |- _ => rewrite E end;
  repeat match goal with p : Vec3 |- _ => destruct p | p : BlockPos |- _ => destruct p end; reflexivity.
Ltac parts_ok H :=
  let Hparts := fresh "Hparts" in
  destruct H as [Hparts H];
  repeat (let h := fresh "Hpart" in apply Forall_cons in Hparts as [h Hparts]; cbn [part_ok field_ok] in h);
  repeat match goal with Hc : _ /\ _ |- _ => lazymatch type of Hc with
    | written _ = _ /\ _ => fail
    | _ <= _ <= _ => fail
    | _ <= _ < _ => fail
    | _ => destruct Hc
    end end.

Ltac select_5 := cbv [Je5.decode_body serverbound_id Z.eqb Pos.eqb
  Je5.PACKET_SB_KEEP_ALIVE Je5.PACKET_SB_FLYING Je5.PACKET_SB_POSITION
  Je5.PACKET_SB_LOOK Je5.PACKET_SB_POSITION_LOOK Je5.PACKET_SB_PLAYER_DIGGING
  Je5.PACKET_SB_PLAYER_BLOCK_PLACEMENT Je5.PACKET_SB_HELD_ITEM_CHANGE Je5.PACKET_SB_CLOSE_WINDOW
  Je5.PACKET_SB_CLICK_WINDOW Je5.PACKET_SB_CONFIRM_TRANSACTION Je5.PACKET_SB_CREATIVE_INVENTORY_ACTION
  Je5.PACKET_SB_SETTINGS Je5.PACKET_SB_CLIENT_COMMAND].

Ltac select_47 := cbv [Je47.decode_body serverbound_id Z.eqb Pos.eqb
  Je47.PACKET_SB_KEEP_ALIVE Je47.PACKET_SB_FLYING Je47.PACKET_SB_POSITION
  Je47.PACKET_SB_LOOK Je47.PACKET_SB_POSITION_LOOK Je47.PACKET_SB_PLAYER_DIGGING
  Je47.PACKET_SB_PLAYER_BLOCK_PLACEMENT Je47.PACKET_SB_HELD_ITEM_CHANGE Je47.PACKET_SB_CLOSE_WINDOW
  Je47.PACKET_SB_CLICK_WINDOW Je47.PACKET_SB_CONFIRM_TRANSACTION Je47.PACKET_SB_CREATIVE_INVENTORY_ACTION
  Je47.PACKET_SB_SETTINGS Je47.PACKET_SB_CLIENT_COMMAND].

Ltac select_340 := cbv [Je340.decode_body serverbound_id Z.eqb Pos.eqb
  Je340.PACKET_SB_KEEP_ALIVE Je340.PACKET_SB_FLYING Je340.PACKET_SB_POSITION
  Je340.PACKET_SB_POSITION_LOOK Je340.PACKET_SB_LOOK Je340.PACKET_SB_PLAYER_DIGGING
  Je340.PACKET_SB_HELD_ITEM_CHANGE Je340.PACKET_SB_CREATIVE_INVENTORY_ACTION Je340.PACKET_SB_PLAYER_BLOCK_PLACEMENT
  Je340.PACKET_SB_USE_ITEM Je340.PACKET_SB_CLIENT_COMMAND Je340.PACKET_SB_SETTINGS
  Je340.PACKET_SB_CONFIRM_TRANSACTION Je340.PACKET_SB_CLOSE_WINDOW Je340.PACKET_SB_CLICK_WINDOW].

Ltac select_404 := cbv [Je404.decode_body serverbound_id Z.eqb Pos.eqb
  Je404.PACKET_SB_KEEP_ALIVE Je404.PACKET_SB_FLYING Je404.PACKET_SB_POSITION
  Je404.PACKET_SB_POSITION_LOOK Je404.PACKET_SB_LOOK Je404.PACKET_SB_PLAYER_DIGGING
  Je404.PACKET_SB_HELD_ITEM_CHANGE Je404.PACKET_SB_CREATIVE_INVENTORY_ACTION Je404.PACKET_SB_PLAYER_BLOCK_PLACEMENT
  Je404.PACKET_SB_USE_ITEM Je404.PACKET_SB_CLIENT_COMMAND Je404.PACKET_SB_SETTINGS
  Je404.PACKET_SB_CONFIRM_TRANSACTION Je404.PACKET_SB_CLOSE_WINDOW Je404.PACKET_SB_CLICK_WINDOW].

Lemma reads_body_5 c store session p : client_ok V5 c -> store_known store ->
  reads (Je5.decode_body store session p (serverbound_id V5 c)) (mjoin (map (part_bytes V5) (client_parts V5 c)))
    (meaning V5 session store p c, meaning_store session store c).
Proof.
  intros Hc Hs. destruct c; parts_ok Hc; select_5;
    cbn [client_parts vec_parts height map app]; rewrite ?mjoin_cons; cbn [part_bytes field_bytes];
    unfold Je5.decode_position_packet, Je5.decode_position_look_packet, Je5.decode_digging_packet,
    Je5.decode_place_block_packet, Je5.decode_click_window_packet, Je5.decode_confirm_transaction_packet,
    Je5.decode_client_settings_packet, Je5.read_block_position,
    some_command, any_command, ack_command, read_flying, read_look, read_position, read_position_look,
    read_stance, read_held_slot, read_click_window, read_confirm_transaction, read_close_container, read_creative_slot,
    read_digging, read_client_command, move_intent; read_parts.
  all: read_answer.
Qed.
Lemma reads_body_47 c store session p : client_ok V47 c -> store_known store ->
  reads (Je47.decode_body store session p (serverbound_id V47 c)) (mjoin (map (part_bytes V47) (client_parts V47 c)))
    (meaning V47 session store p c, meaning_store session store c).
Proof.
  intros Hc Hs. destruct c; parts_ok Hc; select_47;
    cbn [client_parts vec_parts height map app]; rewrite ?mjoin_cons; cbn [part_bytes field_bytes];
    unfold Je47.decode_position_packet, Je47.decode_position_look_packet, Je47.decode_digging_packet,
    Je47.decode_place_block_packet, Je47.decode_click_window_packet, Je47.decode_confirm_transaction_packet,
    Je47.decode_client_settings_packet,
    some_command, any_command, ack_command, read_flying, read_look, read_position, read_position_look,
    read_stance, read_held_slot, read_click_window, read_confirm_transaction, read_close_container, read_creative_slot,
    read_digging, read_client_command, move_intent; read_parts.
  all: read_answer.
Qed.
Lemma reads_body_340 c store session p : client_ok V340 c -> store_known store ->
  reads (Je340.decode_body store session p (serverbound_id V340 c)) (mjoin (map (part_bytes V340) (client_parts V340 c)))
    (meaning V340 session store p c, meaning_store session store c).
Proof.
  intros Hc Hs. destruct c; parts_ok Hc; select_340;
    cbn [client_parts vec_parts height map app]; rewrite ?mjoin_cons; cbn [part_bytes field_bytes];
    unfold Je340.decode_position_packet, Je340.decode_position_look_packet, Je340.decode_digging_packet,
    Je340.decode_place_block_packet, Je340.decode_click_window_packet, Je340.decode_confirm_transaction_packet,
    Je340.decode_client_settings_packet,
    some_command, any_command, ack_command, read_flying, read_look, read_position, read_position_look,
    read_stance, read_held_slot, read_click_window, read_confirm_transaction, read_close_container, read_creative_slot,
    read_digging, read_client_command, move_intent; read_parts.
  all: read_answer.
Qed.
Lemma reads_body_404 c store session p : client_ok V404 c -> store_known store ->
  reads (Je404.decode_body store session p (serverbound_id V404 c)) (mjoin (map (part_bytes V404) (client_parts V404 c)))
    (meaning V404 session store p c, meaning_store session store c).
Proof.
  intros Hc Hs. destruct c; parts_ok Hc; select_404;
    cbn [client_parts vec_parts height map app]; rewrite ?mjoin_cons; cbn [part_bytes field_bytes];
    unfold Je404.decode_position_packet, Je404.decode_position_look_packet, Je404.decode_digging_packet,
    Je404.decode_place_block_packet, Je404.decode_click_window_packet, Je404.decode_confirm_transaction_packet,
    Je404.decode_client_settings_packet,
    some_command, any_command, ack_command, read_flying, read_look, read_position, read_position_look,
    read_stance, read_held_slot, read_click_window, read_confirm_transaction, read_close_container, read_creative_slot,
    read_digging, read_client_command, move_intent; read_parts.
  all: read_answer.
Qed.

Lemma client_packet_decoded_core v session store p c :
  ps_player_id session = Some p -> client_ok v c -> store_known store ->
  len (client_bytes v c) <= usize_max ->
  decode_play v session store (client_bytes v c) =
    Ok (meaning v session store p c, meaning_store session store c).
Proof.
  intros Hp Hc Hs Hl.
  assert (forall body, reads (body p (serverbound_id v c)) (mjoin (map (part_bytes v) (client_parts v c)))
      (meaning v session store p c, meaning_store session store c) ->
    decode_play_with session (client_bytes v c) body = Ok (meaning v session store p c, meaning_store session store c))
    as Hgo.
  { intros body Hbody. unfold decode_play_with. rewrite Hp. unfold read_frame.
    assert (reads (id ← read_varint; body p id) (client_bytes v c) (meaning v session store p c, meaning_store session store c)) as Hr.
    { unfold client_bytes. cbn [map]. rewrite mjoin_cons. eapply reads_bind; [|exact Hbody]. apply reads_varint.
      destruct v, c; unfold i32_max; cbn; lia. }
    rewrite <- (app_nil_r (client_bytes v c)), (reads_read _ _ _ [] Hr); [done|]. by rewrite app_nil_r. }
  destruct v; apply Hgo; [apply reads_body_5|apply reads_body_47|apply reads_body_340|apply reads_body_404
    |exact (reads_body_404 c store session p Hc Hs)]; done.
Qed.

(** A packet of another number is no command. *)
Ltac other_number H :=
  exfalso; first
    [ exact (H (CKeepAlive 0) eq_refl) | exact (H (CFlying true) eq_refl)
    | exact (H (CPosition (mkVec3 float_zero float_zero float_zero) float_zero true) eq_refl)
    | exact (H (CLook float_zero float_zero true) eq_refl)
    | exact (H (CPositionLook (mkVec3 float_zero float_zero float_zero) float_zero float_zero float_zero true) eq_refl)
    | exact (H (CDig 0 (mkBlockPos 0 0 0) 0) eq_refl) | exact (H (CUse HandMain (mkBlockPos 0 0 0) 0 None) eq_refl)
    | exact (H (CHeldSlot 0) eq_refl) | exact (H (CClick 0 0 0 0 0 None) eq_refl) | exact (H (CAck 0 0 true) eq_refl)
    | exact (H (CClose 0) eq_refl) | exact (H (CCreative 0 None) eq_refl) | exact (H (CSettings EmptyString 0 0 true 0 0) eq_refl)
    | exact (H (CCommand 0) eq_refl) ].
Definition ignored (store : JavaProtocolSessionStore) (m : Read (option RuntimeCommand * JavaProtocolSessionStore)) : Prop :=
  answers (fun answer => answer = (None, store)) m.
Lemma use_item_ignored store :
  ignored store (any_command store (raw_hand ← read_varint; _ ← decode_interaction_hand raw_hand; mret None)).
Proof.
  unfold ignored, any_command. apply (answers_from (fun c => c = None)); [|by intros c ->; apply answers_ret].
  do 2 (apply answers_bind; intros ?). by apply answers_ret.
Qed.
Ltac other_body H id :=
  repeat (lazymatch goal with |- context [id =? ?n] => destruct (Z.eqb_spec id n) as [->|_];
    [first [solve [other_number H] | apply use_item_ignored]|] end);
  by apply answers_ret.
Lemma other_body_5 store session p id : (forall c, serverbound_id V5 c <> id) -> ignored store (Je5.decode_body store session p id).
Proof. intros Hid. unfold Je5.decode_body. other_body Hid id. Qed.
Lemma other_body_47 store session p id : (forall c, serverbound_id V47 c <> id) -> ignored store (Je47.decode_body store session p id).
Proof. intros Hid. unfold Je47.decode_body. other_body Hid id. Qed.
Lemma other_body_340 store session p id : (forall c, serverbound_id V340 c <> id) -> ignored store (Je340.decode_body store session p id).
Proof. intros Hid. unfold Je340.decode_body. other_body Hid id. Qed.
Lemma other_body_404 store session p id : (forall c, serverbound_id V404 c <> id) -> ignored store (Je404.decode_body store session p id).
Proof. intros Hid. unfold Je404.decode_body. other_body Hid id. Qed.
Lemma other_packets_ignored v session store id rest answer :
  - i32_max - 1 <= id <= i32_max -> (forall c, serverbound_id v c <> id) ->
  len (field_bytes (FieldVarint id) ++ rest) <= usize_max ->
  decode_play v session store (field_bytes (FieldVarint id) ++ rest) = Ok answer -> answer = (None, store).
Proof.
  intros Hr Hid Hl.
  assert (forall body, (forall p, ignored store (body p id)) ->
    decode_play_with session (field_bytes (FieldVarint id) ++ rest) body = Ok answer -> answer = (None, store)) as Hgo.
  { intros body Hbody. unfold decode_play_with. destruct (ps_player_id session) as [p|]; [|done]. unfold read_frame.
    unfold mbind, M_bind. change (reader_new (field_bytes (FieldVarint id) ++ rest))
      with (mkReader ([] ++ field_bytes (FieldVarint id) ++ rest) (len (@nil byte))).
    rewrite (reads_varint id Hr) by done. cbn [fst snd app]. destruct (body p id _) as [r out] eqn:E. cbn [snd].
    intros ->. by eapply Hbody. }
  destruct v; apply Hgo; intros p; [by apply other_body_5|by apply other_body_47|by apply other_body_340|by apply other_body_404|by apply other_body_404].
Qed.

(** C29: fourteen packets of the play phase, those of [ClientPacket], are understood in every
    version.  What a client writes, field by field in the form of its version, is decoded to the
    command it means, with exactly the numbers and floats it was written with; a click names
    the slot its number has in the window it names; and nothing but an acknowledgement changes
    what the session remembers.  The values are those the form has room for ([client_ok]): fields
    in range, stacks without damage, components or other tags and of an item that the version
    has a number for, block faces below 128, positions that can be packed.  A frame of any other
    number is never a command and leaves what the session remembers. *)
Theorem client_packet_decoded v session store p :
  ps_player_id session = Some p -> store_known store ->
  (forall c, client_ok v c -> len (client_bytes v c) <= usize_max ->
    decode_play v session store (client_bytes v c) = Ok (meaning v session store p c, meaning_store session store c)) /\
  (forall id rest answer, - i32_max - 1 <= id <= i32_max -> (forall c, serverbound_id v c <> id) ->
    len (field_bytes (FieldVarint id) ++ rest) <= usize_max ->
    decode_play v session store (field_bytes (FieldVarint id) ++ rest) = Ok answer -> answer = (None, store)).
Proof.
  intros Hp Hs. split; [|intros id rest answer; apply other_packets_ignored]. intros c Hc Hl.
  by apply client_packet_decoded_core.
Qed.

(** ** What a window shows is what a click names *)

(** Where a client finds the slot in a packet that sets one. *)
Definition read_set_slot : Read Z := _ ← read_varint; _ ← read_i8; read_i16.

Lemma write_slot_appends stack encoding w : exists bytes, (write_slot stack encoding w).1 = w ++ bytes.
Proof.
  assert (forall m bytes, writes m bytes -> exists bytes, (m w).1 = w ++ bytes) as Hw
    by (intros m bytes Hm; exists bytes; by rewrite Hm).
  assert (exists bytes, w = w ++ bytes) as Hn by (exists []; by rewrite app_nil_r).
  destruct encoding as [nbt|nbt], stack as [stack|]; cbn [write_slot];
    try (eapply Hw; auto with wire; fail); case_match; try exact Hn; try case_match;
    destruct nbt; cbn [write_empty_slot_nbt]; eapply Hw; eauto 10 with wire.
Qed.
Lemma set_slot_bytes spec id window_id raw stack frame :
  set_slot_packet spec id window_id raw stack = Ok frame ->
  exists rest, frame = varint_bytes 5 (to_unsigned 32 id) ++ [Z_byte (to_unsigned 8 window_id)] ++
    to_be_bytes 2 (to_unsigned 16 raw) ++ rest.
Proof.
  unfold set_slot_packet, written, mbind, M_bind. rewrite (writes_varint id []). cbn [app].
  rewrite writes_i8, writes_i16. intros Hf.
  destruct (write_slot_appends stack (spec_slot spec) (varint_bytes 5 (to_unsigned 32 id) ++
    [Z_byte (to_unsigned 8 window_id)] ++ to_be_bytes 2 (to_unsigned 16 raw))) as [rest Hr].
  rewrite <- app_assoc in Hf. destruct (write_slot _ _ _) as [w out]. cbn [fst] in Hr. exists rest.
  destruct out; [|done..]. injection Hf as <-. by rewrite Hr, <- !app_assoc.
Qed.

Definition set_slot_id (v : JavaVersion) : Z :=
  match v with V5 | V47 => 0x2f | V340 => 0x16 | V404 | V775 => 0x17 end.
Lemma slot_changed_packet v window_id container slot stack frame :
  @profile_inventory_slot_changed (java_profile v) window_id container slot stack = Ok (Some frame) ->
  exists raw, protocol_slot container (layout v) slot = Some (Some raw) /\
    set_slot_packet (version_spec v) (set_slot_id v) (signed_window_id window_id) raw stack = Ok frame.
Proof.
  intros Hf. assert (slot_changed (version_spec v) (set_slot_packet (version_spec v) (set_slot_id v)) window_id container slot stack = Ok (Some frame))
    as Hs by (by destruct v).
  unfold slot_changed, layout in *. destruct (protocol_slot container _ slot) as [[raw|]|]; [|done..].
  exists raw. split; [done|]. cbn [expect_ok mbind result_bind] in Hs.
  destruct (set_slot_packet _ _ _ raw stack) as [f|e| |] eqn:E; try done. by injection Hs as <-.
Qed.

Lemma protocol_slot_range container layout slot raw :
  protocol_slot container layout slot = Some (Some raw) -> slot_wf slot -> 0 <= raw < 128.
Proof.
  unfold protocol_slot. destruct (is_player_container container) eqn:Ep.
  - intros [= Hr] Hw. destruct layout, slot as [i|i|i|]; cbn in Hr, Hw; repeat case_match; simplify_eq; lia.
  - destruct (container_descriptor container) as [d|] eqn:Ed; [|done]. cbn [mbind option_bind]. intros [= Hr] Hw.
    destruct (descriptor_cases _ _ Ed) as [[-> ->]|(_ & E1 & E2 & E3 & _)]; [done|].
    destruct slot as [i|i|i|]; cbn in Hr, Hw; repeat case_match; simplify_eq; lia.
Qed.

(** C31: a click names the slot the server showed.  When a session has been told that a window of
    a container was opened, and the server sends it a slot of that window, then the number the
    client finds in that packet is one that, clicked in that window (by either button, while no
    rejected transaction of the window is pending), is understood as a click on the same slot. *)
Theorem click_names_slot v session store p window_id container title slot stack frame action button item :
  ps_player_id session = Some p -> store_known store -> 0 < window_id < 256 ->
  container <> ids.PLAYER -> is_Some (container_descriptor container) -> slot_wf slot ->
  let store' := store_observe_event session (ContainerOpened window_id container title) store in
  should_gate_click store' session (mkTransaction window_id action) = false ->
  @profile_inventory_slot_changed (java_profile v) window_id container slot stack = Ok (Some frame) ->
  -32768 <= action < 32768 -> 0 <= button < 2 -> part_ok v (PartSlot item) -> len frame <= usize_max ->
  exists raw, read_frame read_set_slot frame = Ok raw /\
    let click := CClick window_id raw button action 0 item in
    (len (client_bytes v click) <= usize_max ->
     decode_play v session store' (client_bytes v click) =
       Ok (Some (RuntimeCore (CommandInventoryClick p (mkTransaction window_id action) (TargetSlot slot)
             (if button =? 1 then RightButton else LeftButton) (StrictSlotEcho item))), store')).
Proof.
  intros Hp Hs Hw Hc [d Hd] Hslot store' Hgate Hf Ha Hb Hi Hl.
  destruct (slot_changed_packet _ _ _ _ _ _ Hf) as (raw & Hraw & Hset). exists raw.
  pose proof (protocol_slot_range _ _ _ _ Hraw Hslot) as Hr. split.
  - destruct (set_slot_bytes _ _ _ _ _ _ Hset) as [rest ->]. unfold read_frame.
    assert (reads read_set_slot (varint_bytes 5 (to_unsigned 32 (set_slot_id v)) ++
      [Z_byte (to_unsigned 8 (signed_window_id window_id))] ++ to_be_bytes 2 (to_unsigned 16 raw)) raw) as Hread.
    { unfold read_set_slot. eapply reads_bind; [apply reads_varint; destruct v; unfold i32_max; cbn; lia|].
      eapply reads_bind; [apply reads_i8_of|apply reads_i16_of; lia].
      unfold signed_window_id, to_signed. destruct (Z.ltb_spec window_id (2 ^ (8 - 1))); lia. }
    rewrite !app_assoc in Hl |- *. rewrite <- (app_assoc _ [_]) in Hl |- *. by rewrite (reads_read _ _ _ rest Hread Hl).
  - intros click Hlen. rewrite (client_packet_decoded_core v session store' p click Hp); [|split; [|done]| |done].
    + unfold click, meaning, meaning_store. rewrite Hgate. unfold clicked. rewrite Z.eqb_refl.
      assert (((button =? 0) || (button =? 1)) = true) as -> by (destruct (Z.eqb_spec button 0), (Z.eqb_spec button 1); (done || lia)).
      cbn [andb]. rewrite (proj2 (Z.eqb_neq raw (-999))) by lia.
      assert (resolve_container store' session window_id = Some container) as ->.
      { unfold resolve_container, store', store_observe_event, with_session. rewrite (proj2 (Z.eqb_neq window_id 0)), lookup_insert_eq by lia.
        cbn [mbind option_bind observe_state]. rewrite bool_decide_false by done. cbn. by rewrite Z.eqb_refl. }
      unfold clicked_slot. by rewrite (proj1 (slot_number_codec _ _ _ _ _ Hd Hslot) Hraw).
    + destruct Hi. destruct v; repeat (apply Forall_cons; split; [cbn; (done || lia || (split; done))|]); by apply Forall_nil.
    + apply (act_known store (ActObserve session (ContainerOpened window_id container title))); [done|].
      intros ? ? [= <- <-]. by eexists.
Qed.
End Decode.

(** ** Witnesses *)

Definition sample_stack : ItemStack := mkItemStack "minecraft:stone" 12 0 ∅ ∅.
Lemma client_packet_decoded_witness :
  let B : Build := mkBuild false 64 in let E := sample_env in
  let click := CClick 3 5 1 9 0 (Some sample_stack) in
  decode_play V340 sample_session sample_store (client_bytes V340 click) =
    Ok (meaning V340 sample_session sample_store 7 click, sample_store) /\
  decode_play V340 sample_session sample_store [x20; x00] = Ok (None, sample_store).
Proof.
  intros B E click. destruct (client_packet_decoded V340 sample_session sample_store 7 eq_refl sample_store_known) as [Hd Ho].
  split; [apply (Hd click)|].
  - split; [|exact I]. cbn [client_parts map app].
    repeat (apply Forall_cons; split; [cbn; unfold i32_max; lia|]). apply Forall_cons; split; [|by apply Forall_nil].
    split; [vm_compute; reflexivity|]. intros stack [= <-]. cbn. lia.
  - vm_compute. discriminate.
  - assert (exists answer, decode_play V340 sample_session sample_store [x20; x00] = Ok answer) as [answer Ea]
      by (eexists; vm_compute; reflexivity).
    rewrite Ea. f_equal. apply (Ho 0x20 [x00] answer); [unfold i32_max; lia|by intros []|vm_compute; discriminate|exact Ea].
Defined.

Lemma click_names_slot_witness :
  let B : Build := mkBuild false 64 in let E := sample_env in
  let store' := store_observe_event sample_session (ContainerOpened 9 ids.CHEST_27 "Chest") ∅ in
  exists frame raw,
    @profile_inventory_slot_changed (java_profile V5) 9 ids.CHEST_27 (Hotbar 2) (Some sample_stack) = Ok (Some frame) /\
    read_frame read_set_slot frame = Ok raw /\
    let click := CClick 9 raw 0 11 0 None in
    (len (client_bytes V5 click) <= usize_max ->
     decode_play V5 sample_session store' (client_bytes V5 click) =
       Ok (Some (RuntimeCore (CommandInventoryClick 7 (mkTransaction 9 11) (TargetSlot (Hotbar 2)) LeftButton
         (StrictSlotEcho None))), store')).
Proof.
  intros B E store'.
  assert (exists frame, @profile_inventory_slot_changed (java_profile V5) 9 ids.CHEST_27 (Hotbar 2) (Some sample_stack) = Ok (Some frame) /\
    len frame <= usize_max) as (frame & Hf & Hl) by (eexists; split; [vm_compute; reflexivity|vm_compute; discriminate]).
  exists frame.
  destruct (click_names_slot V5 sample_session ∅ 7 9 ids.CHEST_27 "Chest" (Hotbar 2) (Some sample_stack) frame 11 0 None)
    as (raw & Hr & Hd).
  - reflexivity.
  - apply map_Forall_empty.
  - lia.
  - discriminate.
  - by eexists.
  - cbn. lia.
  - vm_compute. reflexivity.
  - exact Hf.
  - lia.
  - lia.
  - split; [vm_compute; reflexivity|discriminate].
  - exact Hl.
  - exists raw. split; [exact Hf|]. split; [exact Hr|]. exact Hd.
Defined.
