(* ===== verification/AnvilNbt.v ===== *)
(** * The NBT format of the storage
    ([crates/storage/mc-storage-je-anvil-1_7_10/src/nbt.rs], [mc-storage-common/src/lib.rs])

    Tags, the writer and the reader of tags, and the access to the fields of a compound.  A
    compound is a [BTreeMap<String, NbtTag>], here its entries in the order of the keys.  What is
    written is read back; any bytes are read or refused.  The allocations of a reader, which abort
    when they fail, are not modelled. *)

From Stdlib Require Import Floats.SpecFloat.
From S2P Require Import Prelude Bytes Parsing ProtoPacket.

(** The payload of [io::Error] is opaque. *)
Inductive StorageError : Type := Io | InvalidData (message : string) | Plugin (message : string).

Inductive NbtTag : Type :=
| NbtByte (v : Z) | NbtShort (v : Z) | NbtInt (v : Z) | NbtLong (v : Z)
| NbtFloat (v : spec_float) | NbtDouble (v : spec_float)
| NbtByteArray (v : list Z) | NbtString (v : string)
| NbtList (tag_type : Z) (values : list NbtTag)
| NbtCompound (values : list (string * NbtTag))
| NbtIntArray (v : list Z).

Section TagInd.
Variable P : NbtTag -> Prop.
Hypotheses (Hbyte : forall v, P (NbtByte v)) (Hshort : forall v, P (NbtShort v)) (Hint : forall v, P (NbtInt v))
  (Hlong : forall v, P (NbtLong v)) (Hfloat : forall v, P (NbtFloat v)) (Hdouble : forall v, P (NbtDouble v))
  (Hbytes : forall v, P (NbtByteArray v)) (Hstring : forall v, P (NbtString v))
  (Hlist : forall t l, Forall P l -> P (NbtList t l))
  (Hcompound : forall l, Forall (fun e => P e.2) l -> P (NbtCompound l)) (Hints : forall v, P (NbtIntArray v)).
(** The induction principle that reaches the elements of lists and compounds. *)
Fixpoint tag_ind (tag : NbtTag) : P tag :=
  match tag with
  | NbtByte v => Hbyte v | NbtShort v => Hshort v | NbtInt v => Hint v | NbtLong v => Hlong v
  | NbtFloat v => Hfloat v | NbtDouble v => Hdouble v | NbtByteArray v => Hbytes v | NbtString v => Hstring v
  | NbtList t l =>
      Hlist t l ((fix go (l : list NbtTag) : Forall P l :=
        match l with
        | [] => @List.Forall_nil _ P
        | v :: l => @List.Forall_cons _ P v l (tag_ind v) (go l)
        end) l)
  | NbtCompound l =>
      Hcompound l ((fix go (l : list (string * NbtTag)) : Forall (fun e => P e.2) l :=
        match l with
        | [] => @List.Forall_nil _ (fun e => P e.2)
        | e :: l => @List.Forall_cons _ (fun e => P e.2) e l (tag_ind e.2) (go l)
        end) l)
  | NbtIntArray v => Hints v
  end.
End TagInd.

(** ** Compounds *)

Definition Compound : Type := list (string * NbtTag).
(** [BTreeMap::get] *)
Definition compound_get (c : Compound) (k : string) : option NbtTag :=
  snd <$> List.find (fun e => String.eqb e.1 k) c.
Definition compound_of (entries : list (string * NbtTag)) : Compound :=
  foldl (fun c e => compound_insert e.1 e.2 c) [] entries.

(** Sorts the entries of compounds that are written out. *)
Ltac sort_compounds :=
  repeat match goal with
  | |- context [compound_of ?l] =>
      let c := eval cbv [compound_of foldl app compound_insert fst snd String.compare Ascii.compare Ascii.N_of_ascii
        Ascii.N_of_digits N.compare N.add N.mul Pos.compare Pos.compare_cont Pos.add Pos.mul Pos.succ] in (compound_of l) in
      change (compound_of l) with c
  end.

Notation Stored := (result StorageError).
Definition invalid {A} (message : string) : Stored A := Err (InvalidData message).
Definition as_compound (tag : NbtTag) : Stored Compound :=
  match tag with NbtCompound values => Ok values | _ => invalid "expected compound tag" end.
Definition compound_field (c : Compound) (key : string) : Stored Compound :=
  match compound_get c key with
  | Some tag => as_compound tag
  | None => invalid ("missing compound field " ++ key)
  end.
Definition list_field (c : Compound) (key : string) : Stored (list NbtTag) :=
  match compound_get c key with Some (NbtList _ values) => Ok values | _ => invalid ("missing list field " ++ key) end.
Definition byte_array_field (c : Compound) (key : string) : Stored (list Z) :=
  match compound_get c key with
  | Some (NbtByteArray values) => Ok values
  | _ => invalid ("missing byte array field " ++ key)
  end.
Definition string_field (c : Compound) (key : string) : Stored string :=
  match compound_get c key with Some (NbtString v) => Ok v | _ => invalid ("missing string field " ++ key) end.
Definition int_field (c : Compound) (key : string) : Stored Z :=
  match compound_get c key with Some (NbtInt v) => Ok v | _ => invalid ("missing int field " ++ key) end.
Definition short_field (c : Compound) (key : string) : Stored Z :=
  match compound_get c key with Some (NbtShort v) => Ok v | _ => invalid ("missing short field " ++ key) end.
Definition long_field (c : Compound) (key : string) : Stored Z :=
  match compound_get c key with Some (NbtLong v) => Ok v | _ => invalid ("missing long field " ++ key) end.
Definition byte_field (c : Compound) (key : string) : Stored Z :=
  match compound_get c key with Some (NbtByte v) => Ok v | _ => invalid ("missing byte field " ++ key) end.
Definition float_field (c : Compound) (key : string) : Stored spec_float :=
  match compound_get c key with Some (NbtFloat v) => Ok v | _ => invalid ("missing float field " ++ key) end.
Definition double_from_tag (tag : NbtTag) : Stored spec_float :=
  match tag with NbtDouble v => Ok v | _ => invalid "expected double tag" end.
Definition float_from_tag (tag : NbtTag) : Stored spec_float :=
  match tag with NbtFloat v => Ok v | _ => invalid "expected float tag" end.
(** [field.unwrap_or(d)] *)
Definition unwrap_or {A} (d : A) (r : Stored A) : Stored A :=
  match r with Err _ => Ok d | r => r end.

(** Looks up the fields of such a compound. *)
Ltac get_fields :=
  unfold compound_field; unfold as_compound, list_field, byte_array_field, string_field, int_field, short_field, long_field,
    byte_field, float_field, unwrap_or; cbv beta iota; cbn [mbind result_bind];
  repeat match goal with
  | |- context [compound_get ?c ?k] =>
      let v := eval cbv [compound_get List.find fst snd fmap option_fmap option_map String.eqb Ascii.eqb Bool.eqb]
        in (compound_get c k) in
      change (compound_get c k) with v; cbv beta iota; cbn [mbind result_bind]
  end.

(** ** Writing: the bytes appended to the writer, a [Vec] *)

Definition Out : Type := Stored (list byte).

Definition tag_type (tag : NbtTag) : Z :=
  match tag with
  | NbtByte _ => 1 | NbtShort _ => 2 | NbtInt _ => 3 | NbtLong _ => 4 | NbtFloat _ => 5 | NbtDouble _ => 6
  | NbtByteArray _ => 7 | NbtString _ => 8 | NbtList _ _ => 9 | NbtCompound _ => 10 | NbtIntArray _ => 11
  end.
Definition write_string_u16 (value : string) : Out :=
  if u16_max <? len (string_bytes value) then invalid "nbt string too long"
  else Ok (to_be_bytes 2 (len (string_bytes value)) ++ string_bytes value).
(** [i32::try_from(n).expect(..)], written *)
Definition write_length (n : Z) : Out :=
  if n <=? i32_max then Ok (to_be_bytes 4 n) else Panic.
Definition write_named (tag_type : Z) (name : string) (payload : Out) : Out :=
  name ← write_string_u16 name; payload ← payload; Ok (Z_byte tag_type :: name ++ payload).
Fixpoint write_tag_payload (tag : NbtTag) : Out :=
  match tag with
  | NbtByte v => Ok (to_be_bytes 1 (to_unsigned 8 v))
  | NbtShort v => Ok (to_be_bytes 2 (to_unsigned 16 v))
  | NbtInt v => Ok (to_be_bytes 4 (to_unsigned 32 v))
  | NbtLong v => Ok (to_be_bytes 8 (to_unsigned 64 v))
  | NbtFloat v => Ok (to_be_bytes 4 (f32_to_bits v))
  | NbtDouble v => Ok (to_be_bytes 8 (f64_to_bits v))
  | NbtByteArray values => n ← write_length (len values); Ok (n ++ map Z_byte values)
  | NbtString v => write_string_u16 v
  | NbtList tag_type values =>
      n ← write_length (len values);
      body ← all_out (map write_tag_payload values);
      Ok (Z_byte tag_type :: n ++ body)
  | NbtCompound values =>
      body ← all_out (map (fun e => write_named (tag_type e.2) e.1 (write_tag_payload e.2)) values);
      Ok (body ++ [Z_byte 0])
  | NbtIntArray values =>
      n ← write_length (len values); Ok (n ++ mjoin (map (fun v => to_be_bytes 4 (to_unsigned 32 v)) values))
  end.
Definition write_named_tag (type : Z) (name : string) (tag : NbtTag) : Out :=
  write_named type name (write_tag_payload tag).

(** ** Reading: a [Cursor] over the bytes that are left *)

Definition NbtRead (A : Type) : Type := M StorageError (list byte) A.
Definition nbt_error {A} (message : string) : NbtRead A := throw (InvalidData message).
Definition read_exact (n : Z) : NbtRead (list byte) := fun s =>
  if n <=? len s then (drop (Z.to_nat n) s, Ok (take (Z.to_nat n) s)) else ([], Err Io).
Definition read_be (n : Z) : NbtRead Z := l ← read_exact n; mret (from_be_bytes l).
Definition read_u8 : NbtRead Z := read_be 1.
Definition read_i8 : NbtRead Z := v ← read_be 1; mret (to_signed 8 v).
Definition read_i16 : NbtRead Z := v ← read_be 2; mret (to_signed 16 v).
Definition read_i32 : NbtRead Z := v ← read_be 4; mret (to_signed 32 v).
Definition read_i64 : NbtRead Z := v ← read_be 8; mret (to_signed 64 v).
Definition read_f32 : NbtRead spec_float := v ← read_be 4; mret (f32_of_bits v).
Definition read_f64 : NbtRead spec_float := v ← read_be 8; mret (f64_of_bits v).
Definition read_string_u16 : NbtRead string :=
  n ← read_be 2; bytes ← read_exact n;
  match utf8_chars bytes with Some _ => mret (bytes_string bytes) | None => nbt_error "invalid utf-8 string" end.
(** [usize::try_from(read_i32(reader)?).map_err(..)?] *)
Definition read_length (message : string) : NbtRead Z :=
  n ← read_i32; if n <? 0 then nbt_error message else mret n.
Fixpoint read_ints (fuel : nat) (n : Z) : NbtRead (list Z) :=
  if n <=? 0 then mret []
  else match fuel with
       | O => out_of_fuel
       | S fuel => v ← read_i32; l ← read_ints fuel (n - 1); mret (v :: l)
       end.

Fixpoint read_tag_payload (fuel : nat) (tag_type : Z) {struct fuel} : NbtRead NbtTag :=
  match fuel with
  | O => out_of_fuel
  | S fuel =>
      match tag_type with
      | 1 => v ← read_i8; mret (NbtByte v)
      | 2 => v ← read_i16; mret (NbtShort v)
      | 3 => v ← read_i32; mret (NbtInt v)
      | 4 => v ← read_i64; mret (NbtLong v)
      | 5 => v ← read_f32; mret (NbtFloat v)
      | 6 => v ← read_f64; mret (NbtDouble v)
      | 7 => n ← read_length "negative byte array length"; bytes ← read_exact n; mret (NbtByteArray (map byte_Z bytes))
      | 8 => v ← read_string_u16; mret (NbtString v)
      | 9 =>
          child_type ← read_u8; n ← read_length "negative list length";
          values ← read_list fuel child_type n; mret (NbtList child_type values)
      | 10 => values ← read_compound fuel []; mret (NbtCompound values)
      | 11 => n ← read_length "negative int array length"; values ← read_ints fuel n; mret (NbtIntArray values)
      | _ => nbt_error ("unsupported nbt tag type " ++ pretty tag_type)
      end
  end
with read_list (fuel : nat) (child_type n : Z) {struct fuel} : NbtRead (list NbtTag) :=
  match fuel with
  | O => out_of_fuel
  | S fuel =>
      if n <=? 0 then mret []
      else v ← read_tag_payload fuel child_type; l ← read_list fuel child_type (n - 1); mret (v :: l)
  end
with read_compound (fuel : nat) (values : Compound) {struct fuel} : NbtRead Compound :=
  match fuel with
  | O => out_of_fuel
  | S fuel =>
      child_type ← read_u8;
      if child_type =? 0 then mret values
      else
        name ← read_string_u16; v ← read_tag_payload fuel child_type;
        read_compound fuel (compound_insert name v values)
  end.
Definition nbt_fuel (bytes : list byte) : nat := (2 * length bytes + 2)%nat.
Definition read_nbt (bytes : list byte) : Stored NbtTag :=
  (( tag_type ← read_u8;
     if negb (tag_type =? 10) then nbt_error "root nbt tag must be a compound"
     else _name ← read_string_u16; read_tag_payload (nbt_fuel bytes) tag_type ) bytes).2.

(** ** What is written is read *)

Lemma parses_exact bytes : parses (read_exact (len bytes)) bytes bytes.
Proof.
  intros rest. unfold read_exact. rewrite length_app, (proj2 (Z.leb_le _ _)) by lia.
  by rewrite Nat2Z.id, drop_app_length, take_app_length.
Qed.
Lemma parses_be n v : 0 <= v < 2 ^ (8 * Z.of_nat n) -> parses (read_be (Z.of_nat n)) (to_be_bytes n v) v.
Proof.
  intros Hv. pose proof (parses_map _ from_be_bytes _ _ (parses_exact (to_be_bytes n v))) as H.
  by rewrite length_to_be_bytes, from_to_be_bytes, Z.mod_small in H.
Qed.
Lemma parses_signed n v : (0 < n)%nat -> - 2 ^ (8 * Z.of_nat n - 1) <= v < 2 ^ (8 * Z.of_nat n - 1) ->
  parses (u ← read_be (Z.of_nat n); mret (to_signed (8 * Z.of_nat n) u))
    (to_be_bytes n (to_unsigned (8 * Z.of_nat n) v)) v.
Proof.
  intros Hn Hv. rewrite <- (to_signed_unsigned (8 * Z.of_nat n) v) at 2 by lia.
  apply (parses_map _ (to_signed (8 * Z.of_nat n))), parses_be, Z.mod_pos_bound. lia.
Qed.
Lemma parses_f32 v : valid_binary 24 128 v = true -> parses read_f32 (to_be_bytes 4 (f32_to_bits v)) v.
Proof.
  intros Hv. destruct (float_bits_roundtrip 23 8 v) as [E Hr]; [lia|lia|done|].
  pose proof (parses_map (read_be 4) f32_of_bits _ _ (parses_be 4 _ Hr)) as H.
  change (f32_of_bits (float_to_bits 23 8 v) = v) in E. by rewrite E in H.
Qed.
Lemma parses_f64 v : valid_binary 53 1024 v = true -> parses read_f64 (to_be_bytes 8 (f64_to_bits v)) v.
Proof.
  intros Hv. destruct (float_bits_roundtrip 52 11 v) as [E Hr]; [lia|lia|done|].
  pose proof (parses_map (read_be 8) f64_of_bits _ _ (parses_be 8 _ Hr)) as H.
  change (f64_of_bits (float_to_bits 52 11 v) = v) in E. by rewrite E in H.
Qed.
Lemma parses_u8 v : 0 <= v < 256 -> parses read_u8 [Z_byte v] v.
Proof. apply (parses_be 1). Qed.

(** What a [String] that fits is: UTF-8 of at most 65535 bytes. *)
Definition text_ok (s : string) : bool :=
  (len (string_bytes s) <=? u16_max) && bool_decide (is_Some (utf8_chars (string_bytes s))).
Definition text_bytes (s : string) : list byte := to_be_bytes 2 (len (string_bytes s)) ++ string_bytes s.
Lemma string_codec s : text_ok s = true ->
  write_string_u16 s = Ok (text_bytes s) /\ parses read_string_u16 (text_bytes s) s.
Proof.
  unfold text_ok. rewrite andb_true_iff, Z.leb_le. intros [Hl [chars Hc]%bool_decide_eq_true]. split.
  - unfold write_string_u16. by rewrite (proj2 (Z.ltb_ge _ _)).
  - unfold read_string_u16, text_bytes. eapply parses_bind; [apply (parses_be 2); unfold u16_max in Hl; cbn; lia|].
    rewrite <- (app_nil_r (string_bytes s)) at 2. eapply parses_bind; [apply parses_exact|]. rewrite Hc, bytes_string_bytes. apply parses_ret.
Qed.
Lemma length_codec message n : 0 <= n <= i32_max ->
  write_length n = Ok (to_be_bytes 4 n) /\ parses (read_length message) (to_be_bytes 4 n) n.
Proof.
  intros Hn. unfold i32_max in Hn. split; [unfold write_length; by rewrite (proj2 (Z.leb_le _ _)) by (unfold i32_max; lia)|].
  unfold read_length. rewrite <- (app_nil_r (to_be_bytes 4 n)). eapply parses_bind.
  - pose proof (parses_signed 4 n ltac:(lia) ltac:(cbn; lia)) as H. unfold to_unsigned in H. rewrite Z.mod_small in H by (cbn; lia). exact H.
  - rewrite (proj2 (Z.ltb_ge _ _)) by lia. apply parses_ret.
Qed.
Lemma ints_codec l : forall fuel, (length l <= fuel)%nat -> Forall (fun v => - 2 ^ 31 <= v < 2 ^ 31) l ->
  parses (read_ints fuel (len l)) (mjoin (map (fun v => to_be_bytes 4 (to_unsigned 32 v)) l)) l.
Proof.
  induction l as [|v l IH]; intros fuel Hf Hl; [destruct fuel; apply parses_ret|]. destruct fuel as [|fuel]; [cbn in Hf; lia|].
  apply Forall_cons in Hl as [Hv Hl]. cbn [read_ints]. rewrite (proj2 (Z.leb_gt _ _)) by (cbn; lia). cbn [map mjoin list_join].
  eapply parses_bind; [apply (parses_signed 4); [lia|exact Hv]|].
  replace (len (v :: l) - 1) with (len l) by (cbn [length]; lia).
  apply (parses_map _ (cons v)), IH; [cbn in Hf; lia|done].
Qed.

(** *** Tags that fit *)

Fixpoint tag_ok (tag : NbtTag) : bool :=
  match tag with
  | NbtByte v => signed_fits 8 v
  | NbtShort v => signed_fits 16 v
  | NbtInt v => signed_fits 32 v
  | NbtLong v => signed_fits 64 v
  | NbtFloat v => valid_binary 24 128 v
  | NbtDouble v => valid_binary 53 1024 v
  | NbtByteArray l => (len l <=? i32_max) && forallb byte_fits l
  | NbtString v => text_ok v
  | NbtList t l => byte_fits t && (len l <=? i32_max) && forallb (fun v => (tag_type v =? t) && tag_ok v) l
  | NbtCompound l => keys_sorted l && forallb (fun e => text_ok e.1 && tag_ok e.2) l
  | NbtIntArray l => (len l <=? i32_max) && forallb (signed_fits 32) l
  end.

Lemma tag_ok_compound l :
  keys_sorted l = true -> Forall (fun e => text_ok e.1 = true /\ tag_ok e.2 = true) l -> tag_ok (NbtCompound l) = true.
Proof.
  intros Hs Hl. cbn [tag_ok]. rewrite Hs. apply forallb_Forall'. eapply Forall_impl; [exact Hl|]. intros e [H1 H2]. by rewrite H1, H2.
Qed.
(** Goes through the entries of a compound that is written out. *)
Ltac compound_entries :=
  apply tag_ok_compound; [reflexivity|repeat (apply Forall_cons; split; [split; [reflexivity|cbn [snd]]|]); [..|by apply Forall_nil]].
(** The bytes of a payload and its reading, given enough fuel. *)
Definition payload_codec (tag : NbtTag) : Prop :=
  exists bytes, write_tag_payload tag = Ok bytes /\ (0 < length bytes)%nat /\
    forall fuel, (2 * length bytes + 2 <= fuel)%nat -> parses (read_tag_payload fuel (tag_type tag)) bytes tag.

Lemma tag_type_range tag : 0 < tag_type tag < 12.
Proof. destruct tag; cbn; lia. Qed.
Lemma scalar_codec (tag : NbtTag) (m : nat -> NbtRead NbtTag) bytes :
  write_tag_payload tag = Ok bytes -> (0 < length bytes)%nat ->
  (forall fuel, read_tag_payload (S fuel) (tag_type tag) = m fuel) ->
  (forall fuel, (2 * length bytes + 1 <= fuel)%nat -> parses (m fuel) bytes tag) -> payload_codec tag.
Proof.
  intros Hw Hl Hm Hp. exists bytes. split; [done|]. split; [done|]. intros [|fuel] Hf; [lia|]. rewrite Hm. apply Hp. lia.
Qed.

Lemma list_codec child l : Forall (fun v => tag_type v = child /\ payload_codec v) l ->
  exists bytes, all_out (map write_tag_payload l) = Ok bytes /\
    forall fuel, (2 * length bytes + 3 <= fuel)%nat -> parses (read_list fuel child (len l)) bytes l.
Proof.
  induction 1 as [|v l [Ht (b1 & E1 & Hpos & Hp)] Hl (b2 & E2 & Hr)].
  - exists []. split; [done|]. intros [|fuel] Hf; [cbn in Hf; lia|]. apply parses_ret.
  - exists (b1 ++ b2). cbn [map all_out]. rewrite E1, E2. split; [done|]. intros fuel Hf. rewrite length_app in Hf.
    destruct fuel as [|fuel]; [lia|]. cbn [read_list]. rewrite (proj2 (Z.leb_gt _ _)) by (cbn [length]; lia).
    eapply parses_bind; [rewrite <- Ht; apply Hp; lia|]. replace (len (v :: l) - 1) with (len l) by (cbn [length]; lia).
    apply (parses_map _ (cons v)), Hr. lia.
Qed.
Lemma write_named_ok t k b : text_ok k = true -> write_named t k (Ok b) = Ok (Z_byte t :: text_bytes k ++ b).
Proof. intros Hk. unfold write_named. by rewrite (proj1 (string_codec k Hk)). Qed.
Lemma compound_codec l : forall values,
  keys_sorted (values ++ l) = true -> Forall (fun e => text_ok e.1 = true /\ payload_codec e.2) l ->
  exists bytes, all_out (map (fun e => write_named (tag_type e.2) e.1 (write_tag_payload e.2)) l) = Ok bytes /\
    forall fuel, (2 * length bytes + 3 <= fuel)%nat ->
      parses (read_compound fuel values) (bytes ++ [Z_byte 0]) (values ++ l).
Proof.
  induction l as [|[k v] l IH]; intros values Hs Hl.
  - exists []. split; [done|]. intros [|fuel] Hf; [lia|]. cbn [read_compound]. rewrite !app_nil_r. cbn [app].
    rewrite <- (app_nil_r [Z_byte 0]). eapply parses_bind; [apply parses_u8; lia|]. apply parses_ret.
  - apply Forall_cons in Hl as [[Hk (b & E & Hpos & Hp)] Hl]. cbn [fst snd] in *.
    destruct (IH (values ++ [(k, v)])) as (b2 & E2 & Hr); [by rewrite <- app_assoc|done|].
    pose proof (proj2 (string_codec k Hk)) as Hpk. pose proof (tag_type_range v) as Ht.
    exists ((Z_byte (tag_type v) :: text_bytes k ++ b) ++ b2). cbn [map all_out fst snd]. rewrite E, write_named_ok, E2 by done. split; [done|]. intros fuel Hf. rewrite length_app in Hf. cbn [length] in Hf. rewrite length_app in Hf.
    destruct fuel as [|fuel]; [lia|]. cbn [read_compound]. rewrite <- !app_assoc. cbn [app].
    change (Z_byte (tag_type v) :: (text_bytes k ++ b) ++ b2 ++ [Z_byte 0])
      with ([Z_byte (tag_type v)] ++ (text_bytes k ++ b) ++ b2 ++ [Z_byte 0]).
    eapply parses_bind; [apply parses_u8; lia|]. rewrite (proj2 (Z.eqb_neq _ _)), <- app_assoc by lia.
    eapply parses_bind; [exact Hpk|]. eapply parses_bind; [apply Hp; lia|].
    rewrite (keys_sorted_last values (k, v) l Hs : compound_insert k v values = _).
    change ((k, v) :: l) with ([(k, v)] ++ l). rewrite (app_assoc values). apply Hr. lia.
Qed.

Lemma payload_codec_ok tag : tag_ok tag = true -> payload_codec tag.
Proof.
  induction tag as [v|v|v|v|v|v|l|s|t l IH|l IH|l] using tag_ind; cbn [tag_ok].
  - intros Hv%signed_fits_spec. eapply scalar_codec; [done|by rewrite length_to_be_bytes; lia|done|].
    intros fuel _. apply (parses_map _ NbtByte). apply (parses_signed 1); [lia|exact Hv].
  - intros Hv%signed_fits_spec. eapply scalar_codec; [done|by rewrite length_to_be_bytes; lia|done|].
    intros fuel _. apply (parses_map _ NbtShort). apply (parses_signed 2); [lia|exact Hv].
  - intros Hv%signed_fits_spec. eapply scalar_codec; [done|by rewrite length_to_be_bytes; lia|done|].
    intros fuel _. apply (parses_map _ NbtInt). apply (parses_signed 4); [lia|exact Hv].
  - intros Hv%signed_fits_spec. eapply scalar_codec; [done|by rewrite length_to_be_bytes; lia|done|].
    intros fuel _. apply (parses_map _ NbtLong). apply (parses_signed 8); [lia|exact Hv].
  - intros Hv. eapply scalar_codec; [done|by rewrite length_to_be_bytes; lia|done|]. intros fuel _.
    by apply (parses_map read_f32 NbtFloat), parses_f32.
  - intros Hv. eapply scalar_codec; [done|by rewrite length_to_be_bytes; lia|done|]. intros fuel _.
    by apply (parses_map read_f64 NbtDouble), parses_f64.
  - rewrite andb_true_iff, Z.leb_le, forallb_Forall'. intros [Hl Hv].
    destruct (length_codec "negative byte array length" (len l)) as [E Hp]; [lia|].
    eapply scalar_codec; [cbn [write_tag_payload]; by rewrite E|rewrite length_app, length_to_be_bytes; lia|done|].
    intros fuel _. cbn [tag_type]. eapply parses_bind; [exact Hp|].
    assert (map byte_Z (map Z_byte l) = l) as El.
    { rewrite map_map. apply list_eq. intros i. rewrite list_lookup_fmap. destruct (l !! i) as [v|] eqn:Ei; [|done].
      rewrite Forall_lookup in Hv. pose proof (proj1 (byte_fits_spec v) (Hv _ _ Ei)). cbn. f_equal. rewrite byte_Z_Z_byte. by apply Z.mod_small. }
    pose proof (parses_map _ (fun bytes => NbtByteArray (map byte_Z bytes)) _ _ (parses_exact (map Z_byte l))) as Hx.
    by rewrite length_map, El in Hx.
  - intros Hs. destruct (string_codec s Hs) as [E Hp]. eapply scalar_codec; [exact E| |done|].
    + unfold text_bytes. rewrite length_app, length_to_be_bytes. lia.
    + intros fuel _. by apply (parses_map _ NbtString).
  - rewrite !andb_true_iff, Z.leb_le, byte_fits_spec, forallb_Forall'. intros [[Ht Hl] Hv].
    destruct (length_codec "negative list length" (len l)) as [E Hp]; [lia|].
    destruct (list_codec t l) as (body & Eb & Hb).
    { rewrite Forall_lookup in IH, Hv |- *. intros i v Hi. specialize (Hv i v Hi). rewrite andb_true_iff, Z.eqb_eq in Hv.
      split; [apply Hv|]. apply (IH i v Hi), Hv. }
    eapply scalar_codec; [cbn [write_tag_payload]; by rewrite E, Eb|cbn [length]; lia|done|].
    intros fuel Hf. cbn [tag_type length] in *. rewrite length_app, length_to_be_bytes in Hf.
    eapply (parses_bind _ _ [Z_byte t]); [by apply parses_u8|]. eapply parses_bind; [exact Hp|].
    apply (parses_map _ (NbtList t)), Hb. lia.
  - rewrite andb_true_iff, forallb_Forall'. intros [Hs Hv].
    destruct (compound_codec l [] Hs) as (body & Eb & Hb).
    { rewrite Forall_lookup in IH, Hv |- *. intros i e Hi. specialize (Hv i e Hi). rewrite andb_true_iff in Hv.
      split; [apply Hv|]. apply (IH i e Hi), Hv. }
    eapply scalar_codec; [cbn [write_tag_payload]; by rewrite Eb|rewrite length_app; cbn; lia|done|].
    intros fuel Hf. rewrite length_app in Hf. cbn [length] in Hf. apply (parses_map _ NbtCompound), Hb. lia.
  - rewrite andb_true_iff, Z.leb_le, forallb_Forall'. intros [Hl Hv].
    destruct (length_codec "negative int array length" (len l)) as [E Hp]; [lia|].
    assert (length (mjoin (map (fun v => to_be_bytes 4 (to_unsigned 32 v)) l)) = 4 * length l)%nat as Hlen.
    { clear. induction l as [|v l IH]; [done|]. cbn [map]. rewrite mjoin_cons, length_app, length_to_be_bytes, IH. cbn [length]. lia. }
    eapply scalar_codec; [cbn [write_tag_payload]; by rewrite E|rewrite length_app, length_to_be_bytes; lia|done|].
    intros fuel Hf. rewrite length_app, length_to_be_bytes, Hlen in Hf. cbn [tag_type]. eapply parses_bind; [exact Hp|].
    apply (parses_map _ NbtIntArray), ints_codec; [lia|]. eapply Forall_impl; [exact Hv|]. intros v. apply signed_fits_spec.
Qed.

(** ** Any bytes *)

Lemma ends_error {A} n message s : ends (A := A) n (nbt_error message) s.
Proof. done. Qed.
Lemma ends_exact n s : 0 <= n -> ends n (read_exact n) s.
Proof.
  intros Hn. unfold ends, read_exact. destruct (Z.leb_spec n (len s)); [|done]. rewrite length_drop. lia.
Qed.
Lemma ends_be n s : 0 <= n -> ends n (read_be n) s.
Proof. intros Hn. by apply ends_map, ends_exact. Qed.
Lemma ends_exact_any n s : ends 0 (read_exact n) s.
Proof.
  destruct (Z.leb_spec 0 n) as [Hn|Hn]; [by apply (ends_weaken n), ends_exact|].
  unfold ends, read_exact. rewrite (proj2 (Z.leb_le _ _)), length_drop by lia. lia.
Qed.
Lemma ends_signed bits n s : 0 <= n -> ends n (v ← read_be n; mret (to_signed bits v)) s.
Proof. intros Hn. by apply ends_map, ends_be. Qed.
Lemma ends_string s : ends 2 read_string_u16 s.
Proof.
  eapply ends_bind; [by apply ends_be|]. intros n s1 _. eapply ends_bind; [apply ends_exact_any|]. intros bytes s2 _.
  destruct (utf8_chars bytes); [apply ends_ret|apply ends_error].
Qed.
Lemma ends_length message s : ends 4 (read_length message) s.
Proof.
  eapply ends_bind; [by apply (ends_signed 32)|]. intros n s1 _. destruct (n <? 0); [apply ends_error|apply ends_ret].
Qed.
Lemma ends_ints fuel : forall n s, len s + 1 <= Z.of_nat fuel -> ends 0 (read_ints fuel n) s.
Proof.
  induction fuel as [|fuel IH]; intros n s Hf; [lia|]. cbn [read_ints]. destruct (n <=? 0); [apply ends_ret|].
  eapply (ends_weaken 4); [lia|]. eapply ends_bind; [by apply (ends_signed 32)|]. intros v s1 Hs1. apply (ends_weaken 0), ends_map, IH; lia.
Qed.

(** Every level of nesting and every element takes a byte, so that twice what is left is enough. *)
Lemma ends_payload fuel :
  (forall t s, 2 * len s + 2 <= Z.of_nat fuel -> ends 1 (read_tag_payload fuel t) s) /\
  (forall t n s, 2 * len s + 3 <= Z.of_nat fuel -> ends 0 (read_list fuel t n) s) /\
  (forall c s, 2 * len s + 1 <= Z.of_nat fuel -> ends 1 (read_compound fuel c) s).
Proof.
  induction fuel as [|fuel (IHp & IHl & IHc)]; [split_and!; intros; lia|]. split_and!.
  - intros t s Hf. cbn [read_tag_payload].
    assert (ends 1 (nbt_error (A := NbtTag) ("unsupported nbt tag type " ++ pretty t)) s) as Hinvalid by apply ends_error.
    destruct t as [|t|t]; [exact Hinvalid| |exact Hinvalid]. do 4 (try (destruct t as [t|t|]; try exact Hinvalid)).
    all: try (apply ends_map; eapply ends_weaken; [|first [by apply (ends_signed 8)|by apply (ends_signed 16)
      |by apply (ends_signed 32)|by apply (ends_signed 64)|by apply ends_map, ends_be|apply ends_string]]; lia).
    all: first
      [ apply ends_map, IHc; lia
      | eapply (ends_weaken 4); [lia|]; eapply ends_bind; [apply ends_length|]; intros n s1 Hs1;
        apply (ends_weaken 0), ends_map; [lia|]; first [apply ends_exact_any | apply ends_ints; lia]
      | eapply (ends_weaken 5); [lia|]; eapply ends_bind; [by apply ends_be|]; intros child s1 Hs1;
        eapply (ends_weaken 4); [lia|]; eapply ends_bind; [apply ends_length|]; intros n s2 Hs2;
        apply (ends_weaken 0), ends_map, IHl; lia ].
  - intros t n s Hf. cbn [read_list]. destruct (n <=? 0); [apply ends_ret|]. eapply (ends_weaken 1); [lia|].
    eapply ends_bind; [apply IHp; lia|]. intros v s1 Hs1. apply (ends_weaken 0), ends_map, IHl; lia.
  - intros c s Hf. cbn [read_compound]. eapply ends_bind; [by apply ends_be|]. intros child s1 Hs1.
    destruct (child =? 0); [apply ends_ret|]. eapply (ends_weaken 3); [lia|]. eapply ends_bind; [apply ends_string|].
    intros name s2 Hs2. eapply ends_bind; [apply IHp; lia|]. intros v s3 Hs3. eapply (ends_weaken 1); [lia|]. apply IHc. lia.
Qed.
Lemma read_nbt_ends bytes : match read_nbt bytes with Ok _ | Err _ => True | _ => False end.
Proof.
  unfold read_nbt. set (m := _ ≫= _). assert (ends 0 m bytes) as He.
  { subst m. eapply (ends_weaken 3); [lia|]. eapply ends_bind; [by apply ends_be|]. intros t s1 Hs1.
    destruct (negb (t =? 10)); [apply ends_error|]. eapply (ends_weaken 3); [lia|]. eapply ends_bind; [apply ends_string|].
    intros name s2 Hs2. apply (proj1 (ends_payload _)). unfold nbt_fuel. lia. }
  unfold ends in He. by destruct (m bytes) as [s' [a|e| |]].
Qed.

Lemma read_nbt_written name tag bytes : text_ok name = true -> tag_type tag = 10 -> tag_ok tag = true ->
  write_named_tag 10 name tag = Ok bytes -> read_nbt bytes = Ok tag.
Proof.
  intros Hn Ht Htag. destruct (payload_codec_ok tag Htag) as (payload & Ep & _ & Hp). unfold write_named_tag.
  rewrite Ep, write_named_ok by done. intros E.
  assert (bytes = Z_byte 10 :: text_bytes name ++ payload) as Eb by congruence. unfold read_nbt.
  assert (2 * length payload + 2 <= nbt_fuel bytes)%nat as Hf.
  { unfold nbt_fuel. rewrite Eb. cbn [length]. rewrite length_app. lia. }
  revert Hf. generalize (nbt_fuel bytes). intros fuel Hf. rewrite Eb.
  assert (parses (tag_type ← read_u8;
     if negb (tag_type =? 10) then nbt_error "root nbt tag must be a compound"
     else _name ← read_string_u16; read_tag_payload fuel tag_type) (Z_byte 10 :: text_bytes name ++ payload) tag) as Hr.
  { eapply (parses_bind _ _ [Z_byte 10]); [by apply parses_u8|]. cbn [Z.eqb Pos.eqb negb].
    eapply parses_bind; [by apply string_codec|]. rewrite <- Ht. by apply Hp. }
  specialize (Hr []). rewrite app_nil_r in Hr. by rewrite Hr.
Qed.

Lemma tag_roundtrip name tag : text_ok name = true -> tag_type tag = 10 -> tag_ok tag = true ->
  exists bytes, write_named_tag 10 name tag = Ok bytes /\ read_nbt bytes = Ok tag.
Proof.
  intros Hn Ht Htag. assert (exists bytes, write_named_tag 10 name tag = Ok bytes) as [bytes E].
  { destruct (payload_codec_ok tag Htag) as (payload & Ep & _). unfold write_named_tag. rewrite Ep, write_named_ok by done. by eexists. }
  exists bytes. split; [done|by eapply read_nbt_written].
Qed.

(** The NBT of the storage is a codec.  A compound whose strings, numbers and lengths fit and
    whose lists are of one type, however deeply it nests, is written without a panic or an error
    and reads back as itself; and whatever bytes a file holds, reading them ends with a tag or an
    error, never by a panic and within the fuel of twice the bytes. *)
Theorem nbt_codec :
  (forall name tag, text_ok name = true -> tag_type tag = 10 -> tag_ok tag = true ->
    exists bytes, write_named_tag 10 name tag = Ok bytes /\ read_nbt bytes = Ok tag) /\
  (forall bytes, match read_nbt bytes with Ok _ | Err _ => True | _ => False end).
Proof. split; [exact tag_roundtrip|apply read_nbt_ends]. Qed.
Lemma nbt_codec_witness :
  let tag := NbtCompound (compound_of [("Pos", NbtList 6 [NbtDouble S754_nan]); ("Name", NbtString "a"); ("b", NbtByteArray [1; 255])]) in
  (exists bytes, write_named_tag 10 "root" tag = Ok bytes /\ read_nbt bytes = Ok tag) /\
  read_nbt [Z_byte 10; Z_byte 0; Z_byte 0] = Err Io.
Proof.
  split; [apply (proj1 nbt_codec); reflexivity|].
  pose proof (proj2 nbt_codec [Z_byte 10; Z_byte 0; Z_byte 0]) as H. by vm_compute in H |- *.
Defined.
