(* ===== verification/AnvilChunk.v ===== *)
(** * Chunks in the storage ([crates/storage/mc-storage-je-anvil-1_7_10/src/chunk_nbt.rs])

    A chunk column and the block entities in it as NBT, and back: a byte and a nibble per block,
    chests and furnaces with their stacks.  What the storage has an identifier for is read back as
    it was. *)

From stdpp Require Import sorting.
From S2P Require Import Prelude Bytes Parsing VoxelModel VoxelItems VoxelContent VoxelState ProtoPacket JavaSlots JavaChunks JavaColumns AnvilNbt.

Definition CHEST_BLOCK_ENTITY_KIND : string := "canonical:chest".
Definition FURNACE_BLOCK_ENTITY_KIND : string := "canonical:furnace".
Definition FURNACE_BURN_LEFT : string := "canonical:furnace.burn_left".
Definition FURNACE_BURN_MAX : string := "canonical:furnace.burn_max".
Definition FURNACE_COOK_PROGRESS : string := "canonical:furnace.cook_progress".
Definition FURNACE_COOK_TOTAL : string := "canonical:furnace.cook_total".

(** A loop that stops at an error. *)
Fixpoint try_fold {S A} (f : S -> A -> Stored S) (s : S) (l : list A) : Stored S :=
  match l with [] => Ok s | a :: l => s ← f s a; try_fold f s l end.
(** [iter().filter_map(f).collect()], where [f] may panic. *)
Fixpoint try_filter_map {A B} (f : A -> Stored (option B)) (l : list A) : Stored (list B) :=
  match l with
  | [] => Ok []
  | a :: l => b ← f a; rest ← try_filter_map f l; Ok (match b with Some b => b :: rest | None => rest end)
  end.
(** [T::try_from(v).expect(..)] *)
Definition narrow (lo hi v : Z) : Stored Z := if (lo <=? v) && (v <=? hi) then Ok v else Panic.
Definition i8_of : Z -> Stored Z := narrow (-128) 127.
Definition i16_of : Z -> Stored Z := narrow (-32768) 32767.

(** The order of [BlockPos], and of a [BTreeMap] with it. *)
Definition block_order {A} (a b : BlockPos * A) : Prop :=
  bx a.1 < bx b.1 \/ (bx a.1 = bx b.1 /\ (by_ a.1 < by_ b.1 \/ (by_ a.1 = by_ b.1 /\ bz a.1 <= bz b.1))).
#[export] Instance block_order_dec {A} : RelDecision (@block_order A).
Proof. intros a b. unfold block_order. apply _. Defined.
Definition block_entries {A} (m : gmap BlockPos A) : list (BlockPos * A) := merge_sort block_order (map_to_list m).

(** ** Writing *)

Definition region_chunk_index (pos : ChunkPos) : Z := cx pos mod 32 + cz pos mod 32 * 32.
Definition container_property (container : ContainerBlockEntityState) (key : string) : Z :=
  default 0 (be_properties container !! key).
Definition encode_item_slot (entry : Z * option ItemStack) : Stored (option NbtTag) :=
  match entry.2 with
  | None => Ok None
  | Some stack =>
      match legacy_item stack with
      | None => Ok None
      | Some (item_id, damage) =>
          index ← i8_of entry.1; n ← i8_of (count stack); damage ← i16_of damage;
          Ok (Some (NbtCompound (compound_of
            [("Slot", NbtByte index); ("id", NbtShort item_id); ("Count", NbtByte n); ("Damage", NbtShort damage)])))
      end
  end.
Definition at_position (position : BlockPos) : list (string * NbtTag) :=
  [("x", NbtInt (bx position)); ("y", NbtInt (by_ position)); ("z", NbtInt (bz position))].
Definition encode_tile_entity (entry : BlockPos * BlockEntityState) : Stored (option NbtTag) :=
  let '(position, BEContainer container) := entry in
  if String.eqb (be_kind container) CHEST_BLOCK_ENTITY_KIND then
    items ← try_filter_map encode_item_slot (enumerate (be_slots container));
    Ok (Some (NbtCompound (compound_of ([("id", NbtString "Chest")] ++ at_position position ++ [("Items", NbtList 10 items)]))))
  else if String.eqb (be_kind container) FURNACE_BLOCK_ENTITY_KIND then
    items ← try_filter_map encode_item_slot (enumerate (take 3 (be_slots container)));
    let property key := NbtShort (container_property container key) in
    Ok (Some (NbtCompound (compound_of ([("id", NbtString "Furnace")] ++ at_position position ++
      [("BurnTime", property FURNACE_BURN_LEFT); ("BurnTimeMax", property FURNACE_BURN_MAX);
       ("CookTime", property FURNACE_COOK_PROGRESS); ("CookTimeTotal", property FURNACE_COOK_TOTAL);
       ("Items", NbtList 10 items)]))))
  else Ok None.

Definition legacy_id (state : BlockState) : Stored Z := narrow 0 u8_max (legacy_block state).1.
Definition store_block (arrays : list Z * list Z) (entry : Z * BlockState) : Stored (list Z * list Z) :=
  let '(blocks, data) := arrays in
  id ← legacy_id entry.2;
  blocks ← (if entry.1 <? len blocks then Ok (<[Z.to_nat entry.1 := id]> blocks) else Panic);
  match set_nibble entry.1 (legacy_block entry.2).2 data with Some data => Ok (blocks, data) | None => Panic end.
Definition section_to_nbt (entry : Z * ChunkSection) : Stored NbtTag :=
  '(blocks, data) ← try_fold store_block (replicate 4096 0, replicate 2048 0) (iter_blocks entry.2);
  y ← i8_of entry.1;
  Ok (NbtCompound (compound_of
    [("Y", NbtByte y); ("Blocks", NbtByteArray blocks); ("Data", NbtByteArray data);
     ("BlockLight", NbtByteArray (replicate 2048 0)); ("SkyLight", NbtByteArray (replicate 2048 0xff))])).
Definition chunk_to_nbt (chunk : ChunkColumn) (block_entities : gmap BlockPos BlockEntityState) : Stored NbtTag :=
  tile_entities ← try_filter_map encode_tile_entity
    (filter (fun entry => block_chunk_pos entry.1 = col_pos chunk) (block_entries block_entities));
  sections ← try_filter_map (fun entry => tag ← section_to_nbt entry; Ok (Some tag))
    (filter (fun entry => section_sent entry.1 entry.2 = true) (ordered_sections chunk));
  Ok (NbtCompound (compound_of [("Level", NbtCompound (compound_of
    [("xPos", NbtInt (cx (col_pos chunk))); ("zPos", NbtInt (cz (col_pos chunk)));
     ("TerrainPopulated", NbtByte 1); ("LightPopulated", NbtByte 1); ("LastUpdate", NbtLong 0);
     ("InhabitedTime", NbtLong 0); ("Biomes", NbtByteArray (biomes chunk));
     ("HeightMap", NbtIntArray (replicate 256 4)); ("Entities", NbtList 10 []);
     ("TileEntities", NbtList 10 tile_entities); ("Sections", NbtList 10 sections)]))])).

(** ** Reading *)

(** [T::try_from(v).map_err(..)?] *)
Definition refuse_negative (message : string) (v : Z) : Stored Z := if v <? 0 then invalid message else Ok v.
Definition decode_item (slots : list (option ItemStack)) (item : NbtTag) : Stored (list (option ItemStack)) :=
  item_compound ← as_compound item;
  slot ← byte_field item_compound "Slot"; slot ← refuse_negative "negative tile-entity slot index" slot;
  if len slots <=? slot then Ok slots
  else
    item_id ← short_field item_compound "id";
    damage ← short_field item_compound "Damage"; damage ← refuse_negative "negative item damage not supported" damage;
    n ← byte_field item_compound "Count"; n ← refuse_negative "negative item count not supported" n;
    Ok (<[Z.to_nat slot := Some (semantic_item item_id damage n)]> slots).
Definition tile_slots (compound : Compound) (slot_count : nat) : Stored (list (option ItemStack)) :=
  match list_field compound "Items" with
  | Ok items => try_fold decode_item (replicate slot_count None) items
  | _ => Ok (replicate slot_count None)
  end.
Definition decode_tile_entity (tile_entity : NbtTag) : Stored (option (BlockPos * BlockEntityState)) :=
  compound ← as_compound tile_entity;
  match string_field compound "id" with
  | Ok kind =>
      x ← int_field compound "x"; y ← int_field compound "y"; z ← int_field compound "z";
      if String.eqb kind "Chest" then
        slots ← tile_slots compound 27;
        Ok (Some (mkBlockPos x y z, BEContainer (mkBlockEntity CHEST_BLOCK_ENTITY_KIND slots ∅)))
      else if String.eqb kind "Furnace" then
        slots ← tile_slots compound 3;
        burn_left ← unwrap_or 0 (short_field compound "BurnTime");
        burn_max ← unwrap_or 0 (short_field compound "BurnTimeMax");
        cook_progress ← unwrap_or 0 (short_field compound "CookTime");
        cook_total ← unwrap_or 200 (short_field compound "CookTimeTotal");
        Ok (Some (mkBlockPos x y z, BEContainer (mkBlockEntity FURNACE_BLOCK_ENTITY_KIND slots
          (list_to_map [(FURNACE_BURN_LEFT, burn_left); (FURNACE_BURN_MAX, burn_max);
            (FURNACE_COOK_PROGRESS, cook_progress); (FURNACE_COOK_TOTAL, cook_total)]))))
      else Ok None
  | _ => Ok None
  end.
Definition place_block (section_y : Z) (metadata : list Z) (chunk : ChunkColumn) (entry : Z * Z) : Stored ChunkColumn :=
  let '(index, block_id) := entry in
  match get_nibble metadata index with
  | None => Panic
  | Some metadata_value =>
      let state := semantic_block block_id metadata_value in
      if String.eqb (bs_key state) "minecraft:air" then Ok chunk
      else
        index ← narrow 0 u16_max index;
        let '(x, y, z) := expand_block_index index in
        Ok (column_set_block x (section_y * 16 + y) z (Some state) chunk)
  end.
Definition section_from_nbt (chunk : ChunkColumn) (section : NbtTag) : Stored ChunkColumn :=
  section_compound ← as_compound section;
  section_y ← byte_field section_compound "Y";
  blocks ← byte_array_field section_compound "Blocks";
  metadata ← byte_array_field section_compound "Data";
  try_fold (place_block section_y metadata) chunk (enumerate blocks).
Definition add_tile_entity (block_entities : gmap BlockPos BlockEntityState) (tile_entity : NbtTag) :
    Stored (gmap BlockPos BlockEntityState) :=
  decoded ← decode_tile_entity tile_entity;
  Ok match decoded with
     | Some (position, block_entity) => <[position := block_entity]> block_entities
     | None => block_entities
     end.
Definition chunk_from_nbt (root : NbtTag) : Stored (ChunkColumn * gmap BlockPos BlockEntityState) :=
  root ← as_compound root;
  level ← compound_field root "Level";
  x ← int_field level "xPos"; z ← int_field level "zPos";
  biomes ← unwrap_or (replicate 256 1) (byte_array_field level "Biomes");
  let chunk := mkColumn (mkChunkPos x z) ∅ biomes in
  sections ← list_field level "Sections";
  chunk ← try_fold section_from_nbt chunk sections;
  block_entities ← match list_field level "TileEntities" with
                   | Ok tile_entities => try_fold add_tile_entity ∅ tile_entities
                   | _ => Ok ∅
                   end;
  Ok (chunk, block_entities).

(** ** Stacks and block entities *)

Lemma try_fold_app {S A} (f : S -> A -> Stored S) l1 l2 s s' :
  try_fold f s l1 = Ok s' -> try_fold f s (l1 ++ l2) = try_fold f s' l2.
Proof.
  revert s. induction l1 as [|a l1 IH]; intros s; cbn; [by intros [= ->]|].
  destruct (f s a) as [s1| | |]; cbn; [apply IH|done..].
Qed.
Lemma try_filter_map_app {A B} (f : A -> Stored (option B)) l1 l2 r1 r2 :
  try_filter_map f l1 = Ok r1 -> try_filter_map f l2 = Ok r2 -> try_filter_map f (l1 ++ l2) = Ok (r1 ++ r2).
Proof.
  revert r1. induction l1 as [|a l1 IH]; intros r1; cbn; [by intros [= <-]|]. intros H1 H2.
  destruct (f a) as [b| | |]; cbn in *; [|done..]. destruct (try_filter_map f l1) as [r| | |]; cbn in *; [|done..].
  injection H1 as <-. rewrite (IH r eq_refl H2). cbn. by destruct b.
Qed.
Lemma narrow_ok lo hi v : lo <= v <= hi -> narrow lo hi v = Ok v.
Proof. intros Hv. unfold narrow. by rewrite !(proj2 (Z.leb_le _ _)) by lia. Qed.

(** What the storage has a form for: a stack with an identifier that reads back. *)
Definition storable_stack (stack : ItemStack) : bool :=
  match legacy_item stack with
  | Some (item_id, damage) =>
      bool_decide (semantic_item item_id damage (count stack) = stack) &&
      (0 <=? damage) && (damage <=? 32767) && (0 <=? count stack) && (count stack <=? 127)
  | None => false
  end.
Definition storable_slot (slot : option ItemStack) : bool :=
  match slot with Some stack => storable_stack stack | None => true end.

Lemma legacy_item_range stack item_id damage : legacy_item stack = Some (item_id, damage) -> 0 <= item_id <= 280.
Proof.
  unfold legacy_item, by_key, legacy_item_ids. case_match; [done|]. cbn [fmap option_fmap option_map].
  repeat case_bool_decide; cbn; intros [= <- <-]; lia.
Qed.
Lemma item_codec i stack slots : storable_stack stack = true -> 0 <= i <= 127 -> i < len slots ->
  exists tag, encode_item_slot (i, Some stack) = Ok (Some tag) /\ tag_type tag = 10 /\ tag_ok tag = true /\
    decode_item slots tag = Ok (<[Z.to_nat i := Some stack]> slots).
Proof.
  unfold storable_stack, encode_item_slot. cbn [fst snd]. destruct (legacy_item stack) as [[item_id damage]|] eqn:El; [|done].
  rewrite !andb_true_iff, !Z.leb_le, bool_decide_eq_true. intros ((((Hs & Hd) & Hd') & Hc) & Hc') Hi Hlen.
  pose proof (legacy_item_range _ _ _ El) as Hid. unfold i8_of, i16_of. rewrite !narrow_ok by lia. cbn [mbind result_bind].
  eexists. split; [done|]. split; [done|]. split.
  - sort_compounds. cbn -[signed_fits]. by rewrite !(proj2 (signed_fits_spec _ _)) by (cbn; lia).
  - sort_compounds. unfold decode_item. cbn. unfold refuse_negative. rewrite (proj2 (Z.ltb_ge i 0)) by lia. cbn.
    rewrite (proj2 (Z.leb_gt _ _)), (proj2 (Z.ltb_ge damage 0)) by lia. cbn.
    rewrite (proj2 (Z.ltb_ge (count stack) 0)) by lia. cbn. by rewrite Hs.
Qed.
Definition entity_tag (tag : NbtTag) : Prop := tag_type tag = 10 /\ tag_ok tag = true.
Lemma items_codec n slots : (length slots <= n)%nat -> (n <= 128)%nat -> Forall (fun s => storable_slot s = true) slots ->
  exists items, try_filter_map encode_item_slot (enumerate slots) = Ok items /\ (length items <= length slots)%nat /\
    Forall entity_tag items /\
    try_fold decode_item (replicate n None) items = Ok (slots ++ replicate (n - length slots) None).
Proof.
  intros Hn H128 Hs. induction slots as [|slot slots IH] using rev_ind.
  { exists []. rewrite Nat.sub_0_r. cbn. split_and!; [done|lia|constructor|done]. }
  rewrite length_app in Hn. cbn [length] in Hn. apply Forall_app in Hs as [Hs Hslot]. apply (proj1 (Forall_singleton _ _)) in Hslot.
  destruct IH as (items & E & Hl & Ht & Hd); [lia|done|]. rewrite enumerate_snoc.
  replace (n - length slots)%nat with (S (n - length (slots ++ [slot]))) in Hd by (rewrite length_app; cbn [length]; lia).
  destruct slot as [stack|].
  - destruct (item_codec (len slots) stack (slots ++ replicate (S (n - length (slots ++ [Some stack]))) None)) as (tag & Et & Htt & Hto & Hdt);
      [done|lia|rewrite length_app, length_replicate; lia|].
    exists (items ++ [tag]). split_and!.
    + apply try_filter_map_app; [done|]. cbn [try_filter_map]. by rewrite Et.
    + rewrite !length_app. cbn. lia.
    + apply Forall_app. split; [done|]. by apply Forall_singleton.
    + rewrite (try_fold_app _ _ _ _ _ Hd). cbn [try_fold]. rewrite Hdt. cbn [mbind result_bind]. f_equal.
      rewrite Nat2Z.id. rewrite <- (Nat.add_0_r (length slots)) at 1. rewrite insert_app_r. by rewrite <- app_assoc.
  - exists items. split_and!.
    + rewrite <- (app_nil_r items). by apply try_filter_map_app.
    + rewrite length_app. lia.
    + done.
    + rewrite Hd. f_equal. by rewrite <- app_assoc.
Qed.

(** Chests and furnaces as the server has them. *)
Definition furnace_properties (container : ContainerBlockEntityState) : gmap string Z :=
  list_to_map (map (fun key => (key, container_property container key))
    [FURNACE_BURN_LEFT; FURNACE_BURN_MAX; FURNACE_COOK_PROGRESS; FURNACE_COOK_TOTAL]).
Definition storable_entity (be : BlockEntityState) : bool :=
  let '(BEContainer c) := be in
  forallb storable_slot (be_slots c) &&
  (if bool_decide (be_kind c = CHEST_BLOCK_ENTITY_KIND) then
     Nat.eqb (length (be_slots c)) 27 && bool_decide (be_properties c = ∅)
   else if bool_decide (be_kind c = FURNACE_BLOCK_ENTITY_KIND) then
     Nat.eqb (length (be_slots c)) 3 && bool_decide (be_properties c = furnace_properties c) &&
     forallb (fun key => signed_fits 16 (container_property c key))
       [FURNACE_BURN_LEFT; FURNACE_BURN_MAX; FURNACE_COOK_PROGRESS; FURNACE_COOK_TOTAL]
   else false).
Definition position_ok (p : BlockPos) : bool := signed_fits 32 (bx p) && signed_fits 32 (by_ p) && signed_fits 32 (bz p).
Lemma items_tag_ok items : Forall entity_tag items -> (length items <= 128)%nat -> tag_ok (NbtList 10 items) = true.
Proof.
  intros Hi Hl. cbn [tag_ok]. rewrite !andb_true_iff, Z.leb_le, forallb_Forall'. split; [split; [done|unfold i32_max; lia]|].
  eapply Forall_impl; [exact Hi|]. intros tag [Ht Ho]. by rewrite Ht, Ho.
Qed.
Lemma entity_codec position be : storable_entity be = true -> position_ok position = true ->
  exists tag, encode_tile_entity (position, be) = Ok (Some tag) /\ entity_tag tag /\
    decode_tile_entity tag = Ok (Some (position, be)).
Proof.
  destruct be as [c], position as [x y z]. unfold storable_entity, position_ok. cbn [bx by_ bz].
  rewrite !andb_true_iff, forallb_Forall'. intros [Hs Hk] [[Hx Hy] Hz]. unfold encode_tile_entity, entity_tag.
  case_bool_decide as Ec; [|case_bool_decide as Ef; [|done]].
  - rewrite andb_true_iff, Nat.eqb_eq, bool_decide_eq_true in Hk. destruct Hk as [Hl Hp].
    rewrite Ec, String.eqb_refl. destruct (items_codec 27 (be_slots c)) as (items & E & Hli & Ht & Hd); [lia|lia|done|].
    rewrite E. cbn [mbind result_bind]. eexists. split; [done|]. unfold at_position. sort_compounds. split.
    + split; [done|]. pose proof (items_tag_ok items Ht ltac:(lia)) as Hit. cbn -[signed_fits] in Hit |- *. by rewrite Hx, Hy, Hz, Hit.
    + unfold decode_tile_entity. cbn. unfold tile_slots. cbn. cbn [replicate] in Hd. rewrite Hd, Hl. cbn. rewrite app_nil_r. do 3 f_equal.
      destruct c as [kind slots properties]. cbn in *. by subst.
  - rewrite !andb_true_iff, Nat.eqb_eq, bool_decide_eq_true in Hk. destruct Hk as [[Hl Hp] Hv]. cbn [forallb] in Hv.
    rewrite !andb_true_iff in Hv. destruct Hv as (H1 & H2 & H3 & H4 & _).
    rewrite Ef. change (String.eqb FURNACE_BLOCK_ENTITY_KIND CHEST_BLOCK_ENTITY_KIND) with false. rewrite String.eqb_refl.
    rewrite take_ge by lia. destruct (items_codec 3 (be_slots c)) as (items & E & Hli & Ht & Hd); [lia|lia|done|].
    rewrite E. cbn [mbind result_bind]. eexists. split; [done|]. unfold at_position. sort_compounds. split.
    + split; [done|]. pose proof (items_tag_ok items Ht ltac:(lia)) as Hit. cbn -[signed_fits] in Hit |- *.
      by rewrite Hx, Hy, Hz, Hit, H1, H2, H3, H4.
    + unfold decode_tile_entity. cbn. unfold tile_slots. cbn. cbn [replicate] in Hd. rewrite Hd, Hl. cbn. rewrite app_nil_r. do 4 f_equal.
      destruct c as [kind slots properties]. cbn in Ef, Hp |- *. subst kind. f_equal. symmetry. exact Hp.
Qed.

(** ** Sections *)

(** A block with an identifier that reads back. *)
Definition storable_block (state : BlockState) : bool :=
  negb (String.eqb (bs_key state) "minecraft:air") && bool_decide (semantic_block (legacy_block state).1 0 = state).
Lemma legacy_block_range state : 0 <= (legacy_block state).1 <= 61 /\ (legacy_block state).2 = 0.
Proof. unfold legacy_block, by_key. repeat case_bool_decide; cbn; lia. Qed.
Lemma legacy_id_ok state : legacy_id state = Ok (legacy_block state).1.
Proof. apply narrow_ok. pose proof (legacy_block_range state). unfold u8_max. lia. Qed.

Definition no_data : list Z := replicate 2048 0.
Lemma set_no_data i : 0 <= i < 4096 -> set_nibble i 0 no_data = Some no_data.
Proof.
  intros Hi. unfold set_nibble. assert (no_data !! Z.to_nat (i / 2) = Some 0) as E.
  { apply lookup_replicate_2. assert (i / 2 < 2048) by (apply Z.div_lt_upper_bound; lia). assert (0 <= i / 2) by (apply Z.div_pos; lia). lia. }
  rewrite E. cbn [mbind option_bind]. f_equal. rewrite <- (list_insert_id _ _ _ E) at 2. f_equal. by destruct (i mod 2 =? 0).
Qed.
Lemma get_no_data i : 0 <= i < 4096 -> get_nibble no_data i = Some 0.
Proof.
  intros Hi. unfold get_nibble. assert (no_data !! Z.to_nat (i / 2) = Some 0) as ->.
  { apply lookup_replicate_2. assert (i / 2 < 2048) by (apply Z.div_lt_upper_bound; lia). assert (0 <= i / 2) by (apply Z.div_pos; lia). lia. }
  cbn. by destruct (i mod 2 =? 0).
Qed.
Lemma store_block_ok blocks e : 0 <= e.1 < 4096 ->
  store_block (blocks, no_data) e =
    if e.1 <? len blocks then Ok (<[Z.to_nat e.1 := (legacy_block e.2).1]> blocks, no_data) else Panic.
Proof.
  intros He. unfold store_block. rewrite legacy_id_ok. cbn [mbind result_bind]. destruct (e.1 <? len blocks); [|done].
  cbn [mbind result_bind]. by rewrite (proj2 (legacy_block_range _)), set_no_data.
Qed.
Lemma store_blocks_dense l : forall blocks blocks',
  Forall (fun e => 0 <= e.1 < 4096) l ->
  foldl (store_state legacy_id) (Ok blocks) l = Ok blocks' ->
  try_fold store_block (blocks, no_data) l = Ok (blocks', no_data).
Proof.
  assert (forall l, foldl (store_state legacy_id) Panic l = Panic) as Hpanic by (clear; induction l as [|e l IH]; [done|exact IH]).
  induction l as [|e l IH]; intros blocks blocks' Hl; cbn [foldl try_fold]; [by intros [= ->]|].
  apply Forall_cons in Hl as [He Hl]. rewrite store_block_ok by done.
  cbn [store_state mbind result_bind]. rewrite legacy_id_ok. cbn [mbind result_bind].
  destruct (e.1 <? len blocks); [by apply IH|by rewrite Hpanic].
Qed.
Definition block_ids (section : ChunkSection) : list Z := dense (fun state => (legacy_block state).1) 0 section.
Lemma section_arrays_ok section : section_in_range section ->
  try_fold store_block (replicate 4096 0, no_data) (iter_blocks section) = Ok (block_ids section, no_data).
Proof.
  intros Hr. apply store_blocks_dense.
  - apply Forall_forall. intros [i b] Hb%elem_of_iter_blocks. apply (Hr _ _ Hb).
  - apply (dense_states_ok legacy_id (fun state => (legacy_block state).1)); [done|]. intros i b _. apply legacy_id_ok.
Qed.

(** The address of a block and what an index expands to. *)
Lemma expand_ok k : 0 <= k < 4096 ->
  exists x y z, expand_block_index k = (x, y, z) /\ 0 <= x < 16 /\ 0 <= y < 16 /\ 0 <= z < 16 /\ k = y * 256 + z * 16 + x.
Proof.
  intros Hk. exists (k mod 16), ((k / 256) mod 16), ((k / 16) mod 16). unfold expand_block_index, index_expand, index_from_raw.
  rewrite land_4095, Z.mod_small, !land_15, !Z.shiftr_div_pow2 by lia. change (2 ^ 8) with 256. change (2 ^ 4) with 16.
  split; [done|]. pose proof (div_mod_digits k) as Hd. rewrite (Z.mod_small k 4096) in Hd by lia.
  split; [apply Z.mod_pos_bound; lia|]. split; [apply Z.mod_pos_bound; lia|]. split; [apply Z.mod_pos_bound; lia|]. lia.
Qed.
Lemma column_set_in_range x y z state c : 0 <= x < 16 -> 0 <= z < 16 ->
  map_Forall (fun _ => section_in_range) (sections c) -> map_Forall (fun _ => section_in_range) (sections (column_set_block x y z (Some state) c)).
Proof.
  intros Hx Hz Hc. rewrite column_set_sections. cbn zeta. case_match; [by apply map_Forall_delete|].
  apply map_Forall_insert_2; [|done]. unfold section_in_range, section_set_block. cbn [blocks].
  pose proof (Z.mod_pos_bound y 16 ltac:(lia)). apply map_Forall_insert_2.
  - rewrite section_index_eq by done. unfold section_local_y, SECTION_HEIGHT. lia.
  - destruct (sections c !! (y / SECTION_HEIGHT)) as [section|] eqn:E; [apply (Hc _ _ E)|apply map_Forall_empty].
Qed.
Lemma column_set_biomes x y z st c : biomes (column_set_block x y z st c) = biomes c.
Proof. unfold column_set_block. by repeat case_match. Qed.
Definition same_blocks (c1 c2 : ChunkColumn) : Prop :=
  forall x y z, 0 <= x < 16 -> 0 <= z < 16 -> column_get_block c1 x y z = column_get_block c2 x y z.
Lemma column_get_at c y section x Y z : sections c !! y = Some section -> 0 <= Y < 16 ->
  column_get_block c x (y * 16 + Y) z = blocks section !! section_index x Y z.
Proof.
  intros Es HY. unfold column_get_block, section_local_y, SECTION_HEIGHT.
  rewrite Z.div_add_l, Z.div_small, Z.add_0_r, Es by lia. cbn. by rewrite Z.add_comm, Z.mod_add, Z.mod_small by lia.
Qed.
Lemma section_sub c1 c2 y section k b :
  same_blocks c1 c2 -> map_Forall (fun _ => section_in_range) (sections c1) ->
  sections c1 !! y = Some section -> blocks section !! k = Some b ->
  exists section2, sections c2 !! y = Some section2 /\ blocks section2 !! k = Some b.
Proof.
  intros Hg R1 Es Eb. destruct (expand_ok k) as (x & Y & z & _ & Hx & HY & Hz & Ek); [apply (R1 _ _ Es _ _ Eb)|].
  rewrite <- section_index_eq in Ek by done. subst k. specialize (Hg x (y * 16 + Y) z Hx Hz).
  rewrite (column_get_at _ _ _ _ _ _ Es HY), Eb in Hg. destruct (sections c2 !! y) as [section2|] eqn:E2.
  - exists section2. split; [done|]. by rewrite (column_get_at _ _ _ _ _ _ E2 HY) in Hg.
  - unfold column_get_block, SECTION_HEIGHT in Hg. by rewrite Z.div_add_l, Z.div_small, Z.add_0_r, E2 in Hg by lia.
Qed.
Lemma column_sub c1 c2 y section :
  same_blocks c1 c2 -> column_ok c1 -> column_ok c2 -> map_Forall (fun _ => section_in_range) (sections c1) ->
  map_Forall (fun _ => section_in_range) (sections c2) ->
  sections c1 !! y = Some section -> sections c2 !! y = Some section.
Proof.
  intros Hg O1 O2 R1 R2 E1. destruct (O1 _ _ E1) as [Hy Hne]. apply map_choose in Hne as (k & b & Eb).
  destruct (section_sub _ _ _ _ _ _ Hg R1 E1 Eb) as (section2 & E2 & _). rewrite E2. f_equal. destruct (O2 _ _ E2) as [Hy2 _].
  assert (same_blocks c2 c1) as Hg' by (intros ?????; symmetry; by apply Hg).
  destruct section as [y1 m1], section2 as [y2 m2]. cbn in Hy, Hy2. subst. f_equal. apply map_eq. intros i. apply option_eq. intros bi. split; intros Hi.
  - destruct (section_sub _ _ _ _ i bi Hg' R2 E2 Hi) as (s & E & Es). rewrite E1 in E. by injection E as <-.
  - destruct (section_sub _ _ _ _ i bi Hg R1 E1 Hi) as (s & E & Es). rewrite E2 in E. by injection E as <-.
Qed.
Lemma column_ext c1 c2 :
  same_blocks c1 c2 -> column_ok c1 -> column_ok c2 -> map_Forall (fun _ => section_in_range) (sections c1) ->
  map_Forall (fun _ => section_in_range) (sections c2) -> col_pos c1 = col_pos c2 -> biomes c1 = biomes c2 -> c1 = c2.
Proof.
  intros Hg O1 O2 R1 R2 Hp Hb. assert (same_blocks c2 c1) as Hg' by (intros ?????; symmetry; by apply Hg).
  assert (sections c1 = sections c2) as Hs.
  { apply map_eq. intros y. apply option_eq. intros section. split; intros E; by eapply column_sub. }
  destruct c1, c2. cbn in *. by subst.
Qed.

(** *** Placing the blocks of a section *)

Definition placed (id : Z) : option BlockState :=
  let state := semantic_block id 0 in if String.eqb (bs_key state) "minecraft:air" then None else Some state.
Lemma placed_storable state : storable_block state = true -> placed (legacy_block state).1 = Some state.
Proof.
  unfold storable_block, placed. rewrite andb_true_iff, negb_true_iff, bool_decide_eq_true. intros [Ha ->]. by rewrite Ha.
Qed.
(** [c'] is [c] with the blocks of [ids] at the first indices of section [y]. *)
Definition placed_in (y : Z) (ids : list Z) (c c' : ChunkColumn) : Prop :=
  column_ok c' /\ map_Forall (fun _ => section_in_range) (sections c') /\ col_pos c' = col_pos c /\ biomes c' = biomes c /\
  forall x Y z, 0 <= x < 16 -> 0 <= z < 16 ->
    column_get_block c' x Y z =
      match (if decide (Y / 16 = y) then ids !! Z.to_nat (section_index x (Y mod 16) z) ≫= placed else None) with
      | Some state => Some state
      | None => column_get_block c x Y z
      end.
Lemma place_blocks_ok y c ids :
  column_ok c -> map_Forall (fun _ => section_in_range) (sections c) -> (length ids <= 4096)%nat ->
  exists c', try_fold (place_block y no_data) c (enumerate ids) = Ok c' /\ placed_in y ids c c'.
Proof.
  intros Hc Hr. induction ids as [|id ids IH] using rev_ind; intros Hl.
  { exists c. split; [done|]. split_and!; [done..|]. intros x Y z _ _. by case_decide. }
  rewrite length_app in Hl. cbn [length] in Hl. destruct IH as (c' & E & Ho & Hr' & Hp & Hb & Hg); [lia|].
  rewrite enumerate_snoc, (try_fold_app _ _ _ _ _ E). cbn [try_fold place_block]. rewrite get_no_data by lia.
  destruct (expand_ok (len ids)) as (x0 & Y0 & z0 & Ee & Hx0 & HY0 & Hz0 & Ek); [lia|].
  assert (forall x Y z, 0 <= x < 16 -> 0 <= z < 16 -> Y / 16 = y ->
    (Z.to_nat (section_index x (Y mod 16) z) = length ids <-> (x, Y, z) = (x0, y * 16 + Y0, z0))) as Haddr.
  { intros x Y z Hx Hz HY. pose proof (Z.mod_pos_bound Y 16 ltac:(lia)). pose proof (Z.div_mod Y 16 ltac:(lia)).
    rewrite section_index_eq by done. split; [intros; f_equal; [f_equal|]; lia|intros [= -> -> ->]; lia]. }
  assert (forall c'', (forall x Y z, 0 <= x < 16 -> 0 <= z < 16 -> column_get_block c'' x Y z =
      match (if decide ((x, Y, z) = (x0, y * 16 + Y0, z0)) then placed id else None) with
      | Some state => Some state | None => column_get_block c' x Y z end) ->
    forall x Y z, 0 <= x < 16 -> 0 <= z < 16 -> column_get_block c'' x Y z =
      match (if decide (Y / 16 = y) then (ids ++ [id]) !! Z.to_nat (section_index x (Y mod 16) z) ≫= placed else None) with
      | Some state => Some state | None => column_get_block c x Y z end) as Hstep.
  { intros c'' Hc'' x Y z Hx Hz. rewrite (Hc'' x Y z Hx Hz), (Hg x Y z Hx Hz). destruct (decide (Y / 16 = y)) as [HY|HY].
    - specialize (Haddr x Y z Hx Hz HY). destruct (decide ((x, Y, z) = (x0, y * 16 + Y0, z0))) as [Hk|Hk].
      + apply Haddr in Hk. rewrite Hk, list_lookup_middle, lookup_ge_None_2 by done. cbn. by destruct (placed id).
      + destruct (decide (Z.to_nat (section_index x (Y mod 16) z) < length ids)%nat).
        * by rewrite lookup_app_l.
        * rewrite !lookup_ge_None_2; [done| |lia]. rewrite length_app. cbn [length].
          assert (Z.to_nat (section_index x (Y mod 16) z) <> length ids) by (by intros ?%Haddr). lia.
    - rewrite decide_False; [done|]. intros [= _ HYe _]. apply HY. rewrite HYe, Z.div_add_l, Z.div_small by lia. lia. }
  unfold placed in Hstep. destruct (String.eqb _ _) eqn:Ea.
  - exists c'. split; [done|]. split_and!; [done..|]. apply Hstep. intros x Y z _ _. by case_decide.
  - rewrite narrow_ok by (unfold u16_max; lia). cbn [mbind result_bind]. rewrite Ee. eexists. split; [done|]. split_and!.
    + by apply column_ok_set.
    + by apply column_set_in_range.
    + by rewrite column_set_pos.
    + by rewrite column_set_biomes.
    + apply Hstep. intros x Y z Hx Hz. rewrite column_get_set by done. by case_decide.
Qed.

Definition storable_section (entry : Z * ChunkSection) : Prop :=
  0 <= entry.1 < 16 /\ section_in_range entry.2 /\ map_Forall (fun _ state => storable_block state = true) (blocks entry.2).
Lemma byte_array_ok l : (length l <= 4096)%nat -> Forall (fun v => 0 <= v < 256) l -> tag_ok (NbtByteArray l) = true.
Proof.
  intros Hl Hv. cbn [tag_ok]. rewrite (proj2 (Z.leb_le _ _)) by (unfold i32_max; lia). apply forallb_Forall'.
  eapply Forall_impl; [exact Hv|]. intros v. apply byte_fits_spec.
Qed.
Lemma constant_bytes_ok n v : (n <= 4096)%nat -> 0 <= v < 256 -> tag_ok (NbtByteArray (replicate n v)) = true.
Proof. intros Hn Hv. apply byte_array_ok; [by rewrite length_replicate|by apply Forall_replicate]. Qed.
Lemma block_ids_bytes section : Forall (fun v => 0 <= v < 256) (block_ids section).
Proof.
  apply Forall_forall. intros v Hv. unfold block_ids, dense in Hv. apply list_elem_of_fmap in Hv as (j & -> & _).
  destruct (blocks section !! j) as [b|]; [|done]. pose proof (proj1 (legacy_block_range b)) as Hb.
  change (0 <= (legacy_block b).1 < 256). lia.
Qed.
Lemma section_codec entry : storable_section entry ->
  exists tag, section_to_nbt entry = Ok tag /\ entity_tag tag /\
    forall c, section_from_nbt c tag = try_fold (place_block entry.1 no_data) c (enumerate (block_ids entry.2)).
Proof.
  destruct entry as [y section]. intros (Hy & Hr & _). unfold section_to_nbt. cbn [fst snd] in *. fold no_data.
  rewrite section_arrays_ok by done. cbn [mbind result_bind]. unfold i8_of. rewrite narrow_ok by lia. cbn [mbind result_bind].
  eexists. split; [done|]. sort_compounds. split; [split; [done|]|].
  - compound_entries.
    + apply (constant_bytes_ok 2048); lia.
    + apply byte_array_ok; [by unfold block_ids; rewrite length_dense|apply block_ids_bytes].
    + apply (constant_bytes_ok 2048); lia.
    + apply (constant_bytes_ok 2048); lia.
    + apply signed_fits_spec. cbn. lia.
  - intros c. unfold section_from_nbt. get_fields. done.
Qed.

(** ** Chunks *)

Lemma filter_map_codec {A B} (f : A -> Stored (option B)) (P : A -> B -> Prop) l :
  Forall (fun a => exists b, f a = Ok (Some b) /\ P a b) l -> exists bs, try_filter_map f l = Ok bs /\ Forall2 P l bs.
Proof.
  induction 1 as [|a l (b & E & Hp) Hl (bs & E' & Hps)]; [by exists []|]. exists (b :: bs). cbn. rewrite E. cbn. rewrite E'.
  split; [done|]. by constructor.
Qed.
Definition section_read (entry : Z * ChunkSection) (tag : NbtTag) : Prop :=
  entity_tag tag /\
  forall c, section_from_nbt c tag = try_fold (place_block entry.1 no_data) c (enumerate (block_ids entry.2)).
Lemma block_ids_placed section i : section_in_range section -> 0 <= i < 4096 ->
  map_Forall (fun _ state => storable_block state = true) (blocks section) ->
  block_ids section !! Z.to_nat i ≫= placed = blocks section !! i.
Proof.
  intros Hr Hi Hs. unfold block_ids, dense.
  pose proof (lookup_map_range (fun j => default 0 ((fun state => (legacy_block state).1) <$> blocks section !! j)) 0 4096 i Hi) as Hl.
  rewrite Z.sub_0_r in Hl. rewrite Hl. cbn [mbind option_bind]. destruct (blocks section !! i) as [b|] eqn:E; [|done].
  change (placed (legacy_block b).1 = Some b). apply placed_storable, (Hs _ _ E).
Qed.
Lemma section_blocks_in_range section x Y z : section_in_range section -> 0 <= x < 16 -> 0 <= z < 16 ->
  0 <= section_index x (Y mod 16) z < 4096.
Proof. intros _ Hx Hz. pose proof (Z.mod_pos_bound Y 16 ltac:(lia)). rewrite section_index_eq by done. lia. Qed.
Lemma place_sections l tags : Forall2 section_read l tags -> forall c,
  column_ok c -> map_Forall (fun _ => section_in_range) (sections c) -> Forall storable_section l -> NoDup (map fst l) ->
  (forall y x Y z, y ∈ map fst l -> Y / 16 = y -> 0 <= x < 16 -> 0 <= z < 16 -> column_get_block c x Y z = None) ->
  exists c', try_fold section_from_nbt c tags = Ok c' /\ column_ok c' /\
    map_Forall (fun _ => section_in_range) (sections c') /\ col_pos c' = col_pos c /\ biomes c' = biomes c /\
    forall x Y z, 0 <= x < 16 -> 0 <= z < 16 ->
      (forall section, (Y / 16, section) ∈ l -> column_get_block c' x Y z = blocks section !! section_index x (Y mod 16) z) /\
      (Y / 16 ∉ map fst l -> column_get_block c' x Y z = column_get_block c x Y z).
Proof.
  induction 1 as [|[y section] tag l tags [_ Hread] Hrest IH]; intros c Ho Hr Hs Hnd Hnone.
  { exists c. split_and!; [done..|]. intros x Y z _ _. split; [by intros ? ?%not_elem_of_nil|done]. }
  apply Forall_cons in Hs as [(Hy & Hsr & Hsb) Hs]. cbn [map fst] in Hnd. apply NoDup_cons in Hnd as [Hyl Hnd].
  cbn [try_fold]. rewrite Hread. cbn [fst snd] in *.
  destruct (place_blocks_ok y c (block_ids section)) as (c1 & E1 & Ho1 & Hr1 & Hp1 & Hb1 & Hg1);
    [done|done|by unfold block_ids; rewrite length_dense|].
  rewrite E1. cbn [mbind result_bind]. destruct (IH c1 Ho1 Hr1 Hs Hnd) as (c' & E' & Ho' & Hr' & Hp' & Hb' & Hg').
  { intros y' x Y z Hy' HY Hx Hz. rewrite Hg1 by done. rewrite decide_False by (intros Hyy; apply Hyl; congruence).
    apply (Hnone y'); [by right|done..]. }
  exists c'. split_and!; [done..|congruence|congruence|]. intros x Y z Hx Hz. destruct (Hg' x Y z Hx Hz) as [Hin Hout]. split.
  - intros section' [[= HY ->]|Hl]%elem_of_cons; [|by apply Hin]. rewrite Hout by congruence. rewrite Hg1 by done.
    rewrite decide_True by done. rewrite block_ids_placed; [|done|by apply (section_blocks_in_range section)|done].
    destruct (blocks section !! section_index x (Y mod 16) z); [done|]. apply (Hnone y); [by left|done..].
  - cbn [map fst]. rewrite not_elem_of_cons. intros [HY Hl]. rewrite (Hout Hl), Hg1 by done. by rewrite decide_False.
Qed.

Definition entity_read (entry : BlockPos * BlockEntityState) (tag : NbtTag) : Prop :=
  entity_tag tag /\ decode_tile_entity tag = Ok (Some entry).
Lemma add_entities l tags : Forall2 entity_read l tags -> forall m,
  try_fold add_tile_entity m tags = Ok (foldl (fun m e => <[e.1 := e.2]> m) m l).
Proof.
  induction 1 as [|[p be] tag l tags [_ Hread] Hrest IH]; intros m; [done|]. cbn [try_fold].
  assert (add_tile_entity m tag = Ok (<[p := be]> m)) as -> by (unfold add_tile_entity; by rewrite Hread).
  cbn [mbind result_bind foldl fst snd]. apply IH.
Qed.
Lemma foldl_insert_map (l : list (BlockPos * BlockEntityState)) (m : gmap BlockPos BlockEntityState) :
  l ≡ₚ map_to_list m -> foldl (fun m e => <[e.1 := e.2]> m) ∅ l = m.
Proof.
  intros Hl. assert (NoDup l.*1) as Hnd by (rewrite Hl; apply NoDup_fst_map_to_list).
  rewrite <- (list_to_map_to_list m), <- (list_to_map_proper l _ Hnd Hl). clear Hl.
  induction l as [|e l IH] using rev_ind; [done|]. rewrite foldl_snoc.
  rewrite (list_to_map_proper (l ++ [e]) (e :: l) Hnd) by (by rewrite Permutation_app_comm).
  rewrite fmap_app in Hnd. apply NoDup_app in Hnd as (Hnd & _). rewrite IH by done. by destruct e.
Qed.

(** What the storage keeps of a column: every section of the sixteen, of blocks it knows. *)
Definition storable_column (chunk : ChunkColumn) : Prop :=
  column_ok chunk /\ map_Forall (fun y section => storable_section (y, section)) (sections chunk) /\
  signed_fits 32 (cx (col_pos chunk)) = true /\ signed_fits 32 (cz (col_pos chunk)) = true /\
  (length (biomes chunk) <= 4096)%nat /\ Forall (fun v => 0 <= v < 256) (biomes chunk).
Definition entities_of (chunk : ChunkColumn) (block_entities : gmap BlockPos BlockEntityState) :
    gmap BlockPos BlockEntityState :=
  filter (fun entry => block_chunk_pos entry.1 = col_pos chunk) block_entities.
Definition storable_entities (m : gmap BlockPos BlockEntityState) : Prop :=
  map_Forall (fun p be => storable_entity be = true /\ position_ok p = true) m /\ Z.of_nat (size m) <= i32_max.

Lemma sent_sections chunk : map_Forall (fun y section => storable_section (y, section)) (sections chunk) -> column_ok chunk ->
  let l := filter (fun entry => section_sent entry.1 entry.2 = true) (ordered_sections chunk) in
  (forall y section, (y, section) ∈ l <-> sections chunk !! y = Some section) /\ NoDup (map fst l).
Proof.
  intros Hs Ho l. assert (forall y section, (y, section) ∈ ordered_sections chunk <-> sections chunk !! y = Some section) as Hin.
  { intros y section. unfold ordered_sections. rewrite list_elem_of_omap. split.
    - intros (j & _ & Hj). destruct (sections chunk !! j) as [s'|] eqn:E; [|done]. cbn in Hj. congruence.
    - intros E. exists y. rewrite E. split; [|done]. apply elem_of_section_ids, elem_of_dom. by eexists. }
  split.
  - intros y section. unfold l. rewrite list_elem_of_filter, Hin. cbn [fst snd]. split; [by intros []|]. intros E. split; [|done].
    destruct (Hs _ _ E) as [Hy _]. destruct (Ho _ _ E) as [_ Hne]. unfold section_sent, section_is_empty.
    rewrite bool_decide_eq_false_2 by done. cbn in Hy. lia.
  - unfold l. assert (NoDup (map fst (ordered_sections chunk))) as Hnd.
    { unfold ordered_sections. assert (NoDup (sorted_ids (dom (sections chunk)))) as Hids
        by (unfold sorted_ids; rewrite merge_sort_Permutation; apply NoDup_elements).
      clear Hin l. induction Hids as [|y ys Hy Hys IH]; cbn [omap list_omap]; [constructor|].
      destruct (sections chunk !! y); cbn [fmap option_fmap option_map map fst]; [|done]. constructor; [|done].
      intros Hin. apply list_elem_of_fmap in Hin as ([y' s'] & -> & Hin). apply list_elem_of_omap in Hin as (j & Hj & E).
      destruct (sections chunk !! j); [|done]. cbn in E. by injection E as -> _. }
    clear Hin l. induction (ordered_sections chunk) as [|e l IH]; [constructor|]. cbn [map] in Hnd. apply NoDup_cons in Hnd as [He Hnd].
    rewrite filter_cons. case_decide; [|by apply IH]. cbn [map]. constructor; [|by apply IH].
    intros Hin. apply He. apply list_elem_of_fmap in Hin as (e' & -> & [_ Hin]%list_elem_of_filter). by apply list_elem_of_fmap_2.
Qed.

Lemma chunk_codec chunk block_entities : storable_column chunk -> storable_entities (entities_of chunk block_entities) ->
  exists tag, chunk_to_nbt chunk block_entities = Ok tag /\ entity_tag tag /\
    chunk_from_nbt tag = Ok (chunk, entities_of chunk block_entities).
Proof.
  intros (Ho & Hs & Hx & Hz & Hbl & Hb) [He Hsize]. unfold chunk_to_nbt.
  set (entries := filter (fun entry => block_chunk_pos entry.1 = col_pos chunk) (block_entries block_entities)).
  assert (entries ≡ₚ map_to_list (entities_of chunk block_entities)) as Hentries.
  { apply NoDup_Permutation.
    - apply NoDup_filter. unfold block_entries. rewrite merge_sort_Permutation. apply NoDup_map_to_list.
    - apply NoDup_map_to_list.
    - intros [p be]. unfold entries, entities_of, block_entries.
      rewrite list_elem_of_filter, merge_sort_Permutation, !elem_of_map_to_list, map_lookup_filter_Some. cbn. tauto. }
  destruct (sent_sections chunk Hs Ho) as [Hin Hnd]. set (l := filter (fun entry => section_sent entry.1 entry.2 = true) (ordered_sections chunk)) in *.
  assert (Forall storable_section l) as Hl by (apply Forall_forall; intros [y section] ?%Hin; by apply (Hs y section)).
  destruct (filter_map_codec encode_tile_entity entity_read entries) as (tiles & Et & Htiles).
  { apply Forall_forall. intros [p be] Hpb. rewrite Hentries in Hpb. apply elem_of_map_to_list in Hpb.
    destruct (He _ _ Hpb) as [H1 H2]. destruct (entity_codec p be H1 H2) as (tag & E & Htag & Hd). by exists tag. }
  destruct (filter_map_codec (fun entry => tag ← section_to_nbt entry; Ok (Some tag)) section_read l) as (tags & Es & Htags).
  { eapply Forall_impl; [exact Hl|]. intros entry Hentry. destruct (section_codec entry Hentry) as (tag & E & Htag & Hd).
    exists tag. by rewrite E. }
  rewrite Et, Es. cbn [mbind result_bind]. eexists. split; [done|]. split; [split; [done|]|].
  - sort_compounds. apply tag_ok_compound; [reflexivity|]. apply Forall_cons. split; [split; [reflexivity|cbn [snd]]|by apply Forall_nil].
    assert (len tiles <= i32_max) as Hlt.
    { rewrite <- (Forall2_length _ _ _ Htiles), Hentries, length_map_to_list. exact Hsize. }
    assert (len tags <= 16) as Hls.
    { rewrite <- (Forall2_length _ _ _ Htags). pose proof (NoDup_incl_length (l := map fst l) (l' := range_Z 0 16)) as Hincl.
      rewrite length_map in Hincl. change (length (range_Z 0 16)) with 16%nat in Hincl. assert (length l <= 16)%nat; [|lia].
      apply Hincl; [by apply NoDup_ListNoDup|]. intros y Hy. apply list_elem_of_In, elem_of_range.
      apply list_elem_of_In, list_elem_of_fmap in Hy as (entry & -> & Hentry). rewrite Forall_forall in Hl. apply (Hl _ Hentry). }
    assert (forall l, len l <= i32_max -> Forall entity_tag l -> tag_ok (NbtList 10 l) = true) as Hlist.
    { clear. intros l Hlen Htag. cbn [tag_ok]. rewrite (proj2 (Z.leb_le _ _) Hlen). apply forallb_Forall'.
      eapply Forall_impl; [exact Htag|]. intros tag [H1 H2]. by rewrite H1, H2. }
    compound_entries; try done.
    + by apply byte_array_ok.
    + apply Hlist; [unfold i32_max; lia|]. clear -Htags. induction Htags as [|e tag l tags [Htag _] _ IH]; [constructor|]. by constructor.
    + apply Hlist; [done|]. clear -Htiles. induction Htiles as [|e tag l tags [Htag _] _ IH]; [constructor|]. by constructor.
  - unfold chunk_from_nbt. sort_compounds. get_fields.
    assert (column_ok (mkColumn (mkChunkPos (cx (col_pos chunk)) (cz (col_pos chunk))) ∅ (biomes chunk))) as Ho0 by apply map_Forall_empty.
    destruct (place_sections l tags Htags _ Ho0) as (c' & E & Ho' & Hr' & Hp' & Hb' & Hg'); [apply map_Forall_empty|done|done| |].
    { intros y x Y z _ _ _ _. unfold column_get_block. cbn [sections]. by rewrite lookup_empty. }
    rewrite E. cbn [mbind result_bind]. rewrite (add_entities entries tiles Htiles). cbn [mbind result_bind].
    rewrite (foldl_insert_map _ _ Hentries). do 2 f_equal.
    apply column_ext; [|done|done|done| |by rewrite Hp'; cbn; destruct (col_pos chunk)|by rewrite Hb'].
    + intros x Y z Hx0 Hz0. destruct (Hg' x Y z Hx0 Hz0) as [H1 H2].
      unfold column_get_block at 2. unfold SECTION_HEIGHT, section_local_y, section_get_block.
      destruct (sections chunk !! (Y / 16)) as [section|] eqn:Es'.
      * rewrite (H1 section) by (by apply Hin). done.
      * rewrite H2; [unfold column_get_block; cbn [sections]; by rewrite lookup_empty|].
        intros Hk. apply list_elem_of_fmap in Hk as ([y section] & Hy & Hk). cbn in Hy. subst y. apply Hin in Hk. congruence.
    + intros y section Ey. apply (Hs _ _ Ey).
Qed.
