(* ===== verification/AnvilPlayer.v ===== *)
(** * Players and the level in the storage
    ([crates/storage/mc-storage-je-anvil-1_7_10/src/playerdata.rs], [level.rs])

    A player and the description of the world as NBT, and back.  What a file keeps of a player
    is stated exactly: everything but the slots of the crafting grid and of the armour and the
    stacks the format has no identifier for. *)

From Stdlib Require Import Floats.SpecFloat.
From S2P Require Import Prelude Bytes Parsing VoxelModel VoxelItems VoxelContent VoxelState ProtoPacket JavaSlots JavaPlay JavaChunks JavaColumns AnvilNbt AnvilChunk.

(** ** Players *)

Definition PLAYERDATA_OFFHAND_SLOT : Z := -106.
Definition window_slot_to_playerdata_slot (window_slot : Z) : option Z :=
  if (9 <=? window_slot) && (window_slot <=? 35) then Some window_slot
  else if (36 <=? window_slot) && (window_slot <=? 44) then Some (window_slot - 36)
  else None.
Definition playerdata_slot_to_window_slot (slot : Z) : option Z :=
  if (0 <=? slot) && (slot <=? 8) then Some (36 + slot)
  else if (9 <=? slot) && (slot <=? 35) then Some slot
  else None.

(** The compound of a stack under its slot. *)
Definition stack_to_nbt (nbt_slot item_id damage : Z) (stack : ItemStack) : Stored NbtTag :=
  n ← i8_of (count stack);
  Ok (NbtCompound (compound_of
    [("Slot", NbtByte nbt_slot); ("id", NbtShort item_id); ("Damage", NbtShort (to_signed 16 damage)); ("Count", NbtByte n)])).
Definition window_slot_to_nbt (entry : Z * option ItemStack) : Stored (option NbtTag) :=
  match entry.2 with
  | None => Ok None
  | Some stack =>
      match legacy_item stack with
      | None => Ok None
      | Some (item_id, damage) =>
          window_slot ← narrow 0 u8_max entry.1;
          match window_slot_to_playerdata_slot window_slot with
          | None => Ok None
          | Some nbt_slot => tag ← stack_to_nbt nbt_slot item_id damage stack; Ok (Some tag)
          end
      end
  end.
Definition inventory_to_nbt (inventory : PlayerInventory) : Stored (list NbtTag) :=
  entries ← try_filter_map window_slot_to_nbt (enumerate (slots inventory));
  match offhand inventory with
  | None => Ok entries
  | Some stack =>
      match legacy_item stack with
      | None => Ok entries
      | Some (item_id, damage) => tag ← stack_to_nbt PLAYERDATA_OFFHAND_SLOT item_id damage stack; Ok (entries ++ [tag])
      end
  end.
(** [let _ = inventory.set(..)], whose index may panic *)
Definition assigned (r : option (bool * PlayerInventory)) : Stored PlayerInventory :=
  match r with Some (_, inventory) => Ok inventory | None => Panic end.
Definition inventory_entry (inventory : PlayerInventory) (entry : NbtTag) : Stored PlayerInventory :=
  compound ← as_compound entry;
  slot ← byte_field compound "Slot";
  n ← unwrap_or 0 (byte_field compound "Count");
  if n <=? 0 then Ok inventory
  else
    item_id ← short_field compound "id";
    damage ← unwrap_or 0 (short_field compound "Damage");
    let stack := semantic_item item_id (to_unsigned 16 damage) (to_unsigned 8 n) in
    if String.eqb (item_key stack) "minecraft:unsupported" then Ok inventory
    else if slot =? PLAYERDATA_OFFHAND_SLOT then assigned (set_slot Offhand (Some stack) inventory)
    else match playerdata_slot_to_window_slot slot with
         | None => Ok inventory
         | Some window_slot => assigned (inv_set window_slot (Some stack) inventory)
         end.
Definition inventory_from_tag (tag : NbtTag) : Stored PlayerInventory :=
  match tag with
  | NbtList _ entries => try_fold inventory_entry new_empty entries
  | _ => invalid "expected inventory list"
  end.

(** [Uuid] is its 128 bits. *)
Definition uuid_most (id : PlayerId) : Z := to_signed 64 (from_be_bytes (take 8 (to_be_bytes 16 id))).
Definition uuid_least (id : PlayerId) : Z := to_signed 64 (from_be_bytes (drop 8 (to_be_bytes 16 id))).
Definition uuid_of (most least : Z) : PlayerId :=
  from_be_bytes (to_be_bytes 8 (to_unsigned 64 most) ++ to_be_bytes 8 (to_unsigned 64 least)).
Definition player_to_nbt (player : PlayerSnapshot) : Stored NbtTag :=
  items ← inventory_to_nbt (inventory player);
  Ok (NbtCompound (compound_of
    [("Pos", NbtList 6 [NbtDouble (vx (position player)); NbtDouble (vy (position player)); NbtDouble (vz (position player))]);
     ("Rotation", NbtList 5 [NbtFloat (yaw player); NbtFloat (pitch player)]);
     ("UUIDMost", NbtLong (uuid_most (p_id player))); ("UUIDLeast", NbtLong (uuid_least (p_id player)));
     ("Dimension", NbtInt 0); ("OnGround", NbtByte (if on_ground player then 1 else 0));
     ("Health", NbtFloat (health player)); ("foodLevel", NbtInt (food player));
     ("foodSaturationLevel", NbtFloat (food_saturation player));
     ("SelectedItemSlot", NbtInt (selected_hotbar_slot player));
     ("Inventory", NbtList 10 items); ("Name", NbtString (username player))])).
(** [list[i]] *)
Definition tag_at (tags : list NbtTag) (i : nat) : Stored NbtTag :=
  match tags !! i with Some tag => Ok tag | None => Panic end.
Definition double_at (tags : list NbtTag) (i : nat) : Stored spec_float := tag ← tag_at tags i; double_from_tag tag.
Definition float_at (tags : list NbtTag) (i : nat) : Stored spec_float := tag ← tag_at tags i; float_from_tag tag.
(** [T::try_from(v).unwrap_or(d)] *)
Definition try_from_or (lo hi d v : Z) : Z := if (lo <=? v) && (v <=? hi) then v else d.
Definition player_from_nbt (root : NbtTag) : Stored PlayerSnapshot :=
  compound ← as_compound root;
  pos ← list_field compound "Pos";
  rotation ← list_field compound "Rotation";
  most ← long_field compound "UUIDMost";
  least ← long_field compound "UUIDLeast";
  inventory ← match compound_get compound "Inventory" with
              | Some tag => inventory_from_tag tag
              | None => Ok creative_starter_inventory
              end;
  username ← unwrap_or "player" (string_field compound "Name");
  x ← double_at pos 0; y ← double_at pos 1; z ← double_at pos 2;
  yaw ← float_at rotation 0; pitch ← float_at rotation 1;
  on_ground ← unwrap_or 1 (byte_field compound "OnGround");
  health ← unwrap_or (f32_of_Z 20) (float_field compound "Health");
  food ← unwrap_or 20 (int_field compound "foodLevel");
  food_saturation ← unwrap_or (f32_of_Z 5) (float_field compound "foodSaturationLevel");
  selected ← unwrap_or 0 (int_field compound "SelectedItemSlot");
  Ok (mkSnapshot (uuid_of most least) username (mkVec3 x y z) yaw pitch (negb (on_ground =? 0)) Overworld health
    (try_from_or (-32768) 32767 20 food) food_saturation inventory (Z.min 8 (try_from_or 0 u8_max 0 selected))).

(** ** The level *)

Definition ascii_uppercase_byte (b : byte) : byte :=
  if (97 <=? byte_Z b) && (byte_Z b <=? 122) then Z_byte (byte_Z b - 32) else b.
Definition to_ascii_uppercase (s : string) : string := bytes_string (map ascii_uppercase_byte (string_bytes s)).
Definition level_to_nbt (meta : WorldMeta) : NbtTag :=
  NbtCompound (compound_of [("Data", NbtCompound (compound_of
    [("version", NbtInt 19133); ("LevelName", NbtString (wm_level_name meta));
     ("generatorName", NbtString (to_ascii_lowercase (level_type meta)));
     ("SpawnX", NbtInt (bx (wm_spawn meta))); ("SpawnY", NbtInt (by_ (wm_spawn meta))); ("SpawnZ", NbtInt (bz (wm_spawn meta)));
     ("RandomSeed", NbtLong (to_signed 64 (wm_seed meta))); ("Time", NbtLong (time meta));
     ("GameType", NbtInt (wm_game_mode meta)); ("Difficulty", NbtByte (to_signed 8 (wm_difficulty meta)));
     ("MapFeatures", NbtByte 0); ("initialized", NbtByte 1)]))]).
Definition level_from_nbt (root : NbtTag) : Stored WorldMeta :=
  root ← as_compound root;
  data ← compound_field root "Data";
  level_name ← unwrap_or "world" (string_field data "LevelName");
  seed ← unwrap_or 0 (long_field data "RandomSeed");
  x ← unwrap_or 0 (int_field data "SpawnX"); y ← unwrap_or 4 (int_field data "SpawnY"); z ← unwrap_or 0 (int_field data "SpawnZ");
  time ← unwrap_or 0 (long_field data "Time");
  level_type ← unwrap_or "flat" (string_field data "generatorName");
  game_mode ← unwrap_or 0 (int_field data "GameType");
  difficulty ← unwrap_or 1 (byte_field data "Difficulty");
  Ok (mkWorldMeta level_name (to_unsigned 64 seed) (mkBlockPos x y z) Overworld time time
    (to_ascii_uppercase level_type) (try_from_or 0 u8_max 0 game_mode) (to_unsigned 8 difficulty) 20).

(** ** What is kept of an inventory *)

Definition stack_fits (stack : ItemStack) : bool :=
  (0 <=? count stack) && (count stack <=? 127) && (0 <=? damage stack) && (damage stack <=? u16_max).
Definition slot_fits (slot : option ItemStack) : bool := match slot with Some stack => stack_fits stack | None => true end.
(** A stack is kept when it is not empty and has an identifier that is read again. *)
Definition kept_stack (stack : ItemStack) : option ItemStack :=
  match legacy_item stack with
  | Some (item_id, damage) =>
      if (0 <? count stack) && negb (String.eqb (item_key (semantic_item item_id damage (count stack))) "minecraft:unsupported")
      then Some stack else None
  | None => None
  end.
Definition kept_slot (slot : option ItemStack) : option ItemStack := slot ≫= kept_stack.
Definition kept_at (i : nat) (slot : option ItemStack) : option ItemStack :=
  if (i <? 9)%nat then None else kept_slot slot.
Definition kept_inventory (inventory : PlayerInventory) : PlayerInventory :=
  mkInventory (imap kept_at (slots inventory)) (kept_slot (offhand inventory)).
Definition inventory_fits (inventory : PlayerInventory) : Prop :=
  length (slots inventory) = 45%nat /\ Forall (fun slot => slot_fits slot = true) (slots inventory) /\
  slot_fits (offhand inventory) = true.

Lemma legacy_item_damage stack item_id dmg : legacy_item stack = Some (item_id, dmg) -> dmg = damage stack.
Proof.
  unfold legacy_item. case_match; [done|]. intros (i & _ & [= _ ->])%fmap_Some. done.
Qed.
Lemma legacy_item_read stack item_id dmg : legacy_item stack = Some (item_id, dmg) ->
  item_key (semantic_item item_id dmg (count stack)) <> "minecraft:unsupported" -> semantic_item item_id dmg (count stack) = stack.
Proof.
  unfold legacy_item, is_legacy_compatible. destruct stack as [key n d comps ex]. cbn [damage item_key count components extra].
  destruct (bool_decide (comps = ∅)) eqn:E1, (bool_decide (ex = ∅)) eqn:E2; try done.
  apply bool_decide_eq_true in E1 as ->. apply bool_decide_eq_true in E2 as ->. cbn [negb andb].
  intros (i & Hi & [= -> ->])%fmap_Some. unfold legacy_item_ids in Hi. cbn [by_key] in Hi. unfold semantic_item.
  destruct (d =? 0); repeat case_bool_decide; simplify_eq; try done; intros H; by destruct H.
Qed.

(** A stack that is written is read into its slot, if it is kept. *)
Lemma stack_codec nbt_slot item_id dmg stack :
  legacy_item stack = Some (item_id, dmg) -> stack_fits stack = true -> signed_fits 8 nbt_slot = true ->
  exists tag, stack_to_nbt nbt_slot item_id dmg stack = Ok tag /\ entity_tag tag /\
    forall inv, inventory_entry inv tag =
      match kept_stack stack with
      | None => Ok inv
      | Some stack =>
          if nbt_slot =? PLAYERDATA_OFFHAND_SLOT then assigned (set_slot Offhand (Some stack) inv)
          else match playerdata_slot_to_window_slot nbt_slot with
               | None => Ok inv
               | Some window_slot => assigned (inv_set window_slot (Some stack) inv)
               end
      end.
Proof.
  intros El Hfits Hslot. unfold stack_fits in Hfits. rewrite !andb_true_iff, !Z.leb_le in Hfits.
  destruct Hfits as [[[Hc Hc'] Hd] Hd']. pose proof (legacy_item_range _ _ _ El) as Hid.
  pose proof (legacy_item_damage _ _ _ El) as ->. unfold stack_to_nbt, i8_of. rewrite narrow_ok by lia. cbn [mbind result_bind].
  eexists. split; [done|]. split; [split; [done|]|].
  - sort_compounds. compound_entries; [apply signed_fits_spec; cbn; lia|apply cast_signed_fits; unfold u16_max in Hd'; cbn; lia|done|].
    apply signed_fits_spec. cbn. lia.
  - intros inv. sort_compounds. unfold inventory_entry. get_fields. unfold kept_stack. rewrite El.
    destruct (Z.leb_spec (count stack) 0); [by rewrite (proj2 (Z.ltb_ge _ _)) by lia|].
    rewrite (proj2 (Z.ltb_lt _ _)) by lia. cbn [andb].
    rewrite cast_back by (unfold u16_max in Hd'; cbn; lia).
    assert (to_unsigned 8 (count stack) = count stack) as -> by (apply Z.mod_small; cbn; lia).
    destruct (String.eqb_spec (item_key (semantic_item item_id (damage stack) (count stack))) "minecraft:unsupported") as [|Hk]; [done|].
    cbn [negb]. by rewrite (legacy_item_read _ _ _ El Hk).
Qed.

Lemma window_slot_stored w n : window_slot_to_playerdata_slot w = Some n ->
  9 <= w <= 44 /\ 0 <= n <= 44 /\ playerdata_slot_to_window_slot n = Some w.
Proof.
  unfold window_slot_to_playerdata_slot, playerdata_slot_to_window_slot. intros H.
  destruct (Z.leb_spec 9 w), (Z.leb_spec w 35), (Z.leb_spec 36 w), (Z.leb_spec w 44); cbn [andb] in H; try discriminate;
    injection H as <-; (split; [lia|split; [lia|]]); repeat match goal with |- context [?a <=? ?b] => destruct (Z.leb_spec a b) end; cbn [andb]; first [f_equal; lia|exfalso; lia].
Qed.
Lemma window_slot_lost w : 0 <= w < 45 -> window_slot_to_playerdata_slot w = None -> w < 9.
Proof.
  unfold window_slot_to_playerdata_slot. intros Hw H.
  destruct (Z.leb_spec 9 w), (Z.leb_spec w 35), (Z.leb_spec 36 w), (Z.leb_spec w 44); cbn [andb] in H; try discriminate; lia.
Qed.

(** What a slot of the window adds to the inventory that is read. *)
Lemma window_slot_codec (l : list (option ItemStack)) slot inv :
  (length l < 45)%nat -> slot_fits slot = true -> len (slots inv) = 45 ->
  exists items, try_filter_map window_slot_to_nbt [(len l, slot)] = Ok items /\ (length items <= 1)%nat /\ Forall entity_tag items /\
    try_fold inventory_entry inv items =
      Ok match kept_at (length l) slot with
         | Some stack => mkInventory (<[length l := Some stack]> (slots inv)) (offhand inv)
         | None => inv
         end.
Proof.
  intros Hl Hs Hinv. cbn [try_filter_map]. unfold window_slot_to_nbt. cbn [fst snd].
  assert (kept_at (length l) slot = None ->
    exists items : list NbtTag, Ok [] = (Ok items : Stored (list NbtTag)) /\ (length items <= 1)%nat /\ Forall entity_tag items /\
    try_fold inventory_entry inv items = Ok match kept_at (length l) slot with
         | Some stack => mkInventory (<[length l := Some stack]> (slots inv)) (offhand inv) | None => inv end) as Hnone.
  { intros Hk. exists []. split_and!; [done|cbn; lia|constructor|]. by rewrite Hk. }
  unfold kept_at in *. destruct slot as [stack|]; [|apply Hnone; by destruct (length l <? 9)%nat].
  destruct (legacy_item stack) as [[item_id dmg]|] eqn:El.
  2: { apply Hnone. destruct (length l <? 9)%nat; [done|]. unfold kept_slot, kept_stack. cbn. by rewrite El. }
  rewrite narrow_ok by (unfold u8_max; lia). cbn [mbind result_bind].
  destruct (window_slot_to_playerdata_slot (len l)) as [n|] eqn:En.
  2: { apply Hnone. apply window_slot_lost in En; [|lia]. by rewrite (proj2 (Nat.ltb_lt _ _)) by lia. }
  destruct (window_slot_stored _ _ En) as (Hw & Hn & Ew).
  destruct (stack_codec n item_id dmg stack El Hs) as (tag & Et & Htag & Hread); [apply signed_fits_spec; cbn; lia|].
  rewrite Et. cbn [mbind result_bind]. exists [tag]. split_and!; [done|done|by apply Forall_singleton|].
  cbn [try_fold]. rewrite Hread, (proj2 (Nat.ltb_ge _ _)) by lia. unfold kept_slot. cbn [mbind option_bind].
  destruct (kept_stack stack) as [s|]; [|done]. rewrite (proj2 (Z.eqb_neq _ _)) by (unfold PLAYERDATA_OFFHAND_SLOT; lia).
  rewrite Ew. unfold inv_set, PLAYER_INVENTORY_SLOT_COUNT.
  rewrite (proj2 (Z.leb_gt _ _)), (proj2 (Z.ltb_lt _ _)) by lia. cbn. by rewrite Nat2Z.id.
Qed.
Lemma window_slots_codec l : (length l <= 45)%nat -> Forall (fun slot => slot_fits slot = true) l ->
  exists items, try_filter_map window_slot_to_nbt (enumerate l) = Ok items /\ (length items <= length l)%nat /\
    Forall entity_tag items /\
    try_fold inventory_entry new_empty items = Ok (mkInventory (imap kept_at l ++ replicate (45 - length l) None) None).
Proof.
  intros Hl Hs. induction l as [|slot l IH] using rev_ind.
  { exists []. split_and!; [done|cbn; lia|constructor|done]. }
  rewrite length_app in Hl. cbn [length] in Hl. apply Forall_app in Hs as [Hs Hslot]. apply (proj1 (Forall_singleton _ _)) in Hslot.
  destruct IH as (items & E & Hli & Ht & Hd); [lia|done|]. rewrite enumerate_snoc.
  replace (45 - length l)%nat with (S (45 - length (l ++ [slot]))) in Hd by (rewrite length_app; cbn [length]; lia).
  set (inv := mkInventory _ _) in Hd.
  destruct (window_slot_codec l slot inv) as (items' & E' & Hl' & Ht' & Hd'); [lia|done| |].
  { unfold inv. cbn [slots]. rewrite length_app, length_imap, length_replicate, length_app. cbn [length]. lia. }
  exists (items ++ items'). split_and!.
  - by apply try_filter_map_app.
  - rewrite !length_app. cbn [length]. lia.
  - by apply Forall_app.
  - rewrite (try_fold_app _ _ _ _ _ Hd), Hd'. f_equal. rewrite imap_app. cbn [imap]. rewrite Nat.add_0_r, <- app_assoc. cbn [app].
    unfold inv. destruct (kept_at (length l) slot) as [stack|]; [|done]. cbn [slots offhand].
    f_equal. rewrite <- (length_imap kept_at l) at 1. rewrite <- (Nat.add_0_r (length (imap kept_at l))), insert_app_r. done.
Qed.
Lemma inventory_codec inv : inventory_fits inv ->
  exists items, inventory_to_nbt inv = Ok items /\ tag_ok (NbtList 10 items) = true /\
    inventory_from_tag (NbtList 10 items) = Ok (kept_inventory inv).
Proof.
  intros (Hl & Hs & Ho). destruct (window_slots_codec (slots inv)) as (items & E & Hli & Ht & Hd); [lia|done|].
  rewrite Hl, app_nil_r in Hd. unfold inventory_to_nbt. rewrite E. cbn [mbind result_bind]. unfold kept_inventory.
  assert (kept_slot (offhand inv) = None -> exists items' : list NbtTag, Ok items = (Ok items' : Stored (list NbtTag)) /\ tag_ok (NbtList 10 items') = true /\
    inventory_from_tag (NbtList 10 items') = Ok (mkInventory (imap kept_at (slots inv)) (kept_slot (offhand inv)))) as Hnone.
  { intros Hk. exists items. split_and!; [done|apply items_tag_ok; [done|lia]|]. cbn [inventory_from_tag]. by rewrite Hd, Hk. }
  destruct (offhand inv) as [stack|]; [|by apply Hnone].
  destruct (legacy_item stack) as [[item_id dmg]|] eqn:El; [|apply Hnone; unfold kept_slot, kept_stack; cbn; by rewrite El].
  destruct (stack_codec PLAYERDATA_OFFHAND_SLOT item_id dmg stack El Ho eq_refl) as (tag & Et & Htag & Hread).
  rewrite Et. cbn [mbind result_bind]. exists (items ++ [tag]). split_and!; [done| |].
  - apply items_tag_ok; [apply Forall_app; split; [done|by apply Forall_singleton]|rewrite length_app; cbn [length]; lia].
  - cbn [inventory_from_tag]. rewrite (try_fold_app _ _ _ _ _ Hd). cbn [try_fold]. rewrite Hread, Z.eqb_refl.
    unfold kept_slot. cbn [mbind option_bind]. by destruct (kept_stack stack).
Qed.

(** ** Players *)

Record player_fits (p : PlayerSnapshot) : Prop := {
  fits_id : 0 <= p_id p < 2 ^ 128;
  fits_name : text_ok (username p) = true;
  fits_position : forallb (valid_binary 53 1024) [vx (position p); vy (position p); vz (position p)] = true;
  fits_floats : forallb (valid_binary 24 128) [yaw p; pitch p; health p; food_saturation p] = true;
  fits_food : signed_fits 16 (food p) = true;
  fits_selected : 0 <= selected_hotbar_slot p <= u8_max;
  fits_inventory : inventory_fits (inventory p)
}.
(** What a file keeps of a player. *)
Definition stored_player (p : PlayerSnapshot) : PlayerSnapshot :=
  mkSnapshot (p_id p) (username p) (position p) (yaw p) (pitch p) (on_ground p) Overworld (health p) (food p)
    (food_saturation p) (kept_inventory (inventory p)) (Z.min 8 (selected_hotbar_slot p)).

Lemma from_be_app l1 l2 : from_be_bytes (l1 ++ l2) = from_be_bytes l1 * 2 ^ (8 * len l2) + from_be_bytes l2.
Proof.
  unfold from_be_bytes. rewrite reverse_app, <- (length_reverse l2). induction (reverse l2) as [|b l IH]; cbn [app from_le_bytes].
  - cbn [length]. change (2 ^ (8 * Z.of_nat 0)) with 1. lia.
  - rewrite IH. cbn [length]. rewrite Nat2Z.inj_succ, Z.mul_succ_r, Z.pow_add_r by lia. change (2 ^ 8) with 256. lia.
Qed.
Lemma uuid_codec id : 0 <= id < 2 ^ 128 ->
  uuid_of (uuid_most id) (uuid_least id) = id /\ signed_fits 64 (uuid_most id) = true /\ signed_fits 64 (uuid_least id) = true.
Proof.
  intros Hid. unfold uuid_of, uuid_most, uuid_least. set (l := to_be_bytes 16 id).
  assert (length l = 16%nat) as Hl by apply length_to_be_bytes.
  assert (len (take 8 l) = 8) as Ht by (rewrite length_take, Hl; done).
  assert (len (drop 8 l) = 8) as Hd by (rewrite length_drop, Hl; done).
  pose proof (from_be_bytes_range (take 8 l)) as Hm. pose proof (from_be_bytes_range (drop 8 l)) as Hn. rewrite Ht in Hm. rewrite Hd in Hn.
  change (8 * 8) with 64 in *. split; [|split; by apply cast_signed_fits].
  rewrite !cast_back, from_be_app, !from_to_be_bytes, length_to_be_bytes by done. change (8 * Z.of_nat 8) with 64. rewrite !Z.mod_small by done.
  pose proof (from_be_app (take 8 l) (drop 8 l)) as E. rewrite take_drop, Hd in E. change (8 * 8) with 64 in E. rewrite <- E.
  unfold l. rewrite from_to_be_bytes. by apply Z.mod_small.
Qed.
Lemma try_from_fits lo hi d v : lo <= v <= hi -> try_from_or lo hi d v = v.
Proof. intros Hv. unfold try_from_or. by rewrite !(proj2 (Z.leb_le _ _)) by lia. Qed.

Lemma player_codec p : player_fits p ->
  exists tag, player_to_nbt p = Ok tag /\ entity_tag tag /\ player_from_nbt tag = Ok (stored_player p).
Proof.
  intros [Hid Hname Hpos Hf Hfood Hsel Hinv]. destruct (inventory_codec _ Hinv) as (items & E & Hit & Hread).
  destruct (uuid_codec _ Hid) as (Eid & Hm & Hl). unfold player_to_nbt. rewrite E. cbn [mbind result_bind]. eexists. split; [done|].
  cbn [forallb] in Hpos, Hf. rewrite !andb_true_iff in Hpos. rewrite !andb_true_iff in Hf.
  destruct Hpos as (Hx & Hy & Hz & _), Hf as (Hyaw & Hpi & Hh & Hs & _).
  pose proof (proj1 (signed_fits_spec 16 _) Hfood) as Hfr. unfold u8_max in Hsel. split.
  - split; [done|]. sort_compounds. compound_entries; try done.
    + by destruct (on_ground p).
    + cbn [tag_ok forallb tag_type]. by rewrite Hx, Hy, Hz.
    + cbn [tag_ok forallb tag_type]. by rewrite Hyaw, Hpi.
    + apply signed_fits_spec. cbn. lia.
    + apply signed_fits_spec. cbn in Hfr |- *. lia.
  - sort_compounds. unfold player_from_nbt. get_fields. rewrite Hread. cbn [mbind result_bind]. unfold double_at, float_at, tag_at.
    cbn [lookup list_lookup mbind result_bind double_from_tag float_from_tag].
    rewrite Eid, !try_from_fits by (unfold u8_max; cbn in Hfr; lia). unfold stored_player. f_equal.
    destruct p as [id name [x y z] yw pi g dim h f fs inv sel]. cbn. by destruct g.
Qed.

(** ** The level *)

Record level_fits (m : WorldMeta) : Prop := {
  fits_level_name : text_ok (wm_level_name m) = true;
  fits_level_type : text_ok (to_ascii_lowercase (level_type m)) = true;
  fits_spawn : position_ok (wm_spawn m) = true;
  fits_seed : 0 <= wm_seed m <= u64_max;
  fits_time : signed_fits 64 (time m) = true;
  fits_game_mode : 0 <= wm_game_mode m <= u8_max;
  fits_difficulty : 0 <= wm_difficulty m <= u8_max
}.
(** What [level.dat] keeps of the description of the world. *)
Definition stored_meta (m : WorldMeta) : WorldMeta :=
  mkWorldMeta (wm_level_name m) (wm_seed m) (wm_spawn m) Overworld (time m) (time m) (to_ascii_uppercase (level_type m))
    (wm_game_mode m) (wm_difficulty m) 20.
Lemma upper_lower s : to_ascii_uppercase (to_ascii_lowercase s) = to_ascii_uppercase s.
Proof.
  unfold to_ascii_uppercase, to_ascii_lowercase. unfold string_bytes, bytes_string. rewrite String.list_byte_of_string_of_list_byte, map_map. f_equal. apply map_ext. by intros [].
Qed.
Lemma level_codec m : level_fits m -> entity_tag (level_to_nbt m) /\ level_from_nbt (level_to_nbt m) = Ok (stored_meta m).
Proof.
  intros [Hn Ht Hs Hseed Htime Hm Hd]. unfold position_ok in Hs. rewrite !andb_true_iff in Hs. destruct Hs as [[Hx Hy] Hz].
  unfold u64_max, u8_max in *. unfold level_to_nbt. sort_compounds. split.
  - split; [done|]. apply tag_ok_compound; [done|]. apply Forall_cons. split; [split; [done|cbn [snd]]|by apply Forall_nil].
    compound_entries; try done.
    + apply cast_signed_fits; cbn; lia.
    + apply signed_fits_spec. cbn. lia.
    + apply cast_signed_fits; cbn; lia.
  - unfold level_from_nbt. get_fields. rewrite upper_lower, !cast_back, try_from_fits by (unfold u8_max; cbn; lia).
    unfold stored_meta. by destruct (wm_spawn m).
Qed.
