(* ===== verification/AnvilRegion.v ===== *)
(** * Region files ([crates/storage/mc-storage-je-anvil-1_7_10/src/region.rs])

    A region file holds up to 1024 compressed chunks in sectors of 4096 bytes, behind a table of
    their locations.  flate2 is [Compression], about which only its round trip is assumed. *)

From S2P Require Import Prelude Bytes Parsing VoxelModel VoxelItems VoxelContent VoxelState ProtoPacket JavaSlots JavaChunks JavaColumns AnvilNbt AnvilChunk.

Class Compression : Type := {
  zlib_compress : list byte -> list byte; zlib_decompress : list byte -> option (list byte);
  gzip_compress : list byte -> list byte; gzip_decompress : list byte -> option (list byte)
}.
Class CompressionLaws `{Compression} : Prop := {
  zlib_inverse : forall l, zlib_decompress (zlib_compress l) = Some l;
  gzip_inverse : forall l, gzip_decompress (gzip_compress l) = Some l
}.

Definition ANVIL_SECTOR_BYTES : Z := 4096.
Definition ANVIL_HEADER_BYTES : Z := ANVIL_SECTOR_BYTES * 2.
Definition CHUNK_COMPRESSION_ZLIB : Z := 2.

(** [slice[a..b]], [slice[i..i + n].copy_from_slice(..)] *)
Definition slice (bytes : list byte) (a b : Z) : Stored (list byte) :=
  match slice_get bytes a b with Some l => Ok l | None => Panic end.
Definition copy_at (i : Z) (l bytes : list byte) : Stored (list byte) :=
  if i + len l <=? len bytes
  then Ok (take (Z.to_nat i) bytes ++ l ++ drop (Z.to_nat i + length l) bytes) else Panic.
(** An opaque [io::Error] of the decoder. *)
Definition decoded (r : option (list byte)) : Stored (list byte) :=
  match r with Some bytes => Ok bytes | None => Err Io end.

Section Region.
Context `{Build} `{Compression}.

Definition zlib_compress_nbt (name : string) (tag : NbtTag) : Out :=
  raw ← write_named_tag 10 name tag; Ok (zlib_compress raw).
Definition decompress_zlib (bytes : list byte) : Stored (list byte) := decoded (zlib_decompress bytes).
Definition decompress_gzip (bytes : list byte) : Stored (list byte) := decoded (gzip_decompress bytes).

(** [a + b] of [u32] values *)
Definition add_u32 (a b : Z) : Stored Z :=
  if a + b <=? u32_max then Ok (a + b) else if overflow_checks then Panic else Ok (wrapping_add 32 a b).

Record RegionWriter : Type := mkRegionWriter {
  locations : list byte; timestamps : list byte; region_body : list byte; sector_offset : Z
}.
Definition region_writer_new : RegionWriter :=
  mkRegionWriter (replicate 4096 (Z_byte 0)) (replicate 4096 (Z_byte 0)) [] 2.
Definition write_region_chunk (block_entities : gmap BlockPos BlockEntityState) (w : RegionWriter) (chunk : ChunkColumn) :
    Stored RegionWriter :=
  let index := region_chunk_index (col_pos chunk) in
  chunk_nbt ← chunk_to_nbt chunk block_entities;
  compressed ← zlib_compress_nbt "" chunk_nbt;
  length ← (if len compressed + 1 <=? u32_max then Ok (len compressed + 1) else invalid "compressed chunk too large");
  total_bytes ← add_u32 length 4;
  let sector_count := div_ceil total_bytes ANVIL_SECTOR_BYTES in
  let location := Z.lor (to_unsigned 32 (Z.shiftl (sector_offset w) 8)) sector_count in
  locations ← copy_at (index * 4) (to_be_bytes 4 location) (locations w);
  timestamps ← copy_at (index * 4) (to_be_bytes 4 0) (timestamps w);
  let padding := sector_count * ANVIL_SECTOR_BYTES - total_bytes in
  Ok (mkRegionWriter locations timestamps
    (region_body w ++ to_be_bytes 4 length ++ [Z_byte CHUNK_COMPRESSION_ZLIB] ++ compressed ++
      replicate (Z.to_nat padding) (Z_byte 0))
    (saturating_add u32_max (sector_offset w) sector_count)).
(** The bytes of the file of a region. *)
Definition region_bytes (chunks : list ChunkColumn) (block_entities : gmap BlockPos BlockEntityState) :
    Stored (list byte) :=
  w ← try_fold (write_region_chunk block_entities) region_writer_new chunks;
  Ok (locations w ++ timestamps w ++ region_body w).

Definition RegionContents : Type := list ChunkColumn * gmap BlockPos BlockEntityState.
(** The chunk an entry of the table points to, if it points into the file. *)
Definition read_region_entry (bytes : list byte) (index : Z) :
    Stored (option (ChunkColumn * gmap BlockPos BlockEntityState)) :=
  location ← slice bytes (index * 4) (index * 4 + 4);
  let location := from_be_bytes location in
  if location =? 0 then Ok None
  else
    let sector_offset := Z.shiftr location 8 in
    let sector_count := Z.land location 0xff in
    let start := sector_offset * ANVIL_SECTOR_BYTES in
    let end_ := start + sector_count * ANVIL_SECTOR_BYTES in
    if (len bytes <? end_) || (end_ <? start + 5) then Ok None
    else
      length ← slice bytes start (start + 4);
      let length := from_be_bytes length in
      if (length =? 0) || (end_ <? start + 4 + length) then Ok None
      else
        compression ← slice bytes (start + 4) (start + 5);
        payload ← slice bytes (start + 5) (start + 4 + length);
        decompressed ← match from_be_bytes compression with
                       | 1 => decompress_gzip payload
                       | 2 => decompress_zlib payload
                       | _ => invalid "unsupported region compression"
                       end;
        tag ← read_nbt decompressed;
        chunk ← chunk_from_nbt tag;
        Ok (Some chunk).
Definition add_region_entry (bytes : list byte) (s : RegionContents) (index : Z) : Stored RegionContents :=
  entry ← read_region_entry bytes index;
  Ok match entry with
     | Some (chunk, chunk_block_entities) => (s.1 ++ [chunk], chunk_block_entities ∪ s.2)
     | None => s
     end.
Definition read_region_bytes (bytes : list byte) : Stored RegionContents :=
  if len bytes <? ANVIL_HEADER_BYTES then invalid "region file is too small"
  else try_fold (add_region_entry bytes) ([], ∅) (range_Z 0 1024).
End Region.

(** ** The table *)

(** A table of [u32] values. *)
Definition table_bytes (vals : list Z) : list byte := mjoin (map (to_be_bytes 4) vals).
Lemma length_table vals : length (table_bytes vals) = (4 * length vals)%nat.
Proof.
  unfold table_bytes. induction vals as [|v vals IH]; [done|]. cbn [map]. rewrite mjoin_cons, length_app, length_to_be_bytes, IH.
  cbn [length]. lia.
Qed.
Lemma table_app l1 l2 : table_bytes (l1 ++ l2) = table_bytes l1 ++ table_bytes l2.
Proof. unfold table_bytes. by rewrite map_app, join_app. Qed.
Lemma table_zero n : replicate (4 * n) (Z_byte 0) = table_bytes (replicate n 0).
Proof.
  induction n as [|n IH]; [done|]. replace (4 * S n)%nat with (4 + 4 * n)%nat by lia. rewrite replicate_add, IH.
  change (replicate (S n) 0) with (0 :: replicate n 0). unfold table_bytes at 2. cbn [map]. by rewrite mjoin_cons.
Qed.
Lemma table_copy vals i v : (i < length vals)%nat ->
  copy_at (Z.of_nat i * 4) (to_be_bytes 4 v) (table_bytes vals) = Ok (table_bytes (<[i:=v]> vals)).
Proof.
  intros Hi. unfold copy_at. rewrite length_to_be_bytes, length_table, (proj2 (Z.leb_le _ _)) by lia. f_equal.
  replace (Z.to_nat (Z.of_nat i * 4)) with (4 * i)%nat by lia.
  destruct (lookup_lt_is_Some_2 vals i Hi) as [v0 Hv]. rewrite insert_take_drop by done.
  rewrite <- (take_drop_middle vals i v0 Hv) at 1 2. rewrite !table_app. change (table_bytes (?a :: ?l)) with (to_be_bytes 4 a ++ table_bytes l).
  assert (length (table_bytes (take i vals)) = 4 * i)%nat as Hl by (rewrite length_table, length_take; lia).
  f_equal; [by rewrite take_app_length'|]. f_equal.
  rewrite drop_app_ge, Hl by lia. replace (4 * i + 4 - 4 * i)%nat with 4%nat by lia. by rewrite drop_app_length' by (by rewrite length_to_be_bytes).
Qed.
Lemma table_read vals i v rest : vals !! i = Some v -> 0 <= v < 2 ^ 32 ->
  slice (table_bytes vals ++ rest) (Z.of_nat i * 4) (Z.of_nat i * 4 + 4) = Ok (to_be_bytes 4 v).
Proof.
  intros Hv Hr. pose proof (lookup_lt_Some _ _ _ Hv) as Hi. unfold slice, slice_get.
  rewrite length_app, length_table, !(proj2 (Z.leb_le _ _)) by lia. cbn [andb]. f_equal.
  replace (Z.to_nat (Z.of_nat i * 4)) with (4 * i)%nat by lia.
  replace (Z.to_nat (Z.of_nat i * 4 + 4 - Z.of_nat i * 4)) with 4%nat by lia.
  rewrite <- (take_drop_middle vals i v Hv), table_app. change (table_bytes (?a :: ?l)) with (to_be_bytes 4 a ++ table_bytes l).
  assert (length (table_bytes (take i vals)) = 4 * i)%nat as Hl by (rewrite length_table, length_take; lia).
  rewrite <- !app_assoc, drop_app_length' by done. apply take_app_length'. by rewrite length_to_be_bytes.
Qed.

(** ** What is written is read *)

Section RegionCodec.
Context `{Build} `{CompressionLaws}.
Variable block_entities : gmap BlockPos BlockEntityState.

(** The compressed bytes of a chunk, of at most 255 sectors. *)
Definition chunk_kept (chunk : ChunkColumn) (data : list byte) : Prop :=
  exists tag raw, chunk_to_nbt chunk block_entities = Ok tag /\ write_named_tag 10 "" tag = Ok raw /\
    data = zlib_compress raw /\ read_nbt raw = Ok tag /\ chunk_from_nbt tag = Ok (chunk, entities_of chunk block_entities) /\
    len data + 5 <= 255 * 4096.
Definition chunk_index (chunk : ChunkColumn) : nat := Z.to_nat (region_chunk_index (col_pos chunk)).
Definition sectors (data : list byte) : Z := div_ceil (len data + 5) ANVIL_SECTOR_BYTES.
Definition sector_prefix (data : list byte) : list byte :=
  to_be_bytes 4 (len data + 1) ++ [Z_byte CHUNK_COMPRESSION_ZLIB] ++ data.
(** The chunk with these bytes is in the body, and the table says where. *)
Definition entry_written (vals : list Z) (body : list byte) (offset : Z) (e : ChunkColumn * list byte) : Prop :=
  exists off, vals !! chunk_index e.1 = Some (off * 256 + sectors e.2) /\ 2 <= off /\ off + sectors e.2 <= offset /\
    take (length e.2 + 5) (drop (Z.to_nat ((off - 2) * 4096)) body) = sector_prefix e.2.
Record writer_ok (written : list (ChunkColumn * list byte)) (w : RegionWriter) (vals : list Z) : Prop := {
  ok_length : length vals = 1024%nat;
  ok_table : locations w = table_bytes vals;
  ok_timestamps : length (timestamps w) = 4096%nat;
  ok_body : len (region_body w) = (sector_offset w - 2) * 4096;
  ok_offset : 2 <= sector_offset w <= 2 + 255 * len written;
  ok_absent : forall i, (i < 1024)%nat -> i ∉ map (fun e => chunk_index e.1) written -> vals !! i = Some 0;
  ok_entries : Forall (entry_written vals (region_body w) (sector_offset w)) written
}.

Lemma region_index_range pos : 0 <= region_chunk_index pos < 1024.
Proof.
  unfold region_chunk_index. pose proof (Z.mod_pos_bound (cx pos) 32). pose proof (Z.mod_pos_bound (cz pos) 32). lia.
Qed.
Lemma chunk_index_range chunk : (chunk_index chunk < 1024)%nat.
Proof. unfold chunk_index. pose proof (region_index_range (col_pos chunk)). lia. Qed.
Lemma sectors_range data : len data + 5 <= 255 * 4096 ->
  1 <= sectors data <= 255 /\ len data + 5 <= sectors data * 4096 < len data + 5 + 4096.
Proof.
  intros Hd. unfold sectors, div_ceil, ANVIL_SECTOR_BYTES.
  pose proof (Z.div_mod (len data + 5 + 4096 - 1) 4096). pose proof (Z.mod_pos_bound (len data + 5 + 4096 - 1) 4096). lia.
Qed.
Lemma length_sector_prefix data : length (sector_prefix data) = (length data + 5)%nat.
Proof. unfold sector_prefix. rewrite !length_app, length_to_be_bytes. cbn. lia. Qed.

Lemma writer_new_ok : writer_ok [] region_writer_new (replicate 1024 0).
Proof.
  constructor; cbn [region_writer_new locations timestamps region_body sector_offset].
  - apply length_replicate.
  - apply (table_zero 1024).
  - by rewrite length_replicate.
  - done.
  - cbn. lia.
  - intros i Hi _. by apply lookup_replicate_2.
  - constructor.
Qed.
Lemma copy_length i l bytes bytes' : copy_at i l bytes = Ok bytes' -> 0 <= i -> length bytes' = length bytes.
Proof.
  unfold copy_at. destruct (Z.leb_spec (i + len l) (len bytes)); [|done]. intros [= <-] Hi.
  rewrite !length_app, length_take, length_drop. lia.
Qed.
Lemma entry_grows vals body offset e more offset' i v :
  entry_written vals body offset e -> len body = (offset - 2) * 4096 -> len e.2 + 5 <= 255 * 4096 -> offset <= offset' ->
  chunk_index e.1 <> i -> entry_written (<[i:=v]> vals) (body ++ more) offset' e.
Proof.
  intros (off & Hv & Ho & Hn & Hb) Hbody Hd Hle Hi. pose proof (sectors_range _ Hd) as Hs. exists off.
  split_and!; [by rewrite list_lookup_insert_ne|done|lia|].
  rewrite drop_app_le, take_app_le; [done| |]; rewrite ?length_drop; lia.
Qed.
Lemma write_chunk_ok written w vals chunk data :
  writer_ok written w vals -> Forall (fun e => len e.2 + 5 <= 255 * 4096) written -> (length written < 1024)%nat ->
  chunk_kept chunk data -> chunk_index chunk ∉ map (fun e => chunk_index e.1) written ->
  exists w' vals', write_region_chunk block_entities w chunk = Ok w' /\ writer_ok (written ++ [(chunk, data)]) w' vals'.
Proof.
  intros [Hlen Htab Hts Hbody Hoff Habs Hent] Hsizes Hcount (tag & raw & Et & Ew & -> & _ & _ & Hsize) Hnew.
  unfold write_region_chunk. rewrite Et. cbn [mbind result_bind]. unfold zlib_compress_nbt. rewrite Ew. cbn [mbind result_bind].
  set (data := zlib_compress raw) in *. pose proof (sectors_range _ Hsize) as Hs. pose proof (region_index_range (col_pos chunk)) as Hidx.
  rewrite (proj2 (Z.leb_le _ _)) by (unfold u32_max; lia). cbn [mbind result_bind]. unfold add_u32.
  rewrite (proj2 (Z.leb_le _ _)) by (unfold u32_max; lia). cbn [mbind result_bind].
  replace (len data + 1 + 4) with (len data + 5) by lia. fold (sectors data).
  assert (Z.lor (to_unsigned 32 (Z.shiftl (sector_offset w) 8)) (sectors data) = sector_offset w * 256 + sectors data) as ->.
  { unfold to_unsigned. rewrite Z.mod_small by (rewrite Z.shiftl_mul_pow2 by lia; cbn; lia). apply (lor_disjoint_add _ _ 8); lia. }
  assert (region_chunk_index (col_pos chunk) = Z.of_nat (chunk_index chunk)) as -> by (unfold chunk_index; lia).
  rewrite Htab, table_copy by (rewrite Hlen; apply chunk_index_range). cbn [mbind result_bind].
  destruct (copy_at (Z.of_nat (chunk_index chunk) * 4) (to_be_bytes 4 0) (timestamps w)) as [ts| | |] eqn:Ets.
  2-4: unfold copy_at in Ets; rewrite length_to_be_bytes, (proj2 (Z.leb_le _ _)) in Ets by (pose proof (chunk_index_range chunk); lia); done.
  cbn [mbind result_bind]. eexists _, _. split; [done|]. constructor; cbn [locations timestamps region_body sector_offset].
  - by rewrite length_insert.
  - done.
  - rewrite (copy_length _ _ _ _ Ets); [done|lia].
  - unfold ANVIL_SECTOR_BYTES, saturating_add, u32_max. rewrite !length_app, length_to_be_bytes, length_replicate. cbn [length]. lia.
  - unfold saturating_add, u32_max. rewrite length_app. cbn [length]. lia.
  - intros i Hi Hin. rewrite map_app in Hin. cbn [map fst] in Hin. apply not_elem_of_app in Hin as [Hin Hne].
    rewrite list_lookup_insert_ne by (intros Heq; apply Hne; rewrite <- Heq; by left). by apply Habs.
  - assert (sector_offset w <= saturating_add u32_max (sector_offset w) (sectors data)) as Hle by (unfold saturating_add, u32_max; lia).
    apply Forall_app. split.
    + apply Forall_forall. intros e He. rewrite Forall_forall in Hent, Hsizes.
      apply (entry_grows vals (region_body w) (sector_offset w)); auto. intros Heq. apply Hnew. rewrite <- Heq.
      apply (list_elem_of_fmap_2 (fun e => chunk_index e.1)), He.
    + apply Forall_singleton. exists (sector_offset w). cbn [fst snd]. split_and!.
      * apply list_lookup_insert_eq. rewrite Hlen. apply chunk_index_range.
      * lia.
      * unfold saturating_add, u32_max. lia.
      * rewrite drop_app_length' by lia. assert (forall pad, to_be_bytes 4 (len data + 1) ++ [Z_byte CHUNK_COMPRESSION_ZLIB] ++ data ++ pad =
          sector_prefix data ++ pad) as -> by (intros pad; unfold sector_prefix; by rewrite <- !app_assoc).
        apply take_app_length'. by rewrite length_sector_prefix.
Qed.

Lemma body_slice header body off m p a b :
  len header = 8192 -> 2 <= off -> (0 < m)%nat -> length p = m -> take m (drop (Z.to_nat ((off - 2) * 4096)) body) = p ->
  0 <= a <= b -> b <= Z.of_nat m ->
  slice (header ++ body) (off * 4096 + a) (off * 4096 + b) = Ok (take (Z.to_nat (b - a)) (drop (Z.to_nat a) p)).
Proof.
  intros Hh Ho Hm Hp Et Ha Hb. assert (Z.of_nat m <= len body - (off - 2) * 4096) as Hlen.
  { rewrite <- Et, length_take, length_drop in Hp. lia. }
  unfold slice, slice_get. rewrite length_app, !(proj2 (Z.leb_le _ _)) by lia. cbn [andb]. f_equal.
  replace (off * 4096 + b - (off * 4096 + a)) with (b - a) by lia.
  rewrite drop_app_ge by lia. replace (Z.to_nat (off * 4096 + a) - length header)%nat with (Z.to_nat ((off - 2) * 4096) + Z.to_nat a)%nat by lia.
  rewrite <- drop_drop, <- Et. set (rest := drop (Z.to_nat ((off - 2) * 4096)) body).
  rewrite (take_drop_commute rest), (take_drop_commute (take m rest)), take_take. do 2 f_equal. lia.
Qed.
Lemma location_fields off n : 0 <= n <= 255 -> Z.shiftr (off * 256 + n) 8 = off /\ Z.land (off * 256 + n) 0xff = n.
Proof.
  intros Hn. rewrite Z.shiftr_div_pow2 by lia. change 0xff with (Z.ones 8). rewrite Z.land_ones by lia. change (2 ^ 8) with 256.
  rewrite Z.div_add_l, Z.div_small by lia. split; [lia|]. rewrite Z.add_comm, Z.mod_add by lia. apply Z.mod_small. lia.
Qed.

Definition writer_bytes (w : RegionWriter) : list byte := locations w ++ timestamps w ++ region_body w.
Lemma absent_read written w vals i : writer_ok written w vals -> (i < 1024)%nat ->
  i ∉ map (fun e => chunk_index e.1) written -> read_region_entry (writer_bytes w) (Z.of_nat i) = Ok None.
Proof.
  intros [Hlen Htab _ _ _ Habs _] Hi Hin. unfold read_region_entry, writer_bytes.
  by rewrite Htab, (table_read vals i 0 _ (Habs i Hi Hin)).
Qed.
Lemma written_read written w vals chunk data : writer_ok written w vals -> (length written <= 1024)%nat ->
  (chunk, data) ∈ written -> chunk_kept chunk data ->
  read_region_entry (writer_bytes w) (Z.of_nat (chunk_index chunk)) = Ok (Some (chunk, entities_of chunk block_entities)).
Proof.
  intros [Hlen Htab Hts Hbody Hoff _ Hent] Hcount He (tag & raw & _ & _ & Ed & Hread & Hchunk & Hsize).
  rewrite Forall_forall in Hent. destruct (Hent _ He) as (off & Hv & Ho & Hn & Hb). cbn [fst snd] in *.
  pose proof (sectors_range _ Hsize) as Hs. set (n := sectors data) in *.
  assert (len (sector_prefix data) = len data + 5) as Hp by (rewrite length_sector_prefix; lia).
  assert (len (table_bytes vals ++ timestamps w) = 8192) as Hheader by (rewrite length_app, length_table, Hlen, Hts; lia).
  unfold read_region_entry, writer_bytes. rewrite Htab, (table_read vals _ _ _ Hv) by lia. cbn [mbind result_bind].
  rewrite from_to_be_bytes, Z.mod_small by lia. rewrite (proj2 (Z.eqb_neq _ _)) by lia.
  destruct (location_fields off n) as [-> ->]; [lia|]. unfold ANVIL_SECTOR_BYTES. rewrite app_assoc.
  assert (len ((table_bytes vals ++ timestamps w) ++ region_body w) = sector_offset w * 4096) as -> by (rewrite length_app; lia).
  rewrite !(proj2 (Z.ltb_ge _ _)) by lia. cbn [orb].
  assert (forall a b, 0 <= a <= b -> b <= len data + 5 ->
    slice ((table_bytes vals ++ timestamps w) ++ region_body w) (off * 4096 + a) (off * 4096 + b) =
      Ok (take (Z.to_nat (b - a)) (drop (Z.to_nat a) (sector_prefix data)))) as Hslice.
  { intros a b Ha Hab. apply (body_slice _ _ _ (length data + 5)); try done; lia. }
  rewrite <- (Z.add_0_r (off * 4096)) at 1. rewrite (Hslice 0 4) by lia. cbn [mbind result_bind].
  assert (take (Z.to_nat (4 - 0)) (drop (Z.to_nat 0) (sector_prefix data)) = to_be_bytes 4 (len data + 1)) as ->
    by (apply take_app_length'; by rewrite length_to_be_bytes).
  rewrite from_to_be_bytes, Z.mod_small by lia. rewrite (proj2 (Z.eqb_neq _ _)), (proj2 (Z.ltb_ge _ _)) by lia. cbn [orb].
  rewrite (Hslice 4 5) by lia. cbn [mbind result_bind].
  assert (drop 4 (sector_prefix data) = Z_byte 2 :: data) as Hd by (apply drop_app_length'; by rewrite length_to_be_bytes).
  change (Z.to_nat 4) with 4%nat. rewrite Hd. change (take (Z.to_nat (5 - 4)) (Z_byte 2 :: data)) with [Z_byte 2].
  replace (off * 4096 + 4 + (len data + 1)) with (off * 4096 + (len data + 5)) by lia. rewrite Hslice by lia. cbn [mbind result_bind].
  change (Z.to_nat 5) with (4 + 1)%nat. rewrite <- drop_drop, Hd. cbn [drop]. rewrite (take_ge data) by lia.
  change (from_be_bytes [Z_byte 2]) with 2. cbn iota. unfold decompress_zlib. rewrite Ed, zlib_inverse. cbn [decoded mbind result_bind].
  rewrite Hread. cbn [mbind result_bind]. by rewrite Hchunk.
Qed.

Lemma write_region_chunks_ok entries : Forall (fun e => chunk_kept e.1 e.2) entries ->
  NoDup (map (fun e => chunk_index e.1) entries) -> (length entries <= 1024)%nat ->
  exists w vals, try_fold (write_region_chunk block_entities) region_writer_new (map fst entries) = Ok w /\ writer_ok entries w vals.
Proof.
  intros Hk Hnd Hl. induction entries as [|[chunk data] entries IH] using rev_ind; [eexists _, _; split; [done|apply writer_new_ok]|].
  rewrite length_app in Hl. cbn [length] in Hl. rewrite map_app in Hnd. apply NoDup_app in Hnd as (Hnd & Hnew & _).
  apply Forall_app in Hk as [Hk Hc]. apply (proj1 (Forall_singleton _ _)) in Hc. destruct (IH Hk Hnd) as (w & vals & E & Hok); [lia|].
  destruct (write_chunk_ok entries w vals chunk data) as (w' & vals' & E' & Hok'); [done| |lia|done| |].
  - eapply Forall_impl; [exact Hk|]. by intros e (? & ? & ? & ? & ? & ? & ? & Hsize).
  - intros Hin. apply (Hnew _ Hin). by left.
  - exists w', vals'. split; [|done]. rewrite map_app, (try_fold_app _ _ _ _ _ E). cbn [map try_fold fst]. by rewrite E'.
Qed.

(** The entities of some chunks. *)
Definition entity_among (chunks : list ChunkColumn) (p : BlockPos) (be : BlockEntityState) : Prop :=
  block_entities !! p = Some be /\ block_chunk_pos p ∈ map col_pos chunks.
Lemma none_among p be : (∅ : gmap BlockPos BlockEntityState) !! p = Some be <-> entity_among [] p be.
Proof. rewrite lookup_empty. split; [done|]. by intros [_ ?%not_elem_of_nil]. Qed.
Lemma read_entries_ok bytes (chunks : list ChunkColumn) l :
  (forall i, i ∈ l -> i ∉ map (fun c => Z.of_nat (chunk_index c)) chunks -> read_region_entry bytes i = Ok None) ->
  (forall c, c ∈ chunks ->
    read_region_entry bytes (Z.of_nat (chunk_index c)) = Ok (Some (c, entities_of c block_entities))) ->
  forall read entities, (forall p be, entities !! p = Some be <-> entity_among read p be) ->
  exists read' entities', try_fold (add_region_entry bytes) (read, entities) l = Ok (read', entities') /\
    (forall p be, entities' !! p = Some be <-> entity_among read' p be) /\
    forall c, c ∈ read' <-> c ∈ read \/ (c ∈ chunks /\ Z.of_nat (chunk_index c) ∈ l).
Proof.
  intros Hnone Hsome. induction l as [|i l IH]; intros read entities He.
  { exists read, entities. split_and!; [done..|]. intros c. split; [by left|intros [|[_ []%not_elem_of_nil]]; done]. }
  cbn [try_fold]. unfold add_region_entry at 2. destruct (decide (i ∈ map (fun c => Z.of_nat (chunk_index c)) chunks)) as [Hi|Hi].
  - apply list_elem_of_fmap in Hi as (c & -> & Hc). rewrite (Hsome c Hc). cbn [mbind result_bind fst snd].
    edestruct (IH ltac:(by intros; apply Hnone; [right|]) (read ++ [c])) as (read' & entities' & E & He' & Hread);
      [|exists read', entities'; split_and!; [exact E|done|]].
    + intros p be. rewrite lookup_union_Some_raw, He. unfold entities_of, entity_among.
      rewrite map_lookup_filter_Some, map_lookup_filter_None, map_app, elem_of_app. cbn [map fst]. rewrite list_elem_of_singleton.
      destruct (decide (block_chunk_pos p = col_pos c)); naive_solver.
    + intros c'. rewrite Hread, elem_of_app, list_elem_of_singleton, elem_of_cons. split.
      * intros [[?| ->]|[??]]; [by left|right; auto|right; auto].
      * intros [?|[Hc' [Hi|?]]]; [by left; left| |by right]. left. right.
        pose proof (Hsome c' Hc') as E'. rewrite Hi, (Hsome c Hc) in E'. congruence.
  - rewrite (Hnone i) by (first [by left|done]). cbn [mbind result_bind].
    destruct (IH ltac:(by intros; apply Hnone; [right|]) _ _ He) as (read' & entities' & E & He' & Hread).
    exists read', entities'. split_and!; [exact E|done|]. intros c. rewrite Hread, elem_of_cons.
    split; [by intros [?|[??]]; auto|]. intros [?|[Hc [Hi'|?]]]; [by left| |by right].
    exfalso. apply Hi. rewrite <- Hi'. by apply (list_elem_of_fmap_2 (fun c => Z.of_nat (chunk_index c))).
Qed.

(** A region file holds what was written to it. *)
Lemma region_codec entries : Forall (fun e => chunk_kept e.1 e.2) entries ->
  NoDup (map (fun e => chunk_index e.1) entries) -> (length entries <= 1024)%nat ->
  exists bytes read entities, region_bytes (map fst entries) block_entities = Ok bytes /\
    read_region_bytes bytes = Ok (read, entities) /\ (forall c, c ∈ read <-> c ∈ map fst entries) /\
    (forall p be, entities !! p = Some be <-> entity_among read p be).
Proof.
  intros Hk Hnd Hl. destruct (write_region_chunks_ok entries Hk Hnd Hl) as (w & vals & E & Hok).
  exists (writer_bytes w). unfold region_bytes. rewrite E. cbn [mbind result_bind].
  edestruct (read_entries_ok (writer_bytes w) (map fst entries) (range_Z 0 1024)) as (read & entities & Er & He & Hread);
    [..|exact none_among|].
  - intros i [Hi Hi']%elem_of_range Hin. rewrite <- (Z2Nat.id i) by done. apply (absent_read entries w vals); [done|lia|].
    intros Hx. apply Hin. apply list_elem_of_fmap in Hx as (e & Ei & He). rewrite map_map. apply list_elem_of_fmap. exists e. split; [|done]. lia.
  - intros c Hc. apply list_elem_of_fmap in Hc as ([c' data] & -> & He). rewrite Forall_forall in Hk.
    apply (written_read entries w vals c' data); [done..|]. by apply (Hk _ He).
  - exists read, entities. split; [done|]. split; [|split; [|done]].
    + unfold read_region_bytes. destruct Hok as [Hlen Htab Hts _ _ _ _].
      rewrite (proj2 (Z.ltb_ge _ _)); [exact Er|]. unfold writer_bytes, ANVIL_HEADER_BYTES, ANVIL_SECTOR_BYTES.
      rewrite Htab, !length_app, length_table, Hlen, Hts. lia.
    + intros c. rewrite Hread. split; [intros [[]%not_elem_of_nil|[? _]]; done|]. intros Hc. right. split; [done|].
      apply elem_of_range. pose proof (chunk_index_range c). lia.
Qed.
End RegionCodec.
