(* ===== verification/AnvilStorage.v ===== *)
(** * The storage adapter
    ([crates/storage/mc-storage-je-anvil-1_7_10/src/lib.rs], [region.rs], [playerdata.rs], [level.rs])

    Saving a snapshot of the world to a directory and loading it: [level.dat], a file for each
    region of chunks and a file for each player.  The file system is [StorageEnv]: any call can
    fail and leave any files behind, and directories are listed in any order. *)

From Stdlib Require Import Ascii.
From stdpp Require Import pretty sorting.
From S2P Require Import Prelude Bytes Parsing VoxelModel VoxelItems VoxelContent VoxelState ProtoPacket JavaSlots JavaChunks JavaColumns AnvilNbt AnvilChunk AnvilPlayer AnvilRegion.

(** ** The files of a world *)

Definition LEVEL_DAT : string := "level.dat".
Definition PLAYERDATA_DIR : string := "playerdata".
Definition REGION_DIR : string := "region".
Definition WORLD_DIR : string := "".

(** The directories below the directory of the world, itself [WORLD_DIR], and the files in them. *)
Definition FilePath : Type := string * string.
Record Disk : Type := mkDisk { dirs : gset string; files : gmap FilePath (list byte) }.
Inductive IoCall : Type :=
| CreateDirAll (dir : string) | WriteFile (path : FilePath) | ReadFile (path : FilePath)
| ReadDir (dir : string) | ReadDirEntry (path : FilePath).
(** [io_fault call disk] is the disk a call that fails leaves behind; writing a file is one call,
    the creation and every write in it.  [dir_order] is the order of a listing. *)
Class StorageEnv : Type := {
  io_fault : IoCall -> Disk -> option Disk;
  dir_order : string -> list string -> list string;
  hyphenated : PlayerId -> string
}.

(** [Path::extension]: what follows the last dot, unless the name begins with it. *)
Fixpoint rsplit_dot (s : string) : option (string * string) :=
  match s with
  | EmptyString => None
  | String c rest =>
      match rsplit_dot rest with
      | Some (stem, ext) => Some (String c stem, ext)
      | None => if Ascii.eqb c "."%char then Some ("", rest) else None
      end
  end.
Definition extension (name : string) : option string :=
  match rsplit_dot name with
  | Some (stem, ext) => if String.eqb stem "" then None else Some ext
  | None => None
  end.

Section Storage.
Context `{Build} `{Compression} `{StorageEnv}.

Definition Store (A : Type) : Type := M StorageError Disk A.
Definition io (call : IoCall) : Store unit := fun disk =>
  match io_fault call disk with Some disk => (disk, Err Io) | None => (disk, Ok tt) end.
Fixpoint fold_each {A B} (f : B -> A -> Store B) (b : B) (l : list A) : Store B :=
  match l with [] => mret b | a :: l => b ← f b a; fold_each f b l end.

Definition create_dir_all (dir : string) : Store unit :=
  io (CreateDirAll dir) ;; modify (fun disk => mkDisk ({[WORLD_DIR; dir]} ∪ dirs disk) (files disk)).
Definition write_file (path : FilePath) (bytes : list byte) : Store unit :=
  io (WriteFile path) ;;
  disk ← get;
  if bool_decide (path.1 ∈ dirs disk) then modify (fun disk => mkDisk (dirs disk) (<[path := bytes]> (files disk))) else throw Io.
Definition read_file (path : FilePath) : Store (list byte) :=
  io (ReadFile path) ;; disk ← get; match files disk !! path with Some bytes => mret bytes | None => throw Io end.
Definition file_exists (path : FilePath) : Store bool := disk ← get; mret (bool_decide (is_Some (files disk !! path))).
Definition dir_exists (dir : string) : Store bool := disk ← get; mret (bool_decide (dir ∈ dirs disk)).
Definition names_in (dir : string) (disk : Disk) : list string :=
  map snd (filter (fun path => path.1 = dir) (elements (dom (files disk)))).
Definition read_dir (dir : string) : Store (list string) :=
  io (ReadDir dir) ;;
  disk ← get;
  if bool_decide (dir ∈ dirs disk) then mret (dir_order dir (names_in dir disk)) else throw Io.

Definition write_gzip_nbt (path : FilePath) (name : string) (tag : NbtTag) : Store unit :=
  raw ← lift (write_named_tag 10 name tag); write_file path (gzip_compress raw).
Definition read_gzip_nbt (path : FilePath) : Store NbtTag :=
  bytes ← read_file path; raw ← lift (decompress_gzip bytes); lift (read_nbt raw).

(** ** The level and the players *)

Definition write_level_dat (path : FilePath) (meta : WorldMeta) : Store unit := write_gzip_nbt path "" (level_to_nbt meta).
Definition read_level_dat (path : FilePath) : Store WorldMeta := root ← read_gzip_nbt path; lift (level_from_nbt root).

(** The values of a [BTreeMap], in the order of the keys. *)
Definition player_values (players : gmap PlayerId PlayerSnapshot) : list PlayerSnapshot :=
  omap (fun id => players !! id) (sorted_ids (dom players)).
Definition player_file (player : PlayerSnapshot) : string := hyphenated (p_id player) ++ ".dat".
Definition write_player (player : PlayerSnapshot) : Store unit :=
  root ← lift (player_to_nbt player); write_gzip_nbt (PLAYERDATA_DIR, player_file player) "" root.
Definition write_playerdata (players : gmap PlayerId PlayerSnapshot) : Store unit :=
  create_dir_all PLAYERDATA_DIR ;; for_each write_player (player_values players).
Definition read_player (players : gmap PlayerId PlayerSnapshot) (name : string) : Store (gmap PlayerId PlayerSnapshot) :=
  io (ReadDirEntry (PLAYERDATA_DIR, name)) ;;
  if bool_decide (extension name = Some "dat") then
    root ← read_gzip_nbt (PLAYERDATA_DIR, name);
    player ← lift (player_from_nbt root);
    mret (<[p_id player := player]> players)
  else mret players.
Definition read_playerdata : Store (gmap PlayerId PlayerSnapshot) :=
  there ← dir_exists PLAYERDATA_DIR;
  if negb there then mret ∅
  else names ← read_dir PLAYERDATA_DIR; fold_each read_player ∅ names.

(** ** The regions *)

Definition RegionPos : Type := Z * Z.
Definition region_of (pos : ChunkPos) : RegionPos := (cx pos / 32, cz pos / 32).
Definition region_order {A} (a b : RegionPos * A) : Prop := a.1.1 < b.1.1 \/ (a.1.1 = b.1.1 /\ a.1.2 <= b.1.2).
#[export] Instance region_order_dec {A} : RelDecision (@region_order A).
Proof. intros a b. unfold region_order. apply _. Defined.
Definition chunk_values (chunks : gmap ChunkPos ChunkColumn) : list ChunkColumn :=
  omap (fun pos => chunks !! pos) (sorted_chunks (dom chunks)).
(** [entry(region).or_default().push(chunk)] *)
Definition push_region (grouped : gmap RegionPos (list ChunkColumn)) (chunk : ChunkColumn) : gmap RegionPos (list ChunkColumn) :=
  <[region_of (col_pos chunk) := default [] (grouped !! region_of (col_pos chunk)) ++ [chunk]]> grouped.
Definition group_chunks (chunks : gmap ChunkPos ChunkColumn) : list (RegionPos * list ChunkColumn) :=
  merge_sort region_order (map_to_list (foldl push_region ∅ (chunk_values chunks))).
Definition region_file (region : RegionPos) : string := "r." ++ pretty region.1 ++ "." ++ pretty region.2 ++ ".mca".
Definition write_region_file (path : FilePath) (chunks : list ChunkColumn) (block_entities : gmap BlockPos BlockEntityState) :
    Store unit := bytes ← lift (region_bytes chunks block_entities); write_file path bytes.
Definition write_regions (chunks : gmap ChunkPos ChunkColumn) (block_entities : gmap BlockPos BlockEntityState) : Store unit :=
  create_dir_all REGION_DIR ;;
  for_each (fun group => write_region_file (REGION_DIR, region_file group.1) group.2 block_entities) (group_chunks chunks).
Definition read_region_file (path : FilePath) : Store RegionContents :=
  bytes ← read_file path; lift (read_region_bytes bytes).
Definition WorldChunks : Type := gmap ChunkPos ChunkColumn * gmap BlockPos BlockEntityState.
Definition insert_chunks (chunks : gmap ChunkPos ChunkColumn) (region_chunks : list ChunkColumn) : gmap ChunkPos ChunkColumn :=
  foldl (fun m chunk => <[col_pos chunk := chunk]> m) chunks region_chunks.
Definition read_region (world : WorldChunks) (name : string) : Store WorldChunks :=
  io (ReadDirEntry (REGION_DIR, name)) ;;
  if bool_decide (extension name = Some "mca") then
    '(region_chunks, region_block_entities) ← read_region_file (REGION_DIR, name);
    mret (insert_chunks world.1 region_chunks, region_block_entities ∪ world.2)
  else mret world.
Definition read_regions : Store WorldChunks :=
  there ← dir_exists REGION_DIR;
  if negb there then mret (∅, ∅)
  else names ← read_dir REGION_DIR; fold_each read_region (∅, ∅) names.

(** ** The adapter *)

Definition load_snapshot : Store (option WorldSnapshot) :=
  there ← file_exists (WORLD_DIR, LEVEL_DAT);
  if negb there then mret None
  else
    meta ← read_level_dat (WORLD_DIR, LEVEL_DAT);
    '(chunks, block_entities) ← read_regions;
    players ← read_playerdata;
    mret (Some (mkWorldSnapshot meta chunks block_entities players)).
Definition save_snapshot (snapshot : WorldSnapshot) : Store unit :=
  create_dir_all WORLD_DIR ;;
  write_level_dat (WORLD_DIR, LEVEL_DAT) (snap_meta snapshot) ;;
  write_regions (snap_chunks snapshot) (snap_block_entities snapshot) ;;
  write_playerdata (snap_players snapshot).
End Storage.

(** ** File names *)

Lemma rsplit_app a b : rsplit_dot b = None -> rsplit_dot (a ++ String "."%char b) = Some (a, b).
Proof.
  intros Hb. induction a as [|c a IH].
  - change ("" ++ ?b)%string with b. cbn [rsplit_dot]. by rewrite Hb.
  - change (String c a ++ ?b)%string with (String c (a ++ b))%string. cbn [rsplit_dot]. by rewrite IH.
Qed.
Lemma pretty_char_dot n : Ascii.eqb (pretty_N_char n) "."%char = false.
Proof. unfold pretty_N_char. by repeat case_match. Qed.
Lemma pretty_go_no_dot n s : rsplit_dot s = None -> rsplit_dot (pretty_N_go n s) = None.
Proof.
  revert s. induction (N.lt_wf_0 n) as [n _ IH]; intros s Hs.
  assert (n = 0 \/ 0 < n)%N as [->|Hn] by lia; [by rewrite pretty_N_go_0|].
  rewrite pretty_N_go_step by done. apply IH; [by apply N.div_lt|]. cbn [rsplit_dot]. by rewrite Hs, pretty_char_dot.
Qed.
Lemma pretty_no_dot (z : Z) : rsplit_dot (pretty z) = None.
Proof.
  assert (forall n : N, rsplit_dot (pretty n) = None) as Hn.
  { intros n. unfold pretty, pretty_N. destruct (decide _); [done|by apply pretty_go_no_dot]. }
  destruct z as [|p|p]; [done|apply (Hn (Npos p))|]. change (pretty (Z.neg p)) with (String "-"%char (pretty (Npos p))).
  cbn [rsplit_dot]. by rewrite Hn.
Qed.
Lemma string_app_assoc (a b c : string) : ((a ++ b) ++ c = a ++ (b ++ c))%string.
Proof. induction a as [|x a IH]; [done|].
  change ((String x a ++ b) ++ c)%string with (String x ((a ++ b) ++ c))%string. by rewrite IH. Qed.
Lemma region_file_split r : exists stem, rsplit_dot (region_file r) = Some (stem, "mca") /\
  rsplit_dot stem = Some (("r." ++ pretty r.1)%string, pretty r.2).
Proof.
  exists (("r." ++ pretty r.1) ++ "." ++ pretty r.2)%string. split; [|by apply rsplit_app, pretty_no_dot].
  unfold region_file. change ".mca" with ("." ++ "mca")%string. rewrite <- !string_app_assoc. rewrite (string_app_assoc _ "." "mca").
  by apply rsplit_app.
Qed.
Lemma region_file_extension r : extension (region_file r) = Some "mca".
Proof.
  destruct (region_file_split r) as (stem & E & E'). unfold extension. rewrite E. by destruct stem.
Qed.
Lemma region_file_inj r1 r2 : region_file r1 = region_file r2 -> r1 = r2.
Proof.
  destruct (region_file_split r1) as (s1 & E1 & E1'), (region_file_split r2) as (s2 & E2 & E2'). intros E.
  assert (s1 = s2) as <- by congruence. rewrite E1' in E2'. injection E2' as Ex Ez.
  change (pretty r1.1 = pretty r2.1) in Ex. apply (inj pretty) in Ez. apply (inj pretty) in Ex. destruct r1, r2. cbn in *. congruence.
Qed.
Lemma dat_extension stem : stem <> "" -> extension (stem ++ ".dat") = Some "dat".
Proof.
  intros Hs. unfold extension. change ".dat" with (String "."%char "dat"). rewrite rsplit_app by done.
  destruct (String.eqb_spec stem ""); done.
Qed.

Class StorageLaws `{StorageEnv} : Prop := {
  dir_order_perm : forall dir names, dir_order dir names ≡ₚ names;
  hyphenated_inj : forall a b, 0 <= a < 2 ^ 128 -> 0 <= b < 2 ^ 128 -> hyphenated a = hyphenated b -> a = b;
  hyphenated_some : forall id, hyphenated id <> ""
}.

(** ** Files that are written *)

Section Saved.
Context `{Build} `{CompressionLaws} `{StorageLaws}.
Hypothesis no_fault : forall call disk, io_fault call disk = None.

Lemma io_ok call disk : io call disk = (disk, Ok tt).
Proof. unfold io. by rewrite no_fault. Qed.
Definition put (path : FilePath) (bytes : list byte) (disk : Disk) : Disk :=
  mkDisk (dirs disk) (<[path := bytes]> (files disk)).
Definition nbt_file (tag : NbtTag) : list byte :=
  match write_named_tag 10 "" tag with Ok raw => gzip_compress raw | _ => [] end.

Lemma bind_step {E S A B} (m : M E S A) (f : A -> M E S B) s s' a : m s = (s', Ok a) -> (m ≫= f) s = f a s'.
Proof. intros Hm. unfold mbind, M_bind. by rewrite Hm. Qed.
Lemma write_file_ok path bytes disk : path.1 ∈ dirs disk -> write_file path bytes disk = (put path bytes disk, Ok tt).
Proof.
  intros Hd. unfold write_file. rewrite (bind_step _ _ _ _ _ (io_ok _ _)). unfold mbind, M_bind, get. by rewrite bool_decide_eq_true_2.
Qed.
Lemma read_file_ok path bytes disk : files disk !! path = Some bytes -> read_file path disk = (disk, Ok bytes).
Proof.
  intros Hd. unfold read_file. rewrite (bind_step _ _ _ _ _ (io_ok _ _)). unfold mbind, M_bind, get. by rewrite Hd.
Qed.
Lemma create_ok dir disk : create_dir_all dir disk = (mkDisk ({[WORLD_DIR; dir]} ∪ dirs disk) (files disk), Ok tt).
Proof. unfold create_dir_all. by rewrite (bind_step _ _ _ _ _ (io_ok _ _)). Qed.
Lemma write_nbt_ok path tag disk : entity_tag tag -> path.1 ∈ dirs disk ->
  write_gzip_nbt path "" tag disk = (put path (nbt_file tag) disk, Ok tt).
Proof.
  intros [Ht Ho] Hd. destruct (tag_roundtrip "" tag) as (raw & E & _); [done..|]. unfold write_gzip_nbt, nbt_file. rewrite E.
  by apply write_file_ok.
Qed.
Lemma read_nbt_ok path tag disk : entity_tag tag -> files disk !! path = Some (nbt_file tag) ->
  read_gzip_nbt path disk = (disk, Ok tag).
Proof.
  intros [Ht Ho] Hf. destruct (tag_roundtrip "" tag) as (raw & E & Hr); [done..|]. unfold nbt_file in Hf. rewrite E in Hf.
  unfold read_gzip_nbt. rewrite (bind_step _ _ _ _ _ (read_file_ok _ _ _ Hf)). unfold mbind, M_bind, lift, decompress_gzip.
  rewrite gzip_inverse. cbn [decoded]. by rewrite Hr.
Qed.

(** A loop that writes a file for each element. *)
Lemma for_each_puts {X} (f : X -> Store unit) (path : X -> FilePath) (bytes : X -> list byte) l disk :
  (forall x disk', x ∈ l -> dirs disk' = dirs disk -> f x disk' = (put (path x) (bytes x) disk', Ok tt)) ->
  for_each f l disk = (foldl (fun d x => put (path x) (bytes x) d) disk l, Ok tt).
Proof.
  revert disk. induction l as [|x l IH]; intros disk Hf; [done|]. cbn [for_each foldl].
  rewrite (bind_step _ _ _ _ _ (Hf x disk ltac:(by left) eq_refl)). apply IH. intros y disk' Hy Hd. apply Hf; [by right|done].
Qed.
Lemma puts_spec {X} (path : X -> FilePath) (bytes : X -> list byte) l disk : NoDup (map path l) ->
  let disk' := foldl (fun d x => put (path x) (bytes x) d) disk l in
  dirs disk' = dirs disk /\ (forall x, x ∈ l -> files disk' !! path x = Some (bytes x)) /\
  forall p, p ∉ map path l -> files disk' !! p = files disk !! p.
Proof.
  intros Hnd. induction l as [|x l IH] using rev_ind; [split_and!; [done|by intros ? ?%not_elem_of_nil|done]|].
  rewrite map_app in Hnd. apply NoDup_app in Hnd as (Hnd & Hx & _). destruct (IH Hnd) as (Hd & Hin & Hout).
  cbn zeta. rewrite foldl_snoc. split_and!; [done| |].
  - intros y [Hy|Hy]%elem_of_app.
    + unfold put at 1. cbn [files]. rewrite lookup_insert_ne; [by apply Hin|]. intros E. apply (Hx (path y)).
      * by apply list_elem_of_fmap_2.
      * rewrite <- E. by left.
    + apply list_elem_of_singleton in Hy as ->. unfold put at 1. cbn [files]. apply lookup_insert_eq.
  - intros p Hp. rewrite map_app, not_elem_of_app in Hp. cbn [map] in Hp. destruct Hp as [Hp Hne].
    unfold put at 1. cbn [files]. rewrite lookup_insert_ne; [by apply Hout|]. intros E. apply Hne. rewrite E. by left.
Qed.
End Saved.

(** ** Regions *)

Lemma grouped_spec l r : foldl push_region ∅ l !! r =
  match filter (fun c => region_of (col_pos c) = r) l with [] => None | cs => Some cs end.
Proof.
  induction l as [|c l IH] using rev_ind; [apply lookup_empty|]. rewrite foldl_snoc, filter_app. unfold push_region at 1.
  rewrite filter_cons, filter_nil. destruct (decide (region_of (col_pos c) = r)) as [<-|Hr].
  - rewrite lookup_insert_eq, IH by done. by destruct (filter _ l).
  - rewrite lookup_insert_ne, app_nil_r by done. exact IH.
Qed.
Lemma groups_elem chunks r cs : (r, cs) ∈ group_chunks chunks ->
  cs = filter (fun c => region_of (col_pos c) = r) (chunk_values chunks).
Proof.
  unfold group_chunks. rewrite merge_sort_Permutation, elem_of_map_to_list, grouped_spec. destruct (filter _ _); [done|]. by intros [= <-].
Qed.
Lemma groups_cover chunks c : c ∈ chunk_values chunks -> exists cs, (region_of (col_pos c), cs) ∈ group_chunks chunks.
Proof.
  intros Hc. assert (c ∈ filter (fun c' => region_of (col_pos c') = region_of (col_pos c)) (chunk_values chunks)) as Hf
    by (apply list_elem_of_filter; done).
  unfold group_chunks. setoid_rewrite merge_sort_Permutation. setoid_rewrite elem_of_map_to_list. setoid_rewrite grouped_spec.
  destruct (filter _ _); [by apply not_elem_of_nil in Hf|by eexists].
Qed.
Lemma groups_nodup chunks : NoDup (map fst (group_chunks chunks)).
Proof. unfold group_chunks. rewrite merge_sort_Permutation. apply NoDup_fst_map_to_list. Qed.

Lemma omap_lookup_elem {K A} `{Countable K} (m : gmap K A) (l : list K) a :
  (forall k, k ∈ l <-> k ∈ dom m) -> a ∈ omap (fun k => m !! k) l <-> exists k, m !! k = Some a.
Proof.
  intros Hl. rewrite list_elem_of_omap. split; [by intros (k & _ & Hk); exists k|]. intros [k Hk]. exists k. split; [|done].
  apply Hl, elem_of_dom. by exists a.
Qed.
Lemma omap_lookup_nodup {K A} `{Countable K} (m : gmap K A) (key : A -> K) (l : list K) :
  map_Forall (fun k a => key a = k) m -> NoDup l -> NoDup (map key (omap (fun k => m !! k) l)).
Proof.
  intros Hm. induction 1 as [|k l Hk Hl IH]; [constructor|]. cbn [omap list_omap]. destruct (m !! k) as [a|] eqn:E; [|exact IH].
  cbn [map]. constructor; [|exact IH]. rewrite (Hm _ _ E). intros Hin. apply Hk. apply list_elem_of_fmap in Hin as (b & -> & Hb).
  apply list_elem_of_omap in Hb as (k' & Hk' & E'). by rewrite (Hm _ _ E').
Qed.
Lemma chunk_values_elem chunks c : c ∈ chunk_values chunks <-> exists pos, chunks !! pos = Some c.
Proof.
  apply omap_lookup_elem. intros k. unfold sorted_chunks. by rewrite merge_sort_Permutation, elem_of_elements.
Qed.
Lemma chunk_values_nodup chunks : map_Forall (fun pos c => col_pos c = pos) chunks -> NoDup (map col_pos (chunk_values chunks)).
Proof.
  intros Hk. apply omap_lookup_nodup; [exact Hk|]. unfold sorted_chunks. rewrite merge_sort_Permutation. apply NoDup_elements.
Qed.
Lemma player_values_elem players p : p ∈ player_values players <-> exists id, players !! id = Some p.
Proof. apply omap_lookup_elem. intros k. unfold sorted_ids. by rewrite merge_sort_Permutation, elem_of_elements. Qed.
Lemma player_values_nodup players : map_Forall (fun id p => p_id p = id) players -> NoDup (map p_id (player_values players)).
Proof.
  intros Hk. apply omap_lookup_nodup; [exact Hk|]. unfold sorted_ids. rewrite merge_sort_Permutation. apply NoDup_elements.
Qed.

(** Chunks of one region have indices of their own. *)
Lemma region_index_inj p1 p2 : region_of p1 = region_of p2 -> region_chunk_index p1 = region_chunk_index p2 -> p1 = p2.
Proof.
  destruct p1 as [x1 z1], p2 as [x2 z2]. unfold region_of, region_chunk_index. cbn [cx cz]. intros [= Hx Hz] Hi.
  pose proof (Z.div_mod x1 32). pose proof (Z.div_mod x2 32). pose proof (Z.div_mod z1 32). pose proof (Z.div_mod z2 32).
  pose proof (Z.mod_pos_bound x1 32). pose proof (Z.mod_pos_bound x2 32). pose proof (Z.mod_pos_bound z1 32). pose proof (Z.mod_pos_bound z2 32).
  f_equal; lia.
Qed.
Lemma region_indices_nodup r (l : list ChunkColumn) : NoDup (map col_pos l) -> Forall (fun c => region_of (col_pos c) = r) l ->
  NoDup (map chunk_index l) /\ (length l <= 1024)%nat.
Proof.
  intros Hnd Hr. assert (NoDup (map chunk_index l)) as Hi.
  { induction l as [|c l IH]; [constructor|]. cbn [map] in *. apply NoDup_cons in Hnd as [Hc Hnd]. apply Forall_cons in Hr as [Hcr Hr].
    constructor; [|by apply IH]. intros Hin. apply list_elem_of_fmap in Hin as (c' & Ec & Hc'). apply Hc.
    rewrite (region_index_inj (col_pos c) (col_pos c')); [by apply list_elem_of_fmap_2| |].
    - rewrite Hcr. symmetry. rewrite Forall_forall in Hr. by apply Hr.
    - unfold chunk_index in Ec. pose proof (region_index_range (col_pos c)). pose proof (region_index_range (col_pos c')). lia. }
  split; [done|]. rewrite <- (length_map chunk_index). rewrite <- (length_seq 1024 0). apply NoDup_incl_length; [by apply NoDup_ListNoDup|].
  intros i Hin. apply list_elem_of_In, list_elem_of_fmap in Hin as (c & -> & _). apply in_seq. pose proof (chunk_index_range c). lia.
Qed.

(** ** Saving and loading *)

Section Snapshots.
Context `{Build} `{CompressionLaws} `{StorageLaws}.
Hypothesis no_fault : forall call disk, io_fault call disk = None.

(** A chunk whose compressed bytes are at most 255 sectors. *)
Definition chunk_fits (block_entities : gmap BlockPos BlockEntityState) (chunk : ChunkColumn) : Prop :=
  forall tag raw, chunk_to_nbt chunk block_entities = Ok tag -> write_named_tag 10 "" tag = Ok raw ->
    len (zlib_compress raw) + 5 <= 255 * 4096.
Record storable_snapshot (s : WorldSnapshot) : Prop := {
  ss_level : level_fits (snap_meta s);
  ss_keys : map_Forall (fun pos chunk => col_pos chunk = pos) (snap_chunks s);
  ss_chunks : map_Forall (fun _ chunk => storable_column chunk /\
    storable_entities (entities_of chunk (snap_block_entities s)) /\ chunk_fits (snap_block_entities s) chunk) (snap_chunks s);
  ss_ids : map_Forall (fun id player => p_id player = id) (snap_players s);
  ss_players : map_Forall (fun _ player => player_fits player) (snap_players s)
}.
(** No file of another snapshot is left: the chunks and players of an older save are all saved again. *)
Definition no_stale_files (s : WorldSnapshot) (disk : Disk) : Prop :=
  (forall name, (REGION_DIR, name) ∈ dom (files disk) -> extension name = Some "mca" ->
    exists group, group ∈ group_chunks (snap_chunks s) /\ name = region_file group.1) /\
  (forall name, (PLAYERDATA_DIR, name) ∈ dom (files disk) -> extension name = Some "dat" ->
    exists player, player ∈ player_values (snap_players s) /\ name = player_file player).
(** What a save keeps of a snapshot. *)
Definition stored_snapshot (s : WorldSnapshot) : WorldSnapshot :=
  mkWorldSnapshot (stored_meta (snap_meta s)) (snap_chunks s)
    (filter (fun e => is_Some (snap_chunks s !! block_chunk_pos e.1)) (snap_block_entities s))
    (stored_player <$> snap_players s).

Section Snapshot.
Variable s : WorldSnapshot.
Hypothesis storable : storable_snapshot s.

Lemma kept_entries cs : Forall (fun c => c ∈ chunk_values (snap_chunks s)) cs ->
  exists entries, map fst entries = cs /\ Forall (fun e => chunk_kept (snap_block_entities s) e.1 e.2) entries.
Proof.
  induction 1 as [|c cs Hc Hcs (entries & <- & IH)]; [by exists []|]. apply chunk_values_elem in Hc as [pos Hpos].
  destruct (ss_chunks _ storable _ _ Hpos) as (Hcol & Hent & Hfit).
  destruct (chunk_codec c (snap_block_entities s) Hcol Hent) as (tag & Et & [Htt Hto] & Er).
  destruct (tag_roundtrip "" tag) as (raw & Ew & Erd); [done..|].
  exists ((c, zlib_compress raw) :: entries). split; [done|]. constructor; [|done]. exists tag, raw. cbn [fst snd].
  split_and!; [done..|by apply (Hfit tag raw)].
Qed.
Definition group_bytes (group : RegionPos * list ChunkColumn) : list byte :=
  match region_bytes group.2 (snap_block_entities s) with Ok bytes => bytes | _ => [] end.
Lemma group_codec group : group ∈ group_chunks (snap_chunks s) ->
  region_bytes group.2 (snap_block_entities s) = Ok (group_bytes group) /\
  exists read entities, read_region_bytes (group_bytes group) = Ok (read, entities) /\
    (forall c, c ∈ read <-> snap_chunks s !! col_pos c = Some c /\ region_of (col_pos c) = group.1) /\
    (forall p be, entities !! p = Some be <-> snap_block_entities s !! p = Some be /\
      is_Some (snap_chunks s !! block_chunk_pos p) /\ region_of (block_chunk_pos p) = group.1).
Proof.
  destruct group as [r cs]. intros Hg. apply groups_elem in Hg as Hcs.
  assert (forall c, c ∈ cs <-> snap_chunks s !! col_pos c = Some c /\ region_of (col_pos c) = r) as Hin.
  { intros c. rewrite Hcs, list_elem_of_filter, chunk_values_elem. split.
    - intros [Hr [pos Hpos]]. pose proof (ss_keys _ storable _ _ Hpos) as E. cbn in E. by subst pos.
    - intros [Hc Hr]. split; [done|by eexists]. }
  destruct (kept_entries cs) as (entries & Ecs & Hk).
  { apply Forall_forall. intros c Hc. rewrite chunk_values_elem. apply Hin in Hc as [Hc _]. by eexists. }
  assert (Forall (fun c => region_of (col_pos c) = r) cs) as Hr by (apply Forall_forall; intros c Hc; by apply Hin).
  destruct (region_indices_nodup r cs) as [Hnd Hl]; [|done|].
  { rewrite Hcs. apply (sublist_NoDup _ (map col_pos (chunk_values (snap_chunks s)))).
    - apply chunk_values_nodup, (ss_keys _ storable).
    - apply fmap_sublist, sublist_filter. }
  rewrite <- Ecs, map_map in Hnd. rewrite <- Ecs, length_map in Hl.
  destruct (region_codec _ entries Hk Hnd Hl) as (bytes & read & entities & Eb & Er & Hread & Hent). rewrite Ecs in *.
  unfold group_bytes. cbn [fst snd]. rewrite Eb. split; [done|]. exists read, entities. split_and!; [done| |].
  - intros c. by rewrite Hread, Hin.
  - intros p be. rewrite Hent. unfold entity_among. split.
    + intros [Hp Hc]. split; [done|]. apply list_elem_of_fmap in Hc as (c & -> & Hc). rewrite Hread, Hin in Hc. destruct Hc as [Hc <-]. split; [by exists c|done].
    + intros (Hp & [c Hc] & Hrp). split; [done|].
      pose proof (ss_keys _ storable _ _ Hc) as E. cbn in E. rewrite <- E in *. by apply list_elem_of_fmap_2, Hread, Hin.
Qed.

(** *** Reading the regions *)

(** The chunks and entities of the region files among [names]. *)
Definition regions_read (names : list string) (world : WorldChunks) : Prop :=
  (forall pos c, world.1 !! pos = Some c <-> snap_chunks s !! pos = Some c /\ region_file (region_of pos) ∈ names) /\
  (forall p be, world.2 !! p = Some be <-> snap_block_entities s !! p = Some be /\
    is_Some (snap_chunks s !! block_chunk_pos p) /\ region_file (region_of (block_chunk_pos p)) ∈ names).
Lemma insert_chunks_lookup read chunks : Forall (fun c => snap_chunks s !! col_pos c = Some c) read ->
  (forall pos c, chunks !! pos = Some c -> snap_chunks s !! pos = Some c) -> forall pos c,
  insert_chunks chunks read !! pos = Some c <-> chunks !! pos = Some c \/ (c ∈ read /\ col_pos c = pos).
Proof.
  intros Hr Hc. unfold insert_chunks. induction read as [|c' read IH] using rev_ind; intros pos c.
  { cbn [foldl]. split; [by left|by intros [|[?%not_elem_of_nil _]]]. }
  apply Forall_app in Hr as [Hr Hc']. apply (proj1 (Forall_singleton _ _)) in Hc'. specialize (IH Hr).
  rewrite foldl_snoc, elem_of_app, list_elem_of_singleton. destruct (decide (col_pos c' = pos)) as [<-|Hne].
  - rewrite lookup_insert_eq. split; [intros [= ->]; auto|]. intros [Hl|[[Hin| ->] Hp]]; [| |done].
    + apply Hc in Hl. congruence.
    + rewrite Forall_forall in Hr. pose proof (Hr _ Hin) as Hl. rewrite Hp in Hl. congruence.
  - rewrite lookup_insert_ne, IH by done. split; [intros [|[]]; auto|]. intros [|[[| ->] ?]]; auto. done.
Qed.
Lemma read_region_step disk names world name : regions_read names world ->
  (forall group, group ∈ group_chunks (snap_chunks s) -> files disk !! (REGION_DIR, region_file group.1) = Some (group_bytes group)) ->
  (extension name = Some "mca" -> exists group, group ∈ group_chunks (snap_chunks s) /\ name = region_file group.1) ->
  exists world', read_region world name disk = (disk, Ok world') /\ regions_read (name :: names) world'.
Proof.
  intros [Hc He] Hfiles Hname. unfold read_region. rewrite (bind_step _ _ _ _ _ (io_ok no_fault _ _)). case_bool_decide as Hext.
  - destruct (Hname Hext) as (group & Hg & ->). destruct (group_codec group Hg) as (_ & read & entities & Er & Hread & Hent).
    unfold read_region_file.
    assert ((bytes ← read_file (REGION_DIR, region_file group.1); lift (read_region_bytes bytes)) disk = (disk, Ok (read, entities))) as E.
    { rewrite (bind_step _ _ _ _ _ (read_file_ok no_fault _ _ _ (Hfiles _ Hg))). unfold lift. by rewrite Er. }
    rewrite (bind_step _ _ _ _ _ E). eexists. split; [done|]. split; cbn [fst snd].
    + intros pos c. rewrite insert_chunks_lookup; [|apply Forall_forall; intros c' Hc'; by apply Hread|intros ? ?; apply Hc].
      rewrite Hc, Hread, elem_of_cons. split.
      * intros [[Hq1 Hq2]|[[Hq1 <-] <-]]; [auto|]. auto.
      * intros [Hq1 [Hq2%region_file_inj|Hq2]]; [|auto]. pose proof (ss_keys _ storable _ _ Hq1) as E'. cbn in E'. subst pos. auto.
    + intros p be. rewrite lookup_union_Some_raw, He, Hent, elem_of_cons. split.
      * intros [(Hq1 & Hq2 & <-)|(_ & Hq1 & Hq2 & Hq3)]; auto.
      * intros (Hq1 & Hq2 & [Hq3%region_file_inj|Hq3]); [auto|].
        destruct (entities !! p) as [be'|] eqn:Ep; [|auto]. left. apply Hent in Ep as (Hq4 & _ & Hq5). split; [done|]. by split.
  - exists world. split; [done|]. assert (forall r, region_file r <> name) as Hr by (intros r <-; apply Hext, region_file_extension).
    split; [intros pos c; rewrite Hc|intros p be; rewrite He]; rewrite elem_of_cons.
    + split; [intros []; auto|]. intros [? [E|?]]; [by destruct (Hr _ E)|auto].
    + split; [intros (? & ? & ?); auto|]. intros (? & ? & [E|?]); [by destruct (Hr _ E)|auto].
Qed.
Lemma read_regions_fold disk : 
  (forall group, group ∈ group_chunks (snap_chunks s) -> files disk !! (REGION_DIR, region_file group.1) = Some (group_bytes group)) ->
  forall todo, (forall name, name ∈ todo -> extension name = Some "mca" ->
    exists group, group ∈ group_chunks (snap_chunks s) /\ name = region_file group.1) ->
  forall names world, regions_read names world ->
  exists world', fold_each read_region world todo disk = (disk, Ok world') /\ regions_read (reverse todo ++ names) world'.
Proof.
  intros Hfiles todo. induction todo as [|name todo IH]; intros Htodo names world Hr; [by exists world|].
  destruct (read_region_step disk names world name Hr Hfiles) as (world1 & E1 & Hr1); [apply Htodo; by left|].
  destruct (IH ltac:(by intros n Hn; apply Htodo; right) (name :: names) world1 Hr1) as (world' & E' & Hr').
  exists world'. cbn [fold_each]. rewrite (bind_step _ _ _ _ _ E1), reverse_cons, <- app_assoc. by split.
Qed.

(** *** Reading the players *)

Definition player_tag (player : PlayerSnapshot) : NbtTag :=
  match player_to_nbt player with Ok tag => tag | _ => NbtByte 0 end.
Lemma saved_player_codec player : player ∈ player_values (snap_players s) ->
  snap_players s !! p_id player = Some player /\ player_to_nbt player = Ok (player_tag player) /\
  entity_tag (player_tag player) /\ player_from_nbt (player_tag player) = Ok (stored_player player).
Proof.
  intros [id Hid]%player_values_elem. pose proof (ss_ids _ storable _ _ Hid) as E. cbn in E. subst id.
  destruct (player_codec player (ss_players _ storable _ _ Hid)) as (tag & Et & Htag & Er). unfold player_tag. by rewrite Et.
Qed.
Lemma player_file_inj p1 p2 : p1 ∈ player_values (snap_players s) -> p2 ∈ player_values (snap_players s) ->
  player_file p1 = player_file p2 -> p1 = p2.
Proof.
  intros H1' H2' E. destruct (saved_player_codec _ H1') as [E1 _]. destruct (saved_player_codec _ H2') as [E2 _].
  assert (p_id p1 = p_id p2) as Eid; [|congruence].
  apply hyphenated_inj; [exact (fits_id _ (ss_players _ storable _ _ E1))|exact (fits_id _ (ss_players _ storable _ _ E2))|].
  assert (forall p, rsplit_dot (player_file p) = Some (hyphenated (p_id p), "dat")) as Hsplit by (intros p; by apply rsplit_app).
  pose proof (Hsplit p1) as F1. rewrite E, Hsplit in F1. congruence.
Qed.
Definition players_read (names : list string) (players : gmap PlayerId PlayerSnapshot) : Prop :=
  forall id q, players !! id = Some q <->
    exists p, snap_players s !! id = Some p /\ q = stored_player p /\ player_file p ∈ names.
Lemma read_player_step disk names players name : players_read names players ->
  (forall p, p ∈ player_values (snap_players s) -> files disk !! (PLAYERDATA_DIR, player_file p) = Some (nbt_file (player_tag p))) ->
  (extension name = Some "dat" -> exists p, p ∈ player_values (snap_players s) /\ name = player_file p) ->
  exists players', read_player players name disk = (disk, Ok players') /\ players_read (name :: names) players'.
Proof.
  intros Hp Hfiles Hname. unfold read_player. rewrite (bind_step _ _ _ _ _ (io_ok no_fault _ _)). case_bool_decide as Hext.
  - destruct (Hname Hext) as (p & Hpv & ->). destruct (saved_player_codec p Hpv) as (Es & _ & Htag & Er).
    rewrite (bind_step _ _ _ _ _ (read_nbt_ok no_fault _ _ _ Htag (Hfiles p Hpv))). unfold mbind, M_bind, lift. rewrite Er.
    eexists. split; [done|]. intros id q. setoid_rewrite elem_of_cons. destruct (decide (p_id p = id)) as [<-|Hne].
    + change (p_id (stored_player p)) with (p_id p). rewrite lookup_insert_eq. split; [intros [= <-]; eauto|].
      intros (p' & Ep' & -> & _). congruence.
    + change (p_id (stored_player p)) with (p_id p). rewrite lookup_insert_ne by done. rewrite (Hp id q).
      split; intros (p' & Ep' & -> & Hn); exists p'; [by auto|]. destruct Hn as [Hn|Hn]; [|done]. exfalso. apply Hne.
      rewrite <- (player_file_inj p' p); [by apply (ss_ids _ storable)|by apply player_values_elem; eauto|done|done].
  - exists players. split; [done|]. intros id q. rewrite (Hp id q). setoid_rewrite elem_of_cons.
    split; intros (p & Ep & -> & Hn); exists p; [by auto|]. destruct Hn as [Hn|Hn]; [|done]. exfalso. apply Hext. rewrite <- Hn.
    apply dat_extension, hyphenated_some.
Qed.
Lemma read_players_fold disk :
  (forall p, p ∈ player_values (snap_players s) -> files disk !! (PLAYERDATA_DIR, player_file p) = Some (nbt_file (player_tag p))) ->
  forall todo, (forall name, name ∈ todo -> extension name = Some "dat" ->
    exists p, p ∈ player_values (snap_players s) /\ name = player_file p) ->
  forall names players, players_read names players ->
  exists players', fold_each read_player players todo disk = (disk, Ok players') /\ players_read (reverse todo ++ names) players'.
Proof.
  intros Hfiles todo. induction todo as [|name todo IH]; intros Htodo names players Hr; [by exists players|].
  destruct (read_player_step disk names players name Hr Hfiles) as (players1 & E1 & Hr1); [apply Htodo; by left|].
  destruct (IH ltac:(by intros n Hn; apply Htodo; right) (name :: names) players1 Hr1) as (players' & E' & Hr').
  exists players'. cbn [fold_each]. rewrite (bind_step _ _ _ _ _ E1), reverse_cons, <- app_assoc. by split.
Qed.

(** *** The files of a save *)

Record saved (disk : Disk) : Prop := {
  saved_dirs : {[WORLD_DIR; REGION_DIR; PLAYERDATA_DIR]} ⊆ dirs disk;
  saved_level : files disk !! (WORLD_DIR, LEVEL_DAT) = Some (nbt_file (level_to_nbt (snap_meta s)));
  saved_regions : forall group, group ∈ group_chunks (snap_chunks s) ->
    files disk !! (REGION_DIR, region_file group.1) = Some (group_bytes group);
  saved_players : forall p, p ∈ player_values (snap_players s) ->
    files disk !! (PLAYERDATA_DIR, player_file p) = Some (nbt_file (player_tag p));
  saved_only : no_stale_files s disk
}.
Lemma write_regions_ok disk : exists disk',
  write_regions (snap_chunks s) (snap_block_entities s) disk = (disk', Ok tt) /\
  dirs disk' = {[WORLD_DIR; REGION_DIR]} ∪ dirs disk /\
  (forall group, group ∈ group_chunks (snap_chunks s) -> files disk' !! (REGION_DIR, region_file group.1) = Some (group_bytes group)) /\
  forall path, path ∉ map (fun group => (REGION_DIR, region_file group.1)) (group_chunks (snap_chunks s)) ->
    files disk' !! path = files disk !! path.
Proof.
  set (path := fun group : RegionPos * list ChunkColumn => (REGION_DIR, region_file group.1)).
  unfold write_regions. rewrite (bind_step _ _ _ _ _ (create_ok no_fault _ _)). set (d := mkDisk _ (files disk)).
  rewrite (for_each_puts _ path group_bytes).
  - destruct (puts_spec path group_bytes (group_chunks (snap_chunks s)) d) as (Hd & Hin & Hout).
    { pose proof (groups_nodup (snap_chunks s)) as Hnd.
      apply NoDup_fmap_2_strong; [|by apply NoDup_fmap_1 in Hnd]. intros [r1 cs1] [r2 cs2] Hg1 Hg2 E.
      assert (region_file r1 = region_file r2) as Er%region_file_inj by (unfold path in E; cbn [fst] in E; congruence).
      apply groups_elem in Hg1, Hg2. subst r2. congruence. }
    eexists. split; [done|]. by split_and!.
  - intros group d' Hg Hd. unfold write_region_file. unfold mbind, M_bind, lift. rewrite (proj1 (group_codec group Hg)).
    apply write_file_ok; [done|]. rewrite Hd. unfold d. cbn [dirs fst path]. set_solver.
Qed.
Lemma write_playerdata_ok disk : exists disk',
  write_playerdata (snap_players s) disk = (disk', Ok tt) /\
  dirs disk' = {[WORLD_DIR; PLAYERDATA_DIR]} ∪ dirs disk /\
  (forall p, p ∈ player_values (snap_players s) -> files disk' !! (PLAYERDATA_DIR, player_file p) = Some (nbt_file (player_tag p))) /\
  forall path, path ∉ map (fun p => (PLAYERDATA_DIR, player_file p)) (player_values (snap_players s)) ->
    files disk' !! path = files disk !! path.
Proof.
  set (path := fun p => (PLAYERDATA_DIR, player_file p)).
  unfold write_playerdata. rewrite (bind_step _ _ _ _ _ (create_ok no_fault _ _)). set (d := mkDisk _ (files disk)).
  rewrite (for_each_puts _ path (fun p => nbt_file (player_tag p))).
  - destruct (puts_spec path (fun p => nbt_file (player_tag p)) (player_values (snap_players s)) d) as (Hd & Hin & Hout).
    { pose proof (player_values_nodup _ (ss_ids _ storable)) as Hnd. apply NoDup_fmap_2_strong; [|by apply NoDup_fmap_1 in Hnd].
      intros p1 p2 Hp1 Hp2 E. apply player_file_inj; [done..|]. unfold path in E. congruence. }
    eexists. split; [done|]. by split_and!.
  - intros p d' Hp Hd. destruct (saved_player_codec p Hp) as (_ & Et & Htag & _). unfold write_player. unfold mbind, M_bind, lift. rewrite Et.
    apply write_nbt_ok; [done|done|]. rewrite Hd. unfold d. cbn [dirs fst path]. set_solver.
Qed.
Lemma other_dir {X} (dir dir' : string) (name : X -> string) l n : dir <> dir' ->
  (dir, n) ∉ map (fun x => (dir', name x)) l.
Proof. intros Hd Hin. apply list_elem_of_fmap in Hin as (x & E & _). congruence. Qed.
Lemma save_ok disk : no_stale_files s disk -> exists disk', save_snapshot s disk = (disk', Ok tt) /\ saved disk'.
Proof.
  intros [Hstale1 Hstale2]. unfold save_snapshot. rewrite (bind_step _ _ _ _ _ (create_ok no_fault _ _)).
  set (d1 := mkDisk _ (files disk)).
  assert (write_level_dat (WORLD_DIR, LEVEL_DAT) (snap_meta s) d1 = (put (WORLD_DIR, LEVEL_DAT) (nbt_file (level_to_nbt (snap_meta s))) d1, Ok tt)) as E1.
  { apply write_nbt_ok; [done|apply level_codec, (ss_level _ storable)|]. unfold d1. cbn [dirs fst]. set_solver. }
  rewrite (bind_step _ _ _ _ _ E1). set (d2 := put _ _ d1). destruct (write_regions_ok d2) as (d3 & E3 & Hd3 & Hin3 & Hout3).
  rewrite (bind_step _ _ _ _ _ E3). destruct (write_playerdata_ok d3) as (d4 & E4 & Hd4 & Hin4 & Hout4).
  exists d4. split; [exact E4|]. constructor.
  - rewrite Hd4, Hd3. set_solver.
  - rewrite Hout4, Hout3 by (by apply other_dir). unfold d2. cbn [put files]. apply lookup_insert_eq.
  - intros group Hg. rewrite Hout4 by (by apply other_dir). by apply Hin3.
  - exact Hin4.
  - split; intros name Hname Hext; apply elem_of_dom in Hname as [bytes Hname].
    + rewrite Hout4 in Hname by (by apply other_dir).
      destruct (decide ((REGION_DIR, name) ∈ map (fun group => (REGION_DIR, region_file group.1)) (group_chunks (snap_chunks s)))) as [Hin|Hout].
      * apply list_elem_of_fmap in Hin as (group & E & Hg). exists group. split; [done|congruence].
      * rewrite (Hout3 _ Hout) in Hname. unfold d2 in Hname. cbn [put files d1] in Hname. rewrite lookup_insert_ne in Hname by done.
        apply Hstale1; [|done]. apply elem_of_dom. by exists bytes.
    + destruct (decide ((PLAYERDATA_DIR, name) ∈ map (fun p => (PLAYERDATA_DIR, player_file p)) (player_values (snap_players s)))) as [Hin|Hout].
      * apply list_elem_of_fmap in Hin as (p & E & Hp). exists p. split; [done|congruence].
      * rewrite (Hout4 _ Hout), Hout3 in Hname by (by apply other_dir). unfold d2 in Hname. cbn [put files d1] in Hname.
        rewrite lookup_insert_ne in Hname by done. apply Hstale2; [|done]. apply elem_of_dom. by exists bytes.
Qed.

Lemma elem_of_names dir name disk : name ∈ names_in dir disk <-> (dir, name) ∈ dom (files disk).
Proof.
  unfold names_in. rewrite list_elem_of_fmap. setoid_rewrite list_elem_of_filter. setoid_rewrite elem_of_elements. split.
  - by intros ([d n] & -> & [<- Hin]).
  - intros Hin. by exists (dir, name).
Qed.
Lemma read_dir_ok dir disk : dir ∈ dirs disk -> exists names, read_dir dir disk = (disk, Ok names) /\
  forall name, name ∈ names <-> (dir, name) ∈ dom (files disk).
Proof.
  intros Hd. unfold read_dir. rewrite (bind_step _ _ _ _ _ (io_ok no_fault _ _)). unfold mbind, M_bind, get.
  rewrite bool_decide_eq_true_2 by done. eexists. split; [done|]. intros name. by rewrite dir_order_perm, elem_of_names.
Qed.
Lemma dir_exists_ok dir disk : dir ∈ dirs disk -> dir_exists dir disk = (disk, Ok true).
Proof. intros Hd. unfold dir_exists, mbind, M_bind, get. by rewrite bool_decide_eq_true_2. Qed.

Lemma read_regions_ok disk : saved disk -> read_regions disk = (disk, Ok (snap_chunks s,
  filter (fun e => is_Some (snap_chunks s !! block_chunk_pos e.1)) (snap_block_entities s))).
Proof.
  intros [Hdirs _ Hfiles _ [Honly _]]. assert (REGION_DIR ∈ dirs disk) as Hd by set_solver.
  unfold read_regions. rewrite (bind_step _ _ _ _ _ (dir_exists_ok _ _ Hd)). cbn [negb].
  destruct (read_dir_ok _ _ Hd) as (names & E & Hnames). rewrite (bind_step _ _ _ _ _ E).
  destruct (read_regions_fold disk Hfiles names ltac:(intros name Hn; by apply Honly, Hnames) [] (∅, ∅)) as ([chunks entities] & E' & Hc & He).
  { split; [intros pos c|intros p be]; cbn [fst snd]; rewrite lookup_empty; (split; [done|]);
      [by intros [_ ?%not_elem_of_nil]|by intros (_ & _ & ?%not_elem_of_nil)]. }
  rewrite E', app_nil_r in *. cbn [fst snd] in Hc, He.
  assert (forall pos c, snap_chunks s !! pos = Some c -> region_file (region_of pos) ∈ reverse names) as Hall.
  { intros pos c Hpos. apply elem_of_reverse, Hnames, elem_of_dom. pose proof (ss_keys _ storable _ _ Hpos) as Ek. cbn in Ek. subst pos.
    destruct (groups_cover (snap_chunks s) c) as [cs Hg]; [apply chunk_values_elem; by eexists|].
    pose proof (Hfiles _ Hg) as Hf. cbn [fst] in Hf. by eexists. }
  do 3 f_equal.
  - apply map_eq. intros pos. apply option_eq. intros c. rewrite Hc. split; [by intros []|]. intros Hpos. split; [done|by eapply Hall].
  - apply map_eq. intros p. apply option_eq. intros be. rewrite He, map_lookup_filter_Some. cbn [fst].
    split; [by intros (? & ? & _)|]. intros [Hp [c Hpos]]. split_and!; [done|by exists c|by eapply Hall].
Qed.
Lemma read_players_ok disk : saved disk -> read_playerdata disk = (disk, Ok (stored_player <$> snap_players s)).
Proof.
  intros [Hdirs _ _ Hfiles [_ Honly]]. assert (PLAYERDATA_DIR ∈ dirs disk) as Hd by set_solver.
  unfold read_playerdata. rewrite (bind_step _ _ _ _ _ (dir_exists_ok _ _ Hd)). cbn [negb].
  destruct (read_dir_ok _ _ Hd) as (names & E & Hnames). rewrite (bind_step _ _ _ _ _ E).
  destruct (read_players_fold disk Hfiles names ltac:(intros name Hn; by apply Honly, Hnames) [] ∅) as (players & E' & Hp).
  { intros id q. rewrite lookup_empty. split; [done|]. by intros (p & _ & _ & ?%not_elem_of_nil). }
  rewrite E', app_nil_r in *. do 2 f_equal. apply map_eq. intros id. apply option_eq. intros q. rewrite (Hp id q), lookup_fmap, fmap_Some.
  split; [intros (p & ? & ? & _); eauto|]. intros (p & Ep & Eq). exists p. split_and!; [done..|].
  apply elem_of_reverse, Hnames, elem_of_dom. rewrite Hfiles; [by eexists|]. apply player_values_elem. by eexists.
Qed.
Lemma load_ok disk : saved disk -> load_snapshot disk = (disk, Ok (Some (stored_snapshot s))).
Proof.
  intros Hs. unfold load_snapshot.
  assert (file_exists (WORLD_DIR, LEVEL_DAT) disk = (disk, Ok true)) as E0.
  { unfold file_exists, mbind, M_bind, get, mret, M_ret. rewrite bool_decide_eq_true_2; [done|]. exact (mk_is_Some _ _ (saved_level _ Hs)). }
  rewrite (bind_step _ _ _ _ _ E0). cbn [negb]. destruct (level_codec _ (ss_level _ storable)) as [Htag El].
  assert (read_level_dat (WORLD_DIR, LEVEL_DAT) disk = (disk, Ok (stored_meta (snap_meta s)))) as E1.
  { unfold read_level_dat. rewrite (bind_step _ _ _ _ _ (read_nbt_ok no_fault _ _ _ Htag (saved_level _ Hs))). unfold lift. by rewrite El. }
  rewrite (bind_step _ _ _ _ _ E1), (bind_step _ _ _ _ _ (read_regions_ok _ Hs)). by rewrite (bind_step _ _ _ _ _ (read_players_ok _ Hs)).
Qed.
End Snapshot.
End Snapshots.

(** C34: a world that is saved is loaded as it was.  Whatever the order in which directories are
    listed, when no call of the file system fails a snapshot whose chunks, players and numbers
    fit the format is saved without an error, over any older save of the world, and loads as
    itself: every chunk with every block, every chest and furnace in a chunk with its stacks, every
    player with position, health and inventory.  What the format does not hold is stated by
    [stored_snapshot]: the age of the world, the limit of players, the case of the level type, and
    what a player holds in the crafting grid, in the slots of the armour and without an identifier. *)
Theorem save_load_roundtrip `{Build} `{CompressionLaws} `{StorageLaws} s disk :
  (forall call disk, io_fault call disk = None) -> storable_snapshot s -> no_stale_files s disk ->
  exists disk', save_snapshot s disk = (disk', Ok tt) /\ load_snapshot disk' = (disk', Ok (Some (stored_snapshot s))).
Proof.
  intros Hio Hs Hstale. destruct (save_ok Hio s Hs disk Hstale) as (disk' & E & Hsaved).
  exists disk'. split; [exact E|by apply load_ok].
Qed.

(** *** A world *)

#[local] Instance sample_build : Build := mkBuild true 64.
#[local] Instance sample_compression : Compression := {|
  zlib_compress := cons (Z_byte 120); zlib_decompress := fun l => match l with _ :: l => Some l | [] => None end;
  gzip_compress := cons (Z_byte 31); gzip_decompress := fun l => match l with _ :: l => Some l | [] => None end |}.
#[local] Instance sample_compression_laws : CompressionLaws.
Proof. by constructor. Qed.
#[local] Instance sample_storage : StorageEnv := {|
  io_fault := fun _ _ => None; dir_order := fun _ => reverse; hyphenated := fun id => ("p" ++ pretty id)%string |}.
#[local] Instance sample_storage_laws : StorageLaws.
Proof.
  constructor.
  - intros dir names. apply reverse_Permutation.
  - intros a b _ _ E. cbn in E. change (String "p"%char (pretty a) = String "p"%char (pretty b)) in E.
    apply (inj pretty). congruence.
  - done.
Qed.
Definition sample_column : ChunkColumn :=
  column_set_block 3 70 15 (Some (block_state_new catalog.CHEST)) (column_set_block 0 0 0 (Some (block_state_new catalog.STONE))
    (mkColumn (mkChunkPos (-1) 40) ∅ (replicate 256 1))).
Definition sample_chest : BlockEntityState :=
  BEContainer (mkBlockEntity CHEST_BLOCK_ENTITY_KIND (Some (item_stack_new catalog.GLASS 3 0) :: replicate 26 None) ∅).
Definition sample_world : WorldSnapshot :=
  mkWorldSnapshot (mkWorldMeta "world" 42 (mkBlockPos 0 4 0) Overworld 7 6000 "FLAT" 1 2 8)
    {[mkChunkPos (-1) 40 := sample_column]} {[mkBlockPos (-13) 70 655 := sample_chest]}
    {[7 := mkSnapshot 7 "alex" (mkVec3 (f64_of_Z 1) (f64_of_Z 5) (f64_of_Z (-2))) (f32_of_Z 90) (f32_of_Z 0) true Overworld
        (f32_of_Z 20) 20 (f32_of_Z 5) creative_starter_inventory 3]}.
Definition chunk_size_ok (block_entities : gmap BlockPos BlockEntityState) (chunk : ChunkColumn) : bool :=
  match (tag ← chunk_to_nbt chunk block_entities; write_named_tag 10 "" tag) with
  | Ok raw => len (zlib_compress raw) + 5 <=? 255 * 4096
  | _ => true
  end.
Lemma chunk_size_fits block_entities chunk : chunk_size_ok block_entities chunk = true -> chunk_fits block_entities chunk.
Proof.
  unfold chunk_size_ok. intros E tag raw E1 E2. rewrite E1 in E. cbn [mbind result_bind] in E. rewrite E2 in E. by apply Z.leb_le.
Qed.
Lemma sample_storable : storable_snapshot sample_world.
Proof.
  constructor; cbn [snap_meta snap_chunks snap_players snap_block_entities sample_world].
  - constructor; try reflexivity; done.
  - by apply map_Forall_singleton.
  - apply map_Forall_singleton. split_and!.
    + unfold storable_column, storable_section, section_in_range, column_ok. split_and!; try reflexivity.
      * by apply (bool_decide_eq_true_1 _); vm_compute.
      * by apply (bool_decide_eq_true_1 _); vm_compute.
      * by apply (bool_decide_eq_true_1 _); vm_compute.
      * by apply (bool_decide_eq_true_1 _); vm_compute.
    + unfold storable_entities. split; [by apply (bool_decide_eq_true_1 _); vm_compute|by apply Z.leb_le; vm_compute].
    + apply chunk_size_fits. vm_compute. reflexivity.
  - by apply map_Forall_singleton.
  - apply map_Forall_singleton. constructor; try (by vm_compute).
    split_and!; [reflexivity|by apply (bool_decide_eq_true_1 _); vm_compute|reflexivity].
Qed.
Definition empty_disk : Disk := mkDisk ∅ ∅.
Lemma save_load_roundtrip_witness : exists disk', save_snapshot sample_world empty_disk = (disk', Ok tt) /\
  load_snapshot disk' = (disk', Ok (Some (stored_snapshot sample_world))).
Proof.
  apply (save_load_roundtrip sample_world empty_disk); [done|apply sample_storable|].
  split; intros name Hname; by apply elem_of_dom in Hname as [].
Defined.
