(* ===== verification/AnvilLimits.v ===== *)
(** * Where the storage fails

    Two limits of the format that the adapter does not check: the sectors of a chunk are counted
    in a byte, and the lists of a player are indexed without a look at their length. *)

From Stdlib Require Import Floats.SpecFloat.
From S2P Require Import Prelude Bytes Parsing VoxelModel VoxelItems VoxelContent VoxelState ProtoPacket JavaSlots JavaChunks JavaColumns AnvilNbt AnvilChunk AnvilPlayer AnvilRegion AnvilStorage.

(** ** A chunk of 256 sectors *)

Section Oversized.
Context `{Build} `{Compression}.

Lemma write_large block_entities chunk tag raw w : sector_offset w = 2 -> 
  chunk_to_nbt chunk block_entities = Ok tag -> write_named_tag 10 "" tag = Ok raw -> sectors (zlib_compress raw) = 256 ->
  locations w = table_bytes (replicate 1024 0) -> length (timestamps w) = 4096%nat -> exists w',
  write_region_chunk block_entities w chunk = Ok w' /\
    locations w' = table_bytes (<[chunk_index chunk := 768]> (replicate 1024 0)) /\ length (timestamps w') = 4096%nat.
Proof.
  intros Ho Et Ew Hs Hl Hts. unfold write_region_chunk. rewrite Et. cbn [mbind result_bind]. unfold zlib_compress_nbt. rewrite Ew.
  cbn [mbind result_bind]. set (data := zlib_compress raw) in *.
  assert (len data + 5 <= 256 * 4096) as Hd.
  { unfold sectors, div_ceil, ANVIL_SECTOR_BYTES in Hs. pose proof (Z.div_mod (len data + 5 + 4096 - 1) 4096).
    pose proof (Z.mod_pos_bound (len data + 5 + 4096 - 1) 4096). lia. }
  rewrite (proj2 (Z.leb_le _ _)) by (unfold u32_max; lia). cbn [mbind result_bind]. unfold add_u32.
  rewrite (proj2 (Z.leb_le _ _)) by (unfold u32_max; lia). cbn [mbind result_bind].
  replace (len data + 1 + 4) with (len data + 5) by lia. fold (sectors data). rewrite Hs, Ho, Hl.
  change (Z.lor (to_unsigned 32 (Z.shiftl 2 8)) 256) with 768.
  pose proof (region_index_range (col_pos chunk)) as Hidx.
  assert (region_chunk_index (col_pos chunk) = Z.of_nat (chunk_index chunk)) as -> by (unfold chunk_index; lia).
  rewrite table_copy by (rewrite length_replicate; apply chunk_index_range). cbn [mbind result_bind].
  destruct (copy_at (Z.of_nat (chunk_index chunk) * 4) (to_be_bytes 4 0) (timestamps w)) as [ts| | |] eqn:Ets.
  2-4: unfold copy_at in Ets; rewrite length_to_be_bytes, (proj2 (Z.leb_le _ _)) in Ets by (pose proof (chunk_index_range chunk); lia); done.
  cbn [mbind result_bind]. eexists. split; [done|]. cbn [locations timestamps]. split; [done|]. rewrite (copy_length _ _ _ _ Ets); [done|lia].
Qed.

(** C40: a finding.  A chunk that takes 256 sectors is lost without an error: the count of its
    sectors does not fit the byte it has in the table and runs into the offset, so that the
    region file is written, and read as a file without the chunk. *)
Theorem oversized_chunk_lost block_entities chunk tag raw :
  chunk_to_nbt chunk block_entities = Ok tag -> write_named_tag 10 "" tag = Ok raw -> sectors (zlib_compress raw) = 256 ->
  exists bytes, region_bytes [chunk] block_entities = Ok bytes /\ read_region_bytes bytes = Ok ([], ∅).
Proof.
  intros Et Ew Hs. destruct (write_large block_entities chunk tag raw region_writer_new) as (w & E & Hl & Hts);
    [done..|apply (table_zero 1024)|apply (length_replicate 4096)|].
  exists (writer_bytes w). unfold region_bytes. cbn [try_fold]. rewrite E. cbn [mbind result_bind]. split; [done|].
  assert (length (<[chunk_index chunk := 768]> (replicate 1024 0)) = 1024%nat) as Hlen by (by rewrite length_insert, length_replicate).
  assert (forall i, 0 <= i < 1024 -> read_region_entry (writer_bytes w) i = Ok None) as Hnone.
  { intros i Hi. unfold read_region_entry, writer_bytes. rewrite Hl, <- (Z2Nat.id i) by lia.
    destruct (decide (chunk_index chunk = Z.to_nat i)) as [<-|Hne].
    - rewrite (table_read _ _ 768) by (done || (apply list_lookup_insert_eq; rewrite length_replicate; apply chunk_index_range)).
      cbn [mbind result_bind]. rewrite from_to_be_bytes. cbn. by rewrite orb_true_r.
    - rewrite (table_read _ _ 0); [done| |done]. rewrite list_lookup_insert_ne by done. apply lookup_replicate_2. lia. }
  unfold read_region_bytes. rewrite (proj2 (Z.ltb_ge _ _)).
  2: { unfold writer_bytes, ANVIL_HEADER_BYTES, ANVIL_SECTOR_BYTES. rewrite Hl, !length_app, length_table, Hlen, Hts. lia. }
  assert (forall l, (forall i, i ∈ l -> 0 <= i < 1024) -> try_fold (add_region_entry (writer_bytes w)) ([], ∅) l = Ok ([], ∅)) as Hfold.
  { induction l as [|i l IH]; intros Hr; [done|]. cbn [try_fold]. unfold add_region_entry at 2. rewrite Hnone by (apply Hr; by left).
    cbn [mbind result_bind]. apply IH. intros j Hj. apply Hr. by right. }
  apply Hfold. intros i. apply elem_of_range.
Qed.
End Oversized.

#[local] Instance checked_build : Build := mkBuild true 64.
(** A compression that compresses nothing and adds a megabyte. *)
#[local] Instance bulky_compression : Compression := {|
  zlib_compress := fun l => replicate (Z.to_nat 1045000) (Z_byte 0) ++ l;
  zlib_decompress := fun l => Some (drop (Z.to_nat 1045000) l);
  gzip_compress := fun l => l; gzip_decompress := Some |}.
Definition empty_column : ChunkColumn := mkColumn (mkChunkPos 0 0) ∅ [].
Lemma bulky_sectors l : len l <= 3000 -> sectors (zlib_compress l) = 256.
Proof.
  intros Hl. unfold sectors, div_ceil, ANVIL_SECTOR_BYTES. cbn [zlib_compress bulky_compression].
  rewrite length_app, length_replicate, Nat2Z.inj_add, Z2Nat.id by done.
  symmetry. apply (Z.div_unique_pos _ _ _ (1045000 + len l + 5 + 4096 - 1 - 256 * 4096)); lia.
Qed.
Lemma oversized_chunk_lost_witness : exists bytes,
  region_bytes [empty_column] ∅ = Ok bytes /\ read_region_bytes bytes = Ok ([], ∅).
Proof.
  eapply (oversized_chunk_lost ∅ empty_column); [vm_compute; reflexivity|vm_compute; reflexivity|].
  apply bulky_sectors. apply Z.leb_le. vm_compute. reflexivity.
Defined.

(** ** The lists of a player *)

Definition is_double (tag : NbtTag) : bool := match tag with NbtDouble _ => true | _ => false end.
Definition is_float (tag : NbtTag) : bool := match tag with NbtFloat _ => true | _ => false end.
Lemma double_at_spec pos i : forallb is_double pos = true ->
  double_at pos i = match pos !! i with Some (NbtDouble v) => Ok v | _ => Panic end.
Proof.
  rewrite forallb_Forall', Forall_lookup. intros Hp. unfold double_at, tag_at. destruct (pos !! i) as [tag|] eqn:E; [|done].
  specialize (Hp _ _ E). by destruct tag.
Qed.
Lemma float_at_spec tags i : forallb is_float tags = true ->
  float_at tags i = match tags !! i with Some (NbtFloat v) => Ok v | _ => Panic end.
Proof.
  rewrite forallb_Forall', Forall_lookup. intros Hp. unfold float_at, tag_at. destruct (tags !! i) as [tag|] eqn:E; [|done].
  specialize (Hp _ _ E). by destruct tag.
Qed.

Lemma unwrap_total {A} (d : A) (r : Stored A) : match r with Ok _ | Err _ => True | _ => False end ->
  exists a, unwrap_or d r = Ok a.
Proof. destruct r; [by eexists..|done|done]. Qed.
(** Reads the next field that has a default. *)
Ltac default_field field v :=
  match goal with
  | |- context [unwrap_or ?d field] =>
      destruct (unwrap_total d field) as [v ->];
      [unfold byte_field, short_field, int_field, string_field, float_field; by repeat case_match|]; cbn [mbind result_bind]
  end.

(** Reads a field without one. *)
Ltac required_field field v :=
  let E := fresh in
  assert (match field with Ok _ | Err _ => True | _ => False end) as E by (unfold byte_field, short_field; by repeat case_match);
  destruct field as [v| | |]; [|exact I|destruct E..]; clear E; cbn [mbind result_bind].

(** The inventory is never a reason to panic: the slots that are read are slots of a new one. *)
Lemma inventory_entry_total inv entry : length (slots inv) = 45%nat ->
  match inventory_entry inv entry with Ok inv' => length (slots inv') = 45%nat | Err _ => True | _ => False end.
Proof.
  intros Hl. unfold inventory_entry. destruct entry as [| | | | | | | | |c|]; try exact I. cbn [as_compound mbind result_bind].
  required_field (byte_field c "Slot") slot. default_field (byte_field c "Count") n. destruct (n <=? 0); [done|].
  required_field (short_field c "id") item_id. default_field (short_field c "Damage") dmg. destruct (String.eqb _ _); [done|].
  destruct (slot =? PLAYERDATA_OFFHAND_SLOT); [done|].
  destruct (playerdata_slot_to_window_slot slot) as [w|] eqn:Ew; [|done].
  assert (0 <= w <= 44) as Hw.
  { unfold playerdata_slot_to_window_slot in Ew.
    destruct (Z.leb_spec 0 slot), (Z.leb_spec slot 8), (Z.leb_spec 9 slot), (Z.leb_spec slot 35); cbn [andb] in Ew; try discriminate;
      injection Ew as <-; lia. }
  unfold inv_set, PLAYER_INVENTORY_SLOT_COUNT. rewrite (proj2 (Z.leb_gt _ _)), (proj2 (Z.ltb_lt _ _)) by lia.
  cbn [assigned slots]. by rewrite length_insert.
Qed.
Lemma inventory_from_tag_total tag : match inventory_from_tag tag with Ok _ | Err _ => True | _ => False end.
Proof.
  destruct tag as [| | | | | | | |t entries| |]; try exact I. cbn [inventory_from_tag].
  assert (length (slots new_empty) = 45%nat) as Hl by done. revert Hl. generalize new_empty.
  induction entries as [|entry entries IH]; intros inv Hl; [exact I|]. cbn [try_fold].
  pose proof (inventory_entry_total inv entry Hl) as He. destruct (inventory_entry inv entry); cbn [mbind result_bind]; [by apply IH|done..].
Qed.

(** A finding.  Reading a player panics exactly when a list of coordinates or of angles is
    too short: in a file whose other fields are there, and whose lists hold numbers of the right
    type, fewer than three coordinates or two angles make [player_from_nbt] index out of range,
    where any other fault of the file is an error or a default. *)
Theorem short_lists_panic c pos rotation most least :
  list_field c "Pos" = Ok pos -> list_field c "Rotation" = Ok rotation ->
  long_field c "UUIDMost" = Ok most -> long_field c "UUIDLeast" = Ok least ->
  forallb is_double pos = true -> forallb is_float rotation = true ->
  (forall tag, compound_get c "Inventory" = Some tag -> exists inv, inventory_from_tag tag = Ok inv) ->
  (player_from_nbt (NbtCompound c) = Panic <-> (length pos < 3 \/ length rotation < 2)%nat) /\
  (~ (length pos < 3 \/ length rotation < 2)%nat -> exists player, player_from_nbt (NbtCompound c) = Ok player).
Proof.
  intros Ep Er Em El Hp Hr Hi. unfold player_from_nbt. cbn [as_compound mbind result_bind]. rewrite Ep, Er, Em, El. cbn [mbind result_bind].
  assert (exists inv, match compound_get c "Inventory" with Some tag => inventory_from_tag tag | None => Ok creative_starter_inventory end
    = Ok inv) as [inv ->] by (destruct (compound_get c "Inventory"); [by apply Hi|by eexists]).
  cbn [mbind result_bind]. default_field (string_field c "Name") name. rewrite !double_at_spec, !float_at_spec by done. clear Ep Er.
  destruct pos as [|[] [|[] [|[] pos]]]; try done; cbn [lookup list_lookup length mbind result_bind]; try (split; [split; [lia|done]|lia]).
  destruct rotation as [|[] [|[] rotation]]; try done; cbn [lookup list_lookup length mbind result_bind]; try (split; [split; [lia|done]|lia]).
  default_field (byte_field c "OnGround") g. default_field (float_field c "Health") h. default_field (int_field c "foodLevel") level.
  default_field (float_field c "foodSaturationLevel") fs. default_field (int_field c "SelectedItemSlot") sel.
  split; [split; [done|lia]|]. intros _. by eexists.
Qed.
Lemma short_lists_panic_witness :
  (player_from_nbt (NbtCompound (compound_of [("Pos", NbtList 6 [NbtDouble (f64_of_Z 1)]); ("Rotation", NbtList 5 []);
    ("UUIDMost", NbtLong 0); ("UUIDLeast", NbtLong 7)])) = Panic <-> (1 < 3 \/ 0 < 2)%nat) /\
  (~ (1 < 3 \/ 0 < 2)%nat -> exists player, player_from_nbt (NbtCompound (compound_of
    [("Pos", NbtList 6 [NbtDouble (f64_of_Z 1)]); ("Rotation", NbtList 5 []); ("UUIDMost", NbtLong 0); ("UUIDLeast", NbtLong 7)])) = Ok player).
Proof. by apply (short_lists_panic _ [NbtDouble (f64_of_Z 1)] [] 0 7). Defined.
