(* ===== verification/RevyCore.v ===== *)
(** * Capabilities, revisions and connection identifiers
    ([crates/core/revy-core/src]: capabilities.rs, revision.rs, routing.rs)

    The closed sets of capabilities a plugin announces, the optimistic concurrency of a revisioned
    state, and the source of connection identifiers: an atomic counter that the handlers of the
    process share, here every atomic access a step. *)

From stdpp Require Import finite.
From S2P Require Import Prelude.

(** ** Capabilities ([capabilities.rs]) *)

(** What [closed_capability_enum!] makes of a list of variants and their names; the order of the
    variants, which is that of a [BTreeSet] of them, is that of [enum]. *)
Class ClosedCapability (C : Type) `{Finite C} : Type := { capability_kind : string; as_str : C -> string }.

Inductive CapabilityParseError : Type := UnknownCapability (kind value : string).
Definition parse {C} `{ClosedCapability C} (value : string) : result CapabilityParseError C :=
  match List.find (fun c => String.eqb (as_str c) value) (enum C) with
  | Some c => Ok c
  | None => Err (UnknownCapability capability_kind value)
  end.

Inductive ProtocolCapability : Set :=
| ProtocolRuntimeReload | CapJe | CapJe5 | CapJe47 | CapJe340 | CapJe404 | CapJe775 | CapBedrock | CapBedrock924.
#[export] Instance ProtocolCapability_eq_dec : EqDecision ProtocolCapability.
Proof. solve_decision. Defined.
#[export, refine] Instance ProtocolCapability_finite : Finite ProtocolCapability :=
  {| enum := [ProtocolRuntimeReload; CapJe; CapJe5; CapJe47; CapJe340; CapJe404; CapJe775; CapBedrock; CapBedrock924] |}.
Proof. - apply (bool_decide_unpack _). vm_compute. exact I. - intros []; apply (bool_decide_unpack _); vm_compute; exact I. Defined.
#[export] Instance protocol_capability : ClosedCapability ProtocolCapability := {|
  capability_kind := "protocol";
  as_str c := match c with
    | ProtocolRuntimeReload => "runtime.reload.protocol" | CapJe => "protocol.je" | CapJe5 => "protocol.je.5"
    | CapJe47 => "protocol.je.47" | CapJe340 => "protocol.je.340" | CapJe404 => "protocol.je.404"
    | CapJe775 => "protocol.je.775" | CapBedrock => "protocol.bedrock" | CapBedrock924 => "protocol.bedrock.924"
    end |}.

Inductive GameplayCapability : Set := GameplayRuntimeReload | SessionTick.
#[export] Instance GameplayCapability_eq_dec : EqDecision GameplayCapability.
Proof. solve_decision. Defined.
#[export, refine] Instance GameplayCapability_finite : Finite GameplayCapability :=
  {| enum := [GameplayRuntimeReload; SessionTick] |}.
Proof. - apply (bool_decide_unpack _). vm_compute. exact I. - intros []; apply (bool_decide_unpack _); vm_compute; exact I. Defined.
#[export] Instance gameplay_capability : ClosedCapability GameplayCapability := {|
  capability_kind := "gameplay";
  as_str c := match c with
    | GameplayRuntimeReload => "runtime.reload.gameplay" | SessionTick => "gameplay.session-tick"
    end |}.

Inductive StorageCapability : Set := StorageRuntimeReload.
#[export] Instance StorageCapability_eq_dec : EqDecision StorageCapability.
Proof. solve_decision. Defined.
#[export, refine] Instance StorageCapability_finite : Finite StorageCapability := {| enum := [StorageRuntimeReload] |}.
Proof. - apply (bool_decide_unpack _). vm_compute. exact I. - intros []; apply (bool_decide_unpack _); vm_compute; exact I. Defined.
#[export] Instance storage_capability : ClosedCapability StorageCapability := {|
  capability_kind := "storage"; as_str c := match c with StorageRuntimeReload => "runtime.reload.storage" end |}.

Inductive AuthCapability : Set := AuthRuntimeReload.
#[export] Instance AuthCapability_eq_dec : EqDecision AuthCapability.
Proof. solve_decision. Defined.
#[export, refine] Instance AuthCapability_finite : Finite AuthCapability := {| enum := [AuthRuntimeReload] |}.
Proof. - apply (bool_decide_unpack _). vm_compute. exact I. - intros []; apply (bool_decide_unpack _); vm_compute; exact I. Defined.
#[export] Instance auth_capability : ClosedCapability AuthCapability := {|
  capability_kind := "auth"; as_str c := match c with AuthRuntimeReload => "runtime.reload.auth" end |}.

Inductive AdminSurfaceCapability : Set := AdminSurfaceRuntimeReload.
#[export] Instance AdminSurfaceCapability_eq_dec : EqDecision AdminSurfaceCapability.
Proof. solve_decision. Defined.
#[export, refine] Instance AdminSurfaceCapability_finite : Finite AdminSurfaceCapability :=
  {| enum := [AdminSurfaceRuntimeReload] |}.
Proof. - apply (bool_decide_unpack _). vm_compute. exact I. - intros []; apply (bool_decide_unpack _); vm_compute; exact I. Defined.
#[export] Instance admin_surface_capability : ClosedCapability AdminSurfaceCapability := {|
  capability_kind := "admin-surface";
  as_str c := match c with AdminSurfaceRuntimeReload => "runtime.reload.admin-surface" end |}.

Section Capabilities.
Context {C : Type} `{ClosedCapability C}.

(** A [BTreeSet] of capabilities; [insert] says whether the capability is new. *)
Definition ClosedCapabilitySet : Type := gset C.
Definition set_insert (c : C) (s : ClosedCapabilitySet) : bool * ClosedCapabilitySet :=
  (negb (bool_decide (c ∈ s)), {[c]} ∪ s).
Definition set_contains (c : C) (s : ClosedCapabilitySet) : bool := bool_decide (c ∈ s).
Definition set_iter (s : ClosedCapabilitySet) : list C := filter (.∈ s) (enum C).
Definition set_extend (l : list C) (s : ClosedCapabilitySet) : ClosedCapabilitySet :=
  foldl (fun s c => (set_insert c s).2) s l.

Record CapabilityAnnouncement : Type := mkAnnouncement { capabilities : ClosedCapabilitySet; build_tag : option string }.
Definition announcement_new (s : ClosedCapabilitySet) : CapabilityAnnouncement := mkAnnouncement s None.
Definition with_build_tag (tag : option string) (a : CapabilityAnnouncement) : CapabilityAnnouncement :=
  mkAnnouncement (capabilities a) tag.
Definition announces (c : C) (a : CapabilityAnnouncement) : bool := set_contains c (capabilities a).
End Capabilities.
Arguments ClosedCapabilitySet C {_ _}.
Arguments CapabilityAnnouncement C {_ _}.

(** ** Revisions ([revision.rs]) *)

Record RevisionConflict : Set := mkConflict { expected : Z; actual : Z }.
Record Revisioned (T : Type) : Type := mkRevisioned { rv_state : T; rv_revision : Z }.
Arguments mkRevisioned {T} _ _.
Arguments rv_state {T} _.
Arguments rv_revision {T} _.
Definition revisioned_new {T} (state : T) : Revisioned T := mkRevisioned state 0.

(** The closures are functions of the state; what [apply] leaves stays, whatever it answers. *)
Definition try_apply_if {T R} (expected_revision : Z) (apply : T -> T * R) (should_increment : R -> bool) :
    M RevisionConflict (Revisioned T) (Z * R) := fun r =>
  if negb (rv_revision r =? expected_revision) then (r, Err (mkConflict expected_revision (rv_revision r)))
  else
    let '(state, answer) := apply (rv_state r) in
    let revision := if should_increment answer then saturating_add u64_max (rv_revision r) 1 else rv_revision r in
    (mkRevisioned state revision, Ok (revision, answer)).
Definition try_apply {T R} (expected_revision : Z) (apply : T -> T * R) : M RevisionConflict (Revisioned T) (Z * R) :=
  try_apply_if expected_revision apply (fun _ => true).

(** ** Connection identifiers ([routing.rs]) *)

(** The counter, and the calls of [observe_connection_id] under way: the identifier, its target and
    the value that was read last. *)
Record ConnectionIdSource : Type := mkSource { next_connection_id : Z; observing : list (Z * Z * Z) }.
Definition source_default : ConnectionIdSource := mkSource 1 [].

(** What has happened: an identifier was taken, or a call has observed one. *)
Inductive IdEvent : Set := Taken (id : Z) | Observed (id : Z).

(** One atomic access.  [compare_exchange_weak] may fail though the value is the expected one. *)
Inductive source_step : ConnectionIdSource -> list IdEvent -> ConnectionIdSource -> Prop :=
| step_fetch_add next l :
    source_step (mkSource next l) [Taken next] (mkSource (wrapping_add 64 next 1) l)
| step_load next l id :
    0 <= id <= u64_max ->
    source_step (mkSource next l) [] (mkSource next ((id, saturating_add u64_max id 1, next) :: l))
| step_exchanged next l1 l2 id target :
    next < target ->
    source_step (mkSource next (l1 ++ (id, target, next) :: l2)) [Observed id] (mkSource target (l1 ++ l2))
| step_failed next l1 l2 id target read :
    read < target ->
    source_step (mkSource next (l1 ++ (id, target, read) :: l2)) [] (mkSource next (l1 ++ (id, target, next) :: l2))
| step_left next l1 l2 id target read :
    target <= read ->
    source_step (mkSource next (l1 ++ (id, target, read) :: l2)) [Observed id] (mkSource next (l1 ++ l2)).

Inductive source_run : ConnectionIdSource -> list IdEvent -> ConnectionIdSource -> Prop :=
| run_start s : source_run s [] s
| run_step s events s' new s'' : source_run s events s' -> source_step s' new s'' -> source_run s (events ++ new) s''.

(** ** Names of capabilities *)

(** No two variants share a name. *)
Class CapabilityLaws (C : Type) `{ClosedCapability C} : Prop := {
  as_str_inj (c d : C) : as_str c = as_str d -> c = d
}.
#[export] Instance protocol_capability_laws : CapabilityLaws ProtocolCapability.
Proof. split. by intros [] []. Qed.
#[export] Instance gameplay_capability_laws : CapabilityLaws GameplayCapability.
Proof. split. by intros [] []. Qed.
#[export] Instance storage_capability_laws : CapabilityLaws StorageCapability.
Proof. split. by intros [] []. Qed.
#[export] Instance auth_capability_laws : CapabilityLaws AuthCapability.
Proof. split. by intros [] []. Qed.
#[export] Instance admin_surface_capability_laws : CapabilityLaws AdminSurfaceCapability.
Proof. split. by intros [] []. Qed.

Section Names.
Context {C : Type} `{CapabilityLaws C}.

Lemma parse_as_str (c : C) : parse (as_str c) = Ok c.
Proof.
  unfold parse. destruct (List.find _ _) as [d|] eqn:E.
  - apply List.find_some in E as [_ E%String.eqb_eq]. by rewrite (as_str_inj _ _ E).
  - exfalso. pose proof (List.find_none _ _ E c (proj1 (list_elem_of_In _ _) (elem_of_enum c))) as Hc. cbn in Hc.
    by rewrite String.eqb_refl in Hc.
Qed.
Lemma parse_exact value (c : C) : parse value = Ok c -> value = as_str c.
Proof.
  unfold parse. destruct (List.find _ _) as [d|] eqn:E; [|done]. intros [= ->].
  by apply List.find_some in E as [_ E%String.eqb_eq].
Qed.
Lemma elem_of_set_iter (c : C) s : c ∈ set_iter s <-> c ∈ s.
Proof. unfold set_iter. rewrite list_elem_of_filter. pose proof (elem_of_enum c). tauto. Qed.
Lemma set_iter_nodup (s : ClosedCapabilitySet C) : NoDup (set_iter s).
Proof. apply NoDup_filter, NoDup_enum. Qed.
Lemma length_set_iter (s : ClosedCapabilitySet C) : length (set_iter s) = size s.
Proof.
  rewrite <- (size_list_to_set (C := gset C) (set_iter s)) by apply set_iter_nodup. f_equal.
  apply set_eq. intros c. by rewrite elem_of_list_to_set, elem_of_set_iter.
Qed.
End Names.

(** ** Identifiers are fresh *)

Definition event_id (e : IdEvent) : Z := match e with Taken id | Observed id => id end.
(** What holds of a source after [events]: its counter is beyond every identifier, and so is what a
    call has read of it or is going to make of it. *)
Definition source_ok (events : list IdEvent) (s : ConnectionIdSource) : Prop :=
  0 <= next_connection_id s <= u64_max /\
  Forall (fun e => event_id e < next_connection_id s \/ next_connection_id s = u64_max) events /\
  Forall (fun '(id, target, read) =>
    0 <= id <= u64_max /\ target = saturating_add u64_max id 1 /\ 0 <= read <= next_connection_id s) (observing s).
(** No identifier was the last one, after which the counter starts again. *)
Definition not_exhausted (e : IdEvent) : Prop := match e with Taken id => id < u64_max | Observed _ => True end.

Lemma source_ok_raise events s next :
  source_ok events s -> next_connection_id s <= next <= u64_max -> source_ok events (mkSource next (observing s)).
Proof.
  intros (H1 & H2 & H3) Hn. split; [cbn; lia|split]; cbn.
  - eapply Forall_impl; [exact H2|]. cbn. lia.
  - eapply Forall_impl; [exact H3|]. intros [[id target] read]. cbn. lia.
Qed.
Lemma source_ok_event events s e :
  source_ok events s -> event_id e < next_connection_id s \/ next_connection_id s = u64_max -> source_ok (events ++ [e]) s.
Proof. intros (H1 & H2 & H3) He. split; [done|split; [|done]]. apply Forall_app. split; [done|]. by apply Forall_singleton. Qed.
Lemma source_ok_drop events next l1 call l2 :
  source_ok events (mkSource next (l1 ++ call :: l2)) -> source_ok events (mkSource next (l1 ++ l2)).
Proof.
  intros (H1 & H2 & H3). split; [done|split; [done|]]. cbn in H3 |- *. rewrite Forall_app, Forall_cons in H3. apply Forall_app. tauto.
Qed.

Lemma source_step_ok events s new s' :
  source_ok events s -> source_step s new s' -> Forall not_exhausted new -> source_ok (events ++ new) s'.
Proof.
  intros Hok Hstep Hnew. pose proof Hok as (Hn & He & Hl). destruct Hstep as [next l|next l id Hid|next l1 l2 id target Hlt|
    next l1 l2 id target read Hlt|next l1 l2 id target read Hle]; cbn in *; rewrite ?app_nil_r.
  - rewrite Forall_singleton in Hnew. cbn in Hnew. unfold wrapping_add. rewrite Z.mod_small by (unfold u64_max in *; lia).
    apply source_ok_event; [|cbn; lia]. by apply (source_ok_raise _ (mkSource next l)); [|cbn; lia].
  - split; [done|split; [done|]]. apply Forall_cons. split; [|done]. cbn. split_and!; try done; lia.
  - rewrite Forall_app, Forall_cons in Hl. destruct Hl as (_ & (Hid & -> & _) & _). apply source_ok_event.
    + apply (source_ok_raise _ (mkSource next (l1 ++ l2))); [by eapply source_ok_drop|]. cbn. unfold saturating_add in *. lia.
    + cbn. unfold saturating_add in *. lia.
  - split; [done|split; [done|]]. cbn. rewrite Forall_app, Forall_cons in Hl |- *. naive_solver lia.
  - rewrite Forall_app, Forall_cons in Hl. destruct Hl as (_ & (Hid & -> & Hread) & _). apply source_ok_event; [by eapply source_ok_drop|].
    cbn. unfold saturating_add in *. lia.
Qed.
Lemma source_run_ok s events s' : source_run s events s' -> s = source_default -> Forall not_exhausted events -> source_ok events s'.
Proof.
  intros Hrun ->. remember source_default as s0 eqn:E0. induction Hrun as [s|s events s' new s'' Hrun IH Hstep]; intros Hev; subst.
  - split; [cbn; unfold u64_max; lia|split; constructor].
  - apply Forall_app in Hev as [Hev Hnew]. eapply source_step_ok; eauto.
Qed.
Lemma source_step_events s new s' : source_step s new s' -> new = [] \/ exists e, new = [e].
Proof. destruct 1; eauto. Qed.
Lemma taken_next s id s' : source_step s [Taken id] s' -> id = next_connection_id s.
Proof. by inversion 1. Qed.

(** Connection identifiers are fresh.  However the handlers of the process interleave their
    calls of [next_connection_id] and of [observe_connection_id], access by access and with weak
    exchanges that fail for no reason, an identifier that is taken is greater than every one that
    was taken or observed before, as long as the counter has not come to its last value. *)
Theorem ids_fresh events s :
  source_run source_default events s -> Forall not_exhausted events ->
  forall pre id suf, events = pre ++ Taken id :: suf -> Forall (fun e => event_id e < id) pre.
Proof.
  intros Hrun. remember source_default as s0 eqn:E0. induction Hrun as [s|s events s' new s'' Hrun IH Hstep]; intros Hev pre id suf E.
  - by destruct pre.
  - apply Forall_app in Hev as [Hev Hnew]. destruct (source_step_events _ _ _ Hstep) as [->|[e ->]].
    + rewrite app_nil_r in E. by eapply IH.
    + destruct suf as [|e' suf] using rev_ind.
      * apply app_inj_tail in E as [-> ->]. pose proof (source_run_ok _ _ _ Hrun E0 Hev) as (_ & He & _).
        apply taken_next in Hstep as ->. rewrite Forall_singleton in Hnew. cbn in Hnew.
        eapply Forall_impl; [exact He|]. cbn. lia.
      * rewrite app_comm_cons, app_assoc in E. apply app_inj_tail in E as [-> ->]. by eapply IH.
Qed.
Lemma ids_fresh_witness :
  let s1 := mkSource 2 [] in let s2 := mkSource 2 [(7, 8, 2)] in let s3 := mkSource 8 [] in
  source_run source_default (((([] ++ [Taken 1]) ++ []) ++ [Observed 7]) ++ [Taken 8]) (mkSource 9 []) /\
  Forall (fun e => event_id e < 8) [Taken 1; Observed 7].
Proof.
  cbn zeta. assert (source_run source_default (((([] ++ [Taken 1]) ++ []) ++ [Observed 7]) ++ [Taken 8]) (mkSource 9 [])) as Hrun.
  { eapply run_step; [eapply run_step; [eapply run_step; [eapply run_step; [apply run_start|]|]|]|].
    - apply (step_fetch_add 1 []).
    - apply (step_load 2 [] 7). unfold u64_max. lia.
    - apply (step_exchanged 2 [] [] 7 8). lia.
    - apply (step_fetch_add 8 []). }
  split; [exact Hrun|]. apply (ids_fresh _ _ Hrun ltac:(repeat constructor) [Taken 1; Observed 7] 8 []). reflexivity.
Defined.

(** ** Optimistic updates *)

(** A revisioned state is updated by exactly the callers that saw it.  An update against the
    current revision runs and answers the revision it leaves, the next one unless the update asks
    to keep it; against any other revision nothing changes and the conflict names both.  The
    revision never decreases, and of two updates against one revision that advance it the second
    is refused. *)
Theorem update_exact {T R} (apply : T -> T * R) (keep : R -> bool) expected (r : Revisioned T) :
  let '(r', answer) := try_apply_if expected apply keep r in
  rv_revision r <= u64_max ->
  (rv_revision r <= rv_revision r' <= u64_max) /\
  (answer = Err (mkConflict expected (rv_revision r)) /\ rv_revision r <> expected /\ r' = r \/
   rv_revision r = expected /\ rv_state r' = (apply (rv_state r)).1 /\
     answer = Ok (rv_revision r', (apply (rv_state r)).2) /\
     (rv_revision r' = expected + 1 -> forall again : T -> T * R,
       (try_apply expected again r').2 = Err (mkConflict expected (expected + 1))) /\
     (keep (apply (rv_state r)).2 = true -> expected < u64_max -> rv_revision r' = expected + 1)).
Proof.
  unfold try_apply_if at 1. destruct r as [state revision]. cbn [rv_revision rv_state]. destruct (Z.eqb_spec revision expected) as [->|Hne]; cbn [negb].
  - destruct (apply state) as [state' answer]. cbn. intros Hr. destruct (keep answer); cbn; unfold saturating_add; (split; [lia|]); right;
      (split; [done|]); (split; [done|]); (split; [done|]); (split; [|intros; try done; lia]); intros E again;
      unfold try_apply, try_apply_if; cbn [rv_revision]; rewrite (proj2 (Z.eqb_neq _ _)) by lia; cbn [negb snd]; do 2 f_equal; lia.
  - cbn. intros Hr. split; [lia|]. by left.
Qed.
