(* ===== verification/PluginBinary.v ===== *)
(** * The binary codec of the plugin boundary
    ([crates/plugin/mc-plugin-contract/src]: plugin.rs, codec/__internal/binary.rs)

    The little-endian writers and readers of a payload, the loops over a length that the codecs
    repeat, and the envelope of a message.  An [Encoder] is the bytes that are appended, a
    [Decoder] the bytes that are left; a reader that fails leaves them as they are.  [Codec] is
    what a writer and a reader of one type promise: what fits is written or exceeds a length,
    what is written is read back, and any bytes are read or refused. *)

From Stdlib Require Import Floats.SpecFloat.
From stdpp Require Import sorting.
From S2P Require Import Prelude Bytes Parsing ProtoPacket VoxelModel.

(** ** Versions and kinds ([plugin.rs]) *)

Record PluginAbiVersion : Set := mkAbi { abi_major : Z; abi_minor : Z }.
#[export] Instance PluginAbiVersion_eq_dec : EqDecision PluginAbiVersion.
Proof. solve_decision. Defined.
Definition CURRENT_PLUGIN_ABI : PluginAbiVersion := mkAbi 9 1.

Inductive PluginKind : Set := KindProtocol | KindStorage | KindAuth | KindGameplay | KindAdminSurface.
#[export] Instance PluginKind_eq_dec : EqDecision PluginKind.
Proof. solve_decision. Defined.
Definition plugin_kind_of (value : Z) : option PluginKind :=
  match value with
  | 1 => Some KindProtocol | 2 => Some KindStorage | 3 => Some KindAuth | 4 => Some KindGameplay
  | 7 => Some KindAdminSurface | _ => None
  end.

(** ** Errors *)

Inductive ProtocolCodecError : Type :=
| UnexpectedEof
| InvalidUtf8
| LengthOverflow
| InvalidEnvelope (message : string)
| InvalidPluginKind (kind : Z)
| InvalidProtocolOpCode (op_code : Z)
| InvalidValue (message : string)
| TrailingBytes.
#[export] Instance ProtocolCodecError_eq_dec : EqDecision ProtocolCodecError.
Proof. solve_decision. Defined.

(** What an encoder appends, and what a decoder reads. *)
Definition Encode : Type := result ProtocolCodecError (list byte).
Definition Decode (A : Type) : Type := M ProtocolCodecError (list byte) A.
#[global] Typeclasses Transparent Decode.

(** ** Writing *)

Definition write_u8 (v : Z) : Encode := Ok (to_le_bytes 1 v).
Definition write_i8 (v : Z) : Encode := Ok (to_le_bytes 1 (to_unsigned 8 v)).
Definition write_bool (v : bool) : Encode := write_u8 (if v then 1 else 0).
Definition write_u16 (v : Z) : Encode := Ok (to_le_bytes 2 v).
Definition write_i16 (v : Z) : Encode := Ok (to_le_bytes 2 (to_unsigned 16 v)).
Definition write_u32 (v : Z) : Encode := Ok (to_le_bytes 4 v).
Definition write_i32 (v : Z) : Encode := Ok (to_le_bytes 4 (to_unsigned 32 v)).
Definition write_u64 (v : Z) : Encode := Ok (to_le_bytes 8 v).
Definition write_i64 (v : Z) : Encode := Ok (to_le_bytes 8 (to_unsigned 64 v)).
Definition write_f32 (v : spec_float) : Encode := Ok (to_le_bytes 4 (f32_to_bits v)).
Definition write_f64 (v : spec_float) : Encode := Ok (to_le_bytes 8 (f64_to_bits v)).
Definition write_len (n : Z) : Encode := if n <=? u32_max then write_u32 n else Err LengthOverflow.
Definition write_raw (bytes : list byte) : Encode := Ok bytes.
Definition write_bytes (bytes : list byte) : Encode := all_out [write_len (len bytes); write_raw bytes].
Definition write_string (s : string) : Encode := write_bytes (string_bytes s).

(** ** Reading *)

Definition read_raw (n : Z) : Decode (list byte) := fun s =>
  if n <=? len s then (drop (Z.to_nat n) s, Ok (take (Z.to_nat n) s)) else (s, Err UnexpectedEof).
(** [read_exact::<N>], as a little-endian integer. *)
Definition read_le (n : Z) : Decode Z := bytes ← read_raw n; mret (from_le_bytes bytes).
Definition read_u8 : Decode Z := read_le 1.
Definition read_i8 : Decode Z := v ← read_le 1; mret (to_signed 8 v).
Definition read_bool : Decode bool :=
  v ← read_u8;
  match v with 0 => mret false | 1 => mret true | _ => throw (InvalidValue "invalid bool tag") end.
Definition read_u16 : Decode Z := read_le 2.
Definition read_i16 : Decode Z := v ← read_le 2; mret (to_signed 16 v).
Definition read_u32 : Decode Z := read_le 4.
Definition read_i32 : Decode Z := v ← read_le 4; mret (to_signed 32 v).
Definition read_u64 : Decode Z := read_le 8.
Definition read_i64 : Decode Z := v ← read_le 8; mret (to_signed 64 v).
Definition read_f32 : Decode spec_float := v ← read_le 4; mret (f32_of_bits v).
Definition read_f64 : Decode spec_float := v ← read_le 8; mret (f64_of_bits v).
Definition read_len : Decode Z := read_u32.
Definition read_bytes : Decode (list byte) := n ← read_len; read_raw n.
Definition read_string : Decode string :=
  bytes ← read_bytes;
  match utf8_chars bytes with Some _ => mret (bytes_string bytes) | None => throw InvalidUtf8 end.
Definition finish : Decode unit := fun s =>
  match s with [] => (s, Ok tt) | _ => (s, Err TrailingBytes) end.
(** A decoder of its own over [bytes]: reading and [finish]. *)
Definition decode_all {A} (m : Decode A) (bytes : list byte) : result ProtocolCodecError A :=
  (( a ← m; finish ;; mret a ) bytes).2.

(** ** Loops over a length *)

(** [for _ in 0..n { step }] with the state [b].  Every step takes a byte, so that the bytes that
    are left bound the iterations that are run. *)
Fixpoint range_loop {B} (fuel : nat) (n : Z) (step : B -> Decode B) (b : B) : Decode B :=
  if n <=? 0 then mret b
  else match fuel with
       | O => out_of_fuel
       | S fuel => b ← step b; range_loop fuel (n - 1) step b
       end.
Definition for_range {B} (n : Z) (step : B -> Decode B) (b : B) : Decode B := fun s =>
  range_loop (S (length s)) n step b s.

(** A [Vec]: its length, and its elements. *)
Definition write_vec {A} (put : A -> Encode) (l : list A) : Encode :=
  all_out [write_len (len l); all_out (map put l)].
Definition read_vec {A} (get : Decode A) : Decode (list A) :=
  n ← read_len; for_range n (fun l => a ← get; mret (l ++ [a])) [].

(** The order of the keys of a [BTreeMap]. *)
Class KeyOrder (K : Type) : Type := { key_le : K -> K -> Prop; key_le_dec :: RelDecision key_le }.
#[export] Instance key_order_Z : KeyOrder Z := {| key_le := Z.le |}.
Definition string_le (a b : string) : Prop := String.compare a b <> Gt.
#[export] Instance string_le_dec : RelDecision string_le.
Proof. intros a b. unfold string_le. apply _. Defined.
#[export] Instance key_order_string : KeyOrder string := {| key_le := string_le |}.
Definition pair_le {A B} `{EqDecision A, KeyOrder A, KeyOrder B} (a b : A * B) : Prop :=
  a.1 <> b.1 /\ key_le a.1 b.1 \/ a.1 = b.1 /\ key_le a.2 b.2.
#[export] Instance pair_le_dec `{EqDecision A, KeyOrder A, KeyOrder B} : RelDecision (pair_le (A := A) (B := B)).
Proof. intros a b. unfold pair_le. apply _. Defined.
#[export] Instance key_order_pair `{EqDecision A, KeyOrder A, KeyOrder B} : KeyOrder (A * B) := {| key_le := pair_le |}.
#[export, refine] Instance key_order_block : KeyOrder BlockPos :=
  {| key_le a b := pair_le (bx a, (by_ a, bz a)) (bx b, (by_ b, bz b)) |}.
Proof. intros a b. apply _. Defined.
#[export, refine] Instance key_order_chunk : KeyOrder ChunkPos :=
  {| key_le a b := pair_le (cx a, cz a) (cx b, cz b) |}.
Proof. intros a b. apply _. Defined.

Section Maps.
Context {K : Type} `{Countable K, !KeyOrder K} {V : Type}.

(** The iteration of a [BTreeMap]. *)
Definition entry_le (a b : K * V) : Prop := key_le a.1 b.1.
#[export] Instance entry_le_dec : RelDecision entry_le.
Proof. intros a b. unfold entry_le. apply _. Defined.
Definition entries (m : gmap K V) : list (K * V) := merge_sort entry_le (map_to_list m).

(** A map: its length, and its keys with their values. *)
Definition write_map (put_key : K -> Encode) (put : V -> Encode) (m : gmap K V) : Encode :=
  all_out [write_len (Z.of_nat (size m)); all_out (map (fun e => all_out [put_key e.1; put e.2]) (entries m))].
Definition read_map (get_key : Decode K) (get : Decode V) : Decode (gmap K V) :=
  n ← read_len; for_range n (fun m => k ← get_key; v ← get; mret (<[k := v]> m)) ∅.

(** A map whose values hold their keys: its length, and its values. *)
Definition write_values (put : V -> Encode) (m : gmap K V) : Encode :=
  all_out [write_len (Z.of_nat (size m)); all_out (map (fun e => put e.2) (entries m))].
Definition read_values (key : V -> K) (get : Decode V) : Decode (gmap K V) :=
  n ← read_len; for_range n (fun m => v ← get; mret (<[key v := v]> m)) ∅.
End Maps.

(** ** The envelope *)

Definition PROTOCOL_FLAG_RESPONSE : Z := 1.
Definition PLUGIN_ENVELOPE_HEADER_LEN : Z := 12.
Record EnvelopeHeader : Set := mkHeader {
  h_abi : PluginAbiVersion; h_plugin_kind : PluginKind; h_op_code : Z; h_flags : Z; h_payload_len : Z
}.
Definition kind_tag (kind : PluginKind) : Z :=
  match kind with KindProtocol => 1 | KindStorage => 2 | KindAuth => 3 | KindGameplay => 4 | KindAdminSurface => 7 end.
Definition with_header (header : EnvelopeHeader) : Encode :=
  all_out [write_u16 (abi_major (h_abi header)); write_u16 (abi_minor (h_abi header));
    write_u8 (kind_tag (h_plugin_kind header)); write_u8 (h_op_code header); write_u16 (h_flags header);
    write_u32 (h_payload_len header)].
Definition encode_envelope (header : EnvelopeHeader) (payload : list byte) : Encode :=
  if negb (h_payload_len header =? len payload) then Err (InvalidEnvelope "payload length did not match header")
  else all_out [with_header header; write_raw payload].
Definition read_header : Decode EnvelopeHeader :=
  major ← read_u16; minor ← read_u16; kind_tag ← read_u8;
  plugin_kind ← match plugin_kind_of kind_tag with
    | Some kind => mret kind
    | None => throw (InvalidPluginKind kind_tag)
    end;
  op_code ← read_u8; flags ← read_u16; payload_len ← read_u32;
  mret (mkHeader (mkAbi major minor) plugin_kind op_code flags payload_len).
Definition decode_envelope (bytes : list byte) : result ProtocolCodecError (EnvelopeHeader * list byte) :=
  if len bytes <? PLUGIN_ENVELOPE_HEADER_LEN then Err (InvalidEnvelope "message shorter than header")
  else
    header ← (read_header bytes).2;
    if negb (bool_decide (h_abi header = CURRENT_PLUGIN_ABI)) then Err (InvalidEnvelope "plugin ABI version mismatch")
    else if negb (len bytes =? saturating_add usize_max PLUGIN_ENVELOPE_HEADER_LEN (h_payload_len header))
    then Err (InvalidEnvelope "payload length did not match message size")
    else Ok (header, drop (Z.to_nat PLUGIN_ENVELOPE_HEADER_LEN) bytes).
(** [u32::try_from(payload.len()).map_err(|_| LengthOverflow)] *)
Definition payload_len (payload : list byte) : result ProtocolCodecError Z :=
  if len payload <=? u32_max then Ok (len payload) else Err LengthOverflow.
(** [header.flags & PROTOCOL_FLAG_RESPONSE != 0] *)
Definition is_response (header : EnvelopeHeader) : bool :=
  negb (Z.land (h_flags header) PROTOCOL_FLAG_RESPONSE =? 0).

(** ** What a writer and a reader promise *)

(** What [w] writes, [m] reads as [a]; [w] fails only on a length beyond [u32]. *)
Definition encodes {A} (w : Encode) (m : Decode A) (a : A) : Prop :=
  match w with Ok bytes => parses m bytes a | Err e => e = LengthOverflow | _ => False end.

Class Codec {A} (put : A -> Encode) (get : Decode A) (ok : A -> bool) : Prop := {
  codec_encodes a : ok a = true -> encodes (put a) get a;
  codec_ends s : ends 1 get s
}.

Lemma encodes_nil {A} (a : A) : encodes (all_out []) (mret a) a.
Proof. apply parses_ret. Qed.
Lemma encodes_cons {A B} w l (m : Decode A) (f : A -> Decode B) a b :
  encodes w m a -> encodes (all_out l) (f a) b -> encodes (all_out (w :: l)) (m ≫= f) b.
Proof.
  unfold encodes. cbn [all_out]. destruct w as [b1|e| |]; [|done..]. intros H1. cbn [mbind result_bind].
  destruct (all_out l) as [b2|e| |]; [|done..]. cbn. intros H2. by eapply parses_bind.
Qed.
(** The last writer of a sequence. *)
Lemma encodes_last {A} w (m : Decode A) a : encodes w m a -> encodes (all_out [w]) m a.
Proof.
  unfold encodes. cbn [all_out]. destruct w as [b1|e| |]; [|done..]. cbn [mbind result_bind]. by rewrite app_nil_r.
Qed.
Lemma encodes_bind {A B} w (m : Decode A) (f : A -> Decode B) a b :
  encodes w m a -> (forall s, f a s = (s, Ok b)) -> encodes w (m ≫= f) b.
Proof.
  unfold encodes. destruct w as [b1|e| |]; [|done..]. intros H1 H2. rewrite <- (app_nil_r b1).
  eapply parses_bind; [exact H1|]. intros rest. apply H2.
Qed.
Lemma encodes_map {A B} w (m : Decode A) (f : A -> B) a : encodes w m a -> encodes w (x ← m; mret (f x)) (f a).
Proof. intros H. by eapply encodes_bind. Qed.
Lemma ends_weak {A} (m : Decode A) s : ends 1 m s -> ends 0 m s.
Proof. by apply ends_weaken. Qed.
(** A reader that takes a byte, and then any. *)
Lemma ends_then {A B} (m : Decode A) (f : A -> Decode B) s :
  ends 1 m s -> (forall a s, ends 0 (f a) s) -> ends 1 (m ≫= f) s.
Proof. intros H1 H2. eapply ends_bind; [exact H1|]. intros a s' _. apply H2. Qed.
Lemma ends_then0 {A B} (m : Decode A) (f : A -> Decode B) s :
  ends 0 m s -> (forall a s, ends 0 (f a) s) -> ends 0 (m ≫= f) s.
Proof. intros H1 H2. eapply ends_bind; [exact H1|]. intros a s' _. apply H2. Qed.

(** ** The primitives *)

Lemma parses_raw bytes : parses (read_raw (len bytes)) bytes bytes.
Proof.
  intros rest. unfold read_raw. rewrite length_app, (proj2 (Z.leb_le _ _)) by lia.
  by rewrite Nat2Z.id, drop_app_length, take_app_length.
Qed.
Lemma ends_raw n s : 0 <= n -> ends n (read_raw n) s.
Proof. intros Hn. unfold ends, read_raw. destruct (Z.leb_spec n (len s)); [|done]. rewrite length_drop. lia. Qed.
Lemma parses_le n v : 0 <= v < 2 ^ (8 * Z.of_nat n) -> parses (read_le (Z.of_nat n)) (to_le_bytes n v) v.
Proof.
  intros Hv. pose proof (parses_map _ from_le_bytes _ _ (parses_raw (to_le_bytes n v))) as H.
  by rewrite length_to_le_bytes, from_to_le_bytes, Z.mod_small in H.
Qed.
Lemma ends_le n s : 1 <= n -> ends 1 (read_le n) s.
Proof. intros Hn. apply ends_map. apply (ends_weaken n); [done|]. apply ends_raw. lia. Qed.

Lemma unsigned_codec n : (0 < n)%nat ->
  Codec (fun v => Ok (to_le_bytes n v)) (read_le (Z.of_nat n)) (unsigned_fits (8 * Z.of_nat n)).
Proof.
  intros Hn. split.
  - intros v Hv%unsigned_fits_spec. by apply parses_le.
  - intros s. apply ends_le. lia.
Qed.
Lemma signed_codec n : (0 < n)%nat ->
  Codec (fun v => Ok (to_le_bytes n (to_unsigned (8 * Z.of_nat n) v)))
    (v ← read_le (Z.of_nat n); mret (to_signed (8 * Z.of_nat n) v)) (signed_fits (8 * Z.of_nat n)).
Proof.
  intros Hn. split.
  - intros v Hv%signed_fits_spec. cbn [encodes]. rewrite <- (to_signed_unsigned (8 * Z.of_nat n) v) at 2 by lia.
    apply (parses_map _ (to_signed (8 * Z.of_nat n))), parses_le, Z.mod_pos_bound. lia.
  - intros s. apply ends_map, ends_le. lia.
Qed.
#[export] Instance u8_codec : Codec write_u8 read_u8 (unsigned_fits 8) := unsigned_codec 1 ltac:(lia).
#[export] Instance u16_codec : Codec write_u16 read_u16 (unsigned_fits 16) := unsigned_codec 2 ltac:(lia).
#[export] Instance u32_codec : Codec write_u32 read_u32 (unsigned_fits 32) := unsigned_codec 4 ltac:(lia).
#[export] Instance u64_codec : Codec write_u64 read_u64 (unsigned_fits 64) := unsigned_codec 8 ltac:(lia).
#[export] Instance i8_codec : Codec write_i8 read_i8 (signed_fits 8) := signed_codec 1 ltac:(lia).
#[export] Instance i16_codec : Codec write_i16 read_i16 (signed_fits 16) := signed_codec 2 ltac:(lia).
#[export] Instance i32_codec : Codec write_i32 read_i32 (signed_fits 32) := signed_codec 4 ltac:(lia).
#[export] Instance i64_codec : Codec write_i64 read_i64 (signed_fits 64) := signed_codec 8 ltac:(lia).

(** An [f32] and an [f64], whose NaN is the quiet one. *)
Definition f32_ok : spec_float -> bool := valid_binary 24 128.
Definition f64_ok : spec_float -> bool := valid_binary 53 1024.
#[export] Instance f32_codec : Codec write_f32 read_f32 f32_ok.
Proof.
  split; [|intros s; by apply ends_map, ends_le]. intros v Hv. destruct (float_bits_roundtrip 23 8 v) as [E Hr]; [lia|lia|done|].
  pose proof (encodes_map _ (read_le 4) f32_of_bits _ (parses_le 4 _ Hr : encodes (Ok _) _ _)) as H.
  change (f32_of_bits (float_to_bits 23 8 v) = v) in E. by rewrite E in H.
Qed.
#[export] Instance f64_codec : Codec write_f64 read_f64 f64_ok.
Proof.
  split; [|intros s; by apply ends_map, ends_le]. intros v Hv. destruct (float_bits_roundtrip 52 11 v) as [E Hr]; [lia|lia|done|].
  pose proof (encodes_map _ (read_le 8) f64_of_bits _ (parses_le 8 _ Hr : encodes (Ok _) _ _)) as H.
  change (f64_of_bits (float_to_bits 52 11 v) = v) in E. by rewrite E in H.
Qed.

Definition any {A} (_ : A) : bool := true.
#[export] Instance bool_codec : Codec write_bool read_bool any.
Proof.
  split.
  - intros b _. unfold write_bool, read_bool. apply encodes_bind with (a := if b then 1 else 0).
    + apply (codec_encodes (put := write_u8)). by destruct b.
    + by destruct b.
  - intros s. apply ends_then; [apply codec_ends|]. intros v s'. destruct v as [|[]|]; apply ends_ret || apply ends_throw.
Qed.

Lemma encodes_len n : 0 <= n -> encodes (write_len n) read_len n.
Proof.
  intros Hn. unfold write_len. case_test; [|done]. apply u32_codec. apply unsigned_fits_spec. unfold u32_max in *. lia.
Qed.
Lemma ends_len s : ends 1 read_len s.
Proof. apply (codec_ends (Codec := u32_codec)). Qed.
Lemma read_len_nonneg s s' n : read_len s = (s', Ok n) -> 0 <= n.
Proof.
  unfold read_len, read_u32, read_le. unfold mbind, M_bind. destruct (read_raw 4 s) as [s1 [l|e| |]]; [|done..].
  intros [= _ <-]. apply from_le_bytes_range.
Qed.
#[export] Instance len_codec : Codec write_len read_len (Z.leb 0).
Proof. split; [intros n Hn%Z.leb_le; by apply encodes_len|apply ends_len]. Qed.
#[export] Instance bytes_codec : Codec write_bytes read_bytes any.
Proof.
  split.
  - intros l _. unfold write_bytes, read_bytes. eapply encodes_cons; [by apply encodes_len; lia|]. apply encodes_last, parses_raw.
  - intros s. unfold ends, read_bytes. unfold mbind, M_bind. pose proof (ends_len s) as H. unfold ends in H.
    destruct (read_len s) as [s1 [n|e| |]] eqn:E; [|done..]. pose proof (read_len_nonneg _ _ _ E) as Hn.
    pose proof (ends_raw n s1 Hn) as H1. unfold ends in H1. destruct (read_raw n s1) as [s2 [l|e| |]]; [lia|done..].
Qed.

(** A Rust [String]: the octets of valid UTF-8. *)
Definition utf8_ok (s : string) : bool := bool_decide (is_Some (utf8_chars (string_bytes s))).
#[export] Instance str_codec : Codec write_string read_string utf8_ok.
Proof.
  split.
  - intros s [n Hs]%bool_decide_eq_true. unfold write_string, read_string. eapply encodes_bind; [by apply codec_encodes|].
    intros rest. rewrite Hs. unfold bytes_string, string_bytes. by rewrite String.string_of_list_byte_of_string.
  - intros s. apply ends_then; [apply codec_ends|]. intros l s'. destruct (utf8_chars l); [apply ends_ret|apply ends_throw].
Qed.

(** ** Loops *)

Section Loop.
Context {B : Type} (step : B -> Decode B).

Lemma range_loop_ends N : (forall b s, len s <= N -> ends 1 (step b) s) ->
  forall fuel n b s, len s <= N -> len s < Z.of_nat fuel -> ends 0 (range_loop fuel n step b) s.
Proof.
  intros Hstep. induction fuel as [|fuel IH]; intros n b s HN Hf; [lia|]. cbn [range_loop].
  destruct (n <=? 0); [apply ends_ret|]. eapply (ends_weaken 1); [lia|]. eapply ends_bind; [by apply Hstep|].
  intros b' s' Hs'. apply IH; lia.
Qed.
Lemma for_range_ends_at N n b s : (forall b s, len s <= N -> ends 1 (step b) s) -> len s <= N -> ends 0 (for_range n step b) s.
Proof. intros H Hs. unfold ends, for_range. apply (range_loop_ends N H); lia. Qed.
Lemma for_range_ends n b s : (forall b s, ends 1 (step b) s) -> ends 0 (for_range n step b) s.
Proof. intros H. apply (for_range_ends_at (len s)); auto; lia. Qed.

(** Each element takes the state a step further. *)
Lemma for_range_encodes {X} (put : X -> Encode) (g : B -> X -> B) xs : forall b,
  (forall pre x suf, xs = pre ++ x :: suf ->
    encodes (put x) (step (foldl g b pre)) (g (foldl g b pre) x) /\
    (forall bytes, put x = Ok bytes -> 1 <= len bytes)) ->
  encodes (all_out (map put xs)) (for_range (len xs) step b) (foldl g b xs).
Proof.
  assert (forall b, (forall pre x suf, xs = pre ++ x :: suf ->
    encodes (put x) (step (foldl g b pre)) (g (foldl g b pre) x) /\ (forall bytes, put x = Ok bytes -> 1 <= len bytes)) ->
    match all_out (map put xs) with
    | Ok bytes => len xs <= len bytes /\
        forall fuel rest, (length xs <= fuel)%nat -> range_loop fuel (len xs) step b (bytes ++ rest) = (rest, Ok (foldl g b xs))
    | Err e => e = LengthOverflow | _ => False end) as Hloop.
  { induction xs as [|x xs IH]; intros b Hx; cbn [map all_out foldl].
    { split; [cbn; lia|]. by intros [|fuel] rest _. }
    destruct (Hx [] x xs eq_refl) as [H1 Hlen]. cbn [foldl] in H1. unfold encodes in H1. destruct (put x) as [b1|e| |]; [|done..]. specialize (Hlen b1 eq_refl). cbn [mbind result_bind].
    specialize (IH (g b x) ltac:(intros pre y suf ->; apply (Hx (x :: pre) y suf eq_refl))).
    destruct (all_out (map put xs)) as [b2|e| |]; [|done..]. cbn [mbind result_bind]. destruct IH as [Hl2 IH].
    rewrite length_app. cbn [length]. split; [lia|]. intros fuel rest Hf. destruct fuel as [|fuel]; [lia|]. cbn [range_loop].
    rewrite (proj2 (Z.leb_gt _ _)) by lia. rewrite <- app_assoc. unfold mbind, M_bind. rewrite H1.
    replace (Z.of_nat (S (length xs)) - 1) with (len xs) by lia. apply IH. lia. }
  intros b Hx. specialize (Hloop b Hx). unfold encodes. destruct (all_out (map put xs)) as [bytes|e| |]; [|done..].
  destruct Hloop as [Hl Hloop]. intros rest. unfold for_range. apply Hloop. rewrite length_app. lia.
Qed.
End Loop.

Lemma codec_length {A} (put : A -> Encode) get ok `{!Codec put get ok} a bytes :
  ok a = true -> put a = Ok bytes -> 1 <= len bytes.
Proof.
  intros Ha E. pose proof (codec_encodes a Ha) as H. unfold encodes in H. rewrite E in H.
  eapply parses_length; [exact H|apply codec_ends].
Qed.

(** ** Vectors and maps *)

Lemma foldl_snoc {A} (l : list A) : forall acc, foldl (fun l a => l ++ [a]) acc l = acc ++ l.
Proof. induction l as [|a l IH]; intros acc; cbn [foldl]; [by rewrite app_nil_r|]. by rewrite IH, <- app_assoc. Qed.

Section VecCodec.
Context {A : Type} {put : A -> Encode} {get : Decode A} {ok : A -> bool} `{!Codec put get ok}.
#[export] Instance vec_codec : Codec (write_vec put) (read_vec get) (forallb ok).
Proof.
  split.
  - intros l Hl. rewrite forallb_forall in Hl. unfold write_vec, read_vec.
    eapply encodes_cons; [by apply encodes_len; lia|]. apply encodes_last. rewrite <- (app_nil_l l) at 3.
    rewrite <- foldl_snoc. apply for_range_encodes. intros pre x suf E.
    assert (ok x = true) as Hx by (apply Hl; rewrite E; apply in_elt).
    split; [apply (encodes_map _ get (fun a => _ ++ [a])); by apply codec_encodes|]. intros bytes. by apply codec_length with (ok := ok) (get := get).
  - intros s. apply ends_then; [apply ends_len|]. intros n s'. apply for_range_ends. intros l s1. apply ends_map, codec_ends.
Qed.
End VecCodec.

Section MapCodec.
Context {K : Type} `{Countable K, !KeyOrder K} {V : Type}.
Implicit Types m : gmap K V.

Lemma entries_perm m : entries m ≡ₚ map_to_list m.
Proof. apply merge_sort_Permutation. Qed.
Lemma length_entries m : length (entries m) = size m.
Proof. by rewrite entries_perm, length_map_to_list. Qed.
Lemma foldl_insert (l : list (K * V)) : forall m, NoDup l.*1 ->
  foldl (fun m e => <[e.1 := e.2]> m) m l = list_to_map l ∪ m.
Proof.
  induction l as [|[k v] l IH]; intros m Hl; cbn [foldl fst snd].
  - cbn. by rewrite (left_id_L ∅ (∪)).
  - apply NoDup_cons in Hl as [Hk Hl]. rewrite IH by done. cbn [list_to_map foldr uncurry fst snd].
    rewrite <- insert_union_r, insert_union_l; [done|]. by apply not_elem_of_list_to_map.
Qed.
(** Inserting the entries of a map makes the map. *)
Lemma foldl_insert_entries m : foldl (fun m e => <[e.1 := e.2]> m) ∅ (entries m) = m.
Proof.
  rewrite foldl_insert by (rewrite entries_perm; apply NoDup_fst_map_to_list). rewrite (right_id_L ∅ (∪)).
  erewrite list_to_map_proper; [apply list_to_map_to_list| |apply entries_perm].
  rewrite entries_perm. apply NoDup_fst_map_to_list.
Qed.

Context {putk : K -> Encode} {getk : Decode K} {okk : K -> bool} {put : V -> Encode} {get : Decode V} {ok : V -> bool}.
Context `{!Codec put get ok}.

Definition map_ok (okk : K -> bool) (ok : V -> bool) (m : gmap K V) : bool :=
  forallb (fun e => okk e.1 && ok e.2) (map_to_list m).
Definition values_ok (key : V -> K) (ok : V -> bool) (m : gmap K V) : bool :=
  forallb (fun e => bool_decide (key e.2 = e.1) && ok e.2) (map_to_list m).

Lemma forallb_entries (f : K * V -> bool) m pre e suf :
  forallb f (map_to_list m) = true -> entries m = pre ++ e :: suf -> f e = true.
Proof.
  rewrite forallb_forall. intros Hf E. apply Hf. apply list_elem_of_In. rewrite <- entries_perm, E. apply elem_of_app. right. left.
Qed.

#[export] Instance map_codec `{!Codec putk getk okk} : Codec (write_map putk put) (read_map getk get) (map_ok okk ok).
Proof.
  split.
  - intros m Hm. unfold write_map, read_map. rewrite <- length_entries.
    eapply encodes_cons; [by apply encodes_len; lia|]. apply encodes_last. rewrite <- (foldl_insert_entries m) at 3.
    apply for_range_encodes. intros pre [k v] suf E. pose proof (forallb_entries _ _ _ _ _ Hm E) as Hkv.
    cbn [fst snd] in *. apply andb_true_iff in Hkv as [Hk Hv]. split.
    + eapply encodes_cons; [by apply codec_encodes|]. apply encodes_last, (encodes_map _ get (fun v => <[k := v]> _)). by apply codec_encodes.
    + intros bytes Eb. cbn [all_out] in Eb. pose proof (fun b => codec_length putk getk okk k b Hk) as Hlen.
      destruct (putk k) as [b1|e| |]; [|done..]. specialize (Hlen b1 eq_refl). cbn [mbind result_bind] in Eb.
      destruct (put v) as [b2|e| |]; [|done..]. cbn in Eb. injection Eb as <-. rewrite length_app. lia.
  - intros s. apply ends_then; [apply ends_len|]. intros n s'. apply for_range_ends. intros m s1.
    apply ends_then; [apply codec_ends|]. intros k s2. apply ends_map, ends_weak, codec_ends.
Qed.
#[export] Instance values_codec key : Codec (write_values put) (read_values key get) (values_ok key ok).
Proof.
  split.
  - intros m Hm. unfold write_values, read_values. rewrite <- length_entries.
    eapply encodes_cons; [by apply encodes_len; lia|]. apply encodes_last. rewrite <- (foldl_insert_entries m) at 3.
    apply for_range_encodes. intros pre [k v] suf E. pose proof (forallb_entries _ _ _ _ _ Hm E) as Hkv.
    cbn [fst snd] in *. apply andb_true_iff in Hkv as [Hk%bool_decide_eq_true Hv]. split.
    + rewrite <- Hk. apply (encodes_map _ _ (fun v => <[key v := v]> _)). by apply codec_encodes.
    + intros bytes. by apply codec_length with (ok := ok) (get := get).
  - intros s. apply ends_then; [apply ends_len|]. intros n s'. apply for_range_ends. intros m s1. apply ends_map, codec_ends.
Qed.
End MapCodec.

(** ** Proofs about codecs *)

(** What always fits. *)
Create HintDb fits.
Lemma forallb_any {A} (l : list A) : forallb any l = true.
Proof. by apply forallb_forall. Qed.
#[export] Hint Resolve forallb_any : fits.

Ltac encodes_atom :=
  simple notypeclasses refine (@codec_encodes _ _ _ _ _ _ _); [..|typeclasses eauto|first [eassumption|reflexivity|solve [auto with fits]]].
(** The next writer against the next reader; what is left is that the value fits. *)
Ltac encode_step :=
  lazymatch goal with
  | |- encodes (all_out []) (mret _) _ => apply encodes_nil
  | |- encodes (all_out [_]) ?m _ =>
      lazymatch m with
      | _ ≫= _ => eapply encodes_cons; [encodes_atom | cbv beta iota]
      | _ => apply encodes_last; encodes_atom
      end
  | |- encodes (all_out (_ :: _)) (_ ≫= _) _ =>
      eapply encodes_cons; [encodes_atom | cbv beta iota]
  | |- encodes _ (_ ≫= _) _ =>
      eapply encodes_bind; [encodes_atom | intros ?; cbv beta iota; reflexivity]
  | |- encodes _ _ _ => encodes_atom
  end.
Ltac ends_atom :=
  first [apply ends_len | simple notypeclasses refine (@codec_ends _ _ _ _ _ _); [..|typeclasses eauto]].
Ltac ends_step :=
  lazymatch goal with
  | |- ends _ (throw _) _ => apply ends_throw
  | |- ends 0 (mret _) _ => apply ends_ret
  | |- ends 1 (_ ≫= _) _ => apply ends_then; [ends_atom | intros ? ?; cbv beta iota]
  | |- ends 0 (_ ≫= _) _ => apply ends_then0; [apply ends_weak; ends_atom | intros ? ?; cbv beta iota]
  | |- ends _ (match ?x with _ => _ end) _ => destruct x
  | |- ends 0 _ _ => apply ends_weak; ends_atom
  | |- ends 1 _ _ => ends_atom
  end.
Ltac split_fits H := rewrite ?andb_true_iff in H; destruct_and? H.
(** A codec that writes the fields of a record one after the other. *)
Ltac codec_record put get ok :=
  split;
  [ let a := fresh "a" in let H := fresh "Hok" in
    intros a H; unfold put, get; unfold ok in H; cbv beta in H; split_fits H; destruct a; repeat encode_step
  | intros ?; unfold get; repeat ends_step ].
(** A codec that writes a tag and the arguments of a constructor. *)
Ltac codec_enum put get ok :=
  split;
  [ let a := fresh "a" in let H := fresh "Hok" in
    intros a H; unfold put, get; unfold ok in H; destruct a; cbv beta iota in H |- *; split_fits H; repeat encode_step
  | intros ?; unfold get; repeat ends_step ].

(** A codec that writes a tag for each value of an enumeration. *)
Ltac codec_tag put get :=
  split; [ intros a ?; unfold put, get; destruct a; cbv beta iota; repeat encode_step | intros ?; unfold get; repeat ends_step ].

(** ** Messages *)

Lemma encodes_pure {A B} w (f : A -> Decode B) a b : encodes w (f a) b -> encodes w (mret a ≫= f) b.
Proof. done. Qed.
Definition header_ok (header : EnvelopeHeader) : bool :=
  bool_decide (h_abi header = CURRENT_PLUGIN_ABI) && unsigned_fits 8 (h_op_code header) &&
  unsigned_fits 16 (h_flags header) && unsigned_fits 32 (h_payload_len header).
Lemma header_written header : exists bytes, with_header header = Ok bytes /\ len bytes = PLUGIN_ENVELOPE_HEADER_LEN.
Proof. eexists. split; [reflexivity|]. by destruct header as [[] [] ]. Qed.
Lemma header_read header : header_ok header = true -> encodes (with_header header) read_header header.
Proof.
  unfold header_ok. intros H. split_fits H. destruct header as [abi kind op flags n]. cbn [h_abi h_op_code h_flags h_payload_len] in *.
  match goal with H : bool_decide _ = true |- _ => apply bool_decide_eq_true in H as -> end.
  unfold with_header, read_header. cbn [h_abi h_plugin_kind h_op_code h_flags h_payload_len]. do 2 encode_step.
  eapply encodes_cons; [eapply (codec_encodes (Codec := u8_codec)); by destruct kind|]. cbv beta.
  assert (plugin_kind_of (kind_tag kind) = Some kind) as -> by (by destruct kind). apply encodes_pure. repeat encode_step.
Qed.
Lemma envelope_roundtrip header payload :
  header_ok header = true -> h_payload_len header = len payload ->
  exists bytes, encode_envelope header payload = Ok bytes /\ decode_envelope bytes = Ok (header, payload).
Proof.
  intros Hok Hlen. destruct (header_written header) as (bytes & E & Hbytes). exists (bytes ++ payload).
  pose proof (header_read header Hok) as Hr. unfold encodes in Hr. rewrite E in Hr. specialize (Hr payload).
  unfold encode_envelope, decode_envelope. rewrite E, Hlen, Z.eqb_refl. cbn [negb all_out mbind result_bind write_raw].
  rewrite app_nil_r. split; [done|]. rewrite length_app, (proj2 (Z.ltb_ge _ _)), Hr by lia. cbn [snd mbind result_bind].
  unfold header_ok in Hok. split_fits Hok. rewrite Hlen.
  match goal with H : bool_decide _ = true |- _ => rewrite H; clear H end. cbn [negb].
  match goal with H : unsigned_fits 32 _ = true |- _ => apply unsigned_fits_spec in H end.
  unfold saturating_add, usize_max, u64_max, PLUGIN_ENVELOPE_HEADER_LEN in *. rewrite (proj2 (Z.eqb_eq _ _)) by lia. cbn [negb].
  do 3 f_equal. replace (Z.to_nat 12) with (length bytes) by lia. apply drop_app_length.
Qed.

(** A message with this header and payload. *)
Definition message (kind : PluginKind) (op flags : Z) (payload : Encode) : Encode :=
  payload ← payload; n ← payload_len payload; encode_envelope (mkHeader CURRENT_PLUGIN_ABI kind op flags n) payload.
(** What a message holds: a header, and a payload that [m] reads as [a]. *)
Definition holds {A} (w : Encode) (kind : PluginKind) (op flags : Z) (m : Decode A) (a : A) : Prop :=
  match w with
  | Ok bytes => exists payload, decode_envelope bytes = Ok (mkHeader CURRENT_PLUGIN_ABI kind op flags (len payload), payload) /\
      decode_all m payload = Ok a
  | Err e => e = LengthOverflow
  | _ => False
  end.
Lemma decode_all_parses {A} (m : Decode A) bytes a : parses m bytes a -> decode_all m bytes = Ok a.
Proof. intros H. specialize (H []). rewrite app_nil_r in H. unfold decode_all, mbind, M_bind. by rewrite H. Qed.
Lemma message_holds {A} kind op flags payload (m : Decode A) a :
  unsigned_fits 8 op = true -> unsigned_fits 16 flags = true -> encodes payload m a ->
  holds (message kind op flags payload) kind op flags m a.
Proof.
  intros Hop Hflags. unfold encodes, message, holds, payload_len. destruct payload as [bytes|e| |]; [|done..]. intros Hp.
  cbn [mbind result_bind]. case_test; [|done]. cbn [mbind result_bind].
  destruct (envelope_roundtrip (mkHeader CURRENT_PLUGIN_ABI kind op flags (len bytes)) bytes) as (out & E & Hd).
  - unfold header_ok. cbn [h_abi h_op_code h_flags h_payload_len]. rewrite Hop, Hflags, (proj2 (unsigned_fits_spec _ _)) by (unfold u32_max in *; lia).
    reflexivity.
  - done.
  - rewrite E. exists bytes. split; [done|by apply decode_all_parses].
Qed.

(** Reading ends. *)
Definition settled {A} (r : result ProtocolCodecError A) : Prop :=
  match r with Ok _ | Err _ => True | _ => False end.
Lemma settled_bind {A B} (r : result ProtocolCodecError A) (f : A -> result ProtocolCodecError B) :
  settled r -> (forall a, r = Ok a -> settled (f a)) -> settled (r ≫= f).
Proof. destruct r; cbn; auto. Qed.
Lemma decode_all_settled {A} (m : Decode A) bytes : ends 0 m bytes -> settled (decode_all m bytes).
Proof.
  unfold ends, decode_all, settled. unfold mbind, M_bind. destruct (m bytes) as [s [a|e| |]]; [|done..]. by destruct s.
Qed.
Lemma read_header_ends s : ends 1 read_header s.
Proof.
  unfold read_header. do 3 ends_step. apply ends_then0; [destruct (plugin_kind_of _); repeat ends_step|]. intros kind s'. repeat ends_step.
Qed.
Lemma decode_envelope_settled bytes : settled (decode_envelope bytes).
Proof.
  unfold decode_envelope. destruct (_ <? _); [done|]. pose proof (read_header_ends bytes) as H. unfold ends in H.
  destruct (read_header bytes) as [s [h|e| |]]; [|done..]. cbn. by repeat destruct (negb _).
Qed.

(** What a message carries: its bytes are read as [a], or a length is beyond [u32]. *)
Definition carries {A} (w : Encode) (read : list byte -> result ProtocolCodecError A) (a : A) : Prop :=
  match w with Ok bytes => read bytes = Ok a | Err e => e = LengthOverflow | _ => False end.
Lemma holds_carries {A} w kind op flags (m : Decode A) (read : list byte -> result ProtocolCodecError A) a :
  holds w kind op flags m a ->
  (forall bytes payload, decode_envelope bytes = Ok (mkHeader CURRENT_PLUGIN_ABI kind op flags (len payload), payload) ->
    read bytes = decode_all m payload) ->
  carries w read a.
Proof.
  unfold holds, carries. destruct w as [bytes|e| |]; [|done..]. intros (payload & E & Hp) Hread. by rewrite (Hread _ _ E).
Qed.
Lemma opened_settled {A} bytes (k : EnvelopeHeader * list byte -> result ProtocolCodecError A) :
  (forall opened, settled (k opened)) -> settled (decode_envelope bytes ≫= k).
Proof. intros H. apply settled_bind; [apply decode_envelope_settled|]. auto. Qed.
