(* ===== verification/PluginInventory.v ===== *)
(** * Items and inventories across the plugin boundary
    ([crates/plugin/mc-plugin-contract/src/codec/__internal]: inventory.rs, and the generic
    functions of shared.rs)

    The codec of item data, stacks, slots, clicks and inventories.  Item data nests, and its reader
    recurses once per level: [decode_item_data_value_at levels] is what it does on a thread whose
    stack holds so many levels, where [OutOfFuel] is the overflow of the stack, which aborts the
    process.  The codecs of the messages use [decode_item_data_value], the reader on a stack that
    holds a level for every byte that is left, which no item exceeds.  Vectors are grown as their
    elements are read; that the code reserves the claimed length at once, and that an allocator
    may refuse it, is not modelled. *)

From Stdlib Require Import Floats.SpecFloat.
From S2P Require Import Prelude Bytes Parsing ProtoPacket VoxelModel VoxelItems PluginBinary.

(** ** Options ([shared.rs]) *)

Definition encode_option {A} (encode : A -> Encode) (value : option A) : Encode :=
  match value with
  | Some a => all_out [write_bool true; encode a]
  | None => all_out [write_bool false]
  end.
Definition decode_option {A} (decode : Decode A) : Decode (option A) :=
  present ← read_bool; if present : bool then (a ← decode; mret (Some a)) else mret None.
Definition option_ok {A} (ok : A -> bool) (o : option A) : bool := match o with Some a => ok a | None => true end.
Lemma option_any {A} (o : option A) : option_ok any o = true.
Proof. by destruct o. Qed.
#[export] Hint Resolve option_any : fits.
#[export] Instance option_codec {A} (put : A -> Encode) get ok `{!Codec put get ok} :
  Codec (encode_option put) (decode_option get) (option_ok ok).
Proof.
  split.
  - intros [a|] Ha; unfold encode_option, decode_option.
    + eapply encodes_cons; [by apply (codec_encodes true)|]. cbv beta iota. apply encodes_last, (encodes_map _ get Some). by apply codec_encodes.
    + eapply encodes_cons; [by apply (codec_encodes false)|]. apply encodes_nil.
  - intros s. unfold decode_option. repeat ends_step.
Qed.

(** ** Slots and clicks *)

Definition encode_inventory_container (container : string) : Encode := write_string container.
Definition decode_inventory_container : Decode string := read_string.
#[export] Instance container_codec : Codec encode_inventory_container decode_inventory_container utf8_ok := str_codec.

(** [u8::try_from(index).expect(..)] *)
Definition encode_inventory_slot (slot : InventorySlot) : Encode :=
  match slot with
  | WindowLocal index => if index <=? u8_max then all_out [write_u8 1; write_u8 index] else Panic
  | MainInventory index => all_out [write_u8 3; write_u8 index]
  | Hotbar index => all_out [write_u8 4; write_u8 index]
  | Offhand => all_out [write_u8 5]
  end.
Definition decode_inventory_slot : Decode InventorySlot :=
  tag ← read_u8;
  match tag with
  | 1 | 2 => index ← read_u8; mret (WindowLocal index)
  | 3 => index ← read_u8; mret (MainInventory index)
  | 4 => index ← read_u8; mret (Hotbar index)
  | 5 => mret Offhand
  | _ => throw (InvalidValue "invalid inventory slot")
  end.
(** The slots that the wire has a form for: the index fits a byte.  Of the Rust type it does for
    all but the local slots of a window, whose index has 16 bits; beyond a byte the encoder
    panics ([local_slot_panics]). *)
Definition slot_ok (slot : InventorySlot) : bool :=
  match slot with WindowLocal i | MainInventory i | Hotbar i => unsigned_fits 8 i | Offhand => true end.
#[export] Instance inventory_slot_codec : Codec encode_inventory_slot decode_inventory_slot slot_ok.
Proof.
  codec_enum encode_inventory_slot decode_inventory_slot slot_ok.
  rewrite (proj2 (Z.leb_le _ _)) by (apply unsigned_fits_spec in Hok; unfold u8_max; lia). repeat encode_step.
Qed.

Lemma local_slot_panics index : u8_max < index -> encode_inventory_slot (WindowLocal index) = Panic.
Proof. intros H. cbn [encode_inventory_slot]. by rewrite (proj2 (Z.leb_gt _ _) H). Qed.

Definition encode_inventory_click_button (button : InventoryClickButton) : Encode :=
  write_u8 (match button with LeftButton => 1 | RightButton => 2 end).
Definition decode_inventory_click_button : Decode InventoryClickButton :=
  tag ← read_u8;
  match tag with
  | 1 => mret LeftButton | 2 => mret RightButton | _ => throw (InvalidValue "invalid inventory click button")
  end.
#[export] Instance button_codec : Codec encode_inventory_click_button decode_inventory_click_button any.
Proof. codec_tag encode_inventory_click_button decode_inventory_click_button. Qed.

Definition encode_inventory_click_target (target : InventoryClickTarget) : Encode :=
  match target with
  | TargetSlot slot => all_out [write_u8 1; encode_inventory_slot slot]
  | TargetOutside => all_out [write_u8 2]
  | TargetUnsupported => all_out [write_u8 3]
  end.
Definition decode_inventory_click_target : Decode InventoryClickTarget :=
  tag ← read_u8;
  match tag with
  | 1 => slot ← decode_inventory_slot; mret (TargetSlot slot)
  | 2 => mret TargetOutside
  | 3 => mret TargetUnsupported
  | _ => throw (InvalidValue "invalid inventory click target")
  end.
Definition target_ok (target : InventoryClickTarget) : bool :=
  match target with TargetSlot slot => slot_ok slot | _ => true end.
#[export] Instance target_codec : Codec encode_inventory_click_target decode_inventory_click_target target_ok.
Proof. codec_enum encode_inventory_click_target decode_inventory_click_target target_ok. Qed.

Definition encode_inventory_transaction_context (transaction : InventoryTransactionContext) : Encode :=
  all_out [write_u8 (tr_window_id transaction); write_i16 (action_number transaction)].
Definition decode_inventory_transaction_context : Decode InventoryTransactionContext :=
  window_id ← read_u8; action_number ← read_i16; mret (mkTransaction window_id action_number).
Definition transaction_ok (transaction : InventoryTransactionContext) : bool :=
  unsigned_fits 8 (tr_window_id transaction) && signed_fits 16 (action_number transaction).
#[export] Instance transaction_codec :
  Codec encode_inventory_transaction_context decode_inventory_transaction_context transaction_ok.
Proof. codec_record encode_inventory_transaction_context decode_inventory_transaction_context transaction_ok. Qed.

(** ** Item data *)

Fixpoint encode_item_data_value (value : ItemDataValue) : Encode :=
  match value with
  | DataByte v => all_out [write_u8 1; write_i8 v]
  | DataShort v => all_out [write_u8 2; write_i16 v]
  | DataInt v => all_out [write_u8 3; write_i32 v]
  | DataLong v => all_out [write_u8 4; write_i64 v]
  | DataFloat bits => all_out [write_u8 5; write_u32 bits]
  | DataDouble bits => all_out [write_u8 6; write_u64 bits]
  | DataByteArray values => all_out [write_u8 7; write_bytes (map Z_byte values)]
  | DataString v => all_out [write_u8 8; write_string v]
  | DataList values => all_out [write_u8 9; write_len (len values); all_out (map encode_item_data_value values)]
  | DataCompound values =>
      all_out [write_u8 10; write_len (len values);
        all_out (map (fun e => all_out [write_string e.1; encode_item_data_value e.2]) values)]
  | DataIntArray values => all_out [write_u8 11; write_vec write_i32 values]
  | DataLongArray values => all_out [write_u8 12; write_vec write_i64 values]
  end.
Definition read_byte_values : Decode (list Z) := bytes ← read_bytes; mret (map byte_Z bytes).
(** On a thread whose stack holds [depth] levels. *)
Fixpoint decode_item_data_value_at (depth : nat) : Decode ItemDataValue :=
  match depth with
  | O => out_of_fuel
  | S depth =>
      tag ← read_u8;
      match tag with
      | 1 => v ← read_i8; mret (DataByte v)
      | 2 => v ← read_i16; mret (DataShort v)
      | 3 => v ← read_i32; mret (DataInt v)
      | 4 => v ← read_i64; mret (DataLong v)
      | 5 => bits ← read_u32; mret (DataFloat bits)
      | 6 => bits ← read_u64; mret (DataDouble bits)
      | 7 => values ← read_byte_values; mret (DataByteArray values)
      | 8 => v ← read_string; mret (DataString v)
      | 9 =>
          n ← read_len;
          values ← for_range n (fun l => v ← decode_item_data_value_at depth; mret (l ++ [v])) [];
          mret (DataList values)
      | 10 =>
          n ← read_len;
          values ← for_range n (fun m => k ← read_string; v ← decode_item_data_value_at depth; mret (compound_insert k v m)) [];
          mret (DataCompound values)
      | 11 => values ← read_vec read_i32; mret (DataIntArray values)
      | 12 => values ← read_vec read_i64; mret (DataLongArray values)
      | _ => throw (InvalidValue "invalid item data tag")
      end
  end.
(** On a stack that is high enough: every level takes a byte. *)
Definition decode_item_data_value : Decode ItemDataValue := fun s => decode_item_data_value_at (S (length s)) s.

(** The values of the Rust type, and how deep they nest. *)
Fixpoint item_data_ok (value : ItemDataValue) : bool :=
  match value with
  | DataByte v => signed_fits 8 v
  | DataShort v => signed_fits 16 v
  | DataInt v => signed_fits 32 v
  | DataLong v => signed_fits 64 v
  | DataFloat bits => unsigned_fits 32 bits
  | DataDouble bits => unsigned_fits 64 bits
  | DataByteArray values => forallb byte_fits values
  | DataString v => utf8_ok v
  | DataList values => forallb item_data_ok values
  | DataCompound values => keys_sorted values && forallb (fun e => utf8_ok e.1 && item_data_ok e.2) values
  | DataIntArray values => forallb (signed_fits 32) values
  | DataLongArray values => forallb (signed_fits 64) values
  end.
Definition max_nat (l : list nat) : nat := foldr Nat.max O l.
Fixpoint item_depth (value : ItemDataValue) : nat :=
  match value with
  | DataList values => S (max_nat (map item_depth values))
  | DataCompound values => S (max_nat (map (fun e => item_depth e.2) values))
  | _ => 1
  end.
Lemma max_nat_le x l : x ∈ l -> (x <= max_nat l)%nat.
Proof. unfold max_nat. induction 1; cbn [foldr]; lia. Qed.
Lemma max_nat_bound l b : (forall x, x ∈ l -> (x <= b)%nat) -> (max_nat l <= b)%nat.
Proof.
  unfold max_nat. induction l as [|x l IH]; intros H; cbn [foldr]; [lia|]. pose proof (H x ltac:(set_solver)).
  specialize (IH ltac:(intros y Hy; apply H; set_solver)). lia.
Qed.

Section DataInd.
Variable P : ItemDataValue -> Prop.
Hypotheses (Hbyte : forall v, P (DataByte v)) (Hshort : forall v, P (DataShort v)) (Hint : forall v, P (DataInt v))
  (Hlong : forall v, P (DataLong v)) (Hfloat : forall v, P (DataFloat v)) (Hdouble : forall v, P (DataDouble v))
  (Hbytes : forall v, P (DataByteArray v)) (Hstring : forall v, P (DataString v))
  (Hlist : forall l, Forall P l -> P (DataList l)) (Hcompound : forall l, Forall (fun e => P e.2) l -> P (DataCompound l))
  (Hints : forall v, P (DataIntArray v)) (Hlongs : forall v, P (DataLongArray v)).
(** The induction principle that reaches the elements of lists and compounds. *)
Fixpoint data_ind (value : ItemDataValue) : P value :=
  match value with
  | DataByte v => Hbyte v | DataShort v => Hshort v | DataInt v => Hint v | DataLong v => Hlong v
  | DataFloat v => Hfloat v | DataDouble v => Hdouble v | DataByteArray v => Hbytes v | DataString v => Hstring v
  | DataList l =>
      Hlist l ((fix go (l : list ItemDataValue) : Forall P l :=
        match l with
        | [] => @List.Forall_nil _ P
        | v :: l => @List.Forall_cons _ P v l (data_ind v) (go l)
        end) l)
  | DataCompound l =>
      Hcompound l ((fix go (l : list (string * ItemDataValue)) : Forall (fun e => P e.2) l :=
        match l with
        | [] => @List.Forall_nil _ (fun e => P e.2)
        | e :: l => @List.Forall_cons _ (fun e => P e.2) e l (data_ind e.2) (go l)
        end) l)
  | DataIntArray v => Hints v | DataLongArray v => Hlongs v
  end.
End DataInd.

#[export] Instance byte_values_codec :
  Codec (fun l => write_bytes (map Z_byte l)) read_byte_values (forallb byte_fits).
Proof.
  split.
  - intros l Hl. unfold read_byte_values. assert (map byte_Z (map Z_byte l) = l) as E.
    { rewrite forallb_Forall' in Hl. rewrite map_map. rewrite <- (map_id l) at 2. apply map_ext_in. intros b Hb.
      rewrite Forall_forall in Hl. apply Z_byte_small, byte_fits_spec, Hl. by apply list_elem_of_In. }
    rewrite <- E at 2. apply encodes_map. by apply codec_encodes.
  - intros s. apply ends_map, codec_ends.
Qed.
(** What is written takes a byte for every level, and is read back with as much fuel. *)
Definition item_codec (value : ItemDataValue) : Prop :=
  (forall depth, (item_depth value <= depth)%nat -> encodes (encode_item_data_value value) (decode_item_data_value_at depth) value) /\
  (forall bytes, encode_item_data_value value = Ok bytes -> Z.of_nat (item_depth value) <= len bytes).

Lemma out_tagged_length tag (w : list Encode) bytes : all_out (write_u8 tag :: w) = Ok bytes -> 1 <= len bytes.
Proof.
  cbn [all_out]. unfold write_u8. cbn [mbind result_bind]. destruct (all_out w) as [b|e| |]; [|done..]. cbn.
  intros [= <-]. cbn [length app]. lia.
Qed.
Lemma out_two (w1 w2 : Encode) bytes : all_out [w1; w2] = Ok bytes ->
  exists b1 b2, w1 = Ok b1 /\ w2 = Ok b2 /\ len bytes = len b1 + len b2.
Proof.
  cbn [all_out]. destruct w1 as [b1|e| |]; [|done..]. cbn [mbind result_bind]. destruct w2 as [b2|e| |]; [|done..]. cbn.
  intros [= <-]. exists b1, b2. rewrite !length_app. cbn. split_and!; [done..|lia].
Qed.
Lemma out_tagged_rest tag (w : list Encode) bytes : all_out (write_u8 tag :: w) = Ok bytes ->
  exists b, all_out w = Ok b /\ len bytes = 1 + len b.
Proof.
  cbn [all_out]. unfold write_u8. cbn [mbind result_bind]. destruct (all_out w) as [b|e| |]; [|done..]. cbn.
  intros [= <-]. exists b. split; [done|]. cbn [length app]. lia.
Qed.
Lemma all_out_length {X} (put : X -> Encode) l bytes x :
  all_out (map put l) = Ok bytes -> x ∈ l -> exists b, put x = Ok b /\ len b <= len bytes.
Proof.
  revert bytes. induction l as [|y l IH]; intros bytes E Hx; [by apply not_elem_of_nil in Hx|]. cbn [map all_out] in E.
  destruct (put y) as [b1|e| |] eqn:E1; [|done..]. cbn [mbind result_bind] in E.
  destruct (all_out (map put l)) as [b2|e| |]; [|done..]. cbn in E. injection E as <-. rewrite length_app.
  apply elem_of_cons in Hx as [->|Hx]; [exists b1; split; [done|lia]|].
  destruct (IH b2 eq_refl Hx) as (b & Eb & Hb). exists b. split; [done|lia].
Qed.

Lemma item_codec_list l : Forall item_codec l -> item_codec (DataList l).
Proof.
  intros Hl. rewrite Forall_forall in Hl. split.
  - intros [|depth] Hd; [cbn in Hd; lia|]. cbn [item_depth] in Hd. cbn [encode_item_data_value decode_item_data_value_at].
    encode_step. eapply encodes_cons; [apply encodes_len; lia|]. cbv beta. apply encodes_last, (encodes_map _ _ DataList).
    rewrite <- (app_nil_l l) at 3. rewrite <- foldl_snoc. apply for_range_encodes. intros pre v suf E.
    assert (v ∈ l) as Hv by (rewrite E; set_solver). destruct (Hl v Hv) as [He Hlen]. split.
    + apply (encodes_map _ _ (fun v => _ ++ [v])), He. pose proof (max_nat_le (item_depth v) (map item_depth l)).
      specialize (H ltac:(by apply list_elem_of_fmap_2)). lia.
    + intros bytes Eb. specialize (Hlen bytes Eb). destruct v; cbn in Hlen; lia.
  - intros bytes Eb. cbn [encode_item_data_value] in Eb. apply out_tagged_rest in Eb as (b & Eb & ->).
    apply out_two in Eb as (b1 & b2 & _ & E2 & ->). cbn [item_depth].
    cut (max_nat (map item_depth l) <= length b2)%nat; [lia|]. apply max_nat_bound. intros x Hx.
    apply list_elem_of_fmap in Hx as (v & -> & Hv). destruct (all_out_length _ _ _ _ E2 Hv) as (b' & Eb' & Hb).
    pose proof (proj2 (Hl v Hv) b' Eb'). lia.
Qed.
Lemma item_codec_compound l :
  keys_sorted l = true -> Forall (fun e => utf8_ok e.1 = true /\ item_codec e.2) l -> item_codec (DataCompound l).
Proof.
  intros Hs Hl. rewrite Forall_forall in Hl. split.
  - intros [|depth] Hd; [cbn in Hd; lia|]. cbn [item_depth] in Hd. cbn [encode_item_data_value decode_item_data_value_at].
    encode_step. eapply encodes_cons; [apply encodes_len; lia|]. cbv beta. apply encodes_last, (encodes_map _ _ DataCompound).
    assert (forall pre suf, l = pre ++ suf -> foldl (fun m e => compound_insert e.1 e.2 m) [] pre = pre) as Hpre.
    { intros pre. induction pre as [|e pre IH] using rev_ind; [done|]. intros suf E. rewrite foldl_app. cbn [foldl].
      rewrite <- app_assoc in E. rewrite (IH _ E). apply (keys_sorted_last pre e suf). change (e :: suf) with ([e] ++ suf). by rewrite <- E. }
    rewrite <- (Hpre l [] ltac:(by rewrite app_nil_r)) at 3. apply for_range_encodes. intros pre [k v] suf E.
    assert ((k, v) ∈ l) as Hv by (rewrite E; set_solver). destruct (Hl _ Hv) as [Hk [He Hlen]]. cbn [fst snd] in *. split.
    + encode_step. apply encodes_last, (encodes_map _ _ (fun v => compound_insert k v _)), He.
      pose proof (max_nat_le (item_depth v) (map (fun e => item_depth e.2) l)).
      specialize (H ltac:(by apply (list_elem_of_fmap_2 (fun e => item_depth e.2) _ (k, v)))). lia.
    + intros bytes Eb. apply out_two in Eb as (b1 & b2 & E1 & _ & ->).
      pose proof (codec_length write_string read_string utf8_ok k b1 Hk E1). lia.
  - intros bytes Eb. cbn [encode_item_data_value] in Eb. apply out_tagged_rest in Eb as (b & Eb & ->).
    apply out_two in Eb as (b1 & b2 & _ & E2 & ->). cbn [item_depth].
    cut (max_nat (map (fun e => item_depth e.2) l) <= length b2)%nat; [lia|]. apply max_nat_bound. intros x Hx.
    apply list_elem_of_fmap in Hx as ([k v] & -> & Hv). destruct (all_out_length _ _ _ _ E2 Hv) as (b' & Eb' & Hb).
    apply out_two in Eb' as (b3 & b4 & _ & E4 & Hlen). pose proof (proj2 (proj2 (Hl _ Hv)) b4 E4). cbn [snd] in *. lia.
Qed.
Lemma item_codec_ok value : item_data_ok value = true -> item_codec value.
Proof.
  induction value as [v|v|v|v|v|v|l|s|l IH|l IH|l|l] using data_ind; cbn [item_data_ok]; intros Hok.
  7: { split; [|intros bytes; cbn [encode_item_data_value item_depth]; apply out_tagged_length].
    intros [|depth] Hd; [cbn in Hd; lia|]. cbn [encode_item_data_value decode_item_data_value_at]. encode_step.
    apply encodes_last, (encodes_map _ _ DataByteArray). by apply (codec_encodes (Codec := byte_values_codec)). }
  8: { apply item_codec_list. rewrite forallb_Forall' in Hok. rewrite Forall_forall in *. auto. }
  8: { apply andb_true_iff in Hok as [Hs Hok]. apply item_codec_compound; [done|]. rewrite forallb_Forall' in Hok.
    rewrite Forall_forall in *. intros e He. specialize (Hok e He). rewrite andb_true_iff in Hok. naive_solver. }
  all: split; [|intros bytes; cbn [encode_item_data_value item_depth]; apply out_tagged_length].
  all: intros [|depth] Hd; [cbn in Hd; lia|]; cbn [encode_item_data_value decode_item_data_value_at]; repeat encode_step.
Qed.

(** What is left bounds the levels. *)
Lemma item_at_ends depth : forall s, len s < Z.of_nat depth -> ends 1 (decode_item_data_value_at depth) s.
Proof.
  induction depth as [|depth IH]; intros s Hs; [lia|]. cbn [decode_item_data_value_at].
  eapply ends_bind; [apply (codec_ends (Codec := u8_codec))|]. intros tag s1 Hs1. rewrite Z.sub_diag.
  assert (forall s2, len s2 < len s -> ends 1 (decode_item_data_value_at depth) s2) as Hd by (intros; apply IH; lia).
  assert (ends (A := ItemDataValue) 0 (throw (InvalidValue "invalid item data tag")) s1) as Ht by apply ends_throw.
  destruct tag as [|tag|tag]; [exact Ht| |exact Ht]. do 4 (try (destruct tag as [tag|tag|]; try exact Ht)).
  all: try solve [repeat ends_step].
  all: eapply (ends_weaken 1); [lia|]; eapply ends_bind; [apply ends_len|]; intros n s2 Hs2; apply ends_map.
  all: apply (for_range_ends_at _ (len s2)); [|lia]; intros b s3 Hs3.
  - apply ends_map, Hd. lia.
  - eapply ends_bind; [apply (codec_ends (Codec := str_codec))|]. intros k s4 Hs4. apply (ends_weaken 1), ends_map, Hd; lia.
Qed.
Lemma item_value_ends s : ends 1 decode_item_data_value s.
Proof. unfold ends, decode_item_data_value. apply item_at_ends. lia. Qed.
#[export] Instance item_value_codec : Codec encode_item_data_value decode_item_data_value item_data_ok.
Proof.
  split; [|exact item_value_ends]. intros v Hv. destruct (item_codec_ok v Hv) as [He Hlen]. unfold encodes in *.
  destruct (encode_item_data_value v) as [bytes|e| |]; [|exact (He _ (Nat.le_refl _))..]. specialize (Hlen bytes eq_refl).
  intros rest. unfold decode_item_data_value. apply He. rewrite length_app. lia.
Qed.

(** A list in a list in a list: five bytes for each level. *)
Definition nested_item (levels : nat) : ItemDataValue := Nat.iter levels (fun v => DataList [v]) (DataByte 0).
Fixpoint nested_item_bytes (levels : nat) : list byte :=
  match levels with O => [x01; x00] | S levels => [x09; x01; x00; x00; x00] ++ nested_item_bytes levels end.
Lemma nested_item_written levels : encode_item_data_value (nested_item levels) = Ok (nested_item_bytes levels).
Proof.
  induction levels as [|levels IH]; [done|]. change (nested_item (S levels)) with (DataList [nested_item levels]).
  cbn [encode_item_data_value map]. rewrite IH. change (write_len (len [nested_item levels])) with (Ok (E := ProtocolCodecError) [x01; x00; x00; x00]).
  cbn. by rewrite !app_nil_r.
Qed.
Lemma nested_item_ok levels : item_data_ok (nested_item levels) = true.
Proof. induction levels as [|levels IH]; [done|].
  change (item_data_ok (nested_item levels) && true = true). by rewrite IH. Qed.
Lemma nested_item_length levels : len (nested_item_bytes levels) = 5 * Z.of_nat levels + 2.
Proof. induction levels as [|levels IH]; [done|]. cbn [nested_item_bytes]. rewrite length_app. cbn [length]. lia. Qed.
(** It needs one level of the stack more than it has lists. *)
Lemma nested_item_overflows levels rest : (decode_item_data_value_at levels (nested_item_bytes levels ++ rest)).2 = OutOfFuel.
Proof.
  revert rest. induction levels as [|levels IH]; intros rest; [done|]. specialize (IH rest).
  assert (parses read_u8 [x09] 9) as Htag by exact (codec_encodes (Codec := u8_codec) 9 eq_refl).
  assert (parses read_len [x01; x00; x00; x00] 1) as Hlen by (apply (encodes_len 1); lia).
  change (nested_item_bytes (S levels) ++ rest) with ([x09] ++ ([x01; x00; x00; x00] ++ (nested_item_bytes levels ++ rest))).
  cbn [decode_item_data_value_at]. unfold mbind, M_bind. rewrite Htag. cbv beta iota. rewrite Hlen. unfold for_range.
  cbn [range_loop]. unfold mbind, M_bind. change (1 <=? 0) with false. cbv beta iota.
  by destruct (decode_item_data_value_at levels _) as [s' r]; cbn in IH; subst r.
Qed.
Lemma nested_item_read levels : (decode_item_data_value (nested_item_bytes levels)).2 = Ok (nested_item levels).
Proof.
  pose proof (codec_encodes (Codec := item_value_codec) _ (nested_item_ok levels)) as H. rewrite nested_item_written in H.
  specialize (H []). rewrite app_nil_r in H. by rewrite H.
Qed.

(** ** Stacks and inventories *)

Definition encode_item_data_map (data : ItemDataMap) : Encode := write_map write_string encode_item_data_value data.
Definition decode_item_data_map : Decode ItemDataMap := read_map read_string decode_item_data_value.
Definition item_map_ok (data : ItemDataMap) : bool := map_ok utf8_ok item_data_ok data.
#[export] Instance item_map_codec : Codec encode_item_data_map decode_item_data_map item_map_ok := map_codec.

Definition encode_item_stack (stack : ItemStack) : Encode :=
  all_out [write_string (item_key stack); write_u8 (count stack); write_u16 (damage stack);
    encode_item_data_map (components stack); encode_item_data_map (extra stack)].
Definition decode_item_stack : Decode ItemStack :=
  key ← read_string; count ← read_u8; damage ← read_u16;
  components ← decode_item_data_map; extra ← decode_item_data_map;
  mret (mkItemStack key count damage components extra).
Definition stack_ok (stack : ItemStack) : bool :=
  utf8_ok (item_key stack) && unsigned_fits 8 (count stack) && unsigned_fits 16 (damage stack) &&
  item_map_ok (components stack) && item_map_ok (extra stack).
#[export] Instance stack_codec : Codec encode_item_stack decode_item_stack stack_ok.
Proof. codec_record encode_item_stack decode_item_stack stack_ok. Qed.

Definition encode_inventory_click_validation (validation : InventoryClickValidation) : Encode :=
  match validation with
  | StrictSlotEcho clicked_item => all_out [write_u8 1; encode_option encode_item_stack clicked_item]
  | Authoritative => all_out [write_u8 2]
  end.
Definition decode_inventory_click_validation : Decode InventoryClickValidation :=
  tag ← read_u8;
  match tag with
  | 1 => clicked_item ← decode_option decode_item_stack; mret (StrictSlotEcho clicked_item)
  | 2 => mret Authoritative
  | _ => throw (InvalidValue "invalid inventory click validation")
  end.
Definition validation_ok (validation : InventoryClickValidation) : bool :=
  match validation with StrictSlotEcho item => option_ok stack_ok item | Authoritative => true end.
#[export] Instance validation_codec :
  Codec encode_inventory_click_validation decode_inventory_click_validation validation_ok.
Proof. codec_enum encode_inventory_click_validation decode_inventory_click_validation validation_ok. Qed.

Definition encode_player_inventory (inventory : PlayerInventory) : Encode :=
  all_out [write_vec (encode_option encode_item_stack) (slots inventory); encode_option encode_item_stack (offhand inventory)].
Definition decode_player_inventory : Decode PlayerInventory :=
  slots ← read_vec (decode_option decode_item_stack); offhand ← decode_option decode_item_stack;
  mret (mkInventory slots offhand).
Definition player_inventory_ok (inventory : PlayerInventory) : bool :=
  forallb (option_ok stack_ok) (slots inventory) && option_ok stack_ok (offhand inventory).
#[export] Instance player_inventory_codec : Codec encode_player_inventory decode_player_inventory player_inventory_ok.
Proof. codec_record encode_player_inventory decode_player_inventory player_inventory_ok. Qed.

Definition encode_inventory_window_contents (contents : InventoryWindowContents) : Encode :=
  all_out [encode_player_inventory (wc_inventory contents); write_vec (encode_option encode_item_stack) (wc_local contents)].
Definition decode_inventory_window_contents : Decode InventoryWindowContents :=
  player_inventory ← decode_player_inventory; local_slots ← read_vec (decode_option decode_item_stack);
  mret (with_local_slots player_inventory local_slots).
Definition contents_ok (contents : InventoryWindowContents) : bool :=
  player_inventory_ok (wc_inventory contents) && forallb (option_ok stack_ok) (wc_local contents).
#[export] Instance contents_codec : Codec encode_inventory_window_contents decode_inventory_window_contents contents_ok.
Proof. codec_record encode_inventory_window_contents decode_inventory_window_contents contents_ok. Qed.
