(* ===== verification/PluginShared.v ===== *)
(** * The shared vocabulary across the plugin boundary
    ([crates/plugin/mc-plugin-contract/src/codec/__internal/shared.rs])

    The codec of identifiers, positions, blocks, chunks, worlds, players, capability announcements,
    commands and events.  A predicate [.._fits] says that a value is one of the Rust type: integers
    in their width, text in UTF-8, the values of a map under their own keys; a window-local slot
    fits a byte, the announced build tag is not empty. *)

From Stdlib Require Import Floats.SpecFloat.
From stdpp Require Import finite.
From S2P Require Import Prelude Bytes Parsing RevyCore VoxelModel VoxelItems VoxelContent VoxelState VoxelWindow VoxelEvents ProtoPacket JavaSlots JavaSession PluginBinary PluginInventory.

(** ** Enumerations *)

Definition encode_connection_phase (phase : ConnectionPhase) : Encode :=
  write_u8 (match phase with PhaseHandshaking => 1 | PhaseStatus => 2 | PhaseLogin => 3 | PhasePlay => 4 end).
Definition decode_connection_phase : Decode ConnectionPhase :=
  tag ← read_u8;
  match tag with
  | 1 => mret PhaseHandshaking | 2 => mret PhaseStatus | 3 => mret PhaseLogin | 4 => mret PhasePlay
  | _ => throw (InvalidValue "invalid connection phase")
  end.
#[export] Instance phase_codec : Codec encode_connection_phase decode_connection_phase any.
Proof. codec_tag encode_connection_phase decode_connection_phase. Qed.

Definition encode_dimension_id (dimension : DimensionId) : Encode := write_u8 (match dimension with Overworld => 1 end).
Definition decode_dimension_id : Decode DimensionId :=
  tag ← read_u8; match tag with 1 => mret Overworld | _ => throw (InvalidValue "invalid dimension id") end.
#[export] Instance dimension_codec : Codec encode_dimension_id decode_dimension_id any.
Proof. codec_tag encode_dimension_id decode_dimension_id. Qed.

Definition encode_interaction_hand (hand : InteractionHand) : Encode :=
  write_u8 (match hand with HandMain => 1 | HandOffhand => 2 end).
Definition decode_interaction_hand : Decode InteractionHand :=
  tag ← read_u8;
  match tag with 1 => mret HandMain | 2 => mret HandOffhand | _ => throw (InvalidValue "invalid interaction hand") end.
#[export] Instance hand_codec : Codec encode_interaction_hand decode_interaction_hand any.
Proof. codec_tag encode_interaction_hand decode_interaction_hand. Qed.

Definition encode_block_face (face : BlockFace) : Encode :=
  write_u8 (match face with Bottom => 1 | Top => 2 | North => 3 | South => 4 | West => 5 | East => 6 end).
Definition decode_block_face : Decode BlockFace :=
  tag ← read_u8;
  match tag with
  | 1 => mret Bottom | 2 => mret Top | 3 => mret North | 4 => mret South | 5 => mret West | 6 => mret East
  | _ => throw (InvalidValue "invalid block face")
  end.
#[export] Instance face_codec : Codec encode_block_face decode_block_face any.
Proof. codec_tag encode_block_face decode_block_face. Qed.

(** ** Identifiers and positions *)

(** The bytes of a [Uuid], which is big-endian. *)
Definition encode_player_id (player_id : PlayerId) : Encode := write_raw (to_be_bytes 16 player_id).
Definition decode_player_id : Decode PlayerId := bytes ← read_raw 16; mret (from_be_bytes bytes).
#[export] Instance player_id_codec : Codec encode_player_id decode_player_id (unsigned_fits 128).
Proof.
  split.
  - intros id Hid%unsigned_fits_spec. pose proof (parses_map _ from_be_bytes _ _ (parses_raw (to_be_bytes 16 id))) as H.
    by rewrite length_to_be_bytes, from_to_be_bytes, Z.mod_small in H.
  - intros s. apply ends_map, (ends_weaken 16), ends_raw; lia.
Qed.
Definition encode_entity_id (entity_id : EntityId) : Encode := write_i32 entity_id.
Definition decode_entity_id : Decode EntityId := read_i32.
#[export] Instance entity_id_codec : Codec encode_entity_id decode_entity_id (signed_fits 32) := i32_codec.
Definition encode_connection_id (connection_id : ConnectionId) : Encode := write_u64 connection_id.
Definition decode_connection_id : Decode ConnectionId := read_u64.
#[export] Instance connection_id_codec : Codec encode_connection_id decode_connection_id (unsigned_fits 64) := u64_codec.

Definition encode_block_pos (position : BlockPos) : Encode :=
  all_out [write_i32 (bx position); write_i32 (by_ position); write_i32 (bz position)].
Definition decode_block_pos : Decode BlockPos := x ← read_i32; y ← read_i32; z ← read_i32; mret (mkBlockPos x y z).
Definition block_pos_fits (p : BlockPos) : bool := signed_fits 32 (bx p) && signed_fits 32 (by_ p) && signed_fits 32 (bz p).
#[export] Instance block_pos_codec : Codec encode_block_pos decode_block_pos block_pos_fits.
Proof. codec_record encode_block_pos decode_block_pos block_pos_fits. Qed.

Definition encode_vec3 (v : Vec3) : Encode := all_out [write_f64 (vx v); write_f64 (vy v); write_f64 (vz v)].
Definition decode_vec3 : Decode Vec3 := x ← read_f64; y ← read_f64; z ← read_f64; mret (mkVec3 x y z).
Definition vec3_fits (v : Vec3) : bool := f64_ok (vx v) && f64_ok (vy v) && f64_ok (vz v).
#[export] Instance vec3_codec : Codec encode_vec3 decode_vec3 vec3_fits.
Proof. codec_record encode_vec3 decode_vec3 vec3_fits. Qed.

(** ** Capability announcements *)

Definition build_tag_prefix : string := "build-tag:".
(** [str::strip_prefix] *)
Fixpoint strip_prefix (p s : string) : option string :=
  match p, s with
  | EmptyString, _ => Some s
  | String a p, String b s => if Ascii.eqb a b then strip_prefix p s else None
  | String _ _, EmptyString => None
  end.

Section Announcements.
Context {C : Type} `{ClosedCapability C}.

Definition encode_capability_announcement (announcement : CapabilityAnnouncement C) : Encode :=
  all_out ([write_len (Z.of_nat (size (capabilities announcement)) +
        match build_tag announcement with Some _ => 1 | None => 0 end)] ++
    map (fun c => write_string (as_str c)) (set_iter (capabilities announcement)) ++
    match build_tag announcement with Some tag => [write_string (build_tag_prefix +:+ tag)] | None => [] end).
Definition read_capability (state : ClosedCapabilitySet C * option string) : Decode (ClosedCapabilitySet C * option string) :=
  token ← read_string;
  match strip_prefix build_tag_prefix token with
  | Some raw_build_tag =>
      if String.eqb raw_build_tag "" then throw (InvalidValue "build tag capability must not be empty")
      else match state.2 with
           | Some _ => throw (InvalidValue "duplicate build tag capability")
           | None => mret (state.1, Some raw_build_tag)
           end
  | None =>
      match parse token with
      | Ok capability =>
          let '(inserted, capabilities) := set_insert capability state.1 in
          if inserted then mret (capabilities, state.2) else throw (InvalidValue "duplicate plugin capability")
      | _ => throw (InvalidValue "invalid plugin capability")
      end
  end.
Definition decode_capability_announcement : Decode (CapabilityAnnouncement C) :=
  n ← read_len; '(capabilities, build_tag) ← for_range n read_capability (∅, None);
  mret (mkAnnouncement capabilities build_tag).
End Announcements.

(** A name of a capability is not a build tag. *)
Class TokenLaws (C : Type) `{CapabilityLaws C} : Prop := {
  as_str_token (c : C) : strip_prefix build_tag_prefix (as_str c) = None;
  as_str_utf8 (c : C) : utf8_ok (as_str c) = true
}.
#[export] Instance protocol_tokens : TokenLaws ProtocolCapability.
Proof. split; by intros []. Qed.
#[export] Instance gameplay_tokens : TokenLaws GameplayCapability.
Proof. split; by intros []. Qed.
#[export] Instance storage_tokens : TokenLaws StorageCapability.
Proof. split; by intros []. Qed.
#[export] Instance auth_tokens : TokenLaws AuthCapability.
Proof. split; by intros []. Qed.
#[export] Instance admin_surface_tokens : TokenLaws AdminSurfaceCapability.
Proof. split; by intros []. Qed.

Lemma strip_prefix_app p s : strip_prefix p (p +:+ s) = Some s.
Proof. induction p as [|a p IH]; [done|]. change (strip_prefix (String a p) (String a (p +:+ s)) = Some s). cbn [strip_prefix]. by rewrite Ascii.eqb_refl. Qed.
Lemma utf8_build_tag tag : utf8_ok tag = true -> utf8_ok (build_tag_prefix +:+ tag) = true.
Proof.
  unfold utf8_ok. rewrite !bool_decide_eq_true. intros [n Hn]. change (string_bytes (build_tag_prefix +:+ tag))
    with (string_bytes build_tag_prefix ++ string_bytes tag). exists (n + 10). cbn. rewrite Hn. cbn. f_equal. lia.
Qed.

Section AnnouncementCodec.
Context {C : Type} `{TokenLaws C}.

Definition announcement_fits (a : CapabilityAnnouncement C) : bool :=
  match build_tag a with Some tag => negb (String.eqb tag "") && utf8_ok tag | None => true end.
Definition announcement_tokens (a : CapabilityAnnouncement C) : list string :=
  map as_str (set_iter (capabilities a)) ++ match build_tag a with Some tag => [build_tag_prefix +:+ tag] | None => [] end.
(** What a token adds. *)
Definition add_token (state : ClosedCapabilitySet C * option string) (token : string) : ClosedCapabilitySet C * option string :=
  match strip_prefix build_tag_prefix token with
  | Some tag => (state.1, Some tag)
  | None => match parse token with Ok c => ({[c]} ∪ state.1, state.2) | _ => state end
  end.
Lemma add_names l : foldl add_token (∅, None) (map as_str l) = (list_to_set l, None).
Proof.
  induction l as [|c l IH] using rev_ind; [done|]. rewrite map_app, foldl_app, IH. cbn [map foldl]. unfold add_token.
  rewrite as_str_token, parse_as_str. cbn [fst snd]. f_equal. set_solver.
Qed.
Lemma add_tokens a : foldl add_token (∅, None) (announcement_tokens a) = (capabilities a, build_tag a).
Proof.
  unfold announcement_tokens. rewrite foldl_app, add_names.
  assert (list_to_set (set_iter (capabilities a)) = capabilities a) as ->.
  { apply set_eq. intros c. by rewrite elem_of_list_to_set, elem_of_set_iter. }
  destruct (build_tag a) as [tag|]; [|done]. cbn [foldl]. unfold add_token. by rewrite strip_prefix_app.
Qed.
Lemma length_tokens a : len (announcement_tokens a) =
  Z.of_nat (size (capabilities a)) + match build_tag a with Some _ => 1 | None => 0 end.
Proof.
  unfold announcement_tokens. rewrite length_app, length_map, length_set_iter. destruct (build_tag a); cbn [length]; lia.
Qed.
(** Reading a token after those before it. *)
Lemma name_read l pre token suf : NoDup l -> map as_str l = pre ++ token :: suf ->
  encodes (write_string token) (read_capability (foldl add_token (∅, None) pre)) (add_token (foldl add_token (∅, None) pre) token).
Proof.
  intros Hl E. apply map_eq_app in E as (l1 & l2 & -> & <- & E). apply map_eq_cons in E as (c & l3 & -> & <- & _).
  rewrite add_names. unfold read_capability. eapply encodes_bind; [apply codec_encodes, as_str_utf8|]. intros s.
  unfold add_token. rewrite as_str_token, parse_as_str. unfold set_insert. cbn [fst snd].
  rewrite bool_decide_false; [done|]. rewrite elem_of_list_to_set. intros Hc. apply NoDup_app in Hl as (_ & Hd & _).
  apply (Hd c Hc). set_solver.
Qed.
Lemma token_read a pre token suf : announcement_fits a = true -> announcement_tokens a = pre ++ token :: suf ->
  encodes (write_string token) (read_capability (foldl add_token (∅, None) pre)) (add_token (foldl add_token (∅, None) pre) token) /\
  utf8_ok token = true.
Proof.
  unfold announcement_fits, announcement_tokens. intros Ha E.
  assert (utf8_ok token = true) as Hu.
  { assert (token ∈ pre ++ token :: suf) as Hin by set_solver. rewrite <- E in Hin. apply elem_of_app in Hin as [Hin|Hin].
    - apply list_elem_of_fmap in Hin as (c & -> & _). apply as_str_utf8.
    - destruct (build_tag a) as [tag|]; [|by apply not_elem_of_nil in Hin]. apply list_elem_of_singleton in Hin as ->.
      apply utf8_build_tag. split_fits Ha. done. }
  split; [|done]. pose proof (set_iter_nodup (capabilities a)) as Hl. destruct (build_tag a) as [tag|].
  - split_fits Ha. destruct suf as [|t suf _] using rev_ind.
    + apply app_inj_tail in E as [<- <-]. rewrite add_names. unfold read_capability.
      eapply encodes_bind; [by apply codec_encodes|]. intros s. unfold add_token. rewrite strip_prefix_app. cbn [fst snd].
      by destruct (String.eqb tag "").
    + rewrite app_comm_cons, app_assoc in E. apply app_inj_tail in E as [E _]. by eapply name_read.
  - rewrite app_nil_r in E. by eapply name_read.
Qed.
#[export] Instance announcement_codec :
  Codec encode_capability_announcement decode_capability_announcement announcement_fits.
Proof.
  split.
  - intros a Ha. unfold encode_capability_announcement, decode_capability_announcement.
    rewrite <- length_tokens. eapply encodes_cons; [apply encodes_len; lia|]. cbv beta.
    assert (map (fun c => write_string (as_str c)) (set_iter (capabilities a)) ++
      match build_tag a with Some tag => [write_string (build_tag_prefix +:+ tag)] | None => [] end =
      map write_string (announcement_tokens a)) as ->.
    { unfold announcement_tokens. rewrite map_app, map_map. by destruct (build_tag a). }
    apply (encodes_bind _ _ _ (foldl add_token (∅, None) (announcement_tokens a))).
    + apply for_range_encodes. intros pre token suf E. destruct (token_read a pre token suf Ha E) as [Ht Hu]. split; [exact Ht|].
      intros bytes Eb. exact (codec_length write_string read_string utf8_ok token bytes Hu Eb).
    + intros s. rewrite add_tokens. by destruct a.
  - intros s. unfold decode_capability_announcement. apply ends_then; [apply ends_len|]. intros n s1. apply ends_then0; [|intros [] ?; apply ends_ret].
    apply for_range_ends. intros state s2. unfold read_capability. apply ends_then; [apply codec_ends|]. intros token s3.
    destruct (strip_prefix _ _) as [tag|].
    + destruct (String.eqb _ _); [apply ends_throw|]. destruct (state.2); [apply ends_throw|apply ends_ret].
    + destruct (parse token); try apply ends_throw. destruct (set_insert _ _) as [[] ?]; [apply ends_ret|apply ends_throw].
Qed.
End AnnouncementCodec.

(** ** Blocks, items and chunks *)

Definition encode_block_state (block_state : BlockState) : Encode :=
  all_out [write_string (bs_key block_state); write_map write_string write_string (properties block_state)].
Definition decode_block_state : Decode BlockState :=
  key ← read_string; properties ← read_map read_string read_string; mret (mkBlockState key properties).
Definition block_state_fits (b : BlockState) : bool := utf8_ok (bs_key b) && map_ok utf8_ok utf8_ok (properties b).
#[export] Instance block_state_codec : Codec encode_block_state decode_block_state block_state_fits.
Proof. codec_record encode_block_state decode_block_state block_state_fits. Qed.
Definition encode_optional_block_state (block_state : option BlockState) : Encode := encode_option encode_block_state block_state.
Definition decode_optional_block_state : Decode (option BlockState) := decode_option decode_block_state.
#[export] Instance optional_block_codec :
  Codec encode_optional_block_state decode_optional_block_state (option_ok block_state_fits) :=
  option_codec encode_block_state decode_block_state block_state_fits.

Definition encode_dropped_item_snapshot (item : DroppedItemSnapshot) : Encode :=
  all_out [encode_item_stack (di_item item); encode_vec3 (di_position item); encode_vec3 (di_velocity item)].
Definition decode_dropped_item_snapshot : Decode DroppedItemSnapshot :=
  item ← decode_item_stack; position ← decode_vec3; velocity ← decode_vec3; mret (mkDropped item position velocity).
Definition dropped_fits (d : DroppedItemSnapshot) : bool :=
  stack_ok (di_item d) && vec3_fits (di_position d) && vec3_fits (di_velocity d).
#[export] Instance dropped_codec : Codec encode_dropped_item_snapshot decode_dropped_item_snapshot dropped_fits.
Proof. codec_record encode_dropped_item_snapshot decode_dropped_item_snapshot dropped_fits. Qed.

Definition encode_block_entity_state (block_entity : BlockEntityState) : Encode :=
  match block_entity with
  | BEContainer c =>
      all_out [write_u8 3; write_string (be_kind c); write_vec (encode_option encode_item_stack) (be_slots c);
        write_map write_string write_i16 (be_properties c)]
  end.
(** The tags 1 and 2 are the chest and the furnace of an older format. *)
Definition decode_block_entity_state : Decode BlockEntityState :=
  tag ← read_u8;
  match tag with
  | 1 =>
      slots ← read_vec (decode_option decode_item_stack); mret (BEContainer (mkBlockEntity "legacy:chest" slots ∅))
  | 2 =>
      input ← decode_option decode_item_stack; fuel ← decode_option decode_item_stack; output ← decode_option decode_item_stack;
      burn_left ← read_i16; burn_max ← read_i16; cook_progress ← read_i16; cook_total ← read_i16;
      mret (BEContainer (mkBlockEntity "legacy:furnace" [input; fuel; output]
        (<["legacy:furnace.cook_total" := cook_total]> (<["legacy:furnace.cook_progress" := cook_progress]>
        (<["legacy:furnace.burn_max" := burn_max]> (<["legacy:furnace.burn_left" := burn_left]> ∅))))))
  | 3 =>
      kind ← read_string; slots ← read_vec (decode_option decode_item_stack); properties ← read_map read_string read_i16;
      mret (BEContainer (mkBlockEntity kind slots properties))
  | _ => throw (InvalidValue "invalid block entity state")
  end.
Definition block_entity_fits (e : BlockEntityState) : bool :=
  match e with
  | BEContainer c => utf8_ok (be_kind c) && forallb (option_ok stack_ok) (be_slots c) &&
      map_ok utf8_ok (signed_fits 16) (be_properties c)
  end.
#[export] Instance block_entity_codec : Codec encode_block_entity_state decode_block_entity_state block_entity_fits.
Proof. codec_enum encode_block_entity_state decode_block_entity_state block_entity_fits. destruct c. apply encodes_nil. Qed.

(** [section.iter_blocks()], in the order of the indices. *)
Definition encode_chunk_section (section : ChunkSection) : Encode :=
  all_out [write_i32 (sec_y section); write_map write_u16 encode_block_state (blocks section)].
Definition read_section_block (section : ChunkSection) : Decode ChunkSection :=
  index ← read_u16; state ← decode_block_state;
  let '(x, y, z) := expand_block_index index in
  mret (section_set_block x y z (Some state) section).
Definition decode_chunk_section : Decode ChunkSection :=
  section_y ← read_i32; n ← read_len; for_range n read_section_block (section_new section_y).
Definition section_fits (section : ChunkSection) : bool :=
  signed_fits 32 (sec_y section) && map_ok (fun i => (0 <=? i) && (i <? 4096)) block_state_fits (blocks section).
Lemma expand_index i : (0 <=? i) && (i <? 4096) = true ->
  let '(x, y, z) := expand_block_index i in section_index x y z = i.
Proof.
  rewrite andb_true_iff, Z.leb_le, Z.ltb_lt. intros Hi. destruct (block_addressing (mkBlockPos 0 0 0) (mkBlockPos 0 0 0) i) as (_ & _ & _ & H).
  destruct (expand_block_index i) as [[x y] z]. rewrite H. unfold index_from_raw. rewrite land_4095. by apply Z.mod_small.
Qed.
Lemma section_blocks_fold y l m :
  foldl (fun s (e : Z * BlockState) => mkSection (sec_y s) (<[e.1 := e.2]> (blocks s))) (mkSection y m) l =
  mkSection y (foldl (fun m e => <[e.1 := e.2]> m) m l).
Proof. revert m. induction l as [|e l IH]; intros m; [done|]. cbn [foldl]. by rewrite <- IH. Qed.
Lemma section_block_codec s e : (0 <=? e.1) && (e.1 <? 4096) && block_state_fits e.2 = true ->
  encodes (all_out [write_u16 e.1; encode_block_state e.2]) (read_section_block s) (mkSection (sec_y s) (<[e.1 := e.2]> (blocks s))).
Proof.
  destruct e as [i state]. cbn [fst snd]. intros [Hi Hs]%andb_true_iff. unfold read_section_block.
  assert (unsigned_fits 16 i = true) by (apply unsigned_fits_spec; rewrite andb_true_iff, Z.leb_le, Z.ltb_lt in Hi; lia).
  pose proof (expand_index i Hi) as He. repeat encode_step.
  destruct (expand_block_index i) as [[x y] z]. unfold section_set_block. rewrite He. apply encodes_nil.
Qed.
#[export] Instance section_codec : Codec encode_chunk_section decode_chunk_section section_fits.
Proof.
  split.
  - intros s Hs. unfold section_fits in Hs. split_fits Hs. unfold encode_chunk_section, decode_chunk_section. encode_step.
    apply encodes_last. unfold write_map. rewrite <- length_entries. eapply encodes_cons; [apply encodes_len; lia|]. cbv beta. apply encodes_last.
    assert (foldl (fun s (e : Z * BlockState) => mkSection (sec_y s) (<[e.1 := e.2]> (blocks s))) (section_new (sec_y s)) (entries (blocks s)) = s)
      as Es by (unfold section_new; rewrite section_blocks_fold, foldl_insert_entries; by destruct s).
    refine (eq_ind _ (encodes _ _) _ _ Es).
    apply for_range_encodes. intros pre e suf E. match goal with H : map_ok _ _ _ = true |- _ => pose proof (forallb_entries _ _ _ _ _ H E) as He end.
    cbn beta in He. split; [by apply section_block_codec|]. intros bytes Eb. apply andb_true_iff in He as [Hi _].
    apply out_two in Eb as (b1 & b2 & E1 & _ & ->). rewrite andb_true_iff, Z.leb_le, Z.ltb_lt in Hi.
    assert (unsigned_fits 16 e.1 = true) as Hu by (apply unsigned_fits_spec; lia).
    pose proof (codec_length write_u16 read_u16 (unsigned_fits 16) e.1 b1 Hu E1). lia.
  - intros bytes. unfold decode_chunk_section. do 2 ends_step. apply for_range_ends. intros section s1. unfold read_section_block. repeat ends_step.
Qed.

Definition encode_chunk_column (chunk : ChunkColumn) : Encode :=
  all_out [write_i32 (cx (col_pos chunk)); write_i32 (cz (col_pos chunk));
    write_values encode_chunk_section (sections chunk); write_bytes (map Z_byte (biomes chunk))].
Definition decode_chunk_column : Decode ChunkColumn :=
  x ← read_i32; z ← read_i32; sections ← read_values sec_y decode_chunk_section; biomes ← read_byte_values;
  mret (mkColumn (mkChunkPos x z) sections biomes).
Definition column_fits (chunk : ChunkColumn) : bool :=
  signed_fits 32 (cx (col_pos chunk)) && signed_fits 32 (cz (col_pos chunk)) &&
  values_ok sec_y section_fits (sections chunk) && forallb byte_fits (biomes chunk).
#[export] Instance column_codec : Codec encode_chunk_column decode_chunk_column column_fits.
Proof.
  codec_record encode_chunk_column decode_chunk_column column_fits.
  destruct col_pos. apply encodes_nil.
Qed.

(** ** Worlds and players *)

Definition encode_world_meta (meta : WorldMeta) : Encode :=
  all_out [write_string (wm_level_name meta); write_u64 (wm_seed meta); encode_block_pos (wm_spawn meta);
    encode_dimension_id (wm_dimension meta); write_i64 (age meta); write_i64 (time meta); write_string (level_type meta);
    write_u8 (wm_game_mode meta); write_u8 (wm_difficulty meta); write_u32 (wm_max_players meta)].
Definition decode_world_meta : Decode WorldMeta :=
  level_name ← read_string; seed ← read_u64; spawn ← decode_block_pos; dimension ← decode_dimension_id;
  age ← read_i64; time ← read_i64; level_type ← read_string; game_mode ← read_u8; difficulty ← read_u8;
  max_players ← read_u32;
  mret (mkWorldMeta level_name seed spawn dimension age time level_type game_mode difficulty max_players).
Definition world_meta_fits (m : WorldMeta) : bool :=
  utf8_ok (wm_level_name m) && unsigned_fits 64 (wm_seed m) && block_pos_fits (wm_spawn m) &&
  signed_fits 64 (age m) && signed_fits 64 (time m) && utf8_ok (level_type m) && unsigned_fits 8 (wm_game_mode m) &&
  unsigned_fits 8 (wm_difficulty m) && unsigned_fits 32 (wm_max_players m).
#[export] Instance world_meta_codec : Codec encode_world_meta decode_world_meta world_meta_fits.
Proof. codec_record encode_world_meta decode_world_meta world_meta_fits. Qed.

Definition encode_player_snapshot (player : PlayerSnapshot) : Encode :=
  all_out [encode_player_id (p_id player); write_string (username player); encode_vec3 (position player);
    write_f32 (yaw player); write_f32 (pitch player); write_bool (on_ground player);
    encode_dimension_id (dimension player); write_f32 (health player); write_i16 (food player);
    write_f32 (food_saturation player); encode_player_inventory (inventory player);
    write_u8 (selected_hotbar_slot player)].
Definition decode_player_snapshot : Decode PlayerSnapshot :=
  id ← decode_player_id; username ← read_string; position ← decode_vec3; yaw ← read_f32; pitch ← read_f32;
  on_ground ← read_bool; dimension ← decode_dimension_id; health ← read_f32; food ← read_i16;
  food_saturation ← read_f32; inventory ← decode_player_inventory; selected_hotbar_slot ← read_u8;
  mret (mkSnapshot id username position yaw pitch on_ground dimension health food food_saturation inventory
    selected_hotbar_slot).
Definition player_snapshot_fits (p : PlayerSnapshot) : bool :=
  unsigned_fits 128 (p_id p) && utf8_ok (username p) && vec3_fits (position p) && f32_ok (yaw p) && f32_ok (pitch p) &&
  f32_ok (health p) && signed_fits 16 (food p) && f32_ok (food_saturation p) && player_inventory_ok (inventory p) &&
  unsigned_fits 8 (selected_hotbar_slot p).
#[export] Instance player_snapshot_codec : Codec encode_player_snapshot decode_player_snapshot player_snapshot_fits.
Proof. codec_record encode_player_snapshot decode_player_snapshot player_snapshot_fits. Qed.

Definition encode_world_snapshot (snapshot : WorldSnapshot) : Encode :=
  all_out [encode_world_meta (snap_meta snapshot); write_values encode_chunk_column (snap_chunks snapshot);
    write_map encode_block_pos encode_block_entity_state (snap_block_entities snapshot);
    write_values encode_player_snapshot (snap_players snapshot)].
Definition decode_world_snapshot : Decode WorldSnapshot :=
  meta ← decode_world_meta; chunks ← read_values col_pos decode_chunk_column;
  block_entities ← read_map decode_block_pos decode_block_entity_state;
  players ← read_values p_id decode_player_snapshot;
  mret (mkWorldSnapshot meta chunks block_entities players).
Definition world_snapshot_fits (s : WorldSnapshot) : bool :=
  world_meta_fits (snap_meta s) && values_ok col_pos column_fits (snap_chunks s) &&
  map_ok block_pos_fits block_entity_fits (snap_block_entities s) && values_ok p_id player_snapshot_fits (snap_players s).
#[export] Instance world_snapshot_codec : Codec encode_world_snapshot decode_world_snapshot world_snapshot_fits.
Proof. codec_record encode_world_snapshot decode_world_snapshot world_snapshot_fits. Qed.

(** ** Commands *)

Definition encode_gameplay_command (command : GameplayCommand) : Encode :=
  match command with
  | MoveIntent player_id position yaw pitch on_ground =>
      all_out [write_u8 1; encode_player_id player_id; encode_option encode_vec3 position; encode_option write_f32 yaw;
        encode_option write_f32 pitch; write_bool on_ground]
  | SetHeldSlot player_id slot => all_out [write_u8 2; encode_player_id player_id; write_i16 slot]
  | CreativeInventorySet player_id slot stack =>
      all_out [write_u8 3; encode_player_id player_id; encode_inventory_slot slot; encode_option encode_item_stack stack]
  | DigBlock player_id position status face =>
      all_out [write_u8 4; encode_player_id player_id; encode_block_pos position; write_u8 status; encode_option encode_block_face face]
  | PlaceBlock player_id hand position face held_item =>
      all_out [write_u8 5; encode_player_id player_id; encode_interaction_hand hand; encode_block_pos position;
        encode_option encode_block_face face; encode_option encode_item_stack held_item]
  | UseBlock player_id hand position face held_item =>
      all_out [write_u8 6; encode_player_id player_id; encode_interaction_hand hand; encode_block_pos position;
        encode_option encode_block_face face; encode_option encode_item_stack held_item]
  end.
Definition decode_gameplay_command : Decode GameplayCommand :=
  tag ← read_u8;
  match tag with
  | 1 =>
      player_id ← decode_player_id; position ← decode_option decode_vec3; yaw ← decode_option read_f32;
      pitch ← decode_option read_f32; on_ground ← read_bool; mret (MoveIntent player_id position yaw pitch on_ground)
  | 2 => player_id ← decode_player_id; slot ← read_i16; mret (SetHeldSlot player_id slot)
  | 3 =>
      player_id ← decode_player_id; slot ← decode_inventory_slot; stack ← decode_option decode_item_stack;
      mret (CreativeInventorySet player_id slot stack)
  | 4 =>
      player_id ← decode_player_id; position ← decode_block_pos; status ← read_u8; face ← decode_option decode_block_face;
      mret (DigBlock player_id position status face)
  | 5 =>
      player_id ← decode_player_id; hand ← decode_interaction_hand; position ← decode_block_pos;
      face ← decode_option decode_block_face; held_item ← decode_option decode_item_stack;
      mret (PlaceBlock player_id hand position face held_item)
  | 6 =>
      player_id ← decode_player_id; hand ← decode_interaction_hand; position ← decode_block_pos;
      face ← decode_option decode_block_face; held_item ← decode_option decode_item_stack;
      mret (UseBlock player_id hand position face held_item)
  | _ => throw (InvalidValue "invalid gameplay command tag")
  end.
Definition gameplay_command_fits (c : GameplayCommand) : bool :=
  match c with
  | MoveIntent p position yaw pitch _ =>
      unsigned_fits 128 p && option_ok vec3_fits position && option_ok f32_ok yaw && option_ok f32_ok pitch
  | SetHeldSlot p slot => unsigned_fits 128 p && signed_fits 16 slot
  | CreativeInventorySet p slot stack => unsigned_fits 128 p && slot_ok slot && option_ok stack_ok stack
  | DigBlock p position status _ => unsigned_fits 128 p && block_pos_fits position && unsigned_fits 8 status
  | PlaceBlock p _ position _ held_item | UseBlock p _ position _ held_item =>
      unsigned_fits 128 p && block_pos_fits position && option_ok stack_ok held_item
  end.
#[export] Instance gameplay_command_codec : Codec encode_gameplay_command decode_gameplay_command gameplay_command_fits.
Proof. codec_enum encode_gameplay_command decode_gameplay_command gameplay_command_fits. Qed.

Definition encode_runtime_command (command : RuntimeCommand) : Encode :=
  match command with
  | RuntimeCore (LoginStart connection_id username player_id) =>
      all_out [write_u8 1; encode_connection_id connection_id; write_string username; encode_player_id player_id]
  | RuntimeCore (UpdateClientView player_id view_distance) =>
      all_out [write_u8 2; encode_player_id player_id; write_u8 view_distance]
  | RuntimeSession (ClientStatus player_id action_id) => all_out [write_u8 3; encode_player_id player_id; write_i8 action_id]
  | RuntimeCore (Gameplay command) => all_out [write_u8 4; encode_gameplay_command command]
  | RuntimeCore (KeepAliveResponse player_id keep_alive_id) =>
      all_out [write_u8 5; encode_player_id player_id; write_i32 keep_alive_id]
  | RuntimeCore (CommandInventoryClick player_id transaction target button validation) =>
      all_out [write_u8 11; encode_player_id player_id; encode_inventory_transaction_context transaction;
        encode_inventory_click_target target; encode_inventory_click_button button;
        encode_inventory_click_validation validation]
  | RuntimeSession (InventoryTransactionAck player_id transaction accepted) =>
      all_out [write_u8 12; encode_player_id player_id; encode_inventory_transaction_context transaction; write_bool accepted]
  | RuntimeCore (CommandCloseContainer player_id window_id) =>
      all_out [write_u8 13; encode_player_id player_id; write_u8 window_id]
  | RuntimeCore (CommandDisconnect player_id) => all_out [write_u8 10; encode_player_id player_id]
  end.
Definition decode_runtime_command : Decode RuntimeCommand :=
  tag ← read_u8;
  match tag with
  | 1 =>
      connection_id ← decode_connection_id; username ← read_string; player_id ← decode_player_id;
      mret (RuntimeCore (LoginStart connection_id username player_id))
  | 2 =>
      player_id ← decode_player_id; view_distance ← read_u8; mret (RuntimeCore (UpdateClientView player_id view_distance))
  | 3 => player_id ← decode_player_id; action_id ← read_i8; mret (RuntimeSession (ClientStatus player_id action_id))
  | 4 => command ← decode_gameplay_command; mret (RuntimeCore (Gameplay command))
  | 5 => player_id ← decode_player_id; keep_alive_id ← read_i32; mret (RuntimeCore (KeepAliveResponse player_id keep_alive_id))
  | 11 =>
      player_id ← decode_player_id; transaction ← decode_inventory_transaction_context;
      target ← decode_inventory_click_target; button ← decode_inventory_click_button;
      validation ← decode_inventory_click_validation;
      mret (RuntimeCore (CommandInventoryClick player_id transaction target button validation))
  | 12 =>
      player_id ← decode_player_id; transaction ← decode_inventory_transaction_context; accepted ← read_bool;
      mret (RuntimeSession (InventoryTransactionAck player_id transaction accepted))
  | 13 => player_id ← decode_player_id; window_id ← read_u8; mret (RuntimeCore (CommandCloseContainer player_id window_id))
  | 10 => player_id ← decode_player_id; mret (RuntimeCore (CommandDisconnect player_id))
  | _ => throw (InvalidValue "invalid runtime command tag")
  end.
Definition runtime_command_fits (c : RuntimeCommand) : bool :=
  match c with
  | RuntimeCore (LoginStart connection_id name p) => unsigned_fits 64 connection_id && utf8_ok name && unsigned_fits 128 p
  | RuntimeCore (UpdateClientView p v) => unsigned_fits 128 p && unsigned_fits 8 v
  | RuntimeSession (ClientStatus p a) => unsigned_fits 128 p && signed_fits 8 a
  | RuntimeCore (Gameplay c) => gameplay_command_fits c
  | RuntimeCore (KeepAliveResponse p k) => unsigned_fits 128 p && signed_fits 32 k
  | RuntimeCore (CommandInventoryClick p transaction target _ validation) =>
      unsigned_fits 128 p && transaction_ok transaction && target_ok target && validation_ok validation
  | RuntimeSession (InventoryTransactionAck p transaction _) => unsigned_fits 128 p && transaction_ok transaction
  | RuntimeCore (CommandCloseContainer p w) => unsigned_fits 128 p && unsigned_fits 8 w
  | RuntimeCore (CommandDisconnect p) => unsigned_fits 128 p
  end.
#[export] Instance runtime_command_codec : Codec encode_runtime_command decode_runtime_command runtime_command_fits.
Proof.
  split; [|intros ?; unfold decode_runtime_command; repeat ends_step]. intros c Hok.
  unfold encode_runtime_command, decode_runtime_command. unfold runtime_command_fits in Hok.
  destruct c as [[]|[]]; cbv beta iota in Hok |- *; split_fits Hok; repeat encode_step.
Qed.

(** ** Events *)

Definition encode_core_event (event : CoreEvent) : Encode :=
  match event with
  | LoginAccepted player_id entity_id player =>
      all_out [write_u8 1; encode_player_id player_id; encode_entity_id entity_id; encode_player_snapshot player]
  | PlayBootstrap player entity_id world_meta view_distance =>
      all_out [write_u8 2; encode_player_snapshot player; encode_entity_id entity_id; encode_world_meta world_meta;
        write_u8 view_distance]
  | ChunkBatch chunks => all_out [write_u8 3; write_vec encode_chunk_column chunks]
  | EntitySpawned entity_id player => all_out [write_u8 4; encode_entity_id entity_id; encode_player_snapshot player]
  | EntityMoved entity_id player => all_out [write_u8 5; encode_entity_id entity_id; encode_player_snapshot player]
  | DroppedItemSpawned entity_id item => all_out [write_u8 18; encode_entity_id entity_id; encode_dropped_item_snapshot item]
  | BlockBreakingProgress breaker_entity_id position stage duration_ms =>
      all_out [write_u8 19; encode_entity_id breaker_entity_id; encode_block_pos position; encode_option write_u8 stage;
        write_u64 duration_ms]
  | EntityDespawned entity_ids => all_out [write_u8 6; write_vec encode_entity_id entity_ids]
  | InventoryContents window_id container contents =>
      all_out [write_u8 7; write_u8 window_id; encode_inventory_container container; encode_inventory_window_contents contents]
  | ContainerOpened window_id container title =>
      all_out [write_u8 15; write_u8 window_id; encode_inventory_container container; write_string title]
  | ContainerClosed window_id => all_out [write_u8 16; write_u8 window_id]
  | ContainerPropertyChanged window_id property value =>
      all_out [write_u8 17; write_u8 window_id; write_string property; write_i16 value]
  | InventorySlotChanged window_id container slot stack =>
      all_out [write_u8 8; write_u8 window_id; encode_inventory_container container; encode_inventory_slot slot;
        encode_option encode_item_stack stack]
  | InventoryTransactionProcessed transaction accepted =>
      all_out [write_u8 14; encode_inventory_transaction_context transaction; write_bool accepted]
  | CursorChanged stack => all_out [write_u8 13; encode_option encode_item_stack stack]
  | SelectedHotbarSlotChanged slot => all_out [write_u8 9; write_u8 slot]
  | BlockChanged position block => all_out [write_u8 10; encode_block_pos position; encode_optional_block_state block]
  | KeepAliveRequested keep_alive_id => all_out [write_u8 11; write_i32 keep_alive_id]
  | DisconnectEvent reason => all_out [write_u8 12; write_string reason]
  end.
Definition decode_core_event : Decode CoreEvent :=
  tag ← read_u8;
  match tag with
  | 1 =>
      player_id ← decode_player_id; entity_id ← decode_entity_id; player ← decode_player_snapshot;
      mret (LoginAccepted player_id entity_id player)
  | 2 =>
      player ← decode_player_snapshot; entity_id ← decode_entity_id; world_meta ← decode_world_meta;
      view_distance ← read_u8; mret (PlayBootstrap player entity_id world_meta view_distance)
  | 3 => chunks ← read_vec decode_chunk_column; mret (ChunkBatch chunks)
  | 4 => entity_id ← decode_entity_id; player ← decode_player_snapshot; mret (EntitySpawned entity_id player)
  | 5 => entity_id ← decode_entity_id; player ← decode_player_snapshot; mret (EntityMoved entity_id player)
  | 18 => entity_id ← decode_entity_id; item ← decode_dropped_item_snapshot; mret (DroppedItemSpawned entity_id item)
  | 19 =>
      breaker_entity_id ← decode_entity_id; position ← decode_block_pos; stage ← decode_option read_u8;
      duration_ms ← read_u64; mret (BlockBreakingProgress breaker_entity_id position stage duration_ms)
  | 6 => entity_ids ← read_vec decode_entity_id; mret (EntityDespawned entity_ids)
  | 7 =>
      window_id ← read_u8; container ← decode_inventory_container; contents ← decode_inventory_window_contents;
      mret (InventoryContents window_id container contents)
  | 15 =>
      window_id ← read_u8; container ← decode_inventory_container; title ← read_string;
      mret (ContainerOpened window_id container title)
  | 16 => window_id ← read_u8; mret (ContainerClosed window_id)
  | 17 =>
      window_id ← read_u8; property ← read_string; value ← read_i16; mret (ContainerPropertyChanged window_id property value)
  | 8 =>
      window_id ← read_u8; container ← decode_inventory_container; slot ← decode_inventory_slot;
      stack ← decode_option decode_item_stack; mret (InventorySlotChanged window_id container slot stack)
  | 14 =>
      transaction ← decode_inventory_transaction_context; accepted ← read_bool;
      mret (InventoryTransactionProcessed transaction accepted)
  | 13 => stack ← decode_option decode_item_stack; mret (CursorChanged stack)
  | 9 => slot ← read_u8; mret (SelectedHotbarSlotChanged slot)
  | 10 => position ← decode_block_pos; block ← decode_optional_block_state; mret (BlockChanged position block)
  | 11 => keep_alive_id ← read_i32; mret (KeepAliveRequested keep_alive_id)
  | 12 => reason ← read_string; mret (DisconnectEvent reason)
  | _ => throw (InvalidValue "invalid core event tag")
  end.
Definition core_event_fits (e : CoreEvent) : bool :=
  match e with
  | LoginAccepted p e player => unsigned_fits 128 p && signed_fits 32 e && player_snapshot_fits player
  | PlayBootstrap player e meta v => player_snapshot_fits player && signed_fits 32 e && world_meta_fits meta && unsigned_fits 8 v
  | ChunkBatch chunks => forallb column_fits chunks
  | EntitySpawned e player | EntityMoved e player => signed_fits 32 e && player_snapshot_fits player
  | DroppedItemSpawned e item => signed_fits 32 e && dropped_fits item
  | BlockBreakingProgress e position stage duration =>
      signed_fits 32 e && block_pos_fits position && option_ok (unsigned_fits 8) stage && unsigned_fits 64 duration
  | EntityDespawned ids => forallb (signed_fits 32) ids
  | InventoryContents w container contents => unsigned_fits 8 w && utf8_ok container && contents_ok contents
  | ContainerOpened w container title => unsigned_fits 8 w && utf8_ok container && utf8_ok title
  | ContainerClosed w => unsigned_fits 8 w
  | ContainerPropertyChanged w property value => unsigned_fits 8 w && utf8_ok property && signed_fits 16 value
  | InventorySlotChanged w container slot stack =>
      unsigned_fits 8 w && utf8_ok container && slot_ok slot && option_ok stack_ok stack
  | InventoryTransactionProcessed transaction _ => transaction_ok transaction
  | CursorChanged stack => option_ok stack_ok stack
  | SelectedHotbarSlotChanged slot => unsigned_fits 8 slot
  | BlockChanged position block => block_pos_fits position && option_ok block_state_fits block
  | KeepAliveRequested id => signed_fits 32 id
  | DisconnectEvent reason => utf8_ok reason
  end.
#[export] Instance core_event_codec : Codec encode_core_event decode_core_event core_event_fits.
Proof. codec_enum encode_core_event decode_core_event core_event_fits. Qed.
