(* ===== verification/PluginProtocol.v ===== *)
(** * Protocol plugins: requests and responses
    ([crates/plugin/mc-plugin-contract/src/codec]: protocol.rs, __internal/protocol_semantic.rs)

    What the host asks of a protocol plugin and what the plugin answers, as payloads and as
    messages.  A response is read for the request it answers. *)

From stdpp Require Import finite.
From S2P Require Import Prelude Bytes Parsing RevyCore VoxelModel VoxelItems VoxelState VoxelEvents ProtoPacket JavaSession PluginBinary PluginInventory PluginShared.

(** ** Vocabulary *)

Record BedrockListenerDescriptor : Type := mkListener { game_version : string; raknet_version : Z }.
Record PlayEncodingContext : Type := mkPlayContext { pc_player_id : PlayerId; pc_entity_id : EntityId }.
Record WireFrameDecodeResult : Type := mkDecodedFrame { df_frame : list byte; bytes_consumed : Z }.

Inductive ProtocolOpCode : Set :=
| OpProtocolDescribe | OpProtocolDescribeBedrockListener | OpProtocolCapabilitySet | OpProtocolTryRoute
| OpProtocolDecodeStatus | OpProtocolDecodeLogin | OpProtocolEncodeStatusResponse | OpProtocolEncodeStatusPong
| OpProtocolEncodeDisconnect | OpProtocolEncodeEncryptionRequest | OpProtocolEncodeNetworkSettings
| OpProtocolEncodeLoginSuccess | OpProtocolDecodePlay | OpProtocolEncodePlayEvent
| OpProtocolExportSessionState | OpProtocolImportSessionState | OpProtocolEncodeWireFrame
| OpProtocolTryDecodeWireFrame | OpProtocolSessionClosed.
#[export] Instance ProtocolOpCode_eq_dec : EqDecision ProtocolOpCode.
Proof. solve_decision. Defined.
Definition protocol_op_byte (op : ProtocolOpCode) : Z :=
  match op with
  | OpProtocolDescribe => 1 | OpProtocolDescribeBedrockListener => 2 | OpProtocolCapabilitySet => 3
  | OpProtocolTryRoute => 4 | OpProtocolDecodeStatus => 5 | OpProtocolDecodeLogin => 6
  | OpProtocolEncodeStatusResponse => 7 | OpProtocolEncodeStatusPong => 8 | OpProtocolEncodeDisconnect => 9
  | OpProtocolEncodeEncryptionRequest => 10 | OpProtocolEncodeNetworkSettings => 11
  | OpProtocolEncodeLoginSuccess => 12 | OpProtocolDecodePlay => 13 | OpProtocolEncodePlayEvent => 14
  | OpProtocolExportSessionState => 15 | OpProtocolImportSessionState => 16 | OpProtocolEncodeWireFrame => 17
  | OpProtocolTryDecodeWireFrame => 18 | OpProtocolSessionClosed => 19
  end.
Definition protocol_op_of (value : Z) : result ProtocolCodecError ProtocolOpCode :=
  match value with
  | 1 => Ok OpProtocolDescribe | 2 => Ok OpProtocolDescribeBedrockListener | 3 => Ok OpProtocolCapabilitySet
  | 4 => Ok OpProtocolTryRoute | 5 => Ok OpProtocolDecodeStatus | 6 => Ok OpProtocolDecodeLogin
  | 7 => Ok OpProtocolEncodeStatusResponse | 8 => Ok OpProtocolEncodeStatusPong
  | 9 => Ok OpProtocolEncodeDisconnect | 10 => Ok OpProtocolEncodeEncryptionRequest
  | 11 => Ok OpProtocolEncodeNetworkSettings | 12 => Ok OpProtocolEncodeLoginSuccess
  | 13 => Ok OpProtocolDecodePlay | 14 => Ok OpProtocolEncodePlayEvent | 15 => Ok OpProtocolExportSessionState
  | 16 => Ok OpProtocolImportSessionState | 17 => Ok OpProtocolEncodeWireFrame
  | 18 => Ok OpProtocolTryDecodeWireFrame | 19 => Ok OpProtocolSessionClosed
  | _ => Err (InvalidProtocolOpCode value)
  end.

Inductive ProtocolRequest : Type :=
| ReqDescribe | ReqDescribeBedrockListener | ReqCapabilitySet
| ReqTryRoute (frame : list byte) | ReqDecodeStatus (frame : list byte) | ReqDecodeLogin (frame : list byte)
| ReqEncodeStatusResponse (status : ServerListStatus) | ReqEncodeStatusPong (payload : Z)
| ReqEncodeDisconnect (phase : ConnectionPhase) (reason : string)
| ReqEncodeEncryptionRequest (server_id : string) (public_key_der verify_token : list byte)
| ReqEncodeNetworkSettings (compression_threshold : Z) | ReqEncodeLoginSuccess (player : PlayerSnapshot)
| ReqDecodePlay (session : ProtocolSessionSnapshot) (frame : list byte)
| ReqEncodePlayEvent (session : ProtocolSessionSnapshot) (event : CoreEvent) (context : PlayEncodingContext)
| ReqSessionClosed (session : ProtocolSessionSnapshot) | ReqExportSessionState (session : ProtocolSessionSnapshot)
| ReqImportSessionState (session : ProtocolSessionSnapshot) (blob : list byte)
| ReqEncodeWireFrame (payload : list byte) | ReqTryDecodeWireFrame (buffer : list byte).
Definition protocol_request_op (request : ProtocolRequest) : ProtocolOpCode :=
  match request with
  | ReqDescribe => OpProtocolDescribe | ReqDescribeBedrockListener => OpProtocolDescribeBedrockListener
  | ReqCapabilitySet => OpProtocolCapabilitySet | ReqTryRoute _ => OpProtocolTryRoute
  | ReqDecodeStatus _ => OpProtocolDecodeStatus | ReqDecodeLogin _ => OpProtocolDecodeLogin
  | ReqEncodeStatusResponse _ => OpProtocolEncodeStatusResponse
  | ReqEncodeStatusPong _ => OpProtocolEncodeStatusPong
  | ReqEncodeDisconnect _ _ => OpProtocolEncodeDisconnect
  | ReqEncodeEncryptionRequest _ _ _ => OpProtocolEncodeEncryptionRequest
  | ReqEncodeNetworkSettings _ => OpProtocolEncodeNetworkSettings
  | ReqEncodeLoginSuccess _ => OpProtocolEncodeLoginSuccess | ReqDecodePlay _ _ => OpProtocolDecodePlay
  | ReqEncodePlayEvent _ _ _ => OpProtocolEncodePlayEvent
  | ReqExportSessionState _ => OpProtocolExportSessionState
  | ReqImportSessionState _ _ => OpProtocolImportSessionState
  | ReqEncodeWireFrame _ => OpProtocolEncodeWireFrame
  | ReqTryDecodeWireFrame _ => OpProtocolTryDecodeWireFrame | ReqSessionClosed _ => OpProtocolSessionClosed
  end.

Inductive ProtocolResponse : Type :=
| RespDescriptor (descriptor : ProtocolDescriptor)
| RespBedrockListenerDescriptor (descriptor : option BedrockListenerDescriptor)
| RespCapabilitySet (capabilities : CapabilityAnnouncement ProtocolCapability)
| RespHandshakeIntent (intent : option HandshakeIntent) | RespStatusRequest (request : StatusRequest)
| RespLoginRequest (request : LoginRequest) | RespFrame (frame : list byte) | RespFrames (frames : list (list byte))
| RespRuntimeCommand (command : option RuntimeCommand) | RespSessionTransferBlob (blob : list byte)
| RespWireFrameDecodeResult (result : option WireFrameDecodeResult) | RespEmpty.

(** ** Descriptors and handshakes *)

Definition encode_transport_kind (transport : TransportKind) : Encode := write_u8 (match transport with Tcp => 1 | Udp => 2 end).
Definition decode_transport_kind : Decode TransportKind :=
  tag ← read_u8; match tag with 1 => mret Tcp | 2 => mret Udp | _ => throw (InvalidValue "invalid transport kind") end.
#[export] Instance transport_codec : Codec encode_transport_kind decode_transport_kind any.
Proof. codec_tag encode_transport_kind decode_transport_kind. Qed.
Definition encode_wire_format_kind (wire_format : WireFormatKind) : Encode :=
  write_u8 (match wire_format with MinecraftFramed => 1 | RawPacketStream => 2 end).
Definition decode_wire_format_kind : Decode WireFormatKind :=
  tag ← read_u8;
  match tag with 1 => mret MinecraftFramed | 2 => mret RawPacketStream | _ => throw (InvalidValue "invalid wire format kind") end.
#[export] Instance wire_format_codec : Codec encode_wire_format_kind decode_wire_format_kind any.
Proof. codec_tag encode_wire_format_kind decode_wire_format_kind. Qed.
Definition encode_edition (edition : Edition) : Encode := write_u8 (match edition with EditionJe => 1 | EditionBe => 2 end).
Definition decode_edition : Decode Edition :=
  tag ← read_u8; match tag with 1 => mret EditionJe | 2 => mret EditionBe | _ => throw (InvalidValue "invalid edition") end.
#[export] Instance edition_codec : Codec encode_edition decode_edition any.
Proof. codec_tag encode_edition decode_edition. Qed.
Definition encode_handshake_next_state (next_state : HandshakeNextState) : Encode :=
  write_u8 (match next_state with NextStatus => 1 | NextLogin => 2 end).
Definition decode_handshake_next_state : Decode HandshakeNextState :=
  tag ← read_u8;
  match tag with 1 => mret NextStatus | 2 => mret NextLogin | _ => throw (InvalidValue "invalid handshake next state") end.
#[export] Instance next_state_codec : Codec encode_handshake_next_state decode_handshake_next_state any.
Proof. codec_tag encode_handshake_next_state decode_handshake_next_state. Qed.

Definition encode_protocol_descriptor (d : ProtocolDescriptor) : Encode :=
  all_out [write_string (adapter_id d); encode_transport_kind (transport d); encode_wire_format_kind (wire_format d);
    encode_edition (pd_edition d); write_string (version_name d); write_i32 (pd_protocol_number d)].
Definition decode_protocol_descriptor : Decode ProtocolDescriptor :=
  adapter_id ← read_string; transport ← decode_transport_kind; wire_format ← decode_wire_format_kind;
  edition ← decode_edition; version_name ← read_string; protocol_number ← read_i32;
  mret (mkProtocol adapter_id transport wire_format edition version_name protocol_number).
Definition descriptor_fits (d : ProtocolDescriptor) : bool :=
  utf8_ok (adapter_id d) && utf8_ok (version_name d) && signed_fits 32 (pd_protocol_number d).
#[export] Instance descriptor_codec : Codec encode_protocol_descriptor decode_protocol_descriptor descriptor_fits.
Proof. codec_record encode_protocol_descriptor decode_protocol_descriptor descriptor_fits. Qed.

Definition encode_bedrock_listener_descriptor (d : BedrockListenerDescriptor) : Encode :=
  all_out [write_string (game_version d); write_u8 (raknet_version d)].
Definition decode_bedrock_listener_descriptor : Decode BedrockListenerDescriptor :=
  game_version ← read_string; raknet_version ← read_u8; mret (mkListener game_version raknet_version).
Definition listener_fits (d : BedrockListenerDescriptor) : bool := utf8_ok (game_version d) && unsigned_fits 8 (raknet_version d).
#[export] Instance listener_codec : Codec encode_bedrock_listener_descriptor decode_bedrock_listener_descriptor listener_fits.
Proof. codec_record encode_bedrock_listener_descriptor decode_bedrock_listener_descriptor listener_fits. Qed.

Definition encode_handshake_intent (intent : HandshakeIntent) : Encode :=
  all_out [encode_edition (hi_edition intent); write_i32 (hi_protocol_number intent); write_string (server_host intent);
    write_u16 (server_port intent); encode_handshake_next_state (next_state intent)].
Definition decode_handshake_intent : Decode HandshakeIntent :=
  edition ← decode_edition; protocol_number ← read_i32; server_host ← read_string; server_port ← read_u16;
  next_state ← decode_handshake_next_state;
  mret (mkIntent edition protocol_number server_host server_port next_state).
Definition intent_fits (i : HandshakeIntent) : bool :=
  signed_fits 32 (hi_protocol_number i) && utf8_ok (server_host i) && unsigned_fits 16 (server_port i).
#[export] Instance intent_codec : Codec encode_handshake_intent decode_handshake_intent intent_fits.
Proof. codec_record encode_handshake_intent decode_handshake_intent intent_fits. Qed.

Definition encode_status_request (request : StatusRequest) : Encode :=
  match request with
  | StatusQuery => all_out [write_u8 1]
  | StatusPing payload => all_out [write_u8 2; write_i64 payload]
  end.
Definition decode_status_request : Decode StatusRequest :=
  tag ← read_u8;
  match tag with
  | 1 => mret StatusQuery
  | 2 => payload ← read_i64; mret (StatusPing payload)
  | _ => throw (InvalidValue "invalid status request")
  end.
Definition status_request_fits (r : StatusRequest) : bool :=
  match r with StatusQuery => true | StatusPing payload => signed_fits 64 payload end.
#[export] Instance status_request_codec : Codec encode_status_request decode_status_request status_request_fits.
Proof. codec_enum encode_status_request decode_status_request status_request_fits. Qed.

Definition encode_login_request (request : LoginRequest) : Encode :=
  match request with
  | LoginStartRequest username => all_out [write_u8 1; write_string username]
  | EncryptionResponse shared_secret_encrypted verify_token_encrypted =>
      all_out [write_u8 2; write_bytes shared_secret_encrypted; write_bytes verify_token_encrypted]
  | BedrockNetworkSettingsRequest protocol_number => all_out [write_u8 3; write_i32 protocol_number]
  | BedrockLogin protocol_number display_name chain_jwts client_data_jwt =>
      all_out [write_u8 4; write_i32 protocol_number; write_string display_name; write_vec write_string chain_jwts;
        write_string client_data_jwt]
  end.
Definition decode_login_request : Decode LoginRequest :=
  tag ← read_u8;
  match tag with
  | 1 => username ← read_string; mret (LoginStartRequest username)
  | 2 => secret ← read_bytes; token ← read_bytes; mret (EncryptionResponse secret token)
  | 3 => protocol_number ← read_i32; mret (BedrockNetworkSettingsRequest protocol_number)
  | 4 =>
      protocol_number ← read_i32; display_name ← read_string; chain_jwts ← read_vec read_string;
      client_data_jwt ← read_string; mret (BedrockLogin protocol_number display_name chain_jwts client_data_jwt)
  | _ => throw (InvalidValue "invalid login request")
  end.
Definition login_request_fits (r : LoginRequest) : bool :=
  match r with
  | LoginStartRequest username => utf8_ok username
  | EncryptionResponse _ _ => true
  | BedrockNetworkSettingsRequest n => signed_fits 32 n
  | BedrockLogin n name chain data => signed_fits 32 n && utf8_ok name && forallb utf8_ok chain && utf8_ok data
  end.
#[export] Instance login_request_codec : Codec encode_login_request decode_login_request login_request_fits.
Proof. codec_enum encode_login_request decode_login_request login_request_fits. Qed.

Definition encode_server_list_status (status : ServerListStatus) : Encode :=
  all_out [encode_protocol_descriptor (st_version status); write_len (players_online status); write_len (st_max_players status);
    write_string (description status)].
Definition decode_server_list_status : Decode ServerListStatus :=
  version ← decode_protocol_descriptor; players_online ← read_len; max_players ← read_len; description ← read_string;
  mret (mkStatus version players_online max_players description).
Definition server_status_fits (s : ServerListStatus) : bool :=
  descriptor_fits (st_version s) && (0 <=? players_online s) && (0 <=? st_max_players s) && utf8_ok (description s).
#[export] Instance server_status_codec : Codec encode_server_list_status decode_server_list_status server_status_fits.
Proof. codec_record encode_server_list_status decode_server_list_status server_status_fits. Qed.

Definition encode_play_encoding_context (context : PlayEncodingContext) : Encode :=
  all_out [encode_player_id (pc_player_id context); encode_entity_id (pc_entity_id context)].
Definition decode_play_encoding_context : Decode PlayEncodingContext :=
  player_id ← decode_player_id; entity_id ← decode_entity_id; mret (mkPlayContext player_id entity_id).
Definition play_context_fits (c : PlayEncodingContext) : bool :=
  unsigned_fits 128 (pc_player_id c) && signed_fits 32 (pc_entity_id c).
#[export] Instance play_context_codec : Codec encode_play_encoding_context decode_play_encoding_context play_context_fits.
Proof. codec_record encode_play_encoding_context decode_play_encoding_context play_context_fits. Qed.

Definition encode_protocol_session_snapshot (snapshot : ProtocolSessionSnapshot) : Encode :=
  all_out [encode_connection_id (connection_id snapshot); encode_connection_phase (phase snapshot);
    encode_option encode_player_id (ps_player_id snapshot); encode_option encode_entity_id (ps_entity_id snapshot)].
Definition decode_protocol_session_snapshot : Decode ProtocolSessionSnapshot :=
  connection_id ← decode_connection_id; phase ← decode_connection_phase; player_id ← decode_option decode_player_id;
  entity_id ← decode_option decode_entity_id; mret (mkSessionSnapshot connection_id phase player_id entity_id).
Definition session_fits (s : ProtocolSessionSnapshot) : bool :=
  unsigned_fits 64 (connection_id s) && option_ok (unsigned_fits 128) (ps_player_id s) && option_ok (signed_fits 32) (ps_entity_id s).
#[export] Instance session_codec : Codec encode_protocol_session_snapshot decode_protocol_session_snapshot session_fits.
Proof. codec_record encode_protocol_session_snapshot decode_protocol_session_snapshot session_fits. Qed.

Definition encode_wire_frame_decode_result (result : WireFrameDecodeResult) : Encode :=
  all_out [write_len (bytes_consumed result); write_bytes (df_frame result)].
Definition decode_wire_frame_decode_result : Decode WireFrameDecodeResult :=
  bytes_consumed ← read_len; frame ← read_bytes; mret (mkDecodedFrame frame bytes_consumed).
Definition decoded_frame_fits (r : WireFrameDecodeResult) : bool := 0 <=? bytes_consumed r.
#[export] Instance decoded_frame_codec :
  Codec encode_wire_frame_decode_result decode_wire_frame_decode_result decoded_frame_fits.
Proof. codec_record encode_wire_frame_decode_result decode_wire_frame_decode_result decoded_frame_fits. Qed.

(** ** Payloads *)

Definition encode_protocol_request_payload (request : ProtocolRequest) : Encode :=
  match request with
  | ReqDescribe | ReqDescribeBedrockListener | ReqCapabilitySet => all_out []
  | ReqTryRoute frame | ReqDecodeStatus frame | ReqDecodeLogin frame => all_out [write_bytes frame]
  | ReqEncodeStatusResponse status => all_out [encode_server_list_status status]
  | ReqEncodeStatusPong payload => all_out [write_i64 payload]
  | ReqEncodeDisconnect phase reason => all_out [encode_connection_phase phase; write_string reason]
  | ReqEncodeEncryptionRequest server_id public_key_der verify_token =>
      all_out [write_string server_id; write_bytes public_key_der; write_bytes verify_token]
  | ReqEncodeNetworkSettings compression_threshold => all_out [write_u16 compression_threshold]
  | ReqEncodeLoginSuccess player => all_out [encode_player_snapshot player]
  | ReqDecodePlay session frame => all_out [encode_protocol_session_snapshot session; write_bytes frame]
  | ReqEncodePlayEvent session event context =>
      all_out [encode_protocol_session_snapshot session; encode_core_event event; encode_play_encoding_context context]
  | ReqSessionClosed session | ReqExportSessionState session => all_out [encode_protocol_session_snapshot session]
  | ReqImportSessionState session blob => all_out [encode_protocol_session_snapshot session; write_bytes blob]
  | ReqEncodeWireFrame payload => all_out [write_bytes payload]
  | ReqTryDecodeWireFrame buffer => all_out [write_bytes buffer]
  end.
Definition decode_protocol_request_payload (op_code : ProtocolOpCode) : Decode ProtocolRequest :=
  match op_code with
  | OpProtocolDescribe => mret ReqDescribe
  | OpProtocolDescribeBedrockListener => mret ReqDescribeBedrockListener
  | OpProtocolCapabilitySet => mret ReqCapabilitySet
  | OpProtocolTryRoute => frame ← read_bytes; mret (ReqTryRoute frame)
  | OpProtocolDecodeStatus => frame ← read_bytes; mret (ReqDecodeStatus frame)
  | OpProtocolDecodeLogin => frame ← read_bytes; mret (ReqDecodeLogin frame)
  | OpProtocolEncodeStatusResponse => status ← decode_server_list_status; mret (ReqEncodeStatusResponse status)
  | OpProtocolEncodeStatusPong => payload ← read_i64; mret (ReqEncodeStatusPong payload)
  | OpProtocolEncodeDisconnect =>
      phase ← decode_connection_phase; reason ← read_string; mret (ReqEncodeDisconnect phase reason)
  | OpProtocolEncodeEncryptionRequest =>
      server_id ← read_string; public_key_der ← read_bytes; verify_token ← read_bytes;
      mret (ReqEncodeEncryptionRequest server_id public_key_der verify_token)
  | OpProtocolEncodeNetworkSettings => compression_threshold ← read_u16; mret (ReqEncodeNetworkSettings compression_threshold)
  | OpProtocolEncodeLoginSuccess => player ← decode_player_snapshot; mret (ReqEncodeLoginSuccess player)
  | OpProtocolDecodePlay => session ← decode_protocol_session_snapshot; frame ← read_bytes; mret (ReqDecodePlay session frame)
  | OpProtocolEncodePlayEvent =>
      session ← decode_protocol_session_snapshot; event ← decode_core_event; context ← decode_play_encoding_context;
      mret (ReqEncodePlayEvent session event context)
  | OpProtocolSessionClosed => session ← decode_protocol_session_snapshot; mret (ReqSessionClosed session)
  | OpProtocolExportSessionState => session ← decode_protocol_session_snapshot; mret (ReqExportSessionState session)
  | OpProtocolImportSessionState =>
      session ← decode_protocol_session_snapshot; blob ← read_bytes; mret (ReqImportSessionState session blob)
  | OpProtocolEncodeWireFrame => payload ← read_bytes; mret (ReqEncodeWireFrame payload)
  | OpProtocolTryDecodeWireFrame => buffer ← read_bytes; mret (ReqTryDecodeWireFrame buffer)
  end.

Definition encode_protocol_response_payload (op_code : ProtocolOpCode) (response : ProtocolResponse) : Encode :=
  match op_code, response with
  | OpProtocolDescribe, RespDescriptor descriptor => all_out [encode_protocol_descriptor descriptor]
  | OpProtocolDescribeBedrockListener, RespBedrockListenerDescriptor descriptor =>
      all_out [encode_option encode_bedrock_listener_descriptor descriptor]
  | OpProtocolCapabilitySet, RespCapabilitySet capabilities => all_out [encode_capability_announcement capabilities]
  | OpProtocolTryRoute, RespHandshakeIntent intent => all_out [encode_option encode_handshake_intent intent]
  | OpProtocolDecodeStatus, RespStatusRequest request => all_out [encode_status_request request]
  | OpProtocolDecodeLogin, RespLoginRequest request => all_out [encode_login_request request]
  | (OpProtocolEncodeStatusResponse | OpProtocolEncodeStatusPong | OpProtocolEncodeDisconnect
    | OpProtocolEncodeEncryptionRequest | OpProtocolEncodeNetworkSettings | OpProtocolEncodeLoginSuccess),
      RespFrame frame => all_out [write_bytes frame]
  | OpProtocolDecodePlay, RespRuntimeCommand command => all_out [encode_option encode_runtime_command command]
  | OpProtocolEncodePlayEvent, RespFrames frames => all_out [write_vec write_bytes frames]
  | OpProtocolExportSessionState, RespSessionTransferBlob blob => all_out [write_bytes blob]
  | OpProtocolEncodeWireFrame, RespFrame frame => all_out [write_bytes frame]
  | OpProtocolTryDecodeWireFrame, RespWireFrameDecodeResult result =>
      all_out [encode_option encode_wire_frame_decode_result result]
  | (OpProtocolImportSessionState | OpProtocolSessionClosed), RespEmpty => all_out []
  | _, _ => Err (InvalidValue "protocol response did not match opcode")
  end.
Definition decode_protocol_response_payload (op_code : ProtocolOpCode) : Decode ProtocolResponse :=
  match op_code with
  | OpProtocolDescribe => descriptor ← decode_protocol_descriptor; mret (RespDescriptor descriptor)
  | OpProtocolDescribeBedrockListener =>
      descriptor ← decode_option decode_bedrock_listener_descriptor; mret (RespBedrockListenerDescriptor descriptor)
  | OpProtocolCapabilitySet => capabilities ← decode_capability_announcement; mret (RespCapabilitySet capabilities)
  | OpProtocolTryRoute => intent ← decode_option decode_handshake_intent; mret (RespHandshakeIntent intent)
  | OpProtocolDecodeStatus => request ← decode_status_request; mret (RespStatusRequest request)
  | OpProtocolDecodeLogin => request ← decode_login_request; mret (RespLoginRequest request)
  | OpProtocolEncodeStatusResponse | OpProtocolEncodeStatusPong | OpProtocolEncodeDisconnect
  | OpProtocolEncodeEncryptionRequest | OpProtocolEncodeNetworkSettings | OpProtocolEncodeLoginSuccess
  | OpProtocolEncodeWireFrame => frame ← read_bytes; mret (RespFrame frame)
  | OpProtocolDecodePlay => command ← decode_option decode_runtime_command; mret (RespRuntimeCommand command)
  | OpProtocolEncodePlayEvent => frames ← read_vec read_bytes; mret (RespFrames frames)
  | OpProtocolExportSessionState => blob ← read_bytes; mret (RespSessionTransferBlob blob)
  | OpProtocolTryDecodeWireFrame =>
      result ← decode_option decode_wire_frame_decode_result; mret (RespWireFrameDecodeResult result)
  | OpProtocolImportSessionState | OpProtocolSessionClosed => mret RespEmpty
  end.

(** ** Messages *)

Definition encode_protocol_request (request : ProtocolRequest) : Encode :=
  payload ← encode_protocol_request_payload request; n ← payload_len payload;
  encode_envelope (mkHeader CURRENT_PLUGIN_ABI KindProtocol (protocol_op_byte (protocol_request_op request)) 0 n) payload.
Definition decode_protocol_request (bytes : list byte) : result ProtocolCodecError ProtocolRequest :=
  '(header, payload) ← decode_envelope bytes;
  if negb (bool_decide (h_plugin_kind header = KindProtocol))
  then Err (InvalidEnvelope "protocol request had wrong plugin kind")
  else if is_response header then Err (InvalidEnvelope "protocol request unexpectedly set response flag")
  else op_code ← protocol_op_of (h_op_code header); decode_all (decode_protocol_request_payload op_code) payload.
Definition encode_protocol_response (request : ProtocolRequest) (response : ProtocolResponse) : Encode :=
  payload ← encode_protocol_response_payload (protocol_request_op request) response; n ← payload_len payload;
  encode_envelope (mkHeader CURRENT_PLUGIN_ABI KindProtocol (protocol_op_byte (protocol_request_op request))
    PROTOCOL_FLAG_RESPONSE n) payload.
Definition decode_protocol_response (request : ProtocolRequest) (bytes : list byte) :
    result ProtocolCodecError ProtocolResponse :=
  '(header, payload) ← decode_envelope bytes;
  if negb (bool_decide (h_plugin_kind header = KindProtocol))
  then Err (InvalidEnvelope "protocol response had wrong plugin kind")
  else if negb (is_response header) then Err (InvalidEnvelope "protocol response was missing response flag")
  else if negb (h_op_code header =? protocol_op_byte (protocol_request_op request))
  then Err (InvalidEnvelope "protocol response opcode did not match request")
  else op_code ← protocol_op_of (h_op_code header); decode_all (decode_protocol_response_payload op_code) payload.

(** ** What fits *)

Definition protocol_request_fits (request : ProtocolRequest) : bool :=
  match request with
  | ReqEncodeStatusResponse status => server_status_fits status
  | ReqEncodeStatusPong payload => signed_fits 64 payload
  | ReqEncodeDisconnect _ reason => utf8_ok reason
  | ReqEncodeEncryptionRequest server_id _ _ => utf8_ok server_id
  | ReqEncodeNetworkSettings threshold => unsigned_fits 16 threshold
  | ReqEncodeLoginSuccess player => player_snapshot_fits player
  | ReqDecodePlay session _ | ReqSessionClosed session | ReqExportSessionState session | ReqImportSessionState session _ =>
      session_fits session
  | ReqEncodePlayEvent session event context => session_fits session && core_event_fits event && play_context_fits context
  | _ => true
  end.
Definition protocol_response_fits (response : ProtocolResponse) : bool :=
  match response with
  | RespDescriptor d => descriptor_fits d
  | RespBedrockListenerDescriptor d => option_ok listener_fits d
  | RespCapabilitySet a => announcement_fits a
  | RespHandshakeIntent i => option_ok intent_fits i
  | RespStatusRequest r => status_request_fits r
  | RespLoginRequest r => login_request_fits r
  | RespRuntimeCommand c => option_ok runtime_command_fits c
  | RespWireFrameDecodeResult r => option_ok decoded_frame_fits r
  | _ => true
  end.
(** The answers to a request. *)
Definition protocol_answers (op : ProtocolOpCode) (response : ProtocolResponse) : bool :=
  match op, response with
  | OpProtocolDescribe, RespDescriptor _ | OpProtocolDescribeBedrockListener, RespBedrockListenerDescriptor _
  | OpProtocolCapabilitySet, RespCapabilitySet _ | OpProtocolTryRoute, RespHandshakeIntent _
  | OpProtocolDecodeStatus, RespStatusRequest _ | OpProtocolDecodeLogin, RespLoginRequest _
  | (OpProtocolEncodeStatusResponse | OpProtocolEncodeStatusPong | OpProtocolEncodeDisconnect
    | OpProtocolEncodeEncryptionRequest | OpProtocolEncodeNetworkSettings | OpProtocolEncodeLoginSuccess
    | OpProtocolEncodeWireFrame), RespFrame _
  | OpProtocolDecodePlay, RespRuntimeCommand _ | OpProtocolEncodePlayEvent, RespFrames _
  | OpProtocolExportSessionState, RespSessionTransferBlob _ | OpProtocolTryDecodeWireFrame, RespWireFrameDecodeResult _
  | (OpProtocolImportSessionState | OpProtocolSessionClosed), RespEmpty => true
  | _, _ => false
  end.

Lemma protocol_op_roundtrip op : protocol_op_of (protocol_op_byte op) = Ok op /\ unsigned_fits 8 (protocol_op_byte op) = true.
Proof. by destruct op. Qed.
Lemma protocol_request_payload_encodes request : protocol_request_fits request = true ->
  encodes (encode_protocol_request_payload request) (decode_protocol_request_payload (protocol_request_op request)) request.
Proof.
  intros H. unfold encode_protocol_request_payload, decode_protocol_request_payload, protocol_request_op.
  unfold protocol_request_fits in H. destruct request; cbv beta iota in H |- *; split_fits H; repeat encode_step.
Qed.
Lemma protocol_request_payload_ends op s : ends 0 (decode_protocol_request_payload op) s.
Proof. unfold decode_protocol_request_payload. destruct op; repeat ends_step. Qed.
Lemma protocol_response_payload_encodes op response :
  protocol_answers op response = true -> protocol_response_fits response = true ->
  encodes (encode_protocol_response_payload op response) (decode_protocol_response_payload op) response.
Proof.
  intros Ha H. unfold encode_protocol_response_payload, decode_protocol_response_payload.
  unfold protocol_response_fits in H. destruct op, response; try done; cbv beta iota in H |- *; repeat encode_step.
Qed.
Lemma protocol_response_payload_ends op s : ends 0 (decode_protocol_response_payload op) s.
Proof. unfold decode_protocol_response_payload. destruct op; repeat ends_step. Qed.

Lemma protocol_request_carries request : protocol_request_fits request = true ->
  carries (encode_protocol_request request) decode_protocol_request request.
Proof.
  intros H. destruct (protocol_op_roundtrip (protocol_request_op request)) as [Eop Hop].
  eapply holds_carries; [by apply message_holds, protocol_request_payload_encodes|]. intros bytes payload E.
  unfold decode_protocol_request. rewrite E. cbn. by rewrite Eop.
Qed.
Lemma protocol_response_carries request response :
  protocol_answers (protocol_request_op request) response = true -> protocol_response_fits response = true ->
  carries (encode_protocol_response request response) (decode_protocol_response request) response.
Proof.
  intros Ha H. destruct (protocol_op_roundtrip (protocol_request_op request)) as [Eop Hop].
  eapply holds_carries; [by apply message_holds, protocol_response_payload_encodes|]. intros bytes payload E.
  unfold decode_protocol_response. rewrite E. cbn. rewrite Z.eqb_refl. cbn. by rewrite Eop.
Qed.
Lemma protocol_op_settled value : settled (protocol_op_of value).
Proof. unfold protocol_op_of. by repeat case_match. Qed.
Lemma protocol_decoding_settled request bytes :
  settled (decode_protocol_request bytes) /\ settled (decode_protocol_response request bytes).
Proof.
  split; apply opened_settled; intros [header payload].
  - repeat case_match; try done. apply settled_bind; [apply protocol_op_settled|].
    intros op _. apply decode_all_settled, protocol_request_payload_ends.
  - repeat case_match; try done. apply settled_bind; [apply protocol_op_settled|].
    intros op _. apply decode_all_settled, protocol_response_payload_ends.
Qed.
Lemma protocol_mismatch_refused request response : protocol_answers (protocol_request_op request) response = false ->
  encode_protocol_response request response = Err (InvalidValue "protocol response did not match opcode").
Proof. unfold encode_protocol_response. by destruct (protocol_request_op request), response. Qed.
