(* ===== verification/PluginStorage.v ===== *)
(** * Storage and authentication plugins: requests and responses
    ([crates/plugin/mc-plugin-contract/src/codec]: storage.rs, auth.rs,
    __internal/storage_semantic.rs, __internal/auth_semantic.rs) *)

From stdpp Require Import finite.
From S2P Require Import Prelude Bytes Parsing RevyCore VoxelModel VoxelItems VoxelState PluginBinary PluginInventory PluginShared.

(** ** Storage *)

Module Storage.

Inductive StorageOpCode : Set :=
| OpDescribe | OpCapabilitySet | OpLoadSnapshot | OpSaveSnapshot | OpExportRuntimeState | OpImportRuntimeState.
#[export] Instance StorageOpCode_eq_dec : EqDecision StorageOpCode.
Proof. solve_decision. Defined.
Definition storage_op_byte (op : StorageOpCode) : Z :=
  match op with
  | OpDescribe => 1 | OpCapabilitySet => 2 | OpLoadSnapshot => 3 | OpSaveSnapshot => 4 | OpExportRuntimeState => 5
  | OpImportRuntimeState => 6
  end.
Definition storage_op_of (value : Z) : result ProtocolCodecError StorageOpCode :=
  match value with
  | 1 => Ok OpDescribe | 2 => Ok OpCapabilitySet | 3 => Ok OpLoadSnapshot | 4 => Ok OpSaveSnapshot
  | 5 => Ok OpExportRuntimeState | 6 => Ok OpImportRuntimeState
  | _ => Err (InvalidValue "invalid storage op code")
  end.

Inductive StorageRequest : Type :=
| Describe | CapabilitySet | LoadSnapshot (world_dir : string) | SaveSnapshot (world_dir : string) (snapshot : WorldSnapshot)
| ExportRuntimeState (world_dir : string) | ImportRuntimeState (world_dir : string) (snapshot : WorldSnapshot).
Definition storage_request_op (request : StorageRequest) : StorageOpCode :=
  match request with
  | Describe => OpDescribe | CapabilitySet => OpCapabilitySet | LoadSnapshot _ => OpLoadSnapshot
  | SaveSnapshot _ _ => OpSaveSnapshot | ExportRuntimeState _ => OpExportRuntimeState
  | ImportRuntimeState _ _ => OpImportRuntimeState
  end.
(** The descriptor is the name of the profile. *)
Inductive StorageResponse : Type :=
| Descriptor (storage_profile : string) | Capabilities (capabilities : CapabilityAnnouncement StorageCapability)
| Snapshot (snapshot : option WorldSnapshot) | Empty.

Definition encode_storage_request_payload (request : StorageRequest) : Encode :=
  match request with
  | Describe | CapabilitySet => all_out []
  | LoadSnapshot world_dir | ExportRuntimeState world_dir => all_out [write_string world_dir]
  | SaveSnapshot world_dir snapshot | ImportRuntimeState world_dir snapshot =>
      all_out [write_string world_dir; encode_world_snapshot snapshot]
  end.
Definition decode_storage_request_payload (op_code : StorageOpCode) : Decode StorageRequest :=
  match op_code with
  | OpDescribe => mret Describe
  | OpCapabilitySet => mret CapabilitySet
  | OpLoadSnapshot => world_dir ← read_string; mret (LoadSnapshot world_dir)
  | OpSaveSnapshot => world_dir ← read_string; snapshot ← decode_world_snapshot; mret (SaveSnapshot world_dir snapshot)
  | OpExportRuntimeState => world_dir ← read_string; mret (ExportRuntimeState world_dir)
  | OpImportRuntimeState =>
      world_dir ← read_string; snapshot ← decode_world_snapshot; mret (ImportRuntimeState world_dir snapshot)
  end.
Definition encode_storage_response_payload (op_code : StorageOpCode) (response : StorageResponse) : Encode :=
  match op_code, response with
  | OpDescribe, Descriptor storage_profile => all_out [write_string storage_profile]
  | OpCapabilitySet, Capabilities capabilities => all_out [encode_capability_announcement capabilities]
  | (OpLoadSnapshot | OpExportRuntimeState), Snapshot snapshot => all_out [encode_option encode_world_snapshot snapshot]
  | (OpSaveSnapshot | OpImportRuntimeState), Empty => all_out []
  | _, _ => Err (InvalidValue "storage response did not match opcode")
  end.
Definition decode_storage_response_payload (op_code : StorageOpCode) : Decode StorageResponse :=
  match op_code with
  | OpDescribe => storage_profile ← read_string; mret (Descriptor storage_profile)
  | OpCapabilitySet => capabilities ← decode_capability_announcement; mret (Capabilities capabilities)
  | OpLoadSnapshot | OpExportRuntimeState => snapshot ← decode_option decode_world_snapshot; mret (Snapshot snapshot)
  | OpSaveSnapshot | OpImportRuntimeState => mret Empty
  end.

Definition encode_storage_request (request : StorageRequest) : Encode :=
  payload ← encode_storage_request_payload request; n ← payload_len payload;
  encode_envelope (mkHeader CURRENT_PLUGIN_ABI KindStorage (storage_op_byte (storage_request_op request)) 0 n) payload.
Definition decode_storage_request (bytes : list byte) : result ProtocolCodecError StorageRequest :=
  '(header, payload) ← decode_envelope bytes;
  if negb (bool_decide (h_plugin_kind header = KindStorage))
  then Err (InvalidEnvelope "storage request had wrong plugin kind")
  else if is_response header then Err (InvalidEnvelope "storage request unexpectedly set response flag")
  else op_code ← storage_op_of (h_op_code header); decode_all (decode_storage_request_payload op_code) payload.
Definition encode_storage_response (request : StorageRequest) (response : StorageResponse) : Encode :=
  payload ← encode_storage_response_payload (storage_request_op request) response; n ← payload_len payload;
  encode_envelope (mkHeader CURRENT_PLUGIN_ABI KindStorage (storage_op_byte (storage_request_op request))
    PROTOCOL_FLAG_RESPONSE n) payload.
Definition decode_storage_response (request : StorageRequest) (bytes : list byte) : result ProtocolCodecError StorageResponse :=
  '(header, payload) ← decode_envelope bytes;
  if negb (bool_decide (h_plugin_kind header = KindStorage))
  then Err (InvalidEnvelope "storage response had wrong plugin kind")
  else if negb (is_response header) then Err (InvalidEnvelope "storage response was missing response flag")
  else
    op_code ← storage_op_of (h_op_code header);
    if negb (bool_decide (op_code = storage_request_op request))
    then Err (InvalidEnvelope "storage response opcode did not match request")
    else decode_all (decode_storage_response_payload (storage_request_op request)) payload.

Definition storage_request_fits (request : StorageRequest) : bool :=
  match request with
  | Describe | CapabilitySet => true
  | LoadSnapshot dir | ExportRuntimeState dir => utf8_ok dir
  | SaveSnapshot dir snapshot | ImportRuntimeState dir snapshot => utf8_ok dir && world_snapshot_fits snapshot
  end.
Definition storage_response_fits (response : StorageResponse) : bool :=
  match response with
  | Descriptor profile => utf8_ok profile
  | Capabilities a => announcement_fits a
  | Snapshot s => option_ok world_snapshot_fits s
  | Empty => true
  end.
Definition storage_answers (op : StorageOpCode) (response : StorageResponse) : bool :=
  match op, response with
  | OpDescribe, Descriptor _ | OpCapabilitySet, Capabilities _ | (OpLoadSnapshot | OpExportRuntimeState), Snapshot _
  | (OpSaveSnapshot | OpImportRuntimeState), Empty => true
  | _, _ => false
  end.

Lemma storage_op_roundtrip op : storage_op_of (storage_op_byte op) = Ok op /\ unsigned_fits 8 (storage_op_byte op) = true.
Proof. by destruct op. Qed.
Lemma storage_op_settled value : settled (storage_op_of value).
Proof. unfold storage_op_of. by repeat case_match. Qed.
Lemma storage_request_carries request : storage_request_fits request = true ->
  carries (encode_storage_request request) decode_storage_request request.
Proof.
  intros H. destruct (storage_op_roundtrip (storage_request_op request)) as [Eop Hop].
  eapply holds_carries with (m := decode_storage_request_payload (storage_request_op request)).
  - apply message_holds; [done..|]. unfold encode_storage_request_payload, decode_storage_request_payload, storage_request_op.
    unfold storage_request_fits in H. destruct request; cbv beta iota in H |- *; split_fits H; repeat encode_step.
  - intros bytes payload E. unfold decode_storage_request. rewrite E. cbn. by rewrite Eop.
Qed.
Lemma storage_response_carries request response :
  storage_answers (storage_request_op request) response = true -> storage_response_fits response = true ->
  carries (encode_storage_response request response) (decode_storage_response request) response.
Proof.
  intros Ha H. destruct (storage_op_roundtrip (storage_request_op request)) as [Eop Hop].
  eapply holds_carries with (m := decode_storage_response_payload (storage_request_op request)).
  - apply message_holds; [done..|]. unfold encode_storage_response_payload, decode_storage_response_payload.
    unfold storage_response_fits in H. destruct (storage_request_op request), response; try done; cbv beta iota in H |- *; repeat encode_step.
  - intros bytes payload E. unfold decode_storage_response. rewrite E. cbn. rewrite Eop. cbn. by rewrite !bool_decide_true by done.
Qed.
Lemma storage_decoding_settled request bytes :
  settled (decode_storage_request bytes) /\ settled (decode_storage_response request bytes).
Proof.
  split; apply opened_settled; intros [header payload]; repeat case_match; try done;
    (apply settled_bind; [apply storage_op_settled|]); intros op _.
  - apply decode_all_settled. unfold decode_storage_request_payload. destruct op; repeat ends_step.
  - case_match; [done|]. apply decode_all_settled. unfold decode_storage_response_payload.
    destruct (storage_request_op request); repeat ends_step.
Qed.
Lemma storage_mismatch_refused request response : storage_answers (storage_request_op request) response = false ->
  encode_storage_response request response = Err (InvalidValue "storage response did not match opcode").
Proof. unfold encode_storage_response. by destruct (storage_request_op request), response. Qed.
End Storage.

(** ** Authentication *)

Module Auth.

Inductive AuthOpCode : Set :=
| OpDescribe | OpCapabilitySet | OpAuthenticateOffline | OpAuthenticateOnline | OpAuthenticateBedrockOffline
| OpAuthenticateBedrockXbl.
#[export] Instance AuthOpCode_eq_dec : EqDecision AuthOpCode.
Proof. solve_decision. Defined.
Definition auth_op_byte (op : AuthOpCode) : Z :=
  match op with
  | OpDescribe => 1 | OpCapabilitySet => 2 | OpAuthenticateOffline => 3 | OpAuthenticateOnline => 4
  | OpAuthenticateBedrockOffline => 5 | OpAuthenticateBedrockXbl => 6
  end.
Definition auth_op_of (value : Z) : result ProtocolCodecError AuthOpCode :=
  match value with
  | 1 => Ok OpDescribe | 2 => Ok OpCapabilitySet | 3 => Ok OpAuthenticateOffline | 4 => Ok OpAuthenticateOnline
  | 5 => Ok OpAuthenticateBedrockOffline | 6 => Ok OpAuthenticateBedrockXbl
  | _ => Err (InvalidValue "invalid auth op code")
  end.

Inductive AuthMode : Set := Offline | Online | BedrockOffline | BedrockXbl.
Record AuthDescriptor : Type := mkAuthDescriptor { auth_profile : string; mode : AuthMode }.
Record BedrockAuthResult : Type := mkBedrockAuth {
  ba_player_id : PlayerId; ba_display_name : string; xuid : option string; identity_uuid : option string;
  skin_claims_blob : list byte
}.
Inductive AuthRequest : Type :=
| Describe | CapabilitySet | AuthenticateOffline (username : string) | AuthenticateOnline (username server_hash : string)
| AuthenticateBedrockOffline (display_name : string)
| AuthenticateBedrockXbl (chain_jwts : list string) (client_data_jwt : string).
Definition auth_request_op (request : AuthRequest) : AuthOpCode :=
  match request with
  | Describe => OpDescribe | CapabilitySet => OpCapabilitySet | AuthenticateOffline _ => OpAuthenticateOffline
  | AuthenticateOnline _ _ => OpAuthenticateOnline | AuthenticateBedrockOffline _ => OpAuthenticateBedrockOffline
  | AuthenticateBedrockXbl _ _ => OpAuthenticateBedrockXbl
  end.
Inductive AuthResponse : Type :=
| Descriptor (descriptor : AuthDescriptor) | Capabilities (capabilities : CapabilityAnnouncement AuthCapability)
| AuthenticatedPlayer (player_id : PlayerId) | AuthenticatedBedrockPlayer (result : BedrockAuthResult).

Definition encode_auth_mode (mode : AuthMode) : Encode :=
  write_u8 (match mode with Offline => 1 | Online => 2 | BedrockOffline => 3 | BedrockXbl => 4 end).
Definition decode_auth_mode : Decode AuthMode :=
  tag ← read_u8;
  match tag with
  | 1 => mret Offline | 2 => mret Online | 3 => mret BedrockOffline | 4 => mret BedrockXbl
  | _ => throw (InvalidValue "invalid auth mode")
  end.
#[export] Instance auth_mode_codec : Codec encode_auth_mode decode_auth_mode any.
Proof. codec_tag encode_auth_mode decode_auth_mode. Qed.
Definition encode_optional_string (value : option string) : Encode := encode_option write_string value.
Definition decode_optional_string : Decode (option string) := decode_option read_string.
#[export] Instance optional_string_codec : Codec encode_optional_string decode_optional_string (option_ok utf8_ok) :=
  option_codec write_string read_string utf8_ok.
Definition encode_bedrock_auth_result (result : BedrockAuthResult) : Encode :=
  all_out [encode_player_id (ba_player_id result); write_string (ba_display_name result);
    encode_optional_string (xuid result); encode_optional_string (identity_uuid result); write_bytes (skin_claims_blob result)].
Definition decode_bedrock_auth_result : Decode BedrockAuthResult :=
  player_id ← decode_player_id; display_name ← read_string; xuid ← decode_optional_string;
  identity_uuid ← decode_optional_string; skin_claims_blob ← read_bytes;
  mret (mkBedrockAuth player_id display_name xuid identity_uuid skin_claims_blob).
Definition bedrock_auth_fits (r : BedrockAuthResult) : bool :=
  unsigned_fits 128 (ba_player_id r) && utf8_ok (ba_display_name r) && option_ok utf8_ok (xuid r) &&
  option_ok utf8_ok (identity_uuid r).
#[export] Instance bedrock_auth_codec : Codec encode_bedrock_auth_result decode_bedrock_auth_result bedrock_auth_fits.
Proof. codec_record encode_bedrock_auth_result decode_bedrock_auth_result bedrock_auth_fits. Qed.

Definition encode_auth_request_payload (request : AuthRequest) : Encode :=
  match request with
  | Describe | CapabilitySet => all_out []
  | AuthenticateOffline username => all_out [write_string username]
  | AuthenticateOnline username server_hash => all_out [write_string username; write_string server_hash]
  | AuthenticateBedrockOffline display_name => all_out [write_string display_name]
  | AuthenticateBedrockXbl chain_jwts client_data_jwt =>
      all_out [write_vec write_string chain_jwts; write_string client_data_jwt]
  end.
Definition decode_auth_request_payload (op_code : AuthOpCode) : Decode AuthRequest :=
  match op_code with
  | OpDescribe => mret Describe
  | OpCapabilitySet => mret CapabilitySet
  | OpAuthenticateOffline => username ← read_string; mret (AuthenticateOffline username)
  | OpAuthenticateOnline => username ← read_string; server_hash ← read_string; mret (AuthenticateOnline username server_hash)
  | OpAuthenticateBedrockOffline => display_name ← read_string; mret (AuthenticateBedrockOffline display_name)
  | OpAuthenticateBedrockXbl =>
      chain_jwts ← read_vec read_string; client_data_jwt ← read_string;
      mret (AuthenticateBedrockXbl chain_jwts client_data_jwt)
  end.
Definition encode_auth_response_payload (op_code : AuthOpCode) (response : AuthResponse) : Encode :=
  match op_code, response with
  | OpDescribe, Descriptor descriptor => all_out [write_string (auth_profile descriptor); encode_auth_mode (mode descriptor)]
  | OpCapabilitySet, Capabilities capabilities => all_out [encode_capability_announcement capabilities]
  | (OpAuthenticateOffline | OpAuthenticateOnline), AuthenticatedPlayer player_id => all_out [encode_player_id player_id]
  | (OpAuthenticateBedrockOffline | OpAuthenticateBedrockXbl), AuthenticatedBedrockPlayer result =>
      all_out [encode_bedrock_auth_result result]
  | _, _ => Err (InvalidValue "auth response did not match opcode")
  end.
Definition decode_auth_response_payload (op_code : AuthOpCode) : Decode AuthResponse :=
  match op_code with
  | OpDescribe => auth_profile ← read_string; mode ← decode_auth_mode; mret (Descriptor (mkAuthDescriptor auth_profile mode))
  | OpCapabilitySet => capabilities ← decode_capability_announcement; mret (Capabilities capabilities)
  | OpAuthenticateOffline | OpAuthenticateOnline => player_id ← decode_player_id; mret (AuthenticatedPlayer player_id)
  | OpAuthenticateBedrockOffline | OpAuthenticateBedrockXbl =>
      result ← decode_bedrock_auth_result; mret (AuthenticatedBedrockPlayer result)
  end.

Definition encode_auth_request (request : AuthRequest) : Encode :=
  payload ← encode_auth_request_payload request; n ← payload_len payload;
  encode_envelope (mkHeader CURRENT_PLUGIN_ABI KindAuth (auth_op_byte (auth_request_op request)) 0 n) payload.
Definition decode_auth_request (bytes : list byte) : result ProtocolCodecError AuthRequest :=
  '(header, payload) ← decode_envelope bytes;
  if negb (bool_decide (h_plugin_kind header = KindAuth)) then Err (InvalidEnvelope "auth request had wrong plugin kind")
  else if is_response header then Err (InvalidEnvelope "auth request unexpectedly set response flag")
  else op_code ← auth_op_of (h_op_code header); decode_all (decode_auth_request_payload op_code) payload.
Definition encode_auth_response (request : AuthRequest) (response : AuthResponse) : Encode :=
  payload ← encode_auth_response_payload (auth_request_op request) response; n ← payload_len payload;
  encode_envelope (mkHeader CURRENT_PLUGIN_ABI KindAuth (auth_op_byte (auth_request_op request)) PROTOCOL_FLAG_RESPONSE n) payload.
Definition decode_auth_response (request : AuthRequest) (bytes : list byte) : result ProtocolCodecError AuthResponse :=
  '(header, payload) ← decode_envelope bytes;
  if negb (bool_decide (h_plugin_kind header = KindAuth)) then Err (InvalidEnvelope "auth response had wrong plugin kind")
  else if negb (is_response header) then Err (InvalidEnvelope "auth response was missing response flag")
  else
    op_code ← auth_op_of (h_op_code header);
    if negb (bool_decide (op_code = auth_request_op request))
    then Err (InvalidEnvelope "auth response opcode did not match request")
    else decode_all (decode_auth_response_payload (auth_request_op request)) payload.

Definition auth_request_fits (request : AuthRequest) : bool :=
  match request with
  | Describe | CapabilitySet => true
  | AuthenticateOffline name | AuthenticateBedrockOffline name => utf8_ok name
  | AuthenticateOnline name hash => utf8_ok name && utf8_ok hash
  | AuthenticateBedrockXbl chain data => forallb utf8_ok chain && utf8_ok data
  end.
Definition auth_response_fits (response : AuthResponse) : bool :=
  match response with
  | Descriptor d => utf8_ok (auth_profile d)
  | Capabilities a => announcement_fits a
  | AuthenticatedPlayer p => unsigned_fits 128 p
  | AuthenticatedBedrockPlayer r => bedrock_auth_fits r
  end.
Definition auth_answers (op : AuthOpCode) (response : AuthResponse) : bool :=
  match op, response with
  | OpDescribe, Descriptor _ | OpCapabilitySet, Capabilities _
  | (OpAuthenticateOffline | OpAuthenticateOnline), AuthenticatedPlayer _
  | (OpAuthenticateBedrockOffline | OpAuthenticateBedrockXbl), AuthenticatedBedrockPlayer _ => true
  | _, _ => false
  end.

Lemma auth_op_roundtrip op : auth_op_of (auth_op_byte op) = Ok op /\ unsigned_fits 8 (auth_op_byte op) = true.
Proof. by destruct op. Qed.
Lemma auth_op_settled value : settled (auth_op_of value).
Proof. unfold auth_op_of. by repeat case_match. Qed.
Lemma auth_request_carries request : auth_request_fits request = true ->
  carries (encode_auth_request request) decode_auth_request request.
Proof.
  intros H. destruct (auth_op_roundtrip (auth_request_op request)) as [Eop Hop].
  eapply holds_carries with (m := decode_auth_request_payload (auth_request_op request)).
  - apply message_holds; [done..|]. unfold encode_auth_request_payload, decode_auth_request_payload, auth_request_op.
    unfold auth_request_fits in H. destruct request; cbv beta iota in H |- *; split_fits H; repeat encode_step.
  - intros bytes payload E. unfold decode_auth_request. rewrite E. cbn. by rewrite Eop.
Qed.
Lemma auth_response_carries request response :
  auth_answers (auth_request_op request) response = true -> auth_response_fits response = true ->
  carries (encode_auth_response request response) (decode_auth_response request) response.
Proof.
  intros Ha H. destruct (auth_op_roundtrip (auth_request_op request)) as [Eop Hop].
  eapply holds_carries with (m := decode_auth_response_payload (auth_request_op request)).
  - apply message_holds; [done..|]. unfold encode_auth_response_payload, decode_auth_response_payload.
    unfold auth_response_fits in H. destruct (auth_request_op request), response as [[]| | |]; try done; cbv beta iota in H |- *; repeat encode_step.
  - intros bytes payload E. unfold decode_auth_response. rewrite E. cbn. rewrite Eop. cbn. by rewrite !bool_decide_true by done.
Qed.
Lemma auth_decoding_settled request bytes :
  settled (decode_auth_request bytes) /\ settled (decode_auth_response request bytes).
Proof.
  split; apply opened_settled; intros [header payload]; repeat case_match; try done;
    (apply settled_bind; [apply auth_op_settled|]); intros op _.
  - apply decode_all_settled. unfold decode_auth_request_payload. destruct op; repeat ends_step.
  - case_match; [done|]. apply decode_all_settled. unfold decode_auth_response_payload.
    destruct (auth_request_op request); repeat ends_step.
Qed.
Lemma auth_mismatch_refused request response : auth_answers (auth_request_op request) response = false ->
  encode_auth_response request response = Err (InvalidValue "auth response did not match opcode").
Proof. unfold encode_auth_response. by destruct (auth_request_op request), response. Qed.
End Auth.
