(* ===== verification/PluginGameplay.v ===== *)
(** * Gameplay plugins: requests, responses and host blobs
    ([crates/plugin/mc-plugin-contract/src/codec]: gameplay.rs, __internal/gameplay_semantic.rs)

    What the host asks of a gameplay plugin, the effects and reads the plugin answers, and the
    blobs in which the plugin queries the host while it runs. *)

From stdpp Require Import finite.
From S2P Require Import Prelude Bytes Parsing RevyCore VoxelModel VoxelItems VoxelContent VoxelState VoxelEvents VoxelTx JavaSession PluginBinary PluginInventory PluginShared.

Definition PluginGenerationId : Type := Z.

(** ** Requests *)

Inductive GameplayOpCode : Set :=
| OpDescribe | OpCapabilitySet | OpHandlePlayerJoin | OpHandleCommand | OpHandleTick | OpSessionClosed
| OpExportSessionState | OpImportSessionState.
#[export] Instance GameplayOpCode_eq_dec : EqDecision GameplayOpCode.
Proof. solve_decision. Defined.
Definition gameplay_op_byte (op : GameplayOpCode) : Z :=
  match op with
  | OpDescribe => 1 | OpCapabilitySet => 2 | OpHandlePlayerJoin => 3 | OpHandleCommand => 4 | OpHandleTick => 5
  | OpSessionClosed => 6 | OpExportSessionState => 7 | OpImportSessionState => 8
  end.
Definition gameplay_op_of (value : Z) : result ProtocolCodecError GameplayOpCode :=
  match value with
  | 1 => Ok OpDescribe | 2 => Ok OpCapabilitySet | 3 => Ok OpHandlePlayerJoin | 4 => Ok OpHandleCommand
  | 5 => Ok OpHandleTick | 6 => Ok OpSessionClosed | 7 => Ok OpExportSessionState | 8 => Ok OpImportSessionState
  | _ => Err (InvalidValue "invalid gameplay op code")
  end.

Record GameplaySessionSnapshot : Type := mkGameplaySession {
  gs_phase : ConnectionPhase; gs_player_id : option PlayerId; gs_entity_id : option EntityId;
  gs_protocol : ClosedCapabilitySet ProtocolCapability; gameplay_profile : string;
  protocol_generation : option PluginGenerationId; gameplay_generation : option PluginGenerationId
}.
Inductive GameplayRequest : Type :=
| Describe | CapabilitySet | HandlePlayerJoin (session : GameplaySessionSnapshot) (player_id : PlayerId) (now_ms : Z)
| HandleCommand (session : GameplaySessionSnapshot) (command : GameplayCommand) (now_ms : Z)
| HandleTick (session : GameplaySessionSnapshot) (now_ms : Z) | SessionClosed (session : GameplaySessionSnapshot)
| ExportSessionState (session : GameplaySessionSnapshot)
| ImportSessionState (session : GameplaySessionSnapshot) (blob : list byte).
Definition gameplay_request_op (request : GameplayRequest) : GameplayOpCode :=
  match request with
  | Describe => OpDescribe | CapabilitySet => OpCapabilitySet | HandlePlayerJoin _ _ _ => OpHandlePlayerJoin
  | HandleCommand _ _ _ => OpHandleCommand | HandleTick _ _ => OpHandleTick | SessionClosed _ => OpSessionClosed
  | ExportSessionState _ => OpExportSessionState | ImportSessionState _ _ => OpImportSessionState
  end.
Record GameplayDescriptor : Type := mkGameplayDescriptor { profile : string }.
Inductive GameplayResponse : Type :=
| Descriptor (descriptor : GameplayDescriptor) | Capabilities (capabilities : CapabilityAnnouncement GameplayCapability)
| EffectBatch (batch : GameplayEffectBatch) | SessionTransferBlob (blob : list byte) | Empty.

(** ** Sessions and events *)

Definition encode_gameplay_descriptor (descriptor : GameplayDescriptor) : Encode := all_out [write_string (profile descriptor)].
Definition decode_gameplay_descriptor : Decode GameplayDescriptor := profile ← read_string; mret (mkGameplayDescriptor profile).
Definition gameplay_descriptor_fits (d : GameplayDescriptor) : bool := utf8_ok (profile d).
#[export] Instance gameplay_descriptor_codec :
  Codec encode_gameplay_descriptor decode_gameplay_descriptor gameplay_descriptor_fits.
Proof. codec_record encode_gameplay_descriptor decode_gameplay_descriptor gameplay_descriptor_fits. Qed.

Definition encode_gameplay_session_snapshot (s : GameplaySessionSnapshot) : Encode :=
  all_out [encode_connection_phase (gs_phase s); encode_option encode_player_id (gs_player_id s);
    encode_option encode_entity_id (gs_entity_id s); encode_capability_announcement (announcement_new (gs_protocol s));
    write_string (gameplay_profile s); encode_option write_u64 (protocol_generation s);
    encode_option write_u64 (gameplay_generation s)].
Definition decode_gameplay_session_snapshot : Decode GameplaySessionSnapshot :=
  phase ← decode_connection_phase; player_id ← decode_option decode_player_id; entity_id ← decode_option decode_entity_id;
  announcement ← decode_capability_announcement; gameplay_profile ← read_string;
  protocol_generation ← decode_option read_u64; gameplay_generation ← decode_option read_u64;
  mret (mkGameplaySession phase player_id entity_id (capabilities announcement) gameplay_profile protocol_generation
    gameplay_generation).
Definition gameplay_session_fits (s : GameplaySessionSnapshot) : bool :=
  option_ok (unsigned_fits 128) (gs_player_id s) && option_ok (signed_fits 32) (gs_entity_id s) &&
  utf8_ok (gameplay_profile s) && option_ok (unsigned_fits 64) (protocol_generation s) &&
  option_ok (unsigned_fits 64) (gameplay_generation s).
#[export] Instance gameplay_session_codec :
  Codec encode_gameplay_session_snapshot decode_gameplay_session_snapshot gameplay_session_fits.
Proof. codec_record encode_gameplay_session_snapshot decode_gameplay_session_snapshot gameplay_session_fits. Qed.

Definition encode_targeted_event (e : TargetedEvent) : Encode :=
  all_out [
    match target e with
    | ToConnection connection_id => all_out [write_u8 1; write_u64 connection_id]
    | ToPlayer player_id => all_out [write_u8 2; encode_player_id player_id]
    | EveryoneExcept player_id => all_out [write_u8 3; encode_player_id player_id]
    end;
    encode_core_event (event e)].
Definition read_event_target : Decode EventTarget :=
  tag ← read_u8;
  match tag with
  | 1 => connection_id ← read_u64; mret (ToConnection connection_id)
  | 2 => player_id ← decode_player_id; mret (ToPlayer player_id)
  | 3 => player_id ← decode_player_id; mret (EveryoneExcept player_id)
  | _ => throw (InvalidValue "invalid targeted event tag")
  end.
Definition decode_targeted_event : Decode TargetedEvent :=
  target ← read_event_target; event ← decode_core_event; mret (mkEvent target event).
Definition target_fits (t : EventTarget) : bool :=
  match t with ToConnection c => unsigned_fits 64 c | ToPlayer p | EveryoneExcept p => unsigned_fits 128 p end.
Definition targeted_fits (e : TargetedEvent) : bool := target_fits (target e) && core_event_fits (event e).
#[export] Instance event_target_codec : Codec
  (fun t => match t with
    | ToConnection connection_id => all_out [write_u8 1; write_u64 connection_id]
    | ToPlayer player_id => all_out [write_u8 2; encode_player_id player_id]
    | EveryoneExcept player_id => all_out [write_u8 3; encode_player_id player_id]
    end) read_event_target target_fits.
Proof.
  split; [intros t Ht; unfold read_event_target, target_fits in *; destruct t; repeat encode_step|].
  intros s. unfold read_event_target. repeat ends_step.
Qed.
#[export] Instance targeted_codec : Codec encode_targeted_event decode_targeted_event targeted_fits.
Proof.
  split; [|intros s; unfold decode_targeted_event; repeat ends_step].
  intros [t e] H. unfold targeted_fits in H. cbn [target event] in H. split_fits H. unfold encode_targeted_event, decode_targeted_event.
  cbn [target event]. eapply encodes_cons; [by apply (codec_encodes (Codec := event_target_codec))|]. repeat encode_step.
Qed.
Definition encode_targeted_events (events : list TargetedEvent) : Encode := write_vec encode_targeted_event events.
Definition decode_targeted_events : Decode (list TargetedEvent) := read_vec decode_targeted_event.

(** ** Reads and effects *)

Definition encode_can_edit_key (key : PlayerId * BlockPos) : Encode := all_out [encode_player_id key.1; encode_block_pos key.2].
Definition decode_can_edit_key : Decode (PlayerId * BlockPos) :=
  player_id ← decode_player_id; position ← decode_block_pos; mret (player_id, position).
Definition can_edit_key_fits (key : PlayerId * BlockPos) : bool := unsigned_fits 128 key.1 && block_pos_fits key.2.
#[export] Instance can_edit_key_codec : Codec encode_can_edit_key decode_can_edit_key can_edit_key_fits.
Proof. codec_record encode_can_edit_key decode_can_edit_key can_edit_key_fits. Qed.

Definition encode_gameplay_read_set (reads : SemanticReadSet) : Encode :=
  all_out [encode_option encode_world_meta (sr_world_meta reads);
    write_map encode_player_id (encode_option encode_player_snapshot) (sr_player_snapshots reads);
    write_map encode_block_pos encode_optional_block_state (sr_block_states reads);
    write_map encode_block_pos (encode_option encode_block_entity_state) (sr_block_entities reads);
    write_map encode_can_edit_key write_bool (sr_can_edit_block reads)].
Definition decode_gameplay_read_set : Decode SemanticReadSet :=
  world_meta ← decode_option decode_world_meta;
  player_snapshots ← read_map decode_player_id (decode_option decode_player_snapshot);
  block_states ← read_map decode_block_pos decode_optional_block_state;
  block_entities ← read_map decode_block_pos (decode_option decode_block_entity_state);
  can_edit_block ← read_map decode_can_edit_key read_bool;
  mret (mkSemanticReads world_meta player_snapshots block_states block_entities can_edit_block).
Definition read_set_fits (r : SemanticReadSet) : bool :=
  option_ok world_meta_fits (sr_world_meta r) && map_ok (unsigned_fits 128) (option_ok player_snapshot_fits) (sr_player_snapshots r) &&
  map_ok block_pos_fits (option_ok block_state_fits) (sr_block_states r) &&
  map_ok block_pos_fits (option_ok block_entity_fits) (sr_block_entities r) && map_ok can_edit_key_fits any (sr_can_edit_block r).
#[export] Instance read_set_codec : Codec encode_gameplay_read_set decode_gameplay_read_set read_set_fits.
Proof. codec_record encode_gameplay_read_set decode_gameplay_read_set read_set_fits. Qed.

Definition encode_gameplay_effect (effect : GameplayEffect) : Encode :=
  match effect with
  | EffectPlayerPose player_id position yaw pitch on_ground =>
      all_out [write_u8 1; encode_player_id player_id; encode_option encode_vec3 position; encode_option write_f32 yaw;
        encode_option write_f32 pitch; write_bool on_ground]
  | EffectSelectedHotbarSlot player_id slot => all_out [write_u8 2; encode_player_id player_id; write_u8 slot]
  | EffectInventorySlot player_id slot stack =>
      all_out [write_u8 3; encode_player_id player_id; encode_inventory_slot slot; encode_option encode_item_stack stack]
  | EffectClearMining player_id => all_out [write_u8 4; encode_player_id player_id]
  | EffectBeginMining player_id position duration_ms =>
      all_out [write_u8 5; encode_player_id player_id; encode_block_pos position; write_u64 duration_ms]
  | EffectOpenContainerAt player_id position => all_out [write_u8 6; encode_player_id player_id; encode_block_pos position]
  | EffectOpenVirtualContainer player_id kind => all_out [write_u8 7; encode_player_id player_id; write_string kind]
  | EffectSetBlock position block => all_out [write_u8 8; encode_block_pos position; encode_optional_block_state block]
  | EffectSpawnDroppedItem position item => all_out [write_u8 9; encode_vec3 position; encode_item_stack item]
  | EffectEmitEvent event => all_out [write_u8 10; encode_targeted_event event]
  end.
Definition decode_gameplay_effect : Decode GameplayEffect :=
  tag ← read_u8;
  match tag with
  | 1 =>
      player_id ← decode_player_id; position ← decode_option decode_vec3; yaw ← decode_option read_f32;
      pitch ← decode_option read_f32; on_ground ← read_bool; mret (EffectPlayerPose player_id position yaw pitch on_ground)
  | 2 => player_id ← decode_player_id; slot ← read_u8; mret (EffectSelectedHotbarSlot player_id slot)
  | 3 =>
      player_id ← decode_player_id; slot ← decode_inventory_slot; stack ← decode_option decode_item_stack;
      mret (EffectInventorySlot player_id slot stack)
  | 4 => player_id ← decode_player_id; mret (EffectClearMining player_id)
  | 5 =>
      player_id ← decode_player_id; position ← decode_block_pos; duration_ms ← read_u64;
      mret (EffectBeginMining player_id position duration_ms)
  | 6 => player_id ← decode_player_id; position ← decode_block_pos; mret (EffectOpenContainerAt player_id position)
  | 7 => player_id ← decode_player_id; kind ← read_string; mret (EffectOpenVirtualContainer player_id kind)
  | 8 => position ← decode_block_pos; block ← decode_optional_block_state; mret (EffectSetBlock position block)
  | 9 => position ← decode_vec3; item ← decode_item_stack; mret (EffectSpawnDroppedItem position item)
  | 10 => event ← decode_targeted_event; mret (EffectEmitEvent event)
  | _ => throw (InvalidValue "invalid gameplay effect tag")
  end.
Definition effect_fits (e : GameplayEffect) : bool :=
  match e with
  | EffectPlayerPose p position yaw pitch _ =>
      unsigned_fits 128 p && option_ok vec3_fits position && option_ok f32_ok yaw && option_ok f32_ok pitch
  | EffectSelectedHotbarSlot p slot => unsigned_fits 128 p && unsigned_fits 8 slot
  | EffectInventorySlot p slot stack => unsigned_fits 128 p && slot_ok slot && option_ok stack_ok stack
  | EffectClearMining p => unsigned_fits 128 p
  | EffectBeginMining p position d => unsigned_fits 128 p && block_pos_fits position && unsigned_fits 64 d
  | EffectOpenContainerAt p position => unsigned_fits 128 p && block_pos_fits position
  | EffectOpenVirtualContainer p kind => unsigned_fits 128 p && utf8_ok kind
  | EffectSetBlock position block => block_pos_fits position && option_ok block_state_fits block
  | EffectSpawnDroppedItem position item => vec3_fits position && stack_ok item
  | EffectEmitEvent e => targeted_fits e
  end.
#[export] Instance effect_codec : Codec encode_gameplay_effect decode_gameplay_effect effect_fits.
Proof. codec_enum encode_gameplay_effect decode_gameplay_effect effect_fits. Qed.

Definition encode_gameplay_effect_batch (batch : GameplayEffectBatch) : Encode :=
  all_out [write_u64 (b_now_ms batch); encode_gameplay_read_set (b_reads batch); write_vec encode_gameplay_effect (b_effects batch)].
Definition decode_gameplay_effect_batch : Decode GameplayEffectBatch :=
  now_ms ← read_u64; reads ← decode_gameplay_read_set; effects ← read_vec decode_gameplay_effect;
  mret (mkBatch now_ms reads effects).
Definition batch_fits (b : GameplayEffectBatch) : bool :=
  unsigned_fits 64 (b_now_ms b) && read_set_fits (b_reads b) && forallb effect_fits (b_effects b).
#[export] Instance batch_codec : Codec encode_gameplay_effect_batch decode_gameplay_effect_batch batch_fits.
Proof. codec_record encode_gameplay_effect_batch decode_gameplay_effect_batch batch_fits. Qed.

(** ** Payloads and messages *)

Definition encode_gameplay_request_payload (request : GameplayRequest) : Encode :=
  match request with
  | Describe | CapabilitySet => all_out []
  | HandlePlayerJoin session player_id now_ms =>
      all_out [encode_gameplay_session_snapshot session; encode_player_id player_id; write_u64 now_ms]
  | HandleCommand session command now_ms =>
      all_out [encode_gameplay_session_snapshot session; encode_gameplay_command command; write_u64 now_ms]
  | HandleTick session now_ms => all_out [encode_gameplay_session_snapshot session; write_u64 now_ms]
  | SessionClosed session | ExportSessionState session => all_out [encode_gameplay_session_snapshot session]
  | ImportSessionState session blob => all_out [encode_gameplay_session_snapshot session; write_bytes blob]
  end.
Definition decode_gameplay_request_payload (op_code : GameplayOpCode) : Decode GameplayRequest :=
  match op_code with
  | OpDescribe => mret Describe
  | OpCapabilitySet => mret CapabilitySet
  | OpHandlePlayerJoin =>
      session ← decode_gameplay_session_snapshot; player_id ← decode_player_id; now_ms ← read_u64;
      mret (HandlePlayerJoin session player_id now_ms)
  | OpHandleCommand =>
      session ← decode_gameplay_session_snapshot; command ← decode_gameplay_command; now_ms ← read_u64;
      mret (HandleCommand session command now_ms)
  | OpHandleTick => session ← decode_gameplay_session_snapshot; now_ms ← read_u64; mret (HandleTick session now_ms)
  | OpSessionClosed => session ← decode_gameplay_session_snapshot; mret (SessionClosed session)
  | OpExportSessionState => session ← decode_gameplay_session_snapshot; mret (ExportSessionState session)
  | OpImportSessionState => session ← decode_gameplay_session_snapshot; blob ← read_bytes; mret (ImportSessionState session blob)
  end.
Definition encode_gameplay_response_payload (op_code : GameplayOpCode) (response : GameplayResponse) : Encode :=
  match op_code, response with
  | OpDescribe, Descriptor descriptor => all_out [encode_gameplay_descriptor descriptor]
  | OpCapabilitySet, Capabilities capability_set => all_out [encode_capability_announcement capability_set]
  | (OpHandlePlayerJoin | OpHandleCommand | OpHandleTick), EffectBatch batch => all_out [encode_gameplay_effect_batch batch]
  | (OpSessionClosed | OpImportSessionState), Empty => all_out []
  | OpExportSessionState, SessionTransferBlob blob => all_out [write_bytes blob]
  | _, _ => Err (InvalidValue "unexpected gameplay response payload")
  end.
Definition decode_gameplay_response_payload (op_code : GameplayOpCode) : Decode GameplayResponse :=
  match op_code with
  | OpDescribe => descriptor ← decode_gameplay_descriptor; mret (Descriptor descriptor)
  | OpCapabilitySet => capabilities ← decode_capability_announcement; mret (Capabilities capabilities)
  | OpHandlePlayerJoin | OpHandleCommand | OpHandleTick => batch ← decode_gameplay_effect_batch; mret (EffectBatch batch)
  | OpSessionClosed | OpImportSessionState => mret Empty
  | OpExportSessionState => blob ← read_bytes; mret (SessionTransferBlob blob)
  end.

Definition encode_gameplay_request (request : GameplayRequest) : Encode :=
  payload ← encode_gameplay_request_payload request; n ← payload_len payload;
  encode_envelope (mkHeader CURRENT_PLUGIN_ABI KindGameplay (gameplay_op_byte (gameplay_request_op request)) 0 n) payload.
Definition decode_gameplay_request (bytes : list byte) : result ProtocolCodecError GameplayRequest :=
  '(header, payload) ← decode_envelope bytes;
  if negb (bool_decide (h_plugin_kind header = KindGameplay))
  then Err (InvalidEnvelope "gameplay request had wrong plugin kind")
  else if is_response header then Err (InvalidEnvelope "gameplay request unexpectedly set response flag")
  else op_code ← gameplay_op_of (h_op_code header); decode_all (decode_gameplay_request_payload op_code) payload.
Definition encode_gameplay_response (request : GameplayRequest) (response : GameplayResponse) : Encode :=
  payload ← encode_gameplay_response_payload (gameplay_request_op request) response; n ← payload_len payload;
  encode_envelope (mkHeader CURRENT_PLUGIN_ABI KindGameplay (gameplay_op_byte (gameplay_request_op request))
    PROTOCOL_FLAG_RESPONSE n) payload.
Definition decode_gameplay_response (request : GameplayRequest) (bytes : list byte) :
    result ProtocolCodecError GameplayResponse :=
  '(header, payload) ← decode_envelope bytes;
  if negb (bool_decide (h_plugin_kind header = KindGameplay))
  then Err (InvalidEnvelope "gameplay response had wrong plugin kind")
  else if negb (is_response header) then Err (InvalidEnvelope "gameplay response was missing response flag")
  else
    op_code ← gameplay_op_of (h_op_code header);
    if negb (bool_decide (op_code = gameplay_request_op request))
    then Err (InvalidEnvelope "gameplay response opcode did not match request")
    else decode_all (decode_gameplay_response_payload (gameplay_request_op request)) payload.

Definition gameplay_request_fits (request : GameplayRequest) : bool :=
  match request with
  | Describe | CapabilitySet => true
  | HandlePlayerJoin s p now => gameplay_session_fits s && unsigned_fits 128 p && unsigned_fits 64 now
  | HandleCommand s c now => gameplay_session_fits s && gameplay_command_fits c && unsigned_fits 64 now
  | HandleTick s now => gameplay_session_fits s && unsigned_fits 64 now
  | SessionClosed s | ExportSessionState s | ImportSessionState s _ => gameplay_session_fits s
  end.
Definition gameplay_response_fits (response : GameplayResponse) : bool :=
  match response with
  | Descriptor d => gameplay_descriptor_fits d
  | Capabilities a => announcement_fits a
  | EffectBatch b => batch_fits b
  | SessionTransferBlob _ | Empty => true
  end.
Definition gameplay_answers (op : GameplayOpCode) (response : GameplayResponse) : bool :=
  match op, response with
  | OpDescribe, Descriptor _ | OpCapabilitySet, Capabilities _
  | (OpHandlePlayerJoin | OpHandleCommand | OpHandleTick), EffectBatch _
  | (OpSessionClosed | OpImportSessionState), Empty | OpExportSessionState, SessionTransferBlob _ => true
  | _, _ => false
  end.

Lemma gameplay_op_roundtrip op : gameplay_op_of (gameplay_op_byte op) = Ok op /\ unsigned_fits 8 (gameplay_op_byte op) = true.
Proof. by destruct op. Qed.
Lemma gameplay_op_settled value : settled (gameplay_op_of value).
Proof. unfold gameplay_op_of. by repeat case_match. Qed.
Lemma gameplay_request_carries request : gameplay_request_fits request = true ->
  carries (encode_gameplay_request request) decode_gameplay_request request.
Proof.
  intros H. destruct (gameplay_op_roundtrip (gameplay_request_op request)) as [Eop Hop].
  eapply holds_carries with (m := decode_gameplay_request_payload (gameplay_request_op request)).
  - apply message_holds; [done..|]. unfold encode_gameplay_request_payload, decode_gameplay_request_payload, gameplay_request_op.
    unfold gameplay_request_fits in H. destruct request; cbv beta iota in H |- *; split_fits H; repeat encode_step.
  - intros bytes payload E. unfold decode_gameplay_request. rewrite E. cbn. by rewrite Eop.
Qed.
Lemma gameplay_response_carries request response :
  gameplay_answers (gameplay_request_op request) response = true -> gameplay_response_fits response = true ->
  carries (encode_gameplay_response request response) (decode_gameplay_response request) response.
Proof.
  intros Ha H. destruct (gameplay_op_roundtrip (gameplay_request_op request)) as [Eop Hop].
  eapply holds_carries with (m := decode_gameplay_response_payload (gameplay_request_op request)).
  - apply message_holds; [done..|]. unfold encode_gameplay_response_payload, decode_gameplay_response_payload.
    unfold gameplay_response_fits in H. destruct (gameplay_request_op request), response; try done; cbv beta iota in H |- *; repeat encode_step.
  - intros bytes payload E. unfold decode_gameplay_response. rewrite E. cbn. rewrite Eop. cbn. by rewrite !bool_decide_true by done.
Qed.
Lemma gameplay_decoding_settled request bytes :
  settled (decode_gameplay_request bytes) /\ settled (decode_gameplay_response request bytes).
Proof.
  split; apply opened_settled; intros [header payload]; repeat case_match; try done;
    (apply settled_bind; [apply gameplay_op_settled|]); intros op _.
  - apply decode_all_settled. unfold decode_gameplay_request_payload. destruct op; repeat ends_step.
  - case_match; [done|]. apply decode_all_settled. unfold decode_gameplay_response_payload.
    destruct (gameplay_request_op request); repeat ends_step.
Qed.
Lemma gameplay_mismatch_refused request response : gameplay_answers (gameplay_request_op request) response = false ->
  encode_gameplay_response request response = Err (InvalidValue "unexpected gameplay response payload").
Proof. unfold encode_gameplay_response. by destruct (gameplay_request_op request), response. Qed.
