(* ===== verification/PluginAdmin.v ===== *)
(** * Admin surfaces: requests and responses
    ([crates/plugin/mc-plugin-contract/src/codec/admin_surface.rs],
    [crates/runtime/revy-server-types/src/lib.rs])

    The payload of an admin-surface message is JSON, which serde_json writes and reads: it is a
    parameter, [Json].  The envelope, the order of the checks and the agreement of the operation
    code with the payload are this crate's. *)

From stdpp Require Import finite.
From S2P Require Import Prelude Bytes Parsing RevyCore ProtoPacket PluginBinary.

(** ** Vocabulary *)

Inductive AdminPermission : Set := PermStatus | PermSessions | PermReloadRuntime | PermUpgradeRuntime | PermShutdown.
#[export] Instance AdminPermission_eq_dec : EqDecision AdminPermission.
Proof. solve_decision. Defined.
Definition permission_str (p : AdminPermission) : string :=
  match p with
  | PermStatus => "status" | PermSessions => "sessions" | PermReloadRuntime => "reload-runtime"
  | PermUpgradeRuntime => "upgrade-runtime" | PermShutdown => "shutdown"
  end.
Inductive RuntimeReloadMode : Set := ReloadArtifacts | ReloadTopology | ReloadCore | ReloadFull.
#[export] Instance RuntimeReloadMode_eq_dec : EqDecision RuntimeReloadMode.
Proof. solve_decision. Defined.
Definition reload_mode_str (mode : RuntimeReloadMode) : string :=
  match mode with ReloadArtifacts => "artifacts" | ReloadTopology => "topology" | ReloadCore => "core" | ReloadFull => "full" end.
Inductive AdminRequest : Set :=
| AdminHelp | AdminStatus | AdminSessions | AdminReloadRuntime (mode : RuntimeReloadMode)
| AdminUpgradeRuntime (executable_path : string) | AdminShutdown.
Definition required_permission (request : AdminRequest) : option AdminPermission :=
  match request with
  | AdminHelp => None | AdminStatus => Some PermStatus | AdminSessions => Some PermSessions
  | AdminReloadRuntime _ => Some PermReloadRuntime | AdminUpgradeRuntime _ => Some PermUpgradeRuntime
  | AdminShutdown => Some PermShutdown
  end.

Definition encode_reload_mode (mode : RuntimeReloadMode) : Z :=
  match mode with ReloadArtifacts => 1 | ReloadTopology => 2 | ReloadCore => 3 | ReloadFull => 4 end.
Definition decode_reload_mode (mode : Z) : result ProtocolCodecError RuntimeReloadMode :=
  match mode with
  | 1 => Ok ReloadArtifacts | 2 => Ok ReloadTopology | 3 => Ok ReloadCore | 4 => Ok ReloadFull
  | _ => Err (InvalidValue "invalid admin-surface reload mode")
  end.

Inductive AdminSurfaceOpCode : Set :=
| AdmDescribe | AdmCapabilitySet | AdmDeclareInstance | AdmStart | AdmPauseForUpgrade | AdmResumeFromUpgrade
| AdmActivateAfterUpgradeCommit | AdmResumeAfterUpgradeRollback | AdmShutdown.
#[export] Instance AdminSurfaceOpCode_eq_dec : EqDecision AdminSurfaceOpCode.
Proof. solve_decision. Defined.
Definition admin_op_byte (op : AdminSurfaceOpCode) : Z :=
  match op with
  | AdmDescribe => 1 | AdmCapabilitySet => 2 | AdmDeclareInstance => 3 | AdmStart => 4 | AdmPauseForUpgrade => 5
  | AdmResumeFromUpgrade => 6 | AdmActivateAfterUpgradeCommit => 7 | AdmResumeAfterUpgradeRollback => 8 | AdmShutdown => 9
  end.
Definition admin_op_of (value : Z) : result ProtocolCodecError AdminSurfaceOpCode :=
  match value with
  | 1 => Ok AdmDescribe | 2 => Ok AdmCapabilitySet | 3 => Ok AdmDeclareInstance | 4 => Ok AdmStart
  | 5 => Ok AdmPauseForUpgrade | 6 => Ok AdmResumeFromUpgrade | 7 => Ok AdmActivateAfterUpgradeCommit
  | 8 => Ok AdmResumeAfterUpgradeRollback | 9 => Ok AdmShutdown
  | _ => Err (InvalidValue "invalid admin-surface op code")
  end.

Record AdminSurfaceDescriptor : Set := mkAdminDescriptor { surface_profile : string }.
Record AdminSurfaceEndpointView : Set := mkEndpointView { ev_surface : string; ev_local_addr : string }.
Record AdminSurfaceStatusView : Set := mkStatusView { endpoints : list AdminSurfaceEndpointView }.
Record AdminSurfacePauseView : Set := mkPauseView { pv_resume_payload : list byte }.
Record AdminSurfacePrincipalDeclaration : Set := mkPrincipal { principal_id : string; permissions : list AdminPermission }.
Record AdminSurfaceInstanceDeclaration : Set := mkDeclaration {
  principals : list AdminSurfacePrincipalDeclaration; required_process_resources : list string;
  supports_upgrade_handoff : bool
}.
Inductive AdminSurfaceRequest : Set :=
| SurfaceDescribe | SurfaceCapabilitySet
| SurfaceDeclareInstance (instance_id : string) (surface_config_path : option string)
| SurfaceStart (instance_id : string) (surface_config_path : option string)
| SurfacePauseForUpgrade (instance_id : string)
| SurfaceResumeFromUpgrade (instance_id : string) (surface_config_path : option string) (resume_payload : list byte)
| SurfaceActivateAfterUpgradeCommit (instance_id : string) | SurfaceResumeAfterUpgradeRollback (instance_id : string)
| SurfaceShutdown (instance_id : string).
Definition admin_request_op (request : AdminSurfaceRequest) : AdminSurfaceOpCode :=
  match request with
  | SurfaceDescribe => AdmDescribe | SurfaceCapabilitySet => AdmCapabilitySet
  | SurfaceDeclareInstance _ _ => AdmDeclareInstance | SurfaceStart _ _ => AdmStart
  | SurfacePauseForUpgrade _ => AdmPauseForUpgrade | SurfaceResumeFromUpgrade _ _ _ => AdmResumeFromUpgrade
  | SurfaceActivateAfterUpgradeCommit _ => AdmActivateAfterUpgradeCommit
  | SurfaceResumeAfterUpgradeRollback _ => AdmResumeAfterUpgradeRollback | SurfaceShutdown _ => AdmShutdown
  end.
Inductive AdminSurfaceResponse : Type :=
| SurfaceDescriptor (descriptor : AdminSurfaceDescriptor)
| SurfaceCapabilities (capabilities : CapabilityAnnouncement AdminSurfaceCapability)
| SurfaceDeclared (declaration : AdminSurfaceInstanceDeclaration) | SurfaceStarted (status : AdminSurfaceStatusView)
| SurfacePaused (pause : AdminSurfacePauseView) | SurfaceResumed (status : AdminSurfaceStatusView) | SurfaceActivated
| SurfaceResumedAfterRollback (status : AdminSurfaceStatusView) | SurfaceShutdownComplete.

(** ** Messages *)

(** [serde_json::to_vec] and [serde_json::from_slice]; what is serialized is read back. *)
Class Json (A : Type) : Type := { to_vec : A -> option (list byte); from_slice : list byte -> option A }.
Class JsonLaws (A : Type) `{Json A} : Prop := {
  json_roundtrip (a : A) bytes : to_vec a = Some bytes -> from_slice bytes = Some a
}.

Section AdminSurface.
Context `{Json AdminSurfaceRequest, Json AdminSurfaceResponse}.

Definition encode_payload {A} `{Json A} (value : A) : Encode :=
  match to_vec value with
  | Some bytes => Ok bytes
  | None => Err (InvalidValue "failed to encode admin-surface payload")
  end.
Definition decode_payload {A} `{Json A} (bytes : list byte) : result ProtocolCodecError A :=
  match from_slice bytes with
  | Some value => Ok value
  | None => Err (InvalidValue "failed to decode admin-surface payload")
  end.
Definition encode_admin_surface_request (request : AdminSurfaceRequest) : Encode :=
  payload ← encode_payload request; n ← payload_len payload;
  encode_envelope (mkHeader CURRENT_PLUGIN_ABI KindAdminSurface (admin_op_byte (admin_request_op request)) 0 n) payload.
Definition decode_admin_surface_request (bytes : list byte) : result ProtocolCodecError AdminSurfaceRequest :=
  '(header, payload) ← decode_envelope bytes;
  if negb (bool_decide (h_plugin_kind header = KindAdminSurface))
  then Err (InvalidEnvelope "admin-surface request had wrong plugin kind")
  else if is_response header then Err (InvalidEnvelope "admin-surface request unexpectedly set response flag")
  else
    request ← decode_payload payload; op_code ← admin_op_of (h_op_code header);
    if negb (bool_decide (admin_request_op request = op_code))
    then Err (InvalidEnvelope "admin-surface request opcode did not match payload")
    else Ok request.
Definition encode_admin_surface_response (request : AdminSurfaceRequest) (response : AdminSurfaceResponse) : Encode :=
  payload ← encode_payload response; n ← payload_len payload;
  encode_envelope (mkHeader CURRENT_PLUGIN_ABI KindAdminSurface (admin_op_byte (admin_request_op request))
    PROTOCOL_FLAG_RESPONSE n) payload.
Definition decode_admin_surface_response (request : AdminSurfaceRequest) (bytes : list byte) :
    result ProtocolCodecError AdminSurfaceResponse :=
  '(header, payload) ← decode_envelope bytes;
  if negb (bool_decide (h_plugin_kind header = KindAdminSurface))
  then Err (InvalidEnvelope "admin-surface response had wrong plugin kind")
  else if negb (is_response header) then Err (InvalidEnvelope "admin-surface response was missing response flag")
  else
    op_code ← admin_op_of (h_op_code header);
    if negb (bool_decide (admin_request_op request = op_code))
    then Err (InvalidEnvelope "admin-surface response opcode did not match request")
    else decode_payload payload.

(** ** Lemmas *)

Lemma reload_mode_roundtrip mode : decode_reload_mode (encode_reload_mode mode) = Ok mode.
Proof. by destruct mode. Qed.
Lemma admin_op_roundtrip op : admin_op_of (admin_op_byte op) = Ok op /\ unsigned_fits 8 (admin_op_byte op) = true.
Proof. by destruct op. Qed.
Lemma admin_op_settled value : settled (admin_op_of value).
Proof. unfold admin_op_of. by repeat case_match. Qed.
Lemma payload_settled {A} `{Json A} bytes : settled (decode_payload (A := A) bytes).
Proof. unfold decode_payload. by destruct (from_slice bytes). Qed.

(** A payload of JSON that is not too long is what the message holds. *)
Lemma message_opens kind op flags payload : unsigned_fits 8 op = true -> unsigned_fits 16 flags = true -> len payload <= u32_max ->
  exists bytes, message kind op flags (Ok payload) = Ok bytes /\
    decode_envelope bytes = Ok (mkHeader CURRENT_PLUGIN_ABI kind op flags (len payload), payload).
Proof.
  intros Hop Hflags Hlen. unfold message, payload_len. cbn [mbind result_bind]. rewrite (proj2 (Z.leb_le _ _)) by done.
  apply envelope_roundtrip; [|done]. unfold header_ok. cbn [h_abi h_op_code h_flags h_payload_len].
  by rewrite Hop, Hflags, (proj2 (unsigned_fits_spec _ _)) by (unfold u32_max in *; lia).
Qed.

(** A message of a JSON payload is read by [read], or is too long. *)
Lemma json_carries {A} kind op flags payload (read : list byte -> result ProtocolCodecError A) a :
  unsigned_fits 8 op = true -> unsigned_fits 16 flags = true ->
  (forall bytes, decode_envelope bytes = Ok (mkHeader CURRENT_PLUGIN_ABI kind op flags (len payload), payload) -> read bytes = Ok a) ->
  carries (message kind op flags (Ok payload)) read a.
Proof.
  intros Hop Hflags Hread. unfold carries. destruct (Z.leb_spec (len payload) u32_max) as [Hlen|Hlen].
  - destruct (message_opens kind op flags payload Hop Hflags Hlen) as (bytes & -> & Ed). by apply Hread.
  - unfold message, payload_len. cbn [mbind result_bind]. by rewrite (proj2 (Z.leb_gt _ _)) by done.
Qed.
(** A request whose JSON is written is read back, or is too long. *)
Lemma admin_request_carries `{!JsonLaws AdminSurfaceRequest} request : is_Some (to_vec request) ->
  carries (encode_admin_surface_request request) decode_admin_surface_request request.
Proof.
  intros [payload E]. destruct (admin_op_roundtrip (admin_request_op request)) as [Eop Hop].
  pose proof (json_carries KindAdminSurface _ 0 payload decode_admin_surface_request request Hop eq_refl) as Hc.
  unfold encode_admin_surface_request, encode_payload. rewrite E. apply Hc. intros bytes Ed.
  unfold decode_admin_surface_request, decode_payload. rewrite Ed. cbn. rewrite (json_roundtrip _ _ E). cbn. rewrite Eop.
  cbn. by rewrite !bool_decide_true by done.
Qed.
Lemma admin_response_carries `{!JsonLaws AdminSurfaceResponse} request response : is_Some (to_vec response) ->
  carries (encode_admin_surface_response request response) (decode_admin_surface_response request) response.
Proof.
  intros [payload E]. destruct (admin_op_roundtrip (admin_request_op request)) as [Eop Hop].
  pose proof (json_carries KindAdminSurface _ 1 payload (decode_admin_surface_response request) response Hop eq_refl) as Hc.
  unfold encode_admin_surface_response, encode_payload. rewrite E. apply Hc. intros bytes Ed.
  unfold decode_admin_surface_response, decode_payload. rewrite Ed. cbn. rewrite Eop. cbn.
  rewrite !bool_decide_true by done. cbn. by rewrite (json_roundtrip _ _ E).
Qed.
Lemma admin_decoding_settled request bytes :
  settled (decode_admin_surface_request bytes) /\ settled (decode_admin_surface_response request bytes).
Proof.
  split; apply opened_settled; intros [header payload]; repeat case_match; try done.
  - apply settled_bind; [apply payload_settled|]. intros r _. apply settled_bind; [apply admin_op_settled|]. intros op _. by case_match.
  - apply settled_bind; [apply admin_op_settled|]. intros op _. case_match; [done|apply payload_settled].
Qed.
End AdminSurface.
