(* ===== verification/PluginHostBlob.v ===== *)
(** * The blobs of the gameplay host interface
    ([crates/plugin/mc-plugin-contract/src/codec/gameplay.rs], module [host_blob])

    While a gameplay plugin runs, it reads the world and changes it through host callbacks whose
    arguments and answers are blobs without an envelope: a writer of its own, and a reader that
    must use up the whole blob. *)

From Stdlib Require Import Floats.SpecFloat.
From S2P Require Import Prelude Bytes Parsing ProtoPacket VoxelModel VoxelItems VoxelContent VoxelState VoxelEvents VoxelTx PluginBinary PluginInventory PluginShared PluginGameplay.

(** What a host blob promises: what fits is read back, and any bytes are read or refused. *)
Class Blob {A} (encode : A -> Encode) (decode : list byte -> result ProtocolCodecError A) (ok : A -> bool) : Prop := {
  blob_carries a : ok a = true -> carries (encode a) decode a;
  blob_settled bytes : settled (decode bytes)
}.
Lemma codec_blob {A} (put : A -> Encode) get ok `{!Codec put get ok} : Blob put (decode_all get) ok.
Proof.
  split.
  - intros a Ha. pose proof (codec_encodes a Ha) as H. unfold encodes in H. unfold carries. destruct (put a); [|done..].
    by apply decode_all_parses.
  - intros bytes. apply decode_all_settled, ends_weak, codec_ends.
Qed.

Module HostBlob.

(** ** Queries *)

Definition encode_player_id (player_id : PlayerId) : Encode := PluginShared.encode_player_id player_id.
Definition decode_player_id (bytes : list byte) : result ProtocolCodecError PlayerId := decode_all PluginShared.decode_player_id bytes.
Definition encode_block_pos (position : BlockPos) : Encode := PluginShared.encode_block_pos position.
Definition decode_block_pos (bytes : list byte) : result ProtocolCodecError BlockPos := decode_all PluginShared.decode_block_pos bytes.
Definition encode_can_edit_block_key (key : PlayerId * BlockPos) : Encode :=
  all_out [PluginShared.encode_player_id key.1; PluginShared.encode_block_pos key.2].
Definition read_can_edit_block_key : Decode (PlayerId * BlockPos) :=
  player_id ← PluginShared.decode_player_id; position ← PluginShared.decode_block_pos; mret (player_id, position).
Definition decode_can_edit_block_key (bytes : list byte) : result ProtocolCodecError (PlayerId * BlockPos) :=
  decode_all read_can_edit_block_key bytes.
Definition encode_player_snapshot (snapshot : option PlayerSnapshot) : Encode :=
  encode_option PluginShared.encode_player_snapshot snapshot.
Definition decode_player_snapshot (bytes : list byte) : result ProtocolCodecError (option PlayerSnapshot) :=
  decode_all (decode_option PluginShared.decode_player_snapshot) bytes.
Definition encode_world_meta (meta : WorldMeta) : Encode := PluginShared.encode_world_meta meta.
Definition decode_world_meta (bytes : list byte) : result ProtocolCodecError WorldMeta :=
  decode_all PluginShared.decode_world_meta bytes.
Definition encode_block_state (block_state : option BlockState) : Encode := encode_optional_block_state block_state.
Definition decode_block_state (bytes : list byte) : result ProtocolCodecError (option BlockState) :=
  decode_all decode_optional_block_state bytes.
Definition encode_block_entity (block_entity : option BlockEntityState) : Encode :=
  encode_option encode_block_entity_state block_entity.
Definition decode_block_entity (bytes : list byte) : result ProtocolCodecError (option BlockEntityState) :=
  decode_all (decode_option decode_block_entity_state) bytes.

(** ** Changes *)

Definition encode_gameplay_effect_blob (effect : GameplayEffect) : Encode := encode_gameplay_effect effect.
Definition decode_gameplay_effect_blob (bytes : list byte) : result ProtocolCodecError GameplayEffect :=
  decode_all decode_gameplay_effect bytes.

(** The arguments of the pose update, as the tuple the reader returns. *)
Definition PoseUpdate : Type := (PlayerId * option Vec3 * option spec_float * option spec_float * bool)%type.
Definition encode_player_pose_update (update : PoseUpdate) : Encode :=
  let '(player_id, position, yaw, pitch, on_ground) := update in
  all_out [PluginShared.encode_player_id player_id; encode_option encode_vec3 position; encode_option write_f32 yaw;
    encode_option write_f32 pitch; write_bool on_ground].
Definition read_player_pose_update : Decode PoseUpdate :=
  player_id ← PluginShared.decode_player_id; position ← decode_option decode_vec3; yaw ← decode_option read_f32;
  pitch ← decode_option read_f32; on_ground ← read_bool; mret (player_id, position, yaw, pitch, on_ground).
Definition decode_player_pose_update (bytes : list byte) : result ProtocolCodecError PoseUpdate :=
  decode_all read_player_pose_update bytes.
Definition encode_selected_hotbar_slot_update (update : PlayerId * Z) : Encode :=
  all_out [PluginShared.encode_player_id update.1; write_u8 update.2].
Definition read_selected_hotbar_slot_update : Decode (PlayerId * Z) :=
  player_id ← PluginShared.decode_player_id; slot ← read_u8; mret (player_id, slot).
Definition decode_selected_hotbar_slot_update (bytes : list byte) : result ProtocolCodecError (PlayerId * Z) :=
  decode_all read_selected_hotbar_slot_update bytes.
Definition encode_inventory_slot_update (update : PlayerId * InventorySlot * option ItemStack) : Encode :=
  let '(player_id, slot, stack) := update in
  all_out [PluginShared.encode_player_id player_id; encode_inventory_slot slot; encode_option encode_item_stack stack].
Definition read_inventory_slot_update : Decode (PlayerId * InventorySlot * option ItemStack) :=
  player_id ← PluginShared.decode_player_id; slot ← decode_inventory_slot; stack ← decode_option decode_item_stack;
  mret (player_id, slot, stack).
Definition decode_inventory_slot_update (bytes : list byte) :
    result ProtocolCodecError (PlayerId * InventorySlot * option ItemStack) :=
  decode_all read_inventory_slot_update bytes.
Definition encode_clear_mining (player_id : PlayerId) : Encode := encode_player_id player_id.
Definition decode_clear_mining (bytes : list byte) : result ProtocolCodecError PlayerId := decode_player_id bytes.
Definition encode_begin_mining (args : PlayerId * BlockPos * Z) : Encode :=
  let '(player_id, position, duration_ms) := args in
  all_out [PluginShared.encode_player_id player_id; PluginShared.encode_block_pos position; write_u64 duration_ms].
Definition read_begin_mining : Decode (PlayerId * BlockPos * Z) :=
  player_id ← PluginShared.decode_player_id; position ← PluginShared.decode_block_pos; duration_ms ← read_u64;
  mret (player_id, position, duration_ms).
Definition decode_begin_mining (bytes : list byte) : result ProtocolCodecError (PlayerId * BlockPos * Z) :=
  decode_all read_begin_mining bytes.
Definition encode_open_container_at (args : PlayerId * BlockPos) : Encode :=
  all_out [PluginShared.encode_player_id args.1; PluginShared.encode_block_pos args.2].
Definition read_open_container_at : Decode (PlayerId * BlockPos) :=
  player_id ← PluginShared.decode_player_id; position ← PluginShared.decode_block_pos; mret (player_id, position).
Definition decode_open_container_at (bytes : list byte) : result ProtocolCodecError (PlayerId * BlockPos) :=
  decode_all read_open_container_at bytes.
(** A kind whose length is beyond [u32] panics instead of failing. *)
Definition encode_open_virtual_container (args : PlayerId * string) : Encode :=
  all_out [PluginShared.encode_player_id args.1;
    match encode_inventory_container args.2 with Err _ => Panic | written => written end].
Definition read_open_virtual_container : Decode (PlayerId * string) :=
  player_id ← PluginShared.decode_player_id; kind ← decode_inventory_container; mret (player_id, kind).
Definition decode_open_virtual_container (bytes : list byte) : result ProtocolCodecError (PlayerId * string) :=
  decode_all read_open_virtual_container bytes.
Definition encode_set_block (args : BlockPos * option BlockState) : Encode :=
  all_out [PluginShared.encode_block_pos args.1; encode_optional_block_state args.2].
Definition read_set_block : Decode (BlockPos * option BlockState) :=
  position ← PluginShared.decode_block_pos; block ← decode_optional_block_state; mret (position, block).
Definition decode_set_block (bytes : list byte) : result ProtocolCodecError (BlockPos * option BlockState) :=
  decode_all read_set_block bytes.
Definition encode_spawn_dropped_item (args : Vec3 * ItemStack) : Encode := all_out [encode_vec3 args.1; encode_item_stack args.2].
Definition read_spawn_dropped_item : Decode (Vec3 * ItemStack) :=
  position ← decode_vec3; item ← decode_item_stack; mret (position, item).
Definition decode_spawn_dropped_item (bytes : list byte) : result ProtocolCodecError (Vec3 * ItemStack) :=
  decode_all read_spawn_dropped_item bytes.
Definition encode_targeted_event_blob (event : TargetedEvent) : Encode := encode_targeted_event event.
Definition decode_targeted_event_blob (bytes : list byte) : result ProtocolCodecError TargetedEvent :=
  decode_all decode_targeted_event bytes.

(** ** What fits *)

Definition pose_update_fits (u : PoseUpdate) : bool :=
  let '(p, position, yaw, pitch, _) := u in
  unsigned_fits 128 p && option_ok vec3_fits position && option_ok f32_ok yaw && option_ok f32_ok pitch.
Definition hotbar_update_fits (u : PlayerId * Z) : bool := unsigned_fits 128 u.1 && unsigned_fits 8 u.2.
Definition slot_update_fits (u : PlayerId * InventorySlot * option ItemStack) : bool :=
  let '(p, slot, stack) := u in unsigned_fits 128 p && slot_ok slot && option_ok stack_ok stack.
Definition begin_mining_fits (a : PlayerId * BlockPos * Z) : bool :=
  let '(p, position, d) := a in unsigned_fits 128 p && block_pos_fits position && unsigned_fits 64 d.
Definition open_at_fits (a : PlayerId * BlockPos) : bool := unsigned_fits 128 a.1 && block_pos_fits a.2.
Definition open_virtual_fits (a : PlayerId * string) : bool :=
  unsigned_fits 128 a.1 && utf8_ok a.2 && (len (string_bytes a.2) <=? u32_max).
Definition set_block_fits (a : BlockPos * option BlockState) : bool := block_pos_fits a.1 && option_ok block_state_fits a.2.
Definition spawn_item_fits (a : Vec3 * ItemStack) : bool := vec3_fits a.1 && stack_ok a.2.

(** ** The laws *)

#[global] Instance player_id_blob : Blob encode_player_id decode_player_id (unsigned_fits 128) := codec_blob _ _ _.
#[global] Instance block_pos_blob : Blob encode_block_pos decode_block_pos block_pos_fits := codec_blob _ _ _.
#[export] Instance edit_key_codec : Codec encode_can_edit_block_key read_can_edit_block_key can_edit_key_fits.
Proof. codec_record encode_can_edit_block_key read_can_edit_block_key can_edit_key_fits. Qed.
#[global] Instance edit_key_blob : Blob encode_can_edit_block_key decode_can_edit_block_key can_edit_key_fits := codec_blob _ _ _.
#[global] Instance player_snapshot_blob : Blob encode_player_snapshot decode_player_snapshot (option_ok player_snapshot_fits) :=
  codec_blob _ _ _.
#[global] Instance world_meta_blob : Blob encode_world_meta decode_world_meta world_meta_fits := codec_blob _ _ _.
#[global] Instance block_state_blob : Blob encode_block_state decode_block_state (option_ok block_state_fits) := codec_blob _ _ _.
#[global] Instance block_entity_blob : Blob encode_block_entity decode_block_entity (option_ok block_entity_fits) := codec_blob _ _ _.
#[global] Instance effect_blob : Blob encode_gameplay_effect_blob decode_gameplay_effect_blob effect_fits := codec_blob _ _ _.
#[export] Instance pose_update_codec : Codec encode_player_pose_update read_player_pose_update pose_update_fits.
Proof. split; [intros [ [ [ [] ] ] ] H; unfold pose_update_fits in H; split_fits H; unfold encode_player_pose_update, read_player_pose_update; repeat encode_step|intros s; unfold read_player_pose_update; repeat ends_step]. Qed.
#[global] Instance pose_update_blob : Blob encode_player_pose_update decode_player_pose_update pose_update_fits := codec_blob _ _ _.
#[export] Instance hotbar_update_codec :
  Codec encode_selected_hotbar_slot_update read_selected_hotbar_slot_update hotbar_update_fits.
Proof. codec_record encode_selected_hotbar_slot_update read_selected_hotbar_slot_update hotbar_update_fits. Qed.
#[global] Instance hotbar_update_blob :
  Blob encode_selected_hotbar_slot_update decode_selected_hotbar_slot_update hotbar_update_fits := codec_blob _ _ _.
#[export] Instance slot_update_codec : Codec encode_inventory_slot_update read_inventory_slot_update slot_update_fits.
Proof. split; [intros [ [] ] H; unfold slot_update_fits in H; split_fits H; unfold encode_inventory_slot_update, read_inventory_slot_update; repeat encode_step|intros s; unfold read_inventory_slot_update; repeat ends_step]. Qed.
#[global] Instance slot_update_blob : Blob encode_inventory_slot_update decode_inventory_slot_update slot_update_fits :=
  codec_blob _ _ _.
#[global] Instance clear_mining_blob : Blob encode_clear_mining decode_clear_mining (unsigned_fits 128) := player_id_blob.
#[export] Instance begin_mining_codec : Codec encode_begin_mining read_begin_mining begin_mining_fits.
Proof. split; [intros [ [] ] H; unfold begin_mining_fits in H; split_fits H; unfold encode_begin_mining, read_begin_mining; repeat encode_step|intros s; unfold read_begin_mining; repeat ends_step]. Qed.
#[global] Instance begin_mining_blob : Blob encode_begin_mining decode_begin_mining begin_mining_fits := codec_blob _ _ _.
#[export] Instance open_at_codec : Codec encode_open_container_at read_open_container_at open_at_fits.
Proof. codec_record encode_open_container_at read_open_container_at open_at_fits. Qed.
#[global] Instance open_at_blob : Blob encode_open_container_at decode_open_container_at open_at_fits := codec_blob _ _ _.
#[export] Instance open_virtual_codec : Codec encode_open_virtual_container read_open_virtual_container open_virtual_fits.
Proof.
  split; [|intros s; unfold read_open_virtual_container; repeat ends_step]. intros [p kind] H. unfold open_virtual_fits in H.
  cbn [fst snd] in H. split_fits H. match goal with H : (len _ <=? _) = true |- _ => rename H into Hlen end.
  unfold encode_open_virtual_container. cbn [fst snd].
  assert (match encode_inventory_container kind with Err _ => Panic | written => written end = encode_inventory_container kind) as ->.
  { unfold encode_inventory_container, write_string, write_bytes, write_len. by rewrite Hlen. }
  unfold read_open_virtual_container. repeat encode_step.
Qed.
#[global] Instance open_virtual_blob : Blob encode_open_virtual_container decode_open_virtual_container open_virtual_fits :=
  codec_blob _ _ _.
#[export] Instance set_block_codec : Codec encode_set_block read_set_block set_block_fits.
Proof. codec_record encode_set_block read_set_block set_block_fits. Qed.
#[global] Instance set_block_blob : Blob encode_set_block decode_set_block set_block_fits := codec_blob _ _ _.
#[export] Instance spawn_item_codec : Codec encode_spawn_dropped_item read_spawn_dropped_item spawn_item_fits.
Proof. codec_record encode_spawn_dropped_item read_spawn_dropped_item spawn_item_fits. Qed.
#[global] Instance spawn_item_blob : Blob encode_spawn_dropped_item decode_spawn_dropped_item spawn_item_fits := codec_blob _ _ _.
#[global] Instance targeted_event_blob : Blob encode_targeted_event_blob decode_targeted_event_blob targeted_fits := codec_blob _ _ _.

End HostBlob.
