(* ===== verification/PluginMessages.v ===== *)
(** * The messages of the plugin boundary
    ([crates/plugin/mc-plugin-contract/src/codec]: protocol.rs, storage.rs, auth.rs, gameplay.rs, admin_surface.rs)

    The five kinds of plugin behind one interface, [Messages]: what every kind promises of its
    requests and responses, and that no message of one kind is taken for another. *)

From stdpp Require Import finite.
From S2P Require Import Prelude Bytes Parsing RevyCore ProtoPacket VoxelModel VoxelItems VoxelContent VoxelState VoxelEvents VoxelTx JavaSession PluginBinary PluginInventory PluginShared PluginProtocol PluginStorage PluginGameplay PluginAdmin PluginHostBlob.

(** ** The kinds *)

Record Messages : Type := mkMessages {
  m_kind : PluginKind; Request : Type; Response : Type;
  (** the octet of a request's operation code *)
  op_byte : Request -> Z;
  encode_request : Request -> Encode; decode_request : list byte -> result ProtocolCodecError Request;
  encode_response : Request -> Response -> Encode;
  decode_response : Request -> list byte -> result ProtocolCodecError Response
}.
(** Which requests and responses have values of their Rust types, and which response answers
    which request. *)
Record Fits (m : Messages) : Type := mkFits {
  request_fits : Request m -> bool; response_fits : Response m -> bool; answers : Request m -> Response m -> bool
}.
Arguments request_fits {m}.
Arguments response_fits {m}.
Arguments answers {m}.

Definition protocol_messages : Messages :=
  mkMessages KindProtocol ProtocolRequest ProtocolResponse (fun r => protocol_op_byte (protocol_request_op r))
    encode_protocol_request decode_protocol_request encode_protocol_response decode_protocol_response.
Definition storage_messages : Messages :=
  mkMessages KindStorage Storage.StorageRequest Storage.StorageResponse
    (fun r => Storage.storage_op_byte (Storage.storage_request_op r))
    Storage.encode_storage_request Storage.decode_storage_request Storage.encode_storage_response Storage.decode_storage_response.
Definition auth_messages : Messages :=
  mkMessages KindAuth Auth.AuthRequest Auth.AuthResponse (fun r => Auth.auth_op_byte (Auth.auth_request_op r))
    Auth.encode_auth_request Auth.decode_auth_request Auth.encode_auth_response Auth.decode_auth_response.
Definition gameplay_messages : Messages :=
  mkMessages KindGameplay GameplayRequest GameplayResponse (fun r => gameplay_op_byte (gameplay_request_op r))
    encode_gameplay_request decode_gameplay_request encode_gameplay_response decode_gameplay_response.
Definition admin_messages `{Json AdminSurfaceRequest, Json AdminSurfaceResponse} : Messages :=
  mkMessages KindAdminSurface AdminSurfaceRequest AdminSurfaceResponse (fun r => admin_op_byte (admin_request_op r))
    encode_admin_surface_request decode_admin_surface_request encode_admin_surface_response decode_admin_surface_response.

Definition protocol_fits : Fits protocol_messages :=
  mkFits protocol_messages protocol_request_fits protocol_response_fits (fun r => protocol_answers (protocol_request_op r)).
Definition storage_fits : Fits storage_messages :=
  mkFits storage_messages Storage.storage_request_fits Storage.storage_response_fits
    (fun r => Storage.storage_answers (Storage.storage_request_op r)).
Definition auth_fits : Fits auth_messages :=
  mkFits auth_messages Auth.auth_request_fits Auth.auth_response_fits (fun r => Auth.auth_answers (Auth.auth_request_op r)).
Definition gameplay_fits : Fits gameplay_messages :=
  mkFits gameplay_messages gameplay_request_fits gameplay_response_fits (fun r => gameplay_answers (gameplay_request_op r)).
(** The kinds whose payload is this crate's own. *)
Definition binary_kinds : list { m : Messages & Fits m } :=
  [existT protocol_messages protocol_fits; existT storage_messages storage_fits; existT auth_messages auth_fits;
   existT gameplay_messages gameplay_fits].
Definition all_kinds `{Json AdminSurfaceRequest, Json AdminSurfaceResponse} : list Messages :=
  [protocol_messages; storage_messages; auth_messages; gameplay_messages; admin_messages].

(** ** What is accepted *)

(** The envelope of [bytes] is of this kind, direction and operation. *)
Definition opens (bytes : list byte) (kind : PluginKind) (response : bool) (op : Z) : Prop :=
  exists header payload, decode_envelope bytes = Ok (header, payload) /\ h_plugin_kind header = kind /\
    is_response header = response /\ h_op_code header = op.
Class Accepts (m : Messages) : Prop := {
  accepts_request bytes r : decode_request m bytes = Ok r -> opens bytes (m_kind m) false (op_byte m r);
  accepts_response q bytes s : decode_response m q bytes = Ok s -> opens bytes (m_kind m) true (op_byte m q)
}.

(** What is read satisfies [P]. *)
Definition yields {A} (P : A -> Prop) (m : Decode A) : Prop := forall s s' a, m s = (s', Ok a) -> P a.
Lemma yields_ret {A} (P : A -> Prop) a : P a -> yields P (mret a).
Proof. intros H s s' a' [= _ <-]. done. Qed.
Lemma yields_bind {A B} (P : B -> Prop) (m : Decode A) f : (forall a, yields P (f a)) -> yields P (m ≫= f).
Proof. intros H s s' b. unfold mbind, M_bind. destruct (m s) as [s1 [a|e| |]]; [apply H|done..]. Qed.
Lemma yields_all {A} (P : A -> Prop) (m : Decode A) bytes a : yields P m -> decode_all m bytes = Ok a -> P a.
Proof.
  intros H. unfold decode_all, mbind, M_bind. destruct (m bytes) as [s [a'|e| |]] eqn:E; [|done..].
  destruct s; cbn; [|done]. intros [= <-]. by apply (H _ _ _ E).
Qed.
Ltac yields_step := lazymatch goal with |- yields _ (_ ≫= _) => apply yields_bind; intros ? | |- _ => by apply yields_ret end.

Lemma bind_ok {A B} (r : result ProtocolCodecError A) (f : A -> result ProtocolCodecError B) b :
  r ≫= f = Ok b -> exists a, r = Ok a /\ f a = Ok b.
Proof. destruct r as [a|e| |]; cbn; [eauto|done..]. Qed.

(** The octet an operation code is read from is its own. *)
Lemma protocol_op_exact v op : protocol_op_of v = Ok op -> v = protocol_op_byte op.
Proof. unfold protocol_op_of. repeat case_match; intros [= <-]; done. Qed.
Lemma storage_op_exact v op : Storage.storage_op_of v = Ok op -> v = Storage.storage_op_byte op.
Proof. unfold Storage.storage_op_of. repeat case_match; intros [= <-]; done. Qed.
Lemma auth_op_exact v op : Auth.auth_op_of v = Ok op -> v = Auth.auth_op_byte op.
Proof. unfold Auth.auth_op_of. repeat case_match; intros [= <-]; done. Qed.
Lemma gameplay_op_exact v op : gameplay_op_of v = Ok op -> v = gameplay_op_byte op.
Proof. unfold gameplay_op_of. repeat case_match; intros [= <-]; done. Qed.
Lemma admin_op_exact v op : admin_op_of v = Ok op -> v = admin_op_byte op.
Proof. unfold admin_op_of. repeat case_match; intros [= <-]; done. Qed.

(** The guards that a decoder passed. *)
Ltac open_message H :=
  apply bind_ok in H as ([header payload] & Eopen & H); cbn beta iota in H;
  destruct (bool_decide (h_plugin_kind header = _)) eqn:Ekind in H; cbn [negb] in H; [apply bool_decide_eq_true in Ekind|discriminate];
  destruct (is_response header) eqn:Eflag in H; cbn [negb] in H; try discriminate.
Ltac opened := eexists _, _; split_and!; [eassumption|assumption|assumption|].
Lemma protocol_accepts : Accepts protocol_messages.
Proof.
  split; [intros bytes r H|intros q bytes s H]; cbn in H |- *.
  - unfold decode_protocol_request in H. open_message H. apply bind_ok in H as (op & Eop & H). opened.
    rewrite (protocol_op_exact _ _ Eop). f_equal. symmetry. revert H. apply (yields_all (fun r => protocol_request_op r = op)).
    unfold decode_protocol_request_payload. destruct op; repeat yields_step.
  - unfold decode_protocol_response in H. open_message H. destruct (Z.eqb_spec (h_op_code header) (protocol_op_byte (protocol_request_op q))); cbn in H; [|done]. by opened.
Qed.
Lemma storage_accepts : Accepts storage_messages.
Proof.
  split; [intros bytes r H|intros q bytes s H]; cbn in H |- *.
  - unfold Storage.decode_storage_request in H. open_message H. apply bind_ok in H as (op & Eop & H). opened.
    rewrite (storage_op_exact _ _ Eop). f_equal. symmetry. revert H. apply (yields_all (fun r => Storage.storage_request_op r = op)).
    unfold Storage.decode_storage_request_payload. destruct op; repeat yields_step.
  - unfold Storage.decode_storage_response in H. open_message H. apply bind_ok in H as (op & Eop & H). opened.
    rewrite (storage_op_exact _ _ Eop). by case_bool_decide; subst.
Qed.
Lemma auth_accepts : Accepts auth_messages.
Proof.
  split; [intros bytes r H|intros q bytes s H]; cbn in H |- *.
  - unfold Auth.decode_auth_request in H. open_message H. apply bind_ok in H as (op & Eop & H). opened.
    rewrite (auth_op_exact _ _ Eop). f_equal. symmetry. revert H. apply (yields_all (fun r => Auth.auth_request_op r = op)).
    unfold Auth.decode_auth_request_payload. destruct op; repeat yields_step.
  - unfold Auth.decode_auth_response in H. open_message H. apply bind_ok in H as (op & Eop & H). opened.
    rewrite (auth_op_exact _ _ Eop). by case_bool_decide; subst.
Qed.
Lemma gameplay_accepts : Accepts gameplay_messages.
Proof.
  split; [intros bytes r H|intros q bytes s H]; cbn in H |- *.
  - unfold decode_gameplay_request in H. open_message H. apply bind_ok in H as (op & Eop & H). opened.
    rewrite (gameplay_op_exact _ _ Eop). f_equal. symmetry. revert H. apply (yields_all (fun r => gameplay_request_op r = op)).
    unfold decode_gameplay_request_payload. destruct op; repeat yields_step.
  - unfold decode_gameplay_response in H. open_message H. apply bind_ok in H as (op & Eop & H). opened.
    rewrite (gameplay_op_exact _ _ Eop). by case_bool_decide; subst.
Qed.

Section Kinds.
Context `{Json AdminSurfaceRequest, Json AdminSurfaceResponse}.

Lemma admin_accepts : Accepts admin_messages.
Proof.
  split; [intros bytes r Hr|intros q bytes s Hs]; cbn in *.
  - unfold decode_admin_surface_request in Hr. open_message Hr. apply bind_ok in Hr as (r' & _ & Hr).
    apply bind_ok in Hr as (op & Eop & Hr). opened. rewrite (admin_op_exact _ _ Eop). case_bool_decide; [|done].
    cbn in Hr. congruence.
  - unfold decode_admin_surface_response in Hs. open_message Hs. apply bind_ok in Hs as (op & Eop & Hs). opened.
    rewrite (admin_op_exact _ _ Eop). by case_bool_decide; subst.
Qed.
Lemma kinds_accept m : m ∈ all_kinds -> Accepts m.
Proof.
  unfold all_kinds. rewrite !elem_of_cons, elem_of_nil. intros [->|[->|[->|[->|[->|[] ] ] ] ] ];
    [apply protocol_accepts|apply storage_accepts|apply auth_accepts|apply gameplay_accepts|apply admin_accepts].
Qed.
End Kinds.
Lemma opens_same bytes k1 f1 o1 k2 f2 o2 : opens bytes k1 f1 o1 -> opens bytes k2 f2 o2 -> k1 = k2 /\ f1 = f2 /\ o1 = o2.
Proof. intros (h & p & E & <- & <- & <-) (h' & p' & E' & <- & <- & <-). by rewrite E in E'; injection E' as <- <-. Qed.

(** ** Properties *)

(** C10: a message of the plugin boundary cannot be taken for another.  Bytes that the request
    decoders of two kinds accept are of one kind and hold requests with one operation code;
    bytes that a request decoder accepts are refused by every response decoder; and a response is
    accepted only as an answer to requests of one kind and one operation code. *)
Theorem messages_not_confused `{Json AdminSurfaceRequest, Json AdminSurfaceResponse} (m1 m2 : Messages) bytes :
  m1 ∈ all_kinds -> m2 ∈ all_kinds ->
  (forall r1 r2, decode_request m1 bytes = Ok r1 -> decode_request m2 bytes = Ok r2 ->
    m_kind m1 = m_kind m2 /\ op_byte m1 r1 = op_byte m2 r2) /\
  (forall r1 q2 s2, decode_request m1 bytes = Ok r1 -> decode_response m2 q2 bytes <> Ok s2) /\
  (forall q1 q2 s1 s2, decode_response m1 q1 bytes = Ok s1 -> decode_response m2 q2 bytes = Ok s2 ->
    m_kind m1 = m_kind m2 /\ op_byte m1 q1 = op_byte m2 q2).
Proof.
  intros A1%kinds_accept A2%kinds_accept. split_and!.
  - intros r1 r2 H1%(accepts_request (m := m1)) H2%(accepts_request (m := m2)).
    by destruct (opens_same _ _ _ _ _ _ _ H1 H2) as (? & _ & ?).
  - intros r1 q2 s2 H1%(accepts_request (m := m1)) H2%(accepts_response (m := m2)).
    by destruct (opens_same _ _ _ _ _ _ _ H1 H2) as (_ & ? & _).
  - intros q1 q2 s1 s2 H1%(accepts_response (m := m1)) H2%(accepts_response (m := m2)).
    by destruct (opens_same _ _ _ _ _ _ _ H1 H2) as (? & _ & ?).
Qed.
Lemma messages_not_confused_witness :
  let json := Build_Json AdminSurfaceRequest (fun _ => None) (fun _ => None) in
  let json' := Build_Json AdminSurfaceResponse (fun _ => None) (fun _ => None) in
  exists bytes, encode_request storage_messages (Storage.LoadSnapshot "world") = Ok bytes /\
    decode_request storage_messages bytes = Ok (Storage.LoadSnapshot "world") /\
    (forall r, decode_request gameplay_messages bytes <> Ok r) /\
    (forall q s, decode_response storage_messages q bytes <> Ok s).
Proof.
  intros json json'. eexists. split; [vm_compute; reflexivity|].
  match goal with |- decode_request _ ?b = _ /\ _ => set (bytes := b) end.
  assert (decode_request storage_messages bytes = Ok (Storage.LoadSnapshot "world")) as E by (vm_compute; reflexivity).
  split; [exact E|].
  pose proof (messages_not_confused storage_messages gameplay_messages bytes
    ltac:(unfold all_kinds; set_solver) ltac:(unfold all_kinds; set_solver)) as (Hr & _ & _).
  pose proof (messages_not_confused storage_messages storage_messages bytes
    ltac:(unfold all_kinds; set_solver) ltac:(unfold all_kinds; set_solver)) as (_ & Hs & _).
  split; [|intros q s; exact (Hs _ q s E)]. intros r Er. destruct (Hr _ _ E Er) as [Hk _]. discriminate.
Defined.

(** What every message of a kind promises: a request that fits is read back as itself, and so is
    a response that fits and answers it, unless a length is beyond [u32]; another response is
    refused. *)
Definition message_laws (m : Messages) (f : Fits m) : Prop :=
  (forall r, request_fits f r = true -> carries (encode_request m r) (decode_request m) r) /\
  (forall r s, answers f r s = true -> response_fits f s = true ->
    carries (encode_response m r s) (decode_response m r) s) /\
  (forall r s, answers f r s = false -> exists message, encode_response m r s = Err (InvalidValue message)).

(** An effect on a local slot of a window, whatever its index. *)
Definition local_slot_batch (now player index : Z) (stack : option ItemStack) : GameplayEffectBatch :=
  mkBatch now (mkSemanticReads None ∅ ∅ ∅ ∅) [EffectInventorySlot player (WindowLocal index) stack].
Lemma local_slot_response_panics session tick now player index stack : u8_max < index ->
  encode_gameplay_response (HandleTick session tick) (EffectBatch (local_slot_batch now player index stack)) = Panic.
Proof.
  intros H. unfold encode_gameplay_response. cbn [gameplay_request_op encode_gameplay_response_payload].
  unfold encode_gameplay_effect_batch, local_slot_batch. cbn [b_now_ms b_reads b_effects write_vec map all_out].
  unfold encode_gameplay_effect at 1. rewrite (local_slot_panics _ H). reflexivity.
Qed.

(** C7: the requests and responses of the protocol, storage, auth and gameplay plugins, with world
    snapshots, inventories, item data, commands, events and effects in their payloads, survive
    the plugin boundary: what is encoded decodes to the same value on the other side, and the
    only failure is a length that [u32] does not hold.  This holds of the messages that the wire
    has a form for ([Fits]): their values are of their Rust types; every chunk, section and player
    of a map lies under the key that it names itself, which is all that is sent; an announced
    build tag is not empty; a local slot of a window is below 256; and the stacks of the threads
    hold the nesting of the item data (see C11).  A response of another operation is refused
    before it is sent.  A local slot from 256 on is not refused: encoding an effect on it
    panics. *)
Theorem plugin_messages_roundtrip :
  (forall kind : { m : Messages & Fits m }, kind ∈ binary_kinds -> message_laws (projT1 kind) (projT2 kind)) /\
  (forall session tick now player index stack, u8_max < index ->
    encode_gameplay_response (HandleTick session tick)
      (EffectBatch (local_slot_batch now player index stack)) = Panic).
Proof.
  split; [|exact local_slot_response_panics]. intros kind.
  unfold binary_kinds. rewrite !elem_of_cons, elem_of_nil. intros [->|[->|[->|[->|[] ] ] ] ]; cbn [projT1 projT2]; split_and!;
    cbn [protocol_fits storage_fits auth_fits gameplay_fits request_fits response_fits answers].
  - apply protocol_request_carries.
  - apply protocol_response_carries.
  - intros r s Hr. eexists. exact (protocol_mismatch_refused r s Hr).
  - apply Storage.storage_request_carries.
  - apply Storage.storage_response_carries.
  - intros r s Hr. eexists. exact (Storage.storage_mismatch_refused r s Hr).
  - apply Auth.auth_request_carries.
  - apply Auth.auth_response_carries.
  - intros r s Hr. eexists. exact (Auth.auth_mismatch_refused r s Hr).
  - apply gameplay_request_carries.
  - apply gameplay_response_carries.
  - intros r s Hr. eexists. exact (gameplay_mismatch_refused r s Hr).
Qed.

(** A tick of a session, and the effects a plugin answers it with. *)
Definition sample_session : GameplaySessionSnapshot :=
  mkGameplaySession PhasePlay (Some 7) (Some 3) {[CapJe; CapJe775]} "canonical" (Some 4) None.
Definition sample_batch : GameplayEffectBatch :=
  mkBatch 1000
    (mkSemanticReads None ∅ {[mkBlockPos 1 (-2) 3 := Some (mkBlockState "minecraft:chest" {["facing" := "north"]})]} ∅
      {[(7, mkBlockPos 1 (-2) 3) := true]})
    [EffectInventorySlot 7 (Hotbar 2) (Some (sample_item 12)); EffectClearMining 7;
     EffectSetBlock (mkBlockPos 1 (-2) 3) None; EffectOpenVirtualContainer 7 "canonical:chest"].
Definition is_ok {E A} (r : result E A) : bool := match r with Ok _ => true | _ => false end.
Lemma plugin_messages_roundtrip_witness :
  let q := HandleTick sample_session 1000 in
  is_ok (encode_gameplay_request q) = true /\ carries (encode_gameplay_request q) decode_gameplay_request q /\
  is_ok (encode_gameplay_response q (EffectBatch sample_batch)) = true /\
  carries (encode_gameplay_response q (EffectBatch sample_batch)) (decode_gameplay_response q) (EffectBatch sample_batch) /\
  encode_gameplay_response q (EffectBatch (local_slot_batch 1000 7 256 None)) = Panic.
Proof.
  intros q. destruct plugin_messages_roundtrip as [Hlaws Hpanic].
  destruct (Hlaws (existT gameplay_messages gameplay_fits)) as (Hq & Hs & _).
  - unfold binary_kinds. rewrite !elem_of_cons. auto.
  - split_and!; [vm_compute; reflexivity| |vm_compute; reflexivity| |].
    + apply Hq. vm_compute. reflexivity.
    + apply Hs; vm_compute; reflexivity.
    + apply Hpanic. reflexivity.
Defined.

(** The blobs of the gameplay host interface, each with the values that fit it. *)
Record HostBlobCodec : Type := mkHostBlob {
  Value : Type; blob_encode : Value -> Encode; blob_decode : list byte -> result ProtocolCodecError Value;
  blob_fits : Value -> bool
}.
Definition host_blobs : list HostBlobCodec := [
  mkHostBlob _ HostBlob.encode_player_id HostBlob.decode_player_id (unsigned_fits 128);
  mkHostBlob _ HostBlob.encode_block_pos HostBlob.decode_block_pos block_pos_fits;
  mkHostBlob _ HostBlob.encode_can_edit_block_key HostBlob.decode_can_edit_block_key can_edit_key_fits;
  mkHostBlob _ HostBlob.encode_player_snapshot HostBlob.decode_player_snapshot (option_ok player_snapshot_fits);
  mkHostBlob _ HostBlob.encode_world_meta HostBlob.decode_world_meta world_meta_fits;
  mkHostBlob _ HostBlob.encode_block_state HostBlob.decode_block_state (option_ok block_state_fits);
  mkHostBlob _ HostBlob.encode_block_entity HostBlob.decode_block_entity (option_ok block_entity_fits);
  mkHostBlob _ HostBlob.encode_gameplay_effect_blob HostBlob.decode_gameplay_effect_blob effect_fits;
  mkHostBlob _ HostBlob.encode_player_pose_update HostBlob.decode_player_pose_update HostBlob.pose_update_fits;
  mkHostBlob _ HostBlob.encode_selected_hotbar_slot_update HostBlob.decode_selected_hotbar_slot_update HostBlob.hotbar_update_fits;
  mkHostBlob _ HostBlob.encode_inventory_slot_update HostBlob.decode_inventory_slot_update HostBlob.slot_update_fits;
  mkHostBlob _ HostBlob.encode_clear_mining HostBlob.decode_clear_mining (unsigned_fits 128);
  mkHostBlob _ HostBlob.encode_begin_mining HostBlob.decode_begin_mining HostBlob.begin_mining_fits;
  mkHostBlob _ HostBlob.encode_open_container_at HostBlob.decode_open_container_at HostBlob.open_at_fits;
  mkHostBlob _ HostBlob.encode_open_virtual_container HostBlob.decode_open_virtual_container HostBlob.open_virtual_fits;
  mkHostBlob _ HostBlob.encode_set_block HostBlob.decode_set_block HostBlob.set_block_fits;
  mkHostBlob _ HostBlob.encode_spawn_dropped_item HostBlob.decode_spawn_dropped_item HostBlob.spawn_item_fits;
  mkHostBlob _ HostBlob.encode_targeted_event_blob HostBlob.decode_targeted_event_blob targeted_fits ].
Lemma host_blob_laws b : b ∈ host_blobs -> Blob (blob_encode b) (blob_decode b) (blob_fits b).
Proof.
  unfold host_blobs. rewrite !elem_of_cons, elem_of_nil. intros Hb. repeat destruct Hb as [->|Hb]; [cbn; typeclasses eauto..|done].
Qed.

(** The blobs of the gameplay host interface (player, world and block queries, and every
    change a plugin may ask for) survive the boundary: a blob of a value that fits is read as
    that value, to its last byte; a container kind too long for its length prefix is the one
    value [encode_open_virtual_container] does not write, and it does not fit. *)
Theorem host_blobs_roundtrip (b : HostBlobCodec) value :
  b ∈ host_blobs -> blob_fits b value = true -> carries (blob_encode b value) (blob_decode b) value.
Proof. intros Hb. apply (blob_carries (Blob := host_blob_laws b Hb)). Qed.
Lemma host_blobs_roundtrip_witness :
  let b := mkHostBlob _ HostBlob.encode_open_virtual_container HostBlob.decode_open_virtual_container HostBlob.open_virtual_fits in
  is_ok (blob_encode b (7, "canonical:chest")) = true /\
  carries (blob_encode b (7, "canonical:chest")) (blob_decode b) (7, "canonical:chest").
Proof.
  intros b. split; [vm_compute; reflexivity|]. apply (host_blobs_roundtrip b); [|vm_compute; reflexivity].
  unfold host_blobs. rewrite !elem_of_cons. do 14 right. by left.
Defined.

(** C11: decoding ends with a value or an error on a thread whose stack holds the levels of item
    data that the message nests, when the allocator grants the capacities that it claims:
    whatever bytes arrive at the plugin boundary, no decoder of a request or a response, of any
    kind, and no reader of a host blob panics, reads beyond its input or runs on.  A stack that
    holds more levels than the message has bytes is always enough: item data settles on it.  The
    condition is needed, since nothing bounds the levels: for a stack of any height there is an
    item of five bytes a level that a higher stack reads and that overflows this one, which
    aborts the process where an error is documented. *)
Theorem plugin_decoding_settles `{Json AdminSurfaceRequest, Json AdminSurfaceResponse} bytes :
  Forall (fun m => settled (decode_request m bytes) /\ forall q, settled (decode_response m q bytes)) all_kinds /\
  Forall (fun b => settled (blob_decode b bytes)) host_blobs /\
  (forall levels, len bytes < Z.of_nat levels -> settled (decode_item_data_value_at levels bytes).2) /\
  (forall levels, exists item, len item = 5 * Z.of_nat levels + 2 /\
    (decode_item_data_value_at levels item).2 = OutOfFuel /\
    (decode_item_data_value item).2 = Ok (nested_item levels)).
Proof.
  split_and!.
  - repeat constructor; cbn; try intros q.
    + apply (protocol_decoding_settled ReqDescribe).
    + apply protocol_decoding_settled.
    + apply (Storage.storage_decoding_settled Storage.Describe).
    + apply Storage.storage_decoding_settled.
    + apply (Auth.auth_decoding_settled Auth.Describe).
    + apply Auth.auth_decoding_settled.
    + apply (gameplay_decoding_settled Describe).
    + apply gameplay_decoding_settled.
    + apply (admin_decoding_settled SurfaceDescribe).
    + apply admin_decoding_settled.
  - apply Forall_forall. intros b Hb. apply (blob_settled (Blob := host_blob_laws b Hb)).
  - intros levels Hl. pose proof (item_at_ends levels bytes Hl) as H1. unfold ends in H1.
    by destruct (decode_item_data_value_at levels bytes) as [s' [v|e| |]].
  - intros levels. exists (nested_item_bytes levels). rewrite <- (app_nil_r (nested_item_bytes levels)) at 2.
    split_and!; [apply nested_item_length|apply nested_item_overflows|apply nested_item_read].
Qed.
