(* ===== verification/PluginCall.v ===== *)
(** * A call across the plugin boundary
    ([crates/plugin]: mc-plugin-host host/generation.rs and host/support/buffers.rs,
    mc-plugin-sdk-rust macros/export.rs and buffers.rs, mc-plugin-abi raw.rs)

    The host encodes a request, calls a function of the plugin's library and decodes what the
    library left in two buffers; the exported function that the SDK generates decodes the request,
    runs the plugin's handler and encodes its response, and turns every panic of the decoder and
    the handler into an error.  Either side may be alone: the host must survive any foreign
    library, whose answer is arbitrary here.

    A buffer is what [from_raw_parts] reads through its pointer, or null; that a pointer that is
    not null refers to as many bytes as the buffer says is the library's obligation.  Releasing
    buffers has no effect on the model. *)

From stdpp Require Import finite pretty.
From S2P Require Import Prelude Bytes Parsing RevyCore ProtoPacket PluginBinary PluginProtocol PluginStorage PluginGameplay PluginAdmin PluginMessages.

(** ** Raw values ([raw.rs]) *)

Definition STATUS_OK : Z := 0.
Definition STATUS_INVALID_INPUT : Z := 1.
Definition STATUS_INTERNAL : Z := 2.
Definition STATUS_ABI_MISMATCH : Z := 4.
Record OwnedBuffer : Type := mkBuffer { ob_ptr : option (list byte); ob_len : Z; ob_cap : Z }.
Definition buffer_empty : OwnedBuffer := mkBuffer None 0 0.
(** What a library leaves: a status, its output and its error. *)
Record Answer : Type := mkAnswer { a_status : Z; a_output : OwnedBuffer; a_error : OwnedBuffer }.

(** [format!("{status:?}")] of a status that is one of the six, or the text for another one. *)
Definition status_text (status : Z) : string :=
  match status with
  | 0 => "Ok" | 1 => "InvalidInput" | 2 => "Internal" | 3 => "Unsupported" | 4 => "AbiMismatch" | 5 => "Quarantined"
  | _ => "invalid status tag " +:+ pretty status
  end.
(** The [Display] of a codec error. *)
Definition codec_error_text (e : ProtocolCodecError) : string :=
  match e with
  | UnexpectedEof => "unexpected end of plugin payload"
  | InvalidUtf8 => "invalid utf-8 in plugin payload"
  | LengthOverflow => "plugin envelope length overflow"
  | InvalidEnvelope message => "invalid plugin envelope: " +:+ message
  | InvalidPluginKind kind => "invalid plugin kind " +:+ pretty kind
  | InvalidProtocolOpCode op_code => "invalid protocol op code " +:+ pretty op_code
  | InvalidValue message => "invalid plugin payload value: " +:+ message
  | TrailingBytes => "plugin payload had trailing bytes"
  end.

(** ** The host's side *)

Definition isize_max : Z := 9223372036854775807.
(** With elements of [element_size] bytes. *)
Definition checked_byte_len (n element_size max_bytes : Z) (what : string) : result string Z :=
  if usize_max <? n * element_size then Err (what +:+ " length overflowed")
  else if max_bytes <? n * element_size
  then Err (what +:+ " exceeded configured limit: " +:+ pretty (n * element_size) +:+ " bytes > " +:+ pretty max_bytes +:+ " bytes")
  else if isize_max <? n * element_size then Err (what +:+ " exceeded the maximum addressable slice length")
  else Ok (n * element_size).
Definition take_owned_buffer (buffer : OwnedBuffer) (max_bytes : Z) (what : string) : result string (list byte) :=
  match ob_ptr buffer with
  | None =>
      if (ob_len buffer =? 0) && (ob_cap buffer =? 0) then Ok []
      else Err (what +:+ " pointer was null with non-zero length or capacity")
  | Some contents =>
      if ob_cap buffer <? ob_len buffer
      then Err (what +:+ " length " +:+ pretty (ob_len buffer) +:+ " exceeded capacity " +:+ pretty (ob_cap buffer))
      else if isize_max <? ob_cap buffer then Err (what +:+ " capacity exceeded the addressable allocation limit")
      else byte_len ← checked_byte_len (ob_len buffer) 1 max_bytes what; Ok (take (Z.to_nat byte_len) contents)
  end.
Definition decode_plugin_error (plugin_id : string) (status : Z) (error : OwnedBuffer) (max_bytes : Z) : string :=
  match take_owned_buffer error max_bytes "plugin error buffer" with
  | Ok [] => "plugin `" +:+ plugin_id +:+ "` returned " +:+ status_text status
  | Ok bytes =>
      match utf8_chars bytes with
      | Some _ => bytes_string bytes
      | None => "plugin `" +:+ plugin_id +:+ "` returned invalid utf-8"
      end
  | Err error => "plugin `" +:+ plugin_id +:+ "` returned invalid error buffer: " +:+ error
  | _ => ""
  end.

(** [result.map_err(|error| error.to_string())?] *)
Definition map_err {E F S A} (f : E -> F) (r : result E A) : M F S A :=
  match r with Ok a => mret a | Err e => throw (f e) | Panic => panic | OutOfFuel => out_of_fuel end.

Section Call.
(** What the libraries of the process remember; a panic of [call] is one that leaves a function
    of the library, which aborts the process. *)
Context {W : Type}.
Definition Library : Type := list byte -> M Empty_set W Answer.

(** [what] and [limit] are those of the kind of plugin. *)
Definition invoke (m : Messages) (what : string) (limit metadata_bytes : Z) (call : Library) (plugin_id : string)
    (request : Request m) : M string W (Response m) :=
  request_bytes ← map_err codec_error_text (encode_request m request);
  answer ← (fun w => match call request_bytes w with
    | (w', Ok answer) => (w', Ok answer)
    | (w', Err e) => match e with end
    | (w', Panic) => (w', Panic)
    | (w', OutOfFuel) => (w', OutOfFuel)
    end);
  if negb (a_status answer =? STATUS_OK)
  then throw (decode_plugin_error plugin_id (a_status answer) (a_error answer) metadata_bytes)
  else
    response_bytes ← map_err id (take_owned_buffer (a_output answer) limit what);
    map_err codec_error_text (decode_response m request response_bytes).

(** ** The plugin's side *)

(** The capacity of a vector of these bytes. *)
Context (capacity : list byte -> Z).
Definition into_owned_buffer (bytes : list byte) : OwnedBuffer := mkBuffer (Some bytes) (len bytes) (capacity bytes).
Definition failed (status : Z) (message : string) : Answer :=
  mkAnswer status buffer_empty (into_owned_buffer (string_bytes message)).

(** [handle] is the plugin's own handler; a panic of the encoder is not caught. *)
Definition mc_plugin_invoke (m : Messages) (panic_decode panic_handle : string)
    (handle : Request m -> M string W (Response m)) : Library := fun request_bytes w =>
  match decode_request m request_bytes with
  | Err error => (w, Ok (failed STATUS_INVALID_INPUT (codec_error_text error)))
  | Panic => (w, Ok (failed STATUS_INTERNAL panic_decode))
  | OutOfFuel => (w, OutOfFuel)
  | Ok request =>
      match handle request w with
      | (w', Err message) => (w', Ok (failed STATUS_INTERNAL message))
      | (w', Panic) => (w', Ok (failed STATUS_INTERNAL panic_handle))
      | (w', OutOfFuel) => (w', OutOfFuel)
      | (w', Ok response) =>
          match encode_response m request response with
          | Ok bytes => (w', Ok (mkAnswer STATUS_OK (into_owned_buffer bytes) buffer_empty))
          | Err error => (w', Ok (failed STATUS_INTERNAL (codec_error_text error)))
          | Panic => (w', Panic)
          | OutOfFuel => (w', OutOfFuel)
          end
      end
  end.

(** ** Lemmas *)

(** What Rust promises of a capacity. *)
Hypothesis capacity_ok : forall bytes, len bytes <= isize_max -> len bytes <= capacity bytes <= isize_max.

Lemma take_own_buffer bytes limit what : len bytes <= limit -> limit <= isize_max ->
  take_owned_buffer (into_owned_buffer bytes) limit what = Ok bytes.
Proof.
  intros H1 H2. destruct (capacity_ok bytes); [lia|]. unfold take_owned_buffer, into_owned_buffer, checked_byte_len.
  cbn [ob_ptr ob_len ob_cap]. rewrite Z.mul_1_r. unfold usize_max, u64_max, isize_max in *.
  rewrite !(proj2 (Z.ltb_ge _ _)) by lia. cbn. by rewrite Nat2Z.id, firstn_all.
Qed.
Lemma take_empty_buffer limit what : take_owned_buffer buffer_empty limit what = Ok [].
Proof. done. Qed.
(** Taking a buffer ends, whatever the library left. *)
Lemma take_buffer_ends buffer limit what :
  (exists bytes, take_owned_buffer buffer limit what = Ok bytes /\ len bytes <= Z.max 0 limit) \/
  exists e, take_owned_buffer buffer limit what = Err e.
Proof.
  unfold take_owned_buffer. destruct (ob_ptr buffer) as [contents|].
  - destruct (_ <? _); [eauto|]. destruct (_ <? _); [eauto|]. unfold checked_byte_len. destruct (_ <? _); [eauto|].
    destruct (Z.ltb_spec limit (ob_len buffer * 1)); [eauto|]. destruct (_ <? _); [eauto|]. left. eexists. split; [reflexivity|].
    rewrite length_take. lia.
  - destruct (_ && _); [left; eexists; split; [done|cbn; lia]|eauto].
Qed.

(** An error whose text is not empty and within its limit arrives. *)
Lemma plugin_error_arrives plugin_id status message limit :
  utf8_ok message = true -> message <> "" -> len (string_bytes message) <= limit -> limit <= isize_max ->
  decode_plugin_error plugin_id status (into_owned_buffer (string_bytes message)) limit = message.
Proof.
  intros [n Hn]%bool_decide_eq_true Hne Hlen Hlimit. unfold decode_plugin_error. rewrite take_own_buffer by done.
  destruct (string_bytes message) as [|b l] eqn:E; [by destruct message|]. rewrite <- E. rewrite <- E in Hn. rewrite Hn.
  unfold bytes_string, string_bytes. apply String.string_of_list_byte_of_string.
Qed.

Context (m : Messages) (what : string) (limit metadata_bytes : Z) (plugin_id : string).
Context (panic_decode panic_handle : string) (handle : Request m -> M string W (Response m)).
Definition sdk_library : Library := mc_plugin_invoke m panic_decode panic_handle handle.

(** A request that arrives is handled, and its response arrives. *)
Lemma invoke_answers request response w w' : carries (encode_request m request) (decode_request m) request ->
  is_ok (encode_request m request) = true -> handle request w = (w', Ok response) ->
  carries (encode_response m request response) (decode_response m request) response ->
  (exists bytes, encode_response m request response = Ok bytes /\ len bytes <= limit) -> limit <= isize_max ->
  invoke m what limit metadata_bytes sdk_library plugin_id request w = (w', Ok response).
Proof.
  intros Hq Hok Hh Hs (bytes & Eb & Hlen) Hlimit. unfold invoke, carries in *. destruct (encode_request m request) as [q|e| |]; try done.
  cbn [map_err]. unfold mbind, M_bind. cbn [mret M_ret]. unfold sdk_library, mc_plugin_invoke. rewrite Hq, Hh, Eb.
  rewrite Eb in Hs. cbn [a_status a_output negb]. rewrite take_own_buffer by done. cbn [map_err mret M_ret]. by rewrite Hs.
Qed.
(** A request that the plugin's handler refuses is an error with its text. *)
Lemma invoke_refuses request message w w' : carries (encode_request m request) (decode_request m) request ->
  is_ok (encode_request m request) = true -> handle request w = (w', Err message) ->
  utf8_ok message = true -> message <> "" -> len (string_bytes message) <= metadata_bytes -> metadata_bytes <= isize_max ->
  invoke m what limit metadata_bytes sdk_library plugin_id request w = (w', Err message).
Proof.
  intros Hq Hok Hh Hu Hne Hlen Hlimit. unfold invoke, carries in *. destruct (encode_request m request) as [q|e| |]; try done.
  cbn [map_err]. unfold mbind, M_bind. cbn [mret M_ret]. unfold sdk_library, mc_plugin_invoke. rewrite Hq, Hh.
  cbn [a_status a_error failed negb]. unfold throw. by rewrite plugin_error_arrives.
Qed.
(** So is a handler that panics. *)
Lemma invoke_panics request w w' : carries (encode_request m request) (decode_request m) request ->
  is_ok (encode_request m request) = true -> handle request w = (w', Panic) ->
  utf8_ok panic_handle = true -> panic_handle <> "" -> len (string_bytes panic_handle) <= metadata_bytes ->
  metadata_bytes <= isize_max ->
  invoke m what limit metadata_bytes sdk_library plugin_id request w = (w', Err panic_handle).
Proof.
  intros Hq Hok Hh Hu Hne Hlen Hlimit. unfold invoke, carries in *. destruct (encode_request m request) as [q|e| |]; try done.
  cbn [map_err]. unfold mbind, M_bind. cbn [mret M_ret]. unfold sdk_library, mc_plugin_invoke. rewrite Hq, Hh.
  cbn [a_status a_error failed negb]. unfold throw. by rewrite plugin_error_arrives.
Qed.
Lemma invoke_diverges request w w' : carries (encode_request m request) (decode_request m) request ->
  is_ok (encode_request m request) = true -> handle request w = (w', OutOfFuel) ->
  invoke m what limit metadata_bytes sdk_library plugin_id request w = (w', OutOfFuel).
Proof.
  intros Hq Hok Hh. unfold invoke, carries in *. destruct (encode_request m request) as [q|e| |]; try done.
  cbn [map_err]. unfold mbind, M_bind. cbn [mret M_ret]. unfold sdk_library, mc_plugin_invoke. by rewrite Hq, Hh.
Qed.
End Call.

(** A call of any library that answers ends, with a response or an error. *)
Lemma invoke_ends {W} m what limit metadata_bytes (call : Library (W := W)) plugin_id request w :
  settled (encode_request m request) -> (forall bytes, settled (decode_response m request bytes)) ->
  (forall bytes, exists w' answer, call bytes w = (w', Ok answer)) ->
  exists w' r, invoke m what limit metadata_bytes call plugin_id request w = (w', r) /\
    match r with Ok _ | Err _ => True | _ => False end.
Proof.
  intros Hq Hs Hcall. unfold invoke. destruct (encode_request m request) as [q|e| |]; try done.
  2: { eexists _, _. by split. }
  cbn [map_err]. unfold mbind, M_bind. cbn [mret M_ret]. destruct (Hcall q) as (w' & answer & ->). destruct (negb _).
  { eexists _, _. by split. }
  destruct (take_buffer_ends (a_output answer) limit what) as [(bytes & -> & _)|[e ->] ]; cbn [map_err mret M_ret]; [|eexists _, _; by split].
  specialize (Hs bytes). destruct (decode_response m request bytes); try done; eexists _, _; by split.
Qed.
