(* ===== verification/PluginSdk.v ===== *)
(** * Plugins written with the SDK
    ([crates/plugin/mc-plugin-sdk-rust/src]: protocol.rs, storage.rs, auth.rs, capabilities.rs,
    __macro_support/{protocol,storage,auth}.rs, macros/protocol.rs)

    The traits a plugin implements, as records of operations on the plugin's own state, and the
    dispatch of a request to them.  The Java adapters are such plugins. *)

From stdpp Require Import finite pretty.
From S2P Require Import Prelude Bytes Parsing RevyCore ProtoPacket VoxelModel VoxelItems VoxelContent VoxelState VoxelEvents JavaSession JavaAdapter AnvilNbt PluginBinary PluginInventory PluginShared PluginProtocol PluginStorage.

(** ** Texts of errors *)

(** [{:02x}] of an [i32]. *)
Definition hex_digit (d : Z) : Ascii.ascii := Ascii.ascii_of_N (Z.to_N (if d <? 10 then 48 + d else 87 + d)).
Fixpoint hex_digits (fuel : nat) (v : Z) (acc : string) : string :=
  match fuel with
  | O => acc
  | S fuel => let acc := String (hex_digit (v mod 16)) acc in if v <? 16 then acc else hex_digits fuel (v / 16) acc
  end.
Definition hex_02 (v : Z) : string :=
  let digits := hex_digits 8 (to_unsigned 32 v) "" in if to_unsigned 32 v <? 16 then "0" +:+ digits else digits.
Definition protocol_error_text (e : ProtocolError) : string :=
  match e with
  | ProtoPacket.UnexpectedEof => "unexpected end of packet"
  | InvalidVarInt => "invalid varint encoding"
  | ProtoPacket.InvalidUtf8 => "invalid utf-8 string"
  | StringTooLong n => "string too long: " +:+ pretty n
  | InvalidPacket message => "invalid packet: " +:+ message
  | UnsupportedPacket packet_id => "unsupported packet id 0x" +:+ hex_02 packet_id
  | ProtocolPlugin message => "plugin error: " +:+ message
  end.
(** The text of an input or output error is the platform's. *)
Definition storage_error_to_string (io_text : string) (e : StorageError) : string :=
  match e with
  | Io => "i/o error: " +:+ io_text
  | InvalidData message => "invalid data: " +:+ message
  | Plugin message => "plugin error: " +:+ message
  end.

(** [.map(f).map_err(text)] *)
Definition answer_with {E W A B} (f : A -> B) (text : E -> string) (m : M E W A) : M string W B := fun w =>
  match m w with
  | (w', Ok a) => (w', Ok (f a))
  | (w', Err e) => (w', Err (text e))
  | (w', Panic) => (w', Panic)
  | (w', OutOfFuel) => (w', OutOfFuel)
  end.

Section Plugins.
Context {W : Type}.
(** The build tag of the plugin's compilation. *)
Context (build_tag : option string).

Definition capability_announcement_for_build_tag {C} `{ClosedCapability C} (capabilities : ClosedCapabilitySet C) :
    CapabilityAnnouncement C :=
  mkAnnouncement capabilities (tag ← build_tag; if String.eqb tag "" then None else Some tag).

(** ** Protocol plugins *)

Record RustProtocolPlugin : Type := mkProtocolPlugin {
  pp_descriptor : ProtocolDescriptor;
  pp_bedrock_listener_descriptor : option BedrockListenerDescriptor;
  pp_capability_set : ClosedCapabilitySet ProtocolCapability;
  pp_try_route : list byte -> M ProtocolError W (option HandshakeIntent);
  pp_wire_codec : WireCodec;
  pp_decode_status : list byte -> M ProtocolError W StatusRequest;
  pp_decode_login : list byte -> M ProtocolError W LoginRequest;
  pp_encode_status_response : ServerListStatus -> M ProtocolError W (list byte);
  pp_encode_status_pong : Z -> M ProtocolError W (list byte);
  pp_encode_disconnect : ConnectionPhase -> string -> M ProtocolError W (list byte);
  pp_encode_encryption_request : string -> list byte -> list byte -> M ProtocolError W (list byte);
  pp_encode_network_settings : Z -> M ProtocolError W (list byte);
  pp_encode_login_success : PlayerSnapshot -> M ProtocolError W (list byte);
  pp_decode_play : ProtocolSessionSnapshot -> list byte -> M ProtocolError W (option RuntimeCommand);
  pp_encode_play_event :
    CoreEvent -> ProtocolSessionSnapshot -> PlayEncodingContext -> M ProtocolError W (list (list byte));
  pp_session_closed : ProtocolSessionSnapshot -> M ProtocolError W unit;
  pp_export_session_state : ProtocolSessionSnapshot -> M ProtocolError W (list byte);
  pp_import_session_state : ProtocolSessionSnapshot -> list byte -> M ProtocolError W unit
}.

(** The codec is given a copy of the buffer. *)
Definition decode_wire_frame (codec : WireCodec) (buffer : list byte) : result ProtocolError (option WireFrameDecodeResult) :=
  match try_decode_frame codec buffer with
  | (rest, Ok frame) =>
      Ok (frame ← frame; Some (mkDecodedFrame frame (len buffer - len rest)))
  | (_, Err e) => Err e
  | (_, Panic) => Panic
  | (_, OutOfFuel) => OutOfFuel
  end.
Definition handle_protocol_request (plugin : RustProtocolPlugin) (request : ProtocolRequest) : M string W ProtocolResponse :=
  let answer {A} (f : A -> ProtocolResponse) (m : M ProtocolError W A) := answer_with f protocol_error_text m in
  match request with
  | ReqDescribe => mret (RespDescriptor (pp_descriptor plugin))
  | ReqDescribeBedrockListener => mret (RespBedrockListenerDescriptor (pp_bedrock_listener_descriptor plugin))
  | ReqCapabilitySet => mret (RespCapabilitySet (capability_announcement_for_build_tag (pp_capability_set plugin)))
  | ReqTryRoute frame => answer RespHandshakeIntent (pp_try_route plugin frame)
  | ReqDecodeStatus frame => answer RespStatusRequest (pp_decode_status plugin frame)
  | ReqDecodeLogin frame => answer RespLoginRequest (pp_decode_login plugin frame)
  | ReqEncodeStatusResponse status => answer RespFrame (pp_encode_status_response plugin status)
  | ReqEncodeStatusPong payload => answer RespFrame (pp_encode_status_pong plugin payload)
  | ReqEncodeDisconnect phase reason => answer RespFrame (pp_encode_disconnect plugin phase reason)
  | ReqEncodeEncryptionRequest server_id public_key_der verify_token =>
      answer RespFrame (pp_encode_encryption_request plugin server_id public_key_der verify_token)
  | ReqEncodeNetworkSettings threshold => answer RespFrame (pp_encode_network_settings plugin threshold)
  | ReqEncodeLoginSuccess player => answer RespFrame (pp_encode_login_success plugin player)
  | ReqDecodePlay session frame => answer RespRuntimeCommand (pp_decode_play plugin session frame)
  | ReqEncodePlayEvent session event context => answer RespFrames (pp_encode_play_event plugin event session context)
  | ReqSessionClosed session => answer (fun _ => RespEmpty) (pp_session_closed plugin session)
  | ReqExportSessionState session => answer RespSessionTransferBlob (pp_export_session_state plugin session)
  | ReqImportSessionState session blob => answer (fun _ => RespEmpty) (pp_import_session_state plugin session blob)
  | ReqEncodeWireFrame payload => answer RespFrame (lift (encode_frame (pp_wire_codec plugin) payload))
  | ReqTryDecodeWireFrame buffer => answer RespWireFrameDecodeResult (lift (decode_wire_frame (pp_wire_codec plugin) buffer))
  end.

(** ** Storage plugins *)

Record RustStoragePlugin : Type := mkStoragePlugin {
  sp_descriptor : string;
  sp_capability_set : ClosedCapabilitySet StorageCapability;
  sp_load_snapshot : string -> M StorageError W (option WorldSnapshot);
  sp_save_snapshot : string -> WorldSnapshot -> M StorageError W unit;
  sp_export_runtime_state : string -> M StorageError W (option WorldSnapshot);
  sp_import_runtime_state : string -> WorldSnapshot -> M StorageError W unit
}.
(** The runtime state of a plugin that does not override the two methods is its snapshot. *)
Definition storage_plugin_with_defaults (descriptor : string) (capabilities : ClosedCapabilitySet StorageCapability)
    (load : string -> M StorageError W (option WorldSnapshot)) (save : string -> WorldSnapshot -> M StorageError W unit) :
    RustStoragePlugin :=
  mkStoragePlugin descriptor capabilities load save load save.
Definition handle_storage_request (io_text : string) (plugin : RustStoragePlugin) (request : Storage.StorageRequest) :
    M string W Storage.StorageResponse :=
  let answer {A} (f : A -> Storage.StorageResponse) (m : M StorageError W A) := answer_with f (storage_error_to_string io_text) m in
  match request with
  | Storage.Describe => mret (Storage.Descriptor (sp_descriptor plugin))
  | Storage.CapabilitySet => mret (Storage.Capabilities (capability_announcement_for_build_tag (sp_capability_set plugin)))
  | Storage.LoadSnapshot world_dir => answer Storage.Snapshot (sp_load_snapshot plugin world_dir)
  | Storage.SaveSnapshot world_dir snapshot => answer (fun _ => Storage.Empty) (sp_save_snapshot plugin world_dir snapshot)
  | Storage.ExportRuntimeState world_dir => answer Storage.Snapshot (sp_export_runtime_state plugin world_dir)
  | Storage.ImportRuntimeState world_dir snapshot =>
      answer (fun _ => Storage.Empty) (sp_import_runtime_state plugin world_dir snapshot)
  end.

(** ** Authentication plugins *)

Record RustAuthPlugin : Type := mkAuthPlugin {
  ap_descriptor : Auth.AuthDescriptor;
  ap_capability_set : ClosedCapabilitySet AuthCapability;
  ap_authenticate_offline : string -> M string W PlayerId;
  ap_authenticate_online : string -> string -> M string W PlayerId;
  ap_authenticate_bedrock_offline : string -> M string W Auth.BedrockAuthResult;
  ap_authenticate_bedrock_xbl : list string -> string -> M string W Auth.BedrockAuthResult
}.
Definition handle_auth_request (plugin : RustAuthPlugin) (request : Auth.AuthRequest) : M string W Auth.AuthResponse :=
  let answer {A} (f : A -> Auth.AuthResponse) (m : M string W A) := answer_with f id m in
  match request with
  | Auth.Describe => mret (Auth.Descriptor (ap_descriptor plugin))
  | Auth.CapabilitySet => mret (Auth.Capabilities (capability_announcement_for_build_tag (ap_capability_set plugin)))
  | Auth.AuthenticateOffline username => answer Auth.AuthenticatedPlayer (ap_authenticate_offline plugin username)
  | Auth.AuthenticateOnline username server_hash =>
      answer Auth.AuthenticatedPlayer (ap_authenticate_online plugin username server_hash)
  | Auth.AuthenticateBedrockOffline display_name =>
      answer Auth.AuthenticatedBedrockPlayer (ap_authenticate_bedrock_offline plugin display_name)
  | Auth.AuthenticateBedrockXbl chain_jwts client_data_jwt =>
      answer Auth.AuthenticatedBedrockPlayer (ap_authenticate_bedrock_xbl plugin chain_jwts client_data_jwt)
  end.
End Plugins.
Arguments RustProtocolPlugin W : clear implicits.
Arguments RustStoragePlugin W : clear implicits.
Arguments RustAuthPlugin W : clear implicits.

(** ** The Java adapters as plugins *)

Section Java.
Context `{Build} `{JavaEnv}.

(** [declare_protocol_plugin!] delegates every method to the adapter of the version; the state is
    the session store. *)
Definition java_plugin (v : JavaVersion) (capabilities : list ProtocolCapability) : RustProtocolPlugin JavaProtocolSessionStore := {|
  pp_descriptor := @profile_descriptor (java_profile v);
  pp_bedrock_listener_descriptor := None;
  pp_capability_set := set_extend capabilities ∅;
  pp_try_route frame := lift (decode_handshake_frame frame);
  pp_wire_codec := MinecraftWireCodec;
  pp_decode_status frame := lift (decode_status frame);
  pp_decode_login frame := lift (decode_login frame);
  pp_encode_status_response status := lift (encode_status_response_packet status);
  pp_encode_status_pong payload := lift (encode_status_pong_packet payload);
  pp_encode_disconnect phase reason := lift (@encode_disconnect (java_profile v) phase reason);
  pp_encode_encryption_request server_id key token := lift (encode_encryption_request server_id key token);
  pp_encode_network_settings threshold := lift (encode_network_settings threshold);
  pp_encode_login_success player := lift (encode_login_success_packet player);
  pp_decode_play session frame := fun store =>
    match decode_play v session store frame with
    | Ok (command, store') => (store', Ok command)
    | Err e => (store, Err e)
    | Panic => (store, Panic)
    | OutOfFuel => (store, OutOfFuel)
    end;
  pp_encode_play_event event session context := @encode_play_event (java_profile v) event session;
  pp_session_closed session := modify (remove_session session);
  pp_export_session_state session := fun store => (store, store_export_session_state store session);
  pp_import_session_state session blob := store_import_session_state session blob
|}.
End Java.
