(* ===== verification/PluginFailures.v ===== *)
(** * Failures of plugins
    ([crates/plugin/mc-plugin-host/src/host/failure.rs], catalog.rs,
    [crates/runtime/revy-server-types/src/lib.rs])

    What the host does about a plugin that fails: an active plugin may be quarantined, a candidate
    artifact may be, and a failure may be fatal.  Every critical section of the mutexes is an
    operation; log lines are not modelled. *)

From stdpp Require Import finite.
From S2P Require Import Prelude Bytes RevyCore ProtoPacket AnvilNbt PluginBinary.

Inductive PluginFailureAction : Set := Quarantine | Skip | FailFast.
#[export] Instance PluginFailureAction_eq_dec : EqDecision PluginFailureAction.
Proof. solve_decision. Defined.
Definition failure_action_str (action : PluginFailureAction) : string :=
  match action with Quarantine => "quarantine" | Skip => "skip" | FailFast => "fail-fast" end.
Record PluginFailureMatrix : Set := mkMatrix {
  fm_protocol : PluginFailureAction; fm_gameplay : PluginFailureAction; fm_storage : PluginFailureAction;
  fm_auth : PluginFailureAction; fm_admin_surface : PluginFailureAction
}.
Definition failure_matrix_default : PluginFailureMatrix := mkMatrix Quarantine Quarantine FailFast Skip Skip.
Definition action_for_kind (matrix : PluginFailureMatrix) (kind : PluginKind) : PluginFailureAction :=
  match kind with
  | KindProtocol => fm_protocol matrix | KindGameplay => fm_gameplay matrix | KindStorage => fm_storage matrix
  | KindAuth => fm_auth matrix | KindAdminSurface => fm_admin_surface matrix
  end.

(** [modified_at] in nanoseconds. *)
Record ArtifactIdentity : Set := mkIdentity { ai_source : string; ai_modified_at : Z }.
#[export] Instance ArtifactIdentity_eq_dec : EqDecision ArtifactIdentity.
Proof. solve_decision. Defined.
Record ArtifactQuarantineRecord : Set := mkQuarantine { qr_identity : ArtifactIdentity; qr_reason : string }.
#[export] Instance ArtifactQuarantineRecord_eq_dec : EqDecision ArtifactQuarantineRecord.
Proof. solve_decision. Defined.
Inductive PluginFailureStage : Set := StageBoot | StageReload | StageRuntime.
Definition stage_str (stage : PluginFailureStage) : string :=
  match stage with StageBoot => "boot" | StageReload => "reload" | StageRuntime => "runtime" end.

(** [PluginHostError]; what the platform says of an input or output error, or of a library that
    does not load, is not modelled. *)
Inductive HostError : Type :=
| HostIo | HostPluginLoad | HostPluginFatal (message : string) | HostProtocol (error : ProtocolError)
| HostStorage (error : StorageError) | HostAuth (message : string) | HostUnsupported (message : string)
| HostConfig (message : string).

Record PluginFailureDispatch : Type := mkFailures {
  matrix : PluginFailureMatrix; active_quarantine : gmap string string;
  artifact_quarantine : gmap string ArtifactQuarantineRecord; pending_fatal : option string
}.
Definition set_matrix v (s : PluginFailureDispatch) := mkFailures v (active_quarantine s) (artifact_quarantine s) (pending_fatal s).
Definition set_active_quarantine v (s : PluginFailureDispatch) := mkFailures (matrix s) v (artifact_quarantine s) (pending_fatal s).
Definition set_artifact_quarantine v (s : PluginFailureDispatch) := mkFailures (matrix s) (active_quarantine s) v (pending_fatal s).
Definition set_pending_fatal v (s : PluginFailureDispatch) := mkFailures (matrix s) (active_quarantine s) (artifact_quarantine s) v.

Definition failures_new (matrix : PluginFailureMatrix) : PluginFailureDispatch := mkFailures matrix ∅ ∅ None.
Definition update_matrix (matrix : PluginFailureMatrix) (s : PluginFailureDispatch) : PluginFailureDispatch := set_matrix matrix s.
Definition active_reason (plugin_id : string) (s : PluginFailureDispatch) : option string := active_quarantine s !! plugin_id.
Definition is_active_quarantined (plugin_id : string) (s : PluginFailureDispatch) : bool :=
  bool_decide (is_Some (active_quarantine s !! plugin_id)).
Definition is_artifact_quarantined (plugin_id : string) (identity : ArtifactIdentity) (s : PluginFailureDispatch) : bool :=
  match artifact_quarantine s !! plugin_id with
  | Some record => bool_decide (qr_identity record = identity)
  | None => false
  end.
Definition artifact_reason (plugin_id : string) (identity : ArtifactIdentity) (s : PluginFailureDispatch) : option string :=
  match artifact_quarantine s !! plugin_id with
  | Some record => if bool_decide (qr_identity record = identity) then Some (qr_reason record) else None
  | None => None
  end.
Definition artifact_record (plugin_id : string) (s : PluginFailureDispatch) : option ArtifactQuarantineRecord :=
  artifact_quarantine s !! plugin_id.

(** Whether the quarantine is new. *)
Definition quarantine_active (plugin_id reason : string) (s : PluginFailureDispatch) : bool * PluginFailureDispatch :=
  (negb (bool_decide (active_quarantine s !! plugin_id = Some reason)),
   set_active_quarantine (<[plugin_id := reason]> (active_quarantine s)) s).
Definition quarantine_artifact (plugin_id : string) (identity : ArtifactIdentity) (reason : string) (s : PluginFailureDispatch) :
    bool * PluginFailureDispatch :=
  (match artifact_quarantine s !! plugin_id with
   | Some record => negb (bool_decide (qr_identity record = identity)) || negb (bool_decide (qr_reason record = reason))
   | None => true
   end,
   set_artifact_quarantine (<[plugin_id := mkQuarantine identity reason]> (artifact_quarantine s)) s).
Definition clear_plugin_state (plugin_id : string) (s : PluginFailureDispatch) : PluginFailureDispatch :=
  set_artifact_quarantine (delete plugin_id (artifact_quarantine s))
    (set_active_quarantine (delete plugin_id (active_quarantine s)) s).
(** The first fatal message stays. *)
Definition record_fatal_message (message : string) (s : PluginFailureDispatch) : PluginFailureDispatch :=
  match pending_fatal s with Some _ => s | None => set_pending_fatal (Some message) s end.
Definition take_pending_fatal_error (s : PluginFailureDispatch) : option HostError * PluginFailureDispatch :=
  (HostPluginFatal <$> pending_fatal s, set_pending_fatal None s).

Definition kind_label (kind : PluginKind) : string :=
  match kind with
  | KindProtocol => "protocol" | KindGameplay => "gameplay" | KindStorage => "storage" | KindAuth => "auth"
  | KindAdminSurface => "admin-surface"
  end.
Definition fail_fast_message (kind : PluginKind) (stage : PluginFailureStage) (plugin_id reason : string) : string :=
  kind_label kind +:+ " plugin `" +:+ plugin_id +:+ "` failed during " +:+ stage_str stage +:+ ": " +:+ reason.

Definition handle_runtime_failure (kind : PluginKind) (plugin_id reason : string) (s : PluginFailureDispatch) :
    PluginFailureAction * PluginFailureDispatch :=
  let action := action_for_kind (matrix s) kind in
  (action,
   match action with
   | Quarantine => (quarantine_active plugin_id reason s).2
   | FailFast => record_fatal_message (fail_fast_message kind StageRuntime plugin_id reason) s
   | Skip => s
   end).
Definition handle_candidate_failure (kind : PluginKind) (stage : PluginFailureStage) (plugin_id : string)
    (identity : ArtifactIdentity) (reason : string) : M HostError PluginFailureDispatch unit := fun s =>
  match action_for_kind (matrix s) kind with
  | Skip => (s, Ok tt)
  | Quarantine => ((quarantine_artifact plugin_id identity reason s).2, Ok tt)
  | FailFast =>
      let message := fail_fast_message kind stage plugin_id reason in
      (record_fatal_message message s, Err (HostPluginFatal message))
  end.
Definition quarantine_candidate_artifact (plugin_id : string) (identity : ArtifactIdentity) (reason : string)
    (s : PluginFailureDispatch) : PluginFailureDispatch :=
  (quarantine_artifact plugin_id identity reason s).2.

(** ** Lemmas *)

Lemma handle_candidate_matrix kind stage plugin_id identity reason s :
  matrix (handle_candidate_failure kind stage plugin_id identity reason s).1 = matrix s /\
  active_quarantine (handle_candidate_failure kind stage plugin_id identity reason s).1 = active_quarantine s.
Proof. unfold handle_candidate_failure, record_fatal_message. by repeat case_match. Qed.
(** A candidate that fails is not tried again: with the policy [Quarantine] its artifact is known. *)
Lemma handle_candidate_quarantines kind stage plugin_id identity reason s :
  action_for_kind (matrix s) kind = Quarantine ->
  is_artifact_quarantined plugin_id identity (handle_candidate_failure kind stage plugin_id identity reason s).1 = true.
Proof.
  intros E. unfold handle_candidate_failure. rewrite E. unfold is_artifact_quarantined. cbn [quarantine_artifact snd fst artifact_quarantine set_artifact_quarantine].
  rewrite lookup_insert_eq. by apply bool_decide_true.
Qed.
Lemma clear_not_quarantined plugin_id s : is_active_quarantined plugin_id (clear_plugin_state plugin_id s) = false.
Proof.
  unfold is_active_quarantined, clear_plugin_state. cbn [active_quarantine set_artifact_quarantine set_active_quarantine].
  apply bool_decide_false. rewrite lookup_delete_eq. by intros [].
Qed.
