(* ===== verification/PluginAdapter.v ===== *)
(** * The adapter that stands for a protocol plugin
    ([crates/plugin/mc-plugin-host/src/host/profiles/protocol.rs], generation.rs)

    What the server calls a protocol adapter is, in the host, an object that sends each call to
    the current generation of a plugin's library and watches for failures.  Its state is what the
    host knows of failures and what the libraries of the process remember.  The reload gate makes
    a call and a change of the generation exclusive, so that a call is one operation here. *)

From stdpp Require Import finite pretty.
From S2P Require Import Prelude Bytes Parsing RevyCore ProtoPacket VoxelModel VoxelItems VoxelContent VoxelState VoxelEvents JavaSession JavaAdapter PluginBinary PluginInventory PluginShared PluginProtocol PluginMessages PluginCall PluginSdk PluginFailures.

Section Adapter.
Context {W : Type}.
(** [format!("{other:?}")] *)
Context (debug : ProtocolResponse -> string).

Record ProtocolGeneration : Type := mkGeneration {
  pg_generation_id : Z; pg_plugin_id : string; pg_descriptor : ProtocolDescriptor;
  pg_bedrock_listener_descriptor : option BedrockListenerDescriptor; pg_capabilities : ClosedCapabilitySet ProtocolCapability;
  pg_max_session_handoff_bytes : Z; pg_response_bytes : Z; pg_metadata_bytes : Z; pg_library : Library (W := W)
}.
Definition generation_invoke (g : ProtocolGeneration) (request : ProtocolRequest) : M ProtocolError W ProtocolResponse := fun w =>
  match invoke protocol_messages "protocol response buffer" (pg_response_bytes g) (pg_metadata_bytes g) (pg_library g)
      (pg_plugin_id g) request w with
  | (w', Ok response) => (w', Ok response)
  | (w', Err message) => (w', Err (ProtocolPlugin message))
  | (w', Panic) => (w', Panic)
  | (w', OutOfFuel) => (w', OutOfFuel)
  end.

(** ** Generations in use *)

Definition HostState : Type := PluginFailureDispatch * W.
Definition current_generation (plugin_id : string) (g : ProtocolGeneration) (failures : PluginFailureDispatch) :
    result ProtocolError ProtocolGeneration :=
  if is_active_quarantined plugin_id failures
  then Err (ProtocolPlugin (default "plugin quarantined" (active_reason plugin_id failures)))
  else Ok g.
Definition quarantine_on_error {A} (plugin_id : string) (r : HostState * result ProtocolError A) :
    HostState * result ProtocolError A :=
  match r with
  | ((failures, w), Err (ProtocolPlugin message)) =>
      (((handle_runtime_failure KindProtocol plugin_id message failures).2, w), Err (ProtocolPlugin message))
  | r => r
  end.
Definition with_generation {A} (plugin_id : string) (g : ProtocolGeneration) (f : ProtocolGeneration -> M ProtocolError W A) :
    M ProtocolError HostState A :=
  fun '(failures, w) =>
  match current_generation plugin_id g failures with
  | Ok generation => let '(w', r) := f generation w in quarantine_on_error plugin_id ((failures, w'), r)
  | Err e => ((failures, w), Err e)
  | Panic => ((failures, w), Panic)
  | OutOfFuel => ((failures, w), OutOfFuel)
  end.

(** A request, and the response that is expected for it. *)
Definition exchange {A} (g : ProtocolGeneration) (request : ProtocolRequest) (expect : ProtocolResponse -> option A)
    (what : string) : M ProtocolError W A :=
  response ← generation_invoke g request;
  match expect response with
  | Some a => mret a
  | None => throw (ProtocolPlugin (what +:+ ": " +:+ debug response))
  end.

(** ** The adapter *)

Context (plugin_id : string) (g : ProtocolGeneration).
Definition adapter_transport_kind : HostState -> TransportKind := fun s =>
  match (with_generation plugin_id g (fun generation => mret (transport (pg_descriptor generation))) s).2 with
  | Ok transport => transport
  | _ => Tcp
  end.
Definition expect_frame (r : ProtocolResponse) : option (list byte) := match r with RespFrame frame => Some frame | _ => None end.
Definition expect_empty (r : ProtocolResponse) : option unit := match r with RespEmpty => Some tt | _ => None end.

Definition adapter_try_route (frame : list byte) : M ProtocolError HostState (option HandshakeIntent) :=
  with_generation plugin_id g (fun generation => exchange generation (ReqTryRoute frame)
    (fun r => match r with RespHandshakeIntent intent => Some intent | _ => None end) "unexpected try_route response").
Definition adapter_encode_frame (payload : list byte) : M ProtocolError HostState (list byte) :=
  with_generation plugin_id g (fun generation => exchange generation (ReqEncodeWireFrame payload) expect_frame
    "unexpected encode_wire_frame response").
(** With the buffer that is left. *)
Definition adapter_try_decode_frame (buffer : list byte) : M ProtocolError HostState (option (list byte) * list byte) :=
  with_generation plugin_id g (fun generation =>
    result ← exchange generation (ReqTryDecodeWireFrame buffer)
      (fun r => match r with RespWireFrameDecodeResult result => Some result | _ => None end)
      "unexpected try_decode_wire_frame response";
    match result with
    | None => mret (None, buffer)
    | Some decoded =>
        if len buffer <? bytes_consumed decoded
        then throw (ProtocolPlugin ("wire codec consumed " +:+ pretty (bytes_consumed decoded) +:+ " buffered bytes but only "
          +:+ pretty (len buffer) +:+ " were available"))
        else mret (Some (df_frame decoded), drop (Z.to_nat (bytes_consumed decoded)) buffer)
    end).
Definition adapter_decode_status (frame : list byte) : M ProtocolError HostState StatusRequest :=
  with_generation plugin_id g (fun generation => exchange generation (ReqDecodeStatus frame)
    (fun r => match r with RespStatusRequest request => Some request | _ => None end) "unexpected decode_status response").
Definition adapter_decode_login (frame : list byte) : M ProtocolError HostState LoginRequest :=
  with_generation plugin_id g (fun generation => exchange generation (ReqDecodeLogin frame)
    (fun r => match r with RespLoginRequest request => Some request | _ => None end) "unexpected decode_login response").
Definition adapter_encode_status_response (status : ServerListStatus) : M ProtocolError HostState (list byte) :=
  with_generation plugin_id g (fun generation => exchange generation (ReqEncodeStatusResponse status) expect_frame
    "unexpected encode_status_response payload").
Definition adapter_encode_status_pong (payload : Z) : M ProtocolError HostState (list byte) :=
  with_generation plugin_id g (fun generation => exchange generation (ReqEncodeStatusPong payload) expect_frame
    "unexpected encode_status_pong payload").
Definition adapter_encode_disconnect (phase : ConnectionPhase) (reason : string) : M ProtocolError HostState (list byte) :=
  with_generation plugin_id g (fun generation => exchange generation (ReqEncodeDisconnect phase reason) expect_frame
    "unexpected encode_disconnect payload").
Definition adapter_encode_encryption_request (server_id : string) (public_key_der verify_token : list byte) :
    M ProtocolError HostState (list byte) :=
  with_generation plugin_id g (fun generation =>
    exchange generation (ReqEncodeEncryptionRequest server_id public_key_der verify_token) expect_frame
      "unexpected encode_encryption_request payload").
Definition adapter_encode_network_settings (compression_threshold : Z) : M ProtocolError HostState (list byte) :=
  with_generation plugin_id g (fun generation => exchange generation (ReqEncodeNetworkSettings compression_threshold) expect_frame
    "unexpected encode_network_settings payload").
Definition adapter_encode_login_success (player : PlayerSnapshot) : M ProtocolError HostState (list byte) :=
  with_generation plugin_id g (fun generation => exchange generation (ReqEncodeLoginSuccess player) expect_frame
    "unexpected encode_login_success payload").
Definition adapter_decode_play (session : ProtocolSessionSnapshot) (frame : list byte) :
    M ProtocolError HostState (option RuntimeCommand) :=
  with_generation plugin_id g (fun generation => exchange generation (ReqDecodePlay session frame)
    (fun r => match r with RespRuntimeCommand command => Some command | _ => None end) "unexpected decode_play payload").
Definition adapter_encode_play_event (event : CoreEvent) (session : ProtocolSessionSnapshot) (context : PlayEncodingContext) :
    M ProtocolError HostState (list (list byte)) :=
  with_generation plugin_id g (fun generation => exchange generation (ReqEncodePlayEvent session event context)
    (fun r => match r with RespFrames frames => Some frames | _ => None end) "unexpected encode_play_event payload").
Definition adapter_session_closed (session : ProtocolSessionSnapshot) : M ProtocolError HostState unit :=
  with_generation plugin_id g (fun generation => exchange generation (ReqSessionClosed session) expect_empty
    "unexpected session_closed payload").
Definition handoff_too_long (verb : string) (n declared : Z) : ProtocolError :=
  ProtocolPlugin ("protocol session handoff " +:+ verb +:+ " " +:+ pretty n +:+ " bytes but declared a " +:+ pretty declared
    +:+ " byte maximum").
Definition adapter_export_session_state (session : ProtocolSessionSnapshot) : M ProtocolError HostState (list byte) :=
  with_generation plugin_id g (fun generation =>
    blob ← exchange generation (ReqExportSessionState session)
      (fun r => match r with RespSessionTransferBlob blob => Some blob | _ => None end)
      "unexpected protocol export_session_state payload";
    if pg_max_session_handoff_bytes generation <? len blob
    then throw (handoff_too_long "produced" (len blob) (pg_max_session_handoff_bytes generation))
    else mret blob).
Definition adapter_import_session_state (session : ProtocolSessionSnapshot) (blob : list byte) : M ProtocolError HostState unit :=
  with_generation plugin_id g (fun generation =>
    if pg_max_session_handoff_bytes generation <? len blob
    then throw (handoff_too_long "received" (len blob) (pg_max_session_handoff_bytes generation))
    else exchange generation (ReqImportSessionState session blob) expect_empty "unexpected protocol import_session_state payload").
(** A quarantined adapter describes itself as one. *)
Definition adapter_descriptor : HostState -> ProtocolDescriptor := fun s =>
  match (with_generation plugin_id g (fun generation => mret (pg_descriptor generation)) s).2 with
  | Ok descriptor => descriptor
  | _ => mkProtocol plugin_id Tcp MinecraftFramed EditionJe "quarantined" (-1)
  end.
Definition adapter_bedrock_listener_descriptor : HostState -> option BedrockListenerDescriptor := fun s =>
  match (with_generation plugin_id g (fun generation => mret (pg_bedrock_listener_descriptor generation)) s).2 with
  | Ok descriptor => descriptor
  | _ => None
  end.
Definition adapter_capability_set : HostState -> ClosedCapabilitySet ProtocolCapability := fun s =>
  match (with_generation plugin_id g (fun generation => mret (pg_capabilities generation)) s).2 with
  | Ok capabilities => capabilities
  | _ => ∅
  end.
Definition adapter_plugin_generation_id : HostState -> option Z := fun s =>
  match (with_generation plugin_id g (fun generation => mret (pg_generation_id generation)) s).2 with
  | Ok id => Some id
  | _ => None
  end.
Definition adapter_max_session_handoff_bytes : HostState -> Z := fun s =>
  match (with_generation plugin_id g (fun generation => mret (pg_max_session_handoff_bytes generation)) s).2 with
  | Ok n => n
  | _ => 0
  end.
End Adapter.
Arguments HostState W : clear implicits.
Arguments ProtocolGeneration W : clear implicits.
