(* ===== verification/PluginIsolation.v ===== *)
(** * What the adapter of a protocol plugin promises
    ([crates/plugin]: mc-plugin-host host/profiles/protocol.rs and generation.rs, mc-plugin-sdk-rust)

    The whole way of a call: the host's adapter, the bytes of the request, the exported function,
    the plugin's method, the bytes of the response.  For a plugin written with the SDK it is a
    direct call of the method; for any library, a call ends with a value or an error.  And the way
    of a failure: what one call leaves for the next ones. *)

From stdpp Require Import finite pretty.
From S2P Require Import Prelude Bytes Parsing RevyCore ProtoPacket VoxelModel VoxelItems VoxelContent VoxelState VoxelEvents JavaSession JavaAdapter PluginBinary PluginInventory PluginShared PluginProtocol PluginMessages PluginCall PluginSdk PluginFailures PluginAdapter.

(** ** The calls *)

Inductive AdapterCall : Type -> Type :=
| CallTryRoute (frame : list byte) : AdapterCall (option HandshakeIntent)
| CallEncodeFrame (payload : list byte) : AdapterCall (list byte)
| CallTryDecodeFrame (buffer : list byte) : AdapterCall (option (list byte) * list byte)
| CallDecodeStatus (frame : list byte) : AdapterCall StatusRequest
| CallDecodeLogin (frame : list byte) : AdapterCall LoginRequest
| CallEncodeStatusResponse (status : ServerListStatus) : AdapterCall (list byte)
| CallEncodeStatusPong (payload : Z) : AdapterCall (list byte)
| CallEncodeDisconnect (phase : ConnectionPhase) (reason : string) : AdapterCall (list byte)
| CallEncodeEncryptionRequest (server_id : string) (public_key_der verify_token : list byte) : AdapterCall (list byte)
| CallEncodeNetworkSettings (compression_threshold : Z) : AdapterCall (list byte)
| CallEncodeLoginSuccess (player : PlayerSnapshot) : AdapterCall (list byte)
| CallDecodePlay (session : ProtocolSessionSnapshot) (frame : list byte) : AdapterCall (option RuntimeCommand)
| CallEncodePlayEvent (event : CoreEvent) (session : ProtocolSessionSnapshot) (context : PlayEncodingContext) :
    AdapterCall (list (list byte))
| CallSessionClosed (session : ProtocolSessionSnapshot) : AdapterCall unit
| CallExportSessionState (session : ProtocolSessionSnapshot) : AdapterCall (list byte)
| CallImportSessionState (session : ProtocolSessionSnapshot) (blob : list byte) : AdapterCall unit.

(** A call as the host makes it. *)
Definition host_call {W} (debug : ProtocolResponse -> string) (plugin_id : string) (g : ProtocolGeneration W) {A}
    (c : AdapterCall A) : M ProtocolError (HostState W) A :=
  match c with
  | CallTryRoute frame => adapter_try_route debug plugin_id g frame
  | CallEncodeFrame payload => adapter_encode_frame debug plugin_id g payload
  | CallTryDecodeFrame buffer => adapter_try_decode_frame debug plugin_id g buffer
  | CallDecodeStatus frame => adapter_decode_status debug plugin_id g frame
  | CallDecodeLogin frame => adapter_decode_login debug plugin_id g frame
  | CallEncodeStatusResponse status => adapter_encode_status_response debug plugin_id g status
  | CallEncodeStatusPong payload => adapter_encode_status_pong debug plugin_id g payload
  | CallEncodeDisconnect phase reason => adapter_encode_disconnect debug plugin_id g phase reason
  | CallEncodeEncryptionRequest id key token => adapter_encode_encryption_request debug plugin_id g id key token
  | CallEncodeNetworkSettings threshold => adapter_encode_network_settings debug plugin_id g threshold
  | CallEncodeLoginSuccess player => adapter_encode_login_success debug plugin_id g player
  | CallDecodePlay session frame => adapter_decode_play debug plugin_id g session frame
  | CallEncodePlayEvent event session context => adapter_encode_play_event debug plugin_id g event session context
  | CallSessionClosed session => adapter_session_closed debug plugin_id g session
  | CallExportSessionState session => adapter_export_session_state debug plugin_id g session
  | CallImportSessionState session blob => adapter_import_session_state debug plugin_id g session blob
  end.

(** A call of the plugin's own method. *)
Definition take_frame {W} (codec : WireCodec) (buffer : list byte) : M ProtocolError W (option (list byte) * list byte) := fun w =>
  match try_decode_frame codec buffer with
  | (rest, Ok frame) => (w, Ok (frame, rest))
  | (_, Err e) => (w, Err e)
  | (_, Panic) => (w, Panic)
  | (_, OutOfFuel) => (w, OutOfFuel)
  end.
Definition plugin_call {W} (p : RustProtocolPlugin W) {A} (c : AdapterCall A) : M ProtocolError W A :=
  match c with
  | CallTryRoute frame => pp_try_route p frame
  | CallEncodeFrame payload => lift (encode_frame (pp_wire_codec p) payload)
  | CallTryDecodeFrame buffer => take_frame (pp_wire_codec p) buffer
  | CallDecodeStatus frame => pp_decode_status p frame
  | CallDecodeLogin frame => pp_decode_login p frame
  | CallEncodeStatusResponse status => pp_encode_status_response p status
  | CallEncodeStatusPong payload => pp_encode_status_pong p payload
  | CallEncodeDisconnect phase reason => pp_encode_disconnect p phase reason
  | CallEncodeEncryptionRequest id key token => pp_encode_encryption_request p id key token
  | CallEncodeNetworkSettings threshold => pp_encode_network_settings p threshold
  | CallEncodeLoginSuccess player => pp_encode_login_success p player
  | CallDecodePlay session frame => pp_decode_play p session frame
  | CallEncodePlayEvent event session context => pp_encode_play_event p event session context
  | CallSessionClosed session => pp_session_closed p session
  | CallExportSessionState session => pp_export_session_state p session
  | CallImportSessionState session blob => pp_import_session_state p session blob
  end.

(** What a call sends, and what its answer sends back. *)
Definition call_request {A} (c : AdapterCall A) : ProtocolRequest :=
  match c with
  | CallTryRoute frame => ReqTryRoute frame
  | CallEncodeFrame payload => ReqEncodeWireFrame payload
  | CallTryDecodeFrame buffer => ReqTryDecodeWireFrame buffer
  | CallDecodeStatus frame => ReqDecodeStatus frame
  | CallDecodeLogin frame => ReqDecodeLogin frame
  | CallEncodeStatusResponse status => ReqEncodeStatusResponse status
  | CallEncodeStatusPong payload => ReqEncodeStatusPong payload
  | CallEncodeDisconnect phase reason => ReqEncodeDisconnect phase reason
  | CallEncodeEncryptionRequest id key token => ReqEncodeEncryptionRequest id key token
  | CallEncodeNetworkSettings threshold => ReqEncodeNetworkSettings threshold
  | CallEncodeLoginSuccess player => ReqEncodeLoginSuccess player
  | CallDecodePlay session frame => ReqDecodePlay session frame
  | CallEncodePlayEvent event session context => ReqEncodePlayEvent session event context
  | CallSessionClosed session => ReqSessionClosed session
  | CallExportSessionState session => ReqExportSessionState session
  | CallImportSessionState session blob => ReqImportSessionState session blob
  end.
Definition call_response {A} (c : AdapterCall A) : A -> ProtocolResponse :=
  match c in AdapterCall A return A -> ProtocolResponse with
  | CallTryRoute _ => RespHandshakeIntent
  | CallTryDecodeFrame buffer => fun r =>
      RespWireFrameDecodeResult (frame ← r.1; Some (mkDecodedFrame frame (len buffer - len (r.2))))
  | CallDecodeStatus _ => RespStatusRequest
  | CallDecodeLogin _ => RespLoginRequest
  | CallDecodePlay _ _ => RespRuntimeCommand
  | CallEncodePlayEvent _ _ _ => RespFrames
  | CallSessionClosed _ | CallImportSessionState _ _ => fun _ => RespEmpty
  | CallExportSessionState _ => RespSessionTransferBlob
  | _ => RespFrame
  end.

(** ** Calls of an SDK plugin *)

Section Refinement.
Context {W : Type} (debug : ProtocolResponse -> string) (capacity : list byte -> Z) (build_tag : option string).
Hypothesis capacity_ok : forall bytes, len bytes <= isize_max -> len bytes <= capacity bytes <= isize_max.
Context (plugin_id : string) (p : RustProtocolPlugin W) (g : ProtocolGeneration W) (panic_decode panic_handle : string).

(** The library of the generation is the plugin, exported by the SDK. *)
Definition exports : Prop :=
  pg_library g = mc_plugin_invoke capacity protocol_messages panic_decode panic_handle (handle_protocol_request build_tag p) /\
  pg_response_bytes g <= isize_max /\ pg_metadata_bytes g <= isize_max.

(** A text that an error buffer carries. *)
Definition text_arrives (message : string) : Prop :=
  utf8_ok message = true /\ message <> "" /\ len (string_bytes message) <= pg_metadata_bytes g.
Definition response_arrives (request : ProtocolRequest) (response : ProtocolResponse) : Prop :=
  protocol_response_fits response = true /\
  exists bytes, encode_protocol_response request response = Ok bytes /\ len bytes <= pg_response_bytes g.
(** The arguments fit their types and the request is not too long; a blob is within the length the
    plugin declared; the codec of the plugin takes a frame off the front of its buffer. *)
Definition call_arrives {A} (c : AdapterCall A) : Prop :=
  protocol_request_fits (call_request c) = true /\ is_ok (encode_protocol_request (call_request c)) = true /\
  match c with
  | CallImportSessionState _ blob => len blob <= pg_max_session_handoff_bytes g
  | CallTryDecodeFrame buffer =>
      match try_decode_frame (pp_wire_codec p) buffer with
      | (rest, Ok (Some _)) => exists taken, buffer = taken ++ rest
      | (rest, Ok None) => rest = buffer
      | _ => True
      end
  | _ => True
  end.
(** So does the answer, or the text of the error. *)
Definition outcome_arrives {A} (c : AdapterCall A) (r : result ProtocolError A) : Prop :=
  match r with
  | Ok a => response_arrives (call_request c) (call_response c a) /\
      match c in AdapterCall A return A -> Prop with
      | CallExportSessionState _ => fun blob => len blob <= pg_max_session_handoff_bytes g
      | _ => fun _ => True
      end a
  | Err e => text_arrives (protocol_error_text e)
  | Panic => text_arrives panic_handle
  | OutOfFuel => True
  end.
(** What the host makes of the plugin's answer. *)
Definition failure (message : string) (failures : PluginFailureDispatch) : PluginFailureDispatch :=
  (handle_runtime_failure KindProtocol plugin_id message failures).2.
Definition host_outcome {A} (failures : PluginFailureDispatch) (r : W * result ProtocolError A) :
    HostState W * result ProtocolError A :=
  match r with
  | (w, Ok a) => ((failures, w), Ok a)
  | (w, Err e) => ((failure (protocol_error_text e) failures, w), Err (ProtocolPlugin (protocol_error_text e)))
  | (w, Panic) => ((failure panic_handle failures, w), Err (ProtocolPlugin panic_handle))
  | (w, OutOfFuel) => ((failures, w), OutOfFuel)
  end.

Lemma invoke_refines request w : exports -> protocol_request_fits request = true ->
  is_ok (encode_protocol_request request) = true ->
  match handle_protocol_request build_tag p request w with
  | (w', Ok response) => protocol_answers (protocol_request_op request) response = true -> response_arrives request response ->
      generation_invoke g request w = (w', Ok response)
  | (w', Err message) => text_arrives message -> generation_invoke g request w = (w', Err (ProtocolPlugin message))
  | (w', Panic) => text_arrives panic_handle -> generation_invoke g request w = (w', Err (ProtocolPlugin panic_handle))
  | (w', OutOfFuel) => generation_invoke g request w = (w', OutOfFuel)
  end.
Proof.
  intros (Hlib & Hr & Hm) Hfits Hok. pose proof (protocol_request_carries request Hfits) as Hc.
  unfold generation_invoke. rewrite Hlib. destruct (handle_protocol_request build_tag p request w) as [w' [response|message| |]] eqn:E.
  - intros Ha (Hs & bytes & Eb & Hl). unshelve erewrite (invoke_answers capacity capacity_ok protocol_messages); try done.
    + by apply protocol_response_carries.
    + by exists bytes.
  - intros (Hu & Hne & Hl). by unshelve erewrite (invoke_refuses capacity capacity_ok protocol_messages).
  - intros (Hu & Hne & Hl). by unshelve erewrite (invoke_panics capacity capacity_ok protocol_messages).
  - by erewrite (invoke_diverges capacity protocol_messages).
Qed.

(** The plugin's answer as the host's exchange sees it. *)
Definition exchange_outcome {A B} (k : A -> B) (r : W * result ProtocolError A) : W * result ProtocolError B :=
  match r with
  | (w, Ok a) => (w, Ok (k a))
  | (w, Err e) => (w, Err (ProtocolPlugin (protocol_error_text e)))
  | (w, Panic) => (w, Err (ProtocolPlugin panic_handle))
  | (w, OutOfFuel) => (w, OutOfFuel)
  end.
Lemma exchange_refines {A B} request (m : M ProtocolError W A) (f : A -> ProtocolResponse) expect (k : A -> B) what w :
  exports -> protocol_request_fits request = true -> is_ok (encode_protocol_request request) = true ->
  (forall w, handle_protocol_request build_tag p request w = answer_with f protocol_error_text m w) ->
  (forall a, expect (f a) = Some (k a)) -> (forall a, protocol_answers (protocol_request_op request) (f a) = true) ->
  match (m w).2 with
  | Ok a => response_arrives request (f a)
  | Err e => text_arrives (protocol_error_text e)
  | Panic => text_arrives panic_handle
  | OutOfFuel => True
  end ->
  exchange debug g request expect what w = exchange_outcome k (m w).
Proof.
  intros He Hfits Hok Hm Hk Ha Ho. pose proof (invoke_refines request w He Hfits Hok) as H. rewrite Hm in H. unfold answer_with in H.
  unfold exchange, mbind, M_bind. destruct (m w) as [w' [a|e| |]]; cbn [snd exchange_outcome] in *.
  - rewrite (H (Ha a) Ho), Hk. done.
  - by rewrite (H Ho).
  - by rewrite (H Ho).
  - by rewrite H.
Qed.
Lemma with_generation_refines {A} failures (f : ProtocolGeneration W -> M ProtocolError W A) (r : W * result ProtocolError A) w :
  is_active_quarantined plugin_id failures = false -> f g w = exchange_outcome id r ->
  with_generation plugin_id g f (failures, w) = host_outcome failures r.
Proof.
  intros Hq E. unfold with_generation, current_generation. rewrite Hq, E. destruct r as [w' [a|e| |]]; reflexivity.
Qed.
Lemma exchange_bind {A B C} request (m : M ProtocolError W A) expect (k : A -> B) what
    (rest : B -> M ProtocolError W C) (r : W * result ProtocolError C) w :
  exchange debug g request expect what w = exchange_outcome k (m w) ->
  match m w with
  | (w', Ok a) => rest (k a) w' = exchange_outcome id r
  | (w', Err e) => r = (w', Err e)
  | (w', Panic) => r = (w', Panic)
  | (w', OutOfFuel) => r = (w', OutOfFuel)
  end -> (exchange debug g request expect what ≫= rest) w = exchange_outcome id r.
Proof. intros E H. unfold mbind, M_bind. rewrite E. by destruct (m w) as [w' [a|e| |]]; cbn [exchange_outcome]; [|subst..]. Qed.

Ltac refine_call response Ho :=
  apply with_generation_refines; [done|]; apply exchange_refines with (f := response); try done; try (by intros []);
  match goal with |- match (?m ?w).2 with _ => _ end => destruct (m w) as [? [?|?| |] ] end; cbn in Ho |- *; tauto.
Lemma decode_frame_refines buffer failures w :
  exports -> is_active_quarantined plugin_id failures = false -> call_arrives (CallTryDecodeFrame buffer) ->
  outcome_arrives (CallTryDecodeFrame buffer) (take_frame (pp_wire_codec p) buffer w).2 ->
  adapter_try_decode_frame debug plugin_id g buffer (failures, w) = host_outcome failures (take_frame (pp_wire_codec p) buffer w).
Proof.
  intros He Hq (Hfits & Hok & Hprefix) Ho. cbn [call_request call_arrives] in *.
  unfold adapter_try_decode_frame. apply with_generation_refines; [done|]. cbv beta.
  eapply exchange_bind; [apply exchange_refines with (f := RespWireFrameDecodeResult)
    (m := lift (decode_wire_frame (pp_wire_codec p) buffer)) (k := id); try done|];
    unfold lift, decode_wire_frame, take_frame in *;
    destruct (try_decode_frame (pp_wire_codec p) buffer) as [rest [frame|e| |]]; cbn in Ho |- *; try done; try tauto.
  destruct frame as [frame|]; cbn in *; [|by subst].
  destruct Hprefix as [taken ->]. rewrite length_app, (proj2 (Z.ltb_ge _ _)) by lia.
  replace (Z.to_nat (Z.of_nat (length taken + length rest) - len rest)) with (length taken) by lia. by rewrite drop_app_length.
Qed.

(** C6: calling a protocol plugin through the host is calling its method.  The library of the
    generation is a plugin that the SDK exports; then every call of the adapter that stands for
    it, with arguments and an answer that fit their types and the configured limits, has the
    effect on the plugin's state and the result of the method itself; an error arrives as an
    error with its text, and so does a panic, and the host then treats the plugin as the failure
    policy says. *)
Theorem adapter_refines_plugin {A} (c : AdapterCall A) failures w :
  exports -> is_active_quarantined plugin_id failures = false -> call_arrives c ->
  outcome_arrives c (plugin_call p c w).2 ->
  host_call debug plugin_id g c (failures, w) = host_outcome failures (plugin_call p c w).
Proof.
  intros He Hq Harrives Ho. pose proof Harrives as (Hfits & Hok & Hextra). destruct c; cbn [call_request call_response host_call plugin_call] in *.
  - refine_call RespHandshakeIntent Ho.
  - refine_call RespFrame Ho.
  - by apply decode_frame_refines.
  - refine_call RespStatusRequest Ho.
  - refine_call RespLoginRequest Ho.
  - refine_call RespFrame Ho.
  - refine_call RespFrame Ho.
  - refine_call RespFrame Ho.
  - refine_call RespFrame Ho.
  - refine_call RespFrame Ho.
  - refine_call RespFrame Ho.
  - refine_call RespRuntimeCommand Ho.
  - refine_call RespFrames Ho.
  - refine_call (fun _ : unit => RespEmpty) Ho.
  - unfold adapter_export_session_state. apply with_generation_refines; [done|]. cbv beta. eapply exchange_bind.
    + apply exchange_refines with (f := RespSessionTransferBlob) (k := id); try done.
      destruct (pp_export_session_state p session w) as [w' [a|e| |]]; cbn in Ho |- *; tauto.
    + destruct (pp_export_session_state p session w) as [w' [a|e| |]]; try done. cbn in Ho. cbn beta.
      by rewrite (proj2 (Z.ltb_ge _ _)) by (unfold id; tauto).
  - unfold adapter_import_session_state. apply with_generation_refines; [done|]. cbn in Hextra.
    rewrite (proj2 (Z.ltb_ge _ _)) by done. apply exchange_refines with (f := fun _ : unit => RespEmpty); try done; try (by intros []).
    destruct (pp_import_session_state p session blob w) as [w' [a|e| |]]; cbn in Ho |- *; tauto.
Qed.
End Refinement.

(** ** The Java adapter of 1.12.2 as a plugin, for concrete calls *)

Section Sample.
Let B : Build := mkBuild false 64.
Let E : JavaEnv := sample_env.
Definition sample_plugin : RustProtocolPlugin JavaProtocolSessionStore := @java_plugin (mkBuild false 64) sample_env V340 [].
Definition sample_generation : ProtocolGeneration JavaProtocolSessionStore :=
  mkGeneration 1 "je-340" (pp_descriptor sample_plugin) None (pp_capability_set sample_plugin) 65536 16777216 65536
    (mc_plugin_invoke (fun bytes => len bytes) protocol_messages "" "panic" (handle_protocol_request None sample_plugin)).
Lemma sample_exports : exports (fun bytes => len bytes) None sample_plugin sample_generation "" "panic".
Proof. split; [reflexivity|]. by split. Qed.
End Sample.
Lemma adapter_refines_plugin_witness :
  host_call (fun _ => "") "je-340" sample_generation (CallEncodeStatusPong 5) (failures_new failure_matrix_default, sample_store) =
    host_outcome "je-340" "panic" (failures_new failure_matrix_default) (plugin_call sample_plugin (CallEncodeStatusPong 5) sample_store).
Proof.
  apply (adapter_refines_plugin (fun _ => "") (fun bytes => len bytes) None) with (panic_decode := "").
  - intros bytes H. split; [apply Z.le_refl|exact H].
  - apply sample_exports.
  - reflexivity.
  - repeat split; vm_compute; reflexivity.
  - split; [|exact I]. split; [vm_compute; reflexivity|]. eexists. split; [vm_compute; reflexivity|vm_compute; discriminate].
Defined.
