(* ===== verification/PluginQuarantine.v ===== *)
(** * Quarantined plugins and the routing of handshakes
    ([crates/plugin/mc-plugin-host/src]: registry.rs, host/failure.rs, host/profiles/protocol.rs)

    The registry of the adapters, which finds the adapter of a connection by asking the probes
    for the first frame, and what an adapter does after its plugin has failed. *)

From stdpp Require Import finite pretty sorting.
From S2P Require Import Prelude Bytes Parsing RevyCore ProtoPacket VoxelModel VoxelItems VoxelContent VoxelState VoxelEvents JavaSession JavaAdapter PluginBinary PluginInventory PluginShared PluginProtocol PluginMessages PluginCall PluginSdk PluginFailures PluginAdapter PluginIsolation.

#[export] Instance TransportKind_eq_dec : EqDecision TransportKind.
Proof. solve_decision. Defined.
#[export] Instance Edition_eq_dec : EqDecision Edition.
Proof. solve_decision. Defined.
#[export, refine] Instance TransportKind_finite : Finite TransportKind := {| enum := [Tcp; Udp] |}.
Proof. all: [> vm_compute; repeat constructor; set_solver | intros []; set_solver]. Defined.
#[export, refine] Instance Edition_finite : Finite Edition := {| enum := [EditionJe; EditionBe] |}.
Proof. all: [> vm_compute; repeat constructor; set_solver | intros []; set_solver]. Defined.

(** ** The registry of the adapters *)

Section Registry.
Context {W : Type} (debug : ProtocolResponse -> string).

(** A [HotSwappableProtocolAdapter] with its current generation. *)
Record Adapter : Type := mkAdapter { ad_plugin_id : string; ad_generation : ProtocolGeneration W }.
Definition descriptor (adapter : Adapter) : HostState W -> ProtocolDescriptor :=
  adapter_descriptor (ad_plugin_id adapter) (ad_generation adapter).
Definition transport_kind (adapter : Adapter) : HostState W -> TransportKind :=
  adapter_transport_kind (ad_plugin_id adapter) (ad_generation adapter).
Definition try_route (adapter : Adapter) : list byte -> M ProtocolError (HostState W) (option HandshakeIntent) :=
  adapter_try_route debug (ad_plugin_id adapter) (ad_generation adapter).

Record ProtocolRegistry : Type := mkRegistry {
  adapters_by_id : gmap string Adapter;
  adapters_by_route : gmap (TransportKind * Edition * Z) Adapter;
  probes : list Adapter
}.
Definition registry_new : ProtocolRegistry := mkRegistry ∅ ∅ [].
Definition transport_debug (kind : TransportKind) : string := match kind with Tcp => "Tcp" | Udp => "Udp" end.
Definition edition_debug (edition : Edition) : string := match edition with EditionJe => "Je" | EditionBe => "Be" end.
Definition route (d : ProtocolDescriptor) : TransportKind * Edition * Z := (transport d, pd_edition d, pd_protocol_number d).

(** What the adapters say of themselves depends on the state of the host. *)
Definition register_adapter (s : HostState W) (adapter : Adapter) (registry : ProtocolRegistry) : result HostError ProtocolRegistry :=
  let d := descriptor adapter s in
  match adapters_by_route registry !! route d with
  | Some existing =>
      Err (HostConfig ("protocol route collision: existing adapter `" +:+ adapter_id (descriptor existing s)
        +:+ "` conflicts with candidate `" +:+ adapter_id d +:+ "` for " +:+ transport_debug (transport d) +:+ "/"
        +:+ edition_debug (pd_edition d) +:+ "/" +:+ pretty (pd_protocol_number d)))
  | None =>
      Ok (mkRegistry (<[adapter_id d := adapter]> (adapters_by_id registry))
        (<[route d := adapter]> (adapters_by_route registry)) (probes registry))
  end.
Definition register_probe (probe : Adapter) (registry : ProtocolRegistry) : ProtocolRegistry :=
  mkRegistry (adapters_by_id registry) (adapters_by_route registry) (probes registry ++ [probe]).
Definition resolve_adapter (id : string) (registry : ProtocolRegistry) : option Adapter := adapters_by_id registry !! id.
Definition resolve_route (kind : TransportKind) (edition : Edition) (protocol_number : Z) (registry : ProtocolRegistry) :
    option Adapter :=
  adapters_by_route registry !! (kind, edition, protocol_number).
(** With the adapters that are already taken over, and their identifiers. *)
Fixpoint filter_loop (s : HostState W) (registry filtered : ProtocolRegistry) (seen : gset string) (enabled_adapters : list string) :
    result HostError ProtocolRegistry :=
  match enabled_adapters with
  | [] => Ok filtered
  | id :: rest =>
      if bool_decide (id ∈ seen) then Err (HostConfig ("enabled-adapters contains duplicate adapter `" +:+ id +:+ "`"))
      else match resolve_adapter id registry with
           | None => Err (HostConfig ("enabled-adapters contains unknown adapter `" +:+ id +:+ "`"))
           | Some adapter =>
               filtered ← register_adapter s adapter filtered; filter_loop s registry filtered ({[id]} ∪ seen) rest
           end
  end.
Definition filter_enabled (s : HostState W) (enabled_adapters : list string) (registry : ProtocolRegistry) :
    result HostError ProtocolRegistry :=
  filtered ← filter_loop s registry registry_new ∅ enabled_adapters;
  Ok (mkRegistry (adapters_by_id filtered) (adapters_by_route filtered) (probes registry)).
Definition adapter_ids_for_transport (s : HostState W) (kind : TransportKind) (registry : ProtocolRegistry) : list string :=
  merge_sort string_le
    (filter (fun e : string * Adapter => transport (descriptor e.2 s) = kind) (map_to_list (adapters_by_id registry))).*1.
Fixpoint route_probes (kind : TransportKind) (frame : list byte) (l : list Adapter) :
    M ProtocolError (HostState W) (option HandshakeIntent) :=
  match l with
  | [] => mret None
  | probe :: l => fun s =>
      if bool_decide (transport_kind probe s = kind) then
        (intent ← try_route probe frame;
         match intent with Some intent => mret (Some intent) | None => route_probes kind frame l end) s
      else route_probes kind frame l s
  end.
Definition route_handshake (kind : TransportKind) (frame : list byte) (registry : ProtocolRegistry) :
    M ProtocolError (HostState W) (option HandshakeIntent) :=
  route_probes kind frame (probes registry).
End Registry.
Arguments Adapter W : clear implicits.
Arguments ProtocolRegistry W : clear implicits.

(** ** Registries that agree with themselves *)

Section RegistryLemmas.
Context {W : Type} (s : HostState W).
Implicit Types (r : ProtocolRegistry W) (a : Adapter W).

(** Both maps hold the same adapters, under what the adapters say of themselves. *)
Definition registry_ok r : Prop :=
  (forall id a, adapters_by_id r !! id = Some a -> adapter_id (descriptor a s) = id /\
    adapters_by_route r !! route (descriptor a s) = Some a) /\
  (forall k a, adapters_by_route r !! k = Some a -> route (descriptor a s) = k /\
    adapters_by_id r !! adapter_id (descriptor a s) = Some a).

Lemma registry_new_ok : registry_ok registry_new.
Proof. split; intros ? ?; cbn; by rewrite lookup_empty. Qed.
(** Two adapters of one registry that differ have other identifiers and other routes. *)
Lemma registry_apart r a b : registry_ok r ->
  adapters_by_id r !! adapter_id (descriptor a s) = Some a -> adapters_by_id r !! adapter_id (descriptor b s) = Some b ->
  route (descriptor a s) = route (descriptor b s) -> a = b.
Proof.
  intros [Hid _] Ha Hb E. destruct (Hid _ _ Ha) as [_ Ra], (Hid _ _ Hb) as [_ Rb]. rewrite E in Ra. congruence.
Qed.
Lemma register_adapter_ok r a : registry_ok r -> adapters_by_id r !! adapter_id (descriptor a s) = None ->
  match register_adapter s a r with
  | Ok r' => registry_ok r' /\ adapters_by_id r' = <[adapter_id (descriptor a s) := a]> (adapters_by_id r) /\ probes r' = probes r
  | Err _ => is_Some (adapters_by_route r !! route (descriptor a s))
  | _ => False
  end.
Proof.
  intros [Hid Hroute] Hnew. unfold register_adapter. destruct (adapters_by_route r !! route (descriptor a s)) as [b|] eqn:E; [by eexists|]. split; [|done].
  split; cbn; intros k b; rewrite lookup_insert_Some; intros [[<- <-]|[Hne Hb]].
  - by rewrite lookup_insert_eq.
  - destruct (Hid _ _ Hb) as [<- Rb]. split; [done|]. rewrite lookup_insert_ne; [done|]. intros Ek. rewrite <- Ek in Rb. congruence.
  - by rewrite lookup_insert_eq.
  - destruct (Hroute _ _ Hb) as [<- Ib]. split; [done|]. rewrite lookup_insert_ne; [done|]. intros Ei. rewrite <- Ei in Ib. congruence.
Qed.
End RegistryLemmas.

(** ** The adapters that are enabled *)

Section Enabled.
Context {W : Type} (s : HostState W).
Implicit Types (r filtered : ProtocolRegistry W) (a : Adapter W).

(** [filtered] holds the adapters of [r] with these identifiers. *)
Definition restricts r filtered (ids : list string) : Prop :=
  registry_ok s filtered /\ probes filtered = [] /\
  (forall id, adapters_by_id filtered !! id = if bool_decide (id ∈ ids) then adapters_by_id r !! id else None).

Lemma if_bool_decide_ext {A} (P Q : Prop) `{Decision P} `{Decision Q} (x y : A) :
  (P <-> Q) -> (if bool_decide P then x else y) = if bool_decide Q then x else y.
Proof. intros E. by rewrite (bool_decide_ext P Q E). Qed.
Lemma filter_loop_spec r : registry_ok s r -> forall enabled filtered seen,
  restricts r filtered (elements seen) -> (forall id, id ∈ seen -> is_Some (adapters_by_id r !! id)) ->
  match filter_loop s r filtered seen enabled with
  | Ok filtered' => NoDup enabled /\ (forall id, id ∈ enabled -> id ∉ seen /\ is_Some (adapters_by_id r !! id)) /\
      restricts r filtered' (elements seen ++ enabled)
  | Err _ => ~ NoDup enabled \/ exists id, id ∈ enabled /\ (id ∈ seen \/ adapters_by_id r !! id = None)
  | _ => False
  end.
Proof.
  intros Hr. induction enabled as [|id enabled IH]; intros filtered seen Hf Hseen; cbn [filter_loop].
  { rewrite app_nil_r. split; [constructor|]. split; [set_solver|done]. }
  case_bool_decide as Hin; [right; exists id; set_solver|]. unfold resolve_adapter.
  destruct (adapters_by_id r !! id) as [a|] eqn:Ea; [|right; exists id; set_solver].
  destruct (proj1 Hr _ _ Ea) as [Eid Hroute]. destruct Hf as (Hok & Hp & Hids).
  assert (Hnew : adapters_by_id filtered !! adapter_id (descriptor a s) = None).
  { rewrite Eid, Hids, bool_decide_false; [done|]. by rewrite elem_of_elements. }
  pose proof (register_adapter_ok s filtered a Hok Hnew) as Hreg.
  destruct (register_adapter s a filtered) as [filtered'|e| |]; cbn; try done.
  - destruct Hreg as (Hok' & Eids & Ep). rewrite Eid in Eids.
    assert (Hf' : restricts r filtered' (elements ({[id]} ∪ seen))).
    { split; [done|]. split; [congruence|]. intros k. rewrite Eids. destruct (decide (k = id)) as [->|Hne].
      - rewrite lookup_insert_eq, bool_decide_true; [by rewrite Ea|set_solver].
      - rewrite lookup_insert_ne, Hids by done. apply if_bool_decide_ext. set_solver. }
    assert (Hseen' : forall k, k ∈ {[id]} ∪ seen -> is_Some (adapters_by_id r !! k)).
    { intros k [->%elem_of_singleton|Hk]%elem_of_union; [by rewrite Ea|by apply Hseen]. }
    specialize (IH filtered' ({[id]} ∪ seen) Hf' Hseen'). destruct (filter_loop s r filtered' _ enabled); try done.
    + destruct IH as (Hnd & Hin' & Hok'' & Hp' & Hids'). split; [constructor; [|done]; set_solver|].
      split; [intros k [->|Hk]%elem_of_cons; [by rewrite Ea|]; destruct (Hin' k Hk); set_solver|].
      split; [done|]. split; [done|]. intros k. rewrite Hids'.
      apply if_bool_decide_ext. set_solver.
    + destruct IH as [Hnd|(k & Hk & [Hs|Hn])]; [left; by inversion 1| |]; [|right; exists k; set_solver].
      destruct (decide (k = id)) as [->|]; [left; by inversion 1|right; exists k; set_solver].
  - exfalso. destruct Hreg as [b Hb]. destruct (proj2 Hok _ _ Hb) as [Eroute Hb'].
    assert (Hbr : adapters_by_id r !! adapter_id (descriptor b s) = Some b).
    { rewrite Hids in Hb'. by case_bool_decide. }
    assert (b = a) as -> by (apply (registry_apart s r); [done|done|by rewrite Eid|done]). congruence.
Qed.

(** The adapters that a configuration enables.  In a registry whose two maps agree, the
    selection succeeds exactly when no identifier occurs twice and every one is known; then the
    two maps of the result agree, it holds the enabled adapters and no other one, and all the
    probes of the registry.  A collision of routes cannot happen. *)
Theorem filter_enabled_exact r enabled : registry_ok s r ->
  match filter_enabled s enabled r with
  | Ok filtered => NoDup enabled /\ (forall id, id ∈ enabled -> is_Some (resolve_adapter id r)) /\
      registry_ok s filtered /\ probes filtered = probes r /\
      (forall id, resolve_adapter id filtered = if bool_decide (id ∈ enabled) then resolve_adapter id r else None)
  | Err _ => ~ NoDup enabled \/ exists id, id ∈ enabled /\ resolve_adapter id r = None
  | _ => False
  end.
Proof.
  intros Hr. unfold filter_enabled, resolve_adapter.
  assert (H0 : restricts r registry_new (elements (∅ : gset string))).
  { split; [apply registry_new_ok|]. split; [done|]. intros id. cbn. rewrite lookup_empty. by destruct (bool_decide _) eqn:Eb; [apply bool_decide_eq_true in Eb; set_solver|]. }
  pose proof (filter_loop_spec r Hr enabled registry_new ∅ H0 ltac:(set_solver)) as H.
  destruct (filter_loop s r registry_new ∅ enabled); cbn; [| |done..].
  - destruct H as (Hnd & Hin & Hok & Hp & Hids). split; [done|]. split; [intros id Hid; by apply Hin|]. by split.
  - destruct H as [Hnd|(id & Hid & [Hs|Hn])]; [by left|set_solver|right; by exists id].
Qed.
End Enabled.

(** ** After a failure *)

Section Quarantined.
Context {W : Type} (debug : ProtocolResponse -> string).
Implicit Types (failures : PluginFailureDispatch) (g : ProtocolGeneration W) (w : W).

(** Calls of one adapter in sequence, each with the generation of its moment: the errors and the
    state they leave. *)
Definition LaterCall : Type := {A : Type & AdapterCall A * ProtocolGeneration W}%type.
Fixpoint host_calls (plugin_id : string) (calls : list LaterCall) (s : HostState W) :
    HostState W * list (option ProtocolError) :=
  match calls with
  | [] => (s, [])
  | existT A (c, g) :: calls =>
      let '(s, r) := host_call debug plugin_id g c s in
      let '(s, rest) := host_calls plugin_id calls s in (s, match r with Err e => Some e | _ => None end :: rest)
  end.

Lemma with_generation_quarantined {A} plugin_id g (f : ProtocolGeneration W -> M ProtocolError W A) failures w message :
  active_quarantine failures !! plugin_id = Some message ->
  with_generation plugin_id g f (failures, w) = ((failures, w), Err (ProtocolPlugin message)).
Proof. intros E. unfold with_generation, current_generation, is_active_quarantined, active_reason. by rewrite E. Qed.
Lemma host_call_quarantined {A} plugin_id g (c : AdapterCall A) failures w message :
  active_quarantine failures !! plugin_id = Some message ->
  host_call debug plugin_id g c (failures, w) = ((failures, w), Err (ProtocolPlugin message)).
Proof. intros E. destruct c; by apply with_generation_quarantined. Qed.
Lemma host_calls_quarantined plugin_id calls failures w message :
  active_quarantine failures !! plugin_id = Some message ->
  host_calls plugin_id calls (failures, w) = ((failures, w), replicate (length calls) (Some (ProtocolPlugin message))).
Proof.
  intros E. induction calls as [|[A [c g]] calls IH]; [done|]. cbn [host_calls].
  by rewrite (host_call_quarantined plugin_id g c failures w message E), IH.
Qed.

(** The errors of a plugin's calls are errors of the plugin. *)
Definition plugin_errors {A} (m : M ProtocolError W A) : Prop :=
  forall w w' e, m w = (w', Err e) -> exists message, e = ProtocolPlugin message.
Lemma invoke_plugin_errors g request : plugin_errors (generation_invoke g request).
Proof. intros w w' e. unfold generation_invoke. destruct (invoke _ _ _ _ _ _ _ w) as [? []]; intros [= <- <-]. by eexists. Qed.
Lemma bind_plugin_errors {A B} (m : M ProtocolError W A) (k : A -> M ProtocolError W B) :
  plugin_errors m -> (forall a, plugin_errors (k a)) -> plugin_errors (m ≫= k).
Proof.
  intros Hm Hk w w' e. unfold mbind, M_bind. destruct (m w) as [w1 [a|e1| |]] eqn:E; intros H; [by eapply Hk| |done..].
  injection H as <- <-. by eapply Hm.
Qed.
Lemma ret_plugin_errors {A} (a : A) : plugin_errors (mret a).
Proof. done. Qed.
Lemma throw_plugin_errors {A} message : plugin_errors (throw (ProtocolPlugin message) : M ProtocolError W A).
Proof. intros w w' e [= <- <-]. by eexists. Qed.
Lemma exchange_plugin_errors {A} g request (expect : ProtocolResponse -> option A) what :
  plugin_errors (exchange debug g request expect what).
Proof.
  apply bind_plugin_errors; [apply invoke_plugin_errors|]. intros r. destruct (expect r); [apply ret_plugin_errors|apply throw_plugin_errors].
Qed.
Lemma with_generation_failure {A} plugin_id g (f : ProtocolGeneration W -> M ProtocolError W A) failures w failures' w' e :
  is_active_quarantined plugin_id failures = false -> plugin_errors (f g) ->
  with_generation plugin_id g f (failures, w) = ((failures', w'), Err e) ->
  exists message, e = ProtocolPlugin message /\ failures' = (handle_runtime_failure KindProtocol plugin_id message failures).2.
Proof.
  intros Hq Hf. unfold with_generation, current_generation. rewrite Hq. destruct (f g w) as [w1 [a|e1| |]] eqn:E; try done.
  destruct (Hf _ _ _ E) as [message ->]. cbn. intros [= <- <- <-]. by exists message.
Qed.
Lemma host_call_failure {A} plugin_id g (c : AdapterCall A) failures w failures' w' e :
  is_active_quarantined plugin_id failures = false -> host_call debug plugin_id g c (failures, w) = ((failures', w'), Err e) ->
  exists message, e = ProtocolPlugin message /\ failures' = (handle_runtime_failure KindProtocol plugin_id message failures).2.
Proof.
  intros Hq. destruct c; (eapply with_generation_failure; [exact Hq|]); try apply exchange_plugin_errors.
  - apply bind_plugin_errors; [apply exchange_plugin_errors|]. intros [decoded|]; [|apply ret_plugin_errors].
    case_match; [apply throw_plugin_errors|apply ret_plugin_errors].
  - apply bind_plugin_errors; [apply exchange_plugin_errors|]. intros out.
    case_match; [apply throw_plugin_errors|apply ret_plugin_errors].
  - case_match; [apply throw_plugin_errors|apply exchange_plugin_errors].
Qed.

(** C9: what a failure of a protocol plugin leaves, where the policy is to quarantine.  Whatever
    the library is and whatever call failed, the error is the plugin's and its text is recorded;
    from then on every call of the adapter, of any generation, is refused with that text, and
    neither the library nor the record of failures changes; the other plugins, the quarantined
    artifacts and the pending fatal error are as before. *)
Theorem failure_quarantines {A} plugin_id g (c : AdapterCall A) failures w failures' w' e :
  fm_protocol (matrix failures) = Quarantine -> is_active_quarantined plugin_id failures = false ->
  host_call debug plugin_id g c (failures, w) = ((failures', w'), Err e) ->
  exists message, e = ProtocolPlugin message /\
    failures' = set_active_quarantine (<[plugin_id := message]> (active_quarantine failures)) failures /\
    (forall calls, host_calls plugin_id calls (failures', w') =
      ((failures', w'), replicate (length calls) (Some (ProtocolPlugin message)))) /\
    (forall other g', other <> plugin_id -> current_generation other g' failures' = current_generation other g' failures).
Proof.
  intros Hm Hq Hc. destruct (host_call_failure _ _ _ _ _ _ _ _ Hq Hc) as (message & -> & ->). exists message.
  unfold handle_runtime_failure. cbn [action_for_kind snd]. rewrite Hm. cbn [quarantine_active snd].
  split; [done|]. split; [done|]. split.
  - intros calls. apply host_calls_quarantined. cbn. apply lookup_insert_eq.
  - intros other g' Hne. unfold current_generation, is_active_quarantined, active_reason. cbn [active_quarantine set_active_quarantine].
    by rewrite lookup_insert_ne.
Qed.
End Quarantined.

(** ** One empty frame *)

Section EmptyFrame.
Context `{Build} {W : Type} (debug : ProtocolResponse -> string) (capacity : list byte -> Z) (build_tag : option string).
Hypothesis capacity_ok : forall bytes, len bytes <= isize_max -> len bytes <= capacity bytes <= isize_max.
Context (p : RustProtocolPlugin W) (panic_decode panic_handle : string).
Implicit Types (failures : PluginFailureDispatch) (w : W) (java : Adapter W).

(** The route of a plugin that is a Java adapter. *)
Definition routes_java : Prop := pp_try_route p = fun frame => lift (decode_handshake_frame frame).

Lemma transport_kind_skips (l : list (Adapter W)) kind frame after s :
  Forall (fun probe => transport_kind probe s <> kind) l ->
  route_probes debug kind frame (l ++ after) s = route_probes debug kind frame after s.
Proof. induction 1 as [|probe l Hp Hl IH]; [done|]. cbn. by rewrite bool_decide_false. Qed.
Lemma transport_kind_udp (a : Adapter W) failures w : transport_kind a (failures, w) = Udp <->
  is_active_quarantined (ad_plugin_id a) failures = false /\ transport (pg_descriptor (ad_generation a)) = Udp.
Proof.
  unfold transport_kind, adapter_transport_kind, with_generation, current_generation.
  destruct (is_active_quarantined _ _); cbn; split; try done; by intros [].
Qed.
Lemma transport_kind_quarantined (a : Adapter W) failures w :
  is_active_quarantined (ad_plugin_id a) failures = true -> transport_kind a (failures, w) = Tcp.
Proof. intros E. unfold transport_kind, adapter_transport_kind, with_generation, current_generation. by rewrite E. Qed.
Lemma empty_frame_refused java failures w : exports capacity build_tag p (ad_generation java) panic_decode panic_handle ->
  routes_java -> 24 <= pg_metadata_bytes (ad_generation java) ->
  is_active_quarantined (ad_plugin_id java) failures = false ->
  try_route debug java [] (failures, w) =
    (((handle_runtime_failure KindProtocol (ad_plugin_id java) "unexpected end of packet" failures).2, w),
     Err (ProtocolPlugin "unexpected end of packet")).
Proof.
  intros He Hr Hlen Hq. unfold try_route, adapter_try_route.
  erewrite (with_generation_refines (ad_plugin_id java) (ad_generation java) panic_handle failures _ (w, Err ProtoPacket.UnexpectedEof)); [done|done|].
  rewrite (exchange_refines debug capacity build_tag capacity_ok p (ad_generation java) panic_decode panic_handle (ReqTryRoute [])
    (pp_try_route p []) RespHandshakeIntent _ id); try done; rewrite Hr; [done|]. cbn. by split.
Qed.

(** C8: what one frame without contents does, which is the byte 0 on the wire and needs no login,
    to a server with the default policy: if the first probe for TCP is a Java plugin, the frame
    is an error of that plugin, which is quarantined for it; and then the handshake of every
    later connection fails with the same error, the handshake of a valid client included, since a
    quarantined probe still counts as one for TCP and fails before the others are asked. *)
Theorem empty_frame_stops_routing registry before java after failures w :
  fm_protocol (matrix failures) = Quarantine -> probes registry = before ++ java :: after ->
  Forall (fun probe => transport_kind probe (failures, w) = Udp /\ ad_plugin_id probe <> ad_plugin_id java) before ->
  is_active_quarantined (ad_plugin_id java) failures = false -> transport (pg_descriptor (ad_generation java)) = Tcp ->
  exports capacity build_tag p (ad_generation java) panic_decode panic_handle -> routes_java ->
  24 <= pg_metadata_bytes (ad_generation java) ->
  try_decode_frame MinecraftWireCodec [Byte.x00] = ([], Ok (Some [])) /\
  exists failures', route_handshake debug Tcp [] registry (failures, w) =
      ((failures', w), Err (ProtocolPlugin "unexpected end of packet")) /\
    forall frame w', route_handshake debug Tcp frame registry (failures', w') =
      ((failures', w'), Err (ProtocolPlugin "unexpected end of packet")).
Proof.
  intros Hm Hprobes Hbefore Hq Ht He Hr Hlen. split; [vm_compute; reflexivity|].
  exists (set_active_quarantine (<[ad_plugin_id java := "unexpected end of packet"]> (active_quarantine failures)) failures).
  unfold route_handshake. rewrite Hprobes. split.
  - rewrite transport_kind_skips by (eapply Forall_impl; [exact Hbefore|]; by intros ? [-> _]). cbn [route_probes].
    rewrite bool_decide_true.
    + unfold mbind, M_bind. rewrite empty_frame_refused by done. unfold handle_runtime_failure. cbn [action_for_kind]. by rewrite Hm.
    + unfold transport_kind, adapter_transport_kind, with_generation, current_generation. rewrite Hq. by rewrite <- Ht.
  - intros frame w'. rewrite transport_kind_skips.
    + cbn [route_probes]. rewrite bool_decide_true.
      * unfold mbind, M_bind, try_route, adapter_try_route.
        by rewrite (with_generation_quarantined _ _ _ _ _ "unexpected end of packet") by apply lookup_insert_eq.
      * apply transport_kind_quarantined. unfold is_active_quarantined. cbn. rewrite lookup_insert_eq. by apply bool_decide_true.
    + eapply Forall_impl; [exact Hbefore|]. intros a [Hudp Hne]. apply transport_kind_udp in Hudp as [Hqa Hta].
      assert (transport_kind a (set_active_quarantine (<[ad_plugin_id java := "unexpected end of packet"]> (active_quarantine failures)) failures, w') = Udp) as ->; [|done].
      apply transport_kind_udp. split; [|done]. revert Hqa. unfold is_active_quarantined. cbn. by rewrite lookup_insert_ne.
Qed.
End EmptyFrame.

(** ** Concrete hosts *)

Definition sample_adapter : Adapter JavaProtocolSessionStore := mkAdapter "je-340" sample_generation.
Definition sample_host : HostState JavaProtocolSessionStore := (failures_new failure_matrix_default, sample_store).
Definition sample_registry : ProtocolRegistry JavaProtocolSessionStore :=
  match register_adapter sample_host sample_adapter registry_new with Ok r => register_probe sample_adapter r | _ => registry_new end.
Lemma sample_registry_ok : registry_ok sample_host sample_registry /\ probes sample_registry = [sample_adapter].
Proof.
  pose proof (register_adapter_ok sample_host registry_new sample_adapter (registry_new_ok _) eq_refl) as H.
  unfold sample_registry. destruct (register_adapter sample_host sample_adapter registry_new); [|by destruct H|done..].
  destruct H as (Hok & _ & Hp). split; [exact Hok|]. cbn. by rewrite Hp.
Qed.

Lemma filter_enabled_exact_witness :
  match filter_enabled sample_host ["je-340"; "je-340"] sample_registry with
  | Ok filtered => NoDup ["je-340"; "je-340"] /\
      (forall id, id ∈ ["je-340"; "je-340"] -> is_Some (resolve_adapter id sample_registry)) /\
      registry_ok sample_host filtered /\ probes filtered = probes sample_registry /\
      (forall id, resolve_adapter id filtered =
        if bool_decide (id ∈ ["je-340"; "je-340"]) then resolve_adapter id sample_registry else None)
  | Err _ => ~ NoDup ["je-340"; "je-340"] \/ exists id, id ∈ ["je-340"; "je-340"] /\ resolve_adapter id sample_registry = None
  | _ => False
  end.
Proof. apply filter_enabled_exact. apply (proj1 sample_registry_ok). Defined.

Lemma failure_quarantines_witness :
  exists failures', exists message,
    ProtocolPlugin "unexpected end of packet" = ProtocolPlugin message /\
    failures' = set_active_quarantine (<["je-340" := message]> ∅) (failures_new failure_matrix_default) /\
    (forall calls, host_calls (fun _ => "") "je-340" calls (failures', sample_store) =
      ((failures', sample_store), replicate (length calls) (Some (ProtocolPlugin message)))) /\
    (forall other g', other <> "je-340" ->
      @current_generation JavaProtocolSessionStore other g' failures' = current_generation other g' (failures_new failure_matrix_default)).
Proof.
  exists (set_active_quarantine (<["je-340" := "unexpected end of packet"]> ∅) (failures_new failure_matrix_default)).
  apply (failure_quarantines (fun _ => "") "je-340" sample_generation (CallTryRoute [])
    (failures_new failure_matrix_default) sample_store _ sample_store); [reflexivity|reflexivity|].
  apply (@empty_frame_refused (mkBuild false 64) _ (fun _ => "") (fun bytes => len bytes) None) with (p := sample_plugin) (panic_decode := "")
    (panic_handle := "panic") (java := sample_adapter); [|apply sample_exports|reflexivity|vm_compute; discriminate|reflexivity].
  intros bytes H. split; [apply Z.le_refl|exact H].
Defined.

Lemma empty_frame_stops_routing_witness :
  try_decode_frame (@MinecraftWireCodec (mkBuild false 64)) [Byte.x00] = ([], Ok (Some [])) /\
  exists failures', route_handshake (fun _ => "") Tcp [] sample_registry (failures_new failure_matrix_default, sample_store) =
      ((failures', sample_store), Err (ProtocolPlugin "unexpected end of packet")) /\
    forall frame w', route_handshake (fun _ => "") Tcp frame sample_registry (failures', w') =
      ((failures', w'), Err (ProtocolPlugin "unexpected end of packet")).
Proof.
  assert (Hcap : forall bytes : list byte, len bytes <= isize_max -> len bytes <= len bytes <= isize_max).
  { intros bytes H. split; [apply Z.le_refl|exact H]. }
  apply (@empty_frame_stops_routing (mkBuild false 64) _ (fun _ => "") (fun bytes => len bytes) None Hcap sample_plugin "" "panic"
    sample_registry [] sample_adapter [] (failures_new failure_matrix_default) sample_store);
    [reflexivity|apply (proj2 sample_registry_ok)|constructor|reflexivity|reflexivity|apply sample_exports|reflexivity|vm_compute; discriminate].
Defined.
