(* ===== verification/HandoffMessages.v ===== *)
(** * The messages of an executable handoff
    ([crates/runtime/revy-runtime-transfer/src/lib.rs])

    A server that is replaced by a new executable talks to its successor in envelopes, and a
    receiver validates an envelope before it imports anything that it describes.  Every message,
    every check, and what an envelope that passes them is known to satisfy. *)

From stdpp Require Import finite sorting.
From S2P Require Import Prelude Bytes.

(** ** Limits *)

Definition PROTOCOL_MAJOR : Z := 1.
Definition PROTOCOL_MINOR : Z := 2.
Definition MAX_ENVELOPE_BYTES : Z := 16 * 1024 * 1024.
Definition TRANSFER_ID_BYTES : Z := 16.
Definition ARTIFACT_HASH_BYTES : Z := 32.
Definition AUTHENTICATION_TOKEN_BYTES : Z := 32.
Definition MAX_PLUGIN_ARTIFACTS : Z := 4096.
Definition MAX_PLUGIN_ID_BYTES : Z := 256.
Definition MAX_RESOURCE_DESCRIPTORS : Z := 16384.
Definition MAX_TRANSFER_ARENA_BYTES : Z := 1024 * 1024 * 1024.
Definition MAX_DIAGNOSTIC_BYTES : Z := 4096.

(** An array of [TRANSFER_ID_BYTES] bytes. *)
Record TransferId : Set := mkTransferId { id_bytes : list byte }.
#[export] Instance TransferId_eq_dec : EqDecision TransferId.
Proof. solve_decision. Defined.

(** ** Messages *)

Record HelloV1 : Set := mkHello { authentication_token : list byte; process_id : Z }.
Record PluginArtifactV1 : Set := mkArtifact { pa_plugin_id : string; sha256 : list byte }.
Record TransferArenaV1 : Set := mkArena { capacity : Z; used : Z; generation : Z }.
(** The kind is a tag on the wire. *)
Record ResourceDescriptorV1 : Set := mkResource {
  resource_id : Z; kind : Z; arena_offset : Z; arena_length : Z; native_handle_index : option Z; logical_id : option Z
}.
Inductive ResourceKindV1 : Set :=
| CoreSnapshot | KindCoreJournal | SessionDirectory | SessionState | TcpStream | TcpListener | UdpListener | RakNetState
| AdminResource | OnlineAuthKeys.
#[export] Instance ResourceKindV1_eq_dec : EqDecision ResourceKindV1.
Proof. solve_decision. Defined.
Definition resource_kind_tag (k : ResourceKindV1) : Z :=
  match k with
  | CoreSnapshot => 0 | KindCoreJournal => 1 | SessionDirectory => 2 | SessionState => 3 | TcpStream => 4 | TcpListener => 5
  | UdpListener => 6 | RakNetState => 7 | AdminResource => 8 | OnlineAuthKeys => 9
  end.
Definition resource_kind_of (tag : Z) : option ResourceKindV1 :=
  match tag with
  | 0 => Some CoreSnapshot | 1 => Some KindCoreJournal | 2 => Some SessionDirectory | 3 => Some SessionState | 4 => Some TcpStream
  | 5 => Some TcpListener | 6 => Some UdpListener | 7 => Some RakNetState | 8 => Some AdminResource | 9 => Some OnlineAuthKeys
  | _ => None
  end.
Record BootstrapV1 : Set := mkBootstrap {
  validated_config_digest : list byte; plugin_artifacts : list PluginArtifactV1; arena : option TransferArenaV1;
  bs_resources : list ResourceDescriptorV1; native_handle_count : Z; core_snapshot_revision : Z;
  bs_persisted_core_revision : Z; bs_latest_dirty_core_revision : option Z; bs_directory_revision : Z; active_generation_id : Z
}.
Inductive PrestagePhaseV1 : Set := Unspecified | Preparing | Frozen.
Definition phase_tag (phase : PrestagePhaseV1) : Z := match phase with Unspecified => 0 | Preparing => 1 | Frozen => 2 end.
Definition phase_of (tag : Z) : option PrestagePhaseV1 :=
  match tag with 0 => Some Unspecified | 1 => Some Preparing | 2 => Some Frozen | _ => None end.
Record PrestageV1 : Set := mkPrestage {
  core_revision : Z; directory_revision : Z; ps_resources : list ResourceDescriptorV1; arena_used : Z; phase : Z
}.
Record ReadyV1 : Set := mkReady { acknowledged_core_revision : Z; acknowledged_directory_revision : Z }.
Record CommitV1 : Set := mkCommit {
  final_core_revision : Z; final_directory_revision : Z; parent_epoch_revision : Z; persisted_core_revision : Z;
  latest_dirty_core_revision : option Z; stage_duration_us : Z; prepare_duration_us : Z; session_count : Z;
  java_session_count : Z; bedrock_session_count : Z
}.
Record CommittedV1 : Set := mkCommitted { child_epoch_revision : Z; resume_duration_us : Z }.
Inductive StatusPayload : Set :=
| Query (expected_child_epoch_revision : Z)
| StatusCommitted (child_epoch_revision resume_duration_us : Z) (report_published : bool)
| FinalizeReport (child_epoch_revision freeze_duration_us : Z).
(** A message of protobuf may lack any field, the payload included. *)
Record StatusV1 : Set := mkStatus { st_payload : option StatusPayload }.
Record ErrorV1 : Set := mkError { code : Z; message : string }.
Inductive Payload : Set :=
| Hello (m : HelloV1) | Bootstrap (m : BootstrapV1) | Prestage (m : PrestageV1) | Ready (m : ReadyV1) | Commit (m : CommitV1)
| Committed (m : CommittedV1) | Status (m : StatusV1) | Abort (reason : string) | Error (m : ErrorV1).
Record RuntimeTransferEnvelopeV1 : Set := mkEnvelope {
  protocol_major : Z; protocol_minor : Z; transfer_id : list byte; sequence : Z; payload : option Payload
}.
Inductive TransferErrorCodeV1 : Set :=
| CodeInvalidEnvelope | CodeVersionMismatch | CodeAuthenticationFailed | CodeArtifactMismatch | CodeBudgetExceeded
| CodeResourceImportFailed | CodeCommitRejected | CodeOutcomeUncertain.
Definition error_code_tag (c : TransferErrorCodeV1) : Z :=
  match c with
  | CodeInvalidEnvelope => 0 | CodeVersionMismatch => 1 | CodeAuthenticationFailed => 2 | CodeArtifactMismatch => 3
  | CodeBudgetExceeded => 4 | CodeResourceImportFailed => 5 | CodeCommitRejected => 6 | CodeOutcomeUncertain => 7
  end.
Definition error_code_of (tag : Z) : option TransferErrorCodeV1 :=
  match tag with
  | 0 => Some CodeInvalidEnvelope | 1 => Some CodeVersionMismatch | 2 => Some CodeAuthenticationFailed
  | 3 => Some CodeArtifactMismatch | 4 => Some CodeBudgetExceeded | 5 => Some CodeResourceImportFailed
  | 6 => Some CodeCommitRejected | 7 => Some CodeOutcomeUncertain | _ => None
  end.

(** The errors of prost and of the transport are opaque. *)
Inductive TransferProtocolError : Type :=
| EnvelopeTooLarge (actual limit : Z) | UnexpectedEnd | VersionMismatch (major minor : Z) | InvalidTransferId | MissingPayload
| InvalidPrestagePhase (phase : Z) | FrozenCoreSnapshot | InvalidSequence | SequenceMismatch (expected actual : Z)
| TransferIdMismatch | InvalidConfigDigest | InvalidAuthenticationToken | InvalidProcessId
| PersistedRevisionAhead (persisted transferred : Z) | DirtyRevisionAhead (dirty transferred : Z) | InvalidEpochRevision
| InvalidGenerationId | TooManyPluginArtifacts (actual limit : Z) | InvalidPluginIdLength (actual limit : Z)
| DuplicatePluginArtifact (plugin_id : string) | InvalidArtifactHash (plugin_id : string) | MissingArena
| InvalidArenaGeneration | ArenaCapacityExceeded (capacity limit : Z) | InvalidArenaRange (used capacity : Z)
| InvalidResourceRange (resource_id : Z) | TooManyResources (actual limit : Z) | InvalidResourceId
| DuplicateResourceId (resource_id : Z) | InvalidResourceKind (resource_id kind : Z)
| InvalidNativeHandleIndex (resource_id index count : Z) | DuplicateNativeHandleIndex (index : Z)
| MissingNativeSocketHandle (resource_id : Z) | MissingConnectionId (resource_id : Z) | UnexpectedConnectionId (resource_id : Z)
| UnassignedNativeHandles (declared assigned : Z) | OverlappingResourceRange (first_resource_id second_resource_id : Z)
| DiagnosticTooLong (actual limit : Z) | MissingStatusPayload | InvalidTransferErrorCode (code : Z)
| InvalidSessionCount (session_count java_session_count bedrock_session_count : Z)
| DecodeError | IoError.

(** ** Validation *)

(** [sort_unstable_by_key(|range| range.0)] of ranges (start, end, resource): where starts are equal
    the order is the library's. *)
Definition Range : Type := Z * Z * Z.
Definition range_le (a b : Range) : Prop := a.1.1 <= b.1.1.
#[export] Instance range_le_dec : RelDecision range_le.
Proof. intros a b. unfold range_le. apply _. Defined.
Class RangeSort : Type := sort_ranges : list Range -> list Range.
Class RangeSortLaws `{RangeSort} : Prop := {
  sort_ranges_permutation l : sort_ranges l ≡ₚ l;
  sort_ranges_sorted l : Sorted range_le (sort_ranges l)
}.

Definition Checked : Type -> Type := result TransferProtocolError.
#[export] Instance checked_bind : MBind Checked := @result_bind TransferProtocolError.
Definition check (b : bool) (e : TransferProtocolError) : Checked unit := if b then Ok tt else Err e.
Definition ok_or {A} (o : option A) (e : TransferProtocolError) : Checked A := match o with Some a => Ok a | None => Err e end.
Notation "m ;! k" := (mbind (M := Checked) (fun _ : unit => k) m) (at level 100, k at level 200, right associativity).

Definition validate_diagnostic (value : string) : Checked unit :=
  check (Z.of_nat (String.length value) <=? MAX_DIAGNOSTIC_BYTES)
    (DiagnosticTooLong (Z.of_nat (String.length value)) MAX_DIAGNOSTIC_BYTES).
Definition validate_arena (a : TransferArenaV1) : Checked unit :=
  check (negb (generation a =? 0)) InvalidArenaGeneration;!
  check (capacity a <=? MAX_TRANSFER_ARENA_BYTES) (ArenaCapacityExceeded (capacity a) MAX_TRANSFER_ARENA_BYTES);!
  check (used a <=? capacity a) (InvalidArenaRange (used a) (capacity a)).
Definition validate_core_revisions (transferred persisted : Z) (dirty : option Z) : Checked unit :=
  check (persisted <=? transferred) (PersistedRevisionAhead persisted transferred);!
  match dirty with
  | Some dirty => check (dirty <=? transferred) (DirtyRevisionAhead dirty transferred)
  | None => Ok tt
  end.

(** The handle and the connection that a descriptor of a kind has. *)
Definition names_connection (r : ResourceDescriptorV1) : bool :=
  match logical_id r with Some connection_id => negb (connection_id =? 0) | None => false end.
Definition is_none {A} (o : option A) : bool := match o with None => true | _ => false end.
Definition validate_kind (k : ResourceKindV1) (r : ResourceDescriptorV1) : Checked unit :=
  match k with
  | TcpStream =>
      check (negb (is_none (native_handle_index r))) (MissingNativeSocketHandle (resource_id r));!
      check (names_connection r) (MissingConnectionId (resource_id r))
  | TcpListener | UdpListener =>
      check (negb (is_none (native_handle_index r))) (MissingNativeSocketHandle (resource_id r));!
      check (is_none (logical_id r)) (UnexpectedConnectionId (resource_id r))
  | SessionState => check (names_connection r) (MissingConnectionId (resource_id r))
  | CoreSnapshot | KindCoreJournal | SessionDirectory | RakNetState | AdminResource | OnlineAuthKeys =>
      check (is_none (logical_id r)) (UnexpectedConnectionId (resource_id r))
  end.
(** The end of its range in the arena. *)
Definition resource_range (arena_used : option Z) (r : ResourceDescriptorV1) : Checked Z :=
  end_ ← ok_or (checked_add u64_max (arena_offset r) (arena_length r)) (InvalidResourceRange (resource_id r));
  check (match arena_used with Some used => end_ <=? used | None => true end) (InvalidResourceRange (resource_id r));!
  Ok end_.
Definition claim_handle (native_handle_count : option Z) (r : ResourceDescriptorV1) (indices : gset Z) : Checked (gset Z) :=
  match native_handle_index r with
  | None => Ok indices
  | Some index =>
      check (match native_handle_count with Some count => index <? count | None => true end)
        (InvalidNativeHandleIndex (resource_id r) index (default 0 native_handle_count));!
      check (negb (bool_decide (index ∈ indices))) (DuplicateNativeHandleIndex index);!
      Ok ({[index]} ∪ indices)
  end.
(** The loop over the resources, with the identifiers, handles and ranges seen so far. *)
Fixpoint resources_loop (arena_used native_handle_count : option Z) (resource_ids indices : gset Z) (ranges : list Range)
    (l : list ResourceDescriptorV1) : Checked (gset Z * list Range) :=
  match l with
  | [] => Ok (indices, ranges)
  | r :: l =>
      check (negb (resource_id r =? 0)) InvalidResourceId;!
      check (negb (bool_decide (resource_id r ∈ resource_ids))) (DuplicateResourceId (resource_id r));!
      k ← ok_or (resource_kind_of (kind r)) (InvalidResourceKind (resource_id r) (kind r));
      validate_kind k r;!
      end_ ← resource_range arena_used r;
      indices ← claim_handle native_handle_count r indices;
      resources_loop arena_used native_handle_count ({[resource_id r]} ∪ resource_ids) indices
        (if 0 <? arena_length r then ranges ++ [(arena_offset r, end_, resource_id r)] else ranges) l
  end.
(** [windows(2)] of the sorted ranges. *)
Fixpoint overlap_loop (ranges : list Range) : Checked unit :=
  match ranges with
  | first :: ((second :: _) as rest) =>
      check (first.1.2 <=? second.1.1) (OverlappingResourceRange first.2 second.2);! overlap_loop rest
  | _ => Ok tt
  end.

Section Validation.
Context `{RangeSort}.

Definition validate_resources (resources : list ResourceDescriptorV1) (arena_used native_handle_count : option Z) : Checked unit :=
  check (len resources <=? MAX_RESOURCE_DESCRIPTORS) (TooManyResources (len resources) MAX_RESOURCE_DESCRIPTORS);!
  '(indices, ranges) ← resources_loop arena_used native_handle_count ∅ ∅ [] resources;
  match native_handle_count with
  | Some declared =>
      check (declared =? Z.of_nat (size indices)) (UnassignedNativeHandles declared (Z.of_nat (size indices)))
  | None => Ok tt
  end;!
  overlap_loop (sort_ranges ranges).

Definition validate_hello (m : HelloV1) : Checked unit :=
  check (len (authentication_token m) =? AUTHENTICATION_TOKEN_BYTES) InvalidAuthenticationToken;!
  check (negb (process_id m =? 0)) InvalidProcessId.
Fixpoint artifacts_loop (plugin_ids : gset string) (l : list PluginArtifactV1) : Checked unit :=
  match l with
  | [] => Ok tt
  | artifact :: l =>
      let n := Z.of_nat (String.length (pa_plugin_id artifact)) in
      check (negb (n =? 0) && (n <=? MAX_PLUGIN_ID_BYTES)) (InvalidPluginIdLength n MAX_PLUGIN_ID_BYTES);!
      check (negb (bool_decide (pa_plugin_id artifact ∈ plugin_ids))) (DuplicatePluginArtifact (pa_plugin_id artifact));!
      check (len (sha256 artifact) =? ARTIFACT_HASH_BYTES) (InvalidArtifactHash (pa_plugin_id artifact));!
      artifacts_loop ({[pa_plugin_id artifact]} ∪ plugin_ids) l
  end.
Definition validate_bootstrap (m : BootstrapV1) : Checked unit :=
  check (len (validated_config_digest m) =? ARTIFACT_HASH_BYTES) InvalidConfigDigest;!
  check (len (plugin_artifacts m) <=? MAX_PLUGIN_ARTIFACTS)
    (TooManyPluginArtifacts (len (plugin_artifacts m)) MAX_PLUGIN_ARTIFACTS);!
  artifacts_loop ∅ (plugin_artifacts m);!
  a ← ok_or (arena m) MissingArena;
  validate_arena a;!
  validate_resources (bs_resources m) (Some (used a)) (Some (native_handle_count m));!
  validate_core_revisions (core_snapshot_revision m) (bs_persisted_core_revision m) (bs_latest_dirty_core_revision m);!
  check (negb (active_generation_id m =? 0)) InvalidGenerationId.
Definition validate_prestage (m : PrestageV1) : Checked unit :=
  p ← ok_or (phase_of (phase m)) (InvalidPrestagePhase (phase m));
  match p with
  | Unspecified => Err (InvalidPrestagePhase (phase m))
  | Frozen =>
      check (forallb (fun r => negb (kind r =? resource_kind_tag CoreSnapshot)) (ps_resources m)) FrozenCoreSnapshot
  | Preparing => Ok tt
  end;!
  validate_resources (ps_resources m) (Some (arena_used m)) None.
Definition validate_commit (m : CommitV1) : Checked unit :=
  check (negb (parent_epoch_revision m =? 0)) InvalidEpochRevision;!
  validate_core_revisions (final_core_revision m) (persisted_core_revision m) (latest_dirty_core_revision m);!
  check (bool_decide (checked_add u64_max (java_session_count m) (bedrock_session_count m) = Some (session_count m)))
    (InvalidSessionCount (session_count m) (java_session_count m) (bedrock_session_count m)).
Definition validate_committed (m : CommittedV1) : Checked unit :=
  check (negb (child_epoch_revision m =? 0)) InvalidEpochRevision.
Definition status_epoch (p : StatusPayload) : Z :=
  match p with Query epoch => epoch | StatusCommitted epoch _ _ => epoch | FinalizeReport epoch _ => epoch end.
Definition validate_status (m : StatusV1) : Checked unit :=
  p ← ok_or (st_payload m) MissingStatusPayload; check (negb (status_epoch p =? 0)) InvalidEpochRevision.
Definition validate_error (m : ErrorV1) : Checked unit :=
  _ ← ok_or (error_code_of (code m)) (InvalidTransferErrorCode (code m)); validate_diagnostic (message m).
Definition validate_payload (p : Payload) : Checked unit :=
  match p with
  | Hello m => validate_hello m
  | Bootstrap m => validate_bootstrap m
  | Prestage m => validate_prestage m
  | Status m => validate_status m
  | Abort reason => validate_diagnostic reason
  | Error m => validate_error m
  | Commit m => validate_commit m
  | Committed m => validate_committed m
  | Ready _ => Ok tt
  end.

Definition envelope_new (id : TransferId) (sequence : Z) (payload : Payload) : RuntimeTransferEnvelopeV1 :=
  mkEnvelope PROTOCOL_MAJOR PROTOCOL_MINOR (id_bytes id) sequence (Some payload).
Definition envelope_validate (e : RuntimeTransferEnvelopeV1) : Checked TransferId :=
  check ((protocol_major e =? PROTOCOL_MAJOR) && (protocol_minor e =? PROTOCOL_MINOR))
    (VersionMismatch (protocol_major e) (protocol_minor e));!
  check (len (transfer_id e) =? TRANSFER_ID_BYTES) InvalidTransferId;!
  check (negb (sequence e =? 0)) InvalidSequence;!
  p ← ok_or (payload e) MissingPayload;
  validate_payload p;!
  Ok (mkTransferId (transfer_id e)).
End Validation.

(** ** What a valid envelope satisfies *)

Definition kind_ok (k : ResourceKindV1) (r : ResourceDescriptorV1) : Prop :=
  match k with
  | TcpStream => is_Some (native_handle_index r) /\ exists id, logical_id r = Some id /\ id <> 0
  | TcpListener | UdpListener => is_Some (native_handle_index r) /\ logical_id r = None
  | SessionState => exists id, logical_id r = Some id /\ id <> 0
  | _ => logical_id r = None
  end.
Definition resource_ok (arena_used native_handle_count : option Z) (r : ResourceDescriptorV1) : Prop :=
  resource_id r <> 0 /\ (exists k, resource_kind_of (kind r) = Some k /\ kind_ok k r) /\
  arena_offset r + arena_length r <= u64_max /\
  (forall used, arena_used = Some used -> arena_offset r + arena_length r <= used) /\
  (forall index count, native_handle_index r = Some index -> native_handle_count = Some count -> index < count).
Definition handles (l : list ResourceDescriptorV1) : list Z := omap native_handle_index l.
(** The byte of the arena belongs to the resource. *)
Definition owns (r : ResourceDescriptorV1) (position : Z) : Prop :=
  arena_offset r <= position < arena_offset r + arena_length r.
Definition resources_apart (l : list ResourceDescriptorV1) : Prop :=
  forall i j a b position, l !! i = Some a -> l !! j = Some b -> owns a position -> owns b position -> i = j.
Definition resources_ok (arena_used native_handle_count : option Z) (l : list ResourceDescriptorV1) : Prop :=
  len l <= MAX_RESOURCE_DESCRIPTORS /\ Forall (resource_ok arena_used native_handle_count) l /\
  NoDup (map resource_id l) /\ NoDup (handles l) /\
  (forall count, native_handle_count = Some count -> forall index, index ∈ handles l <-> 0 <= index < count) /\
  resources_apart l.
Definition arena_ok (a : TransferArenaV1) : Prop :=
  generation a <> 0 /\ used a <= capacity a <= MAX_TRANSFER_ARENA_BYTES.
Definition revisions_ok (transferred persisted : Z) (dirty : option Z) : Prop :=
  persisted <= transferred /\ forall d, dirty = Some d -> d <= transferred.
Definition artifact_ok (a : PluginArtifactV1) : Prop :=
  0 < Z.of_nat (String.length (pa_plugin_id a)) <= MAX_PLUGIN_ID_BYTES /\ len (sha256 a) = ARTIFACT_HASH_BYTES.
Definition diagnostic_ok (s : string) : Prop := Z.of_nat (String.length s) <= MAX_DIAGNOSTIC_BYTES.
Definition payload_ok (p : Payload) : Prop :=
  match p with
  | Hello m => len (authentication_token m) = AUTHENTICATION_TOKEN_BYTES /\ process_id m <> 0
  | Bootstrap m =>
      len (validated_config_digest m) = ARTIFACT_HASH_BYTES /\ len (plugin_artifacts m) <= MAX_PLUGIN_ARTIFACTS /\
      Forall artifact_ok (plugin_artifacts m) /\ NoDup (map pa_plugin_id (plugin_artifacts m)) /\
      (exists a, arena m = Some a /\ arena_ok a /\ resources_ok (Some (used a)) (Some (native_handle_count m)) (bs_resources m)) /\
      revisions_ok (core_snapshot_revision m) (bs_persisted_core_revision m) (bs_latest_dirty_core_revision m) /\
      active_generation_id m <> 0
  | Prestage m =>
      (phase m = phase_tag Preparing \/
       phase m = phase_tag Frozen /\ Forall (fun r => kind r <> resource_kind_tag CoreSnapshot) (ps_resources m)) /\
      resources_ok (Some (arena_used m)) None (ps_resources m)
  | Ready _ => True
  | Commit m =>
      parent_epoch_revision m <> 0 /\
      revisions_ok (final_core_revision m) (persisted_core_revision m) (latest_dirty_core_revision m) /\
      session_count m = java_session_count m + bedrock_session_count m /\
      java_session_count m + bedrock_session_count m <= u64_max
  | Committed m => child_epoch_revision m <> 0
  | Status m => exists p, st_payload m = Some p /\ status_epoch p <> 0
  | Abort reason => diagnostic_ok reason
  | Error m => is_Some (error_code_of (code m)) /\ diagnostic_ok (message m)
  end.
Definition envelope_ok (e : RuntimeTransferEnvelopeV1) : Prop :=
  protocol_major e = PROTOCOL_MAJOR /\ protocol_minor e = PROTOCOL_MINOR /\ len (transfer_id e) = TRANSFER_ID_BYTES /\
  sequence e <> 0 /\ exists p, payload e = Some p /\ payload_ok p.
(** Fields of unsigned types are not negative. *)
Definition resource_unsigned (r : ResourceDescriptorV1) : bool :=
  (0 <=? arena_length r) && match native_handle_index r with Some index => 0 <=? index | None => true end.
Definition payload_unsigned (p : Payload) : bool :=
  match p with
  | Bootstrap m => forallb resource_unsigned (bs_resources m) && (0 <=? native_handle_count m)
  | Prestage m => forallb resource_unsigned (ps_resources m)
  | _ => true
  end.
Definition envelope_unsigned (e : RuntimeTransferEnvelopeV1) : bool :=
  match payload e with Some p => payload_unsigned p | None => true end.

(** ** Checks that decide *)

(** The check succeeds exactly when [P] holds, and otherwise reports an error. *)
Definition exactly {A} (m : Checked A) (P : Prop) : Prop :=
  match m with Ok _ => P | Err _ => ~ P | _ => False end.
Lemma exactly_iff {A} (m : Checked A) P Q : (P <-> Q) -> exactly m P -> exactly m Q.
Proof. destruct m; cbn; tauto. Qed.
Lemma exactly_ok {A} (a : A) (P : Prop) : P -> exactly (Ok a) P.
Proof. done. Qed.
Lemma exactly_check b e (P : Prop) : (b = true <-> P) -> exactly (check b e) P.
Proof. intros H. unfold check. destruct b; cbn; [by apply H|]. intros HP. by apply H in HP. Qed.
Lemma exactly_bind {A} (m : Checked unit) (k : Checked A) P Q :
  exactly m P -> (P -> exactly k Q) -> exactly (m;! k) (P /\ Q).
Proof. intros Hm Hk. destruct m as [[]|e| |]; cbn in *; [|tauto..]. specialize (Hk Hm). destruct k; cbn in *; tauto. Qed.
Lemma exactly_ok_or {A B} (o : option A) e (k : A -> Checked B) (Q : A -> Prop) :
  (forall a, o = Some a -> exactly (k a) (Q a)) -> exactly (a ← ok_or o e; k a) (exists a, o = Some a /\ Q a).
Proof.
  intros H. destruct o as [a|]; cbn; [|by intros (? & ? & _)]. specialize (H a eq_refl).
  destruct (k a); cbn in *; [by exists a|by intros (? & [= <-] & ?)|done..].
Qed.

Ltac decide_check := apply exactly_check; rewrite ?negb_true_iff, ?Z.eqb_neq, ?Z.eqb_eq, ?Z.leb_le, ?bool_decide_eq_true; try tauto.

Lemma diagnostic_exact s : exactly (validate_diagnostic s) (diagnostic_ok s).
Proof. by decide_check. Qed.
Lemma arena_exact a : exactly (validate_arena a) (arena_ok a).
Proof.
  eapply exactly_iff; [|apply exactly_bind; [by decide_check|intros _; apply exactly_bind; [by decide_check|intros _; by decide_check] ] ].
  unfold arena_ok. tauto.
Qed.
Lemma revisions_exact t p d : exactly (validate_core_revisions t p d) (revisions_ok t p d).
Proof.
  unfold validate_core_revisions, revisions_ok. apply exactly_bind; [by decide_check|intros _].
  destruct d as [d|]; [|apply exactly_ok; by intros]. decide_check. split; [by intros ? ? [= <-]|by intros H; apply H].
Qed.
Lemma names_connection_spec r : names_connection r = true <-> exists id, logical_id r = Some id /\ id <> 0.
Proof.
  unfold names_connection. destruct (logical_id r) as [id|]; [|split; [done|by intros (? & ? & _)] ].
  rewrite negb_true_iff, Z.eqb_neq. split; [by exists id|by intros (? & [= <-] & ?)].
Qed.
Lemma is_none_spec {A} (o : option A) : is_none o = true <-> o = None.
Proof. by destruct o. Qed.
Lemma not_none_spec {A} (o : option A) : is_none o = false <-> is_Some o.
Proof. destruct o; cbn; split; try done; by intros []. Qed.
Lemma kind_exact k r : exactly (validate_kind k r) (kind_ok k r).
Proof.
  assert (N : forall e, exactly (check (is_none (logical_id r)) e) (logical_id r = None)).
  { intros e. decide_check. apply is_none_spec. }
  assert (C : forall e, exactly (check (names_connection r) e) (exists id, logical_id r = Some id /\ id <> 0)).
  { intros e. apply exactly_check, names_connection_spec. }
  assert (S : forall e, exactly (check (negb (is_none (native_handle_index r))) e) (is_Some (native_handle_index r))).
  { intros e. decide_check. apply not_none_spec. }
  destruct k; cbn [validate_kind kind_ok]; try apply N; try apply C; by apply exactly_bind.
Qed.

(** ** Resources *)

Definition range_of (r : ResourceDescriptorV1) : option Range :=
  if 0 <? arena_length r then Some (arena_offset r, arena_offset r + arena_length r, resource_id r) else None.
Lemma range_exact used r : exactly (resource_range used r)
    (arena_offset r + arena_length r <= u64_max /\ forall u, used = Some u -> arena_offset r + arena_length r <= u).
Proof.
  unfold resource_range, checked_add. destruct (Z.leb_spec (arena_offset r + arena_length r) u64_max); cbn; [|lia].
  destruct used as [u|]; cbn; [|split; [done|by intros] ].
  destruct (Z.leb_spec (arena_offset r + arena_length r) u); cbn; [split; [done|by intros ? [= <-] ]|].
  intros [_ Hu]. specialize (Hu u eq_refl). lia.
Qed.
Lemma range_end used r end_ : resource_range used r = Ok end_ -> end_ = arena_offset r + arena_length r.
Proof.
  unfold resource_range, checked_add. destruct (_ <=? u64_max); cbn; [|done]. unfold check.
  by destruct (match used with Some _ => _ | None => _ end); cbn; intros [= <-].
Qed.
Lemma handle_exact count r indices : exactly (claim_handle count r indices)
    ((forall i c, native_handle_index r = Some i -> count = Some c -> i < c) /\ (forall i, native_handle_index r = Some i -> i ∉ indices)).
Proof.
  unfold claim_handle. destruct (native_handle_index r) as [i|]; [|by split; intros].
  eapply exactly_iff; [|apply exactly_bind with (Q := (i ∉ indices) /\ True);
    [apply exactly_check with (P := forall c, count = Some c -> i < c)|intros _; apply exactly_bind; [by decide_check; apply bool_decide_eq_false|done] ] ].
  - split; [intros (H1 & H2 & _); split; [by intros ? ? [= <-]; apply H1|by intros ? [= <-] ]|].
    intros [H1 H2]. split; [intros c; by apply H1|split; [by apply H2|done] ].
  - destruct count as [c|]; [|by split; intros]. rewrite Z.ltb_lt. split; [by intros ? ? [= <-]|intros H; by apply H].
Qed.
Lemma handle_indices count r indices indices' : claim_handle count r indices = Ok indices' ->
  indices' = list_to_set (handles [r]) ∪ indices.
Proof.
  unfold claim_handle, check. cbn. destruct (native_handle_index r) as [i|]; [|intros [= <-]; set_solver].
  repeat case_match; cbn; intros [= <-]; set_solver.
Qed.

Definition loop_ok used count (ids indices : gset Z) (l : list ResourceDescriptorV1) : Prop :=
  Forall (resource_ok used count) l /\ NoDup (map resource_id l) /\ (forall i, i ∈ map resource_id l -> i ∉ ids) /\
  NoDup (handles l) /\ (forall i, i ∈ handles l -> i ∉ indices).
Lemma handles_cons r l : handles (r :: l) = match native_handle_index r with Some i => i :: handles l | None => handles l end.
Proof. done. Qed.
Lemma loop_ok_cons used count ids indices r l : loop_ok used count ids indices (r :: l) <->
  resource_ok used count r /\ resource_id r ∉ ids /\ (forall i, native_handle_index r = Some i -> i ∉ indices) /\
  loop_ok used count ({[resource_id r]} ∪ ids) (list_to_set (handles [r]) ∪ indices) l.
Proof.
  unfold loop_ok. rewrite Forall_cons, handles_cons. cbn [map]. rewrite NoDup_cons.
  assert (H1 : handles [r] = match native_handle_index r with Some i => [i] | None => [] end) by done. rewrite H1.
  destruct (native_handle_index r) as [h|]; [rewrite NoDup_cons|]; set_solver.
Qed.
Lemma resources_loop_exact used count l : forall ids indices ranges,
  exactly (resources_loop used count ids indices ranges l) (loop_ok used count ids indices l) /\
  (forall out, resources_loop used count ids indices ranges l = Ok out ->
    out = (list_to_set (handles l) ∪ indices, ranges ++ omap range_of l)).
Proof.
  induction l as [|r l IH]; intros ids indices ranges.
  { split; [cbn; repeat split; try constructor; set_solver|]. intros out [= <-]. cbn. rewrite app_nil_r. f_equal. set_solver. }
  cbn [resources_loop]. set (k := resources_loop used count). split.
  - eapply exactly_iff; [|apply exactly_bind with (P := resource_id r <> 0); [by decide_check|intros _] ].
    2: apply exactly_bind with (P := resource_id r ∉ ids); [by decide_check; apply bool_decide_eq_false|intros _].
    2: apply exactly_ok_or; intros kk Hk; apply exactly_bind; [apply kind_exact|intros _].
    2: refine (_ : exactly _ ((arena_offset r + arena_length r <= u64_max /\ forall u, used = Some u -> arena_offset r + arena_length r <= u) /\
        ((forall i c, native_handle_index r = Some i -> count = Some c -> i < c) /\ (forall i, native_handle_index r = Some i -> i ∉ indices)) /\
        loop_ok used count ({[resource_id r]} ∪ ids) (list_to_set (handles [r]) ∪ indices) l)).
    + rewrite loop_ok_cons. unfold resource_ok. split.
      * intros (H0 & Hid & (kk & Hk & Hok & (Hr1 & Hr2) & (Hh1 & Hh2) & Hl)).
        split; [|by repeat (split; [done|])]. split; [done|]. split; [by exists kk|]. by repeat (split; [done|]).
      * intros ((H0 & (kk & Hk & Hok) & Hr1 & Hr2 & Hh1) & Hid & Hh2 & Hl). split; [done|]. split; [done|]. exists kk. tauto.
    + pose proof (range_exact used r) as Hr. destruct (resource_range used r) as [end_|e| |]; cbn; try done; [|cbn in Hr; tauto].
      pose proof (handle_exact count r indices) as Hh. destruct (claim_handle count r indices) as [indices'|e| |] eqn:Eh; cbn; try done; [|cbn in Hh; tauto].
      apply handle_indices in Eh as ->. destruct (IH ({[resource_id r]} ∪ ids) (list_to_set (handles [r]) ∪ indices)
        (if 0 <? arena_length r then ranges ++ [(arena_offset r, end_, resource_id r)] else ranges)) as [IHe _]. subst k. cbn in Hr, Hh.
      eapply exactly_iff; [|exact IHe]. tauto.
  - intros out. unfold check at 1 2. destruct (negb (resource_id r =? 0)); cbn; [|done].
    destruct (negb (bool_decide (resource_id r ∈ ids))); cbn; [|done].
    destruct (resource_kind_of (kind r)); cbn; [|done]. destruct (validate_kind _ r) as [[]|e| |]; cbn; try done.
    destruct (resource_range used r) as [end_|e| |] eqn:Er; cbn; try done. apply range_end in Er as ->.
    destruct (claim_handle count r indices) as [indices'|e| |] eqn:Eh; cbn; try done. apply handle_indices in Eh as ->.
    intros Ho. destruct (IH ({[resource_id r]} ∪ ids) (list_to_set (handles [r]) ∪ indices)
      (if 0 <? arena_length r then ranges ++ [(arena_offset r, arena_offset r + arena_length r, resource_id r)] else ranges)) as [_ IHo].
    apply IHo in Ho as ->. f_equal.
    + rewrite handles_cons. cbn. destruct (native_handle_index r); set_solver.
    + cbn. unfold range_of at 2. destruct (0 <? arena_length r); [by rewrite <- app_assoc|done].
Qed.

(** ** Ranges that do not overlap *)

Definition apart (a b : Range) : Prop := a.1.2 <= b.1.1 \/ b.1.2 <= a.1.1.
Lemma apart_permutation l l' : l ≡ₚ l' -> ForallOrdPairs apart l -> ForallOrdPairs apart l'.
Proof.
  induction 1 as [|x l l' Hl IH|x y l|l l' l'' _ IH1 _ IH2]; intros H; [done| | |by apply IH2, IH1].
  - inversion_clear H as [|? ? Hx Hl']. constructor; [|by apply IH]. by rewrite <- Hl.
  - inversion_clear H as [|? ? Hy Hxl]. inversion_clear Hxl as [|? ? Hx Hl]. inversion_clear Hy as [|? ? Hyx Hyl].
    constructor; [constructor; [unfold apart in *; tauto|done]|by constructor].
Qed.
Lemma overlap_exact l : Forall (fun r : Range => r.1.1 < r.1.2) l -> Sorted range_le l ->
  exactly (overlap_loop l) (ForallOrdPairs apart l).
Proof.
  induction l as [|a [|b l] IH]; intros Hne Hs; [repeat constructor..|].
  inversion_clear Hne as [|? ? Ha Hne']. pose proof Hne' as Hbl. inversion_clear Hbl as [|? ? Hb Hne''].
  inversion_clear Hs as [|? ? Hs' Hab]. inversion_clear Hab as [|? ? Hab'].
  change (overlap_loop (a :: b :: l)) with
    (check (a.1.2 <=? b.1.1) (OverlappingResourceRange a.2 b.2);! overlap_loop (b :: l)).
  eapply exactly_iff; [|apply exactly_bind; [apply exactly_check, Z.leb_le|intros _; by apply IH] ].
  assert (Hle : Forall (fun c : Range => b.1.1 <= c.1.1) l).
  { apply Sorted_StronglySorted in Hs'; [|intros x y z; unfold range_le; lia]. by inversion_clear Hs'. }
  unfold range_le in Hab'. split.
  - intros [H HP]. constructor; [|done]. constructor; [by left|].
    eapply Forall_impl; [exact Hle|]. cbn. intros c Hc. left. lia.
  - intros HP. inversion_clear HP as [|? ? Hall HP']. split; [|done]. inversion_clear Hall as [|? ? [H|H] _]; lia.
Qed.
Lemma ord_pairs_lookup {A} (R : A -> A -> Prop) (l : list A) : ForallOrdPairs R l <->
  forall i j a b, (i < j)%nat -> l !! i = Some a -> l !! j = Some b -> R a b.
Proof.
  induction l as [|x l IH]; [split; [intros _ i j a b _ H; by rewrite lookup_nil in H|constructor] |]. split.
  - intros H. inversion_clear H as [|? ? Hx Hl]. intros [|i] [|j] a b Hij Ha Hb; [lia| |lia|].
    + injection Ha as ->. rewrite Forall_lookup in Hx. by eapply Hx.
    + eapply (proj1 IH Hl i j); [lia|done..].
  - intros H. constructor.
    + apply Forall_lookup. intros j b Hb. by apply (H 0%nat (S j)); [lia| |].
    + apply IH. intros i j a b Hij Ha Hb. by apply (H (S i) (S j)); [lia| |].
Qed.
Lemma range_of_some r x : range_of r = Some x -> x = (arena_offset r, arena_offset r + arena_length r, resource_id r) /\ 0 < arena_length r.
Proof. unfold range_of. destruct (Z.ltb_spec 0 (arena_length r)); [|done]. by intros [= <-]. Qed.
Lemma ranges_nonempty l : Forall (fun r : Range => r.1.1 < r.1.2) (omap range_of l).
Proof.
  apply Forall_forall. intros x Hx. apply list_elem_of_omap in Hx as (r & _ & Hr). apply range_of_some in Hr as [-> ?]. cbn. lia.
Qed.
Lemma apart_owns a b : (forall x y, range_of a = Some x -> range_of b = Some y -> apart x y) <->
  (forall position, owns a position -> owns b position -> False).
Proof.
  unfold owns, range_of, apart. split.
  - intros H p Ha Hb. destruct (Z.ltb_spec 0 (arena_length a)); [|lia]. destruct (Z.ltb_spec 0 (arena_length b)); [|lia].
    specialize (H _ _ eq_refl eq_refl). cbn in H. lia.
  - intros H x y. destruct (Z.ltb_spec 0 (arena_length a)); [|done]. destruct (Z.ltb_spec 0 (arena_length b)); [|done].
    intros [= <-] [= <-]. cbn. specialize (H (Z.max (arena_offset a) (arena_offset b))). lia.
Qed.
Lemma omap_pairs (R : Range -> Range -> Prop) l : ForallOrdPairs R (omap range_of l) <->
  ForallOrdPairs (fun a b => forall x y, range_of a = Some x -> range_of b = Some y -> R x y) l.
Proof.
  induction l as [|r l IH]; [by split; constructor|]. cbn. destruct (range_of r) as [x|] eqn:E.
  - split; intros H; inversion_clear H as [|? ? Hx Hl]; (constructor; [|by apply IH]).
    + rewrite Forall_forall in Hx. apply Forall_forall. intros b Hb x' y Hx' Hy. rewrite E in Hx'. injection Hx' as <-. apply Hx. apply list_elem_of_omap. by exists b.
    + apply Forall_forall. intros y Hy. apply list_elem_of_omap in Hy as (b & Hb & Hy). rewrite Forall_forall in Hx. by eapply Hx.
  - split; intros H; [constructor; [|by apply IH]|inversion_clear H; by apply IH].
    apply Forall_forall. intros b _ x y. congruence.
Qed.
Lemma resources_apart_pairs l : ForallOrdPairs apart (omap range_of l) <-> resources_apart l.
Proof.
  rewrite omap_pairs, ord_pairs_lookup. unfold resources_apart. split.
  - intros H i j a b p Ha Hb Hpa Hpb. destruct (Nat.lt_total i j) as [Hij|[->|Hij] ]; [|done|]; exfalso.
    + by eapply (proj1 (apart_owns a b) (H i j a b Hij Ha Hb)).
    + by eapply (proj1 (apart_owns b a) (H j i b a Hij Hb Ha)).
  - intros H i j a b Hij Ha Hb. apply apart_owns. intros p Hpa Hpb. specialize (H i j a b p Ha Hb Hpa Hpb). lia.
Qed.

(** As many handles as were declared, all below that number: all of them. *)
Lemma all_handles (l : list Z) count : 0 <= count -> NoDup l -> (forall i, i ∈ l -> 0 <= i < count) ->
  (count = Z.of_nat (size (list_to_set l : gset Z)) <-> forall i, i ∈ l <-> 0 <= i < count).
Proof.
  intros Hc Hnd Hin. rewrite size_list_to_set by done.
  assert (Hsub : l ⊆+ seqZ 0 count) by (apply NoDup_submseteq; [done|]; intros i Hi; apply elem_of_seqZ; specialize (Hin i Hi); lia).
  split.
  - intros Hn i. split; [by apply Hin|]. intros Hi.
    rewrite (submseteq_length_Permutation l (seqZ 0 count)); [apply elem_of_seqZ; lia|done|]. rewrite length_seqZ. lia.
  - intros Hall. assert (l ≡ₚ seqZ 0 count) as ->; [|rewrite length_seqZ; lia].
    apply NoDup_Permutation; [done|apply NoDup_seqZ|]. intros i. rewrite Hall, elem_of_seqZ. lia.
Qed.

Section Exact.
Context `{RangeSort, !RangeSortLaws}.

Lemma sorted_overlap_exact l : exactly (overlap_loop (sort_ranges (omap range_of l))) (resources_apart l).
Proof.
  eapply exactly_iff; [|apply overlap_exact; [|apply sort_ranges_sorted] ].
  - rewrite <- resources_apart_pairs. split; apply apart_permutation; [|symmetry]; apply sort_ranges_permutation.
  - rewrite sort_ranges_permutation. apply ranges_nonempty.
Qed.
Lemma declared_exact declared l e : forallb resource_unsigned l = true -> (forall c, declared = Some c -> 0 <= c) ->
  NoDup (handles l) -> Forall (resource_ok e declared) l ->
  exactly (match declared with
           | Some d => check (d =? Z.of_nat (size (list_to_set (handles l) ∪ ∅ : gset Z)))
               (UnassignedNativeHandles d (Z.of_nat (size (list_to_set (handles l) ∪ ∅ : gset Z))))
           | None => Ok tt
           end) (forall count, declared = Some count -> forall index, index ∈ handles l <-> 0 <= index < count).
Proof.
  intros Hu Hd Hnd Hok. destruct declared as [d|]; [|by intros].
  assert (Hin : forall i, i ∈ handles l -> 0 <= i < d).
  { intros i Hi. apply list_elem_of_omap in Hi as (r & Hr & Ei). rewrite forallb_forall in Hu.
    pose proof (Hu r (proj1 (list_elem_of_In _ _) Hr)) as Hur. unfold resource_unsigned in Hur. rewrite Ei in Hur.
    apply andb_true_iff in Hur as [_ Hi%Z.leb_le]. rewrite Forall_forall in Hok. destruct (Hok r Hr) as (_ & _ & _ & _ & Hlt).
    split; [done|]. by apply Hlt. }
  apply exactly_check. rewrite Z.eqb_eq, union_empty_r_L, (all_handles (handles l) d (Hd d eq_refl) Hnd Hin).
  split; [by intros H' ? [= <-]|intros H'; by apply H'].
Qed.
Lemma resources_exact l used count : forallb resource_unsigned l = true -> (forall c, count = Some c -> 0 <= c) ->
  exactly (validate_resources l used count) (resources_ok used count l).
Proof.
  intros Hu Hc. unfold validate_resources, resources_ok. apply exactly_bind; [by decide_check|intros _].
  destruct (resources_loop_exact used count l ∅ ∅ []) as [Hl Hout].
  destruct (resources_loop used count ∅ ∅ [] l) as [out|e| |]; cbn in Hl; [|cbn; unfold loop_ok in Hl; set_solver|done..].
  rewrite (Hout out eq_refl). cbn [mbind result_bind app]. destruct Hl as (Hok & Hids & _ & Hh & _).
  eapply exactly_iff; [|apply exactly_bind; [by apply (declared_exact count l used)|intros _; apply sorted_overlap_exact] ]. tauto.
Qed.
Lemma artifacts_exact l : forall ids, exactly (artifacts_loop ids l)
  (Forall artifact_ok l /\ NoDup (map pa_plugin_id l) /\ forall id, id ∈ map pa_plugin_id l -> id ∉ ids).
Proof.
  induction l as [|a l IH]; intros ids; [repeat split; try constructor; set_solver|]. cbn [artifacts_loop].
  eapply exactly_iff; [|apply exactly_bind with (P := 0 < Z.of_nat (String.length (pa_plugin_id a)) <= MAX_PLUGIN_ID_BYTES)].
  2: { apply exactly_check. rewrite andb_true_iff, negb_true_iff, Z.eqb_neq, Z.leb_le. lia. }
  2: intros _; apply exactly_bind; [by decide_check; apply bool_decide_eq_false|intros _].
  2: apply exactly_bind; [by decide_check|intros _; apply IH].
  rewrite Forall_cons. cbn [map]. rewrite NoDup_cons. unfold artifact_ok. set_solver.
Qed.
Lemma exists_some {A} (o : option A) (P : A -> Prop) a : o = Some a -> (exists b, o = Some b /\ P b) <-> P a.
Proof. intros ->. split; [by intros (? & [= <-] & ?)|by exists a]. Qed.
Lemma payload_exact p : payload_unsigned p = true -> exactly (validate_payload p) (payload_ok p).
Proof.
  destruct p as [m|m|m|m|m|m|m|m|m]; intros Hu; cbn [validate_payload payload_ok].
  - apply exactly_bind; [by decide_check|intros _; by decide_check].
  - cbn in Hu. apply andb_true_iff in Hu as [Hr Hc%Z.leb_le].
    unfold validate_bootstrap. apply exactly_bind; [by decide_check|intros _]. apply exactly_bind; [by decide_check|intros _].
    eapply exactly_iff; [|apply exactly_bind; [apply artifacts_exact|intros _] ].
    2: apply exactly_ok_or; intros a Ea; apply exactly_bind; [apply arena_exact|intros _].
    2: apply exactly_bind; [apply resources_exact; [done|by intros ? [= <-] ]|intros _].
    2: apply exactly_bind; [apply revisions_exact|intros _; by decide_check].
    set_solver.
  - unfold validate_prestage. cbn in Hu.
    eapply exactly_iff; [|apply exactly_ok_or with (Q := fun ph => (ph = Preparing \/
      ph = Frozen /\ Forall (fun r => kind r <> resource_kind_tag CoreSnapshot) (ps_resources m)) /\
      resources_ok (Some (arena_used m)) None (ps_resources m)) ].
    + assert (Hph : forall q, phase_of (phase m) = Some q <-> phase m = phase_tag q).
      { intros q. unfold phase_of. destruct (phase m) as [|[ [| |]|[| |]|]|], q; cbn; split; congruence. }
      split.
      * intros (q & Hq%Hph & Hm & Hres). split; [|done]. destruct Hm as [->|[-> Hm] ]; [by left|by right].
      * intros [[Hm|[Hm Hk] ] Hres]; eexists; (split; [apply Hph, Hm|]); (split; [|done]); [by left|by right].
    + intros q _. apply exactly_bind; [|intros _; by apply resources_exact]. destruct q; cbn.
      * by intros [?|[? _] ].
      * by left.
      * apply exactly_check. rewrite forallb_forall. setoid_rewrite negb_true_iff. setoid_rewrite Z.eqb_neq.
        rewrite List.Forall_forall. split; [by right|]. by intros [?|[_ ?] ].
  - done.
  - unfold validate_commit. apply exactly_bind; [by decide_check|intros _]. apply exactly_bind; [apply revisions_exact|intros _].
    apply exactly_check. rewrite bool_decide_eq_true. unfold checked_add.
    destruct (Z.leb_spec (java_session_count m + bedrock_session_count m) u64_max); [|split; [done|lia] ].
    split; [by intros [= <-]|by intros [-> _] ].
  - by decide_check.
  - apply exactly_ok_or. intros q _. by decide_check.
  - apply diagnostic_exact.
  - unfold validate_error. eapply exactly_iff; [|apply exactly_ok_or; intros c _; apply diagnostic_exact].
    split; [intros (c & -> & Hd); split; [by eexists|done]|intros [[c ->] Hd]; by exists c].
Qed.

Lemma envelope_validate_id e id : envelope_validate e = Ok id -> id = mkTransferId (transfer_id e).
Proof.
  unfold envelope_validate, check. intros E. repeat (case_match; cbn in E; try done). destruct (payload e) as [p|]; cbn in E; [|done].
  destruct (validate_payload p); cbn in E; congruence.
Qed.

(** C16: an envelope passes the validation exactly when it is of this protocol revision, carries
    an identifier and a sequence number, and its payload is what a receiver may import: the
    digests and tokens have their lengths, artifacts and resources have distinct identifiers,
    every resource has a kind with the handle and the connection that this kind needs and lies
    in the used part of the arena, no byte of the arena belongs to two resources, every declared
    native handle belongs to exactly one, persistence is not ahead of the transferred core, and
    the session counts add up.  Otherwise an error is reported; there is no panic. *)
Theorem envelope_validate_exact e : envelope_unsigned e = true ->
  match envelope_validate e with
  | Ok id => envelope_ok e /\ id = mkTransferId (transfer_id e)
  | Err _ => ~ envelope_ok e
  | _ => False
  end.
Proof.
  intros Hu. assert (H1 : exactly (envelope_validate e) (envelope_ok e)).
  { unfold envelope_validate, envelope_ok.
    eapply exactly_iff; [|apply exactly_bind with (P := protocol_major e = PROTOCOL_MAJOR /\ protocol_minor e = PROTOCOL_MINOR)].
    2: { apply exactly_check. by rewrite andb_true_iff, !Z.eqb_eq. }
    2: intros _; apply exactly_bind; [by decide_check|intros _]; apply exactly_bind; [by decide_check|intros _].
    2: apply exactly_ok_or; intros p Ep; apply exactly_bind; [apply payload_exact; unfold envelope_unsigned in Hu; by rewrite Ep in Hu|].
    2: intros _; by apply exactly_ok with (P := True).
    set_solver. }
  destruct (envelope_validate e) as [id| | |] eqn:E; cbn in H1; try done. split; [done|by apply envelope_validate_id].
Qed.
End Exact.

(** ** A concrete bootstrap *)

Definition merge_range_sort : RangeSort := merge_sort range_le.
Lemma merge_range_sort_laws : @RangeSortLaws merge_range_sort.
Proof.
  split; intros l; [apply merge_sort_Permutation|]. apply Sorted_merge_sort. intros a b. unfold range_le. lia.
Qed.
Definition sample_bootstrap : BootstrapV1 :=
  mkBootstrap (replicate 32 Byte.x00) [mkArtifact "je-340" (replicate 32 Byte.x01)] (Some (mkArena 4096 64 1))
    [mkResource 1 0 0 40 None None; mkResource 2 5 0 0 (Some 1) None; mkResource 3 4 0 0 (Some 0) (Some 7);
     mkResource 4 8 40 24 None None] 2 9 8 (Some 9) 3 1.
Definition sample_transfer_id : TransferId := mkTransferId (replicate 16 Byte.x2a).
Definition sample_envelope : RuntimeTransferEnvelopeV1 := envelope_new sample_transfer_id 1 (Bootstrap sample_bootstrap).
Lemma envelope_validate_exact_witness :
  @envelope_validate merge_range_sort sample_envelope = Ok sample_transfer_id /\ envelope_ok sample_envelope.
Proof.
  assert (E : @envelope_validate merge_range_sort sample_envelope = Ok sample_transfer_id) by (vm_compute; reflexivity).
  split; [exact E|].
  pose proof (@envelope_validate_exact merge_range_sort merge_range_sort_laws sample_envelope
    ltac:(vm_compute; reflexivity)) as H. rewrite E in H. apply H.
Defined.
