(* ===== verification/HandoffStream.v ===== *)
(** * The control stream of an executable handoff
    ([crates/runtime/revy-runtime-transfer/src/lib.rs]: [TransferSequenceV1], [write_envelope],
    [read_envelope])

    Envelopes behind a length, and the numbers that keep the envelopes of a transfer in order.
    prost is a parameter: [Protobuf]. *)

From stdpp Require Import finite sorting.
From S2P Require Import Prelude Bytes Parsing ProtoPacket HandoffMessages.

(** [encode_to_vec] and [decode] of [prost::Message] for an envelope. *)
Class Protobuf : Type := {
  envelope_encode : RuntimeTransferEnvelopeV1 -> list byte;
  envelope_decode : list byte -> option RuntimeTransferEnvelopeV1
}.

Section Stream.
Context `{RangeSort, Protobuf}.

(** ** Envelopes on a stream *)

(** What is written; a failure of the transport is the caller's. *)
Definition write_envelope (e : RuntimeTransferEnvelopeV1) : Checked (list byte) :=
  _ ← envelope_validate e;
  let encoded := envelope_encode e in
  check (len encoded <=? MAX_ENVELOPE_BYTES) (EnvelopeTooLarge (len encoded) MAX_ENVELOPE_BYTES);!
  check (len encoded <=? u32_max) (EnvelopeTooLarge (len encoded) MAX_ENVELOPE_BYTES);!
  Ok (to_be_bytes 4 (len encoded) ++ encoded).

(** Reading from the bytes that have arrived, of a stream that may have been closed: what is
    left, and the envelope or the error.  [None] when the read waits for bytes. *)
Definition read_exact (n : Z) (closed : bool) (bytes : list byte) (error : TransferProtocolError) :
    option (list byte * Checked (list byte)) :=
  if n <=? len bytes then Some (drop (Z.to_nat n) bytes, Ok (take (Z.to_nat n) bytes))
  else if closed then Some ([], Err error) else None.
Definition read_envelope (closed : bool) (bytes : list byte) : option (list byte * Checked RuntimeTransferEnvelopeV1) :=
  match read_exact 4 closed bytes UnexpectedEnd with
  | Some (bytes, Ok length) =>
      let n := from_be_bytes length in
      if MAX_ENVELOPE_BYTES <? n then Some (bytes, Err (EnvelopeTooLarge n MAX_ENVELOPE_BYTES))
      else match read_exact n closed bytes IoError with
           | Some (bytes, Ok encoded) =>
               Some (bytes, e ← ok_or (envelope_decode encoded) DecodeError; _ ← envelope_validate e; Ok e)
           | Some (bytes, Err e) => Some (bytes, Err e)
           | Some (bytes, Panic) => Some (bytes, Panic)
           | Some (bytes, OutOfFuel) => Some (bytes, OutOfFuel)
           | None => None
           end
  | Some (bytes, Err e) => Some (bytes, Err e)
  | Some (bytes, Panic) => Some (bytes, Panic)
  | Some (bytes, OutOfFuel) => Some (bytes, OutOfFuel)
  | None => None
  end.

(** ** Numbers *)

Record TransferSequenceV1 : Set := mkSequence { ts_transfer_id : TransferId; ts_next_outbound : Z; ts_next_inbound : Z }.
Definition sequence_new (id : TransferId) : TransferSequenceV1 := mkSequence id 1 1.
Definition next_outbound (payload : Payload) : M TransferProtocolError TransferSequenceV1 RuntimeTransferEnvelopeV1 := fun s =>
  match checked_add u64_max (ts_next_outbound s) 1 with
  | None => (s, Err InvalidSequence)
  | Some next => (mkSequence (ts_transfer_id s) next (ts_next_inbound s),
      Ok (envelope_new (ts_transfer_id s) (ts_next_outbound s) payload))
  end.
Definition accept_inbound (e : RuntimeTransferEnvelopeV1) : M TransferProtocolError TransferSequenceV1 unit := fun s =>
  match envelope_validate e with
  | Ok id =>
      if negb (bool_decide (id = ts_transfer_id s)) then (s, Err TransferIdMismatch)
      else if negb (sequence e =? ts_next_inbound s) then (s, Err (SequenceMismatch (ts_next_inbound s) (sequence e)))
      else match checked_add u64_max (ts_next_inbound s) 1 with
           | None => (s, Err InvalidSequence)
           | Some next => (mkSequence (ts_transfer_id s) (ts_next_outbound s) next, Ok tt)
           end
  | Err e => (s, Err e)
  | Panic => (s, Panic)
  | OutOfFuel => (s, OutOfFuel)
  end.

(** [ParentControl::send] and [ChildControl::send], [receive]: what is appended to the stream, and
    what is taken from it. *)
Definition control_send (payload : Payload) : M TransferProtocolError TransferSequenceV1 (list byte) :=
  e ← next_outbound payload; lift (write_envelope e).
Definition control_receive (closed : bool) (bytes : list byte) (s : TransferSequenceV1) :
    option (list byte * (TransferSequenceV1 * Checked RuntimeTransferEnvelopeV1)) :=
  match read_envelope closed bytes with
  | None => None
  | Some (bytes, Ok e) =>
      Some (bytes, match accept_inbound e s with
                   | (s, Ok _) => (s, Ok e) | (s, Err e) => (s, Err e) | (s, Panic) => (s, Panic) | (s, OutOfFuel) => (s, OutOfFuel)
                   end)
  | Some (bytes, Err e) => Some (bytes, (s, Err e))
  | Some (bytes, Panic) => Some (bytes, (s, Panic))
  | Some (bytes, OutOfFuel) => Some (bytes, (s, OutOfFuel))
  end.
End Stream.

(** ** What prost promises *)

Definition str_fits (s : string) : bool := bool_decide (is_Some (utf8_chars (string_bytes s))).
Definition option_fits {A} (f : A -> bool) (o : option A) : bool := match o with Some a => f a | None => true end.
Definition resource_fits (r : ResourceDescriptorV1) : bool :=
  unsigned_fits 64 (resource_id r) && signed_fits 32 (kind r) && unsigned_fits 64 (arena_offset r) &&
  unsigned_fits 64 (arena_length r) && option_fits (unsigned_fits 32) (native_handle_index r) &&
  option_fits (unsigned_fits 64) (logical_id r).
Definition arena_fits (a : TransferArenaV1) : bool :=
  unsigned_fits 64 (capacity a) && unsigned_fits 64 (used a) && unsigned_fits 64 (generation a).
Definition payload_fits (p : Payload) : bool :=
  match p with
  | Hello m => unsigned_fits 32 (process_id m)
  | Bootstrap m =>
      forallb (fun a => str_fits (pa_plugin_id a)) (plugin_artifacts m) && option_fits arena_fits (arena m) &&
      forallb resource_fits (bs_resources m) && unsigned_fits 32 (native_handle_count m) &&
      unsigned_fits 64 (core_snapshot_revision m) && unsigned_fits 64 (bs_persisted_core_revision m) &&
      option_fits (unsigned_fits 64) (bs_latest_dirty_core_revision m) && unsigned_fits 64 (bs_directory_revision m) &&
      unsigned_fits 64 (active_generation_id m)
  | Prestage m =>
      unsigned_fits 64 (core_revision m) && unsigned_fits 64 (directory_revision m) && forallb resource_fits (ps_resources m) &&
      unsigned_fits 64 (arena_used m) && signed_fits 32 (phase m)
  | Ready m => unsigned_fits 64 (acknowledged_core_revision m) && unsigned_fits 64 (acknowledged_directory_revision m)
  | Commit m =>
      unsigned_fits 64 (final_core_revision m) && unsigned_fits 64 (final_directory_revision m) &&
      unsigned_fits 64 (parent_epoch_revision m) && unsigned_fits 64 (persisted_core_revision m) &&
      option_fits (unsigned_fits 64) (latest_dirty_core_revision m) && unsigned_fits 64 (stage_duration_us m) &&
      unsigned_fits 64 (prepare_duration_us m) && unsigned_fits 64 (session_count m) &&
      unsigned_fits 64 (java_session_count m) && unsigned_fits 64 (bedrock_session_count m)
  | Committed m => unsigned_fits 64 (child_epoch_revision m) && unsigned_fits 64 (resume_duration_us m)
  | Status m =>
      match st_payload m with
      | Some (Query epoch) => unsigned_fits 64 epoch
      | Some (StatusCommitted epoch us _) | Some (FinalizeReport epoch us) => unsigned_fits 64 epoch && unsigned_fits 64 us
      | None => true
      end
  | Abort reason => str_fits reason
  | Error m => signed_fits 32 (code m) && str_fits (message m)
  end.
Definition envelope_fits (e : RuntimeTransferEnvelopeV1) : bool :=
  unsigned_fits 32 (protocol_major e) && unsigned_fits 32 (protocol_minor e) && unsigned_fits 64 (sequence e) &&
  option_fits payload_fits (payload e).
Class ProtobufLaws `{Protobuf} : Prop :=
  protobuf_roundtrip e : envelope_fits e = true -> envelope_decode (envelope_encode e) = Some e.

(** ** Frames *)

Section Conversation.
Context `{RangeSort, Protobuf}.

(** The sender's payloads, one after the other. *)
Fixpoint send_all (l : list Payload) : M TransferProtocolError TransferSequenceV1 (list byte) :=
  match l with
  | [] => mret []
  | p :: l => a ← control_send p; b ← send_all l; mret (a ++ b)
  end.
(** The receiver takes what is complete, and stops at an error. *)
Fixpoint drain (fuel : nat) (bytes : list byte) (s : TransferSequenceV1) :
    list byte * (TransferSequenceV1 * list (Checked RuntimeTransferEnvelopeV1)) :=
  match fuel with
  | O => (bytes, (s, []))
  | S fuel =>
      match control_receive false bytes s with
      | None => (bytes, (s, []))
      | Some (bytes, (s, Ok e)) => let '(bytes, (s, l)) := drain fuel bytes s in (bytes, (s, Ok e :: l))
      | Some (bytes, (s, r)) => (bytes, (s, [r]))
      end
  end.
Fixpoint receive_chunks (chunks : list (list byte)) (bytes : list byte) (s : TransferSequenceV1) :
    list byte * (TransferSequenceV1 * list (Checked RuntimeTransferEnvelopeV1)) :=
  match chunks with
  | [] => (bytes, (s, []))
  | chunk :: chunks =>
      let '(bytes, (s, l)) := drain (S (length (bytes ++ chunk))) (bytes ++ chunk) s in
      let '(bytes, (s, l')) := receive_chunks chunks bytes s in (bytes, (s, l ++ l'))
  end.

(** The bytes of an envelope, and that they are read back. *)
Definition frame (e : RuntimeTransferEnvelopeV1) : list byte := to_be_bytes 4 (len (envelope_encode e)) ++ envelope_encode e.
Definition travels (e : RuntimeTransferEnvelopeV1) : Prop :=
  len (envelope_encode e) <= MAX_ENVELOPE_BYTES /\ envelope_decode (envelope_encode e) = Some e /\
  envelope_validate e = Ok (mkTransferId (transfer_id e)).

Lemma be4_small n : 0 <= n <= MAX_ENVELOPE_BYTES -> from_be_bytes (to_be_bytes 4 n) = n.
Proof. intros Hn. rewrite from_to_be_bytes. apply Z.mod_small. unfold MAX_ENVELOPE_BYTES in Hn. cbn. lia. Qed.
Lemma read_frame e closed rest : travels e -> read_envelope closed (frame e ++ rest) = Some (rest, Ok e).
Proof.
  intros (Hl & Hd & Hv). unfold read_envelope, frame, read_exact. rewrite <- app_assoc.
  assert (H4 : len (to_be_bytes 4 (len (envelope_encode e))) = 4) by (by rewrite length_to_be_bytes).
  rewrite (proj2 (Z.leb_le 4 _)) by (rewrite length_app; lia).
  rewrite take_app_length', drop_app_length' by (rewrite length_to_be_bytes; reflexivity). cbn [mbind].
  rewrite be4_small by lia. rewrite (proj2 (Z.ltb_ge _ _)) by done. rewrite (proj2 (Z.leb_le _ _)) by (rewrite length_app; lia).
  rewrite Nat2Z.id, take_app_length, drop_app_length, Hd. cbn. by rewrite Hv.
Qed.
Lemma read_partial e p q : travels e -> p ++ q = frame e -> q <> [] -> read_envelope false p = None.
Proof.
  intros (Hl & Hd & Hv) E Hq. unfold read_envelope, read_exact. destruct (Z.leb_spec 4 (len p)); [|done].
  assert (Hp : exists p', p = to_be_bytes 4 (len (envelope_encode e)) ++ p' /\ p' ++ q = envelope_encode e).
  { unfold frame in E. apply app_eq_inv in E as [(k & -> & E)|(k & E1 & E)].
    - exists k. by split.
    - assert (length p + length k = 4)%nat by (rewrite <- length_app, <- E1; apply length_to_be_bytes).
      assert (k = []) as -> by (apply length_zero_iff_nil; lia). exists []. rewrite app_nil_r in *. by split. }
  destruct Hp as (p' & -> & Ep). rewrite take_app_length', drop_app_length' by (rewrite length_to_be_bytes; reflexivity).
  rewrite be4_small by lia. rewrite (proj2 (Z.ltb_ge _ _)) by done. rewrite (proj2 (Z.leb_gt _ _)); [done|].
  rewrite <- Ep, length_app. destruct q; [done|]. cbn. lia.
Qed.

(** ** Conversations *)

Fixpoint numbered (id : TransferId) (n : Z) (l : list RuntimeTransferEnvelopeV1) : Prop :=
  match l with
  | [] => True
  | e :: l => travels e /\ transfer_id e = id_bytes id /\ sequence e = n /\ numbered id (n + 1) l
  end.
Definition advance_inbound (n : Z) (s : TransferSequenceV1) : TransferSequenceV1 :=
  mkSequence (ts_transfer_id s) (ts_next_outbound s) (ts_next_inbound s + n).
Lemma advance_zero s : advance_inbound 0 s = s.
Proof. destruct s as [id out n]. unfold advance_inbound. cbn. by rewrite Z.add_0_r. Qed.
Lemma advance_add a b s : advance_inbound b (advance_inbound a s) = advance_inbound (a + b) s.
Proof. unfold advance_inbound. cbn. f_equal. lia. Qed.
Lemma length_cons_Z {A} (a : A) l : len (a :: l) = 1 + len l.
Proof. cbn [length]. lia. Qed.
Lemma receive_frame e rest closed s : travels e -> transfer_id e = id_bytes (ts_transfer_id s) -> sequence e = ts_next_inbound s ->
  ts_next_inbound s < u64_max -> control_receive closed (frame e ++ rest) s = Some (rest, (advance_inbound 1 s, Ok e)).
Proof.
  intros Ht Hid Hs Hn. unfold control_receive. rewrite read_frame by done. unfold accept_inbound.
  destruct Ht as (_ & _ & Hv). rewrite Hv, Hid. destruct s as [[id] out n]; cbn in *.
  rewrite bool_decide_true by done. cbn. rewrite Hs, Z.eqb_refl. cbn. unfold checked_add.
  rewrite (proj2 (Z.leb_le _ _)) by lia. done.
Qed.
Lemma drain_frames es : forall fuel p q s, numbered (ts_transfer_id s) (ts_next_inbound s) es ->
  ts_next_inbound s + len es <= u64_max -> (length p < fuel)%nat -> p ++ q = concat (map frame es) ->
  exists es1 es2 part, es = es1 ++ es2 /\ drain fuel p s = (part, (advance_inbound (len es1) s, map Ok es1)) /\
    part ++ q = concat (map frame es2) /\ numbered (ts_transfer_id s) (ts_next_inbound s + len es1) es2 /\ (q = [] -> es2 = []).
Proof.
  induction es as [|e es IH]; intros [|fuel] p q s Hnum Hbound Hfuel E; try lia.
  - apply app_eq_nil in E as [-> ->]. exists [], [], []. cbn. by rewrite advance_zero.
  - cbn [map concat] in E. destruct Hnum as (Ht & Hid & Hseq & Hnum). cbn [length] in Hbound.
    assert (Hfe : (4 <= length (frame e))%nat) by (unfold frame; rewrite length_app, length_to_be_bytes; lia).
    apply app_eq_inv in E as [(k & -> & E)|(k & Ef & E)].
    + rewrite length_app in Hfuel. cbn [drain]. rewrite receive_frame by (done || lia).
      destruct (IH fuel k q (advance_inbound 1 s)) as (es1 & es2 & part & -> & Hd & Hp & Hn2 & Hq); [done|cbn; lia|lia|done|].
      exists (e :: es1), es2, part. rewrite Hd. split; [done|]. split; [|split; [done|split; [|done] ] ].
      * by rewrite advance_add, length_cons_Z.
      * rewrite length_cons_Z, Z.add_assoc. exact Hn2.
    + destruct (decide (k = [])) as [->|Hk].
      * rewrite app_nil_r in Ef. subst p. cbn [drain].
        pose proof (receive_frame e [] false s Ht Hid Hseq ltac:(lia)) as Hr. rewrite app_nil_r in Hr. rewrite Hr.
        destruct (IH fuel [] q (advance_inbound 1 s)) as (es1 & es2 & part & -> & Hd & Hp & Hn2 & Hq); [done|cbn; lia|cbn; lia|done|].
        exists (e :: es1), es2, part. rewrite Hd. split; [done|]. split; [|split; [done|split; [|done] ] ].
        -- by rewrite advance_add, length_cons_Z.
        -- rewrite length_cons_Z, Z.add_assoc. exact Hn2.
      * exists [], (e :: es), p. cbn [drain]. unfold control_receive. rewrite (read_partial e p k Ht (eq_sym Ef) Hk).
        rewrite advance_zero. split; [done|]. split; [done|]. split; [cbn [map concat]; by rewrite Ef, E, <- app_assoc|].
        split; [by rewrite Z.add_0_r|]. intros ->. symmetry in E. apply app_eq_nil in E as [-> _]. done.
Qed.
Lemma chunks_frames chunks : forall es bytes s, numbered (ts_transfer_id s) (ts_next_inbound s) es ->
  ts_next_inbound s + len es <= u64_max -> bytes ++ concat chunks = concat (map frame es) -> (chunks = [] -> es = []) ->
  receive_chunks chunks bytes s = ([], (advance_inbound (len es) s, map Ok es)).
Proof.
  induction chunks as [|c chunks IH]; intros es bytes s Hnum Hbound E Hnil.
  - rewrite Hnil in * by done. cbn in *. rewrite app_nil_r in E. subst. unfold advance_inbound. destruct s. cbn. by rewrite Z.add_0_r.
  - cbn [concat] in E. rewrite app_assoc in E. cbn [receive_chunks].
    destruct (drain_frames es (S (length (bytes ++ c))) (bytes ++ c) (concat chunks) s Hnum Hbound ltac:(lia) E)
      as (es1 & es2 & part & -> & -> & Hp & Hn2 & Hq). rewrite length_app in Hbound.
    rewrite (IH es2 part (advance_inbound (len es1) s)); [|done|cbn; lia|done|intros ->; by apply Hq].
    rewrite advance_add, map_app, length_app. by rewrite Nat2Z.inj_add.
Qed.

Lemma frames_empty es : concat (map frame es) = [] -> es = [].
Proof. by destruct es as [|e es]. Qed.
Lemma next_outbound_spec p s e s' : next_outbound p s = (s', Ok e) ->
  e = envelope_new (ts_transfer_id s) (ts_next_outbound s) p /\ ts_next_outbound s < u64_max /\
  s' = mkSequence (ts_transfer_id s) (ts_next_outbound s + 1) (ts_next_inbound s).
Proof. unfold next_outbound, checked_add. destruct (Z.leb_spec (ts_next_outbound s + 1) u64_max); [|done]. intros [= <- <-]. repeat split. lia. Qed.
Lemma write_travels `{!ProtobufLaws} e bytes : write_envelope e = Ok bytes -> envelope_fits e = true -> bytes = frame e /\ travels e.
Proof.
  unfold write_envelope. intros E Hf. destruct (envelope_validate e) as [id| | |] eqn:Ev; try done. cbn in E. unfold check in E.
  destruct (Z.leb_spec (len (envelope_encode e)) MAX_ENVELOPE_BYTES); cbn in E; [|done].
  destruct (len (envelope_encode e) <=? u32_max); cbn in E; [|done]. injection E as <-.
  split; [done|]. split; [done|]. split; [by apply protobuf_roundtrip|]. by rewrite <- (envelope_validate_id e id Ev).
Qed.
Lemma envelope_new_fits id n p : unsigned_fits 64 n = true -> payload_fits p = true -> envelope_fits (envelope_new id n p) = true.
Proof. intros H1 H2. unfold envelope_fits. cbn. by rewrite H1, H2. Qed.
Lemma send_all_frames `{!ProtobufLaws} l : forall s s' bytes, forallb payload_fits l = true -> 0 <= ts_next_outbound s ->
  send_all l s = (s', Ok bytes) ->
  exists es, bytes = concat (map frame es) /\ numbered (ts_transfer_id s) (ts_next_outbound s) es /\ map payload es = map Some l /\
    ts_next_outbound s' = ts_next_outbound s + len l /\ (len l = 0 \/ ts_next_outbound s + len l <= u64_max).
Proof.
  induction l as [|p l IH]; intros s s' bytes Hf Hn E.
  - injection E as <- <-. exists []. cbn. split; [done|]. split; [done|]. split; [done|]. split; [lia|by left].
  - cbn [forallb] in Hf. apply andb_true_iff in Hf as [Hp Hf]. cbn [send_all] in E. unfold mbind, M_bind, control_send in E.
    unfold mbind, M_bind in E. destruct (next_outbound p s) as [s1 [e| | |]] eqn:En; try done.
    apply next_outbound_spec in En as (-> & Hlt & ->). unfold lift in E.
    destruct (write_envelope _) as [a| | |] eqn:Ew; try done. cbn in E.
    assert (Hfits : unsigned_fits 64 (ts_next_outbound s) = true) by (apply unsigned_fits_spec; unfold u64_max in Hlt; lia).
    destruct (write_travels _ _ Ew (envelope_new_fits _ _ _ Hfits Hp)) as [-> Ht].
    destruct (send_all l _) as [s2 [b| | |]] eqn:Es; try done. injection E as <- <-.
    assert (Hn1 : 0 <= ts_next_outbound s + 1) by lia.
    destruct (IH (mkSequence (ts_transfer_id s) (ts_next_outbound s + 1) (ts_next_inbound s)) _ _ Hf Hn1 Es) as (es & -> & Hnum & Hpay & Hs' & Hb). cbn in Hnum, Hs', Hb.
    eexists (_ :: es). split; [reflexivity|]. split; [exact (conj Ht (conj eq_refl (conj eq_refl Hnum)))|]. split; [cbn; by rewrite Hpay|].
    rewrite length_cons_Z. split; [lia|right; lia].
Qed.

(** C14: a conversation arrives.  Whatever payloads one side sends, if it could write them all, the
    other side reads exactly these payloads, in their order, however the bytes are cut on the
    way; nothing of the stream is left, and both count the same envelopes. *)
Theorem conversation_arrives `{!ProtobufLaws} payloads sender sender' receiver bytes chunks :
  ts_transfer_id receiver = ts_transfer_id sender -> ts_next_inbound receiver = ts_next_outbound sender ->
  0 <= ts_next_outbound sender -> forallb payload_fits payloads = true ->
  send_all payloads sender = (sender', Ok bytes) -> concat chunks = bytes ->
  exists envelopes, map payload envelopes = map Some payloads /\
    receive_chunks chunks [] receiver =
      ([], (mkSequence (ts_transfer_id receiver) (ts_next_outbound receiver) (ts_next_outbound sender'), map Ok envelopes)).
Proof.
  intros Hid Hn Hn0 Hf E Hc. destruct (send_all_frames payloads _ _ _ Hf Hn0 E) as (es & -> & Hnum & Hpay & Hs & Hb).
  exists es. split; [done|]. assert (Hlen : length es = length payloads) by (rewrite <- (length_map payload), Hpay; apply length_map).
  destruct Hb as [Hb|Hb].
  - destruct payloads; [|cbn in Hb; lia]. destruct es; [|done]. cbn in Hc, Hs.
    assert (Hnil : forall cs, concat cs = [] -> receive_chunks cs [] receiver = ([], (receiver, []))).
    { clear Hc. induction cs as [|c cs IH]; [done|]. cbn [concat]. intros [-> Hcs]%app_eq_nil. cbn [receive_chunks app].
      change (drain (S (length (@nil byte))) [] receiver) with (@nil byte, (receiver, @nil (Checked RuntimeTransferEnvelopeV1))).
      cbn. by rewrite IH. }
    rewrite Hnil by done. destruct receiver as [id out n]. cbn in Hid, Hn |- *. by replace (ts_next_outbound sender') with n by lia.
  - rewrite (chunks_frames chunks es [] receiver).
    + unfold advance_inbound. do 3 f_equal. rewrite Hs, Hlen, Hn. done.
    + by rewrite Hid, Hn.
    + rewrite Hn, Hlen. done.
    + done.
    + intros ->. by apply frames_empty.
Qed.

(** Envelopes that arrive in any order, as the receiver takes them. *)
Fixpoint accept_all (l : list RuntimeTransferEnvelopeV1) (s : TransferSequenceV1) :
    TransferSequenceV1 * list RuntimeTransferEnvelopeV1 :=
  match l with
  | [] => (s, [])
  | e :: l =>
      match accept_inbound e s with
      | (s, Ok _) => let '(s, accepted) := accept_all l s in (s, e :: accepted)
      | (s, _) => accept_all l s
      end
  end.
Lemma accept_inbound_spec e s : match accept_inbound e s with
  | (s', Ok _) => envelope_validate e = Ok (ts_transfer_id s) /\ sequence e = ts_next_inbound s /\ s' = advance_inbound 1 s
  | (s', _) => s' = s
  end.
Proof.
  unfold accept_inbound. destruct (envelope_validate e) as [id| | |]; try done. case_bool_decide as Hid; cbn; [subst id|done].
  destruct (Z.eqb_spec (sequence e) (ts_next_inbound s)) as [Hs|]; cbn; [|done]. unfold checked_add. by destruct (_ <=? u64_max).
Qed.

(** No envelope counts twice.  Whatever envelopes arrive, in whatever order, those that are
    accepted are valid, carry the identifier of the transfer and the numbers that follow one
    another from the one that was expected, so that no number occurs twice; every other envelope,
    a replayed, early or foreign one, changes nothing. *)
Theorem no_envelope_twice l s :
  let '(s', accepted) := accept_all l s in
  s' = advance_inbound (len accepted) s /\ sublist accepted l /\
  Forall (fun e => envelope_validate e = Ok (ts_transfer_id s)) accepted /\
  map sequence accepted = seqZ (ts_next_inbound s) (len accepted) /\ NoDup (map sequence accepted).
Proof.
  assert (Hacc : let '(s', accepted) := accept_all l s in
    s' = advance_inbound (len accepted) s /\ sublist accepted l /\
    Forall (fun e => envelope_validate e = Ok (ts_transfer_id s)) accepted /\
    map sequence accepted = seqZ (ts_next_inbound s) (len accepted)).
  { revert s. induction l as [|e l IH]; intros s; cbn [accept_all]; [by rewrite advance_zero|].
    pose proof (accept_inbound_spec e s) as He. destruct (accept_inbound e s) as [s1 [u| | |]]; cycle 1.
    1-3: subst s1; specialize (IH s); destruct (accept_all l s) as [s2 acc]; destruct IH as (? & ? & ?); repeat split; try tauto; by apply sublist_cons.
    destruct He as (Hv & Hs & ->). specialize (IH (advance_inbound 1 s)). destruct (accept_all l (advance_inbound 1 s)) as [s2 acc].
    destruct IH as (-> & Hsub & Hall & Hseq). split; [by rewrite advance_add, length_cons_Z|]. split; [by apply sublist_skip|].
    split; [by constructor|]. cbn [map]. rewrite Hseq, Hs, length_cons_Z. rewrite (seqZ_cons _ (1 + len acc)) by lia.
    do 2 f_equal; cbn; lia. }
  destruct (accept_all l s) as [s' acc]. destruct Hacc as (? & ? & ? & Hseq). repeat split; try done. rewrite Hseq. apply NoDup_seqZ.
Qed.
End Conversation.

(** ** A format of envelopes, in place of prost *)

#[local] Instance byte_countable : Countable byte := inj_countable' byte_Z Z_byte Z_byte_byte_Z.
#[local] Instance HelloV1_eq_dec : EqDecision HelloV1.
Proof. solve_decision. Defined.
#[local, refine] Instance HelloV1_countable : Countable HelloV1 :=
  inj_countable' (fun m => (authentication_token m, process_id m)) (fun '(x0, x1) => mkHello x0 x1) _.
Proof. by intros []. Defined.
#[local] Instance PluginArtifactV1_eq_dec : EqDecision PluginArtifactV1.
Proof. solve_decision. Defined.
#[local, refine] Instance PluginArtifactV1_countable : Countable PluginArtifactV1 :=
  inj_countable' (fun m => (pa_plugin_id m, sha256 m)) (fun '(x0, x1) => mkArtifact x0 x1) _.
Proof. by intros []. Defined.
#[local] Instance TransferArenaV1_eq_dec : EqDecision TransferArenaV1.
Proof. solve_decision. Defined.
#[local, refine] Instance TransferArenaV1_countable : Countable TransferArenaV1 :=
  inj_countable' (fun m => (capacity m, used m, generation m)) (fun '(x0, x1, x2) => mkArena x0 x1 x2) _.
Proof. by intros []. Defined.
#[local] Instance ResourceDescriptorV1_eq_dec : EqDecision ResourceDescriptorV1.
Proof. solve_decision. Defined.
#[local, refine] Instance ResourceDescriptorV1_countable : Countable ResourceDescriptorV1 :=
  inj_countable' (fun m => (resource_id m, kind m, arena_offset m, arena_length m, native_handle_index m, logical_id m)) (fun '(x0, x1, x2, x3, x4, x5) => mkResource x0 x1 x2 x3 x4 x5) _.
Proof. by intros []. Defined.
#[local] Instance BootstrapV1_eq_dec : EqDecision BootstrapV1.
Proof. solve_decision. Defined.
#[local, refine] Instance BootstrapV1_countable : Countable BootstrapV1 :=
  inj_countable' (fun m => (validated_config_digest m, plugin_artifacts m, arena m, bs_resources m, native_handle_count m, core_snapshot_revision m, bs_persisted_core_revision m, bs_latest_dirty_core_revision m, bs_directory_revision m, active_generation_id m)) (fun '(x0, x1, x2, x3, x4, x5, x6, x7, x8, x9) => mkBootstrap x0 x1 x2 x3 x4 x5 x6 x7 x8 x9) _.
Proof. by intros []. Defined.
#[local] Instance PrestageV1_eq_dec : EqDecision PrestageV1.
Proof. solve_decision. Defined.
#[local, refine] Instance PrestageV1_countable : Countable PrestageV1 :=
  inj_countable' (fun m => (core_revision m, directory_revision m, ps_resources m, arena_used m, phase m)) (fun '(x0, x1, x2, x3, x4) => mkPrestage x0 x1 x2 x3 x4) _.
Proof. by intros []. Defined.
#[local] Instance ReadyV1_eq_dec : EqDecision ReadyV1.
Proof. solve_decision. Defined.
#[local, refine] Instance ReadyV1_countable : Countable ReadyV1 :=
  inj_countable' (fun m => (acknowledged_core_revision m, acknowledged_directory_revision m)) (fun '(x0, x1) => mkReady x0 x1) _.
Proof. by intros []. Defined.
#[local] Instance CommitV1_eq_dec : EqDecision CommitV1.
Proof. solve_decision. Defined.
#[local, refine] Instance CommitV1_countable : Countable CommitV1 :=
  inj_countable' (fun m => (final_core_revision m, final_directory_revision m, parent_epoch_revision m, persisted_core_revision m, latest_dirty_core_revision m, stage_duration_us m, prepare_duration_us m, session_count m, java_session_count m, bedrock_session_count m)) (fun '(x0, x1, x2, x3, x4, x5, x6, x7, x8, x9) => mkCommit x0 x1 x2 x3 x4 x5 x6 x7 x8 x9) _.
Proof. by intros []. Defined.
#[local] Instance CommittedV1_eq_dec : EqDecision CommittedV1.
Proof. solve_decision. Defined.
#[local, refine] Instance CommittedV1_countable : Countable CommittedV1 :=
  inj_countable' (fun m => (child_epoch_revision m, resume_duration_us m)) (fun '(x0, x1) => mkCommitted x0 x1) _.
Proof. by intros []. Defined.
#[local] Instance ErrorV1_eq_dec : EqDecision ErrorV1.
Proof. solve_decision. Defined.
#[local, refine] Instance ErrorV1_countable : Countable ErrorV1 :=
  inj_countable' (fun m => (code m, message m)) (fun '(x0, x1) => mkError x0 x1) _.
Proof. by intros []. Defined.
#[local] Instance StatusPayload_eq_dec : EqDecision StatusPayload.
Proof. solve_decision. Defined.
#[local, refine] Instance StatusPayload_countable : Countable StatusPayload :=
  inj_countable' (fun m => match m with Query a => inl a | StatusCommitted a b c => inr (inl (a, b, c)) | FinalizeReport a b => inr (inr (a, b)) end)
    (fun m => match m with inl a => Query a | inr (inl (a, b, c)) => StatusCommitted a b c | inr (inr (a, b)) => FinalizeReport a b end) _.
Proof. by intros []. Defined.
#[local] Instance StatusV1_eq_dec : EqDecision StatusV1.
Proof. solve_decision. Defined.
#[local, refine] Instance StatusV1_countable : Countable StatusV1 := inj_countable' st_payload mkStatus _.
Proof. by intros []. Defined.
#[local] Instance Payload_eq_dec : EqDecision Payload.
Proof. solve_decision. Defined.
#[local, refine] Instance Payload_countable : Countable Payload :=
  inj_countable' (fun p => match p with
      | Ready m => inl (inl (inl m)) | Hello m => inl (inl (inr m)) | Bootstrap m => inl (inr (inl m)) | Prestage m => inl (inr (inr m))
      | Commit m => inr (inl (inl m)) | Committed m => inr (inl (inr m)) | Status m => inr (inr (inl m))
      | Abort m => inr (inr (inr (inl m))) | Error m => inr (inr (inr (inr m)))
      end)
    (fun p => match p with
      | inl (inl (inl m)) => Ready m | inl (inl (inr m)) => Hello m | inl (inr (inl m)) => Bootstrap m | inl (inr (inr m)) => Prestage m
      | inr (inl (inl m)) => Commit m | inr (inl (inr m)) => Committed m | inr (inr (inl m)) => Status m
      | inr (inr (inr (inl m))) => Abort m | inr (inr (inr (inr m))) => Error m
      end) _.
Proof. by intros []. Defined.
#[local] Instance RuntimeTransferEnvelopeV1_eq_dec : EqDecision RuntimeTransferEnvelopeV1.
Proof. solve_decision. Defined.
#[local, refine] Instance RuntimeTransferEnvelopeV1_countable : Countable RuntimeTransferEnvelopeV1 :=
  inj_countable' (fun m => (protocol_major m, protocol_minor m, transfer_id m, sequence m, payload m)) (fun '(x0, x1, x2, x3, x4) => mkEnvelope x0 x1 x2 x3 x4) _.
Proof. by intros []. Defined.

(** The bits of a number, a byte each. *)
Fixpoint positive_bytes (p : positive) : list byte :=
  match p with xH => [] | xO p => Byte.x00 :: positive_bytes p | xI p => Byte.x01 :: positive_bytes p end.
Fixpoint bytes_positive (l : list byte) : positive :=
  match l with [] => xH | Byte.x00 :: l => xO (bytes_positive l) | _ :: l => xI (bytes_positive l) end.
Lemma bytes_positive_bytes p : bytes_positive (positive_bytes p) = p.
Proof. by induction p as [p IH|p IH|]; cbn; rewrite ?IH. Qed.
Definition sample_protobuf : Protobuf := {|
  envelope_encode e := positive_bytes (encode e); envelope_decode bytes := decode (bytes_positive bytes)
|}.
Lemma sample_protobuf_laws : @ProtobufLaws sample_protobuf.
Proof. intros e _. cbn. rewrite bytes_positive_bytes. apply decode_encode. Qed.

Definition sample_conversation : list Payload := [Ready (mkReady 9 3); Committed (mkCommitted 2 100)].
Definition sample_sent : list byte :=
  match (@send_all merge_range_sort sample_protobuf sample_conversation (sequence_new sample_transfer_id)).2 with
  | Ok bytes => bytes | _ => []
  end.
Lemma conversation_arrives_witness :
  exists envelopes, map payload envelopes = map Some sample_conversation /\
    @receive_chunks merge_range_sort sample_protobuf [take 7 sample_sent; []; drop 7 sample_sent] [] (sequence_new sample_transfer_id) =
      ([], (mkSequence sample_transfer_id 1 3, map Ok envelopes)).
Proof.
  apply (@conversation_arrives merge_range_sort sample_protobuf sample_protobuf_laws sample_conversation
    (sequence_new sample_transfer_id) (mkSequence sample_transfer_id 3 1) (sequence_new sample_transfer_id) sample_sent);
    [reflexivity|reflexivity|vm_compute; discriminate|vm_compute; reflexivity|vm_compute; reflexivity|].
  cbn [concat app]. rewrite app_nil_r. apply take_drop.
Defined.
