(* ===== verification/HandoffArena.v ===== *)
(** * The shared arena of an executable handoff
    ([crates/runtime/revy-runtime-transfer/src/arena.rs])

    Memory that both processes map: the parent reserves disjoint regions of it, writes and seals
    them, and the child reads the prefix that was published.  The regions are handed out by an
    atomic counter, so that any interleaving of reservations, writes and seals is considered.  The
    calls of the operating system that create, pass and map the memory are not modelled. *)

From stdpp Require Import finite sorting.
From S2P Require Import Prelude Bytes HandoffMessages.

Definition ARENA_ALIGNMENT : Z := 8.
Inductive ArenaError : Type :=
| EmptyCapacity | InvalidGeneration | CapacityLimitExceeded (capacity limit : Z) | AddressSpaceExceeded (capacity : Z)
| CapacityExhausted (requested remaining : Z) | InvalidRegion (offset end_ published : Z)
| IncompleteReservation (expected written : Z) | ReservationOverflow (capacity : Z) | Mapping | InvalidMappingLocator
| PublicationRegression (current requested : Z).

(** [usize::try_from]: the address space is that of [u64]. *)
Definition validate_parameters (capacity generation : Z) : result ArenaError Z :=
  if capacity =? 0 then Err EmptyCapacity
  else if generation =? 0 then Err InvalidGeneration
  else if MAX_TRANSFER_ARENA_BYTES <? capacity then Err (CapacityLimitExceeded capacity MAX_TRANSFER_ARENA_BYTES)
  else Ok capacity.
Definition validate_import (capacity published generation : Z) : result ArenaError Z :=
  c ← validate_parameters capacity generation;
  if capacity <? published then Err (InvalidRegion 0 published c) else Ok c.
(** [value & !(ARENA_ALIGNMENT - 1)] *)
Definition align_up (value : Z) : option Z :=
  v ← checked_add usize_max value (ARENA_ALIGNMENT - 1); Some (Z.land v (Z.lnot (ARENA_ALIGNMENT - 1))).

(** ** The parent's side *)

Record ArenaReservation : Set := mkReservation { rs_offset : Z; rs_capacity : Z; rs_written : Z }.
Record SealedArenaRegion : Set := mkRegion { rg_offset : Z; rg_length : Z }.
(** The mapping, the counter, and the capabilities that are in use: the reservations and the
    regions that were sealed. *)
Record SharedTransferArena : Type := mkShared {
  memory : list byte; next_offset : Z; sh_generation : Z; reservations : gmap nat ArenaReservation; sealed : list SealedArenaRegion
}.
Definition sh_capacity (a : SharedTransferArena) : Z := len (memory a).
Definition arena_create (initial : list byte) (generation : Z) : result ArenaError SharedTransferArena :=
  _ ← validate_parameters (len initial) generation; Ok (mkShared initial 0 generation ∅ []).
Definition descriptor (a : SharedTransferArena) : TransferArenaV1 := mkArena (sh_capacity a) (next_offset a) (sh_generation a).

Definition exhausted (a : SharedTransferArena) (requested current : Z) : ArenaError :=
  CapacityExhausted requested (saturating_sub (sh_capacity a) current).
(** One round of the loop of [reserve]: the aligned start and the end that it asks for, where the
    counter was [current]. *)
Definition reserve_round (a : SharedTransferArena) (length_ current : Z) : result ArenaError (Z * Z) :=
  match align_up current with
  | None => Err (exhausted a length_ current)
  | Some aligned =>
      match checked_add usize_max aligned length_ with
      | None => Err (exhausted a length_ current)
      | Some end_ => if sh_capacity a <? end_ then Err (exhausted a length_ current) else Ok (aligned, end_)
      end
  end.
(** [compare_exchange_weak], which may fail without a reason. *)
Definition compare_exchange (a : SharedTransferArena) (id : nat) (length_ current : Z) (round : Z * Z) (spurious : bool) :
    option SharedTransferArena :=
  if spurious || negb (next_offset a =? current) then None
  else Some (mkShared (memory a) round.2 (sh_generation a)
         (<[id := mkReservation round.1 length_ 0]> (reservations a)) (sealed a)).
Definition set_reservations v (a : SharedTransferArena) := mkShared (memory a) (next_offset a) (sh_generation a) v (sealed a).
(** [copy_nonoverlapping] to a position of the mapping. *)
Definition copy_to (position : Z) (buffer bytes : list byte) : list byte :=
  take (Z.to_nat position) bytes ++ buffer ++ drop (Z.to_nat (position + len buffer)) bytes.
Definition reservation_write (id : nat) (buffer : list byte) (a : SharedTransferArena) : option (SharedTransferArena * result ArenaError Z) :=
  r ← reservations a !! id;
  if rs_capacity r - rs_written r <? len buffer then Some (a, Err (ReservationOverflow (rs_capacity r)))
  else if len buffer =? 0 then Some (a, Ok 0)
  else Some (mkShared (copy_to (rs_offset r + rs_written r) buffer (memory a)) (next_offset a) (sh_generation a)
         (<[id := mkReservation (rs_offset r) (rs_capacity r) (rs_written r + len buffer)]> (reservations a)) (sealed a),
         Ok (len buffer)).
(** Both consume the reservation. *)
Definition publish (id : nat) (region : SealedArenaRegion) (a : SharedTransferArena) : SharedTransferArena :=
  mkShared (memory a) (next_offset a) (sh_generation a) (delete id (reservations a)) (region :: sealed a).
Definition seal (id : nat) (a : SharedTransferArena) : option (SharedTransferArena * result ArenaError SealedArenaRegion) :=
  r ← reservations a !! id;
  if negb (rs_written r =? rs_capacity r)
  then Some (set_reservations (delete id (reservations a)) a, Err (IncompleteReservation (rs_capacity r) (rs_written r)))
  else Some (publish id (mkRegion (rs_offset r) (rs_capacity r)) a, Ok (mkRegion (rs_offset r) (rs_capacity r))).
Definition seal_written (id : nat) (a : SharedTransferArena) : option (SharedTransferArena * SealedArenaRegion) :=
  r ← reservations a !! id;
  Some (publish id (mkRegion (rs_offset r) (rs_written r)) a, mkRegion (rs_offset r) (rs_written r)).
(** The bytes of a range of the mapping. *)
Definition slice (offset length_ : Z) (bytes : list byte) : list byte := take (Z.to_nat length_) (drop (Z.to_nat offset) bytes).
Definition as_slice (region : SealedArenaRegion) (a : SharedTransferArena) : list byte :=
  slice (rg_offset region) (rg_length region) (memory a).

(** ** The child's side *)

(** The mapping is the parent's memory. *)
Record SharedTransferArenaReader : Set := mkReader { rd_capacity : Z; published : Z; rd_generation : Z }.
Definition reader_open (capacity published generation : Z) : result ArenaError SharedTransferArenaReader :=
  c ← validate_import capacity published generation; Ok (mkReader c published generation).
Definition advance_published (requested : Z) : M ArenaError SharedTransferArenaReader unit := fun r =>
  if requested <? published r then (r, Err (PublicationRegression (published r) requested))
  else if rd_capacity r <? requested then (r, Err (InvalidRegion 0 requested (rd_capacity r)))
  else (mkReader (rd_capacity r) requested (rd_generation r), Ok tt).
Definition region (bytes : list byte) (offset length_ : Z) (r : SharedTransferArenaReader) : result ArenaError (list byte) :=
  match checked_add usize_max offset length_ with
  | None => Err (InvalidRegion offset usize_max (published r))
  | Some end_ =>
      if published r <? end_ then Err (InvalidRegion offset end_ (published r)) else Ok (slice offset length_ bytes)
  end.

(** ** Interleavings *)

(** What the threads of the parent do, in any order; [current] is what a thread read of the counter
    before, maybe long ago.  A reservation has a name of its own. *)
Inductive ArenaAction : Type :=
| ActReserve (id : nat) (length_ current : Z) (spurious : bool)
| ActWrite (id : nat) (buffer : list byte)
| ActSeal (id : nat)
| ActSealWritten (id : nat)
| ActDrop (id : nat).
Definition perform (action : ArenaAction) (a : SharedTransferArena) : option SharedTransferArena :=
  match action with
  | ActReserve id length_ current spurious =>
      match reservations a !! id, reserve_round a length_ current with
      | None, Ok round => compare_exchange a id length_ current round spurious
      | _, _ => None
      end
  | ActWrite id buffer => fst <$> reservation_write id buffer a
  | ActSeal id => fst <$> seal id a
  | ActSealWritten id => fst <$> seal_written id a
  | ActDrop id => _ ← reservations a !! id; Some (set_reservations (delete id (reservations a)) a)
  end.
Inductive arena_step (a a' : SharedTransferArena) : Prop :=
| ArenaStep action : (forall id n c s, action = ActReserve id n c s -> 0 <= n /\ 0 <= c) -> perform action a = Some a' -> arena_step a a'.

(** ** Spans *)

Definition Span : Type := Z * Z.
Definition span_apart (s t : Span) : Prop := s.1 + s.2 <= t.1 \/ t.1 + t.2 <= s.1.
Definition reservation_span (r : ArenaReservation) : Span := (rs_offset r, rs_capacity r).
Definition region_span (r : SealedArenaRegion) : Span := (rg_offset r, rg_length r).
(** Aligned, and within what was handed out. *)
Definition span_ok (a : SharedTransferArena) (s : Span) : Prop :=
  0 <= s.1 /\ (ARENA_ALIGNMENT | s.1) /\ 0 <= s.2 /\ s.1 + s.2 <= next_offset a.
Record arena_inv (a : SharedTransferArena) : Prop := {
  inv_bounds : 0 <= next_offset a <= sh_capacity a /\ sh_capacity a <= MAX_TRANSFER_ARENA_BYTES;
  inv_reserved : forall id r, reservations a !! id = Some r -> span_ok a (reservation_span r) /\ 0 <= rs_written r <= rs_capacity r;
  inv_sealed : forall i g, sealed a !! i = Some g -> span_ok a (region_span g);
  inv_reserved_apart : forall i j r s, reservations a !! i = Some r -> reservations a !! j = Some s -> i <> j ->
    span_apart (reservation_span r) (reservation_span s);
  inv_mixed_apart : forall i j r g, reservations a !! i = Some r -> sealed a !! j = Some g ->
    span_apart (reservation_span r) (region_span g);
  inv_sealed_apart : forall i j g h, sealed a !! i = Some g -> sealed a !! j = Some h -> i <> j ->
    span_apart (region_span g) (region_span h)
}.

Lemma align_up_spec value v : 0 <= value -> align_up value = Some v -> value <= v /\ (ARENA_ALIGNMENT | v).
Proof.
  intros Hv. unfold align_up, checked_add, ARENA_ALIGNMENT. destruct (_ <=? usize_max); cbn [mbind option_bind]; [|done].
  intros [= <-]. change (Z.lnot (8 - 1)) with (Z.lnot (Z.ones 3)). change (8 - 1) with 7.
  rewrite <- Z.ldiff_land, Z.ldiff_ones_r, Z.shiftl_mul_pow2, Z.shiftr_div_pow2 by lia. change (2 ^ 3) with 8.
  pose proof (Z.div_mod (value + 7) 8 ltac:(lia)). pose proof (Z.mod_pos_bound (value + 7) 8 ltac:(lia)).
  split; [lia|]. by exists ((value + 7) / 8).
Qed.
Lemma copy_to_length position buffer bytes : 0 <= position -> position + len buffer <= len bytes ->
  len (copy_to position buffer bytes) = len bytes.
Proof. intros Hp Hl. unfold copy_to. rewrite !length_app, length_take, length_drop. lia. Qed.
(** Writing does not touch the bytes of a span that is apart. *)
Lemma slice_copy_apart position buffer bytes s : 0 <= position -> position + len buffer <= len bytes -> 0 <= s.1 -> 0 <= s.2 ->
  s.1 + s.2 <= position \/ position + len buffer <= s.1 -> slice s.1 s.2 (copy_to position buffer bytes) = slice s.1 s.2 bytes.
Proof.
  intros Hp Hl H1 H2 H. unfold slice, copy_to. destruct H as [H|H].
  - apply list_eq. intros k. destruct (decide (k < Z.to_nat s.2)%nat) as [Hk|Hk].
    + rewrite !lookup_take_lt, !lookup_drop by done. rewrite lookup_app_l by (rewrite length_take; lia).
      by rewrite lookup_take_lt by lia.
    + by rewrite !lookup_take_ge by lia.
  - f_equal. rewrite app_assoc, drop_app_ge by (rewrite length_app, length_take; lia). rewrite drop_drop.
    f_equal. rewrite length_app, length_take. lia.
Qed.
(** Writing after a prefix extends it. *)
Lemma slice_copy_extends offset written buffer bytes : 0 <= offset -> 0 <= written -> offset + written + len buffer <= len bytes ->
  slice offset (written + len buffer) (copy_to (offset + written) buffer bytes) = slice offset written bytes ++ buffer.
Proof.
  intros Ho Hw Hl. unfold slice, copy_to.
  rewrite drop_app_le by (rewrite length_take; lia). rewrite skipn_firstn_comm.
  replace (Z.to_nat (offset + written) - Z.to_nat offset)%nat with (Z.to_nat written) by lia.
  rewrite app_assoc, take_app_le by (rewrite length_app, length_take, length_drop; lia).
  apply firstn_all2. rewrite length_app, length_take, length_drop. lia.
Qed.

(** ** Every action keeps the regions apart *)

Lemma span_apart_sym s t : span_apart s t -> span_apart t s.
Proof. unfold span_apart. tauto. Qed.
Lemma span_apart_shrink s o n m : n <= m -> span_apart s (o, m) -> span_apart s (o, n).
Proof. unfold span_apart. cbn. lia. Qed.
Lemma inv_drop a id : arena_inv a -> arena_inv (set_reservations (delete id (reservations a)) a).
Proof.
  intros [Hb Hr Hs Hra Hma Hsa].
  assert (Hd : forall i r, delete id (reservations a) !! i = Some r -> reservations a !! i = Some r) by (intros i r; rewrite lookup_delete_Some; tauto).
  split; cbn [set_reservations reservations sealed]; eauto.
Qed.
Lemma inv_publish a id r n : arena_inv a -> reservations a !! id = Some r -> 0 <= n <= rs_capacity r ->
  arena_inv (publish id (mkRegion (rs_offset r) n) a).
Proof.
  intros [Hb Hr Hs Hra Hma Hsa] E Hn. destruct (Hr id r E) as [(H0 & Hal & Hc & Hend) Hw]. cbn in H0, Hal, Hc, Hend.
  assert (Hd : forall i s, delete id (reservations a) !! i = Some s -> id <> i /\ reservations a !! i = Some s)
    by (intros i s; rewrite lookup_delete_Some; tauto).
  split; cbn [publish reservations sealed].
  - done.
  - intros i s [_ Hi]%Hd. by apply (Hr i).
  - intros [|i] g; cbn; [|by apply Hs]. intros [= <-]. unfold span_ok. cbn. lia || (repeat split; try done; lia).
  - intros i j s t [_ Hi]%Hd [_ Hj]%Hd. by apply Hra.
  - intros i [|j] s g [Hne Hi]%Hd; cbn; [|by eapply Hma]. intros [= <-]. unfold region_span. cbn.
    eapply span_apart_shrink; [apply Hn|]. by apply (Hra i id s r).
  - assert (Hnew : forall j g, sealed a !! j = Some g -> span_apart (region_span (mkRegion (rs_offset r) n)) (region_span g)).
    { intros j g Hg. apply span_apart_sym. unfold region_span at 2. cbn. eapply span_apart_shrink; [apply Hn|].
      apply span_apart_sym. by apply (Hma id j r g). }
    intros [|i] [|j] g h; cbn; [done| | |]; intros Hg Hh Hij.
    + injection Hg as <-. by apply (Hnew j).
    + injection Hh as <-. apply span_apart_sym. by apply (Hnew i).
    + apply (Hsa i j); [done|done|congruence].
Qed.
Lemma inv_write a id r buffer : arena_inv a -> reservations a !! id = Some r -> len buffer <= rs_capacity r - rs_written r ->
  arena_inv (mkShared (copy_to (rs_offset r + rs_written r) buffer (memory a)) (next_offset a) (sh_generation a)
    (<[id := mkReservation (rs_offset r) (rs_capacity r) (rs_written r + len buffer)]> (reservations a)) (sealed a)).
Proof.
  intros [Hb Hr Hs Hra Hma Hsa] E Hfit. destruct (Hr id r E) as [(H0 & Hal & Hc & Hend) Hw]. cbn in H0, Hal, Hc, Hend.
  assert (Hd : forall i s, <[id := mkReservation (rs_offset r) (rs_capacity r) (rs_written r + len buffer)]> (reservations a) !! i = Some s ->
    exists t, reservations a !! i = Some t /\ reservation_span s = reservation_span t /\ (0 <= rs_written t <= rs_capacity t -> 0 <= rs_written s <= rs_capacity s)).
  { intros i s. rewrite lookup_insert_Some. intros [[<- <-]|[_ Hi] ]; [exists r; cbn; split; [done|split; [done|lia] ]|by exists s]. }
  unfold sh_capacity in *. split; cbn [memory reservations sealed next_offset]; unfold sh_capacity; cbn [memory].
  - rewrite copy_to_length by lia. done.
  - intros i s (t & Ht & -> & Hwt)%Hd. destruct (Hr i t Ht). by split; [|apply Hwt].
  - done.
  - intros i j s t (s' & Hs' & -> & _)%Hd (t' & Ht' & -> & _)%Hd. by apply Hra.
  - intros i j s g (s' & Hs' & -> & _)%Hd. by eapply Hma.
  - done.
Qed.
Lemma reserve_round_spec a length_ current round : 0 <= length_ -> 0 <= current -> reserve_round a length_ current = Ok round ->
  current <= round.1 /\ (ARENA_ALIGNMENT | round.1) /\ round.2 = round.1 + length_ /\ round.2 <= sh_capacity a.
Proof.
  intros Hl Hc. unfold reserve_round. destruct (align_up current) as [v|] eqn:Ev; [|done]. apply align_up_spec in Ev as [H1 H2]; [|done].
  unfold checked_add. destruct (_ <=? usize_max); [|done]. destruct (Z.ltb_spec (sh_capacity a) (v + length_)); [done|].
  intros [= <-]. cbn. lia || (repeat split; try done; lia).
Qed.
Lemma inv_reserve a id length_ current round spurious a' : arena_inv a -> 0 <= length_ -> 0 <= current ->
  reservations a !! id = None -> reserve_round a length_ current = Ok round ->
  compare_exchange a id length_ current round spurious = Some a' -> arena_inv a'.
Proof.
  intros [Hb Hr Hs Hra Hma Hsa] Hl Hc Hnew Hround. apply reserve_round_spec in Hround as (H1 & H2 & H3 & H4); [|done..].
  unfold compare_exchange. destruct spurious; cbn [orb]; [done|]. destruct (Z.eqb_spec (next_offset a) current) as [Hn|]; cbn; [|done].
  intros [= <-]. destruct round as [o e]. cbn in *. subst e current.
  assert (Hd : forall i s, <[id := mkReservation o length_ 0]> (reservations a) !! i = Some s ->
    (i = id /\ s = mkReservation o length_ 0) \/ (i <> id /\ reservations a !! i = Some s)).
  { intros i s. rewrite lookup_insert_Some. intros [[<- <-]|[? ?] ]; [by left|by right]. }
  assert (Hok : forall s, span_ok a s -> span_ok (mkShared (memory a) (o + length_) (sh_generation a)
    (<[id := mkReservation o length_ 0]> (reservations a)) (sealed a)) s) by (intros s (? & ? & ? & ?); repeat split; cbn; try done; lia).
  assert (Hap : forall s, span_ok a s -> span_apart s (o, length_)) by (intros s (_ & _ & _ & Hs'); left; cbn; lia).
  unfold sh_capacity in *. split; cbn [memory reservations sealed next_offset]; unfold sh_capacity; cbn [memory].
  - lia.
  - intros i s [[-> ->]|[_ Hi] ]%Hd; [|destruct (Hr i s Hi); auto]. unfold span_ok. cbn. split; [|lia]. split; [lia|]. split; [done|lia].
  - intros i g Hg. by apply Hok, (Hs i).
  - intros i j s t [[-> ->]|[Hi Es] ]%Hd [[-> ->]|[Hj Et] ]%Hd Hij.
    + done.
    + apply span_apart_sym, Hap. by apply (Hr j).
    + apply Hap. by apply (Hr i).
    + by apply (Hra i j).
  - intros i j s g [[-> ->]|[Hi Es] ]%Hd Hg; [|by eapply Hma]. apply span_apart_sym, Hap. by apply (Hs j).
  - done.
Qed.
Lemma arena_step_inv a a' : arena_inv a -> arena_step a a' -> arena_inv a'.
Proof.
  intros Ha [action Hnn Hp]. destruct action as [id n c s|id buffer|id|id|id]; cbn [perform] in Hp.
  - destruct (reservations a !! id) eqn:E; [done|]. destruct (reserve_round a n c) as [round| | |] eqn:Er; try done.
    destruct (Hnn id n c s eq_refl) as [Hn Hc]. exact (inv_reserve a id n c round s a' Ha Hn Hc E Er Hp).
  - unfold reservation_write in Hp. destruct (reservations a !! id) as [r|] eqn:E; cbn in Hp; [|done].
    destruct (Z.ltb_spec (rs_capacity r - rs_written r) (len buffer)); cbn in Hp; [by injection Hp as <-|].
    destruct (len buffer =? 0); cbn in Hp; injection Hp as <-; [done|]. by apply inv_write.
  - unfold seal in Hp. destruct (reservations a !! id) as [r|] eqn:E; cbn in Hp; [|done].
    destruct (negb _); cbn in Hp; injection Hp as <-; [by apply inv_drop|]. apply inv_publish; [done|done|].
    pose proof (inv_reserved a Ha id r E) as [_ ?]. lia.
  - unfold seal_written in Hp. destruct (reservations a !! id) as [r|] eqn:E; cbn in Hp; [|done]. injection Hp as <-.
    apply inv_publish; [done|done|]. pose proof (inv_reserved a Ha id r E) as [_ ?]. lia.
  - destruct (reservations a !! id); cbn in Hp; [|done]. injection Hp as <-. by apply inv_drop.
Qed.

(** ** What was sealed stays *)

Lemma perform_sealed a a' action g : arena_inv a -> g ∈ sealed a -> perform action a = Some a' ->
  g ∈ sealed a' /\ as_slice g a' = as_slice g a /\ next_offset a <= next_offset a' \/
  exists id n c s, action = ActReserve id n c s /\ (n < 0 \/ c < 0).
Proof.
  intros Ha Hg Hp. apply list_elem_of_lookup in Hg as [k Hk]. pose proof (list_elem_of_lookup_2 _ _ _ Hk) as Hg.
  destruct action as [id n c s|id buffer|id|id|id]; cbn [perform] in Hp.
  - destruct (reservations a !! id) eqn:E; [done|]. destruct (reserve_round a n c) as [round| | |] eqn:Er; try done.
    destruct (Z.ltb_spec n 0); [right; exists id, n, c, s; auto|]. destruct (Z.ltb_spec c 0); [right; exists id, n, c, s; auto|].
    apply reserve_round_spec in Er as (H1 & _ & H3 & _); [|done..]. unfold compare_exchange in Hp.
    destruct s; cbn [orb] in Hp; [done|]. destruct (Z.eqb_spec (next_offset a) c); cbn in Hp; [|done]. injection Hp as <-. left. cbn.
    split; [done|]. split; [done|lia].
  - unfold reservation_write in Hp. destruct (reservations a !! id) as [r|] eqn:E; cbn in Hp; [|done]. left.
    destruct (Z.ltb_spec (rs_capacity r - rs_written r) (len buffer)); cbn in Hp; [injection Hp as <-; by repeat split|].
    destruct (len buffer =? 0); cbn in Hp; injection Hp as <-; [by repeat split|]. cbn. split; [done|]. split; [|done].
    destruct Ha as [Hb Hr Hs _ Hma _]. destruct (Hr id r E) as [(H0 & _ & Hc & Hend) Hw]. cbn in H0, Hc, Hend.
    destruct (Hs k g Hk) as (Hg0 & _ & Hgl & _). pose proof (Hma id k r g E Hk) as Hap. unfold sh_capacity in Hb.
    unfold as_slice. cbn [memory]. apply (slice_copy_apart _ _ _ (region_span g)); [lia|lia|done|done|].
    destruct Hap as [Hap|Hap]; cbn in Hap |- *; lia.
  - unfold seal in Hp. destruct (reservations a !! id) as [r|]; cbn in Hp; [|done]. left.
    destruct (negb _); cbn in Hp; injection Hp as <-; cbn; (split; [set_solver|by split]).
  - unfold seal_written in Hp. destruct (reservations a !! id) as [r|]; cbn in Hp; [|done]. injection Hp as <-. left. cbn.
    split; [set_solver|by split].
  - destruct (reservations a !! id); cbn in Hp; [|done]. injection Hp as <-. left. by repeat split.
Qed.
Lemma steps_sealed a a' g : arena_inv a -> g ∈ sealed a -> rtc arena_step a a' ->
  g ∈ sealed a' /\ as_slice g a' = as_slice g a /\ next_offset a <= next_offset a' /\ arena_inv a'.
Proof.
  intros Ha Hg Hsteps. induction Hsteps as [a|a b a' Hstep _ IH]; [by split_and!|].
  pose proof (arena_step_inv a b Ha Hstep) as Hb. destruct Hstep as [action Hnn Hp].
  destruct (perform_sealed a b action g Ha Hg Hp) as [(H1 & H2 & H3)|(id & n & c & s & -> & Hneg)].
  - destruct (IH Hb H1) as (? & -> & ? & ?). split_and!; try done. lia.
  - destruct (Hnn id n c s eq_refl). lia.
Qed.
Lemma create_inv initial generation a : arena_create initial generation = Ok a -> arena_inv a.
Proof.
  unfold arena_create, validate_parameters. destruct (_ =? 0); [done|]. destruct (_ =? 0); [done|].
  destruct (Z.ltb_spec MAX_TRANSFER_ARENA_BYTES (len initial)); cbn; [done|]. intros [= <-].
  split; cbn; unfold sh_capacity; cbn; try done; lia.
Qed.
Lemma steps_inv a a' : arena_inv a -> rtc arena_step a a' -> arena_inv a'.
Proof. intros Ha Hs. induction Hs; [done|]. by eauto using arena_step_inv. Qed.

(** The descriptor of a region on the control stream ([arena_resource] of executable_handoff.rs). *)
Definition arena_resource (resource_id : Z) (kind : ResourceKindV1) (region : SealedArenaRegion) : ResourceDescriptorV1 :=
  mkResource resource_id (resource_kind_tag kind) (rg_offset region) (rg_length region) None None.

(** C17: the regions of an arena.  However the threads of the parent interleave reserving, writing,
    sealing and dropping, with failed and stale exchanges of the counter, no byte of the arena is
    in two reservations or regions, each starts at a multiple of eight and lies in the used part;
    the descriptors of the sealed regions are what the receiver's validation accepts of ranges;
    and a region that was sealed keeps its bytes from then on. *)
Theorem arena_regions_safe initial generation a b : arena_create initial generation = Ok a -> rtc arena_step a b ->
  arena_inv b /\
  (forall kinds, resources_apart (imap (fun i g => arena_resource (Z.of_nat i + 1) (kinds i) g) (sealed b))) /\
  (forall g, g ∈ sealed b -> forall id kind, resource_range (Some (used (descriptor b))) (arena_resource id kind g) =
    Ok (rg_offset g + rg_length g)) /\
  (forall g c, g ∈ sealed b -> rtc arena_step b c -> g ∈ sealed c /\ as_slice g c = as_slice g b).
Proof.
  intros Hc Hsteps. pose proof (steps_inv a b (create_inv _ _ _ Hc) Hsteps) as Hb. split; [done|]. split; [|split].
  - intros kinds i j x y p Hx Hy Hpx Hpy. rewrite list_lookup_imap in Hx, Hy.
    destruct (sealed b !! i) as [g|] eqn:Eg; [|done]. destruct (sealed b !! j) as [h|] eqn:Eh; [|done].
    injection Hx as <-. injection Hy as <-. destruct (decide (i = j)); [done|]. exfalso.
    pose proof (inv_sealed_apart b Hb i j g h Eg Eh ltac:(done)) as Hap. unfold owns in Hpx, Hpy. unfold span_apart, region_span in Hap.
    cbn in *. lia.
  - intros g [k Hk]%list_elem_of_lookup id kind. destruct (inv_sealed b Hb k g Hk) as (H0 & _ & Hl & Hend). cbn in H0, Hl, Hend.
    destruct (inv_bounds b Hb) as [Hn Hcap]. unfold MAX_TRANSFER_ARENA_BYTES in Hcap.
    unfold resource_range, checked_add, arena_resource, descriptor. cbn [arena_offset arena_length used].
    rewrite (proj2 (Z.leb_le _ _)) by (unfold u64_max; lia). cbn. by rewrite (proj2 (Z.leb_le _ _)) by lia.
  - intros g c Hg Hbc. by destruct (steps_sealed b c g Hb Hg Hbc) as (? & ? & _).
Qed.

(** ** What the child reads *)

Definition action_sized (action : ArenaAction) : Prop :=
  match action with ActReserve _ n c _ => 0 <= n /\ 0 <= c | _ => True end.
(** The owner of the reservation keeps it. *)
Definition leaves (id : nat) (action : ArenaAction) : Prop :=
  match action with
  | ActReserve j _ _ _ | ActSeal j | ActSealWritten j | ActDrop j => j <> id
  | ActWrite _ _ => True
  end.
Fixpoint run (actions : list ArenaAction) (a : SharedTransferArena) : option SharedTransferArena :=
  match actions with [] => Some a | action :: actions => b ← perform action a; run actions b end.
(** The bytes of the writes to the reservation that were accepted. *)
Definition accepted_bytes (id : nat) (action : ArenaAction) (a : SharedTransferArena) : list byte :=
  match action with
  | ActWrite j buffer =>
      if decide (j = id) then match reservation_write j buffer a with Some (_, Ok _) => buffer | _ => [] end else []
  | _ => []
  end.
Fixpoint accepted (id : nat) (actions : list ArenaAction) (a : SharedTransferArena) : list byte :=
  match actions with
  | [] => []
  | action :: actions => accepted_bytes id action a ++ match perform action a with Some b => accepted id actions b | None => [] end
  end.

Definition content (r : ArenaReservation) (a : SharedTransferArena) : list byte := slice (rs_offset r) (rs_written r) (memory a).
Lemma write_content a b id r buffer res : arena_inv a -> reservations a !! id = Some r ->
  reservation_write id buffer a = Some (b, res) ->
  exists r', reservations b !! id = Some r' /\ rs_offset r' = rs_offset r /\ rs_capacity r' = rs_capacity r /\
    content r' b = content r a ++ match res with Ok _ => buffer | _ => [] end.
Proof.
  intros Ha E. unfold reservation_write. rewrite E. cbn. destruct (inv_reserved a Ha id r E) as [(H0 & _ & Hc & Hend) Hw].
  destruct (inv_bounds a Ha) as [Hn _]. cbn in H0, Hc, Hend. unfold sh_capacity in Hn.
  destruct (Z.ltb_spec (rs_capacity r - rs_written r) (len buffer)); [intros [= <- <-]; exists r; by rewrite app_nil_r|].
  destruct (Z.eqb_spec (len buffer) 0) as [Hz|]; intros [= <- <-].
  - exists r. destruct buffer; [by rewrite app_nil_r|cbn in Hz; lia].
  - eexists. split; [apply lookup_insert_eq|]. split; [done|]. split; [done|]. unfold content. cbn [rs_offset rs_written memory].
    apply slice_copy_extends; lia.
Qed.
Lemma perform_content a b id r action : arena_inv a -> reservations a !! id = Some r -> action_sized action -> leaves id action ->
  perform action a = Some b ->
  exists r', reservations b !! id = Some r' /\ rs_offset r' = rs_offset r /\ rs_capacity r' = rs_capacity r /\
    content r' b = content r a ++ accepted_bytes id action a.
Proof.
  intros Ha E Hsz Hl Hp. destruct action as [j n c s|j buffer|j|j|j]; cbn [perform leaves accepted_bytes action_sized] in *.
  - destruct (reservations a !! j); [done|]. destruct (reserve_round a n c); try done. unfold compare_exchange in Hp.
    destruct (s || _); [done|]. injection Hp as <-. exists r. cbn. rewrite lookup_insert_ne by done. by rewrite app_nil_r.
  - destruct (decide (j = id)) as [->|Hne].
    + destruct (reservation_write id buffer a) as [[a' res]|] eqn:Ew; [|done]. injection Hp as <-.
      destruct (write_content a a' id r buffer res Ha E Ew) as (r' & ? & ? & ? & Hcon). exists r'. split; [done|]. split; [done|]. split; [done|].
      rewrite Hcon. by destruct res.
    + unfold reservation_write in Hp. destruct (reservations a !! j) as [t|] eqn:Ej; cbn in Hp; [|done].
      destruct (Z.ltb_spec (rs_capacity t - rs_written t) (len buffer)); cbn in Hp; [injection Hp as <-; exists r; by rewrite app_nil_r|].
      destruct (len buffer =? 0); cbn in Hp; injection Hp as <-; exists r; [by rewrite app_nil_r|]. cbn. rewrite lookup_insert_ne by done.
      split_and!; try done. rewrite app_nil_r. unfold content. cbn [memory].
      destruct Ha as [Hb Hr _ Hra _ _]. destruct (Hr j t Ej) as [(H0 & _ & Hc & Hend) Hw]. destruct (Hr id r E) as [(G0 & _ & Gc & _) Gw].
      pose proof (Hra j id t r Ej E Hne) as Hap. unfold sh_capacity in Hb. cbn in H0, Hc, Hend, G0, Gc, Hap.
      apply (slice_copy_apart _ _ _ (rs_offset r, rs_written r)); cbn; try lia. destruct Hap as [Hap|Hap]; cbn in Hap; lia.
  - unfold seal in Hp. destruct (reservations a !! j) as [t|]; cbn in Hp; [|done].
    exists r. destruct (negb _); cbn in Hp; injection Hp as <-; cbn; rewrite lookup_delete_ne, app_nil_r by done; done.
  - unfold seal_written in Hp. destruct (reservations a !! j) as [t|]; cbn in Hp; [|done]. injection Hp as <-.
    exists r. cbn. by rewrite lookup_delete_ne, app_nil_r.
  - destruct (reservations a !! j); cbn in Hp; [|done]. injection Hp as <-. exists r. cbn. by rewrite lookup_delete_ne, app_nil_r.
Qed.
Lemma sized_step a b action : action_sized action -> perform action a = Some b -> arena_step a b.
Proof. intros Hs Hp. apply (ArenaStep a b action); [|done]. by intros id n c s ->. Qed.
Lemma run_content actions : forall a b id r, arena_inv a -> reservations a !! id = Some r -> Forall action_sized actions ->
  Forall (leaves id) actions -> run actions a = Some b ->
  exists r', reservations b !! id = Some r' /\ rs_offset r' = rs_offset r /\ rs_capacity r' = rs_capacity r /\
    content r' b = content r a ++ accepted id actions a /\ arena_inv b.
Proof.
  induction actions as [|action actions IH]; intros a b id r Ha E Hs Hl Hrun.
  - injection Hrun as <-. exists r. by rewrite app_nil_r.
  - apply Forall_cons in Hs as [Hs Hss]. apply Forall_cons in Hl as [Hl Hls]. cbn [run accepted] in *.
    destruct (perform action a) as [a1|] eqn:Ep; cbn in Hrun; [|done].
    destruct (perform_content a a1 id r action Ha E Hs Hl Ep) as (r1 & E1 & Ho1 & Hc1 & Hcon1).
    destruct (IH a1 b id r1 (arena_step_inv _ _ Ha (sized_step _ _ _ Hs Ep)) E1 Hss Hls Hrun) as (r' & ? & ? & ? & Hcon & ?).
    exists r'. split_and!; [done|congruence|congruence| |done]. by rewrite Hcon, Hcon1, app_assoc.
Qed.

(** C13: what the child reads is what the parent wrote.  The owner of a fresh reservation writes to
    it, in any interleaving with the other threads, and seals it, wholly or the written part;
    whatever happens to the arena then, a child whose published prefix reaches to the end of what
    was in use reads in the region exactly the bytes of the accepted writes, in their order. *)
Theorem arena_carries_bytes initial generation a id r actions b c g d reader :
  (exists a0, arena_create initial generation = Ok a0 /\ rtc arena_step a0 a) ->
  reservations a !! id = Some r -> rs_written r = 0 ->
  Forall action_sized actions -> Forall (leaves id) actions -> run actions a = Some b ->
  (seal id b = Some (c, Ok g) \/ seal_written id b = Some (c, g)) -> rtc arena_step c d ->
  used (descriptor c) <= published reader ->
  region (memory d) (rg_offset g) (rg_length g) reader = Ok (accepted id actions a).
Proof.
  intros (a0 & Hcreate & Hreach) E H0 Hs Hl Hrun Hseal Hcd Hpub.
  pose proof (steps_inv _ _ (create_inv _ _ _ Hcreate) Hreach) as Ha.
  destruct (run_content actions a b id r Ha E Hs Hl Hrun) as (r' & E' & _ & _ & Hcon & Hb).
  assert (Hg : g = mkRegion (rs_offset r') (rs_written r') /\ arena_step b c /\ memory c = memory b /\ g ∈ sealed c).
  { destruct Hseal as [Hseal|Hseal].
    - assert (Hstep : arena_step b c) by (apply (ArenaStep b c (ActSeal id)); [done|]; cbn; by rewrite Hseal).
      unfold seal in Hseal. rewrite E' in Hseal. cbn in Hseal. destruct (Z.eqb_spec (rs_written r') (rs_capacity r')) as [Hw|]; cbn in Hseal; [|done].
      injection Hseal as <- <-. split; [by rewrite Hw|]. split; [done|]. split; [done|]. cbn. set_solver.
    - assert (Hstep : arena_step b c) by (apply (ArenaStep b c (ActSealWritten id)); [done|]; cbn; by rewrite Hseal).
      unfold seal_written in Hseal. rewrite E' in Hseal. cbn in Hseal. injection Hseal as <- <-. split; [done|]. split; [done|]. split; [done|]. cbn. set_solver. }
  destruct Hg as (Eg & Hstep & Hmem & Hin). pose proof (arena_step_inv _ _ Hb Hstep) as Hc.
  destruct (steps_sealed c d g Hc Hin Hcd) as (_ & Has & _ & _).
  apply list_elem_of_lookup in Hin as [k Hk]. destruct (inv_sealed c Hc k g Hk) as (G0 & _ & Gl & Gend). cbn in G0, Gl, Gend, Hpub.
  destruct (inv_bounds c Hc) as [Hn Hcap]. unfold MAX_TRANSFER_ARENA_BYTES in Hcap.
  unfold region, checked_add. rewrite (proj2 (Z.leb_le _ _)) by (unfold usize_max, u64_max; lia).
  rewrite (proj2 (Z.ltb_ge _ _)) by lia. f_equal. change (as_slice g d = accepted id actions a). rewrite Has. unfold as_slice. rewrite Hmem, Eg.
  change (content r' b = accepted id actions a). rewrite Hcon. unfold content. by rewrite H0.
Qed.

(** ** A concrete arena *)

Definition sample_created : SharedTransferArena := mkShared (replicate 64 Byte.x00) 0 1 ∅ [].
Definition sample_reserved : SharedTransferArena :=
  mkShared (replicate 64 Byte.x00) 10 1 {[0%nat := mkReservation 0 10 0]} [].
Definition sample_actions : list ArenaAction :=
  [ActWrite 0 [Byte.x01; Byte.x02]; ActReserve 1 8 10 false; ActWrite 1 [Byte.x09]; ActWrite 0 [Byte.x03]; ActSealWritten 1].
Lemma sample_reserved_reached : rtc arena_step sample_created sample_reserved.
Proof.
  apply rtc_once. apply (ArenaStep _ _ (ActReserve 0 10 0 false)); [by intros ? ? ? ? [= <- <- <- <-]|vm_compute; reflexivity].
Qed.
Lemma arena_regions_safe_witness :
  exists b, rtc arena_step sample_created b /\ sealed b = [mkRegion 0 0] /\ arena_inv b /\
    (forall g c, g ∈ sealed b -> rtc arena_step b c -> g ∈ sealed c /\ as_slice g c = as_slice g b).
Proof.
  exists (publish 0 (mkRegion 0 0) sample_reserved).
  assert (Hr : rtc arena_step sample_created (publish 0 (mkRegion 0 0) sample_reserved)).
  { eapply rtc_r; [apply sample_reserved_reached|]. by apply (ArenaStep _ _ (ActSealWritten 0)). }
  split; [exact Hr|]. split; [reflexivity|].
  destruct (arena_regions_safe (replicate 64 Byte.x00) 1 sample_created _ eq_refl Hr) as (Hi & _ & _ & Hs). by split.
Defined.
Definition sample_final : SharedTransferArena :=
  match run sample_actions sample_reserved with Some b => b | None => sample_created end.
Definition sample_sealed : SharedTransferArena :=
  match seal_written 0 sample_final with Some (c, _) => c | None => sample_created end.
Lemma arena_carries_bytes_witness :
  region (memory sample_sealed) 0 3 (mkReader 64 24 1) = Ok (accepted 0 sample_actions sample_reserved) /\
  accepted 0 sample_actions sample_reserved = [Byte.x01; Byte.x02; Byte.x03].
Proof.
  split; [|vm_compute; reflexivity].
  apply (arena_carries_bytes (replicate 64 Byte.x00) 1 sample_reserved 0 (mkReservation 0 10 0) sample_actions sample_final
    sample_sealed (mkRegion 0 3) sample_sealed (mkReader 64 24 1)).
  - exists sample_created. split; [reflexivity|apply sample_reserved_reached].
  - reflexivity.
  - reflexivity.
  - repeat constructor; vm_compute; discriminate.
  - repeat constructor; discriminate.
  - vm_compute. reflexivity.
  - right. vm_compute. reflexivity.
  - apply rtc_refl.
  - vm_compute. discriminate.
Defined.
