(* ===== verification/HandoffCutover.v ===== *)
(** * The cut-over of an executable handoff
    ([apps/revy-server/src/executable_handoff.rs], main.rs,
    [crates/runtime/revy-server-runtime/src/runtime/executable.rs])

    A running server starts its successor, sends it the state while it goes on serving, freezes,
    sends the rest and hands over its authority with [Commit].  The two processes as a step
    relation over the two directions of their control stream, which delivers in order
    ([HandoffStream]).  What the runtime of a process answers to the operations that the handoff
    calls (staging, encoding, importing, booting) is an argument of a step; every step takes any
    answer, any message may fail to be sent, and the child may die at any time.  Of the core and of
    the session directory their revisions are kept.

    A read that a timeout cancels is taken to have consumed nothing: what such a read leaves of a
    half-read envelope is not modelled. *)

From stdpp Require Import finite sorting.
From S2P Require Import Prelude Bytes HandoffMessages.

Definition CORE_PRESTAGE_ROUND_LIMIT : nat := 32.
Definition CORE_FREEZE_ADMISSION_COMMIT_LAG : Z := 256.

(** ** The two processes *)

Inductive ParentRetirement : Set := RetiredCommitted | RetiredUncertain | RetiredFailClosed.
(** Where [upgrade] stands; the revisions are those that are awaited. *)
Inductive ParentPhase : Set :=
| ParentAwaitHello
| ParentAwaitInitial (core directory : Z)
| ParentAwaitRound (rounds_left : nat) (core directory : Z)
| ParentAwaitFinal (core directory : Z)
| ParentAwaitCommitted (child_epoch : Z)
| ParentAwaitStatus (child_epoch : Z)
| ParentAwaitReport (child_epoch : Z)
| ParentRestored
| ParentRetired (how : ParentRetirement).
(** [try_prepare_executable_child], the activation in main.rs, the task of [report_committed]. *)
Inductive ChildPhase : Set :=
| ChildStarting
| ChildAwaitBootstrap
| ChildAwaitFirst
| ChildPrestaging
| ChildAwaitCommit
| ChildBooted (epoch : Z)
| ChildActivated (epoch : Z)
| ChildReported (epoch resume_duration_us : Z) (report_published : bool)
| ChildDead.
Record World : Type := mkWorld {
  parent : ParentPhase; parent_core : Z; parent_directory : Z; parent_epoch : Z;
  to_child : list Payload; to_parent : list Payload;
  child : ChildPhase; child_core : Z; child_directory : Z
}.
Definition set_parent v (w : World) := mkWorld v (parent_core w) (parent_directory w) (parent_epoch w) (to_child w) (to_parent w) (child w) (child_core w) (child_directory w).
Definition set_to_child v (w : World) := mkWorld (parent w) (parent_core w) (parent_directory w) (parent_epoch w) v (to_parent w) (child w) (child_core w) (child_directory w).
Definition set_to_parent v (w : World) := mkWorld (parent w) (parent_core w) (parent_directory w) (parent_epoch w) (to_child w) v (child w) (child_core w) (child_directory w).
Definition set_child v (w : World) := mkWorld (parent w) (parent_core w) (parent_directory w) (parent_epoch w) (to_child w) (to_parent w) v (child_core w) (child_directory w).
Definition set_child_state core directory (w : World) := mkWorld (parent w) (parent_core w) (parent_directory w) (parent_epoch w) (to_child w) (to_parent w) (child w) core directory.
Definition set_parent_state core directory (w : World) := mkWorld (parent w) core directory (parent_epoch w) (to_child w) (to_parent w) (child w) (child_core w) (child_directory w).

(** Who runs the data plane.  A parent that is frozen does not, and one that has retired never
    does again. *)
Definition parent_serves (w : World) : bool :=
  match parent w with
  | ParentAwaitHello | ParentAwaitInitial _ _ | ParentAwaitRound _ _ _ | ParentRestored => true
  | _ => false
  end.
Definition child_serves (w : World) : bool :=
  match child w with ChildActivated _ | ChildReported _ _ _ => true | _ => false end.
(** The child has taken the authority that [Commit] carries. *)
Definition child_committed (w : World) : bool :=
  match child w with ChildBooted _ | ChildActivated _ | ChildReported _ _ _ => true | _ => false end.

(** A send succeeds, or fails; one that fails may still have been written. *)
Inductive Sent : Set := SentOk | SentLost | SentUnreported.
Definition sent_ok (s : Sent) : bool := match s with SentOk => true | _ => false end.
Definition deliver (s : Sent) (p : Payload) (queue : list Payload) : list Payload :=
  match s with SentLost => queue | _ => queue ++ [p] end.
Definition send_child (s : Sent) (p : Payload) (w : World) : World := set_to_child (deliver s p (to_child w)) w.
Definition send_parent (s : Sent) (p : Payload) (w : World) : World := set_to_parent (deliver s p (to_parent w)) w.

(** ** The parent *)

(** What the parent's runtime answers. *)
Record ParentAnswers : Type := mkParentAnswers {
  (** sockets, surfaces and resources are ready: the bootstrap, and whether the handles were passed *)
  an_bootstrap : option BootstrapV1; an_native : bool;
  an_snapshot_revision : Z; an_directory_revision : Z;
  an_resources : list ResourceDescriptorV1; an_arena_used : Z;
  (** [prestage_core] *)
  an_update : option Z;
  (** [freeze], when the directory is the acknowledged one *)
  an_freezes : bool;
  (** the other fields of [Commit] *)
  an_commit : CommitV1;
  an_commit_sent : bool; an_committed : bool; an_freeze_us : Z;
  an_send : Sent; an_send_again : Sent
}.
(** The errors before the commit: the child is terminated and the runtime resumes. *)
Definition roll_back (w : World) : World := set_parent ParentRestored (set_child ChildDead w).
Definition retire (how : ParentRetirement) (w : World) : World := set_parent (ParentRetired how) w.

Definition prestage_message (phase : PrestagePhaseV1) (core directory : Z) (an : ParentAnswers) : Payload :=
  Prestage (mkPrestage core directory (an_resources an) (an_arena_used an) (phase_tag phase)).
(** After [receive_hello]: [prepare_child_and_freeze] up to the first [expect_ready]. *)
Definition prepare_child (an : ParentAnswers) (w : World) : World :=
  match an_bootstrap an with
  | None => roll_back w
  | Some bootstrap =>
      let w := send_child (an_send an) (Bootstrap bootstrap) w in
      if negb (sent_ok (an_send an)) || negb (an_native an) then roll_back w
      else
        let core := an_snapshot_revision an in
        let directory := an_directory_revision an in
        let w := send_child (an_send_again an) (prestage_message Preparing core directory an) w in
        if negb (sent_ok (an_send_again an)) then roll_back w else set_parent (ParentAwaitInitial core directory) w
  end.
(** A turn of the loop over the core updates. *)
Definition prestage_round (an : ParentAnswers) (rounds : nat) (directory : Z) (w : World) : World :=
  match rounds with
  | O => roll_back w
  | S rounds =>
      match an_update an with
      | None => roll_back w
      | Some core =>
          let w := send_child (an_send an) (prestage_message Preparing core directory an) w in
          if negb (sent_ok (an_send an)) then roll_back w else set_parent (ParentAwaitRound rounds core directory) w
      end
  end.
(** The freeze seals the core as it is. *)
Definition freeze_parent (an : ParentAnswers) (directory : Z) (w : World) : World :=
  if negb (parent_directory w =? directory) || negb (an_freezes an) then roll_back w
  else
    let core := parent_core w in
    let w := send_child (an_send an) (prestage_message Frozen core directory an) w in
    if negb (sent_ok (an_send an)) then roll_back w else set_parent (ParentAwaitFinal core directory) w.
Definition commit_message (core directory epoch : Z) (an : ParentAnswers) : CommitV1 :=
  let m := an_commit an in
  mkCommit core directory epoch (persisted_core_revision m) (latest_dirty_core_revision m) (stage_duration_us m)
    (prepare_duration_us m) (session_count m) (java_session_count m) (bedrock_session_count m).
Definition commit_child (an : ParentAnswers) (core directory : Z) (w : World) : World :=
  match checked_add u64_max (parent_epoch w) 1 with
  | None => roll_back w
  | Some child_epoch =>
      if negb (an_commit_sent an) then retire RetiredFailClosed (set_child ChildDead w)
      else
        let w := send_child (an_send an) (Commit (commit_message core directory (parent_epoch w) an)) w in
        if negb (sent_ok (an_send an)) then retire RetiredUncertain w else set_parent (ParentAwaitCommitted child_epoch) w
  end.
(** [pending_parent.committed] and the sending of the report. *)
Definition child_has_committed (an : ParentAnswers) (child_epoch : Z) (w : World) : World :=
  if negb (an_committed an) then retire RetiredFailClosed w
  else
    let w := send_child (an_send an) (Status (mkStatus (Some (FinalizeReport child_epoch (an_freeze_us an))))) w in
    if negb (sent_ok (an_send an)) then retire RetiredCommitted w else set_parent (ParentAwaitReport child_epoch) w.

(** [expect_ready] *)
Definition is_ready (core directory : Z) (p : Payload) : bool :=
  match p with
  | Ready m => (acknowledged_core_revision m =? core) && (acknowledged_directory_revision m =? directory)
  | _ => false
  end.
(** A message arrives; [hello_matches] says that the token and the process are the expected ones. *)
Definition parent_receives (an : ParentAnswers) (hello_matches : HelloV1 -> bool) (p : Payload) (w : World) : World :=
  match parent w with
  | ParentAwaitHello => match p with Hello m => if hello_matches m then prepare_child an w else roll_back w | _ => roll_back w end
  | ParentAwaitInitial core directory =>
      if is_ready core directory p then prestage_round an CORE_PRESTAGE_ROUND_LIMIT directory w else roll_back w
  | ParentAwaitRound rounds core directory =>
      if negb (is_ready core directory p) then roll_back w
      else if saturating_sub (parent_core w) core <=? CORE_FREEZE_ADMISSION_COMMIT_LAG then freeze_parent an directory w
      else prestage_round an rounds directory w
  | ParentAwaitFinal core directory => if is_ready core directory p then commit_child an core directory w else roll_back w
  | ParentAwaitCommitted epoch =>
      match p with
      | Committed m => if child_epoch_revision m =? epoch then child_has_committed an epoch w else retire RetiredUncertain w
      | _ => retire RetiredUncertain w
      end
  | ParentAwaitStatus epoch =>
      match p with
      | Status (mkStatus (Some (StatusCommitted e _ _))) => if e =? epoch then child_has_committed an epoch w else retire RetiredUncertain w
      | _ => retire RetiredUncertain w
      end
  | ParentAwaitReport _ => retire RetiredCommitted w
  | ParentRestored | ParentRetired _ => w
  end.
(** [CONTROL_TIMEOUT]; there is none for [Hello]. *)
Definition parent_times_out (an : ParentAnswers) (w : World) : option World :=
  match parent w with
  | ParentAwaitInitial _ _ | ParentAwaitRound _ _ _ | ParentAwaitFinal _ _ => Some (roll_back w)
  | ParentAwaitCommitted epoch =>
      let w := send_child (an_send an) (Status (mkStatus (Some (Query epoch)))) w in
      Some (if negb (sent_ok (an_send an)) then retire RetiredUncertain w else set_parent (ParentAwaitStatus epoch) w)
  | ParentAwaitStatus _ => Some (retire RetiredUncertain w)
  | ParentAwaitReport _ => Some (retire RetiredCommitted w)
  | ParentAwaitHello | ParentRestored | ParentRetired _ => None
  end.
(** The stream fails, or holds an envelope that is not accepted. *)
Definition parent_loses_stream (w : World) : option World :=
  match parent w with
  | ParentAwaitHello | ParentAwaitInitial _ _ | ParentAwaitRound _ _ _ | ParentAwaitFinal _ _ => Some (roll_back w)
  | ParentAwaitCommitted _ | ParentAwaitStatus _ => Some (retire RetiredUncertain w)
  | ParentAwaitReport _ => Some (retire RetiredCommitted w)
  | ParentRestored | ParentRetired _ => None
  end.

(** ** The child *)

(** What the child's runtime answers: whether the rest of the operation succeeds, and the revisions
    of the core and of the directory that the resources of a message hold, if they hold one. *)
Record ChildAnswers : Set := mkChildAnswers {
  ca_ok : bool; ca_core : option Z; ca_directory : option Z;
  ca_resume_us : Z; ca_send : Sent; ca_send_error : Sent
}.
Definition report_error (reason : TransferErrorCodeV1) (an : ChildAnswers) (w : World) : World :=
  set_child ChildDead (send_parent (ca_send_error an) (Error (mkError (error_code_tag reason) "")) w).
Definition refuse_transfer : ChildAnswers -> World -> World := report_error CodeResourceImportFailed.
(** [ExecutableChildPrepared::prestage] *)
Definition child_prestage (m : PrestageV1) (an : ChildAnswers) (w : World) : option World :=
  let next_core := default (child_core w) (ca_core an) in
  if next_core <? child_core w then None
  else if negb (next_core =? core_revision m) then None
  else
    let next_directory := default (child_directory w) (ca_directory an) in
    if negb (next_directory =? directory_revision m) then None
    else if negb (ca_ok an) then None else Some (set_child_state next_core next_directory w).
(** [ExecutableChildImported::commit], with the boot that follows it; the other checks are the
    answer. *)
Definition child_commit (m : CommitV1) (an : ChildAnswers) (w : World) : option World :=
  if negb (child_core w =? final_core_revision m) then None
  else if negb (child_directory w =? final_directory_revision m) then None
  else if negb (ca_ok an) then None
  else
    match checked_add u64_max (parent_epoch_revision m) 1 with
    | None => None
    | Some child_epoch => Some (set_child (ChildBooted child_epoch) w)
    end.
Definition send_ready (core directory : Z) (next : ChildPhase) (an : ChildAnswers) (w : World) : World :=
  let w := send_parent (ca_send an) (Ready (mkReady core directory)) w in
  if sent_ok (ca_send an) then set_child next w else refuse_transfer an w.

(** [prepare_transferred_child], a message at a time. *)
Definition child_bootstrap (p : Payload) (an : ChildAnswers) (w : World) : World :=
  match p with
  | Bootstrap m =>
      if ca_ok an && bool_decide (is_Some (arena m))
      then set_child ChildAwaitFirst (set_child_state (default 0 (ca_core an)) (default 0 (ca_directory an)) w)
      else refuse_transfer an w
  | _ => refuse_transfer an w
  end.
Definition child_first (p : Payload) (an : ChildAnswers) (w : World) : World :=
  match p with
  | Prestage m =>
      if negb (phase m =? phase_tag Preparing) then refuse_transfer an w
      else
        match child_prestage m an w with
        | None => refuse_transfer an w
        | Some w => send_ready (child_core w) (child_directory w) ChildPrestaging an w
        end
  | _ => refuse_transfer an w
  end.
Definition child_prestaging (p : Payload) (an : ChildAnswers) (imports : bool) (w : World) : World :=
  match p with
  | Prestage m =>
      match child_prestage m an w with
      | None => refuse_transfer an w
      | Some w =>
          match phase_of (phase m) with
          | Some Preparing => send_ready (child_core w) (child_directory w) ChildPrestaging an w
          | Some Frozen =>
              if imports then send_ready (core_revision m) (directory_revision m) ChildAwaitCommit an w
              else refuse_transfer an w
          | _ => refuse_transfer an w
          end
      end
  | _ => refuse_transfer an w
  end.
Definition child_await_commit (p : Payload) (an : ChildAnswers) (w : World) : World :=
  match p with
  | Commit m => default (refuse_transfer an w) (child_commit m an w)
  | _ => refuse_transfer an w
  end.
(** The task of [report_committed]. *)
Definition child_status (p : Payload) (an : ChildAnswers) (epoch resume_us : Z) (published : bool) (w : World) : World :=
  let answer published :=
    send_parent (ca_send an) (Status (mkStatus (Some (StatusCommitted epoch resume_us published))))
      (set_child (ChildReported epoch resume_us published) w) in
  match p with
  | Status (mkStatus (Some (Query e))) => if e =? epoch then answer published else w
  | Status (mkStatus (Some (FinalizeReport e _))) => if e =? epoch then answer true else w
  | _ => w
  end.
Definition child_receives (an : ChildAnswers) (imports : bool) (p : Payload) (w : World) : option World :=
  match child w with
  | ChildAwaitBootstrap => Some (child_bootstrap p an w)
  | ChildAwaitFirst => Some (child_first p an w)
  | ChildPrestaging => Some (child_prestaging p an imports w)
  | ChildAwaitCommit => Some (child_await_commit p an w)
  | ChildReported epoch resume_us published => Some (child_status p an epoch resume_us published w)
  | ChildStarting | ChildBooted _ | ChildActivated _ | ChildDead => None
  end.
(** What the child does without waiting for a message: its [Hello], the activation of its runtime,
    the start of the process around it and the acknowledgement of the commit. *)
Definition child_acts (an : ChildAnswers) (hello : HelloV1) (w : World) : option World :=
  match child w with
  | ChildStarting =>
      let w := send_parent (ca_send an) (Hello hello) w in
      Some (set_child (if sent_ok (ca_send an) then ChildAwaitBootstrap else ChildDead) w)
  | ChildBooted epoch => Some (set_child (if ca_ok an then ChildActivated epoch else ChildDead) w)
  | ChildActivated epoch =>
      if negb (ca_ok an) then Some (report_error CodeCommitRejected an w)
      else
        let w := send_parent (ca_send an) (Committed (mkCommitted epoch (ca_resume_us an))) w in
        Some (set_child (if sent_ok (ca_send an) then ChildReported epoch (ca_resume_us an) false else ChildDead) w)
  | _ => None
  end.
(** [receive] fails: while the transfer is prepared that is an error; later the task ends. *)
Definition child_loses_stream (an : ChildAnswers) (w : World) : option World :=
  match child w with
  | ChildAwaitBootstrap | ChildAwaitFirst | ChildPrestaging | ChildAwaitCommit => Some (refuse_transfer an w)
  | _ => None
  end.

(** ** The runs of the two processes *)

Inductive Event : Type :=
| EvParentReceives (an : ParentAnswers) (hello_matches : HelloV1 -> bool)
| EvParentTimesOut (an : ParentAnswers)
| EvParentLosesStream
| EvParentServes (core directory : Z)
| EvChildReceives (an : ChildAnswers) (imports : bool)
| EvChildActs (an : ChildAnswers) (hello : HelloV1)
| EvChildLosesStream (an : ChildAnswers)
| EvChildDies.
(** A parent that has ended its upgrade reads no more. *)
Definition parent_listens (w : World) : bool :=
  match parent w with ParentRestored | ParentRetired _ => false | _ => true end.
(** A parent that serves commits changes to its core, whose revision does not go back. *)
Definition parent_advances (core directory : Z) (w : World) : option World :=
  if parent_serves w && (parent_core w <=? core) then Some (set_parent_state core directory w) else None.
Definition run_event (ev : Event) (w : World) : option World :=
  match ev with
  | EvParentReceives an hello_matches =>
      match to_parent w with
      | p :: rest => if parent_listens w then Some (parent_receives an hello_matches p (set_to_parent rest w)) else None
      | [] => None
      end
  | EvParentTimesOut an => parent_times_out an w
  | EvParentLosesStream => parent_loses_stream w
  | EvParentServes core directory => parent_advances core directory w
  | EvChildReceives an imports =>
      match to_child w with
      | p :: rest => child_receives an imports p (set_to_child rest w)
      | [] => None
      end
  | EvChildActs an hello => child_acts an hello w
  | EvChildLosesStream an => child_loses_stream an w
  | EvChildDies => Some (set_child ChildDead w)
  end.
Definition cutover_step (w w' : World) : Prop := exists ev, run_event ev w = Some w'.
(** The child process has been started; nothing has been sent. *)
Definition child_started (core directory epoch : Z) : World :=
  mkWorld ParentAwaitHello core directory epoch [] [] ChildStarting 0 0.
Definition cutover_reaches (w : World) : Prop :=
  exists core directory epoch, rtc cutover_step (child_started core directory epoch) w.
Fixpoint run_events (evs : list Event) (w : World) : option World :=
  match evs with
  | [] => Some w
  | ev :: evs => match run_event ev w with Some w => run_events evs w | None => None end
  end.

(** ** The authority that [Commit] carries *)

(** The parent has sent [Commit], or given up for good: it does not serve any more. *)
Definition after_commit (p : ParentPhase) : bool :=
  match p with
  | ParentAwaitCommitted _ | ParentAwaitStatus _ | ParentAwaitReport _ | ParentRetired _ => true
  | _ => false
  end.
Definition holds_parents_state (core directory : Z) (w : World) : Prop := core = parent_core w /\ directory = parent_directory w.
(** What the child was sent with [Commit], and what it holds when it has committed, is what the
    parent holds. *)
Record authority_fits (w : World) : Prop := mkAuthorityFits {
  af_commits : forall m, Commit m ∈ to_child w ->
    after_commit (parent w) = true /\ holds_parents_state (final_core_revision m) (final_directory_revision m) w;
  af_committed : child_committed w = true ->
    after_commit (parent w) = true /\ holds_parents_state (child_core w) (child_directory w) w;
  af_final : forall core directory, parent w = ParentAwaitFinal core directory -> holds_parents_state core directory w
}.
Definition is_commit (p : Payload) : bool := match p with Commit _ => true | _ => false end.

Lemma elem_of_deliver p s q queue : p ∈ deliver s q queue -> p ∈ queue \/ p = q.
Proof. destruct s; cbn; rewrite ?elem_of_app, ?list_elem_of_singleton; naive_solver. Qed.
Lemma after_commit_not_serving w : after_commit (parent w) = true -> parent_serves w = false.
Proof. unfold parent_serves; destruct (parent w); easy. Qed.
Lemma child_serves_committed w : child_serves w = true -> child_committed w = true.
Proof. unfold child_serves, child_committed; destruct (child w); easy. Qed.

(** The transformations that keep the authority. *)
Lemma authority_initial core directory epoch : authority_fits (child_started core directory epoch).
Proof. split; cbn; [intros m Hm%elem_of_nil|easy|easy]; easy. Qed.
Lemma authority_child_dead w : authority_fits w -> authority_fits (set_child ChildDead w).
Proof. intros [H1 _ H3]. split; easy. Qed.
Lemma authority_to_parent queue w : authority_fits w -> authority_fits (set_to_parent queue w).
Proof. intros []. split; easy. Qed.
Lemma authority_send_parent s p w : authority_fits w -> authority_fits (send_parent s p w).
Proof. apply authority_to_parent. Qed.
Lemma authority_received p rest w : to_child w = p :: rest -> authority_fits w -> authority_fits (set_to_child rest w).
Proof.
  intros Hq [H1 H2 H3]. split; [|easy|easy].
  intros m Hm. apply H1. rewrite Hq. now right.
Qed.
Lemma authority_send_child s p w : is_commit p = false -> authority_fits w -> authority_fits (send_child s p w).
Proof.
  intros Hp [H1 H2 H3]. split; [|easy|easy].
  intros m [Hm| <-]%elem_of_deliver; [now apply H1|easy].
Qed.
(** A phase before the commit follows a phase before the commit; a phase after it may follow any. *)
Lemma authority_set_parent p w :
  (after_commit (parent w) = true -> after_commit p = true) ->
  (forall core directory, p = ParentAwaitFinal core directory -> holds_parents_state core directory w) ->
  authority_fits w -> authority_fits (set_parent p w).
Proof.
  intros Hp Hf [H1 H2 H3]. split; [| |easy].
  - intros m Hm. destruct (H1 m Hm) as [Ha Hs]. split; [now apply Hp|exact Hs].
  - intros Hc. destruct (H2 Hc) as [Ha Hs]. split; [now apply Hp|exact Hs].
Qed.
Lemma authority_child_uncommitted c core directory w :
  child_committed (set_child c w) = false -> authority_fits w ->
  authority_fits (set_child c (set_child_state core directory w)).
Proof. intros Hc [H1 H2 H3]. split; [easy| |easy]. intros Hc'. exfalso. clear - Hc Hc'. destruct c; easy. Qed.
Lemma authority_set_child c w : child_committed (set_child c w) = false -> authority_fits w -> authority_fits (set_child c w).
Proof. intros Hc [H1 H2 H3]. split; [easy| |easy]. intros Hc'. congruence. Qed.
(** Only a parent that is past its prestaging sends [Commit]. *)
Lemma authority_send_commit s m w :
  holds_parents_state (final_core_revision m) (final_directory_revision m) w -> after_commit (parent w) = true ->
  authority_fits w -> authority_fits (send_child s (Commit m) w).
Proof.
  intros Hs Ha [H1 H2 H3]. split; [|easy|easy].
  intros m' [Hm|[= ->]]%elem_of_deliver; [now apply H1|easy].
Qed.
(** Before the commit a child that has committed contradicts the authority. *)
Lemma authority_serving_moves core directory w :
  parent_serves w = true -> (forall c d, parent w <> ParentAwaitFinal c d) -> authority_fits w -> authority_fits (set_parent_state core directory w).
Proof.
  intros Hs Hf [H1 H2 H3].
  assert (Ha : after_commit (parent w) = false) by (unfold parent_serves in Hs; destruct (parent w); easy).
  split; cbn [parent set_parent_state]; [intros m Hm; destruct (H1 m Hm)|intros Hc; destruct (H2 Hc)|intros c d Hp; now destruct (Hf c d)]; congruence.
Qed.

(** *** The operations *)

Lemma authority_roll_back w : after_commit (parent w) = false -> authority_fits w -> authority_fits (roll_back w).
Proof. intros Ha Hw. apply authority_set_parent; [cbn; congruence|easy|]. now apply authority_child_dead. Qed.
Lemma authority_retire how w : authority_fits w -> authority_fits (retire how w).
Proof. intros Hw. now apply authority_set_parent. Qed.
#[local] Hint Resolve authority_roll_back authority_retire authority_child_dead authority_send_parent authority_send_child : authority.

Lemma authority_prepare_child an w : after_commit (parent w) = false -> authority_fits w -> authority_fits (prepare_child an w).
Proof.
  intros Ha Hw. unfold prepare_child. destruct (an_bootstrap an); [|auto with authority].
  destruct (negb _ || _); [auto with authority|]. cbv zeta.
  destruct (negb _); [auto with authority|]. apply authority_set_parent; [cbn; congruence|easy|auto with authority].
Qed.
Lemma authority_prestage_round an rounds directory w :
  after_commit (parent w) = false -> authority_fits w -> authority_fits (prestage_round an rounds directory w).
Proof.
  intros Ha Hw. destruct rounds; cbn; [auto with authority|]. destruct (an_update an); [|auto with authority].
  destruct (negb _); [auto with authority|]. apply authority_set_parent; [cbn; congruence|easy|auto with authority].
Qed.
Lemma authority_freeze_parent an directory w :
  after_commit (parent w) = false -> authority_fits w -> authority_fits (freeze_parent an directory w).
Proof.
  intros Ha Hw. unfold freeze_parent. destruct (_ =? _) eqn:Hd; cbn [negb orb]; [|auto with authority].
  destruct (negb _); [auto with authority|]. cbv zeta. destruct (negb _); [auto with authority|].
  apply authority_set_parent; [cbn; congruence| |auto with authority].
  intros c d [= <- <-]. apply Z.eqb_eq in Hd. easy.
Qed.
Lemma authority_commit_child an core directory w :
  after_commit (parent w) = false -> holds_parents_state core directory w -> authority_fits w ->
  authority_fits (commit_child an core directory w).
Proof.
  intros Ha Hs Hw. unfold commit_child. destruct (checked_add _ _ _) as [epoch|]; [|auto with authority].
  destruct (negb _); [auto with authority|]. cbv zeta.
  set (m := commit_message _ _ _ _).
  assert (Hsent : forall p, after_commit p = true -> (forall c d, p <> ParentAwaitFinal c d) ->
            authority_fits (set_parent p (send_child (an_send an) (Commit m) w))).
  { intros p Hp Hf. change (authority_fits (send_child (an_send an) (Commit m) (set_parent p w))).
    apply authority_send_commit; [exact Hs|exact Hp|]. apply authority_set_parent; [easy| |easy].
    intros c d He. now destruct (Hf c d). }
  destruct (negb _); now apply Hsent.
Qed.
Lemma authority_child_has_committed an epoch w : authority_fits w -> authority_fits (child_has_committed an epoch w).
Proof.
  intros Hw. unfold child_has_committed. destruct (negb _); [auto with authority|]. cbv zeta.
  destruct (negb _); [auto with authority|]. apply authority_set_parent; [easy|easy|auto with authority].
Qed.
#[local] Hint Resolve authority_prepare_child authority_prestage_round authority_freeze_parent authority_child_has_committed : authority.

Lemma authority_parent_receives an hello_matches p w : authority_fits w -> authority_fits (parent_receives an hello_matches p w).
Proof.
  intros Hw. unfold parent_receives. destruct (parent w) as [|c d|rounds c d|c d|e|e|e| |] eqn:Hp.
  all: assert (Ha := f_equal after_commit Hp); cbn in Ha.
  - destruct p; auto with authority. destruct (hello_matches m); auto with authority.
  - destruct (is_ready c d p); auto with authority.
  - destruct (is_ready c d p); cbn [negb]; [|auto with authority]. destruct (_ <=? _); auto with authority.
  - destruct (is_ready c d p); [|auto with authority]. apply authority_commit_child; [easy| |easy]. now apply (af_final w Hw).
  - destruct p; auto with authority. destruct (_ =? _); auto with authority.
  - destruct p as [| | | | | |[[[]|]]| |]; auto with authority. destruct (_ =? _); auto with authority.
  - auto with authority.
  - easy.
  - easy.
Qed.
Lemma authority_parent_times_out an w w' : parent_times_out an w = Some w' -> authority_fits w -> authority_fits w'.
Proof.
  unfold parent_times_out. intros Ht Hw. destruct (parent w) eqn:Hp; try discriminate Ht.
  all: assert (Ha := f_equal after_commit Hp); cbn in Ha; injection Ht as <-; auto with authority.
  destruct (negb _); [auto with authority|]. apply authority_set_parent; [easy|easy|auto with authority].
Qed.
Lemma authority_parent_loses_stream w w' : parent_loses_stream w = Some w' -> authority_fits w -> authority_fits w'.
Proof.
  unfold parent_loses_stream. intros Ht Hw. destruct (parent w) eqn:Hp; try discriminate Ht.
  all: assert (Ha := f_equal after_commit Hp); cbn in Ha; injection Ht as <-; auto with authority.
Qed.

Lemma authority_report_error reason an w : authority_fits w -> authority_fits (report_error reason an w).
Proof. intros Hw. unfold report_error. auto with authority. Qed.
Lemma authority_refuse_transfer an w : authority_fits w -> authority_fits (refuse_transfer an w).
Proof. apply authority_report_error. Qed.
#[local] Hint Resolve authority_report_error authority_refuse_transfer : authority.
Lemma authority_send_ready core directory next an w :
  child_committed (set_child next w) = false -> authority_fits w -> authority_fits (send_ready core directory next an w).
Proof.
  intros Hc Hw. unfold send_ready. cbv zeta. destruct (sent_ok _); [|auto with authority].
  apply authority_set_child; [exact Hc|auto with authority].
Qed.
Lemma authority_child_prestage m an w w' :
  child_prestage m an w = Some w' -> child_committed w = false -> authority_fits w -> authority_fits w' /\ child_committed w' = false.
Proof.
  unfold child_prestage. intros Hm Hc Hw. cbv zeta in Hm.
  destruct (_ <? _); [easy|]. do 2 (destruct (_ =? _); [|easy]). destruct (ca_ok an); [|easy]. injection Hm as <-.
  destruct Hw as [H1 H2 H3]. split; [|exact Hc]. split; [easy| |easy].
  intros Hc'. cbn in Hc'. unfold child_committed in Hc, Hc'; cbn in Hc'. congruence.
Qed.
Lemma authority_child_commit m an w w' :
  child_commit m an w = Some w' -> after_commit (parent w) = true ->
  holds_parents_state (final_core_revision m) (final_directory_revision m) w -> authority_fits w -> authority_fits w'.
Proof.
  unfold child_commit. intros Hm Ha [Hc Hd] [H1 H2 H3].
  destruct (child_core w =? _) eqn:Hec; [|easy]. destruct (child_directory w =? _) eqn:Hed; [|easy].
  destruct (ca_ok an); [|easy]. destruct (checked_add _ _ _); [|easy].
  injection Hm as <-. apply Z.eqb_eq in Hec, Hed.
  split; [easy| |easy]. intros _. split; [exact Ha|]. split; cbn; congruence.
Qed.
Lemma authority_child_status p an epoch resume_us published w :
  child w = ChildReported epoch resume_us published -> authority_fits w ->
  authority_fits (child_status p an epoch resume_us published w).
Proof.
  intros Hc Hw.
  assert (Ha : forall b, authority_fits (set_child (ChildReported epoch resume_us b) w)).
  { intros b. destruct Hw as [H1 H2 H3]. split; [easy| |easy]. intros _. apply H2. unfold child_committed. now rewrite Hc. }
  unfold child_status. destruct p as [| | | | | |[[[e|e u b|e u]|]]| |]; try exact Hw.
  all: destruct (e =? epoch); auto with authority.
Qed.
Lemma authority_child_receives an imports p rest w w' :
  to_child w = p :: rest -> child_receives an imports p (set_to_child rest w) = Some w' -> authority_fits w -> authority_fits w'.
Proof.
  intros Hq Hr Hw. assert (Hw1 := authority_received _ _ _ Hq Hw). revert Hr.
  unfold child_receives. cbn [child set_to_child]. destruct (child w) eqn:Hc; intros Hr; try discriminate Hr; injection Hr as <-.
  all: assert (Hu := f_equal (fun c => child_committed (set_child c w)) Hc); cbn in Hu.
  - destruct p as [| |m| | | | | |]; cbn; try apply authority_refuse_transfer, Hw1. destruct (ca_ok an && _); auto with authority. now apply authority_child_uncommitted.
  - destruct p as [| |m| | | | | |]; cbn; try apply authority_refuse_transfer, Hw1. destruct (negb _); auto with authority.
    destruct (child_prestage _ _ _) as [w'|] eqn:Hs; auto with authority.
    apply authority_child_prestage in Hs as [Hw' Hc']; [|unfold child_committed; cbn; now rewrite Hc|easy]. now apply authority_send_ready.
  - destruct p as [| |m| | | | | |]; cbn; try apply authority_refuse_transfer, Hw1. destruct (child_prestage _ _ _) as [w'|] eqn:Hs; auto with authority.
    apply authority_child_prestage in Hs as [Hw' Hc']; [|unfold child_committed; cbn; now rewrite Hc|easy].
    destruct (phase_of _) as [[]|]; auto with authority; [now apply authority_send_ready|].
    destruct imports; auto with authority. now apply authority_send_ready.
  - destruct p as [| | | |m| | | |]; cbn; try apply authority_refuse_transfer, Hw1. destruct (child_commit _ _ _) as [w'|] eqn:Hs; cbn; auto with authority.
    destruct (af_commits _ Hw m) as [Ha Hm]; [rewrite Hq; now left|]. exact (authority_child_commit _ _ _ _ Hs Ha Hm Hw1).
  - now apply authority_child_status.
Qed.
Lemma authority_child_acts an hello w w' : child_acts an hello w = Some w' -> authority_fits w -> authority_fits w'.
Proof.
  unfold child_acts. intros Ht Hw. destruct (child w) eqn:Hc; try discriminate Ht.
  - injection Ht as <-. destruct (sent_ok _); [apply authority_set_child; [easy|]|]; auto with authority.
  - injection Ht as <-. destruct (ca_ok an); [|auto with authority].
    destruct Hw as [H1 H2 H3]. split; [easy| |easy]. intros _. apply H2. unfold child_committed. now rewrite Hc.
  - destruct (negb _); injection Ht as <-; [auto with authority|].
    destruct (sent_ok _); [|auto with authority].
    apply (authority_send_parent (ca_send an) (Committed (mkCommitted epoch (ca_resume_us an)))) in Hw as [H1 H2 H3].
    split; [easy| |easy]. intros _. apply H2. unfold child_committed. cbn. now rewrite Hc.
Qed.
Lemma authority_step w w' : cutover_step w w' -> authority_fits w -> authority_fits w'.
Proof.
  intros [ev Hev] Hw. destruct ev; cbn in Hev.
  - destruct (to_parent w); [easy|]. destruct (parent_listens w); [|easy]. injection Hev as <-.
    now apply authority_parent_receives, authority_to_parent.
  - now apply (authority_parent_times_out an w).
  - now apply (authority_parent_loses_stream w).
  - unfold parent_advances in Hev. destruct (parent_serves w) eqn:Hs; [|easy]. destruct (_ <=? _); [|easy]. injection Hev as <-.
    apply authority_serving_moves; [exact Hs| |exact Hw]. intros c d He. unfold parent_serves in Hs. now rewrite He in Hs.
  - destruct (to_child w) as [|p rest] eqn:Hq; [easy|]. now apply (authority_child_receives an imports p rest w).
  - now apply (authority_child_acts an hello w).
  - unfold child_loses_stream in Hev. destruct (child w); try discriminate Hev; injection Hev as <-; auto with authority.
  - injection Hev as <-. auto with authority.
Qed.

(** Nothing that the child does changes the parent. *)
Lemma child_prestage_parent m an w w' : child_prestage m an w = Some w' -> parent w' = parent w.
Proof.
  unfold child_prestage. intros Hm. cbv zeta in Hm.
  destruct (_ <? _); [easy|]. do 2 (destruct (_ =? _); [|easy]). destruct (ca_ok an); [|easy]. now injection Hm as <-.
Qed.
Lemma send_ready_parent core directory next an w : parent (send_ready core directory next an w) = parent w.
Proof. unfold send_ready. cbv zeta. now destruct (sent_ok _). Qed.
Lemma child_receives_parent an imports p w w' : child_receives an imports p w = Some w' -> parent w' = parent w.
Proof.
  unfold child_receives. destruct (child w); intros Hr; try discriminate Hr; injection Hr as <-.
  - destruct p; try easy. cbn. now destruct (_ && _).
  - destruct p; try easy. cbn. destruct (negb _); [easy|].
    destruct (child_prestage _ _ _) as [w'|] eqn:Hs; [|easy]. rewrite send_ready_parent. exact (child_prestage_parent _ _ _ _ Hs).
  - destruct p; try easy. cbn. destruct (child_prestage _ _ _) as [w'|] eqn:Hs; [|easy].
    rewrite <-(child_prestage_parent _ _ _ _ Hs).
    destruct (phase_of _) as [[]|]; try easy; [apply send_ready_parent|]. destruct imports; [apply send_ready_parent|easy].
  - destruct p as [| | | |m| | | |]; try easy. cbn. unfold child_commit.
    do 2 (destruct (negb (_ =? _)); [easy|]). destruct (negb _); [easy|]. now destruct (checked_add _ _ _).
  - unfold child_status. destruct p as [| | | | | |[[[e|e u b|e u]|]]| |]; try easy; now destruct (e =? epoch).
Qed.
Lemma child_acts_parent an hello w w' : child_acts an hello w = Some w' -> parent w' = parent w.
Proof.
  unfold child_acts. destruct (child w); intros Hr; try discriminate Hr; [..|destruct (negb _)]; now injection Hr as <-.
Qed.
Lemma child_loses_parent an w w' : child_loses_stream an w = Some w' -> parent w' = parent w.
Proof. unfold child_loses_stream. destruct (child w); intros Hr; try discriminate Hr; now injection Hr as <-. Qed.

(** Who has given up its authority before or with [Commit] never serves again. *)
Lemma after_commit_step w w' : cutover_step w w' -> after_commit (parent w) = true -> after_commit (parent w') = true.
Proof.
  intros [ev Hev] Ha. destruct ev as [an h|an| |core directory|an imports|an hello|an|]; cbn in Hev.
  - destruct (to_parent w) as [|p rest]; [easy|]. destruct (parent_listens w); [|easy]. injection Hev as <-.
    unfold parent_receives. cbn [parent set_to_parent].
    destruct (parent w) eqn:Hp; try discriminate Ha; try reflexivity.
    3: now cbn; rewrite Hp.
    all: unfold child_has_committed; destruct p as [| | | | |?|[[[]|]]| |]; try reflexivity.
    all: destruct (_ =? _); try reflexivity; destruct (an_committed an); try reflexivity; cbn.
    all: now destruct (sent_ok _).
  - unfold parent_times_out in Hev. destruct (parent w); try discriminate Hev; try discriminate Ha; injection Hev as <-; try reflexivity.
    now destruct (negb _).
  - unfold parent_loses_stream in Hev. now destruct (parent w); try discriminate Hev; try discriminate Ha; injection Hev as <-.
  - unfold parent_advances in Hev. destruct (_ && _); [|easy]. now injection Hev as <-.
  - destruct (to_child w) as [|p rest]; [easy|]. revert Ha. rewrite (child_receives_parent _ _ _ _ _ Hev). easy.
  - now rewrite (child_acts_parent _ _ _ _ Hev).
  - now rewrite (child_loses_parent _ _ _ Hev).
  - now injection Hev as <-.
Qed.

(** ** What the parent can read *)

(** The parent still waits for the child's [Committed]. *)
Definition awaits_outcome (p : ParentPhase) : bool :=
  match p with ParentAwaitReport _ | ParentRestored | ParentRetired _ => false | _ => true end.
Definition is_status (p : Payload) : bool := match p with Status _ => true | _ => false end.
Definition is_committed (p : Payload) : bool := match p with Committed _ => true | _ => false end.
Definition has_reported (c : ChildPhase) : bool := match c with ChildReported _ _ _ => true | _ => false end.
(** No status comes before the first [Committed]. *)
Fixpoint status_follows (queue : list Payload) : bool :=
  match queue with [] => true | p :: queue => is_committed p || negb (is_status p) && status_follows queue end.
Definition replies_fit (c : ChildPhase) (queue : list Payload) : Prop :=
  status_follows queue = true /\ (has_reported c = true -> existsb is_committed queue = true).
Definition outcome_fits (w : World) : Prop := awaits_outcome (parent w) = true -> replies_fit (child w) (to_parent w).

Lemma status_follows_snoc queue p :
  status_follows queue = true -> (is_status p = true -> existsb is_committed queue = true) -> status_follows (queue ++ [p]) = true.
Proof.
  induction queue as [|q queue IH]; cbn; intros Hq Hp.
  - destruct (is_status p); [now specialize (Hp eq_refl)|]. now rewrite orb_true_r.
  - destruct (is_committed q); [easy|]. cbn in *. apply andb_true_iff in Hq as [Hs Hq]. rewrite Hs. now apply IH.
Qed.
Lemma existsb_deliver s p queue : existsb is_committed queue = true -> existsb is_committed (deliver s p queue) = true.
Proof. intros Hq. destruct s; cbn; rewrite ?existsb_app, Hq; easy. Qed.
Lemma replies_deliver c c' s p queue :
  replies_fit c queue -> (has_reported c' = true -> has_reported c = true) -> (is_status p = true -> has_reported c = true) ->
  replies_fit c' (deliver s p queue).
Proof.
  intros [Hf Hr] Hc Hp. split; [|intros Hc'; apply existsb_deliver; auto].
  destruct s; cbn; [|easy|]; apply status_follows_snoc; auto.
Qed.
Lemma replies_committed c c' m queue : replies_fit c queue -> replies_fit c' (queue ++ [Committed m]).
Proof.
  intros [Hf Hr]. split; [now apply status_follows_snoc|]. intros _. rewrite existsb_app. cbn. apply orb_true_r.
Qed.
Lemma replies_weaken c c' queue : replies_fit c queue -> (has_reported c' = true -> has_reported c = true) -> replies_fit c' queue.
Proof. intros [Hf Hr] Hc. split; auto. Qed.

(** *** The child's steps *)

Definition world_replies (w : World) : Prop := replies_fit (child w) (to_parent w).
Lemma replies_report_error reason an w : world_replies w -> world_replies (report_error reason an w).
Proof. intros Hw. now apply (replies_deliver (child w)). Qed.
Lemma replies_refuse an w : world_replies w -> world_replies (refuse_transfer an w).
Proof. apply replies_report_error. Qed.
#[local] Hint Resolve replies_refuse replies_report_error : replies.
Lemma replies_send_ready core directory next an w :
  has_reported next = false -> world_replies w -> world_replies (send_ready core directory next an w).
Proof.
  intros Hn Hw. unfold send_ready. cbv zeta.
  assert (Hs : world_replies (send_parent (ca_send an) (Ready (mkReady core directory)) w)) by now apply (replies_deliver (child w)).
  destruct (sent_ok _); [|auto with replies]. apply (replies_weaken _ _ _ Hs). cbn. congruence.
Qed.
Lemma replies_child_prestage m an w w' : child_prestage m an w = Some w' -> world_replies w -> world_replies w'.
Proof.
  unfold child_prestage. intros Hm. cbv zeta in Hm.
  destruct (_ <? _); [easy|]. do 2 (destruct (_ =? _); [|easy]). destruct (ca_ok an); [|easy]. now injection Hm as <-.
Qed.
Lemma replies_child_receives an imports p w w' : child_receives an imports p w = Some w' -> world_replies w -> world_replies w'.
Proof.
  unfold child_receives. intros Hr Hw. destruct (child w) eqn:Hc; try discriminate Hr; injection Hr as <-.
  - destruct p; cbn; auto with replies. destruct (_ && _); auto with replies. apply (replies_weaken _ _ _ Hw). easy.
  - destruct p; cbn; auto with replies. destruct (negb _); auto with replies.
    destruct (child_prestage _ _ _) as [w'|] eqn:Hs; auto with replies.
    apply replies_send_ready; [easy|]. exact (replies_child_prestage _ _ _ _ Hs Hw).
  - destruct p; cbn; auto with replies. destruct (child_prestage _ _ _) as [w'|] eqn:Hs; auto with replies.
    assert (Hw' := replies_child_prestage _ _ _ _ Hs Hw).
    destruct (phase_of _) as [[]|]; auto with replies; [now apply replies_send_ready|].
    destruct imports; auto with replies. now apply replies_send_ready.
  - destruct p as [| | | |m| | | |]; cbn; auto with replies. unfold child_commit.
    do 2 (destruct (negb (_ =? _)); cbn [default]; auto with replies). destruct (negb _); cbn; auto with replies.
    destruct (checked_add _ _ _); cbn; auto with replies. apply (replies_weaken _ _ _ Hw). easy.
  - unfold child_status. destruct p as [| | | | | |[[[e|e u b|e u]|]]| |]; try exact Hw.
    all: destruct (e =? epoch); [|exact Hw]; apply (replies_deliver (child w)); [exact Hw|now rewrite Hc|now rewrite Hc].
Qed.
Lemma replies_child_acts an hello w w' : child_acts an hello w = Some w' -> world_replies w -> world_replies w'.
Proof.
  unfold child_acts. intros Hr Hw. destruct (child w) eqn:Hc; try discriminate Hr.
  - injection Hr as <-. apply (replies_deliver (child w)); [exact Hw| |easy]. cbn. now destruct (sent_ok _).
  - injection Hr as <-. apply (replies_weaken _ _ _ Hw). cbn. now destruct (ca_ok an).
  - destruct (negb _); injection Hr as <-; [auto with replies|].
    destruct (ca_send an); cbn; [apply (replies_committed (child w)), Hw| |]; (apply (replies_deliver (child w) _ SentLost) || apply (replies_deliver (child w) _ SentUnreported)); easy.
Qed.

(** *** The parent's steps *)

(** A step after which the parent still waits leaves the child and what it has sent alone. *)
Definition parent_waits_on (w w' : World) : Prop :=
  awaits_outcome (parent w') = true -> awaits_outcome (parent w) = true /\ child w' = child w /\ to_parent w' = to_parent w.
Lemma prepare_child_waits an w : awaits_outcome (parent w) = true -> parent_waits_on w (prepare_child an w).
Proof.
  unfold parent_waits_on, prepare_child. destruct (an_bootstrap an); [|easy]. destruct (negb _ || _); [easy|]. cbv zeta. now destruct (negb _).
Qed.
Lemma prestage_round_waits an rounds directory w : awaits_outcome (parent w) = true -> parent_waits_on w (prestage_round an rounds directory w).
Proof. unfold parent_waits_on. destruct rounds; cbn; [easy|]. destruct (an_update an); [|easy]. now destruct (negb _). Qed.
Lemma freeze_parent_waits an directory w : awaits_outcome (parent w) = true -> parent_waits_on w (freeze_parent an directory w).
Proof. unfold parent_waits_on, freeze_parent. destruct (_ || _); [easy|]. cbv zeta. now destruct (negb _). Qed.
Lemma commit_child_waits an core directory w : awaits_outcome (parent w) = true -> parent_waits_on w (commit_child an core directory w).
Proof.
  unfold parent_waits_on, commit_child. destruct (checked_add _ _ _); [|easy]. destruct (negb _); [easy|]. cbv zeta. now destruct (negb _).
Qed.
Lemma child_has_committed_waits an epoch w : awaits_outcome (parent (child_has_committed an epoch w)) = false.
Proof. unfold child_has_committed. destruct (negb _); [easy|]. cbv zeta. now destruct (negb _). Qed.
(** The parent that still waits after it has read a message has read neither the [Committed] nor a
    status. *)
Lemma parent_receives_waits an h p w :
  parent_waits_on w (parent_receives an h p w) /\
  (awaits_outcome (parent (parent_receives an h p w)) = true -> is_committed p = false /\ is_status p = false).
Proof.
  unfold parent_receives. destruct (parent w) as [|c d|rounds c d|c d|e|e|e| |] eqn:Hp.
  all: assert (Ha := f_equal awaits_outcome Hp); cbn in Ha.
  - destruct p; try easy. destruct (h m); [|easy]. split; [now apply prepare_child_waits|easy].
  - destruct (is_ready c d p) eqn:Hr; [|easy]. split; [now apply prestage_round_waits|]. now destruct p.
  - destruct (is_ready c d p) eqn:Hr; cbn [negb]; [|easy].
    destruct (_ <=? _); (split; [first [now apply freeze_parent_waits | now apply prestage_round_waits]|now destruct p]).
  - destruct (is_ready c d p) eqn:Hr; [|easy]. split; [now apply commit_child_waits|]. now destruct p.
  - destruct p; try easy. destruct (_ =? _); [|easy]. unfold parent_waits_on. rewrite child_has_committed_waits. easy.
  - destruct p as [| | | | | |[[[]|]]| |]; try easy. destruct (_ =? _); [|easy]. unfold parent_waits_on. rewrite child_has_committed_waits. easy.
  - easy.
  - unfold parent_waits_on. rewrite Ha. easy.
  - unfold parent_waits_on. rewrite Ha. easy.
Qed.
Lemma parent_times_out_waits an w w' : parent_times_out an w = Some w' -> parent_waits_on w w'.
Proof.
  unfold parent_waits_on, parent_times_out. destruct (parent w); intros Ht; try discriminate Ht; injection Ht as <-; try easy.
  now destruct (negb _).
Qed.
Lemma parent_loses_stream_waits w w' : parent_loses_stream w = Some w' -> awaits_outcome (parent w') = false.
Proof. unfold parent_loses_stream. destruct (parent w); intros Ht; try discriminate Ht; now injection Ht as <-. Qed.

Lemma outcome_step w w' : cutover_step w w' -> outcome_fits w -> outcome_fits w'.
Proof.
  intros [ev Hev] Hw. destruct ev as [an h|an| |core directory|an imports|an hello|an|]; cbn in Hev.
  - destruct (to_parent w) as [|p rest] eqn:Hq; [easy|]. destruct (parent_listens w); [|easy]. injection Hev as <-.
    destruct (parent_receives_waits an h p (set_to_parent rest w)) as [Hon Hmsg].
    intros Ha. destruct (Hon Ha) as (Ha' & Hc & Hto). destruct (Hmsg Ha) as [Hnc Hns].
    destruct (Hw Ha') as [Hf Hr]. rewrite Hq in Hf, Hr. cbn in Hf, Hr. rewrite Hnc in Hf, Hr. rewrite Hns in Hf. rewrite Hc, Hto. easy.
  - intros Ha. destruct (parent_times_out_waits _ _ _ Hev Ha) as (Ha' & Hc & Hto). rewrite Hc, Hto. now apply Hw.
  - intros Ha. rewrite (parent_loses_stream_waits _ _ Hev) in Ha. easy.
  - unfold parent_advances in Hev. destruct (_ && _); [|easy]. now injection Hev as <-.
  - destruct (to_child w) as [|p rest]; [easy|]. unfold outcome_fits. rewrite (child_receives_parent _ _ _ _ _ Hev).
    intros Ha. now apply (replies_child_receives _ _ _ _ _ Hev), Hw.
  - unfold outcome_fits. rewrite (child_acts_parent _ _ _ _ Hev). intros Ha. now apply (replies_child_acts _ _ _ _ Hev), Hw.
  - unfold outcome_fits. rewrite (child_loses_parent _ _ _ Hev). intros Ha.
    unfold child_loses_stream in Hev. destruct (child w); try discriminate Hev; injection Hev as <-; now apply replies_refuse, Hw.
  - injection Hev as <-. intros Ha. apply (replies_weaken _ _ _ (Hw Ha)). easy.
Qed.

Lemma cutover_invariant w : cutover_reaches w -> authority_fits w /\ outcome_fits w.
Proof.
  intros (core & directory & epoch & Hr).
  assert (H0 : outcome_fits (child_started core directory epoch)) by easy.
  generalize (authority_initial core directory epoch) H0. clear H0.
  induction Hr as [|x y z Hxy _ IH]; [easy|]. intros Ha Ho. apply IH; [exact (authority_step _ _ Hxy Ha)|exact (outcome_step _ _ Hxy Ho)].
Qed.
Lemma after_commit_reaches w w' : rtc cutover_step w w' -> after_commit (parent w) = true -> after_commit (parent w') = true.
Proof. induction 1 as [|x y z Hxy _ IH]; [easy|]. intros Ha. now apply IH, (after_commit_step x). Qed.
Lemma run_events_reaches evs w w' : run_events evs w = Some w' -> rtc cutover_step w w'.
Proof.
  revert w. induction evs as [|ev evs IH]; cbn; intros w Hr; [now injection Hr as <-|].
  destruct (run_event ev w) as [w1|] eqn:He; [|easy]. apply rtc_l with w1; [now exists ev|now apply IH].
Qed.

(** ** Properties *)

(** C12: at most one of the two processes serves, whatever their runtimes answer, whatever messages
    are lost and whenever the child dies.  A child that has committed holds exactly the revisions of
    the core and of the session directory at which the parent froze, and from then on the parent
    never serves again. *)
Theorem one_authority w :
  cutover_reaches w ->
  (parent_serves w && child_serves w = false) /\
  (child_committed w = true ->
     holds_parents_state (child_core w) (child_directory w) w /\
     forall w', rtc cutover_step w w' -> parent_serves w' = false).
Proof.
  intros [Ha _]%cutover_invariant. split.
  - destruct (child_serves w) eqn:Hs; [|apply andb_false_r].
    destruct (af_committed w Ha (child_serves_committed w Hs)) as [Hp _]. now rewrite (after_commit_not_serving w Hp).
  - intros Hc. destruct (af_committed w Ha Hc) as [Hp Hs]. split; [exact Hs|].
    intros w' Hr. apply after_commit_not_serving. exact (after_commit_reaches w w' Hr Hp).
Qed.

(** C15: a parent whose wait for [Committed] has timed out asks the child for its status, and never
    gets to know it: the child's [Committed] comes before every status on the stream, the parent
    takes it for a wrong answer, and retires with an uncertain outcome whatever it reads. *)
Theorem reconciliation_never_succeeds w w' epoch :
  cutover_reaches w -> parent w = ParentAwaitStatus epoch -> cutover_step w w' ->
  parent w' = ParentAwaitStatus epoch \/ parent w' = ParentRetired RetiredUncertain.
Proof.
  intros [_ Ho]%cutover_invariant Hp [ev Hev]. unfold outcome_fits in Ho. rewrite Hp in Ho. specialize (Ho eq_refl) as [Hf _].
  destruct ev as [an h|an| |core directory|an imports|an hello|an|]; cbn in Hev.
  - destruct (to_parent w) as [|p rest]; [easy|]. destruct (parent_listens w); [|easy]. injection Hev as <-. right.
    unfold parent_receives. cbn [parent set_to_parent]. rewrite Hp. cbn in Hf. now destruct p.
  - unfold parent_times_out in Hev. rewrite Hp in Hev. injection Hev as <-. now right.
  - unfold parent_loses_stream in Hev. rewrite Hp in Hev. injection Hev as <-. now right.
  - unfold parent_advances in Hev. destruct (_ && _); [|easy]. injection Hev as <-. now left.
  - destruct (to_child w) as [|p rest]; [easy|]. left. now rewrite (child_receives_parent _ _ _ _ _ Hev).
  - left. now rewrite (child_acts_parent _ _ _ _ Hev).
  - left. now rewrite (child_loses_parent _ _ _ Hev).
  - injection Hev as <-. now left.
Qed.

(** *** A run *)

Definition sample_answers (core : Z) : ParentAnswers :=
  mkParentAnswers (Some sample_bootstrap) true core 2 [] 64 (Some core) true (mkCommit 0 0 0 0 None 0 0 0 0 0) true true 1000 SentOk SentOk.
Definition sample_child (core : Z) : ChildAnswers := mkChildAnswers true (Some core) (Some 2) 500 SentOk SentOk.
Definition sample_hello : HelloV1 := mkHello [] 7.
(** The child commits at revision 12 while the parent's wait has timed out. *)
Definition sample_cutover : list Event :=
  [EvChildActs (sample_child 10) sample_hello; EvParentReceives (sample_answers 10) (fun _ => true);
   EvChildReceives (sample_child 10) true; EvParentServes 11 2; EvChildReceives (sample_child 10) true;
   EvParentReceives (sample_answers 11) (fun _ => true); EvChildReceives (sample_child 11) true; EvParentServes 12 2;
   EvParentReceives (sample_answers 11) (fun _ => true); EvChildReceives (sample_child 12) true;
   EvParentReceives (sample_answers 12) (fun _ => true); EvParentTimesOut (sample_answers 12);
   EvChildReceives (sample_child 12) true; EvChildActs (sample_child 12) sample_hello; EvChildActs (sample_child 12) sample_hello].
Definition sample_world : World :=
  mkWorld (ParentAwaitStatus 4) 12 2 3 [Status (mkStatus (Some (Query 4)))] [Committed (mkCommitted 4 500)]
    (ChildReported 4 500 false) 12 2.
Lemma sample_cutover_run : run_events sample_cutover (child_started 10 2 3) = Some sample_world.
Proof. vm_compute. reflexivity. Qed.
Lemma sample_world_reached : cutover_reaches sample_world.
Proof. exists 10, 2, 3. exact (run_events_reaches _ _ _ sample_cutover_run). Qed.

Lemma one_authority_witness : parent_serves sample_world = false /\ child_serves sample_world = true /\ child_core sample_world = 12.
Proof.
  destruct (one_authority sample_world sample_world_reached) as [_ H].
  destruct (H eq_refl) as [[Hc _] Hp]. split; [apply Hp, rtc_refl|]. split; [reflexivity|exact Hc].
Defined.
(** The parent reads the child's [Committed], and ends uncertain while the child serves. *)
Lemma reconciliation_never_succeeds_witness :
  exists w', run_event (EvParentReceives (sample_answers 12) (fun _ => true)) sample_world = Some w' /\
    child_serves w' = true /\ parent w' = ParentRetired RetiredUncertain.
Proof.
  eexists. split; [reflexivity|]. split; [reflexivity|].
  destruct (reconciliation_never_succeeds sample_world _ 4 sample_world_reached eq_refl
    (ex_intro _ (EvParentReceives (sample_answers 12) (fun _ => true)) eq_refl)) as [H|H]; [discriminate H|exact H].
Defined.
