(* ===== verification/RaknetServer.v ===== *)
(** * The RakNet server ([crates/network/revy-raknet/src/server.rs])

    The router owns the socket: it answers the offline handshake, starts a peer for a new address,
    hands every other datagram to the peer of its address, forgets a peer that has closed or failed,
    and obeys the commands of the server's handle, which pause, freeze, import, resume and transfer
    its peers.  The tasks of the peers ([RaknetLoop]) run between its operations; a command that
    waits for peers is one operation, in which these take turns of their own.  The bytes of a
    datagram are those that the receive buffer holds; reading the address of the socket does not
    fail. *)

From stdpp Require Import sorting.
From S2P Require Import Prelude Bytes RaknetSequence RaknetBudget RaknetWire RaknetPeer RaknetPeerInv RaknetTransfer RaknetLoop.
From S2P Require Import ProtoPacket.

(** ** Addresses *)

Definition addr_parts (a : SocketAddr) : list byte * Z * option (Z * Z) :=
  match a with V4 ip port => (ip, port, None) | V6 ip port flowinfo scope_id => (ip, port, Some (flowinfo, scope_id)) end.
#[local] Instance octet_countable : Countable byte := inj_countable' byte_Z Z_byte Z_byte_byte_Z.
#[export] Instance SocketAddr_countable : Countable SocketAddr.
Proof.
  refine (inj_countable' addr_parts (fun p => match p with (ip, port, None) => V4 ip port | (ip, port, Some (f, s)) => V6 ip port f s end) _).
  all: try (intros a; by destruct a).
Defined.
Definition addr_ip (a : SocketAddr) : list byte := match a with V4 ip _ | V6 ip _ _ _ => ip end.
Definition addr_port (a : SocketAddr) : Z := match a with V4 _ port | V6 _ port _ _ => port end.
(** [IpAddr::is_unspecified], and the equality of [IpAddr]. *)
Definition ip_unspecified (a : SocketAddr) : bool := forallb (fun b => byte_Z b =? 0) (addr_ip a).
(** The derived order of [SocketAddr]: the version, then the fields. *)
Definition addr_key (a : SocketAddr) : list Z :=
  match a with
  | V4 ip port => 4 :: map byte_Z ip ++ [port]
  | V6 ip port flowinfo scope_id => 6 :: map byte_Z ip ++ [port; flowinfo; scope_id]
  end.
Fixpoint lex_le (x y : list Z) : bool :=
  match x, y with
  | [], _ => true
  | _, [] => false
  | a :: x, b :: y => (a <? b) || (a =? b) && lex_le x y
  end.

#[export] Instance RakNetBudgets_eq_dec : EqDecision RakNetBudgets.
Proof. solve_decision. Defined.

(** ** State *)

Record ServerConfig : Type := mkServerConfig {
  bind_addr : SocketAddr; sc_motd : string; server_name : string; game_version : string;
  protocol_number : Z; raknet_version : Z; max_players : Z; online_players : Z; server_guid : Z;
  sc_budgets : RakNetBudgets
}.
Record ServerSnapshot : Type := mkServerSnapshot { local_addr : SocketAddr; snapshot_peers : list PeerSnapshot }.
(** A task that was started for a peer, and whether its end was reported on [closed_tx]. *)
Record PeerTask : Type := mkPeerTask { pt_addr : SocketAddr; pt_task : Task; pt_reported : bool }.
(** [peers] holds the router's [PeerControl]s, by the number of the task; [outgoing] is what the
    router itself has sent. *)
Record Router : Type := mkRouter {
  peers : gmap SocketAddr nat; closed_rx : list SocketAddr; tasks : gmap nat PeerTask; next_task : nat;
  receive_paused : bool; frozen : bool; stopped : bool; outgoing : list (SocketAddr * list byte)
}.
Definition set_peers v (r : Router) := mkRouter v (closed_rx r) (tasks r) (next_task r) (receive_paused r) (frozen r) (stopped r) (outgoing r).
Definition set_closed_rx v (r : Router) := mkRouter (peers r) v (tasks r) (next_task r) (receive_paused r) (frozen r) (stopped r) (outgoing r).
Definition set_tasks v (r : Router) := mkRouter (peers r) (closed_rx r) v (next_task r) (receive_paused r) (frozen r) (stopped r) (outgoing r).
Definition set_modes paused froze (r : Router) := mkRouter (peers r) (closed_rx r) (tasks r) (next_task r) paused froze (stopped r) (outgoing r).
(** [Router::new] *)
Definition router_new (receive_paused : bool) : Router := mkRouter ∅ [] ∅ 0 receive_paused false false [].

Definition alter_task (f : Task -> Task) (id : nat) (r : Router) : Router :=
  set_tasks (alter (fun p => mkPeerTask (pt_addr p) (f (pt_task p)) (pt_reported p)) id (tasks r)) r.
(** A [PeerControl] is dropped, which holds the only sender of the peer's ingress. *)
Definition close_ingress (t : Task) : Task :=
  mkTask (world t) (execution t) (deferred t) (commands t) (commands_closed t) (ingress t) true (replies t) (status t).
Definition remove_peer (a : SocketAddr) (r : Router) : Router :=
  match peers r !! a with
  | Some id => alter_task close_ingress id (set_peers (delete a (peers r)) r)
  | None => r
  end.
(** The router leaves its loop and is dropped. *)
Definition router_stop (r : Router) : Router :=
  let dropped := foldr (fun kv => alter_task close_ingress kv.2) r (map_to_list (peers r)) in
  mkRouter ∅ [] (tasks dropped) (next_task r) (receive_paused r) (frozen r) true (outgoing r).

(** The order in which checkpoints are imported. *)
Definition v_addr (v : ValidatedPeerSnapshot) : SocketAddr := PeerSnapshot.remote_addr (checkpoint v).
Definition addr_le (v w : ValidatedPeerSnapshot) : Prop := lex_le (addr_key (v_addr v)) (addr_key (v_addr w)) = true.
#[export] Instance addr_le_dec : RelDecision addr_le.
Proof. intros v w. unfold addr_le. apply _. Defined.

Section Server.
(** The clock and the socket of each task, and when it is started; the order in which the router's
    map is iterated, and in which the futures of a [JoinSet] finish. *)
Context (envs : nat -> Env) (started : nat -> Z * IO).
Context (iteration : gmap SocketAddr nat -> list (SocketAddr * nat)) (completion : list (SocketAddr * nat) -> list (SocketAddr * nat)).
(** [Display] *)
Context (show_addr : SocketAddr -> string) (show_error : RakNetError -> string).
Context (config : ServerConfig) (local : SocketAddr).

Definition budgets_of : RakNetBudgets := sc_budgets config.
(** [RakNetServer::from_socket] *)
Definition from_socket : result RakNetError unit :=
  let configured := bind_addr config in
  if negb (addr_port configured =? 0) && negb (addr_port configured =? addr_port local)
     || negb (ip_unspecified configured) && negb (bool_decide (addr_ip configured = addr_ip local))
  then Err (Wire ("imported UDP socket " +:+ show_addr local +:+ " does not match configured listener " +:+ show_addr configured))
  else Ok tt.

Definition clamp_mtu (mtu : Z) : Z :=
  let maximum := try_from_or_max u16_max (max_datagram_bytes budgets_of) in
  Z.min (Z.max mtu 576) (Z.max maximum 576).
Definition motd : string :=
  "MCPE;" +:+ sc_motd config +:+ ";" +:+ pretty (protocol_number config) +:+ ";" +:+ game_version config +:+ ";" +:+
  pretty (online_players config) +:+ ";" +:+ pretty (max_players config) +:+ ";" +:+ pretty (server_guid config) +:+ ";" +:+
  server_name config +:+ ";Survival;1;" +:+ pretty (addr_port (bind_addr config)) +:+ ";" +:+ pretty (addr_port (bind_addr config)) +:+ ";".

(** ** Datagrams *)

(** [socket.send_to] *)
Definition router_send (sends : bool) (bytes : list byte) (a : SocketAddr) (r : Router) : Router * result RakNetError unit :=
  if sends
  then (mkRouter (peers r) (closed_rx r) (tasks r) (next_task r) (receive_paused r) (frozen r) (stopped r) (outgoing r ++ [(a, bytes)]), Ok tt)
  else (r, Err Io).
(** A task is started and its control inserted. *)
Definition add_peer (a : SocketAddr) (t : Task) (r : Router) : Router :=
  mkRouter (<[a := next_task r]> (peers r)) (closed_rx r) (<[next_task r := mkPeerTask a t false]> (tasks r)) (S (next_task r))
    (receive_paused r) (frozen r) (stopped r) (outgoing r).
Definition start_peer (a : SocketAddr) (mtu : Z) (r : Router) : result RakNetError Router :=
  let '(created, i) := started (next_task r) in
  t ← spawn_peer a mtu budgets_of created i;
  Ok (add_peer a t r).
Definition handle_offline (sends : bool) (a : SocketAddr) (request : OfflineRequest) (r : Router) : Router * result RakNetError unit :=
  match request with
  | Ping time =>
      match encode_unconnected_pong time (server_guid config) (string_bytes motd) with
      | Ok response => router_send sends response a r
      | Err e => (r, Err e)
      | Panic => (r, Panic)
      | OutOfFuel => (r, OutOfFuel)
      end
  | OpenConnection1 protocol mtu =>
      let response :=
        if protocol =? raknet_version config
        then encode_open_connection_reply_1 (server_guid config) (clamp_mtu mtu)
        else encode_incompatible_protocol (raknet_version config) (server_guid config) in
      router_send sends response a r
  | OpenConnection2 mtu _ =>
      let reply := encode_open_connection_reply_2 (server_guid config) a (clamp_mtu mtu) in
      match peers r !! a with
      | Some _ => router_send sends reply a r
      | None =>
          let held := Z.of_nat (size (peers r)) in
          if max_peers budgets_of <=? held
          then (r, Err (Budget (mkBudgetExceeded "raknet peers" (saturating_add usize_max held 1) (max_peers budgets_of))))
          else
            match start_peer a (clamp_mtu mtu) r with
            | Ok r => router_send sends reply a r
            | Err e => (r, Err e)
            | Panic => (r, Panic)
            | OutOfFuel => (r, OutOfFuel)
            end
      end
  end.
Definition route_packet (sends : bool) (a : SocketAddr) (bytes : list byte) (r : Router) : Router * result RakNetError unit :=
  match decode_offline_request bytes with
  | Ok (Some request) => handle_offline sends a request r
  | Ok None =>
      match peers r !! a with
      | Some id =>
          match tasks r !! id with
          | Some p =>
              let '(t, outcome) := deliver (envs id) bytes (pt_task p) in
              let r := alter_task (fun _ => t) id r in
              match outcome with
              | Ok _ | Err QueueFull => (r, Ok tt)
              | Err e => (r, Err e)
              | Panic => (r, Panic)
              | OutOfFuel => (r, OutOfFuel)
              end
          | None => (r, Ok tt)
          end
      | None => (r, Ok tt)
      end
  | Err e => (r, Err e)
  | Panic => (r, Panic)
  | OutOfFuel => (r, OutOfFuel)
  end.
(** The branch of the loop that receives. *)
Definition receive (sends : bool) (a : SocketAddr) (bytes : list byte) (r : Router) : Router :=
  match route_packet sends a bytes r with
  | (r, Ok _) => r
  | (r, Err _) => remove_peer a r
  | (r, Panic) | (r, OutOfFuel) => router_stop r
  end.
(** The branch that hears of a peer that has closed. *)
Definition hear_closed (r : Router) : option Router :=
  match closed_rx r with a :: rest => Some (remove_peer a (set_closed_rx rest r)) | [] => None end.

(** ** Control of the peers *)

(** [PeerControl::is_router_owned] *)
Definition is_router_owned (id : nat) (r : Router) : bool :=
  match tasks r !! id with Some p => router_owned (peer (pt_task p)) | None => false end.
Definition owned (r : Router) (l : list (SocketAddr * nat)) : list (SocketAddr * nat) := filter (fun kv => is_router_owned kv.2 r = true) l.

(** [oneshot::channel()]: a name that nothing uses. *)
Definition command_reply (c : PeerCommand) : list Z :=
  match c with Send _ id | Freeze id | SealTransfer id | Transfer id => [id] | Resume => [] end.
Definition reply_ids (t : Task) : list Z := map fst (replies t) ++ concat (map command_reply (deferred t ++ commands t)).
Definition fresh_reply (t : Task) : Z := 1 + foldr Z.max 0 (reply_ids t).
Definition take_reply (id : Z) (t : Task) : option Reply := (fun p => p.2.2) <$> list_find (fun p => p.1 = id) (replies t).
(** [command_tx.send(..).await], then [reply_rx.await], during [turns] turns of the task; [None]
    while it waits. *)
Definition control_call (env : Env) (command : Z -> PeerCommand) (turns : nat) (t : Task) : option (Task * result RakNetError Reply) :=
  let id := fresh_reply t in
  match try_send (command id) t with
  | (t, Ok _) =>
      let t := run_turns env turns t in
      match take_reply id t with
      | Some reply => Some (t, Ok reply)
      | None => if bool_decide (status t = Alive) then None else Some (t, Err Closed)
      end
  | (_, Err QueueFull) => None
  | (t, Err e) => Some (t, Err e)
  | (_, Panic) | (_, OutOfFuel) => None
  end.
Definition control_freeze (env : Env) (turns : nat) (t : Task) : option (Task * result RakNetError unit) :=
  '(t, r) ← control_call env Freeze turns t; Some (t, _ ← r; Ok tt).
Definition control_transfer (env : Env) (turns : nat) (t : Task) : option (Task * result RakNetError unit) :=
  '(t, r) ← control_call env Transfer turns t; Some (t, _ ← r; Ok tt).
Definition control_seal (env : Env) (turns : nat) (t : Task) : option (Task * result RakNetError PeerSnapshot) :=
  '(t, r) ← control_call env SealTransfer turns t;
  match r with
  | Ok (Sealed s) => Some (t, Ok s)
  | Ok _ => None
  | Err e => Some (t, Err e)
  | Panic => Some (t, Panic)
  | OutOfFuel => Some (t, OutOfFuel)
  end.
Definition control_freeze_for_transfer (env : Env) (turns : nat * nat) (t : Task) : option (Task * result RakNetError PeerSnapshot) :=
  '(t, r) ← control_freeze env turns.1 t;
  match r with
  | Ok _ => control_seal env turns.2 t
  | Err e => Some (t, Err e)
  | Panic => Some (t, Panic)
  | OutOfFuel => Some (t, OutOfFuel)
  end.

(** The futures of a [JoinSet], one for each control, with what they return in the order in which
    they finish. *)
Fixpoint join_all {A} (call : nat -> Task -> option (Task * A)) (l : list (SocketAddr * nat)) (r : Router) : option (Router * list A) :=
  match l with
  | [] => Some (r, [])
  | (_, id) :: l =>
      p ← tasks r !! id;
      '(t, x) ← call id (pt_task p);
      '(r, xs) ← join_all call l (alter_task (fun _ => t) id r);
      Some (r, x :: xs)
  end.
(** [collect_peer_control_results] *)
Fixpoint failures_of {A} (l : list (result RakNetError A)) : list string :=
  match l with [] => [] | Err e :: l => show_error e :: failures_of l | _ :: l => failures_of l end.
Definition collect_peer_control_results (operation : string) (l : list (result RakNetError unit)) : result RakNetError unit :=
  match failures_of l with
  | [] => Ok tt
  | failures => Err (Wire ("raknet peer " +:+ operation +:+ " failed: " +:+ String.concat "; " failures))
  end.
Fixpoint resume_controls (l : list (SocketAddr * nat)) (r : Router) : Router * result RakNetError unit :=
  match l with
  | [] => (r, Ok tt)
  | (_, id) :: l =>
      match tasks r !! id with
      | None => resume_controls l r
      | Some p =>
          let '(t, outcome) := resume_control (pt_task p) in
          let r := alter_task (fun _ => t) id r in
          match outcome with Ok _ => resume_controls l r | e => (r, e) end
      end
  end.
Definition resume_peer_controls (r : Router) : Router * result RakNetError unit := resume_controls (owned r (iteration (peers r))) r.
Definition freeze_peer_controls (turns : nat -> nat * nat) (r : Router) : option (Router * result RakNetError unit) :=
  '(r, l) ← join_all (fun id => control_freeze (envs id) (turns id).1) (completion (owned r (iteration (peers r)))) r;
  Some (r, collect_peer_control_results "freeze compensation" l).
Definition resume_peers (turns : nat -> nat * nat) (r : Router) : option (Router * result RakNetError unit) :=
  match resume_peer_controls r with
  | (r, Err error) =>
      '(r, compensation) ← freeze_peer_controls turns r;
      match compensation with
      | Err compensation => Some (r, Err (Wire ("raknet peer resume failed: " +:+ show_error error +:+ "; freeze compensation failed: " +:+ show_error compensation)))
      | _ => Some (r, Err error)
      end
  | outcome => Some outcome
  end.
Fixpoint first_failure {A} (l : list (result RakNetError A)) : option RakNetError :=
  match l with [] => None | Err e :: _ => Some e | _ :: l => first_failure l end.
Fixpoint successes {A} (l : list (result RakNetError A)) : list A :=
  match l with [] => [] | Ok x :: l => x :: successes l | _ :: l => successes l end.
Definition freeze_peers (turns : nat -> nat * nat) (r : Router) : option (Router * result RakNetError ServerSnapshot) :=
  '(r, l) ← join_all (fun id => control_freeze_for_transfer (envs id) (turns id)) (completion (owned r (iteration (peers r)))) r;
  match first_failure l with
  | Some error =>
      match resume_peer_controls r with
      | (r, Err compensation) => Some (r, Err (Wire ("raknet peer freeze failed: " +:+ show_error error +:+ "; resume compensation failed: " +:+ show_error compensation)))
      | (r, _) => Some (r, Err error)
      end
  | None => Some (r, Ok (mkServerSnapshot local (successes l)))
  end.
(** The first failure ends the wait; of the futures that are aborted then, those in [sent] have
    sent their command. *)
Fixpoint transfer_loop (turns : nat -> nat * nat) (sent : nat -> bool) (l : list (SocketAddr * nat)) (r : Router) :
    option (Router * result RakNetError unit) :=
  match l with
  | [] => Some (r, Ok tt)
  | (_, id) :: l =>
      p ← tasks r !! id;
      '(t, outcome) ← control_transfer (envs id) (turns id).1 (pt_task p);
      let r := alter_task (fun _ => t) id r in
      match outcome with
      | Ok _ => transfer_loop turns sent l r
      | e => Some (foldr (fun kv r => if sent kv.2 then alter_task (fun t => (try_send (Transfer (fresh_reply t)) t).1) kv.2 r else r) r l, e)
      end
  end.
Definition transfer_peers (turns : nat -> nat * nat) (sent : nat -> bool) (r : Router) : option (Router * result RakNetError unit) :=
  transfer_loop turns sent (completion (owned r (iteration (peers r)))) r.

(** ** Import *)

(** The loop that looks for an address that is taken. *)
Fixpoint duplicate_addr (held : gmap SocketAddr nat) (addresses : gset SocketAddr) (l : list ValidatedPeerSnapshot) : option SocketAddr :=
  match l with
  | [] => None
  | v :: l =>
      if bool_decide (is_Some (held !! v_addr v)) || bool_decide (v_addr v ∈ addresses) then Some (v_addr v)
      else duplicate_addr held ({[v_addr v]} ∪ addresses) l
  end.
(** A peer whose handshake was complete is claimed by the session that receives it. *)
Definition import_peer (v : ValidatedPeerSnapshot) (r : Router) : Router * list nat :=
  let '(now, i) := started (next_task r) in
  let id := next_task r in
  let r := add_peer (v_addr v) (start_imported (envs id) now v budgets_of i) r in
  if (prepare_peer_snapshot (envs id) now v budgets_of).2 then (alter_task claim_session_authority id r, [id]) else (r, []).
Fixpoint import_loop (l : list ValidatedPeerSnapshot) (r : Router) : Router * list nat :=
  match l with
  | [] => (r, [])
  | v :: l => let '(r, imported) := import_peer v r in let '(r, rest) := import_loop l r in (r, imported ++ rest)
  end.
(** [prepare_peer_snapshots]: a worker that panics is an error, and no peer is started then. *)
Definition prepare_peer_snapshots (snapshots : list ValidatedPeerSnapshot) : result RakNetError unit :=
  match snapshots, open_channels budgets_of with
  | [], _ | _, Ok _ => Ok tt
  | _, _ => Err (Wire "RakNet snapshot prepare worker panicked")
  end.
Definition import_peers (snapshots : list ValidatedPeerSnapshot) (r : Router) : Router * result RakNetError (list nat) :=
  if existsb (fun v => negb (bool_decide (v_budgets v = budgets_of))) snapshots
  then (r, Err (Wire "RakNet peer checkpoint was validated for different resource budgets"))
  else
    let requested := saturating_add usize_max (Z.of_nat (size (peers r))) (len snapshots) in
    if max_peers budgets_of <? requested
    then (r, Err (Budget (mkBudgetExceeded "raknet peers" requested (max_peers budgets_of))))
    else
      let snapshots := merge_sort addr_le snapshots in
      match duplicate_addr (peers r) ∅ snapshots with
      | Some a => (r, Err (Wire ("duplicate transferred RakNet peer " +:+ show_addr a)))
      | None =>
          match prepare_peer_snapshots snapshots with
          | Ok _ => let '(r, imported) := import_loop snapshots r in (r, Ok imported)
          | Err e => (r, Err e)
          | Panic => (r, Panic)
          | OutOfFuel => (r, OutOfFuel)
          end
      end.

(** ** The loop *)

Inductive RouterCommand : Type :=
| PauseReceive | ResumeReceive | ImportPeers (peers : list ValidatedPeerSnapshot) | FreezePeers | ResumePeers | TransferPeers.
Inductive RouterReply : Type :=
| ReplyUnit (r : result RakNetError unit)
| ReplySnapshot (r : result RakNetError ServerSnapshot)
| ReplyImported (r : result RakNetError (list nat)).
Definition is_ok {A} (r : result RakNetError A) : bool := match r with Ok _ => true | _ => false end.
(** [turns] and [sent]: the turns of the peers that a command waits for, and what aborted futures
    have sent. *)
Definition run_command (turns : nat -> nat * nat) (sent : nat -> bool) (c : RouterCommand) (r : Router) : option (Router * RouterReply) :=
  let withheld := frozen r || receive_paused r in
  match c with
  | PauseReceive => Some (set_modes true (frozen r) r, ReplyUnit (Ok tt))
  | ResumeReceive =>
      if withheld then
        '(r, outcome) ← resume_peers turns r;
        Some (if is_ok outcome then set_modes false (frozen r) r else r, ReplyUnit outcome)
      else Some (r, ReplyUnit (Ok tt))
  | ImportPeers snapshots =>
      if withheld then let '(r, outcome) := import_peers snapshots r in Some (r, ReplyImported outcome)
      else Some (r, ReplyImported (Err (Wire "peer checkpoints require a receive-paused router")))
  | FreezePeers =>
      if withheld && frozen r
      then Some (r, ReplySnapshot (Err (Wire "a repeated server freeze must reuse the snapshot held by RakNetServer<Frozen>")))
      else
        '(r, outcome) ← freeze_peers turns r;
        Some (if is_ok outcome then set_modes (receive_paused r) true r else r, ReplySnapshot outcome)
  | ResumePeers =>
      if withheld then
        '(r, outcome) ← resume_peers turns r;
        Some (if is_ok outcome then set_modes false false r else r, ReplyUnit outcome)
      else Some (set_modes false (frozen r) r, ReplyUnit (Ok tt))
  | TransferPeers =>
      '(r, outcome) ← transfer_peers turns sent r;
      Some (if is_ok outcome then router_stop r else r, ReplyUnit outcome)
  end.
(** [recoverable_udp_receive_error] *)
Inductive IoErrorKind : Set := Interrupted | ConnectionReset | ConnectionRefused | OtherKind.
Definition recoverable_udp_receive_error (kind : IoErrorKind) : bool :=
  match kind with Interrupted | ConnectionReset | ConnectionRefused => true | OtherKind => false end.

(** What a task does between the router's operations: a turn, or what a handle of its session asks
    of it. *)
Inductive TaskAction : Type := TaskTurn | TaskCommand (c : PeerCommand) | TaskReceive | TaskClaim.
Definition perform_task (env : Env) (x : TaskAction) (t : Task) : Task :=
  match x with
  | TaskTurn => turn env t
  | TaskCommand c => (try_send c t).1
  | TaskReceive => (recv_raw t).1
  | TaskClaim => claim_session_authority t
  end.
Inductive RouterEvent : Type :=
| RtReceived (a : SocketAddr) (bytes : list byte) (sends : bool)
| RtReceiveFails (kind : IoErrorKind)
| RtClosed
| RtCommand (c : RouterCommand) (turns : nat -> nat * nat) (sent : nat -> bool)
| RtHandleDropped
| RtTask (id : nat) (x : TaskAction)
| RtReportEnd (id : nat).
Definition listens (r : Router) : bool := negb (frozen r) && negb (receive_paused r) && negb (stopped r).
(** The task of a peer has left its loop: [closed_tx.send(remote_addr)]. *)
Definition report_end (id : nat) (r : Router) : option Router :=
  p ← tasks r !! id;
  if bool_decide (status (pt_task p) = Finished) && negb (pt_reported p)
  then
    let r := set_tasks (<[id := mkPeerTask (pt_addr p) (pt_task p) true]> (tasks r)) r in
    Some (if stopped r then r else set_closed_rx (closed_rx r ++ [pt_addr p]) r)
  else None.
Definition router_event (ev : RouterEvent) (r : Router) : option Router :=
  match ev with
  | RtReceived a bytes sends => if listens r then Some (receive sends a bytes r) else None
  | RtReceiveFails kind => if listens r then Some (if recoverable_udp_receive_error kind then r else router_stop r) else None
  | RtClosed => if listens r then hear_closed r else None
  | RtCommand c turns sent => if stopped r then None else fst <$> run_command turns sent c r
  | RtHandleDropped => if stopped r then None else Some (router_stop r)
  | RtTask id x => if bool_decide (is_Some (tasks r !! id)) then Some (alter_task (perform_task (envs id) x) id r) else None
  | RtReportEnd id => report_end id r
  end.
Fixpoint router_events (evs : list RouterEvent) (r : Router) : option Router :=
  match evs with
  | [] => Some r
  | ev :: evs => r ← router_event ev r; router_events evs r
  end.

(** ** The handle *)

(** [RakNetServer<State>] by its type parameter; [None] where a method consumes the handle and fails. *)
Inductive ServerHandle : Type := HandleServing | HandlePaused | HandleFrozen (sealed : ServerSnapshot).
(** [control_tx.send(..).await], then [reply_rx.await]. *)
Definition server_call (turns : nat -> nat * nat) (sent : nat -> bool) (c : RouterCommand) (r : Router) : option (Router * result RakNetError RouterReply) :=
  if stopped r then Some (r, Err Closed) else '(r, reply) ← run_command turns sent c r; Some (r, Ok reply).
Definition unit_reply (x : result RakNetError RouterReply) : result RakNetError unit :=
  match x with Ok (ReplyUnit y) => y | Ok _ => Panic | Err e => Err e | Panic => Panic | OutOfFuel => OutOfFuel end.
Definition freeze_server turns sent (h : ServerHandle) (r : Router) : option (Router * ServerHandle * result RakNetError unit) :=
  '(r, reply) ← server_call turns sent FreezePeers r;
  match reply with
  | Ok (ReplySnapshot (Ok s)) => Some (r, HandleFrozen s, Ok tt)
  | Ok (ReplySnapshot (Err e)) | Err e => Some (r, h, Err e)
  | _ => None
  end.
(** The methods that consume the handle. *)
Definition consume_handle turns sent (c : RouterCommand) (next : ServerHandle) (r : Router) : option (Router * option ServerHandle * result RakNetError unit) :=
  '(r, reply) ← server_call turns sent c r;
  match unit_reply reply with
  | Ok _ => Some (r, Some next, Ok tt)
  | e => Some (r, None, e)
  end.
Definition pause_receive turns sent := consume_handle turns sent PauseReceive HandlePaused.
Definition resume_receive turns sent := consume_handle turns sent ResumeReceive HandleServing.
Definition resume_server turns sent := consume_handle turns sent ResumePeers HandleServing.
(** [RakNetServer<ReceivePaused>::import_peers] keeps the handle. *)
Definition import_server turns sent (snapshots : list ValidatedPeerSnapshot) (r : Router) : option (Router * result RakNetError (list nat)) :=
  '(r, reply) ← server_call turns sent (ImportPeers snapshots) r;
  Some (r, match reply with
           | Ok (ReplyImported x) => x
           | Ok _ => Panic
           | Err e => Err e
           | Panic => Panic
           | OutOfFuel => OutOfFuel
           end).
Definition mark_transferred turns sent (sealed : ServerSnapshot) (r : Router) : option (Router * result RakNetError ServerSnapshot) :=
  '(r, reply) ← server_call turns sent TransferPeers r;
  Some (r, _ ← unit_reply reply; Ok sealed).
(** The methods that the type of a handle has and that keep or change the handle. *)
Inductive HandleMethod : Set := MethodFreeze | MethodPause | MethodResumeReceive | MethodResume.
Definition handle_call turns sent (m : HandleMethod) (h : ServerHandle) (r : Router) : option (Router * option ServerHandle * result RakNetError unit) :=
  match m, h with
  | MethodFreeze, HandleServing | MethodFreeze, HandlePaused => '(r, h, x) ← freeze_server turns sent h r; Some (r, Some h, x)
  | MethodPause, HandleServing => pause_receive turns sent r
  | MethodResumeReceive, HandlePaused => resume_receive turns sent r
  | MethodResume, HandleFrozen _ => resume_server turns sent r
  | _, _ => None
  end.
End Server.
