(* ===== verification/RaknetRouter.v ===== *)
(** * What the RakNet router keeps

    No handler of a peer changes whom it talks to; along every run of the server the peers are
    within their budget, registered under their own address, and healthy.  What the router does
    with a datagram, and with the news that a peer has closed. *)

From stdpp Require Import sorting.
From S2P Require Import Prelude Bytes RaknetSequence RaknetBudget RaknetWire RaknetPeer RaknetPeerInv RaknetTransfer RaknetLoop RaknetServer.

(** ** The identity of a peer *)

Definition identity (a : PeerActor) : SocketAddr * Z * RakNetBudgets := (remote_addr a, mtu a, budgets a).
(** A handler, or a task, that leaves the identity alone. *)
Definition steady {A} (m : Act A) : Prop := forall w, identity (actor (m w).1) = identity (actor w).

Lemma steady_bind {A B} (m : Act A) (f : A -> Act B) : steady m -> (forall x, steady (f x)) -> steady (m ≫= f).
Proof.
  intros Hm Hf w. specialize (Hm w). unfold mbind, M_bind. destruct (m w) as [w' [x|e| |]]; cbn in *; try done.
  by rewrite Hf.
Qed.
Lemma steady_ret {A} (x : A) : steady (mret x).
Proof. done. Qed.
Lemma steady_throw {A} e : steady (throw (A := A) e).
Proof. done. Qed.
Lemma steady_lift {A} (r : result RakNetError A) : steady (lift r).
Proof. intros w. by destruct r. Qed.
Lemma steady_self : steady self.
Proof. done. Qed.
Lemma steady_update f : (forall a, identity (f a) = identity a) -> steady (update f).
Proof. intros H w. apply H. Qed.
Lemma steady_for_each {X} (f : X -> Act unit) l : (forall x, steady (f x)) -> steady (for_each f l).
Proof. intros Hf. induction l as [|x l IH]; [done|]. by apply steady_bind. Qed.
Lemma steady_ask {A} (f : nat -> A) : steady (ask f).
Proof. done. Qed.
Create HintDb steady.
#[local] Hint Resolve steady_ret steady_throw steady_lift steady_self steady_ask : steady.
Ltac steady :=
  repeat lazymatch goal with
  | |- steady (_ ≫= _) => apply steady_bind; [|intros ?]
  | |- steady (update _) => apply steady_update; intros ?; reflexivity
  | |- steady (for_each _ _) => apply steady_for_each; intros ?
  | |- steady (match ?x with _ => _ end) => destruct x
  | |- _ => solve [auto with steady | done]
  end.

Section Handlers.
Context (env : Env).
Lemma steady_send_to bytes : steady (send_to env bytes).
Proof. unfold send_to. steady. Qed.
Lemma steady_announce_peer : steady (announce_peer env).
Proof. unfold announce_peer. steady. Qed.
#[local] Hint Resolve steady_send_to steady_announce_peer : steady.
Lemma steady_send_frame f : steady (send_frame env f).
Proof. unfold send_frame, now. steady. Qed.
#[local] Hint Resolve steady_send_frame : steady.
Lemma steady_send_fragment oi sid n fr : steady (send_fragment env oi sid n fr).
Proof. destruct fr. unfold send_fragment. steady. Qed.
#[local] Hint Resolve steady_send_fragment : steady.
Lemma steady_send_reliable_ordered payload : steady (send_reliable_ordered env payload).
Proof. unfold send_reliable_ordered. steady. Qed.
#[local] Hint Resolve steady_send_reliable_ordered : steady.
Lemma steady_send_application payload : steady (send_application env payload).
Proof. unfold send_application. steady. Qed.
Lemma steady_push_inbox payload : steady (push_inbox payload).
Proof. intros w. unfold push_inbox. by destruct (inbox_push payload (inbox (actor w))). Qed.
#[local] Hint Resolve steady_push_inbox : steady.
Lemma steady_deliver_payload payload : steady (deliver_payload env payload).
Proof. unfold deliver_payload. steady. Qed.
#[local] Hint Resolve steady_deliver_payload : steady.
Lemma steady_drain_holdback fuel channel : steady (drain_holdback env fuel channel).
Proof. induction fuel as [|fuel IH]; cbn; steady. Qed.
#[local] Hint Resolve steady_drain_holdback : steady.
Lemma steady_accept_ordered channel sq payload : steady (accept_ordered env channel sq payload).
Proof. unfold accept_ordered. steady. Qed.
Lemma steady_accept_fragment sp payload : steady (accept_fragment sp payload).
Proof. unfold accept_fragment. steady. Qed.
#[local] Hint Resolve steady_accept_ordered steady_accept_fragment : steady.
Lemma steady_receive_frame frame : steady (receive_frame env frame).
Proof. unfold receive_frame. steady. Qed.
Lemma steady_retransmit sq : steady (retransmit env sq).
Proof. unfold retransmit, now. steady. Qed.
#[local] Hint Resolve steady_receive_frame steady_retransmit : steady.
Lemma steady_receive_datagram bytes : steady (receive_datagram env bytes).
Proof. unfold receive_datagram, apply_acknowledgement, now. steady. Qed.
Lemma steady_on_timer : steady (on_timer env).
Proof. unfold on_timer, now. steady. Qed.
End Handlers.

Section Tasks.
Context (env : Env).
Lemma identity_run_handler (h : Act unit) t : steady h -> identity (peer (run_handler h t)) = identity (peer t).
Proof. intros H. specialize (H (world t)). unfold run_handler. destruct (h (world t)) as [w [x|e| |]]; done. Qed.
Lemma identity_clock t : identity (peer (read_clock env t).2) = identity (peer t).
Proof. done. Qed.
Lemma identity_apply_command c t : identity (peer (apply_command env c t)) = identity (peer t).
Proof.
  destruct c as [payload id|id|id| |id]; try done. unfold apply_command.
  pose proof (steady_send_application env payload (world t)) as H.
  destruct (send_application env payload (world t)) as [w [x|e| |]]; done.
Qed.
Lemma identity_frozen_command since c t : identity (peer (frozen_command env since c t)) = identity (peer t).
Proof. destruct c; try done. unfold frozen_command. by case_match. Qed.
Lemma identity_turn t : identity (peer (turn env t)) = identity (peer t).
Proof.
  unfold turn. destruct (status t); try done. destruct (execution t).
  - destruct (deferred t); [|by rewrite identity_apply_command].
    destruct (commands t); [|by rewrite identity_apply_command]. destruct (commands_closed t); [done|].
    destruct (ingress t) as [|bytes rest]; [|exact (identity_run_handler _ _ (steady_receive_datagram env bytes))].
    destruct (ingress_closed t); [done|]. unfold poll_timer. cbn [read_clock].
    case_match; [|done]. exact (identity_run_handler _ _ (steady_on_timer env)).
  - destruct (commands t); [by destruct (commands_closed t)|by rewrite identity_frozen_command].
Qed.
Lemma identity_deliver bytes t : identity (peer (deliver env bytes t).1) = identity (peer t).
Proof. unfold deliver. destruct (_ || _); [done|]. by destruct (_ <? _). Qed.
Lemma identity_try_send c t : identity (peer (try_send c t).1) = identity (peer t).
Proof. unfold try_send. destruct (_ || _); [done|]. by destruct (_ <? _). Qed.
Lemma identity_recv t : identity (peer (recv_raw t).1) = identity (peer t).
Proof. unfold recv_raw. by destruct (inbox_receive _). Qed.

(** *** What the router asks of a task *)

Context (b : RakNetBudgets).
(** Healthy, and the peer of [a] with a transferable size of packets; its channels could be opened. *)
Record task_fits (a : SocketAddr) (t : Task) : Prop := mkTaskFits {
  tf_ok : task_ok b t; tf_addr : remote_addr (peer t) = a; tf_mtu : 576 <= mtu (peer t) <= maximum_mtu b;
  tf_open : open_channels b = Ok tt
}.
Lemma task_fits_same a t t' : identity (peer t') = identity (peer t) -> task_ok b t' -> task_fits a t -> task_fits a t'.
Proof. intros [= Ha Hm _] Hok [_ Hta Htm Ho]. split; [done|congruence|by rewrite Hm|done]. Qed.
Lemma fits_turn a t : task_fits a t -> task_fits a (turn env t).
Proof. intros H. eapply task_fits_same, H; [apply identity_turn|by apply task_ok_turn, H]. Qed.
Lemma fits_run_turns n a t : task_fits a t -> task_fits a (run_turns env n t).
Proof. induction n as [|n IH]; [done|]. intros H. unfold run_turns. rewrite Nat.iter_succ. by apply fits_turn, IH. Qed.
Lemma fits_deliver bytes a t : task_fits a t -> task_fits a (deliver env bytes t).1.
Proof. intros H. eapply task_fits_same, H; [apply identity_deliver|by apply task_ok_deliver, H]. Qed.
Lemma fits_try_send c a t : task_fits a t -> task_fits a (try_send c t).1.
Proof. intros H. eapply task_fits_same, H; [apply identity_try_send|by apply task_ok_try_send, H]. Qed.
Lemma fits_recv a t : task_fits a t -> task_fits a (recv_raw t).1.
Proof. intros H. eapply task_fits_same, H; [apply identity_recv|by apply task_ok_recv, H]. Qed.
Lemma fits_claim a t : task_fits a t -> task_fits a (claim_session_authority t).
Proof. intros [Hok Ha Hm Ho]. split; [|done..]. exact (task_ok_step env b _ _ (step_claim env t) Hok). Qed.
Lemma fits_close_ingress a t : task_fits a t -> task_fits a (close_ingress t).
Proof. intros [[] Ha Hm Ho]. split; [by constructor|done..]. Qed.
Lemma fits_perform x a t : task_fits a t -> task_fits a (perform_task env x t).
Proof. destruct x; cbn; eauto using fits_turn, fits_try_send, fits_recv, fits_claim. Qed.
Lemma fits_control_call command turns a t t' r : control_call env command turns t = Some (t', r) -> task_fits a t -> task_fits a t'.
Proof.
  unfold control_call. intros Hc H. pose proof (fits_try_send (command (fresh_reply t)) a t H) as Hs.
  destruct (try_send _ t) as [t1 [x|e| |]]; [|destruct e; simplify_eq/=; done|done|done].
  pose proof (fits_run_turns turns a t1 Hs). destruct (take_reply _ _); [by simplify_eq|]. case_match; by simplify_eq.
Qed.
Lemma fits_control_freeze turns a t t' r : control_freeze env turns t = Some (t', r) -> task_fits a t -> task_fits a t'.
Proof.
  unfold control_freeze. intros H%bind_Some. destruct H as ([t1 r1] & Hc & [= <- <-]). exact (fits_control_call _ _ _ _ _ _ Hc).
Qed.
Lemma fits_control_transfer turns a t t' r : control_transfer env turns t = Some (t', r) -> task_fits a t -> task_fits a t'.
Proof.
  unfold control_transfer. intros H%bind_Some. destruct H as ([t1 r1] & Hc & [= <- <-]). exact (fits_control_call _ _ _ _ _ _ Hc).
Qed.
Lemma fits_control_seal turns a t t' r : control_seal env turns t = Some (t', r) -> task_fits a t -> task_fits a t'.
Proof.
  unfold control_seal. intros H%bind_Some. destruct H as ([t1 r1] & Hc & H).
  assert (t1 = t') as -> by (destruct r1 as [[]| | |]; by simplify_eq). exact (fits_control_call _ _ _ _ _ _ Hc).
Qed.
Lemma fits_freeze_for_transfer turns a t t' r : control_freeze_for_transfer env turns t = Some (t', r) -> task_fits a t -> task_fits a t'.
Proof.
  unfold control_freeze_for_transfer. intros H%bind_Some Ht. destruct H as ([t1 r1] & Hc & H).
  pose proof (fits_control_freeze _ _ _ _ _ Hc Ht) as H1. destruct r1 as [[]|e| |]; simplify_eq; try done.
  exact (fits_control_seal _ _ _ _ _ H H1).
Qed.
End Tasks.

(** ** The router *)

Record router_ok (b : RakNetBudgets) (r : Router) : Prop := mkRouterOk {
  ro_size : Z.of_nat (size (peers r)) <= max_peers b;
  ro_peers : forall a id, peers r !! a = Some id -> exists p, tasks r !! id = Some p /\ pt_addr p = a;
  ro_tasks : forall id p, tasks r !! id = Some p -> (id < next_task r)%nat /\ task_fits b (pt_addr p) (pt_task p)
}.
(** The same tasks for the same addresses, each of them healthy if it was. *)
Record tasks_follow (b : RakNetBudgets) (r r' : Router) : Prop := mkTasksFollow {
  fo_peers : peers r' = peers r;
  fo_next : next_task r' = next_task r;
  fo_back : forall id p', tasks r' !! id = Some p' -> exists p, tasks r !! id = Some p /\ pt_addr p' = pt_addr p /\
    (task_fits b (pt_addr p) (pt_task p) -> task_fits b (pt_addr p) (pt_task p'));
  fo_forth : forall id p, tasks r !! id = Some p -> exists p', tasks r' !! id = Some p' /\ pt_addr p' = pt_addr p
}.
Section Follow.
Context (b : RakNetBudgets).
Lemma follow_refl r : tasks_follow b r r.
Proof. split; naive_solver. Qed.
Lemma follow_trans r1 r2 r3 : tasks_follow b r1 r2 -> tasks_follow b r2 r3 -> tasks_follow b r1 r3.
Proof.
  intros [P1 N1 B1 F1] [P2 N2 B2 F2]. split; [congruence|congruence| |].
  - intros id p3 H3. destruct (B2 _ _ H3) as (p2 & H2 & E2 & I2). destruct (B1 _ _ H2) as (p1 & H1 & E1 & I1).
    exists p1. split; [done|]. split; [congruence|]. rewrite E1 in I2. auto.
  - intros id p1 H1. destruct (F1 _ _ H1) as (p2 & H2 & E2). destruct (F2 _ _ H2) as (p3 & H3 & E3). exists p3. split; [done|congruence].
Qed.
Lemma follow_ok r r' : tasks_follow b r r' -> router_ok b r -> router_ok b r'.
Proof.
  intros [P N B F] [S Hp Ht]. split.
  - by rewrite P.
  - intros a id Ha. rewrite P in Ha. destruct (Hp a id Ha) as (p & H1 & E1). destruct (F _ _ H1) as (p' & H2 & E2).
    exists p'. split; [done|congruence].
  - intros id p' H'. destruct (B _ _ H') as (p & H1 & E1 & I1). destruct (Ht _ _ H1) as [Hn Hf]. rewrite N, E1. auto.
Qed.
Lemma follow_alter f id r :
  (forall p, tasks r !! id = Some p -> task_fits b (pt_addr p) (pt_task p) -> task_fits b (pt_addr p) (f (pt_task p))) ->
  tasks_follow b r (alter_task f id r).
Proof.
  intros Hf. split; [done|done| |].
  - intros j p'. unfold alter_task. cbn [tasks set_tasks]. destruct (decide (j = id)) as [->|Hj].
    + rewrite lookup_alter_eq. destruct (tasks r !! id) as [p|] eqn:Hp; [|done]. cbn. intros [= <-]. exists p. cbn. eauto.
    + rewrite lookup_alter_ne by done. eauto.
  - intros j p Hp. unfold alter_task. cbn [tasks set_tasks]. destruct (decide (j = id)) as [->|Hj].
    + rewrite lookup_alter_eq, Hp. cbn. eexists. split; [done|done].
    + rewrite lookup_alter_ne by done. eauto.
Qed.
Lemma follow_foldr (f : Task -> Task) (l : list (SocketAddr * nat)) r :
  (forall a t, task_fits b a t -> task_fits b a (f t)) -> tasks_follow b r (foldr (fun kv => alter_task f kv.2) r l).
Proof. intros Hf. induction l as [|kv l IH]; [apply follow_refl|]. cbn. eapply follow_trans; [exact IH|]. apply follow_alter. auto. Qed.

Lemma ok_remove_peer a r : router_ok b r -> router_ok b (remove_peer a r).
Proof.
  intros Hr. unfold remove_peer. destruct (peers r !! a) as [id|] eqn:Ha; [|done].
  eapply follow_ok; [apply follow_alter; intros ? _; apply fits_close_ingress|].
  destruct Hr as [S Hp Ht]. split; cbn [peers set_peers tasks next_task]; [|intros a' id' [_ H']%lookup_delete_Some; exact (Hp a' id' H')|exact Ht].
  pose proof (map_size_delete a (peers r)) as Hd. rewrite Ha in Hd. cbn in Hd. lia.
Qed.
Lemma ok_router_stop r : 0 <= max_peers b -> router_ok b r -> router_ok b (router_stop r).
Proof.
  intros Hm Hr. pose proof (follow_ok _ _ (follow_foldr close_ingress (map_to_list (peers r)) r ltac:(intros ? ?; apply fits_close_ingress)) Hr) as [S Hp Ht].
  split; [done|done|]. cbn [tasks router_stop next_task].
  intros id p H. destruct (Ht id p H) as [Hn Hf]. split; [|done].
  rewrite (fo_next _ _ _ (follow_foldr close_ingress (map_to_list (peers r)) r ltac:(intros ? ?; apply fits_close_ingress))) in Hn. done.
Qed.
Lemma ok_add_peer a t r :
  task_fits b a t -> Z.of_nat (size (peers r)) + 1 <= max_peers b -> router_ok b r -> router_ok b (add_peer a t r).
Proof.
  intros Ht Hs [S Hp Hts]. split; cbn [peers tasks next_task add_peer].
  - rewrite map_size_insert. destruct (peers r !! a); cbn; lia.
  - intros a' id [[<- <-]|[Hne H]]%lookup_insert_Some; [eexists; rewrite lookup_insert_eq; done|].
    destruct (Hp a' id H) as (p & H1 & E1). exists p. split; [|done]. rewrite lookup_insert_ne; [done|]. destruct (Hts _ _ H1). lia.
  - intros id p [[<- <-]|[Hne H]]%lookup_insert_Some; [split; [lia|done]|]. destruct (Hts _ _ H). split; [lia|done].
Qed.
Lemma ok_outgoing v r : router_ok b r -> router_ok b (mkRouter (peers r) (closed_rx r) (tasks r) (next_task r) (receive_paused r) (frozen r) (stopped r) v).
Proof. by intros [? ? ?]. Qed.
Lemma ok_set_modes p f r : router_ok b r -> router_ok b (set_modes p f r).
Proof. by intros [? ? ?]. Qed.
Lemma ok_set_closed l r : router_ok b r -> router_ok b (set_closed_rx l r).
Proof. by intros [? ? ?]. Qed.
Lemma follow_join_all {A} (call : nat -> Task -> option (Task * A)) l r r' xs :
  (forall id a t t' x, call id t = Some (t', x) -> task_fits b a t -> task_fits b a t') ->
  join_all call l r = Some (r', xs) -> tasks_follow b r r'.
Proof.
  intros Hcall. revert r r' xs. induction l as [|[a id] l IH]; intros r r' xs Hj; cbn in Hj; [simplify_eq; apply follow_refl|].
  apply bind_Some in Hj as (p & Hp & Hj). apply bind_Some in Hj as ([t x] & Hc & Hj). apply bind_Some in Hj as ([r1 ys] & Hj & [= <- <-]).
  eapply follow_trans; [|exact (IH _ _ _ Hj)]. apply follow_alter. intros p' Hp' Hf. simplify_eq. exact (Hcall _ _ _ _ _ Hc Hf).
Qed.
Lemma follow_resume_controls l r : tasks_follow b r (resume_controls l r).1.
Proof.
  revert r. induction l as [|[a id] l IH]; intros r; [apply follow_refl|]. cbn. destruct (tasks r !! id) as [p|] eqn:Hp; [|apply IH].
  destruct (resume_control (pt_task p)) as [t outcome] eqn:Hc.
  assert (Hf : tasks_follow b r (alter_task (fun _ => t) id r)).
  { apply follow_alter. intros p' Hp' Hf. simplify_eq. apply (f_equal fst) in Hc. cbn in Hc. subst t. by apply fits_try_send. }
  destruct outcome; try exact Hf. eapply follow_trans; [exact Hf|apply IH].
Qed.
Lemma follow_transfer_loop envs turns sent l r r' x : transfer_loop envs turns sent l r = Some (r', x) -> tasks_follow b r r'.
Proof.
  revert r r' x. induction l as [|[a id] l IH]; intros r r' x Ht; cbn in Ht; [simplify_eq; apply follow_refl|].
  apply bind_Some in Ht as (p & Hp & Ht). apply bind_Some in Ht as ([t outcome] & Hc & Ht).
  assert (Hf : tasks_follow b r (alter_task (fun _ => t) id r)).
  { apply follow_alter. intros p' Hp' Hf. simplify_eq. exact (fits_control_transfer _ _ _ _ _ _ _ Hc Hf). }
  eapply follow_trans; [exact Hf|].
  destruct outcome; [exact (IH _ _ _ Ht)|injection Ht as <- <-..].
  all: clear; generalize (alter_task (fun _ => t) id r); intros r0.
  all: induction l as [|kv l IH]; [apply follow_refl|]; cbn; destruct (sent kv.2); [|exact IH].
  all: eapply follow_trans; [exact IH|]; apply follow_alter; intros ? _; apply fits_try_send.
Qed.
End Follow.

(** *** Steps of the server *)

(** A checkpoint that was validated. *)
Definition admitted (v : ValidatedPeerSnapshot) : Prop := exists s, snapshot_typed s /\ into_validated s (v_budgets v) = Ok v.
Definition event_admitted (ev : RouterEvent) : Prop :=
  match ev with RtCommand (ImportPeers l) _ _ => Forall admitted l | _ => True end.
Lemma into_validated_Ok s b v : into_validated s b = Ok v -> checkpoint v = s /\ v_budgets v = b /\ 576 <= PeerSnapshot.mtu s <= maximum_mtu b.
Proof.
  intros (ix & Hv & [= <-])%result_bind_Ok. split; [done|]. split; [done|]. unfold validate_structure in Hv.
  destruct (Z.leb_spec 576 (PeerSnapshot.mtu s)); [|done]. destruct (Z.leb_spec (PeerSnapshot.mtu s) (maximum_mtu b)); [|done]. done.
Qed.

(** A router with a new peer. *)
Definition new_peer (started : nat -> Z * IO) (config : ServerConfig) (a : SocketAddr) (mtu : Z) (r : Router) : Router :=
  add_peer a (start_new a mtu (sc_budgets config) (started (next_task r)).1 (started (next_task r)).2) r.
Lemma start_peer_eq started config a mtu r :
  start_peer started config a mtu r = (_ ← open_channels (sc_budgets config); Ok (new_peer started config a mtu r)).
Proof.
  unfold start_peer, new_peer, spawn_peer, budgets_of. destruct (started (next_task r)) as [created i]. cbn.
  by destruct (open_channels (sc_budgets config)).
Qed.
Lemma prepare_snapshots_Ok config l u :
  prepare_peer_snapshots config l = Ok u -> open_channels (sc_budgets config) = Ok tt \/ l = [].
Proof. unfold prepare_peer_snapshots, budgets_of. destruct l; [auto|]. destruct (open_channels _) as [[]|e| |]; (done || auto). Qed.
Lemma open_channels_cases b : open_channels b = Ok tt \/ open_channels b = Panic.
Proof. unfold open_channels. case_match; auto. Qed.

Section Steps.
Context (envs : nat -> Env) (started : nat -> Z * IO).
Context (iteration : gmap SocketAddr nat -> list (SocketAddr * nat)) (completion : list (SocketAddr * nat) -> list (SocketAddr * nat)).
Context (show_addr : SocketAddr -> string) (show_error : RakNetError -> string).
Context (config : ServerConfig) (local : SocketAddr).
#[local] Abbreviation b := (sc_budgets config).
Context (Hb : budgets_ok b) (Hc : 0 <= peer_command_queue b) (Hi : 0 <= peer_ingress_queue b) (Hm : 0 <= max_peers b < usize_max).

Lemma clamp_mtu_range mtu : 576 <= clamp_mtu config mtu <= maximum_mtu b.
Proof. unfold clamp_mtu, maximum_mtu, budgets_of. lia. Qed.
Lemma fits_start_new a mtu created i : open_channels b = Ok tt -> 576 <= mtu <= maximum_mtu b -> task_fits b a (start_new a mtu b created i).
Proof.
  intros Ho Hmtu. split; [|done..]. apply task_ok_start; [|done..]. split; [|done]. apply ok_actor_new; try done.
  unfold budgets_ok in Hb. cbn. lia.
Qed.
Lemma fits_start_imported env now v i :
  open_channels b = Ok tt -> admitted v -> v_budgets v = b -> task_fits b (v_addr v) (start_imported env now v b i).
Proof.
  intros Ho (s & Hty & Hv) Hvb. rewrite Hvb in Hv. destruct (into_validated_Ok _ _ _ Hv) as (Hs & _ & Hmtu). split; cbn.
  - apply task_ok_start; [|done..]. exact (restored_actor_ok env now s b v Hb Hty Hv).
  - done.
  - by rewrite Hs.
  - done.
Qed.
Lemma ok_router_send sends bytes a r : router_ok b r -> router_ok b (router_send sends bytes a r).1.
Proof. intros Hr. unfold router_send. destruct sends; [by apply ok_outgoing|done]. Qed.
Lemma ok_start_peer a mtu r :
  576 <= mtu <= maximum_mtu b -> Z.of_nat (size (peers r)) + 1 <= max_peers b -> router_ok b r ->
  match start_peer started config a mtu r with Ok r' => router_ok b r' | Panic => True | _ => False end.
Proof.
  intros Hmtu Hs Hr. rewrite start_peer_eq. destruct (open_channels_cases b) as [Ho|Ho]; rewrite Ho; [|done].
  unfold new_peer. destruct (started (next_task r)). apply ok_add_peer; [by apply fits_start_new|done|done].
Qed.
Lemma ok_handle_offline sends a request r : router_ok b r -> router_ok b (handle_offline started config sends a request r).1.
Proof.
  intros Hr. destruct request as [time|protocol mtu|mtu guid]; cbn.
  - destruct (encode_unconnected_pong _ _ _); try done. by apply ok_router_send.
  - by apply ok_router_send.
  - destruct (peers r !! a); [by apply ok_router_send|]. destruct (Z.leb_spec (max_peers (budgets_of config)) (Z.of_nat (size (peers r)))); [done|].
    pose proof (ok_start_peer a (clamp_mtu config mtu) r (clamp_mtu_range mtu) ltac:(unfold budgets_of in *; lia) Hr) as Hs.
    destruct (start_peer _ _ _ _ _); [by apply ok_router_send|done..].
Qed.
Lemma follow_deliver id p bytes r : tasks r !! id = Some p -> tasks_follow b r (alter_task (fun _ => (deliver (envs id) bytes (pt_task p)).1) id r).
Proof. intros Hp. apply follow_alter. intros p' Hp' Hf. simplify_eq. by apply fits_deliver. Qed.
Lemma ok_route_packet sends a bytes r : router_ok b r -> router_ok b (route_packet envs started config sends a bytes r).1.
Proof.
  intros Hr. unfold route_packet. destruct (decode_offline_request bytes) as [[request|]|e| |]; try done; [by apply ok_handle_offline|].
  destruct (peers r !! a) as [id|]; [|done]. destruct (tasks r !! id) as [p|] eqn:Hp; [|done].
  pose proof (follow_ok _ _ _ (follow_deliver id p bytes r Hp) Hr) as Hd.
  destruct (deliver (envs id) bytes (pt_task p)) as [t [x|[]| |]]; exact Hd.
Qed.
Lemma ok_receive sends a bytes r : router_ok b r -> router_ok b (receive envs started config sends a bytes r).
Proof.
  intros Hr. unfold receive. pose proof (ok_route_packet sends a bytes r Hr) as H.
  destruct (route_packet _ _ _ _ _ _ _) as [r' [x|e| |]]; [done|by apply ok_remove_peer|apply ok_router_stop; [lia|done]..].
Qed.
Lemma follow_resume_peer_controls r : tasks_follow b r (resume_peer_controls iteration r).1.
Proof. apply follow_resume_controls. Qed.
Lemma follow_resume_peers turns r r' x : resume_peers envs iteration completion show_error turns r = Some (r', x) -> tasks_follow b r r'.
Proof.
  unfold resume_peers. pose proof (follow_resume_peer_controls r) as H. destruct (resume_peer_controls iteration r) as [r1 [y|e| |]]; intros Hs; [by simplify_eq| |by simplify_eq..].
  apply bind_Some in Hs as ([r2 z] & Hf & Hs). apply bind_Some in Hf as ([r3 l] & Hj & [= <- <-]).
  assert (r' = r3) as -> by (destruct (collect_peer_control_results _ _ _); by simplify_eq).
  eapply follow_trans; [exact H|]. eapply follow_join_all; [|exact Hj]. intros id a t t' y Hf. exact (fits_control_freeze _ _ _ _ _ _ _ Hf).
Qed.
Lemma follow_freeze_peers turns r r' x : freeze_peers envs iteration completion show_error local turns r = Some (r', x) -> tasks_follow b r r'.
Proof.
  unfold freeze_peers. intros Hs. apply bind_Some in Hs as ([r1 l] & Hj & Hs).
  assert (H1 : tasks_follow b r r1).
  { eapply follow_join_all; [|exact Hj]. intros id a t t' y Hf. exact (fits_freeze_for_transfer _ _ _ _ _ _ _ Hf). }
  destruct (first_failure l); [|by simplify_eq]. pose proof (follow_resume_peer_controls r1) as H2.
  destruct (resume_peer_controls iteration r1) as [r2 y]. eapply follow_trans; [exact H1|]. by destruct y; simplify_eq.
Qed.
Lemma ok_import_loop l : open_channels b = Ok tt -> forall r, Forall admitted l -> Forall (fun v => v_budgets v = b) l ->
  Z.of_nat (size (peers r)) + len l <= max_peers b -> router_ok b r -> router_ok b (import_loop envs started config l r).1.
Proof.
  intros Ho. induction l as [|v l IH]; intros r Ha Hvb Hs Hr; [done|]. apply Forall_cons in Ha as [Hv Ha]. apply Forall_cons in Hvb as [Hvv Hvb].
  cbn [import_loop]. unfold import_peer. destruct (started (next_task r)) as [now i].
  set (r1 := add_peer _ _ r).
  assert (H1 : router_ok b r1).
  { apply ok_add_peer; [by apply fits_start_imported|cbn [length] in Hs; lia|done]. }
  assert (Hs1 : Z.of_nat (size (peers r1)) + len l <= max_peers b).
  { cbn [length] in Hs. cbn [r1 peers add_peer]. rewrite map_size_insert. destruct (peers r !! v_addr v); cbn; lia. }
  destruct (prepare_peer_snapshot _ _ _ _).2.
  - pose proof (IH (alter_task claim_session_authority (next_task r) r1) Ha Hvb Hs1
      (follow_ok _ _ _ (follow_alter b claim_session_authority (next_task r) r1 ltac:(intros ? _; apply (fits_claim (envs 0%nat)))) H1)) as H2.
    by destruct (import_loop _ _ _ l _).
  - pose proof (IH r1 Ha Hvb Hs1 H1) as H2. by destruct (import_loop _ _ _ l _).
Qed.
Lemma ok_import_peers l r : Forall admitted l -> router_ok b r -> router_ok b (import_peers envs started show_addr config l r).1.
Proof.
  intros Ha Hr. unfold import_peers. destruct (existsb _ l) eqn:He; [done|].
  destruct (Z.ltb_spec (max_peers (budgets_of config)) (saturating_add usize_max (Z.of_nat (size (peers r))) (len l))) as [|Hs]; [done|].
  destruct (duplicate_addr _ _ _); [done|].
  assert (Hvb : Forall (fun v => v_budgets v = b) l).
  { apply Forall_forall. intros v Hv. apply list_elem_of_In in Hv.
    destruct (bool_decide (v_budgets v = budgets_of config)) eqn:E; [by apply bool_decide_eq_true in E|].
    exfalso. rewrite <- not_true_iff_false in He. apply He. apply existsb_exists. exists v. by rewrite E. }
  pose proof (merge_sort_Permutation addr_le l) as Hperm.
  pose proof (prepare_snapshots_Ok config (merge_sort addr_le l)) as Hprep.
  destruct (prepare_peer_snapshots config (merge_sort addr_le l)) as [u|e| |]; [|done..].
  destruct (Hprep u eq_refl) as [Ho|Ho]; [|by rewrite Ho].
  pose proof (ok_import_loop (merge_sort addr_le l) Ho r) as H.
  destruct (import_loop envs started config (merge_sort addr_le l) r) as [r' imported]. apply H; [by rewrite Hperm|by rewrite Hperm| |done].
  rewrite Hperm. unfold saturating_add, budgets_of in Hs. destruct (Z.min_spec usize_max (Z.of_nat (size (peers r)) + len l)) as [[? E]|[? E]]; lia.
Qed.
Lemma ok_run_command turns sent c r r' reply :
  match c with ImportPeers l => Forall admitted l | _ => True end ->
  run_command envs started iteration completion show_addr show_error config local turns sent c r = Some (r', reply) ->
  router_ok b r -> router_ok b r'.
Proof.
  intros Ha H Hr. destruct c as [| |l| | |]; cbn [run_command] in H.
  - simplify_eq. by apply ok_set_modes.
  - destruct (_ || _); [|by simplify_eq]. apply bind_Some in H as ([r1 x] & Hs & [= <- <-]).
    pose proof (follow_ok _ _ _ (follow_resume_peers _ _ _ _ Hs) Hr). destruct (is_ok x); [by apply ok_set_modes|done].
  - destruct (_ || _); [|by simplify_eq]. pose proof (ok_import_peers l r Ha Hr). destruct (import_peers _ _ _ _ _ _). by simplify_eq.
  - destruct (_ && _); [by simplify_eq|]. apply bind_Some in H as ([r1 x] & Hs & [= <- <-]).
    pose proof (follow_ok _ _ _ (follow_freeze_peers _ _ _ _ Hs) Hr). destruct (is_ok x); [by apply ok_set_modes|done].
  - destruct (_ || _); [|simplify_eq; by apply ok_set_modes]. apply bind_Some in H as ([r1 x] & Hs & [= <- <-]).
    pose proof (follow_ok _ _ _ (follow_resume_peers _ _ _ _ Hs) Hr). destruct (is_ok x); [by apply ok_set_modes|done].
  - apply bind_Some in H as ([r1 x] & Hs & [= <- <-]). pose proof (follow_ok _ _ _ (follow_transfer_loop b _ _ _ _ _ _ _ Hs) Hr).
    destruct (is_ok x); [apply ok_router_stop; [lia|done]|done].
Qed.
Lemma ok_report_end id r r' : report_end id r = Some r' -> router_ok b r -> router_ok b r'.
Proof.
  intros H [S Hp Ht]. apply bind_Some in H as (p & E & H). destruct (_ && _); [|done].
  assert (Hr : router_ok b (set_tasks (<[id := mkPeerTask (pt_addr p) (pt_task p) true]> (tasks r)) r)).
  { split; [done| |]; cbn [tasks set_tasks next_task].
    - intros a i Ha. destruct (Hp a i Ha) as (q & H1 & E1). destruct (decide (id = i)) as [<-|Hne].
      + rewrite lookup_insert_eq. eexists. split; [done|]. cbn. congruence.
      + rewrite lookup_insert_ne by done. eauto.
    - intros i q [[<- <-]|[_ Hq]]%lookup_insert_Some; [exact (Ht id p E)|exact (Ht i q Hq)]. }
  cbv zeta in H. case_match; injection H as <-; [exact Hr|by apply ok_set_closed].
Qed.
Definition server_run : Router -> Router -> Prop :=
  rtc (fun r r' => exists ev, event_admitted ev /\ router_event envs started iteration completion show_addr show_error config local ev r = Some r').
Lemma ok_event ev r r' :
  event_admitted ev -> router_event envs started iteration completion show_addr show_error config local ev r = Some r' ->
  router_ok b r -> router_ok b r'.
Proof.
  intros Ha H Hr. destruct ev as [a bytes sends|kind| |c turns sent| |id x|id]; cbn [router_event] in H.
  - destruct (listens r); [|done]. simplify_eq. by apply ok_receive.
  - destruct (listens r); [|done]. simplify_eq. destruct (recoverable_udp_receive_error kind); [done|apply ok_router_stop; [lia|done]].
  - destruct (listens r); [|done]. unfold hear_closed in H. destruct (closed_rx r); simplify_eq. by apply ok_remove_peer, ok_set_closed.
  - destruct (stopped r); [done|]. apply fmap_Some in H as ([r1 reply] & H & ->). eapply ok_run_command; [|exact H|done]. by destruct c; exact Ha.
  - destruct (stopped r); [done|]. simplify_eq. apply ok_router_stop; [lia|done].
  - destruct (bool_decide _); [|done]. simplify_eq. eapply follow_ok, Hr. apply follow_alter. intros p _. apply fits_perform.
  - exact (ok_report_end _ _ _ H Hr).
Qed.
Lemma ok_run r r' : server_run r r' -> router_ok b r -> router_ok b r'.
Proof. induction 1 as [|x y z (ev & Ha & H) _ IH]; [done|]. intros Hr. exact (IH (ok_event _ _ _ Ha H Hr)). Qed.
Lemma ok_router_new paused : router_ok b (router_new paused).
Proof. split; [|done|done]. change (size (peers (router_new paused))) with (size (∅ : gmap SocketAddr nat)). rewrite map_size_empty. lia. Qed.
End Steps.

(** ** The datagrams of strangers *)

(** A reader within its packet, after any of its steps. *)
#[local] Abbreviation within n := (reader_at n 0).
Lemma within_u8 n : hoare (within n) read_u8 (fun _ => within n) read_error.
Proof. eapply hoare_weaken; [apply hoare_read_u8|done| |done]. intros v r [_ H]. eapply reader_at_le; [exact H|lia]. Qed.
Lemma within_bytes n k : 0 <= k -> hoare (within n) (read_bytes k) (fun bs r => len bs = k /\ within n r) read_error.
Proof.
  intros Hk. eapply hoare_weaken; [by apply hoare_read_bytes|done| |done]. intros bs r [H1 H2]. split; [done|]. eapply reader_at_le; [exact H2|lia].
Qed.
Lemma within_be n k err : hoare (within n) (bs ← read_array k err; mret (from_be_bytes bs)) (fun _ => within n) read_error.
Proof. eapply hoare_weaken; [apply hoare_read_be|done| |done]. intros v r [_ H]. eapply reader_at_le; [exact H|lia]. Qed.
Lemma within_i64 n : hoare (within n) read_i64_be (fun _ => within n) read_error.
Proof. eapply hoare_weaken; [apply hoare_read_i64|done| |done]. intros v r H. eapply reader_at_le; [exact H|lia]. Qed.
Lemma within_magic n : hoare (within n) read_magic (fun _ => within n) read_error.
Proof.
  eapply hoare_bind; [by apply within_bytes|]. intros bs. destruct (decide _); [|by apply hoare_throw]. apply hoare_ret. by intros r [_ H].
Qed.
Lemma within_address n : hoare (within n) read_address (fun _ => within n) read_error.
Proof.
  eapply hoare_bind; [apply within_u8|]. intros version. case_match.
  - eapply hoare_bind; [by apply within_bytes|].
    intros [|o0 [|o1 [|o2 [|o3 octets]]]]; [intros r [Hlen _]; done..|].
    apply hoare_pure. intros _. eapply hoare_bind; [apply within_be|]. intros port. by apply hoare_ret.
  - case_match; [|by apply hoare_throw].
    eapply hoare_bind; [by apply within_bytes|]. intros skipped. apply hoare_pure. intros _.
    eapply hoare_bind; [apply within_be|]. intros port. eapply hoare_bind; [apply within_be|]. intros flowinfo.
    eapply hoare_bind; [apply hoare_read_array|]. intros ip. apply hoare_pure. intros _.
    apply (hoare_pre (within n)); [|intros r Hr; eapply reader_at_le; [exact Hr|lia]].
    eapply hoare_bind; [apply within_be|]. intros scope_id. by apply hoare_ret.
Qed.
Lemma decode_offline_total bytes : match decode_offline_request bytes with Ok _ | Err _ => True | _ => False end.
Proof.
  unfold decode_offline_request. destruct bytes as [|b0 bytes]; [done|]. set (l := b0 :: bytes).
  lazymatch goal with |- context [snd (?m _)] => assert (Hm : hoare (within (len l)) m (fun _ _ => True) read_error) end.
  { eapply hoare_bind; [apply within_u8|]. intros first. case_match; [|case_match; [|case_match]].
    - eapply hoare_bind; [apply within_i64|]. intros time. eapply hoare_bind; [apply within_magic|]. intros [].
      eapply hoare_bind; [apply within_i64|]. intros guid. by apply hoare_ret.
    - eapply hoare_bind; [apply within_magic|]. intros []. eapply hoare_bind; [apply within_u8|]. intros protocol. by apply hoare_ret.
    - eapply hoare_bind; [apply within_magic|]. intros []. eapply hoare_bind; [apply within_address|]. intros server.
      eapply hoare_bind; [apply within_be|]. intros mtu. eapply hoare_bind; [apply within_i64|]. intros guid. by apply hoare_ret.
    - by apply hoare_ret. }
  specialize (Hm (reader_new l)).
  lazymatch goal with |- context [snd (?m _)] => destruct (m (reader_new l)) as [r [x|e| |]]; try done end.
  all: exfalso; apply Hm; unfold reader_at, reader_new; cbn [rbytes cursor]; lia.
Qed.

(** ** Properties *)

(** C19: the server never keeps more peers than its budget, keeps every peer under its own address,
    and none of its peers ever crashes or leaves its invariant, whatever datagrams arrive from whom,
    whatever the handles ask, and whatever checkpoints that were validated are imported; the size of
    the packets of a peer stays one that its checkpoint may have. *)
Theorem server_peers_safe envs started iteration completion show_addr show_error config local paused r :
  budgets_ok (sc_budgets config) -> 0 <= peer_command_queue (sc_budgets config) -> 0 <= peer_ingress_queue (sc_budgets config) ->
  0 <= max_peers (sc_budgets config) < usize_max ->
  server_run envs started iteration completion show_addr show_error config local (router_new paused) r ->
  Z.of_nat (size (peers r)) <= max_peers (sc_budgets config) /\
  (forall a id, peers r !! a = Some id -> exists p, tasks r !! id = Some p /\ pt_addr p = a) /\
  (forall id p, tasks r !! id = Some p ->
     task_ok (sc_budgets config) (pt_task p) /\ remote_addr (peer (pt_task p)) = pt_addr p /\
     576 <= mtu (peer (pt_task p)) <= maximum_mtu (sc_budgets config)).
Proof.
  intros Hb Hc Hi Hm Hrun.
  destruct (ok_run envs started iteration completion show_addr show_error config local Hb Hc Hi Hm _ _ Hrun) as [Hs Hp Ht].
  { by apply ok_router_new. }
  split; [done|]. split; [done|]. intros id p Hid. by destruct (Ht id p Hid) as [_ []].
Qed.

Lemma router_send_shape sends bytes a r :
  let r' := (router_send sends bytes a r).1 in
  peers r' = peers r /\ tasks r' = tasks r /\ stopped r' = stopped r /\ next_task r' = next_task r /\
  exists l, outgoing r' = outgoing r ++ l /\ Forall (fun d => d.1 = a) l /\
    match (router_send sends bytes a r).2 with Ok _ | Err _ => True | _ => False end.
Proof. unfold router_send. destruct sends; cbn; split_and!; try done; eexists; (split; [|split; [|done]]); [done|by repeat constructor|by rewrite app_nil_r|done]. Qed.
(** What a datagram of [a] may do. *)
Record touches_only (a : SocketAddr) (r r' : Router) : Prop := mkTouches {
  to_goes_on : stopped r' = stopped r;
  to_peers : forall a', a' <> a -> peers r' !! a' = peers r !! a';
  to_tasks : forall id p, peers r !! a <> Some id -> tasks r !! id = Some p -> tasks r' !! id = Some p;
  to_outgoing : exists l, outgoing r' = outgoing r ++ l /\ Forall (fun d => d.1 = a) l
}.
Lemma touches_sent sends bytes a r : touches_only a r (router_send sends bytes a r).1.
Proof.
  destruct (router_send_shape sends bytes a r) as (E1 & E2 & E3 & E4 & l & E5 & Hl & _).
  split; [done|by rewrite E1|by rewrite E2|by exists l].
Qed.
Lemma touches_refl a r : touches_only a r r.
Proof. split; try done. exists []. by rewrite app_nil_r. Qed.
Lemma touches_removed a r r' :
  (forall id p, tasks r !! id = Some p -> peers r' !! a = Some id -> peers r !! a = Some id) ->
  touches_only a r r' -> touches_only a r (remove_peer a r').
Proof.
  intros Hid [E1 E2 E3 (l & E4 & Hl)]. unfold remove_peer. destruct (peers r' !! a) as [j|] eqn:Hj.
  2: { split; [done..|by exists l]. }
  split; [done| | |by exists l]; cbn.
  - intros a' Hne. rewrite lookup_delete_ne by done. by apply E2.
  - intros id p Hn Hp. rewrite lookup_alter_ne; [by apply E3|]. intros ->. apply Hn. exact (Hid _ _ Hp eq_refl).
Qed.
(** A peer that is started has a new number. *)
Lemma touches_started started config a mtu r :
  peers r !! a = None -> (forall id p, tasks r !! id = Some p -> (id < next_task r)%nat) -> touches_only a r (new_peer started config a mtu r).
Proof.
  intros Ha Hn. unfold new_peer. split; [done| | |exists []; by rewrite app_nil_r]; cbn.
  - intros a' Hne. by rewrite lookup_insert_ne.
  - intros id p _ Hp. rewrite lookup_insert_ne; [done|]. specialize (Hn _ _ Hp). lia.
Qed.
Lemma touches_trans a r1 r2 r3 :
  (forall id p, tasks r1 !! id = Some p -> peers r2 !! a = Some id -> peers r1 !! a = Some id) ->
  touches_only a r1 r2 -> touches_only a r2 r3 -> touches_only a r1 r3.
Proof.
  intros Hid [A1 A2 A3 (l1 & A4 & A5)] [B1 B2 B3 (l2 & B4 & B5)]. split.
  - congruence.
  - intros a' Hne. by rewrite B2, A2.
  - intros id p Hn Hp. apply B3; [|by apply A3]. intros H2. exact (Hn (Hid _ _ Hp H2)).
  - exists (l1 ++ l2). split; [by rewrite B4, A4, app_assoc|by apply Forall_app].
Qed.
Lemma new_peer_number started config a mtu r id p :
  (forall id p, tasks r !! id = Some p -> (id < next_task r)%nat) ->
  tasks r !! id = Some p -> peers (new_peer started config a mtu r) !! a = Some id -> peers r !! a = Some id.
Proof.
  intros Hn Hp. unfold new_peer. cbn. rewrite lookup_insert_eq. intros [= <-]. specialize (Hn _ _ Hp). lia.
Qed.
Lemma touches_receive envs started config sends a bytes r :
  open_channels (sc_budgets config) = Ok tt ->
  (forall id p, tasks r !! id = Some p -> (id < next_task r)%nat) -> touches_only a r (receive envs started config sends a bytes r).
Proof.
  intros Ho Hn. unfold receive.
  assert (H : touches_only a r (route_packet envs started config sends a bytes r).1 /\
    (forall id p, tasks r !! id = Some p -> peers (route_packet envs started config sends a bytes r).1 !! a = Some id -> peers r !! a = Some id) /\
    match (route_packet envs started config sends a bytes r).2 with Ok _ | Err _ => True | _ => False end).
  { unfold route_packet. pose proof (decode_offline_total bytes) as Hd.
    destruct (decode_offline_request bytes) as [[request|]|e| |]; try done; [| |split_and!; [apply touches_refl|done|done]].
    - destruct request as [time|protocol mtu|mtu guid]; cbn [handle_offline].
      + unfold encode_unconnected_pong. destruct (_ <=? _); cbn; [|split_and!; [apply touches_refl|done|done]].
        split_and!; [apply touches_sent|by destruct sends|by destruct sends].
      + split_and!; [apply touches_sent|by destruct sends|by destruct sends].
      + destruct (peers r !! a) as [id0|] eqn:Ha; [split_and!; [apply touches_sent|by destruct sends; cbn; rewrite Ha|by destruct sends]|].
        case_match; [split_and!; [apply touches_refl|cbn; congruence|done]|].
        rewrite start_peer_eq, Ho. cbn [mbind result_bind].
        split_and!; [|destruct sends; rewrite <- Ha; intros id p Hp Hs; exact (new_peer_number started config a (clamp_mtu config mtu) r id p Hn Hp Hs)|by destruct sends].
        eapply touches_trans; [|by apply touches_started|apply touches_sent]. intros id p. by apply new_peer_number.
    - destruct (peers r !! a) as [id|] eqn:Ha; [|split_and!; [apply touches_refl|cbn; congruence|done]].
      destruct (tasks r !! id) as [p|]; [|split_and!; [apply touches_refl|cbn; congruence|done]].
      assert (Ht : forall t, touches_only a r (alter_task (fun _ => t) id r)).
      { intros t. split; [done|done| |exists []; by rewrite app_nil_r]. cbn. intros j q Hj Hq. rewrite lookup_alter_ne; [done|congruence]. }
      assert (Hk : match (deliver (envs id) bytes (pt_task p)).2 with Ok _ | Err _ => True | _ => False end).
      { unfold deliver. repeat case_match; simplify_eq/=; done. }
      destruct (deliver (envs id) bytes (pt_task p)) as [t [x|[]| |]]; cbn in Hk; try done; (split_and!; [apply Ht|cbn; congruence|done]). }
  destruct H as (Ht & Hid & Hk). destruct (route_packet _ _ _ _ _ _ _) as [r' [x|e| |]]; try done. by apply touches_removed.
Qed.

(** C20: a datagram concerns only the address that it came from, whatever its bytes are, malformed or
    not: no other peer changes or is forgotten, nothing is sent to any other address, and the router
    goes on.  (The queues of a peer must have room; a router whose budgets give them none panics when
    it starts its first peer.) *)
Theorem datagram_isolated envs started iteration completion show_addr show_error config local paused r sends a bytes :
  budgets_ok (sc_budgets config) -> open_channels (sc_budgets config) = Ok tt ->
  0 <= max_peers (sc_budgets config) < usize_max ->
  server_run envs started iteration completion show_addr show_error config local (router_new paused) r ->
  touches_only a r (receive envs started config sends a bytes r).
Proof.
  intros Hb Ho Hm Hrun. pose proof (open_channels_Ok _ Ho) as [Hi Hc].
  pose proof (ok_run envs started iteration completion show_addr show_error config local Hb ltac:(lia) ltac:(lia) Hm _ _ Hrun (ok_router_new config Hm paused)) as Hr.
  apply touches_receive; [done|]. intros id p Hp. apply (ro_tasks _ _ Hr _ _ Hp).
Qed.

(** C23: the news that a peer has closed names its address and not the peer.  When the news waits
    while the client of that address connects anew, it closes the new peer: a datagram for the closed
    peer makes the router forget it, the handshake starts another and is answered, and the old news
    then takes the new peer's control away, so that its task stops at its next turn. *)
Theorem stale_close_drops_new_peer envs started iteration completion show_addr show_error config local r a rest id p late request mtu guid :
  listens r = true -> closed_rx r = a :: rest ->
  peers r !! a = Some id -> tasks r !! id = Some p -> status (pt_task p) = Finished ->
  decode_offline_request late = Ok None -> decode_offline_request request = Ok (Some (OpenConnection2 mtu guid)) ->
  Z.of_nat (size (peers r)) <= max_peers (sc_budgets config) -> open_channels (sc_budgets config) = Ok tt ->
  exists r' q,
    router_events envs started iteration completion show_addr show_error config local
      [RtReceived a late true; RtReceived a request true; RtClosed] r = Some r' /\
    outgoing r' = outgoing r ++ [(a, encode_open_connection_reply_2 (server_guid config) a (clamp_mtu config mtu))] /\
    peers r' !! a = None /\ tasks r' !! next_task r = Some q /\ status (pt_task q) = Alive /\
    status (turn (envs (next_task r)) (pt_task q)) = Finished.
Proof.
  intros Hl Hq Ha Hp Hf Hlate Hreq Hs Ho.
  set (r1 := alter_task close_ingress id (set_peers (delete a (peers r)) (alter_task (fun _ => pt_task p) id r))).
  assert (Hr1 : receive envs started config true a late r = r1).
  { unfold receive, route_packet. rewrite Hlate, Ha, Hp. unfold deliver. rewrite bool_decide_true by (rewrite Hf; done). cbn [orb].
    unfold remove_peer. cbn [peers alter_task set_tasks]. by rewrite Ha. }
  assert (Hr2 : receive envs started config true a request r1
      = (router_send true (encode_open_connection_reply_2 (server_guid config) a (clamp_mtu config mtu)) a (new_peer started config a (clamp_mtu config mtu) r1)).1).
  { unfold receive, route_packet. rewrite Hreq. cbn [handle_offline]. cbn [r1 peers alter_task set_tasks set_peers].
    rewrite lookup_delete_eq. pose proof (map_size_delete a (peers r)) as Hd. rewrite Ha in Hd. cbn in Hd.
    assert (Hn : size (peers r) <> 0%nat) by (intros E%map_size_empty_iff; by rewrite E, lookup_empty in Ha). unfold budgets_of.
    destruct (Z.leb_spec (max_peers (sc_budgets config)) (Z.of_nat (size (delete a (peers r))))); [lia|]. by rewrite start_peer_eq, Ho. }
  cbn [router_events router_event]. rewrite Hl. cbn. rewrite Hr1. change (listens r1) with (listens r). rewrite Hl. cbn. rewrite Hr2.
  unfold new_peer. cbn [r1 next_task alter_task set_peers set_tasks]. destruct (started (next_task r)) as [created i]. cbn [fst snd].
  change (listens _) with (listens r). rewrite Hl. unfold hear_closed, remove_peer. cbn. rewrite Hq. cbn. rewrite lookup_insert_eq. cbn.
  do 2 eexists. split; [done|]. cbn. rewrite lookup_delete_eq, lookup_alter_eq, lookup_insert_eq. cbn. split_and!; done.
Qed.

(** *** At concrete inputs *)

Definition sample_config : ServerConfig :=
  mkServerConfig (V4 (replicate 4 (Z_byte 0)) 19132) "world" "server" "1.21" 924 11 20 0 7 default_budgets.
Definition sample_addr : SocketAddr := V4 (map Z_byte [10; 0; 0; 1]) 40000.
Definition sample_open : list byte := u8_bytes 7 ++ MAGIC ++ write_address (V4 (map Z_byte [10; 0; 0; 9]) 19132) ++ to_be_bytes 2 1400 ++ i64_be 99.
Definition sample_started (_ : nat) : Z * IO := (0, quiet).
Definition sample_connected : Router := receive (fun _ => sample_env) sample_started sample_config true sample_addr sample_open (router_new false).
Lemma sample_run :
  server_run (fun _ => sample_env) sample_started map_to_list id (fun _ => EmptyString) (fun _ => EmptyString) sample_config sample_addr
    (router_new false) sample_connected.
Proof. apply rtc_once. exists (RtReceived sample_addr sample_open true). done. Qed.
Lemma sample_budgets_ok : budgets_ok default_budgets.
Proof. unfold budgets_ok. vm_compute. intuition discriminate. Qed.

Lemma server_peers_safe_witness :
  size (peers sample_connected) = 1%nat /\
  exists p, tasks sample_connected !! 0%nat = Some p /\ task_ok default_budgets (pt_task p).
Proof.
  split; [vm_compute; reflexivity|].
  destruct (server_peers_safe (fun _ => sample_env) sample_started map_to_list id (fun _ => EmptyString) (fun _ => EmptyString) sample_config
    sample_addr false sample_connected sample_budgets_ok ltac:(done) ltac:(done) ltac:(done) sample_run) as (_ & Hp & Ht).
  destruct (Hp sample_addr 0%nat) as (p & H & _); [vm_compute; reflexivity|]. exists p. split; [exact H|apply (Ht _ _ H)].
Defined.
(** A malformed request from another address leaves the peer alone. *)
Lemma datagram_isolated_witness :
  peers (receive (fun _ => sample_env) sample_started sample_config true (V4 (map Z_byte [10; 0; 0; 2]) 1) [Z_byte 1] sample_connected) !! sample_addr = Some 0%nat.
Proof.
  destruct (datagram_isolated (fun _ => sample_env) sample_started map_to_list id (fun _ => EmptyString) (fun _ => EmptyString) sample_config
    sample_addr false sample_connected true (V4 (map Z_byte [10; 0; 0; 2]) 1) [Z_byte 1] sample_budgets_ok ltac:(reflexivity) ltac:(done) sample_run)
    as [_ H _ _].
  rewrite H by done. vm_compute. reflexivity.
Defined.
Definition sample_closed : Router :=
  mkRouter {[sample_addr := 0%nat]} [sample_addr]
    {[0%nat := mkPeerTask sample_addr (stop (start_new sample_addr 1400 default_budgets 0 quiet)) true]} 1 false false false [].
Lemma stale_close_drops_new_peer_witness :
  exists r', router_events (fun _ => sample_env) sample_started map_to_list id (fun _ => EmptyString) (fun _ => EmptyString) sample_config sample_addr
    [RtReceived sample_addr [Z_byte 0xc0] true; RtReceived sample_addr sample_open true; RtClosed] sample_closed = Some r' /\ peers r' !! sample_addr = None.
Proof.
  destruct (stale_close_drops_new_peer (fun _ => sample_env) sample_started map_to_list id (fun _ => EmptyString) (fun _ => EmptyString) sample_config
    sample_addr sample_closed sample_addr [] 0%nat (mkPeerTask sample_addr (stop (start_new sample_addr 1400 default_budgets 0 quiet)) true)
    [Z_byte 0xc0] sample_open 1400 99 ltac:(vm_compute; reflexivity) ltac:(reflexivity) ltac:(vm_compute; reflexivity) ltac:(vm_compute; reflexivity)
    ltac:(reflexivity) ltac:(vm_compute; reflexivity) ltac:(vm_compute; reflexivity) ltac:(vm_compute; discriminate) ltac:(reflexivity))
    as (r' & q & Hr & _ & Hp & _).
  exists r'. split; [exact Hr|exact Hp].
Defined.
