(* ===== verification/RaknetMigration.v ===== *)
(** * Moving the peers of a RakNet server

    A freeze of the server seals the peers that its router owns; its successor imports what was
    sealed. *)

From stdpp Require Import sorting.
From S2P Require Import Prelude Bytes RaknetSequence RaknetBudget RaknetWire RaknetPeer RaknetPeerInv RaknetTransfer RaknetLoop RaknetServer RaknetRouter.

(** ** A peer that is asked to freeze *)

Definition replied (id : Z) (t : Task) : Prop := id ∈ map fst (replies t).
Lemma take_reply_None id t : take_reply id t = None <-> ~ replied id t.
Proof.
  unfold take_reply, replied. rewrite fmap_None, list_find_None, Forall_forall. split.
  - intros H (p & E & Hp)%list_elem_of_fmap. exact (H p Hp (eq_sym E)).
  - intros H p Hp E. apply H. apply list_elem_of_fmap. eauto.
Qed.
Lemma fresh_reply_new t id : id ∈ reply_ids t -> id < fresh_reply t.
Proof.
  unfold fresh_reply. induction (reply_ids t) as [|i l IH]; [intros []%elem_of_nil|]. intros [->|H]%elem_of_cons; cbn; [lia|]. specialize (IH H). lia.
Qed.
Lemma fresh_reply_unused t : fresh_reply t ∉ reply_ids t.
Proof. intros H%fresh_reply_new. lia. Qed.
Lemma take_reply_snoc id reply t w e d c cc ig ic s :
  ~ replied id t -> take_reply id (mkTask w e d c cc ig ic (replies t ++ [(id, reply)]) s) = Some reply.
Proof.
  intros Hn%take_reply_None. unfold take_reply in *. cbn [RaknetLoop.replies]. apply fmap_None in Hn.
  rewrite list_find_app_r by done. cbn. rewrite decide_True by done. done.
Qed.

Section Freeze.
Context (env : Env) (id : Z).
(** No command but the last is answered under [id]. *)
Definition unanswered (t : Task) : Prop := ~ replied id t /\ id ∉ concat (map command_reply (deferred t)).
Definition awaits_freeze (t : Task) : Prop :=
  unanswered t /\ commands_closed t = false /\ exists before, commands t = before ++ [Freeze id] /\ id ∉ concat (map command_reply before).
Definition has_frozen (t : Task) : Prop := status t = Alive /\ commands t = [] /\ commands_closed t = false /\ exists since, execution t = Frozen since.
Definition has_ended (t : Task) : Prop := status t <> Alive /\ ~ replied id t.

Lemma replied_reply_to i r t : i <> id -> replied id (reply_to i r t) -> replied id t.
Proof. unfold replied. cbn. rewrite map_app, elem_of_app. cbn. intros Hne [H|H%list_elem_of_singleton]; [done|congruence]. Qed.
(** A command that is answered under another name leaves the task waiting, or ends it. *)
Lemma awaits_apply_command c t : id ∉ command_reply c -> awaits_freeze t -> awaits_freeze (apply_command env c t) \/ has_ended (apply_command env c t).
Proof.
  intros Hc ([Hn Hd] & Hcl & before & Hb & Hbid).
  assert (Hother : forall i r, i <> id -> ~ replied id (reply_to i r t)) by (intros i r Hi Hr; exact (Hn (replied_reply_to i r t Hi Hr))).
  destruct c as [payload i|i|i| |i]; cbn in Hc.
  - assert (i <> id) by set_solver. unfold apply_command. destruct (send_application env payload (world t)) as [w [x|e| |]].
    + left. split; [split; [|done]|split; [done|by exists before]]. exact (Hother i _ ltac:(done)).
    + right. split; [done|]. exact (Hother i _ ltac:(done)).
    + right. by split.
    + right. by split.
  - assert (i <> id) by set_solver. left. split; [split; [|done]|split; [done|by exists before]]. exact (Hother i _ ltac:(done)).
  - assert (i <> id) by set_solver. left. split; [split; [|done]|split; [done|by exists before]]. exact (Hother i _ ltac:(done)).
  - left. split; [done|split; [done|by exists before]].
  - assert (i <> id) by set_solver. right. split; [done|]. exact (Hother i _ ltac:(done)).
Qed.
Lemma awaits_frozen_command since c t : id ∉ command_reply c -> awaits_freeze t -> awaits_freeze (frozen_command env since c t) \/ has_ended (frozen_command env since c t).
Proof.
  intros Hc ([Hn Hd] & Hcl & before & Hb & Hbid).
  assert (Hother : forall i r, i <> id -> ~ replied id (reply_to i r t)) by (intros i r Hi Hr; exact (Hn (replied_reply_to i r t Hi Hr))).
  destruct c as [payload i|i|i| |i]; cbn in Hc.
  - assert (i <> id) by set_solver. left. unfold frozen_command. case_match.
    + split; [split; [done|]|split; [done|by exists before]]. cbn. rewrite map_app, concat_app, elem_of_app. cbn. set_solver.
    + split; [split; [|done]|split; [done|by exists before]]. exact (Hother i _ ltac:(done)).
  - assert (i <> id) by set_solver. left. split; [split; [|done]|split; [done|by exists before]]. exact (Hother i _ ltac:(done)).
  - assert (i <> id) by set_solver. left. split; [split; [|done]|split; [done|by exists before]]. exact (Hother i _ ltac:(done)).
  - left. split; [done|split; [done|by exists before]].
  - assert (i <> id) by set_solver. right. split; [done|]. exact (Hother i _ ltac:(done)).
Qed.
Lemma awaits_turn t : status t = Alive -> awaits_freeze t -> awaits_freeze (turn env t) \/ has_frozen (turn env t) \/ has_ended (turn env t).
Proof.
  intros Hs Ha. pose proof Ha as ([Hn Hd] & Hcl & before & Hb & Hbid). unfold turn. rewrite Hs.
  destruct (execution t) as [|since] eqn:He.
  - destruct (deferred t) as [|c rest] eqn:Hdef.
    + rewrite Hb. destruct before as [|c before]; cbn [app].
      * right; left. cbn. split_and!; [done|done|done|by eexists].
      * cbn in Hbid. apply not_elem_of_app in Hbid as [Hc Hbid].
        destruct (awaits_apply_command c (set_commands (before ++ [Freeze id]) t) Hc) as [H|H]; [|by left|by right; right].
        split; [split; [done|by cbn; rewrite Hdef]|]. split; [done|]. by exists before.
    + cbn in Hd. apply not_elem_of_app in Hd as [Hc Hd].
      destruct (awaits_apply_command c (set_deferred rest t) Hc) as [H|H]; [|by left|by right; right].
      split; [done|]. split; [done|]. by exists before.
  - rewrite Hb. destruct before as [|c before]; cbn [app].
    + right; left. cbn. split_and!; [done|done|done|by eexists].
    + cbn in Hbid. apply not_elem_of_app in Hbid as [Hc Hbid].
      destruct (awaits_frozen_command since c (set_commands (before ++ [Freeze id]) t) Hc) as [H|H]; [|by left|by right; right].
      split; [done|]. split; [done|]. by exists before.
Qed.
Lemma awaits_run_turns n : forall t, awaits_freeze t \/ has_frozen t \/ has_ended t ->
  awaits_freeze (run_turns env n t) \/ has_frozen (run_turns env n t) \/ has_ended (run_turns env n t).
Proof.
  induction n as [|n IH]; intros t H; [done|]. rewrite run_turns_S. apply IH.
  destruct (status t) eqn:Hs.
  2,3: unfold turn; rewrite Hs; exact H.
  destruct H as [H|[(_ & Hc & Hcl & since & He)|[Hne _]]]; [by apply awaits_turn| |done].
  right; left. unfold turn. rewrite Hs, He, Hc, Hcl. split_and!; [done|done|done|by exists since].
Qed.
End Freeze.

Lemma reply_ids_unanswered id t : id ∉ reply_ids t -> unanswered id t /\ id ∉ concat (map command_reply (commands t)).
Proof.
  unfold reply_ids, unanswered, replied. rewrite map_app, concat_app, !not_elem_of_app. naive_solver.
Qed.
Lemma try_send_Ok c t t' u : try_send c t = (t', Ok u) -> status t = Alive /\ commands_closed t = false /\ t' = set_commands (commands t ++ [c]) t.
Proof.
  unfold try_send. destruct (status t) eqn:Hs; cbn; try done. destruct (commands_closed t); cbn; [done|]. destruct (_ <? _); [|done]. by intros [= <- _].
Qed.
(** A peer that answers [Freeze] is frozen, with nothing left to do. *)
Lemma control_freeze_Ok env turns t t' u : control_freeze env turns t = Some (t', Ok u) -> has_frozen t'.
Proof.
  unfold control_freeze. intros H%bind_Some. destruct H as ([t1 r1] & Hc & [= <- Hr]).
  unfold control_call in Hc. destruct (try_send _ t) as [t0 [x|e| |]] eqn:Hs; [|destruct e; by simplify_eq/=|done|done].
  apply try_send_Ok in Hs as (Hal & Hcl & ->). set (id := fresh_reply t) in *.
  destruct (reply_ids_unanswered id t (fresh_reply_unused t)) as [Hun Hcs].
  destruct (awaits_run_turns env id turns (set_commands (commands t ++ [Freeze id]) t)) as [H|[H|[_ H]]].
  - left. split; [done|]. split; [done|]. by exists (commands t).
  - destruct H as ([Hn _] & _). apply take_reply_None in Hn. rewrite Hn in Hc. case_match; [done|]. by simplify_eq/=.
  - destruct (take_reply _ _); [by simplify_eq|]. case_match; [done|]. by simplify_eq/=.
  - apply take_reply_None in H. rewrite H in Hc. case_match; [done|]. by simplify_eq/=.
Qed.
Lemma idle_turns env n t : has_frozen t -> run_turns env n t = t.
Proof.
  intros (Hs & Hc & Hcl & since & He). induction n as [|n IH]; [done|]. rewrite run_turns_S.
  assert (E : turn env t = t) by (unfold turn; by rewrite Hs, He, Hc, Hcl). by rewrite E.
Qed.
(** A frozen peer answers [SealTransfer] with the checkpoint of the instant at which it froze. *)
Lemma control_seal_Ok env turns t t' s :
  has_frozen t -> control_seal env turns t = Some (t', Ok s) ->
  has_frozen t' /\ peer t' = peer t /\ exists since, execution t' = Frozen since /\ s = snapshot since (peer t').
Proof.
  intros (Hs & Hc & Hcl & since & He) H%bind_Some. destruct H as ([t1 r1] & Hcall & H).
  unfold control_call in Hcall. destruct (try_send _ t) as [t0 [x|e| |]] eqn:Ht; [|destruct e; by simplify_eq/=|done|done].
  apply try_send_Ok in Ht as (_ & _ & ->). rewrite Hc in Hcall. cbn [app] in Hcall. set (id := fresh_reply t) in *.
  destruct (reply_ids_unanswered id t (fresh_reply_unused t)) as [[Hn _] _].
  destruct turns as [|n].
  { change (run_turns env 0 ?x) with x in Hcall. apply take_reply_None in Hn. unfold take_reply in *. cbn [replies set_commands] in Hcall.
    rewrite Hn in Hcall. rewrite bool_decide_true in Hcall by done. done. }
  rewrite run_turns_S in Hcall. set (t2 := reply_to id (Sealed (snapshot since (peer t))) t).
  assert (E : turn env (set_commands [SealTransfer id] t) = t2).
  { unfold turn. cbn [status set_commands]. rewrite Hs. cbn [execution set_commands]. rewrite He. cbn [commands set_commands frozen_command].
    unfold t2, reply_to. cbn. by rewrite Hc. }
  assert (H2 : has_frozen t2) by (split_and!; [done|done|done|by exists since]).
  rewrite E, idle_turns in Hcall by exact H2. unfold t2, reply_to in Hcall. rewrite take_reply_snoc in Hcall by exact Hn.
  simplify_eq. split; [exact H2|]. split; [done|]. exists since. done.
Qed.
Definition sealed_as (t : Task) (s : PeerSnapshot) : Prop :=
  status t = Alive /\ exists since, execution t = Frozen since /\ s = snapshot since (peer t).
Lemma freeze_for_transfer_Ok env turns t t' s : control_freeze_for_transfer env turns t = Some (t', Ok s) -> sealed_as t' s.
Proof.
  unfold control_freeze_for_transfer. intros H%bind_Some. destruct H as ([t1 [u|e| |]] & Hf & H); cbn in H; try by simplify_eq.
  apply control_freeze_Ok in Hf. destruct (control_seal_Ok _ _ _ _ _ Hf H) as ((Hs & _) & _ & Hx). by split.
Qed.
(** Nothing but a checkpoint or an error comes back. *)
Lemma freeze_for_transfer_result env turns t t' r : control_freeze_for_transfer env turns t = Some (t', r) ->
  match r with Ok _ | Err _ => True | _ => False end.
Proof.
  assert (Hcall : forall c n t t' r, control_call env c n t = Some (t', r) -> match r with Ok _ | Err _ => True | _ => False end).
  { intros c n u u' x. unfold control_call. destruct (try_send _ u) as [u0 [y|e| |]]; [|destruct e; by intros [= <- <-]|done|done].
    destruct (take_reply _ _); [by intros [= <- <-]|]. case_match; [done|]. by intros [= <- <-]. }
  unfold control_freeze_for_transfer. intros H%bind_Some. destruct H as ([t1 r1] & Hf & H).
  apply bind_Some in Hf as ([t2 r2] & Hf & [= <- <-]). apply Hcall in Hf. destruct r2; try done; cbn in H; [|by simplify_eq].
  apply bind_Some in H as ([t3 r3] & Hs & H). apply Hcall in Hs. destruct r3 as [[]|e| |]; by simplify_eq.
Qed.

(** ** The freeze of a server *)

(** The task of an entry of the router's map holds what was sealed for it. *)
Definition sealed_for (r : Router) (kv : SocketAddr * nat) (s : PeerSnapshot) : Prop :=
  exists p, tasks r !! kv.2 = Some p /\ sealed_as (pt_task p) s.
Lemma join_all_keeps {A} (call : nat -> Task -> option (Task * A)) l id : forall r r' xs,
  join_all call l r = Some (r', xs) -> id ∉ map snd l -> tasks r' !! id = tasks r !! id.
Proof.
  induction l as [|[a j] l IH]; intros r r' xs Hj Hid; cbn in Hj; [by simplify_eq|].
  apply bind_Some in Hj as (p & Hp & Hj). apply bind_Some in Hj as ([t x] & Hc & Hj). apply bind_Some in Hj as ([r1 ys] & Hj & [= <- <-]).
  cbn in Hid. apply not_elem_of_cons in Hid as [Hne Hid]. rewrite (IH _ _ _ Hj Hid). cbn. by rewrite lookup_alter_ne.
Qed.
Lemma join_all_sealed envs turns l : forall r r' xs,
  NoDup (map snd l) -> join_all (fun id => control_freeze_for_transfer (envs id) (turns id)) l r = Some (r', xs) -> first_failure xs = None ->
  Forall2 (sealed_for r') l (successes xs).
Proof.
  induction l as [|[a id] l IH]; intros r r' xs Hnd Hj Hff; cbn in Hj; [simplify_eq; constructor|].
  apply bind_Some in Hj as (p & Hp & Hj). apply bind_Some in Hj as ([t x] & Hc & Hj). apply bind_Some in Hj as ([r1 ys] & Hj & [= <- <-]).
  cbn in Hnd. apply NoDup_cons in Hnd as [Hid Hnd].
  pose proof (freeze_for_transfer_result _ _ _ _ _ Hc) as Hx. destruct x as [s|e| |]; try done. cbn in Hff |- *. constructor.
  - exists (mkPeerTask (pt_addr p) t (pt_reported p)). cbn. split; [|exact (freeze_for_transfer_Ok _ _ _ _ _ Hc)].
    rewrite (join_all_keeps _ _ _ _ _ _ Hj Hid). cbn. by rewrite lookup_alter_eq, Hp.
  - exact (IH _ _ _ Hnd Hj Hff).
Qed.
Lemma NoDup_fst_filter {A B} (P : A * B -> Prop) `{!forall x, Decision (P x)} (l : list (A * B)) : NoDup (map fst l) -> NoDup (map fst (filter P l)).
Proof.
  induction l as [|x l IH]; [done|]. cbn [map]. intros [Hx Hnd]%NoDup_cons. rewrite filter_cons. case_decide; [|by apply IH].
  cbn [map]. constructor; [|by apply IH]. intros (y & E & [_ Hy]%list_elem_of_filter)%list_elem_of_fmap. apply Hx, list_elem_of_fmap. by exists y.
Qed.
(** Entries of the router have peers of their own. *)
Lemma owned_ids_NoDup b r l : router_ok b r -> l ≡ₚ map_to_list (peers r) -> NoDup (map snd (owned r l)) /\ NoDup (map fst (owned r l)).
Proof.
  intros Hr Hl. assert (Hnd : NoDup (map fst (owned r l))).
  { apply NoDup_fst_filter. change (NoDup (l.*1)). rewrite Hl. apply NoDup_fst_map_to_list. }
  split; [|done].
  assert (Hin : forall kv, kv ∈ owned r l -> peers r !! kv.1 = Some kv.2).
  { intros [a id] [_ Hkv]%list_elem_of_filter. rewrite Hl in Hkv. by apply elem_of_map_to_list in Hkv. }
  revert Hnd Hin. generalize (owned r l). intros m. induction m as [|[a id] m IH]; cbn; [constructor|]. intros [Ha Hnd]%NoDup_cons Hin.
  constructor; [|apply IH; [done|]; intros kv Hkv; apply Hin; by right].
  intros (kv & E & Hkv)%list_elem_of_fmap. cbn in E. subst id.
  destruct (ro_peers _ _ Hr kv.1 kv.2) as (p1 & H1 & E1); [apply Hin; by right|].
  destruct (ro_peers _ _ Hr a kv.2) as (p2 & H2 & E2); [exact (Hin (a, kv.2) ltac:(by left))|]. simplify_eq.
  apply Ha. apply list_elem_of_fmap. by exists kv.
Qed.
(** The payloads that wait for delivery fit the budget. *)
Definition payloads_fit (b : RakNetBudgets) (a : PeerActor) : Prop :=
  Forall (payload_fits b) (queue (inbox a)) /\ map_Forall (fun _ p => payload_fits b p) (ordered_holdback a).
Lemma sealed_admitted b a t s :
  task_fits b a t -> sealed_as t s -> payloads_fit b (peer t) ->
  PeerSnapshot.remote_addr s = a /\ exists v, into_validated s b = Ok v /\ checkpoint v = s /\ v_budgets v = b.
Proof.
  intros [[[Hok Hbud] _ _ _ _ _] Ha Hm _] (_ & since & _ & ->) Hp. split; [exact Ha|].
  destruct (snapshot_admission since (peer t) Hok) as [_ H]; [by rewrite Hbud|]. rewrite Hbud in H. rewrite (H Hp). by eexists.
Qed.

(** ** The import *)

Lemma duplicate_addr_None held l : forall seen,
  duplicate_addr held seen l = None <-> NoDup (map v_addr l) /\ Forall (fun v => held !! v_addr v = None /\ v_addr v ∉ seen) l.
Proof.
  induction l as [|v l IH]; intros seen; cbn; [split; [by repeat constructor|done]|].
  rewrite NoDup_cons, Forall_cons.
  destruct (held !! v_addr v) as [id|] eqn:Hh.
  { rewrite bool_decide_true by done. cbn. split; [done|]. naive_solver. }
  rewrite (bool_decide_false (is_Some None)) by (by intros [? ?]). cbn.
  case_bool_decide as Hs; [split; [done|naive_solver]|]. rewrite IH, list_elem_of_fmap. rewrite !Forall_forall. split.
  - intros [Hnd H]. split_and!; [|done|done|done|].
    + intros (w & E & Hw). destruct (H w Hw) as [_ Hn]. set_solver.
    + intros w Hw. destruct (H w Hw). set_solver.
  - intros ([Hn Hnd] & _ & H). split; [done|]. intros w Hw. destruct (H w Hw) as [H1 H2]. split; [done|].
    rewrite not_elem_of_union, elem_of_singleton. split; [|done]. intros E. apply Hn. by exists w.
Qed.

Section Importing.
Context (envs : nat -> Env) (started : nat -> Z * IO) (show_addr : SocketAddr -> string) (config : ServerConfig).
#[local] Abbreviation b := (sc_budgets config).
(** The task of a checkpoint: frozen, and claimed by a session when its handshake was complete. *)
Definition imported_task (id : nat) (v : ValidatedPeerSnapshot) : Task :=
  let t := start_imported (envs id) (started id).1 v b (started id).2 in
  if PeerSnapshot.accepted (checkpoint v) then claim_session_authority t else t.
Lemma import_peer_eq v r :
  let r' := (import_peer envs started config v r).1 in
  peers r' = <[v_addr v := next_task r]> (peers r) /\
  tasks r' = <[next_task r := mkPeerTask (v_addr v) (imported_task (next_task r) v) false]> (tasks r) /\ next_task r' = S (next_task r).
Proof.
  unfold import_peer, imported_task, prepare_peer_snapshot, budgets_of. destruct (started (next_task r)) as [now i]. cbn.
  destruct (PeerSnapshot.accepted (checkpoint v)); cbn; [|done]. split; [done|]. split; [|done]. by rewrite alter_insert_eq.
Qed.
Lemma import_loop_spec l : forall r,
  NoDup (map v_addr l) -> (forall id p, tasks r !! id = Some p -> (id < next_task r)%nat) ->
  let r' := (import_loop envs started config l r).1 in
  (forall a, a ∉ map v_addr l -> peers r' !! a = peers r !! a) /\
  (forall id p, tasks r !! id = Some p -> tasks r' !! id = Some p) /\
  (forall v, v ∈ l -> exists id, peers r' !! v_addr v = Some id /\ tasks r' !! id = Some (mkPeerTask (v_addr v) (imported_task id v) false)).
Proof.
  induction l as [|v l IH]; intros r Hnd Hn; cbn -[import_peer]; [split_and!; try done; intros v []%elem_of_nil|].
  destruct (import_peer_eq v r) as (Hp & Ht & Hx). destruct (import_peer envs started config v r) as [r1 got]. cbn [fst] in *.
  cbn in Hnd. apply NoDup_cons in Hnd as [Hv Hnd].
  destruct (IH r1 Hnd) as (I1 & I2 & I3).
  { intros id p. rewrite Ht, Hx. intros [[<- _]|[_ H]]%lookup_insert_Some; [lia|]. specialize (Hn _ _ H). lia. }
  destruct (import_loop envs started config l r1) as [r2 rest]. cbn [fst] in *. split_and!.
  - intros a [Hne Ha]%not_elem_of_cons. rewrite I1 by done. rewrite Hp. by rewrite lookup_insert_ne.
  - intros id p H. apply I2. rewrite Ht, lookup_insert_ne; [done|]. specialize (Hn _ _ H). lia.
  - intros w [->|Hw]%elem_of_cons; [|by apply I3]. exists (next_task r). rewrite I1 by done. rewrite Hp, lookup_insert_eq. split; [done|].
    apply I2. by rewrite Ht, lookup_insert_eq.
Qed.
(** What [import_peers] admits. *)
Definition importable (r : Router) (l : list ValidatedPeerSnapshot) : Prop :=
  Forall (fun v => v_budgets v = b) l /\ saturating_add usize_max (Z.of_nat (size (peers r))) (len l) <= max_peers b /\
  NoDup (map v_addr l) /\ Forall (fun v => peers r !! v_addr v = None) l /\
  (l = [] \/ open_channels b = Ok tt).
Definition all_imported (l : list ValidatedPeerSnapshot) (r r' : Router) : Prop :=
  (forall a, a ∉ map v_addr l -> peers r' !! a = peers r !! a) /\
  (forall id p, tasks r !! id = Some p -> tasks r' !! id = Some p) /\
  (forall v, v ∈ l -> exists id, peers r' !! v_addr v = Some id /\ tasks r' !! id = Some (mkPeerTask (v_addr v) (imported_task id v) false)).
Lemma prepare_snapshots_cases l :
  match prepare_peer_snapshots config l with
  | Ok _ => l = [] \/ open_channels b = Ok tt
  | Err _ => ~ (l = [] \/ open_channels b = Ok tt)
  | _ => False
  end.
Proof.
  unfold prepare_peer_snapshots, budgets_of. destruct l; [by left|]. destruct (open_channels_cases b) as [E|E]; rewrite E; [by right|naive_solver].
Qed.
Lemma budgets_checked l : existsb (fun v => negb (bool_decide (v_budgets v = budgets_of config))) l = false <-> Forall (fun v => v_budgets v = b) l.
Proof.
  unfold budgets_of. induction l as [|v l IH]; cbn; [done|]. rewrite orb_false_iff, IH, Forall_cons, negb_false_iff, bool_decide_eq_true. done.
Qed.
Lemma import_peers_spec l r :
  (forall id p, tasks r !! id = Some p -> (id < next_task r)%nat) ->
  match import_peers envs started show_addr config l r with
  | (r', Ok ids) => importable r l /\ all_imported l r r'
  | (r', Err _) => r' = r /\ ~ importable r l
  | _ => False
  end.
Proof.
  intros Hn. unfold import_peers, importable. pose proof (budgets_checked l) as Hbud.
  destruct (existsb _ l); [split; [done|]; intros (H & _); by apply Hbud in H|]. destruct Hbud as [Hbud _]. specialize (Hbud eq_refl).
  destruct (Z.ltb_spec (max_peers (budgets_of config)) (saturating_add usize_max (Z.of_nat (size (peers r))) (len l))) as [Hlt|Hle]; unfold budgets_of in *.
  { split; [done|]. intros (_ & H & _). lia. }
  pose proof (merge_sort_Permutation addr_le l) as Hperm. pose proof (duplicate_addr_None (peers r) (merge_sort addr_le l) ∅) as Hdup.
  assert (Hpm : map v_addr (merge_sort addr_le l) ≡ₚ map v_addr l) by (by apply Permutation_map).
  destruct (duplicate_addr _ _ _) as [a|]; rewrite Hpm, Hperm in Hdup.
  { split; [done|]. intros (_ & _ & H1 & H2 & _). destruct Hdup as [_ Hdup]. discriminate Hdup.
    split; [done|]. eapply Forall_impl; [exact H2|]. intros v Hv. split; [done|set_solver]. }
  destruct Hdup as [Hdup _]. destruct (Hdup eq_refl) as [Hnd Hfree].
  assert (Hnd' : NoDup (map v_addr (merge_sort addr_le l))) by by rewrite Hpm.
  assert (Hnil : merge_sort addr_le l = [] <-> l = []).
  { split; intros E; [by rewrite E in Hperm; apply Permutation_nil_l in Hperm|by subst l]. }
  pose proof (prepare_snapshots_cases (merge_sort addr_le l)) as Hprep.
  destruct (prepare_peer_snapshots config (merge_sort addr_le l)) as [u|e| |]; [|split; [done|]; intros (_ & _ & _ & _ & [E|E]); apply Hprep; [by left; apply Hnil|by right]|done..].
  destruct (import_loop_spec (merge_sort addr_le l) r Hnd' Hn) as (I1 & I2 & I3).
  destruct (import_loop envs started config (merge_sort addr_le l) r) as [r' ids]. cbn [fst] in *. split.
  - split_and!; [done|lia|done| |destruct Hprep as [E|E]; [left; by apply Hnil|by right]].
    eapply Forall_impl; [exact Hfree|]. by intros v [H _].
  - split_and!; [|done|].
    + intros a Ha. apply I1. by rewrite Hpm.
    + intros v Hv. apply I3. by rewrite Hperm.
Qed.
End Importing.

Lemma collect_validated b snaps : Forall (fun s => exists v, into_validated s b = Ok v) snaps ->
  exists vs, collect_results (fun s => into_validated s b) snaps = Ok vs /\ Forall2 (fun s v => into_validated s b = Ok v) snaps vs.
Proof.
  induction 1 as [|s snaps (v & Hv) _ (vs & E & Hf)]; [by exists []|]. exists (v :: vs). cbn. rewrite Hv, E. split; [done|by constructor].
Qed.
Lemma validated_addrs b snaps vs : Forall2 (fun s v => into_validated s b = Ok v) snaps vs ->
  map v_addr vs = map PeerSnapshot.remote_addr snaps /\ Forall (fun v => v_budgets v = b) vs /\ Forall2 (fun s v => checkpoint v = s) snaps vs.
Proof.
  induction 1 as [|s v snaps vs Hv _ (IH1 & IH2 & IH3)]; [done|]. destruct (into_validated_Ok _ _ _ Hv) as (Hs & Hb & _).
  split_and!; [|by constructor|by constructor]. cbn. unfold v_addr at 1. by rewrite Hs, IH1.
Qed.
(** Where a checkpoint comes from: the entry of the router, and the task that was sealed as it. *)
Definition from_parent (r r' : Router) (a : SocketAddr) (s : PeerSnapshot) : Prop :=
  exists id p, peers r !! a = Some id /\ is_router_owned id r = true /\ tasks r' !! id = Some p /\ sealed_as (pt_task p) s.

Section Arrival.
Context (envs : nat -> Env) (started : nat -> Z * IO).
Context (iteration : gmap SocketAddr nat -> list (SocketAddr * nat)) (completion : list (SocketAddr * nat) -> list (SocketAddr * nat)).
Context (show_addr : SocketAddr -> string) (show_error : RakNetError -> string).
Context (config : ServerConfig) (local : SocketAddr).
#[local] Abbreviation b := (sc_budgets config).
Context (Hit : forall m, iteration m ≡ₚ map_to_list m) (Hco : forall l, completion l ≡ₚ l).

(** Each owned peer is sealed once, under its address. *)
Lemma freeze_peers_sealed turns r r' snap :
  router_ok b r -> freeze_peers envs iteration completion show_error local turns r = Some (r', Ok snap) ->
  (forall id p, tasks r' !! id = Some p -> payloads_fit b (peer (pt_task p))) ->
  let l := completion (owned r (iteration (peers r))) in
  map PeerSnapshot.remote_addr (snapshot_peers snap) = map fst l /\
  Forall2 (fun kv s => from_parent r r' kv.1 s /\ exists v, into_validated s b = Ok v) l (snapshot_peers snap).
Proof.
  intros Hr Hf Hfit l. pose proof (follow_freeze_peers envs iteration completion show_error config local turns r r' _ Hf) as Hfo.
  pose proof (follow_ok _ _ _ Hfo Hr) as Hr'. unfold freeze_peers in Hf. apply bind_Some in Hf as ([r1 xs] & Hj & Hf).
  destruct (first_failure xs) as [e|] eqn:Hff; [by destruct (resume_peer_controls iteration r1) as [r2 [?|?| |]]; simplify_eq|].
  injection Hf as <- <-. cbn [snapshot_peers]. fold l in Hj.
  assert (Hl : l ≡ₚ owned r (iteration (peers r))) by apply Hco.
  destruct (owned_ids_NoDup b r (iteration (peers r)) Hr (Hit _)) as [Hids _].
  assert (Hnd : NoDup (map snd l)) by (change (NoDup (l.*2)); by rewrite Hl).
  pose proof (join_all_sealed envs turns l r r1 xs Hnd Hj Hff) as Hsealed.
  assert (Hin : forall kv, kv ∈ l -> peers r !! kv.1 = Some kv.2 /\ is_router_owned kv.2 r = true).
  { intros [a id] Hkv. rewrite Hl in Hkv. unfold owned in Hkv. apply list_elem_of_filter in Hkv as [Ho Hkv].
    rewrite Hit in Hkv. apply elem_of_map_to_list in Hkv. done. }
  clear Hj Hnd Hl. clearbody l. revert Hin. generalize dependent (successes xs). clear Hff. induction l as [|kv l IH]; intros ss Hsealed Hin.
  { inversion Hsealed. by split. }
  inversion Hsealed as [|? s ? ss' (p & Hp & Hs) Hrest]; subst.
  destruct (Hin kv ltac:(by left)) as [Hkv Ho].
  destruct (ro_peers _ _ Hr' kv.1 kv.2) as (q & Hq & Hqa); [by rewrite (fo_peers _ _ _ Hfo)|].
  assert (q = p) as -> by congruence.
  destruct (sealed_admitted b (pt_addr p) (pt_task p) s) as (Hra & v & Hv & _); [apply (ro_tasks _ _ Hr' _ _ Hp)|done|by eapply Hfit|].
  destruct (IH ss' Hrest) as [E F]; [intros kv' Hkv'; apply Hin; by right|].
  split; [cbn; congruence|]. constructor; [|done]. split; [|by exists v]. by exists kv.2, p.
Qed.
End Arrival.

Lemma router_new_tasks paused id p : tasks (router_new paused) !! id = Some p -> (id < next_task (router_new paused))%nat.
Proof. cbn [router_new tasks]. by rewrite lookup_empty. Qed.

(** ** A peer that has closed *)

(** The task of [id] is over. *)
Definition over (id : nat) (r : Router) : Prop := exists p, tasks r !! id = Some p /\ status (pt_task p) = Finished.
Lemma try_send_over c t : status t = Finished -> try_send c t = (t, Err Closed).
Proof. intros Hs. unfold try_send. by rewrite Hs. Qed.
Lemma over_alter id j t r p :
  over id r -> tasks r !! j = Some p -> (status (pt_task p) = Finished -> status t = Finished) -> over id (alter_task (fun _ => t) j r).
Proof.
  intros (q & Hq & Hs) Hp Ht. unfold over. cbn. destruct (decide (j = id)) as [->|Hne].
  - assert (p = q) as -> by congruence. rewrite lookup_alter_eq, Hq. eexists. split; [done|]. by apply Ht.
  - rewrite lookup_alter_ne by done. by exists q.
Qed.
Lemma resume_over l id : forall r, over id r -> id ∈ map snd l -> exists e, (resume_controls l r).2 = Err e.
Proof.
  induction l as [|[a j] l IH]; intros r Ho Hin; [by apply elem_of_nil in Hin|]. cbn in Hin |- *.
  destruct (tasks r !! j) as [p|] eqn:Hp.
  - destruct (resume_control (pt_task p)) as [t outcome] eqn:Hr.
    assert (Hkeep : status (pt_task p) = Finished -> t = pt_task p /\ outcome = Err Closed).
    { intros Hs. unfold resume_control in Hr. rewrite (try_send_over _ _ Hs) in Hr. by simplify_eq. }
    assert (Hres : match outcome with Ok _ | Err _ => True | _ => False end).
    { unfold resume_control, try_send in Hr. repeat case_match; by simplify_eq. }
    destruct outcome as [u|e| |]; try done; [|by exists e]. apply IH.
    + apply (over_alter id j t r p Ho Hp). intros Hs. by destruct (Hkeep Hs) as [-> _].
    + apply elem_of_cons in Hin as [->|Hin]; [|done]. destruct Ho as (q & Hq & Hs). assert (q = p) as -> by congruence. by destruct (Hkeep Hs).
  - apply IH; [done|]. apply elem_of_cons in Hin as [->|Hin]; [|done]. destruct Ho as (q & Hq & _). congruence.
Qed.
Lemma freeze_over (envs : nat -> Env) turns l id : forall r r' xs, over id r -> id ∈ map snd l ->
  join_all (fun id => control_freeze_for_transfer (envs id) (turns id)) l r = Some (r', xs) -> exists e, first_failure xs = Some e.
Proof.
  induction l as [|[a j] l IH]; intros r r' xs Ho Hin Hj; [by apply elem_of_nil in Hin|]. cbn in Hin, Hj.
  apply bind_Some in Hj as (p & Hp & Hj). apply bind_Some in Hj as ([t x] & Hc & Hj). apply bind_Some in Hj as ([r1 ys] & Hj & [= <- <-]).
  assert (Hkeep : status (pt_task p) = Finished -> t = pt_task p /\ x = Err Closed).
  { intros Hs. unfold control_freeze_for_transfer, control_freeze, control_call in Hc. rewrite (try_send_over _ _ Hs) in Hc. cbn in Hc. by simplify_eq. }
  pose proof (freeze_for_transfer_result _ _ _ _ _ Hc) as Hx. destruct x as [s|e| |]; try done; [|by exists e]. cbn.
  eapply (IH (alter_task (fun _ => t) j r)); [| |exact Hj].
  - apply (over_alter id j t r p Ho Hp). intros Hs. by destruct (Hkeep Hs) as [-> _].
  - apply elem_of_cons in Hin as [->|Hin]; [|done]. destruct Ho as (q & Hq & Hs). assert (q = p) as -> by congruence. by destruct (Hkeep Hs).
Qed.

(** ** Properties *)


(** C18: what a server seals arrives at its successor.  When a freeze succeeds, the checkpoints are
    those of exactly the peers that the router owns, each of them taken at the instant at which that
    peer froze; as long as the payloads that wait fit the budget, every checkpoint is validated, a
    successor with the same budgets imports them all, and it then has a frozen peer restored from
    that checkpoint under each of these addresses and no other peer. *)
Theorem sealed_server_arrives envs started iteration completion show_addr show_error config local paused r turns r' snap envs' started' show_addr' :
  budgets_ok (sc_budgets config) -> 0 <= peer_command_queue (sc_budgets config) -> 0 <= peer_ingress_queue (sc_budgets config) ->
  0 <= max_peers (sc_budgets config) < usize_max ->
  (forall m, iteration m ≡ₚ map_to_list m) -> (forall l, completion l ≡ₚ l) ->
  server_run envs started iteration completion show_addr show_error config local (router_new paused) r ->
  freeze_peers envs iteration completion show_error local turns r = Some (r', Ok snap) ->
  (forall id p, tasks r' !! id = Some p -> payloads_fit (sc_budgets config) (peer (pt_task p))) ->
  exists vs child ids,
    collect_results (fun s => into_validated s (sc_budgets config)) (snapshot_peers snap) = Ok vs /\
    import_peers envs' started' show_addr' config vs (router_new true) = (child, Ok ids) /\
    forall a, match peers child !! a with
      | Some id' => exists v q, from_parent r r' a (checkpoint v) /\ tasks child !! id' = Some q /\ pt_task q = imported_task envs' started' config id' v
      | None => forall id, peers r !! a = Some id -> is_router_owned id r = false
      end.
Proof.
  intros Hb Hc Hi Hm Hit Hco Hrun Hf Hfit.
  pose proof (ok_run envs started iteration completion show_addr show_error config local Hb Hc Hi Hm _ _ Hrun (ok_router_new config Hm paused)) as Hr.
  destruct (freeze_peers_sealed envs iteration completion show_error config local Hit Hco turns r r' snap Hr Hf Hfit) as [Haddr Hsnap].
  set (l := completion (owned r (iteration (peers r)))) in *.
  destruct (collect_validated (sc_budgets config) (snapshot_peers snap)) as (vs & Hvs & Hval).
  { apply Forall_forall. intros s Hs. apply list_elem_of_lookup in Hs as [i Hs]. destruct (Forall2_lookup_r _ _ _ _ _ Hsnap Hs) as (kv & _ & _ & Hv). exact Hv. }
  destruct (validated_addrs _ _ _ Hval) as (Hva & Hvb & Hvc).
  assert (Hl : l ≡ₚ owned r (iteration (peers r))) by apply Hco.
  destruct (owned_ids_NoDup _ r (iteration (peers r)) Hr (Hit _)) as [_ Hnd].
  assert (Himp : importable config (router_new true) vs).
  { split_and!; [done| | |apply Forall_true; intros v; apply lookup_empty|].
    - cbn [peers router_new]. rewrite map_size_empty. pose proof (ro_size _ _ Hr) as Hs.
      assert (Hlen : (length vs <= size (peers r))%nat).
      { rewrite <- (length_map v_addr vs), Hva, Haddr, length_map, Hl. unfold owned. rewrite length_filter. by rewrite Hit, length_map_to_list. }
      unfold saturating_add. lia.
    - rewrite Hva, Haddr. change (NoDup (l.*1)). rewrite Hl. exact Hnd.
    - destruct l as [|kv l0] eqn:El; [left; destruct vs; [done|discriminate (eq_trans Hva Haddr)]|right].
      assert (Hkv : kv ∈ owned r (iteration (peers r))) by (rewrite <- Hl; left).
      apply list_elem_of_filter in Hkv as [_ Hkv]. rewrite (Hit _) in Hkv. destruct kv as [a id]. apply elem_of_map_to_list in Hkv.
      destruct (ro_peers _ _ Hr _ _ Hkv) as (p & Hp & _). apply (ro_tasks _ _ Hr _ _ Hp). }
  pose proof (import_peers_spec envs' started' show_addr' config vs (router_new true) (router_new_tasks true)) as Hspec.
  destruct (import_peers envs' started' show_addr' config vs (router_new true)) as [child [ids|e| |]] eqn:Hcall; try done; [|by destruct Hspec as [_ []]].
  destruct Hspec as (_ & I1 & _ & I3). exists vs, child, ids. split; [done|]. split; [done|]. intros a.
  destruct (decide (a ∈ map v_addr vs)) as [Ha|Ha].
  - apply list_elem_of_fmap in Ha as (v & -> & Hv). destruct (I3 v Hv) as (id' & E & Ht). rewrite E. exists v, (mkPeerTask (v_addr v) (imported_task envs' started' config id' v) false). split; [|done].
    apply list_elem_of_lookup in Hv as [i Hv]. destruct (Forall2_lookup_r _ _ _ _ _ Hvc Hv) as (s & Hs & Hcs).
    destruct (Forall2_lookup_r _ _ _ _ _ Hsnap Hs) as (kv & Hkv & Hfrom & _). rewrite Hcs. unfold v_addr. rewrite Hcs.
    assert (E1 : PeerSnapshot.remote_addr s = kv.1); [|by rewrite E1].
    pose proof (f_equal (fun m => m !! i) Haddr) as Ei. cbn in Ei. rewrite !list_lookup_fmap, Hs, Hkv in Ei. by simplify_eq/=.
  - rewrite I1 by done. cbn [peers router_new]. rewrite lookup_empty. intros id Hid. destruct (is_router_owned id r) eqn:Ho; [|done].
    exfalso. apply Ha. rewrite Hva, Haddr. apply list_elem_of_fmap. exists (a, id). split; [done|]. rewrite Hl. unfold owned.
    apply list_elem_of_filter. split; [done|]. rewrite Hit. by apply elem_of_map_to_list.
Qed.

(** *** At concrete inputs *)

Definition sample_checkpoint : ValidatedPeerSnapshot :=
  mkValidated (snapshot 5 (peer (start_new sample_addr 1400 default_budgets 0 quiet))) (mkIndexes ∅ ∅) default_budgets.
Definition sample_freeze : option (Router * result RakNetError ServerSnapshot) :=
  freeze_peers (fun _ => sample_env) map_to_list id (fun _ => EmptyString) sample_addr (fun _ => (1, 1)%nat) sample_connected.
Definition sample_frozen_router : Router := match sample_freeze with Some (r, _) => r | None => sample_connected end.
Definition sample_sealed_peers : list PeerSnapshot := match sample_freeze with Some (_, Ok s) => snapshot_peers s | _ => [] end.
Lemma sample_freeze_eq : sample_freeze = Some (sample_frozen_router, Ok (mkServerSnapshot sample_addr sample_sealed_peers)).
Proof. vm_compute. reflexivity. Qed.
Lemma sample_frozen_tasks : exists p, tasks sample_frozen_router = {[0%nat := p]} /\ queue (inbox (peer (pt_task p))) = [] /\ ordered_holdback (peer (pt_task p)) = ∅.
Proof. eexists. split; [vm_compute; reflexivity|]. split; reflexivity. Qed.
Lemma sealed_server_arrives_witness :
  exists vs child ids,
    import_peers (fun _ => sample_env) sample_started (fun _ => EmptyString) sample_config vs (router_new true) = (child, Ok ids) /\
    is_Some (peers child !! sample_addr).
Proof.
  assert (Hfit : forall id p, tasks sample_frozen_router !! id = Some p -> payloads_fit default_budgets (peer (pt_task p))).
  { destruct sample_frozen_tasks as (p0 & E & Hq & Hh). intros id p Hp. rewrite E in Hp. apply lookup_singleton_Some in Hp as [_ <-].
    split; [rewrite Hq; constructor|rewrite Hh; apply map_Forall_empty]. }
  destruct (sealed_server_arrives (fun _ => sample_env) sample_started map_to_list id (fun _ => EmptyString) (fun _ => EmptyString) sample_config
    sample_addr false sample_connected (fun _ => (1, 1)%nat) sample_frozen_router (mkServerSnapshot sample_addr sample_sealed_peers)
    (fun _ => sample_env) sample_started (fun _ => EmptyString) sample_budgets_ok ltac:(done) ltac:(done) ltac:(done) ltac:(done) ltac:(done)
    sample_run sample_freeze_eq Hfit) as (vs & child & ids & _ & Himp & H).
  exists vs, child, ids. split; [exact Himp|]. specialize (H sample_addr). destruct (peers child !! sample_addr) as [i|]; [by eexists|].
  exfalso. specialize (H 0%nat ltac:(vm_compute; reflexivity)). vm_compute in H. discriminate H.
Defined.

(** ** The handle and the router *)

(** The modes of the router that the type of the handle says. *)
Definition handle_fits (h : ServerHandle) (r : Router) : Prop :=
  match h with
  | HandleServing => frozen r = false /\ receive_paused r = false
  | HandlePaused => frozen r = false /\ receive_paused r = true
  | HandleFrozen _ => frozen r = true
  end.
Definition same_modes (r r' : Router) : Prop := frozen r' = frozen r /\ receive_paused r' = receive_paused r.
Lemma same_modes_trans r1 r2 r3 : same_modes r1 r2 -> same_modes r2 r3 -> same_modes r1 r3.
Proof. intros [] []. split; congruence. Qed.
Lemma modes_join_all {A} (call : nat -> Task -> option (Task * A)) l : forall r r' xs, join_all call l r = Some (r', xs) -> same_modes r r'.
Proof.
  induction l as [|[a id] l IH]; intros r r' xs Hj; cbn in Hj; [by simplify_eq|].
  apply bind_Some in Hj as (p & Hp & Hj). apply bind_Some in Hj as ([t x] & Hc & Hj). apply bind_Some in Hj as ([r1 ys] & Hj & [= <- <-]).
  eapply same_modes_trans; [|exact (IH _ _ _ Hj)]. done.
Qed.
Lemma modes_resume_controls l : forall r, same_modes r (resume_controls l r).1.
Proof.
  induction l as [|[a id] l IH]; intros r; [done|]. cbn. destruct (tasks r !! id); [|apply IH].
  destruct (resume_control _) as [t [x|e| |]]; try done. eapply same_modes_trans; [|apply IH]. done.
Qed.
Section Modes.
Context (envs : nat -> Env) (started : nat -> Z * IO).
Context (iteration : gmap SocketAddr nat -> list (SocketAddr * nat)) (completion : list (SocketAddr * nat) -> list (SocketAddr * nat)).
Context (show_addr : SocketAddr -> string) (show_error : RakNetError -> string).
Context (config : ServerConfig) (local : SocketAddr).
Lemma modes_freeze_peers turns r r' x : freeze_peers envs iteration completion show_error local turns r = Some (r', x) -> same_modes r r'.
Proof.
  unfold freeze_peers. intros ([r1 l] & Hj & H)%bind_Some. apply modes_join_all in Hj.
  destruct (first_failure l); [|by simplify_eq]. pose proof (modes_resume_controls (owned r1 (iteration (peers r1))) r1) as Hm.
  unfold resume_peer_controls in H. destruct (resume_controls _ _) as [r2 y]. eapply same_modes_trans; [exact Hj|]. by destruct y; simplify_eq.
Qed.
Lemma modes_resume_peers turns r r' x : resume_peers envs iteration completion show_error turns r = Some (r', x) -> same_modes r r'.
Proof.
  unfold resume_peers, resume_peer_controls. pose proof (modes_resume_controls (owned r (iteration (peers r))) r) as Hm.
  destruct (resume_controls _ _) as [r1 y]. destruct y as [y|e| |]; intros H; [by simplify_eq| |by simplify_eq..].
  apply bind_Some in H as ([r2 z] & Hf & H). apply bind_Some in Hf as ([r3 l] & Hj & [= <- <-]). apply modes_join_all in Hj.
  eapply same_modes_trans; [exact Hm|]. by destruct (collect_peer_control_results _ _ _); simplify_eq.
Qed.
Lemma modes_remove_peer a r : same_modes r (remove_peer a r).
Proof. unfold remove_peer. by destruct (peers r !! a). Qed.
Lemma modes_route_packet sends a bytes r : same_modes r (route_packet envs started config sends a bytes r).1.
Proof.
  unfold route_packet. destruct (decode_offline_request bytes) as [[[time|protocol mtu|mtu guid]|]|e| |]; try done; cbn.
  - destruct (encode_unconnected_pong _ _ _); try done. by destruct sends.
  - by destruct sends.
  - destruct (peers r !! a); [by destruct sends|]. destruct (_ <=? _); [done|]. rewrite start_peer_eq. destruct (open_channels_cases (sc_budgets config)) as [Ho|Ho]; rewrite Ho; [by destruct sends|done].
  - destruct (peers r !! a) as [id|]; [|done]. destruct (tasks r !! id); [|done]. destruct (deliver _ _ _) as [t [x|[]| |]]; done.
Qed.
(** Only a command changes the mode. *)
Lemma modes_event ev r r' :
  (match ev with RtCommand _ _ _ => False | _ => True end) ->
  router_event envs started iteration completion show_addr show_error config local ev r = Some r' -> same_modes r r'.
Proof.
  intros Hev H. destruct ev as [a bytes sends|kind| |c turns sent| |id x|id]; try done; cbn [router_event] in H.
  - destruct (listens r); [|done]. injection H as <-. unfold receive. pose proof (modes_route_packet sends a bytes r) as Hm.
    destruct (route_packet _ _ _ _ _ _ _) as [r1 [x|e| |]]; try exact Hm. eapply same_modes_trans; [exact Hm|apply modes_remove_peer].
  - destruct (listens r); [|done]. injection H as <-. by destruct kind.
  - destruct (listens r); [|done]. unfold hear_closed in H. destruct (closed_rx r) as [|a rest]; [done|]. injection H as <-.
    eapply same_modes_trans; [|apply modes_remove_peer]. done.
  - destruct (stopped r); [done|]. by injection H as <-.
  - destruct (bool_decide _); [|done]. by injection H as <-.
  - apply bind_Some in H as (p & _ & H). destruct (_ && _); [|done]. cbv zeta in H. injection H as <-. cbn. by destruct (stopped r).
Qed.
(** The server after its start: calls of the handle, and whatever else happens. *)
Inductive served : ServerHandle -> Router -> Prop :=
| served_start : served HandleServing (router_new false)
| served_start_paused : served HandlePaused (router_new true)
| served_call h r m turns sent r' h' x :
    served h r -> handle_call envs started iteration completion show_addr show_error config local turns sent m h r = Some (r', Some h', x) -> served h' r'
| served_import r l turns sent r' x :
    served HandlePaused r -> import_server envs started iteration completion show_addr show_error config local turns sent l r = Some (r', x) -> served HandlePaused r'
| served_event h r ev r' :
    served h r -> (match ev with RtCommand _ _ _ => False | _ => True end) ->
    router_event envs started iteration completion show_addr show_error config local ev r = Some r' -> served h r'.
Lemma fits_modes h r r' : same_modes r r' -> handle_fits h r -> handle_fits h r'.
Proof. intros [E1 E2]. destruct h; cbn; by rewrite E1, ?E2. Qed.
Lemma consume_handle_Some turns sent c next r r' h' x :
  consume_handle envs started iteration completion show_addr show_error config local turns sent c next r = Some (r', Some h', x) ->
  h' = next /\ run_command envs started iteration completion show_addr show_error config local turns sent c r = Some (r', ReplyUnit (Ok tt)).
Proof.
  unfold consume_handle, server_call. intros ([r1 reply] & Hc & H)%bind_Some. destruct (stopped r); [by simplify_eq|].
  apply bind_Some in Hc as ([r2 y] & Hc & [= <- <-]). destruct y as [[[]|e| |]|s|ids]; cbn in H; by simplify_eq.
Qed.
Lemma fits_call h r m turns sent r' h' x :
  handle_fits h r -> handle_call envs started iteration completion show_addr show_error config local turns sent m h r = Some (r', Some h', x) -> handle_fits h' r'.
Proof.
  intros Hh H. assert (Hfreeze : frozen r = false ->
    freeze_server envs started iteration completion show_addr show_error config local turns sent h r = Some (r', h', x) -> handle_fits h' r').
  { intros Hfr Hf. unfold freeze_server, server_call in Hf. apply bind_Some in Hf as ([r1 reply] & Hc & Hf).
    destruct (stopped r); [by simplify_eq|]. apply bind_Some in Hc as ([r2 y] & Hc & [= <- <-]). cbn [run_command] in Hc. rewrite Hfr, andb_false_r in Hc.
    apply bind_Some in Hc as ([r3 z] & Hp & [= <- <-]). apply modes_freeze_peers in Hp. destruct z as [s|e| |]; simplify_eq; [done|]. exact (fits_modes _ _ _ Hp Hh). }
  destruct m, h as [| |sealed]; try done; cbn [handle_call] in H.
  1,2: apply bind_Some in H as ([[r1 h1] x1] & Hf & [= <- <- <-]); apply Hfreeze; [apply Hh|done].
  - apply consume_handle_Some in H as [-> [= <-]]. split; [apply Hh|done].
  - apply consume_handle_Some in H as [-> H]. cbn [run_command] in H. destruct Hh as [Hf Hp]. rewrite Hp, orb_true_r in H.
    apply bind_Some in H as ([r1 y] & Hr & [= <- ->]). apply modes_resume_peers in Hr as [E _]. cbn. rewrite E. done.
  - apply consume_handle_Some in H as [-> H]. cbn [run_command] in H. cbn in Hh. rewrite Hh in H. cbn [orb] in H.
    apply bind_Some in H as ([r1 y] & Hr & [= <- ->]). done.
Qed.
Lemma modes_import_peers l r : same_modes r (import_peers envs started show_addr config l r).1.
Proof.
  assert (Hloop : forall l r, same_modes r (import_loop envs started config l r).1).
  { clear. induction l as [|v l IH]; intros r; [done|]. cbn [import_loop].
    assert (H : same_modes r (import_peer envs started config v r).1) by (unfold import_peer; destruct (started (next_task r)); by case_match).
    destruct (import_peer envs started config v r) as [r1 got]. specialize (IH r1). destruct (import_loop envs started config l r1).
    exact (same_modes_trans _ _ _ H IH). }
  unfold import_peers. repeat case_match; simplify_eq; try done. pose proof (Hloop (merge_sort addr_le l) r) as Hm.
  by destruct (import_loop envs started config (merge_sort addr_le l) r); simplify_eq.
Qed.
Lemma fits_served h r : served h r -> handle_fits h r.
Proof.
  induction 1 as [| |h r m turns sent r' h' x _ IH H|r l turns sent r' x _ IH H|h r ev r' _ IH Hev H]; [done|done| | |].
  - exact (fits_call _ _ _ _ _ _ _ _ IH H).
  - unfold import_server, server_call in H. destruct (stopped r); cbn in H; [by simplify_eq|].
    pose proof (modes_import_peers l r) as Hm. destruct (_ || _); cbn in H; [|by simplify_eq].
    destruct (import_peers envs started show_addr config l r); cbn in H. simplify_eq. exact (fits_modes _ _ _ Hm IH).
  - exact (fits_modes _ _ _ (modes_event _ _ _ Hev H) IH).
Qed.
End Modes.

(** C22: the type of the handle tells what the router does.  Whatever calls it made (freezing, pausing,
    importing, resuming), whether they failed, and whatever happened meanwhile: the router of a
    [Serving] handle receives datagrams, failures of the socket and the news of closed peers until it
    has stopped; the router of a [ReceivePaused] or [Frozen] handle receives none of them; the router
    is frozen for [Frozen] handles alone; and where it has stopped, every call on the handle leaves it
    as it is and fails with [Closed]. *)
Theorem handle_tells_mode envs started iteration completion show_addr show_error config local h r :
  served envs started iteration completion show_addr show_error config local h r ->
  let event ev := router_event envs started iteration completion show_addr show_error config local ev r in
  let receives := match h with HandleServing => negb (stopped r) | _ => false end in
  (forall a bytes sends, event (RtReceived a bytes sends) = if receives then Some (receive envs started config sends a bytes r) else None) /\
  (forall kind, event (RtReceiveFails kind) = if receives then Some (if recoverable_udp_receive_error kind then r else router_stop r) else None) /\
  event RtClosed = (if receives then hear_closed r else None) /\
  frozen r = (match h with HandleFrozen _ => true | _ => false end) /\
  (stopped r = true -> forall turns sent,
    (forall m r' h' x, handle_call envs started iteration completion show_addr show_error config local turns sent m h r = Some (r', h', x) ->
      r' = r /\ x = Err Closed) /\
    (forall l, import_server envs started iteration completion show_addr show_error config local turns sent l r = Some (r, Err Closed))).
Proof.
  intros Hs event receives. assert (Hl : listens r = receives).
  { apply fits_served in Hs. unfold listens, receives. destruct h; cbn in Hs; [|by destruct Hs as [-> ->]|by rewrite Hs].
    destruct Hs as [-> ->]. done. }
  subst event. cbn beta. cbn [router_event]. rewrite Hl. split_and!; [done..| |].
  - apply fits_served in Hs. destruct h; cbn in Hs; [by destruct Hs|by destruct Hs|done].
  - intros Hstop turns sent. split; [|intros l; unfold import_server, server_call; by rewrite Hstop].
    intros m r' h' x. unfold handle_call, freeze_server, pause_receive, resume_receive, resume_server, consume_handle, server_call.
    rewrite Hstop. destruct m, h; cbn; (discriminate || by intros [= <- _ <-]).
Qed.
Lemma handle_tells_mode_witness :
  exists r', pause_receive (fun _ => sample_env) sample_started map_to_list id (fun _ => EmptyString) (fun _ => EmptyString) sample_config sample_addr
    (fun _ => (1, 1)%nat) (fun _ => false) (router_new false) = Some (r', Some HandlePaused, Ok tt) /\
    router_event (fun _ => sample_env) sample_started map_to_list id (fun _ => EmptyString) (fun _ => EmptyString) sample_config sample_addr
      (RtReceived sample_addr sample_open true) r' = None.
Proof.
  eexists. split; [reflexivity|].
  refine (proj1 (handle_tells_mode (fun _ => sample_env) sample_started map_to_list id (fun _ => EmptyString) (fun _ => EmptyString) sample_config
    sample_addr HandlePaused _ _) sample_addr sample_open true).
  eapply (served_call _ _ _ _ _ _ _ _ HandleServing (router_new false) MethodPause); [apply served_start|reflexivity].
Unshelve. all: first [exact (fun _ => (1, 1)%nat) | exact (fun _ => false)].
Defined.

(** C24: a peer of the handshake that closes while receiving is paused blocks the server.  The router
    does not hear of it, since it only listens to commands then; its control stays, and fails every
    freeze and every resumption, whatever the turns of the others.  A failed [resume_receive]
    consumes the handle. *)
Theorem closed_peer_blocks_paused envs started iteration completion show_addr show_error config local r a id p turns sent :
  (forall m, iteration m ≡ₚ map_to_list m) -> (forall l, completion l ≡ₚ l) ->
  receive_paused r = true -> frozen r = false -> stopped r = false ->
  peers r !! a = Some id -> tasks r !! id = Some p -> router_owned (peer (pt_task p)) = true -> status (pt_task p) = Finished ->
  router_event envs started iteration completion show_addr show_error config local RtClosed r = None /\
  (forall r' h x, handle_call envs started iteration completion show_addr show_error config local turns sent MethodResumeReceive HandlePaused r = Some (r', h, x) ->
     h = None /\ exists e, x = Err e) /\
  (forall r' h x, handle_call envs started iteration completion show_addr show_error config local turns sent MethodFreeze HandlePaused r = Some (r', h, x) ->
     h = Some HandlePaused /\ exists e, x = Err e).
Proof.
  intros Hit Hco Hpause Hfroz Hstop Ha Hp Hown Hs.
  assert (Ho : over id r) by by exists p.
  assert (Hin : id ∈ map snd (owned r (iteration (peers r)))).
  { apply list_elem_of_fmap. exists (a, id). split; [done|]. unfold owned. apply list_elem_of_filter. split; [cbn; unfold is_router_owned; by rewrite Hp|].
    rewrite Hit. by apply elem_of_map_to_list. }
  split; [cbn; unfold listens; by rewrite Hpause, andb_false_r|]. split; intros r' h x H; cbn [handle_call] in H.
  - unfold resume_receive, consume_handle, server_call in H. rewrite Hstop in H. cbn [run_command] in H. rewrite Hpause, orb_true_r in H.
    apply bind_Some in H as ([r1 reply] & Hc & H). apply bind_Some in Hc as ([r2 y] & Hc & [= <- <-]). apply bind_Some in Hc as ([r3 z] & Hc & [= <- <-]).
    destruct (resume_over _ _ _ Ho Hin) as [e He]. unfold resume_peers, resume_peer_controls in Hc. destruct (resume_controls _ _) as [r4 w]. cbn in He. subst w.
    apply bind_Some in Hc as ([r5 v] & _ & Hc). assert (Hz : exists e', z = Err e') by (destruct v; simplify_eq; eauto).
    destruct Hz as [e' ->]. cbn in H. simplify_eq. eauto.
  - apply bind_Some in H as ([[r1 h1] x1] & H & [= <- <- <-]). unfold freeze_server, server_call in H. rewrite Hstop in H. cbn [run_command] in H.
    rewrite Hfroz, andb_false_r in H. apply bind_Some in H as ([r2 reply] & Hc & H). apply bind_Some in Hc as ([r3 y] & Hc & [= <- <-]).
    apply bind_Some in Hc as ([r4 z] & Hc & [= <- <-]). unfold freeze_peers in Hc. apply bind_Some in Hc as ([r5 xs] & Hj & Hc).
    assert (Hin' : id ∈ map snd (completion (owned r (iteration (peers r))))).
    { change (id ∈ (completion (owned r (iteration (peers r)))).*2). by rewrite Hco. }
    destruct (freeze_over envs turns _ _ _ _ _ Ho Hin' Hj) as [e He]. rewrite He in Hc.
    assert (Hz : exists e', z = Err e') by (destruct (resume_peer_controls iteration r5) as [? [?|?| |]]; simplify_eq; eauto).
    destruct Hz as [e' ->]. simplify_eq. eauto.
Qed.
Definition sample_paused_closed : Router :=
  mkRouter {[sample_addr := 0%nat]} []
    {[0%nat := mkPeerTask sample_addr (stop (start_new sample_addr 1400 default_budgets 0 quiet)) false]} 1 true false false [].
Lemma closed_peer_blocks_paused_witness :
  exists r' h e, handle_call (fun _ => sample_env) sample_started map_to_list (fun l => l) (fun _ => EmptyString) (fun _ => EmptyString) sample_config sample_addr
    (fun _ => (1, 1)%nat) (fun _ => false) MethodResumeReceive HandlePaused sample_paused_closed = Some (r', h, Err e) /\ h = None.
Proof.
  destruct (closed_peer_blocks_paused (fun _ => sample_env) sample_started map_to_list (fun l => l) (fun _ => EmptyString) (fun _ => EmptyString) sample_config
    sample_addr sample_paused_closed sample_addr 0%nat _ (fun _ => (1, 1)%nat) (fun _ => false) ltac:(done) ltac:(done) eq_refl eq_refl eq_refl
    ltac:(vm_compute; reflexivity) ltac:(vm_compute; reflexivity) ltac:(vm_compute; reflexivity) ltac:(vm_compute; reflexivity)) as (_ & H & _).
  destruct (handle_call _ _ _ _ _ _ _ _ _ _ MethodResumeReceive HandlePaused sample_paused_closed) as [[[r' h] x]|] eqn:E.
  - destruct (H r' h x eq_refl) as [-> [e ->]]. exists r', None, e. split; reflexivity.
  - exfalso. vm_compute in E. discriminate E.
Defined.
